(* ===== verification/_CoqProject ===== *)
-Q . S2P
Prelude.v
Text.v
F64.v
Json.v
Naming.v
Classify.v
Crd.v
Layout.v
State.v
Controller.v
Lifecycle.v
Damage.v
Publish.v
Version.v
Host.v
Remote.v
Pin.v
Resolve.v
Defaults.v
Gate.v
Bump.v
Ecosystems.v
Calendar.v
Letterboxd.v
Ota.v
Tracks.v
Makemkv.v
Lsdvd.v
Work.v
Inspect.v
Encode.v
Review.v
Job.v
Backup.v
Agent.v
Org.v
Caldav.v
Bridge.v
Codec.v
Threads.v
SeerrSso.v
Markers.v
E2e.v
Trace.v
Apps.v
Sweep.v
Marked.v
Bootstrap.v
Servarr.v
Wired.v
AlertDigest.v
AlertMail.v
Serde.v
JellyfinBootstrap.v
JellyfinSetup.v
JellyfinDue.v
SsoToken.v
SsoSafe.v
Keycloak.v
Ombi.v
OmbiSync.v
Syncthing.v
HubSync.v
Bazarr.v
BazarrPlan.v
Web.v
Import.v
ImportSafe.v
Kavita.v
Media.v
Maintainerr.v
SeerrSetup.v
Ryot.v
RyotDue.v
RyotTrakt.v
Html.v
Miniflux.v
