(* ===== verification/Prelude.v ===== *)
(** * A verification library for the Rust programs of this repository

    The repository runs a home cluster. Its own programs are in Rust; this library models their logic, definition by
    definition as the source has it, and proves what makes each correct. Definitions are executable: a witness evaluates
    them on a concrete input. What a program does to the world, and what the world answers, is outside it.

    ** The programs, and the files that model them

    - [apps/dvdrip] turns a disc in a drive into films in a library. An agent per drive makes an image of the disc and a
      [Disc] object for it; a controller starts the Job that encodes it, waits for a review, and starts the one that
      publishes it; a web page shows the state. [Naming] (naming.rs), [Classify] (classify.rs), [Layout] (layout.rs),
      [Damage] (damage.rs), [Tracks] (tracks.rs), [Makemkv] (makemkv.rs), [Lsdvd] (lsdvd.rs) and [Crd] (crd.rs) are its
      pure parts. [State] is the monad of the parts with effects: [Controller] (controller.rs: [decide] and [apply]
      against the API server), [Publish] (publish.rs on three volumes), [Work] (tool.rs) with [Inspect], [Encode],
      [Review] and [Job] (inspect.rs, encode.rs, review.rs, job.rs: the steps of an encode on one machine), [Backup]
      (backup.rs) and [Agent] (agent.rs). [Lifecycle] puts the controller, the Jobs, the edits of people and the agent
      into one step relation on a Disc. [Web] (web.rs) is the page, [Import] (import.rs) makes Discs of old rips, and
      [ImportSafe] proves what it promises.
    - [tools/update] moves pinned versions forward. [Version], [Pin] and [Defaults] are data; [Host] is the machine,
      [Remote] the registries, [Resolve] the new version and its hashes, [Gate] the validation, [Bump] the run over all
      pins, [Ecosystems] the lockfiles and the command line.
    - [apps/letterboxd-sync] carries plays from Trakt to Letterboxd once a day: [Letterboxd], on the dates of [Calendar].
    - [embedded/shared/ota] updates microcontrollers over the air: [Ota].
    - [org-bridge] shows org notes in a calendar: [Org] (orgparse.rs), [Caldav] (caldav.rs), [Bridge] (bridge.rs,
      state.rs, main.rs).
    - [apps/seerr-sso] is a proxy that signs people in to Seerr: [SeerrSso], whose handlers run concurrently ([Threads]).
    - [apps/sso-token] gets tokens for command lines: [SsoToken] (main.rs, store.rs, mcp.rs), with [SsoSafe] for what
      is proved.
    - [apps/e2e] tests the cluster from end to end: [Markers] (ctx.rs), [E2e] (flow.rs, report.rs, main.rs), and the
      media family's clients and cleanup, [Apps] (ctx.rs, media/apps.rs), [Sweep] (media/cleanup.rs), [Marked].
    - [apps/app-bootstrap] and [apps/jellyfin-bootstrap] bring an app into its declared configuration, as Jobs that are
      run again and again. [Bootstrap] (common.rs), [Codec] (its Base64) and [Serde] (structures read from JSON) are
      shared. One app each: [Servarr] (arr.rs), [AlertDigest] (alert_digest.rs), [JellyfinBootstrap] (main.rs),
      [Keycloak] (keycloak.rs), [Ombi] (ombi.rs), [Syncthing] (syncthing.rs), [Bazarr] (bazarr.rs), [Kavita] (kavita.rs),
      [Media] (jellyfin.rs, tracearr.rs, streamystats.rs), [Maintainerr] (maintainerr.rs), [SeerrSetup] (seerr.rs), [Ryot]
      (ryot.rs, ryot_wire.rs), [RyotTrakt] (ryot_trakt.rs), [Html] and [Miniflux] (miniflux.rs). What is proved
      of an app stands in its file or in the one named after it: [Wired] for the Servarr apps, [AlertMail], [JellyfinSetup]
      and [JellyfinDue], [OmbiSync], [HubSync], [BazarrPlan], [RyotDue].
    - [Prelude] (this file), [Text], [F64] (double precision floats, from the Standard Library's [spec_float]) and [Json]
      ([serde_json::Value]) are what all of them use.

    ** State and operations

    A Rust function is a definition of the same name, as far as Rocq allows it; a struct is a [Record], an enum an
    [Inductive], a [Result] a sum. Programs with effects have one of three shapes, by what their theorems need. Where a
    program's own state is what matters, it is a function on a [Record] in the monad of [State]: the world of the
    controller, the three volumes, the machine of a Job, the flash. Where it only sends and is answered, it is a program of
    actions ([Trace.M], with the actions of [Apps.Act]: HTTP, files, commands, a connection, a database), run against an
    outside whose every answer may depend on all that has happened. Where many tasks share state, they are the threads of
    [Threads], interleaved at every action. In all three an operation of the outside may fail, or be done and lose its
    reply, wherever it is called, so every run is also a run that dies there; the flash of [Ota] may also lose power before each
    operation and within a sector.

    ** What is proved

    A theorem's doc comment states its provisos. Where the program does not do what it means to, an example runs the case
    beside the theorem that leaves it out: a Job that could not be deleted ([failed_delete_doubles]), a stale watch cache
    ([stale_cache_doubles]), a path that could not be looked at ([failed_stat_overwrites]), titles that swap paths
    ([swapped_versions_lose_one]), a power cut in an activation ([cut_activation_loses_trial]), a ddrescuelog that fails
    ([failed_summary_drops_image]), headings of one path ([twins_swap]).

    - Nothing is lost: classification keeps every title in some role, publishing keeps foreign files and finishes what a
      crash left, a rescue keeps its image, importing keeps known Discs, a Letterboxd upload is not made twice and the
      cap on rows skips none, an update keeps the image a board can fall back to.
    - State machines: one unfinished Job per Disc under every interleaving while deletions of Jobs work and the controller
      sees the current Disc, a phase changes only along its edges, an edited spec is encoded again (in [Lifecycle], on a
      whole reconciliation), a disc reaches Done when the world lets it, an image on trial that does not prove itself is
      rolled back; the agent's code takes only the steps of [Lifecycle] ([handle_refines]).
    - Refinement and equivalence: [layout] is its specification, lsdvd's stack machine computes the recursive shape, and
      the fields read off a printed form are those a browser would submit.
    - What may be done, and when: [Trace.okay] is the judgement that a program only does what is allowed by what has been
      answered. With it every bootstrap's changes are due by an answer (the [*_due] theorems), the cleanup deletes marked
      objects only, a proxy forwards authorised requests only, and tokens go only where they belong. [Trace.fine] is the same
      with what an error may say; the messages of [sso-token] are shown to be made of texts that hold no token.
    - Reruns: what a run leaves is left alone by the next (the concrete runs at the end of [Wired], [JellyfinDue], [OmbiSync] and
      [HubSync], and the fixed points [profiles_settled], [oidc_settles], [webhook_settles]).
    - Round trips, bounds, termination: Base64, MakeMKV's fields, civil dates, run ids, stored tokens; the sector arithmetic of the flash and
      the widths of integers; the polling of a device grant.

    ** Fuel

    Recursion that is not structural has fuel, and a lemma or a remark that it is enough: [parse_fields], [split_str],
    [find_marker_from] and [attrs_from] use the length of the text, every round taking a character at least; [chunks_from]
    the length of the list; [PAGES_FUEL] bounds the pages of a Trakt history ([pages_complete] has
      it as a hypothesis: ten million plays); [poll_from] has
    [timeout / every + 2] rounds, as each lasts [every] at least; [retry] has the source's number of attempts; a device
    grant [expires_in + 2] rounds ([login_ends]); an SMTP dialogue [patience] lines, what its time limit admits; the walk
    of a library tree the depth of its files ([walk_enough]); [went_down] 15 rounds, a Seerr session 3 tries and a Trakt
    report 180 looks, as in the source.

    ** What is not modelled, and why

    - Text is a string of ASCII bytes, except where a file says otherwise. Messages are simplified where nothing reads
      them. Printing, metrics, spans and profiles report on a run and change nothing it does. A request's time limit is an
      answer that fails.
    - Third-party code is a parameter: the JSON text and derived readers of serde ([SerdeJson], [Serialize], [Deserialize],
      [JsonStream]), quick-xml ([XmlReader]), orgize ([Orgize]), YAML and regular expressions, digests ([Crypto]), the
      otadata library and the flash chip ([Chip]), media tools ([Tools], [Watched]), the text of floats ([ShowF64]), the
      order of tasks ([Scheduler]), and the services ([Outside], [Sites], [Server], [Notes], [Libs]). What the theorems rely
      on is a class of laws next to it; concrete instances show that the laws can hold. What a database computes is an
      answer to its statement.
    - File systems: empty directories do not show, a hard link is a copy, symbolic links are left out of [Web], a tool's
      log is appended to when it ends, and parallel encodes run whole, in any order.
    - Where a settings object of a strange shape makes a program panic, the model ends the run with an error ([Ombi],
      [Syncthing], [Kavita]). Bazarr's identifiers are below [2^62]; a float that is not finite is null in JSON. An SSE
      answer's lines are taken as read when it arrives ([SsoToken]).
    - The remaining apps of [apps/app-bootstrap] are configured in the way those above are. The flows of [apps/e2e] other
      than the media family's cleanup drive browsers, clusters and services and check what they answer: tests, whose runner
      is modelled. Boards, Wi-Fi and demonstration programs of [embedded] are calls of hardware libraries. Nix, Kubernetes
      and Pulumi descriptions and the scripts are not Rust. *)

From Stdlib Require Import Ascii.
From stdpp Require Export base list strings gmap pretty sorting.
From stdpp Require Import options.

#[global] Set Default Proof Using "Type".

(** ** Rust's [Result], and the [?] operator *)

Inductive Result (A E : Type) : Type :=
  | Ok (a : A)
  | Err (e : E).
Arguments Ok {_ _} _.
Arguments Err {_ _} _.

Declare Scope rust_scope.
Delimit Scope rust_scope with rust.

Notation "'let?' x ':=' e 'in' k" :=
  (match e with Ok x => k | Err err => Err err end)
  (at level 10, x pattern, e at level 100, k at level 200) : rust_scope.
#[global] Open Scope rust_scope.

Definition is_ok {A E} (r : Result A E) : bool :=
  match r with Ok _ => true | Err _ => false end.
Definition is_err {A E} (r : Result A E) : bool := negb (is_ok r).

(** ** Tactics shared by the development *)

(** Case analysis on every [match] and [if] of the goal or of a hypothesis, closing the impossible
    branches. *)
Ltac case_all := repeat (case_match; simplify_eq/=; try done).
Ltac case_in H :=
  repeat (match type of H with
          | context [match ?x with _ => _ end] => destruct x eqn:?; simplify_eq/=; try done
          end).
Ltac bool_prop :=
  repeat match goal with
  | H : negb _ = true |- _ => apply negb_true_iff in H
  | H : negb _ = false |- _ => apply negb_false_iff in H
  | H : andb _ _ = true |- _ => apply andb_true_iff in H as [? ?]
  | H : orb _ _ = false |- _ => apply orb_false_iff in H as [? ?]
  | H : orb _ _ = true |- _ => apply orb_true_iff in H
  | H : bool_decide _ = true |- _ => apply bool_decide_eq_true in H
  | H : bool_decide _ = false |- _ => apply bool_decide_eq_false in H
  end.

Create HintDb rust.
Create Rewrite HintDb rust.

(** ** Machine integers

    The crates are built in release mode: [u32] and [u64] arithmetic wraps. *)

Definition u32_modulus : N := 2 ^ 32.
Definition u64_modulus : N := 2 ^ 64.
Definition u32_wrap (n : N) : N := n `mod` u32_modulus.
Definition u64_wrap (n : N) : N := n `mod` u64_modulus.
Definition u32_add (a b : N) : N := u32_wrap (a + b).
(** [saturating_sub] is the truncated subtraction of [N]. *)
Definition saturating_sub (a b : N) : N := (a - b)%N.

Lemma u32_add_small a b : (a + b < u32_modulus)%N → u32_add a b = (a + b)%N.
Proof. intros. by apply N.mod_small. Qed.
Lemma u32_add_bound a b : (u32_add a b < u32_modulus)%N.
Proof. by apply N.mod_lt. Qed.

(** ** Strings

    A Rust [String] is the list of its UTF-8 bytes. [chars] and [str] move between a string and
    that list; operations that the source runs over [char]s run over bytes here, which agree on
    ASCII text. *)

Definition chars (s : string) : list ascii := String.list_ascii_of_string s.
Definition str (l : list ascii) : string := String.string_of_list_ascii l.

Lemma str_chars s : str (chars s) = s.
Proof. apply String.string_of_list_ascii_of_string. Qed.
Lemma chars_str l : chars (str l) = l.
Proof. apply String.list_ascii_of_string_of_list_ascii. Qed.
#[export] Hint Rewrite str_chars chars_str : rust.

#[export] Instance chars_inj : Inj (=) (=) chars.
Proof. intros s1 s2 E. by rewrite <- (str_chars s1), E, str_chars. Qed.
#[export] Instance str_inj : Inj (=) (=) str.
Proof. intros l1 l2 E. by rewrite <- (chars_str l1), E, chars_str. Qed.

Lemma chars_app s1 s2 : chars (s1 +:+ s2) = chars s1 ++ chars s2.
Proof. induction s1 as [|a s1 IH]; [done|]. by apply (f_equal (cons a)) in IH. Qed.
Lemma str_app l1 l2 : str (l1 ++ l2) = str l1 +:+ str l2.
Proof. apply (inj chars). by rewrite chars_app, !chars_str. Qed.
Lemma chars_cons a s : chars (String a s) = a :: chars s.
Proof. done. Qed.
Lemma chars_empty : chars "" = [].
Proof. done. Qed.
#[export] Hint Rewrite chars_app chars_cons chars_empty : rust.

Lemma chars_nil_iff s : chars s = [] ↔ s = "".
Proof. split; [|by intros ->]. intros E. by apply (inj chars). Qed.

Lemma length_chars s : String.length s = length (chars s).
Proof. induction s as [|a s IH]; [done|]. cbn. by rewrite IH. Qed.
Lemma str_length_app s1 s2 : String.length (s1 +:+ s2) = String.length s1 + String.length s2.
Proof. by rewrite !length_chars, chars_app, length_app. Qed.

Lemma str_app_assoc (s1 s2 s3 : string) : s1 +:+ (s2 +:+ s3) = (s1 +:+ s2) +:+ s3.
Proof. apply (inj chars). by rewrite !chars_app, app_assoc. Qed.
Lemma str_app_nil_r (s : string) : s +:+ "" = s.
Proof. apply (inj chars). by rewrite chars_app, app_nil_r. Qed.
Lemma str_app_inv_r (s1 s2 t : string) : s1 +:+ t = s2 +:+ t → s1 = s2.
Proof.
  intros E. apply (inj chars). apply (f_equal chars) in E.
  rewrite !chars_app in E. by apply (inj (.++ chars t)) in E.
Qed.
Lemma str_app_inv_l (s t1 t2 : string) : s +:+ t1 = s +:+ t2 → t1 = t2.
Proof. apply (inj (String.append s)). Qed.

(** A character of a string. *)
Definition char_in (c : ascii) (s : string) : Prop := c ∈ chars s.
#[export] Instance char_in_dec c s : Decision (char_in c s) := decide (c ∈ chars s).

Lemma char_in_app c s1 s2 : char_in c (s1 +:+ s2) ↔ char_in c s1 ∨ char_in c s2.
Proof. unfold char_in. by rewrite chars_app, elem_of_app. Qed.
Lemma char_in_empty c : ¬ char_in c "".
Proof. unfold char_in. apply not_elem_of_nil. Qed.

(** [str::contains(char)], [starts_with], [strip_prefix], [ends_with(char)]. *)
Definition contains_char (c : ascii) (s : string) : bool := bool_decide (char_in c s).
Definition starts_with (p s : string) : bool := String.prefix p s.

Fixpoint strip_prefix (p s : string) : option string :=
  match p, s with
  | EmptyString, _ => Some s
  | String a p', String b s' => if decide (a = b) then strip_prefix p' s' else None
  | _, EmptyString => None
  end.

Lemma strip_prefix_Some p s r : strip_prefix p s = Some r ↔ s = p +:+ r.
Proof.
  revert s. induction p as [|a p IH]; intros s; cbn.
  { naive_solver. }
  change (String a p +:+ r) with (String a (p +:+ r)).
  destruct s as [|b s]; [naive_solver|]. case_decide; [|naive_solver].
  rewrite IH. naive_solver.
Qed.

Definition ends_with_char (c : ascii) (s : string) : bool :=
  bool_decide (last (chars s) = Some c).

(** [str::split(char)]: always at least one piece. *)
Fixpoint split_list (c : ascii) (l : list ascii) : list (list ascii) :=
  match l with
  | [] => [[]]
  | a :: l' =>
      if decide (a = c) then [] :: split_list c l'
      else match split_list c l' with
           | w :: ws => (a :: w) :: ws
           | [] => [[a]]
           end
  end.
Definition split_char (c : ascii) (s : string) : list string := str <$> split_list c (chars s).

Lemma split_list_ne c l : split_list c l ≠ [].
Proof. destruct l as [|a l]; cbn; [done|]. case_decide; [done|]. by case_match. Qed.

Lemma split_list_no_sep c l w : w ∈ split_list c l → c ∉ w.
Proof.
  revert w. induction l as [|a l IH]; intros w; cbn.
  { intros ->%list_elem_of_singleton. apply not_elem_of_nil. }
  case_decide as Ha.
  { intros [->|?]%elem_of_cons; [apply not_elem_of_nil|auto]. }
  destruct (split_list c l) as [|v vs] eqn:E.
  { intros ->%list_elem_of_singleton. set_solver. }
  intros [->|Hw]%elem_of_cons.
  - intros [?|?]%elem_of_cons; [congruence|]. destruct (IH v); [left|done].
  - apply IH. by right.
Qed.

Lemma split_list_sub c l w a : w ∈ split_list c l → a ∈ w → a ∈ l.
Proof.
  revert w. induction l as [|b l IH]; intros w; cbn.
  { intros ->%list_elem_of_singleton. by intros ?%not_elem_of_nil. }
  case_decide.
  { intros [->|?]%elem_of_cons; [by intros ?%not_elem_of_nil|]. right. eauto. }
  destruct (split_list c l) as [|v vs] eqn:E.
  { by intros ->%list_elem_of_singleton ->%list_elem_of_singleton; left. }
  intros [->|Hw]%elem_of_cons Ha.
  - apply elem_of_cons in Ha as [->|Ha]; [left|right]. eapply IH; [left|done].
  - right. eapply IH; [right|]; done.
Qed.

(** [<[String]>::join] *)
Fixpoint join (sep : string) (ws : list string) : string :=
  match ws with
  | [] => ""
  | [w] => w
  | w :: ws' => w +:+ sep +:+ join sep ws'
  end.

Lemma join_cons sep w w' ws : join sep (w :: w' :: ws) = w +:+ sep +:+ join sep (w' :: ws).
Proof. done. Qed.

(** [str::split_once(char)] *)
Fixpoint split_once_list (c : ascii) (l : list ascii) : option (list ascii * list ascii) :=
  match l with
  | [] => None
  | a :: l' =>
      if decide (a = c) then Some ([], l')
      else '(x, y) ← split_once_list c l'; Some (a :: x, y)
  end.
Definition split_once (c : ascii) (s : string) : option (string * string) :=
  '(x, y) ← split_once_list c (chars s); Some (str x, str y).

Lemma split_once_list_Some c l x y :
  split_once_list c l = Some (x, y) ↔ l = x ++ c :: y ∧ c ∉ x.
Proof.
  revert x y. induction l as [|a l IH]; intros x y; cbn.
  { split; [done|]. intros [E _]. by destruct x. }
  case_decide as Ha; [subst a|].
  - split; [intros; simplify_eq; split; [done|apply not_elem_of_nil]|].
    intros [E Hx]. destruct x as [|b x]; simplify_eq/=; [done|]. set_solver.
  - destruct (split_once_list c l) as [[x' y']|] eqn:E; cbn.
    + destruct (IH x' y') as [IH1 _]. destruct (IH1 eq_refl) as [-> Hx'].
      split; [intros; simplify_eq; split; [done|set_solver]|].
      intros [E2 Hx]. destruct x as [|b x]; simplify_eq/=.
      assert (Some (x', y') = Some (x, y)) as Heq; [|by simplify_eq].
      apply IH. split; [done|set_solver].
    + split; [done|]. intros [E2 Hx]. destruct x as [|b x]; simplify_eq/=.
      assert (None = Some (x, y)) as Heq; [|done]. apply IH. split; [done|set_solver].
Qed.

(** [str::rsplit_once(char)]: at the last occurrence. *)
Definition rsplit_once (c : ascii) (s : string) : option (string * string) :=
  '(x, y) ← split_once_list c (reverse (chars s)); Some (str (reverse y), str (reverse x)).

Lemma rsplit_once_Some c s x y :
  rsplit_once c s = Some (x, y) ↔ s = x +:+ String c "" +:+ y ∧ ¬ char_in c y.
Proof.
  unfold rsplit_once, char_in. split.
  - destruct (split_once_list c (reverse (chars s))) as [[p q]|] eqn:E; [|done].
    intros [= <- <-]. apply split_once_list_Some in E as [E Hp]. split.
    + apply (inj chars). rewrite !chars_app, !chars_str. cbn.
      apply (f_equal reverse) in E. rewrite reverse_involutive in E.
      rewrite E, reverse_app, reverse_cons. by rewrite <- app_assoc.
    + rewrite chars_str. by rewrite elem_of_reverse.
  - intros [-> Hy].
    assert (split_once_list c (reverse (chars (x +:+ String c "" +:+ y)))
            = Some (reverse (chars y), reverse (chars x))) as ->.
    { apply split_once_list_Some. rewrite elem_of_reverse. split; [|done].
      rewrite !chars_app, !reverse_app. cbn. by rewrite <- app_assoc. }
    cbn. by rewrite !reverse_involutive, !str_chars.
Qed.

(** [str::trim_matches], [trim_end_matches] and [trim]. *)
Fixpoint drop_while {A} (p : A → bool) (l : list A) : list A :=
  match l with
  | [] => []
  | a :: l' => if p a then drop_while p l' else l
  end.
Definition drop_while_end {A} (p : A → bool) (l : list A) : list A :=
  reverse (drop_while p (reverse l)).
Definition trim_start_matches (p : ascii → bool) (s : string) : string :=
  str (drop_while p (chars s)).
Definition trim_end_matches (p : ascii → bool) (s : string) : string :=
  str (drop_while_end p (chars s)).
Definition trim_matches (p : ascii → bool) (s : string) : string :=
  trim_end_matches p (trim_start_matches p s).
Definition is_whitespace (c : ascii) : bool := Ascii.is_space c.
Definition trim (s : string) : string := trim_matches is_whitespace s.

Section drop_while.
Context {A : Type} (p : A → bool).

Lemma drop_while_suffix l : drop_while p l `suffix_of` l.
Proof.
  induction l as [|a l IH]; cbn; [done|]. case_match; [|done]. by apply suffix_cons_r.
Qed.
Lemma drop_while_head l a l' : drop_while p l = a :: l' → p a = false.
Proof.
  induction l as [|b l IH]; cbn; [done|]. destruct (p b) eqn:E; [done|].
  by intros [= <- <-].
Qed.
Lemma drop_while_head_id a l : p a = false → drop_while p (a :: l) = a :: l.
Proof. intros E. cbn. by rewrite E. Qed.
Lemma drop_while_end_prefix l : drop_while_end p l `prefix_of` l.
Proof.
  unfold drop_while_end. rewrite <- (reverse_involutive l) at 2.
  destruct (drop_while_suffix (reverse l)) as [k Hk]. exists (reverse k).
  rewrite Hk at 1. by rewrite reverse_app.
Qed.
Lemma drop_while_end_last l a : last (drop_while_end p l) = Some a → p a = false.
Proof.
  unfold drop_while_end. destruct (drop_while p (reverse l)) as [|b k] eqn:E; [done|].
  rewrite reverse_cons, last_snoc. intros [= <-]. by eapply drop_while_head.
Qed.
Lemma drop_while_end_snoc_id l a : p a = false → drop_while_end p (l ++ [a]) = l ++ [a].
Proof.
  intros E. unfold drop_while_end. rewrite reverse_snoc, drop_while_head_id by done.
  by rewrite reverse_cons, reverse_involutive.
Qed.
Lemma drop_while_end_elem l a : a ∈ drop_while_end p l → a ∈ l.
Proof. destruct (drop_while_end_prefix l) as [k Hk]. rewrite Hk at 2. set_solver. Qed.
Lemma drop_while_elem l a : a ∈ drop_while p l → a ∈ l.
Proof. destruct (drop_while_suffix l) as [k Hk]. rewrite Hk at 2. set_solver. Qed.
Lemma drop_while_nil l : drop_while p l = [] ↔ ∀ a, a ∈ l → p a = true.
Proof.
  induction l as [|b l IH]; cbn; [set_solver|]. destruct (p b) eqn:E.
  - rewrite IH. set_solver.
  - split; [done|]. intros H. rewrite (H b) in E; [done|left].
Qed.
End drop_while.

(** ** ASCII classes and case *)

Definition in_range (lo hi : N) (c : ascii) : bool :=
  (lo <=? N_of_ascii c)%N && (N_of_ascii c <=? hi)%N.
Definition is_lower (c : ascii) : bool := in_range 97 122 c.
Definition is_upper (c : ascii) : bool := in_range 65 90 c.
Definition is_digit (c : ascii) : bool := in_range 48 57 c.
Definition is_ascii_alphanumeric (c : ascii) : bool := is_lower c || is_upper c || is_digit c.

Definition to_lower_char (c : ascii) : ascii :=
  if is_upper c then ascii_of_N (N_of_ascii c + 32) else c.
Definition to_upper_char (c : ascii) : ascii :=
  if is_lower c then ascii_of_N (N_of_ascii c - 32) else c.
Definition to_lowercase (s : string) : string := str (to_lower_char <$> chars s).

Lemma to_lower_not_upper c : is_upper (to_lower_char c) = false.
Proof. destruct c as [[] [] [] [] [] [] [] []]; reflexivity. Qed.
Lemma to_lower_alnum c :
  is_ascii_alphanumeric (to_lower_char c) = true →
  is_lower (to_lower_char c) = true ∨ is_digit (to_lower_char c) = true.
Proof.
  unfold is_ascii_alphanumeric. rewrite to_lower_not_upper, orb_false_r.
  intros ?%orb_true_iff. done.
Qed.

(** ** Decimal numbers: [u32::to_string] and [str::parse] *)

Definition digit_val (c : ascii) : N := (N_of_ascii c - 48)%N.

(** [parse::<uN>]: an optional [+], at least one digit, and the value in range. *)
Fixpoint parse_digits (acc : N) (l : list ascii) : option N :=
  match l with
  | [] => Some acc
  | c :: l' => if is_digit c then parse_digits (10 * acc + digit_val c) l' else None
  end.
Definition parse_uint (modulus : N) (s : string) : option N :=
  let ds := match chars s with "+"%char :: l => l | l => l end in
  match ds with
  | [] => None
  | _ => n ← parse_digits 0 ds; if (n <? modulus)%N then Some n else None
  end.
Definition parse_u32 : string → option N := parse_uint u32_modulus.
Definition parse_u64 : string → option N := parse_uint u64_modulus.

Definition all_digits (s : string) : Prop := Forall (λ c, is_digit c = true) (chars s).

Lemma pretty_N_char_digit x : (x < 10)%N → is_digit (pretty_N_char x) = true ∧ digit_val (pretty_N_char x) = x.
Proof.
  intros Hx. assert (x = 0 ∨ x = 1 ∨ x = 2 ∨ x = 3 ∨ x = 4 ∨ x = 5 ∨ x = 6 ∨ x = 7 ∨ x = 8 ∨ x = 9)%N
    as Hc by lia. by repeat destruct Hc as [->|Hc]; [..|subst].
Qed.

Lemma pretty_N_go_chars x s :
  (0 < x)%N → ∃ c l, chars (pretty_N_go x s) = (c :: l) ++ chars s ∧
    Forall (λ c, is_digit c = true) (c :: l) ∧
    ∀ acc, parse_digits acc (c :: l) = Some (acc * 10 ^ N.of_nat (length (c :: l)) + x)%N.
Proof.
  revert s. induction (N.lt_wf_0 x) as [x _ IH]; intros s Hx.
  rewrite pretty_N_go_step by done.
  set (c := pretty_N_char (x `mod` 10)).
  destruct (pretty_N_char_digit (x `mod` 10)) as [Hd Hv]; [by apply N.mod_lt|].
  fold c in Hd, Hv.
  destruct (decide (x < 10)%N) as [Hs|Hs].
  - rewrite N.div_small, pretty_N_go_0 by done. exists c, []. split; [done|]. split; [by constructor|].
    intros acc. cbn. rewrite Hd, Hv, N.mod_small by done. f_equal. lia.
  - assert (0 < x `div` 10)%N by (apply N.div_str_pos; lia).
    destruct (IH (x `div` 10)%N) with (s := String c s) as (c' & l & E & F & P); [by apply N.div_lt|done|].
    exists c', (l ++ [c]). rewrite E. split; [by rewrite chars_cons; cbn; rewrite <- app_assoc|]. split.
    { change (c' :: l ++ [c]) with ((c' :: l) ++ [c]). apply Forall_app. split; [done|by constructor]. }
    intros acc. change (c' :: l ++ [c]) with ((c' :: l) ++ [c]).
    assert (∀ k a n, parse_digits a k = Some n → parse_digits a (k ++ [c]) = Some (10 * n + digit_val c)%N) as Hsnoc.
    { clear -Hd. induction k as [|d k IHk]; intros a n; cbn.
      - intros [= ->]. by rewrite Hd.
      - case_match; [apply IHk|done]. }
    rewrite (Hsnoc _ _ _ (P acc)), Hv, length_app. f_equal.
    rewrite Nat.add_1_r, Nat2N.inj_succ, N.pow_succ_r'.
    pose proof (N.div_mod x 10). lia.
Qed.

Lemma pretty_N_digits (n : N) : all_digits (pretty n) ∧ pretty n ≠ "".
Proof.
  unfold all_digits, pretty, pretty_N. case_decide; [split; [by repeat constructor|done]|].
  destruct (pretty_N_go_chars n "") as (c & l & E & F & _); [lia|].
  rewrite app_nil_r in E. rewrite E. split; [done|]. intros Hn. by rewrite Hn in E.
Qed.

(** Printing a number and parsing it back. *)
Lemma parse_uint_pretty m n : (n < m)%N → parse_uint m (pretty n) = Some n.
Proof.
  intros Hn. unfold parse_uint, pretty, pretty_N. case_decide as H0; subst.
  { change ((if (0 <? m)%N then Some 0%N else None) = Some 0%N).
    by rewrite (proj2 (N.ltb_lt _ _)). }
  destruct (pretty_N_go_chars n "") as (c & l & E & F & P); [lia|].
  rewrite app_nil_r in E. rewrite E.
  assert (c ≠ "+"%char) as Hc by (intros ->; inversion F; done).
  assert (match c :: l with "+"%char :: k => k | k => k end = c :: l) as ->.
  { destruct c as [[] [] [] [] [] [] [] []]; done. }
  rewrite (P 0%N), N.mul_0_l, N.add_0_l. cbn -[N.ltb]. by rewrite (proj2 (N.ltb_lt _ _)).
Qed.

Lemma pretty_N_char_not_in (n : N) c : is_digit c = false → ¬ char_in c (pretty n).
Proof.
  intros Hc Hin. destruct (pretty_N_digits n) as [F _].
  eapply Forall_forall in F; [|exact Hin]. cbn in F. congruence.
Qed.

(** [{:02}] *)
Definition pad2 (n : N) : string := if (n <? 10)%N then "0" +:+ pretty n else pretty n.

(** ** Stable sorting: [slice::sort_by], [sort_by_key] *)

Section stable_sort.
Context {A : Type} (leb : A → A → bool).

Fixpoint insert_sorted (a : A) (l : list A) : list A :=
  match l with
  | [] => [a]
  | b :: l' => if leb a b then a :: l else b :: insert_sorted a l'
  end.
Fixpoint stable_sort (l : list A) : list A :=
  match l with
  | [] => []
  | a :: l' => insert_sorted a (stable_sort l')
  end.

Lemma insert_sorted_perm a l : insert_sorted a l ≡ₚ a :: l.
Proof.
  induction l as [|b l IH]; cbn; [done|]. case_match; [done|].
  rewrite IH. apply Permutation_swap.
Qed.
Lemma stable_sort_perm l : stable_sort l ≡ₚ l.
Proof. induction l as [|a l IH]; cbn; [done|]. by rewrite insert_sorted_perm, IH. Qed.
Lemma stable_sort_elem l a : a ∈ stable_sort l ↔ a ∈ l.
Proof. by rewrite stable_sort_perm. Qed.
Lemma stable_sort_length l : length (stable_sort l) = length l.
Proof. by rewrite stable_sort_perm. Qed.

Lemma insert_sorted_filter (P : A → Prop) `{!∀ x, Decision (P x)} a l :
  (∀ x y, P x → P y → leb x y = true) →
  filter P (insert_sorted a l) = filter P (a :: l).
Proof.
  intros HP. induction l as [|b l IH]; cbn; [done|]. case_match eqn:E; [done|].
  rewrite !filter_cons, IH, filter_cons. repeat case_decide; try done.
  rewrite HP in E; done.
Qed.
(** Stability: elements the order does not separate keep their order. *)
Lemma stable_sort_stable (P : A → Prop) `{!∀ x, Decision (P x)} l :
  (∀ x y, P x → P y → leb x y = true) →
  filter P (stable_sort l) = filter P l.
Proof.
  intros HP. induction l as [|a l IH]; cbn; [done|].
  rewrite insert_sorted_filter by done. by rewrite !filter_cons, IH.
Qed.

Context (Htotal : ∀ x y, leb x y = true ∨ leb y x = true).
Context (Htrans : ∀ x y z, leb x y = true → leb y z = true → leb x z = true).

Lemma insert_sorted_sorted a l :
  StronglySorted (λ x y, leb x y = true) l →
  StronglySorted (λ x y, leb x y = true) (insert_sorted a l).
Proof using Htotal Htrans.
  induction 1 as [|b l HS IH HF]; cbn; [by repeat constructor|]. case_match eqn:E.
  - constructor; [by constructor|]. constructor; [done|].
    eapply Forall_impl; [exact HF|]. cbn. eauto.
  - constructor; [done|]. rewrite insert_sorted_perm. constructor; [|done].
    destruct (Htotal a b); congruence.
Qed.
Lemma stable_sort_sorted l : StronglySorted (λ x y, leb x y = true) (stable_sort l).
Proof using Htotal Htrans.
  induction l as [|a l IH]; cbn; [constructor|]. by apply insert_sorted_sorted.
Qed.
End stable_sort.

Definition key_leb {A} (key : A → N) (x y : A) : bool := (key x <=? key y)%N.
Definition sort_by_key {A} (key : A → N) (l : list A) : list A := stable_sort (key_leb key) l.

Lemma sort_by_key_sorted {A} (key : A → N) l :
  StronglySorted (λ x y, (key x ≤ key y)%N) (sort_by_key key l).
Proof.
  assert (StronglySorted (λ x y, key_leb key x y = true) (sort_by_key key l)) as HS.
  { apply stable_sort_sorted; unfold key_leb; intros *; rewrite ?N.leb_le; lia. }
  induction HS as [|a k HS IH HF]; constructor; [done|].
  eapply Forall_impl; [exact HF|]. intros b. unfold key_leb. by rewrite N.leb_le.
Qed.

(** ** Lists *)

Lemma find_some_elem {A} (p : A → bool) l x : List.find p l = Some x → x ∈ l ∧ p x = true.
Proof. intros [? ?]%List.find_some. by rewrite list_elem_of_In. Qed.
Lemma find_none_elem {A} (p : A → bool) l x : List.find p l = None → x ∈ l → p x = false.
Proof. intros H ?. eapply List.find_none; [done|]. by apply list_elem_of_In. Qed.
Lemma find_is_Some {A} (p : A → bool) l x : x ∈ l → p x = true → is_Some (List.find p l).
Proof.
  intros Hx Hp. destruct (List.find p l) eqn:E; [done|].
  rewrite (find_none_elem _ _ _ E Hx) in Hp. done.
Qed.
Lemma existsb_elem {A} (p : A → bool) l : existsb p l = true ↔ ∃ x, x ∈ l ∧ p x = true.
Proof. rewrite existsb_exists. by setoid_rewrite list_elem_of_In. Qed.
Lemma existsb_false_elem {A} (p : A → bool) l x : existsb p l = false → x ∈ l → p x = false.
Proof.
  intros H Hx. destruct (p x) eqn:E; [|done].
  assert (existsb p l = true) as Hc by (apply existsb_elem; eauto). congruence.
Qed.

(** Splitting undoes joining when no word holds the separator. *)
Lemma split_list_app c w l : c ∉ w → split_list c (w ++ c :: l) = w :: split_list c l.
Proof.
  induction w as [|a w IH]; intros Hw; cbn.
  - by rewrite decide_True.
  - rewrite decide_False by (intros ->; apply Hw; left).
    rewrite IH; [done|]. intros ?. apply Hw. by right.
Qed.
Lemma split_list_single c w : c ∉ w → split_list c w = [w].
Proof.
  induction w as [|a w IH]; intros Hw; cbn; [done|].
  rewrite decide_False by (intros ->; apply Hw; left).
  rewrite IH; [done|]. intros ?. apply Hw. by right.
Qed.
Lemma split_join c ws :
  ws ≠ [] → Forall (λ w, ¬ char_in c w) ws → split_char c (join (String c "") ws) = ws.
Proof.
  unfold split_char. intros Hne HF. induction HF as [|w ws Hw HF IH]; [done|].
  destruct ws as [|w' ws].
  - cbn. rewrite split_list_single by done. cbn. by rewrite str_chars.
  - rewrite join_cons, !chars_app. cbn [chars String.list_ascii_of_string app].
    change (chars w ++ c :: chars (join (String c "") (w' :: ws)))
      with (chars w ++ c :: chars (join (String c "") (w' :: ws))).
    rewrite split_list_app by done. rewrite fmap_cons, IH by done. by rewrite str_chars.
Qed.
Lemma split_char_no_sep c s w : w ∈ split_char c s → ¬ char_in c w.
Proof.
  unfold split_char, char_in. intros (k & -> & Hk)%list_elem_of_fmap. rewrite chars_str.
  by eapply split_list_no_sep.
Qed.
Lemma split_char_sub c s w a : w ∈ split_char c s → char_in a w → char_in a s.
Proof.
  unfold split_char, char_in. intros (k & -> & Hk)%list_elem_of_fmap. rewrite chars_str.
  by eapply split_list_sub.
Qed.
Lemma char_in_join c sep ws :
  char_in c (join sep ws) → char_in c sep ∨ ∃ w, w ∈ ws ∧ char_in c w.
Proof.
  induction ws as [|w ws IH]; [by intros ?%char_in_empty|].
  destruct ws as [|w' ws]; [cbn; right; exists w; split; [left|done]|].
  rewrite join_cons, !char_in_app. intros [?|[?|H]]; [right; exists w; split; [left|done]|by left|].
  destruct (IH H) as [?|(v & ? & ?)]; [by left|]. right. exists v. split; [by right|done].
Qed.
Lemma join_ne_empty sep ws w : w ∈ ws → w ≠ "" → join sep ws ≠ "".
Proof.
  intros Hw Hne E. assert (String.length w ≤ String.length (join sep ws)) as Hl.
  { clear E. induction ws as [|v ws IH]; [by apply not_elem_of_nil in Hw|].
    destruct ws as [|v' ws]; [by apply list_elem_of_singleton in Hw as ->|].
    rewrite join_cons, !str_length_app.
    apply elem_of_cons in Hw as [->|Hw]; [|specialize (IH Hw)]; lia. }
  rewrite E in Hl. destruct w; [done|cbn in Hl; lia].
Qed.

(** [str::replace(char, char)] *)
Definition replace_char (a b : ascii) (s : string) : string :=
  str ((λ c, if decide (c = a) then b else c) <$> chars s).
Lemma replace_char_id a b s : ¬ char_in a s → replace_char a b s = s.
Proof.
  unfold replace_char, char_in. intros H. rewrite <- (str_chars s) at 2. f_equal.
  induction (chars s) as [|c l IH]; [done|]. cbn. apply not_elem_of_cons in H as [? ?].
  rewrite decide_False by done. f_equal. auto.
Qed.
Lemma replace_char_gone a b s : a ≠ b → ¬ char_in a (replace_char a b s).
Proof.
  unfold replace_char, char_in. rewrite chars_str. intros Hab (c & Hc & _)%list_elem_of_fmap.
  case_decide; congruence.
Qed.

Lemma filter_all {A} (P : A → Prop) `{!∀ x, Decision (P x)} (l : list A) :
  Forall P l → filter P l = l.
Proof. induction 1 as [|x l HP HF IH]; [done|]. by rewrite filter_cons_True, IH. Qed.
Lemma Forall_in {A} (P : A → Prop) l x : Forall P l → x ∈ l → P x.
Proof. rewrite Forall_forall. auto. Qed.
Lemma take_elem {A} n (l : list A) x : x ∈ take n l → x ∈ l.
Proof. intros. rewrite <- (take_drop n l). apply elem_of_app. by left. Qed.

(** A map that is injective through a key keeps lists duplicate-free. *)
Lemma NoDup_omap_key {A B C D} (g : A → option B) (f : B → C) (key : A → D) (l : list A) :
  NoDup (key <$> l) →
  (∀ x y b c, x ∈ l → y ∈ l → g x = Some b → g y = Some c → f b = f c → key x = key y) →
  NoDup (f <$> omap g l).
Proof.
  induction l as [|x l IH]; [constructor|]. cbn.
  intros [Hx ND]%NoDup_cons Hinj. destruct (g x) as [b|] eqn:Eb.
  2:{ apply IH; [done|]. intros y z b c Hy Hz. apply Hinj; by right. }
  cbn. constructor; [|apply IH; [done|]; intros y z b' c Hy Hz; apply Hinj; by right].
  intros (c & Hc & Hin)%list_elem_of_fmap. apply list_elem_of_omap in Hin as (y & Hy & Ec).
  apply Hx. rewrite (Hinj x y b c); [|left|by right|done..]. apply list_elem_of_fmap. eauto.
Qed.
Lemma two_elems_length {A} (l : list A) x y : x ∈ l → y ∈ l → x ≠ y → 2 ≤ length l.
Proof.
  intros Hx Hy Hne. destruct l as [|a [|b l]]; [by apply not_elem_of_nil in Hx| |cbn; lia].
  apply list_elem_of_singleton in Hx, Hy. congruence.
Qed.

(** ** Text for a concrete serialiser

    The witnesses need a serialiser that can be run: a binary number is written as its digits. *)

Fixpoint bits (p : positive) : string :=
  match p with xH => "" | xO p => String "0" (bits p) | xI p => String "1" (bits p) end.
Fixpoint unbits (s : string) : option positive :=
  match s with
  | "" => Some 1%positive
  | String a s => p ← unbits s; if bool_decide (a = "0"%char) then Some p~0%positive else Some p~1%positive
  end.
Lemma unbits_bits p : unbits (bits p) = Some p.
Proof. induction p as [p IH|p IH|]; cbn; rewrite ?IH; reflexivity. Qed.
