(* ===== verification/Text.v ===== *)
(** * Substrings

    Rust's [find], [contains], [replace] and [replacen] with a non-empty string pattern,
    [trim_start_matches] with a string, and lines. *)

From Stdlib Require Import Ascii.
From stdpp Require Import options.
From S2P Require Import Prelude.

Definition newline : ascii := "010"%char.
Definition carriage_return : ascii := "013"%char.
Definition quote : string := String "034"%char "".

(** [str::lines] *)
Definition strip_cr (l : string) : string :=
  if ends_with_char carriage_return l then str (take (length (chars l) - 1) (chars l)) else l.
Definition lines (s : string) : list string :=
  let pieces := split_char newline s in
  strip_cr <$> (if bool_decide (last pieces = Some "") then take (length pieces - 1) pieces else pieces).

(** [str::ends_with(&str)] *)
Definition ends_with (suffix s : string) : bool :=
  bool_decide (reverse (chars suffix) `prefix_of` reverse (chars s)).

(** What is before and after the first occurrence of [p]. *)
Fixpoint find_list (p l : list ascii) : option (list ascii * list ascii) :=
  if decide (p `prefix_of` l) then Some ([], drop (length p) l)
  else match l with
       | [] => None
       | a :: l' => '(before, after) ← find_list p l'; Some (a :: before, after)
       end.
Definition contains (p s : string) : bool := bool_decide (is_Some (find_list (chars p) (chars s))).

Fixpoint replace_list (n : nat) (p by_ l : list ascii) : list ascii :=
  match n with
  | 0 => l
  | S n =>
      match find_list p l with
      | Some (before, after) => before ++ by_ ++ replace_list n p by_ after
      | None => l
      end
  end.
Definition replacen (p by_ : string) (n : nat) (s : string) : string :=
  str (replace_list n (chars p) (chars by_) (chars s)).
(** There are at most as many occurrences as characters. *)
Definition replace (p by_ s : string) : string := replacen p by_ (String.length s) s.

Fixpoint trim_prefixes (n : nat) (p s : string) : string :=
  match n with
  | 0 => s
  | S n => match strip_prefix p s with Some s' => trim_prefixes n p s' | None => s end
  end.
Definition trim_start_str (p s : string) : string := trim_prefixes (String.length s) p s.

Example replaces :
  replace "{version}" "0.15.0" "https://e/v{version}/bin" = "https://e/v0.15.0/bin" ∧
  replace "a" "aa" "banana" = "baanaanaa" ∧ replacen "14.0.3" "15.0.0" 1 "14.0.3-rootless" = "15.0.0-rootless" ∧
  contains "ana" "banana" = true ∧ contains "x" "banana" = false ∧ trim_start_str "oci://" "oci://oci://h/r" = "h/r".
Proof. vm_compute. done. Qed.

Lemma prefix_drop (p l : list ascii) : p `prefix_of` l → l = p ++ drop (length p) l.
Proof. intros [k ->]. by rewrite drop_app_length. Qed.
Lemma find_list_Some p l before after : find_list p l = Some (before, after) → l = before ++ p ++ after.
Proof.
  revert before. induction l as [|a l IH]; intros before; cbn [find_list]; case_decide as Hp.
  - intros [= <- <-]. exact (prefix_drop _ _ Hp).
  - done.
  - intros [= <- <-]. exact (prefix_drop _ _ Hp).
  - destruct (find_list p l) as [[b r]|] eqn:E; [|done]. intros [= <- <-]. by rewrite (IH b).
Qed.
Lemma find_list_None p l : find_list p l = None ↔ ∀ before after, l ≠ before ++ p ++ after.
Proof.
  split.
  - induction l as [|a l IH]; cbn [find_list]; case_decide as Hp; try done; intros H before after E.
    + symmetry in E. apply app_nil in E as [-> E]. apply app_nil in E as [-> ->]. by destruct Hp.
    + destruct before as [|b before]; [destruct Hp; exists after; exact E|]. injection E as -> E.
      destruct (find_list p l) as [[]|]; [done|]. by eapply IH.
  - intros H. destruct (find_list p l) as [[b r]|] eqn:E; [|done]. by apply find_list_Some, H in E.
Qed.

(** Replacing an occurrence by itself changes nothing. *)
Lemma replace_list_same n p l : replace_list n p p l = l.
Proof.
  revert l. induction n as [|n IH]; intros l; cbn; [done|].
  destruct (find_list p l) as [[b r]|] eqn:E; [|done]. by rewrite IH, <- (find_list_Some _ _ _ _ E).
Qed.
Lemma replacen_same p n s : replacen p p n s = s.
Proof. unfold replacen. by rewrite replace_list_same, str_chars. Qed.

(** [replacen(p, q, 1)] rewrites the first occurrence. *)
Lemma replacen_once p q s before after :
  find_list (chars p) (chars s) = Some (before, after) →
  s = str before +:+ p +:+ str after ∧ replacen p q 1 s = str before +:+ q +:+ str after.
Proof.
  intros E. split.
  - apply (inj chars). rewrite !chars_app, !chars_str. by apply find_list_Some in E.
  - apply (inj chars). unfold replacen. cbn [replace_list]. rewrite E, !chars_app, !chars_str. done.
Qed.
Lemma contains_find p s : contains p s = true → ∃ before after, find_list (chars p) (chars s) = Some (before, after).
Proof. unfold contains. intros [[b r] E]%bool_decide_eq_true. by eexists _, _. Qed.

(** ** The order of strings

    Rust compares [String]s by their bytes. *)

Definition str_le (s t : string) : Prop := String.leb s t = true.
Definition str_lt (s t : string) : Prop := String.leb t s = false.

Lemma compare_cons a b s t :
  String.compare (String a s) (String b t) =
    match Ascii.compare a b with Eq => String.compare s t | c => c end.
Proof. reflexivity. Qed.
Lemma str_le_refl s : str_le s s.
Proof. destruct (String.leb_total s s); done. Qed.
Lemma str_le_antisym s t : str_le s t → str_le t s → s = t.
Proof. apply String.leb_antisym. Qed.
Lemma str_le_trans s t u : str_le s t → str_le t u → str_le s u.
Proof.
  unfold str_le, String.leb. revert t u. induction s as [|a s IH]; intros [|b t] [|c u]; try done.
  rewrite !compare_cons. unfold Ascii.compare.
  destruct (N.compare_spec (N_of_ascii a) (N_of_ascii b)) as [E1|E1|E1]; [| |done];
    destruct (N.compare_spec (N_of_ascii b) (N_of_ascii c)) as [E2|E2|E2]; try done;
    destruct (N.compare_spec (N_of_ascii a) (N_of_ascii c)) as [E3|E3|E3]; try done; try lia.
  apply IH.
Qed.
Lemma str_lt_spec s t : str_lt s t ↔ str_le s t ∧ s ≠ t.
Proof.
  unfold str_lt. split.
  - intros E. destruct (String.leb_total s t) as [Hs|Hs]; [|congruence]. split; [done|]. intros ->.
    by rewrite str_le_refl in E.
  - intros [Hs Hne]. destruct (String.leb t s) eqn:E; [|done]. destruct Hne. by apply str_le_antisym.
Qed.
Lemma str_le_lt s t : str_le s t ∨ str_lt t s.
Proof. unfold str_le, str_lt. destruct (String.leb s t); auto. Qed.
Lemma str_lt_le_trans s t u : str_lt s t → str_le t u → str_lt s u.
Proof.
  rewrite !str_lt_spec. intros [H1 Hne] H2. split; [by eapply str_le_trans|]. intros ->. apply Hne. by apply str_le_antisym.
Qed.
Lemma str_le_lt_trans s t u : str_le s t → str_lt t u → str_lt s u.
Proof.
  rewrite !str_lt_spec. intros H1 [H2 Hne]. split; [by eapply str_le_trans|]. intros ->. apply Hne. by apply str_le_antisym.
Qed.
Lemma str_lt_irrefl s : ¬ str_lt s s.
Proof. intros [_ H]%str_lt_spec. done. Qed.

(** [split_whitespace]: the words between white space. *)
Fixpoint pieces (p : ascii → bool) (l : list ascii) : list (list ascii) :=
  match l with
  | [] => [[]]
  | a :: l =>
      if p a then [] :: pieces p l
      else match pieces p l with w :: ws => (a :: w) :: ws | [] => [[a]] end
  end.
Definition split_whitespace (s : string) : list string := str <$> filter (λ w, w ≠ []) (pieces is_whitespace (chars s)).

(** ** Prefixes *)

Lemma starts_with_app s a b : starts_with (s +:+ a) (s +:+ b) = starts_with a b.
Proof.
  unfold starts_with. induction s as [|x s IH]; [done|].
  change (String.prefix (String x (s +:+ a)) (String x (s +:+ b)) = String.prefix a b). cbn. by destruct (ascii_dec x x).
Qed.
Lemma starts_with_prefix s b : starts_with s (s +:+ b) = true.
Proof. rewrite <- (str_app_nil_r s) at 1. rewrite starts_with_app. by destruct b. Qed.
Lemma starts_with_head x c s o : starts_with (String x s) (String c o) = true → x = c.
Proof. unfold starts_with. cbn. by destruct (ascii_dec x c). Qed.
Lemma starts_with_ne x c s o : x ≠ c → starts_with (String x s) (String c o) = false.
Proof. unfold starts_with. cbn. by destruct (ascii_dec x c). Qed.
Lemma starts_with_trans p q s : starts_with (p +:+ q) s = true → starts_with p s = true.
Proof.
  revert s. induction p as [|c p IH]; intros s E; [by destruct s|]. destruct s as [|x s]; [done|].
  change (starts_with (String c p +:+ q) (String x s)) with (if ascii_dec c x then starts_with (p +:+ q) s else false) in E.
  change (starts_with (String c p) (String x s)) with (if ascii_dec c x then starts_with p s else false).
  destruct (ascii_dec c x); [by apply IH|done].
Qed.
