(* ===== verification/F64.v ===== *)
(** * [f64]: Rust's double-precision floats

    A value is a [spec_float] of the Standard Library at precision 53 and maximal exponent 1024
    (IEEE 754 binary64, one NaN); every operation below is an executable function on that type:
    the correctly rounded [+], [-], [*], [/], the partial comparisons, [floor], [trunc], [round],
    the saturating [as] casts and [str::parse::<f64>]. *)

From Stdlib Require Import Ascii.
From Stdlib Require Export Floats.SpecFloat.
From stdpp Require Import options.
From S2P Require Import Prelude.

Notation f64 := spec_float.

#[export] Instance f64_eq_dec : EqDecision f64.
Proof. solve_decision. Defined.

Declare Scope f64_scope.
Delimit Scope f64_scope with f64.

Definition f64_add : f64 → f64 → f64 := SFadd 53 1024.
Definition f64_sub : f64 → f64 → f64 := SFsub 53 1024.
Definition f64_mul : f64 → f64 → f64 := SFmul 53 1024.
Definition f64_div : f64 → f64 → f64 := SFdiv 53 1024.
Definition f64_abs : f64 → f64 := SFabs.
Definition f64_ltb : f64 → f64 → bool := SFltb.
Definition f64_leb : f64 → f64 → bool := SFleb.
Definition f64_eqb : f64 → f64 → bool := SFeqb.

Infix "+" := f64_add : f64_scope.
Infix "-" := f64_sub : f64_scope.
Infix "*" := f64_mul : f64_scope.
Infix "/" := f64_div : f64_scope.
Infix "<?" := f64_ltb : f64_scope.
Infix "<=?" := f64_leb : f64_scope.
Infix "=?" := f64_eqb : f64_scope.

(** An integer constant or an integer-to-float cast, correctly rounded. *)
Definition f64_of_Z (z : Z) : f64 := binary_normalize 53 1024 z 0 false.
Definition f64_zero : f64 := S754_zero false.

(** [m * 10^e10], correctly rounded: decimal literals and [parse]. *)
Definition f64_of_decimal (neg : bool) (m : N) (e10 : Z) : f64 :=
  match m with
  | N0 => S754_zero neg
  | Npos p =>
      if (0 <=? e10)%Z
      then match (Zpos p * 10 ^ e10)%Z with
           | Zpos q => binary_round 53 1024 neg q 0
           | _ => S754_zero neg
           end
      else let '(mz, ez, lz) := SFdiv_core_binary 53 1024 (Zpos p) 0 (10 ^ (- e10)) 0 in
           binary_round_aux 53 1024 neg mz ez lz
  end.

(** [f64::max] *)
Definition f64_max (x y : f64) : f64 :=
  match x, y with
  | S754_nan, _ => y
  | _, S754_nan => x
  | _, _ => if f64_ltb x y then y else x
  end.
(** [iter().sum::<f64>()] *)
Definition f64_sum (l : list f64) : f64 := fold_left f64_add l (S754_zero true).

(** [total_cmp(..).is_lt()], its NaN the positive one *)
Definition f64_total_ltb (x y : f64) : bool :=
  match x, y with
  | S754_nan, _ => false
  | _, S754_nan => true
  | S754_zero true, S754_zero false => true
  | _, _ => f64_ltb x y
  end.

Definition f64_is_nan (x : f64) : bool := match x with S754_nan => true | _ => false end.

(** ** Rounding to an integer: the exact integer, then the float *)

Definition signed (s : bool) (m : positive) : Z := if s then Zneg m else Zpos m.

Definition trunc_Z (s : bool) (m : positive) (e : Z) : Z :=
  if (0 <=? e)%Z then signed s m * 2 ^ e else Z.quot (signed s m) (2 ^ (- e)).
Definition floor_Z (s : bool) (m : positive) (e : Z) : Z :=
  if (0 <=? e)%Z then signed s m * 2 ^ e else signed s m / 2 ^ (- e).
(** half away from zero *)
Definition round_Z (s : bool) (m : positive) (e : Z) : Z :=
  if (0 <=? e)%Z then signed s m * 2 ^ e
  else let r := ((2 * Zpos m + 2 ^ (- e)) / (2 * 2 ^ (- e)))%Z in if s then (- r)%Z else r.

Definition integral (f : bool → positive → Z → Z) (x : f64) : f64 :=
  match x with
  | S754_finite s m e =>
      match f s m e with Z0 => S754_zero s | z => f64_of_Z z end
  | _ => x
  end.
Definition f64_trunc : f64 → f64 := integral trunc_Z.
Definition f64_floor : f64 → f64 := integral floor_Z.
Definition f64_round : f64 → f64 := integral round_Z.

(** [x as uN] and [x as iN]: towards zero, saturating, NaN to 0. *)
Definition clamp (lo hi z : Z) : Z := Z.max lo (Z.min hi z).
Definition as_int (lo hi : Z) (x : f64) : Z :=
  match x with
  | S754_zero _ | S754_nan => 0
  | S754_infinity s => if s then lo else hi
  | S754_finite s m e => clamp lo hi (trunc_Z s m e)
  end.
Definition as_i64 : f64 → Z := as_int (- 2 ^ 63) (2 ^ 63 - 1).
Definition as_u32 (x : f64) : N := Z.to_N (as_int 0 (2 ^ 32 - 1) x).
Definition as_u64 (x : f64) : N := Z.to_N (as_int 0 (2 ^ 64 - 1) x).

Lemma as_u32_bound x : (as_u32 x < u32_modulus)%N.
Proof.
  unfold as_u32, as_int, clamp, u32_modulus. destruct x as [[]|[]| |s m e]; try (cbn; lia).
Qed.

(** [format!("{x:.0}")]: the nearest integer, ties to even. *)
Definition round_even (m : positive) (e : Z) : Z :=
  if (0 <=? e)%Z then Zpos m * 2 ^ e
  else let d := (2 ^ (- e))%Z in let q := (Zpos m / d)%Z in let r := (2 * (Zpos m mod d))%Z in
       if (r <? d)%Z then q else if (d <? r)%Z then q + 1 else if Z.even q then q else q + 1.
Definition fmt0 (x : f64) : string :=
  match x with
  | S754_nan => "NaN"
  | S754_infinity s => if s then "-inf" else "inf"
  | S754_zero s => if s then "-0" else "0"
  | S754_finite s m e => (if s then "-" else "") +:+ pretty (Z.to_N (round_even m e))
  end.

(** [{x:.1}]: the nearest tenth, ties to even. *)
Definition fmt1 (x : f64) : string :=
  match x with
  | S754_nan => "NaN"
  | S754_infinity s => if s then "-inf" else "inf"
  | S754_zero s => if s then "-0.0" else "0.0"
  | S754_finite s m e =>
      let t := Z.to_N (round_even (10 * m) e) in
      (if s then "-" else "") +:+ pretty (t / 10)%N +:+ "." +:+ pretty (t mod 10)%N
  end.

(** ** [str::parse::<f64>] *)

Fixpoint span {A} (p : A → bool) (l : list A) : list A * list A :=
  match l with
  | [] => ([], [])
  | a :: l' => if p a then let '(x, y) := span p l' in (a :: x, y) else ([], l)
  end.
Definition digits_val (l : list ascii) : N :=
  fold_left (λ acc c, (10 * acc + digit_val c)%N) l 0%N.
Definition parse_sign (l : list ascii) : bool * list ascii :=
  match l with
  | "-"%char :: r => (true, r)
  | "+"%char :: r => (false, r)
  | _ => (false, l)
  end.
Definition parse_exponent (l : list ascii) : option Z :=
  let '(neg, r) := parse_sign l in
  let '(ds, rest) := span is_digit r in
  match ds, rest with
  | [], _ | _, _ :: _ => None
  | _, [] => let n := Z.of_N (digits_val ds) in Some (if neg then (- n)%Z else n)
  end.
Definition parse_f64 (s : string) : option f64 :=
  let '(neg, l) := parse_sign (chars s) in
  let w := to_lowercase (str l) in
  if decide (w = "inf" ∨ w = "infinity") then Some (S754_infinity neg)
  else if decide (w = "nan") then Some S754_nan
  else
    let '(ip, r) := span is_digit l in
    let '(fp, r) := match r with "."%char :: r' => span is_digit r' | _ => ([], r) end in
    match ip ++ fp with
    | [] => None
    | ds =>
        let e := (- Z.of_nat (length fp))%Z in
        match r with
        | [] => Some (f64_of_decimal neg (digits_val ds) e)
        | c :: r' =>
            if decide (c = "e"%char ∨ c = "E"%char)
            then x ← parse_exponent r'; Some (f64_of_decimal neg (digits_val ds) (e + x))
            else None
        end
    end.

(** ** [<] is a strict partial order *)

Lemma pos_compare_cont_eq m1 m2 : Corelib.BinNums.PosDef.Pos.compare_cont Eq m1 m2 = Pos.compare m1 m2.
Proof. done. Qed.

Lemma f64_ltb_irrefl x : f64_ltb x x = false.
Proof.
  unfold f64_ltb, SFltb, SFcompare. destruct x as [[]|[]| |[] m e]; try done;
    by rewrite Z.compare_refl, pos_compare_cont_eq, Pos.compare_refl.
Qed.

(** The finite values in one sign are ordered by exponent, then mantissa. *)
Lemma f64_ltb_trans x y z :
  f64_ltb x y = true → f64_ltb y z = true → f64_ltb x z = true.
Proof.
  unfold f64_ltb, SFltb, SFcompare.
  destruct x as [[]|[]| |[] mx ex], y as [[]|[]| |[] my ey], z as [[]|[]| |[] mz ez];
    rewrite ?(pos_compare_cont_eq mx my), ?(pos_compare_cont_eq my mz),
      ?(pos_compare_cont_eq mx mz); try done;
    destruct (Z.compare_spec ex ey), (Z.compare_spec ey ez), (Z.compare_spec ex ez);
    destruct (Pos.compare_spec mx my), (Pos.compare_spec my mz), (Pos.compare_spec mx mz);
    simplify_eq/=; intros; try done; lia.
Qed.

Lemma f64_ltb_asym x y : f64_ltb x y = true → f64_ltb y x = false.
Proof.
  intros Hxy. destruct (f64_ltb y x) eqn:Hyx; [|done].
  pose proof (f64_ltb_trans _ _ _ Hxy Hyx) as H. by rewrite f64_ltb_irrefl in H.
Qed.

(** [<=] is total and transitive off NaN, and [total_cmp] refines it. *)
Lemma f64_leb_total x y : f64_is_nan x = false → f64_is_nan y = false → f64_leb x y = false → f64_leb y x = true.
Proof.
  unfold f64_leb, SFleb, SFcompare. destruct x as [[]|[]| |[] mx ex], y as [[]|[]| |[] my ey];
    rewrite ?(pos_compare_cont_eq mx my), ?(pos_compare_cont_eq my mx); try done;
    destruct (Z.compare_spec ex ey), (Z.compare_spec ey ex), (Pos.compare_spec mx my), (Pos.compare_spec my mx);
    simplify_eq/=; intros; try done; lia.
Qed.
Lemma f64_leb_trans x y z : f64_leb x y = true → f64_leb y z = true → f64_leb x z = true.
Proof.
  unfold f64_leb, SFleb, SFcompare.
  destruct x as [[]|[]| |[] mx ex], y as [[]|[]| |[] my ey], z as [[]|[]| |[] mz ez];
    rewrite ?(pos_compare_cont_eq mx my), ?(pos_compare_cont_eq my mz),
      ?(pos_compare_cont_eq mx mz); try done;
    destruct (Z.compare_spec ex ey), (Z.compare_spec ey ez), (Z.compare_spec ex ez);
    destruct (Pos.compare_spec mx my), (Pos.compare_spec my mz), (Pos.compare_spec mx mz);
    simplify_eq/=; intros; try done; lia.
Qed.
Lemma f64_leb_refl x : f64_is_nan x = false → f64_leb x x = true.
Proof.
  unfold f64_leb, SFleb, SFcompare. destruct x as [[]|[]| |[] m e]; try done;
    by rewrite Z.compare_refl, pos_compare_cont_eq, Pos.compare_refl.
Qed.
Lemma f64_leb_not_nan x y : f64_leb x y = true → f64_is_nan x = false ∧ f64_is_nan y = false.
Proof. by destruct x as [[]|[]| |[] mx ex], y as [[]|[]| |[] my ey]. Qed.
Lemma f64_ltb_leb x y : f64_ltb x y = true → f64_leb x y = true.
Proof. unfold f64_ltb, f64_leb, SFltb, SFleb. by destruct (SFcompare x y) as [[]|]. Qed.
Lemma f64_not_ltb_leb x y : f64_is_nan x = false → f64_is_nan y = false → f64_ltb x y = false → f64_leb y x = true.
Proof.
  unfold f64_ltb, f64_leb, SFltb, SFleb, SFcompare. destruct x as [[]|[]| |[] mx ex], y as [[]|[]| |[] my ey];
    rewrite ?(pos_compare_cont_eq mx my), ?(pos_compare_cont_eq my mx); try done;
    destruct (Z.compare_spec ex ey), (Z.compare_spec ey ex), (Pos.compare_spec mx my), (Pos.compare_spec my mx);
    simplify_eq/=; intros; try done; lia.
Qed.
Lemma f64_total_ltb_leb x y : f64_is_nan x = false → f64_is_nan y = false →
  if f64_total_ltb x y then f64_leb x y = true else f64_leb y x = true.
Proof.
  intros Hx Hy. destruct (f64_total_ltb x y) eqn:E.
  - destruct x as [[]|[]| |[] mx ex], y as [[]|[]| |[] my ey]; try done; by apply f64_ltb_leb.
  - apply f64_not_ltb_leb; [done..|]. by destruct x as [[]|[]| |[] mx ex], y as [[]|[]| |[] my ey].
Qed.

(** ** Amounts of one and more stay so *)

Lemma log2_xI p : Z.log2 (Zpos p~1) = (Z.log2 (Zpos p) + 1)%Z.
Proof. exact (Z.log2_succ_double (Zpos p) eq_refl). Qed.
Lemma log2_xO p : Z.log2 (Zpos p~0) = (Z.log2 (Zpos p) + 1)%Z.
Proof. exact (Z.log2_double (Zpos p) eq_refl). Qed.
Lemma digits2_log2 m : Zdigits2 (Zpos m) = (Z.log2 (Zpos m) + 1)%Z.
Proof.
  change (Zpos (digits2_pos m) = Z.log2 (Zpos m) + 1)%Z.
  induction m as [m IH|m IH|]; [rewrite log2_xI|rewrite log2_xO|done]; rewrite <- IH; exact (Pos2Z.inj_succ (digits2_pos m)).
Qed.
(** [2 ^ magnitude m e] is the power of two above [m * 2 ^ e]. *)
Definition magnitude (m : positive) (e : Z) : Z := (Z.log2 (Zpos m) + 1 + e)%Z.
Definition not_negative (x : f64) : Prop :=
  match x with S754_zero _ | S754_infinity false | S754_finite false _ _ => True | _ => False end.
Definition at_least_one (x : f64) : Prop :=
  match x with S754_infinity false => True | S754_finite false m e => (1 ≤ magnitude m e)%Z | _ => False end.
Lemma at_least_not_negative x : at_least_one x → not_negative x.
Proof. by destruct x as [[]|[]| |[] m e]. Qed.

Lemma iter_pos_iter {A} (f : A → A) p x : SpecFloat.iter_pos f p x = Pos.iter f x p.
Proof.
  revert x. induction p as [p IH|p IH|]; intros x; cbn; [| |done]; rewrite !IH; [|done].
  by rewrite <- !Pos.iter_swap.
Qed.
Lemma shr_1_log2 r m : shr_m r = Zpos m → (1 ≤ Z.log2 (Zpos m))%Z →
  ∃ m', shr_m (shr_1 r) = Zpos m' ∧ Z.log2 (Zpos m') = (Z.log2 (Zpos m) - 1)%Z.
Proof.
  destruct r as [z b s]. cbn [shr_m]. intros -> Hl. destruct m as [m|m|]; [| |change (1 ≤ 0)%Z in Hl; lia].
  - exists m. split; [done|]. rewrite log2_xI. lia.
  - exists m. split; [done|]. rewrite log2_xO. lia.
Qed.
Lemma shr_1_nonneg r : (0 ≤ shr_m r)%Z → (0 ≤ shr_m (shr_1 r))%Z.
Proof. by destruct r as [[|[]|] b s]. Qed.
Lemma shr_log2 r m p e : shr_m r = Zpos m → (p ≤ Z.log2 (Zpos m))%Z → let '(r', e') := shr r e p in
  ∃ m', shr_m r' = Zpos m' ∧ (Z.log2 (Zpos m') + e' = Z.log2 (Zpos m) + e)%Z.
Proof.
  intros Hm Hp. destruct p as [|p|p]; cbn [shr]; [by exists m| |by exists m]. rewrite iter_pos_iter.
  assert (∃ m', shr_m (Pos.iter shr_1 r p) = Zpos m' ∧ Z.log2 (Zpos m') = (Z.log2 (Zpos m) - Zpos p)%Z) as (m' & E & El).
  2: { exists m'. split; [done|]. lia. }
  revert Hp. induction p as [|p IH] using Pos.peano_ind; intros Hp; [by apply shr_1_log2|].
  rewrite Pos.iter_succ. destruct IH as (m' & E & El); [lia|]. destruct (shr_1_log2 _ _ E) as (m2 & E2 & El2); [lia|].
  exists m2. split; [done|]. lia.
Qed.
Lemma shr_nonneg r p e : (0 ≤ shr_m r)%Z → (0 ≤ shr_m (shr r e p).1)%Z.
Proof.
  intros Hm. destruct p as [|p|p]; cbn; [done| |done]. rewrite iter_pos_iter.
  induction p as [|p IH] using Pos.peano_ind; [by apply shr_1_nonneg|]. rewrite Pos.iter_succ. by apply shr_1_nonneg.
Qed.
Lemma shr_record_m z l : shr_m (shr_record_of_loc z l) = z.
Proof. by destruct l as [|[]]. Qed.
Lemma round_nearest_ge z l : (z ≤ round_nearest_even z l)%Z.
Proof. unfold round_nearest_even. destruct l as [|[]]; try case_match; lia. Qed.

Notation round_aux := (binary_round_aux 53 1024 false).
Lemma shr_fexp_magnitude m e l : (1 ≤ magnitude m e)%Z → let '(r', e') := shr_fexp 53 1024 (Zpos m) e l in
  ∃ m', shr_m r' = Zpos m' ∧ (1 ≤ magnitude m' e')%Z.
Proof.
  unfold magnitude. intros Hm. unfold shr_fexp. rewrite digits2_log2. pose proof (Z.log2_nonneg (Zpos m)).
  pose proof (shr_log2 (shr_record_of_loc (Zpos m) l) m (fexp 53 1024 (Z.log2 (Zpos m) + 1 + e) - e) e (shr_record_m _ _)) as Hs.
  destruct (shr _ _ _) as [r' e']. destruct Hs as (m' & E & El); [unfold fexp, emin; lia|]. exists m'. split; [done|]. lia.
Qed.
Lemma round_aux_one m e l : (1 ≤ magnitude m e)%Z → at_least_one (round_aux (Zpos m) e l).
Proof.
  intros Hm. unfold binary_round_aux. pose proof (shr_fexp_magnitude m e l Hm) as Hs. destruct (shr_fexp 53 1024 (Zpos m) e l) as [r e1].
  destruct Hs as (m1 & E1 & Hm1). rewrite E1. pose proof (round_nearest_ge (Zpos m1) (loc_of_shr_record r)) as Hg.
  destruct (round_nearest_even (Zpos m1) (loc_of_shr_record r)) as [|m2|] eqn:E2; try lia.
  assert (1 ≤ magnitude m2 e1)%Z as Hm2 by (unfold magnitude in *; pose proof (Z.log2_le_mono _ _ Hg); lia).
  pose proof (shr_fexp_magnitude m2 e1 loc_Exact Hm2) as Hs. destruct (shr_fexp 53 1024 (Zpos m2) e1 loc_Exact) as [r2 e2].
  destruct Hs as (m3 & -> & Hm3). by destruct (Z.leb e2 (1024 - 53)).
Qed.
Lemma round_aux_not_negative m e l : not_negative (round_aux (Zpos m) e l).
Proof.
  unfold binary_round_aux, shr_fexp.
  assert (0 ≤ shr_m (shr_record_of_loc (Zpos m) l))%Z as H0 by (rewrite shr_record_m; lia).
  pose proof (shr_nonneg _ (fexp 53 1024 (Zdigits2 (Zpos m) + e) - e) e H0) as Hr. destruct (shr _ e _) as [r1 e1]. cbn in Hr.
  pose proof (round_nearest_ge (shr_m r1) (loc_of_shr_record r1)) as Hg.
  set (z := round_nearest_even _ _) in *.
  assert (0 ≤ shr_m (shr_record_of_loc z loc_Exact))%Z as Hz by (rewrite shr_record_m; lia).
  pose proof (shr_nonneg _ (fexp 53 1024 (Zdigits2 z + e1) - e1) e1 Hz) as Hr2. destruct (shr _ e1 _) as [r2 e2]. cbn in Hr2.
  destruct (shr_m r2); [done| |lia]. by destruct (Z.leb e2 (1024 - 53)).
Qed.
Lemma shl_align_magnitude m e ex : (let '(m', e') := shl_align m e ex in magnitude m' e') = magnitude m e.
Proof.
  unfold shl_align. destruct (ex - e)%Z as [|d|d] eqn:E; [done..|]. unfold magnitude.
  assert (Z.log2 (Zpos (Pos.iter xO m d)) = Z.log2 (Zpos m) + Zpos d)%Z as ->; [|lia].
  clear E. induction d as [|d IH] using Pos.peano_ind; [cbn [Pos.iter]; rewrite (Pos2Z.inj_xO m), Z.log2_double by done; lia|].
  rewrite Pos.iter_succ. rewrite log2_xO. lia.
Qed.
Lemma binary_round_one m e : (1 ≤ magnitude m e)%Z → at_least_one (binary_round 53 1024 false m e).
Proof.
  intros Hm. unfold binary_round. pose proof (shl_align_magnitude m e (fexp 53 1024 (Zpos (digits2_pos m) + e))) as Hs.
  destruct (shl_align _ _ _) as [m' e']. apply round_aux_one. lia.
Qed.
Lemma binary_round_not_negative m e : not_negative (binary_round 53 1024 false m e).
Proof. unfold binary_round. destruct (shl_align _ _ _) as [m' e']. apply round_aux_not_negative. Qed.

Lemma f64_add_not_negative x y : not_negative x → not_negative y → not_negative (x + y)%f64.
Proof.
  destruct x as [[]|[]| |[] mx ex], y as [[]|[]| |[] my ey]; try done. intros _ _. apply binary_round_not_negative.
Qed.
Lemma f64_add_one x y : at_least_one x → not_negative y → at_least_one (x + y)%f64.
Proof.
  destruct x as [[]|[]| |[] mx ex], y as [[]|[]| |[] my ey]; try done. intros Hx _. unfold f64_add, SFadd.
  pose proof (shl_align_magnitude mx ex (Z.min ex ey)) as Hs.
  assert ((shl_align mx ex (Z.min ex ey)).2 = Z.min ex ey) as He.
  { unfold shl_align. destruct (Z.min ex ey - ex)%Z eqn:E; cbn; lia. }
  destruct (shl_align mx ex (Z.min ex ey)) as [m' e']. cbn [fst snd] in *. subst e'. cbn [cond_Zopp binary_normalize Z.add].
  apply binary_round_one. cbn in Hx. revert Hs. unfold magnitude in *.
  pose proof (Z.log2_le_mono (Zpos m') (Zpos (m' + (shl_align my ey (Z.min ex ey)).1)) ltac:(lia)). lia.
Qed.
Lemma f64_add_comm_one x y : not_negative x → at_least_one y → at_least_one (x + y)%f64.
Proof.
  intros Hx Hy. assert ((x + y)%f64 = (y + x)%f64 ∨ at_least_one (x + y)%f64) as [->|?]; [|by apply f64_add_one|done].
  destruct x as [[]|[]| |[] mx ex], y as [[]|[]| |[] my ey]; try done; try (by left); try (by right). left.
  unfold f64_add, SFadd. rewrite (Z.min_comm ex ey). f_equal. apply Z.add_comm.
Qed.
Lemma f64_mul_one x y : at_least_one x → at_least_one y → at_least_one (x * y)%f64.
Proof.
  destruct x as [[]|[]| |[] mx ex], y as [[]|[]| |[] my ey]; try done. intros Hx Hy. apply round_aux_one. cbn in *. unfold magnitude in *.
  pose proof (Z.log2_mul_below (Zpos mx) (Zpos my) ltac:(lia) ltac:(lia)). rewrite Pos2Z.inj_mul. lia.
Qed.
Lemma f64_of_N_cases n : (n = 0%N ∧ f64_of_decimal false n 0 = f64_zero) ∨ at_least_one (f64_of_decimal false n 0).
Proof.
  destruct n as [|p]; [by left|]. right. change (at_least_one (match (Zpos p * 1)%Z with Zpos q => binary_round 53 1024 false q 0 | _ => S754_zero false end)).
  rewrite Z.mul_1_r. apply binary_round_one. unfold magnitude.
  pose proof (Z.log2_nonneg (Zpos p)). lia.
Qed.
Lemma magnitude_pow m e : (1 ≤ magnitude m e)%Z → (e < 0)%Z → (2 ^ (- e) ≤ Zpos m)%Z.
Proof.
  unfold magnitude. intros Hm He. apply Z.log2_le_pow2; lia.
Qed.
Lemma as_u64_one x : at_least_one x → as_u64 (f64_round x) ≠ 0%N.
Proof.
  assert (∀ x, at_least_one x → (1 ≤ as_int 0 (2 ^ 64 - 1) x)%Z) as Ha.
  { intros [[]|[]| |[] m e]; try done. cbn -[trunc_Z clamp Z.pow]. intros Hm. unfold clamp. apply Z.max_le_iff. right. apply Z.min_glb; [lia|].
    unfold trunc_Z, signed. destruct (Z.leb_spec 0 e) as [He|He].
    - pose proof (Z.pow_pos_nonneg 2 e). nia.
    - pose proof (magnitude_pow m e Hm He). pose proof (Z.pow_pos_nonneg 2 (- e)). apply Z.quot_le_lower_bound; lia. }
  intros Hx. assert (at_least_one (f64_round x)) as Hr; [|specialize (Ha _ Hr); unfold as_u64; lia].
  destruct x as [[]|[]| |[] m e]; try done. cbn [f64_round integral]. cbn in Hx.
  assert (1 ≤ round_Z false m e)%Z as Hz.
  { unfold round_Z, signed. destruct (Z.leb_spec 0 e) as [He|He].
    - pose proof (Z.pow_pos_nonneg 2 e). nia.
    - pose proof (magnitude_pow m e Hx He). pose proof (Z.pow_pos_nonneg 2 (- e)). apply Z.div_le_lower_bound; lia. }
  unfold f64_round, integral. destruct (round_Z false m e) as [|p|]; try lia. cbn [f64_of_Z binary_normalize]. apply binary_round_one.
  unfold magnitude. pose proof (Z.log2_nonneg (Zpos p)). lia.
Qed.
(** A whole number is read as itself. *)
Lemma span_all {A} (p : A → bool) l : Forall (λ a, p a = true) l → span p l = (l, []).
Proof. induction 1 as [|a l Ha _ IH]; [done|]. cbn. by rewrite Ha, IH. Qed.
Lemma digits_val_parse l a n : parse_digits a l = Some n → fold_left (λ acc c, (10 * acc + digit_val c)%N) l a = n.
Proof. revert a. induction l as [|c l IH]; intros a; cbn [parse_digits fold_left]; [by intros [= ->]|]. case_match; [apply IH|done]. Qed.
Lemma digits_val_pretty n : digits_val (chars (pretty n)) = n.
Proof.
  apply digits_val_parse. pose proof (parse_uint_pretty (N.succ n) n ltac:(lia)) as Hp. revert Hp. unfold parse_uint.
  destruct (pretty_N_digits n) as [F Hne]. unfold all_digits in F.
  assert (match chars (pretty n) with "+"%char :: l => l | l => l end = chars (pretty n)) as ->.
  { destruct F as [|c l Hc _]; [done|]. by destruct c as [[] [] [] [] [] [] [] []]. }
  destruct (chars (pretty n)); [done|]. destruct (parse_digits 0 _) as [k|]; cbn; [|done]. by destruct (k <? N.succ n)%N.
Qed.
Lemma parse_f64_pretty n : parse_f64 (pretty n) = Some (f64_of_decimal false n 0).
Proof.
  destruct (pretty_N_digits n) as [F Hne]. pose proof (digits_val_pretty n) as Hv. unfold all_digits in F. unfold parse_f64.
  destruct (chars (pretty n)) as [|c l] eqn:E.
  { destruct (pretty n); [done|]. discriminate E. }
  assert (parse_sign (c :: l) = (false, c :: l)) as -> by (inversion F; by destruct c as [[] [] [] [] [] [] [] []]).
  assert (∀ w, is_digit (match chars w with a :: _ => a | [] => "a" end) = false → to_lowercase (str (c :: l)) ≠ w) as Hw.
  { intros w Hw Ew. rewrite <- Ew in Hw. unfold to_lowercase in Hw. rewrite !chars_str in Hw. cbn in Hw. inversion F as [|? ? Hc]; subst.
    clear - Hw Hc. by destruct c as [[] [] [] [] [] [] [] []]. }
  rewrite decide_False by (intros [Ew|Ew]; by apply Hw in Ew). rewrite decide_False by (intros Ew; by apply Hw in Ew).
  rewrite span_all by done. rewrite app_nil_r. by rewrite Hv.
Qed.

Example fmt0_ties : fmt0 <$> [f64_of_decimal false 5 (-1); f64_of_decimal false 15 (-1); f64_of_decimal false 25 (-1); f64_of_decimal true 26 (-1)]
  = ["0"; "2"; "2"; "-3"].
Proof. vm_compute. done. Qed.
Example fmt1_tenths : fmt1 <$> [f64_of_decimal false 6265 (-2); f64_of_decimal false 25 (-2); f64_of_Z 100] = ["62.6"; "0.2"; "100.0"].
Proof. vm_compute. done. Qed.
Example parse_f64_runtime : parse_f64 "5516.500" = Some (f64_of_decimal false 11033 (-1) * f64_of_Z 5)%f64.
Proof. vm_compute. reflexivity. Qed.
