(* ===== verification/Json.v ===== *)
(** * [serde_json::Value], as the programs use it

    The data type and the accessors the source calls on it ([v["key"]], [as_str], [as_array],
    [as_i64], [as_u64], [as_f64], [==]). Objects are association lists in key order. The
    serialiser is third-party code: it is the parameter [to_string] of the class [SerdeJson], and
    the class [SerdeJsonLaws] states what the programs rely on (two values with the same text are
    equal). [Reference] is a concrete serialiser with those laws. *)

From Stdlib Require Import Ascii.
From stdpp Require Import countable options.
From S2P Require Import Prelude F64.

Inductive number : Type :=
  | PosInt (n : N)
  | NegInt (z : Z)
  | Float (x : f64).

Inductive Value : Type :=
  | Null
  | Bool (b : bool)
  | Number (n : number)
  | Str (s : string)
  | Array (l : list Value)
  | Object (m : list (string * Value)).

#[export] Instance number_eq_dec : EqDecision number.
Proof. solve_decision. Defined.
#[export] Instance Value_inhabited : Inhabited Value := populate Null.

(** Induction through the nested lists. *)
Section Value_induction.
Context (P : Value → Prop).
Context (HNull : P Null) (HBool : ∀ b, P (Bool b)) (HNum : ∀ n, P (Number n)) (HStr : ∀ s, P (Str s)).
Context (HArr : ∀ l, Forall P l → P (Array l)).
Context (HObj : ∀ m, Forall (λ kv, P kv.2) m → P (Object m)).
Fixpoint Value_ind' (v : Value) : P v :=
  match v with
  | Null => HNull
  | Bool b => HBool b
  | Number n => HNum n
  | Str s => HStr s
  | Array l =>
      HArr l ((fix go l := match l return Forall P l with
                           | [] => Forall_nil_2 _
                           | v :: l' => Forall_cons_2 _ _ _ (Value_ind' v) (go l')
                           end) l)
  | Object m =>
      HObj m ((fix go m := match m return Forall (λ kv, P kv.2) m with
                           | [] => Forall_nil_2 _
                           | kv :: m' => Forall_cons_2 _ _ _ (Value_ind' kv.2) (go m')
                           end) m)
  end.
End Value_induction.

(** ** Accessors *)

Fixpoint assoc {A} (k : string) (m : list (string * A)) : option A :=
  match m with
  | [] => None
  | (k', a) :: m' => if decide (k = k') then Some a else assoc k m'
  end.

(** [v["key"]]: [Null] when absent or not an object. *)
Definition index (k : string) (v : Value) : Value :=
  match v with Object m => default Null (assoc k m) | _ => Null end.
Notation "v .[ k ]" := (index k v) (at level 2, left associativity, format "v .[ k ]").

Definition as_str (v : Value) : option string := match v with Str s => Some s | _ => None end.
Definition as_array (v : Value) : option (list Value) := match v with Array l => Some l | _ => None end.
Definition as_f64 (n : number) : option f64 :=
  match n with
  | PosInt n => Some (f64_of_Z (Z.of_N n))
  | NegInt z => Some (f64_of_Z z)
  | Float x => Some x
  end.
Definition value_as_i64 (v : Value) : option Z :=
  match v with
  | Number (PosInt n) => if (Z.of_N n <? 2 ^ 63)%Z then Some (Z.of_N n) else None
  | Number (NegInt z) => Some z
  | _ => None
  end.
Definition value_as_u64 (v : Value) : option N :=
  match v with Number (PosInt n) => Some n | _ => None end.

(** [==] on values: floats compare as floats. *)
Definition number_eqb (a b : number) : bool :=
  match a, b with
  | PosInt n, PosInt m => (n =? m)%N
  | NegInt n, NegInt m => (n =? m)%Z
  | Float x, Float y => f64_eqb x y
  | _, _ => false
  end.
Fixpoint value_eqb (a b : Value) : bool :=
  match a, b with
  | Null, Null => true
  | Bool x, Bool y => Bool.eqb x y
  | Number x, Number y => number_eqb x y
  | Str x, Str y => String.eqb x y
  | Array l, Array k =>
      (fix go l k := match l, k with
                     | [], [] => true
                     | x :: l', y :: k' => value_eqb x y && go l' k'
                     | _, _ => false
                     end) l k
  | Object l, Object k =>
      (fix go l k := match l, k with
                     | [], [] => true
                     | (x, v) :: l', (y, w) :: k' => String.eqb x y && value_eqb v w && go l' k'
                     | _, _ => false
                     end) l k
  | _, _ => false
  end.

(** [v == "text"] *)
Definition value_is_str (v : Value) (s : string) : bool :=
  match v with Str t => String.eqb t s | _ => false end.

(** Only finite floats occur in a [Value] ([Number::from_f64]). *)
Definition f64_finite (x : f64) : bool :=
  match x with S754_zero _ | S754_finite _ _ _ => true | _ => false end.
Fixpoint json_wf (v : Value) : bool :=
  match v with
  | Number (Float x) => f64_finite x
  | Array l => forallb json_wf l
  | Object m => forallb (λ kv, json_wf kv.2) m
  | _ => true
  end.

(** Only a NaN is not equal to itself. *)
Lemma value_eqb_refl v : json_wf v = true → value_eqb v v = true.
Proof.
  induction v as [|b|[]|s|l IH|m IH] using Value_ind'; cbn; intros Hw; try done.
  - by destruct b.
  - apply N.eqb_refl.
  - apply Z.eqb_refl.
  - unfold f64_eqb, SpecFloat.SFeqb, SpecFloat.SFcompare. destruct x as [[]|[]| |[] m e]; try done; by rewrite Z.compare_refl, pos_compare_cont_eq, Pos.compare_refl.
  - apply String.eqb_refl.
  - induction IH as [|v l Hv _ IH]; [done|]. cbn in Hw. apply andb_true_iff in Hw as [H1 H2]. rewrite Hv by done. by apply IH.
  - induction IH as [|[k v] m Hv _ IH]; [done|]. cbn in Hw, Hv. apply andb_true_iff in Hw as [H1 H2]. rewrite String.eqb_refl, Hv by done. by apply IH.
Qed.

(** ** Serialisation *)

Class SerdeJson : Type := to_string : Value → string.

Class SerdeJsonLaws `{SerdeJson} : Prop := {
  to_string_inj v w : json_wf v = true → json_wf w = true → to_string v = to_string w → v = w;
  to_string_int n : to_string (Number (PosInt n)) = pretty n;
}.

Module Reference.
#[export] Instance f64_countable : Countable f64.
Proof.
  refine (inj_countable'
    (λ x : f64, match x return bool + bool + unit + bool * positive * Z with
           | S754_zero s => inl (inl (inl s)) | S754_infinity s => inl (inl (inr s))
           | S754_nan => inl (inr ()) | S754_finite s m e => inr (s, m, e) end)
    (λ y, match y with
           | inl (inl (inl s)) => S754_zero s | inl (inl (inr s)) => S754_infinity s
           | inl (inr _) => S754_nan | inr (s, m, e) => S754_finite s m e end) _).
  by intros [].
Defined.

Notation leaf := (bool + N + Z + f64 + string)%type.
Fixpoint to_tree (v : Value) : gen_tree leaf :=
  match v with
  | Null => GenNode 0 []
  | Bool b => GenLeaf (inl (inl (inl (inl b))))
  | Number (PosInt n) => GenLeaf (inl (inl (inl (inr n))))
  | Number (NegInt z) => GenLeaf (inl (inl (inr z)))
  | Number (Float x) => GenLeaf (inl (inr x))
  | Str s => GenLeaf (inr s)
  | Array l => GenNode 1 (map to_tree l)
  | Object m => GenNode 2 (map (λ kv, GenNode 3 [GenLeaf (inr kv.1); to_tree kv.2]) m)
  end.

#[export] Instance to_tree_inj : Inj (=) (=) to_tree.
Proof.
  intros v. induction v as [|b|[]|s|l IH|m IH] using Value_ind'; intros w E;
    destruct w as [|?|[]|?|l'|m']; simplify_eq/=; try done.
  - f_equal. revert l' E. induction IH as [|v l Hv _ IH]; intros [|w l'] E; simplify_eq/=; [done|].
    f_equal; eauto.
  - f_equal. revert m' E. induction IH as [|[k v] l Hv _ IH]; intros [|[k' w] l'] E; simplify_eq/=; [done|].
    f_equal; [f_equal|]; eauto.
Qed.

Definition print (v : Value) : string :=
  match v with
  | Number (PosInt n) => pretty n
  | _ => "#" +:+ pretty (encode (to_tree v))
  end.

Lemma print_inj : Inj (=) (=) print.
Proof.
  assert (∀ (n : N) s, pretty n ≠ "#" +:+ s) as Hne.
  { intros n s E. apply (pretty_N_char_not_in n "#"%char); [done|].
    rewrite E. unfold char_in. rewrite chars_app. left. }
  assert (∀ v w, "#" +:+ pretty (encode (to_tree v)) = "#" +:+ pretty (encode (to_tree w)) → v = w) as Hi.
  { intros v w E. apply str_app_inv_l, (inj pretty), (inj encode), (inj to_tree) in E. done. }
  intros v w. unfold print.
  repeat case_match; intros E; try (by apply Hi in E);
    try (by apply Hne in E); try (by symmetry in E; apply Hne in E).
  apply (inj pretty) in E. congruence.
Qed.

#[export] Instance serde : SerdeJson := print.
#[export] Instance serde_laws : SerdeJsonLaws.
Proof. split; [|done]. intros v w _ _ E. by apply print_inj. Qed.
End Reference.
