(* ===== verification/Naming.v ===== *)
(** * Names ([apps/dvdrip/src/naming.rs])

    Disc labels to library names and Kubernetes object names, and title durations. *)

From Stdlib Require Import Ascii.
From stdpp Require Import options.
From S2P Require Import Prelude F64 Json.

(** ** Operations *)

Definition capitalise (w : string) : string :=
  match chars (to_lowercase w) with
  | c :: cs => str (to_upper_char c :: cs)
  | [] => ""
  end.

Definition label_to_name (label : string) : string :=
  join " " (capitalise <$> filter (λ w, w ≠ "") (split_char " " (replace_char "_" " " label))).

(** One character of the slug: runs of anything else become one dash. *)
Definition slug_push (slug : string) (c : ascii) : string :=
  if is_ascii_alphanumeric c then slug +:+ String c ""
  else if ends_with_char "-" slug then slug else slug +:+ "-".
Definition is_dash (c : ascii) : bool := bool_decide (c = "-"%char).

Definition disc_object_name (label fingerprint : string) : string :=
  let slug := fold_left slug_push (chars (to_lowercase label)) "" in
  let slug := trim_matches is_dash slug in
  let slug := if decide (slug = "") then "disc" else slug in
  (* usize subtraction *)
  let room := N.to_nat (u64_wrap (62 + u64_modulus - N.of_nat (String.length fingerprint))) in
  let slug := trim_end_matches is_dash (str (take (min (String.length slug) room) (chars slug))) in
  slug +:+ "-" +:+ fingerprint.

(** [{:02}] of an [i64] *)
Definition pad2_i64 (z : Z) : string := if (z <? 0)%Z then pretty z else pad2 (Z.to_N z).

Definition dur (seconds : f64) : string :=
  let whole := as_i64 (f64_trunc seconds) in
  pretty (as_i64 (f64_floor (seconds / f64_of_Z 60)%f64)) +:+ "m" +:+ pad2_i64 (Z.rem whole 60) +:+ "s".

Definition title_stem (title : N) (seconds : f64) : string :=
  "Title " +:+ pretty title +:+ " - " +:+ dur seconds.

Definition version_label (aspect : Value) (title : N) : string :=
  match as_str aspect with
  | Some a => if decide (a = "4/3") then "Fullscreen"
              else if decide (a = "16/9") then "Widescreen"
              else "Title " +:+ pretty title
  | None => "Title " +:+ pretty title
  end.

Definition valid_library_name (name : string) : bool :=
  bool_decide (name ≠ "") && negb (contains_char "/" name)
  && bool_decide (name ≠ ".") && bool_decide (name ≠ "..").

(** ** The source's own tests *)

Example names_from_labels :
  label_to_name "HOW_TO_TRAIN_YOUR_DRAGON" = "How To Train Your Dragon" ∧
  label_to_name "MONSTERS__INC_" = "Monsters Inc" ∧ label_to_name "ELF" = "Elf".
Proof. vm_compute. done. Qed.
Example object_names :
  disc_object_name "MONSTERS__INC_" "3fa2c1e0b9d4" = "monsters-inc-3fa2c1e0b9d4" ∧
  disc_object_name "" "abc" = "disc-abc".
Proof. vm_compute. done. Qed.
Example durations :
  dur (f64_of_decimal false 55165 (-1)) = "91m56s" ∧ dur (f64_of_Z 6) = "0m06s" ∧
  title_stem 23 (f64_of_decimal false 339 (-1)) = "Title 23 - 0m33s".
Proof. vm_compute. done. Qed.

(** ** Library names *)

Lemma to_lower_char_cases c : to_lower_char c = c ∨ is_lower (to_lower_char c) = true ∧ is_upper c = true.
Proof. destruct c as [[] [] [] [] [] [] [] []]; first [left; reflexivity | right; split; reflexivity]. Qed.
Lemma to_upper_char_cases c : to_upper_char c = c ∨ is_upper (to_upper_char c) = true ∧ is_lower c = true.
Proof. destruct c as [[] [] [] [] [] [] [] []]; first [left; reflexivity | right; split; reflexivity]. Qed.
Lemma to_lower_char_iff a c :
  is_ascii_alphanumeric a = false → to_lower_char c = a ↔ c = a.
Proof.
  unfold is_ascii_alphanumeric. intros Ha. bool_prop.
  destruct (to_lower_char_cases c) as [->|[Hl Hu]]; [done|]. split; [intros <-|intros ->]; congruence.
Qed.
Lemma to_upper_char_iff a c :
  is_ascii_alphanumeric a = false → to_upper_char c = a ↔ c = a.
Proof.
  unfold is_ascii_alphanumeric. intros Ha. bool_prop.
  destruct (to_upper_char_cases c) as [->|[Hu Hl]]; [done|]. split; [intros <-|intros ->]; congruence.
Qed.
Lemma to_lower_upper c : to_lower_char (to_upper_char (to_lower_char c)) = to_lower_char c.
Proof. destruct c as [[] [] [] [] [] [] [] []]; reflexivity. Qed.
Lemma to_lower_lower c : to_lower_char (to_lower_char c) = to_lower_char c.
Proof. destruct c as [[] [] [] [] [] [] [] []]; reflexivity. Qed.

Lemma chars_to_lowercase w : chars (to_lowercase w) = to_lower_char <$> chars w.
Proof. apply chars_str. Qed.

Lemma capitalise_chars w :
  chars (capitalise w) =
  match chars w with [] => [] | c :: cs => to_upper_char (to_lower_char c) :: (to_lower_char <$> cs) end.
Proof.
  unfold capitalise. rewrite chars_to_lowercase. destruct (chars w); [done|]. cbn [fmap list_fmap].
  by rewrite chars_str.
Qed.
Lemma capitalise_idem w : capitalise (capitalise w) = capitalise w.
Proof.
  apply (inj chars). rewrite !capitalise_chars. destruct (chars w) as [|c cs]; [done|].
  rewrite to_lower_upper. f_equal. rewrite <- list_fmap_compose. apply list_fmap_ext. intros i x _. apply to_lower_lower.
Qed.
Lemma capitalise_char_in a w :
  is_ascii_alphanumeric a = false → char_in a (capitalise w) → char_in a w.
Proof.
  unfold char_in. intros Ha. rewrite capitalise_chars. destruct (chars w) as [|c cs]; [done|].
  intros [E|(x & E & Hx)%list_elem_of_fmap]%elem_of_cons.
  - symmetry in E. rewrite to_upper_char_iff, to_lower_char_iff in E by done.
    subst. left.
  - symmetry in E. rewrite to_lower_char_iff in E by done. subst. by right.
Qed.
Lemma capitalise_ne w : w ≠ "" → capitalise w ≠ "".
Proof.
  intros Hw E. apply Hw, chars_nil_iff. apply chars_nil_iff in E. rewrite capitalise_chars in E.
  by destruct (chars w).
Qed.

(** The words of a library name: capitalised, non-empty, free of spaces. *)
Definition word_ok (w : string) : Prop := w ≠ "" ∧ ¬ char_in " " w ∧ ¬ char_in "_" w ∧ capitalise w = w.

Lemma label_to_name_words label :
  ∃ ws, label_to_name label = join " " ws ∧ Forall word_ok ws.
Proof.
  unfold label_to_name. eexists. split; [done|].
  apply Forall_forall. intros w (v & -> & Hv)%list_elem_of_fmap.
  apply list_elem_of_filter in Hv as [Hne Hv].
  split; [by apply capitalise_ne|]. split; [|split; [|apply capitalise_idem]].
  - intros H. apply capitalise_char_in in H; [|done]. by eapply split_char_no_sep.
  - intros H. apply capitalise_char_in in H; [|done].
    eapply replace_char_gone; [|eapply split_char_sub; [exact Hv|exact H]]. done.
Qed.

Lemma label_to_name_join ws : Forall word_ok ws → label_to_name (join " " ws) = join " " ws.
Proof.
  intros HF. unfold label_to_name. rewrite replace_char_id.
  2:{ intros [H|(w & Hw & H)]%char_in_join.
      - by apply list_elem_of_singleton in H.
      - eapply Forall_forall in HF; [|exact Hw]. by destruct HF as (_ & _ & ? & _). }
  destruct ws as [|w ws]; [done|].
  rewrite split_join; [|done|eapply Forall_impl; [exact HF|]; by intros v (_ & ? & _)].
  rewrite filter_all by (eapply Forall_impl; [exact HF|]; by intros v (? & _)).
  rewrite (list_fmap_ext _ id), list_fmap_id; [done|].
  intros i v Hv. apply list_elem_of_lookup_2 in Hv. eapply Forall_forall in HF; [|exact Hv].
  by destruct HF as (_ & _ & _ & ?).
Qed.

(** [label_to_name] normalises. *)
Theorem label_to_name_idempotent label : label_to_name (label_to_name label) = label_to_name label.
Proof. destruct (label_to_name_words label) as (ws & -> & HF). by apply label_to_name_join. Qed.

(** ** Object names *)

Definition lower_alnum (c : ascii) : bool := is_lower c || is_digit c.
Definition dns_char (c : ascii) : bool := lower_alnum c || is_dash c.

(** The rule for Kubernetes object names used as label values (RFC 1123): 1 to 63 characters,
    lower case letters, digits and dashes, alphanumeric at both ends. *)
Definition dns1123_label (s : string) : bool :=
  bool_decide (String.length s ≤ 63) && forallb dns_char (chars s)
  && match head (chars s), last (chars s) with
     | Some a, Some b => lower_alnum a && lower_alnum b
     | _, _ => false
     end.

Lemma slug_push_dns slug c :
  Forall dns_char (chars slug) → Forall dns_char (chars (slug_push slug (to_lower_char c))).
Proof.
  intros HF. unfold slug_push. destruct (is_ascii_alphanumeric _) eqn:E.
  - rewrite chars_app. apply Forall_app. split; [done|]. repeat constructor.
    unfold dns_char, lower_alnum. apply to_lower_alnum in E as [->| ->]; by rewrite ?orb_true_r.
  - case_match; [done|]. rewrite chars_app. apply Forall_app. split; [done|]. by repeat constructor.
Qed.
Lemma slug_dns l s :
  Forall dns_char (chars s) →
  Forall dns_char (chars (fold_left slug_push (to_lower_char <$> l) s)).
Proof.
  revert s. induction l as [|c l IH]; intros s HF; cbn; [done|]. apply IH. by apply slug_push_dns.
Qed.

Lemma drop_while_snoc_stop {A} (p : A → bool) l a :
  p a = false → drop_while p (l ++ [a]) = drop_while p l ++ [a].
Proof. intros Ha. induction l as [|b l IH]; cbn; [by rewrite Ha|]. by case_match. Qed.
Lemma drop_while_end_cons {A} (p : A → bool) a l :
  p a = false → drop_while_end p (a :: l) = a :: drop_while_end p l.
Proof.
  intros Ha. unfold drop_while_end. rewrite reverse_cons, drop_while_snoc_stop by done.
  by rewrite reverse_app.
Qed.

(** The slug part: starts with a letter or digit, only name characters, at most [room] long. *)
Definition slug_of (label : string) (room : nat) : string :=
  let slug := trim_matches is_dash (fold_left slug_push (chars (to_lowercase label)) "") in
  let slug := if decide (slug = "") then "disc" else slug in
  trim_end_matches is_dash (str (take (min (String.length slug) room) (chars slug))).

Lemma slug_of_spec label room :
  0 < room →
  ∃ c l, chars (slug_of label room) = c :: l ∧ lower_alnum c ∧ Forall dns_char (c :: l)
         ∧ length (c :: l) ≤ room.
Proof.
  intros Hr. unfold slug_of.
  set (s := trim_matches is_dash (fold_left slug_push (chars (to_lowercase label)) "")).
  assert (∃ c l, chars (if decide (s = "") then "disc" else s) = c :: l ∧ lower_alnum c ∧ Forall dns_char (c :: l))
    as (c & l & E & Hc & HF).
  { case_decide as Hs; [eexists _, _; split; [done|]; split; [done|by repeat constructor]|].
    destruct (chars s) as [|c l] eqn:E; [by apply chars_nil_iff in E|]. exists c, l.
    assert (Forall dns_char (c :: l)) as HF.
    { rewrite <- E. subst s. unfold trim_matches, trim_end_matches, trim_start_matches.
      rewrite !chars_str. apply Forall_forall. intros x Hx.
      apply drop_while_end_elem, drop_while_elem in Hx.
      rewrite chars_to_lowercase in Hx. eapply (Forall_in dns_char); [|exact Hx]. by apply slug_dns. }
    split; [done|]. split; [|done]. apply Forall_cons in HF as [Hd _].
    assert (is_dash c = false) as Hdash.
    { subst s. unfold trim_matches, trim_end_matches, trim_start_matches in E.
      rewrite !chars_str in E. destruct (drop_while_end_prefix is_dash (drop_while is_dash
        (chars (fold_left slug_push (chars (to_lowercase label)) "")))) as [k Hk].
      rewrite E in Hk. cbn in Hk. by apply drop_while_head in Hk. }
    unfold dns_char in Hd. by rewrite Hdash, orb_false_r in Hd. }
  rewrite E, length_chars, E. unfold trim_end_matches. rewrite !chars_str.
  replace (take (length (c :: l) `min` room) (c :: l)) with (c :: take (room - 1) l).
  2:{ destruct room as [|r]; [lia|]. cbn. f_equal. rewrite Nat.sub_0_r.
      destruct (Nat.min_spec (length l) r) as [[? ->]|[? ->]]; [|done]. rewrite !take_ge; done || lia. }
  assert (is_dash c = false) as Hd.
  { unfold is_dash. apply bool_decide_eq_false. intros ->. done. }
  rewrite drop_while_end_cons by done. eexists _, _. split; [done|]. split; [done|].
  apply Forall_cons in HF as [? HF]. split.
  - constructor; [done|]. apply Forall_forall. intros x Hx%drop_while_end_elem.
    eapply (Forall_in dns_char); [exact HF|]. by eapply take_elem.
  - destruct (drop_while_end_prefix is_dash (take (room - 1) l)) as [k Hk].
    apply (f_equal length) in Hk. rewrite length_take, length_app in Hk. cbn. lia.
Qed.

Lemma disc_object_name_slug label fp :
  String.length fp ≤ 61 →
  disc_object_name label fp = slug_of label (62 - String.length fp) +:+ "-" +:+ fp.
Proof.
  intros Hfp. unfold disc_object_name, slug_of.
  replace (N.to_nat (u64_wrap (62 + u64_modulus - N.of_nat (String.length fp))))
    with (62 - String.length fp); [done|].
  unfold u64_wrap, u64_modulus.
  replace (62 + 2 ^ 64 - N.of_nat (String.length fp))%N
    with ((62 - N.of_nat (String.length fp)) + 1 * 2 ^ 64)%N by lia.
  rewrite N.Div0.mod_add, N.mod_small by lia. lia.
Qed.

(** C3: object names are DNS-1123. *)
Theorem disc_object_name_dns1123 label fp :
  fp ≠ "" → String.length fp ≤ 61 → Forall lower_alnum (chars fp) →
  dns1123_label (disc_object_name label fp) = true.
Proof.
  intros Hne Hlen HF. rewrite disc_object_name_slug by done.
  destruct (slug_of_spec label (62 - String.length fp)) as (c & l & E & Hc & HS & Hl); [lia|].
  unfold dns1123_label. rewrite length_chars, !chars_app, E, !andb_true_iff.
  rewrite length_chars in Hlen, Hl. split; [split|].
  - apply bool_decide_eq_true. rewrite !length_app. cbn in *. lia.
  - apply Is_true_true, forallb_True. apply Forall_app. split; [done|]. constructor; [done|].
    eapply Forall_impl; [exact HF|]. intros x Hx. unfold dns_char. apply orb_True. by left.
  - rewrite app_assoc, last_app. destruct (chars fp) as [|d k] eqn:Ef; [by apply chars_nil_iff in Ef|].
    destruct (last (d :: k)) as [x|] eqn:Ex.
    + cbn. rewrite andb_true_iff. split; [by apply Is_true_true|].
      apply last_Some_elem_of in Ex. apply Is_true_true. eapply (Forall_in lower_alnum); [exact HF|exact Ex].
    + by apply last_None in Ex.
Qed.
Lemma disc_object_name_dns1123_witness :
  Forall lower_alnum (chars "3fa2c1e0b9d4") ∧ dns1123_label (disc_object_name "MONSTERS__INC_" "3fa2c1e0b9d4") = true.
Proof.
  split; [by repeat constructor|].
  apply disc_object_name_dns1123; [done|cbn; lia|by repeat constructor].
Defined.

(** Two discs never share an object name. *)
Theorem disc_object_name_inj label1 label2 fp1 fp2 :
  String.length fp1 = String.length fp2 →
  disc_object_name label1 fp1 = disc_object_name label2 fp2 → fp1 = fp2.
Proof.
  intros Hlen E. apply (f_equal chars) in E. unfold disc_object_name in E.
  rewrite !chars_app, !app_assoc in E. apply (inj chars).
  apply app_inj_2 in E as [_ E]; [done|]. by rewrite <- !length_chars.
Qed.
Lemma disc_object_name_inj_witness :
  String.length "3fa2c1e0b9d4" = String.length "c950f29a8fd5" ∧
  (disc_object_name "ELF" "3fa2c1e0b9d4" = disc_object_name "ELF" "c950f29a8fd5" → "3fa2c1e0b9d4" = "c950f29a8fd5").
Proof. split; [done|]. apply disc_object_name_inj. done. Defined.

(** ** Which characters the names hold *)

Lemma pretty_Z_char_in c (z : Z) : char_in c (pretty z) → is_digit c = true ∨ c = "-"%char.
Proof.
  unfold pretty, pretty_Z. destruct z as [|p|p]; cbn.
  - intros ->%list_elem_of_singleton. by left.
  - intros H. destruct (is_digit c) eqn:E; [by left|]. by apply pretty_N_char_not_in in H.
  - intros [->|H]%elem_of_cons; [by right|].
    destruct (is_digit c) eqn:E; [by left|]. by apply (pretty_N_char_not_in (N.pos p)) in H.
Qed.
Lemma pad2_char_in c n : char_in c (pad2 n) → is_digit c = true.
Proof.
  unfold pad2. intros H. destruct (is_digit c) eqn:E; [done|].
  destruct (n <? 10)%N; [apply char_in_app in H as [->%list_elem_of_singleton|H]; [done|]|];
    by apply pretty_N_char_not_in in H.
Qed.
Lemma dur_char_in c x : char_in c (dur x) → is_digit c = true ∨ c ∈ ["-"; "m"; "s"]%char.
Proof.
  unfold dur, pad2_i64. rewrite !char_in_app.
  assert (∀ d : ascii, d ∈ ["-"; "m"; "s"]%char → char_in c (String d "") → c ∈ ["-"; "m"; "s"]%char) as Hs.
  { intros d Hd H%list_elem_of_singleton. by subst. }
  intros [H|[H|[H|H]]].
  - apply pretty_Z_char_in in H as [?| ->]; [by left|right; left].
  - right. eapply Hs; [|exact H]. set_solver.
  - destruct (_ <? 0)%Z; [apply pretty_Z_char_in in H as [?| ->]; [by left|right; left]|].
    left. by eapply pad2_char_in.
  - right. eapply Hs; [|exact H]. set_solver.
Qed.
Lemma title_stem_char_in c n x :
  char_in c (title_stem n x) → is_ascii_alphanumeric c = true ∨ c = " "%char ∨ c = "-"%char.
Proof.
  unfold title_stem. rewrite !char_in_app.
  assert (is_digit c = true → is_ascii_alphanumeric c = true) as Hdig.
  { unfold is_ascii_alphanumeric. intros ->. apply orb_true_r. }
  intros [H|[H|[H|H]]].
  - change (c ∈ ["T"; "i"; "t"; "l"; "e"; " "]%char) in H. rewrite !elem_of_cons in H.
    destruct_or! H; subst; auto. by apply not_elem_of_nil in H.
  - destruct (is_digit c) eqn:E; [auto|]. by apply pretty_N_char_not_in in H.
  - change (c ∈ [" "; "-"; " "]%char) in H. rewrite !elem_of_cons in H.
    destruct_or! H; subst; auto. by apply not_elem_of_nil in H.
  - apply dur_char_in in H as [H|H]; [auto|]. rewrite !elem_of_cons in H.
    destruct_or! H; subst; auto. by apply not_elem_of_nil in H.
Qed.

Lemma label_to_name_char_in c label :
  is_ascii_alphanumeric c = false → c ≠ " "%char → char_in c (label_to_name label) → char_in c label.
Proof.
  intros Hc Hs. unfold label_to_name. intros [H|(w & Hw & H)]%char_in_join.
  { by apply list_elem_of_singleton in H. }
  apply list_elem_of_fmap in Hw as (v & -> & [_ Hv]%list_elem_of_filter).
  apply capitalise_char_in in H; [|done]. eapply split_char_sub in H; [|exact Hv].
  unfold replace_char, char_in in H. rewrite chars_str in H.
  apply list_elem_of_fmap in H as (a & Ha & H). cbn in Ha. case_decide; subst; [done|exact H].
Qed.

Lemma valid_library_name_iff n :
  valid_library_name n = true ↔ n ≠ "" ∧ ¬ char_in "/" n ∧ n ≠ "." ∧ n ≠ "..".
Proof.
  unfold valid_library_name, contains_char.
  rewrite !andb_true_iff, !bool_decide_eq_true, negb_true_iff, bool_decide_eq_false. tauto.
Qed.
