(* ===== verification/Classify.v ===== *)
(** * Title classification ([apps/dvdrip/src/classify.rs])

    [classify] reads lsdvd's titles, sorts them and gives each a role in four passes: the first
    role in disc order ([assign_roles]), the widescreen swap ([widescreen]), the pieces of a "Play
    All" main feature ([main_parts]) and the "Play All" chains of extras ([playalls]). *)

From Stdlib Require Import Ascii.
From stdpp Require Import options.
From S2P Require Import Prelude F64 Json.

Inductive Role : Type := Main | Alt | Dup | Playall | Part | Stub | Short | Extra.
#[export] Instance Role_eq_dec : EqDecision Role.
Proof. solve_decision. Defined.

(** Roles that are encoded at all. *)
Definition encoded (r : Role) : bool :=
  match r with Main | Alt | Extra | Short => true | _ => false end.

Record Track : Type := mkTrack {
  lang : Value;
  language : Value;
  format : option Value;
  channels : option f64;
  content : Value;
}.

Record Title : Type := mkTitle {
  title : N;
  seconds : f64;
  vts : N;
  ttn : N;
  aspect : Value;
  fps : f64;
  angles : N;
  chapters : list f64;
  (** tenths of a second, for duplicate detection *)
  cells : list Z;
  audio : list Track;
  subs : list Track;
  role : Role;
  part_of : option N;
  playall_of : option (list N);
  mkv : option N;
  file : option string;
}.

Record Thresholds : Type := mkThresholds { stub : f64; extra : f64 }.
Definition default_thresholds : Thresholds :=
  {| stub := f64_of_Z 5; extra := f64_of_Z 30 |}.

(** A title with another role (and where its content went). *)
Definition with_role (r : Role) (part : option N) (play : option (list N)) (t : Title) : Title :=
  mkTitle (title t) (seconds t) (vts t) (ttn t) (aspect t) (fps t) (angles t) (chapters t) (cells t)
    (audio t) (subs t) r part play (mkv t) (file t).
Definition set_role (r : Role) (t : Title) : Title := with_role r (part_of t) (playall_of t) t.

(** ** Reading lsdvd's JSON *)

Definition arr (v : Value) : list Value :=
  match v with Null => [] | Array items => items | other => [other] end.

Definition num (v : Value) : f64 :=
  match v with
  | Number n => default f64_zero (as_f64 n)
  | Str s => default f64_zero (parse_f64 (trim s))
  | _ => f64_zero
  end.

Definition norm_track (is_audio : bool) (t : Value) : Track :=
  {| lang := t.["langcode"]; language := t.["language"];
     format := if is_audio then Some t.["format"] else None;
     channels := if is_audio then Some (num t.["channels"]) else None;
     content := t.["content"] |}.

Definition parse_title (t : Value) : Title :=
  {| title := as_u32 (num t.["ix"]); seconds := num t.["length"];
     vts := as_u32 (num t.["vts"]); ttn := as_u32 (num t.["ttn"]);
     aspect := t.["aspect"]; fps := num t.["fps"]; angles := as_u32 (num t.["angles"]);
     chapters := (λ c, num c.["length"]) <$> arr t.["chapter"];
     cells := (λ c, as_i64 (f64_round (num c.["length"] * f64_of_Z 10)%f64)) <$> arr t.["cell"];
     audio := norm_track true <$> arr t.["audio"]; subs := norm_track false <$> arr t.["subp"];
     role := Extra; part_of := None; playall_of := None; mkv := None; file := None |}.

(** ** The passes *)

Section passes.
Context (main : N) (th : Thresholds) (main_len : f64).

(** Same video as an earlier title that is kept. *)
Definition is_dup (done : list Title) (t : Title) : bool :=
  existsb (λ k, encoded (role k) && (vts k =? vts t)%N && bool_decide (cells k = cells t)) done.

Definition first_role (done : list Title) (t : Title) : Role :=
  if (title t =? main)%N then Main
  else if f64_ltb (seconds t) (stub th) then Stub
  else if is_dup done t then Dup
  else if f64_ltb f64_zero main_len
          && f64_ltb (f64_abs (seconds t - main_len)%f64) (main_len * f64_of_decimal false 2 (-2))%f64
  then Alt
  else if f64_ltb (seconds t) (extra th) then Short
  else Extra.

Fixpoint assign_roles (done rest : list Title) : list Title :=
  match rest with
  | [] => done
  | t :: rest' => assign_roles (done ++ [set_role (first_role done t) t]) rest'
  end.
End passes.

(** Widescreen/fullscreen pairs: the 16:9 cut becomes the main feature. *)
Definition wide_of (ts : list Title) : option N :=
  title <$> List.find (λ t, bool_decide (role t = Alt) && value_is_str (aspect t) "16/9") ts.
Definition swap_wide (wide : N) (t : Title) : Title :=
  if bool_decide (role t = Main) then set_role Alt t
  else if (title t =? wide)%N then set_role Main t else t.
Definition widescreen (ts : list Title) : list Title :=
  match wide_of ts with
  | Some wide =>
      if existsb (λ t, bool_decide (role t = Main) && value_is_str (aspect t) "4/3") ts
      then swap_wide wide <$> ts else ts
  | None => ts
  end.

Definition three : f64 := f64_of_Z 3.
Definition close_sum (sum total : f64) : bool := f64_ltb (f64_abs (sum - total)%f64) three.

(** Compilation discs: the pieces of a main feature that is itself a "Play All". *)
Definition part_numbers (m : Title) (ts : list Title) : list N :=
  title <$> filter (λ t, role t = Extra ∧ vts t = vts m ∧ f64_ltb (seconds t) (seconds m) = true) ts.
Definition mark_part (m : Title) (parts : list N) (t : Title) : Title :=
  if bool_decide (title t ∈ parts) then with_role Part (Some (title m)) (playall_of t) t else t.
Definition main_parts (ts : list Title) : list Title :=
  match List.find (λ t, bool_decide (role t = Main)) ts with
  | Some m =>
      let parts := part_numbers m ts in
      let sum := f64_sum (seconds <$> filter (λ t, title t ∈ parts) ts) in
      if (2 <=? length parts)%nat && close_sum sum (seconds m) then mark_part m parts <$> ts else ts
  | None => ts
  end.

(** "Play All" chains of extras, judged against the roles before the pass. *)
Definition chain_of (before : list Title) (t : Title) : list Title :=
  filter (λ p, role p = Extra ∧ vts p = vts t ∧ title p ≠ title t ∧ f64_ltb (seconds p) (seconds t) = true) before.
Definition mark_playall (before : list Title) (t : Title) : Title :=
  if bool_decide (role t ≠ Extra) then t
  else
    let parts := chain_of before t in
    if (2 <=? length parts)%nat && close_sum (f64_sum (seconds <$> parts)) (seconds t)
    then with_role Playall (part_of t) (Some (title <$> parts)) t else t.
Definition playalls (ts : list Title) : list Title := mark_playall ts <$> ts.

Definition read_titles (lsdvd : Value) : list Title :=
  sort_by_key title (parse_title <$> arr lsdvd.["lsdvd"].["track"]).
Definition main_length (main : N) (ts : list Title) : f64 :=
  match List.find (λ t, (title t =? main)%N) ts with Some t => seconds t | None => f64_zero end.

Definition classify (lsdvd : Value) (main : N) (th : Thresholds) : list Title :=
  let ts := read_titles lsdvd in
  playalls (main_parts (widescreen (assign_roles main th (main_length main ts) [] ts))).

(** HandBrake's main-feature pick, else lsdvd's longest title. *)
Definition longest_track (lsdvd : Value) : option N :=
  match as_u32 (num lsdvd.["lsdvd"].["longest_track"]) with 0%N => None | n => Some n end.
Definition main_feature (scan lsdvd : Value) : option N :=
  match value_as_i64 scan.["MainFeature"] with
  | Some m => if (0 <? m)%Z then Some (Z.to_N (m mod 2 ^ 32)) else longest_track lsdvd
  | None => longest_track lsdvd
  end.

(** ** The source's own test: widescreen wins over fullscreen *)

Definition test_track (ix : N) (aspect : string) : Value :=
  Object [("aspect", Str aspect); ("cell", Array [Object [("length", Str (pretty ix))]]);
          ("ix", Str (pretty ix)); ("length", Str "5400"); ("ttn", Str "1"); ("vts", Str (pretty ix))].
Definition test_disc : Value :=
  Object [("lsdvd", Object [("track", Array [test_track 1 "4/3"; test_track 2 "16/9"])])].
Example widescreen_wins_over_fullscreen :
  role <$> classify test_disc 1 default_thresholds = [Alt; Main].
Proof. vm_compute. done. Qed.

(** ** What the passes change *)

(** The title as read from the disc: everything but the classification. *)
Definition erase (t : Title) : Title := with_role Extra None None t.

Lemma erase_fields t t' :
  erase t = erase t' →
  title t = title t' ∧ seconds t = seconds t' ∧ vts t = vts t' ∧ cells t = cells t' ∧ aspect t = aspect t'.
Proof. unfold erase, with_role. intros [=]. done. Qed.
Lemma erase_with_role r p q t : erase (with_role r p q t) = erase t.
Proof. done. Qed.

Lemma erase_fmap (f : Title → Title) (ts : list Title) :
  (∀ t, t ∈ ts → erase (f t) = erase t) → erase <$> (f <$> ts) = erase <$> ts.
Proof.
  intros Hf. rewrite <- list_fmap_compose. apply list_fmap_ext. intros i t Ht.
  apply Hf. by eapply list_elem_of_lookup_2.
Qed.
Lemma titles_of_erase (ts ts' : list Title) : erase <$> ts = erase <$> ts' → title <$> ts = title <$> ts'.
Proof.
  intros E. assert (∀ l : list Title, title <$> l = title <$> (erase <$> l)) as H.
  { intros l. by rewrite <- list_fmap_compose. }
  by rewrite H, E, <- H.
Qed.

(** In a list of titles with distinct numbers, the number names the title. *)
Lemma title_unique (ts : list Title) t t' :
  NoDup (title <$> ts) → t ∈ ts → t' ∈ ts → title t = title t' → t = t'.
Proof.
  intros ND (i & Hi)%list_elem_of_lookup (j & Hj)%list_elem_of_lookup E.
  assert (i = j) as ->; [|congruence].
  eapply NoDup_lookup; [exact ND|rewrite list_lookup_fmap, Hi; done|].
  rewrite list_lookup_fmap, Hj. cbn. by rewrite E.
Qed.

(** *** The first pass *)

Section first_pass.
Context (main : N) (th : Thresholds) (main_len : f64).
Notation assign := (assign_roles main th main_len).
Notation role1 := (first_role main th main_len).

Lemma assign_prefix prev rest : prev `prefix_of` assign prev rest.
Proof.
  revert prev. induction rest as [|t rest IH]; intros prev; cbn; [done|].
  etrans; [|apply IH]. by apply prefix_app_r.
Qed.
Lemma assign_erase prev rest :
  erase <$> assign prev rest = (erase <$> prev) ++ (erase <$> rest).
Proof.
  revert prev. induction rest as [|t rest IH]; intros prev; cbn; [by rewrite app_nil_r|].
  rewrite IH, fmap_app. cbn. by rewrite <- app_assoc.
Qed.

Lemma first_role_data prev t t' : erase t = erase t' → role1 prev t = role1 prev t'.
Proof.
  intros (Ht & Hs & Hv & Hc & _)%erase_fields. unfold first_role, is_dup.
  by rewrite Ht, Hs, Hv, Hc.
Qed.

Lemma assign_lookup prev rest i t :
  assign prev rest !! i = Some t → length prev ≤ i →
  role t = role1 (take i (assign prev rest)) t.
Proof.
  revert prev. induction rest as [|u rest IH]; intros prev Hi Hle; cbn in *.
  { apply lookup_lt_Some in Hi. lia. }
  set (d := prev ++ [set_role (role1 prev u) u]) in *.
  assert (length d = S (length prev)) as Hd by (unfold d; rewrite length_app; cbn; lia).
  destruct (decide (i = length prev)) as [->|].
  2:{ apply IH; [done|lia]. }
  destruct (assign_prefix d rest) as [k Hk].
  rewrite Hk in Hi |- *. rewrite lookup_app_l in Hi by lia.
  unfold d in Hi |- *. rewrite lookup_app_r, Nat.sub_diag in Hi by done. cbn in Hi. simplify_eq.
  rewrite <- app_assoc, take_app_length. by apply first_role_data.
Qed.
End first_pass.

(** *** The later passes, as one function per title *)

(** What a pass may do to a title. *)
Inductive swapped (t t' : Title) : Prop :=
  | swapped_same : t' = t → swapped t t'
  | swapped_role : encoded (role t) = true → encoded (role t') = true → swapped t t'.

Lemma widescreen_fn ts :
  NoDup (title <$> ts) →
  ∃ f, widescreen ts = f <$> ts ∧ ∀ t, t ∈ ts → erase (f t) = erase t ∧ swapped t (f t).
Proof.
  intros ND. assert (∃ f, ts = f <$> ts ∧ ∀ t : Title, t ∈ ts → erase (f t) = erase t ∧ swapped t (f t)) as Hid.
  { exists id. split; [by rewrite list_fmap_id|]. intros t _. split; [done|by left]. }
  unfold widescreen, wide_of. destruct (List.find _ ts) as [w|] eqn:Ew; cbn; [|done].
  case_match; [|done]. exists (swap_wide (title w)). split; [done|].
  apply find_some_elem in Ew as [Hw Hwr]. bool_prop.
  intros t Ht. unfold swap_wide. case_bool_decide as Hm.
  { split; [done|]. right; by rewrite ?Hm. }
  destruct (title t =? title w)%N eqn:E; [|split; [done|by left]].
  apply N.eqb_eq in E. assert (t = w) as -> by (by eapply title_unique).
  split; [done|]. right; [|done].
  match goal with H : role w = Alt |- _ => by rewrite H end.
Qed.

Lemma list_filter_iff_in {A} (P Q : A → Prop) `{!∀ x, Decision (P x), !∀ x, Decision (Q x)} (l : list A) :
  (∀ x, x ∈ l → P x ↔ Q x) → filter P l = filter Q l.
Proof.
  induction l as [|x l IH]; intros HPQ; [done|]. rewrite !filter_cons.
  assert (P x ↔ Q x) by (apply HPQ; by left). rewrite IH; [|intros y Hy; apply HPQ; by right].
  repeat case_decide; naive_solver.
Qed.

(** A pass that keeps the data keeps the runtimes of the titles it selects. *)
Lemma seconds_filter (P Q : Title → Prop) `{!∀ t, Decision (P t), !∀ t, Decision (Q t)} (f : Title → Title) (l : list Title) :
  (∀ t, t ∈ l → erase (f t) = erase t ∧ (P (f t) ↔ Q t)) →
  seconds <$> filter P (f <$> l) = seconds <$> filter Q l.
Proof.
  induction l as [|t l IH]; intros HPQ; [done|]. cbn [fmap list_fmap]. rewrite !filter_cons.
  destruct (HPQ t) as [(_ & Es & _)%erase_fields Hpq]; [by left|].
  assert (seconds <$> filter P (f <$> l) = seconds <$> filter Q l) as E.
  { apply IH. intros u Hu. apply HPQ. by right. }
  repeat case_decide; cbn; [by rewrite Es; f_equal|naive_solver|naive_solver|done].
Qed.

(** The pieces a pass marked run as long as the main feature. *)
Lemma main_parts_adds_up ts :
  NoDup (title <$> ts) → (∀ t, t ∈ ts → role t ≠ Part) →
  (∀ t, t ∈ main_parts ts → role t ≠ Part) ∨
  ∃ m, List.find (λ t, bool_decide (role t = Main)) ts = Some m ∧
    2 ≤ length (filter (λ p, role p = Part) (main_parts ts)) ∧
    f64_ltb (f64_abs (f64_sum (seconds <$> filter (λ p, role p = Part) (main_parts ts)) - seconds m)%f64)
      (f64_of_Z 3) = true.
Proof.
  intros ND Hno. unfold main_parts. destruct (List.find _ ts) as [m|] eqn:Em; [|by left].
  case_match eqn:E; [|by left]. right. exists m. split; [done|]. bool_prop.
  match goal with H : (2 <=? _)%nat = true |- _ => apply Nat.leb_le in H end.
  assert (seconds <$> filter (λ p, role p = Part) (mark_part m (part_numbers m ts) <$> ts)
          = seconds <$> filter (λ t, title t ∈ part_numbers m ts) ts) as Es.
  { apply seconds_filter. intros t Ht. unfold mark_part. case_bool_decide; [done|].
    split; [done|]. split; [intros Hp; by destruct (Hno t Ht)|done]. }
  assert (filter (λ t, title t ∈ part_numbers m ts) ts
          = filter (λ t, role t = Extra ∧ vts t = vts m ∧ f64_ltb (seconds t) (seconds m) = true) ts) as Ef.
  { apply list_filter_iff_in. intros t Ht. unfold part_numbers. rewrite list_elem_of_fmap. split.
    - intros (u & Eu & (Hu & Hin)%list_elem_of_filter). by rewrite (title_unique ts t u).
    - intros Hu. exists t. split; [done|]. by apply list_elem_of_filter. }
  split; [|by rewrite Es].
  assert (length (part_numbers m ts) = length (filter (λ p, role p = Part) (mark_part m (part_numbers m ts) <$> ts)))
    as <-; [|done].
  rewrite <- (length_fmap seconds (filter (λ p, role p = Part) _)), Es, length_fmap, Ef.
  unfold part_numbers. apply length_fmap.
Qed.

Inductive parted (ts : list Title) (t t' : Title) : Prop :=
  | parted_same : t' = t → parted ts t t'
  | parted_part m : role t = Extra → role t' = Part → m ∈ ts → role m = Main →
      vts m = vts t → part_of t' = Some (title m) →
      List.find (λ t, bool_decide (role t = Main)) ts = Some m → parted ts t t'.

Lemma main_parts_fn ts :
  NoDup (title <$> ts) →
  ∃ f, main_parts ts = f <$> ts ∧ ∀ t, t ∈ ts → erase (f t) = erase t ∧ parted ts t (f t).
Proof.
  intros ND. assert (∃ f, ts = f <$> ts ∧ ∀ t : Title, t ∈ ts → erase (f t) = erase t ∧ parted ts t (f t)) as Hid.
  { exists id. split; [by rewrite list_fmap_id|]. intros t _. split; [done|by left]. }
  unfold main_parts. destruct (List.find _ ts) as [m|] eqn:Em; [|done].
  case_match; [|done]. exists (mark_part m (part_numbers m ts)). split; [done|].
  pose proof Em as Hf. apply find_some_elem in Em as [Hm Hmr]. bool_prop.
  intros t Ht. unfold mark_part. case_bool_decide as Hin; [|split; [done|by left]].
  split; [done|]. unfold part_numbers in Hin.
  apply list_elem_of_fmap in Hin as (u & E & ((Hr & Hv & _) & Hu)%list_elem_of_filter).
  assert (t = u) as <- by (by eapply title_unique).
  by eapply (parted_part _ _ _ m).
Qed.

Inductive chained (ts : list Title) (t t' : Title) : Prop :=
  | chained_same : t' = t → chained ts t t'
  | chained_playall : role t = Extra → role t' = Playall → 2 ≤ length (chain_of ts t) →
      playall_of t' = Some (title <$> chain_of ts t) →
      f64_ltb (f64_abs (f64_sum (seconds <$> chain_of ts t) - seconds t)%f64) (f64_of_Z 3) = true →
      chained ts t t'.

Lemma playalls_fn ts t : erase (mark_playall ts t) = erase t ∧ chained ts t (mark_playall ts t).
Proof.
  unfold mark_playall. case_bool_decide as Hr; [split; [done|by left]|].
  case_match eqn:E; [|split; [done|by left]]. bool_prop.
  split; [done|]. right; [done|done| |done|done]. by apply Nat.leb_le.
Qed.

(** ** No title is lost *)

(** The runtimes of the titles add up to the runtime, to within three seconds. *)
Definition adds_up (parts : list Title) (t : Title) : Prop :=
  f64_ltb (f64_abs (f64_sum (seconds <$> parts) - seconds t)%f64) (f64_of_Z 3) = true.

(** A title's video is kept: it is encoded, or a kept title has the same video, or it is one of
    the pieces that together run as long as the encoded main feature, or it is a chain of kept
    titles that together run as long as it. *)
Inductive covered (ts : list Title) : Title → Prop :=
  | covered_encoded t : encoded (role t) = true → covered ts t
  | covered_dup t k : role t = Dup → k ∈ ts → vts k = vts t → cells k = cells t →
      covered ts k → covered ts t
  | covered_part t m : role t = Part → part_of t = Some (title m) → m ∈ ts → role m = Main →
      vts m = vts t → 2 ≤ length (filter (λ p, role p = Part) ts) →
      adds_up (filter (λ p, role p = Part) ts) m → covered ts t
  | covered_playall t chain : role t = Playall → playall_of t = Some (title <$> chain) →
      sublist chain ts → 2 ≤ length chain → adds_up chain t →
      (∀ k, k ∈ chain → vts k = vts t ∧ f64_ltb (seconds k) (seconds t) = true ∧ covered ts k) →
      covered ts t.

Lemma filter_length_lt {A} (P Q : A → Prop) `{!∀ x, Decision (P x), !∀ x, Decision (Q x)} l x :
  (∀ y, P y → Q y) → x ∈ l → Q x → ¬ P x → length (filter P l) < length (filter Q l).
Proof.
  intros HPQ Hx HQ HP. induction l as [|y l IH]; [by apply not_elem_of_nil in Hx|].
  assert (length (filter P l) ≤ length (filter Q l)) as Hle.
  { clear -HPQ. induction l as [|y l IH]; [done|]. rewrite !filter_cons.
    repeat case_decide; cbn; try lia. naive_solver. }
  rewrite !filter_cons. apply elem_of_cons in Hx as [->|Hx].
  - rewrite decide_False, decide_True by done. cbn. lia.
  - specialize (IH Hx). repeat case_decide; cbn; try lia. naive_solver.
Qed.

Section coverage.
Context (ts2 ts3 : list Title) (f2 : Title → Title).
Context (E3 : ts3 = f2 <$> ts2).
Context (H2 : ∀ t, t ∈ ts2 → erase (f2 t) = erase t ∧ parted ts2 t (f2 t)).
Context (Hpart : ∀ t, t ∈ ts2 → role t ≠ Part).
Notation ts4 := (playalls ts3).

Lemma main_survives m : m ∈ ts2 → role m = Main → m ∈ ts4.
Proof using E3 H2.
  intros Hm Hr. assert (m ∈ ts3) as Hm3.
  { subst ts3. apply list_elem_of_fmap. exists m. split; [|done].
    destruct (H2 m Hm) as [_ [->|]]; [done|congruence]. }
  unfold playalls. apply list_elem_of_fmap. exists m. split; [|done].
  unfold mark_playall. rewrite bool_decide_true; [done|]. by rewrite Hr.
Qed.

Context (Hsum : ∀ t m, t ∈ ts3 → role t = Part → List.find (λ t, bool_decide (role t = Main)) ts2 = Some m →
  2 ≤ length (filter (λ p, role p = Part) ts3) ∧ adds_up (filter (λ p, role p = Part) ts3) m).

Lemma parts_survive : seconds <$> filter (λ p, role p = Part) ts4 = seconds <$> filter (λ p, role p = Part) ts3.
Proof using Type.
  apply seconds_filter. intros t _. destruct (playalls_fn ts3 t) as [He [->|Hx Hy _ _]]; [done|].
  split; [done|]. by rewrite Hx, Hy.
Qed.

Lemma kept_covered t :
  t ∈ ts3 → encoded (role t) = true ∨ role t = Part → covered ts4 (mark_playall ts3 t).
Proof using E3 H2 Hpart Hsum.
  remember (length (filter (λ p, f64_ltb (seconds p) (seconds t) = true) ts3)) as n eqn:En.
  revert t En. induction (lt_wf n) as [n _ IH]. intros t -> Ht Hr.
  destruct (playalls_fn ts3 t) as [Ee [->|Hx Hp Hl Hq Ha]].
  - destruct Hr as [Hr|Hr]; [by apply covered_encoded|].
    pose proof Ht as Ht3. rewrite E3 in Ht. apply list_elem_of_fmap in Ht as (u & -> & Hu).
    destruct (H2 u Hu) as [Eu [Es|m Hur _ Hm Hmr Hv Hpo Hf]]; [|].
    + rewrite Es in Hr. by destruct (Hpart u Hu).
    + destruct (Hsum _ m Ht3 Hr Hf) as [Hn Ha].
      apply (covered_part _ _ m); try done; [by apply main_survives| | |].
      * apply erase_fields in Eu as (_ & _ & -> & _). done.
      * by rewrite <- (length_fmap seconds), parts_survive, length_fmap.
      * unfold adds_up. by rewrite parts_survive.
  - apply erase_fields in Ee as (_ & Es & Ev & _).
    assert (∀ A (g : Title → A), (∀ u, g (mark_playall ts3 u) = g u) →
      g <$> (mark_playall ts3 <$> chain_of ts3 t) = g <$> chain_of ts3 t) as Hg.
    { intros A g Hg. rewrite <- list_fmap_compose. apply list_fmap_ext. intros. apply Hg. }
    apply (covered_playall _ _ (mark_playall ts3 <$> chain_of ts3 t)); [done| | | | |].
    + rewrite (Hg _ title); [done|]. intros u. apply erase_fields, playalls_fn.
    + apply fmap_sublist, sublist_filter.
    + by rewrite length_fmap.
    + unfold adds_up. rewrite (Hg _ seconds), Es; [done|]. intros u.
      destruct (playalls_fn ts3 u) as [(_ & ? & _)%erase_fields _]. done.
    + intros p (k & -> & Hk)%list_elem_of_fmap. unfold chain_of in Hk.
    apply list_elem_of_filter in Hk as [(Hkr & Hkv & _ & Hks) Hk].
    destruct (playalls_fn ts3 k) as [Ek _]. apply erase_fields in Ek as (Ekt & Eks & Ekv & _).
    rewrite Eks, Ekv, Es, Ev. split_and!; [done|done|].
    eapply IH; [|done|done|left; by rewrite Hkr].
    apply (filter_length_lt _ _ _ k); [|done|done|by rewrite f64_ltb_irrefl].
    intros y Hy. by eapply f64_ltb_trans.
Qed.
End coverage.

(** ** The whole classification *)

Lemma widescreen_erase ts : erase <$> widescreen ts = erase <$> ts.
Proof.
  unfold widescreen. repeat case_match; try done. apply erase_fmap. intros t _.
  unfold swap_wide. by repeat case_match.
Qed.
Lemma main_parts_erase ts : erase <$> main_parts ts = erase <$> ts.
Proof.
  unfold main_parts. repeat case_match; try done. apply erase_fmap. intros t' _.
  unfold mark_part. by case_match.
Qed.
Lemma playalls_erase ts : erase <$> playalls ts = erase <$> ts.
Proof. apply erase_fmap. intros t _. apply playalls_fn. Qed.

Section classify.
Context (lsdvd : Value) (main : N) (th : Thresholds).
Notation ts0 := (read_titles lsdvd).
Notation ts1 := (assign_roles main th (main_length main ts0) [] ts0).
Notation ts2 := (widescreen ts1).
Notation ts3 := (main_parts ts2).

Lemma read_titles_erase : erase <$> ts0 = ts0.
Proof.
  rewrite <- (list_fmap_id ts0) at 2. apply list_fmap_ext. intros i t Ht.
  apply list_elem_of_lookup_2 in Ht. unfold read_titles in Ht.
  apply stable_sort_elem, list_elem_of_fmap in Ht as (v & -> & _). done.
Qed.
Lemma ts1_erase : erase <$> ts1 = erase <$> ts0.
Proof. apply assign_erase. Qed.
Lemma classify_erase : erase <$> classify lsdvd main th = erase <$> ts0.
Proof. unfold classify. by rewrite playalls_erase, main_parts_erase, widescreen_erase, ts1_erase. Qed.

Context (ND : NoDup (title <$> ts0)).

Lemma ts1_nodup : NoDup (title <$> ts1).
Proof using ND. by rewrite (titles_of_erase ts1 ts0) by apply ts1_erase. Qed.
Lemma ts2_nodup : NoDup (title <$> ts2).
Proof using ND. rewrite (titles_of_erase ts2 ts1) by apply widescreen_erase. apply ts1_nodup. Qed.

Lemma ts1_role i t : ts1 !! i = Some t → role t = first_role main th (main_length main ts0) (take i ts1) t.
Proof. intros H. by apply assign_lookup; [|cbn; lia]. Qed.
Lemma ts1_role_range t :
  t ∈ ts1 → role t ≠ Part ∧ role t ≠ Playall ∧ (role t = Main ↔ title t = main).
Proof.
  intros (i & Hi)%list_elem_of_lookup. rewrite (ts1_role _ _ Hi). unfold first_role.
  destruct (title t =? main)%N eqn:E; [apply N.eqb_eq in E|apply N.eqb_neq in E];
    repeat case_match; naive_solver.
Qed.

(** A title at the end, and what it was after each pass. *)
Lemma classify_history i t4 :
  classify lsdvd main th !! i = Some t4 →
  ∃ t1 t2 t3,
    ts1 !! i = Some t1 ∧ erase t2 = erase t1 ∧ swapped t1 t2 ∧ t2 ∈ ts2 ∧
    erase t3 = erase t2 ∧ parted ts2 t2 t3 ∧ t3 ∈ ts3 ∧
    t4 = mark_playall ts3 t3 ∧ erase t4 = erase t3 ∧ chained ts3 t3 t4.
Proof using ND.
  unfold classify, playalls. rewrite list_lookup_fmap_Some. intros (t3 & -> & H3).
  destruct (main_parts_fn ts2 ts2_nodup) as (f2 & E3 & Hf2).
  pose proof H3 as H3'. rewrite E3 in H3'. apply list_lookup_fmap_Some in H3' as (t2 & -> & H2).
  destruct (widescreen_fn ts1 ts1_nodup) as (f1 & E2 & Hf1).
  pose proof H2 as H2'. rewrite E2 in H2'. apply list_lookup_fmap_Some in H2' as (t1 & -> & H1).
  pose proof (list_elem_of_lookup_2 _ _ _ H1). pose proof (list_elem_of_lookup_2 _ _ _ H2).
  pose proof (list_elem_of_lookup_2 _ _ _ H3).
  destruct (Hf1 t1); [done|]. destruct (Hf2 (f1 t1)); [done|].
  destruct (playalls_fn ts3 (f2 (f1 t1))).
  exists t1, (f1 t1), (f2 (f1 t1)). by split_and!.
Qed.

Lemma classify_encoded_first i t1 t4 :
  ts1 !! i = Some t1 → classify lsdvd main th !! i = Some t4 →
  encoded (role t4) = true → encoded (role t1) = true.
Proof using ND.
  intros H1 (u & t2 & t3 & Hu & _ & Hsw & _ & _ & Hp & _ & _ & _ & Hc)%classify_history He.
  simplify_eq. destruct Hc as [->|Hx Hy]; [|by rewrite Hy in He].
  destruct Hp as [->|m Hx Hy]; [|by rewrite Hy in He]. destruct Hsw as [->|]; done.
Qed.

Lemma ts2_no_part t : t ∈ ts2 → role t ≠ Part.
Proof using ND.
  destruct (widescreen_fn ts1 ts1_nodup) as (f1 & E2 & Hf1). rewrite E2.
  intros (u & -> & Hu)%list_elem_of_fmap. destruct (Hf1 u Hu) as [_ [->|_ He]].
  - by apply ts1_role_range.
  - intros Hr. by rewrite Hr in He.
Qed.

Lemma kept_at_end t3 :
  t3 ∈ ts3 → encoded (role t3) = true ∨ role t3 = Part →
  covered (classify lsdvd main th) (mark_playall ts3 t3).
Proof using ND.
  destruct (main_parts_fn ts2 ts2_nodup) as (f2 & E3 & Hf2).
  apply (kept_covered _ _ f2 E3 Hf2); [exact ts2_no_part|]. intros t m Ht Hr Hm.
  destruct (main_parts_adds_up ts2 ts2_nodup ts2_no_part) as [Hno|(m' & Em & Hn & Ha)]; [by destruct (Hno t Ht)|].
  split; [done|]. unfold adds_up. assert (m = m') as -> by congruence. done.
Qed.

(** What the first pass kept is covered at the end. *)
Lemma kept_image i t1 t4 :
  ts1 !! i = Some t1 → classify lsdvd main th !! i = Some t4 →
  encoded (role t1) = true → covered (classify lsdvd main th) t4.
Proof using ND.
  intros H1 (u & t2 & t3 & Hu & _ & Hsw & _ & _ & Hp & H3 & -> & _)%classify_history He.
  simplify_eq. apply kept_at_end; [done|].
  destruct Hp as [->|]; [left|by right]. by destruct Hsw as [->|].
Qed.

(** Whatever is neither kept nor a piece keeps the role of the first pass. *)
Lemma classify_cases i t4 :
  classify lsdvd main th !! i = Some t4 →
  covered (classify lsdvd main th) t4 ∨ ts1 !! i = Some t4 ∧ encoded (role t4) = false.
Proof using ND.
  intros (t1 & t2 & t3 & H1 & _ & Hsw & _ & _ & Hp & H3 & -> & _ & Hc)%classify_history.
  destruct (encoded (role t3)) eqn:He3; [left; apply kept_at_end; auto|].
  destruct (decide (role t3 = Part)) as [|Hnp]; [left; apply kept_at_end; auto|].
  assert (t3 = t2) as -> by (by destruct Hp).
  assert (t2 = t1) as -> by (destruct Hsw; [done|congruence]).
  destruct Hc as [Hsame|Hx]; [|by rewrite Hx in He3]. rewrite Hsame. by right.
Qed.

Lemma classify_lookup_is_Some i t1 : ts1 !! i = Some t1 → ∃ t4,
  classify lsdvd main th !! i = Some t4 ∧ erase t4 = erase t1.
Proof using Type.
  intros H1. assert ((erase <$> classify lsdvd main th) !! i = Some (erase t1)) as H.
  { rewrite classify_erase, <- ts1_erase, list_lookup_fmap, H1. done. }
  apply list_lookup_fmap_Some in H as (t4 & ? & ?). eauto.
Qed.
End classify.

(** Classification only decides roles. *)
Theorem classify_keeps_titles lsdvd main th :
  erase <$> classify lsdvd main th = read_titles lsdvd ∧
  read_titles lsdvd ≡ₚ parse_title <$> arr lsdvd.["lsdvd"].["track"] ∧
  StronglySorted (λ t u, (title t ≤ title u)%N) (classify lsdvd main th).
Proof.
  pose proof (classify_erase lsdvd main th) as E. split; [by rewrite E, read_titles_erase|].
  split; [apply stable_sort_perm|].
  pose proof (sort_by_key_sorted title (parse_title <$> arr lsdvd.["lsdvd"].["track"])) as HS.
  fold (read_titles lsdvd) in HS.
  apply titles_of_erase in E. revert E HS. generalize (classify lsdvd main th) (read_titles lsdvd).
  intros l k. revert l. induction k as [|t k IH]; intros [|u l] E HS; simplify_eq/=; [constructor|].
  inversion HS as [|? ? HS' HF]; subst. constructor; [by apply IH|].
  apply Forall_forall. intros v Hv.
  assert (title v ∈ title <$> k) as (w & Ew & Hw)%list_elem_of_fmap.
  { match goal with H : _ <$> l = _ <$> k |- _ => rewrite <- H end. by apply list_elem_of_fmap_2. }
  rewrite Ew. match goal with H : title u = title t |- _ => rewrite H end. by eapply Forall_in in HF.
Qed.


(** One video is encoded once. *)
Theorem classify_encodes_once lsdvd main th i j t u :
  NoDup (title <$> read_titles lsdvd) →
  classify lsdvd main th !! i = Some t → classify lsdvd main th !! j = Some u → i < j →
  encoded (role t) = true → encoded (role u) = true → vts t = vts u → cells t = cells u →
  title u = main.
Proof.
  intros ND Hi Hj Hij Ht Hu Hv Hc.
  destruct (classify_history _ _ _ ND _ _ Hi) as (t1 & ? & ? & Hi1 & Et1 & _ & _ & Et2 & _ & _ & _ & Et3 & _).
  destruct (classify_history _ _ _ ND _ _ Hj) as (u1 & ? & ? & Hj1 & Eu1 & _ & _ & Eu2 & _ & _ & _ & Eu3 & _).
  assert (erase t = erase t1) as (_ & _ & Ev & Ec & _)%erase_fields by congruence.
  assert (erase u = erase u1) as (En & _ & Fv & Fc & _)%erase_fields by congruence.
  pose proof (classify_encoded_first _ _ _ ND _ _ _ Hi1 Hi Ht) as Ht1.
  pose proof (classify_encoded_first _ _ _ ND _ _ _ Hj1 Hj Hu) as Hu1.
  rewrite (ts1_role _ _ _ _ _ Hj1) in Hu1. unfold first_role in Hu1.
  destruct (title u1 =? main)%N eqn:E; [apply N.eqb_eq in E; congruence|].
  destruct (f64_ltb _ (stub th)); [done|].
  destruct (is_dup _ u1) eqn:Hd; [done|]. exfalso.
  assert (t1 ∈ take j (assign_roles main th (main_length main (read_titles lsdvd)) [] (read_titles lsdvd))) as Hin.
  { apply list_elem_of_lookup. exists i. by rewrite lookup_take_lt. }
  pose proof (existsb_false_elem _ _ _ Hd Hin) as H. cbn in H.
  rewrite Ht1 in H. rewrite (proj2 (N.eqb_eq _ _)), bool_decide_true in H; [done|congruence..].
Qed.

(** ** One main feature *)

(** The list has exactly one main feature. *)
Definition one_main (ts : list Title) : Prop :=
  ∃ m, m ∈ ts ∧ role m = Main ∧ ∀ t, t ∈ ts → role t = Main → t = m.

Lemma one_main_fmap (f : Title → Title) ts :
  (∀ t, t ∈ ts → role (f t) = Main ↔ role t = Main) → one_main ts → one_main (f <$> ts).
Proof.
  intros Hf (m & Hm & Hr & Hu). exists (f m). split_and!; [by apply list_elem_of_fmap_2|by apply Hf|].
  intros t (u & -> & Hin)%list_elem_of_fmap Ht. f_equal. apply Hu; [done|]. by apply Hf.
Qed.

Lemma widescreen_one_main ts : NoDup (title <$> ts) → one_main ts → one_main (widescreen ts).
Proof.
  intros ND H1. unfold widescreen, wide_of. destruct (List.find _ ts) as [w|] eqn:Ew; cbn; [|done].
  case_match; [|done]. apply find_some_elem in Ew as [Hw Hwr]. bool_prop.
  assert (∀ t, t ∈ ts → role (swap_wide (title w) t) = Main ↔ t = w) as Hsw.
  { intros t Ht. unfold swap_wide. case_bool_decide as Hm.
    - split; [done|]. intros ->. congruence.
    - destruct (title t =? title w)%N eqn:E; [apply N.eqb_eq in E|apply N.eqb_neq in E].
      + split; [|done]. intros _. by eapply title_unique.
      + split; [done|congruence]. }
  exists (swap_wide (title w) w). split_and!; [by apply list_elem_of_fmap_2|by apply Hsw|].
  intros t (u & -> & Hu)%list_elem_of_fmap Ht. apply Hsw in Ht; [|done]. by subst.
Qed.

Lemma main_parts_one_main ts : NoDup (title <$> ts) → one_main ts → one_main (main_parts ts).
Proof.
  intros ND H1. destruct (main_parts_fn ts ND) as (f & -> & Hf). apply one_main_fmap; [|done].
  intros t Ht. destruct (Hf t Ht) as [_ [->|m Hx Hy]]; [done|]. by rewrite Hx, Hy.
Qed.
Lemma playalls_one_main ts : one_main ts → one_main (playalls ts).
Proof.
  apply one_main_fmap. intros t _. destruct (playalls_fn ts t) as [_ [->|Hx Hy]]; [done|].
  by rewrite Hx, Hy.
Qed.

(** C2: exactly one main feature. *)
Theorem classify_one_main lsdvd main th :
  NoDup (title <$> read_titles lsdvd) → main ∈ title <$> read_titles lsdvd →
  one_main (classify lsdvd main th).
Proof.
  intros ND Hin. pose proof (ts1_nodup lsdvd main th ND) as ND1.
  apply playalls_one_main, main_parts_one_main; [by apply ts2_nodup|].
  apply widescreen_one_main; [done|].
  rewrite <- (titles_of_erase _ _ (ts1_erase lsdvd main th)) in Hin.
  apply list_elem_of_fmap in Hin as (m & -> & Hm). exists m.
  split_and!; [done|by apply (ts1_role_range _ _ _ _ Hm)|].
  intros t Ht Hr. eapply title_unique; [exact ND1|done|done|]. by apply (ts1_role_range _ _ _ _ Ht).
Qed.

(** ** Witnesses: a disc with a duplicate, a "Play All" chain and a menu stub *)

Definition sample_track (ix seconds cell : N) : Value :=
  Object [("cell", Array [Object [("length", Str (pretty cell))]]);
          ("ix", Str (pretty ix)); ("length", Str (pretty seconds)); ("vts", Str "1")].
Definition sample_disc : Value :=
  Object [("lsdvd", Object [("track", Array [
    sample_track 3 100 3; sample_track 1 5400 1; sample_track 2 5400 1; sample_track 4 200 4;
    sample_track 5 300 5; sample_track 6 2 6])])].

Example sample_roles :
  role <$> classify sample_disc 1 default_thresholds = [Main; Dup; Extra; Extra; Playall; Stub].
Proof. vm_compute. done. Qed.

Lemma sample_nodup : NoDup (title <$> read_titles sample_disc).
Proof. refine (bool_decide_unpack _ _). vm_compute. exact I. Qed.


(** The second title here is the main feature picked by hand, a duplicate of the first. *)
Lemma classify_encodes_once_witness :
  ∃ t u, classify sample_disc 2 default_thresholds !! 0 = Some t ∧
         classify sample_disc 2 default_thresholds !! 1 = Some u ∧ title u = 2%N.
Proof.
  pose proof sample_nodup as ND.
  assert (∃ t u, classify sample_disc 2 default_thresholds !! 0 = Some t ∧
    classify sample_disc 2 default_thresholds !! 1 = Some u ∧ encoded (role t) = true ∧
    encoded (role u) = true ∧ vts t = vts u ∧ cells t = cells u) as (t & u & Ht & Hu & He & Hf & Hv & Hc)
    by (eexists _, _; split_and!; vm_compute; reflexivity).
  exists t, u. split; [exact Ht|]. split; [exact Hu|].
  apply (classify_encodes_once sample_disc 2 default_thresholds 0 1 t u); try assumption. lia.
Defined.

Lemma classify_one_main_witness :
  (1%N ∈ title <$> read_titles sample_disc) ∧ one_main (classify sample_disc 1 default_thresholds).
Proof.
  assert (1%N ∈ title <$> read_titles sample_disc) as Hin
    by (refine (bool_decide_unpack _ _); vm_compute; exact I).
  split; [exact Hin|]. apply classify_one_main; [exact sample_nodup|exact Hin].
Defined.
