(* ===== verification/Crd.v ===== *)
(** * The custom resources ([apps/dvdrip/src/crd.rs])

    [Drive] and [Disc] with their spec and status, and the two keys that say which spec an encode
    and a publish were made from. A [BTreeMap<String, _>] is a [gmap], read in key order by
    [btree_list]. Times are RFC 3339 strings, as in the source. *)

From Stdlib Require Import Ascii.
From stdpp Require Import options.
From S2P Require Import Prelude F64 Json Classify.

(** The entries of a [BTreeMap] in key order. *)
Definition btree_list {A} (m : gmap string A) : list (string * A) :=
  stable_sort (λ x y, String.leb x.1 y.1) (map_to_list m).

Lemma btree_list_elem {A} (m : gmap string A) k a : (k, a) ∈ btree_list m ↔ m !! k = Some a.
Proof. unfold btree_list. by rewrite stable_sort_elem, elem_of_map_to_list. Qed.
Lemma btree_list_inj {A} (m m' : gmap string A) : btree_list m = btree_list m' → m = m'.
Proof.
  unfold btree_list. intros E. apply map_to_list_inj.
  rewrite <- (stable_sort_perm (λ x y : string * A, String.leb x.1 y.1) (map_to_list m)), E.
  apply stable_sort_perm.
Qed.

(** ** Drives *)

Record DriveSpec : Type := mkDriveSpec { enabled : bool; eject_unknown : bool }.

Inductive DriveState : Type :=
  | Waiting | Disabled | Paused | Reading | DriveBackingUp | Uploading | Ejecting | DriveError.
#[export] Instance DriveState_eq_dec : EqDecision DriveState.
Proof. solve_decision. Defined.

Record DriveStatus : Type := mkDriveStatus {
  dr_node : string;
  dr_device : string;
  dr_model : option string;
  dr_serial : option string;
  dr_state : DriveState;
  dr_disc : option string;
  dr_message : option string;
  dr_heartbeat : option string;
}.
Definition default_drive_status : DriveStatus := mkDriveStatus "" "" None None Waiting None None None.

(** ** Discs *)

Record TitleSpec : Type := mkTitleSpec { over_folder : option string; over_name : option string }.
Definition default_title_spec : TitleSpec := mkTitleSpec None None.

Record DiscSpec : Type := mkDiscSpec {
  spec_name : string;
  spec_disc : N;
  spec_main_title : option N;
  spec_protected : bool;
  spec_titles : gmap string TitleSpec;
  spec_hold : bool;
  spec_retry : N;
}.

Inductive Phase : Type :=
  | Detected | BackingUp | BackedUp | Held | Encoding | Encoded | Publishing | Done | Failed.
#[export] Instance Phase_eq_dec : EqDecision Phase.
Proof. solve_decision. Defined.

Record Backup : Type := mkBackup {
  method : string; bytes : N; backup_seconds : N; read_errors : N; sha256 : string
}.
Record Damage : Type := mkDamage { recovered_percent : f64; missing_bytes : N; rescue_pending : bool }.

Record TitleStatus : Type := mkTitleStatus {
  t_title : N;
  t_role : Role;
  t_seconds : f64;
  t_output : option string;
  t_encoded_seconds : option f64;
  t_aspect : option string;
  t_glitches : list N;
}.

Record PublishedFile : Type := mkPublishedFile {
  pf_title : N; pf_path : string; pf_segment_title : string
}.
#[export] Instance PublishedFile_eq_dec : EqDecision PublishedFile.
Proof. solve_decision. Defined.

Record Published : Type := mkPublished {
  pub_iso : option string;
  pub_files : list PublishedFile;
  pub_generation : Z;
  pub_notes : list string;
}.
Definition default_published : Published := mkPublished None [] 0 [].

Record DiscStatus : Type := mkDiscStatus {
  st_phase : Phase;
  st_message : option string;
  st_label : string;
  st_fingerprint : string;
  st_drive : option string;
  st_attempts : N;
  st_observed_retry : N;
  st_backup : option Backup;
  st_damage : option Damage;
  st_protected : bool;
  st_titles : list TitleStatus;
  st_warnings : list string;
  st_published : option Published;
  st_encoded_generation : option Z;
  st_summary : option string;
  st_since : option string;
  st_encode_key : option string;
  st_publish_key : option string;
  st_heartbeat : option string;
}.
Definition default_disc_status : DiscStatus :=
  mkDiscStatus Detected None "" "" None 0 0 None None false [] [] None None None None None None None.

(** A [Disc] object: the metadata the programs read, the spec and the status. *)
Record Disc : Type := mkDisc {
  disc_name : string;
  disc_namespace : option string;
  disc_labels : option (gmap string string);
  disc_uid : string;
  disc_spec : DiscSpec;
  disc_status : option DiscStatus;
}.

Definition TEST_LABEL : string := "dvd.trdos.me/test".
Definition is_test (d : Disc) : bool :=
  match disc_labels d with
  | Some l => match l !! TEST_LABEL with Some v => String.eqb v "true" | None => false end
  | None => false
  end.

(** ** The keys *)

Definition json_option_N (o : option N) : Value :=
  match o with Some n => Number (PosInt n) | None => Null end.
(** Absent options are left out ([skip_serializing_if]). *)
Definition json_field (k : string) (o : option string) : list (string * Value) :=
  match o with Some s => [(k, Str s)] | None => [] end.
Definition json_title_spec (ts : TitleSpec) : Value :=
  Object (json_field "folder" (over_folder ts) ++ json_field "name" (over_name ts)).

Definition encode_key `{SerdeJson} (s : DiscSpec) : string :=
  to_string (Object [("mainTitle", json_option_N (spec_main_title s)); ("protected", Bool (spec_protected s))]).
Definition publish_key `{SerdeJson} (s : DiscSpec) : string :=
  to_string (Object [("disc", Number (PosInt (spec_disc s))); ("name", Str (spec_name s));
                     ("titles", Object ((λ kv, (kv.1, json_title_spec kv.2)) <$> btree_list (spec_titles s)))]).

Lemma json_title_spec_inj ts ts' : json_title_spec ts = json_title_spec ts' → ts = ts'.
Proof. destruct ts as [[] []], ts' as [[] []]; unfold json_title_spec; cbn; intros; simplify_eq; done. Qed.
Lemma json_title_spec_wf ts : json_wf (json_title_spec ts) = true.
Proof. by destruct ts as [[] []]. Qed.

Section keys.
#[local] Set Default Proof Using "Type*".
Context `{SerdeJsonLaws}.

(** The keys agree exactly when the fields they stand for do. *)
Lemma encode_key_iff s s' :
  encode_key s = encode_key s' ↔
  spec_main_title s = spec_main_title s' ∧ spec_protected s = spec_protected s'.
Proof.
  unfold encode_key. split; [|by intros [-> ->]].
  intros E%to_string_inj; [|by destruct (spec_main_title s)|by destruct (spec_main_title s')].
  injection E as E1 E2. split; [|done].
  destruct (spec_main_title s), (spec_main_title s'); naive_solver.
Qed.
Lemma publish_key_iff s s' :
  publish_key s = publish_key s' ↔
  spec_name s = spec_name s' ∧ spec_disc s = spec_disc s' ∧ spec_titles s = spec_titles s'.
Proof.
  unfold publish_key. split; [|by intros (-> & -> & ->)].
  assert (∀ m : list (string * TitleSpec),
    forallb (λ kv, json_wf kv.2) ((λ kv, (kv.1, json_title_spec kv.2)) <$> m) = true) as Hwf.
  { intros m. apply forallb_forall. intros kv Hkv%list_elem_of_In.
    apply list_elem_of_fmap in Hkv as (x & -> & _). apply json_title_spec_wf. }
  intros E%to_string_inj; [|by cbn; rewrite Hwf|by cbn; rewrite Hwf].
  injection E as Ed En Et. split_and!; [done..|].
  apply btree_list_inj. refine (list_fmap_eq_inj _ _ _ _ Et).
  intros [k v] [k' v'] [=]. subst. f_equal. by apply json_title_spec_inj; cbn; unfold json_title_spec; f_equal.
Qed.
End keys.

(** ** [kubeapi::split_ref] *)

Definition split_ref (r default_ns : string) : string * string :=
  default (default_ns, r) (split_once "/" r).
