(* ===== verification/Layout.v ===== *)
(** * Where a disc's files go ([apps/dvdrip/src/layout.rs])

    [layout] maps a disc's spec, label and encoded titles to the path of its ISO in media-dvd and
    of each encode in media-movies, or says why it cannot. *)

From Stdlib Require Import Ascii.
From stdpp Require Import options.
From S2P Require Import Prelude F64 Json Naming Classify Crd.

Definition FOLDERS : list string :=
  ["behind the scenes"; "deleted scenes"; "interviews"; "scenes"; "samples"; "shorts";
   "featurettes"; "clips"; "other"; "extras"; "trailers"; "junk"].

Record Placement : Type := mkPlacement {
  p_title : N; p_source : string; p_dest : string; p_segment_title : string
}.
Record Layout : Type := mkLayout { l_iso : string; l_files : list Placement }.

(** The messages of [bail!], and the panic of indexing a map without the key. *)
Inductive LayoutError : Type :=
  | InvalidLibraryName (name : string)
  | DiscNumberZero
  | NotATitleNumber (t : string)
  | NotAFolder (t f : string)
  | NotAFileName (t n : string)
  | SameDestination (dest : string)
  | IndexPanic.

Definition encode_path (title : N) : string := "encodes/" +:+ pretty title +:+ ".mkv".

Definition aspect_value (t : TitleStatus) : Value :=
  match t_aspect t with Some a => Str a | None => Null end.

(** ** The spec's overrides *)

Definition check_override (t : string) (ts : TitleSpec) : Result unit LayoutError :=
  match parse_u32 t with
  | None => Err (NotATitleNumber t)
  | Some _ =>
      let? _ := match over_folder ts with
                | Some f => if bool_decide (f ∈ FOLDERS) then Ok () else Err (NotAFolder t f)
                | None => Ok ()
                end in
      match over_name ts with
      | Some n => if valid_library_name n then Ok () else Err (NotAFileName t n)
      | None => Ok ()
      end
  end.
Fixpoint check_overrides (l : list (string * TitleSpec)) : Result unit LayoutError :=
  match l with
  | [] => Ok ()
  | (t, ts) :: l' => let? _ := check_override t ts in check_overrides l'
  end.

(** ** Version labels *)

(** How often each version label occurs among the alternates. *)
Definition count_label (seen : gmap string N) (t : TitleStatus) : gmap string N :=
  let v := version_label (aspect_value t) (t_title t) in
  <[v := u32_add (default 0%N (seen !! v)) 1]> seen.
Definition seen_labels (titles : list TitleStatus) : gmap string N :=
  fold_left count_label (filter (λ t, t_role t = Alt) titles) ∅.

Definition version (seen : gmap string N) (t : TitleStatus) : Result string LayoutError :=
  let v := version_label (aspect_value t) (t_title t) in
  match seen !! v with
  | None => Err IndexPanic
  | Some n => Ok (if (1 <? n)%N then "Title " +:+ pretty (t_title t) else v)
  end.

(** ** One title *)

Section placing.
Context (spec : DiscSpec) (name own : string) (seen : gmap string N).

Definition bonus : bool := (1 <? spec_disc spec)%N.
Definition prefix_of_disc : string :=
  if bonus then "Disc " +:+ pretty (spec_disc spec) +:+ " - " else "".
Definition over_of (t : TitleStatus) : TitleSpec :=
  default default_title_spec (spec_titles spec !! pretty (t_title t)).

(** The folder, stem and segment title of an encoded title; [None] where the loop continues. *)
Definition folder_stem (t : TitleStatus) : Result (option (option string * string * string)) LayoutError :=
  let over := over_of t in
  let custom := over_name over in
  let or_else f := match custom with Some c => Ok c | None => f () end in
  let extra f := Some (Some f, default (title_stem (t_title t) (t_seconds t)) custom,
                       default ("Title " +:+ pretty (t_title t)) custom) in
  match t_role t, bonus, over_folder over with
  | Main, false, None => Ok (Some (None, default name custom, name))
  | Alt, false, None =>
      let? v := version seen t in
      Ok (Some (None, default (name +:+ " - " +:+ v) custom, name +:+ " (" +:+ v +:+ ")"))
  | Main, _, f => let stem := default own custom in Ok (Some (Some (default "extras" f), stem, stem))
  | Alt, _, f =>
      let? stem := or_else (λ _, let? v := version seen t in Ok (own +:+ " - " +:+ v)) in
      Ok (Some (Some (default "extras" f), stem, stem))
  | Extra, _, f => Ok (extra (default "extras" f))
  | Short, _, Some f => Ok (extra f)
  | Short, _, None => Ok None
  | (Dup | Playall | Part | Stub), _, _ => Ok None
  end.

Definition dest_of (folder : option string) (stem : string) : string :=
  let file := prefix_of_disc +:+ stem +:+ ".mkv" in
  match folder with
  | Some f => name +:+ "/" +:+ f +:+ "/" +:+ file
  | None => name +:+ "/" +:+ file
  end.

(** The placement of a title, if it is published at all. *)
Definition placement (t : TitleStatus) : Result (option Placement) LayoutError :=
  if bool_decide (t_output t = None) then Ok None else
  let? placed := folder_stem t in
  match placed with
  | None => Ok None
  | Some (folder, stem, segment) =>
      if bool_decide (folder = Some "junk") then Ok None
      else Ok (Some (mkPlacement (t_title t) (encode_path (t_title t)) (dest_of folder stem) segment))
  end.

(** The loop, with the destinations taken so far. *)
Fixpoint place (files : list Placement) (dests : gset string) (titles : list TitleStatus)
    : Result (list Placement) LayoutError :=
  match titles with
  | [] => Ok files
  | t :: titles' =>
      let? p := placement t in
      match p with
      | None => place files dests titles'
      | Some p =>
          if bool_decide (p_dest p ∈ dests) then Err (SameDestination (p_dest p))
          else place (files ++ [p]) ({[p_dest p]} ∪ dests) titles'
      end
  end.
End placing.

Definition own_name (spec : DiscSpec) (label : string) : string :=
  let own := label_to_name label in
  if bool_decide (own = "") then "Disc " +:+ pretty (spec_disc spec) else own.

Definition iso_path (spec : DiscSpec) (name : string) : string :=
  if bonus spec then name +:+ "/" +:+ name +:+ " - Disc " +:+ pretty (spec_disc spec) +:+ ".iso"
  else name +:+ "/" +:+ name +:+ ".iso".

Definition layout (spec : DiscSpec) (label : string) (titles : list TitleStatus)
    : Result Layout LayoutError :=
  let name := trim (spec_name spec) in
  if negb (valid_library_name name) then Err (InvalidLibraryName (spec_name spec)) else
  if (spec_disc spec =? 0)%N then Err DiscNumberZero else
  let? _ := check_overrides (btree_list (spec_titles spec)) in
  let? files := place spec name (own_name spec label) (seen_labels titles) [] ∅ titles in
  Ok (mkLayout (iso_path spec name) files).

(** ** The source's own tests *)

Definition test_title (title : N) (r : Role) (seconds : f64) (aspect : option string) : TitleStatus :=
  mkTitleStatus title r seconds (if encoded r then Some (encode_path title) else None) None aspect [].
Definition test_spec (name : string) (disc : N) : DiscSpec := mkDiscSpec name disc None false ∅ false 0.
Definition dests (r : Result Layout LayoutError) : list string :=
  match r with Ok l => p_dest <$> l_files l | Err _ => [] end.

Example feature_disc :
  let l := layout (test_spec "Beetlejuice (1988)" 1) "BEETLEJUICE"
    [test_title 1 Main (f64_of_decimal false 55165 (-1)) (Some "16/9");
     test_title 2 Alt (f64_of_Z 5510) (Some "4/3"); test_title 6 Extra (f64_of_decimal false 1852 (-1)) None;
     test_title 7 Short (f64_of_Z 12) None; test_title 3 Dup (f64_of_decimal false 55165 (-1)) None] in
  dests l = ["Beetlejuice (1988)/Beetlejuice (1988).mkv";
             "Beetlejuice (1988)/Beetlejuice (1988) - Fullscreen.mkv";
             "Beetlejuice (1988)/extras/Title 6 - 3m05s.mkv"].
Proof. vm_compute. done. Qed.
Example bonus_disc_goes_to_extras :
  dests (layout (test_spec "The Water Horse (2007)" 2) "WATER_HORSE_BONUS_DISC"
    [test_title 1 Main (f64_of_Z 1800) None; test_title 4 Extra (f64_of_Z 35) None])
  = ["The Water Horse (2007)/extras/Disc 2 - Water Horse Bonus Disc.mkv";
     "The Water Horse (2007)/extras/Disc 2 - Title 4 - 0m35s.mkv"].
Proof. vm_compute. done. Qed.
Example duplicate_versions_fall_back_to_title_numbers :
  dests (layout (test_spec "X" 1) "X"
    [test_title 1 Main (f64_of_Z 100) (Some "16/9"); test_title 2 Alt (f64_of_Z 100) (Some "4/3");
     test_title 3 Alt (f64_of_Z 100) (Some "4/3")])
  = ["X/X.mkv"; "X/X - Title 2.mkv"; "X/X - Title 3.mkv"].
Proof. vm_compute. done. Qed.

(** ** The labels seen *)

Lemma count_label_dom seen t v : is_Some (seen !! v) → is_Some (count_label seen t !! v).
Proof. unfold count_label. intros ?. rewrite lookup_insert_is_Some. destruct (decide (version_label (aspect_value t) (t_title t) = v)); auto. Qed.
Lemma seen_fold_mono ts seen v :
  is_Some (seen !! v) → is_Some (fold_left count_label ts seen !! v).
Proof. revert seen. induction ts as [|t ts IH]; intros seen H; [done|]. cbn. by apply IH, count_label_dom. Qed.
Lemma seen_fold_elem ts seen t :
  t ∈ ts → is_Some (fold_left count_label ts seen !! version_label (aspect_value t) (t_title t)).
Proof.
  revert seen. induction ts as [|t' ts IH]; intros seen H; [by apply not_elem_of_nil in H|].
  cbn. apply elem_of_cons in H as [->|H]; [|by apply IH].
  apply seen_fold_mono. unfold count_label. rewrite lookup_insert_eq. done.
Qed.
Lemma version_ok titles t :
  t ∈ titles → t_role t = Alt → ∃ v, version (seen_labels titles) t = Ok v.
Proof.
  intros Ht Hr. unfold version. destruct (seen_fold_elem (filter (λ t, t_role t = Alt) titles) ∅ t) as [n Hn].
  { by apply list_elem_of_filter. }
  unfold seen_labels. rewrite Hn. eauto.
Qed.

(** ** The loop *)

Section placing_lemmas.
Context (spec : DiscSpec) (name own : string).

(** The placements of the titles, collisions aside. *)
Definition planned (titles : list TitleStatus) : list Placement :=
  omap (λ t, match placement spec name own (seen_labels titles) t with Ok p => p | Err _ => None end) titles.

Lemma folder_stem_ok titles t :
  t ∈ titles → ∃ r, folder_stem spec name own (seen_labels titles) t = Ok r.
Proof.
  intros Ht. pose proof (version_ok titles t Ht) as Hv. unfold folder_stem.
  destruct (t_role t); [eauto..|destruct (over_folder (over_of spec t)); eauto|eauto];
    destruct (bonus spec), (over_folder (over_of spec t)); eauto;
    destruct (Hv eq_refl) as [v ->]; eauto; destruct (over_name (over_of spec t)); eauto.
Qed.
Lemma placement_ok titles t :
  t ∈ titles → ∃ r, placement spec name own (seen_labels titles) t = Ok r.
Proof.
  intros Ht. unfold placement. case_bool_decide; [eauto|].
  destruct (folder_stem_ok titles t Ht) as [[[[f s] g]|] ->]; [|eauto]. case_bool_decide; eauto.
Qed.

Lemma place_Ok seen files (taken : gset string) titles out :
  (∀ t, t ∈ titles → ∃ r, placement spec name own seen t = Ok r) →
  (∀ d, d ∈ taken ↔ d ∈ p_dest <$> files) → NoDup (p_dest <$> files) →
  place spec name own seen files taken titles = Ok out ↔
  out = files ++ omap (λ t, match placement spec name own seen t with Ok p => p | Err _ => None end) titles ∧
  NoDup (p_dest <$> out).
Proof.
  revert files taken. induction titles as [|t titles IH]; intros files taken Hok Hd ND; cbn.
  { rewrite app_nil_r. naive_solver. }
  destruct (Hok t) as [[p|] Hp]; [left|..]; rewrite Hp.
  2:{ apply IH; [|done..]. intros u Hu. apply Hok. by right. }
  case_bool_decide as Hin.
  - split; [done|]. intros [-> Hnd]. exfalso. rewrite Hd in Hin.
    rewrite fmap_app, fmap_cons in Hnd. apply NoDup_app in Hnd as (_ & Hdis & _).
    apply (Hdis _ Hin). left.
  - rewrite IH; [by rewrite <- app_assoc|..].
    + intros u Hu. apply Hok. by right.
    + intros d. rewrite fmap_app. set_solver.
    + rewrite fmap_app. apply NoDup_app. split_and!; [done| |apply NoDup_singleton].
      intros d H1 H2%list_elem_of_singleton. subst. by rewrite <- Hd in H1.
Qed.
Lemma place_Err seen files taken titles e :
  (∀ t, t ∈ titles → ∃ r, placement spec name own seen t = Ok r) →
  place spec name own seen files taken titles = Err e → ∃ d, e = SameDestination d.
Proof.
  revert files taken. induction titles as [|t titles IH]; intros files taken Hok; cbn; [done|].
  destruct (Hok t) as [[p|] Hp]; [left|..]; rewrite Hp.
  - case_bool_decide; [intros [= <-]; eauto|]. apply IH. intros u Hu. apply Hok. by right.
  - apply IH. intros u Hu. apply Hok. by right.
Qed.
End placing_lemmas.

(** ** The spec's checks *)

(** What the loop over [spec.titles] lets through. *)
Definition override_ok (t : string) (ts : TitleSpec) : Prop :=
  is_Some (parse_u32 t) ∧ (∀ f, over_folder ts = Some f → f ∈ FOLDERS) ∧
  (∀ n, over_name ts = Some n → valid_library_name n = true).

Lemma check_override_Ok t ts : check_override t ts = Ok () ↔ override_ok t ts.
Proof.
  unfold check_override, override_ok. destruct (parse_u32 t); [|split; [done|by intros [[] _]]].
  destruct (over_folder ts) as [f|].
  - case_bool_decide as Hf; cbn; [|split; [done|by intros (_ & H & _); destruct Hf; apply H]].
    destruct (over_name ts) as [m|]; [|split; [intros _; split_and!; [done|intros; simplify_eq; done..]|done]].
    destruct (valid_library_name m) eqn:Hm; [split; [intros _; split_and!; [done|intros; simplify_eq; done..]|done]|].
    split; [done|]. intros (_ & _ & H). rewrite H in Hm; done.
  - cbn. destruct (over_name ts) as [m|]; [|split; [intros _; split_and!; [done|intros; simplify_eq; done..]|done]].
    destruct (valid_library_name m) eqn:Hm; [split; [intros _; split_and!; [done|intros; simplify_eq; done..]|done]|].
    split; [done|]. intros (_ & _ & H). rewrite H in Hm; done.
Qed.
Lemma check_overrides_Ok l :
  check_overrides l = Ok () ↔ ∀ t ts, (t, ts) ∈ l → override_ok t ts.
Proof.
  induction l as [|[t ts] l IH]; cbn; [split; [by intros _ ? ? ?%not_elem_of_nil|done]|].
  pose proof (check_override_Ok t ts) as Hc.
  destruct (check_override t ts) as [[]|e].
  - rewrite IH. split; [|by intros H ? ? ?; apply H; right].
    intros H t' ts' [[= -> ->]|?]%elem_of_cons; [by apply Hc|auto].
  - split; [done|]. intros H. assert (Err e = Ok ()) as [=]. apply Hc, H. left.
Qed.

Lemma check_overrides_no_panic l : check_overrides l ≠ Err IndexPanic.
Proof.
  induction l as [|[t ts] l IH]; cbn; [done|]. unfold check_override.
  repeat case_match; simplify_eq/=; done.
Qed.

(** C4: the layout, as a specification: the checks hold and no two files collide, and then the
    files are the placements of the titles in order. It is the only way to succeed, and the map
    lookup that could panic never does. *)
Theorem layout_spec spec label titles l :
  let name := trim (spec_name spec) in
  let files := planned spec name (own_name spec label) titles in
  (layout spec label titles = Ok l ↔
   valid_library_name name = true ∧ spec_disc spec ≠ 0%N ∧
   (∀ t ts, spec_titles spec !! t = Some ts → override_ok t ts) ∧
   NoDup (p_dest <$> files) ∧ l = mkLayout (iso_path spec name) files) ∧
  layout spec label titles ≠ Err IndexPanic.
Proof.
  intros name files. unfold layout. fold name.
  destruct (valid_library_name name) eqn:Hn; cbn [negb]; [|naive_solver].
  destruct (N.eqb_spec (spec_disc spec) 0) as [Hd|Hd]; [naive_solver|].
  pose proof (check_overrides_Ok (btree_list (spec_titles spec))) as Hc.
  pose proof (check_overrides_no_panic (btree_list (spec_titles spec))) as Hp.
  setoid_rewrite btree_list_elem in Hc.
  destruct (check_overrides _) as [[]|e]; [|naive_solver].
  pose proof (place_Ok spec name (own_name spec label) (seen_labels titles) [] ∅ titles) as HO.
  pose proof (place_Err spec name (own_name spec label) (seen_labels titles) [] ∅ titles) as HE.
  destruct (place _ _ _ _ [] ∅ titles) as [out|e].
  - destruct (HO out) as [HO1 _]; [by apply placement_ok|set_solver|constructor|].
    destruct (HO1 eq_refl) as [-> ND]. cbn in *. fold (planned spec name (own_name spec label) titles) in *.
    split; [|done]. split; [intros [= <-]; naive_solver|by intros (_ & _ & _ & _ & ->)].
  - destruct (HE e) as [d ->]; [by apply placement_ok|done|]. split; [|done]. split; [done|].
    intros (_ & _ & _ & ND & _).
    destruct (HO files) as [_ HO2]; [by apply placement_ok|set_solver|constructor|].
    discriminate (HO2 (conj eq_refl ND)).
Qed.

(** ** Inside the library *)

Definition no_slash (s : string) : Prop := ¬ char_in "/" s.

Lemma no_slash_app s1 s2 : no_slash (s1 +:+ s2) ↔ no_slash s1 ∧ no_slash s2.
Proof. unfold no_slash. rewrite char_in_app. tauto. Qed.
Lemma no_slash_pretty (n : N) : no_slash (pretty n).
Proof. by apply pretty_N_char_not_in. Qed.
Lemma no_slash_dec s : bool_decide (no_slash s) = true → no_slash s.
Proof. by intros ?%bool_decide_eq_true. Qed.
Lemma no_slash_stem n x : no_slash (title_stem n x).
Proof. by intros [?|[?|?]]%title_stem_char_in. Qed.
Lemma no_slash_label label : no_slash label → no_slash (label_to_name label).
Proof. intros H Hc. by apply H, label_to_name_char_in. Qed.
Lemma no_slash_version seen t v : version seen t = Ok v → no_slash v.
Proof.
  unfold version, version_label. destruct (seen !! _) as [n|]; [|done].
  assert (no_slash ("Title " +:+ pretty (t_title t))) as Ht.
  { apply no_slash_app. split; [by apply no_slash_dec|apply no_slash_pretty]. }
  intros [= <-]. repeat case_match; try done; by apply no_slash_dec.
Qed.
Lemma valid_no_slash n : valid_library_name n = true → no_slash n.
Proof. intros H%valid_library_name_iff. apply H. Qed.
Lemma no_slash_own spec label : no_slash label → no_slash (own_name spec label).
Proof.
  intros H. unfold own_name. case_bool_decide; [|by apply no_slash_label].
  apply no_slash_app. split; [by apply no_slash_dec|apply no_slash_pretty].
Qed.

(** A file name ending in [.mkv] is a valid path component. *)
Lemma mkv_valid s : no_slash s → valid_library_name (s +:+ ".mkv") = true.
Proof.
  intros Hs. apply valid_library_name_iff. split_and!.
  - intros E%(f_equal String.length). rewrite str_length_app in E. cbn in E. lia.
  - apply no_slash_app. split; [done|by apply no_slash_dec].
  - intros E%(f_equal String.length). rewrite str_length_app in E. cbn in E. lia.
  - intros E%(f_equal String.length). rewrite str_length_app in E. cbn in E. lia.
Qed.
Lemma folders_valid f : f ∈ FOLDERS → valid_library_name f = true.
Proof.
  assert (Forall (λ f, valid_library_name f = true) FOLDERS) as HF by (by repeat constructor).
  by apply (Forall_in (λ f, valid_library_name f = true)).
Qed.

Section inside.
Context (spec : DiscSpec) (name own : string) (seen : gmap string N).
Context (Hname : no_slash name) (Hown : no_slash own).
Context (Hover : ∀ t ts, spec_titles spec !! t = Some ts → override_ok t ts).

Lemma over_of_ok t :
  (∀ f, over_folder (over_of spec t) = Some f → f ∈ FOLDERS) ∧
  (∀ n, over_name (over_of spec t) = Some n → no_slash n).
Proof using Hover.
  unfold over_of. destruct (spec_titles spec !! pretty (t_title t)) as [ts|] eqn:E; [|done].
  destruct (Hover _ _ E) as (_ & Hf & Hn). split; [done|]. intros n Hx. by apply valid_no_slash, Hn.
Qed.

Lemma folder_stem_inside t f s g :
  folder_stem spec name own seen t = Ok (Some (f, s, g)) →
  (∀ d, f = Some d → d ∈ FOLDERS) ∧ no_slash s.
Proof using Hname Hown Hover.
  destruct (over_of_ok t) as [Hf Hn]. unfold folder_stem.
  assert ("extras" ∈ FOLDERS) as Hx by (unfold FOLDERS; set_solver).
  pose proof (no_slash_version seen t) as Hv.
  pose proof (no_slash_stem (t_title t) (t_seconds t)) as Hs.
  assert (no_slash " - ") as Hd by (by apply no_slash_dec).
  destruct (over_name (over_of spec t)) as [c|]; [specialize (Hn c eq_refl)|clear Hn];
    (destruct (over_folder (over_of spec t)) as [d|]; [specialize (Hf d eq_refl)|clear Hf]);
    destruct (t_role t), (bonus spec), (version seen t) as [v|] eqn:Ev; cbn;
    intros [= <- <- <-]; (split; [by intros ? [= <-]|]);
    rewrite ?no_slash_app; try specialize (Hv _ eq_refl); tauto.
Qed.

Lemma placement_inside t p :
  placement spec name own seen t = Ok (Some p) →
  ∃ path, p_dest p = join "/" (name :: path) ∧ length path ≤ 2 ∧
          Forall (λ c, valid_library_name c = true) path ∧ "junk" ∉ path.
Proof using Hname Hown Hover.
  unfold placement. case_bool_decide; [done|].
  destruct (folder_stem spec name own seen t) as [[[[f s] g]|]|] eqn:E; cbn; [|done..].
  apply folder_stem_inside in E as [Hf Hs]. case_bool_decide as Hj; [done|]. intros [= <-]. cbn.
  assert (no_slash (prefix_of_disc spec +:+ s)) as Hps.
  { apply no_slash_app. split; [|done]. unfold prefix_of_disc. case_match; [|by apply no_slash_dec].
    rewrite !no_slash_app. split_and!; [by apply no_slash_dec|apply no_slash_pretty|by apply no_slash_dec]. }
  pose proof (mkv_valid _ Hps) as Hv. rewrite <- str_app_assoc in Hv.
  assert ((prefix_of_disc spec +:+ s +:+ ".mkv") ≠ "junk") as Hk.
  { intros Ek%(f_equal (ends_with_char "v")). rewrite str_app_assoc in Ek.
    unfold ends_with_char in Ek. rewrite (chars_app _ ".mkv") in Ek. cbn in Ek.
    rewrite last_app in Ek. by vm_compute in Ek. }
  destruct f as [d|]; cbn.
  - exists [d; prefix_of_disc spec +:+ s +:+ ".mkv"]. split_and!; [done|cbn; lia| |].
    + constructor; [by apply folders_valid, Hf|by constructor].
    + rewrite !not_elem_of_cons. split_and!; [congruence|done|apply not_elem_of_nil].
  - exists [prefix_of_disc spec +:+ s +:+ ".mkv"]. split_and!; [done|cbn; lia|by constructor|].
    rewrite not_elem_of_cons. split; [done|apply not_elem_of_nil].
Qed.
End inside.

(** C5: published files stay in the disc's library folder: below [<name>/], at most one extras
    folder deep, every path component a plain file name, and never in [junk]. This needs a disc
    label without slashes; see [label_escapes]. *)
Theorem layout_inside spec label titles l p :
  no_slash label → layout spec label titles = Ok l → p ∈ l_files l →
  ∃ path, split_char "/" (p_dest p) = trim (spec_name spec) :: path ∧ length path ≤ 2 ∧
          Forall (λ c, valid_library_name c = true) (trim (spec_name spec) :: path) ∧ "junk" ∉ path.
Proof.
  intros Hl HO Hp. apply layout_spec in HO as (Hn & Hd & Hov & _ & ->). cbn in Hp.
  apply list_elem_of_omap in Hp as (t & Ht & Hp).
  destruct (placement spec _ _ _ t) as [op|] eqn:E; [subst|done].
  apply placement_inside in E as (path & -> & Hlen & Hv & Hj);
    [|by apply valid_no_slash|by apply no_slash_own|done].
  exists path. split_and!; [|done|by constructor|done]. apply split_join; [done|].
  constructor; [by apply valid_no_slash|]. eapply Forall_impl; [exact Hv|apply valid_no_slash].
Qed.

Lemma layout_inside_witness :
  ∃ l p, layout (test_spec "Elf (2003)" 2) "ELF" [test_title 1 Main (f64_of_Z 100) None] = Ok l ∧
         p ∈ l_files l ∧ ∃ path, split_char "/" (p_dest p) = "Elf (2003)" :: path ∧ length path ≤ 2.
Proof.
  eexists _, _. split; [vm_compute; reflexivity|]. split; [left|].
  edestruct (layout_inside (test_spec "Elf (2003)" 2) "ELF" [test_title 1 Main (f64_of_Z 100) None])
    as (path & Hs & Hl & _); [|vm_compute; reflexivity|left|exact (ex_intro _ path (conj Hs Hl))].
  by apply no_slash_dec.
Defined.

(** The label of a bonus disc is not checked: one with slashes names a file outside the folder. *)
Example label_escapes :
  split_char "/" <$> dests (layout (test_spec "X" 2) "a/../../../b" [test_title 1 Main (f64_of_Z 100) None])
  = [["X"; "extras"; "Disc 2 - A"; ".."; ".."; ".."; "b.mkv"]].
Proof. vm_compute. done. Qed.

(** ** An untouched disc always has a layout *)

Definition label_of (t : TitleStatus) : string := version_label (aspect_value t) (t_title t).

Lemma seen_fold_count ts seen v :
  (∀ w, default 0 (seen !! w) + N.of_nat (length ts) < u32_modulus)%N →
  default 0%N (fold_left count_label ts seen !! v) =
  (default 0 (seen !! v) + N.of_nat (length (filter (λ t, label_of t = v) ts)))%N.
Proof.
  revert seen. induction ts as [|t ts IH]; intros seen Hs; [cbn; lia|].
  cbn [fold_left]. assert (∀ w, default 0%N (count_label seen t !! w) =
    (default 0 (seen !! w) + if decide (label_of t = w) then 1 else 0)%N) as Hc.
  { intros w. unfold count_label. fold (label_of t). specialize (Hs (label_of t)). cbn in Hs.
    destruct (decide (label_of t = w)) as [<-|Hne].
    - rewrite lookup_insert_eq. cbn. apply u32_add_small. lia.
    - rewrite lookup_insert_ne by done. lia. }
  rewrite IH, Hc.
  - rewrite filter_cons. destruct (decide (label_of t = v)); cbn [length]; lia.
  - intros w. rewrite Hc. specialize (Hs w). cbn in Hs. case_decide; lia.
Qed.

Lemma version_label_cases a n :
  version_label a n = "Fullscreen" ∨ version_label a n = "Widescreen" ∨
  version_label a n = "Title " +:+ pretty n.
Proof. unfold version_label. repeat case_match; auto. Qed.

Lemma version_inj titles t u v :
  (N.of_nat (length titles) < u32_modulus)%N → t ∈ titles → u ∈ titles →
  t_role t = Alt → t_role u = Alt →
  version (seen_labels titles) t = Ok v → version (seen_labels titles) u = Ok v → t_title t = t_title u.
Proof.
  intros Hlen Ht Hu Hrt Hru. set (alts := filter (λ t, t_role t = Alt) titles).
  assert (∀ w, default 0%N (seen_labels titles !! w) = N.of_nat (length (filter (λ t, label_of t = w) alts))) as Hc.
  { intros w. unfold seen_labels. rewrite seen_fold_count; [by rewrite lookup_empty|].
    intros ?. rewrite lookup_empty. pose proof (length_filter (λ t, t_role t = Alt) titles). cbn. lia. }
  assert (t ∈ alts ∧ u ∈ alts) as [Ha Hb] by (split; by apply list_elem_of_filter).
  unfold version. fold (label_of t) (label_of u). pose proof (Hc (label_of t)) as Hct. pose proof (Hc (label_of u)) as Hcu.
  destruct (seen_labels titles !! label_of t) as [n|]; [|done].
  destruct (seen_labels titles !! label_of u) as [m|]; [|done]. cbn in Hct, Hcu.
  assert (∀ a b : N, "Title " +:+ pretty a = "Title " +:+ pretty b → a = b) as Hi.
  { intros a b E. by apply str_app_inv_l, (inj pretty) in E. }
  pose proof (version_label_cases (aspect_value t) (t_title t)) as Ct. fold (label_of t) in Ct.
  pose proof (version_label_cases (aspect_value u) (t_title u)) as Cu. fold (label_of u) in Cu.
  destruct (N.ltb_spec 1 n), (N.ltb_spec 1 m); intros [= Et] [= Eu]; subst v.
  - by apply Hi.
  - destruct_or! Cu; rewrite Cu in Eu; [done|done|by apply Hi].
  - destruct_or! Ct; rewrite Ct in Eu; [done|done|]. by apply Hi in Eu.
  - destruct (decide (t_title t = t_title u)) as [->|Hne]; [done|]. exfalso.
    assert (2 ≤ length (filter (λ x, label_of x = label_of t) alts)); [|lia].
    apply (two_elems_length _ t u); [by apply list_elem_of_filter..|by intros ->].
Qed.

(** Where the titles of an untouched first disc go, below [<name>/]. *)
Definition default_file (name : string) (seen : gmap string N) (t : TitleStatus) (file : string) : Prop :=
  match t_role t with
  | Main => file = name +:+ ".mkv"
  | Alt => ∃ v, version seen t = Ok v ∧ file = name +:+ " - " +:+ v +:+ ".mkv"
  | Extra => file = "extras/" +:+ title_stem (t_title t) (t_seconds t) +:+ ".mkv"
  | _ => False
  end.

Lemma placement_default spec name own seen t p :
  spec_disc spec = 1%N → spec_titles spec = ∅ → placement spec name own seen t = Ok (Some p) →
  ∃ file, p_dest p = name +:+ "/" +:+ file ∧ default_file name seen t file.
Proof.
  intros Hd Ht. unfold placement, folder_stem, default_file, bonus, over_of, dest_of, prefix_of_disc, bonus.
  rewrite Hd, Ht, lookup_empty. case_bool_decide; [done|].
  destruct (t_role t); cbn; try done.
  - intros [= <-]. eauto.
  - destruct (version seen t) as [v|]; cbn; [|done]. intros [= <-]. cbn. eexists. split; [done|].
    exists v. split; [done|]. by rewrite <- !str_app_assoc.
  - intros [= <-]. cbn. eauto.
Qed.

Lemma title_stem_inj a x b y s s' :
  title_stem a x +:+ s = title_stem b y +:+ s' → a = b.
Proof.
  unfold title_stem. rewrite <- !str_app_assoc. intros E%str_app_inv_l.
  assert (∀ (n : N) z r, split_once " " (pretty n +:+ " - " +:+ dur z +:+ r) = Some (pretty n, "- " +:+ dur z +:+ r)) as Hs.
  { intros n z r. unfold split_once.
    assert (split_once_list " " (chars (pretty n +:+ " - " +:+ dur z +:+ r))
      = Some (chars (pretty n), chars ("- " +:+ dur z +:+ r))) as ->.
    { apply split_once_list_Some. rewrite chars_app. split; [done|]. by apply pretty_N_char_not_in. }
    cbn [mbind option_bind]. by rewrite !str_chars. }
  apply (f_equal (split_once " ")) in E. rewrite !Hs in E. injection E as E _. by apply (inj pretty).
Qed.

Lemma default_file_inj name titles t u file :
  no_slash name → (N.of_nat (length titles) < u32_modulus)%N → t ∈ titles → u ∈ titles →
  (t_role t = Main → t_role u = Main → t_title t = t_title u) →
  default_file name (seen_labels titles) t file → default_file name (seen_labels titles) u file →
  t_title t = t_title u.
Proof.
  intros Hn Hlen Ht Hu Hm. unfold default_file.
  assert (∀ s, no_slash s → no_slash (name +:+ s +:+ ".mkv")) as Hflat.
  { intros s Hs. rewrite !no_slash_app. split_and!; [done..|by apply no_slash_dec]. }
  assert (∀ s, ¬ no_slash ("extras/" +:+ s)) as Hdeep.
  { intros s [H _]%no_slash_app. apply H. by apply (bool_decide_eq_true_1 (char_in "/" "extras/")). }
  assert (∀ v w, no_slash v → name +:+ " - " +:+ v +:+ ".mkv" = "extras/" +:+ w → False) as Hve.
  { intros v w Hv E. apply (Hdeep w). rewrite <- E, str_app_assoc.
    rewrite !no_slash_app. split_and!; try done; by apply no_slash_dec. }
  assert (no_slash "") as H0 by by apply no_slash_dec.
  destruct (t_role t) eqn:Rt; try done; destruct (t_role u) eqn:Ru; try done; intros H1 H2.
  - by apply Hm.
  - destruct H2 as (v & _ & E). rewrite H1 in E. by apply str_app_inv_l in E.
  - rewrite H1 in H2. destruct (Hdeep (title_stem (t_title u) (t_seconds u) +:+ ".mkv")). rewrite <- H2. by apply (Hflat "").
  - destruct H1 as (v & _ & E). rewrite H2 in E. by apply str_app_inv_l in E.
  - destruct H1 as (v & Ev & ->), H2 as (w & Ew & E).
    rewrite !str_app_assoc in E. apply str_app_inv_r, str_app_inv_l in E as ->.
    by eapply version_inj.
  - destruct H1 as (v & Ev & ->). exfalso. eapply Hve; [|exact H2]. by eapply no_slash_version.
  - rewrite H2 in H1. destruct (Hdeep (title_stem (t_title t) (t_seconds t) +:+ ".mkv")). rewrite <- H1. by apply (Hflat "").
  - destruct H2 as (v & Ev & ->). exfalso. eapply Hve; [|symmetry; exact H1..|]. 1:by eapply no_slash_version. done.
  - subst file. apply str_app_inv_l in H2. by eapply title_stem_inj.
Qed.

(** A first disc nobody edited always has a layout: with a valid library name, distinct title
    numbers and one main feature (what [classify] gives), no two files collide. *)
Theorem layout_total spec label titles :
  valid_library_name (trim (spec_name spec)) = true → spec_disc spec = 1%N → spec_titles spec = ∅ →
  NoDup (t_title <$> titles) → (N.of_nat (length titles) < u32_modulus)%N →
  (∀ t u, t ∈ titles → u ∈ titles → t_role t = Main → t_role u = Main → t_title t = t_title u) →
  ∃ l, layout spec label titles = Ok l.
Proof.
  intros Hn Hd Ht ND Hlen Hm. eexists. apply layout_spec.
  split; [done|]. split; [by rewrite Hd|]. split; [intros ? ?; by rewrite Ht, lookup_empty|].
  split; [|done]. unfold planned. eapply NoDup_omap_key; [exact ND|].
  intros t u p q Htt Htu Hp Hq E.
  destruct (placement _ _ _ _ t) as [op|] eqn:Ep; [subst op|done].
  destruct (placement _ _ _ _ u) as [oq|] eqn:Eq; [subst oq|done].
  apply placement_default in Ep as (f & Ef & Hf); [|done..].
  apply placement_default in Eq as (g & Eg & Hg); [|done..].
  rewrite Ef, Eg in E. do 2 apply str_app_inv_l in E. subst g.
  eapply default_file_inj; [by apply valid_no_slash|exact Hlen|exact Htt|exact Htu|by apply Hm|exact Hf|exact Hg].
Qed.

Lemma layout_total_witness :
  ∃ l, layout (test_spec "X" 1) "X"
    [test_title 1 Main (f64_of_Z 100) (Some "16/9"); test_title 2 Alt (f64_of_Z 100) (Some "4/3");
     test_title 3 Alt (f64_of_Z 100) (Some "4/3")] = Ok l.
Proof.
  apply layout_total; [vm_compute; reflexivity|reflexivity|reflexivity| |vm_compute; reflexivity|].
  - refine (bool_decide_unpack _ _). vm_compute. exact I.
  - intros t u Ht Hu Hrt Hru.
    repeat (apply elem_of_cons in Ht as [->|Ht]; [|try discriminate Hrt]);
    repeat (apply elem_of_cons in Hu as [->|Hu]; [|try discriminate Hru]);
    try discriminate; try reflexivity; by apply not_elem_of_nil in Ht || apply not_elem_of_nil in Hu.
Defined.
