(* ===== verification/State.v ===== *)
(** * State and errors

    Effectful code threads a state and may stop with an error: [SE S E A]. [wp] reasons about its
    runs. The programs differ in their state: the API server and its Jobs ([Controller]), the disks
    ([Publish]), a remote service and a spool directory ([Letterboxd]). *)

From stdpp Require Import options.
From S2P Require Import Prelude.

Definition SE (S E A : Type) : Type := S → S * Result A E.
#[export] Instance SE_ret S E : MRet (SE S E) := λ A a s, (s, Ok a).
#[export] Instance SE_bind S E : MBind (SE S E) := λ A B f m s,
  let '(s', r) := m s in match r with Ok a => f a s' | Err e => (s', Err e) end.

(** The state, and a change of it. *)
Definition gets {S E A} (f : S → A) : SE S E A := λ s, (s, Ok (f s)).
Definition modify {S E} (f : S → S) : SE S E () := λ s, (f s, Ok ()).
(** [bail!], and a [Result] computed without effects. *)
Definition throw {S E A} (e : E) : SE S E A := λ s, (s, Err e).
Definition lift {S E A} (r : Result A E) : SE S E A := λ s, (s, r).
(** [m.ok()] *)
Definition ok {S E A} (m : SE S E A) : SE S E (option A) := λ s,
  let '(s', r) := m s in (s', Ok match r with Ok a => Some a | Err _ => None end).

(** A [for] loop with an accumulator. *)
Fixpoint for_each {S E A B} (f : B → A → SE S E B) (b : B) (l : list A) : SE S E B :=
  match l with [] => mret b | x :: l' => b' ← f b x; for_each f b' l' end.

(** [wp m E Q s]: run from [s], [m] ends in [E] with an error or in [Q] with a result. *)
Definition wp {S F A} (m : SE S F A) (E : S → Prop) (Q : A → S → Prop) (s : S) : Prop :=
  match m s with (s', Ok a) => Q a s' | (s', Err _) => E s' end.

Section wp.
Context {S F : Type}.

Lemma wp_ret {A} (a : A) (E : S → Prop) (Q : A → S → Prop) s : Q a s → wp (F := F) (mret a) E Q s.
Proof. done. Qed.
Lemma wp_bind {A B} (m : SE S F A) (f : A → SE S F B) E Q s :
  wp m E (λ a, wp (f a) E Q) s → wp (m ≫= f) E Q s.
Proof. unfold wp, mbind, SE_bind. destruct (m s) as [s' [a|e]]; done. Qed.
Lemma wp_mono {A} (m : SE S F A) (E E' : S → Prop) (Q Q' : A → S → Prop) s :
  wp m E Q s → (∀ s', E s' → E' s') → (∀ a s', Q a s' → Q' a s') → wp m E' Q' s.
Proof. unfold wp. destruct (m s) as [s' [a|e]]; auto. Qed.
Lemma wp_ok {A} (m : SE S F A) E (Q : option A → S → Prop) s :
  wp m (λ s', Q None s') (λ a s', Q (Some a) s') s → wp (ok m) E Q s.
Proof. unfold wp, ok. destruct (m s) as [s' [a|e]]; done. Qed.
Lemma wp_result {A} (m : SE S F A) (P : S → Prop) s : wp m P (λ _, P) s → P (m s).1.
Proof. unfold wp. destruct (m s) as [s' [a|e]]; done. Qed.
Lemma wp_gets {A} (f : S → A) (E : S → Prop) (Q : A → S → Prop) s : Q (f s) s → wp (F := F) (gets f) E Q s.
Proof. done. Qed.
Lemma wp_modify (f : S → S) (E : S → Prop) (Q : () → S → Prop) s : Q () (f s) → wp (F := F) (modify f) E Q s.
Proof. done. Qed.
Lemma wp_throw {A} (e : F) (E : S → Prop) (Q : A → S → Prop) s : E s → wp (throw e) E Q s.
Proof. done. Qed.
Lemma wp_lift {A} (r : Result A F) (E : S → Prop) (Q : A → S → Prop) s :
  E s → (∀ a, r = Ok a → Q a s) → wp (lift r) E Q s.
Proof. intros. unfold wp, lift. destruct r; auto. Qed.
(** What a run that succeeded or failed did. *)
Lemma wp_Ok {A} (m : SE S F A) E Q s s' a : wp m E Q s → m s = (s', Ok a) → Q a s'.
Proof. unfold wp. intros H Em. by rewrite Em in H. Qed.
Lemma wp_intro {A} (m : SE S F A) (E : S → Prop) (Q : A → S → Prop) s :
  (∀ s' e, m s = (s', Err e) → E s') → (∀ s' a, m s = (s', Ok a) → Q a s') → wp m E Q s.
Proof. unfold wp. destruct (m s) as [s' [a|e]]; eauto. Qed.

(** A loop keeps what each round keeps. *)
Lemma wp_for_each {A B} (f : B → A → SE S F B) (I : list A → B → S → Prop) (E : S → Prop) b l s :
  (∀ done x b s, I done b s → x ∈ l → wp (f b x) E (λ b', I (done ++ [x]) b') s) →
  I [] b s → wp (for_each f b l) E (λ b', I l b') s.
Proof.
  intros Hf HI. assert (∀ rest seen b s, l = seen ++ rest → I seen b s →
    wp (for_each f b rest) E (λ b', I l b') s) as Hgen; [|by apply (Hgen l [])].
  induction rest as [|x rest IH]; intros seen b' s' El HI'; cbn [for_each].
  { unfold wp. cbn. by rewrite El, app_nil_r. }
  apply wp_bind. eapply wp_mono; [apply (Hf seen x b' s' HI')| |].
  - rewrite El. apply elem_of_app. right. left.
  - done.
  - intros b2 s2 HI2. apply (IH (seen ++ [x])); [by rewrite <- app_assoc|done].
Qed.
End wp.
