(* ===== verification/Controller.v ===== *)
(** * The controller ([apps/dvdrip/src/controller.rs])

    [decide] is the pure phase machine; [apply] is the reconciler around it, run against a [World]
    that holds the API server's Disc, the Jobs and the Pods. Every API call consults the [oracle]:
    it may work, be refused, or take effect and lose its reply; an error ends [apply] there, so a
    run covers every point at which a controller can die. *)

From Stdlib Require Import Ascii.
From stdpp Require Import options.
From S2P Require Import Prelude F64 Json Crd State.

(** Timestamps are parsed and printed by a library; times are nanoseconds. *)
Class Clock : Type := { format_time : Z → string; parse_time : string → option Z }.

Record ControllerArgs : Type := mkControllerArgs {
  a_namespace : string;
  a_image : string;
  a_max_encodes : nat;
  a_encoder : string;
  a_cpu_encoder : string;
  a_gpu_wait_minutes : N;
  a_work_pvc : string;
  a_dvd_pvc : string;
  a_movies_pvc : string;
  a_job_service_account : string;
  a_jellyfin_url : option string;
  a_jellyfin_secret : string;
  a_work_root : string;
}.

Definition DISC_LABEL : string := "dvd.trdos.me/disc".
Definition STAGE_LABEL : string := "dvd.trdos.me/stage".
Definition ENCODER_LABEL : string := "dvd.trdos.me/encoder".

(** [agent::LEASE], in seconds *)
Definition LEASE : Z := 5 * 60.

(** ** [decide] *)

Inductive Next : Type :=
  | Wait (seconds : N)
  | SetPhase (p : Phase) (msg : option string)
  | StartEncode
  | StartPublish
  | Fail (msg : string).

Inductive JobState : Type := Missing | Running | Succeeded | JobFailed.
#[export] Instance JobState_eq_dec : EqDecision JobState.
Proof. solve_decision. Defined.

(** The Job's own message when it left one, else a pointer to its log. *)
Definition failure_message (st : DiscStatus) (prefix fallback : string) : string :=
  match st_message st with
  | Some m => if starts_with prefix m then m else fallback
  | None => fallback
  end.

Definition key_is (k : option string) (key : string) : bool := bool_decide (k = Some key).

Definition decide_next `{SerdeJson} (spec : DiscSpec) (st : DiscStatus) (job : JobState) (lease_expired : bool) : Next :=
  match st_phase st with
  | (Detected | BackingUp) as p =>
      if bool_decide (p = BackingUp) && lease_expired
      then Fail ("interrupted: " +:+ default "the drive" (st_drive st)
                 +:+ " stopped reporting; reinsert the disc to retry")
      else Wait 60
  | BackedUp => if spec_hold spec then SetPhase Held (Some "held (spec.hold)") else StartEncode
  | Held => if negb (spec_hold spec) then SetPhase BackedUp None else Wait 300
  | Encoding =>
      match job with
      | Running => Wait 60
      | Succeeded => SetPhase Encoded None
      | JobFailed => Fail (failure_message st "encode failed" "encode failed (see the Job's log)")
      | Missing => SetPhase BackedUp (Some "encode Job vanished; starting again")
      end
  | Encoded => StartPublish
  | Publishing =>
      match job with
      | Running => Wait 30
      | Succeeded => SetPhase Done None
      | JobFailed => Fail (failure_message st "publish failed" "publish failed (see the Job's log)")
      | Missing => SetPhase Encoded None
      end
  | Done =>
      let enc := negb (key_is (st_encode_key st) (encode_key spec)) in
      let publ := negb (key_is (st_publish_key st) (publish_key spec)) in
      if enc then SetPhase BackedUp (Some "spec changed: encoding again")
      else if publ then SetPhase Encoded (Some "spec changed: publishing again")
      else Wait 3600
  | Failed => Wait 3600
  end.

(** ** Jobs *)

Record JobStatus : Type := mkJobStatus {
  js_succeeded : option Z;
  js_conditions : option (list (string * string));
}.
Record Job : Type := mkJob {
  job_labels : gmap string string;
  job_owner : string;
  job_pod_spec : Value;
  job_status : option JobStatus;
}.

Definition job_state (job : option Job) : JobState :=
  match job with
  | None => Missing
  | Some j =>
      match job_status j with
      | None => Running
      | Some s =>
          if (0 <? default 0 (js_succeeded s))%Z then Succeeded
          else if existsb (λ c, String.eqb c.1 "Failed" && String.eqb c.2 "True") (default [] (js_conditions s))
          then JobFailed else Running
      end
  end.

Definition job_name (disc : Disc) (stage : string) (st : DiscStatus) (n : N) : string :=
  let prefix := if is_test disc then "e2e-" else "" in
  prefix +:+ "dvd-" +:+ stage +:+ "-" +:+ st_fingerprint st +:+ "-" +:+ pretty n.

Definition is_nvenc (encoder : string) : bool := starts_with "nvenc" encoder.

(** ** The Job's spec *)

Section job_spec.
Context (a : ControllerArgs) (env_var : string → option string) (disc : Disc).

Definition env_entry (name value : string) : Value := Object [("name", Str name); ("value", Str value)].
Definition pvc_volume (name claim : string) : Value :=
  Object [("name", Str name); ("persistentVolumeClaim", Object [("claimName", Str claim)])].
Definition mount (name path : string) : Value := Object [("mountPath", Str path); ("name", Str name)].

Definition pod_env (stage encoder : string) : list Value :=
  [env_entry "OTEL_SERVICE_NAME" ("dvdrip-" +:+ if String.eqb stage "e" then "encode" else "publish")]
  ++ omap (λ k, env_entry k <$> env_var k) ["OTEL_EXPORTER_OTLP_ENDPOINT"; "RUST_LOG"]
  ++ [env_entry "DVDRIP_ENCODER" encoder]
  ++ (if String.eqb stage "p" then
        match a_jellyfin_url a with
        | Some u =>
            [env_entry "JELLYFIN_URL" u;
             Object [("name", Str "JELLYFIN_ADMIN_PASSWORD");
                     ("valueFrom", Object [("secretKeyRef",
                        Object [("key", Str "password"); ("name", Str (a_jellyfin_secret a)); ("optional", Bool true)])])]]
        | None => []
        end
      else []).
Definition pod_volumes (stage : string) : list Value :=
  [pvc_volume "work" (a_work_pvc a);
   Object [("emptyDir", Object []); ("name", Str "tmp")];
   Object [("name", Str "dvd");
           ("persistentVolumeClaim", Object [("claimName", Str (a_dvd_pvc a)); ("readOnly", Bool (String.eqb stage "e"))])]]
  ++ (if String.eqb stage "p" then [pvc_volume "movies" (a_movies_pvc a)] else []).
Definition pod_mounts (stage : string) : list Value :=
  [mount "work" "/work"; mount "tmp" "/tmp";
   Object [("mountPath", Str "/media/dvd"); ("name", Str "dvd"); ("readOnly", Bool (String.eqb stage "e"))]]
  ++ (if String.eqb stage "p" then [mount "movies" "/media/movies"] else []).
Definition pod_resources (stage : string) (gpu : bool) : Value :=
  let e := String.eqb stage "e" in
  Object ((if gpu then [("limits", Object [("nvidia.com/gpu", Str "1")])] else [])
          ++ [("requests", Object ([("cpu", Str (if e then "4" else "250m")); ("memory", Str (if e then "4Gi" else "256Mi"))]
                                   ++ if gpu then [("nvidia.com/gpu", Str "1")] else []))]).
Definition pod_tolerations (gpu : bool) : list Value :=
  (if gpu then [Object [("effect", Str "NoSchedule"); ("key", Str "nvidia.com/gpu"); ("operator", Str "Exists")]] else [])
  ++ [Object [("effect", Str "PreferNoSchedule"); ("key", Str "node.trdos.me/class");
              ("operator", Str "Equal"); ("value", Str "desktop")]].

(** The encode ("e") or publish ("p") Job for a disc: its name and the object. *)
Definition job_spec (st : DiscStatus) (stage : string) (n : N) (cpu : bool) : string * Job :=
  let disc_ref := default (a_namespace a) (disc_namespace disc) +:+ "/" +:+ disc_name disc in
  let encoder := if cpu then a_cpu_encoder a else a_encoder a in
  let gpu := String.eqb stage "e" && is_nvenc encoder in
  let command := if String.eqb stage "e" then "encode" else "publish" in
  let pod := Object (
    [("containers", Array [Object [
       ("args", Array [Str command; Str "--disc"; Str disc_ref]);
       ("env", Array (pod_env stage encoder));
       ("image", Str (a_image a));
       ("name", Str command);
       ("resources", pod_resources stage gpu);
       ("securityContext", Object [("allowPrivilegeEscalation", Bool false)]);
       ("volumeMounts", Array (pod_mounts stage))]]);
     ("hostAliases", Array [Object [("hostnames", Array [Str "ntfy.trdos.me"]); ("ip", Str "100.64.0.1")]]);
     ("nodeSelector", Object (if gpu then [("nvidia.com/gpu.present", Str "true")] else []));
     ("restartPolicy", Str "Never")]
    ++ (if gpu then [("runtimeClassName", Str "nvidia")] else [])
    ++ [("serviceAccountName", Str (a_job_service_account a));
        ("tolerations", Array (pod_tolerations gpu));
        ("volumes", Array (pod_volumes stage))]) in
  (job_name disc stage st n,
   {| job_labels := <[DISC_LABEL := disc_name disc]> (<[STAGE_LABEL := stage]>
        {[ENCODER_LABEL := if String.eqb stage "e" then encoder else "none"]});
      job_owner := disc_uid disc;
      job_pod_spec := Object [
        ("backoffLimit", Number (PosInt 0));
        ("template", Object [
          ("metadata", Object [("labels", Object [(DISC_LABEL, Str (disc_name disc)); (STAGE_LABEL, Str stage)])]);
          ("spec", pod)]);
        ("ttlSecondsAfterFinished", Number (PosInt 86400))];
      job_status := None |}).
End job_spec.

(** ** The world *)

Record Pod : Type := mkPod { pod_job : string; pod_phase : option string; pod_created : option Z }.

Inductive Outcome : Type := Works | Refused | LostReply.

Inductive Event : Type :=
  | EvNotify (message kind : string)
  | EvNotifyMedia (message : string)
  | EvMetric (kind : string)
  | EvFailure (stage : string)
  | EvEncodeSeconds (seconds : f64)
  | EvSpan (name : string) (ok : bool)
  | EvDeleteFailed (job : string)
  | EvRemoveDir (dir : string).

Record World : Type := mkWorld {
  w_disc : Disc;
  w_jobs : gmap string Job;
  w_pods : list Pod;
  w_now : Z;
  w_oracle : list Outcome;
  w_log : list Event;
}.

Inductive Error : Type := ApiError.

Notation M := (SE World Error).

Definition with_disc (d : Disc) (w : World) : World :=
  mkWorld d (w_jobs w) (w_pods w) (w_now w) (w_oracle w) (w_log w).
Definition with_jobs (jobs : gmap string Job) (w : World) : World :=
  mkWorld (w_disc w) jobs (w_pods w) (w_now w) (w_oracle w) (w_log w).
Definition with_oracle (o : list Outcome) (w : World) : World :=
  mkWorld (w_disc w) (w_jobs w) (w_pods w) (w_now w) o (w_log w).
Definition log (e : Event) : M () :=
  λ w, (mkWorld (w_disc w) (w_jobs w) (w_pods w) (w_now w) (w_oracle w) (e :: w_log w), Ok ()).

(** An API call with effect and result [f]. *)
Definition call {A} (f : World → World * A) : M A := λ w,
  match w_oracle w with
  | [] => let '(w', a) := f w in (w', Ok a)
  | o :: rest =>
      let w := with_oracle rest w in
      match o with
      | Works => let '(w', a) := f w in (w', Ok a)
      | Refused => (w, Err ApiError)
      | LostReply => ((f w).1, Err ApiError)
      end
  end.
(** ** Status patches *)

Record Patch : Type := mkPatch {
  patch_phase : option Phase;
  patch_message : option string;
  patch_since : option string;
  patch_attempts : option N;
  patch_observed_retry : option N;
  patch_encode_key : option string;
  patch_publish_key : option string;
}.

(** The merge: fields the patch does not name keep their value. *)
Definition merge_status (p : Patch) (st : DiscStatus) : DiscStatus :=
  let or {A} (new old : option A) := match new with Some _ => new | None => old end in
  mkDiscStatus (default (st_phase st) (patch_phase p)) (or (patch_message p) (st_message st)) (st_label st)
    (st_fingerprint st) (st_drive st) (default (st_attempts st) (patch_attempts p))
    (default (st_observed_retry st) (patch_observed_retry p)) (st_backup st) (st_damage st) (st_protected st)
    (st_titles st) (st_warnings st) (st_published st) (st_encoded_generation st) (st_summary st)
    (or (patch_since p) (st_since st)) (or (patch_encode_key p) (st_encode_key st))
    (or (patch_publish_key p) (st_publish_key st)) (st_heartbeat st).
Definition with_status (st : DiscStatus) (d : Disc) : Disc :=
  mkDisc (disc_name d) (disc_namespace d) (disc_labels d) (disc_uid d) (disc_spec d) (Some st).

Definition set (p : Patch) : M () :=
  call (λ w, (with_disc (with_status (merge_status p (default default_disc_status (disc_status (w_disc w)))) (w_disc w)) w, ())).

(** ** API calls on Jobs and Pods *)

Definition get_job (name : string) : M (option Job) := call (λ w, (w, w_jobs w !! name)).
(** A name that is taken (409) leaves the existing Job alone. *)
Definition create_job (name : string) (j : Job) : M bool :=
  call (λ w, match w_jobs w !! name with
             | Some _ => (w, false)
             | None => (with_jobs (<[name := j]> (w_jobs w)) w, true)
             end).
Definition delete_job (name : string) : M () := call (λ w, (with_jobs (delete name (w_jobs w)) w, ())).

Definition running (stage : string) : M nat :=
  call (λ w, (w, length (filter (λ kv, job_labels kv.2 !! STAGE_LABEL = Some stage ∧ job_state (Some kv.2) = Running)
                               (map_to_list (w_jobs w))))).

Section reconcile.
Context `{SerdeJson} `{Clock} (a : ControllerArgs) (env_var : string → option string).

(** [SignedDuration::as_secs_f64] *)
Definition as_secs_f64 (ns : Z) : f64 :=
  (f64_of_Z (Z.quot ns (10 ^ 9)) + f64_of_Z (Z.rem ns (10 ^ 9)) / f64_of_Z (10 ^ 9))%f64.
Definition since_secs (now : Z) (t : option string) : f64 :=
  match t ≫= parse_time with
  | Some t => as_secs_f64 (now - t)
  | None => f64_zero
  end.
Definition stale (now : Z) (t : option string) : bool := f64_ltb (f64_of_Z LEASE) (since_secs now t).

Definition now : M string := λ w, (w, Ok (format_time (w_now w))).
Definition clock : M Z := λ w, (w, Ok (w_now w)).

(** The encode Job's pod has waited for a GPU longer than the limit. *)
Definition gpu_starved (name : string) (job : Job) : M bool :=
  if negb (is_nvenc (a_encoder a))
     || match job_labels job !! ENCODER_LABEL with Some e => negb (is_nvenc e) | None => false end
  then mret false
  else
    pods ← ok (call (λ w, (w, filter (λ p, pod_job p = name) (w_pods w))));
    now ← clock;
    mret match pods with
         | None => false
         | Some l =>
             existsb (λ p, bool_decide (pod_phase p = Some "Pending")
               && f64_ltb (f64_of_Z (Z.of_N (u64_wrap (a_gpu_wait_minutes a * 60))))
                    (match pod_created p with Some t => as_secs_f64 (now - t) | None => f64_zero end)) l
         end.

Definition start_job (disc : Disc) (st : DiscStatus) (stage : string) (n : N) (cpu : bool) : M () :=
  let '(name, job) := job_spec a env_var disc st stage n cpu in
  _ ← create_job name job; mret ().

(** The span of the stage a disc just left, and the disc's own once it is over. *)
Definition stage_span (st : DiscStatus) (to : Phase) (ok : bool) : M () :=
  match st_phase st with
  | Encoding | Publishing | BackingUp =>
      let stage := match st_phase st with Encoding => "encode" | Publishing => "publish" | _ => "backup" end in
      _ ← log (EvSpan stage ok);
      if bool_decide (to = Done ∨ to = Failed) then log (EvSpan "disc" ok) else mret ()
  | _ => mret ()
  end.

Fixpoint each (evs : list Event) : M () :=
  match evs with [] => mret () | e :: evs' => _ ← log e; each evs' end.

Definition to_phase (p : Phase) (msg : option string) (since : string) : Patch :=
  mkPatch (Some p) msg (Some since) None None None None.

(** The patch for a new phase, with what entering it reports. *)
Definition phase_patch (disc : Disc) (st : DiscStatus) (p : Phase) (msg : option string) (since : string) (now : Z) : M Patch :=
  match p with
  | Encoded =>
      _ ← log (EvEncodeSeconds (since_secs now (st_since st)));
      mret (mkPatch (Some p) msg (Some since) None None (Some (encode_key (disc_spec disc))) None)
  | Done =>
      _ ← match st_summary st with Some m => log (EvNotify m "done") | None => mret () end;
      _ ← each ((λ note, EvNotifyMedia (spec_name (disc_spec disc) +:+ ": " +:+ note))
                 <$> (match st_published st with Some p => pub_notes p | None => [] end));
      _ ← log (EvMetric "done");
      mret (mkPatch (Some p) (match st_summary st with Some m => Some m | None => msg end) (Some since)
              None None None (Some (publish_key (disc_spec disc))))
  | _ => mret (to_phase p msg since)
  end.

(** [Next::SetPhase] *)
Definition set_phase (disc : Disc) (st : DiscStatus) (p : Phase) (msg : option string) : M N :=
  since ← now;
  now ← clock;
  patch ← phase_patch disc st p msg since now;
  _ ← stage_span st p true;
  _ ← set patch;
  mret 1%N.

(** [Next::StartEncode] *)
Definition start_encode (disc : Disc) (st : DiscStatus) : M N :=
  r ← running "e";
  if (a_max_encodes a <=? r)%nat then mret 30%N
  else
    let n := u32_add (st_attempts st) 1 in
    _ ← start_job disc st "e" n false;
    since ← now;
    _ ← set (mkPatch (Some Encoding) (Some "encoding") (Some since) (Some n) None None None);
    mret 60%N.

(** [Next::StartPublish] *)
Definition start_publish (disc : Disc) (st : DiscStatus) : M N :=
  let n := u32_add (st_attempts st) 1 in
  _ ← start_job disc st "p" n false;
  since ← now;
  _ ← set (mkPatch (Some Publishing) None (Some since) (Some n) None None None);
  mret 30%N.

(** [Next::Fail] *)
Definition fail (disc : Disc) (st : DiscStatus) (msg : string) : M N :=
  _ ← log (EvFailure (match st_phase st with Encoding => "encode" | Publishing => "publish" | _ => "backup" end));
  _ ← log (EvNotify (spec_name (disc_spec disc) +:+ ": " +:+ msg) "failed");
  _ ← stage_span st Failed false;
  since ← now;
  _ ← set (to_phase Failed (Some msg) since);
  mret 3600%N.

Definition act (disc : Disc) (st : DiscStatus) (next : Next) : M N :=
  match next with
  | Wait d => mret d
  | SetPhase p msg => set_phase disc st p msg
  | StartEncode => start_encode disc st
  | StartPublish => start_publish disc st
  | Fail msg => fail disc st msg
  end.

(** A bumped [spec.retry]: where the disc goes on from. *)
Definition retry_phase (st : DiscStatus) : Phase :=
  if bool_decide (st_phase st ≠ Failed) then st_phase st
  else match st_backup st with Some _ => BackedUp | None => Detected end.

Definition stage_of (st : DiscStatus) : option string :=
  match st_phase st with Encoding => Some "e" | Publishing => Some "p" | _ => None end.

(** [jobs.delete(..).await.ok()]: a delete that fails is only recorded in the log. *)
Definition delete_ignoring (name : string) : M () :=
  r ← ok (delete_job name);
  match r with Some _ => mret () | None => log (EvDeleteFailed name) end.

(** No GPU for too long: start again on the CPU. *)
Definition move_to_cpu (disc : Disc) (st : DiscStatus) (name : string) : M N :=
  _ ← delete_ignoring name;
  let n := u32_add (st_attempts st) 1 in
  _ ← start_job disc st "e" n true;
  _ ← set (mkPatch None (Some ("no GPU free for " +:+ pretty (a_gpu_wait_minutes a) +:+ " min: encoding with " +:+ a_cpu_encoder a))
             None (Some n) None None None);
  mret 60%N.

(** One reconciliation of the Disc as read; the result is the requeue delay in seconds. *)
Definition apply (disc : Disc) : M N :=
  match disc_status disc with
  | None => mret 60%N
  | Some st =>
      if (st_observed_retry st <? spec_retry (disc_spec disc))%N then
        since ← now;
        _ ← set (mkPatch (Some (retry_phase st)) (Some "retrying") (Some since) None
                   (Some (spec_retry (disc_spec disc))) None None);
        mret 1%N
      else
        job ← match stage_of st with
              | None => mret None
              | Some stage => get_job (job_name disc stage st (st_attempts st))
              end;
        now ← clock;
        let lease_expired := bool_decide (st_phase st = BackingUp)
          && stale now (match st_heartbeat st with Some h => Some h | None => st_since st end) in
        let name := job_name disc "e" st (st_attempts st) in
        starved ← match job with
                  | Some j => if bool_decide (st_phase st = Encoding ∧ job_state job = Running)
                              then gpu_starved name j else mret false
                  | None => mret false
                  end;
        if (starved : bool) then move_to_cpu disc st name
        else act disc st (decide_next (disc_spec disc) st (job_state job) lease_expired)
  end.

(** Deleting a Disc removes its work dir. *)
Definition cleanup (disc : Disc) : M () :=
  match disc_status disc with
  | Some st => if bool_decide (st_fingerprint st = "") then mret ()
               else log (EvRemoveDir (a_work_root a +:+ "/" +:+ st_fingerprint st))
  | None => mret ()
  end.
End reconcile.

(** ** [housekeeping]: discs by phase, and drives whose agent stopped reporting *)

Definition phase_name (p : Phase) : string :=
  match p with
  | Detected => "Detected" | BackingUp => "BackingUp" | BackedUp => "BackedUp" | Held => "Held"
  | Encoding => "Encoding" | Encoded => "Encoded" | Publishing => "Publishing" | Done => "Done"
  | Failed => "Failed"
  end.
Definition disc_phase (d : Disc) : Phase := match disc_status d with Some s => st_phase s | None => Detected end.
Definition count_phase (counts : gmap string Z) (d : Disc) : gmap string Z :=
  <[phase_name (disc_phase d) := (default 0 (counts !! phase_name (disc_phase d)) + 1)%Z]> counts.
Definition phase_counts (discs : list Disc) : gmap string Z :=
  fold_left count_phase (filter (λ d, is_test d = false) discs)
    (list_to_map ((λ p, (phase_name p, 0%Z)) <$> [Detected; BackingUp; BackedUp; Held; Encoding; Encoded; Publishing; Done; Failed])).

Definition silent_drive `{Clock} (now : Z) (status : option DriveStatus) : option DriveStatus :=
  let st := default default_drive_status status in
  if bool_decide (dr_state st ≠ DriveError) && stale now (dr_heartbeat st)
  then Some (mkDriveStatus (dr_node st) (dr_device st) (dr_model st) (dr_serial st) DriveError (dr_disc st)
               (Some "agent not reporting") (dr_heartbeat st))
  else None.

(** ** Reasoning about runs *)

Lemma wp_call {A} (f : World → World * A) E Q w :
  (∀ o, E (with_oracle o w)) → (∀ o, E (f (with_oracle o w)).1) →
  (∀ o, Q (f (with_oracle o w)).2 (f (with_oracle o w)).1) → wp (call f) E Q w.
Proof.
  intros HR HL HO. unfold wp, call. destruct (w_oracle w) as [|o os] eqn:Eo.
  - specialize (HO []). assert (with_oracle [] w = w) as Hw by (destruct w; cbn in *; by subst).
    rewrite Hw in HO. by destruct (f w).
  - destruct o; [specialize (HO os); by destruct (f _)|apply HR|apply HL].
Qed.
Lemma wp_log e E Q w :
  Q () (mkWorld (w_disc w) (w_jobs w) (w_pods w) (w_now w) (w_oracle w) (e :: w_log w)) → wp (log e) E Q w.
Proof. done. Qed.
(** What a call leaves alone: the Disc and the Jobs. *)
Definition same (w w' : World) : Prop :=
  w_disc w' = w_disc w ∧ w_jobs w' = w_jobs w ∧ ∃ l, w_log w' = l ++ w_log w.
#[export] Instance same_preorder : PreOrder same.
Proof.
  split; [intros w; split; [done|]; split; [done|by exists []]|].
  intros w1 w2 w3 (E1 & F1 & l1 & G1) (E2 & F2 & l2 & G2).
  split; [congruence|]. split; [congruence|]. exists (l2 ++ l1). by rewrite <- app_assoc, G2, G1.
Qed.
Lemma same_oracle o w : same w (with_oracle o w).
Proof. split; [done|]. split; [done|by exists []]. Qed.
Lemma same_log e w : same w (mkWorld (w_disc w) (w_jobs w) (w_pods w) (w_now w) (w_oracle w) (e :: w_log w)).
Proof. split; [done|]. split; [done|by exists [e]]. Qed.
#[export] Hint Resolve same_oracle same_log : rust.

(** A program that only reads and reports. *)
Definition reads {A} (m : M A) : Prop := ∀ w, wp m (same w) (λ _, same w) w.
Lemma reads_ret {A} (a : A) : reads (mret a).
Proof. intros w. by apply wp_ret. Qed.
Lemma reads_bind {A B} (m : M A) (f : A → M B) : reads m → (∀ a, reads (f a)) → reads (m ≫= f).
Proof.
  intros Hm Hf w. apply wp_bind. eapply wp_mono; [apply Hm|done|]. intros a w' Hw'.
  eapply wp_mono; [apply Hf|..]; intros; (etrans; [exact Hw'|assumption]).
Qed.
Lemma reads_log e : reads (log e).
Proof. intros w. apply wp_log. auto with rust. Qed.
Lemma reads_call {A} (f : World → A) : reads (call (λ w, (w, f w))).
Proof. intros w. apply wp_call; cbn; auto with rust. Qed.
Lemma reads_ok {A} (m : M A) : reads m → reads (ok m).
Proof. intros Hm w. by apply wp_ok. Qed.
Lemma reads_clock : reads clock.
Proof. intros w. exact (reflexivity (R := same) w). Qed.
Lemma reads_now `{Clock} : reads now.
Proof. intros w. exact (reflexivity (R := same) w). Qed.
Lemma reads_each evs : reads (each evs).
Proof. induction evs; [apply reads_ret|]. cbn. apply reads_bind; [apply reads_log|done]. Qed.
Lemma reads_span st p b : reads (stage_span st p b).
Proof.
  unfold stage_span. destruct (st_phase st); try apply reads_ret;
    (apply reads_bind; [apply reads_log|intros _; case_bool_decide; [apply reads_log|apply reads_ret]]).
Qed.
Lemma wp_reads {A} (m : M A) (E : World → Prop) (Q : A → World → Prop) w :
  reads m → (∀ w', same w w' → E w') → (∀ a w', same w w' → Q a w') → wp m E Q w.
Proof. intros Hm HE HQ. eapply wp_mono; [apply Hm|done|done]. Qed.
#[export] Hint Resolve reads_ret reads_log reads_call reads_ok reads_clock reads_now reads_each reads_span : rust.

(** ** What one reconciliation can do *)

Section effects.
Context `{SerdeJson} `{Clock} (a : ControllerArgs) (env_var : string → option string).

Definition created (name : string) (j : Job) (jobs : gmap string Job) : gmap string Job :=
  match jobs !! name with Some _ => jobs | None => <[name := j]> jobs end.
(** A patch that starts attempt [n] (in phase [p], if it changes the phase). *)
Definition start_patch (p : option Phase) (n : N) (q : Patch) : Prop :=
  patch_phase q = p ∧ patch_attempts q = Some n ∧ patch_observed_retry q = None ∧
  patch_encode_key q = None ∧ patch_publish_key q = None.
Definition current_job (disc : Disc) (st : DiscStatus) (jobs : gmap string Job) : option Job :=
  stage ← stage_of st; jobs !! job_name disc stage st (st_attempts st).

(** The status and the Jobs after [apply] on the Disc [disc] with status [st]; [evs] is the log. *)
Inductive effect (disc : Disc) (st : DiscStatus) (jobs : gmap string Job) (evs : list Event)
    : DiscStatus → gmap string Job → Prop :=
  | eff_none : effect disc st jobs evs st jobs
  | eff_retry since :
      (st_observed_retry st < spec_retry (disc_spec disc))%N →
      effect disc st jobs evs
        (merge_status (mkPatch (Some (retry_phase st)) (Some "retrying") (Some since) None
                         (Some (spec_retry (disc_spec disc))) None None) st) jobs
  | eff_phase lease p msg q :
      decide_next (disc_spec disc) st (job_state (current_job disc st jobs)) lease = SetPhase p msg →
      patch_phase q = Some p → patch_attempts q = None → patch_observed_retry q = None →
      patch_encode_key q = (if bool_decide (p = Encoded) then Some (encode_key (disc_spec disc)) else None) →
      patch_publish_key q = (if bool_decide (p = Done) then Some (publish_key (disc_spec disc)) else None) →
      effect disc st jobs evs (merge_status q st) jobs
  | eff_fail lease msg since :
      decide_next (disc_spec disc) st (job_state (current_job disc st jobs)) lease = Fail msg →
      effect disc st jobs evs (merge_status (to_phase Failed (Some msg) since) st) jobs
  | eff_start next p stage j q :
      (next, p, stage) ∈ [(StartEncode, Encoding, "e"); (StartPublish, Publishing, "p")] →
      (∃ job lease, decide_next (disc_spec disc) st job lease = next) →
      job_state (Some j) = Running →
      start_patch (Some p) (u32_add (st_attempts st) 1) q →
      ∀ st', st' ∈ [st; merge_status q st] →
      effect disc st jobs evs st'
        (created (job_name disc stage st (u32_add (st_attempts st) 1)) j jobs)
  | eff_move j j' jobs1 jobs2 q st' :
      st_phase st = Encoding → jobs !! job_name disc "e" st (st_attempts st) = Some j →
      job_state (Some j) = Running → job_state (Some j') = Running →
      jobs1 = delete (job_name disc "e" st (st_attempts st)) jobs ∨
        (jobs1 = jobs ∧ EvDeleteFailed (job_name disc "e" st (st_attempts st)) ∈ evs) →
      jobs2 ∈ [jobs1; created (job_name disc "e" st (u32_add (st_attempts st) 1)) j' jobs1] →
      start_patch None (u32_add (st_attempts st) 1) q →
      st' ∈ [st; merge_status q st] →
      (st' ≠ st → jobs2 = created (job_name disc "e" st (u32_add (st_attempts st) 1)) j' jobs1) →
      effect disc st jobs evs st' jobs2.

Definition effects (disc : Disc) (st : DiscStatus) (w w' : World) : Prop :=
  ∃ st', w_disc w' = with_status st' disc ∧ effect disc st (w_jobs w) (w_log w') st' (w_jobs w').

Lemma with_status_id disc st : disc_status disc = Some st → with_status st disc = disc.
Proof. destruct disc; cbn. by intros ->. Qed.

Lemma job_spec_running disc st stage n cpu j :
  (job_spec a env_var disc st stage n cpu).2 = j → job_state (Some j) = Running.
Proof. by intros <-. Qed.

Lemma wp_set (disc : Disc) st q E Q w :
  w_disc w = disc → disc_status disc = Some st →
  (∀ w', same w w' → E w') →
  (∀ w', w_disc w' = with_status (merge_status q st) disc → w_jobs w' = w_jobs w → w_log w' = w_log w →
         E w' ∧ Q () w') →
  wp (set q) E Q w.
Proof.
  intros Hd Hs HE HQ. apply wp_call; cbn.
  - intros o. auto with rust.
  - intros o. apply HQ; cbn; [|done..]. by rewrite Hd, Hs.
  - intros o. apply HQ; cbn; [|done..]. by rewrite Hd, Hs.
Qed.
Lemma wp_start_job disc st stage n cpu E Q w :
  (∀ w', same w w' → E w') →
  (∀ w' j, job_state (Some j) = Running → w_disc w' = w_disc w → w_log w' = w_log w →
     w_jobs w' = created (job_name disc stage st n) j (w_jobs w) → E w' ∧ Q () w') →
  wp (start_job a env_var disc st stage n cpu) E Q w.
Proof.
  intros HE HQ. unfold start_job. destruct (job_spec a env_var disc st stage n cpu) as [name j] eqn:Ej.
  assert (name = job_name disc stage st n) as -> by (unfold job_spec in Ej; congruence).
  assert (job_state (Some j) = Running) as Hj.
  { apply (job_spec_running disc st stage n cpu). by rewrite Ej. }
  assert (∀ o, let w' := (match w_jobs w !! job_name disc stage st n with
     | Some _ => (with_oracle o w, false)
     | None => (with_jobs (<[job_name disc stage st n:=j]> (w_jobs w)) (with_oracle o w), true) end).1 in E w' ∧ Q () w') as Hc.
  { intros o w'. apply (HQ w' j Hj); unfold w', created; by destruct (w_jobs w !! _). }
  apply wp_bind. apply wp_call; cbn; [auto with rust|intros o; apply Hc|].
  intros o. exact (proj2 (Hc o)).
Qed.

Section run.
Context (disc : Disc) (st : DiscStatus) (w0 : World).
Context (Hdisc : w_disc w0 = disc) (Hst : disc_status disc = Some st).

Lemma effects_none w : same w0 w → effects disc st w0 w.
Proof using Hdisc Hst.
  intros (Ed & Ej & _). exists st. rewrite Ed, Ej, with_status_id by done. split; [done|constructor].
Qed.

(** A status patch with an allowed effect. *)
Lemma wp_set_effect q w :
  same w0 w → (∀ evs, effect disc st (w_jobs w0) evs (merge_status q st) (w_jobs w0)) →
  wp (set q) (effects disc st w0) (λ _, effects disc st w0) w.
Proof using Hdisc Hst.
  intros Hw Hq. pose proof Hw as (Ed & Ej & _).
  eapply (wp_set disc st); [congruence|done|intros w' Hw'; apply effects_none; by etrans|].
  intros w' Hd Hj _. assert (effects disc st w0 w'); [|done].
  exists (merge_status q st). rewrite Hd, Hj, Ej. done.
Qed.
Lemma wp_reads_effect {A} (m : M A) (Q : A → World → Prop) w :
  same w0 w → reads m → (∀ x w', same w0 w' → Q x w') → wp m (effects disc st w0) Q w.
Proof using Hdisc Hst.
  intros Hw Hm HQ. eapply wp_reads; [done|intros w' Hw'; apply effects_none; by etrans|].
  intros x w' Hw'. apply HQ. by etrans.
Qed.

Definition phase_ok (p : Phase) (q : Patch) : Prop :=
  patch_phase q = Some p ∧ patch_attempts q = None ∧ patch_observed_retry q = None ∧
  patch_encode_key q = (if bool_decide (p = Encoded) then Some (encode_key (disc_spec disc)) else None) ∧
  patch_publish_key q = (if bool_decide (p = Done) then Some (publish_key (disc_spec disc)) else None).
Lemma phase_patch_ok p msg since t w :
  wp (phase_patch disc st p msg since t) (same w) (λ q w', same w w' ∧ phase_ok p q) w.
Proof.
  assert (∀ E q, phase_ok p q → wp (F := Error) (mret q) E (λ q w', same w w' ∧ phase_ok p q) w) as Hr
    by (intros E q Hq; by apply wp_ret).
  unfold phase_patch. destruct p; try (by apply Hr).
  - apply wp_bind, wp_log, wp_ret. split; [apply same_log|done].
  - apply wp_bind. eapply wp_reads; [by destruct (st_summary st); auto with rust|done|]. intros _ w1 H1.
    apply wp_bind. eapply wp_reads; [apply reads_each|intros; by etrans|]. intros _ w2 H2.
    apply wp_bind, wp_log, wp_ret. split; [|done]. etrans; [exact H1|]. etrans; [exact H2|apply same_log].
Qed.

Lemma set_phase_effect lease p msg w :
  same w0 w → decide_next (disc_spec disc) st (job_state (current_job disc st (w_jobs w0))) lease = SetPhase p msg →
  wp (set_phase disc st p msg) (effects disc st w0) (λ _, effects disc st w0) w.
Proof using Hdisc Hst.
  intros Hw Hn. unfold set_phase.
  apply wp_bind, wp_reads_effect; [done|auto with rust|]. intros since w1 H1.
  apply wp_bind, wp_reads_effect; [done|auto with rust|]. intros t w2 H2.
  apply wp_bind. eapply wp_mono; [apply phase_patch_ok|intros w' ?; apply effects_none; by etrans|].
  intros q w3 [H3 (Q1 & Q2 & Q3 & Q4 & Q5)]. assert (same w0 w3) as H3' by by etrans.
  apply wp_bind, wp_reads_effect; [done|auto with rust|]. intros _ w4 H4.
  apply wp_bind. eapply wp_mono; [apply wp_set_effect; [done|]|done|done].
  intros evs. by eapply eff_phase.
Qed.

Lemma fail_effect lease msg w :
  same w0 w → decide_next (disc_spec disc) st (job_state (current_job disc st (w_jobs w0))) lease = Fail msg →
  wp (fail disc st msg) (effects disc st w0) (λ _, effects disc st w0) w.
Proof using Hdisc Hst.
  intros Hw Hn. unfold fail.
  apply wp_bind, wp_reads_effect; [done|auto with rust|]. intros _ w1 H1.
  apply wp_bind, wp_reads_effect; [done|auto with rust|]. intros _ w2 H2.
  apply wp_bind, wp_reads_effect; [done|auto with rust|]. intros _ w3 H3.
  apply wp_bind, wp_reads_effect; [done|auto with rust|]. intros since w4 H4.
  apply wp_bind. eapply wp_mono; [apply wp_set_effect; [done|]|done|done].
  intros evs. by eapply eff_fail.
Qed.

(** Starting a Job and then recording it, cut anywhere. *)
Lemma start_effect next p stage q (k : M N) w :
  same w0 w → (next, p, stage) ∈ [(StartEncode, Encoding, "e"); (StartPublish, Publishing, "p")] →
  (∃ job lease, decide_next (disc_spec disc) st job lease = next) →
  (∀ since, start_patch (Some p) (u32_add (st_attempts st) 1) (q since)) → reads k →
  wp (_ ← start_job a env_var disc st stage (u32_add (st_attempts st) 1) false;
      since ← now; _ ← set (q since); k)
     (effects disc st w0) (λ _, effects disc st w0) w.
Proof using Hdisc Hst.
  intros Hw Hin Hn Hq Hk. pose proof Hw as (Ed & Ej & _).
  apply wp_bind, wp_start_job; [intros w' ?; apply effects_none; by etrans|].
  intros w1 j Hj Hd1 _ Hj1.
  assert (∀ w', same w1 w' → effects disc st w0 w') as Hnone.
  { intros w' (Ed' & Ej' & _). exists st. rewrite Ed', Hd1, Ed, Ej', Hj1, Ej, Hdisc, with_status_id by done.
    split; [done|]. eapply (eff_start _ _ _ _ next p stage j (q "")); [done..|left]. }
  split; [by apply Hnone|]. apply wp_bind.
  eapply wp_reads; [apply reads_now|exact Hnone|]. intros since w2 H2. pose proof H2 as (Ed2 & Ej2 & _).
  apply wp_bind. eapply (wp_set disc st); [congruence|done|intros w' ?; apply Hnone; by etrans|].
  intros w3 Hd3 Hj3 _.
  assert (∀ w', same w3 w' → effects disc st w0 w') as Hdone.
  { intros w' (Ed' & Ej' & _). exists (merge_status (q since) st). rewrite Ed', Ej', Hj3, Ej2, Hj1, Ej. split; [done|].
    eapply (eff_start _ _ _ _ next p stage j (q since)); [done..|]. right. left. }
  split; [by apply Hdone|]. eapply wp_reads; [exact Hk|exact Hdone|intros _; exact Hdone].
Qed.

Lemma start_encode_effect job lease w :
  same w0 w → decide_next (disc_spec disc) st job lease = StartEncode →
  wp (start_encode a env_var disc st) (effects disc st w0) (λ _, effects disc st w0) w.
Proof using Hdisc Hst.
  intros Hw Hn. unfold start_encode. apply wp_bind, wp_reads_effect; [done|unfold running; auto with rust|].
  intros r w1 H1. case_match; [by apply wp_ret, effects_none|].
  eapply (start_effect StartEncode Encoding "e" (λ since, mkPatch (Some Encoding) (Some "encoding") (Some since)
    (Some (u32_add (st_attempts st) 1)) None None None)); [done|left|by eauto|done|apply reads_ret].
Qed.
Lemma start_publish_effect job lease w :
  same w0 w → decide_next (disc_spec disc) st job lease = StartPublish →
  wp (start_publish a env_var disc st) (effects disc st w0) (λ _, effects disc st w0) w.
Proof using Hdisc Hst.
  intros Hw Hn. unfold start_publish.
  eapply (start_effect StartPublish Publishing "p" (λ since, mkPatch (Some Publishing) None (Some since)
    (Some (u32_add (st_attempts st) 1)) None None None)); [done|right; left|by eauto|done|apply reads_ret].
Qed.

Lemma gpu_starved_reads name j : reads (gpu_starved a name j).
Proof.
  unfold gpu_starved. case_match; [apply reads_ret|].
  apply reads_bind; [apply reads_ok, reads_call|]. intros pods.
  apply reads_bind; [apply reads_clock|]. intros t. apply reads_ret.
Qed.

Lemma move_effect j w :
  same w0 w → st_phase st = Encoding → w_jobs w0 !! job_name disc "e" st (st_attempts st) = Some j →
  job_state (Some j) = Running →
  wp (move_to_cpu a env_var disc st (job_name disc "e" st (st_attempts st)))
     (effects disc st w0) (λ _, effects disc st w0) w.
Proof using Hdisc Hst.
  intros Hw Hp Hl Hr. pose proof Hw as (Ed & Ej & _). unfold move_to_cpu.
  set (name := job_name disc "e" st (st_attempts st)) in *.
  set (n := u32_add (st_attempts st) 1).
  (* after the delete: gone, or the failure is on record *)
  set (deleted := λ w' : World, w_disc w' = disc ∧
    (w_jobs w' = delete name (w_jobs w0) ∨ w_jobs w' = w_jobs w0 ∧ EvDeleteFailed name ∈ w_log w')).
  assert (∀ w1 w2 st' q j', deleted w1 → job_state (Some j') = Running →
    w_disc w2 = with_status st' disc → (∃ l, w_log w2 = l ++ w_log w1) →
    w_jobs w2 ∈ [w_jobs w1; created (job_name disc "e" st n) j' (w_jobs w1)] →
    start_patch None n q → st' ∈ [st; merge_status q st] →
    (st' ≠ st → w_jobs w2 = created (job_name disc "e" st n) j' (w_jobs w1)) → effects disc st w0 w2) as Hfin.
  { intros w1 w2 st' q j' [_ Hdel] Hj' Ed2 [l El2] Hin Hq Hst' Hne. exists st'. split; [done|].
    eapply (eff_move _ _ _ _ j j' (w_jobs w1) (w_jobs w2) q); try done.
    rewrite El2. destruct Hdel as [->|[-> ?]]; [by left|right]. split; [done|]. apply elem_of_app. by right. }
  apply wp_bind. apply (wp_mono _ (λ _, False) _ (λ _, deleted) _); [|done|].
  { unfold delete_ignoring. apply wp_bind, wp_ok, wp_call; cbn.
    - intros o. split; cbn; [congruence|]. right. split; [done|left].
    - intros o. split; cbn; [congruence|]. left. by rewrite Ej.
    - intros o. split; cbn; [congruence|]. left. by rewrite Ej. }
  intros _ w1 Hdel. pose proof Hdel as [Ed1 _].
  set (q := mkPatch None (Some ("no GPU free for " +:+ pretty (a_gpu_wait_minutes a) +:+ " min: encoding with " +:+ a_cpu_encoder a))
             None (Some n) None None None).
  assert (with_status st disc = disc) as Hid by (by apply with_status_id).
  apply wp_bind, wp_start_job.
  { intros w2 (Ed2 & Ej2 & El2). eapply (Hfin w1 w2 st q j); [done|done|congruence|done| |done|left|done].
    rewrite Ej2. left. }
  intros w2 j' Hj' Ed2 El2 Ej2.
  assert (∀ w3, same w2 w3 → effects disc st w0 w3) as Hnone.
  { intros w3 (Ed3 & Ej3 & l & El3). eapply (Hfin w1 w3 st q j'); [done|done|congruence| | |done|left|congruence].
    - exists l. congruence.
    - rewrite Ej3, Ej2. right. left. }
  split; [by apply Hnone|]. apply wp_bind.
  eapply (wp_set disc st); [congruence|done|exact Hnone|].
  intros w3 Ed3 Ej3 El3.
  assert (effects disc st w0 w3); [|by split; [|apply wp_ret]].
  eapply (Hfin w1 w3 _ q j'); [done|done|exact Ed3| | |done|right; left|congruence].
  - exists []. cbn. congruence.
  - rewrite Ej3, Ej2. right. left.
Qed.

Lemma act_effect lease w :
  same w0 w →
  wp (act a env_var disc st (decide_next (disc_spec disc) st (job_state (current_job disc st (w_jobs w0))) lease))
     (effects disc st w0) (λ _, effects disc st w0) w.
Proof using Hdisc Hst.
  intros Hw. destruct (decide_next _ _ _ _) as [d|p msg| | |msg] eqn:Hn; cbn [act].
  - apply wp_ret. by apply effects_none.
  - by eapply set_phase_effect.
  - by eapply start_encode_effect.
  - by eapply start_publish_effect.
  - by eapply fail_effect.
Qed.

Lemma apply_run : wp (apply a env_var disc) (effects disc st w0) (λ _, effects disc st w0) w0.
Proof using Hdisc Hst.
  unfold apply. rewrite Hst. destruct (N.ltb_spec (st_observed_retry st) (spec_retry (disc_spec disc))) as [Hr|Hr].
  { apply wp_bind, wp_reads_effect; [done|auto with rust|]. intros since w1 H1.
    apply wp_bind. eapply wp_mono; [apply wp_set_effect; [done|]|done|done].
    intros evs. by apply eff_retry. }
  apply wp_bind. apply (wp_mono _ (same w0) _ (λ job w', job = current_job disc st (w_jobs w0) ∧ same w0 w') _).
  { unfold current_job. destruct (stage_of st) as [stage|]; [|by apply wp_ret].
    apply wp_call; cbn; auto with rust. }
  { apply effects_none. }
  intros job w1 [-> H1]. apply wp_bind, wp_reads_effect; [done|auto with rust|]. intros t w2 H2.
  assert (∀ x w', same w0 w' →
    wp (act a env_var disc st (decide_next (disc_spec disc) st (job_state (current_job disc st (w_jobs w0))) x))
     (effects disc st w0) (λ _, effects disc st w0) w') as Hact by (intros; by apply act_effect).
  apply wp_bind. destruct (current_job disc st (w_jobs w0)) as [j|] eqn:Ej; [|by apply wp_ret, Hact].
  case_bool_decide as Hrun; [|by apply wp_ret, Hact]. destruct Hrun as [Hp Hrun].
  apply wp_reads_effect; [done|apply gpu_starved_reads|]. intros [] w3 H3; [|by apply Hact].
  eapply move_effect; [done|done| |exact Hrun]. unfold current_job, stage_of in Ej. by rewrite Hp in Ej.
Qed.
End run.

Lemma apply_effects w st :
  disc_status (w_disc w) = Some st → effects (w_disc w) st w (apply a env_var (w_disc w) w).1.
Proof. intros Hst. by apply wp_result, apply_run. Qed.

(** ** The phase machine *)

(** The moves of the phase machine, with the condition for each. *)
Inductive edge (spec : DiscSpec) (st : DiscStatus) (job : JobState) : Phase → Phase → Prop :=
  | edge_stay p : edge spec st job p p
  | edge_hold : spec_hold spec = true → edge spec st job BackedUp Held
  | edge_release : spec_hold spec = false → edge spec st job Held BackedUp
  | edge_encode : spec_hold spec = false → edge spec st job BackedUp Encoding
  | edge_encoded : job = Succeeded → edge spec st job Encoding Encoded
  | edge_encode_failed : job = JobFailed → edge spec st job Encoding Failed
  | edge_encode_lost : job = Missing → edge spec st job Encoding BackedUp
  | edge_publish : edge spec st job Encoded Publishing
  | edge_published : job = Succeeded → edge spec st job Publishing Done
  | edge_publish_failed : job = JobFailed → edge spec st job Publishing Failed
  | edge_publish_lost : job = Missing → edge spec st job Publishing Encoded
  | edge_reencode : st_encode_key st ≠ Some (encode_key spec) → edge spec st job Done BackedUp
  | edge_republish : st_publish_key st ≠ Some (publish_key spec) → edge spec st job Done Encoded
  | edge_interrupted : edge spec st job BackingUp Failed
  | edge_retry_backed_up : (st_observed_retry st < spec_retry spec)%N → is_Some (st_backup st) →
      edge spec st job Failed BackedUp
  | edge_retry_detected : (st_observed_retry st < spec_retry spec)%N → st_backup st = None →
      edge spec st job Failed Detected.

Lemma decide_edge spec st job lease :
  match decide_next spec st job lease with
  | SetPhase p _ => edge spec st job (st_phase st) p
  | StartEncode => st_phase st = BackedUp ∧ edge spec st job BackedUp Encoding
  | StartPublish => st_phase st = Encoded
  | Fail _ => edge spec st job (st_phase st) Failed
  | Wait _ => True
  end.
Proof.
  unfold decide_next, key_is. destruct (st_phase st) eqn:Ep, job; cbn;
    repeat case_match; bool_prop; simplify_eq; try constructor; try done; by constructor.
Qed.

Lemma effect_edge disc st jobs evs st' jobs' :
  effect disc st jobs evs st' jobs' →
  edge (disc_spec disc) st (job_state (current_job disc st jobs)) (st_phase st) (st_phase st').
Proof.
  intros He. destruct He as [|since Hr|lease p msg q Hd Hp|lease msg since Hd
    |next p stage j q Hin (job & lease & Hd) Hj Hq st' Hst'|j j' jobs1 jobs2 q st' Hp _ _ _ _ _ Hq Hst' _].
  - constructor.
  - cbn. unfold retry_phase. case_bool_decide as Hf; [constructor|].
    destruct (decide (st_phase st = Failed)) as [->|?]; [|done].
    destruct (st_backup st) eqn:E; [by apply edge_retry_backed_up|by apply edge_retry_detected].
  - pose proof (decide_edge (disc_spec disc) st (job_state (current_job disc st jobs)) lease) as H'.
    rewrite Hd in H'. cbn. by rewrite Hp.
  - pose proof (decide_edge (disc_spec disc) st (job_state (current_job disc st jobs)) lease) as H'.
    by rewrite Hd in H'.
  - rewrite !elem_of_cons in Hst'. destruct Hst' as [->|[->|Hst']]; [constructor| |by apply not_elem_of_nil in Hst'].
    destruct Hq as (Hq & _). cbn. rewrite Hq. cbn.
    pose proof (decide_edge (disc_spec disc) st job lease) as H'. rewrite Hd in H'.
    rewrite !elem_of_cons in Hin. destruct Hin as [[= -> -> ->]|[[= -> -> ->]|Hin]]; [| |by apply not_elem_of_nil in Hin].
    + destruct H' as [-> H']. inversion H'; subst; by constructor.
    + rewrite H'. constructor.
  - rewrite !elem_of_cons in Hst'. destruct Hst' as [->|[->|Hst']]; [constructor| |by apply not_elem_of_nil in Hst'].
    destruct Hq as (Hq & _). cbn. rewrite Hq. constructor.
Qed.

(** C8: one reconciliation moves a Disc along an edge of the phase machine or not at all, whichever
    API calls fail, and changes neither the backup, the titles nor what is published. *)
Theorem apply_edge w st :
  disc_status (w_disc w) = Some st →
  ∃ st', w_disc (apply a env_var (w_disc w) w).1 = with_status st' (w_disc w) ∧
    edge (disc_spec (w_disc w)) st (job_state (current_job (w_disc w) st (w_jobs w))) (st_phase st) (st_phase st') ∧
    st_backup st' = st_backup st ∧ st_titles st' = st_titles st ∧ st_published st' = st_published st.
Proof.
  intros (st' & Hd & He)%apply_effects. exists st'. split; [done|]. split; [by eapply effect_edge|].
  destruct He; try done.
  all: match goal with Hin : ?x ∈ [_; _] |- context [st_backup ?x] =>
         rewrite !elem_of_cons in Hin; destruct Hin as [->|[->|Hin]]; [done|done|by apply not_elem_of_nil in Hin] end.
Qed.
End effects.

(** What a Job can touch: only a publish Job mounts media-movies, an encode Job has media-dvd
    read-only, and a GPU is asked for exactly by an encode with an NVENC encoder. *)
Theorem job_spec_access a env_var disc st stage n cpu :
  let pod := (job_pod_spec (job_spec a env_var disc st stage n cpu).2).["template"].["spec"] in
  (∃ vs, pod.["volumes"] = Array vs ∧ ((∃ v, v ∈ vs ∧ v.["name"] = Str "movies") ↔ stage = "p")) ∧
  (∃ c vs, pod.["containers"] = Array [c] ∧ c.["volumeMounts"] = Array vs ∧
    (∀ v, v ∈ vs → v.["name"] = Str "dvd" → v.["readOnly"] = Bool (bool_decide (stage = "e"))) ∧
    (c.["resources"].["limits"].["nvidia.com/gpu"] = Str "1" ↔
     stage = "e" ∧ is_nvenc (if cpu then a_cpu_encoder a else a_encoder a) = true)).
Proof.
  assert (String.eqb stage "e" = bool_decide (stage = "e")) as Ee.
  { destruct (String.eqb_spec stage "e"); case_bool_decide; done. }
  set (gpu := String.eqb stage "e" && is_nvenc (if cpu then a_cpu_encoder a else a_encoder a)).
  intros pod. split.
  - exists (pod_volumes a stage). split; [subst pod; unfold job_spec; cbn [snd job_pod_spec]; fold gpu; by destruct gpu|].
    unfold pod_volumes. destruct (String.eqb_spec stage "p") as [->|Hp].
    + split; [done|]. intros _. exists (pvc_volume "movies" (a_movies_pvc a)). split; [|done].
      apply elem_of_app. right. left.
    + split; [|done]. rewrite app_nil_r. intros (v & Hv & Hn). exfalso.
      rewrite !elem_of_cons in Hv. destruct Hv as [->|[->|[->|Hv]]]; [done..|by apply not_elem_of_nil in Hv].
  - eexists _, (pod_mounts stage). split; [reflexivity|]. split; [done|]. split.
    + unfold pod_mounts. rewrite Ee. intros v Hv Hn. apply elem_of_app in Hv as [Hv|Hv].
      * rewrite !elem_of_cons in Hv. destruct Hv as [->|[->|[->|Hv]]]; [done..|by apply not_elem_of_nil in Hv].
      * destruct (String.eqb stage "p"); [apply list_elem_of_singleton in Hv as ->; done|by apply not_elem_of_nil in Hv].
    + cbn. unfold gpu. rewrite Ee.
      destruct (is_nvenc _), (bool_decide_reflect (stage = "e")) as [Hs|Hs]; cbn; split; try done; by intros [? ?].
Qed.

(** ** A concrete clock, and the witnesses *)

Definition test_clock : Clock := {|
  format_time := pretty;
  parse_time := λ s, Z.of_N <$> parse_u64 s;
|}.
Definition test_args : ControllerArgs :=
  mkControllerArgs "media" "img" 2 "nvenc_h264" "x264" 30 "w" "d" "m" "sa" None "j" "/work".
Definition test_backup : Backup := mkBackup "makemkv" 1 1 0 "sha".
Definition test_status (p : Phase) : DiscStatus :=
  mkDiscStatus p None "X" "abc" None 1 0 (Some test_backup) None false [] [] None None None None None None None.
Definition test_disc_spec : DiscSpec := mkDiscSpec "X" 1 None false ∅ false 0.
Definition test_disc (spec : DiscSpec) (st : DiscStatus) : Disc :=
  mkDisc "elf-abc" (Some "media") None "u" spec (Some st).
Definition test_world (spec : DiscSpec) (st : DiscStatus) : World := mkWorld (test_disc spec st) ∅ [] 0 [] [].

(** [jobs_ask_for_the_gpu_only_for_nvenc] *)
Example test_job_names :
  (job_spec test_args (λ _, None) (test_disc test_disc_spec (test_status BackedUp)) (test_status BackedUp) "e" 1 false).1
  = "dvd-e-abc-1".
Proof. vm_compute. done. Qed.
Example phase_machine :
  let d p j l := decide_next (H := Json.Reference.serde) test_disc_spec (test_status p) j l in
  d BackedUp Missing false = StartEncode ∧ d Encoding Succeeded false = SetPhase Encoded None ∧
  d Encoded Missing false = StartPublish ∧ d Publishing Succeeded false = SetPhase Done None ∧
  d BackingUp Missing false = Wait 60.
Proof. vm_compute. done. Qed.

Lemma apply_edge_witness :
  let a := test_args in let w := test_world test_disc_spec (test_status BackedUp) in
  ∃ st', w_disc (apply (H := Json.Reference.serde) (H0 := test_clock) a (λ _, None) (w_disc w) w).1
         = with_status st' (w_disc w) ∧ st_phase st' = Encoding.
Proof.
  intros a w.
  destruct (apply_edge (H := Json.Reference.serde) (H0 := test_clock) a (λ _, None) w (test_status BackedUp) eq_refl)
    as (st' & Hd & _). exists st'. split; [exact Hd|].
  assert (st_phase <$> disc_status (w_disc (apply (H := Json.Reference.serde) (H0 := test_clock) a (λ _, None) (w_disc w) w).1)
    = Some Encoding) as E by (vm_compute; reflexivity).
  rewrite Hd in E. by injection E.
Defined.
