(* ===== verification/Lifecycle.v ===== *)
(** * The life of a Disc: the controller among the other actors

    A step relation for one Disc: reconciliations ([Controller.apply], with any API failures), Jobs
    that finish, expire or report, spec edits, and the agent of [apps/dvdrip/src/agent.rs] that
    takes the disc in a drive. The invariant says that at most one of the Disc's Jobs is unfinished;
    the liveness theorem follows a disc from BackedUp to Done; [spec_edits_rerun] says what an edit of a
    finished disc brings about. [cached] says which Discs a reconciliation may see, the current one or one
    that the watch cache still shows. *)

From Stdlib Require Import Ascii.
From stdpp Require Import options relations.
From S2P Require Import Prelude F64 Json Crd State Controller.

(** ** The agent's decision for a disc it knows ([Agent::handle]) *)

(** [wants_rerip] *)
Definition wants_rerip (rerip : list string) (fp : string) (st : DiscStatus) : bool :=
  existsb (λ f, String.eqb (trim f) fp) rerip
  && match st_backup st with Some b => String.eqb (method b) "import" | None => false end.

Inductive Handling : Type := ReadMissing | AlreadyRipped | OtherDrive | Rip.

(** [raw_map]: the rescue's map is in the work dir; [drive]: this drive; [alive]: the drive named in
    the status still reports. *)
Definition handle_existing (rerip : list string) (drive : string) (raw_map alive : bool) (fp : string) (st : DiscStatus) : Handling :=
  let rescue := match st_damage st with Some d => rescue_pending d | None => false end && raw_map in
  if rescue then ReadMissing
  else if match st_backup st with Some _ => true | None => false end && negb (wants_rerip rerip fp st)
  then AlreadyRipped
  else if bool_decide (st_phase st = BackingUp) && negb (bool_decide (st_drive st = Some drive)) && alive
  then OtherDrive
  else Rip.

Definition agent_starts (rerip : list string) (drive : string) (raw_map alive : bool) (fp : string) (st : DiscStatus) : bool :=
  match handle_existing rerip drive raw_map alive fp st with ReadMissing | Rip => true | _ => false end.

(** The status the agent writes when it starts and when it is done. *)
Definition agent_start (label fp drive message since : string) (st : DiscStatus) : DiscStatus :=
  mkDiscStatus BackingUp (Some message) label fp (Some drive) (u32_add (st_attempts st) 1)
    (st_observed_retry st) (st_backup st) (st_damage st) (st_protected st) (st_titles st) (st_warnings st)
    (st_published st) (st_encoded_generation st) (st_summary st) (Some since) (st_encode_key st) (st_publish_key st)
    (st_heartbeat st).
Definition agent_done (b : Backup) (dmg : option Damage) (message drive since : string) (st : DiscStatus) : DiscStatus :=
  mkDiscStatus BackedUp (Some message) (st_label st) (st_fingerprint st) (Some drive) (st_attempts st)
    (st_observed_retry st) (Some b) dmg (st_protected st) (st_titles st) (st_warnings st)
    (st_published st) (st_encoded_generation st) (st_summary st) (Some since) (st_encode_key st) (st_publish_key st)
    (st_heartbeat st).
Definition agent_failed (message since : string) (st : DiscStatus) : DiscStatus :=
  merge_status (to_phase Failed (Some message) since) st.

Definition with_spec (spec : DiscSpec) (d : Disc) : Disc :=
  mkDisc (disc_name d) (disc_namespace d) (disc_labels d) (disc_uid d) spec (disc_status d).
Definition set_status (st : DiscStatus) (w : World) : World := with_disc (with_status st (w_disc w)) w.
Definition with_job_status (js : JobStatus) (j : Job) : Job :=
  mkJob (job_labels j) (job_owner j) (job_pod_spec j) (Some js).

(** The two stages a Disc has Jobs for. *)
Inductive Stage : Type := Enc | Pub.
#[export] Instance Stage_eq_dec : EqDecision Stage.
Proof. solve_decision. Defined.
Definition stage_name (s : Stage) : string := match s with Enc => "e" | Pub => "p" end.
Definition stage_phase (s : Stage) : Phase := match s with Enc => Encoding | Pub => Publishing end.

Section lifecycle.
Context `{SerdeJson} `{Clock} (a : ControllerArgs) (env_var : string → option string).
Context (rerip : list string).
(** What the controller's watch cache may hold of the Disc when a reconciliation starts. *)
Context (cached : World → Disc → Prop).

(** The name of the Disc's Job number [n] of a stage. *)
Definition key (w : World) (s : Stage) (n : N) : string :=
  job_name (w_disc w) (stage_name s) (default default_disc_status (disc_status (w_disc w))) n.

(** The phases in which the controller has no Job for the disc and an agent may work on it. *)
Definition unclaimed (p : Phase) : Prop := p = Detected ∨ p = BackingUp ∨ p = Failed.

(** Fields a Job's report leaves alone. *)
Definition same_control (st st' : DiscStatus) : Prop :=
  st_phase st' = st_phase st ∧ st_fingerprint st' = st_fingerprint st ∧ st_attempts st' = st_attempts st ∧
  st_observed_retry st' = st_observed_retry st ∧ st_backup st' = st_backup st ∧ st_damage st' = st_damage st ∧
  st_encode_key st' = st_encode_key st ∧ st_publish_key st' = st_publish_key st.

Inductive step (w : World) : World → Prop :=
  (** the controller, from the Disc in its cache, with any fate for its API calls and any pods *)
  | step_reconcile disc o pods t : cached w disc →
      step w (apply a env_var disc (mkWorld (w_disc w) (w_jobs w) pods t o (w_log w))).1
  | step_job_ends s n j js :
      w_jobs w !! key w s n = Some j → job_state (Some j) = Running →
      job_state (Some (with_job_status js j)) ≠ Running →
      step w (with_jobs (<[key w s n := with_job_status js j]> (w_jobs w)) w)
  | step_job_expires s n j :
      w_jobs w !! key w s n = Some j → job_state (Some j) ≠ Running →
      step w (with_jobs (delete (key w s n) (w_jobs w)) w)
  | step_job_reports st st' :
      disc_status (w_disc w) = Some st → same_control st st' → step w (set_status st' w)
  | step_edit spec : step w (with_disc (with_spec spec (w_disc w)) w)
  (** Jobs of other discs come and go *)
  | step_others jobs :
      (∀ s n, jobs !! key w s n = w_jobs w !! key w s n) → step w (with_jobs jobs w)
  | step_agent_start st label drive message since raw_map alive :
      disc_status (w_disc w) = Some st →
      agent_starts rerip drive raw_map alive (st_fingerprint st) st = true →
      step w (set_status (agent_start label (st_fingerprint st) drive message since st) w)
  (** an agent that lost its lease may still finish, as long as the disc has not moved on *)
  | step_agent_done st b dmg message drive since :
      disc_status (w_disc w) = Some st → unclaimed (st_phase st) →
      step w (set_status (agent_done b dmg message drive since st) w)
  | step_agent_failed st message since :
      disc_status (w_disc w) = Some st → unclaimed (st_phase st) →
      step w (set_status (agent_failed message since st) w).

(** Job [n] of stage [s] exists and has not finished. *)
Definition live (w : World) (s : Stage) (n : N) : Prop :=
  ∃ j, w_jobs w !! key w s n = Some j ∧ job_state (Some j) = Running.

(** Nothing unusual: no rescue is pending, the disc was not imported, no delete of a Job failed,
    and the attempts do not overflow. *)
Definition calm (w : World) : Prop :=
  (∀ st, disc_status (w_disc w) = Some st →
     (∀ d, st_damage st = Some d → rescue_pending d = false) ∧
     (∀ b, st_backup st = Some b → method b ≠ "import") ∧ (st_attempts st + 1 < u32_modulus)%N) ∧
  (∀ name, EvDeleteFailed name ∉ w_log w).

(** A disc whose Jobs have not started. *)
Definition fresh (w : World) : Prop :=
  (∃ st, disc_status (w_disc w) = Some st ∧ unclaimed (st_phase st)) ∧
  ∀ s n, w_jobs w !! key w s n = None.

(** ** The invariant *)

Definition before_stage (s : Stage) (p : Phase) : Prop :=
  match s with Enc => p = BackedUp ∨ p = Held ∨ p = Encoding | Pub => p = Encoded end.

Record inv (w : World) : Prop := {
  inv_status : is_Some (disc_status (w_disc w));
  inv_backup st : disc_status (w_disc w) = Some st →
    unclaimed (st_phase st) ∨ is_Some (st_backup st);
  inv_live st s n : disc_status (w_disc w) = Some st → live w s n →
    n = (st_attempts st + 1)%N ∧ before_stage s (st_phase st) ∨
    n = st_attempts st ∧ st_phase st = stage_phase s;
  inv_moved st : disc_status (w_disc w) = Some st → st_phase st = Encoding →
    live w Enc (st_attempts st + 1)%N → w_jobs w !! key w Enc (st_attempts st) = None;
}.

Lemma stage_name_inj s s' : stage_name s = stage_name s' → s = s'.
Proof. by destruct s, s'. Qed.
Lemma job_name_inj disc st s n s' n' :
  job_name disc (stage_name s) st n = job_name disc (stage_name s') st n' ↔ s = s' ∧ n = n'.
Proof.
  split; [|by intros [-> ->]]. unfold job_name. intros E%str_app_inv_l%str_app_inv_l.
  assert (s = s') as -> by (destruct s, s'; (done || discriminate E)). split; [done|].
  do 4 apply str_app_inv_l in E. by apply (inj pretty) in E.
Qed.
Lemma key_inj w s n s' n' : key w s n = key w s' n' ↔ s = s' ∧ n = n'.
Proof. apply job_name_inj. Qed.

(** Keys depend on the Disc's labels and fingerprint only. *)
Lemma key_status w w' st st' d s n :
  disc_status (w_disc w) = Some st → w_disc w' = with_status st' d →
  disc_labels d = disc_labels (w_disc w) → st_fingerprint st' = st_fingerprint st → key w' s n = key w s n.
Proof.
  unfold key, job_name, is_test. intros E E' El Ef. by rewrite E', E; cbn; rewrite El, Ef.
Qed.

Lemma live_unique w s n s' n' : inv w → live w s n → live w s' n' → s = s' ∧ n = n'.
Proof.
  intros HI H1 H2. destruct (inv_status w HI) as [st Hst].
  pose proof (inv_live w HI st s n Hst H1) as L1. pose proof (inv_live w HI st s' n' Hst H2) as L2.
  pose proof (inv_moved w HI st Hst) as Hm.
  destruct L1 as [[-> P1]|[-> P1]], L2 as [[-> P2]|[-> P2]].
  - split; [|done]. destruct s, s'; cbn in *; try done; destruct_or?; congruence.
  - destruct s, s'; cbn in *; try (exfalso; destruct_or?; congruence).
    destruct H2 as (j & Hj & _). rewrite Hm in Hj; done.
  - destruct s, s'; cbn in *; try (exfalso; destruct_or?; congruence).
    destruct H1 as (j & Hj & _). rewrite Hm in Hj; done.
  - split; [|done]. destruct s, s'; cbn in *; congruence.
Qed.

(** [inv] from what a step does to the status and to the Disc's Jobs. *)
Lemma inv_intro w w' st st' d :
  disc_status (w_disc w) = Some st → w_disc w' = with_status st' d →
  disc_labels d = disc_labels (w_disc w) → st_fingerprint st' = st_fingerprint st →
  (unclaimed (st_phase st') ∨ is_Some (st_backup st')) →
  (∀ s n j, w_jobs w' !! key w s n = Some j → job_state (Some j) = Running →
     n = (st_attempts st' + 1)%N ∧ before_stage s (st_phase st') ∨ n = st_attempts st' ∧ st_phase st' = stage_phase s) →
  (∀ j, st_phase st' = Encoding → w_jobs w' !! key w Enc (st_attempts st' + 1) = Some j → job_state (Some j) = Running →
     w_jobs w' !! key w Enc (st_attempts st') = None) →
  inv w'.
Proof.
  intros Hst Hd Hl Hf Hb Hlive Hmoved.
  assert (∀ s n, key w' s n = key w s n) as Hk by (intros; by eapply key_status).
  assert (disc_status (w_disc w') = Some st') as Hst' by (by rewrite Hd).
  split; rewrite Hst'; [done|intros ? [= <-]; done|..].
  - intros ? s n [= <-] (j & Hj & Hr). rewrite Hk in Hj. eauto.
  - intros ? [= <-] Hp (j & Hj & Hr). rewrite Hk in *. eauto.
Qed.

(** A step that leaves the Disc's Jobs alone. *)
Lemma inv_status_step w w' st st' d :
  inv w → disc_status (w_disc w) = Some st → w_disc w' = with_status st' d →
  disc_labels d = disc_labels (w_disc w) → st_fingerprint st' = st_fingerprint st →
  (∀ s n, w_jobs w' !! key w s n = w_jobs w !! key w s n) →
  (unclaimed (st_phase st') ∨ is_Some (st_backup st')) →
  (∀ s n, live w s n →
     n = (st_attempts st' + 1)%N ∧ before_stage s (st_phase st') ∨ n = st_attempts st' ∧ st_phase st' = stage_phase s) →
  (st_phase st' = Encoding → st_phase st = Encoding ∧ st_attempts st' = st_attempts st) →
  inv w'.
Proof.
  intros HI Hst Hd Hl Hf Hj Hb Hlive Hm. eapply inv_intro; [done..| |].
  - intros s n j Hjs Hr. rewrite Hj in Hjs. apply Hlive. by exists j.
  - intros j Hp Hjs Hr. rewrite Hj in *. destruct (Hm Hp) as [Hp0 Ea]. rewrite Ea in *.
    apply (inv_moved w HI st Hst Hp0). by exists j.
Qed.

Lemma unclaimed_idle w st s n :
  inv w → disc_status (w_disc w) = Some st → unclaimed (st_phase st) ∨ st_phase st = Done → ¬ live w s n.
Proof.
  intros HI Hst Hp Hl. destruct (inv_live w HI st s n Hst Hl) as [[_ Hb]|[_ Hb]];
    unfold unclaimed in Hp; destruct s; cbn in Hb; destruct_or?; congruence.
Qed.

(** While the current Job is known not to run, nothing of the stage does. *)
Lemma current_not_running w st s n :
  inv w → disc_status (w_disc w) = Some st → st_phase st = stage_phase s → live w s n →
  job_state (w_jobs w !! key w s (st_attempts st)) ≠ Running →
  w_jobs w !! key w s (st_attempts st) = None ∧ n = (st_attempts st + 1)%N ∧ s = Enc.
Proof.
  intros HI Hst Hp Hl Hr. destruct (inv_live w HI st s n Hst Hl) as [[-> Hb]|[-> _]].
  - destruct s; cbn in *; [|congruence]. split; [by apply (inv_moved w HI st)|done].
  - destruct Hl as (j & Hj & Hjr). rewrite Hj in Hr. done.
Qed.
Lemma current_other_stage w st s s' n :
  inv w → disc_status (w_disc w) = Some st → st_phase st = stage_phase s → live w s' n → s' = s.
Proof.
  intros HI Hst Hp Hl. destruct (inv_live w HI st s' n Hst Hl) as [[_ Hb]|[_ Hb]];
    destruct s, s'; cbn in *; try done; destruct_or?; congruence.
Qed.

(** The phase changes [decide_next] asks for. *)
Lemma decide_set_phase spec st job lease p msg :
  decide_next spec st job lease = SetPhase p msg →
  (st_phase st = BackedUp ∧ p = Held ∨ st_phase st = Held ∧ p = BackedUp ∨
   st_phase st = Done ∧ (p = BackedUp ∨ p = Encoded)) ∨
  ∃ s, st_phase st = stage_phase s ∧
    (job = Succeeded ∧ p = (match s with Enc => Encoded | Pub => Done end) ∨
     job = Missing ∧ p = (match s with Enc => BackedUp | Pub => Encoded end)).
Proof.
  unfold decide_next.
  destruct (st_phase st), job; repeat case_match; intros; simplify_eq;
    try (left; tauto); right; first [exists Enc; tauto | exists Pub; tauto].
Qed.
Lemma decide_fail spec st job lease msg :
  decide_next spec st job lease = Fail msg →
  st_phase st = BackingUp ∨ job = JobFailed ∧ (st_phase st = Encoding ∨ st_phase st = Publishing).
Proof.
  unfold decide_next. destruct (st_phase st), job; cbn; repeat case_match; intros; simplify_eq/=; bool_prop; auto.
Qed.
Lemma decide_start spec st job lease :
  (decide_next spec st job lease = StartEncode → st_phase st = BackedUp) ∧
  (decide_next spec st job lease = StartPublish → st_phase st = Encoded).
Proof. unfold decide_next. destruct (st_phase st), job; repeat case_match; done. Qed.

Lemma current_job_key w st s :
  disc_status (w_disc w) = Some st → st_phase st = stage_phase s →
  current_job (w_disc w) st (w_jobs w) = w_jobs w !! key w s (st_attempts st).
Proof.
  intros Hst Hp. unfold current_job, stage_of, key. rewrite Hst, Hp. by destruct s.
Qed.
Lemma key_name w st s n : disc_status (w_disc w) = Some st → job_name (w_disc w) (stage_name s) st n = key w s n.
Proof. intros Hst. unfold key. by rewrite Hst. Qed.

Lemma inv_phase w w' st lease p msg q :
  inv w → disc_status (w_disc w) = Some st →
  decide_next (disc_spec (w_disc w)) st (job_state (current_job (w_disc w) st (w_jobs w))) lease = SetPhase p msg →
  patch_phase q = Some p → patch_attempts q = None →
  w_disc w' = with_status (merge_status q st) (w_disc w) → w_jobs w' = w_jobs w → inv w'.
Proof.
  intros HI Hst Hn Hp Ha Hd Hj.
  assert (st_phase (merge_status q st) = p) as Ep by (cbn; by rewrite Hp).
  assert (st_attempts (merge_status q st) = st_attempts st) as Ea by (cbn; by rewrite Ha).
  pose proof (inv_backup w HI st Hst) as Hb. pose proof (unclaimed_idle w st) as Hidle.
  eapply (inv_status_step w w' st _ (w_disc w)); [done..|by intros; rewrite Hj| | |]; rewrite ?Ep, ?Ea;
    apply decide_set_phase in Hn as [Hn|(s0 & Hp0 & Hn)].
  - right. cbn. destruct Hb as [[Hu|[Hu|Hu]]|?]; [rewrite Hu in Hn; destruct_or?; destruct_and?; done..|done].
  - right. cbn. destruct Hb as [[Hu|[Hu|Hu]]|?]; [rewrite Hu in Hp0; by destruct s0..|done].
  - intros s n Hl. destruct Hn as [[Hp0 ->]|[[Hp0 ->]|[Hp0 _]]].
    3:{ exfalso. eapply (Hidle s n); auto. }
    all: destruct (inv_live w HI st s n Hst Hl) as [[-> L]|[_ L]]; rewrite Hp0 in L;
      destruct s; cbn in *; destruct_or?; try done; left; auto.
  - intros s n Hl. pose proof (current_other_stage w st s0 s n HI Hst Hp0 Hl) as ->.
    rewrite (current_job_key w st s0) in Hn by done.
    destruct (current_not_running w st s0 n HI Hst Hp0 Hl) as (Hnone & -> & ->).
    { destruct Hn as [[Ej _]|[Ej _]]; by rewrite Ej. }
    rewrite Hnone in Hn. destruct Hn as [[? _]|[_ ->]]; [done|]. left. split; [done|]. by left.
  - intros ->. by destruct Hn as [[_ ?]|[[_ ?]|[_ [?|?]]]].
  - intros ->. destruct s0; by destruct Hn as [[_ ?]|[_ ?]].
Qed.

Lemma inv_fail w w' st lease msg since :
  inv w → disc_status (w_disc w) = Some st →
  decide_next (disc_spec (w_disc w)) st (job_state (current_job (w_disc w) st (w_jobs w))) lease = Fail msg →
  w_disc w' = with_status (merge_status (to_phase Failed (Some msg) since) st) (w_disc w) → w_jobs w' = w_jobs w → inv w'.
Proof.
  intros HI Hst Hn Hd Hj.
  eapply (inv_status_step w w' st _ (w_disc w)); [done..|by intros; rewrite Hj| | |done].
  - left. by right; right.
  - intros s n Hl. exfalso. apply decide_fail in Hn as [Hp|[Hjf Hp]].
    { eapply (unclaimed_idle w st s n); [done..| |done]. left. right. by left. }
    assert (∃ s0, st_phase st = stage_phase s0) as [s0 Hs0] by (destruct Hp; [by exists Enc|by exists Pub]).
    rewrite (current_job_key w st s0) in Hjf by done.
    pose proof (current_other_stage w st s0 s n HI Hst Hs0 Hl) as ->.
    destruct (current_not_running w st s0 n HI Hst Hs0 Hl) as (Hnone & _); [by rewrite Hjf|].
    by rewrite Hnone in Hjf.
Qed.

(** The Jobs after one was created under a Disc's name. *)
Lemma created_key w s n j jobs s' n' j' :
  created (key w s n) j jobs !! key w s' n' = Some j' →
  (s' = s ∧ n' = n) ∨ jobs !! key w s' n' = Some j'.
Proof.
  unfold created. destruct (jobs !! key w s n); [by right|].
  destruct (decide (key w s n = key w s' n')) as [E|E].
  - apply key_inj in E as [-> ->]. by left.
  - rewrite lookup_insert_ne by done. by right.
Qed.

Lemma inv_start w w' st st' s0 q j :
  inv w → disc_status (w_disc w) = Some st → (st_attempts st + 1 < u32_modulus)%N →
  st_phase st = (match s0 with Enc => BackedUp | Pub => Encoded end) →
  start_patch (Some (stage_phase s0)) (u32_add (st_attempts st) 1) q →
  st' ∈ [st; merge_status q st] → w_disc w' = with_status st' (w_disc w) →
  w_jobs w' = created (job_name (w_disc w) (stage_name s0) st (u32_add (st_attempts st) 1)) j (w_jobs w) → inv w'.
Proof.
  intros HI Hst Hsmall Hp (Q1 & Q2 & _) Hst' Hd Hj.
  rewrite u32_add_small in * by done. rewrite (key_name w st) in Hj by done.
  assert (∀ s n, live w s n → s = s0 ∧ n = (st_attempts st + 1)%N) as Hlive.
  { intros s n Hl. destruct (inv_live w HI st s n Hst Hl) as [[-> Hb]|[_ Hb]]; rewrite Hp in Hb;
      destruct s0, s; cbn in Hb; destruct_or?; done. }
  assert (∀ s n j', w_jobs w' !! key w s n = Some j' → job_state (Some j') = Running → s = s0 ∧ n = (st_attempts st + 1)%N) as Hlive'.
  { intros s n j' Hl Hr. rewrite Hj in Hl. apply created_key in Hl as [?|Hl]; [done|]. apply Hlive. by exists j'. }
  assert (unclaimed (st_phase st) ∨ is_Some (st_backup st)) as Hb by (by apply (inv_backup w HI)).
  assert (is_Some (st_backup st)) as Hb'.
  { destruct Hb as [[H'|[H'|H']]|?]; [rewrite Hp in H'; by destruct s0..|done]. }
  rewrite !elem_of_cons in Hst'. destruct Hst' as [->|[->|Hst']]; [..|by apply not_elem_of_nil in Hst'].
  - eapply (inv_intro w w' st st (w_disc w)); [done..|by right| |].
    + intros s n j' Hl Hr. destruct (Hlive' s n j' Hl Hr) as [-> ->]. left. split; [done|].
      rewrite Hp. destruct s0; cbn; auto.
    + intros j' Hp'. rewrite Hp in Hp'. by destruct s0.
  - assert (st_attempts (merge_status q st) = (st_attempts st + 1)%N) as Ea by (cbn; by rewrite Q2).
    assert (st_phase (merge_status q st) = stage_phase s0) as Ep by (cbn; by rewrite Q1).
    eapply (inv_intro w w' st _ (w_disc w)); [done..|by right| |]; rewrite Ea, Ep.
    + intros s n j' Hl Hr. destruct (Hlive' s n j' Hl Hr) as [-> ->]. by right.
    + intros j' Hp' Hl Hr. destruct (Hlive' _ _ _ Hl Hr) as [_ Hn]. lia.
Qed.

Lemma inv_move w w' st st' q j j' jobs1 :
  inv w → disc_status (w_disc w) = Some st → (st_attempts st + 1 < u32_modulus)%N → st_phase st = Encoding →
  w_jobs w !! key w Enc (st_attempts st) = Some j →
  jobs1 = delete (key w Enc (st_attempts st)) (w_jobs w) →
  w_jobs w' ∈ [jobs1; created (key w Enc (st_attempts st + 1)) j' jobs1] →
  start_patch None (u32_add (st_attempts st) 1) q → st' ∈ [st; merge_status q st] →
  (st' ≠ st → w_jobs w' = created (key w Enc (st_attempts st + 1)) j' jobs1) →
  w_disc w' = with_status st' (w_disc w) → inv w'.
Proof.
  intros HI Hst Hsmall Hp Hlook -> Hjobs (Q1 & Q2 & _) Hst' Hne Hd. rewrite u32_add_small in Q2 by done.
  assert (∀ s n, live w s n → s = Enc ∧ n = st_attempts st) as Hlive.
  { intros s n Hl. pose proof (current_other_stage w st Enc s n HI Hst Hp Hl) as ->. split; [done|].
    destruct (inv_live w HI st Enc n Hst Hl) as [[-> _]|[-> _]]; [|done].
    rewrite (inv_moved w HI st Hst Hp Hl) in Hlook. done. }
  assert (∀ s n j0, delete (key w Enc (st_attempts st)) (w_jobs w) !! key w s n = Some j0 → job_state (Some j0) ≠ Running) as Hdel.
  { intros s n j0 [Hk Hl]%lookup_delete_Some Hr. destruct (Hlive s n) as [-> ->]; [by exists j0|]. by apply Hk. }
  assert (∀ s n j0, w_jobs w' !! key w s n = Some j0 → job_state (Some j0) = Running →
    s = Enc ∧ n = (st_attempts st + 1)%N) as Hlive'.
  { intros s n j0 Hl Hr. rewrite !elem_of_cons in Hjobs. destruct Hjobs as [E|[E|E]]; [..|by apply not_elem_of_nil in E].
    - rewrite E in Hl. by apply Hdel in Hl.
    - rewrite E in Hl. apply created_key in Hl as [?|Hl]; [done|]. by apply Hdel in Hl. }
  assert (w_jobs w' !! key w Enc (st_attempts st) = None) as Hgone.
  { assert (delete (key w Enc (st_attempts st)) (w_jobs w) !! key w Enc (st_attempts st) = None) as Hd0
      by apply lookup_delete_eq.
    rewrite !elem_of_cons in Hjobs. destruct Hjobs as [E|[E|E]]; [by rewrite E| |by apply not_elem_of_nil in E].
    destruct (w_jobs w' !! key w Enc (st_attempts st)) as [j0|] eqn:E0; [|done].
    rewrite E in E0. apply created_key in E0 as [[_ E0]|E0]; [lia|congruence]. }
  assert (is_Some (st_backup st)) as Hb.
  { destruct (inv_backup w HI st Hst) as [[H'|[H'|H']]|?]; [congruence..|done]. }
  rewrite !elem_of_cons in Hst'. destruct Hst' as [->|[->|Hst']]; [..|by apply not_elem_of_nil in Hst'].
  - eapply (inv_intro w w' st st (w_disc w)); [done..|by right| |done].
    intros s n j0 Hl Hr. destruct (Hlive' s n j0 Hl Hr) as [-> ->]. left. split; [done|]. rewrite Hp. cbn. auto.
  - assert (st_attempts (merge_status q st) = (st_attempts st + 1)%N) as Ea by (cbn; by rewrite Q2).
    assert (st_phase (merge_status q st) = Encoding) as Ep by (cbn; by rewrite Q1).
    eapply (inv_intro w w' st _ (w_disc w)); [done..|by right| |]; rewrite Ea, Ep.
    + intros s n j0 Hl Hr. destruct (Hlive' s n j0 Hl Hr) as [-> ->]. by right.
    + intros j0 _ Hl Hr. destruct (Hlive' _ _ _ Hl Hr) as [_ Hn]. lia.
Qed.

Lemma inv_reconcile w w' o pods t :
  inv w → calm w → calm w' →
  w' = (apply a env_var (w_disc w) (mkWorld (w_disc w) (w_jobs w) pods t o (w_log w))).1 → inv w'.
Proof.
  intros HI [Hcs _] [_ Hlog] Ew'. destruct (inv_status w HI) as [st Hst].
  pose proof (apply_effects a env_var (mkWorld (w_disc w) (w_jobs w) pods t o (w_log w)) st Hst) as (st' & Hd & He).
  cbn in Hd, He. rewrite <- Ew' in Hd, He. destruct (Hcs st Hst) as (_ & _ & Hsmall).
  remember (w_jobs w') as jobs' eqn:Ej. symmetry in Ej.
  destruct He as [|since Hr|lease p msg q Hn Hp Ha _ _ _|lease msg since Hn
    |next p stage j q Hin (job & lease & Hn) Hj Hq st' Hst'|j j' jobs1 jobs2 q st' Hp Hlook Hrun Hrun' Hdel Hjobs Hq Hst' Hne].
  - eapply (inv_status_step w w' st st); [done..|by intros; rewrite Ej| | |done].
    + by apply (inv_backup w HI).
    + exact (λ s n, inv_live w HI st s n Hst).
  - assert (unclaimed (st_phase st) ∨ is_Some (st_backup st)) as Hb by by apply (inv_backup w HI).
    eapply (inv_status_step w w' st _); [done..|by intros; rewrite Ej| | |]; cbn; unfold retry_phase;
      case_bool_decide as Hf; try exact (λ s n, inv_live w HI st s n Hst); try done.
    + destruct (st_backup st); [right; done|left; by left].
    + intros s n Hl. exfalso. eapply (unclaimed_idle w st s n); [done..| |done]. left. right; right.
      destruct (decide (st_phase st = Failed)); [done|done].
    + by destruct (st_backup st).
  - by eapply inv_phase.
  - by eapply inv_fail.
  - pose proof (decide_start (disc_spec (w_disc w)) st job lease) as [H1 H2].
    rewrite !elem_of_cons in Hin. destruct Hin as [Hin|[Hin|Hin]]; [..|by apply not_elem_of_nil in Hin];
      injection Hin as -> -> ->; [apply (inv_start w w' st st' Enc q j)|apply (inv_start w w' st st' Pub q j)]; auto.
  - destruct Hdel as [->|[_ Hbad]]; [|by destruct (Hlog (job_name (w_disc w) "e" st (st_attempts st)))].
    rewrite (key_name w st Enc) in * by done. rewrite (u32_add_small (st_attempts st) 1) in Hjobs, Hne by done.
    rewrite (key_name w st Enc) in * by done. eapply (inv_move w w' st st'); try done; by rewrite Ej.
Qed.

Lemma handle_calm st drive raw_map alive :
  (∀ d, st_damage st = Some d → rescue_pending d = false) → (∀ b, st_backup st = Some b → method b ≠ "import") →
  agent_starts rerip drive raw_map alive (st_fingerprint st) st = true → st_backup st = None.
Proof.
  intros Hd Hb. unfold agent_starts, handle_existing, wants_rerip.
  assert (match st_damage st with Some d => rescue_pending d | None => false end = false) as ->
    by (destruct (st_damage st); auto).
  cbn. destruct (st_backup st) as [b|]; [|done].
  destruct (String.eqb_spec (method b) "import") as [E|_]; [by destruct (Hb b)|]. by rewrite andb_false_r.
Qed.

Lemma step_inv w w' : (∀ disc, cached w disc → disc = w_disc w) → inv w → calm w → calm w' → step w w' → inv w'.
Proof.
  intros Hcur HI Hc Hc' Hs. destruct (inv_status w HI) as [st Hst].
  assert (unclaimed (st_phase st) ∨ is_Some (st_backup st)) as Hb by by apply (inv_backup w HI).
  assert (∀ s n, live w s n → n = (st_attempts st + 1)%N ∧ before_stage s (st_phase st) ∨
    n = st_attempts st ∧ st_phase st = stage_phase s) as Hl by exact (λ s n, inv_live w HI st s n Hst).
  assert (∀ w2, w_disc w2 = w_disc w →
    (∀ s n j, w_jobs w2 !! key w s n = Some j → job_state (Some j) = Running → w_jobs w !! key w s n = Some j) →
    (∀ s n, w_jobs w !! key w s n = None → w_jobs w2 !! key w s n = None) → inv w2) as Hjobs.
  { intros w2 Ed H1 H2. eapply (inv_intro w w2 st st (w_disc w)); [done|by rewrite Ed, with_status_id|done|done|done|..].
    - intros s n j Hj Hr. apply Hl. exists j. eauto.
    - intros j Hp Hj Hr. apply H2. apply (inv_moved w HI st Hst Hp). exists j. eauto. }
  destruct Hs as [disc o pods t Hcached|s n j js Hj Hr Hr'|s n j Hj Hr|st0 st1 Hst0 Hsame|spec|jobs Hsame
    |st0 label drive message since raw_map alive Hst0 Hstart|st0 b dmg message drive since Hst0 Hp|st0 message since Hst0 Hp].
  - apply Hcur in Hcached as ->. by eapply inv_reconcile.
  - apply Hjobs; [done|..]; cbn.
    + intros s' n' j' [[Hk <-]|[_ ?]]%lookup_insert_Some Hr''; [done|done].
    + intros s' n' Hn. rewrite lookup_insert_ne; [done|]. congruence.
  - apply Hjobs; [done|..]; cbn.
    + by intros s' n' j' [_ ?]%lookup_delete_Some.
    + intros s' n' Hn. by rewrite lookup_delete_None; right.
  - rewrite Hst in Hst0. injection Hst0 as <-. destruct Hsame as (E1 & E2 & E3 & E4 & E5 & _).
    eapply (inv_status_step w _ st st1 (w_disc w)); rewrite ?E1, ?E3, ?E5; done.
  - eapply (inv_intro w _ st st (with_spec spec (w_disc w))); [done| |done|done|done|..].
    + cbn. by rewrite with_status_id.
    + intros s n j Hj Hr. apply Hl. by exists j.
    + intros j Hp Hj Hr. cbn in *. apply (inv_moved w HI st Hst Hp). by exists j.
  - apply Hjobs; [done|..]; cbn; intros *; by rewrite Hsame.
  - rewrite Hst in Hst0. injection Hst0 as <-. destruct Hc as [Hcs _]. destruct (Hcs st Hst) as (Hd & Hi & _).
    apply handle_calm in Hstart; [|done..].
    assert (unclaimed (st_phase st)) as Hu by (destruct Hb as [?|[? Hb]]; [done|congruence]).
    eapply (inv_status_step w _ st _ (w_disc w)); try done.
    + left. right. by left.
    + intros s n Hl'. exfalso. eapply (unclaimed_idle w st s n); auto.
  - rewrite Hst in Hst0. injection Hst0 as <-. eapply (inv_status_step w _ st _ (w_disc w)); try done.
    + by right.
    + intros s n Hl'. exfalso. eapply (unclaimed_idle w st s n); auto.
  - rewrite Hst in Hst0. injection Hst0 as <-. eapply (inv_status_step w _ st _ (w_disc w)); try done.
    + left. by right; right.
    + intros s n Hl'. exfalso. eapply (unclaimed_idle w st s n); auto.
Qed.

(** Steps between calm worlds. *)
Definition calm_step (w w' : World) : Prop := step w w' ∧ calm w'.

Lemma fresh_inv w : fresh w → inv w.
Proof.
  intros [(st & Hst & Hp) Hj]. eapply (inv_intro w w st st (w_disc w)); [done|by rewrite with_status_id|done|done|by left|..].
  - intros s n j Hl. congruence.
  - intros j _ Hl. congruence.
Qed.


(** ** From BackedUp to Done *)

(** One reconciliation with a working API and no Pod waiting, and a Job that succeeds. *)
Definition tick (w : World) : World :=
  (apply a env_var (w_disc w) (mkWorld (w_disc w) (w_jobs w) [] (w_now w) [] (w_log w))).1.
Definition job_succeeds (name : string) (w : World) : World :=
  with_jobs (alter (with_job_status (mkJobStatus (Some 1%Z) None)) name (w_jobs w)) w.
Definition running_count (stage : string) (w : World) : nat :=
  length (filter (λ kv, job_labels kv.2 !! STAGE_LABEL = Some stage ∧ job_state (Some kv.2) = Running) (map_to_list (w_jobs w))).

(** The retry has been seen. *)
Definition settled (spec : DiscSpec) (st : DiscStatus) : Prop := (spec_retry spec <= st_observed_retry st)%N.

(** Runs with a working API never end in an error. *)
Definition works {A} (m : M A) (Q : A → World → Prop) (w : World) : Prop := wp m (λ _, False) Q w.
Definition same_works (w w' : World) : Prop := same w w' ∧ w_oracle w' = [].

Lemma works_call {A} (f : World → World * A) (Q : A → World → Prop) w :
  w_oracle w = [] → Q (f w).2 (f w).1 → works (call f) Q w.
Proof. unfold works, wp, call. intros ->. by destruct (f w). Qed.
Lemma works_log {A} e (m : M A) (Q : A → World → Prop) w :
  w_oracle w = [] → (∀ w', same_works w w' → works m Q w') → works (_ ← log e; m) Q w.
Proof. intros Ho Hm. apply wp_bind, wp_log. apply Hm. split; [apply same_log|done]. Qed.
Lemma works_reports {A} (m : M ()) (k : M A) (Q : A → World → Prop) w :
  works m (λ _, same_works w) w → (∀ w', same_works w w' → works k Q w') → works (_ ← m; k) Q w.
Proof. intros Hm Hk. apply wp_bind. eapply wp_mono; [exact Hm|done|]. intros []. exact Hk. Qed.
Lemma each_works evs w : w_oracle w = [] → works (each evs) (λ _, same_works w) w.
Proof.
  revert w. induction evs as [|e evs IH]; intros w Ho; [by apply wp_ret|].
  cbn [each]. apply works_log; [done|]. intros w1 [H1 Ho1]. eapply wp_mono; [by apply IH|done|].
  intros _ w2 [H2 Ho2]. split; [by etrans|done].
Qed.
Lemma works_each {A} evs (m : M A) (Q : A → World → Prop) w :
  w_oracle w = [] → (∀ w', same_works w w' → works m Q w') → works (_ ← each evs; m) Q w.
Proof. intros Ho. by apply works_reports, each_works. Qed.
Lemma works_span {A} st p b (m : M A) (Q : A → World → Prop) w :
  w_oracle w = [] → (∀ w', same_works w w' → works m Q w') → works (_ ← stage_span st p b; m) Q w.
Proof.
  intros Ho Hm. assert (same_works w w) as Hself by by split.
  unfold stage_span. destruct (st_phase st); try (apply wp_bind, wp_ret; by apply Hm).
  all: apply wp_bind; apply works_log; [done|]; intros w1 [H1 Ho1]; case_bool_decide; [apply wp_log|apply wp_ret];
    apply Hm; split; try done; etrans; [exact H1|apply same_log].
Qed.

(** [set] when it works. *)
Lemma works_set {A} q (m : M A) (Q : A → World → Prop) w disc st :
  w_oracle w = [] → w_disc w = disc → disc_status disc = Some st →
  (∀ w', w_disc w' = with_status (merge_status q st) disc → w_jobs w' = w_jobs w → works m Q w') →
  works (_ ← set q; m) Q w.
Proof. intros Ho <- Hst Hm. apply wp_bind, works_call; [done|]. apply Hm; [|done]. cbn. by rewrite Hst. Qed.
Lemma works_start_job {A} disc st stage n cpu (m : M A) (Q : A → World → Prop) w :
  w_oracle w = [] →
  (∀ w' j, job_state (Some j) = Running → w_disc w' = w_disc w → w_oracle w' = [] →
     w_jobs w' = created (job_name disc stage st n) j (w_jobs w) → works m Q w') →
  works (_ ← start_job a env_var disc st stage n cpu; m) Q w.
Proof.
  intros Ho Hm. unfold start_job. destruct (job_spec a env_var disc st stage n cpu) as [name j] eqn:Ej.
  assert (name = job_name disc stage st n) as -> by (unfold job_spec in Ej; congruence).
  apply wp_bind, wp_bind, works_call; [done|]. apply wp_ret.
  assert (job_state (Some j) = Running) as Hr by (apply (job_spec_running a env_var disc st stage n cpu); by rewrite Ej).
  refine (Hm _ j Hr _ _ _); unfold created; by destruct (w_jobs w !! job_name disc stage st n).
Qed.

Definition started (s0 : Stage) (w : World) (st : DiscStatus) (w' : World) : Prop :=
  ∃ q j, w_disc w' = with_status (merge_status q st) (w_disc w) ∧
    start_patch (Some (stage_phase s0)) (u32_add (st_attempts st) 1) q ∧
    job_state (Some j) = Running ∧ w_jobs w' = created (key w s0 (u32_add (st_attempts st) 1)) j (w_jobs w).

Lemma works_start s0 w w0 st q (d : N) :
  disc_status (w_disc w) = Some st → same w w0 → w_oracle w0 = [] →
  (∀ since, start_patch (Some (stage_phase s0)) (u32_add (st_attempts st) 1) (q since)) →
  works (_ ← start_job a env_var (w_disc w) st (stage_name s0) (u32_add (st_attempts st) 1) false;
         since ← now; _ ← set (q since); mret d) (λ _, started s0 w st) w0.
Proof.
  intros Hst (Ed & Ej & _) Ho Hq. apply works_start_job; [done|]. intros w1 j Hr Ed1 Ho1 Ej1.
  apply wp_bind. cbn [now]. eapply (works_set _ _ _ _ (w_disc w)); [done|congruence|done|].
  intros w2 Ed2 Ej2. apply wp_ret. exists (q (format_time (w_now w1))), j. split_and!; [done..|].
  rewrite Ej2, Ej1, Ej. by rewrite (key_name w st s0).
Qed.

Lemma tick_run w st (P : World → Prop) :
  disc_status (w_disc w) = Some st → settled (disc_spec (w_disc w)) st →
  job_state (current_job (w_disc w) st (w_jobs w)) ≠ Running → st_phase st ≠ BackingUp →
  (∀ w', same w w' → w_oracle w' = [] →
     works (act a env_var (w_disc w) st (decide_next (disc_spec (w_disc w)) st (job_state (current_job (w_disc w) st (w_jobs w))) false))
       (λ _, P) w') → P (tick w).
Proof.
  intros Hst Hr%N.ltb_ge Hrun Hp HP.
  set (w1 := mkWorld (w_disc w) (w_jobs w) [] (w_now w) [] (w_log w)) in *.
  assert (same w w1) as H1 by (by split_and!; [..|exists []]).
  assert (works (apply a env_var (w_disc w)) (λ _, P) w1) as Hw.
  2:{ unfold works, wp in Hw. unfold tick. fold w1. by destruct (apply _ _ _ w1) as [w' [x|e]]. }
  unfold apply. rewrite Hst, Hr. apply wp_bind.
  assert (works match stage_of st with None => mret None
      | Some stage => get_job (job_name (w_disc w) stage st (st_attempts st)) end
    (λ job w', job = current_job (w_disc w) st (w_jobs w) ∧ w' = w1) w1) as Hjob.
  { unfold current_job. destruct (stage_of st); [by apply works_call|by apply wp_ret]. }
  eapply wp_mono; [exact Hjob|done|]. intros job w2 [-> ->].
  apply wp_bind. cbn [clock]. rewrite bool_decide_eq_false_2 by done. cbn [andb].
  apply wp_bind. destruct (current_job (w_disc w) st (w_jobs w)) as [j|]; [|by apply wp_ret, HP].
  rewrite bool_decide_eq_false_2 by (by intros [_ ?]). by apply wp_ret, HP.
Qed.

Lemma tick_starts s0 w st :
  disc_status (w_disc w) = Some st → settled (disc_spec (w_disc w)) st →
  match s0 with
  | Enc => st_phase st = BackedUp ∧ spec_hold (disc_spec (w_disc w)) = false ∧ running_count "e" w < a_max_encodes a
  | Pub => st_phase st = Encoded
  end → started s0 w st (tick w).
Proof.
  intros Hst Hr Hs. assert (current_job (w_disc w) st (w_jobs w) = None) as Hnone.
  { unfold current_job, stage_of. destruct s0; [destruct Hs as [Hs _]|]; by rewrite Hs. }
  apply (tick_run w st); [done|done|by rewrite Hnone|destruct s0; [destruct Hs as [Hs _]|]; by rewrite Hs|].
  intros w1 H1 Ho. pose proof H1 as (Ed & Ej & _). rewrite Hnone. unfold decide_next. destruct s0.
  - destruct Hs as (-> & -> & Hc). cbn [act]. unfold start_encode. apply wp_bind, works_call; [done|]. cbn [fst snd].
    rewrite Ej. fold (running_count "e" w). rewrite (proj2 (Nat.leb_gt _ _)) by done.
    by eapply (works_start Enc w w1 st).
  - rewrite Hs. cbn [act]. unfold start_publish. by eapply (works_start Pub w w1 st).
Qed.

(** The stage's Job has succeeded: on to the next phase, with its key recorded. *)
Definition moved_on (s0 : Stage) (w : World) (st : DiscStatus) (w' : World) : Prop :=
  ∃ q, w_disc w' = with_status (merge_status q st) (w_disc w) ∧ w_jobs w' = w_jobs w ∧
    phase_ok (w_disc w) (match s0 with Enc => Encoded | Pub => Done end) q.
Lemma tick_moves_on s0 w st :
  disc_status (w_disc w) = Some st → settled (disc_spec (w_disc w)) st → st_phase st = stage_phase s0 →
  job_state (w_jobs w !! key w s0 (st_attempts st)) = Succeeded → moved_on s0 w st (tick w).
Proof.
  intros Hst Hr Hp Hj. rewrite <- (current_job_key w st s0) in Hj by done.
  apply (tick_run w st); [done|done|by rewrite Hj|rewrite Hp; by destruct s0|].
  intros w1 (Ed & Ej & _) Ho. rewrite Hj. unfold decide_next. rewrite Hp.
  assert (∀ p q w2, same_works w1 w2 → phase_ok (w_disc w) p q → p = (match s0 with Enc => Encoded | Pub => Done end) →
    works (_ ← stage_span st p true; _ ← set q; mret 1%N) (λ _, moved_on s0 w st) w2) as Hset.
  { intros p q w2 [(Ed2 & Ej2 & _) Ho2] Hq ->. apply works_span; [done|]. intros w3 [(Ed3 & Ej3 & _) Ho3].
    eapply (works_set _ _ _ _ (w_disc w)); [done|congruence|done|]. intros w4 Ed4 Ej4. apply wp_ret.
    exists q. split_and!; [done|congruence|done]. }
  destruct s0; cbn [stage_phase act]; unfold set_phase; do 2 (apply wp_bind; cbn [now clock]); apply wp_bind;
    cbn [phase_patch].
  - apply works_log; [done|]. intros w2 H2. apply wp_ret. by apply (Hset Encoded).
  - assert (same_works w1 w1) as H11 by by split. 
    assert (∀ w2, same_works w1 w2 → ∀ evs q, phase_ok (w_disc w) Done q →
      works (_ ← each evs; _ ← log (EvMetric "done"); mret q)
        (λ q, works (_ ← stage_span st Done true; _ ← set q; mret 1%N) (λ _, moved_on Pub w st)) w2) as Hrest.
    { intros w2 [H2 Ho2] evs q Hq. apply works_each; [done|]. intros w3 [H3 Ho3].
      apply works_log; [done|]. intros w4 [H4 Ho4]. apply wp_ret. apply (Hset Done); [|done..].
      split; [|done]. etrans; [exact H2|]. by etrans. }
    destruct (st_summary st); [apply works_log; [done|]|apply wp_bind, wp_ret]; intros; by apply Hrest.
Qed.

Lemma succeeds_lookup w s n j d :
  w_jobs w !! key w s n = Some j → disc_labels d = disc_labels (w_disc w) → disc_status d = disc_status (w_disc w) →
  let w' := job_succeeds (key w s n) (with_disc d w) in
  job_state (w_jobs w' !! key w' s n) = Succeeded ∧
  ∀ s' n', (s', n') ≠ (s, n) → w_jobs w' !! key w' s' n' = w_jobs w !! key w s' n'.
Proof.
  intros Hj Hl Hs w'. assert (∀ s n, key w' s n = key w s n) as Hk.
  { intros. unfold key, job_name, is_test, w'. cbn. by rewrite Hl, Hs. }
  split.
  - rewrite Hk. unfold w', job_succeeds. cbn. by rewrite lookup_alter_eq, Hj.
  - intros s' n' Hne. rewrite Hk. unfold w', job_succeeds. cbn. apply lookup_alter_ne.
    intros E%key_inj. destruct E as [-> ->]. by apply Hne.
Qed.

Lemma started_with_spec s0 w st w' :
  started s0 w st w' → with_disc (with_spec (disc_spec (w_disc w)) (w_disc w')) w' = w'.
Proof. intros (q & j & Hd & _). destruct w'. cbn in Hd. unfold with_disc. cbn. f_equal. by rewrite Hd. Qed.

(** A reconciliation that sees a bumped retry, and one that leaves Done. *)
Lemma tick_retries w st :
  disc_status (w_disc w) = Some st → (st_observed_retry st < spec_retry (disc_spec (w_disc w)))%N →
  ∃ st', w_disc (tick w) = with_status st' (w_disc w) ∧ w_jobs (tick w) = w_jobs w ∧
    st_phase st' = retry_phase st ∧ st_observed_retry st' = spec_retry (disc_spec (w_disc w)).
Proof.
  intros Hst Hb%N.ltb_lt. set (w1 := mkWorld (w_disc w) (w_jobs w) [] (w_now w) [] (w_log w)).
  enough (works (apply a env_var (w_disc w)) (λ _ w', ∃ st', w_disc w' = with_status st' (w_disc w) ∧ w_jobs w' = w_jobs w ∧
    st_phase st' = retry_phase st ∧ st_observed_retry st' = spec_retry (disc_spec (w_disc w))) w1) as Hw.
  { unfold works, wp in Hw. unfold tick. fold w1. by destruct (apply _ _ _ w1) as [w' [x|e]]. }
  unfold apply. rewrite Hst, Hb. apply wp_bind. cbn [now].
  eapply (works_set _ _ _ _ (w_disc w)); [done..|]. intros w2 Ed Ej. apply wp_ret. rewrite Ed, Ej. eauto.
Qed.
Lemma set_phase_done w w' st p msg :
  disc_status (w_disc w) = Some st → st_phase st = Done → (p = BackedUp ∨ p = Encoded) →
  w_disc w' = w_disc w → w_jobs w' = w_jobs w → w_oracle w' = [] →
  works (set_phase (w_disc w) st p msg) (λ _ w2, ∃ st', w_disc w2 = with_status st' (w_disc w) ∧ w_jobs w2 = w_jobs w ∧
    st_phase st' = p ∧ st_observed_retry st' = st_observed_retry st) w'.
Proof.
  intros Hst Hp Hpp Ed Ej Ho.
  assert (∀ q w2, same_works w' w2 → patch_phase q = Some p → patch_observed_retry q = None →
    works (_ ← stage_span st p true; _ ← set q; mret 1%N) (λ _ w2, ∃ st', w_disc w2 = with_status st' (w_disc w) ∧
      w_jobs w2 = w_jobs w ∧ st_phase st' = p ∧ st_observed_retry st' = st_observed_retry st) w2) as Hset.
  { intros q w2 [(Ed2 & Ej2 & _) Ho2] Q1 Q2. apply works_span; [done|]. intros w3 [(Ed3 & Ej3 & _) Ho3].
    eapply (works_set _ _ _ _ (w_disc w)); [done|congruence|done|]. intros w4 Ed4 Ej4. apply wp_ret.
    exists (merge_status q st). split_and!; [done|congruence|..]; cbn; by rewrite ?Q1, ?Q2. }
  unfold set_phase. do 2 (apply wp_bind; cbn [now clock]). apply wp_bind.
  destruct Hpp as [-> | ->]; cbn [phase_patch].
  - apply wp_ret, Hset; [by split|done..].
  - apply works_log; [done|]. intros w2 H2. by apply wp_ret, Hset.
Qed.

(** A started stage whose Job then succeeds is recorded by the next reconciliation. *)
Lemma stage_completes s0 w st w1 spec' n :
  disc_status (w_disc w) = Some st → n = (st_attempts st + 1)%N → (n < u32_modulus)%N →
  settled spec' st → w_jobs w !! key w s0 n = None → started s0 w st w1 →
  let w2 := tick (job_succeeds (key w s0 n) (with_disc (with_spec spec' (w_disc w1)) w1)) in
  ∃ st2, w_disc w2 = with_status st2 (with_spec spec' (w_disc w)) ∧ (∀ s m, key w2 s m = key w s m) ∧
    st_phase st2 = (match s0 with Enc => Encoded | Pub => Done end) ∧ st_attempts st2 = n ∧
    st_observed_retry st2 = st_observed_retry st ∧
    st_encode_key st2 = (match s0 with Enc => Some (encode_key spec') | Pub => st_encode_key st end) ∧
    st_publish_key st2 = (match s0 with Enc => st_publish_key st | Pub => Some (publish_key spec') end) ∧
    ∀ s m, (s, m) ≠ (s0, n) → w_jobs w2 !! key w s m = w_jobs w !! key w s m.
Proof.
  intros Hst -> Hn Hset Hnone (q & j & Hd & (Q1 & Q2 & Q3 & Q4 & Q5) & Hr & Hj) w2.
  rewrite u32_add_small in Q2, Hj by done. unfold created in Hj. rewrite Hnone in Hj.
  assert (disc_status (w_disc w1) = Some (merge_status q st)) as Hst1 by (by rewrite Hd).
  assert (∀ s m, key w1 s m = key w s m) as Hk1 by (intros; eapply key_status; [exact Hst|exact Hd|done|done]).
  destruct (succeeds_lookup w1 s0 (st_attempts st + 1) j (with_spec spec' (w_disc w1))) as [Hs Hothers];
    [by rewrite Hk1, Hj, lookup_insert_eq|done|done|].
  rewrite Hk1 in Hs, Hothers. set (w1' := job_succeeds _ _) in *.
  destruct (tick_moves_on s0 w1' (merge_status q st)) as (q2 & Hd2 & Hj2 & P1 & P2 & P3 & P4 & P5).
  - exact Hst1.
  - unfold settled. cbn. rewrite Q3. exact Hset.
  - cbn. by rewrite Q1.
  - assert (st_attempts (merge_status q st) = (st_attempts st + 1)%N) as -> by (cbn; by rewrite Q2). exact Hs.
  - change (tick w1') with w2 in Hd2, Hj2.
    assert (w_disc w2 = with_status (merge_status q2 (merge_status q st)) (with_spec spec' (w_disc w))) as Hd2'.
    { rewrite Hd2. cbn. by rewrite Hd. }
    assert (∀ s m, key w2 s m = key w s m) as Hk2 by (intros; eapply key_status; [exact Hst|exact Hd2'|done|done]).
    exists (merge_status q2 (merge_status q st)). split; [done|]. split; [done|].
    cbn -[N.add]. rewrite P1, P2, P3, P4, P5, Q2, Q3, Q4, Q5. cbn -[N.add]. split_and!; try done; try by destruct s0.
    intros s m Hne. rewrite Hj2, <- (Hk1 s m). specialize (Hothers s m Hne).
    assert (key w1' s m = key w1 s m) as Hk1' by done. rewrite Hk1' in Hothers. rewrite Hothers, Hj, Hk1.
    apply lookup_insert_ne. intros E%key_inj. destruct E as [? ?]. apply Hne. congruence.
Qed.

(** C7: a backed-up disc that is not held gets to Done: with a working API, a free encode slot and
    Jobs that succeed, four reconciliations encode it, publish it, record the keys of its spec and
    then leave it alone, when nobody edits the spec meanwhile. *)
Theorem reaches_done w st :
  let n := st_attempts st in
  let spec := disc_spec (w_disc w) in
  disc_status (w_disc w) = Some st → st_phase st = BackedUp → spec_hold spec = false →
  settled spec st → (n + 2 < u32_modulus)%N → running_count "e" w < a_max_encodes a →
  w_jobs w !! key w Enc (n + 1) = None → w_jobs w !! key w Pub (n + 2) = None →
  let w2 := tick (job_succeeds (key w Enc (n + 1)) (tick w)) in
  let w4 := tick (job_succeeds (key w Pub (n + 2)) (tick w2)) in
  ∃ st', disc_status (w_disc w4) = Some st' ∧ disc_spec (w_disc w4) = spec ∧
    st_phase st' = Done ∧ st_attempts st' = (n + 2)%N ∧
    st_encode_key st' = Some (encode_key spec) ∧ st_publish_key st' = Some (publish_key spec) ∧
    w_disc (tick w4) = w_disc w4 ∧ w_jobs (tick w4) = w_jobs w4.
Proof.
  intros n spec Hst Hp Hh Hr Hn Hc HE HP w2 w4.
  assert (started Enc w st (tick w)) as H1 by (by apply tick_starts).
  destruct (stage_completes Enc w st (tick w) spec (n + 1) Hst eq_refl ltac:(lia) Hr HE H1)
    as (st2 & Hd2 & Hk2 & Hp2 & Ha2 & Ho2 & He2 & _ & Hj2).
  pose proof (started_with_spec Enc w st (tick w) H1) as Eid1. fold spec in Eid1.
  rewrite Eid1 in Hd2, Hk2, Hj2. fold w2 in Hd2, Hk2, Hj2.
  assert (disc_status (w_disc w2) = Some st2) as Hst2 by (by rewrite Hd2).
  assert (disc_spec (w_disc w2) = spec) as Hs2 by (by rewrite Hd2).
  assert (settled spec st2) as Hr2 by (unfold settled; by rewrite Ho2).
  assert (started Pub w2 st2 (tick w2)) as H3 by (apply tick_starts; [done|by rewrite Hs2|done]).
  destruct (stage_completes Pub w2 st2 (tick w2) spec (n + 2) Hst2) as (st4 & Hd4 & _ & Hp4 & Ha4 & Ho4 & He4 & Hpk4 & _);
    [rewrite Ha2; lia|lia|done|by rewrite Hk2, Hj2|done|].
  pose proof (started_with_spec Pub w2 st2 (tick w2) H3) as Eid. rewrite Hs2 in Eid.
  rewrite Eid, (Hk2 Pub (n + 2)%N) in Hd4. fold w4 in Hd4.
  rewrite He2 in He4. enough (w_disc (tick w4) = w_disc w4 ∧ w_jobs (tick w4) = w_jobs w4) as [E1 E2].
  { exists st4. rewrite E1, E2, Hd4. by split_and!. }
  apply (tick_run w4 st4); rewrite ?Hd4; cbn; rewrite ?Hp4; try done.
  - unfold settled. by rewrite Ho4.
  - unfold current_job, stage_of. by rewrite Hp4.
  - intros w' (Ed & Ej & _) Ho. unfold decide_next. rewrite Hp4, He4, Hpk4. unfold key_is.
    rewrite !bool_decide_eq_true_2 by done. cbn [negb act]. apply wp_ret. by rewrite Ed, Ej, Hd4.
Qed.

(** An edit made while the encode Job runs is recorded as encoded: nothing is left to do, although
    the Job was created before it. *)
Lemma edit_while_encoding_unseen w st spec' :
  let n := st_attempts st in
  disc_status (w_disc w) = Some st → st_phase st = BackedUp → spec_hold (disc_spec (w_disc w)) = false →
  settled (disc_spec (w_disc w)) st → settled spec' st → (n + 1 < u32_modulus)%N →
  running_count "e" w < a_max_encodes a → w_jobs w !! key w Enc (n + 1) = None →
  let w1 := tick w in
  let w2 := tick (job_succeeds (key w Enc (n + 1)) (with_disc (with_spec spec' (w_disc w1)) w1)) in
  ∃ st', disc_status (w_disc w2) = Some st' ∧ st_phase st' = Encoded ∧ st_encode_key st' = Some (encode_key spec').
Proof.
  intros n Hst Hp Hh Hr Hr' Hn Hc HE w1 w2.
  assert (started Enc w st w1) as H1 by (by apply tick_starts).
  destruct (stage_completes Enc w st w1 spec' (n + 1) Hst eq_refl ltac:(lia) Hr' HE H1)
    as (st2 & Hd2 & _ & Hp2 & _ & _ & He2 & _).
  exists st2. fold w2 in Hd2. by rewrite Hd2.
Qed.

End lifecycle.

(** ** Witnesses, and what happens outside the calm worlds *)

(** The cache is up to date. *)
Definition current (w : World) (disc : Disc) : Prop := disc = w_disc w.

Definition wait_world : World := test_world test_disc_spec
  (mkDiscStatus Detected None "X" "abc" None 0 0 None None false [] [] None None None None None None None).

Lemma test_world_calm spec st :
  st_damage st = None → (∀ b, st_backup st = Some b → method b ≠ "import") → (st_attempts st + 1 < u32_modulus)%N →
  calm (test_world spec st).
Proof.
  intros Hd Hb Ha. split; [|by intros ? ?%not_elem_of_nil]. intros ? [= <-]. rewrite Hd. by split_and!.
Qed.


Lemma reaches_done_witness :
  let w := test_world test_disc_spec (test_status BackedUp) in
  let tick := tick (H := Json.Reference.serde) (H0 := test_clock) test_args (λ _, None) in
  let w2 := tick (job_succeeds (key w Enc 2) (tick w)) in
  let w4 := tick (job_succeeds (key w Pub 3) (tick w2)) in
  ∃ st, disc_status (w_disc w4) = Some st ∧ st_phase st = Done ∧ w_disc (tick w4) = w_disc w4.
Proof.
  intros w tick w2 w4.
  destruct (reaches_done (H := Json.Reference.serde) (H0 := test_clock) test_args (λ _, None) w (test_status BackedUp))
    as (st & Hst & _ & Hp & _ & _ & _ & Hd & _);
    [reflexivity|reflexivity|reflexivity|vm_compute; discriminate|vm_compute; reflexivity
    |apply Nat.lt_0_2|vm_compute; reflexivity|vm_compute; reflexivity|].
  exists st. split; [exact Hst|]. split; [exact Hp|exact Hd].
Defined.

(** The name was edited at Done: published again. *)
Definition renamed_spec : DiscSpec := mkDiscSpec "Y" 1 None false ∅ false 0.

(** A damaged disc put back in a drive while its encode Job runs is read again at once; the
    controller then starts a second encode Job in the same work dir. *)
Definition damaged_status : DiscStatus :=
  mkDiscStatus BackedUp None "X" "abc" None 1 0 (Some test_backup) (Some (mkDamage (f64_of_Z 99) 1 true)) false [] [] None None None None None None None.
Section reinsert.
#[local] Existing Instance Json.Reference.serde.
#[local] Existing Instance test_clock.

Definition status_of (w : World) : DiscStatus := default default_disc_status (disc_status (w_disc w)).
Definition damaged_world : World := test_world test_disc_spec damaged_status.
Definition encoding_world : World := tick test_args (λ _, None) damaged_world.
Definition rereading_world : World := set_status (agent_start "X" (st_fingerprint (status_of encoding_world)) "d" "m" "s" (status_of encoding_world)) encoding_world.
Definition reread_world : World :=
  set_status (agent_done test_backup None "m" "d" "s" (status_of rereading_world)) rereading_world.
Definition doubled_world : World := tick test_args (λ _, None) reread_world.

Lemma running_live w s n : job_state (w_jobs w !! key w s n) = Running → live w s n.
Proof. unfold live. destruct (w_jobs w !! key w s n) as [j|]; [by exists j|done]. Qed.

Lemma reinsert_doubles :
  rtc (step test_args (λ _, None) [] current) damaged_world doubled_world ∧
  live doubled_world Enc 2 ∧ live doubled_world Enc 4.
Proof.
  split; [|split; apply running_live; vm_compute; reflexivity].
  eapply rtc_l; [by apply step_reconcile|]. fold (tick test_args (λ _, None) damaged_world). fold encoding_world.
  eapply rtc_l; [apply (step_agent_start _ _ _ _ encoding_world (status_of encoding_world) "X" "d" "m" "s" true false);
    vm_compute; reflexivity|]. fold rereading_world.
  eapply rtc_l; [apply (step_agent_done _ _ _ _ rereading_world (status_of rereading_world) test_backup None "m" "d" "s");
    [vm_compute; reflexivity|right; left; vm_compute; reflexivity]|]. fold reread_world.
  apply rtc_once. by apply step_reconcile.
Qed.

(** A GPU encode that waits for a GPU is moved to the CPU. When the deletion of its Job fails, and
    when a reconciliation right after the move reads the Disc as it was before, two encode Jobs run
    in the same work dir. *)
Definition waiting_pod : Pod := mkPod "dvd-e-abc-2" (Some "Pending") (Some 0%Z).
Definition move (o : list Outcome) (w : World) : World :=
  (apply test_args (λ _, None) (w_disc w) (mkWorld (w_disc w) (w_jobs w) [waiting_pod] (3600 * 10 ^ 9)%Z o (w_log w))).1.
Definition waiting_world : World := tick test_args (λ _, None) (test_world test_disc_spec (test_status BackedUp)).
Definition undeleted_world : World := move [Works; Works; Refused] waiting_world.
Lemma failed_delete_doubles :
  step test_args (λ _, None) [] current waiting_world undeleted_world ∧
  live undeleted_world Enc 2 ∧ live undeleted_world Enc 3.
Proof.
  split; [by apply step_reconcile|]. split; apply running_live; vm_compute; reflexivity.
Qed.

Definition moved_world : World := move [] waiting_world.
Definition unseen_world : World :=
  (apply test_args (λ _, None) (w_disc waiting_world) (mkWorld (w_disc moved_world) (w_jobs moved_world) [] 0 [] [])).1.
Definition lagging_world : World := tick test_args (λ _, None) unseen_world.
Lemma stale_cache_doubles :
  let behind w disc := disc = w_disc w ∨ w_disc w = w_disc moved_world ∧ disc = w_disc waiting_world in
  rtc (step test_args (λ _, None) [] behind) waiting_world lagging_world ∧
  live lagging_world Enc 3 ∧ live lagging_world Enc 4.
Proof.
  intros behind. split; [|split; apply running_live; vm_compute; reflexivity].
  eapply rtc_l; [apply step_reconcile; by left|]. fold (move [] waiting_world). fold moved_world.
  eapply rtc_l; [apply (step_reconcile _ _ _ _ moved_world (w_disc waiting_world) [] [] 0); by right|].
  apply rtc_once. apply step_reconcile. by left.
Qed.
End reinsert.
