(* ===== verification/Damage.v ===== *)
(** * Damaged discs ([apps/dvdrip/src/damage.rs])

    The pure parts: grouping ffmpeg's decoder errors into glitches, the chapter file with a marker
    at each glitch, and the NFO that names them. The steps that run ffmpeg, mkvextract and mkvpropedit
    are in [Review]. *)

From Stdlib Require Import Ascii.
From stdpp Require Import options.
From S2P Require Import Prelude Text.

Definition MARKER_PREFIX : string := "⚠ Disc damage".
Definition MARKER : string := "⚠ Disc damage (brief glitch)".

(** ** Glitches: [(start, end, errors)] *)

Notation Group := (N * N * N)%type.

Definition decoder_line (l : string) : bool :=
  existsb (λ p, starts_with p l)
    ["[mpeg2video @"; "[mpegvideo @"; "[ac3 @"; "[eac3 @"; "[dca @"; "[mp2 @"].

(** One line; the groups are kept latest first here and reversed at the end. *)
Definition glitch_line (acc : N * list Group) (l : string) : N * list Group :=
  let '(now, out) := acc in
  match strip_prefix "out_time_us=" l with
  | Some us => (match parse_u64 (trim us) with Some us => (us / 1000000)%N | None => now end, out)
  | None =>
      if negb (decoder_line l) then (now, out)
      else match out with
           | (start, last, n) :: out' =>
               if (saturating_sub now last <=? 10)%N then (now, (start, now, u32_add n 1) :: out')
               else (now, (now, now, 1%N) :: out)
           | [] => (now, [(now, now, 1%N)])
           end
  end.
Definition glitches (ls : list string) : list Group := reverse (fold_left glitch_line ls (0%N, [])).2.

(** ** Chapters and the NFO *)

Definition ts (s : N) : string :=
  pretty (s / 3600)%N +:+ ":" +:+ pad2 (s mod 3600 / 60) +:+ ":" +:+ pad2 (s mod 60).
Definition marker_time (s : N) : string :=
  pad2 (s / 3600) +:+ ":" +:+ pad2 (s mod 3600 / 60) +:+ ":" +:+ pad2 (s mod 60) +:+ ".000".

(** The times and names of a simple-format chapter file, in file order. *)
Definition chapter_line (acc : list string * list string) (l : string) : list string * list string :=
  let '(times, names) := acc in
  match split_once "=" l with
  | Some (k, v) =>
      if ends_with "NAME" k then (times, names ++ [v])
      else if starts_with "CHAPTER" k then (times ++ [v], names)
      else (times, names)
  | None => (times, names)
  end.
Definition read_chapters (existing : string) : list (string * string) :=
  let '(times, names) := fold_left chapter_line (lines existing) ([], []) in zip times names.

(** The order of [(String, String)]. *)
Definition pair_leb (x y : string * string) : bool :=
  match String.compare x.1 y.1 with Lt => true | Gt => false | Eq => String.leb x.2 y.2 end.
Definition all_chapters (existing : string) (starts : list N) : list (string * string) :=
  stable_sort pair_leb
    (filter (λ c, starts_with MARKER_PREFIX c.2 = false) (read_chapters existing)
     ++ ((λ s, (marker_time s, MARKER)) <$> starts)).
Definition chapter_entry (i : nat) (c : string * string) : string :=
  let n := pad2 (N.of_nat (i + 1)) in
  "CHAPTER" +:+ n +:+ "=" +:+ c.1 +:+ String newline "" +:+
  "CHAPTER" +:+ n +:+ "NAME=" +:+ c.2 +:+ String newline "".
Definition concat (l : list string) : string := fold_right String.append "" l.
Definition chapters (existing : string) (starts : list N) : string :=
  concat (imap chapter_entry (all_chapters existing starts)).

Definition nfo (starts : list N) : option string :=
  match starts with
  | [] => None
  | _ => Some ("<?xml version=" +:+ quote +:+ "1.0" +:+ quote +:+ " encoding=" +:+ quote +:+ "utf-8" +:+ quote
      +:+ " standalone=" +:+ quote +:+ "yes" +:+ quote +:+ "?>" +:+ String newline "<movie>"
      +:+ String newline "  <tagline>Note: this copy has a brief glitch from disc damage at "
      +:+ join ", " (ts <$> starts) +:+ " (marked as a chapter)</tagline>"
      +:+ String newline "  <tag>Disc damage</tag>" +:+ String newline "</movie>" +:+ String newline "")
  end.

(** ** The source's own tests *)

Example groups_decoder_errors :
  glitches ["out_time_us=1000000"; "[mpeg2video @ 0x1] ac-tex damaged"; "out_time_us=5000000"; "[ac3 @ 0x2] error";
            "[mpegts @ 0x3] non monotonically increasing dts"; "out_time_us=60000000";
            "[mpeg2video @ 0x1] Warning MVs not available"] = [(1, 5, 2); (60, 60, 1)]%N.
Proof. vm_compute. done. Qed.
Example rewrites_chapters :
  let nl := String newline "" in
  chapters ("CHAPTER01=00:00:00.000" +:+ nl +:+ "CHAPTER01NAME=Chapter 1" +:+ nl +:+ "CHAPTER02=00:01:00.000" +:+ nl
            +:+ "CHAPTER02NAME=⚠ Disc damage (brief glitch)" +:+ nl) [3725%N]
  = "CHAPTER01=00:00:00.000" +:+ nl +:+ "CHAPTER01NAME=Chapter 1" +:+ nl +:+ "CHAPTER02=01:02:05.000" +:+ nl
    +:+ "CHAPTER02NAME=⚠ Disc damage (brief glitch)" +:+ nl.
Proof. vm_compute. done. Qed.

(** ** Nothing is dropped and glitches are apart *)

#[local] Arguments strip_prefix : simpl never.
#[local] Arguments decoder_line : simpl never.

(** Newest first: each group starts more than 10 s after the one before it ended. *)
Fixpoint apart (out : list Group) : Prop :=
  match out with
  | (start, _, _) :: (((_, last, _) :: _) as out') => (last + 10 < start)%N ∧ apart out'
  | _ => True
  end.
Definition errors_of (out : list Group) : N := foldr (λ g n, (g.2 + n)%N) 0%N out.
Definition is_time (l : string) : bool :=
  match strip_prefix "out_time_us=" l with Some _ => true | None => false end.
Definition error_lines (ls : list string) : N :=
  N.of_nat (length (filter (λ l, negb (is_time l) && decoder_line l = true) ls)).

Lemma glitch_line_apart acc l : apart acc.2 → apart (glitch_line acc l).2.
Proof.
  destruct acc as [now out]. cbn. intros Ha. unfold glitch_line.
  destruct (strip_prefix "out_time_us=" l); [exact Ha|]. destruct (negb (decoder_line l)); [exact Ha|].
  destruct out as [|[[s e] n] out]; [done|]. unfold saturating_sub. destruct (N.leb_spec (now - e) 10); cbn in *.
  - by destruct out as [|[[s' e'] n'] out].
  - split; [lia|done].
Qed.
Lemma glitch_line_errors acc l :
  (errors_of acc.2 + 1 < u32_modulus)%N →
  errors_of (glitch_line acc l).2 = (errors_of acc.2 + error_lines [l])%N.
Proof.
  destruct acc as [now out]. cbn. intros Hb. unfold glitch_line, error_lines, is_time. rewrite filter_cons.
  destruct (strip_prefix "out_time_us=" l); cbn -[N.add]; [case_decide; [done|cbn; lia]|].
  destruct (decoder_line l); cbn -[N.add]; case_decide; try done; cbn [length]; [|lia].
  destruct out as [|[[s e] n] out]; cbn -[N.add] in *; [done|].
  destruct (saturating_sub now e <=? 10)%N; cbn -[N.add]; [|lia].
  rewrite u32_add_small by lia. lia.
Qed.
Lemma error_lines_cons l ls : error_lines (l :: ls) = (error_lines [l] + error_lines ls)%N.
Proof. unfold error_lines. rewrite !filter_cons. case_decide; cbn; lia. Qed.

Lemma fold_glitches acc ls :
  apart acc.2 → (errors_of acc.2 + N.of_nat (length ls) < u32_modulus)%N →
  apart (fold_left glitch_line ls acc).2 ∧
  errors_of (fold_left glitch_line ls acc).2 = (errors_of acc.2 + error_lines ls)%N.
Proof.
  revert acc. induction ls as [|l ls IH]; intros acc Ha Hb; cbn [fold_left]; [split; [done|change (error_lines []) with 0%N; lia]|].
  cbn [length] in Hb. pose proof (glitch_line_errors acc l) as He.
  assert (error_lines [l] <= 1)%N by (unfold error_lines; rewrite filter_cons; case_decide; cbn; lia).
  destruct (IH (glitch_line acc l)) as [H1 H2].
  - by apply glitch_line_apart.
  - rewrite He; lia.
  - split; [done|]. rewrite H2, He, (error_lines_cons l ls) by lia. lia.
Qed.

Lemma errors_of_perm l l' : l ≡ₚ l' → errors_of l = errors_of l'.
Proof. unfold errors_of. induction 1 as [|g l l' _ IH|g g' l|l1 l2 l3 _ IH1 _ IH2]; cbn [foldr]; [done|by rewrite IH|lia|by rewrite IH1]. Qed.

(** Grouping loses no decoder error, and two glitches are always more than 10 s apart, even
    when the progress times go backwards. *)
Theorem glitches_grouped ls :
  (N.of_nat (length ls) < u32_modulus)%N →
  errors_of (glitches ls) = error_lines ls ∧
  ∀ i s e n s' e' n', glitches ls !! i = Some (s, e, n) → glitches ls !! S i = Some (s', e', n') → (e + 10 < s')%N.
Proof.
  intros Hb. unfold glitches. destruct (fold_glitches (0%N, []) ls) as [Ha He]; [done|cbn; lia|].
  split.
  - rewrite (errors_of_perm _ _ (reverse_Permutation _)), He. change (errors_of (0%N, []).2) with 0%N. lia.
  - set (out := (fold_left glitch_line ls (0%N, [])).2) in *. clearbody out. clear He Hb ls.
    induction out as [|[[s0 e0] n0] out IH]; [done|]. intros i s e n s' e' n'. rewrite reverse_cons.
    intros H1 H2. destruct (decide (S i < length (reverse out))) as [Hi|Hi].
    { rewrite lookup_app_l in H1, H2 by lia. eapply IH; [|done..]. by destruct out as [|[[??]?] ?]; [|destruct Ha]. }
    assert (S i = length (reverse out)) as Hl.
    { apply lookup_lt_Some in H2. rewrite length_app in H2. cbn [length] in H2. lia. }
    rewrite lookup_app_l in H1 by lia. rewrite lookup_app_r, Hl, Nat.sub_diag in H2 by lia. injection H2 as <- <- <-.
    destruct out as [|[[s1 e1] n1] out]; [done|]. destruct Ha as [Ha _].
    rewrite reverse_cons, length_app in Hl. cbn [length] in Hl.
    rewrite reverse_cons, lookup_app_r in H1 by lia. replace (i - length (reverse out)) with 0 in H1 by lia.
    by injection H1 as <- <- <-.
Qed.

Lemma glitches_grouped_witness :
  errors_of (glitches ["[ac3 @ 0x2] error"; "out_time_us=60000000"; "[ac3 @ 0x2] error"]) = 2%N.
Proof. apply (glitches_grouped ["[ac3 @ 0x2] error"; "out_time_us=60000000"; "[ac3 @ 0x2] error"]). vm_compute. reflexivity. Defined.
