(* ===== verification/Publish.v ===== *)
(** * Publishing ([apps/dvdrip/src/publish.rs])

    The three volumes are one map from locations to contents; directories are implicit, so removing
    empty ones ([prune]) does not show. Every change of a disk consults the list of [faults]: it may
    fail before or after taking effect, leave a prefix of what it wrote, or store other bytes; an
    error ends the run there, so the runs cover every crash. A look at a path consults the list of
    [stats]: a failed one says that nothing is there, as [Path::exists] does. The hash, mkvpropedit and the
    journal's format are library code: parameters. *)

From Stdlib Require Import Ascii.
From stdpp Require Import options.
From S2P Require Import Prelude Text F64 Json Classify Crd Layout Damage State.

(** ** Disks *)

Inductive Vol : Type := Work | Dvd | Movies.
#[export] Instance Vol_eq_dec : EqDecision Vol.
Proof. solve_decision. Defined.
#[export] Instance Vol_countable : Countable Vol.
Proof.
  refine (inj_countable' (λ v, match v with Work => 0 | Dvd => 1 | Movies => 2 end)
                         (λ n, match n with 0 => Work | 1 => Dvd | _ => Movies end) _).
  by intros [].
Defined.

Notation Loc := (Vol * string)%type.

(** [Partly n]: an error after the first [n] bytes (for a rename or removal: after the change when
    [n > 0]). [Corrupt c]: no error, but [c] is what the disk holds. *)
Inductive Fault : Type := Fine | Partly (n : nat) | Corrupt (content : string).

(** [stats]: the looks to come that fail, so that the path counts as absent ([Path::exists]). *)
Record Disk : Type := mkDisk { files : gmap Loc string; faults : list Fault; stats : list bool }.

Inductive PublishError : Type :=
  | LayoutFailed (e : LayoutError)
  | Io
  | WrongHash (src sum expect : string)
  | BadCopy (part written sum : string)
  | NotOurs (path : string)
  | BothTaken (dest alt : string)
  | Gone (path : string)
  | NoMaster
  | NoEncode (title : N).

Notation M := (SE Disk PublishError).

Class Tools : Type := {
  sha256_hex : string → string;
  mkvpropedit : string → string → string;
  encode_journal : list string → string;
  decode_journal : string → option (list string);
}.

Definition next_fault (d : Disk) : Fault * Disk :=
  match faults d with [] => (Fine, d) | f :: fs => (f, mkDisk (files d) fs (stats d)) end.
Definition with_files (fs : gmap Loc string) (d : Disk) : Disk := mkDisk fs (faults d) (stats d).

(** [Path::exists]: false, too, when the look fails. *)
Definition exists_ (l : Loc) : M bool := λ d,
  (mkDisk (files d) (faults d) (tail (stats d)),
   Ok (negb (default false (head (stats d))) && bool_decide (is_Some (files d !! l)))).
Definition read (l : Loc) : M string := λ d,
  let '(f, d) := next_fault d in
  match f, files d !! l with
  | Fine, Some c | Corrupt _, Some c => (d, Ok c)
  | _, _ => (d, Err Io)
  end.
(** [std::fs::write], and writing a file to its end and syncing it. *)
Definition write (l : Loc) (content : string) : M () := λ d,
  let '(f, d) := next_fault d in
  match f with
  | Fine => (with_files (<[l := content]> (files d)) d, Ok ())
  | Partly n => (with_files (<[l := str (take n (chars content))]> (files d)) d, Err Io)
  | Corrupt c => (with_files (<[l := c]> (files d)) d, Ok ())
  end.
Definition remove (l : Loc) : M () := λ d,
  let '(f, d) := next_fault d in
  match f, files d !! l with
  | Partly 0, _ | _, None => (d, Err Io)
  | Partly _, Some _ => (with_files (delete l (files d)) d, Err Io)
  | _, Some _ => (with_files (delete l (files d)) d, Ok ())
  end.
Definition rename (from to : Loc) : M () := λ d,
  let '(f, d) := next_fault d in
  match f, files d !! from with
  | Partly 0, _ | _, None => (d, Err Io)
  | Partly _, Some c => (with_files (<[to := c]> (delete from (files d))) d, Err Io)
  | _, Some c => (with_files (<[to := c]> (delete from (files d))) d, Ok ())
  end.

Definition part_of (p : string) : string := p +:+ ".part".
Definition part_loc (l : Loc) : Loc := (l.1, part_of l.2).

(** [kept_both_name]: beside someone else's file *)
Definition kept_both_name (path : string) : string :=
  match rsplit_once "." path with
  | Some (stem, ext) =>
      if negb (bool_decide (stem = "")) && negb (ends_with_char "/" stem)
      then stem +:+ " - dvdrip." +:+ ext else path +:+ " - dvdrip"
  | None => path +:+ " - dvdrip"
  end.

Example kept_both_names :
  kept_both_name "Pans Labyrinth (2006)/Pans Labyrinth (2006).mkv" = "Pans Labyrinth (2006)/Pans Labyrinth (2006) - dvdrip.mkv" ∧
  kept_both_name "Elf/noext" = "Elf/noext - dvdrip".
Proof. vm_compute. done. Qed.

Section publish.
Context `{Tools}.

Definition sha256 (l : Loc) : M string := c ← read l; mret (sha256_hex c).

(** Copy through [dst.part]: hash while copying, sync, re-read and compare, then rename. *)
Definition copy_verified (src dst : Loc) (expect : option string) : M string :=
  let part := part_loc dst in
  content ← read src;
  _ ← write part content;
  let sum := sha256_hex content in
  _ ← match expect with
      | Some e => if bool_decide (e = sum) then mret () else _ ← ok (remove part); throw (WrongHash src.2 sum e)
      | None => mret ()
      end;
  written ← sha256 part;
  _ ← (if bool_decide (written = sum) then mret () else _ ← ok (remove part); throw (BadCopy part.2 written sum));
  _ ← rename part dst;
  mret sum.

(** Running mkvpropedit on a file *)
Definition retitle (l : Loc) (title : string) : M () := c ← read l; write l (mkvpropedit c title).

(** Move inside one volume, refusing to overwrite. *)
Definition relocate (from to : Loc) : M () :=
  e ← exists_ to;
  if (e : bool) then throw (NotOurs to.2) else rename from to.

Definition target (dest : string) (ours : gset string) (notes : list string) : M (string * list string) :=
  e ← exists_ (Movies, dest);
  if negb e || bool_decide (dest ∈ ours) then mret (dest, notes)
  else
    let alt := kept_both_name dest in
    e' ← exists_ (Movies, alt);
    if e' && negb (bool_decide (alt ∈ ours)) then throw (BothTaken dest alt)
    else
      let note := dest +:+ " already exists (not from the disc rip); kept it and published the rip as " +:+ alt in
      mret (alt, if bool_decide (note ∈ notes) then notes else notes ++ [note]).

Record Options : Type := mkOptions { o_retitle : bool; o_master_sha256 : option string }.

Definition journal_loc : Loc := (Work, "publish-journal.json").
Definition master_loc : Loc := (Work, "master.iso").

Definition read_journal : M (list string) :=
  c ← ok (read journal_loc); mret (default [] (c ≫= decode_journal)).
Definition note (journal : list string) (path : string) : M (list string) :=
  let journal := journal ++ [path] in
  _ ← write journal_loc (encode_journal journal); mret journal.

(** The ISO. *)
Definition publish_iso (iso : string) (old_iso : option string) (ours : gset string) (journal : list string) (opts : Options) : M (list string) :=
  m ← exists_ master_loc;
  there ← exists_ (Dvd, iso);
  if (m : bool) then
    let mine := bool_decide (old_iso = Some iso) || bool_decide ("dvd:" +:+ iso ∈ ours) in
    if there && negb mine then throw (NotOurs iso)
    else
      _ ← copy_verified master_loc (Dvd, iso) (o_master_sha256 opts);
      journal ← note journal ("dvd:" +:+ iso);
      _ ← match old_iso with
          | Some old => if bool_decide (old ≠ iso) then ok (remove (Dvd, old)) else mret None
          | None => mret None
          end;
      mret journal
  else
    match old_iso with
    | Some old =>
        if bool_decide (old = iso) then (if (there : bool) then mret journal else throw (Gone iso))
        else _ ← relocate (Dvd, old) (Dvd, iso); mret journal
    | None => if bool_decide ("dvd:" +:+ iso ∈ ours) && there then mret journal else throw NoMaster
    end.

(** The state of the loop over the encodes. *)
Record Progress : Type := mkProgress { pr_journal : list string; pr_notes : list string; pr_out : list PublishedFile }.

(** One encode: a fresh one is copied, one published before is moved. *)
Definition publish_title (by_title : gmap N PublishedFile) (ours : gset string) (opts : Options) (pr : Progress) (p : Placement) : M Progress :=
  '(dest, notes) ← target (p_dest p) ours (pr_notes pr);
  let dst := (Movies, dest) in
  let src := (Work, p_source p) in
  let old := by_title !! p_title p in
  fresh ← exists_ src;
  journal ← (
    if (fresh : bool) then
      let part := part_loc dst in
      _ ← copy_verified src part None;
      _ ← (if o_retitle opts then retitle part (p_segment_title p) else mret ());
      _ ← rename part dst;
      journal ← note (pr_journal pr) dest;
      _ ← match old with
          | Some o => if bool_decide (pf_path o ≠ dest) then ok (remove (Movies, pf_path o)) else mret None
          | None => mret None
          end;
      mret journal
    else match old with
    | Some o =>
        _ ← (if bool_decide (pf_path o ≠ dest) then relocate (Movies, pf_path o) dst
             else e ← exists_ dst; if (e : bool) then mret () else throw (Gone dest));
        _ ← (if o_retitle opts && negb (bool_decide (pf_segment_title o = p_segment_title p))
             then retitle dst (p_segment_title p) else mret ());
        mret (pr_journal pr)
    | None => throw (NoEncode (p_title p))
    end);
  mret (mkProgress journal notes (pr_out pr ++ [mkPublishedFile (p_title p) dest (p_segment_title p)])).

(** The main feature's damage note. *)
Definition main_glitches (titles : list TitleStatus) : list N :=
  titles ≫= λ t, if bool_decide (t_role t = Main) then t_glitches t else [].
Definition publish_nfo (spec : DiscSpec) (titles : list TitleStatus) (ours : gset string) (pr : Progress) : M Progress :=
  let name := trim (spec_name spec) in
  if negb (spec_disc spec =? 1)%N then mret pr
  else match nfo (main_glitches titles) with
  | None => mret pr
  | Some text =>
      let path := name +:+ "/" +:+ name +:+ ".nfo" in
      e ← exists_ (Movies, path);
      if e && negb (bool_decide (path ∈ ours))
      then mret (mkProgress (pr_journal pr)
                   (pr_notes pr ++ [path +:+ " already exists (not from the disc rip); the damage note was not written"]) (pr_out pr))
      else
        _ ← write (Movies, path) text;
        journal ← note (pr_journal pr) path;
        mret (mkProgress journal (pr_notes pr) (pr_out pr ++ [mkPublishedFile 0 path ""]))
  end.

(** Whatever this disc published before and no longer wants. *)
Definition remove_old (keep : gset string) (_ : ()) (f : PublishedFile) : M () :=
  if bool_decide (pf_path f ∈ keep) then mret ()
  else e ← exists_ (Movies, pf_path f); if (e : bool) then remove (Movies, pf_path f) else mret ().

Definition paths (l : list PublishedFile) : gset string := list_to_set (pf_path <$> l).
Definition by_title_of (prev : list PublishedFile) : gmap N PublishedFile :=
  fold_left (λ m f, <[pf_title f := f]> m) (filter (λ f, (0 < pf_title f)%N) prev) ∅.
Definition prev_files_of (prev : option Published) : list PublishedFile :=
  match prev with Some p => pub_files p | None => [] end.

Definition publish (spec : DiscSpec) (label : string) (titles : list TitleStatus) (prev : option Published)
    (generation : Z) (opts : Options) : M Published :=
  l ← lift (match layout spec label titles with Ok l => Ok l | Err e => Err (LayoutFailed e) end);
  let prev_files := prev_files_of prev in
  journal ← read_journal;
  let ours := paths prev_files ∪ list_to_set journal in
  journal ← publish_iso (l_iso l) (prev ≫= pub_iso) ours journal opts;
  pr ← for_each (publish_title (by_title_of prev_files) ours opts) (mkProgress journal [] []) (l_files l);
  pr ← publish_nfo spec titles ours pr;
  _ ← for_each (remove_old (paths (pr_out pr))) () prev_files;
  mret (mkPublished (Some (l_iso l)) (pr_out pr) generation (pr_notes pr)).

(** After the result is recorded. *)
Definition finish_file (_ : ()) (f : PublishedFile) : M () :=
  _ ← ok (remove (Work, encode_path (pf_title f))); mret ().
Definition finish (published : Published) : M () :=
  _ ← for_each finish_file () (filter (λ f, (0 < pf_title f)%N) (pub_files published));
  _ ← ok (remove master_loc);
  _ ← ok (remove journal_loc);
  mret ().
End publish.

(** ** Files this disc did not publish *)

(** No look at a path fails. *)
Definition sighted (d : Disk) : Prop := true ∉ stats d.
Definition looked (d : Disk) : Disk := mkDisk (files d) (faults d) (tail (stats d)).
Lemma looked_sighted d : sighted d → sighted (looked d).
Proof. unfold sighted. cbn. destruct (stats d); [done|]. cbn. set_solver. Qed.
Lemma wp_exists l E (Q : bool → Disk → Prop) d :
  sighted d → Q (bool_decide (is_Some (files d !! l))) (looked d) → wp (exists_ l) E Q d.
Proof.
  unfold wp, exists_, sighted. intros Hs HQ. destruct (stats d) as [|[] st] eqn:Es; cbn; [|set_solver|].
  all: unfold looked in HQ; rewrite Es in HQ; exact HQ.
Qed.

(** The file at [l] holds [c], and the looks at paths do not fail. *)
Definition holds (l : Loc) (c : string) (d : Disk) : Prop := files d !! l = Some c ∧ sighted d.
(** [m] leaves the file at [l] alone, wherever it stops. *)
Definition keeps (l : Loc) (c : string) {A} (m : M A) : Prop :=
  ∀ d, holds l c d → wp m (holds l c) (λ _, holds l c) d.

Section keeps.
Context `{Tools} (l : Loc) (c : string).

Lemma next_fault_holds d f d' : next_fault d = (f, d') → files d' = files d ∧ stats d' = stats d.
Proof. unfold next_fault. destruct (faults d); by intros [= <- <-]. Qed.
Lemma next_fault_files d f d' : next_fault d = (f, d') → files d' = files d.
Proof. apply next_fault_holds. Qed.
(** An action of the disk that leaves [l] alone. *)
Lemma holds_fault d f d' : holds l c d → next_fault d = (f, d') → files d' !! l = Some c ∧ sighted d'.
Proof. intros [Hd Hs] [Ef Es]%next_fault_holds. unfold sighted. by rewrite Ef, Es. Qed.

Lemma keeps_ret {A} (a : A) : keeps l c (mret a).
Proof. by intros d Hd. Qed.
Lemma keeps_bind {A B} (m : M A) (f : A → M B) : keeps l c m → (∀ a, keeps l c (f a)) → keeps l c (m ≫= f).
Proof. intros Hm Hf d Hd. apply wp_bind. eapply wp_mono; [by apply Hm|done|]. intros a d' Hd'. by apply Hf. Qed.
Lemma keeps_throw {A} e : keeps l c (throw (A := A) e).
Proof. by intros d Hd. Qed.
Lemma keeps_lift {A} (r : Result A PublishError) : keeps l c (lift r).
Proof. intros d Hd. by apply wp_lift. Qed.
Lemma keeps_ok {A} (m : M A) : keeps l c m → keeps l c (ok m).
Proof. intros Hm d Hd. apply wp_ok. by apply Hm. Qed.
Lemma keeps_exists l' : keeps l c (exists_ l').
Proof. intros d [Hd Hs]. apply wp_exists; [done|]. split; [done|by apply looked_sighted]. Qed.
(** What is found out about a path that [l] is not at. *)
Lemma keeps_look {A} l' (f : bool → M A) d :
  holds l c d → (∀ d', holds l c d' → wp (f (bool_decide (is_Some (files d !! l')))) (holds l c) (λ _, holds l c) d') →
  wp (e ← exists_ l'; f e) (holds l c) (λ _, holds l c) d.
Proof. intros [Hd Hs] Hf. apply wp_bind, wp_exists; [done|]. apply Hf. split; [done|by apply looked_sighted]. Qed.
Lemma keeps_read l' : keeps l c (read l').
Proof.
  intros d Hd. unfold wp, read. destruct (next_fault d) as [f d'] eqn:E. pose proof (holds_fault _ _ _ Hd E) as [Hf Hs].
  by destruct f, (files d' !! l').
Qed.
Lemma keeps_write l' content : l' ≠ l → keeps l c (write l' content).
Proof.
  intros Hl d Hd. unfold wp, write. destruct (next_fault d) as [f d'] eqn:E. pose proof (holds_fault _ _ _ Hd E) as [Hf Hs].
  destruct f; (split; [cbn; by rewrite lookup_insert_ne|done]).
Qed.
Lemma keeps_remove l' : l' ≠ l → keeps l c (remove l').
Proof.
  intros Hl d Hd. unfold wp, remove. destruct (next_fault d) as [f d'] eqn:E. pose proof (holds_fault _ _ _ Hd E) as [Hf Hs].
  destruct f as [|[|n]|], (files d' !! l'); (split; [cbn; rewrite ?lookup_delete_ne; done|done]).
Qed.
Lemma keeps_rename l1 l2 : l1 ≠ l → l2 ≠ l → keeps l c (rename l1 l2).
Proof.
  intros H1 H2 d Hd. unfold wp, rename. destruct (next_fault d) as [f d'] eqn:E. pose proof (holds_fault _ _ _ Hd E) as [Hf Hs].
  destruct f as [|[|n]|], (files d' !! l1); (split; [cbn; rewrite ?lookup_insert_ne, ?lookup_delete_ne; done|done]).
Qed.
Lemma keeps_for_each {A B} (f : B → A → M B) b xs : (∀ b x, x ∈ xs → keeps l c (f b x)) → keeps l c (for_each f b xs).
Proof.
  revert b. induction xs as [|x xs IH]; intros b Hf; cbn [for_each]; [apply keeps_ret|].
  apply keeps_bind; [apply Hf; left|]. intros b'. apply IH. intros b2 y Hy. apply Hf. by right.
Qed.

Lemma keeps_copy src dst expect : part_loc dst ≠ l → dst ≠ l → keeps l c (copy_verified src dst expect).
Proof.
  intros Hp Hd. unfold copy_verified.
  apply keeps_bind; [apply keeps_read|]. intros content.
  apply keeps_bind; [by apply keeps_write|]. intros _.
  assert (∀ {A} e, keeps l c (_ ← ok (remove (part_loc dst)); throw (A := A) e)) as Hbail.
  { intros A e. apply keeps_bind; [by apply keeps_ok, keeps_remove|]. intros _. apply keeps_throw. }
  apply keeps_bind. { destruct expect; [case_bool_decide; [apply keeps_ret|apply Hbail]|apply keeps_ret]. }
  intros _. unfold sha256. apply keeps_bind; [apply keeps_bind; [apply keeps_read|intros; apply keeps_ret]|].
  intros written. apply keeps_bind; [case_bool_decide; [apply keeps_ret|apply Hbail]|].
  intros _. apply keeps_bind; [by apply keeps_rename|]. intros _. apply keeps_ret.
Qed.
Lemma keeps_retitle l' title : l' ≠ l → keeps l c (retitle l' title).
Proof. intros Hl. apply keeps_bind; [apply keeps_read|]. intros ?. by apply keeps_write. Qed.
Lemma keeps_relocate from to : from ≠ l → to ≠ l → keeps l c (relocate from to).
Proof.
  intros H1 H2. apply keeps_bind; [apply keeps_exists|]. intros []; [apply keeps_throw|by apply keeps_rename].
Qed.
Lemma keeps_note journal path : l.1 ≠ Work → keeps l c (note journal path).
Proof.
  intros Hl. apply keeps_bind; [|intros; apply keeps_ret]. apply keeps_write. intros <-. by apply Hl.
Qed.

(** ** Ownership *)

Definition is_part (p : string) : Prop := ∃ q, p = part_of q.

(** A file that is neither in the last published record nor in the journal. *)
Definition foreign (ours : gset string) (old_iso : option string) : Prop :=
  match l.1 with
  | Work => False
  | Dvd => old_iso ≠ Some l.2 ∧ "dvd:" +:+ l.2 ∉ ours
  | Movies => l.2 ∉ ours
  end ∧ ¬ is_part l.2.

Context (ours : gset string) (old_iso : option string) (Hf : foreign ours old_iso).

Ltac foreign_is E := destruct Hf as [Hv Hnp]; rewrite <- E in Hv, Hnp; cbn in Hv, Hnp.
Lemma foreign_work p : (Work, p) ≠ l.
Proof using Hf. intros E. by foreign_is E. Qed.
Lemma foreign_part l' : part_loc l' ≠ l.
Proof using Hf. intros E. foreign_is E. apply Hnp. by exists l'.2. Qed.
Lemma foreign_ours p : p ∈ ours → (Movies, p) ≠ l.
Proof using Hf. intros Hp E. by foreign_is E. Qed.
Lemma foreign_iso p : old_iso = Some p ∨ "dvd:" +:+ p ∈ ours → (Dvd, p) ≠ l.
Proof using Hf. intros Hp E. foreign_is E. naive_solver. Qed.
Lemma foreign_not_work : l.1 ≠ Work.
Proof using Hf. intros E. destruct Hf as [Hv _]. by rewrite E in Hv. Qed.
(** A path nothing was at is not [l]. *)
Lemma absent_not (d : Disk) l' : files d !! l = Some c → ¬ is_Some (files d !! l') → l' ≠ l.
Proof. intros Hd Hp E. apply Hp. by rewrite E, Hd. Qed.

Lemma target_safe dest notes d :
  holds l c d → wp (target dest ours notes) (holds l c) (λ r d', holds l c d' ∧ (Movies, r.1) ≠ l) d.
Proof using Hf.
  intros [Hd Hs]. unfold target. apply wp_bind, wp_exists; [done|].
  assert (holds l c (looked d)) as Hd1 by (split; [done|by apply looked_sighted]).
  destruct (negb _ || bool_decide (dest ∈ ours)) eqn:E1.
  { apply wp_ret. split; [done|]. cbn. bool_prop.
    destruct E1 as [E1|E1]; bool_prop; [exact (absent_not d _ Hd E1)|by apply foreign_ours]. }
  apply wp_bind, wp_exists; [apply Hd1|].
  assert (holds l c (looked (looked d))) as Hd2 by (split; [done|by apply looked_sighted, looked_sighted]).
  destruct (bool_decide _ && negb _) eqn:E2; [by apply wp_throw|].
  apply wp_ret. split; [done|]. cbn. apply andb_false_iff in E2 as [E2|E2]; bool_prop; [exact (absent_not d _ Hd E2)|].
  by apply foreign_ours.
Qed.

Lemma keeps_relocate_free from to : from ≠ l → keeps l c (relocate from to).
Proof using Hf.
  intros Hfrom d Hd. pose proof Hd as [Hl _]. unfold relocate. apply keeps_look; [done|]. intros d1 Hd1.
  case_bool_decide as He; [by apply wp_throw|]. apply keeps_rename; [done|exact (absent_not d _ Hl He)|done].
Qed.

Lemma publish_iso_keeps iso journal opts : keeps l c (publish_iso iso old_iso ours journal opts).
Proof using Hf.
  pose proof foreign_iso as Hfi. pose proof foreign_part as Hfp. pose proof foreign_not_work as Hfw.
  pose proof keeps_relocate_free as Hrel. clear Hf.
  intros d0 Hd0. unfold publish_iso. apply keeps_look; [done|]. intros d Hd. pose proof Hd as [Hl _].
  generalize (bool_decide (is_Some (files d0 !! master_loc))). clear d0 Hd0. intros m.
  apply keeps_look; [done|]. intros d1 Hd1. destruct m.
  - destruct (bool_decide (is_Some (files d !! (Dvd, iso))) && _) eqn:E; [by apply wp_throw|].
    assert ((Dvd, iso) ≠ l) as Hiso.
    { apply andb_false_iff in E as [E|E]; bool_prop; [exact (absent_not d _ Hl E)|]. apply Hfi.
      destruct E as [E|E]; bool_prop; auto. }
    clear E. revert d1 Hd1.
    apply keeps_bind; [apply keeps_copy; [apply Hfp|done]|]. intros _.
    apply keeps_bind; [apply keeps_note, Hfw|]. intros j.
    apply keeps_bind; [|intros; apply keeps_ret]. destruct old_iso as [old|] eqn:Eo; [|apply keeps_ret].
    case_bool_decide; [|apply keeps_ret]. apply keeps_ok, keeps_remove, Hfi. by left.
  - destruct old_iso as [old|] eqn:Eo.
    + case_bool_decide; [case_match; [by apply wp_ret|by apply wp_throw]|].
      revert d1 Hd1. apply keeps_bind; [apply Hrel, Hfi; by left|]. intros _. apply keeps_ret.
    + case_match; [by apply wp_ret|by apply wp_throw].
Qed.

Lemma publish_title_keeps by_title opts pr p :
  (∀ t o, by_title !! t = Some o → pf_path o ∈ ours) → keeps l c (publish_title by_title ours opts pr p).
Proof using Hf.
  intros Hby d Hd. unfold publish_title. apply wp_bind. eapply wp_mono; [by apply target_safe|done|].
  intros [dest notes] d0 [Hd0 Hdest]. cbn in Hdest. apply keeps_look; [done|]. intros d1 Hd1. apply wp_bind.
  apply (wp_mono _ (holds l c) _ (λ _, holds l c)); [|done|intros j d2 Hd2; by apply wp_ret].
  assert (∀ o, by_title !! p_title p = Some o → (Movies, pf_path o) ≠ l) as Hold
    by (intros o Ho; by eapply foreign_ours, Hby).
  destruct (bool_decide (is_Some (files d0 !! (Work, p_source p)))).
  - revert d1 Hd1.
    apply keeps_bind; [apply keeps_copy; [apply foreign_part|apply (foreign_part (Movies, dest))]|]. intros _.
    apply keeps_bind; [case_match; [apply keeps_retitle, (foreign_part (Movies, dest))|apply keeps_ret]|]. intros _.
    apply keeps_bind; [apply keeps_rename; [apply (foreign_part (Movies, dest))|done]|]. intros _.
    apply keeps_bind; [apply keeps_note, foreign_not_work|]. intros j.
    apply keeps_bind; [|intros; apply keeps_ret]. destruct (by_title !! p_title p) as [o|] eqn:Eo; [|apply keeps_ret].
    case_bool_decide; [|apply keeps_ret]. by apply keeps_ok, keeps_remove, Hold.
  - revert d1 Hd1.
    destruct (by_title !! p_title p) as [o|] eqn:Eo; [|apply keeps_throw].
    apply keeps_bind; [case_bool_decide; [apply keeps_relocate; [by apply Hold|done]|]|].
    { apply keeps_bind; [apply keeps_exists|]. intros []; [apply keeps_ret|apply keeps_throw]. }
    intros _. apply keeps_bind; [case_match; [by apply keeps_retitle|apply keeps_ret]|]. intros _. apply keeps_ret.
Qed.

Lemma publish_nfo_keeps spec titles pr : keeps l c (publish_nfo spec titles ours pr).
Proof using Hf.
  intros d Hd. pose proof Hd as [Hl _]. unfold publish_nfo. case_match; [by apply wp_ret|]. destruct (nfo _) as [text|]; [|by apply wp_ret].
  apply keeps_look; [done|]. intros d1 Hd1. destruct (bool_decide _ && _) eqn:E; [by apply wp_ret|].
  assert ((Movies, trim (spec_name spec) +:+ "/" +:+ trim (spec_name spec) +:+ ".nfo") ≠ l) as Hne.
  { apply andb_false_iff in E as [E|E]; bool_prop; [exact (absent_not d _ Hl E)|]. by apply foreign_ours. }
  revert d1 Hd1. apply keeps_bind; [by apply keeps_write|].
  intros _. apply keeps_bind; [apply keeps_note, foreign_not_work|]. intros; apply keeps_ret.
Qed.

Lemma remove_old_keeps keep prev :
  (∀ f, f ∈ prev → pf_path f ∈ ours) → keeps l c (for_each (remove_old keep) () prev).
Proof using Hf.
  intros Hp. apply keeps_for_each. intros [] f Hin. unfold remove_old. case_bool_decide; [apply keeps_ret|].
  apply keeps_bind; [apply keeps_exists|]. intros []; [|apply keeps_ret]. by apply keeps_remove, foreign_ours, Hp.
Qed.
End keeps.

Lemma by_title_in prev t o : by_title_of prev !! t = Some o → o ∈ prev ∧ pf_title o = t.
Proof.
  unfold by_title_of.
  assert (∀ l (m : gmap N PublishedFile), (∀ t o, m !! t = Some o → o ∈ prev ∧ pf_title o = t) → (∀ f, f ∈ l → f ∈ prev) →
    fold_left (λ m f, <[pf_title f := f]> m) l m !! t = Some o → o ∈ prev ∧ pf_title o = t) as Hgen.
  { induction l as [|f l IH]; intros m Hm Hl; cbn [fold_left]; [by apply Hm|].
    apply IH; [|intros g Hg; apply Hl; by right].
    intros t' o' [[<- <-]|[_ Ho]]%lookup_insert_Some; [split; [apply Hl; left|done]|by apply Hm]. }
  apply Hgen; [by intros ? ? ?|]. intros f [_ Hf]%list_elem_of_filter. done.
Qed.
Lemma elem_of_paths p fs : p ∈ paths fs ↔ ∃ f, f ∈ fs ∧ pf_path f = p.
Proof. unfold paths. rewrite elem_of_list_to_set, list_elem_of_fmap. naive_solver. Qed.

Section safety.
Context `{Tools}.

(** The journal an earlier run left. *)
Definition journal_of (d : Disk) : list string := default [] (files d !! journal_loc ≫= decode_journal).

Lemma foreign_weaken l ours ours' old_iso : ours' ⊆ ours → foreign l ours old_iso → foreign l ours' old_iso.
Proof. unfold foreign. destruct l as [[] p]; cbn; set_solver. Qed.

(** C10: publish never overwrites, moves or removes a file it did not publish itself: a file of the
    libraries that is neither in the last record nor in the journal has its content at the end,
    whatever write, rename or removal fails or stores other bytes and wherever the run is cut, as
    long as the looks whether a path is taken do not fail (see [failed_stat_overwrites]). Excepted
    are files by the names of publish's own temporary files, those ending in [.part]. *)
Theorem publish_keeps_foreign spec label titles prev generation opts d l c :
  sighted d → foreign l (paths (prev_files_of prev) ∪ list_to_set (journal_of d)) (prev ≫= pub_iso) →
  files d !! l = Some c →
  files (publish spec label titles prev generation opts d).1 !! l = Some c.
Proof.
  intros Hs Hf Hd. apply (wp_result _ (holds l c)). unfold publish.
  apply wp_bind, wp_lift; [done|]. intros lay _.
  apply wp_bind. unfold read_journal. apply wp_bind, wp_ok.
  assert (∀ journal, list_to_set journal ⊆@{gset string} list_to_set (journal_of d) → ∀ d1, holds l c d1 →
    wp (journal0 ← publish_iso (l_iso lay) (prev ≫= pub_iso) (paths (prev_files_of prev) ∪ list_to_set journal) journal opts;
        pr ← for_each (publish_title (by_title_of (prev_files_of prev)) (paths (prev_files_of prev) ∪ list_to_set journal) opts)
               (mkProgress journal0 [] []) (l_files lay);
        pr0 ← publish_nfo spec titles (paths (prev_files_of prev) ∪ list_to_set journal) pr;
        _ ← for_each (remove_old (paths (pr_out pr0))) () (prev_files_of prev);
        mret (mkPublished (Some (l_iso lay)) (pr_out pr0) generation (pr_notes pr0)))
      (holds l c) (λ _, holds l c) d1) as Hrest.
  { intros journal Hj. set (ours := paths (prev_files_of prev) ∪ list_to_set journal).
    assert (foreign l ours (prev ≫= pub_iso)) as Hf' by (eapply foreign_weaken; [|exact Hf]; set_solver).
    assert (∀ f, f ∈ prev_files_of prev → pf_path f ∈ ours) as Hours.
    { intros f Hin. apply elem_of_union_l, elem_of_paths. eauto. }
    apply keeps_bind; [by apply publish_iso_keeps|]. intros j.
    apply keeps_bind.
    { apply keeps_for_each. intros pr p _. eapply publish_title_keeps; [exact Hf'|].
      intros t o Ho. by apply Hours, (by_title_in _ t). }
    intros pr. apply keeps_bind; [by eapply publish_nfo_keeps|]. intros pr'.
    apply keeps_bind; [by eapply remove_old_keeps|]. intros _. apply keeps_ret. }
  unfold wp at 1, read. destruct (next_fault d) as [f d'] eqn:E.
  assert (holds l c d') as Hd' by (by apply (holds_fault l c d f)). apply next_fault_files in E.
  assert (∀ cj, files d' !! journal_loc = Some cj → default [] (Some cj ≫= decode_journal) = journal_of d) as Hjo.
  { intros cj Hcj. unfold journal_of. by rewrite <- E, Hcj. }
  destruct f, (files d' !! journal_loc) as [cj|] eqn:Ej; apply wp_ret, Hrest; try done;
    try (rewrite (Hjo cj eq_refl); done); cbn; set_solver.
Qed.
End safety.

(** ** Copies are verified *)

Section copying.
Context `{Tools}.

(** What [dst] holds is a copy of [src], and the expected hash was met. *)
Definition verified (d d' : Disk) (src dst : Loc) (expect : option string) (sum : string) : Prop :=
  ∃ c0 c, files d !! src = Some c0 ∧ sum = sha256_hex c0 ∧ (∀ e, expect = Some e → e = sum) ∧
          files d' !! dst = Some c ∧ sha256_hex c = sum.

Lemma read_any l d : wp (read l) (λ d', files d' = files d) (λ c d', files d !! l = Some c ∧ files d' = files d) d.
Proof.
  unfold wp, read. destruct (next_fault d) as [f d'] eqn:E. apply next_fault_files in E.
  destruct f, (files d' !! l) eqn:El; rewrite E in El; done.
Qed.
Lemma part_loc_ne l : part_loc l ≠ l.
Proof.
  destruct l as [v p]. unfold part_loc, part_of. cbn. intros [= E].
  apply (f_equal String.length) in E. rewrite str_length_app in E. cbn in E. lia.
Qed.
(** Writing and removing the part file leaves the target alone. *)
Lemma part_write_any dst content d :
  wp (write (part_loc dst) content) (λ d', files d' !! dst = files d !! dst) (λ _ d', files d' !! dst = files d !! dst) d.
Proof.
  pose proof (part_loc_ne dst). unfold wp, write. destruct (next_fault d) as [f d'] eqn:E. apply next_fault_files in E.
  destruct f; cbn; rewrite lookup_insert_ne, E; done.
Qed.
Lemma part_remove_any dst d :
  wp (ok (remove (part_loc dst))) (λ _, False) (λ _ d', files d' !! dst = files d !! dst) d.
Proof.
  pose proof (part_loc_ne dst). apply wp_ok. unfold wp, remove.
  destruct (next_fault d) as [f d'] eqn:E. apply next_fault_files in E.
  destruct f as [|[|n]|], (files d' !! part_loc dst); cbn; rewrite ?lookup_delete_ne, E; done.
Qed.

(** After [copy_verified], the target holds bytes with the hash of the source (the recorded hash,
    when there is one); until then it is what it was before, even if the disk stores other bytes
    than those written or the run is cut anywhere. *)
Theorem copy_verified_spec src dst expect d :
  wp (copy_verified src dst expect)
     (λ d', files d' !! dst = files d !! dst ∨ ∃ sum, verified d d' src dst expect sum)
     (λ sum d', verified d d' src dst expect sum) d.
Proof.
  unfold copy_verified. apply wp_bind. eapply wp_mono; [apply read_any|intros d' E; left; by rewrite E|].
  intros c0 d1 [Hc0 E1]. apply wp_bind. eapply wp_mono; [apply part_write_any|intros d' E; left; by rewrite E, E1|].
  intros [] d2 E2. set (sum := sha256_hex c0).
  assert (∀ A e d3, files d3 !! dst = files d !! dst →
    wp (_ ← ok (remove (part_loc dst)); throw (A := A) e)
       (λ d', files d' !! dst = files d !! dst ∨ ∃ sum, verified d d' src dst expect sum) (λ _ _, False) d3) as Hbail.
  { intros A e d3 E3. apply wp_bind. eapply wp_mono; [apply part_remove_any|done|].
    intros a4 d4 E4. cbn in E4. apply wp_throw. left. by rewrite E4, E3. }
  assert (files d2 !! dst = files d !! dst) as E20 by (by rewrite E2, E1). clear E1 E2.
  apply wp_bind. apply (wp_mono _ (λ d', files d' !! dst = files d !! dst ∨ ∃ sum, verified d d' src dst expect sum) _
    (λ _ d', files d' !! dst = files d !! dst ∧ ∀ e, expect = Some e → e = sum)); [|done|].
  { destruct expect as [e|]; [|by apply wp_ret]. case_bool_decide; [apply wp_ret; split; [done|by intros ? [= <-]]|].
    eapply wp_mono; [by apply Hbail|done|done]. }
  intros _ d3 [E3 He]. apply wp_bind. unfold sha256. apply wp_bind.
  eapply wp_mono; [apply read_any|intros d' E; left; by rewrite E|]. intros c d4 [Hc E4]. apply wp_ret.
  apply wp_bind. case_bool_decide as Hsum; [|eapply wp_mono; [apply Hbail; by rewrite E4|done|done]].
  apply wp_ret, wp_bind. unfold wp at 1, rename.
  destruct (next_fault d4) as [f d5] eqn:E5. apply next_fault_files in E5. rewrite E5, E4, Hc.
  assert (∀ d', files d' !! dst = Some c → verified d d' src dst expect sum) as Hv by (intros d' Hd'; by exists c0, c).
  destruct f as [|[|n]|]; cbn.
  - apply Hv. cbn. by rewrite lookup_insert_eq.
  - left. by rewrite E5, E4.
  - right. exists sum. apply Hv. cbn. by rewrite lookup_insert_eq.
  - apply Hv. cbn. by rewrite lookup_insert_eq.
Qed.
End copying.

(** ** The libraries hold what the record says *)

Section complete.
Context `{Tools}.

(** No disk stores other bytes than those written, and no look at a path fails. *)
Definition honest (d : Disk) : Prop := (∀ c, Corrupt c ∉ faults d) ∧ sighted d.
Definition anyway : Disk → Prop := λ _, True.

Lemma next_fault_honest d f d' :
  honest d → next_fault d = (f, d') → files d' = files d ∧ honest d' ∧ ∀ c, f ≠ Corrupt c.
Proof.
  unfold honest, next_fault. intros [Hd Hs]. destruct (faults d) as [|g gs] eqn:E; intros [= <- <-]; cbn.
  - split_and!; [done|by rewrite E|done..].
  - split_and!; [done|set_solver|done|intros c ->; apply (Hd c); left].
Qed.
Lemma looked_honest d : honest d → honest (looked d).
Proof. intros [Hc Hs]. split; [done|by apply looked_sighted]. Qed.
Lemma exists_spec l E (Q : bool → Disk → Prop) d :
  honest d → (∀ d', files d' = files d → honest d' → Q (bool_decide (is_Some (files d !! l))) d') → wp (exists_ l) E Q d.
Proof. intros Hd HQ. apply wp_exists; [apply Hd|]. by apply HQ; [|apply looked_honest]. Qed.
Lemma read_spec l d :
  honest d → wp (read l) anyway (λ c d', files d !! l = Some c ∧ files d' = files d ∧ honest d') d.
Proof.
  intros Hd. unfold wp, read. destruct (next_fault d) as [f d'] eqn:E. apply next_fault_honest in E as (E & Hd' & _); [|done].
  destruct f, (files d' !! l) eqn:El; rewrite E in El; done.
Qed.
Lemma write_spec l c d :
  honest d → wp (write l c) anyway (λ _ d', files d' = <[l := c]> (files d) ∧ honest d') d.
Proof.
  intros Hd. unfold wp, write. destruct (next_fault d) as [f d'] eqn:E. apply next_fault_honest in E as (E & Hd' & Hf); [|done].
  destruct f; [by rewrite <- E|done|by destruct (Hf content)].
Qed.
Lemma remove_spec l d :
  honest d → wp (remove l) anyway (λ _ d', files d' = delete l (files d) ∧ honest d') d.
Proof.
  intros Hd. unfold wp, remove. destruct (next_fault d) as [f d'] eqn:E. apply next_fault_honest in E as (E & Hd' & Hf); [|done].
  destruct f as [|[|n]|], (files d' !! l); cbn; try done; by rewrite <- E.
Qed.
Lemma remove_ok_spec l d :
  honest d → wp (ok (remove l)) anyway (λ _ d', (∀ x, x ≠ l → files d' !! x = files d !! x) ∧ honest d') d.
Proof.
  intros Hd. apply wp_ok. unfold wp, remove.
  destruct (next_fault d) as [f d'] eqn:E. apply next_fault_honest in E as (E & Hd' & Hf); [|done].
  destruct f as [|[|n]|], (files d' !! l); cbn; (split; [|done]); intros x Hx; rewrite ?lookup_delete_ne, E; done.
Qed.
Lemma rename_spec from to d :
  honest d → wp (rename from to) anyway
    (λ _ d', ∃ c, files d !! from = Some c ∧ files d' = <[to := c]> (delete from (files d)) ∧ honest d') d.
Proof.
  intros Hd. unfold wp, rename. destruct (next_fault d) as [f d'] eqn:E. apply next_fault_honest in E as (E & Hd' & Hf); [|done].
  destruct f as [|[|n]|], (files d' !! from) eqn:El; cbn; try done; eexists; rewrite <- E; done.
Qed.

(** What a part of publish may change, besides its temporary files. *)
Definition only (X : Loc → Prop) (d d' : Disk) : Prop :=
  ∀ x, ¬ X x → ¬ is_part x.2 → files d' !! x = files d !! x.
Lemma only_refl X d : only X d d.
Proof. done. Qed.
Lemma only_trans X d1 d2 d3 : only X d1 d2 → only X d2 d3 → only X d1 d3.
Proof. intros H1 H2 x Hx Hp. by rewrite H2, H1. Qed.
Lemma only_mono (X Y : Loc → Prop) d d' : (∀ x, X x → Y x) → only X d d' → only Y d d'.
Proof. intros HXY HX x Hx. apply HX. auto. Qed.

Lemma copy_spec src dst expect d :
  honest d → wp (copy_verified src dst expect) anyway
    (λ _ d', honest d' ∧ files d' !! dst = files d !! src ∧ is_Some (files d !! src) ∧ only (eq dst) d d') d.
Proof.
  intros Hd. pose proof (part_loc_ne dst) as Hne. unfold copy_verified.
  apply wp_bind. eapply wp_mono; [by apply read_spec|done|]. intros c0 d1 (Hc0 & E1 & Hd1).
  apply wp_bind. eapply wp_mono; [by apply write_spec|done|]. intros a2 d2 [E2 Hd2]. cbn in *.
  assert (∀ A e d3, wp (_ ← ok (remove (part_loc dst)); throw (A := A) e) anyway (λ _ _, False) d3) as Hbail.
  { intros A e d3. apply wp_bind, wp_intro; [done|]. intros. by apply wp_throw. }
  apply wp_bind. apply (wp_mono _ anyway _ (λ _ d', d' = d2)); [|done|].
  { destruct expect; [|by apply wp_ret]. case_bool_decide; [by apply wp_ret|]. eapply wp_mono; [apply Hbail|done|done]. }
  intros _ ? ->. apply wp_bind. unfold sha256. apply wp_bind. eapply wp_mono; [by apply read_spec|done|].
  intros c d4 (Hc & E4 & Hd4). apply wp_ret, wp_bind. case_bool_decide; [|eapply wp_mono; [apply Hbail|done|done]].
  apply wp_ret, wp_bind. eapply wp_mono; [by apply rename_spec|done|]. intros a5 d5 (c' & Hc' & E5 & Hd5). apply wp_ret.
  rewrite E4, E2, lookup_insert_eq in Hc'. injection Hc' as <-. split; [done|].
  rewrite E5, lookup_insert_eq, Hc0. split_and!; [done..|].
  intros x Hx Hp. rewrite E5, lookup_insert_ne by done.
  assert (part_loc dst ≠ x) by (intros <-; apply Hp; by exists dst.2).
  by rewrite lookup_delete_ne, E4, E2, lookup_insert_ne, E1.
Qed.
Lemma retitle_spec l title d :
  honest d → wp (retitle l title) anyway
    (λ _ d', honest d' ∧ ∃ c, files d !! l = Some c ∧ files d' = <[l := mkvpropedit c title]> (files d)) d.
Proof.
  intros Hd. apply wp_bind. eapply wp_mono; [by apply read_spec|done|]. intros c d1 (Hc & E1 & Hd1).
  eapply wp_mono; [by apply write_spec|done|]. intros a d2 [E2 Hd2]. cbn. split; [done|]. exists c. by rewrite E2, E1.
Qed.
Lemma note_spec journal path d :
  honest d → wp (note journal path) anyway (λ _ d', honest d' ∧ only (eq journal_loc) d d') d.
Proof.
  intros Hd. apply wp_bind. eapply wp_mono; [by apply write_spec|done|]. intros a d1 [E1 Hd1]. apply wp_ret.
  split; [done|]. intros x Hx _. by rewrite E1, lookup_insert_ne.
Qed.

(** ** One encode *)

(** The content an encode is published with. *)
Definition expected (opts : Options) (old : option PublishedFile) (fs : gmap Loc string) (p : Placement) : option string :=
  match fs !! (Work, p_source p) with
  | Some c => Some (if o_retitle opts then mkvpropedit c (p_segment_title p) else c)
  | None =>
      o ← old; c ← fs !! (Movies, pf_path o);
      Some (if o_retitle opts && negb (bool_decide (pf_segment_title o = p_segment_title p))
            then mkvpropedit c (p_segment_title p) else c)
  end.

(** The files one round of the loop may change. *)
Definition touched (dest : string) (old : option PublishedFile) (x : Loc) : Prop :=
  x = (Movies, dest) ∨ x = journal_loc ∨ ∃ o, old = Some o ∧ pf_path o ≠ dest ∧ x = (Movies, pf_path o).

Lemma target_spec dest ours notes d :
  honest d →
  wp (target dest ours notes) anyway (λ r d', files d' = files d ∧ honest d' ∧ r.1 ∈ [dest; kept_both_name dest]) d.
Proof.
  intros Hd. unfold target. apply wp_bind, exists_spec; [done|]. intros d1 E1 H1.
  case_match; [apply wp_ret; split_and!; [done..|left]|].
  apply wp_bind, exists_spec; [done|]. intros d2 E2 H2.
  case_match; [by apply wp_throw|]. apply wp_ret. split_and!; [congruence|done|right; left].
Qed.
Lemma only_files X d d1 d2 : files d1 = files d → only X d1 d2 → only X d d2.
Proof. intros E Ho x Hx Hp. rewrite Ho by done. by rewrite E. Qed.

Lemma round_spec by_title ours opts pr p d :
  honest d → (∀ dest, dest ∈ [p_dest p; kept_both_name (p_dest p)] → ¬ is_part dest) →
  wp (publish_title by_title ours opts pr p) anyway
    (λ pr' d', honest d' ∧ ∃ dest c,
       pr_out pr' = pr_out pr ++ [mkPublishedFile (p_title p) dest (p_segment_title p)] ∧ ¬ is_part dest ∧
       expected opts (by_title !! p_title p) (files d) p = Some c ∧ files d' !! (Movies, dest) = Some c ∧
       only (touched dest (by_title !! p_title p)) d d') d.
Proof.
  intros Hd0 Hpart. unfold publish_title. apply wp_bind. eapply wp_mono; [by apply target_spec|done|].
  intros [dest notes] da (Ea & Hda & Hdest). cbn in Hdest. specialize (Hpart dest Hdest). clear Hdest Hd0.
  apply wp_bind, exists_spec; [done|]. intros db Eb Hd. rewrite Ea in Eb |- *. rewrite <- Eb. clear da Ea Hda.
  apply (wp_mono _ anyway _ (λ pr' d', honest d' ∧ ∃ dest c,
       pr_out pr' = pr_out pr ++ [mkPublishedFile (p_title p) dest (p_segment_title p)] ∧ ¬ is_part dest ∧
       expected opts (by_title !! p_title p) (files db) p = Some c ∧ files d' !! (Movies, dest) = Some c ∧
       only (touched dest (by_title !! p_title p)) db d')); [|done|].
  2:{ intros pr' d' (Hd' & dst & c & ? & ? & He & Hc & Ho). split; [done|]. exists dst, c.
      split_and!; try done. by eapply only_files. }
  clear d Eb. rename db into d. apply wp_bind. set (old := by_title !! p_title p).
  apply (wp_mono _ anyway _ (λ _ d', honest d' ∧ ∃ c, expected opts old (files d) p = Some c ∧
    files d' !! (Movies, dest) = Some c ∧ only (touched dest old) d d')); [|done|].
  2:{ intros j d' (Hd' & c & Hc). apply wp_ret. split; [done|]. exists dest, c. split; [done|]. split; [done|exact Hc]. }
  unfold expected. destruct (files d !! (Work, p_source p)) as [c0|] eqn:Esrc.
  - rewrite bool_decide_eq_true_2 by done. set (part := part_loc (Movies, dest)).
    assert (is_part part.2) as Hpp by by exists dest.
    assert (∀ x, ¬ is_part x.2 → part ≠ x) as Hpx by (intros x Hx <-; done).
    apply wp_bind. eapply wp_mono; [by apply copy_spec|done|]. intros sum d1 (Hd1 & Ec & _ & H1). rewrite Esrc in Ec.
    set (content := if o_retitle opts then mkvpropedit c0 (p_segment_title p) else c0).
    apply wp_bind. apply (wp_mono _ anyway _ (λ _ d2, honest d2 ∧ files d2 !! part = Some content ∧ only (eq part) d d2)); [|done|].
    { unfold content. destruct (o_retitle opts); [|by apply wp_ret]. eapply wp_mono; [by apply retitle_spec|done|].
      intros a d2 (Hd2 & c & Hc & E2). split; [done|]. rewrite E2, lookup_insert_eq.
      split; [congruence|]. eapply only_trans; [exact H1|]. intros x Hx _. by rewrite E2, lookup_insert_ne. }
    intros _ d2 (Hd2 & E2 & H2). apply wp_bind. eapply wp_mono; [by apply rename_spec|done|].
    intros a3 d3 (c & Hc & E3 & Hd3). rewrite E2 in Hc. injection Hc as <-.
    apply wp_bind. eapply wp_mono; [by apply note_spec|done|]. intros j d4 [Hd4 H4].
    assert (files d4 !! (Movies, dest) = Some content ∧ only (touched dest old) d d4) as [E4 H04].
    { split; [rewrite H4; [by rewrite E3, lookup_insert_eq|done|done]|]. intros x Hx Hp.
      rewrite H4; [|by intros <-; apply Hx; right; left|done].
      rewrite E3, lookup_insert_ne by (intros <-; apply Hx; by left).
      rewrite lookup_delete_ne by by apply Hpx. apply H2; [by apply Hpx|done]. }
    apply wp_bind. apply (wp_mono _ anyway _ (λ _ d5, honest d5 ∧ files d5 !! (Movies, dest) = Some content ∧ only (touched dest old) d d5));
      [|done|by intros _ d5 (Hd5 & E5 & H5); apply wp_ret; split; [done|exists content]].
    destruct old as [o|] eqn:Eo; [|by apply wp_ret]. case_bool_decide as Hod; [|by apply wp_ret].
    eapply wp_mono; [by apply remove_ok_spec|done|]. intros a5 d5 [H5 Hd5]. split; [done|].
    split; [rewrite H5; [done|congruence]|]. eapply only_trans; [exact H04|]. intros x Hx Hp. apply H5.
    intros ->. apply Hx. right; right. by exists o.
  - rewrite bool_decide_eq_false_2 by by intros [? ?]. destruct old as [o|] eqn:Eo; [|by apply wp_throw].
    apply wp_bind. apply (wp_mono _ anyway _ (λ _ d1, honest d1 ∧ files d1 !! (Movies, dest) = files d !! (Movies, pf_path o) ∧
      is_Some (files d1 !! (Movies, dest)) ∧ only (touched dest (Some o)) d d1)); [|done|].
    { case_bool_decide as Hod.
      - unfold relocate. apply wp_bind, exists_spec; [done|]. intros d0 E0 Hd0. case_match; [by apply wp_throw|].
        eapply wp_mono; [by apply rename_spec|done|]. intros a1 d1 (c & Hc & E1 & Hd1). split; [done|]. rewrite E0 in Hc, E1.
        rewrite E1, lookup_insert_eq. split_and!; [done..|]. intros x Hx Hp. rewrite E1.
        rewrite lookup_insert_ne by (intros <-; apply Hx; by left).
        apply lookup_delete_ne. intros <-. apply Hx. right; right. by exists o.
      - apply wp_bind, exists_spec; [done|]. intros d0 E0 Hd0. case_bool_decide; [|by apply wp_throw]. apply wp_ret. split; [done|].
        assert (pf_path o = dest) as -> by (by destruct (decide (pf_path o = dest))). rewrite E0. split_and!; [done..|].
        by apply (only_files _ d d0). }
    intros _ d1 (Hd1 & E1 & [c Ec] & H1). cbn [mbind option_bind]. rewrite <- E1, Ec. cbn [mbind option_bind].
    apply wp_bind. set (again := o_retitle opts && negb (bool_decide (pf_segment_title o = p_segment_title p))).
    set (c' := if again then mkvpropedit c (p_segment_title p) else c).
    apply (wp_mono _ anyway _ (λ _ d2, honest d2 ∧ files d2 !! (Movies, dest) = Some c' ∧ only (touched dest (Some o)) d d2));
      [|done|by intros _ d2 (Hd2 & E2 & H2); apply wp_ret; split; [done|exists c']].
    unfold c'. destruct again; [|by apply wp_ret].
    eapply wp_mono; [by apply retitle_spec|done|]. intros a2 d2 (Hd2 & c2 & Hc2 & E2). split; [done|].
    rewrite E2, lookup_insert_eq. split; [congruence|]. eapply only_trans; [exact H1|].
    intros x Hx Hp. rewrite E2, lookup_insert_ne; [done|]. intros <-. apply Hx. by left.
Qed.

(** ** The whole run *)

(** No two published files share a path or a title, and no path is handed from one title to
    another. *)
Definition clash_free (prev out : list PublishedFile) : Prop :=
  NoDup (pf_path <$> out) ∧ NoDup (pf_title <$> out) ∧
  ∀ o f, o ∈ prev → f ∈ out → pf_path o = pf_path f → pf_title o = pf_title f.
Definition prev_ok (prev : list PublishedFile) : Prop :=
  NoDup (pf_path <$> prev) ∧ ∀ o, o ∈ prev → ¬ is_part (pf_path o).
Definition placement_ok (p : Placement) : Prop :=
  (Work, p_source p) ≠ journal_loc ∧ ¬ is_part (p_source p) ∧
  ∀ dest, dest ∈ [p_dest p; kept_both_name (p_dest p)] → ¬ is_part dest.

Lemma clash_free_prefix prev out f : clash_free prev (out ++ [f]) → clash_free prev out.
Proof.
  unfold clash_free. rewrite !fmap_app. intros (H1 & H2 & H3). apply NoDup_app in H1 as [H1 _], H2 as [H2 _].
  split_and!; [done..|]. intros o g Ho Hg. apply H3; [done|]. apply elem_of_app. by left.
Qed.
(** The old path of the next title is not the path of an earlier one. *)
Lemma clash_free_old prev out f o :
  clash_free prev (out ++ [f]) → o ∈ prev → pf_title o = pf_title f → pf_path o ∉ pf_path <$> out.
Proof.
  intros (_ & Ht & Hc) Ho Hof (g & Hg & Hin)%list_elem_of_fmap.
  assert (pf_title o = pf_title g) as Hog by (apply Hc; [done| |done]; apply elem_of_app; by left).
  rewrite fmap_app in Ht. apply NoDup_app in Ht as (_ & Ht & _). apply (Ht (pf_title f)); [|left].
  apply list_elem_of_fmap. exists g. split; [congruence|done].
Qed.

Section loop.
Context (prev : list PublishedFile) (opts : Options) (d0 : Disk) (Hprev : prev_ok prev).

Record loop_inv (seen : list Placement) (out : list PublishedFile) (d : Disk) : Prop := {
  loop_placed i p f : seen !! i = Some p → out !! i = Some f → ∃ c,
    expected opts (by_title_of prev !! p_title p) (files d0) p = Some c ∧ files d !! (Movies, pf_path f) = Some c;
  loop_old t o : by_title_of prev !! t = Some o → t ∉ pf_title <$> out → pf_path o ∉ pf_path <$> out →
    files d !! (Movies, pf_path o) = files d0 !! (Movies, pf_path o);
  loop_work p : (Work, p) ≠ journal_loc → ¬ is_part p → files d !! (Work, p) = files d0 !! (Work, p);
}.
Definition same_titles (seen : list Placement) (out : list PublishedFile) : Prop :=
  Forall2 (λ p f, pf_title f = p_title p ∧ ¬ is_part (pf_path f)) seen out.
Definition loop (seen : list Placement) (pr : Progress) (d : Disk) : Prop :=
  honest d ∧ same_titles seen (pr_out pr) ∧ (∀ v, ¬ is_part v → files d !! (Dvd, v) = files d0 !! (Dvd, v)) ∧
  (clash_free prev (pr_out pr) → loop_inv seen (pr_out pr) d).

Lemma expected_same old fs fs' p :
  fs !! (Work, p_source p) = fs' !! (Work, p_source p) →
  (∀ o, old = Some o → fs !! (Movies, pf_path o) = fs' !! (Movies, pf_path o)) →
  expected opts old fs p = expected opts old fs' p.
Proof. unfold expected. intros -> Ho. case_match; [done|]. destruct old as [o|]; [|done]. cbn. by rewrite Ho. Qed.

Lemma prev_paths_inj o o' : o ∈ prev → o' ∈ prev → pf_path o = pf_path o' → o = o'.
Proof using Hprev.
  intros (i & Hi)%list_elem_of_lookup (j & Hj)%list_elem_of_lookup E. destruct Hprev as [ND _].
  assert (i = j) as ->; [|congruence]. eapply NoDup_lookup; [exact ND|..]; rewrite list_lookup_fmap; [by rewrite Hi|rewrite Hj; cbn; by rewrite E].
Qed.

Lemma loop_round ours seen p pr d :
  loop seen pr d → placement_ok p →
  wp (publish_title (by_title_of prev) ours opts pr p) anyway (λ pr' d', loop (seen ++ [p]) pr' d') d.
Proof using Hprev.
  intros (Hd & Hsame & Hdvd & Hinv) (Hsj & Hsp & Hpart). eapply wp_mono; [by apply round_spec|done|].
  intros pr' d' (Hd' & dest & c & Eout & Hnp & Hexp & Hc & Honly). set (f := mkPublishedFile (p_title p) dest (p_segment_title p)) in *.
  split; [done|]. split; [rewrite Eout; apply Forall2_app; [done|by constructor]|]. split.
  { intros v Hv. rewrite Honly; [by apply Hdvd| |done]. by intros [?|[?|(o & _ & _ & ?)]]. }
  rewrite Eout. intros Hcf. pose proof (clash_free_prefix _ _ _ Hcf) as Hcf0. destruct (Hinv Hcf0) as [Hplaced Hold Hwork].
  assert (∀ o, by_title_of prev !! p_title p = Some o → pf_path o ∉ pf_path <$> pr_out pr) as Hoprev.
  { intros o [Ho Et]%by_title_in. by eapply (clash_free_old prev (pr_out pr) f). }
  assert (p_title p ∉ pf_title <$> pr_out pr) as Hpt.
  { destruct Hcf as (_ & Ht & _). rewrite fmap_app in Ht. apply NoDup_app in Ht as (_ & Ht & _).
    intros Hin. apply (Ht _ Hin). left. }
  assert (expected opts (by_title_of prev !! p_title p) (files d) p = expected opts (by_title_of prev !! p_title p) (files d0) p) as Eexp.
  { apply expected_same; [by apply Hwork|]. intros o Ho. eapply Hold; [done|done|by apply Hoprev]. }
  split.
  - intros i q g Hq Hg. apply lookup_app_Some in Hg as [Hg|[Hlen Hg]].
    + pose proof (lookup_lt_Some _ _ _ Hg). pose proof (Forall2_length _ _ _ Hsame).
      rewrite lookup_app_l in Hq by lia. destruct (Hplaced i q g Hq Hg) as (cq & Hcq & Hfq). exists cq. split; [done|].
      assert (g ∈ pr_out pr) as Hgin by by eapply list_elem_of_lookup_2.
      rewrite Honly; [done| |]; cbn.
      * intros [[= E]|[?|(o & Ho & _ & [= E])]]; [|done|].
        -- destruct Hcf as (Hp & _ & _). rewrite fmap_app in Hp. apply NoDup_app in Hp as (_ & Hp & _).
           apply (Hp (pf_path g)); [apply list_elem_of_fmap; eauto|]. cbn. rewrite E. left.
        -- apply (Hoprev o Ho). rewrite <- E. apply list_elem_of_fmap. eauto.
      * eapply Forall2_lookup_r in Hsame as (q' & _ & _ & Hng); [|exact Hg]. done.
    + pose proof (lookup_lt_Some _ _ _ Hg) as Hl. cbn [length] in Hl.
      pose proof (Forall2_length _ _ _ Hsame) as Hlen2.
      assert (i = length (pr_out pr)) as -> by lia. rewrite Nat.sub_diag in Hg. injection Hg as <-.
      rewrite lookup_app_r, Hlen2, Nat.sub_diag in Hq by lia. injection Hq as <-.
      exists c. rewrite <- Eexp. done.
  - intros t o Ho Ht Hp. rewrite fmap_app in Ht. rewrite fmap_app in Hp. apply not_elem_of_app in Ht as [Ht Htp], Hp as [Hp Hpp].
    rewrite Honly; [by eapply Hold| |].
    + intros [[= E]|[?|(o' & Ho' & _ & [= E])]]; [|done|].
      * apply Hpp. rewrite E. left.
      * apply by_title_in in Ho as [Hin Et], Ho' as [Hin' Et']. assert (o = o') as -> by by apply prev_paths_inj.
        apply Htp. cbn. rewrite <- Et, Et'. left.
    + apply by_title_in in Ho as [Hin _]. by apply Hprev.
  - intros q Hq Hnq. rewrite Honly; [by apply Hwork| |done]. intros [?|[?|(o & _ & _ & ?)]]; done.
Qed.

Lemma loop_run ours l pr d :
  loop [] pr d → Forall placement_ok l →
  wp (for_each (publish_title (by_title_of prev) ours opts) pr l) anyway (λ pr' d', loop l pr' d') d.
Proof using Hprev.
  intros HI Hl. apply (wp_for_each _ loop); [|done]. intros seen p pr' d' HI' Hp.
  apply loop_round; [done|]. by eapply Forall_in.
Qed.
End loop.

Lemma iso_spec iso old_iso ours journal opts d :
  honest d → ¬ is_part iso →
  wp (publish_iso iso old_iso ours journal opts) anyway
    (λ _ d', honest d' ∧ only (λ x, x = journal_loc ∨ x.1 = Dvd) d d' ∧ is_Some (files d' !! (Dvd, iso)) ∧
       (∀ c, files d !! master_loc = Some c → files d' !! (Dvd, iso) = Some c)) d.
Proof.
  intros Hd00 Hp. unfold publish_iso. apply wp_bind, exists_spec; [done|]. intros da Ea Hda.
  apply wp_bind, exists_spec; [done|]. intros db Eb Hd. rewrite Ea in Eb |- *. rewrite <- Eb.
  apply (wp_mono _ anyway _ (λ _ d', honest d' ∧ only (λ x, x = journal_loc ∨ x.1 = Dvd) db d' ∧ is_Some (files d' !! (Dvd, iso)) ∧
       (∀ c, files db !! master_loc = Some c → files d' !! (Dvd, iso) = Some c))); [|done|].
  2:{ intros _ d' (? & Ho & ? & ?). split_and!; try done. by eapply only_files. }
  clear d Hd00 da Ea Hda Eb. rename db into d.
  destruct (files d !! master_loc) as [m|] eqn:Em.
  - rewrite bool_decide_eq_true_2 by done.
    match goal with |- wp (if ?b then _ else _) _ _ _ => destruct b end; [by apply wp_throw|].
    apply wp_bind. eapply wp_mono; [by apply copy_spec|done|]. intros sum d1 (Hd1 & E1 & _ & H1). rewrite Em in E1.
    apply wp_bind. eapply wp_mono; [by apply note_spec|done|]. intros j d2 [Hd2 H2].
    assert (files d2 !! (Dvd, iso) = Some m) as E2 by (by rewrite H2).
    assert (only (λ x, x = journal_loc ∨ x.1 = Dvd) d d2) as H02.
    { eapply only_trans; eapply only_mono; [|exact H1| |exact H2]; intros x <-; auto. }
    apply wp_bind. apply (wp_mono _ anyway _ (λ _ d3, honest d3 ∧ only (λ x, x = journal_loc ∨ x.1 = Dvd) d d3 ∧
      files d3 !! (Dvd, iso) = Some m)); [|done|by intros _ d3 (? & ? & E3); apply wp_ret; rewrite E3; split_and!].
    destruct old_iso as [old|]; [|by apply wp_ret]. case_bool_decide; [|by apply wp_ret].
    eapply wp_mono; [by apply remove_ok_spec|done|]. intros a3 d3 [H3 Hd3]. split; [done|].
    split; [|rewrite H3; [done|congruence]]. eapply only_trans; [exact H02|].
    intros x Hx _. apply H3. intros ->. apply Hx. by right.
  - rewrite bool_decide_eq_false_2 by by intros [? ?].
    destruct old_iso as [old|].
    + case_bool_decide; [case_bool_decide; [by apply wp_ret|by apply wp_throw]|].
      apply wp_bind. unfold relocate. apply wp_bind, exists_spec; [done|]. intros d0 E0 Hd0. case_match; [by apply wp_throw|].
      eapply wp_mono; [by apply rename_spec|done|]. intros a d1 (c & Hc & E1 & Hd1). apply wp_ret. rewrite E0 in Hc, E1.
      split; [done|]. rewrite E1, lookup_insert_eq. split_and!; [|done|done].
      intros x Hx _. rewrite E1, lookup_insert_ne by (intros <-; apply Hx; by right).
      apply lookup_delete_ne. intros <-. apply Hx. by right.
    + destruct (bool_decide _ && bool_decide _) eqn:E; [|by apply wp_throw]. bool_prop. by apply wp_ret.
Qed.

Lemma nfo_spec spec titles ours pr d :
  honest d →
  wp (publish_nfo spec titles ours pr) anyway
    (λ pr' d', honest d' ∧
       (pr_out pr' = pr_out pr ∧ files d' = files d ∨
        ∃ path, pr_out pr' = pr_out pr ++ [mkPublishedFile 0 path ""] ∧
          only (λ x, x = (Movies, path) ∨ x = journal_loc) d d')) d.
Proof.
  intros Hd. unfold publish_nfo. case_match; [apply wp_ret; auto|]. destruct (nfo _); [|apply wp_ret; auto].
  apply wp_bind, exists_spec; [done|]. intros d0 E0 Hd0. case_match; [apply wp_ret; auto|].
  apply wp_bind. eapply wp_mono; [by apply write_spec|done|]. intros a d1 [E1 Hd1]. rewrite E0 in E1.
  apply wp_bind. eapply wp_mono; [by apply note_spec|done|]. intros j d2 [Hd2 H2]. apply wp_ret.
  split; [done|]. right. eexists. split; [done|].
  eapply only_trans; [|eapply only_mono; [|exact H2]; intros x <-; auto].
  intros x Hx _. rewrite E1. apply lookup_insert_ne. intros <-. apply Hx. by left.
Qed.

(** The files the last pass removes. *)
Definition unwanted (prev : list PublishedFile) (keep : gset string) (x : Loc) : Prop :=
  ∃ o, o ∈ prev ∧ pf_path o ∉ keep ∧ x = (Movies, pf_path o).
Lemma removal_spec keep prev d :
  honest d →
  wp (for_each (remove_old keep) () prev) anyway
    (λ _ d', (∀ x, ¬ unwanted prev keep x → files d' !! x = files d !! x) ∧
             ∀ x, unwanted prev keep x → files d' !! x = None) d.
Proof.
  intros Hd. eapply (wp_mono _ anyway _ (λ _ d', honest d' ∧ (∀ x, ¬ unwanted prev keep x → files d' !! x = files d !! x) ∧
             ∀ x, unwanted prev keep x → files d' !! x = None)); [|done|by intros ? ? [_ ?]].
  apply (wp_for_each _ (λ seen _ d', honest d' ∧ (∀ x, ¬ unwanted seen keep x → files d' !! x = files d !! x) ∧
             ∀ x, unwanted seen keep x → files d' !! x = None)).
  2:{ split_and!; [done|done|]. intros x (o & Ho & _). by apply not_elem_of_nil in Ho. }
  intros seen f [] d1 (Hd1 & Hkeep & Hgone) Hf. unfold remove_old.
  assert (∀ x, unwanted (seen ++ [f]) keep x ↔ unwanted seen keep x ∨ pf_path f ∉ keep ∧ x = (Movies, pf_path f)) as Hu.
  { intros x. unfold unwanted. setoid_rewrite elem_of_app. setoid_rewrite list_elem_of_singleton. naive_solver. }
  assert (∀ d2, honest d2 → (∀ x, x ≠ (Movies, pf_path f) → files d2 !! x = files d1 !! x) →
     (pf_path f ∉ keep → files d2 !! (Movies, pf_path f) = None) → (pf_path f ∈ keep → files d2 = files d1) →
     honest d2 ∧ (∀ x, ¬ unwanted (seen ++ [f]) keep x → files d2 !! x = files d !! x) ∧
     ∀ x, unwanted (seen ++ [f]) keep x → files d2 !! x = None) as Hfin.
  { intros d2 Hd2 Hne Hnone Hsame. split; [done|]. setoid_rewrite Hu. split.
    - intros x Hx. destruct (decide (pf_path f ∈ keep)) as [Hk|Hk]; [rewrite Hsame by done; apply Hkeep; tauto|].
      rewrite Hne by (intros ->; apply Hx; by right). apply Hkeep. tauto.
    - intros x Hx. destruct (decide (x = (Movies, pf_path f))) as [->|Hxf].
      + destruct (decide (pf_path f ∈ keep)) as [Hk|Hk]; [|by apply Hnone]. rewrite Hsame by done.
        destruct Hx as [Hx|[? _]]; [by apply Hgone|done].
      + rewrite Hne by done. destruct Hx as [Hx|[_ ?]]; [by apply Hgone|done]. }
  case_bool_decide; [by apply wp_ret, Hfin|]. apply wp_bind, exists_spec; [done|]. intros d' E' Hd'. case_bool_decide as He.
  - eapply wp_mono; [by apply remove_spec|done|]. intros a d2 [E2 Hd2]. rewrite E' in E2. apply Hfin; [done| |intros _|done]; rewrite E2.
    + intros x Hx. by apply lookup_delete_ne.
    + apply lookup_delete_eq.
  - apply wp_ret, Hfin; [done|by intros; rewrite E'| |by rewrite E']. intros _. rewrite E'. by apply eq_None_not_Some.
Qed.

(** ** Layout's paths are not temporary names *)

Lemma is_part_last p : is_part p → last (chars p) = Some "t"%char.
Proof. intros [q ->]. unfold part_of. rewrite chars_app, last_app. done. Qed.
Lemma not_part_end s (t : string) a : last (chars t) = Some a → a ≠ "t"%char → ¬ is_part (s +:+ t).
Proof. intros Ht Ha Hp%is_part_last. rewrite chars_app, last_app, Ht in Hp. congruence. Qed.

Lemma dest_not_part s dest :
  dest ∈ [s +:+ ".mkv"; kept_both_name (s +:+ ".mkv")] → ¬ is_part dest.
Proof.
  rewrite !elem_of_cons. intros [->|[->|H']]; [by eapply not_part_end| |by apply not_elem_of_nil in H'].
  unfold kept_both_name.
  assert (rsplit_once "." (s +:+ ".mkv") = Some (s, "mkv")) as ->.
  { apply rsplit_once_Some. split; [done|]. by apply (bool_decide_eq_true_1 (¬ char_in "." "mkv")). }
  case_match; [|by eapply not_part_end]. rewrite str_app_assoc. by eapply not_part_end.
Qed.

Lemma layout_placement_ok spec label titles l p :
  layout spec label titles = Ok l → p ∈ l_files l → placement_ok p.
Proof.
  intros (_ & _ & _ & _ & ->)%layout_spec Hp. cbn in Hp.
  apply list_elem_of_omap in Hp as (t & _ & Hp).
  destruct (Layout.placement _ _ _ _ t) as [op|] eqn:E; [subst op|done].
  unfold Layout.placement in E. case_bool_decide; [done|].
  destruct (folder_stem _ _ _ _ t) as [[[[fo st] se]|]|]; [|done..]. case_bool_decide; [done|]. injection E as <-.
  split_and!; cbn [p_source p_dest].
  - unfold encode_path, journal_loc. intros [=].
  - unfold encode_path. rewrite str_app_assoc. by eapply not_part_end.
  - assert (∃ s, dest_of spec (trim (spec_name spec)) fo st = s +:+ ".mkv") as [s ->]; [|apply dest_not_part].
    unfold dest_of. destruct fo; eexists; rewrite !str_app_assoc; done.
Qed.
Lemma iso_not_part spec name : ¬ is_part (iso_path spec name).
Proof.
  unfold iso_path. destruct (bonus spec); rewrite !str_app_assoc; by eapply not_part_end.
Qed.

(** What the libraries hold after a publish, given the record [pub] it returned. *)
Definition libraries (lay : Layout) (prev : list PublishedFile) (opts : Options) (d d' : Disk) (pub : Published) : Prop :=
  pub_iso pub = Some (l_iso lay) ∧ is_Some (files d' !! (Dvd, l_iso lay)) ∧
  (∀ c, files d !! master_loc = Some c → files d' !! (Dvd, l_iso lay) = Some c) ∧
  (∀ i p, l_files lay !! i = Some p → ∃ f c, pub_files pub !! i = Some f ∧ pf_title f = p_title p ∧
     expected opts (by_title_of prev !! p_title p) (files d) p = Some c ∧ files d' !! (Movies, pf_path f) = Some c) ∧
  (∀ o, o ∈ prev → pf_path o ∉ pf_path <$> pub_files pub → files d' !! (Movies, pf_path o) = None).

Lemma after_loop lay prev opts d d1 d2 d3 d4 pr out keep :
  (∀ x, ¬ (x = journal_loc ∨ x.1 = Dvd) → ¬ is_part x.2 → files d1 !! x = files d !! x) →
  Forall placement_ok (l_files lay) → prev_ok prev → ¬ is_part (l_iso lay) →
  is_Some (files d1 !! (Dvd, l_iso lay)) → (∀ c, files d !! master_loc = Some c → files d1 !! (Dvd, l_iso lay) = Some c) →
  loop prev opts d1 (l_files lay) pr d2 →
  (out = pr_out pr ∧ files d3 = files d2 ∨
   ∃ path, out = pr_out pr ++ [mkPublishedFile 0 path ""] ∧ only (λ x, x = (Movies, path) ∨ x = journal_loc) d2 d3) →
  keep = paths out →
  (∀ x, ¬ unwanted prev keep x → files d4 !! x = files d3 !! x) →
  (∀ x, unwanted prev keep x → files d4 !! x = None) →
  clash_free prev out →
  ∀ gen notes, libraries lay prev opts d d4 (mkPublished (Some (l_iso lay)) out gen notes).
Proof.
  intros H01 Hpl Hprev Hisop Hiso Hmaster (Hd2 & Hsame & Hdvd & Hinv) Hnfo -> Hkeep Hgone Hcf gen notes.
  assert (clash_free prev (pr_out pr)) as Hcf0.
  { destruct Hnfo as [[-> _]|(path & -> & _)]; [done|by eapply clash_free_prefix]. }
  destruct (Hinv Hcf0) as [Hplaced _ _].
  assert (∀ x, x.1 = Dvd → ¬ is_part x.2 → files d4 !! x = files d1 !! x) as Hdv.
  { intros [v p] Hv Hp. cbn in *. subst v. rewrite Hkeep by by intros (o & _ & _ & ?).
    destruct Hnfo as [[_ ->]|(path & _ & Ho)]; [by apply Hdvd|].
    rewrite Ho; [by apply Hdvd| |done]. by intros [?|?]. }
  assert (∀ i f, pr_out pr !! i = Some f → out !! i = Some f) as Hout.
  { intros i f Hf. destruct Hnfo as [[-> _]|(path & -> & _)]; [done|by apply lookup_app_l_Some]. }
  split; [done|]. split; [by rewrite Hdv|]. split; [intros c Hc; rewrite Hdv; auto|]. split.
  - intros i p Hp. pose proof Hsame as Hf. eapply Forall2_lookup_l in Hf as (f & Hf & Ht & Hnp); [|exact Hp].
    destruct (Hplaced i p f Hp Hf) as (c & Hc & Hfc). exists f, c. split; [by apply Hout|]. split; [done|].
    assert (placement_ok p) as (Hj & Hsp & _) by (eapply Forall_in; [exact Hpl|]; by eapply list_elem_of_lookup_2).
    split.
    + rewrite <- Hc. symmetry. apply expected_same; [apply H01; [|done]; by intros [?|?]|].
      intros o Ho. apply by_title_in in Ho as [Ho _]. apply H01; [by intros [?|?]|by apply Hprev].
    + assert (pf_path f ∈ paths out) as Hk by (apply elem_of_paths; exists f; split; [by eapply list_elem_of_lookup_2, Hout|done]).
      rewrite Hkeep by (intros (o & _ & Hno & [= E]); rewrite E in Hk; done).
      destruct Hnfo as [[_ ->]|(path & Eo & Ho)]; [done|]. rewrite Ho; [done| |done].
      intros [[= E]|?]; [|done]. destruct Hcf as (Hnd & _). rewrite Eo, fmap_app in Hnd.
      apply NoDup_app in Hnd as (_ & Hnd & _). apply (Hnd (pf_path f)).
      * apply list_elem_of_fmap. exists f. split; [done|by eapply list_elem_of_lookup_2].
      * rewrite E. left.
  - cbn. intros o Ho Hno. apply Hgone. exists o. split; [done|]. split; [|done].
    intros (f & Hf & E)%elem_of_paths. apply Hno. apply list_elem_of_fmap. eauto.
Qed.

End complete.

(** ** Concrete tools, the source's tests, witnesses and two flaws *)

Definition test_tools : Tools := {|
  sha256_hex := λ c, "#" +:+ c;
  mkvpropedit := λ c t, c +:+ "[" +:+ t +:+ "]";
  encode_journal := join (String newline "");
  decode_journal := λ s, Some (split_char newline s);
|}.

Section tests.
#[local] Existing Instance test_tools.

Definition test_opts : Options := mkOptions false None.
Definition test_disk (fs : list (Loc * string)) (faults : list Fault) : Disk := mkDisk (list_to_map fs) faults [].
Definition movies (d : Disk) (p : string) : option string := files d !! (Movies, p).

Definition elf_titles : list TitleStatus :=
  [test_title 1 Main (f64_of_Z 100) None; test_title 6 Extra (f64_of_Z 60) None].
Definition foreign_disk : Disk := test_disk
  [((Work, "master.iso"), "iso"); ((Work, "encodes/1.mkv"), "t1"); ((Work, "encodes/6.mkv"), "t6");
   ((Movies, "Elf/Elf.mkv"), "someone else's")] [].
Definition elf_run : Disk * Result Published PublishError :=
  publish (test_spec "Elf" 1) "ELF" elf_titles None 1 test_opts foreign_disk.

Example keeps_both_when_a_foreign_file_is_in_the_way :
  movies elf_run.1 "Elf/Elf.mkv" = Some "someone else's" ∧
  movies elf_run.1 "Elf/Elf - dvdrip.mkv" = Some "t1" ∧
  movies elf_run.1 "Elf/extras/Title 6 - 1m00s.mkv" = Some "t6".
Proof. vm_compute. done. Qed.

Lemma publish_keeps_foreign_witness :
  movies elf_run.1 "Elf/Elf.mkv" = Some "someone else's".
Proof.
  apply (publish_keeps_foreign (test_spec "Elf" 1) "ELF" elf_titles None 1 test_opts foreign_disk (Movies, "Elf/Elf.mkv")).
  - apply not_elem_of_nil.
  - split; [refine (bool_decide_unpack _ _); vm_compute; exact I|].
    intros Hp%is_part_last. vm_compute in Hp. discriminate Hp.
  - vm_compute. reflexivity.
Defined.

Definition elf_record : Published := match elf_run.2 with Ok p => p | Err _ => default_published end.

(** The look at the place of the main feature fails (an I/O error of the volume): the file of
    someone else is taken to be absent and the rip replaces it. *)
Lemma failed_stat_overwrites :
  let d := mkDisk (files foreign_disk) [] [false; false; true] in
  let run := publish (test_spec "Elf" 1) "ELF" elf_titles None 1 test_opts d in
  is_ok run.2 = true ∧ movies run.1 "Elf/Elf.mkv" = Some "t1".
Proof. vm_compute. done. Qed.

(** Two cuts of one aspect ratio whose main feature is changed from title 1 to title 2: each takes
    the path of the other, and the second removes its old path, where the first has just been
    published. The record names a file that is not there. *)
Definition cuts (main alt : N) : list TitleStatus :=
  stable_sort (λ t u, (t_title t <=? t_title u)%N)
    [test_title main Main (f64_of_Z 100) (Some "16/9"); test_title alt Alt (f64_of_Z 100) (Some "16/9")].
Definition two_cuts : Disk := test_disk
  [((Work, "master.iso"), "iso"); ((Work, "encodes/1.mkv"), "t1"); ((Work, "encodes/2.mkv"), "t2")] [].
Definition first_publish : Disk * Result Published PublishError :=
  publish (test_spec "X" 1) "X" (cuts 1 2) None 1 test_opts two_cuts.
Definition record_of (r : Result Published PublishError) : Published := match r with Ok p => p | Err _ => default_published end.
Definition second_publish : Disk * Result Published PublishError :=
  publish (test_spec "X" 1) "X" (cuts 2 1) (Some (record_of first_publish.2)) 2 test_opts first_publish.1.

Lemma swapped_versions_lose_one :
  is_ok second_publish.2 = true ∧
  "X/X - Widescreen.mkv" ∈ pf_path <$> pub_files (record_of second_publish.2) ∧
  movies second_publish.1 "X/X - Widescreen.mkv" = None.
Proof.
  split; [vm_compute; reflexivity|]. split; [|vm_compute; reflexivity].
  refine (bool_decide_unpack _ _). vm_compute. exact I.
Qed.

(** A run cut between the rename of the ISO and the journal entry: the next run takes the ISO for
    someone else's and refuses, for good. *)
Definition cut_disk : Disk := test_disk [((Work, "master.iso"), "iso")] [Fine; Fine; Fine; Fine; Fine; Partly 0].
Lemma unjournalled_iso_blocks :
  let d := (publish (test_spec "X" 1) "X" [] None 1 test_opts cut_disk).1 in
  files d !! (Dvd, "X/X.iso") = Some "iso" ∧
  (publish (test_spec "X" 1) "X" [] None 1 test_opts d).2 = Err (NotOurs "X/X.iso").
Proof. vm_compute. done. Qed.
End tests.
