(* ===== verification/Version.v ===== *)
(** * Versions and constraints ([tools/update/src/version.rs])

    A version is its numeric components; missing ones count as zero, so versions have an
    equivalence coarser than equality ([1.0] and [1] are the same version), with its setoid. *)

From Stdlib Require Import Ascii.
From stdpp Require Import options.
From S2P Require Import Prelude.

Notation Version := (list N).

(** [collect::<Option<Vec<_>>>] *)
Definition parse (s : string) : option Version :=
  let s := default s (strip_prefix "v" s) in
  if bool_decide (s = "") then None else mapM parse_u64 (split_char "." s).

Definition get (v : Version) (i : nat) : N := default 0%N (v !! i).

Definition compare (v w : Version) : comparison :=
  let n := max (length v) (length w) in
  default Eq (List.find (λ o, match o with Eq => false | _ => true end)
                ((λ i, (get v i ?= get w i)%N) <$> seq 0 n)).

Definition version_eqb (v w : Version) : bool := match compare v w with Eq => true | _ => false end.
Definition version_ltb (v w : Version) : bool := match compare v w with Lt => true | _ => false end.
Definition version_leb (v w : Version) : bool := match compare v w with Gt => false | _ => true end.

Inductive Op : Type := OpLt | OpLe | OpGt | OpGe | OpEq | OpCaret | OpTilde.

Notation Constraint := (list (Op * Version)).

(** The prefixes in the order they are tried. *)
Definition operators : list (string * Op) :=
  [("<=", OpLe); (">=", OpGe); ("==", OpEq); ("<", OpLt); (">", OpGt); ("=", OpEq); ("^", OpCaret); ("~", OpTilde)].

Fixpoint find_map {A B} (f : A → option B) (l : list A) : option B :=
  match l with [] => None | a :: l' => match f a with Some b => Some b | None => find_map f l' end end.

Definition parse_bound (part : string) : Result (Op * Version) string :=
  let '(op, rest) := default (OpEq, part)
    (find_map (λ po, (λ r, (po.2, r)) <$> strip_prefix po.1 part) operators) in
  match parse (trim rest) with
  | Some v => Ok (op, v)
  | None => Err ("bad constraint " +:+ part)
  end.
Fixpoint parse_bounds (parts : list string) : Result Constraint string :=
  match parts with
  | [] => Ok []
  | p :: ps => let? b := parse_bound p in let? bs := parse_bounds ps in Ok (b :: bs)
  end.
Definition parse_constraint (s : string) : Result Constraint string :=
  parse_bounds (filter (λ p, p ≠ "") (trim <$> split_char "," s)).

(** Rust indexes the component: [bump_at] panics out of range, modelled as no version. Release
    builds wrap the addition. *)
Definition bump_at (b : Version) (i : nat) : option Version :=
  c ← b !! i; Some (take i b ++ [u64_wrap (c + 1)]).
Definition first_nonzero (b : Version) : option nat := fst <$> list_find (λ c, c ≠ 0%N) b.
Definition caret_upper (b : Version) : option Version :=
  bump_at b (default (length b - 1) (first_nonzero b)).
Definition tilde_upper (b : Version) : option Version := bump_at b (if (1 <? length b)%nat then 1 else 0).

Definition below (v : Version) (upper : option Version) : bool :=
  match upper with Some u => version_ltb v u | None => false end.
Definition bound_matches (v : Version) (ob : Op * Version) : bool :=
  let b := ob.2 in
  match ob.1 with
  | OpLt => version_ltb v b
  | OpLe => version_leb v b
  | OpGt => version_ltb b v
  | OpGe => version_leb b v
  | OpEq => version_eqb v b
  | OpCaret => version_leb b v && below v (caret_upper b)
  | OpTilde => version_leb b v && below v (tilde_upper b)
  end.
Definition matches (c : Constraint) (v : Version) : bool := forallb (bound_matches v) c.

(** ** The source's own tests *)

Example parses_lenient :
  parse "1.0-rc1" = None ∧ parse "latest" = None ∧ parse "" = None ∧ parse "v1.55" = Some [1; 55]%N ∧
  version_ltb [1; 9; 9]%N [1; 10]%N = true ∧ version_eqb [1; 55]%N [1; 55; 0]%N = true.
Proof. vm_compute. done. Qed.
Definition allows (c v : string) : option bool :=
  match parse_constraint c, parse v with Ok c, Some v => Some (matches c v) | _, _ => None end.
Example constraints :
  allows "<1.98" "1.96.4" = Some true ∧ allows "<1.98" "1.98.0" = Some false ∧
  allows ">=1.0, <2" "1.5" = Some true ∧ allows ">=1.0, <2" "2.0" = Some false ∧
  allows "^0.3.1" "0.3.9" = Some true ∧ allows "^0.3.1" "0.4.0" = Some false ∧
  allows "^1.2" "1.9" = Some true ∧ allows "^1.2" "2.0" = Some false ∧
  allows "~1.2" "1.2.7" = Some true ∧ allows "~1.2" "1.3" = Some false ∧ allows "<x" "1" = None.
Proof. vm_compute. done. Qed.

(** ** The order *)

(** The same version: equal components, missing ones being zero. *)
#[export] Instance version_equiv : Equiv Version := λ v w, ∀ i, get v i = get w i.
#[export] Instance version_equivalence : Equivalence (≡@{Version}).
Proof.
  split; [by intros v i|by intros v w E i; rewrite E|]. intros u v w E F i. by rewrite E, F.
Qed.
#[export] Instance get_proper : Proper ((≡) ==> (=) ==> (=)) get.
Proof. intros v w E i _ <-. apply E. Qed.

(** [v] comes first at the first component that differs. *)
Definition version_lt (v w : Version) : Prop :=
  ∃ i, (get v i < get w i)%N ∧ ∀ j, j < i → get v j = get w j.
#[export] Instance version_lt_proper : Proper ((≡) ==> (≡) ==> iff) version_lt.
Proof.
  intros v v' E w w' F. unfold version_lt. split; intros (i & Hi & Hj); exists i; split.
  - by rewrite <- (E i), <- (F i).
  - intros j ?. rewrite <- (E j), <- (F j). auto.
  - by rewrite (E i), (F i).
  - intros j ?. rewrite (E j), (F j). auto.
Qed.

Lemma get_out v i : length v ≤ i → get v i = 0%N.
Proof. intros. unfold get. by rewrite lookup_ge_None_2. Qed.

Lemma compare_scan (f : nat → comparison) a n :
  match default Eq (List.find (λ o, match o with Eq => false | _ => true end) (f <$> seq a n)) with
  | Eq => ∀ i, a ≤ i < a + n → f i = Eq
  | o => ∃ i, a ≤ i < a + n ∧ f i = o ∧ ∀ j, a ≤ j < i → f j = Eq
  end.
Proof.
  revert a. induction n as [|n IH]; intros a; cbn; [lia|].
  destruct (f a) eqn:Ea; cbn; [|exists a; split_and!; [lia..|done|lia]|exists a; split_and!; [lia..|done|lia]].
  specialize (IH (S a)). destruct (default Eq _).
  - intros i Hi. destruct (decide (i = a)) as [->|]; [done|]. apply IH. lia.
  - destruct IH as (i & Hi & Ei & Hj). exists i. split_and!; [lia..|done|]. intros j Hj'.
    destruct (decide (j = a)) as [->|]; [done|]. apply Hj. lia.
  - destruct IH as (i & Hi & Ei & Hj). exists i. split_and!; [lia..|done|]. intros j Hj'.
    destruct (decide (j = a)) as [->|]; [done|]. apply Hj. lia.
Qed.

Lemma compare_spec v w : match compare v w with Eq => v ≡ w | Lt => version_lt v w | Gt => version_lt w v end.
Proof.
  unfold compare. pose proof (compare_scan (λ i, (get v i ?= get w i)%N) 0 (max (length v) (length w))) as H.
  cbn beta in H. destruct (default Eq _).
  - intros i. destruct (decide (i < max (length v) (length w))) as [Hi|Hi].
    + apply N.compare_eq_iff, H. lia.
    + by rewrite !get_out by lia.
  - destruct H as (i & _ & Hi & Hj). exists i. split; [done|]. intros j ?. apply N.compare_eq_iff, Hj. lia.
  - destruct H as (i & _ & Hi & Hj). exists i. split; [by apply N.compare_gt_iff|].
    intros j ?. symmetry. apply N.compare_eq_iff, Hj. lia.
Qed.

Lemma version_lt_irrefl v w : v ≡ w → ¬ version_lt v w.
Proof. intros E (i & Hi & _). rewrite (E i) in Hi. lia. Qed.
Lemma version_lt_trans u v w : version_lt u v → version_lt v w → version_lt u w.
Proof.
  intros (i & Hi & Hi') (j & Hj & Hj'). exists (min i j). split.
  - destruct (Nat.lt_trichotomy i j) as [Hl|[->|Hl]].
    + rewrite Nat.min_l by lia. rewrite <- (Hj' i); done.
    + rewrite Nat.min_id. lia.
    + rewrite Nat.min_r by lia. by rewrite Hi'.
  - intros k Hk. rewrite Hi', Hj'; [done|lia..].
Qed.
Lemma version_lt_asym v w : version_lt v w → ¬ version_lt w v.
Proof. intros H1 H2. by eapply (version_lt_irrefl v v); [|eapply version_lt_trans]. Qed.

Lemma compare_iff v w :
  (compare v w = Lt ↔ version_lt v w) ∧ (compare v w = Eq ↔ v ≡ w) ∧ (compare v w = Gt ↔ version_lt w v).
Proof.
  pose proof (compare_spec v w) as H. pose proof (version_lt_irrefl v w). pose proof (version_lt_irrefl w v).
  pose proof (version_lt_asym v w). pose proof (version_lt_asym w v).
  assert (v ≡ w → w ≡ v) by by intros ->.
  destruct (compare v w); split_and!; split; try done; tauto.
Qed.

Lemma compare_lt v w : compare v w = Lt ↔ version_lt v w.
Proof. exact (proj1 (compare_iff v w)). Qed.
Lemma compare_eq v w : compare v w = Eq ↔ v ≡ w.
Proof. exact (proj1 (proj2 (compare_iff v w))). Qed.
Lemma compare_gt v w : compare v w = Gt ↔ version_lt w v.
Proof. exact (proj2 (proj2 (compare_iff v w))). Qed.

Lemma compare_opp v w : compare v w = CompOpp (compare w v).
Proof.
  pose proof (compare_iff v w) as (L & E & G). pose proof (compare_iff w v) as (L' & E' & G').
  destruct (compare w v); cbn;
    [exact (proj2 E (symmetry (proj1 E' eq_refl)))|exact (proj2 G (proj1 L' eq_refl))|exact (proj2 L (proj1 G' eq_refl))].
Qed.
Lemma version_le_trans u v w : ¬ version_lt v u → ¬ version_lt w v → ¬ version_lt w u.
Proof.
  intros H1 H2 H3. pose proof (compare_spec u v) as Huv. destruct (compare u v).
  - apply H2. by rewrite <- Huv.
  - apply H2. by eapply version_lt_trans.
  - done.
Qed.

(** [Ord for Version] is a total order on versions up to trailing zeros: any two are equal or
    one comes first, the order is transitive, and equal versions compare alike with everything. *)
Theorem version_total_order u v w :
  compare v w = CompOpp (compare w v) ∧
  (compare v w = Eq ↔ v ≡ w) ∧
  (compare u v = Lt → compare v w = Lt → compare u w = Lt) ∧
  (compare u v = Eq → compare u w = compare v w ∧ compare w u = compare w v).
Proof.
  split; [apply compare_opp|split; [apply compare_eq|split]].
  - intros H1%compare_lt H2%compare_lt. by apply compare_lt; eapply version_lt_trans.
  - intros H%compare_eq. pose proof (compare_spec u w) as H1. pose proof (compare_spec w u) as H2.
    split; symmetry; [destruct (compare u w)|destruct (compare w u)];
      (apply compare_lt || apply compare_eq || apply compare_gt); by rewrite <- H.
Qed.

Lemma version_total_order_witness :
  compare [1; 2]%N [1; 2; 0]%N = Eq ∧ compare [1; 2]%N [2]%N = compare [1; 2; 0]%N [2]%N.
Proof.
  split; [vm_compute; reflexivity|].
  apply (version_total_order [1; 2]%N [1; 2; 0]%N [2]%N). vm_compute. reflexivity.
Defined.

(** ** What caret and tilde allow *)

Lemma version_leb_iff v w : version_leb v w = true ↔ ¬ version_lt w v.
Proof.
  unfold version_leb. pose proof (compare_iff v w) as (L & E & G). destruct (compare v w); naive_solver.
Qed.
Lemma version_ltb_iff v w : version_ltb v w = true ↔ version_lt v w.
Proof.
  unfold version_ltb. pose proof (compare_iff v w) as (L & E & G). destruct (compare v w); naive_solver.
Qed.

Lemma get_bumped b c i j :
  i ≤ length b → get (take i b ++ [c]) j = if decide (j < i) then get b j else if decide (j = i) then c else 0%N.
Proof.
  intros Hi. unfold get. repeat case_decide.
  - rewrite lookup_app_l by (rewrite length_take; lia). by rewrite lookup_take_lt.
  - subst. rewrite lookup_app_r by (rewrite length_take; lia). by rewrite length_take, Nat.min_l, Nat.sub_diag by lia.
  - rewrite lookup_ge_None_2; [done|]. rewrite length_app, length_take. cbn. lia.
Qed.

(** From [b] up to the bumped version, exclusive, are the versions from [b] up that agree with [b]
    through the bumped component. *)
Lemma bump_at_range b i v :
  i < length b → (get b i + 1 < u64_modulus)%N →
  version_leb b v && below v (bump_at b i) = true ↔
  version_leb b v = true ∧ ∀ j, j ≤ i → get v j = get b j.
Proof.
  intros Hi Ho. rewrite andb_true_iff.
  enough (version_leb b v = true → below v (bump_at b i) = true ↔ ∀ j, j ≤ i → get v j = get b j) by tauto.
  intros Hle%version_leb_iff.
  unfold bump_at. destruct (b !! i) as [c|] eqn:Ec; [|by apply lookup_ge_None in Ec; lia].
  assert (get b i = c) as Eg by (unfold get; by rewrite Ec). rewrite Eg in Ho.
  cbn [mbind option_bind below]. rewrite version_ltb_iff. unfold u64_wrap. rewrite N.mod_small by done.
  set (up := take i b ++ [(c + 1)%N]).
  assert (∀ j, get up j = if decide (j < i) then get b j else if decide (j = i) then (c + 1)%N else 0%N) as Hup
    by (intros; apply get_bumped; lia).
  split.
  - intros (k & Hk & Hkj). rewrite Hup in Hk. destruct (decide (k < i)) as [Hki|Hki].
    { destruct Hle. exists k. split; [done|]. intros j Hj. rewrite Hkj, Hup, decide_True by lia. done. }
    destruct (decide (k = i)) as [->|]; [|lia].
    assert (∀ j, j < i → get v j = get b j) as Hag.
    { intros j Hj. rewrite Hkj, Hup, decide_True by lia. done. }
    intros j Hj. destruct (decide (j = i)) as [->|]; [|apply Hag; lia].
    destruct (N.lt_trichotomy (get v i) (get b i)) as [Hlt|[?|Hgt]]; [|done|lia].
    destruct Hle. by exists i.
  - intros Hag. exists i. rewrite Hup, decide_False, decide_True by lia. split; [rewrite Hag, Eg; lia|].
    intros j Hj. rewrite Hup, decide_True by lia. apply Hag. lia.
Qed.

Lemma parsed_not_empty s v : parse s = Some v → v ≠ [].
Proof.
  unfold parse. case_bool_decide; [done|]. intros Hm ->. apply mapM_Some in Hm. inversion Hm as [E|].
  unfold split_char in E. destruct (split_list "." _) eqn:E2; [by apply split_list_ne in E2|done].
Qed.

(** The component a caret keeps: the first that is not zero, or the last. *)
Definition caret_component (b : Version) : nat := default (length b - 1) (first_nonzero b).

(** [^b] allows exactly the versions from [b] up that agree with it through its first non-zero
    component, and [~b] those that agree through its second component (or its only one). *)
Theorem caret_tilde_allow s b v :
  parse s = Some b → (∀ i, get b i + 1 < u64_modulus)%N →
  (bound_matches v (OpCaret, b) = true ↔
   version_leb b v = true ∧ ∀ j, j ≤ caret_component b → get v j = get b j) ∧
  (bound_matches v (OpTilde, b) = true ↔
   version_leb b v = true ∧ ∀ j, j ≤ (if (1 <? length b)%nat then 1 else 0) → get v j = get b j).
Proof.
  intros Hb%parsed_not_empty Ho. assert (0 < length b) by (destruct b; [done|cbn; lia]).
  unfold bound_matches. cbn [fst snd]. split; apply bump_at_range; try apply Ho.
  - unfold caret_component, first_nonzero. destruct (list_find _ b) as [[i c]|] eqn:E; cbn; [|lia].
    apply list_find_Some in E as (E & _). by apply lookup_lt_Some in E.
  - destruct (Nat.ltb_spec 1 (length b)); lia.
Qed.

Lemma caret_tilde_allow_witness :
  bound_matches [0; 3; 9]%N (OpCaret, [0; 3; 1]%N) = true ∧ caret_component [0; 3; 1]%N = 1.
Proof.
  split; [|reflexivity]. apply (caret_tilde_allow "v0.3.1" [0; 3; 1]%N [0; 3; 9]%N).
  - vm_compute. reflexivity.
  - intros [|[|[|i]]]; vm_compute; reflexivity.
  - split; [vm_compute; reflexivity|]. intros [|[|j]] Hj; [reflexivity|reflexivity|].
    exfalso. change (S (S j) ≤ 1) in Hj. lia.
Defined.
