(* ===== verification/Host.v ===== *)
(** * The machine the updater runs on

    tools/update changes files, runs commands and calls web services. The files are a map from paths
    to contents. What a command does, what a service answers and whether a write succeeds is outside
    the program: the class [Outside], whose functions also take the number of the step, so that two
    equal calls may differ. An error is an [anyhow] chain, outermost context first. *)

From Stdlib Require Import Ascii.
From stdpp Require Import options.
From S2P Require Import Prelude Json State.

Notation Error := (list string) (only parsing).
Notation Files := (gmap string string) (only parsing).

Record World : Type := mkWorld { w_files : Files; w_step : nat }.
Notation M := (SE World Error).

(** What a process left: exit status, standard output and standard error. *)
Record Output : Type := mkOutput { o_success : bool; o_stdout : string; o_stderr : string }.

Record Request : Type := mkRequest { rq_method : string; rq_url : string; rq_headers : list (string * string) }.
Record Response : Type := mkResponse { rs_headers : list (string * string); rs_body : string }.
(** ureq: a status of 400 or more is an error that carries the response. *)
Inductive HttpResult : Type :=
  | HttpOk (r : Response)
  | HttpStatus (code : N) (r : Response)
  | HttpTransport (e : string).

(** A write that fails has left the file alone, or holding a part of the new content. *)
Inductive Stored : Type := Whole | Unopened | Cut (n : nat).

Class Outside : Type := {
  (** The files after the command, and its output when it could be started. *)
  command : nat → Files → string → list string → Files * option Output;
  http : nat → Files → Request → HttpResult;
  stored : nat → string → Stored;
  parse_json : string → option Value;
}.

(** [{:#}] and [to_string] of an error, and [with_context]. *)
Definition alternate (e : Error) : string := join ": " e.
Definition message (e : Error) : string := default "" (head e).
Definition with_context {A} (ctx : string) (m : M A) : M A := λ w,
  let '(w', r) := m w in (w', match r with Ok a => Ok a | Err e => Err (ctx :: e) end).
(** A [match] on a [Result] *)
Definition try {S E A} (m : SE S E A) : SE S E (Result A E) := λ w, let '(w', r) := m w in (w', Ok r).
(** [map(drop)] *)
Definition drop_ {S E A} (m : SE S E A) : SE S E () := _ ← m; mret ().

Section operations.
Context `{Outside}.

Definition tick {A} (f : nat → Files → Files * A) : M A := λ w,
  let '(fs, a) := f (w_step w) (w_files w) in (mkWorld fs (S (w_step w)), Ok a).

Definition is_file (p : string) : M bool := gets (λ w, bool_decide (is_Some (w_files w !! p))).
Definition read_to_string (p : string) : M string := λ w,
  (w, match w_files w !! p with Some c => Ok c | None => Err ["No such file or directory"] end).
Definition write (p content : string) : M () := λ w,
  let next fs := mkWorld fs (S (w_step w)) in
  match stored (w_step w) p with
  | Whole => (next (<[p := content]> (w_files w)), Ok ())
  | Unopened => (next (w_files w), Err ["write failed"])
  | Cut n => (next (<[p := str (take n (chars content))]> (w_files w)), Err ["write failed"])
  end.
Definition remove_file (p : string) : M () := λ w,
  let next fs := mkWorld fs (S (w_step w)) in
  match w_files w !! p, stored (w_step w) p with
  | Some _, Whole => (next (delete p (w_files w)), Ok ())
  | _, _ => (next (w_files w), Err ["remove failed"])
  end.
(** [Command::output] *)
Definition output (dir : string) (args : list string) : M Output :=
  o ← tick (λ n fs, command n fs dir args);
  match o with Some o => mret o | None => throw ["cannot start"] end.
Definition call (rq : Request) : M HttpResult := tick (λ n fs, (fs, http n fs rq)).
End operations.

(** ** What runs do to the files *)

(** Wherever it stops, [m] has changed the files along [R]. *)
Definition steps {A} (R : relation Files) (m : M A) : Prop := ∀ w, R (w_files w) (w_files (m w).1).

(** Every result of [m] satisfies [I]. *)
Definition results {A} (I : A → Prop) (m : M A) : Prop := ∀ w w' a, m w = (w', Ok a) → I a.

Section results.
Lemma results_ret {A} (I : A → Prop) a : I a → results I (mret a).
Proof. by intros Ha w w' a' [= _ <-]. Qed.
Lemma results_bind {A B} (I : B → Prop) (m : M A) (f : A → M B) : (∀ a, results I (f a)) → results I (m ≫= f).
Proof.
  intros Hf w w' b. unfold mbind, SE_bind. destruct (m w) as [w1 [a|e]]; [apply Hf|done].
Qed.
Lemma results_for_each {A B} (I : B → Prop) (f : B → A → M B) b l :
  I b → (∀ b a, I b → results I (f b a)) → results I (for_each f b l).
Proof.
  intros Hb Hf. revert b Hb. induction l as [|a l IH]; intros b Hb; cbn [for_each]; [by apply results_ret|].
  intros w w' b'. unfold mbind, SE_bind. destruct (f b a w) as [w1 [b1|e]] eqn:E; [|done].
  apply IH. by eapply Hf.
Qed.
End results.

Section steps.
#[local] Set Default Proof Using "Type*".
Context `{Outside} (R : relation Files) `{!PreOrder R}.

Lemma steps_ret {A} (a : A) : steps R (mret a).
Proof. intros w. reflexivity. Qed.
Lemma steps_throw {A} e : steps R (throw (A := A) e).
Proof. intros w. reflexivity. Qed.
Lemma steps_gets {A} (f : World → A) : steps R (gets f).
Proof. intros w. reflexivity. Qed.
Lemma steps_lift {A} (r : Result A Error) : steps R (lift r).
Proof. intros w. reflexivity. Qed.
Lemma steps_bind {A B} (m : M A) (f : A → M B) : steps R m → (∀ a, steps R (f a)) → steps R (m ≫= f).
Proof.
  intros Hm Hf w. unfold mbind, SE_bind. specialize (Hm w). destruct (m w) as [w' [a|e]]; [|done].
  etrans; [exact Hm|]. apply Hf.
Qed.
Lemma steps_context {A} ctx (m : M A) : steps R m → steps R (with_context ctx m).
Proof. intros Hm w. specialize (Hm w). unfold with_context. by destruct (m w) as [w' []]. Qed.
Lemma steps_try {A} (m : M A) : steps R m → steps R (try m).
Proof. intros Hm w. specialize (Hm w). unfold try. by destruct (m w) as [w' []]. Qed.
Lemma steps_ok {A} (m : M A) : steps R m → steps R (ok m).
Proof. intros Hm w. specialize (Hm w). unfold ok. by destruct (m w) as [w' []]. Qed.
Lemma steps_is_file p : steps R (is_file p).
Proof. apply steps_gets. Qed.
Lemma steps_read p : steps R (read_to_string p).
Proof. intros w. reflexivity. Qed.
Lemma steps_write p c : (∀ fs c, R fs (<[p := c]> fs)) → steps R (write p c).
Proof. intros Hp w. unfold write. destruct (stored (w_step w) p); cbn; [apply Hp|reflexivity|apply Hp]. Qed.
Lemma steps_output dir args : (∀ n fs, R fs (command n fs dir args).1) → steps R (output dir args).
Proof.
  intros Hc. apply steps_bind; [|intros []; [apply steps_ret|apply steps_throw]].
  intros w. unfold tick. specialize (Hc (w_step w) (w_files w)). by destruct (command _ _ _ _).
Qed.
Lemma steps_call rq : steps R (call rq).
Proof. intros w. reflexivity. Qed.
Lemma steps_for_each {A B} (f : B → A → M B) b l : (∀ b a, a ∈ l → steps R (f b a)) → steps R (for_each f b l).
Proof.
  revert b. induction l as [|a l IH]; intros b Hf; cbn [for_each]; [apply steps_ret|].
  apply steps_bind; [apply Hf; left|]. intros b'. apply IH. intros b2 a' Ha'. apply Hf. by right.
Qed.
Lemma steps_bind_results {A B} (I : A → Prop) (m : M A) (f : A → M B) :
  steps R m → results I m → (∀ a, I a → steps R (f a)) → steps R (m ≫= f).
Proof.
  intros Hm Hr Hf w. unfold mbind, SE_bind. specialize (Hm w). specialize (Hr w).
  destruct (m w) as [w' [a|e]]; [|done]. etrans; [exact Hm|]. by eapply Hf, Hr.
Qed.
Lemma steps_for_each_results {A B} (I : B → Prop) (f : B → A → M B) b l :
  I b → (∀ b a, I b → steps R (f b a) ∧ results I (f b a)) → steps R (for_each f b l).
Proof.
  intros Hb Hf. revert b Hb. induction l as [|a l IH]; intros b Hb; cbn [for_each]; [apply steps_ret|].
  destruct (Hf b a Hb). by eapply steps_bind_results.
Qed.
End steps.

#[export] Hint Resolve steps_ret steps_throw steps_gets steps_lift steps_context steps_try steps_ok steps_is_file
  steps_read steps_call : steps.

Ltac sbind := match goal with |- steps ?R _ => refine (steps_bind R _ _ _ _) end.
Ltac sloop := match goal with |- steps ?R _ => refine (steps_for_each R _ _ _ _) end.
(** Goes through a program's binds, branches and loops. *)
Ltac step_through :=
  repeat match goal with
  | |- ∀ _, _ => intros ?
  | |- steps _ (_ ≫= _) => sbind
  | |- steps _ (for_each _ _ _) => sloop
  | |- steps _ (drop_ _) => unfold drop_
  | |- steps _ (match ?x with _ => _ end) => destruct x
  | |- steps _ (if ?x then _ else _) => destruct x
  | |- steps _ (let '(_, _) := ?x in _) => destruct x
  | |- steps _ _ => solve [eauto with steps typeclass_instances]
  | |- steps _ (with_context _ _) => apply steps_context
  | |- steps _ (try _) => apply steps_try
  | |- steps _ (ok _) => apply steps_ok
  end.
