(* ===== verification/Remote.v ===== *)
(** * Reading registries (tools/update: [github.rs], [oci.rs], [helm.rs])

    GitHub's API in pages, an OCI registry with its token handshake and page links, and a Helm
    repository's index. JSON replies are decoded as serde derives it: a missing or ill-typed field
    is an error, an unknown one is ignored. *)

From Stdlib Require Import Ascii.
From stdpp Require Import options.
From S2P Require Import Prelude Text Json State Host.

(** ** serde *)

Definition field (k : string) (v : Value) : option Value := match v with Object m => assoc k m | _ => None end.
Definition string_field (k : string) (v : Value) : option string := field k v ≫= as_str.
Definition bool_field (k : string) (v : Value) : option bool :=
  field k v ≫= λ v, match v with Bool b => Some b | _ => None end.
(** An [Option] field: absent or null is [None]. *)
Definition optional {A} (as_ : Value → option A) (k : string) (v : Value) : option (option A) :=
  match field k v with
  | None | Some Null => Some None
  | Some v => Some <$> as_ v
  end.

(** ** [github.rs] *)

Record Release : Type := mkRelease { tag_name : string; draft : bool; prerelease : bool }.
Definition release_of (v : Value) : option Release :=
  t ← string_field "tag_name" v; d ← bool_field "draft" v; p ← bool_field "prerelease" v; Some (mkRelease t d p).
Definition tag_of (v : Value) : option string := string_field "name" v.
Definition sha_of (v : Value) : option string := string_field "sha" v.
Definition list_of {A} (as_ : Value → option A) (v : Value) : option (list A) := as_array v ≫= mapM as_.

Definition PAGES : nat := 3.

Record GitHub : Type := mkGitHub { gh_token : option string }.

(** ** [oci.rs] *)

Definition split (repository : string) : string * string :=
  let repository := trim_start_str "oci://" repository in
  match split_once "/" repository with
  | Some (host, rest) =>
      if contains_char "." host || contains_char ":" host || bool_decide (host = "localhost")
      then (if bool_decide (host = "docker.io") then "registry-1.docker.io" else host, rest)
      else ("registry-1.docker.io", repository)
  | None => ("registry-1.docker.io", "library/" +:+ repository)
  end.

Example splits_references :
  split "ghcr.io/k8snetworkplumbingwg/multus-cni" = ("ghcr.io", "k8snetworkplumbingwg/multus-cni") ∧
  split "b3log/siyuan" = ("registry-1.docker.io", "b3log/siyuan") ∧
  split "nginx" = ("registry-1.docker.io", "library/nginx") ∧
  split "oci://ghcr.io/stakater/charts/reloader" = ("ghcr.io", "stakater/charts/reloader") ∧
  split "docker.io/owncast/owncast" = ("registry-1.docker.io", "owncast/owncast").
Proof. vm_compute. done. Qed.

Definition double_quote : ascii := "034"%char.

(** One [key="value"] of a challenge; [None] ends the parse. *)
Definition token_part (acc : option (option string * list string)) (part : string) : option (option string * list string) :=
  '(realm, query) ← acc;
  '(k, v) ← split_once "=" (trim part);
  let v := trim_matches (λ c, bool_decide (c = double_quote)) v in
  Some (if bool_decide (k = "realm") then (Some v, query) else (realm, query ++ [k +:+ "=" +:+ v])).
Definition token_url (challenge : string) : option string :=
  params ← strip_prefix "Bearer " challenge;
  '(realm, query) ← fold_left token_part (split_char "," params) (Some (None, []));
  realm ← realm;
  Some (if bool_decide (query = []) then realm else realm +:+ "?" +:+ join "&" query).

Definition ACCEPT : string :=
  "application/vnd.oci.image.index.v1+json, application/vnd.docker.distribution.manifest.list.v2+json, application/vnd.oci.image.manifest.v1+json, application/vnd.docker.distribution.manifest.v2+json".

(** The slice between the first [<] and the first [>]: Rust panics when the [>] comes first, modelled
    as no link. *)
Definition next_link (h : string) : option string :=
  '(before, after) ← split_once "<" h;
  '(upto, _) ← split_once ">" h;
  if contains ("rel=" +:+ str [double_quote] +:+ "next" +:+ str [double_quote]) h
  then strip_prefix (before +:+ "<") upto else None.

Record Registry : Type := mkRegistry { host : string; repo : string; token : option string }.
Definition new (repository : string) : Registry :=
  let '(host, repo) := split repository in mkRegistry host repo None.

Definition tok_of (v : Value) : option (option string) :=
  t ← optional as_str "token" v; a ← optional as_str "access_token" v;
  Some (match t with Some t => Some t | None => a end).
Definition tags_of (v : Value) : option (option (list string)) := optional (list_of as_str) "tags" v.

Section remote.
Context `{Outside}.

(** [into_json] *)
Definition into_json {A} (as_ : Value → option A) (r : Response) : M A :=
  lift (match parse_json (rs_body r) ≫= as_ with Some a => Ok a | None => Err ["failed to read JSON"] end).

Definition github_get (gh : GitHub) (path : string) : M Response :=
  r ← call (mkRequest "GET" ("https://api.github.com" +:+ path)
              (("Accept", "application/vnd.github+json") ::
               match gh_token gh with Some t => [("Authorization", "Bearer " +:+ t)] | None => [] end));
  match r with
  | HttpOk r => mret r
  | HttpStatus code _ => throw ["GET " +:+ path; "status code " +:+ pretty code]
  | HttpTransport e => throw ["GET " +:+ path; e]
  end.

Fixpoint paged_from {A} (as_ : Value → option A) (gh : GitHub) (path : string) (page n : nat) (all : list A) : M (list A) :=
  match n with
  | 0 => mret all
  | S n =>
      r ← github_get gh (path +:+ "?per_page=100&page=" +:+ pretty page);
      items ← into_json (list_of as_) r;
      if (length items <? 100)%nat then mret (all ++ items)
      else paged_from as_ gh path (S page) n (all ++ items)
  end.
Definition paged {A} (as_ : Value → option A) (gh : GitHub) (path : string) : M (list A) :=
  paged_from as_ gh path 1 PAGES [].

Definition release_tags (gh : GitHub) (owner repo : string) : M (list string) :=
  rs ← paged release_of gh ("/repos/" +:+ owner +:+ "/" +:+ repo +:+ "/releases");
  mret (tag_name <$> filter (λ r, negb (draft r) && negb (prerelease r) = true) rs).
Definition github_tags (gh : GitHub) (owner repo : string) : M (list string) :=
  paged tag_of gh ("/repos/" +:+ owner +:+ "/" +:+ repo +:+ "/tags").
Definition branch_head (gh : GitHub) (owner repo branch : string) : M string :=
  r ← github_get gh ("/repos/" +:+ owner +:+ "/" +:+ repo +:+ "/commits/" +:+ branch);
  into_json sha_of r.

(** The registry keeps the token, so the operations return it. *)
Definition authorization (reg : Registry) : list (string * string) :=
  ("Accept", ACCEPT) :: match token reg with Some t => [("Authorization", "Bearer " +:+ t)] | None => [] end.
Fixpoint request_loop (n : nat) (reg : Registry) (method url : string) : M (Registry * Response) :=
  match n with
  | 0 => throw [url +:+ ": unauthorized"]
  | S n =>
      res ← call (mkRequest method url (authorization reg));
      match res with
      | HttpOk r => mret (reg, r)
      | HttpStatus code r =>
          if (code =? 401)%N && bool_decide (token reg = None) then
            let challenge := default "" (assoc "www-authenticate" (rs_headers r)) in
            turl ← lift (match token_url challenge with
                         | Some u => Ok u
                         | None => Err [url +:+ ": unsupported auth " +:+ challenge]
                         end);
            t ← call (mkRequest "GET" turl []);
            match t with
            | HttpOk r => tok ← into_json tok_of r; request_loop n (mkRegistry (host reg) (repo reg) tok) method url
            | HttpStatus code _ => throw ["status code " +:+ pretty code]
            | HttpTransport e => throw [e]
            end
          else throw [method +:+ " " +:+ url; "status code " +:+ pretty code]
      | HttpTransport e => throw [method +:+ " " +:+ url; e]
      end
  end.
Definition request : Registry → string → string → M (Registry * Response) := request_loop 2.

Fixpoint tags_from (n : nat) (reg : Registry) (next : option string) (all : list string) : M (Registry * list string) :=
  match n, next with
  | 0, _ | _, None => mret (reg, all)
  | S n, Some path =>
      '(reg, r) ← request reg "GET" ("https://" +:+ host reg +:+ path);
      let next := assoc "link" (rs_headers r) ≫= next_link in
      l ← into_json tags_of r;
      tags_from n reg next (all ++ default [] l)
  end.
Definition registry_tags (reg : Registry) : M (Registry * list string) :=
  tags_from 50 reg (Some ("/v2/" +:+ repo reg +:+ "/tags/list?n=1000")) [].

Definition registry_digest (reg : Registry) (tag : string) : M (Registry * string) :=
  let url := "https://" +:+ host reg +:+ "/v2/" +:+ repo reg +:+ "/manifests/" +:+ tag in
  '(reg, r) ← request reg "HEAD" url;
  lift (match assoc "docker-content-digest" (rs_headers r) with
        | Some d => Ok (reg, d)
        | None => Err [url +:+ ": no Docker-Content-Digest"]
        end).

End remote.

(** Reading a registry changes no file. *)
Section reads.
#[local] Set Default Proof Using "Type*".
Context `{Outside} (R : relation Files) `{!PreOrder R}.

Lemma steps_json {A} (as_ : Value → option A) r : steps R (into_json as_ r).
Proof. apply steps_lift, _. Qed.
Lemma steps_github gh path : steps R (github_get gh path).
Proof. unfold github_get. step_through. Qed.
#[local] Hint Resolve steps_json steps_github : steps.
Lemma steps_paged {A} (as_ : Value → option A) gh path : steps R (paged as_ gh path).
Proof.
  unfold paged. generalize 1, PAGES, (@nil A). intros k n. revert k. induction n as [|n IH]; intros k all; cbn [paged_from]; step_through.
Qed.
#[local] Hint Resolve steps_paged : steps.
Lemma steps_release_tags gh owner repo : steps R (release_tags gh owner repo).
Proof. unfold release_tags. step_through. Qed.
Lemma steps_github_tags gh owner repo : steps R (github_tags gh owner repo).
Proof. apply steps_paged. Qed.
Lemma steps_branch_head gh owner repo branch : steps R (branch_head gh owner repo branch).
Proof. unfold branch_head. step_through. Qed.
Lemma steps_request reg method url : steps R (request reg method url).
Proof. unfold request. generalize 2 as n. intros n. revert reg. induction n as [|n IH]; intros reg; cbn [request_loop]; step_through. Qed.
#[local] Hint Resolve steps_request : steps.
Lemma steps_registry_tags reg : steps R (registry_tags reg).
Proof.
  unfold registry_tags. generalize 50 as n, (@nil string). generalize (Some ("/v2/" +:+ repo reg +:+ "/tags/list?n=1000")).
  intros next n. revert reg next. induction n as [|n IH]; intros reg next all; cbn [tags_from]; step_through.
Qed.
Lemma steps_registry_digest reg tag : steps R (registry_digest reg tag).
Proof. unfold registry_digest. step_through. Qed.
End reads.
#[export] Hint Resolve steps_release_tags steps_github_tags steps_branch_head steps_registry_tags steps_registry_digest : steps.

(** ** Pages *)

Section pages.
Context `{Outside}.

(** The program computes [a] and leaves the files. *)
Definition gives {A} (m : M A) (a : A) : Prop := ∀ w, ∃ n, m w = (mkWorld (w_files w) n, Ok a).

Lemma gives_ret {A} (a : A) : gives (mret a) a.
Proof. intros [fs n]. by exists n. Qed.
Lemma gives_bind {A B} (m : M A) (f : A → M B) a b : gives m a → gives (f a) b → gives (m ≫= f) b.
Proof.
  intros Hm Hf w. destruct (Hm w) as [n E]. destruct (Hf (mkWorld (w_files w) n)) as [n' E'].
  exists n'. unfold mbind, SE_bind. by rewrite E, E'.
Qed.
Lemma gives_lift {A} (a : A) : gives (lift (Ok a)) a.
Proof. intros [fs n]. by exists n. Qed.
Lemma gives_call rq r : (∀ n fs, http n fs rq = r) → gives (call rq) r.
Proof. intros Hr w. exists (S (w_step w)). unfold call, tick. by rewrite Hr. Qed.
Lemma gives_json {A} (as_ : Value → option A) r v a :
  parse_json (rs_body r) = Some v → as_ v = Some a → gives (into_json as_ r) a.
Proof. intros Hv Ha. unfold into_json. rewrite Hv. cbn. rewrite Ha. apply gives_lift. Qed.

(** GitHub's API serves a list in pages of a hundred, numbered from 1. *)
Definition github_pages (gh : GitHub) (path : string) (items : list Value) : Prop :=
  ∀ k, 1 ≤ k → ∃ resp, gives (github_get gh (path +:+ "?per_page=100&page=" +:+ pretty k)) resp ∧
    parse_json (rs_body resp) = Some (Array (take 100 (drop (100 * (k - 1)) items))).

Lemma mapM_chunk {A B} (f : A → option B) l xs i n :
  mapM f l = Some xs → mapM f (take n (drop i l)) = Some (take n (drop i xs)).
Proof.
  rewrite !mapM_Some. intros Hf. by apply Forall2_take, Forall2_drop.
Qed.

Lemma paged_from_spec {A} (as_ : Value → option A) gh path items xs k n :
  github_pages gh path items → mapM as_ items = Some xs → 1 ≤ k →
  gives (paged_from as_ gh path k n (take (100 * (k - 1)) xs)) (take (100 * (k - 1 + n)) xs).
Proof.
  intros Hpages Hxs. revert k. induction n as [|n IH]; intros k Hk; cbn [paged_from].
  { rewrite Nat.add_0_r. apply gives_ret. }
  destruct (Hpages k Hk) as (resp & Hget & Hbody).
  eapply gives_bind; [exact Hget|]. eapply gives_bind.
  { eapply gives_json; [exact Hbody|]. unfold list_of, as_array. cbn [mbind option_bind]. by apply mapM_chunk. }
  rewrite take_take_drop. destruct (Nat.ltb_spec (length (take 100 (drop (100 * (k - 1)) xs))) 100) as [Hl|Hl].
  - rewrite length_take, length_drop in Hl.
    rewrite (take_ge xs (100 * (k - 1) + 100)), (take_ge xs (100 * (k - 1 + S n))) by lia. apply gives_ret.
  - replace (100 * (k - 1) + 100) with (100 * (S k - 1)) by lia.
    replace (k - 1 + S n) with (S k - 1 + n) by lia. apply IH. lia.
Qed.

(** Reading a paged list of GitHub's returns its first three hundred items, each once and in
    order, and stops at the first page that is not full. *)
Theorem paged_spec {A} (as_ : Value → option A) gh path items xs :
  github_pages gh path items → mapM as_ items = Some xs →
  gives (paged as_ gh path) (take 300 xs).
Proof. intros Hp Hx. exact (paged_from_spec as_ gh path items xs 1 PAGES Hp Hx (le_n 1)). Qed.

(** ** A registry behind a token *)

(** A registry that wants the token [t], hands it out at the challenge's URL, and then serves [page]. *)
Record protected (h r : string) (page : string → string → option Response) (t : string) : Prop := {
  p_challenge : ∀ method url n fs, is_Some (page method url) → ∃ resp turl tok v,
    http n fs (mkRequest method url (authorization (mkRegistry h r None))) = HttpStatus 401 resp ∧
    token_url (default "" (assoc "www-authenticate" (rs_headers resp))) = Some turl ∧
    (∀ n fs, http n fs (mkRequest "GET" turl []) = HttpOk tok) ∧
    parse_json (rs_body tok) = Some v ∧ tok_of v = Some (Some t);
  p_serves : ∀ method url n fs resp, page method url = Some resp →
    http n fs (mkRequest method url (authorization (mkRegistry h r (Some t)))) = HttpOk resp;
}.

Lemma request_protected h r page t tk method url resp :
  protected h r page t → (tk = None ∨ tk = Some t) → page method url = Some resp →
  gives (request (mkRegistry h r tk) method url) (mkRegistry h r (Some t), resp).
Proof.
  intros Hp Htk Hpage.
  assert (∀ n, gives (request_loop (S n) (mkRegistry h r (Some t)) method url) (mkRegistry h r (Some t), resp)) as Hwith.
  { intros n. cbn [request_loop]. eapply gives_bind; [apply gives_call; intros; by eapply p_serves|]. apply gives_ret. }
  destruct Htk as [-> | ->]; [|apply Hwith].
  intros w. destruct (p_challenge _ _ _ _ Hp method url (w_step w) (w_files w)) as (ch & turl & tok & v & E & Et & Ek & Ev & Eo);
    [by eexists|].
  unfold request. cbn [request_loop].
  assert (gives (t ← call (mkRequest "GET" turl []);
    match t with
    | HttpOk r0 => tok ← into_json tok_of r0; request_loop 1 (mkRegistry h r tok) method url
    | HttpStatus code _ => throw ["status code " +:+ pretty code]
    | HttpTransport e => throw [e]
    end) (mkRegistry h r (Some t), resp)) as Hrest.
  { eapply gives_bind; [by apply gives_call|]. eapply gives_bind; [by eapply gives_json|]. apply Hwith. }
  destruct (Hrest (mkWorld (w_files w) (S (w_step w)))) as [n En]. exists n.
  unfold mbind at 1, SE_bind at 1, call at 1, tick. rewrite E. cbn -[request_loop into_json mbind token_url].
  rewrite Et. exact En.
Qed.

(** The replies linked from [path] hold the lists [ls]. *)
Inductive linked (h : string) (page : string → string → option Response) : string → list (list string) → Prop :=
  | linked_page path resp v l :
      page "GET" ("https://" +:+ h +:+ path) = Some resp → parse_json (rs_body resp) = Some v → tags_of v = Some l →
      assoc "link" (rs_headers resp) ≫= next_link = None →
      linked h page path [default [] l]
  | linked_next path resp v l next ls :
      page "GET" ("https://" +:+ h +:+ path) = Some resp → parse_json (rs_body resp) = Some v → tags_of v = Some l →
      assoc "link" (rs_headers resp) ≫= next_link = Some next → linked h page next ls →
      linked h page path (default [] l :: ls).

(** From a registry that asks for a token, [tags] logs in once and returns the tags of every
    linked page, in order, up to fifty pages. *)
Theorem registry_tags_complete repository page t ls :
  let reg := new repository in
  protected (host reg) (repo reg) page t →
  linked (host reg) page ("/v2/" +:+ repo reg +:+ "/tags/list?n=1000") ls → length ls ≤ 50 →
  gives (registry_tags reg) (mkRegistry (host reg) (repo reg) (Some t), mjoin ls).
Proof.
  unfold new. destruct (split repository) as [h r]. cbn [host repo]. intros Hp Hl Hlen. unfold registry_tags.
  assert (∀ n path ls all tk, linked h page path ls → length ls ≤ n → tk = None ∨ tk = Some t →
    gives (tags_from n (mkRegistry h r tk) (Some path) all) (mkRegistry h r (Some t), all ++ mjoin ls)) as Hgen.
  2: { cbn [repo]. apply (Hgen 50 _ ls []); auto. }
  clear ls Hl Hlen. induction n as [|n IH]; intros path ls all tk Hl Hlen Htk; [by destruct Hl; cbn in Hlen; lia|].
  destruct Hl as [path resp v l Hpage Hv Ht Hn|path resp v l next ls Hpage Hv Ht Hn Hl]; cbn [tags_from host];
    (eapply gives_bind; [by eapply request_protected|]);
    (eapply gives_bind; [by eapply gives_json|]); rewrite Hn.
  - cbn. rewrite app_nil_r. destruct n; apply gives_ret.
  - cbn [mjoin list_join]. change (mjoin (default [] l :: ls)) with (default [] l ++ mjoin ls). rewrite app_assoc.
    apply IH; [done|cbn in Hlen; lia|by right].
Qed.
End pages.

(** ** Witnesses *)

Definition test_outside (http_ : Request → HttpResult) (json : string → option Value) : Outside := {|
  command _ fs _ _ := (fs, None);
  http _ _ := http_;
  stored _ _ := Whole;
  parse_json := json;
|}.

(** A repository of two tags: replies are the URLs asked for. *)
Definition two_tags : list Value := [Object [("name", Str "v1.0")]; Object [("name", Str "v1.1")]].
Definition tags_url : string := "https://api.github.com/repos/o/r/tags?per_page=100&page=".
Definition github_server : Outside :=
  test_outside (λ rq, HttpOk (mkResponse [] (rq_url rq)))
               (λ body, Some (Array (if bool_decide (body = tags_url +:+ "1") then two_tags else []))).

Lemma github_server_pages : github_pages (H := github_server) (mkGitHub None) "/repos/o/r/tags" two_tags.
Proof.
  intros k Hk. exists (mkResponse [] (tags_url +:+ pretty k)). split.
  - intros w. exists (S (w_step w)). reflexivity.
  - cbn. f_equal. f_equal. destruct k as [|[|k]]; [lia|reflexivity|].
    rewrite bool_decide_eq_false_2; [by rewrite drop_ge by (cbn; lia)|].
    intros E%str_app_inv_l. change "1" with (pretty 1) in E. by apply (inj pretty) in E.
Qed.
Lemma paged_spec_witness :
  gives (github_tags (H := github_server) (mkGitHub None) "o" "r") ["v1.0"; "v1.1"].
Proof. exact (paged_spec (H := github_server) tag_of _ _ two_tags ["v1.0"; "v1.1"] github_server_pages eq_refl). Defined.

(** A registry at ghcr.io with two pages of tags. *)
Definition page_url : string := "https://ghcr.io/v2/a/b/tags/list?n=1000".
Definition next_url : string := "https://ghcr.io/v2/a/b/tags/list?last=2".
Definition registry_page (method url : string) : option Response :=
  if bool_decide (method = "GET" ∧ url = page_url)
  then Some (mkResponse [("link", "</v2/a/b/tags/list?last=2>; rel=" +:+ str [double_quote] +:+ "next" +:+ str [double_quote])] "page 1")
  else if bool_decide (method = "GET" ∧ url = next_url) then Some (mkResponse [] "page 2") else None.
Definition registry_server : Outside :=
  test_outside
    (λ rq, if bool_decide (rq_url rq = "https://ghcr.io/token?service=ghcr.io") then HttpOk (mkResponse [] "token")
           else if bool_decide (assoc "Authorization" (rq_headers rq) = Some "Bearer t")
           then (match registry_page (rq_method rq) (rq_url rq) with Some r => HttpOk r | None => HttpStatus 404 (mkResponse [] "") end)
           else HttpStatus 401 (mkResponse [("www-authenticate", "Bearer realm=https://ghcr.io/token,service=ghcr.io")] ""))
    (λ body,
      if bool_decide (body = "token") then Some (Object [("token", Str "t")])
      else if bool_decide (body = "page 1") then Some (Object [("tags", Array [Str "1"; Str "2"])])
      else Some (Object [("tags", Array [Str "3"])])).

Lemma registry_page_url method url :
  is_Some (registry_page method url) → method = "GET" ∧ (url = page_url ∨ url = next_url).
Proof. unfold registry_page. repeat case_bool_decide; naive_solver. Qed.
Lemma registry_server_protected : protected (H := registry_server) "ghcr.io" "a/b" registry_page "t".
Proof.
  split.
  - intros method url n fs [-> Hu]%registry_page_url.
    eexists _, "https://ghcr.io/token?service=ghcr.io", _, (Object [("token", Str "t")]).
    split; [by destruct Hu as [-> | ->]; vm_compute|]. split; [by vm_compute|]. split; [by vm_compute|]. by vm_compute.
  - intros method url n fs resp Hr. assert (is_Some (registry_page method url)) as Hs by by eexists.
    apply registry_page_url in Hs as [-> [-> | ->]]; revert Hr; vm_compute; by intros [= <-].
Qed.
Lemma registry_tags_complete_witness :
  gives (registry_tags (H := registry_server) (new "ghcr.io/a/b"))
    (mkRegistry "ghcr.io" "a/b" (Some "t"), ["1"; "2"; "3"]).
Proof.
  apply (registry_tags_complete (H := registry_server) "ghcr.io/a/b" registry_page "t" [["1"; "2"]; ["3"]]).
  - exact registry_server_protected.
  - eapply (linked_next _ _ _ _ _ (Some ["1"; "2"]));
      [vm_compute; reflexivity|vm_compute; reflexivity|vm_compute; reflexivity|vm_compute; reflexivity|].
    eapply (linked_page _ _ _ _ _ (Some ["3"])); vm_compute; reflexivity.
  - cbn. lia.
Defined.
