(* ===== verification/Pin.v ===== *)
(** * Pins ([tools/update/src/pin.rs])

    A pin file names a version, where it comes from and the hashes nix checks. Its text is serde's:
    a parameter. *)

From Stdlib Require Import Ascii.
From stdpp Require Import options.
From S2P Require Import Prelude State Host.

Inductive Track : Type := Semver | Digest.

Inductive Source : Type :=
  | GithubRelease (owner repo : string) (tag_prefix : option string)
  | GithubTag (owner repo : string) (tag_prefix tag_pattern : option string)
  | GitCommit (owner repo branch : string)
  | HelmRepo (repo chart : string)
  | OciTag (repository : string) (tag_pattern : option string) (track : option Track)
  | UrlSet (url : string) (unpack executable directory : option bool)
  | UrlTemplate (url : string) (owner repo tag_prefix : option string).

Record Pin : Type := mkPin {
  version : string;
  hash : option string;
  digest : option string;
  hashes : gmap string string;
  source : Source;
  constraint : option string;
  hold : option string;
  follows : option string;
}.

Inductive Kind : Type := Src | Chart | Image.
#[export] Instance Kind_eq_dec : EqDecision Kind.
Proof. solve_decision. Defined.

Definition kind_parse (s : string) : option Kind :=
  if bool_decide (s = "src") then Some Src
  else if bool_decide (s = "chart") then Some Chart
  else if bool_decide (s = "image") then Some Image else None.
Definition kind_display (k : Kind) : string :=
  match k with Src => "src" | Chart => "chart" | Image => "image" end.

Lemma kind_parse_display k : kind_parse (kind_display k) = Some k.
Proof. by destruct k. Qed.

Record Entry : Type := mkEntry { id : string; name : string; kind : Kind; path : string; pin : Pin }.

Definition quoted (s : string) : string := String "034"%char (s +:+ String "034"%char "").
Definition attr_name (e : Entry) : string :=
  match kind e with
  | Src => quoted (name e)
  | Chart => "charts." +:+ quoted (name e)
  | Image => "images." +:+ quoted (name e)
  end.

Class PinText : Type := {
  pin_of_json : string → option Pin;
  pin_to_json : Pin → string;
}.
(** serde reads back what it wrote. *)
Class PinTextLaws `{PinText} : Prop := pin_roundtrip p : pin_of_json (pin_to_json p) = Some p.

Definition is_oci (s : Source) : bool := match s with OciTag _ _ _ => true | _ => false end.
Definition is_url_set (s : Source) : bool := match s with UrlSet _ _ _ _ => true | _ => false end.

(** What [read] asks of a pin beyond its syntax. *)
Definition pin_complaint (p : Pin) : option string :=
  match source p, hash p, digest p with
  | OciTag _ _ _, _, None => Some "oci-tag needs digest"
  | OciTag _ _ _, _, _ => None
  | UrlSet _ _ _ _, _, _ => if bool_decide (hashes p = ∅) then Some "url-set needs hashes" else None
  | _, None, _ => Some "missing hash"
  | _, _, _ => None
  end.

Section pins.
Context `{Outside, PinText}.

Definition read (path : string) : M Pin :=
  text ← with_context ("reading " +:+ path) (read_to_string path);
  pin ← with_context ("parsing " +:+ path)
          (lift (match pin_of_json text with Some p => Ok p | None => Err ["invalid pin"] end));
  match pin_complaint pin with
  | Some c => throw [path +:+ ": " +:+ c]
  | None => mret pin
  end.

Definition write_pin (path : string) (p : Pin) : M () :=
  with_context ("writing " +:+ path) (write path (pin_to_json p)).
Definition save (e : Entry) : M () := write_pin (path e) (pin e).

(** ** Discovery *)

Definition subtrees : list (string * Kind) := [("", Src); ("charts", Chart); ("images", Image)].
Definition tree_of (root sub : string) : string :=
  if bool_decide (sub = "") then root +:+ "/pkgs" else root +:+ "/pkgs/" +:+ sub.
(** The directories of [dir] that hold a pin file. *)
Definition pin_dir (dir file : string) : option string :=
  rest ← strip_prefix (dir +:+ "/") file;
  '(name, base) ← split_once "/" rest;
  if bool_decide (base = "pin.json") then Some name else None.
Definition pin_dirs (dir : string) : M (list string) := gets (λ w, omap (λ f, pin_dir dir f.1) (map_to_list (w_files w))).

Definition id_of (sub name : string) : string := if bool_decide (sub = "") then name else sub +:+ "/" +:+ name.
Definition discover_one (root : string) (sub : string) (kind : Kind) (out : list Entry) (name : string) : M (list Entry) :=
  if bool_decide (kind = Src) && (bool_decide (name = "charts") || bool_decide (name = "images")) then mret out
  else
    let path := tree_of root sub +:+ "/" +:+ name +:+ "/pin.json" in
    pin ← read path;
    mret (out ++ [mkEntry (id_of sub name) name kind path pin]).
Definition discover_tree (root : string) (out : list Entry) (t : string * Kind) : M (list Entry) :=
  names ← pin_dirs (tree_of root t.1);
  for_each (discover_one root t.1 t.2) out names.
Definition id_leb (a b : Entry) : bool := String.leb (id a) (id b).
Definition discover (root : string) : M (list Entry) :=
  out ← for_each (discover_tree root) [] subtrees;
  mret (stable_sort id_leb out).
End pins.

(** ** A text with the laws *)

Module Reference.
Definition opt (o : option string) : list string := match o with Some s => [s] | None => [] end.
Definition unopt (l : list string) : option string := head l.
Definition flag (o : option bool) : list string := opt ((λ b : bool, if b then "true" else "false") <$> o).
Definition unflag (l : list string) : option bool := (λ s, bool_decide (s = "true")) <$> head l.
Definition track_flag (o : option Track) : list string :=
  flag ((λ t, match t with Semver => true | Digest => false end) <$> o).
Definition untrack (l : list string) : option Track := (λ b : bool, if b then Semver else Digest) <$> unflag l.

Definition source_fields (s : Source) : list (list string) :=
  match s with
  | GithubRelease o r p => [["github-release"; o; r]; opt p]
  | GithubTag o r p t => [["github-tag"; o; r]; opt p; opt t]
  | GitCommit o r b => [["git-commit"; o; r; b]]
  | HelmRepo r c => [["helm-repo"; r; c]]
  | OciTag r t k => [["oci-tag"; r]; opt t; track_flag k]
  | UrlSet u a b c => [["url-set"; u]; flag a; flag b; flag c]
  | UrlTemplate u o r p => [["url-template"; u]; opt o; opt r; opt p]
  end.
Definition source_of (l : list (list string)) : option Source :=
  match l with
  | [["github-release"; o; r]; p] => Some (GithubRelease o r (unopt p))
  | [["github-tag"; o; r]; p; t] => Some (GithubTag o r (unopt p) (unopt t))
  | [["git-commit"; o; r; b]] => Some (GitCommit o r b)
  | [["helm-repo"; r; c]] => Some (HelmRepo r c)
  | [["oci-tag"; r]; t; k] => Some (OciTag r (unopt t) (untrack k))
  | [["url-set"; u]; a; b; c] => Some (UrlSet u (unflag a) (unflag b) (unflag c))
  | [["url-template"; u]; o; r; p] => Some (UrlTemplate u (unopt o) (unopt r) (unopt p))
  | _ => None
  end.
Lemma source_of_fields s : source_of (source_fields s) = Some s.
Proof.
  destruct s as [? ? []|? ? [] []| | |? [] [[]|]|? [[]|] [[]|] [[]|]|? [] [] []]; reflexivity.
Qed.

Definition fields (p : Pin) : list (list string) :=
  [version p] :: opt (hash p) :: opt (digest p) :: (map_to_list (hashes p)).*1 :: (map_to_list (hashes p)).*2 ::
  opt (constraint p) :: opt (hold p) :: opt (follows p) :: source_fields (source p).
Definition of_fields (l : list (list string)) : option Pin :=
  match l with
  | [v] :: h :: d :: ks :: vs :: c :: o :: f :: s =>
      (λ s, mkPin v (unopt h) (unopt d) (list_to_map (zip ks vs)) s (unopt c) (unopt o) (unopt f)) <$> source_of s
  | _ => None
  end.
Lemma of_fields_fields p : of_fields (fields p) = Some p.
Proof.
  destruct p as [v h d hs s c o f]. unfold of_fields, fields. cbn [version hash digest hashes source constraint hold follows].
  rewrite source_of_fields, zip_fst_snd, list_to_map_to_list. by destruct h, d, c, o, f.
Qed.

#[export] Instance text : PinText := {| pin_of_json s := p ← unbits s; l ← decode p; of_fields l; pin_to_json p := bits (encode (fields p)) |}.
#[export] Instance text_laws : PinTextLaws.
Proof. intros p. cbn. rewrite unbits_bits. cbn. rewrite decode_encode. apply of_fields_fields. Qed.
End Reference.
