(* ===== verification/Resolve.v ===== *)
(** * Newer versions and their hashes (tools/update: [resolve.rs], [nix.rs])

    [pick] chooses the newest tag a pin may move to, [latest] asks the registry the pin names, and
    [rehash] moves the pin file, recomputing its hashes by failing builds. Regular expressions are a
    library's: a parameter. *)

From Stdlib Require Import Ascii.
From stdpp Require Import options.
From S2P Require Import Prelude Text Json State Host Damage Version Remote Pin.

(** [captures]: the whole match, and the groups. *)
Class RegexLib : Type := {
  Regex : Type;
  regex_new : string → option Regex;
  captures : Regex → string → option (string * list (option string));
}.

(** What helm's index lists for a chart; YAML is a library's format. *)
Class YamlLib : Type := index_versions : string → option (gmap string (list string)).

Section pick.
Context `{RegexLib}.

Definition key (s : string) (pattern : option Regex) : option Version :=
  match pattern with
  | Some re =>
      '(whole, groups) ← captures re s;
      if bool_decide (whole ≠ s) then None
      else
        let groups := omap (λ g, g) groups in
        if bool_decide (groups = []) then Version.parse whole else Version.parse (join "." groups)
  | None => Version.parse s
  end.

(** [Iterator::max_by]: the last of the largest. *)
Definition max_by {A} (cmp : A → A → comparison) (l : list A) : option A :=
  match l with
  | [] => None
  | a :: l => Some (fold_left (λ x y, match cmp x y with Gt => x | _ => y end) l a)
  end.

Definition candidates (tags : list string) (prefix : string) (pattern : option Regex) (cur : Version)
    (c : option Constraint) : list (Version * string) :=
  filter (λ ks, match compare ks.1 cur with Gt => match c with Some c => matches c ks.1 | None => true end | _ => false end = true)
    (omap (λ s, (λ k, (k, s)) <$> key s pattern) (omap (strip_prefix prefix) tags)).

Definition pick (tags : list string) (prefix : string) (pattern : option Regex) (current : string)
    (c : option Constraint) : option string :=
  cur ← key current pattern;
  snd <$> max_by (λ a b, compare a.1 b.1) (candidates tags prefix pattern cur c).

Definition pin_constraint (p : Pin) (major : bool) : Result (option Constraint) Error :=
  match Pin.constraint p, major with
  | Some c, false => match parse_constraint c with Ok c => Ok (Some c) | Err e => Err [e] end
  | _, _ => Ok None
  end.
End pick.

Record Update : Type := mkUpdate { to_version : string; to_digest : option string }.
Definition display_update (u : Update) : string :=
  match to_digest u with
  | Some d => to_version u +:+ "@" +:+ str (take 19 (chars d))
  | None => to_version u
  end.

(** ** [nix.rs] *)

Definition FAKE_HASH : string := "sha256-AAAAAAAAAAAAAAAAAAAAAAAAAAAAAAAAAAAAAAAAAAA=".

Definition base64_char (c : ascii) : bool :=
  is_ascii_alphanumeric c || bool_decide (c = "+"%char) || bool_decide (c = "/"%char) || bool_decide (c = "="%char).
Fixpoint take_while (p : ascii → bool) (l : list ascii) : list ascii :=
  match l with [] => [] | a :: l' => if p a then a :: take_while p l' else [] end.
Definition strip_list (p l : list ascii) : option (list ascii) :=
  if decide (p `prefix_of` l) then Some (drop (length p) l) else None.
(** [got:\s+(sha256-[A-Za-z0-9+/=]+)] at the head of [l], and what follows it. *)
Definition got_here (l : list ascii) : option (string * list ascii) :=
  l1 ← strip_list (chars "got:") l;
  let l2 := drop_while is_whitespace l1 in
  l3 ← strip_list (chars "sha256-") l2;
  let digits := take_while base64_char l3 in
  if bool_decide (length l2 = length l1) || bool_decide (digits = []) then None
  else Some ("sha256-" +:+ str digits, drop (length digits) l3).
Fixpoint got_all (n : nat) (l : list ascii) : list string :=
  match n, l with
  | S n, a :: l' => match got_here l with Some (h, rest) => h :: got_all n rest | None => got_all n l' end
  | _, _ => []
  end.
Definition parse_got (log : string) : option string := last (got_all (String.length log) (chars log)).

Example parses_got :
  parse_got ("specified: " +:+ FAKE_HASH +:+ str [newline] +:+ "   got:    sha256-rhuWEEN+CtumVxOw6Dy/IRxWIrZ2x6RJb6ULYwXCQc4=" +:+ str [newline])
  = Some "sha256-rhuWEEN+CtumVxOw6Dy/IRxWIrZ2x6RJb6ULYwXCQc4=" ∧ parse_got "error: something else" = None.
Proof. vm_compute. done. Qed.

Record Ctx : Type := mkCtx { root : string; system : string; gh : GitHub }.

(** The URL the nix fetcher downloads. *)
Definition fetch_url (p : Pin) : option string :=
  match source p with
  | GithubRelease owner repo tag_prefix | GithubTag owner repo tag_prefix _ =>
      Some ("https://github.com/" +:+ owner +:+ "/" +:+ repo +:+ "/archive/refs/tags/" +:+ default "" tag_prefix +:+ version p +:+ ".tar.gz")
  | GitCommit owner repo _ => Some ("https://github.com/" +:+ owner +:+ "/" +:+ repo +:+ "/archive/" +:+ version p +:+ ".tar.gz")
  | UrlTemplate url _ _ _ => Some (replace "{version}" (version p) url)
  | _ => None
  end.
Definition attr (ctx : Ctx) (e : Entry) : string := "legacyPackages." +:+ system ctx +:+ ".pinned." +:+ attr_name e.

Definition nix_features : list string := ["--extra-experimental-features"; "nix-command flakes"].

Section resolve.
Context `{Outside, PinText, RegexLib, YamlLib}.

Definition helm_versions (repo chart : string) : M (list string) :=
  let base := trim_end_matches (λ c, bool_decide (c = "/"%char)) repo in
  if starts_with "oci://" repo then
    '(_, tags) ← registry_tags (Remote.new (base +:+ "/" +:+ chart));
    mret (replace_char "_" "+" <$> tags)
  else
    let url := base +:+ "/index.yaml" in
    r ← call (mkRequest "GET" url []);
    match r with
    | HttpOk r =>
        match index_versions (rs_body r) with
        | Some idx => mret (default [] (idx !! chart))
        | None => throw ["parsing index.yaml"]
        end
    | _ => throw ["GET " +:+ url]
    end.

Definition regex_option (p : option string) : M (option Regex) :=
  match p with
  | None => mret None
  | Some p => lift (match regex_new p with Some re => Ok (Some re) | None => Err ["bad pattern"] end)
  end.

Definition latest_version (ctx : Ctx) (p : Pin) (major : bool) : M (option string) :=
  c ← lift (pin_constraint p major);
  match source p with
  | GithubRelease owner repo tag_prefix =>
      tags ← release_tags (gh ctx) owner repo;
      mret (pick tags (default "" tag_prefix) None (version p) c)
  | GithubTag owner repo tag_prefix tag_pattern =>
      tags ← github_tags (gh ctx) owner repo;
      re ← regex_option tag_pattern;
      mret (pick tags (default "" tag_prefix) re (version p) c)
  | GitCommit owner repo branch =>
      h ← branch_head (gh ctx) owner repo branch;
      mret (if bool_decide (h = version p) then None else Some h)
  | UrlTemplate _ (Some owner) (Some repo) tag_prefix =>
      tags ← release_tags (gh ctx) owner repo;
      mret (pick tags (default "" tag_prefix) None (version p) c)
  | UrlTemplate _ _ _ _ | UrlSet _ _ _ _ => mret None
  | HelmRepo repo chart => tags ← helm_versions repo chart; mret (pick tags "" None (version p) c)
  | OciTag _ _ _ => mret None (* handled in [latest] *)
  end.

Definition latest (ctx : Ctx) (e : Entry) (major : bool) : M (option Update) :=
  let p := pin e in
  match source p with
  | OciTag repository tag_pattern track =>
      let reg := Remote.new repository in
      found ← match default Semver track with
        | Digest => mret (Some (reg, version p))
        | Semver =>
            c ← lift (pin_constraint p major);
            re ← regex_option tag_pattern;
            '(reg, tags) ← registry_tags reg;
            mret ((λ v, (reg, v)) <$> pick tags "" re (version p) c)
        end;
      match found with
      | None => mret None
      | Some (reg, v) =>
          '(_, d) ← registry_digest reg v;
          mret (if bool_decide (v ≠ version p) || bool_decide (digest p ≠ Some d) then Some (mkUpdate v (Some d)) else None)
      end
  | _ => v ← latest_version ctx p major; mret ((λ v, mkUpdate v None) <$> v)
  end.

(** ** Hashes *)

Definition nix_run (dir : string) (args : list string) : M string :=
  o ← with_context ("running " +:+ join " " args) (output dir args);
  if o_success o then mret (trim (o_stdout o)) else throw [join " " args +:+ " failed: " +:+ trim (o_stderr o)].
Definition to_sri (nix32 : string) : M string :=
  nix_run "." ["nix"; "--extra-experimental-features"; "nix-command"; "hash"; "convert"; "--hash-algo"; "sha256"; "--to"; "sri"; nix32].
Definition last_line (s : string) : string := default "" (last (lines s)).
Definition prefetch_unpack (url : string) : M string :=
  h ← nix_run "." ["nix-prefetch-url"; "--unpack"; "--type"; "sha256"; url]; to_sri (last_line h).
Definition prefetch_file (url : string) : M string :=
  h ← nix_run "." ["nix-prefetch-url"; "--type"; "sha256"; url]; to_sri (last_line h).
Definition nix_build (root attr : string) : M string :=
  out ← nix_run root (["nix"] ++ nix_features ++ ["build"; "--no-link"; "--print-out-paths"; "--no-pure-eval"; ".#" +:+ attr]);
  mret (last_line out).
Definition fake_hash_build (root attr : string) : M string :=
  o ← with_context "running nix build" (output root (["nix"] ++ nix_features ++ ["build"; "--no-link"; "--no-pure-eval"; ".#" +:+ attr]));
  if o_success o then throw [attr +:+ " built with a fake hash; is the hash used?"]
  else lift (match parse_got (o_stderr o) with
             | Some h => Ok h
             | None => Err [attr +:+ ": no hash mismatch in build log:" +:+ join (str [newline]) (reverse (take 15 (reverse (lines (o_stderr o)))))]
             end).

Definition with_pin (p : Pin) (e : Entry) : Entry := mkEntry (Pin.id e) (name e) (kind e) (path e) p.
Definition set_version (v : string) (p : Pin) : Pin :=
  mkPin v (hash p) (digest p) (hashes p) (source p) (constraint p) (hold p) (follows p).
Definition set_hash (h : string) (p : Pin) : Pin :=
  mkPin (version p) (Some h) (digest p) (hashes p) (source p) (constraint p) (hold p) (follows p).
Definition set_digest (d : string) (p : Pin) : Pin :=
  mkPin (version p) (hash p) (Some d) (hashes p) (source p) (constraint p) (hold p) (follows p).
Definition set_derived (k h : string) (p : Pin) : Pin :=
  mkPin (version p) (hash p) (digest p) (<[k := h]> (hashes p)) (source p) (constraint p) (hold p) (follows p).

(** A [BTreeMap]'s keys, in order. *)
Definition keys (m : gmap string string) : list string := stable_sort String.leb (map_to_list m).*1.

(** A derived hash: save the fake one, build, save what the failure reports. *)
Definition rehash_derived (ctx : Ctx) (e : Entry) (k : string) : M Entry :=
  let e := with_pin (set_derived k FAKE_HASH (pin e)) e in
  _ ← save e;
  got ← with_context ("computing " +:+ k) (fake_hash_build (root ctx) (attr ctx e));
  let e := with_pin (set_derived k got (pin e)) e in
  _ ← save e;
  mret e.

Definition rehash (ctx : Ctx) (e : Entry) (update : Update) : M Entry :=
  let e := with_pin (set_version (to_version update) (pin e)) e in
  match to_digest update with
  | Some d => let e := with_pin (set_digest d (pin e)) e in _ ← save e; mret e
  | None =>
      h ← match source (pin e), fetch_url (pin e) with
          | UrlTemplate _ _ _ _, Some u => prefetch_file u
          | _, Some u => prefetch_unpack u
          | _, None =>
              let e := with_pin (set_hash FAKE_HASH (pin e)) e in
              _ ← save e;
              fake_hash_build (root ctx) (attr ctx e)
          end;
      let e := with_pin (set_hash h (pin e)) e in
      _ ← save e;
      for_each (rehash_derived ctx) e (keys (hashes (pin e)))
  end.

Definition restore (path original : string) : M () := with_context ("restoring " +:+ path) (write path original).
End resolve.

(** What the operations change. *)
Section frame.
#[local] Set Default Proof Using "Type*".
Context `{Outside, PinText, RegexLib, YamlLib} (R : relation Files) `{!PreOrder R}.

Lemma steps_helm repo chart : steps R (helm_versions repo chart).
Proof. unfold helm_versions. step_through. Qed.
Lemma steps_regex p : steps R (regex_option p).
Proof. unfold regex_option. step_through. Qed.
#[local] Hint Resolve steps_helm steps_regex : steps.
Lemma steps_latest_version ctx p major : steps R (latest_version ctx p major).
Proof. unfold latest_version. step_through. Qed.
#[local] Hint Resolve steps_latest_version : steps.
Lemma steps_latest ctx e major : steps R (latest ctx e major).
Proof. unfold latest. step_through. Qed.

Context (Hcmd : ∀ n fs dir args, R fs (command n fs dir args).1).
Lemma steps_any_output dir args : steps R (output dir args).
Proof. by apply steps_output. Qed.
#[local] Hint Resolve steps_any_output : steps.
Lemma steps_nix_run dir args : steps R (nix_run dir args).
Proof. unfold nix_run. step_through. Qed.
#[local] Hint Resolve steps_nix_run : steps.
Lemma steps_nix_build root a : steps R (nix_build root a).
Proof. unfold nix_build. step_through. Qed.
Lemma steps_fake_build root a : steps R (fake_hash_build root a).
Proof. unfold fake_hash_build. step_through. Qed.
Lemma steps_prefetch_file url : steps R (prefetch_file url).
Proof. unfold prefetch_file, to_sri. step_through. Qed.
Lemma steps_prefetch_unpack url : steps R (prefetch_unpack url).
Proof. unfold prefetch_unpack, to_sri. step_through. Qed.
#[local] Hint Resolve steps_fake_build steps_prefetch_file steps_prefetch_unpack : steps.

(** The parts of an entry an update leaves alone. *)
Definition same_but_hashes (e e' : Entry) : Prop :=
  path e' = path e ∧ Pin.id e' = Pin.id e ∧ name e' = name e ∧ kind e' = kind e ∧
  source (pin e') = source (pin e) ∧ constraint (pin e') = constraint (pin e) ∧
  hold (pin e') = hold (pin e) ∧ follows (pin e') = follows (pin e).
#[export] Instance same_but_hashes_preorder : PreOrder same_but_hashes.
Proof using Type. split; [done|]. unfold same_but_hashes. intros e1 e2 e3 ? ?. naive_solver congruence. Qed.
Lemma rehash_derived_entry ctx e k : results (same_but_hashes e) (rehash_derived ctx e k).
Proof using Type. do 3 (apply results_bind; intros ?). by apply results_ret. Qed.
Lemma rehash_entry ctx e u : results (same_but_hashes e) (rehash ctx e u).
Proof using Type.
  unfold rehash. destruct (to_digest u); [apply results_bind; intros _; by apply results_ret|].
  do 2 (apply results_bind; intros ?). apply results_for_each; [done|].
  intros e1 k He1 w w' e2 E. etrans; [exact He1|]. by eapply rehash_derived_entry.
Qed.

(** [rehash] writes only the entry's own file. *)
Definition writes (p : string) : Prop := ∀ fs c, R fs (<[p := c]> fs).
Lemma steps_save e : writes (path e) → steps R (save e).
Proof. intros Hw. by apply steps_context, steps_write. Qed.
Lemma steps_rehash ctx e u : writes (path e) → steps R (rehash ctx e u).
Proof.
  intros Hw. unfold rehash. assert (∀ e', path e' = path e → steps R (save e')) as Hs by (intros e' E; apply steps_save; by rewrite E).
  destruct (to_digest u); [sbind; [by apply Hs|step_through]|].
  sbind; [ |]; [step_through; by apply Hs|]. intros h.
  sbind; [by apply Hs|]. intros _.
  apply (steps_for_each_results R (same_but_hashes e)); [done|]. intros e1 k He1. split.
  - unfold rehash_derived. step_through; apply Hs; apply He1.
  - intros w w' e2 E. etrans; [exact He1|]. by eapply rehash_derived_entry.
Qed.
End frame.

(** ** What [pick] picks *)

Section max_by.
Context {A : Type} (cmp : A → A → comparison).
Context (Hopp : ∀ x y, cmp x y = CompOpp (cmp y x)) (Htrans : ∀ x y z, cmp x y ≠ Gt → cmp y z ≠ Gt → cmp x z ≠ Gt).

Lemma max_by_spec l :
  match max_by cmp l with
  | Some a => a ∈ l ∧ ∀ b, b ∈ l → cmp b a ≠ Gt
  | None => l = []
  end.
Proof using Hopp Htrans.
  destruct l as [|a l]; cbn [max_by]; [done|].
  assert (∀ x y, cmp x y = Gt → cmp y x ≠ Gt) as Hasym by (intros x y E; rewrite Hopp, E; done).
  assert (∀ x, cmp x x ≠ Gt) as Hrefl by (intros x E; by apply (Hasym x x)).
  enough (∀ l a, let m := fold_left (λ x y, match cmp x y with Gt => x | _ => y end) l a in
    m ∈ a :: l ∧ ∀ b, b ∈ a :: l → cmp b m ≠ Gt) as H by apply H.
  clear a l. induction l as [|b l IH]; intros a; cbn [fold_left].
  { split; [left|]. by intros b ->%list_elem_of_singleton. }
  destruct (IH (match cmp a b with Gt => a | _ => b end)) as [Hin Hmax]. set (m := fold_left _ l _) in *.
  assert (cmp (match cmp a b with Gt => a | _ => b end) m ≠ Gt) as Hm by (apply Hmax; left).
  split.
  - apply elem_of_cons in Hin as [->|Hin]; [|by do 2 right]. destruct (cmp a b); [right|right|]; left.
  - intros x [-> |[-> |Hx]%elem_of_cons]%elem_of_cons; [| |apply Hmax; by right].
    + destruct (cmp a b) eqn:E; [| |done]; eapply Htrans; [|exact Hm| |exact Hm]; by rewrite E.
    + destruct (cmp a b) eqn:E; [done|done|]. eapply Htrans; [by apply Hasym|exact Hm].
Qed.
End max_by.

Section picked.
Context `{RegexLib}.

(** [s] is a tag's version that the pin may move to, with the key [k]. *)
Definition eligible (tags : list string) (prefix : string) (pattern : option Regex) (cur : Version)
    (c : option Constraint) (k : Version) (s : string) : Prop :=
  prefix +:+ s ∈ tags ∧ key s pattern = Some k ∧ version_lt cur k ∧
  match c with Some c => matches c k = true | None => True end.

Lemma elem_of_candidates tags prefix pattern cur c k s :
  (k, s) ∈ candidates tags prefix pattern cur c ↔ eligible tags prefix pattern cur c k s.
Proof.
  unfold candidates, eligible. rewrite list_elem_of_filter. cbn [fst].
  rewrite list_elem_of_omap. split.
  - intros [Hf (s' & (t & Ht & Hs)%list_elem_of_omap & Hk)]. apply strip_prefix_Some in Hs as ->.
    destruct (key s' pattern) as [k'|] eqn:Ek; [|done]. injection Hk as -> ->.
    destruct (compare k cur) eqn:E; [done|done|]. apply compare_gt in E. split_and!; try done. by destruct c.
  - intros (Ht & Hk & Hlt & Hc). apply compare_gt in Hlt. rewrite Hlt. split; [by destruct c|].
    exists s. split; [|by rewrite Hk]. apply list_elem_of_omap. exists (prefix +:+ s). split; [done|].
    by apply strip_prefix_Some.
Qed.

Lemma compare_le_trans u v w : compare u v ≠ Gt → compare v w ≠ Gt → compare u w ≠ Gt.
Proof. rewrite !compare_gt. apply version_le_trans. Qed.

Lemma pick_cases tags prefix pattern current c :
  match pick tags prefix pattern current c with
  | Some s => ∃ cur k, key current pattern = Some cur ∧ eligible tags prefix pattern cur c k s ∧
      ∀ k' s', eligible tags prefix pattern cur c k' s' → ¬ version_lt k k'
  | None => ∀ cur k s, key current pattern = Some cur → ¬ eligible tags prefix pattern cur c k s
  end.
Proof.
  unfold pick. destruct (key current pattern) as [cur|]; cbn [mbind option_bind]; [|done].
  pose proof (max_by_spec (λ a b, compare a.1 b.1) (λ x y, compare_opp x.1 y.1) (λ x y z, compare_le_trans x.1 y.1 z.1)
                (candidates tags prefix pattern cur c)) as Hm.
  destruct (max_by _ _) as [[k s]|]; cbn [fmap option_fmap option_map].
  - destruct Hm as [Hin Hmax]. exists cur, k. split; [done|]. split; [by apply elem_of_candidates|].
    intros k' s' He%elem_of_candidates Hlt. apply (Hmax _ He). by apply compare_gt.
  - intros cur' k s [= <-] He%elem_of_candidates. rewrite Hm in He. by apply elem_of_nil in He.
Qed.

(** C38: [pick] moves a pin only forward, to a tag with the prefix that satisfies the constraint, and to
    one no other such tag is newer than; it stays put exactly when no tag qualifies or the current
    version cannot be read. *)
Theorem pick_newest tags prefix pattern current c :
  match pick tags prefix pattern current c with
  | Some s => ∃ cur k, key current pattern = Some cur ∧ eligible tags prefix pattern cur c k s ∧
      ∀ k' s', eligible tags prefix pattern cur c k' s' → ¬ version_lt k k'
  | None => ∀ cur k s, key current pattern = Some cur → ¬ eligible tags prefix pattern cur c k s
  end.
Proof. apply pick_cases. Qed.

(** A bumped pin is up to date: from the version [pick] chose, with the same tags, it picks
    nothing more. *)
Theorem pick_settles tags prefix pattern current c s :
  pick tags prefix pattern current c = Some s → pick tags prefix pattern s c = None.
Proof.
  intros Hp. pose proof (pick_cases tags prefix pattern current c) as H1. rewrite Hp in H1.
  destruct H1 as (cur & k & _ & (Ht & Hk & Hlt & Hc) & Hmax).
  pose proof (pick_cases tags prefix pattern s c) as H2. destruct (pick tags prefix pattern s c) as [s'|]; [|done].
  destruct H2 as (cur' & k' & Hk' & (Ht' & Hks' & Hlt' & Hc') & _). rewrite Hk in Hk'. injection Hk' as <-.
  destruct (Hmax k' s'); [|done]. split_and!; try done. by eapply version_lt_trans.
Qed.
End picked.

(** ** What a build log says *)

Definition base64 : string := "ABCDEFGHIJKLMNOPQRSTUVWXYZabcdefghijklmnopqrstuvwxyz0123456789+/=".
(** The text [t] begins with a mismatch's [got: sha256-...] for the whole hash [h]; [post] follows. *)
Definition says (t : list ascii) (h : string) (post : list ascii) : Prop :=
  ∃ space digits, t = chars "got:" ++ space ++ chars "sha256-" ++ digits ++ post ∧
    space ≠ [] ∧ Forall (λ a, is_whitespace a = true) space ∧
    digits ≠ [] ∧ Forall (λ a, a ∈ chars base64) digits ∧ (∀ a, head post = Some a → a ∉ chars base64) ∧
    h = "sha256-" +:+ str digits.
(** [h] is the last hash the log says it got. *)
Definition says_last (log h : string) : Prop :=
  ∃ pre t post, chars log = pre ++ t ∧ says t h post ∧ ∀ pre' t' h' post', post = pre' ++ t' → ¬ says t' h' post'.

Lemma base64_spec a : base64_char a = true ↔ a ∈ chars base64.
Proof.
  assert (base64_char a = bool_decide (a ∈ chars base64)) as ->; [|by rewrite bool_decide_eq_true].
  by destruct a as [[] [] [] [] [] [] [] []].
Qed.
Lemma take_while_spec (p : ascii → bool) l :
  ∃ post, l = take_while p l ++ post ∧ Forall (λ a, p a = true) (take_while p l) ∧ ∀ a, head post = Some a → p a = false.
Proof.
  induction l as [|a l (post & E & Hf & Hp)]; [by exists []|]. cbn. destruct (p a) eqn:Ea.
  - exists post. split; [by rewrite E at 1|]. by split; [constructor|].
  - exists (a :: l). split_and!; [done|constructor|by intros ? [= <-]].
Qed.
Lemma take_while_app (p : ascii → bool) l post : Forall (λ a, p a = true) l → take_while p (l ++ post) = l ++ take_while p post.
Proof. induction 1 as [|a l Ha _ IH]; [done|]. cbn. by rewrite Ha, IH. Qed.
Lemma drop_while_spec (p : ascii → bool) l :
  ∃ pre, l = pre ++ drop_while p l ∧ Forall (λ a, p a = true) pre.
Proof.
  induction l as [|a l (pre & E & Hf)]; [by exists []|]. cbn. destruct (p a) eqn:Ea; [|by exists []].
  exists (a :: pre). split; [cbn; by rewrite <- E|by constructor].
Qed.
Lemma drop_while_app (p : ascii → bool) l post : Forall (λ a, p a = true) l → drop_while p (l ++ post) = drop_while p post.
Proof. induction 1 as [|a l Ha _ IH]; [done|]. cbn. by rewrite Ha. Qed.
Lemma strip_list_Some (p l l' : list ascii) : strip_list p l = Some l' ↔ l = p ++ l'.
Proof.
  unfold strip_list. case_decide as Hp; split; intros E; simplify_eq.
  - destruct Hp as [k ->]. by rewrite drop_app_length.
  - by rewrite drop_app_length.
  - destruct Hp. by exists l'.
Qed.
Lemma got_here_says t h post : got_here t = Some (h, post) → says t h post.
Proof.
  unfold got_here. intros (l1 & H1%strip_list_Some & H2)%bind_Some. cbn zeta in H2.
  apply bind_Some in H2 as (l3 & H3%strip_list_Some & H4). case_match eqn:E; [done|]. apply orb_false_iff in E as [E1 E2].
  bool_prop. destruct (drop_while_spec is_whitespace l1) as (space & Es & Hs).
  destruct (take_while_spec base64_char l3) as (rest & Ed & Hd & Hr). rewrite H3 in Es, E1.
  remember (take_while base64_char l3) as digits eqn:Edig. clear Edig H3. subst l3. rewrite drop_app_length in H4.
  injection H4 as <- <-. exists space, digits. split_and!.
  - by rewrite H1, Es.
  - intros ->. by rewrite Es in E1.
  - done.
  - done.
  - eapply Forall_impl; [exact Hd|]. intros a. by rewrite base64_spec.
  - intros a Ha%Hr Hin%base64_spec. congruence.
  - done.
Qed.
Lemma says_got_here t h post : says t h post → got_here t = Some (h, post).
Proof.
  intros (space & digits & -> & Hne & Hs & Hdne & Hd & Hp & ->). unfold got_here.
  assert (strip_list (chars "got:") (chars "got:" ++ space ++ chars "sha256-" ++ digits ++ post)
    = Some (space ++ chars "sha256-" ++ digits ++ post)) as -> by by apply strip_list_Some.
  cbn [mbind option_bind]. rewrite drop_while_app by done.
  change (drop_while is_whitespace (chars "sha256-" ++ digits ++ post)) with (chars "sha256-" ++ digits ++ post).
  assert (strip_list (chars "sha256-") (chars "sha256-" ++ digits ++ post) = Some (digits ++ post)) as -> by by apply strip_list_Some.
  cbn [mbind option_bind]. rewrite take_while_app by (eapply Forall_impl; [exact Hd|]; intros a; by rewrite base64_spec).
  assert (take_while base64_char post = []) as ->.
  { destruct post as [|a post]; [done|]. cbn. destruct (base64_char a) eqn:Ea; [|done].
    apply base64_spec in Ea. by destruct (Hp a). }
  rewrite app_nil_r, drop_app_length, (bool_decide_eq_false_2 (digits = [])) by done.
  rewrite bool_decide_eq_false_2; [done|]. rewrite (length_app space). destruct space; [done|]. cbn. lia.
Qed.
Lemma got_none n l : length l ≤ n → got_all n l = [] → ∀ pre t h post, l = pre ++ t → ¬ says t h post.
Proof.
  revert l. induction n as [|n IH]; intros l Hn Hg pre t h post -> Hs.
  - destruct (pre ++ t) eqn:E; [|cbn in Hn; lia]. apply app_eq_nil in E as [_ ->]. destruct Hs as (? & ? & ? & _). done.
  - destruct (pre ++ t) as [|a l'] eqn:E; [apply app_eq_nil in E as [_ ->]; by destruct Hs as (? & ? & ? & _)|].
    cbn [got_all] in Hg. destruct (got_here (a :: l')) as [[h' rest]|] eqn:Eg; [done|].
    destruct pre as [|b pre]; [cbn in E; subst t; apply says_got_here in Hs; congruence|].
    injection E as -> <-. eapply (IH (pre ++ t)); [cbn in Hn; lia|done|done|exact Hs].
Qed.
Lemma got_last n l h : length l ≤ n → last (got_all n l) = Some h →
  ∃ pre t post, l = pre ++ t ∧ says t h post ∧ ∀ pre' t' h' post', post = pre' ++ t' → ¬ says t' h' post'.
Proof.
  revert l. induction n as [|n IH]; intros [|a l] Hn Hl; try done. cbn [got_all] in Hl. cbn in Hn.
  destruct (got_here (a :: l)) as [[h0 rest]|] eqn:Eg.
  - pose proof (got_here_says _ _ _ Eg) as Hs.
    assert (∃ k, a :: l = k ++ rest ∧ 1 ≤ length k) as (k & Ek & Hk).
    { destruct Hs as (space & digits & -> & _). exists (chars "got:" ++ space ++ chars "sha256-" ++ digits).
      split; [by rewrite <- !app_assoc|cbn; lia]. }
    assert (length rest ≤ n) as Hr by (apply (f_equal length) in Ek; rewrite length_app in Ek; cbn in Ek; lia).
    destruct (got_all n rest) as [|h1 hs] eqn:Er.
    + injection Hl as <-. exists [], (a :: l), rest. split_and!; [done|done|]. by eapply got_none.
    + destruct (IH rest Hr) as (pre & t & post & E & Hp); [rewrite Er; exact Hl|].
      exists (k ++ pre), t, post. split; [by rewrite Ek, E, app_assoc|exact Hp].
  - destruct (IH l) as (pre & t & post & -> & Hp); [lia|done|]. by exists (a :: pre), t, post.
Qed.
(** [parse_got] finds the last hash the log says it got. *)
Lemma parse_got_says log h : parse_got log = Some h → says_last log h.
Proof. unfold parse_got. apply got_last. by rewrite length_chars. Qed.

(** ** What [rehash] leaves *)

Section rehashed.
Context `{Outside, PinText, RegexLib, YamlLib}.

Definition stopped : World → Prop := λ _, True.

Lemma wp_context {A} ctx (m : M A) (E : World → Prop) Q w : wp m E Q w → wp (with_context ctx m) E Q w.
Proof. unfold wp, with_context. by destruct (m w) as [w' []]. Qed.
Lemma wp_write p c Q w : (∀ n, Q () (mkWorld (<[p := c]> (w_files w)) n)) → wp (write p c) stopped Q w.
Proof. intros HQ. unfold wp, write. by destruct (stored (w_step w) p). Qed.
Lemma wp_save e (Q : () → World → Prop) w :
  (∀ w', w_files w' !! path e = Some (pin_to_json (pin e)) → Q () w') → wp (save e) stopped Q w.
Proof. intros HQ. apply wp_context, wp_write. intros n. apply HQ. cbn. by rewrite lookup_insert_eq. Qed.
Lemma wp_output dir args Q w :
  (∀ o w', (command (w_step w) (w_files w) dir args).2 = Some o → Q o w') → wp (output dir args) stopped Q w.
Proof.
  intros HQ. unfold output. apply wp_bind. unfold tick, wp at 1.
  destruct (command (w_step w) (w_files w) dir args) as [fs [o|]]; [|done]. by apply wp_ret, HQ.
Qed.

(** A command that succeeded printed [out]. *)
Definition printed (dir : string) (args : list string) (out : string) : Prop :=
  ∃ n fs o, (command n fs dir args).2 = Some o ∧ o_success o = true ∧ out = trim (o_stdout o).
(** nix's hash of what is at the URL, as an SRI hash. *)
Definition prefetched (unpack : bool) (url h : string) : Prop :=
  ∃ out, printed "." (["nix-prefetch-url"] ++ (if unpack then ["--unpack"] else []) ++ ["--type"; "sha256"; url]) out ∧
    printed "." ["nix"; "--extra-experimental-features"; "nix-command"; "hash"; "convert"; "--hash-algo"; "sha256"; "--to"; "sri"; last_line out] h.
(** A build of the entry, made while its file held a pin as [wrong] says, failed, and [h] is the last
    hash its log says it got. *)
Definition mismatched (ctx : Ctx) (e : Entry) (wrong : Pin → Prop) (h : string) : Prop :=
  ∃ n fs p o, fs !! path e = Some (pin_to_json p) ∧ wrong p ∧
    (command n fs (root ctx) ["nix"; "--extra-experimental-features"; "nix-command flakes"; "build"; "--no-link"; "--no-pure-eval";
       ".#legacyPackages." +:+ system ctx +:+ ".pinned." +:+ attr_name e]).2 = Some o ∧
    o_success o = false ∧ says_last (o_stderr o) h.

Lemma wp_nix_run dir args Q w : (∀ h w', printed dir args h → Q h w') → wp (nix_run dir args) stopped Q w.
Proof.
  intros HQ. apply wp_bind, wp_context, wp_output. intros o w' E.
  destruct (o_success o) eqn:Es; [|done]. apply wp_ret, HQ. by exists (w_step w), (w_files w), o.
Qed.
Lemma wp_prefetch_unpack url Q w : (∀ h w', prefetched true url h → Q h w') → wp (prefetch_unpack url) stopped Q w.
Proof. intros HQ. apply wp_bind, wp_nix_run. intros out w' Ho. apply wp_nix_run. intros h w2 Hh. apply HQ. by exists out. Qed.
Lemma wp_prefetch_file url Q w : (∀ h w', prefetched false url h → Q h w') → wp (prefetch_file url) stopped Q w.
Proof. intros HQ. apply wp_bind, wp_nix_run. intros out w' Ho. apply wp_nix_run. intros h w2 Hh. apply HQ. by exists out. Qed.
Lemma wp_fake_build ctx e (wrong : Pin → Prop) Q w :
  w_files w !! path e = Some (pin_to_json (pin e)) → wrong (pin e) → (∀ h w', mismatched ctx e wrong h → Q h w') →
  wp (fake_hash_build (root ctx) (attr ctx e)) stopped Q w.
Proof.
  intros Hp Hw HQ. apply wp_bind, wp_context, wp_output. intros o w' E.
  destruct (o_success o) eqn:Es; [done|]. apply wp_lift; [done|]. intros h Eh. apply HQ.
  exists (w_step w), (w_files w), (pin e), o. split_and!; try done.
  destruct (parse_got (o_stderr o)) eqn:Eg; simplify_eq. by apply parse_got_says.
Qed.

Definition saved (w : World) (e : Entry) : Prop := w_files w !! path e = Some (pin_to_json (pin e)).

(** The entry's new derived hash [k]: reported by a build in which it was the fake one. *)
Definition derived_hash (ctx : Ctx) (e : Entry) (v k h : string) : Prop :=
  mismatched ctx e (λ p, version p = v ∧ hashes p !! k = Some FAKE_HASH) h.
Lemma derived_hash_same ctx e e' v k h : same_but_hashes e e' → derived_hash ctx e' v k h → derived_hash ctx e v k h.
Proof.
  unfold derived_hash, mismatched. intros Hs (n & fs & p & o & Hp & Hw & Hc & Ho). exists n, fs, p, o.
  destruct Hs as (Ep & _ & En & Ek & _). unfold attr_name in *. rewrite Ep in Hp. rewrite En, Ek in Hc.
  exact (conj Hp (conj Hw (conj Hc Ho))).
Qed.

Lemma rehash_derived_spec ctx e k w :
  wp (rehash_derived ctx e k) stopped (λ e' w', saved w' e' ∧ same_but_hashes e e' ∧
    version (pin e') = version (pin e) ∧ hash (pin e') = hash (pin e) ∧
    ∃ h, derived_hash ctx e (version (pin e)) k h ∧ hashes (pin e') = <[k := h]> (hashes (pin e))) w.
Proof.
  set (e1 := with_pin (set_derived k FAKE_HASH (pin e)) e).
  apply wp_bind, (wp_save e1). intros w1 G1. apply wp_bind, wp_context.
  apply (wp_fake_build ctx e1 (λ p, version p = version (pin e) ∧ hashes p !! k = Some FAKE_HASH)); [done| |].
  { split; [done|]. cbn. by rewrite lookup_insert_eq. }
  intros h w2 Hh. apply wp_bind, wp_save. intros w3 G3. apply wp_ret. split; [exact G3|]. split; [done|]. split; [done|]. split; [done|].
  exists h. split; [by apply (derived_hash_same ctx e e1)|]. cbn. by rewrite insert_insert_eq.
Qed.

Lemma elem_of_keys (m : gmap string string) k : k ∈ keys m ↔ is_Some (m !! k).
Proof.
  unfold keys. rewrite stable_sort_elem, list_elem_of_fmap. split.
  - intros ([k' h] & -> & Hk%elem_of_map_to_list). by exists h.
  - intros [h Hk]. exists (k, h). split; [done|]. by apply elem_of_map_to_list.
Qed.

(** The derived hashes done so far. *)
Definition derived (ctx : Ctx) (e : Entry) (seen : list string) (e' : Entry) (w : World) : Prop :=
  saved w e' ∧ same_but_hashes e e' ∧ version (pin e') = version (pin e) ∧ hash (pin e') = hash (pin e) ∧
  ∀ k, if decide (k ∈ seen) then ∃ h, hashes (pin e') !! k = Some h ∧ derived_hash ctx e (version (pin e)) k h
       else hashes (pin e') !! k = hashes (pin e) !! k.

Lemma derived_step ctx e seen e1 k w :
  derived ctx e seen e1 w → wp (rehash_derived ctx e1 k) stopped (derived ctx e (seen ++ [k])) w.
Proof.
  intros (_ & Hs & Hv & Hh & Hk). eapply wp_mono; [apply rehash_derived_spec|done|].
  intros e2 w2 (G1 & G2 & G3 & G4 & h & Hf & Hi). split; [done|]. split; [unfold same_but_hashes in *; naive_solver congruence|].
  split; [congruence|]. split; [congruence|]. intros k'. rewrite Hi. specialize (Hk k').
  destruct (decide (k' = k)) as [->|Hne].
  - rewrite decide_True by set_solver. exists h. rewrite lookup_insert_eq, <- Hv. split; [done|]. by apply (derived_hash_same ctx e e1).
  - rewrite lookup_insert_ne by done. destruct (decide (k' ∈ seen)).
    + by rewrite decide_True by set_solver.
    + by rewrite decide_False by set_solver.
Qed.

(** The pin moved: the update's version, and either its digest (nothing else touched) or the hash nix
    gives for the archive at the pin's URL (without a URL, the one reported by a build with the fake
    hash in its place) and, under the same names as before, the derived hashes that builds with the
    fake hash in their place reported. *)
Definition moved (ctx : Ctx) (e : Entry) (u : Update) (e' : Entry) : Prop :=
  same_but_hashes e e' ∧ version (pin e') = to_version u ∧
  match to_digest u with
  | Some d => digest (pin e') = Some d ∧ hash (pin e') = hash (pin e) ∧ hashes (pin e') = hashes (pin e)
  | None =>
      (∃ h, hash (pin e') = Some h ∧
         match fetch_url (pin e') with
         | Some url => prefetched (negb (match source (pin e) with UrlTemplate _ _ _ _ => true | _ => false end)) url h
         | None => mismatched ctx e (λ p, version p = to_version u ∧ hash p = Some FAKE_HASH) h
         end) ∧
      dom (hashes (pin e')) = dom (hashes (pin e)) ∧
      ∀ k h, hashes (pin e') !! k = Some h → derived_hash ctx e (to_version u) k h
  end.

End rehashed.

(** ** The source's tests and witnesses *)

Definition no_regex : RegexLib := {| Regex := unit; regex_new _ := None; captures _ _ := None |}.
Definition pick_plain (tags : list string) (prefix current : string) (c : option Constraint) : option string :=
  pick (H := no_regex) tags prefix None current c.
Definition release_list : list string := ["v1.96.4"; "v1.98.0"; "v1.97.2"; "v2.0.0-rc1"; "nightly"].
Definition below_198 : option Constraint := match parse_constraint "<1.98" with Ok c => Some c | Err _ => None end.

Example picks_newest_matching :
  pick_plain release_list "v" "1.96.4" None = Some "1.98.0" ∧
  pick_plain release_list "v" "1.96.4" below_198 = Some "1.97.2" ∧
  pick_plain release_list "v" "1.98.0" None = None ∧ pick_plain release_list "v" "master" None = None ∧
  pick_plain ["release-1.2"; "1.3"; "release-1.4"] "release-" "1.2" None = Some "1.4".
Proof. vm_compute. done. Qed.

Lemma pick_settles_witness : pick_plain release_list "v" "1.98.0" None = None.
Proof.
  apply (pick_settles (H := no_regex) release_list "v" None "1.96.4" None "1.98.0"). vm_compute. reflexivity.
Defined.

(** A nix that prefetches one archive and builds with one other hash. *)
Definition test_nix : Outside := {|
  command _ fs _ args :=
    (fs, Some (if bool_decide ("build" ∈ args) then mkOutput false "" "got: sha256-vendor=" else mkOutput true "sha256-archive=" ""));
  http _ _ _ := HttpTransport "offline";
  stored _ _ := Whole;
  parse_json _ := None;
|}.
Definition tailscale : Entry :=
  mkEntry "tailscale" "tailscale" Src "/r/pkgs/tailscale/pin.json"
    (mkPin "1.96.4" (Some "sha256-old") None {["vendorHash" := "sha256-old-vendor"]}
           (GithubRelease "tailscale" "tailscale" (Some "v")) None None None).
Definition tailscale_bumped : Pin :=
  mkPin "1.98.0" (Some "sha256-archive=") None {["vendorHash" := "sha256-vendor="]}
        (GithubRelease "tailscale" "tailscale" (Some "v")) None None None.
Definition test_ctx : Ctx := mkCtx "/r" "x86_64-linux" (mkGitHub None).

Example urls_match_nix_fetchers :
  fetch_url (pin tailscale) = Some "https://github.com/tailscale/tailscale/archive/refs/tags/v1.96.4.tar.gz".
Proof. vm_compute. done. Qed.

