(* ===== verification/Defaults.v ===== *)
(** * The image tag a chart defaults to ([tools/update/src/defaults.rs])

    An image pin that follows a chart moves to the literal tag next to its repository in some
    values.yaml, or to its current tag with the chart's old appVersion swapped for the new one. A
    chart's YAML is a [Yaml] value; reading the files ([charts]) and YAML's syntax are parameters of
    [Bump]. *)

From Stdlib Require Import Ascii.
From stdpp Require Import options.
From S2P Require Import Prelude Text Damage.

(** [serde_yaml::Value]; a number is the text it prints as. *)
Inductive Yaml : Type :=
  | Null
  | Bool (b : bool)
  | Number (text : string)
  | Str (s : string)
  | Sequence (l : list Yaml)
  | Mapping (m : list (Yaml * Yaml))
  | Tagged (tag : string) (v : Yaml).

Record Chart : Type := mkChart { name : option string; app_version : option string; values : Yaml }.

Definition scalar (v : Yaml) : option string :=
  s ← match v with Str s => Some s | Number t => Some t | _ => None end;
  if negb (bool_decide (s = "")) && negb (bool_decide (s = "null")) then Some s else None.

Notation Map := (list (Yaml * Yaml)).
Fixpoint yaml_get (k : string) (m : Map) : option Yaml :=
  match m with
  | [] => None
  | (Str k', v) :: m' => if decide (k = k') then Some v else yaml_get k m'
  | _ :: m' => yaml_get k m'
  end.
Definition get (k : string) (m : Map) : option string := yaml_get k m ≫= scalar.

Fixpoint find_map {A B} (f : A → option B) (l : list A) : option B :=
  match l with [] => None | a :: l' => match f a with Some b => Some b | None => find_map f l' end end.

Definition normalize (repo : string) : string :=
  let r := trim_start_str "oci://" repo in
  let r := default r (find_map (λ p, strip_prefix p r) ["docker.io/"; "registry-1.docker.io/"; "index.docker.io/"]) in
  default r (strip_prefix "library/" r).

(** ["repo[:tag]"] *)
Definition split_ref (s : string) : string * option string :=
  match rsplit_once ":" s with
  | Some (r, t) => if negb (contains_char "/" t) then (r, Some t) else (s, None)
  | None => (s, None)
  end.

(** [fooImage: "repo:tag"] entries *)
Definition image_ref (kv : Yaml * Yaml) : option (string * option string) :=
  match kv.1 with
  | Str k =>
      v ← scalar kv.2;
      if ends_with "Image" k && bool_decide (is_Some (split_ref v).2) then Some (split_ref v) else None
  | _ => None
  end.
Definition refs (m : Map) : list (string * option string) :=
  let out := omap image_ref m in
  let with_registry repo :=
    let repo := match get "registry" m with Some reg => reg +:+ "/" +:+ repo | None => repo end in
    out ++ [(repo, get "tag" m)] in
  match get "repository" m, get "image" m, get "version" m with
  | Some r, Some i, Some v => out ++ [(r +:+ "/" +:+ i, Some v)]
  | Some r, _, _ => with_registry r
  | None, Some i, _ =>
      match split_ref i with
      | (r, Some t) => out ++ [(r, Some t)]
      | (r, None) => with_registry r
      end
  | None, None, _ => out
  end.

(** The mappings [walk] visits, in its order. *)
Fixpoint walk (v : Yaml) : list Map :=
  match v with
  | Mapping m => m :: mjoin (map (λ kv, walk kv.2) m)
  | Sequence l => mjoin (map walk l)
  | Tagged _ v => walk v
  | _ => []
  end.

(** One reference's literal tag, [{{ .Chart.AppVersion }}] expanded. *)
Definition literal_tag (want : string) (app : option string) (r : string * option string) : option string :=
  t ← r.2;
  if bool_decide (normalize r.1 = want) then
    let t := match app with
      | Some app => replace "{{.Chart.AppVersion}}" app (replace "{{ .Chart.AppVersion }}" app t)
      | None => t
      end in
    if contains "{{" t then None else Some t
  else None.
Definition chart_refs (c : Chart) : list (string * option string) := walk (values c) ≫= refs.
Definition literal_tags (charts : list Chart) (repository : string) : gset string :=
  list_to_set (charts ≫= λ c, omap (literal_tag (normalize repository) (app_version c)) (chart_refs c)).

(** The chart that names [repository] with no tag, else the top one. *)
Definition names_untagged (want : string) (c : Chart) : bool :=
  existsb (λ r, bool_decide (r.2 = None) && bool_decide (normalize r.1 = want)) (chart_refs c).
Definition owner (charts : list Chart) (repository : string) : option Chart :=
  match List.find (names_untagged (normalize repository)) charts with
  | Some c => Some c
  | None => head charts
  end.

Inductive TagError : Type :=
  | Disagree (repository : string) (tags : gset string)
  | NoAppVersion (repository : string)
  | NotInTag (repository current app : string).

Definition trim_v (s : string) : string := trim_start_matches (λ c, bool_decide (c = "v"%char)) s.
Definition swap_version (o n current : string) : option string :=
  if negb (bool_decide (o = "")) && contains o current then Some (replacen o n 1 current) else None.

Definition tag (old new : list Chart) (repository current : string) : Result string TagError :=
  let lit := literal_tags new repository in
  if (1 <? size lit)%nat then Err (Disagree repository lit)
  else match elements lit with
  | t :: _ => Ok t
  | [] =>
      let n := owner new repository in
      let o := n ≫= λ n, match List.find (λ c, bool_decide (name c = name n)) old with Some c => Some c | None => head old end in
      match o ≫= app_version, n ≫= app_version with
      | Some o, Some n =>
          match swap_version o n current with
          | Some t => Ok t
          | None =>
              match swap_version (trim_v o) (trim_v n) current with
              | Some t => Ok t
              | None => Err (NotInTag repository current o)
              end
          end
      | _, _ => Err (NoAppVersion repository)
      end
  end.

(** ** What [tag] answers *)

(** [t] is [current] with one occurrence of [o] turned into [n]. *)
Definition swapped (o n current t : string) : Prop :=
  o ≠ "" ∧ ∃ before after, current = before +:+ o +:+ after ∧ t = before +:+ n +:+ after.

Lemma swap_version_Some o n current t : swap_version o n current = Some t → swapped o n current t.
Proof.
  unfold swap_version. intros Hs. case_match eqn:E; [|done]. injection Hs as <-. bool_prop. split; [done|].
  match goal with H : contains _ _ = true |- _ => apply contains_find in H as (b & a & Hf) end.
  apply (replacen_once o n) in Hf as [E1 E2]. by exists (str b), (str a).
Qed.
Lemma swap_version_None o n current : swap_version o n current = None → o = "" ∨ ∀ t, ¬ swapped o n current t.
Proof.
  unfold swap_version. intros Hs. case_match eqn:E; [done|]. apply andb_false_iff in E as [E|E]; bool_prop.
  { by left. }
  right. intros t (_ & b & a & -> & _). unfold contains in E. bool_prop. apply E.
  destruct (find_list _ _) eqn:Ef; [by eexists|]. rewrite find_list_None in Ef.
  destruct (Ef (chars b) (chars a)). by rewrite !chars_app.
Qed.
Lemma swap_version_same o current t : swap_version o o current = Some t → t = current.
Proof. unfold swap_version. case_match; [|done]. intros [= <-]. apply replacen_same. Qed.

Lemma literal_one charts repository t l :
  elements (literal_tags charts repository) = t :: l → ¬ (1 < size (literal_tags charts repository)) →
  literal_tags charts repository = {[t]}.
Proof.
  intros E Hs. rewrite <- (list_to_set_elements_L (literal_tags charts repository)).
  change (size (literal_tags charts repository)) with (length (elements (literal_tags charts repository))) in Hs.
  rewrite E in Hs |- *. destruct l; [|cbn in Hs; lia]. cbn. set_solver.
Qed.

(** The charts whose appVersions are swapped: the one that owns the image, and its namesake before. *)
Definition owner_before (old : list Chart) (n : Chart) : option Chart :=
  match List.find (λ c, bool_decide (name c = name n)) old with Some c => Some c | None => head old end.
Definition app_versions (old new : list Chart) (repository : string) : option (string * string) :=
  n ← owner new repository; o ← owner_before old n;
  ov ← app_version o; nv ← app_version n; Some (ov, nv).

Lemma tag_cases old new repository current :
  let lit := literal_tags new repository in
  match tag old new repository current with
  | Ok t => lit = {[t]} ∨ lit = ∅ ∧ ∃ o n, app_versions old new repository = Some (o, n) ∧
      (swap_version o n current = Some t ∨
       swap_version o n current = None ∧ swap_version (trim_v o) (trim_v n) current = Some t)
  | Err (Disagree _ _) => 1 < size lit
  | Err (NoAppVersion _) => lit = ∅ ∧ app_versions old new repository = None
  | Err (NotInTag _ _ _) => lit = ∅ ∧ ∃ o n, app_versions old new repository = Some (o, n) ∧
      swap_version o n current = None ∧ swap_version (trim_v o) (trim_v n) current = None
  end.
Proof.
  cbn zeta. unfold tag, app_versions, owner_before.
  destruct (Nat.ltb_spec 1 (size (literal_tags new repository))) as [Hl|Hl]; [done|].
  destruct (elements (literal_tags new repository)) as [|t l] eqn:E; [|left; by eapply literal_one; [|lia]].
  assert (literal_tags new repository = ∅) as E0 by by apply elements_empty_inv, leibniz_equiv in E.
  destruct (owner new repository) as [n|]; cbn [mbind option_bind]; [|done].
  destruct (match List.find _ old with Some c => Some c | None => head old end) as [o|]; cbn [mbind option_bind]; [|done].
  destruct (app_version o) as [ov|], (app_version n) as [nv|]; cbn [mbind option_bind]; try done.
  destruct (swap_version ov nv current) eqn:E1; [right; eauto 10|].
  destruct (swap_version (trim_v ov) (trim_v nv) current) eqn:E2; [right; eauto 10|]. eauto 10.
Qed.

(** The tag a chart defaults to is the one literal tag its values give the image, and without one
    it is the current tag with the chart's old appVersion (or that without its leading v's) replaced
    once by the new one; [tag] refuses exactly when the literals disagree, there is no appVersion to
    go by, or the current tag does not contain the old one. *)
Theorem tag_spec old new repository current :
  let lit := literal_tags new repository in
  match tag old new repository current with
  | Ok t => lit = {[t]} ∨ lit = ∅ ∧ ∃ o n, app_versions old new repository = Some (o, n) ∧
      (swapped o n current t ∨ swapped (trim_v o) (trim_v n) current t)
  | Err (Disagree _ _) => 1 < size lit
  | Err (NoAppVersion _) => lit = ∅ ∧ app_versions old new repository = None
  | Err (NotInTag _ _ _) => lit = ∅ ∧ ∃ o n, app_versions old new repository = Some (o, n) ∧
      (trim_v o = "" ∨ ∀ t, ¬ swapped o n current t ∧ ¬ swapped (trim_v o) (trim_v n) current t)
  end.
Proof.
  cbn zeta. pose proof (tag_cases old new repository current) as Ht. cbn zeta in Ht.
  destruct (tag old new repository current) as [t|[]]; try done.
  - destruct Ht as [?|(? & o & n & Ea & [Hs|[_ Hs]])]; [by left|right..]; split; try done; exists o, n;
      apply swap_version_Some in Hs; auto.
  - destruct Ht as (? & o & n & Ea & H1 & H2). split; [done|]. exists o, n. split; [done|].
    apply swap_version_None in H1, H2. destruct H1 as [->|H1]; [by left|]. destruct H2 as [->|H2]; [by left|]. by right.
Qed.

Lemma owner_before_self cs n : NoDup (name <$> cs) → n ∈ cs → owner_before cs n = Some n.
Proof.
  intros Hnd Hn. unfold owner_before. destruct (List.find _ cs) as [c|] eqn:E.
  - apply find_some_elem in E as [Hc E]. bool_prop. f_equal.
    apply list_elem_of_lookup in Hc as [i Hi]. apply list_elem_of_lookup in Hn as [j Hj].
    assert (i = j) as ->.
    { apply (NoDup_lookup (name <$> cs) i j (name n)); [done| |]; rewrite list_lookup_fmap; [rewrite Hi|rewrite Hj]; cbn; by rewrite ?E. }
    congruence.
  - exfalso. apply (find_none_elem _ _ n) in E; [|done]. cbn beta in E. bool_prop. by apply E.
Qed.
Lemma owner_in cs repository n : owner cs repository = Some n → n ∈ cs.
Proof.
  unfold owner. destruct (List.find _ cs) eqn:E; [intros [= <-]; by apply find_some_elem in E as []|].
  destruct cs; [done|]. intros [= ->]. left.
Qed.

(** An upgrade that leaves the charts as they were leaves an image without a literal tag at its
    tag, whichever chart owns it. *)
Theorem tag_unchanged cs repository current t :
  NoDup (name <$> cs) → literal_tags cs repository = ∅ → tag cs cs repository current = Ok t → t = current.
Proof.
  intros Hnd Hlit Ht. pose proof (tag_cases cs cs repository current) as H. cbn zeta in H. rewrite Ht, Hlit in H.
  destruct H as [H|(_ & o & n & Ha & Hs)]; [set_solver|]. unfold app_versions in Ha.
  destruct (owner cs repository) as [c|] eqn:Eo; [|done]. cbn in Ha. rewrite owner_before_self in Ha by eauto using owner_in.
  cbn in Ha. destruct (app_version c) as [v|]; [|done]. injection Ha as -> ->.
  destruct Hs as [Hs|[_ Hs]]; by apply swap_version_same in Hs.
Qed.

(** ** The source's tests *)

Definition chart_of (app : string) (v : Yaml) : Chart := mkChart (Some "top") (Some app) v.
Definition image (repo tag : string) : Yaml := Mapping [(Str "repository", Str repo); (Str "tag", Str tag)].

Example normalizes_docker_hub :
  normalize "docker.io/library/busybox" = "busybox" ∧ normalize "goharbor/harbor-core" = "goharbor/harbor-core" ∧
  normalize "docker.io/goharbor/harbor-core" = "goharbor/harbor-core" ∧ normalize "quay.io/a/b" = "quay.io/a/b".
Proof. vm_compute. done. Qed.

Definition argo : Yaml := Mapping
  [(Str "redis", Mapping [(Str "image", image "ecr-public.aws.com/docker/library/redis" "8.4.0-alpine")]);
   (Str "global", Mapping [(Str "image", image "quay.io/argoproj/argocd" "")])].
Example literal_tag_wins :
  tag [chart_of "v3.4.3" Null] [chart_of "v3.5.0" argo] "ecr-public.aws.com/docker/library/redis" "8.2.3-alpine" = Ok "8.4.0-alpine" ∧
  tag [chart_of "v3.4.3" Null] [chart_of "v3.5.0" argo] "quay.io/argoproj/argocd" "v3.4.3" = Ok "v3.5.0".
Proof. vm_compute. done. Qed.

Definition shapes : Yaml := Mapping
  [(Str "a", Mapping [(Str "registry", Str "docker.io"); (Str "repository", Str "library/busybox"); (Str "tag", Str "1.37.0")]);
   (Str "b", Mapping [(Str "image", Str "ghcr.io/x/op:v0.7.0")]);
   (Str "c", image "ghcr.io/k8snetworkplumbingwg/multus-cni" "{{ .Chart.AppVersion }}-thick");
   (Str "d", Mapping [(Str "repository", Str "nvcr.io/nvidia"); (Str "image", Str "k8s-device-plugin"); (Str "version", Str "v0.18.0")]);
   (Str "operator", Mapping [(Str "toolhiveRunnerImage", Str "ghcr.io/stacklok/toolhive/proxyrunner:v0.7.0")])].
Example registry_and_image_shapes :
  tag [] [chart_of "4.3.2" shapes] "busybox" "1.31.1" = Ok "1.37.0" ∧
  tag [] [chart_of "4.3.2" shapes] "ghcr.io/x/op" "v0.6.9" = Ok "v0.7.0" ∧
  tag [] [chart_of "4.3.2" shapes] "ghcr.io/k8snetworkplumbingwg/multus-cni" "4.3.1-thick" = Ok "4.3.2-thick" ∧
  tag [] [chart_of "4.3.2" shapes] "nvcr.io/nvidia/k8s-device-plugin" "v0.17.0" = Ok "v0.18.0" ∧
  tag [] [chart_of "4.3.2" shapes] "ghcr.io/stacklok/toolhive/proxyrunner" "v0.6.9" = Ok "v0.7.0".
Proof. vm_compute. done. Qed.

Example substitutes_app_version :
  tag [chart_of "14.0.3" Null] [chart_of "15.0.0" Null] "code.forgejo.org/forgejo/forgejo" "14.0.3-rootless" = Ok "15.0.0-rootless" ∧
  tag [chart_of "v1.20.2" Null] [chart_of "v1.21.0" Null] "quay.io/jetstack/cert-manager-controller" "v1.20.2" = Ok "v1.21.0" ∧
  tag [chart_of "2.18.0" Null] [chart_of "2.19.0" Null] "r" "v2.18.0" = Ok "v2.19.0" ∧
  is_ok (tag [chart_of "2.18.0" Null] [chart_of "2.19.0" Null] "r" "1.0.0") = false ∧
  is_ok (tag [] [chart_of "x" (Sequence [image "r" "1"; image "r" "2"])] "r" "1") = false.
Proof. vm_compute. done. Qed.

Definition sub_chart (app : string) : Chart := mkChart (Some "bitwarden-sdk-server") (Some app) (Mapping [(Str "repository", Str "ghcr.io/x/bw")]).
Example subchart_app_version :
  tag [chart_of "v2.5.0" Null; sub_chart "v0.6.0"] [chart_of "v2.6.0" Null; sub_chart "v0.7.0"] "ghcr.io/x/bw" "v0.6.0" = Ok "v0.7.0".
Proof. vm_compute. done. Qed.

Lemma tag_unchanged_witness : "v2.18.0" = "v2.18.0" ∧ literal_tags [chart_of "2.18.0" Null] "r" = ∅.
Proof.
  split; [|by vm_compute].
  apply (tag_unchanged [chart_of "2.18.0" Null] "r" "v2.18.0" "v2.18.0").
  - refine (bool_decide_unpack _ _). vm_compute. exact I.
  - vm_compute. reflexivity.
  - vm_compute. reflexivity.
Defined.
