(* ===== verification/Gate.v ===== *)
(** * Validation gates ([tools/update/src/gate.rs])

    A bumped file is kept only if the commands that consume it still work. The commands themselves
    are the machine's ([Host]). *)

From Stdlib Require Import Ascii.
From stdpp Require Import options.
From S2P Require Import Prelude Text Json State Host Damage Remote.

Inductive Gate : Type := Nixidy | Hosts | Cargo | Uv | Bun | Devenv.
#[export] Instance Gate_eq_dec : EqDecision Gate.
Proof. solve_decision. Defined.
Definition gate_number (g : Gate) : nat :=
  match g with Nixidy => 0 | Hosts => 1 | Cargo => 2 | Uv => 3 | Bun => 4 | Devenv => 5 end.
Definition all_gates : list Gate := [Nixidy; Hosts; Cargo; Uv; Bun; Devenv].
#[export] Instance Gate_countable : Countable Gate.
Proof.
  refine (inj_countable gate_number (λ n, all_gates !! n) _). by intros [].
Defined.

Definition gate_display (g : Gate) : string :=
  match g with
  | Nixidy => "nixidy render" | Hosts => "host eval" | Cargo => "cargo check"
  | Uv => "uv sync/ruff" | Bun => "bun build" | Devenv => "devenv shell"
  end.

Definition CRATES : list string := ["org-bridge"; "tools/update"].
Definition DEVENVS : list string := ["."; "embedded"; "org-bridge"; "apps/sveltekit-demo"].

Definition at_root (root dir : string) : string := root +:+ "/" +:+ dir.
(** The last [n] lines of a log. *)
Definition tail_lines (n : nat) (log : string) : string :=
  join (str [newline]) (reverse (take n (reverse (lines log)))).

(** Host name to its evaluation. *)
Notation HostEvals := (gmap string (Result string string)).

(** A [BTreeMap]'s entries, in the order of their keys. *)
Definition by_key {A} (m : gmap string A) : list (string * A) :=
  stable_sort (λ a b, String.leb a.1 b.1) (map_to_list m).

(** Hosts that evaluated before but not after. *)
Definition regressed (before : HostEvals) (nr : string * Result string string) : option string :=
  match nr.2, before !! nr.1 with
  | Err e, Some (Ok _) => Some (nr.1 +:+ ": " +:+ e)
  | _, _ => None
  end.
Definition regressions (before after : HostEvals) : list string := omap (regressed before) (by_key after).

Example only_new_failures_count :
  let before : HostEvals := {["a" := Ok "/a.drv"; "broken" := Err "x"]} in
  regressions before before = [] ∧ regressions before (<["a" := Err "boom"]> before) = ["a: boom"] ∧
  length (regressions before (<["new" := Err "y"]> (<["a" := Err "boom"]> before))) = 1.
Proof. vm_compute. done. Qed.

Section gate.
Context `{Outside}.

Definition sh (root dir : string) (args : list string) : M () :=
  o ← with_context ("running " +:+ join " " args) (output (at_root root dir) args);
  if o_success o then mret ()
  else throw ["`" +:+ join " " args +:+ "` in " +:+ dir +:+ " failed:" +:+ tail_lines 20 (o_stdout o +:+ o_stderr o)].

Definition have (bin : string) : M bool :=
  o ← ok (output "." [bin; "--version"]);
  mret match o with Some o => o_success o | None => false end.

Definition gate_nix (root : string) (args : list string) : M string :=
  o ← with_context "running nix"
        (output root (["nix"; "--extra-experimental-features"; "nix-command flakes"] ++ args ++ ["--no-pure-eval"]));
  if o_success o then mret (trim (o_stdout o))
  else throw [trim (default "" (last (filter (λ l, contains "error" l = true) (lines (o_stderr o)))))].

Definition eval_host (root class : string) (out : HostEvals) (n : string) : M HostEvals :=
  r ← try (gate_nix root ["eval"; "--raw"; ".#" +:+ class +:+ "." +:+ str [double_quote] +:+ n +:+ str [double_quote]
             +:+ ".config.system.build.toplevel.drvPath"]);
  mret (<[n := match r with Ok d => Ok d | Err e => Err (message e) end]> out).
Definition eval_class (root : string) (out : HostEvals) (class : string) : M HostEvals :=
  text ← gate_nix root ["eval"; "--json"; ".#" +:+ class; "--apply"; "builtins.attrNames"];
  names ← lift (match parse_json text ≫= list_of as_str with Some l => Ok l | None => Err ["invalid names"] end);
  for_each (eval_host root class) out names.
Definition eval_hosts (root : string) : M HostEvals :=
  for_each (eval_class root) ∅ ["nixosConfigurations"; "darwinConfigurations"].

Record Gates : Type := mkGates { g_system : string; hosts_before : option HostEvals }.

Definition run_crate (root : string) (_ : ()) (c : string) : M () :=
  there ← is_file (at_root root c +:+ "/Cargo.toml");
  if (there : bool) then sh root c ["cargo"; "check"; "--all-targets"] else mret ().
Definition run_shell (root : string) (_ : ()) (d : string) : M () :=
  sh root d ["devenv"; "shell"; "--no-reload"; "--"; "true"].

Definition gate_run (gs : Gates) (root : string) (g : Gate) : M () :=
  match g with
  | Nixidy =>
      let s := g_system gs in
      drop_ (gate_nix root ["build"; "--no-link";
        ".#legacyPackages." +:+ s +:+ ".nixidyEnvs." +:+ s +:+ ".prod.config.build.environmentPackage"])
  | Hosts =>
      before ← lift (match hosts_before gs with Some b => Ok b | None => Err ["host baseline was not evaluated"] end);
      after ← eval_hosts root;
      let bad := regressions before after in
      if bool_decide (bad = []) then mret () else throw [join (str [newline]) bad]
  | Cargo =>
      _ ← for_each (run_crate root) () CRATES;
      embedded ← is_file (at_root root "embedded/Cargo.toml");
      if negb embedded then mret ()
      else
        d ← have "devenv";
        if (d : bool) then sh root "embedded" ["devenv"; "shell"; "--no-reload"; "--"; "cargo"; "check"] else mret ()
  | Uv =>
      _ ← sh root "pulumi" ["uv"; "sync"; "--locked"];
      sh root "pulumi" ["uv"; "run"; "--locked"; "ruff"; "check"; "."; "--extend-exclude"; "sdks"]
  | Bun =>
      _ ← sh root "apps/sveltekit-demo" ["bun"; "install"; "--frozen-lockfile"];
      sh root "apps/sveltekit-demo" ["bun"; "run"; "build"]
  | Devenv =>
      d ← have "devenv";
      if negb d then mret () else for_each (run_shell root) () DEVENVS
  end.

(** A gate changes only what its commands change. *)
Context (R : relation Files) `{!PreOrder R}.
Context (Hcmd : ∀ n fs dir args, R fs (command n fs dir args).1).

Lemma steps_command dir args : steps R (output dir args).
Proof using Type*. apply steps_output; [apply _|]. intros; by apply Hcmd. Qed.
#[local] Hint Resolve steps_command : steps.
Lemma steps_sh root dir args : steps R (sh root dir args).
Proof using Type*. unfold sh. step_through. Qed.
Lemma steps_nix root args : steps R (gate_nix root args).
Proof using Type*. unfold gate_nix. step_through. Qed.
#[local] Hint Resolve steps_sh steps_nix : steps.
Lemma steps_have bin : steps R (have bin).
Proof using Type*. unfold have. step_through. Qed.
Lemma steps_eval_hosts root : steps R (eval_hosts root).
Proof using Type*. unfold eval_hosts, eval_class, eval_host. step_through. Qed.
#[local] Hint Resolve steps_have steps_eval_hosts : steps.
Lemma steps_gate gs root g : steps R (gate_run gs root g).
Proof using Type*. unfold gate_run, run_crate, run_shell. destruct g; step_through. Qed.
End gate.

(** ** The host gate *)

(** A host is reported exactly when it evaluated before the change and no longer does; a host
    that failed before, or is new, is not held against the change. *)
Theorem regressions_spec (before after : HostEvals) line :
  line ∈ regressions before after ↔
  ∃ n d e, before !! n = Some (Ok d) ∧ after !! n = Some (Err e) ∧ line = n +:+ ": " +:+ e.
Proof.
  unfold regressions, by_key. rewrite list_elem_of_omap. setoid_rewrite stable_sort_elem. split.
  - intros ([n r] & Hn%elem_of_map_to_list & Hr). unfold regressed in Hr. cbn in Hr.
    destruct r as [|e]; [done|]. destruct (before !! n) as [[d|]|] eqn:Eb; [|done|done]. injection Hr as <-. by exists n, d, e.
  - intros (n & d & e & Hb & Ha & ->). exists (n, Err e). split; [by apply elem_of_map_to_list|].
    unfold regressed. cbn. by rewrite Hb.
Qed.
