(* ===== verification/Bump.v ===== *)
(** * Bumping pins ([tools/update/src/main.rs], and [charts] of [defaults.rs])

    [run_pins] moves every pin that has a newer version, with the pins that follow it, runs the gates
    of all of them, and when that fails tries each group alone and holds the ones that still fail. *)

From Stdlib Require Import Ascii.
From stdpp Require Import options.
From S2P Require Import Prelude Text Json State Host Damage Version Remote Pin Resolve Defaults Gate.

Class YamlText : Type := yaml_of : string → option Yaml.

(** A bumped pin file: its original and new contents. *)
Record Bumped : Type := mkBumped { b_entry : Entry; b_original : string; b_new : string }.
(** A bumped pin plus the pins that follow it; gated and held as one. *)
Record Group : Type := mkGroup { g_lead : Bumped; g_followers : list Bumped; g_to : Update }.
Definition group_files (g : Group) : list Bumped := g_lead g :: g_followers g.

Definition ticked (s : string) : string := "`" +:+ s +:+ "`".
Definition label (g : Group) : string :=
  match g_followers g with
  | [] => ticked (id (b_entry (g_lead g)))
  | fs => ticked (id (b_entry (g_lead g))) +:+ " (+ `" +:+ join "`, `" ((λ b, id (b_entry b)) <$> fs) +:+ "`)"
  end.

(** Pins whose [follows] names [i]. *)
Definition followers (all : list Entry) (i : string) : list Entry :=
  filter (λ f, follows (pin f) = Some i) all.

Record Run : Type := mkRun {
  r_root : string; r_all : list Entry; r_ctx : Ctx; r_gates : Gates; r_no_gate : bool; r_major : bool }.
(** The part of [Run] that changes. *)
Record Progress : Type := mkProgress { report : list string; failed : N }.
Definition note (line : string) (pr : Progress) : Progress := mkProgress (report pr ++ [line]) (failed pr).
Definition fail_note (line : string) (pr : Progress) : Progress := mkProgress (report pr ++ [line]) (failed pr + 1).

Definition first_line (s : string) : string := default s (head (lines s)).

Section bump.
Context `{Outside, PinText, RegexLib, YamlLib, YamlText}.

Definition today : M string :=
  o ← ok (output "." ["date"; "-u"; "+%F"]);
  mret match o with Some o => trim (o_stdout o) | None => "" end.

(** ** Charts *)

Definition meta_get (k : string) (v : Yaml) : option string :=
  match v with Mapping m => Defaults.get k m | _ => None end.
Definition read_yaml (what text : string) : M Yaml :=
  lift (match yaml_of text with Some v => Ok v | None => Err ["parsing " +:+ what] end).
Definition chart (dir : string) : M Chart :=
  text ← read_to_string (dir +:+ "/Chart.yaml");
  meta ← read_yaml (dir +:+ "/Chart.yaml") text;
  values ← ok (read_to_string (dir +:+ "/values.yaml"));
  v ← match values with Some s => read_yaml (dir +:+ "/values.yaml") s | None => mret Null end;
  mret (mkChart (meta_get "name" meta) (meta_get "appVersion" meta) v).

(** The directories of [d], sorted. *)
Definition subdir_of (d file : string) : option string :=
  rest ← strip_prefix (d +:+ "/") file; '(n, _) ← split_once "/" rest; Some n.
Definition subdirs (d : string) : M (list string) :=
  gets (λ w, (λ n, d +:+ "/" +:+ n) <$>
    stable_sort String.leb (elements (list_to_set (omap (λ f, subdir_of d f.1) (map_to_list (w_files w))) : gset string))).
Definition chart_dir (acc : list Chart * list string) (d : string) : M (list Chart * list string) :=
  there ← is_file (d +:+ "/Chart.yaml");
  out ← (if (there : bool) then c ← chart d; mret (acc.1 ++ [c]) else mret acc.1);
  subs ← subdirs d;
  mret (out, acc.2 ++ subs).
Definition chart_level (acc : list Chart * list string) (_ : nat) : M (list Chart * list string) :=
  for_each chart_dir (acc.1, []) acc.2.
Definition charts (dir : string) : M (list Chart) :=
  acc ← for_each chart_level ([], [dir]) (seq 0 5);
  if bool_decide (length acc.1 = 0) then throw ["no Chart.yaml under " +:+ dir] else mret acc.1.

(** Charts under [e]'s output, for image followers to read tags from. *)
Definition run_charts (run : Run) (e : Entry) : M (option (list Chart)) :=
  if existsb (λ f, is_oci (source (pin f))) (followers (r_all run) (id e)) then
    out ← nix_build (r_root run) (attr (r_ctx run) e);
    cs ← charts out;
    mret (Some cs)
  else mret None.

(** ** Gates *)

(** Gates for a pin: charts and images render through nixidy; sources gate on wherever they are
    consumed. *)
Definition gate_of_file (f : string) : option Gate :=
  if starts_with "pkgs/" f then None else Some (if starts_with "nixidy/" f then Nixidy else Hosts).
Definition pin_gates (root : string) (e : Entry) : M (gset Gate) :=
  if bool_decide (kind e ≠ Src) then mret {[Nixidy]}
  else
    o ← ok (output root ["git"; "grep"; "-l"; "-F"; "-e"; "pinned." +:+ Pin.name e; "-e"; "pinned." +:+ quoted (Pin.name e); "--"; "*.nix"]);
    mret (list_to_set (omap gate_of_file (lines match o with Some o => o_stdout o | None => "" end))).
Definition group_gates (root : string) (acc : gset Gate) (g : Group) : M (gset Gate) :=
  for_each (λ acc b, gs ← pin_gates root (b_entry b); mret (acc ∪ gs)) acc (group_files g).

Fixpoint gate_loop (run : Run) (l : list Gate) : M (Result () string) :=
  match l with
  | [] => mret (Ok ())
  | g :: l =>
      r ← try (gate_run (r_gates run) (r_root run) g);
      match r with
      | Ok _ => gate_loop run l
      | Err e => mret (Err ("fails " +:+ gate_display g +:+ ": " +:+ alternate e))
      end
  end.
Definition run_gate (run : Run) (gs : gset Gate) : M (Result () string) :=
  if r_no_gate run then mret (Ok ()) else gate_loop run (filter (λ g, g ∈ gs) all_gates).

(** ** Followers *)

Definition show_tag_error (e : TagError) : string :=
  match e with
  | Disagree r _ => r +:+ ": chart defaults disagree"
  | NoAppVersion r => r +:+ ": no default tag and no appVersion"
  | NotInTag r c o => r +:+ ": no default tag, and " +:+ c +:+ " doesn't contain appVersion " +:+ o
  end.

(** One follower's move; the result is the entry after it. *)
Definition bump_follower (run : Run) (lead : Entry) (v : string) (cs : option (list Chart * list Chart)) (f : Entry) : M Entry :=
  match source (pin f), cs with
  | OciTag repository _ _, Some (old, new) =>
      t ← lift (match tag old new repository (version (pin f)) with Ok t => Ok t | Err e => Err [show_tag_error e] end);
      if bool_decide (t = version (pin f)) then mret f
      else
        '(_, d) ← registry_digest (Remote.new repository) t;
        rehash (r_ctx run) f (mkUpdate t (Some d))
  | OciTag _ _ _, None => throw [id lead +:+ " has no charts to read tags from"]
  | _, _ => rehash (r_ctx run) f (mkUpdate v None)
  end.

(** Put a file back, ignoring a failure. *)
Definition put_back (_ : ()) (b : Bumped) : M () := _ ← ok (restore (path (b_entry b)) (b_original b)); mret ().

Fixpoint bump_loop (run : Run) (lead : Entry) (v : string) (cs : option (list Chart * list Chart))
    (fs : list Entry) (seen : list Bumped) : M (Result (list Bumped) string) :=
  match fs with
  | [] => mret (Ok seen)
  | f :: fs =>
      original ← try (read_to_string (path f));
      match original with
      | Err e => mret (Err (message e))
      | Ok original =>
          res ← try (bump_follower run lead v cs f);
          match res with
          | Err e =>
              _ ← ok (restore (path f) original);
              _ ← for_each put_back () seen;
              mret (Err ("follower " +:+ ticked (id f) +:+ ": " +:+ alternate e))
          | Ok f' =>
              new ← try (read_to_string (path f'));
              match new with
              | Err e => mret (Err (message e))
              | Ok new => bump_loop run lead v cs fs (seen ++ [mkBumped f' original new])
              end
          end
      end
  end.
Definition bump_followers (run : Run) (lead : Entry) (v : string) (cs : option (list Chart * list Chart)) : M (Result (list Bumped) string) :=
  bump_loop run lead v cs (followers (r_all run) (id lead)) [].

(** ** Pins *)

Notation Acc := (list Group * Progress)%type.

(** The lead's own move, with its charts before and after. *)
Definition bump_lead (run : Run) (e : Entry) (to : Update) (before : option (list Chart)) : M (Entry * option (list Chart * list Chart)) :=
  e' ← rehash (r_ctx run) e to;
  match before with
  | Some b => after ← run_charts run e'; mret (e', Some (b, default [] after))
  | None => mret (e', None)
  end.

Definition pin_step (run : Run) (acc : Acc) (e : Entry) : M Acc :=
  let '(bumped, pr) := acc in
  l ← try (latest (r_ctx run) e (r_major run));
  match l with
  | Err err => mret (bumped, fail_note ("- " +:+ ticked (id e) +:+ ": error checking: " +:+ alternate err) pr)
  | Ok None => mret acc
  | Ok (Some to) =>
      match hold (pin e) with
      | Some reason =>
          mret (bumped, note ("- " +:+ ticked (id e) +:+ ": held at " +:+ version (pin e) +:+ " (" +:+ display_update to +:+ " available): " +:+ reason) pr)
      | None =>
          original ← read_to_string (path e);
          before ← try (run_charts run e);
          match before with
          | Err err => mret (bumped, fail_note ("- " +:+ ticked (id e) +:+ ": error reading charts: " +:+ alternate err) pr)
          | Ok before =>
              res ← try (bump_lead run e to before);
              match res with
              | Err err =>
                  _ ← restore (path e) original;
                  mret (bumped, fail_note ("- " +:+ ticked (id e) +:+ ": failed to bump to " +:+ display_update to +:+ ": " +:+ alternate err) pr)
              | Ok (e', cs) =>
                  new ← read_to_string (path e');
                  fs ← bump_followers run e' (to_version to) cs;
                  match fs with
                  | Ok fs => mret (bumped ++ [mkGroup (mkBumped e' original new) fs to], pr)
                  | Err err =>
                      _ ← restore (path e') original;
                      mret (bumped, fail_note ("- " +:+ ticked (id e') +:+ ": failed to bump to " +:+ display_update to +:+ ": " +:+ err) pr)
                  end
              end
          end
      end
  end.

Definition parse_pin (text : string) : M Pin :=
  lift (match pin_of_json text with Some p => Ok p | None => Err ["invalid pin"] end).

Definition bumped (g : Group) (pr : Progress) : M Progress :=
  from ← parse_pin (b_original (g_lead g));
  mret (note ("- " +:+ label g +:+ ": " +:+ version from +:+ " → " +:+ display_update (g_to g)) pr).

(** The refused version's pin: kept below it, with the reason. *)
Definition refused (p : Pin) (to : Update) (why date : string) : Pin :=
  let c :=
    if bool_decide (is_Some (Version.parse (to_version to))) && negb (bool_decide (to_version to = version p))
    then let bound := "<" +:+ to_version to in
         Some (match constraint p with Some c => c +:+ ", " +:+ bound | None => bound end)
    else constraint p in
  mkPin (version p) (hash p) (digest p) (hashes p) (source p) c
    (Some (display_update to +:+ " " +:+ first_line why +:+ " (" +:+ date +:+ ")")) (follows p).

Definition restore_file (_ : ()) (b : Bumped) : M () := restore (path (b_entry b)) (b_original b).
Definition hold_group (g : Group) (why : string) (pr : Progress) : M Progress :=
  _ ← for_each restore_file () (g_followers g);
  p ← parse_pin (b_original (g_lead g));
  date ← today;
  _ ← write_pin (path (b_entry (g_lead g))) (refused p (g_to g) why date);
  mret (fail_note ("- " +:+ label g +:+ ": " +:+ display_update (g_to g) +:+ " " +:+ first_line why +:+ "; now held") pr).

Definition settle (pr : Progress) (g : Group) (verdict : Result () string) : M Progress :=
  match verdict with Ok _ => bumped g pr | Err why => hold_group g why pr end.

Definition apply_file (_ : ()) (b : Bumped) : M () := write (path (b_entry b)) (b_new b).
(** One group on its own. *)
Definition isolate (run : Run) (pr : Progress) (g : Group) : M Progress :=
  _ ← for_each apply_file () (group_files g);
  gs ← group_gates (r_root run) ∅ g;
  verdict ← run_gate run gs;
  settle pr g verdict.

Definition run_pins (run : Run) (entries : list Entry) (pr : Progress) : M Progress :=
  '(groups, pr) ← for_each (pin_step run) ([], pr) entries;
  if bool_decide (length groups = 0) then mret pr
  else
    all ← for_each (group_gates (r_root run)) ∅ groups;
    together ← run_gate run all;
    if is_ok together || bool_decide (length groups = 1)
    then for_each (λ pr g, settle pr g together) pr groups
    else
      _ ← for_each restore_file () (mjoin (group_files <$> groups));
      for_each (isolate run) pr groups.
End bump.

(** ** What a bump may do to the pin files *)

Section safe.
#[local] Set Default Proof Using "Type*".
Context `{Outside, PinText, RegexLib, YamlLib, YamlText} (run : Run).

Definition b_path (b : Bumped) : string := path (b_entry b).
Definition pins : list string := path <$> r_all run.

(** Of the pin files only those of [l] changed, and none is gone. *)
Definition kept (l : list string) (fs fs' : Files) : Prop :=
  ∀ p, p ∈ pins → (p ∉ l → fs' !! p = fs !! p) ∧ (is_Some (fs !! p) → is_Some (fs' !! p)).
#[local] Instance kept_preorder l : PreOrder (kept l).
Proof.
  split; [done|]. intros fs1 fs2 fs3 G1 G2 p Hp. destruct (G1 p Hp) as [E1 I1], (G2 p Hp) as [E2 I2].
  split; [|by auto]. intros Hl. by rewrite E2, E1.
Qed.
Lemma kept_writes l p : p ∈ l → writes (kept l) p.
Proof.
  intros Hp fs c q Hq. split; [intros Hl; rewrite lookup_insert_ne; [done|by intros ->]|].
  intros Hs. destruct (decide (p = q)) as [->|]; [by rewrite lookup_insert_eq|by rewrite lookup_insert_ne].
Qed.

(** Commands (builds, checks, git grep) leave the pin files alone. *)
Context (Hcmd : ∀ n fs dir args p, p ∈ pins → (command n fs dir args).1 !! p = fs !! p).
Lemma kept_command l n fs dir args : kept l fs (command n fs dir args).1.
Proof. intros p Hp. by rewrite Hcmd. Qed.

Lemma steps_charts_here l dir : steps (kept l) (charts dir).
Proof. unfold charts, chart_level, chart_dir, chart, read_yaml, subdirs. step_through. Qed.
Lemma steps_run_charts l e : steps (kept l) (run_charts run e).
Proof.
  unfold run_charts. destruct (existsb _ _); [|apply steps_ret, _].
  sbind; [apply steps_nix_build; try apply _; intros; apply kept_command|]. intros out.
  sbind; [apply steps_charts_here|]. intros cs. apply steps_ret, _.
Qed.
Lemma steps_pin_gates l e : steps (kept l) (pin_gates (r_root run) e).
Proof.
  unfold pin_gates. case_bool_decide; [apply steps_ret, _|]. sbind; [ |intros; apply steps_ret, _].
  apply steps_ok, steps_output; try apply _; intros; apply kept_command.
Qed.
Lemma steps_group_gates l acc g : steps (kept l) (group_gates (r_root run) acc g).
Proof.
  sloop. intros a b _. sbind; [apply steps_pin_gates|]. intros. apply steps_ret, _.
Qed.
Lemma steps_gate_loop l gs : steps (kept l) (gate_loop run gs).
Proof.
  induction gs as [|g gs IH]; cbn [gate_loop]; [apply steps_ret, _|].
  sbind; [ |intros []; [done|apply steps_ret, _]].
  apply steps_try, steps_gate; try apply _; intros; apply kept_command.
Qed.
Lemma steps_run_gate l gs : steps (kept l) (run_gate run gs).
Proof. unfold run_gate. destruct (r_no_gate run); [apply steps_ret, _|apply steps_gate_loop]. Qed.
Lemma steps_today l : steps (kept l) today.
Proof.
  sbind; [ |intros; apply steps_ret, _]. apply steps_ok, steps_output; try apply _; intros; apply kept_command.
Qed.
Lemma steps_rehash_here e u : steps (kept [path e]) (rehash (r_ctx run) e u).
Proof. apply steps_rehash; [apply _|intros; apply kept_command|]. apply kept_writes. left. Qed.
Lemma steps_bump_follower lead v cs f : steps (kept [path f]) (bump_follower run lead v cs f).
Proof.
  unfold bump_follower. pose proof (steps_rehash_here f). destruct (source (pin f)), cs as [[]|]; try done; try apply steps_throw, _.
  sbind; [apply steps_lift, _|]. intros t. case_bool_decide; [apply steps_ret, _|].
  sbind; [apply steps_registry_digest, _|]. by intros [].
Qed.
Lemma steps_bump_lead e to before : steps (kept [path e]) (bump_lead run e to before).
Proof.
  sbind; [apply steps_rehash_here|]. intros e'. destruct before; [|apply steps_ret, _].
  sbind; [apply steps_run_charts|]. intros. apply steps_ret, _.
Qed.
Lemma bump_follower_entry lead v cs f : results (same_but_hashes f) (bump_follower run lead v cs f).
Proof.
  unfold bump_follower. pose proof (rehash_entry (r_ctx run) f). destruct (source (pin f)), cs as [[]|]; try done.
  apply results_bind. intros t. case_bool_decide; [by apply results_ret|]. by apply results_bind; intros [].
Qed.
Lemma bump_lead_entry e to before : results (λ r, same_but_hashes e r.1) (bump_lead run e to before).
Proof.
  intros w w' r. unfold bump_lead, mbind, SE_bind. destruct (rehash (r_ctx run) e to w) as [w1 [e'|]] eqn:E; [|done].
  apply rehash_entry in E. destruct before; [|by intros [= _ <-]].
  destruct (run_charts run e' w1) as [w2 [a|]]; [|done]. by intros [= _ <-].
Qed.

(** [m] as a [wp]: what [steps] and [results] say of a run. *)
Lemma wp_kept {A} l (m : M A) (E : World → Prop) (Q : A → World → Prop) w :
  steps (kept l) m → (∀ w', kept l (w_files w) (w_files w') → E w') →
  (∀ a w', m w = (w', Ok a) → kept l (w_files w) (w_files w') → Q a w') → wp m E Q w.
Proof.
  intros Hm HE HQ. specialize (Hm w). apply wp_intro; intros w' x E'; rewrite E' in Hm; auto.
Qed.
Lemma wp_try {A} (m : M A) (Q : Result A (list string) → World → Prop) w :
  wp m (λ w', ∀ e, Q (Err e) w') (λ a, Q (Ok a)) w → wp (try m) (λ _, False) Q w.
Proof. unfold wp, try. by destruct (m w) as [w' []]. Qed.
Lemma wp_quiet {A} (m : M A) (E : World → Prop) Q w : wp m (λ _, False) Q w → wp m E Q w.
Proof. intros Hm. by eapply wp_mono. Qed.

(** Writes succeed. *)
Context (Hdisk : ∀ n p, stored n p = Whole).
Lemma wp_written p c (E : World → Prop) (Q : () → World → Prop) w :
  (∀ n, Q () (mkWorld (<[p := c]> (w_files w)) n)) → wp (write p c) E Q w.
Proof. intros HQ. unfold wp, write. rewrite Hdisk. apply HQ. Qed.
Lemma wp_restored p c (E : World → Prop) (Q : () → World → Prop) w :
  (∀ n, Q () (mkWorld (<[p := c]> (w_files w)) n)) → wp (restore p c) E Q w.
Proof. intros HQ. by apply wp_context, wp_written. Qed.

(** ** What was bumped *)

(** From [fs] to [fs'], the files of [bs] went from their original to their new content, and no other
    pin file changed. *)
Definition recorded (fs : Files) (bs : list Bumped) (fs' : Files) : Prop :=
  (∀ b, b ∈ bs → fs !! b_path b = Some (b_original b) ∧ fs' !! b_path b = Some (b_new b)) ∧
  (∀ p, p ∈ pins → p ∉ b_path <$> bs → fs' !! p = fs !! p).
Definition present (fs : Files) : Prop := ∀ p, p ∈ pins → is_Some (fs !! p).

Lemma recorded_nil fs fs' : recorded fs [] fs' ↔ ∀ p, p ∈ pins → fs' !! p = fs !! p.
Proof.
  split; [intros [_ Hr] p Hp; apply Hr; [done|by apply not_elem_of_nil]|].
  intros Hr. split; [by intros b ?%elem_of_nil|]. auto.
Qed.
Lemma kept_nil fs fs' : kept [] fs fs' → recorded fs [] fs'.
Proof. intros Hk. apply recorded_nil. intros p Hp. apply Hk; [done|]. apply not_elem_of_nil. Qed.
Lemma kept_present l fs fs' : kept l fs fs' → present fs → present fs'.
Proof. intros Hk Hf p Hp. by apply Hk, Hf. Qed.
Lemma recorded_present fs bs fs' : recorded fs bs fs' → present fs → present fs'.
Proof.
  intros [Hb Ho] Hf p Hp. destruct (decide (p ∈ b_path <$> bs)) as [Hin|Hout].
  - apply list_elem_of_fmap in Hin as (b & -> & Hin). apply Hb in Hin as [_ ->]. by eexists.
  - rewrite Ho by done. by apply Hf.
Qed.
Lemma recorded_app fs1 bs1 fs2 bs2 fs3 :
  (∀ b, b ∈ bs1 ++ bs2 → b_path b ∈ pins) → NoDup (b_path <$> bs1 ++ bs2) →
  recorded fs1 bs1 fs2 → recorded fs2 bs2 fs3 → recorded fs1 (bs1 ++ bs2) fs3.
Proof.
  intros Hpins Hnd [Hb1 Ho1] [Hb2 Ho2]. rewrite fmap_app in Hnd. apply NoDup_app in Hnd as (_ & Hd & _). split.
  - intros b Hb. assert (b_path b ∈ pins) as Hp by auto. apply elem_of_app in Hb as [Hb|Hb].
    + destruct (Hb1 b Hb) as [-> Hn]. split; [done|]. rewrite Ho2; [done|done|]. apply Hd. by apply list_elem_of_fmap_2.
    + destruct (Hb2 b Hb) as [Hn ->]. split; [|done]. rewrite <- Ho1; [done|done|].
      intros Hx. apply (Hd _ Hx). by apply list_elem_of_fmap_2.
  - intros p Hp Hout. rewrite fmap_app, not_elem_of_app in Hout. destruct Hout as [G1 G2]. by rewrite Ho2, Ho1.
Qed.

(** Putting the originals back undoes what was recorded. *)
Lemma put_back_all (f : () → Bumped → M ()) fs bs w E :
  f = put_back ∨ f = restore_file → (∀ b, b ∈ bs → b_path b ∈ pins) → recorded fs bs (w_files w) →
  wp (for_each f () bs) E (λ _ w', recorded fs [] (w_files w')) w.
Proof.
  intros Hf Hpins [Hb Ho]. assert (∀ b, b ∈ bs → fs !! b_path b = Some (b_original b)) as Hb' by (intros; by apply Hb).
  assert (∀ rest w, (∀ b, b ∈ rest → b ∈ bs) →
    (∀ p, p ∈ pins → p ∉ b_path <$> rest → w_files w !! p = fs !! p) →
    wp (for_each f () rest) E (λ _ w', recorded fs [] (w_files w')) w) as Hgen; [|by apply Hgen].
  clear w Ho Hb. induction rest as [|b rest IH]; intros w Hsub Ho; cbn [for_each].
  { apply wp_ret, recorded_nil. intros p Hp. apply Ho; [done|]. apply not_elem_of_nil. }
  assert (∀ n, wp (for_each f () rest) E (λ _ w', recorded fs [] (w_files w'))
    (mkWorld (<[b_path b := b_original b]> (w_files w)) n)) as Hrest.
  { intros n. apply IH; [intros; apply Hsub; by right|]. intros p Hp Hout. cbn.
    destruct (decide (b_path b = p)) as [<-|Hne].
    - rewrite lookup_insert_eq. symmetry. apply Hb', Hsub. left.
    - rewrite lookup_insert_ne by done. apply Ho; [done|]. cbn. rewrite not_elem_of_cons. by split. }
  apply wp_bind. destruct Hf as [-> | ->].
  - unfold put_back. apply wp_bind, wp_ok, wp_restored. intros n. apply wp_ret, Hrest.
  - unfold restore_file. apply wp_restored. intros n. apply Hrest.
Qed.

(** ** Followers *)

Lemma bump_loop_spec lead v cs fs seen fs0 w :
  Forall (λ f, path f ∈ pins) fs → (∀ b, b ∈ seen → b_path b ∈ pins) → NoDup ((b_path <$> seen) ++ (path <$> fs)) →
  present fs0 → recorded fs0 seen (w_files w) →
  wp (bump_loop run lead v cs fs seen) (λ _, False)
     (λ r w', match r with
              | Ok out => recorded fs0 out (w_files w') ∧ b_path <$> out = (b_path <$> seen) ++ (path <$> fs)
              | Err _ => recorded fs0 [] (w_files w')
              end) w.
Proof.
  revert seen w. induction fs as [|f fs IH]; intros seen w Hfs Hseen Hnd Hpre Hrec; cbn [bump_loop].
  { apply wp_ret. cbn. by rewrite app_nil_r. }
  apply Forall_cons in Hfs as [Hf Hfs]. cbn [fmap list_fmap] in Hnd.
  assert (path f ∉ b_path <$> seen) as Hfresh.
  { intros Hin. apply NoDup_app in Hnd as (_ & Hd & _). apply (Hd _ Hin). left. }
  assert (is_Some (w_files w !! path f)) as [original Eo] by (apply (recorded_present _ _ _ Hrec Hpre _ Hf)).
  apply wp_bind, wp_try. unfold read_to_string at 1. unfold wp at 1. rewrite Eo.
  apply wp_bind, wp_try.
  apply (wp_kept [path f]); [apply steps_bump_follower| |].
  - (* failed: put everything back *)
    intros w1 Hk e. apply wp_bind, wp_ok, wp_restored. intros n. apply wp_bind.
    eapply wp_mono; [apply (put_back_all _ fs0 seen _ (λ _, False)); [by left|done|]|done|intros [] w2 G2; by apply wp_ret].
    destruct Hrec as [Hb Ho]. cbn [w_files]. split.
    + intros b Hin. split; [by apply Hb|]. assert (b_path b ≠ path f) as Hne by (intros E; apply Hfresh; rewrite <- E; by apply list_elem_of_fmap_2).
      rewrite lookup_insert_ne by done. destruct (Hk (b_path b)) as [Hk' _]; [by apply Hseen|].
      rewrite Hk'; [by apply Hb|]. by intros ?%list_elem_of_singleton.
    + intros p Hp Hout. destruct (decide (path f = p)) as [<-|Hne].
      * rewrite lookup_insert_eq, <- Eo. by apply Ho.
      * rewrite lookup_insert_ne by done. destruct (Hk p Hp) as [Hk' _]. rewrite Hk'; [by apply Ho|].
        by intros ->%list_elem_of_singleton.
  - intros f' w1 Ef Hk. apply bump_follower_entry in Ef as [Ep _].
    assert (is_Some (w_files w1 !! path f')) as [new En].
    { rewrite Ep. apply Hk; [done|]. by eexists. }
    apply wp_bind, wp_try. unfold read_to_string at 1. unfold wp at 1. rewrite En.
    assert (recorded fs0 (seen ++ [mkBumped f' original new]) (w_files w1)) as Hrec1.
    { eapply recorded_app; [| |exact Hrec|].
      - intros b [Hb | ->%list_elem_of_singleton]%elem_of_app; [by apply Hseen|]. unfold b_path. cbn. by rewrite Ep.
      - rewrite fmap_app. cbn. unfold b_path at 2. cbn. rewrite Ep. rewrite (cons_middle _ _ (path <$> fs)), app_assoc in Hnd.
        by apply NoDup_app in Hnd as [? _].
      - split.
        + intros b ->%list_elem_of_singleton. unfold b_path. cbn. rewrite Ep in En |- *. done.
        + intros p Hp Hout. apply Hk; [done|]. cbn in Hout. unfold b_path in Hout. cbn in Hout. by rewrite Ep in Hout. }
    eapply wp_mono; [apply IH; [done| | |done|exact Hrec1]|done|].
    + intros b [Hb | ->%list_elem_of_singleton]%elem_of_app; [by apply Hseen|]. unfold b_path. cbn. by rewrite Ep.
    + rewrite fmap_app. cbn. unfold b_path at 2. cbn. rewrite Ep. by rewrite <- app_assoc.
    + intros [out|] w2; [|done]. intros [G1 ->]. split; [done|]. rewrite fmap_app, <- app_assoc. cbn. unfold b_path at 2. cbn. by rewrite Ep.
Qed.

(** ** Leads *)

(** The files one entry's bump may touch: its own and its followers'. *)
Definition covered1 (e : Entry) : list string := path e :: (path <$> followers (r_all run) (id e)).
Definition covered (es : list Entry) : list string := mjoin (covered1 <$> es).
Definition files_of (gs : list Group) : list Bumped := mjoin (group_files <$> gs).

Lemma followers_pins i : Forall (λ f, path f ∈ pins) (followers (r_all run) i).
Proof. apply Forall_forall. intros f [_ Hf]%list_elem_of_filter. by apply list_elem_of_fmap_2. Qed.

(** A group of the run: a pin's file and those of all its followers. *)
Definition whole (g : Group) : Prop := ∃ e, e ∈ r_all run ∧ b_path <$> group_files g = covered1 e.

(** What one step appends. *)
Definition appended (gs : list Group) (e : Entry) (fs : Files) (acc : list Group * Progress) (w' : World) : Prop :=
  ∃ gs', acc.1 = gs ++ gs' ∧ recorded fs (files_of gs') (w_files w') ∧ (gs' = [] ∨ ∃ g, gs' = [g] ∧ b_path <$> group_files g = covered1 e).
Lemma appended_none gs e fs pr w' : recorded fs [] (w_files w') → appended gs e fs (gs, pr) w'.
Proof. intros Hr. exists []. rewrite app_nil_r. auto. Qed.

Lemma restored_one fs fs1 p original c :
  fs !! p = Some original → kept [p] fs fs1 → recorded fs1 [] c → recorded fs [] (<[p := original]> c).
Proof.
  intros Ho Hk Hr. rewrite recorded_nil in Hr. apply recorded_nil. intros q Hq.
  destruct (decide (p = q)) as [->|Hne]; [by rewrite lookup_insert_eq|].
  rewrite lookup_insert_ne, Hr by done. apply Hk; [done|]. by intros ->%list_elem_of_singleton.
Qed.

Lemma pin_step_spec gs pr e w :
  present (w_files w) → e ∈ r_all run → NoDup (covered1 e) →
  wp (pin_step run (gs, pr) e) (λ _, True) (appended gs e (w_files w)) w.
Proof.
  intros Hpre He%(list_elem_of_fmap_2 path) Hnd. unfold pin_step. apply wp_bind, wp_quiet, wp_try.
  apply (wp_kept []); [apply steps_latest, _|intros w1 Hk err; apply wp_ret, appended_none; by apply kept_nil|].
  intros [to|] w1 _ Hk; [|by apply wp_ret, appended_none, kept_nil].
  destruct (hold (pin e)); [by apply wp_ret, appended_none, kept_nil|].
  apply wp_bind. apply wp_intro; [done|]. intros w2 original Er.
  unfold read_to_string in Er. destruct (w_files w1 !! path e) as [c|] eqn:Ec; [|done]. injection Er as <- ->.
  assert (w_files w !! path e = Some original) as Eo.
  { destruct (Hk _ He) as [E _]. by rewrite <- E by apply not_elem_of_nil. }
  apply wp_bind, wp_quiet, wp_try.
  apply (wp_kept []); [apply steps_run_charts| |].
  { intros w2 G2 err. apply wp_ret, appended_none, kept_nil. by etrans. }
  intros before w2 _ G2. assert (kept [] (w_files w) (w_files w2)) as Hk2 by by etrans. clear Hk G2 w1 Ec.
  apply wp_bind, wp_quiet, wp_try.
  assert (∀ fs fs1, kept [] fs fs1 → kept [path e] fs fs1) as Hweak.
  { intros fs fs1 Hk p Hp. destruct (Hk p Hp). split; [intros _; by apply H4, not_elem_of_nil|done]. }
  apply (wp_kept [path e]); [apply steps_bump_lead| |].
  { intros w3 G3 err. apply wp_bind, wp_restored. intros n. apply wp_ret, appended_none. cbn [w_files].
    eapply restored_one; [exact Eo|etrans; [by apply Hweak|exact G3]|by apply recorded_nil]. }
  intros [e' cs] w3 [Ep [Ei _]]%bump_lead_entry Hk3. cbn [fst] in Ep, Ei.
  assert (kept [path e] (w_files w) (w_files w3)) as Hk by (etrans; [by apply Hweak|exact Hk3]). clear Hk2 Hk3 w2.
  rewrite Ep. apply wp_bind. apply wp_intro; [done|]. intros w4 new Er.
  unfold read_to_string in Er. destruct (w_files w3 !! path e) as [c|] eqn:Ec; [|done]. injection Er as <- ->.
  apply wp_bind. unfold bump_followers. rewrite Ei. eapply wp_quiet, wp_mono;
    [apply (bump_loop_spec e' (to_version to) cs _ [] (w_files w3)); [apply followers_pins| |by apply NoDup_cons in Hnd as [_ ?]| |by apply recorded_nil]|done|].
  { by intros b ?%elem_of_nil. }
  { by eapply kept_present. }
  cbn [fmap list_fmap app]. intros [out|err] w4 G4.
  - destruct G4 as [G4 Eout]. apply wp_ret. exists [mkGroup (mkBumped e' original new) out to].
    split; [done|]. unfold files_of, group_files. cbn [fmap list_fmap g_lead g_followers mjoin list_join]. 
    change (mjoin [?x]) with (x ++ mjoin []). cbn [mjoin list_join]. rewrite app_nil_r. split.
    + change (?x :: out) with ([x] ++ out). eapply (recorded_app _ _ (w_files w3)).
      * intros b [->%list_elem_of_singleton|Hb]%elem_of_app; [unfold b_path; cbn; by rewrite Ep|].
        apply (list_elem_of_fmap_2 b_path) in Hb. rewrite Eout in Hb. apply list_elem_of_fmap in Hb as (f & -> & Hf).
        pose proof (followers_pins (id e)) as Hfp. by eapply Forall_in in Hfp.
      * rewrite fmap_app, Eout. unfold b_path at 1. cbn. by rewrite Ep.
      * split.
        -- intros b ->%list_elem_of_singleton. unfold b_path. cbn. by rewrite Ep.
        -- intros p Hp Hout. apply Hk; [done|]. unfold b_path in Hout. cbn in Hout. by rewrite Ep in Hout.
      * exact G4.
    + right. eexists. split; [done|]. cbn. rewrite Eout. unfold b_path at 1. cbn. by rewrite Ep.
  - apply wp_bind, wp_restored. intros n. apply wp_ret, appended_none. cbn [w_files]. by eapply restored_one.
Qed.

Lemma covered_pins es : Forall (λ e, e ∈ r_all run) es → ∀ p, p ∈ covered es → p ∈ pins.
Proof.
  intros Hes p Hp. unfold covered in Hp. apply list_elem_of_join in Hp as (l & Hp & Hl).
  apply list_elem_of_fmap in Hl as (e & -> & He). unfold covered1 in Hp. apply elem_of_cons in Hp as [->|Hp].
  - apply list_elem_of_fmap_2. by eapply Forall_in in Hes.
  - apply list_elem_of_fmap in Hp as (f & -> & Hf). pose proof (followers_pins (id e)) as Hfp. by eapply Forall_in in Hfp.
Qed.
Lemma files_of_app gs gs' : files_of (gs ++ gs') = files_of gs ++ files_of gs'.
Proof. unfold files_of. by rewrite fmap_app, join_app. Qed.
Lemma covered_cons e es : covered (e :: es) = covered1 e ++ covered es.
Proof. done. Qed.

Lemma pins_loop es gs pr w :
  present (w_files w) → Forall (λ e, e ∈ r_all run) es → NoDup (covered es) →
  wp (for_each (pin_step run) (gs, pr) es) (λ _, True) (λ acc w', ∃ gs', acc.1 = gs ++ gs' ∧
    recorded (w_files w) (files_of gs') (w_files w') ∧ (b_path <$> files_of gs') `sublist_of` covered es ∧ Forall whole gs') w.
Proof.
  revert gs pr w. induction es as [|e es IH]; intros gs pr w Hpre Hes Hnd; cbn [for_each].
  { apply wp_ret. exists []. rewrite app_nil_r. split; [done|]. split; [by apply recorded_nil|]. split; [apply sublist_nil_l|constructor]. }
  pose proof (covered_pins _ Hes) as Hcp.
  apply Forall_cons in Hes as [He Hes]. rewrite covered_cons in Hnd |- *.
  assert (NoDup (covered1 e)) as Hnd1 by by apply NoDup_app in Hnd as [? _].
  assert (NoDup (covered es)) as Hnd2 by by apply NoDup_app in Hnd as (_ & _ & ?).
  apply wp_bind. eapply wp_mono; [by apply pin_step_spec|done|].
  intros [gs1 pr1] w1 (g1 & Eg & Hr1 & Hp1). cbn in Eg. subst gs1.
  assert ((b_path <$> files_of g1) `sublist_of` covered1 e) as Hs1.
  { destruct Hp1 as [->|(g & -> & <-)]; [apply sublist_nil_l|]. unfold files_of. cbn. by rewrite app_nil_r. }
  assert (Forall whole g1) as Hw1.
  { destruct Hp1 as [->|(g & -> & Eg)]; [constructor|]. apply Forall_singleton. by exists e. }
  eapply wp_mono; [apply IH; [by eapply recorded_present|done|done]|done|].
  intros [gs2 pr2] w2 (g2 & Eg2 & Hr2 & Hp2 & Hw2). cbn in Eg2. subst gs2. exists (g1 ++ g2). rewrite app_assoc. split; [done|].
  assert ((b_path <$> files_of (g1 ++ g2)) `sublist_of` (covered1 e ++ covered es)) as Hs.
  { rewrite files_of_app, fmap_app. by apply sublist_app. }
  split; [|split; [done|by apply Forall_app]]. rewrite files_of_app in Hs |- *. eapply recorded_app; [| |exact Hr1|exact Hr2].
  - intros b Hb. apply Hcp. rewrite covered_cons. eapply elem_of_submseteq; [|by apply sublist_submseteq].
    by apply list_elem_of_fmap_2.
  - eapply sublist_NoDup; [exact Hnd|exact Hs].
Qed.

(** ** Gates *)

(** Every gate of every file of [g] passed with the group's new contents on disk. *)
Definition passed (g : Group) : Prop :=
  r_no_gate run = true ∨
  ∀ b, b ∈ group_files g → ∃ w0 w0' gb, pin_gates (r_root run) (b_entry b) w0 = (w0', Ok gb) ∧
    ∀ gate, gate ∈ gb → ∃ w1 w2, gate_run (r_gates run) (r_root run) gate w1 = (w2, Ok ()) ∧
      ∀ b', b' ∈ group_files g → w_files w1 !! b_path b' = Some (b_new b').

Definition covers (bs : list Bumped) (gs : gset Gate) : Prop :=
  ∀ b, b ∈ bs → ∃ w w' gb, pin_gates (r_root run) (b_entry b) w = (w', Ok gb) ∧ gb ⊆ gs.
Lemma group_gates_covers acc g : results (λ gs, acc ⊆ gs ∧ covers (group_files g) gs) (group_gates (r_root run) acc g).
Proof.
  unfold group_gates. generalize (group_files g) as bs. intros bs. revert acc.
  induction bs as [|b bs IH]; intros acc; cbn [for_each].
  { apply results_ret. split; [done|]. by intros b ?%elem_of_nil. }
  intros w w' gs. unfold mbind, SE_bind. destruct (pin_gates (r_root run) (b_entry b) w) as [w1 [gb|]] eqn:Eb; cbn [mret SE_ret]; [|discriminate].
  intros Hrest. apply IH in Hrest as [Hsub Hc]. split; [set_solver|]. intros b' [->|Hb']%elem_of_cons; [|by apply Hc].
  exists w, w1, gb. split; [done|set_solver].
Qed.
Lemma all_gates_cover acc groups :
  results (λ gs, acc ⊆ gs ∧ ∀ g, g ∈ groups → covers (group_files g) gs) (for_each (group_gates (r_root run)) acc groups).
Proof.
  revert acc. induction groups as [|g groups IH]; intros acc; cbn [for_each].
  { apply results_ret. split; [done|]. by intros g ?%elem_of_nil. }
  intros w w' gs. unfold mbind, SE_bind. destruct (group_gates (r_root run) acc g w) as [w1 [acc1|]] eqn:Eg; [|discriminate].
  apply group_gates_covers in Eg as [Hsub Hc]. intros Hrest. apply IH in Hrest as [Hsub' Hc']. split; [set_solver|].
  intros g' [->|Hg']%elem_of_cons; [|by apply Hc'].
  intros b Hb. destruct (Hc b Hb) as (w2 & w3 & gb & E & ?). exists w2, w3, gb. split; [done|set_solver].
Qed.

Lemma gate_loop_passed l w w' :
  gate_loop run l w = (w', Ok (Ok ())) →
  ∀ gate, gate ∈ l → ∃ w1 w2, gate_run (r_gates run) (r_root run) gate w1 = (w2, Ok ()) ∧ kept [] (w_files w) (w_files w1).
Proof.
  revert w. induction l as [|g l IH]; intros w; cbn [gate_loop]; [by intros _ gate ?%elem_of_nil|].
  unfold mbind, SE_bind, try. pose proof (steps_gate (kept []) (kept_command []) (r_gates run) (r_root run) g w) as Hk.
  destruct (gate_run _ _ g w) as [w1 [[]|]] eqn:Eg; [|done].
  intros Hrest gate [->|Hin]%elem_of_cons; [by exists w, w1|].
  destruct (IH w1 Hrest gate Hin) as (w2 & w3 & E & G). exists w2, w3. split; [done|]. by etrans.
Qed.
Lemma run_gate_passed g gs w w' :
  run_gate run gs w = (w', Ok (Ok ())) → covers (group_files g) gs →
  (∀ b, b ∈ group_files g → b_path b ∈ pins ∧ w_files w !! b_path b = Some (b_new b)) → passed g.
Proof.
  unfold run_gate, passed. intros Hrun Hc Hw. destruct (r_no_gate run); [by left|right].
  intros b Hb. destruct (Hc b Hb) as (w0 & w0' & gb & E & Hsub). exists w0, w0', gb. split; [done|].
  intros gate Hg. destruct (gate_loop_passed _ _ _ Hrun gate) as (w1 & w2 & E2 & Hk).
  { apply list_elem_of_filter. split; [set_solver|]. destruct gate; set_solver. }
  exists w1, w2. split; [done|]. intros b' Hb'. destruct (Hw b' Hb') as [Hp <-]. apply Hk; [done|]. apply not_elem_of_nil.
Qed.

(** ** Verdicts *)

Definition accepted (g : Group) (fs : Files) : Prop :=
  (∀ b, b ∈ group_files g → fs !! b_path b = Some (b_new b)) ∧ passed g.
(** The original pin, now held because a gate refused the update. *)
Definition held (fs fs' : Files) (p : string) : Prop :=
  ∃ text q to why date, fs !! p = Some text ∧ pin_of_json text = Some q ∧
    fs' !! p = Some (pin_to_json (refused q to why date)) ∧
    ∃ gs w1 w2, run_gate run gs w1 = (w2, Ok (Err why)).
Definition settled (fs fs' : Files) (p : string) : Prop :=
  fs' !! p = fs !! p ∨ held fs fs' p ∨ ∃ g, whole g ∧ p ∈ b_path <$> group_files g ∧ accepted g fs'.

(** How one group ends. *)
Definition outcome (g : Group) (fs fs' : Files) : Prop :=
  kept (b_path <$> group_files g) fs fs' ∧
  (accepted g fs' ∨
   held fs fs' (b_path (g_lead g)) ∧ ∀ p, p ∈ pins → p ≠ b_path (g_lead g) → fs' !! p = fs !! p).

Lemma bumped_spec g pr w : wp (bumped g pr) (λ _, True) (λ _ w', w' = w) w.
Proof. apply wp_bind. unfold parse_pin. apply wp_lift; [done|]. intros p _. by apply wp_ret. Qed.

Lemma hold_group_spec g why pr fs w :
  (∀ b, b ∈ group_files g → b_path b ∈ pins) → NoDup (b_path <$> group_files g) →
  recorded fs (group_files g) (w_files w) → (∃ gs w1 w2, run_gate run gs w1 = (w2, Ok (Err why))) →
  wp (hold_group g why pr) (λ _, True) (λ _ w', outcome g fs (w_files w')) w.
Proof.
  intros Hp Hnd [Hb Ho] Hwhy. set (lead := g_lead g).
  assert (b_path lead ∈ pins) as Hlp by (apply Hp; left).
  destruct (Hb lead) as [Elo Eln]; [left|].
  assert (b_path lead ∉ b_path <$> g_followers g) as Hlf by by apply NoDup_cons in Hnd as [? _].
  set (fs1 := <[b_path lead := b_new lead]> fs).
  assert (recorded fs1 (g_followers g) (w_files w)) as Hrec.
  { split.
    - intros b Hin. destruct (Hb b) as [E1 E2]; [by right|]. split; [|done]. unfold fs1.
      rewrite lookup_insert_ne; [done|]. intros E. apply Hlf. rewrite E. by apply list_elem_of_fmap_2.
    - intros p Hpp Hout. unfold fs1. destruct (decide (b_path lead = p)) as [<-|Hne]; [by rewrite lookup_insert_eq|].
      rewrite lookup_insert_ne by done. apply Ho; [done|]. unfold group_files. cbn. rewrite not_elem_of_cons. by split. }
  apply wp_bind. eapply wp_mono;
    [apply (put_back_all _ fs1 (g_followers g) _ (λ _, True)); [by right|intros b Hin; apply Hp; by right|exact Hrec]|done|].
  intros [] w1 G1. rewrite recorded_nil in G1. apply wp_bind. unfold parse_pin. apply wp_lift; [done|]. intros q Eq.
  apply wp_bind. apply (wp_kept []); [apply steps_today|done|]. intros date w2 _ Hk.
  apply wp_bind. unfold write_pin. apply wp_context, wp_written. intros n. apply wp_ret. cbn [w_files].
  assert (∀ p, p ∈ pins → p ≠ b_path lead → <[b_path lead:=pin_to_json (refused q (g_to g) why date)]> (w_files w2) !! p = fs !! p) as Hsame.
  { intros p Hpp Hne. rewrite lookup_insert_ne by done. destruct (Hk p Hpp) as [-> _]; [|apply not_elem_of_nil].
    rewrite G1 by done. unfold fs1. by rewrite lookup_insert_ne. }
  split.
  - intros p Hpp. split.
    + intros Hout. apply Hsame; [done|]. intros ->. apply Hout. left.
    + intros Hs. destruct (decide (p = b_path lead)) as [->|Hne]; [rewrite lookup_insert_eq; by eexists|by rewrite Hsame].
  - right. split; [|done]. exists (b_original lead), q, (g_to g), why, date. split; [done|].
    split; [clear -Eq; fold lead in Eq; revert Eq; destruct (pin_of_json (b_original lead)); by intros [= ->]|]. split; [by rewrite lookup_insert_eq|done].
Qed.

Lemma apply_all bs w :
  (∀ b, b ∈ bs → b_path b ∈ pins ∧ w_files w !! b_path b = Some (b_original b)) → NoDup (b_path <$> bs) →
  wp (for_each apply_file () bs) (λ _, True) (λ _ w', recorded (w_files w) bs (w_files w')) w.
Proof.
  revert w. induction bs as [|b bs IH]; intros w Hb Hnd; cbn [for_each]; [by apply wp_ret, recorded_nil|].
  cbn [fmap list_fmap] in Hnd. pose proof Hnd as [Hb1 Hnd2]%NoDup_cons.
  assert (∀ b', b' ∈ bs → b_path b ≠ b_path b') as Hdis by (intros b' Hin E; apply Hb1; rewrite E; by apply list_elem_of_fmap_2).
  apply wp_bind. unfold apply_file. apply wp_written. intros n.
  eapply wp_mono; [apply IH; [|done]|done|].
  - intros b' Hin. destruct (Hb b') as [? E]; [by right|]. split; [done|]. cbn. by rewrite lookup_insert_ne by auto.
  - intros [] w' Hr. change (b :: bs) with ([b] ++ bs). eapply recorded_app; [| | |exact Hr].
    + intros b' Hin. by apply Hb.
    + done.
    + cbn. split.
      * intros b' ->%list_elem_of_singleton. split; [apply Hb; left|by rewrite lookup_insert_eq].
      * intros p Hp Hout. rewrite lookup_insert_ne; [done|]. intros <-. apply Hout. left.
Qed.

Lemma isolate_spec pr g w :
  (∀ b, b ∈ group_files g → b_path b ∈ pins ∧ w_files w !! b_path b = Some (b_original b)) → NoDup (b_path <$> group_files g) →
  wp (isolate run pr g) (λ _, True) (λ _ w', outcome g (w_files w) (w_files w')) w.
Proof.
  intros Hb Hnd. apply wp_bind. eapply wp_mono; [by apply apply_all|done|]. intros [] w1 G1.
  apply wp_bind. apply (wp_kept []); [apply steps_group_gates|done|]. intros gs w2 [_ Hc]%group_gates_covers Hk2.
  assert (∀ w', kept [] (w_files w1) (w_files w') → recorded (w_files w) (group_files g) (w_files w')) as Hstay.
  { intros w' Hk. rewrite <- (app_nil_r (group_files g)). eapply recorded_app; [| |exact G1|by apply kept_nil].
    - rewrite app_nil_r. intros b Hin. by apply Hb.
    - by rewrite app_nil_r. }
  apply wp_bind. apply (wp_kept []); [apply steps_run_gate|done|]. intros verdict w3 Hv Hk3.
  assert (recorded (w_files w) (group_files g) (w_files w3)) as G3 by (apply Hstay; by etrans).
  destruct verdict as [[]|why]; cbn [settle].
  - eapply wp_mono; [apply bumped_spec|done|]. intros _ w4 ->. split.
    + intros p Hp. split; [apply G3, Hp|]. intros Hs. destruct (decide (p ∈ b_path <$> group_files g)) as [Hin|Hout].
      * apply list_elem_of_fmap in Hin as (b & -> & Hin). destruct G3 as [G3 _]. destruct (G3 b Hin) as [_ ->]. by eexists.
      * destruct G3 as [_ G3]. by rewrite G3.
    + left. split; [intros b Hin; by apply G3|]. eapply run_gate_passed; [exact Hv|exact Hc|].
      intros b Hin. split; [by apply Hb|]. apply (Hstay w2 Hk2), Hin.
  - apply hold_group_spec; [intros b Hin; by apply Hb|done|done|by exists gs, w2, w3].
Qed.

(** What one group's outcome and the later ones' add up to. *)
Lemma outcome_settled g fs fs1 fs' l p :
  whole g → outcome g fs fs1 → kept l fs1 fs' → (∀ q, q ∈ b_path <$> group_files g → q ∈ pins ∧ q ∉ l) →
  p ∈ pins → settled fs1 fs' p → settled fs fs' p.
Proof.
  intros Hw [Hk Hv] Hk' Hd Hp Hs. destruct (decide (p ∈ b_path <$> group_files g)) as [Hin|Hout].
  - assert (fs' !! p = fs1 !! p) as E by (apply Hk'; [done|by apply Hd]).
    destruct Hv as [[Ha Hpass]|[Hh Hsame]].
    + right; right. exists g. do 2 (split; [done|]). split; [|done]. intros b Hb. rewrite <- (Ha b Hb).
      apply (list_elem_of_fmap_2 b_path) in Hb. destruct (Hd _ Hb). by apply Hk'.
    + destruct (decide (p = b_path (g_lead g))) as [->|Hne].
      * right; left. destruct Hh as (t & q & to & why & date & ? & ? & ? & ?). exists t, q, to, why, date. by rewrite E.
      * left. by rewrite E, Hsame.
  - assert (fs1 !! p = fs !! p) as E by by apply Hk.
    destruct Hs as [Hs|[(t & q & to & why & date & Ht & Hs)|Hs]].
    + left. by rewrite Hs, E.
    + right; left. exists t, q, to, why, date. by rewrite <- E.
    + by right; right.
Qed.

Lemma isolate_all pr gs w :
  Forall whole gs →
  (∀ b, b ∈ files_of gs → b_path b ∈ pins ∧ w_files w !! b_path b = Some (b_original b)) → NoDup (b_path <$> files_of gs) →
  wp (for_each (isolate run) pr gs) (λ _, True)
     (λ _ w', kept (b_path <$> files_of gs) (w_files w) (w_files w') ∧
              ∀ p, p ∈ pins → settled (w_files w) (w_files w') p) w.
Proof.
  revert pr w. induction gs as [|g gs IH]; intros pr w; cbn [for_each].
  { intros _ _ _. apply wp_ret. split; [done|]. intros p _. by left. }
  intros [Hw Hws]%Forall_cons Hb Hnd. change (files_of (g :: gs)) with (group_files g ++ files_of gs) in Hb, Hnd |- *. rewrite fmap_app in Hnd |- *.
  apply NoDup_app in Hnd as (Hnd1 & Hd & Hnd2).
  apply wp_bind. eapply wp_mono; [apply isolate_spec; [|done]|done|].
  { intros b Hin. apply Hb, elem_of_app. by left. }
  intros pr1 w1 Ho. eapply wp_mono; [apply IH; [done| |done]|done|].
  { intros b Hin. destruct (Hb b) as [? E]; [apply elem_of_app; by right|]. split; [done|]. rewrite <- E. apply Ho; [done|].
    intros Hx. apply (Hd _ Hx). by apply list_elem_of_fmap_2. }
  intros pr2 w2 [Hk Hs]. split.
  - intros p Hp. destruct (proj1 Ho p Hp) as [E1 I1], (Hk p Hp) as [E2 I2]. rewrite not_elem_of_app.
    split; [intros []; by rewrite E2, E1|by auto].
  - intros p Hp. eapply outcome_settled; [exact Hw|exact Ho|exact Hk| |done|by apply Hs].
    intros q Hq. split; [|by apply Hd]. apply list_elem_of_fmap in Hq as (b & -> & Hin). apply Hb, elem_of_app. by left.
Qed.

Lemma group_in_files g gs b : g ∈ gs → b ∈ group_files g → b ∈ files_of gs.
Proof. intros Hg Hb. apply list_elem_of_join. exists (group_files g). split; [done|]. by apply list_elem_of_fmap_2. Qed.

(** All together: every file recorded is accepted. *)
Lemma together_settled fs gs fs' :
  Forall whole gs → recorded fs (files_of gs) fs' → (∀ g, g ∈ gs → passed g) → ∀ p, p ∈ pins → settled fs fs' p.
Proof.
  intros Hw [Hb Ho] Hpass p Hp. destruct (decide (p ∈ b_path <$> files_of gs)) as [Hin|Hout]; [|left; by apply Ho].
  apply list_elem_of_fmap in Hin as (b & -> & Hin). apply list_elem_of_join in Hin as (l & Hin & Hl).
  apply list_elem_of_fmap in Hl as (g & -> & Hg). right; right. exists g. split; [by eapply Forall_in in Hw|]. split; [by apply list_elem_of_fmap_2|].
  split; [|by apply Hpass]. intros b' Hb'. apply Hb. by eapply group_in_files.
Qed.

Lemma settle_ok_all pr gs w : wp (for_each (λ pr g, settle pr g (Ok ())) pr gs) (λ _, True) (λ _ w', w' = w) w.
Proof.
  revert pr. induction gs as [|g gs IH]; intros pr; cbn [for_each]; [by apply wp_ret|].
  apply wp_bind. eapply wp_mono; [apply bumped_spec|done|]. intros pr1 w1 ->. apply IH.
Qed.

Lemma run_pins_settled entries pr w :
  present (w_files w) → Forall (λ e, e ∈ r_all run) entries → NoDup (covered entries) →
  wp (run_pins run entries pr) (λ _, True) (λ _ w', ∀ p, p ∈ pins → settled (w_files w) (w_files w') p) w.
Proof.
  intros Hpre Hes Hnd. apply wp_bind. eapply wp_mono; [by apply pins_loop|done|].
  intros [gs pr1] w1 (gs' & Eg & Hrec & Hsub & Hw). cbn in Eg. subst gs'.
  assert (NoDup (b_path <$> files_of gs)) as Hnd' by (eapply sublist_NoDup; [exact Hnd|exact Hsub]).
  assert (∀ b, b ∈ files_of gs → b_path b ∈ pins) as Hpins.
  { intros b Hb. eapply (covered_pins entries); [done|]. eapply elem_of_submseteq; [|by apply sublist_submseteq].
    by apply list_elem_of_fmap_2. }
  assert (∀ w', kept [] (w_files w1) (w_files w') → recorded (w_files w) (files_of gs) (w_files w')) as Hstay.
  { intros w' Hk. rewrite <- (app_nil_r (files_of gs)). eapply recorded_app; [by rewrite app_nil_r|by rewrite app_nil_r|exact Hrec|by apply kept_nil]. }
  case_bool_decide as Hlen.
  { apply wp_ret. destruct gs; [|done]. rewrite recorded_nil in Hrec. intros p Hp. left. by apply Hrec. }
  apply wp_bind. apply (wp_kept []); [sloop; intros; apply steps_group_gates|done|].
  intros all w2 [_ Hc]%all_gates_cover Hk2.
  apply wp_bind. apply (wp_kept []); [apply steps_run_gate|done|]. intros together w3 Hv Hk3.
  assert (recorded (w_files w) (files_of gs) (w_files w3)) as G3 by (apply Hstay; by etrans).
  destruct together as [[]|why]; cbn [is_ok orb].
  - eapply wp_mono; [apply settle_ok_all|done|]. intros _ w4 ->. eapply together_settled; [exact Hw|exact G3|].
    intros g Hg. eapply run_gate_passed; [exact Hv|by apply Hc|]. intros b Hb. pose proof (group_in_files _ _ _ Hg Hb) as Hin.
    split; [by apply Hpins|]. apply (Hstay w2 Hk2), Hin.
  - case_bool_decide as Hone.
    + destruct gs as [|g [|]]; [done| |done]. cbn [for_each]. unfold files_of in G3, Hpins, Hnd'. cbn in G3, Hpins, Hnd'.
      rewrite app_nil_r in G3, Hpins, Hnd'. apply wp_bind. cbn [settle].
      eapply wp_mono; [apply (hold_group_spec g why pr1 (w_files w)); [done|done|done|by exists all, w2, w3]|done|].
      intros pr2 w4 Ho. apply wp_ret. intros p Hp.
      eapply (outcome_settled g _ _ _ []); [by apply Forall_cons in Hw as [? _]|exact Ho|done| |done|by left].
      intros q Hq. split; [|apply not_elem_of_nil]. apply list_elem_of_fmap in Hq as (b & -> & Hb). by apply Hpins.
    + apply wp_bind. eapply wp_mono; [apply (put_back_all _ (w_files w) (files_of gs) _ (λ _, True)); [by right|done|exact G3]|done|].
      intros [] w4 G4. rewrite recorded_nil in G4. eapply wp_mono; [apply isolate_all; [done| |done]|done|].
      * intros b Hb. split; [by apply Hpins|]. rewrite G4 by by apply Hpins. by apply G3.
      * intros pr2 w5 [_ Hs] p Hp. destruct (Hs p Hp) as [Hs1|[(t & q & to & y & date & Ht & Hs1)|Hs1]].
        -- left. by rewrite Hs1, G4.
        -- right; left. exists t, q, to, y, date. by rewrite <- G4.
        -- by right; right.
Qed.

(** Entries that lead, with ids and files of their own, cover each file once. *)
Lemma covered_NoDup entries :
  NoDup (path <$> r_all run) → NoDup (id <$> entries) → (∀ e, e ∈ entries → e ∈ r_all run ∧ follows (pin e) = None) →
  NoDup (covered entries).
Proof.
  intros Hpaths Hids Hall.
  assert (∀ x y, x ∈ r_all run → y ∈ r_all run → path x = path y → x = y) as Hinj.
  { intros x y Hx Hy E. apply list_elem_of_lookup in Hx as [i Hi]. apply list_elem_of_lookup in Hy as [j Hj].
    assert (i = j) as ->; [|congruence].
    apply (NoDup_lookup (path <$> r_all run) i j (path y)); [done| |]; rewrite list_lookup_fmap; [rewrite Hi|rewrite Hj]; cbn; by rewrite ?E. }
  assert (∀ e p, e ∈ entries → p ∈ covered1 e → ∃ x, x ∈ r_all run ∧ p = path x ∧ (x = e ∨ follows (pin x) = Some (id e))) as Hcov.
  { intros e p He [->|(f & -> & Hf)%list_elem_of_fmap]%elem_of_cons; [exists e; split_and!; [by apply Hall|done|by left]|].
    apply list_elem_of_filter in Hf as [? ?]. exists f. auto. }
  induction entries as [|e es IH]; [constructor|]. cbn [fmap list_fmap] in Hids. apply NoDup_cons in Hids as [He Hids].
  rewrite covered_cons. apply NoDup_app. split; [|split].
  - unfold covered1. apply NoDup_cons. split.
    + intros (f & E & [Hf Hin]%list_elem_of_filter)%list_elem_of_fmap. destruct (Hall e) as [Hein Hnone]; [left|].
      apply Hinj in E; [|done|done]. subst f. by rewrite Hnone in Hf.
    + eapply sublist_NoDup; [exact Hpaths|]. apply fmap_sublist, sublist_filter.
  - intros p Hp1 Hp2. apply list_elem_of_join in Hp2 as (l & Hp2 & Hl). apply list_elem_of_fmap in Hl as (e' & -> & He').
    apply Hcov in Hp1 as (x & Hx & -> & Hxe); [|left]. apply Hcov in Hp2 as (y & Hy & E & Hye); [|by right].
    apply Hinj in E; [|done|done]. subst y.
    destruct (Hall e) as [_ Hne]; [left|]. destruct (Hall e') as [_ Hne']; [by right|].
    assert (id e ≠ id e') as Hid by (intros E; apply He; rewrite E; by apply list_elem_of_fmap_2).
    destruct Hxe as [->|Hxe], Hye as [->|Hye]; congruence.
  - apply IH; [done| |]; intros; [apply Hall|eapply Hcov]; try by right. done.
Qed.

End safe.

(** ** Held versions *)

Lemma split_list_mid c l1 l2 : split_list c (l1 ++ c :: l2) = split_list c l1 ++ split_list c l2.
Proof.
  induction l1 as [|a l1 IH]; cbn [app split_list].
  - by rewrite decide_True.
  - destruct (decide (a = c)); [by rewrite IH|]. rewrite IH.
    destruct (split_list c l1) eqn:E; [by apply split_list_ne in E|done].
Qed.
Lemma split_char_mid c s1 s2 : split_char c (s1 +:+ String c s2) = split_char c s1 ++ split_char c s2.
Proof. unfold split_char. by rewrite chars_app, chars_cons, split_list_mid, fmap_app. Qed.

Lemma parse_bounds_app l1 l2 c :
  parse_bounds (l1 ++ l2) = Ok c → ∃ c1 c2, parse_bounds l1 = Ok c1 ∧ parse_bounds l2 = Ok c2 ∧ c = c1 ++ c2.
Proof.
  revert c. induction l1 as [|a l1 IH]; intros c; cbn [app parse_bounds]; [by exists [], c|].
  destruct (parse_bound a); [|done]. destruct (parse_bounds (l1 ++ l2)) as [c'|] eqn:E; [|done]. intros [= <-].
  destruct (IH _ eq_refl) as (c1 & c2 & -> & -> & ->). by exists (a0 :: c1), c2.
Qed.

(** A version's text has neither commas nor spaces at its ends, and does not start like an operator. *)
Lemma parse_digits_chars acc l n : parse_digits acc l = Some n → Forall (λ c, is_digit c = true) l.
Proof.
  revert acc. induction l as [|a l IH]; intros acc; cbn [parse_digits]; [constructor|].
  destruct (is_digit a) eqn:E; [|done]. intros Hl. constructor; [done|by eapply IH].
Qed.
Definition version_char (c : ascii) : Prop := is_digit c = true ∨ c = "."%char ∨ c = "+"%char ∨ c = "v"%char.
Lemma parse_u64_chars s n : parse_u64 s = Some n → Forall version_char (chars s).
Proof.
  unfold parse_u64, parse_uint. set (ds := match chars s with "+"%char :: l => l | l => l end). intros Hs.
  assert (Forall version_char ds) as Hds.
  { destruct ds as [|d ds]; [done|]. destruct (parse_digits 0 (d :: ds)) eqn:E; [|done].
    apply parse_digits_chars in E. eapply Forall_impl; [exact E|]. by left. }
  destruct (chars s) as [|a l] eqn:E; [constructor|]. subst ds.
  destruct (decide (a = "+"%char)) as [->|Hne]; [constructor; [unfold version_char; auto|done]|].
  destruct a as [[] [] [] [] [] [] [] []]; first [exact Hds|congruence].
Qed.
Lemma mapM_pieces_chars ws v : mapM parse_u64 ws = Some v → Forall (λ w, Forall version_char (chars w)) ws.
Proof.
  rewrite mapM_Some. intros Hf. induction Hf; constructor; [by eapply parse_u64_chars|done].
Qed.
Lemma split_list_chars c (P : ascii → Prop) l : P c → Forall (Forall P) (split_list c l) → Forall P l.
Proof.
  intros Hc. induction l as [|a l IH]; cbn [split_list]; [constructor|].
  destruct (decide (a = c)) as [->|].
  - intros [_ Hl]%Forall_cons. constructor; auto.
  - destruct (split_list c l) as [|w ws]; [|].
    + intros [Ha _]%Forall_cons. apply Forall_cons in Ha as [? _]. constructor; [done|]. by apply IH.
    + intros [[? Hw]%Forall_cons Hws]%Forall_cons. constructor; [done|]. apply IH. by constructor.
Qed.
Lemma version_chars s v : Version.parse s = Some v → s ≠ "" ∧ Forall version_char (chars s).
Proof.
  intros Hp. split; [by intros ->|]. unfold Version.parse in Hp.
  assert (∀ t, mapM parse_u64 (split_char "." t) = Some v → Forall version_char (chars t)) as Hpieces.
  { intros t Ht%mapM_pieces_chars. apply (split_list_chars "."%char); [unfold version_char; auto|].
    unfold split_char in Ht. rewrite Forall_fmap in Ht. eapply Forall_impl; [exact Ht|]. intros w Hw. unfold compose in Hw. by rewrite chars_str in Hw. }
  case_bool_decide; [done|]. destruct (strip_prefix "v" s) as [t|] eqn:E; cbn in Hp; [|by apply Hpieces].
  apply strip_prefix_Some in E as ->. change ("v" +:+ t) with (String "v"%char t). cbn. constructor; [unfold version_char; auto|by apply Hpieces].
Qed.

Lemma drop_while_none (p : ascii → bool) l : Forall (λ c, p c = false) l → drop_while p l = l ∧ drop_while_end p l = l.
Proof.
  intros Hl. split; [destruct Hl; [done|by apply drop_while_head_id]|].
  destruct l as [|x l _] using rev_ind; [done|]. apply Forall_app in Hl as [_ Hx]. apply Forall_cons in Hx as [Hx _].
  by apply drop_while_end_snoc_id.
Qed.
Lemma trim_tight s : Forall (λ c, is_whitespace c = false) (chars s) → trim s = s.
Proof.
  intros Hs. apply drop_while_none in Hs as [E1 E2]. apply (inj chars). unfold trim, trim_matches, trim_end_matches, trim_start_matches.
  by rewrite !chars_str, E1, E2.
Qed.
Lemma version_char_tight c : version_char c → is_whitespace c = false ∧ c ≠ ","%char ∧ c ≠ "="%char.
Proof. intros [Hd|[->|[->| ->]]]; [|done..]. destruct c as [[] [] [] [] [] [] [] []]; done. Qed.

Lemma bound_trims s v : Version.parse s = Some v → trim (" <" +:+ s) = "<" +:+ s ∧ trim ("<" +:+ s) = "<" +:+ s.
Proof.
  intros [_ Hc]%version_chars.
  assert (trim ("<" +:+ s) = "<" +:+ s) as E.
  { apply trim_tight. rewrite chars_app. constructor; [done|]. eapply Forall_impl; [exact Hc|]. intros; by apply version_char_tight. }
  split; [|done]. rewrite <- E. reflexivity.
Qed.
Lemma bound_parses s v : Version.parse s = Some v → parse_bound ("<" +:+ s) = Ok (OpLt, v).
Proof.
  intros Hp. pose proof (version_chars s v Hp) as [Hne Hc].
  assert (trim s = s) as Hs by (apply trim_tight; eapply Forall_impl; [exact Hc|]; intros; by apply version_char_tight).
  unfold parse_bound. destruct s as [|a s]; [done|]. cbn in Hc. apply Forall_cons in Hc as [Ha _].
  assert (strip_prefix "<=" ("<" +:+ String a s) = None) as E1.
  { destruct (strip_prefix _ _) eqn:E; [|done]. apply strip_prefix_Some in E. injection E as -> _.
    by apply version_char_tight in Ha as (_ & _ & ?). }
  unfold operators. cbn [Version.find_map fst snd]. rewrite E1. cbn [fmap option_fmap option_map].
  change (strip_prefix ">=" ("<" +:+ String a s)) with (@None string). change (strip_prefix "==" ("<" +:+ String a s)) with (@None string).
  change (strip_prefix "<" ("<" +:+ String a s)) with (Some (String a s)).
  cbn [fmap option_fmap option_map from_option]. unfold Datatypes.id. by rewrite Hs, Hp.
Qed.

(** The constraint text that a refusal adds, read back. *)
Lemma refusal_read (old : option string) s v c :
  Version.parse s = Some v →
  parse_constraint (match old with Some o => o +:+ ", " +:+ ("<" +:+ s) | None => "<" +:+ s end) = Ok c → (OpLt, v) ∈ c.
Proof.
  intros Hv Hc. pose proof (bound_parses _ _ Hv) as Hb. pose proof (bound_trims _ _ Hv) as [E1 E2].
  pose proof (version_chars _ _ Hv) as [_ Hchars].
  assert (∀ pre, ","%char ∉ chars pre → split_char "," (pre +:+ s) = [pre +:+ s]) as Hsplit.
  { intros pre Hpre. unfold split_char. rewrite split_list_single; [cbn; by rewrite str_chars|].
    rewrite chars_app. intros [Hin|Hin]%elem_of_app; [done|].
    eapply Forall_in in Hchars; [|exact Hin]. by apply version_char_tight in Hchars as (_ & ? & _). }
  assert (∀ l, filter (λ p, p ≠ "") (l ++ ["<" +:+ s]) = filter (λ p, p ≠ "") l ++ ["<" +:+ s]) as Hfilter.
  { intros l. by rewrite filter_app. }
  assert (∀ l, parse_bounds (filter (λ p, p ≠ "") (l ++ ["<" +:+ s])) = Ok c → (OpLt, v) ∈ c) as Hgoal.
  { intros l. rewrite Hfilter. intros (c1 & c2 & _ & Hc2 & ->)%parse_bounds_app. cbn [parse_bounds] in Hc2. rewrite Hb in Hc2.
    injection Hc2 as <-. apply elem_of_app. right. left. }
  unfold parse_constraint in Hc. destruct old as [o|].
  - change (o +:+ ", " +:+ ("<" +:+ s)) with (o +:+ String "," (" <" +:+ s)) in Hc.
    rewrite split_char_mid, (Hsplit " <"), fmap_app in Hc by (refine (bool_decide_unpack _ _); vm_compute; exact I). cbn [fmap list_fmap] in Hc. rewrite E1 in Hc.
    by eapply Hgoal.
  - rewrite (Hsplit "<") in Hc by (refine (bool_decide_unpack _ _); vm_compute; exact I). cbn [fmap list_fmap] in Hc. rewrite E2 in Hc. by apply (Hgoal []).
Qed.

Section holds.
Context `{RegexLib}.

(** A held version is not offered again: once [hold] has refused a version, [pick] under the
    pin's new constraint chooses only older ones, until the constraint is overridden. *)
Theorem hold_keeps_below p to why date v c tags prefix pattern s :
  Version.parse (to_version to) = Some v → to_version to ≠ version p →
  pin_constraint (refused p to why date) false = Ok (Some c) →
  pick tags prefix pattern (version p) (Some c) = Some s →
  ∃ k, key s pattern = Some k ∧ version_lt k v.
Proof.
  intros Hv Hne Hc Hp. pose proof (pick_cases tags prefix pattern (version p) (Some c)) as Hk. rewrite Hp in Hk.
  destruct Hk as (cur & k & _ & (_ & Hk & _ & Hm) & _). exists k. split; [done|].
  unfold pin_constraint, refused in Hc. cbn [Pin.constraint] in Hc.
  rewrite bool_decide_eq_true_2, bool_decide_eq_false_2 in Hc by first [done|by eexists]. cbn [negb andb] in Hc.
  destruct (parse_constraint _) as [c'|] eqn:Ec; [|done]. injection Hc as ->. apply refusal_read with (v := v) in Ec; [|done].
  unfold matches in Hm. rewrite forallb_forall in Hm. specialize (Hm (OpLt, v)). cbn in Hm.
  apply version_ltb_iff, Hm. by apply list_elem_of_In.
Qed.
End holds.

(** ** A run *)

(** The branch has moved, the pin is used under nixidy/, and every command succeeds. *)
Definition test_machine (gate_ok : bool) : Outside := {|
  command _ fs _ args :=
    (fs, Some (if bool_decide ("git" ∈ args) then mkOutput true "nixidy/apps/tool.nix" ""
               else if bool_decide ("build" ∈ args) then mkOutput gate_ok "" "error: no such attribute"
               else if bool_decide ("date" ∈ args) then mkOutput true "2026-01-31" ""
               else mkOutput true "sha256-new" ""));
  http _ _ _ := HttpOk (mkResponse [] "commit");
  stored _ _ := Whole;
  parse_json _ := Some (Json.Object [("sha", Json.Str "bbb")]);
|}.
Definition tool_pin (v h : string) (held : option string) : Pin :=
  mkPin v (Some h) None ∅ (GitCommit "o" "tool" "main") None held None.
(** A pin file reduced to what changes in it. *)
Definition short_text : PinText := {|
  pin_of_json s := '(v, h) ← split_once " " s; Some (tool_pin v h None);
  pin_to_json p := version p +:+ " " +:+ default "" (hash p) +:+ match hold p with Some r => " hold: " +:+ r | None => "" end;
|}.
Definition tool : Entry := mkEntry "tool" "tool" Src "/r/pkgs/tool/pin.json" (tool_pin "aaa" "sha256-old" None).
Definition test_run : Run := mkRun "/r" [tool] (mkCtx "/r" "x86_64-linux" (mkGitHub None)) (mkGates "x86_64-linux" None) false false.
Definition before_bump : World := mkWorld {["/r/pkgs/tool/pin.json" := "aaa sha256-old"]} 0.
Definition no_yaml : YamlLib := λ _, None.
Definition no_chart : YamlText := λ _, None.
Definition bump_tool (gate_ok : bool) : World * Result Progress (list string) :=
  run_pins (H := test_machine gate_ok) (H0 := short_text) (H1 := no_regex) (H2 := no_yaml) (H3 := no_chart)
    test_run [tool] (mkProgress [] 0) before_bump.

Example bumps_and_holds :
  w_files (bump_tool true).1 !! "/r/pkgs/tool/pin.json" = Some "bbb sha256-new" ∧
  w_files (bump_tool false).1 !! "/r/pkgs/tool/pin.json"
  = Some "aaa sha256-old hold: bbb fails nixidy render: error: no such attribute (2026-01-31)".
Proof. vm_compute. done. Qed.

Definition after_bump : Progress := mkProgress ["- `tool`: aaa → bbb"] 0.

(** Version 1.98.0 is refused: of the tags only 1.97.2 is offered after that. *)
Definition refused_pin : Pin := refused (pin tailscale) (mkUpdate "1.98.0" None) "fails host eval: boom" "2026-01-31".
Definition refused_constraint : Constraint :=
  match pin_constraint refused_pin false with Ok (Some c) => c | _ => [] end.
Lemma hold_keeps_below_witness :
  Pin.constraint refused_pin = Some "<1.98.0" ∧
  ∃ k, key (H := no_regex) "1.97.2" None = Some k ∧ version_lt k [1; 98; 0]%N.
Proof.
  split; [reflexivity|].
  apply (hold_keeps_below (H := no_regex) (pin tailscale) (mkUpdate "1.98.0" None) "fails host eval: boom" "2026-01-31"
    [1; 98; 0]%N refused_constraint release_list "v" None).
  - vm_compute. reflexivity.
  - discriminate.
  - vm_compute. reflexivity.
  - vm_compute. reflexivity.
Defined.
