(* ===== verification/Ecosystems.v ===== *)
(** * Lockfiles and the command line (tools/update: [eco.rs], [main.rs])

    What the command line selects, and the update of one ecosystem's lockfiles: run its tool, keep
    what changed if its gates pass, and put every file back otherwise. Parsing Cargo manifests
    (toml_edit) and with it the one-by-one major upgrade of crates are not modelled. *)

From Stdlib Require Import Ascii.
From stdpp Require Import options.
From S2P Require Import Prelude Text Json State Host Damage Remote Pin Resolve Gate Bump.

Inductive Eco : Type := EFlake | EDevenv | ECargo | EUv | EBun.
#[export] Instance Eco_eq_dec : EqDecision Eco.
Proof. solve_decision. Defined.
Definition eco_all : list Eco := [EFlake; EDevenv; ECargo; EUv; EBun].
Definition eco_name (e : Eco) : string :=
  match e with EFlake => "flake" | EDevenv => "devenv" | ECargo => "cargo" | EUv => "uv" | EBun => "bun" end.
Definition eco_parse (s : string) : option Eco := List.find (λ e, bool_decide (eco_name e = s)) eco_all.
Definition eco_gates (e : Eco) : gset Gate :=
  match e with
  | EFlake => {[Hosts; Nixidy]} | EDevenv => {[Devenv]} | ECargo => {[Cargo]} | EUv => {[Uv]} | EBun => {[Bun]}
  end.
(** The order [derive(Ord)] gives the variants. *)
Definition eco_index (e : Eco) : N := match e with EFlake => 0 | EDevenv => 1 | ECargo => 2 | EUv => 3 | EBun => 4 end.

(** ** The plan *)

Record Filter : Type := mkFilter { only : list string; pkg : list string }.
Record Plan : Type := mkPlan { kinds : list Kind; ecos : list Eco; plan_pins : list string; eco_pkgs : list (Eco * list string) }.

Inductive PlanError : Type :=
  | UnknownKind (o : string) | BadPkg (p : string) | NoPin (p : string) | UnknownLead (p lead : string).

Definition only_step (acc : list Kind * list Eco) (o : string) : Result (list Kind * list Eco) PlanError :=
  match kind_parse o, eco_parse o with
  | Some k, _ => Ok (acc.1 ++ [k], acc.2)
  | _, Some e => Ok (acc.1, acc.2 ++ [e])
  | _, _ => Err (UnknownKind o)
  end.
(** [entry(e).or_default().push(name)] *)
Fixpoint push_pkg (e : Eco) (n : string) (m : list (Eco * list string)) : list (Eco * list string) :=
  match m with
  | [] => [(e, [n])]
  | (e', ns) :: m' => if decide (e = e') then (e', ns ++ [n]) :: m' else (e', ns) :: push_pkg e n m'
  end.
Definition pkg_step (acc : list string * list (Eco * list string)) (p : string) : Result (list string * list (Eco * list string)) PlanError :=
  match split_once ":" p with
  | Some (e, n) =>
      match eco_parse e with
      | Some e => if bool_decide (e = EDevenv) then Err (BadPkg p) else Ok (acc.1, push_pkg e n acc.2)
      | None => Err (BadPkg p)
      end
  | None => Ok (acc.1 ++ [p], acc.2)
  end.
Fixpoint fold_result {A B E} (f : B → A → Result B E) (b : B) (l : list A) : Result B E :=
  match l with [] => Ok b | a :: l' => let? b := f b a in fold_result f b l' end.
(** [dedup] on a sorted list *)
Fixpoint dedup (l : list Eco) : list Eco :=
  match l with
  | a :: (b :: _) as l' => if decide (a = b) then dedup l' else a :: dedup l'
  | _ => l
  end.
Definition all_kinds : list Kind := [Src; Chart; Image].

Definition plan (f : Filter) (all_by_default : bool) : Result Plan PlanError :=
  let? (ks, es) := fold_result only_step ([], []) (only f) in
  let? (ps, pk) := fold_result pkg_step ([], []) (pkg f) in
  let explicit := negb (bool_decide (only f = [])) || negb (bool_decide (pkg f = [])) in
  let '(ks, es) := if negb explicit then (all_kinds, if all_by_default then eco_all else es) else (ks, es) in
  let ks := if negb (bool_decide (ps = [])) && bool_decide (ks = []) then all_kinds else ks in
  Ok (mkPlan ks (dedup (sort_by_key eco_index (es ++ pk.*1))) ps pk).

(** ** Which pins *)

Definition known (all : list Entry) (i : string) : bool := existsb (λ e, bool_decide (id e = i)) all.
(** A follower moves only with its lead. *)
Definition lead_of (all : list Entry) (p : string) : Result string PlanError :=
  match List.find (λ e, bool_decide (id e = p)) all with
  | None => Err (NoPin p)
  | Some e =>
      match follows (pin e) with
      | Some lead => if known all lead then Ok lead else Err (UnknownLead p lead)
      | None => Ok p
      end
  end.
Definition check_lead (all : list Entry) (_ : ()) (e : Entry) : Result () PlanError :=
  match follows (pin e) with
  | Some lead => if known all lead then Ok () else Err (UnknownLead (id e) lead)
  | None => Ok ()
  end.
Definition entries_of (all : list Entry) (ks : list Kind) (ps : list string) : list Entry :=
  filter (λ e, follows (pin e) = None ∧ kind e ∈ ks ∧ (ps = [] ∨ id e ∈ ps)) all.
Definition select (all : list Entry) (p : Plan) : Result (list Entry) PlanError :=
  let? ps := fold_result (λ acc i, let? l := lead_of all i in Ok (acc ++ [l])) [] (plan_pins p) in
  let? _ := fold_result (check_lead all) () all in
  Ok (entries_of all (kinds p) ps).

(** ** Running the tools *)

Definition CARGO_DIRS : list string := ["embedded"; "embedded/boards/arduino-uno-r3"; "org-bridge"; "tools/update"].
Definition DEVENV_DIRS : list string := ["."; "embedded"; "org-bridge"; "apps/sveltekit-demo"].
Definition BUN_DIR : string := "apps/sveltekit-demo".
Definition UV_DIR : string := "pulumi".

(** [fs::read_dir] and the manifests below it. *)
Definition child_manifest (dir file : string) : option string :=
  rest ← strip_prefix (dir +:+ "/") file;
  '(n, base) ← split_once "/" rest;
  if bool_decide (base = "Cargo.toml") && negb (bool_decide (n = "arduino-uno-r3")) then Some file else None.

(** Dependencies marked [# hold: <name> ...] in a manifest. *)
Definition held_name (l : string) : option string :=
  r ← strip_prefix "# hold:" (trim l);
  let w := str (take_while (λ c, negb (is_whitespace c)) (drop_while is_whitespace (chars r))) in
  if bool_decide (w = "") then None else Some w.
Definition held (text : string) : list string := omap held_name (lines text).

(** Insert [# hold: <name> <reason>] above the first [<name> =] line. *)
Definition trim_start (s : string) : string := trim_start_matches is_whitespace s.
Definition add_hold_line (nm reason : string) (acc : string * bool) (line : string) : string * bool :=
  let '(out, added) := acc in
  let t := trim_start line in
  let hit := negb added && (starts_with (nm +:+ " ") t || starts_with (nm +:+ "=") t || starts_with (nm +:+ ".") t) in
  let nl := str [newline] in
  let indent := str (take (String.length line - String.length t) (chars line)) in
  (out +:+ (if hit then indent +:+ "# hold: " +:+ nm +:+ " " +:+ reason +:+ nl else "") +:+ line +:+ nl, added || hit).
Definition add_hold (text nm reason : string) : string :=
  (fold_left (add_hold_line nm reason) (lines text) ("", false)).1.

Example holds_roundtrip :
  let t := join (str [newline]) ["[dependencies]"; "# hold: embassy-time 0.5 breaks"; "embassy-time = 0.4"; "libc = 0.2"; ""] in
  held t = ["embassy-time"] ∧ held (add_hold t "libc" "0.3 fails cargo check") = ["embassy-time"; "libc"].
Proof. vm_compute. done. Qed.

Section eco.
Context `{Outside}.

Definition eco_run (root dir : string) (args : list string) : M string :=
  o ← with_context ("running " +:+ join " " args +:+ " in " +:+ dir) (output (at_root root dir) args);
  if o_success o then mret (o_stdout o)
  else throw ["`" +:+ join " " args +:+ "` in " +:+ dir +:+ " failed:" +:+ tail_lines 15 (o_stderr o)].

Definition flake_inputs (root : string) : M (list string) :=
  text ← read_to_string (at_root root "flake.lock");
  lock ← lift (match parse_json text with Some v => Ok v | None => Err ["invalid JSON"] end);
  let root_node := default "root" (as_str (index "root" lock)) in
  mret match index "inputs" (index root_node (index "nodes" lock)) with Object o => o.*1 | _ => [] end.
Definition flake (root : string) (inputs : list string) : M () :=
  drop_ (eco_run root "." (["nix"; "--extra-experimental-features"; "nix-command flakes"; "flake"; "update"] ++ inputs)).
Definition flake_all (root : string) : M () := inputs ← flake_inputs root; flake root inputs.

Definition devenv_dir (root : string) (_ : ()) (d : string) : M () :=
  there ← is_file (at_root root d +:+ "/devenv.lock");
  if (there : bool) then drop_ (eco_run root d ["devenv"; "update"]) else mret ().
Definition devenv (root : string) : M () := for_each (devenv_dir root) () DEVENV_DIRS.

Definition cargo_dirs (root : string) : M (list string) :=
  gets (λ w, filter (λ d, is_Some (w_files w !! (at_root root d +:+ "/Cargo.lock"))) CARGO_DIRS).
Definition cargo_dir (root : string) (packages : list string) (_ : ()) (d : string) : M () :=
  r ← try (eco_run root d (["cargo"; "update"] ++ (packages ≫= λ p, ["-p"; p])));
  match r with
  | Ok _ => mret ()
  | Err e => if negb (bool_decide (packages = [])) && contains "did not match any packages" (message e) then mret () else throw e
  end.
Definition cargo (root : string) (packages : list string) : M () :=
  ds ← cargo_dirs root; for_each (cargo_dir root packages) () ds.
Definition uv (root : string) (packages : list string) : M () :=
  drop_ (eco_run root UV_DIR (["uv"; "lock"] ++ (if bool_decide (packages = []) then ["--upgrade"] else [])
                              ++ (packages ≫= λ p, ["--upgrade-package"; p]))).
Definition bun (root : string) (packages : list string) (major : bool) : M () :=
  _ ← eco_run root BUN_DIR (["bun"; "update"] ++ (if major then ["--latest"] else []) ++ packages);
  drop_ (eco_run root BUN_DIR ["bun2nix"; "-o"; "bun.nix"]).

(** Manifests that belong to a cargo dir's lockfile. *)
Definition manifests (root dir : string) : M (list string) :=
  gets (λ w, (at_root root dir +:+ "/Cargo.toml") ::
    (["boards"; "shared"; "apps"] ≫= λ sub,
       omap (λ f, child_manifest (at_root root dir +:+ "/" +:+ sub) f.1) (map_to_list (w_files w)))).

Definition cargo_files (root : string) (acc : list string) (d : string) : M (list string) :=
  ms ← manifests root d; mret (acc ++ ms ++ [at_root root d +:+ "/Cargo.lock"]).
(** Files an ecosystem may rewrite. *)
Definition eco_files (root : string) (e : Eco) : M (list string) :=
  match e with
  | EFlake => mret [at_root root "flake.lock"]
  | EDevenv => mret ((λ d, at_root root d +:+ "/devenv.lock") <$> DEVENV_DIRS)
  | ECargo => ds ← cargo_dirs root; for_each (cargo_files root) [] ds
  | EUv => mret [at_root root "pulumi/uv.lock"; at_root root "pulumi/pyproject.toml"]
  | EBun => mret ((λ f, at_root root BUN_DIR +:+ "/" +:+ f) <$> ["bun.lock"; "bun.nix"; "package.json"])
  end.

Notation Snapshot := (list (string * option string)).
Definition snapshot_of (l : list string) : M Snapshot := gets (λ w, (λ f, (f, w_files w !! f)) <$> l).
Definition restore_one (_ : ()) (fc : string * option string) : M () :=
  match fc.2 with
  | Some c => write fc.1 c
  | None => there ← is_file fc.1; if (there : bool) then remove_file fc.1 else mret ()
  end.
Definition restore_snapshot (snap : Snapshot) : M () := for_each restore_one () snap.

Definition relative (root f : string) : string := default f (strip_prefix (root +:+ "/") f).
Definition changed_files (root : string) (snap : Snapshot) : M (list string) :=
  gets (λ w, (λ fc, relative root fc.1) <$> filter (λ fc, w_files w !! fc.1 ≠ fc.2) snap).

(** The ecosystem's tool, apart from major upgrades of crates. *)
Definition eco_tool (root : string) (major : bool) (e : Eco) (pkgs : list string) : M () :=
  match e with
  | EFlake => if bool_decide (pkgs = []) then flake_all root else flake root pkgs
  | EDevenv => devenv root
  | ECargo => cargo root pkgs
  | EUv => uv root pkgs
  | EBun => bun root pkgs major
  end.

Definition run_eco (run : Run) (e : Eco) (pkgs : list string) (pr : Progress) : M Progress :=
  let root := r_root run in
  files ← eco_files root e;
  snap ← snapshot_of files;
  res ← try (eco_tool root (r_major run) e pkgs);
  match res with
  | Err err =>
      _ ← restore_snapshot snap;
      mret (fail_note ("- " +:+ eco_name e +:+ ": update failed: " +:+ alternate err) pr)
  | Ok _ =>
      changed ← changed_files root snap;
      if bool_decide (changed = []) then mret pr
      else
        verdict ← run_gate run (eco_gates e);
        match verdict with
        | Ok _ => mret (note ("- " +:+ eco_name e +:+ ": updated " +:+ join ", " changed) pr)
        | Err why =>
            _ ← restore_snapshot snap;
            mret (fail_note ("- " +:+ eco_name e +:+ ": reverted, " +:+ why) pr)
        end
  end.
End eco.

(** ** An ecosystem is updated or put back *)

Section eco_safe.
#[local] Set Default Proof Using "Type*".
Context `{Outside} (run : Run).

Definition as_before (files : list string) (w w' : World) : Prop :=
  ∀ f, f ∈ files → w_files w' !! f = w_files w !! f.

Lemma eco_files_spec root e w : ∃ files, eco_files root e w = (w, Ok files).
Proof.
  destruct e; cbn [eco_files]; try by eexists.
  unfold cargo_dirs, mbind, SE_bind, gets. generalize (@nil string).
  induction (filter _ CARGO_DIRS) as [|d ds IH]; intros acc; cbn [for_each]; [by eexists|].
  apply IH.
Qed.

Context (Hdisk : ∀ n p, stored n p = Whole).

Lemma restore_one_spec f c w E : wp (restore_one () (f, c)) E (λ _ w', w_files w' = partial_alter (λ _, c) f (w_files w)) w.
Proof.
  unfold restore_one. cbn [fst snd]. destruct c as [c|].
  - unfold wp, write. by rewrite Hdisk.
  - apply wp_bind, wp_gets. case_bool_decide as Hs.
    + unfold wp, remove_file. destruct Hs as [c Hc]. by rewrite Hc, Hdisk.
    + apply wp_ret. symmetry. change (delete f (w_files w) = w_files w). apply delete_id. by apply eq_None_not_Some.
Qed.
Lemma restore_snapshot_spec files (fs : gmap string string) w E :
  wp (restore_snapshot ((λ f, (f, fs !! f)) <$> files)) E (λ _ w', ∀ f, f ∈ files → w_files w' !! f = fs !! f) w.
Proof.
  unfold restore_snapshot. apply (wp_mono _ E _ (λ _ w', ∀ f, f ∈ files → w_files w' !! f = fs !! f)); [|done|done].
  assert (∀ rest seen w, (∀ f, f ∈ seen → w_files w !! f = fs !! f) →
    wp (for_each restore_one () ((λ f, (f, fs !! f)) <$> rest)) E (λ _ w', ∀ f, f ∈ seen ++ rest → w_files w' !! f = fs !! f) w) as Hgen.
  2: { apply (Hgen files [] w). by intros f ?%elem_of_nil. }
  induction rest as [|f rest IH]; intros seen w1 Hseen; cbn [fmap list_fmap for_each].
  { apply wp_ret. by rewrite app_nil_r. }
  apply wp_bind. eapply wp_mono; [apply restore_one_spec|done|]. intros [] w2 E2.
  rewrite (cons_middle f), app_assoc. apply IH. intros g Hg. rewrite E2.
  destruct (decide (f = g)) as [<-|Hne]; [by rewrite lookup_partial_alter_eq|].
  rewrite lookup_partial_alter_ne by done. apply elem_of_app in Hg as [Hg|Hg%list_elem_of_singleton]; [by apply Hseen|congruence].
Qed.

(** When the update of an ecosystem ends, either all of its files are as they were (its tool or a
    gate failed, which is counted, or nothing moved) or its gates have just passed on what it changed. *)
Theorem eco_restores e pkgs pr w w' pr' :
  run_eco run e pkgs pr w = (w', Ok pr') →
  ∃ files, eco_files (r_root run) e w = (w, Ok files) ∧
    (as_before files w w' ∧ (pr' = pr ∨ failed pr' = failed pr + 1)%N ∨
     failed pr' = failed pr ∧ ∃ w1, run_gate run (eco_gates e) w1 = (w', Ok (Ok ()))).
Proof.
  intros Hrun. destruct (eco_files_spec (r_root run) e w) as [files Ef]. exists files. split; [done|].
  refine (wp_Ok _ (λ _, True) (λ pr' w', as_before files w w' ∧ (pr' = pr ∨ failed pr' = failed pr + 1)%N ∨
     failed pr' = failed pr ∧ ∃ w1, run_gate run (eco_gates e) w1 = (w', Ok (Ok ()))) _ _ _ _ Hrun).
  unfold run_eco. apply wp_bind. unfold wp at 1. rewrite Ef. apply wp_bind, wp_gets.
  assert (∀ line w1, wp (_ ← restore_snapshot ((λ f, (f, w_files w !! f)) <$> files); mret (fail_note line pr)) (λ _, True)
    (λ pr' w', as_before files w w' ∧ (pr' = pr ∨ failed pr' = failed pr + 1)%N ∨
       failed pr' = failed pr ∧ ∃ w1, run_gate run (eco_gates e) w1 = (w', Ok (Ok ()))) w1) as Hput.
  { intros line w1. apply wp_bind. eapply wp_mono; [apply (restore_snapshot_spec _ _ _ (λ _, True))|done|].
    intros [] w2 G2. apply wp_ret. left. split; [exact G2|by right]. }
  apply wp_bind, wp_quiet, wp_try. apply wp_intro; [intros w1 err _ err'; apply Hput|]. intros w1 [] _.
  apply wp_bind, wp_gets. case_bool_decide as Hch.
  { apply wp_ret. left. split; [|by left]. intros f Hf. apply fmap_nil_inv in Hch.
    destruct (decide (w_files w1 !! f = w_files w !! f)) as [|Hne]; [done|]. exfalso.
    assert ((f, w_files w !! f) ∈ (λ f, (f, w_files w !! f)) <$> files) as Hin by (apply list_elem_of_fmap; by exists f).
    apply (not_elem_of_nil (f, w_files w !! f)). rewrite <- Hch. apply list_elem_of_filter. split; [exact Hne|exact Hin]. }
  apply wp_bind. apply wp_intro; [done|]. intros w2 verdict Hv. destruct verdict as [[]|why]; [|apply Hput].
  apply wp_ret. right. split; [done|]. by exists w1.
Qed.
End eco_safe.

(** ** What the command line selects *)

Lemma select_leads_fold all l acc ps :
  fold_result (λ acc i, let? l := lead_of all i in Ok (acc ++ [l])) acc l = Ok ps →
  ∃ ls, ps = acc ++ ls ∧ Forall2 (λ i l, lead_of all i = Ok l) l ls.
Proof.
  revert acc. induction l as [|i l IH]; intros acc; cbn [fold_result]; [intros [= <-]; exists []; by rewrite app_nil_r|].
  destruct (lead_of all i) as [lead|] eqn:E; [|done]. intros Hf. apply IH in Hf as (ls & -> & Hls).
  exists (lead :: ls). rewrite <- app_assoc. split; [done|by constructor].
Qed.

(** The pins a run bumps are leads of the kinds asked for, and naming pins selects exactly their
    leads among those: a follower is never bumped by itself. *)
Theorem select_spec all p es :
  select all p = Ok es →
  ∀ e, e ∈ es ↔ e ∈ all ∧ follows (pin e) = None ∧ kind e ∈ kinds p ∧
    (plan_pins p = [] ∨ ∃ i, i ∈ plan_pins p ∧ lead_of all i = Ok (id e)).
Proof.
  unfold select. destruct (fold_result _ [] (plan_pins p)) as [ps|] eqn:Eps; [|done].
  destruct (fold_result (check_lead all) () all); [|done]. intros [= <-] e.
  apply select_leads_fold in Eps as (ls & -> & Hls). cbn [app]. unfold entries_of. rewrite list_elem_of_filter.
  assert (ls = [] ↔ plan_pins p = []) as Hnil.
  { split; intros E; [subst ls; by apply Forall2_nil_inv_r in Hls|rewrite E in Hls; by apply Forall2_nil_inv_l in Hls]. }
  assert (id e ∈ ls ↔ ∃ i, i ∈ plan_pins p ∧ lead_of all i = Ok (id e)) as Hin.
  { split.
    - intros (k & Hk)%list_elem_of_lookup. destruct (Forall2_lookup_r _ _ _ _ _ Hls Hk) as (i & Hi & E).
      exists i. split; [by eapply list_elem_of_lookup_2|done].
    - intros (i & (k & Hk)%list_elem_of_lookup & E). destruct (Forall2_lookup_l _ _ _ _ _ Hls Hk) as (l & Hl & E').
      rewrite E in E'. injection E' as ->. by eapply list_elem_of_lookup_2. }
  rewrite Hnil, Hin. tauto.
Qed.

(** ** Runs *)

(** A machine whose uv rewrites its lockfile and whose gate says [gate_ok]. *)
Definition uv_machine (gate_ok : bool) : Outside := {|
  command _ fs _ args :=
    if bool_decide ("--upgrade" ∈ args) then (<["/r/pulumi/uv.lock" := "new"]> fs, Some (mkOutput true "" ""))
    else (fs, Some (mkOutput gate_ok "" "resolution failed"));
  http _ _ _ := HttpTransport "offline";
  stored _ _ := Whole;
  parse_json _ := None;
|}.
Definition uv_before : World := mkWorld {["/r/pulumi/uv.lock" := "old"]} 0.
Definition uv_update (gate_ok : bool) : World * Result Progress (list string) :=
  run_eco (H := uv_machine gate_ok) test_run EUv [] (mkProgress [] 0) uv_before.

Example uv_kept_or_reverted :
  w_files (uv_update true).1 !! "/r/pulumi/uv.lock" = Some "new" ∧
  w_files (uv_update false).1 !! "/r/pulumi/uv.lock" = Some "old".
Proof. vm_compute. done. Qed.

Definition uv_reverted : Progress :=
  mkProgress ["- uv: reverted, fails uv sync/ruff: `uv sync --locked` in pulumi failed:resolution failed"] 1.
Lemma eco_restores_witness :
  ∃ files, eco_files "/r" EUv uv_before = (uv_before, Ok files) ∧
    (as_before files uv_before (uv_update false).1 ∧ (uv_reverted = mkProgress [] 0 ∨ failed uv_reverted = failed (mkProgress [] 0) + 1)%N ∨
     failed uv_reverted = failed (mkProgress [] 0) ∧
     ∃ w1, run_gate (H := uv_machine false) test_run (eco_gates EUv) w1 = ((uv_update false).1, Ok (Ok ()))).
Proof.
  apply (eco_restores (H := uv_machine false) test_run (λ n p, eq_refl) EUv [] (mkProgress [] 0) uv_before).
  vm_compute. reflexivity.
Defined.

Definition follower (i : string) (lead : option string) : Entry :=
  mkEntry i i Src (i +:+ "/pin.json") (mkPin "1" (Some "h") None ∅ (GitCommit "o" "r" "main") None None lead).
Definition operator_pins : list Entry := [follower "op" None; follower "op-crds" (Some "op"); follower "tool" None].
Lemma select_spec_witness :
  follower "op" None ∈ [follower "op" None] ↔
  follower "op" None ∈ operator_pins ∧ follows (pin (follower "op" None)) = None ∧ kind (follower "op" None) ∈ all_kinds ∧
  (["op-crds"] = [] ∨ ∃ i, i ∈ ["op-crds"] ∧ lead_of operator_pins i = Ok "op").
Proof.
  apply (select_spec operator_pins (mkPlan all_kinds [] ["op-crds"] [])). vm_compute. reflexivity.
Defined.

(** A follower of a follower: the command line accepts it, but no run ever covers it. *)
Definition chain : list Entry := [follower "a" (Some "b"); follower "b" (Some "c"); follower "c" None].
Lemma chained_follower_never_moves :
  select chain (mkPlan all_kinds [] [] []) = Ok [follower "c" None] ∧ followers chain "c" = [follower "b" (Some "c")] ∧
  select chain (mkPlan all_kinds [] ["a"] []) = Ok [].
Proof. vm_compute. done. Qed.
