(* ===== verification/Calendar.v ===== *)
(** * Dates and times ([apps/e2e/src/ctx.rs], [apps/letterboxd-sync/src/lib.rs])

    Days since 1970-01-01 to a civil date and back, and the timestamps built from them. [i64] is [Z]:
    the day counts come from dividing seconds by 86400, so nothing overflows. [div_euclid] and
    [rem_euclid] by a positive number are [Z.div] and [Z.modulo]; [/] and [%] are [Z.quot] and
    [Z.rem].

    A four-hundred-year era has 146097 days and starts on 1 March, so a leap day ends a year. The
    proofs split a day into its era, the year of the era (400 cases) and the day of that year (366
    cases), and check the two tables by computation. *)

From Stdlib Require Import Ascii ZArith.
From stdpp Require Import options.
From S2P Require Import Prelude Text.
Local Open Scope Z_scope.

Infix "/ᵗ" := Z.quot (at level 40, left associativity) : Z_scope.
Infix "%ᵗ" := Z.rem (at level 40, left associativity) : Z_scope.

(** ** [ctx.rs]: the two directions *)

Definition civil (z : Z) : Z * Z * Z :=
  let z := z + 719468 in
  let era := z / 146097 in
  let doe := z - era * 146097 in
  let yoe := (doe - doe /ᵗ 1460 + doe /ᵗ 36524 - doe /ᵗ 146096) /ᵗ 365 in
  let doy := doe - (365 * yoe + yoe /ᵗ 4 - yoe /ᵗ 100) in
  let mp := (5 * doy + 2) /ᵗ 153 in
  let d := doy - (153 * mp + 2) /ᵗ 5 + 1 in
  let m := if mp <? 10 then mp + 3 else mp - 9 in
  (yoe + era * 400 + (if m <=? 2 then 1 else 0), m, d).

Definition days_from_civil (y m d : Z) : Z :=
  let y := if m <=? 2 then y - 1 else y in
  let era := y / 400 in
  let yoe := y - era * 400 in
  let doy := (153 * (if 2 <? m then m - 3 else m + 9) + 2) /ᵗ 5 + d - 1 in
  let doe := yoe * 365 + yoe /ᵗ 4 - yoe /ᵗ 100 + doy in
  era * 146097 + doe - 719468.

(** ** Printing *)

(** [{z:0w$}]: zeros up to the width, after the sign. *)
Definition padded (w : nat) (z : Z) : string :=
  let digits := pretty (Z.abs_N z) in
  let sign := if z <? 0 then "-" else "" in
  sign +:+ str (replicate (w - String.length sign - String.length digits) "0"%char) +:+ digits.

(** [rfc3339] of ctx.rs *)
Definition rfc3339 (unix : Z) : string :=
  let '(y, m, d) := civil (unix / 86400) in
  let t := unix mod 86400 in
  padded 4 y +:+ "-" +:+ padded 2 m +:+ "-" +:+ padded 2 d +:+ "T" +:+ padded 2 (t /ᵗ 3600) +:+ ":" +:+
  padded 2 (t %ᵗ 3600 /ᵗ 60) +:+ ":" +:+ padded 2 (t %ᵗ 60) +:+ "Z".

(** letterboxd-sync's [rfc3339_now], at a time of the clock: seconds and milliseconds. *)
Definition rfc3339_now (secs ms : Z) : string :=
  let days := secs / 86400 in
  let rem := secs mod 86400 in
  let z := days + 719468 in
  let era := z / 146097 in
  let doe := z mod 146097 in
  let yoe := (doe - doe /ᵗ 1460 + doe /ᵗ 36524 - doe /ᵗ 146096) /ᵗ 365 in
  let doy := doe - (365 * yoe + yoe /ᵗ 4 - yoe /ᵗ 100) in
  let mp := (5 * doy + 2) /ᵗ 153 in
  let day := doy - (153 * mp + 2) /ᵗ 5 + 1 in
  let month := if mp <? 10 then mp + 3 else mp - 9 in
  let year := yoe + era * 400 + (if month <=? 2 then 1 else 0) in
  padded 4 year +:+ "-" +:+ padded 2 month +:+ "-" +:+ padded 2 day +:+ "T" +:+ padded 2 (rem /ᵗ 3600) +:+ ":" +:+
  padded 2 (rem %ᵗ 3600 /ᵗ 60) +:+ ":" +:+ padded 2 (rem %ᵗ 60) +:+ "." +:+ padded 3 ms +:+ "Z".

Example known_times :
  rfc3339 0 = "1970-01-01T00:00:00Z" ∧ rfc3339 (20737 * 86400 + 3661) = "2026-10-11T01:01:01Z" ∧
  rfc3339_now 951782400 7 = "2000-02-29T00:00:00.007Z" ∧ padded 4 (-7) = "-007".
Proof. vm_compute. done. Qed.

(** ** The Gregorian calendar *)

Definition leap (y : Z) : bool := ((y mod 4 =? 0) && negb (y mod 100 =? 0)) || (y mod 400 =? 0).
Definition days_in_month (y m : Z) : Z :=
  if m =? 2 then (if leap y then 29 else 28)
  else if (m =? 4) || (m =? 6) || (m =? 9) || (m =? 11) then 30 else 31.
Definition valid_date (y m d : Z) : bool :=
  (1 <=? m) && (m <=? 12) && (1 <=? d) && (d <=? days_in_month y m).

(** *** Eras, years and days

    The day [start y] opens year [y] of an era; years here begin in March. *)

Definition start (y : Z) : Z := 365 * y + y / 4 - y / 100 + y / 400.
Definition year_of (doe : Z) : Z := (doe - doe /ᵗ 1460 + doe /ᵗ 36524 - doe /ᵗ 146096) /ᵗ 365.
(** The calendar date of a day of the March year [y]. *)
Definition month_of (doy : Z) : Z := (5 * doy + 2) /ᵗ 153.
Definition day_in (doy : Z) : Z := doy - (153 * month_of doy + 2) /ᵗ 5 + 1.
Definition month_name (mp : Z) : Z := if mp <? 10 then mp + 3 else mp - 9.
Definition date_of (y doy : Z) : Z * Z * Z :=
  let m := month_name (month_of doy) in (y + (if m <=? 2 then 1 else 0), m, day_in doy).

Lemma forallb_seqZ (p : Z → bool) lo len x : forallb p (seqZ lo len) = true → lo ≤ x < lo + len → p x = true.
Proof. rewrite forallb_forall. intros H Hx. apply H, list_elem_of_In, elem_of_seqZ. done. Qed.

(** Every year of an era holds its days, and has 366 of them when it ends in a leap February. *)
Lemma year_table y : 0 ≤ y < 400 →
  year_of (start y) = y ∧ year_of (start (y + 1) - 1) = y ∧ start (y + 1) - start y = (if leap (y + 1) then 366 else 365).
Proof.
  intros Hy.
  assert (forallb (λ y, bool_decide (year_of (start y) = y ∧ year_of (start (y + 1) - 1) = y ∧
    start (y + 1) - start y = (if leap (y + 1) then 366 else 365))) (seqZ 0 400) = true) as T by (vm_compute; done).
  apply (forallb_seqZ _ _ _ y) in T; [|lia]. by apply bool_decide_eq_true in T.
Qed.
(** Every day of a year has a month and a day of it; 29 February is the 366th. *)
Lemma day_table doy : 0 ≤ doy < 366 →
  0 ≤ month_of doy ≤ 11 ∧ 1 ≤ day_in doy ∧
  day_in doy ≤ days_in_month (if doy =? 365 then 0 else 1) (month_name (month_of doy)).
Proof.
  intros Hy.
  assert (forallb (λ doy, bool_decide (0 ≤ month_of doy ≤ 11 ∧ 1 ≤ day_in doy ∧
    day_in doy ≤ days_in_month (if doy =? 365 then 0 else 1) (month_name (month_of doy)))) (seqZ 0 366) = true) as T by (vm_compute; done).
  apply (forallb_seqZ _ _ _ doy) in T; [|lia]. by apply bool_decide_eq_true in T.
Qed.
(** And back: a month and a day of it. *)
Definition doy_of (m d : Z) : Z := (153 * (if 2 <? m then m - 3 else m + 9) + 2) /ᵗ 5 + d - 1.
Lemma month_table m d : 1 ≤ m ≤ 12 → 1 ≤ d ≤ days_in_month 0 m →
  0 ≤ doy_of m d < 366 ∧ month_name (month_of (doy_of m d)) = m ∧ day_in (doy_of m d) = d ∧
  (doy_of m d = 365 ↔ m = 2 ∧ d = 29).
Proof.
  intros Hm Hd.
  assert (d ≤ 31) by (destruct Hd as [_ Hd]; revert Hd; unfold days_in_month; repeat case_match; lia).
  assert (forallb (λ m, forallb (λ d, bool_decide (d ≤ days_in_month 0 m →
    0 ≤ doy_of m d < 366 ∧ month_name (month_of (doy_of m d)) = m ∧ day_in (doy_of m d) = d ∧
    (doy_of m d = 365 ↔ m = 2 ∧ d = 29))) (seqZ 1 31)) (seqZ 1 12) = true) as T by (vm_compute; done).
  apply (forallb_seqZ _ _ _ m) in T; [|lia]. apply (forallb_seqZ _ _ _ d) in T; [|lia].
  apply bool_decide_eq_true in T. apply T. lia.
Qed.

Lemma start_mono y y' : 0 ≤ y ≤ y' → start y ≤ start y'.
Proof. unfold start. intros. Z.to_euclidean_division_equations. lia. Qed.
Lemma year_of_mono a b : 0 ≤ a ≤ b → b < 146097 → year_of a ≤ year_of b.
Proof.
  intros Hab Hb. unfold year_of. apply Z.quot_le_mono; [lia|].
  destruct (decide (b = 146096)) as [->|Hne].
  - change (146096 /ᵗ 1460) with 100. change (146096 /ᵗ 36524) with 4. change (146096 /ᵗ 146096) with 1.
    Z.to_euclidean_division_equations. lia.
  - rewrite (Z.quot_small b 146096), (Z.quot_small a 146096) by lia. Z.to_euclidean_division_equations. lia.
Qed.
(** A day of an era lies in the year the code finds. *)
Lemma year_of_spec doe y : 0 ≤ y < 400 → 0 ≤ doe < 146097 → (year_of doe = y ↔ start y ≤ doe < start (y + 1)).
Proof.
  intros Hy Hd. assert (∀ y', 0 ≤ y' < 400 → start y' ≤ doe < start (y' + 1) → year_of doe = y') as Hof.
  { intros y' Hy' [Hlo Hhi]. destruct (year_table y' Hy') as (E1 & E2 & _).
    assert (0 ≤ start y') by (unfold start; Z.to_euclidean_division_equations; lia).
    assert (start (y' + 1) ≤ 146097) by (apply (start_mono (y' + 1) 400); lia).
    pose proof (year_of_mono (start y') doe). pose proof (year_of_mono doe (start (y' + 1) - 1)). lia. }
  split; [|by apply Hof]. intros <-.
  assert (∀ n : nat, (n < 400)%nat → doe < start (Z.of_nat n + 1) → start (year_of doe) ≤ doe < start (year_of doe + 1)) as Hex.
  { induction n as [|n IH]; intros Hn Hlt.
    - assert (start 0 ≤ doe < start (0 + 1)) as Hs by (split; [change (start 0) with 0; lia|done]).
      by rewrite (Hof 0).
    - destruct (decide (doe < start (Z.of_nat n + 1))) as [?|Hge]; [apply IH; lia|].
      assert (start (Z.of_nat (S n)) ≤ doe < start (Z.of_nat (S n) + 1)) as Hs.
      { split; [|done]. replace (Z.of_nat (S n)) with (Z.of_nat n + 1) by lia. lia. }
      rewrite (Hof (Z.of_nat (S n))); [done|lia|done]. }
  apply (Hex 399%nat); [lia|]. change (start (Z.of_nat 399 + 1)) with 146097. lia.
Qed.

(** *** The code on eras, years and days *)

Lemma civil_shift era y doy :
  0 ≤ y < 400 → 0 ≤ doy < start (y + 1) - start y →
  civil (era * 146097 + start y + doy - 719468) = date_of (y + era * 400) doy.
Proof.
  intros Hy Hdoy. assert (0 ≤ start y) by (unfold start; Z.to_euclidean_division_equations; lia).
  assert (start (y + 1) ≤ 146097) by (apply (start_mono (y + 1) 400); lia).
  assert (year_of (start y + doy) = y) as E by (apply year_of_spec; lia).
  unfold civil. replace (era * 146097 + start y + doy - 719468 + 719468) with (start y + doy + era * 146097) by lia.
  rewrite Z.div_add, Z.div_small, Z.add_0_l by lia.
  replace (start y + doy + era * 146097 - era * 146097) with (start y + doy) by lia.
  fold (year_of (start y + doy)). rewrite E.
  assert (start y + doy - (365 * y + y /ᵗ 4 - y /ᵗ 100) = doy) as ->
    by (unfold start; Z.to_euclidean_division_equations; lia).
  reflexivity.
Qed.
Lemma day_shift z : ∃ era y doy, z = era * 146097 + start y + doy - 719468 ∧ 0 ≤ y < 400 ∧ 0 ≤ doy < start (y + 1) - start y.
Proof.
  set (doe := (z + 719468) mod 146097). assert (0 ≤ doe < 146097) by (apply Z.mod_pos_bound; lia).
  assert (0 ≤ year_of doe < 400).
  { pose proof (year_of_mono 0 doe) as Hlo. pose proof (year_of_mono doe 146096) as Hhi.
    change (year_of 0) with 0 in Hlo. change (year_of 146096) with 399 in Hhi. lia. }
  exists ((z + 719468) / 146097), (year_of doe), (doe - start (year_of doe)).
  pose proof (proj1 (year_of_spec doe (year_of doe) ltac:(lia) ltac:(lia)) eq_refl).
  split; [|lia]. pose proof (Z.div_mod (z + 719468) 146097). unfold doe. lia.
Qed.

Lemma valid_iff y m d : valid_date y m d = true ↔ 1 ≤ m ≤ 12 ∧ 1 ≤ d ≤ days_in_month y m.
Proof. unfold valid_date. rewrite !andb_true_iff, !Z.leb_le. tauto. Qed.
Lemma leap_shift y era : leap (y + era * 400) = leap y.
Proof.
  unfold leap. rewrite Z_mod_plus_full. f_equal. f_equal.
  - replace (era * 400) with (era * 100 * 4) by lia. by rewrite Z_mod_plus_full.
  - replace (era * 400) with (era * 4 * 100) by lia. by rewrite Z_mod_plus_full.
Qed.
Lemma days_in_month_leap y m : days_in_month y m ≤ days_in_month 0 m.
Proof. unfold days_in_month. change (leap 0) with true. repeat case_match; lia. Qed.

(** The dates of a year, and their days. *)
Lemma date_of_valid y era doy :
  0 ≤ y < 400 → 0 ≤ doy < start (y + 1) - start y →
  let '(yy, m, d) := date_of (y + era * 400) doy in valid_date yy m d = true.
Proof.
  intros Hy Hdoy. destruct (year_table y Hy) as (_ & _ & Hlen). assert (doy < 366) by (rewrite Hlen in Hdoy; case_match; lia).
  destruct (day_table doy ltac:(lia)) as (Hm & H1 & H2). cbn. apply valid_iff. split; [|split; [done|]].
  { unfold month_name. destruct (Z.ltb_spec (month_of doy) 10); lia. }
  etrans; [exact H2|]. generalize (month_name (month_of doy)). intros m. unfold days_in_month.
  destruct (Z.eqb_spec m 2) as [->|]; [|done]. change (2 <=? 2) with true. cbn iota.
  replace (y + era * 400 + 1) with (y + 1 + era * 400) by lia. rewrite leap_shift.
  destruct (Z.eqb_spec doy 365) as [->|].
  - rewrite Hlen in Hdoy. destruct (leap (y + 1)); [done|lia].
  - change (leap 1) with false. case_match; lia.
Qed.
Lemma days_of_date y era doy :
  0 ≤ y < 400 → 0 ≤ doy < start (y + 1) - start y →
  let '(yy, m, d) := date_of (y + era * 400) doy in days_from_civil yy m d = era * 146097 + start y + doy - 719468.
Proof.
  intros Hy Hdoy. destruct (year_table y Hy) as (_ & _ & Hlen). assert (doy < 366) by (rewrite Hlen in Hdoy; case_match; lia).
  destruct (day_table doy ltac:(lia)) as (Hm & _). cbn. unfold days_from_civil.
  assert ((if month_name (month_of doy) <=? 2 then y + era * 400 + (if month_name (month_of doy) <=? 2 then 1 else 0) - 1
    else y + era * 400 + (if month_name (month_of doy) <=? 2 then 1 else 0)) = y + era * 400) as -> by (destruct (month_name (month_of doy) <=? 2); lia).
  rewrite Z.div_add, Z.div_small, Z.add_0_l by lia.
  replace (y + era * 400 - era * 400) with y by lia.
  assert ((if 2 <? month_name (month_of doy) then month_name (month_of doy) - 3 else month_name (month_of doy) + 9) = month_of doy) as ->.
  { unfold month_name. destruct (Z.ltb_spec (month_of doy) 10).
    - destruct (Z.ltb_spec 2 (month_of doy + 3)); lia.
    - destruct (Z.ltb_spec 2 (month_of doy - 9)); lia. }
  unfold day_in, start. Z.to_euclidean_division_equations. lia.
Qed.
(** A valid date is a day of some year. *)
Lemma date_shift yy m d : valid_date yy m d = true →
  ∃ era y doy, 0 ≤ y < 400 ∧ 0 ≤ doy < start (y + 1) - start y ∧ date_of (y + era * 400) doy = (yy, m, d).
Proof.
  intros [Hm Hd]%valid_iff.
  destruct (month_table m d Hm) as (Hr & Em & Ed & E29). { pose proof (days_in_month_leap yy m). lia. }
  remember (if m <=? 2 then yy - 1 else yy) as y' eqn:Ey'.
  assert (0 ≤ y' mod 400 < 400) as Hy by (apply Z.mod_pos_bound; lia).
  assert (y' = y' mod 400 + y' / 400 * 400) as Ey by (pose proof (Z.div_mod y' 400); lia).
  destruct (year_table _ Hy) as (_ & _ & Hlen).
  exists (y' / 400), (y' mod 400), (doy_of m d). split; [done|]. split.
  - split; [lia|]. rewrite Hlen. destruct (leap (y' mod 400 + 1)) eqn:El; [lia|].
    enough (doy_of m d ≠ 365) by lia. intros [-> ->]%E29.
    rewrite <- (leap_shift _ (y' / 400)) in El.
    replace (y' mod 400 + 1 + y' / 400 * 400) with (y' + 1) in El by (clear -Ey; lia).
    replace (y' + 1) with yy in El by (rewrite Ey'; change (2 <=? 2) with true; cbn iota; lia).
    unfold days_in_month in Hd. change (2 =? 2) with true in Hd. cbn iota in Hd. rewrite El in Hd. lia.
  - rewrite <- Ey. unfold date_of. rewrite Em, Ed, Ey'. f_equal. f_equal. destruct (m <=? 2); lia.
Qed.

Lemma days_civil z : let '(y, m, d) := civil z in valid_date y m d = true ∧ days_from_civil y m d = z.
Proof.
  destruct (day_shift z) as (era & y & doy & -> & Hy & Hd). rewrite civil_shift by done.
  pose proof (date_of_valid y era doy Hy Hd). pose proof (days_of_date y era doy Hy Hd).
  by destruct (date_of (y + era * 400) doy) as [[? ?] ?].
Qed.
Lemma civil_days yy m d : valid_date yy m d = true → civil (days_from_civil yy m d) = (yy, m, d).
Proof.
  intros Hv. destruct (date_shift yy m d Hv) as (era & y & doy & Hy & Hd & E).
  pose proof (days_of_date y era doy Hy Hd) as Hdays. rewrite E in Hdays. rewrite Hdays. by rewrite civil_shift.
Qed.

(** [civil] and [days_from_civil] are inverse to each other: every day has a valid Gregorian date
    that gives the day back, and every valid date is the date of its day. *)
Theorem civil_roundtrip :
  (∀ z, let '(y, m, d) := civil z in valid_date y m d = true ∧ days_from_civil y m d = z) ∧
  (∀ y m d, valid_date y m d = true → civil (days_from_civil y m d) = (y, m, d)).
Proof. split; [apply days_civil|apply civil_days]. Qed.

(** *** Timestamps compare as strings *)

(** A number of fixed width, digit by digit. *)
Definition digit (z : Z) : ascii := ascii_of_N (Z.to_N (48 + z)).
Fixpoint fixed (w : nat) (a : Z) : string :=
  match w with 0%nat => "" | S w => String (digit (a / 10 ^ Z.of_nat w)) (fixed w (a mod 10 ^ Z.of_nat w)) end.

Lemma digit_compare a b : 0 ≤ a < 10 → 0 ≤ b < 10 → Ascii.compare (digit a) (digit b) = (a ?= b).
Proof.
  intros Ha Hb. unfold Ascii.compare, digit. rewrite !N_ascii_embedding by lia.
  rewrite Z2N.inj_compare by lia. apply Zcompare_plus_compat.
Qed.
Lemma compare_fixed w a b s t : 0 ≤ a < 10 ^ Z.of_nat w → 0 ≤ b < 10 ^ Z.of_nat w →
  String.compare (fixed w a +:+ s) (fixed w b +:+ t) = match a ?= b with Eq => String.compare s t | c => c end.
Proof.
  revert a b. induction w as [|w IH]; intros a b Ha Hb.
  { change (10 ^ Z.of_nat 0) with 1 in *. by replace a with b by lia; rewrite Z.compare_refl. }
  cbn [fixed]. change (String ?c ?x +:+ ?y) with (String c (x +:+ y)). rewrite compare_cons.
  assert (0 < 10 ^ Z.of_nat w) by (apply Z.pow_pos_nonneg; lia).
  rewrite Nat2Z.inj_succ, Z.pow_succ_r in Ha, Hb by lia.
  generalize dependent (10 ^ Z.of_nat w). intros p IH Hp Ha Hb.
  rewrite digit_compare by (split; [apply Z.div_pos|apply Z.div_lt_upper_bound]; lia).
  pose proof (Z.div_mod a p). pose proof (Z.div_mod b p). pose proof (Z.mod_pos_bound a p). pose proof (Z.mod_pos_bound b p).
  destruct (Z.compare_spec (a / p) (b / p)) as [E|E|E].
  - rewrite IH by lia. destruct (Z.compare_spec (a mod p) (b mod p)), (Z.compare_spec a b); try done; nia.
  - destruct (Z.compare_spec a b); try done; nia.
  - destruct (Z.compare_spec a b); try done; nia.
Qed.
Definition pad_ok (w : nat) (z : Z) : bool := if 10 ^ Z.of_nat w <=? z then true else String.eqb (padded w z) (fixed w z).
Lemma pad_table w : w ∈ [1;2;3;4]%nat → ∀ q r, 0 ≤ q < 100 → 0 ≤ r < 100 → pad_ok w (100 * q + r) = true.
Proof.
  intros Hw q r Hq Hr.
  assert (forallb (λ w, forallb (λ q, forallb (λ r, pad_ok w (100 * q + r)) (seqZ 0 100)) (seqZ 0 100)) [1;2;3;4]%nat = true)
    as T by (vm_compute; done).
  rewrite forallb_forall in T. specialize (T w (proj1 (list_elem_of_In _ _) Hw)).
  apply (forallb_seqZ _ _ _ q) in T; [|done]. by apply (forallb_seqZ _ _ _ r) in T.
Qed.
Lemma padded_fixed w z : w ∈ [1;2;3;4]%nat → 0 ≤ z < 10 ^ Z.of_nat w → padded w z = fixed w z.
Proof.
  intros Hw Hz. assert (10 ^ Z.of_nat w ≤ 10000) by (repeat (apply elem_of_cons in Hw as [->|Hw]; [done|]); by apply not_elem_of_nil in Hw).
  assert (pad_ok w (100 * (z / 100) + z mod 100) = true) as T.
  { apply pad_table; [done| |by apply Z.mod_pos_bound]. split; [apply Z.div_pos|apply Z.div_lt_upper_bound]; lia. }
  rewrite <- Z.div_mod in T by lia. unfold pad_ok in T. destruct (Z.leb_spec (10 ^ Z.of_nat w) z); [lia|]. by apply String.eqb_eq in T.
Qed.

(** Dates in their order. *)
Definition date_compare (a b : Z * Z * Z) : comparison :=
  let '(y1, m1, d1) := a in let '(y2, m2, d2) := b in
  match y1 ?= y2 with Eq => match m1 ?= m2 with Eq => d1 ?= d2 | c => c end | c => c end.

Lemma date_of_compare y1 d1 y2 d2 : 0 ≤ d1 < 366 → 0 ≤ d2 < 366 →
  date_compare (date_of y1 d1) (date_of y2 d2) = match y1 ?= y2 with Eq => d1 ?= d2 | c => c end.
Proof.
  intros H1 H2. destruct (day_table d1 H1) as (Hm1 & _), (day_table d2 H2) as (Hm2 & _).
  unfold date_compare, date_of, month_name. cbn zeta.
  assert (d1 < d2 → month_of d1 < month_of d2 ∨ month_of d1 = month_of d2 ∧ day_in d1 < day_in d2) as H12
    by (unfold day_in; unfold month_of; Z.to_euclidean_division_equations; lia).
  assert (d2 < d1 → month_of d2 < month_of d1 ∨ month_of d1 = month_of d2 ∧ day_in d2 < day_in d1) as H21
    by (unfold day_in; unfold month_of; Z.to_euclidean_division_equations; lia).
  assert (d1 = d2 → month_of d1 = month_of d2 ∧ day_in d1 = day_in d2) as H0 by (by intros ->).
  revert H12 H21 H0. generalize (month_of d1) (day_in d1) (month_of d2) (day_in d2) Hm1 Hm2.
  intros m1 e1 m2 e2 ? ? H12 H21 H0.
  destruct (Z.ltb_spec m1 10), (Z.ltb_spec m2 10);
    repeat match goal with |- context [?a <=? 2] => destruct (Z.leb_spec a 2); [try lia|try lia] end;
    destruct (Z.compare_spec y1 y2), (Z.compare_spec d1 d2);
    repeat match goal with |- context [?a ?= ?b] => destruct (Z.compare_spec a b); try lia; try done end.
Qed.
Lemma civil_compare z1 z2 : date_compare (civil z1) (civil z2) = (z1 ?= z2).
Proof.
  destruct (day_shift z1) as (era1 & y1 & d1 & -> & Hy1 & Hd1), (day_shift z2) as (era2 & y2 & d2 & -> & Hy2 & Hd2).
  destruct (year_table y1 Hy1) as (_ & _ & L1), (year_table y2 Hy2) as (_ & _ & L2).
  assert (d1 < 366 ∧ d2 < 366) as [? ?] by (revert L1 L2; repeat case_match; lia).
  rewrite !civil_shift, date_of_compare by lia.
  assert (0 ≤ start y1 ∧ 0 ≤ start y2) as [? ?] by (unfold start; Z.to_euclidean_division_equations; lia).
  assert (start (y1 + 1) ≤ 146097 ∧ start (y2 + 1) ≤ 146097) as [? ?]
    by (split; [apply (start_mono (y1 + 1) 400)|apply (start_mono (y2 + 1) 400)]; lia).
  assert (y1 < y2 → start (y1 + 1) ≤ start y2) by (intros; apply start_mono; lia).
  assert (y2 < y1 → start (y2 + 1) ≤ start y1) by (intros; apply start_mono; lia).
  destruct (Z.compare_spec (y1 + era1 * 400) (y2 + era2 * 400)).
  - assert (era1 = era2 ∧ y1 = y2) as [-> ->] by lia. destruct (Z.compare_spec d1 d2), (Z.compare_spec (era2 * 146097 + start y2 + d1 - 719468) (era2 * 146097 + start y2 + d2 - 719468)); lia || done.
  - symmetry. apply Z.compare_lt_iff. assert (era1 < era2 ∨ era1 = era2 ∧ y1 < y2) as [?|[-> ?]] by lia; lia.
  - symmetry. apply Z.compare_gt_iff. assert (era2 < era1 ∨ era1 = era2 ∧ y2 < y1) as [?|[-> ?]] by lia; lia.
Qed.

(** The part of a timestamp after its date. *)
Definition clock_text (rem ms : Z) : string :=
  "T" +:+ padded 2 (rem /ᵗ 3600) +:+ ":" +:+ padded 2 (rem %ᵗ 3600 /ᵗ 60) +:+ ":" +:+ padded 2 (rem %ᵗ 60) +:+ "." +:+ padded 3 ms +:+ "Z".
Lemma rfc3339_now_civil secs ms :
  rfc3339_now secs ms = let '(y, m, d) := civil (secs / 86400) in
    padded 4 y +:+ "-" +:+ padded 2 m +:+ "-" +:+ padded 2 d +:+ clock_text (secs mod 86400) ms.
Proof.
  unfold rfc3339_now, civil. cbn zeta.
  assert (∀ z, z mod 146097 = z - z / 146097 * 146097) as E by (intros z; pose proof (Z.div_mod z 146097); lia).
  by rewrite E.
Qed.
Lemma compare_app s t u : String.compare (s +:+ t) (s +:+ u) = String.compare t u.
Proof.
  induction s as [|a s IH]; [done|]. change (String a s +:+ t) with (String a (s +:+ t)).
  change (String a s +:+ u) with (String a (s +:+ u)). rewrite compare_cons. unfold Ascii.compare. by rewrite N.compare_refl.
Qed.
Lemma compare_refl s : String.compare s s = Eq.
Proof. rewrite <- (str_app_nil_r s). by rewrite compare_app. Qed.
Lemma compare_padded w a b s t : w ∈ [1;2;3;4]%nat → 0 ≤ a < 10 ^ Z.of_nat w → 0 ≤ b < 10 ^ Z.of_nat w →
  String.compare (padded w a +:+ s) (padded w b +:+ t) = match a ?= b with Eq => String.compare s t | c => c end.
Proof. intros. rewrite !padded_fixed by done. by apply compare_fixed. Qed.

Lemma compare_padded2 a b s t : 0 ≤ a < 100 → 0 ≤ b < 100 →
  String.compare (padded 2 a +:+ s) (padded 2 b +:+ t) = match a ?= b with Eq => String.compare s t | c => c end.
Proof. intros. apply compare_padded; [set_solver|done..]. Qed.

Definition then_compare (c d : comparison) : comparison := match c with Eq => d | c => c end.
Lemma clock_compare r1 r2 ms1 ms2 : 0 ≤ r1 < 86400 → 0 ≤ r2 < 86400 → 0 ≤ ms1 < 1000 → 0 ≤ ms2 < 1000 →
  String.compare (clock_text r1 ms1) (clock_text r2 ms2) = then_compare (r1 ?= r2) (ms1 ?= ms2).
Proof.
  intros H1 H2 M1 M2. unfold clock_text. rewrite compare_app.
  assert (∀ r, 0 ≤ r < 86400 → 0 ≤ r /ᵗ 3600 < 100 ∧ 0 ≤ r %ᵗ 3600 /ᵗ 60 < 60 ∧ 0 ≤ r %ᵗ 60 < 60 ∧
    r = 3600 * (r /ᵗ 3600) + 60 * (r %ᵗ 3600 /ᵗ 60) + r %ᵗ 60) as Hr
    by (intros; Z.to_euclidean_division_equations; lia).
  destruct (Hr _ H1) as (? & ? & ? & E1), (Hr _ H2) as (? & ? & ? & E2).
  rewrite compare_padded2, compare_app, compare_padded2, compare_app, compare_padded2, compare_app by lia.
  rewrite compare_padded by (set_solver || done). rewrite compare_refl.
  unfold then_compare. revert E1 E2.
  generalize dependent (r1 /ᵗ 3600); generalize dependent (r1 %ᵗ 3600 /ᵗ 60); generalize dependent (r1 %ᵗ 60).
  generalize dependent (r2 /ᵗ 3600); generalize dependent (r2 %ᵗ 3600 /ᵗ 60); generalize dependent (r2 %ᵗ 60).
  intros s2 ? m2 ? h2 ? s1 ? m1 ? h1 ? E1 E2.
  destruct (Z.compare_spec h1 h2), (Z.compare_spec m1 m2), (Z.compare_spec s1 s2), (Z.compare_spec r1 r2); try done; try (by destruct (ms1 ?= ms2)); clear Hr; exfalso; lia.
Qed.

(** The years a timestamp has four digits for: up to the end of 9999. *)
Lemma civil_range z : 0 ≤ z ≤ 2932896 → let '(y, m, d) := civil z in 1970 ≤ y ≤ 9999 ∧ 1 ≤ m ≤ 12 ∧ 1 ≤ d ≤ 31.
Proof.
  intros Hz. pose proof (civil_compare 0 z) as Hlo. pose proof (civil_compare z 2932896) as Hhi.
  pose proof (days_civil z) as Hv. destruct (civil z) as [[y m] d]. destruct Hv as [[Hm Hd]%valid_iff _].
  change (civil 0) with (1970, 1, 1) in Hlo. change (civil 2932896) with (9999, 12, 31) in Hhi. unfold date_compare in Hlo, Hhi.
  split; [|split; [done|]].
  - split.
    + destruct (Z.compare_spec 1970 y), (Z.compare_spec 0 z); lia || done.
    + destruct (Z.compare_spec y 9999), (Z.compare_spec z 2932896); lia || done.
  - split; [lia|]. destruct Hd as [_ Hd]. revert Hd. unfold days_in_month. repeat case_match; lia.
Qed.

(** The timestamps letterboxd-sync writes sort as strings in the order of their times, through the
    year 9999. *)
Theorem rfc3339_now_ordered s1 ms1 s2 ms2 :
  0 ≤ s1 < 253402300800 → 0 ≤ s2 < 253402300800 → 0 ≤ ms1 < 1000 → 0 ≤ ms2 < 1000 →
  String.compare (rfc3339_now s1 ms1) (rfc3339_now s2 ms2) = (1000 * s1 + ms1 ?= 1000 * s2 + ms2).
Proof.
  intros H1 H2 M1 M2. rewrite !rfc3339_now_civil.
  pose proof (civil_compare (s1 / 86400) (s2 / 86400)) as Hc.
  pose proof (civil_range (s1 / 86400)) as R1. pose proof (civil_range (s2 / 86400)) as R2.
  destruct (civil (s1 / 86400)) as [[y1 m1] d1], (civil (s2 / 86400)) as [[y2 m2] d2].
  destruct R1 as (? & ? & ?), R2 as (? & ? & ?); [Z.to_euclidean_division_equations; lia..|].
  rewrite compare_padded by (set_solver || (change (10 ^ _) with 10000; lia)).
  rewrite compare_app, compare_padded2, compare_app, compare_padded2 by lia.
  rewrite clock_compare by (try apply Z.mod_pos_bound; lia). unfold date_compare in Hc.
  assert (match y1 ?= y2 with Eq => match m1 ?= m2 with Eq => match d1 ?= d2 with
    Eq => then_compare (s1 mod 86400 ?= s2 mod 86400) (ms1 ?= ms2) | c => c end | c => c end | c => c end =
    then_compare (s1 / 86400 ?= s2 / 86400) (then_compare (s1 mod 86400 ?= s2 mod 86400) (ms1 ?= ms2))) as ->.
  { rewrite <- Hc. by destruct (y1 ?= y2), (m1 ?= m2), (d1 ?= d2). }
  clear Hc. unfold then_compare.
  destruct (Z.compare_spec (s1 / 86400) (s2 / 86400)), (Z.compare_spec (s1 mod 86400) (s2 mod 86400)),
    (Z.compare_spec ms1 ms2), (Z.compare_spec (1000 * s1 + ms1) (1000 * s2 + ms2)); try done;
    exfalso; Z.to_euclidean_division_equations; lia.
Qed.
Lemma rfc3339_now_ordered_witness :
  String.compare "2026-10-15T23:01:02.345Z" "2026-10-16T00:00:00.000Z" = Lt.
Proof. apply (rfc3339_now_ordered 1792105262 345 1792108800 0); lia. Defined.
