(* ===== verification/Letterboxd.v ===== *)
(** * Trakt to Letterboxd ([apps/letterboxd-sync]: [lib.rs], [csv.rs], [state.rs], [trakt.rs], [main.rs])

    One run reads the plays since the last one, builds an import file and confirms it in a browser.
    The world is the state volume and the diary; the browser and the two sites are outside the
    program: the class [Sites] says how far a session gets and whether the diary took the rows. Every
    step may fail, so the runs include every crash. *)

From Stdlib Require Import Ascii.
From stdpp Require Import options.
From S2P Require Import Prelude Text Json State Remote Calendar.

(** ** [trakt.rs]: plays *)

Record Play : Type := mkPlay {
  play_id : N; watched_at : string; title : string; year : option N; trakt : N; imdb : option string; tmdb : option N }.

Definition u64_field (k : string) (v : Value) : option N := field k v ≫= value_as_u64.
Definition as_uint (modulus : N) (v : Value) : option N := n ← value_as_u64 v; if (n <? modulus)%N then Some n else None.
Definition movie_of (id : N) (at_ : string) (m : Value) : option Play :=
  t ← string_field "title" m; y ← optional (as_uint u32_modulus) "year" m;
  ids ← field "ids" m;
  k ← u64_field "trakt" ids; i ← optional as_str "imdb" ids; d ← optional value_as_u64 "tmdb" ids;
  Some (mkPlay id at_ t y k i d).
Definition play_of (v : Value) : option Play :=
  id ← u64_field "id" v; at_ ← string_field "watched_at" v; m ← field "movie" v; movie_of id at_ m.
(** A rating: the film's Trakt id and the mark. *)
Definition rated_of (v : Value) : option (N * N) :=
  r ← field "rating" v ≫= as_uint 256; m ← field "movie" v; p ← movie_of 0 "" m; Some (trakt p, r).

(** ** [csv.rs]: the import file *)

Definition HEADER : string := "tmdbID,imdbID,Title,Year,WatchedDate,Rating10,Rewatch".
Definition quote : ascii := "034"%char.
Definition csv_char (c : ascii) : ascii :=
  if bool_decide (c = quote) then "'"%char
  else if bool_decide (c = "013"%char) || bool_decide (c = "010"%char) then " "%char else c.
Definition csv_field (s : string) : string :=
  let s := str (csv_char <$> chars s) in
  if contains_char "," s then str [quote] +:+ s +:+ str [quote] else s.

(** A row of the file, and the play it stands for. *)
Record Row : Type := mkRow { r_play : Play; r_tmdb : N; r_rating : option N; r_rewatch : bool }.
Definition show_opt (o : option N) : string := match o with Some n => pretty n | None => "" end.
(** [get(..10)] *)
Definition day_of (at_ : string) : string := if (10 <=? String.length at_)%nat then str (take 10 (chars at_)) else "".
Definition row_csv (r : Row) : string :=
  let p := r_play r in
  join "," [pretty (r_tmdb r); csv_field (default "" (imdb p)); csv_field (title p); show_opt (year p);
            day_of (watched_at p); show_opt (r_rating r); if r_rewatch r then "true" else "false"] +:+ str ["010"%char].
Definition film_label (p : Play) : string :=
  match year p with Some y => title p +:+ " (" +:+ pretty y +:+ ")" | None => title p end.

Record Batch : Type := mkBatch { rows : list Row; films : list string; skipped : list string }.
Definition batch_csv (b : Batch) : string :=
  HEADER +:+ str ["010"%char] +:+ fold_right String.append "" (row_csv <$> rows b).

(** Oldest first, then by id. *)
Definition play_leb (a b : Play) : bool :=
  match String.compare (watched_at a) (watched_at b) with
  | Lt => true | Gt => false | Eq => (play_id a <=? play_id b)%N end.
Definition build_step (ratings : gmap N N) (acc : Batch * gset N) (p : Play) : Batch * gset N :=
  let '(b, seen) := acc in
  match tmdb p with
  | None => (mkBatch (rows b) (films b) (skipped b ++ [film_label p]), seen)
  | Some t =>
      (mkBatch (rows b ++ [mkRow p t (ratings !! trakt p) (bool_decide (t ∈ seen))]) (films b ++ [film_label p]) (skipped b),
       {[t]} ∪ seen)
  end.
Definition build (plays : list Play) (ratings : gmap N N) (seen : gset N) : Batch * gset N :=
  fold_left (build_step ratings) (stable_sort play_leb plays) (mkBatch [] [] [], seen).

(** ** [state.rs] *)

Record Pending : Type := mkPending {
  p_at : string; p_films : list string; p_cursor : string; p_cursor_ids : gset N; p_seen : gset N }.
Record State : Type := mkState { cursor : string; cursor_ids : gset N; seen : gset N; pending : option Pending }.
Definition State_default : State := mkState "" ∅ ∅ None.
Definition is_baselined (s : State) : bool := negb (bool_decide (cursor s = "")).
Definition ack (s : State) : Result (State * list string) string :=
  match pending s with
  | Some p => Ok (mkState (p_cursor p) (p_cursor_ids p) (p_seen p) None, p_films p)
  | None => Err "nothing is pending"
  end.
Definition discard (s : State) : Result (State * list string) string :=
  match pending s with
  | Some p => Ok (mkState (cursor s) (cursor_ids s) (seen s) None, p_films p)
  | None => Err "nothing is pending"
  end.

(** ** The world *)

Record World : Type := mkWorld {
  state_file : option string;   (** [state.json] *)
  tmp_file : option string;     (** [state.json.tmp] *)
  csv_file : option string;     (** [new-films.csv] *)
  diary : list Row;             (** what Letterboxd holds of our files *)
  landed : bool;                (** whether the file last chosen is in the diary *)
  step : nat }.
Notation M := (SE World string).

Inductive Outcome : Type :=
  | Baselined (n : nat) | NothingNew | DryRun (csv : string) | Stopped (summary : string) | Imported (films : list string).
Inductive Confirmed : Type := Done (text : string) | Unrecognised (text : string).

(** A disk operation works, fails before its effect, or fails after it (a write leaving [partial]). *)
Inductive DiskFault : Type := Works | Before | After (partial : string).

(** A reply of Trakt's: status, the [x-pagination-page-count] header, and the body when it is JSON. *)
Record Reply : Type := mkReply { status : N; page_count : option string; body : option Value }.
Class Sites : Type := {
  trakt_get : nat → string → list (string * string) → Result Reply string;
  disk : nat → DiskFault;
  (** launching the browser, signing in, and choosing the file (the page's summary) *)
  session_open : nat → Result () string;
  session_login : nat → Result () string;
  session_upload : nat → string → Result string string;
  (** the click: whether the diary took the file, and what the page said *)
  session_confirm : nat → bool * Result Confirmed string;
  (** seconds since 1970 and milliseconds *)
  clock : nat → Z * Z;
}.
(** serde *)
Class StateText : Type := { encode_state : State → string; decode_state : string → option State }.
Class StateTextLaws `{StateText} : Prop := state_roundtrip s : decode_state (encode_state s) = Some s.

Record Config : Type := mkConfig {
  trakt_url : string; trakt_user : string; trakt_client_id : string;
  letterboxd_url : string; letterboxd_user : option string; letterboxd_password : option string;
  state_dir : string; ntfy_url : string; ntfy_topic : string; chromium : string;
  start_at : option string; dry_run : bool; stop_before_confirm : bool; max_films : N;
  pace_ms : N * N; confirm_wait_secs : N }.

(** [max] of strings *)
Definition max_string (l : list string) : option string :=
  match l with [] => None | a :: l => Some (fold_left (λ x y, if String.leb x y then y else x) l a) end.
Definition newest (plays : list Play) : option (string * gset N) :=
  match max_string (watched_at <$> plays) with
  | Some top => Some (top, list_to_set (play_id <$> filter (λ p, watched_at p = top) plays))
  | None => None
  end.
Definition tmdb_ids (plays : list Play) : gset N := list_to_set (omap tmdb plays).

(** [dedup_by_key(|p| p.id)]: of equal neighbours the first stays. *)
Fixpoint dedup_from (last : N) (l : list Play) : list Play :=
  match l with
  | [] => []
  | p :: l => if (play_id p =? last)%N then dedup_from last l else p :: dedup_from (play_id p) l
  end.
Definition dedup_by_id (l : list Play) : list Play :=
  match l with [] => [] | p :: l => p :: dedup_from (play_id p) l end.
(** What one run sends: oldest first, capped. *)
Definition batch_plays (max : nat) (plays : list Play) : list Play := take max (dedup_by_id (stable_sort play_leb plays)).
(** The cursor after these plays. *)
Definition next_cursor (s : State) (plays : list Play) : option (string * gset N) :=
  '(c, ids) ← newest plays;
  Some (if bool_decide (c = cursor s) then (c, cursor_ids s ∪ ids) else (c, ids)).
(** A play the state has not handled. *)
Definition is_fresh (s : State) (p : Play) : bool :=
  String.leb (cursor s) (watched_at p) &&
  negb (bool_decide (watched_at p = cursor s) && bool_decide (play_id p ∈ cursor_ids s)).

(** Pages of a hundred; a real history is far below [PAGES_FUEL] of them. *)
Definition PAGES_FUEL : nat := 100000.

Section run.
Context `{Sites, StateText}.

Definition ask {A} (f : nat → A) : M A := λ w,
  (mkWorld (state_file w) (tmp_file w) (csv_file w) (diary w) (landed w) (S (step w)), Ok (f (step w))).
Definition set_state (f : option string) (w : World) : World := mkWorld f None (csv_file w) (diary w) (landed w) (step w).
Definition set_tmp (c : string) (w : World) : World := mkWorld (state_file w) (Some c) (csv_file w) (diary w) (landed w) (step w).
Definition set_csv (c : string) (w : World) : World := mkWorld (state_file w) (tmp_file w) (Some c) (diary w) (landed w) (step w).
Definition choose (w : World) : World := mkWorld (state_file w) (tmp_file w) (csv_file w) (diary w) false (step w).
Definition land (rs : list Row) (w : World) : World :=
  mkWorld (state_file w) (tmp_file w) (csv_file w) (diary w ++ rs) true (step w).

Definition load : M State :=
  text ← gets state_file;
  match text with
  | None => mret State_default
  | Some t => lift (match decode_state t with Some s => Ok s | None => Err "not valid state" end)
  end.
(** Through a temp file and a rename. *)
Definition write_tmp (c : string) : M () :=
  f ← ask disk;
  match f with
  | Works => modify (set_tmp c)
  | Before => throw "write"
  | After partial => _ ← modify (set_tmp partial); throw "write"
  end.
Definition rename_tmp (c : string) : M () :=
  f ← ask disk;
  match f with
  | Works => modify (set_state (Some c))
  | Before => throw "rename"
  | After _ => _ ← modify (set_state (Some c)); throw "rename"
  end.
Definition save (s : State) : M () := _ ← write_tmp (encode_state s); rename_tmp (encode_state s).

(** [Trakt::new] keeps the base without its last slashes. *)
Definition users_url (cfg : Config) (path : string) : string :=
  trim_end_matches (λ c, bool_decide (c = "/"%char)) (trakt_url cfg) +:+ "/users/" +:+ trakt_user cfg +:+ "/" +:+ path.
(** The reason phrase that follows the number in [HTTP {status}] is left out. *)
Definition hint (code : N) : string :=
  if (code =? 401)%N || (code =? 403)%N then " (private profile, or a wrong client id)"
  else if (code =? 404)%N then " (no such user)" else "".
Definition is_success (code : N) : bool := (200 <=? code)%N && (code <? 300)%N.
Definition reply_pages (r : Reply) : N := default 1%N (page_count r ≫= parse_u32).
Definition reply_items {A} (as_ : Value → option A) (path : string) (r : Reply) : Result (list A) string :=
  if negb (is_success (status r)) then Err ("trakt " +:+ path +:+ ": HTTP " +:+ pretty (status r) +:+ hint (status r))
  else match body r ≫= list_of as_ with Some b => Ok b | None => Err ("trakt " +:+ path +:+ ": bad JSON") end.
Definition page_query (query : list (string * string)) (page : N) : list (string * string) :=
  query ++ [("page", pretty page); ("limit", "100")].
Fixpoint pages_from {A} (n : nat) (as_ : Value → option A) (cfg : Config) (path : string) (query : list (string * string)) (page : N) (out : list A) : M (list A) :=
  match n with
  | 0 => throw "out of fuel"
  | S n =>
      r ← ask (λ k, trakt_get k (users_url cfg path) (page_query query page));
      match r with
      | Err e => throw ("trakt " +:+ path +:+ ": " +:+ e)
      | Ok r =>
          batch ← lift (reply_items as_ path r);
          if (reply_pages r <=? page)%N then mret (out ++ batch) else pages_from n as_ cfg path query (page + 1) (out ++ batch)
      end
  end.
Definition pages {A} (as_ : Value → option A) (cfg : Config) (path : string) (query : list (string * string)) : M (list A) :=
  pages_from PAGES_FUEL as_ cfg path query 1 [].
Definition history (cfg : Config) (start : option string) : M (list Play) :=
  pages play_of cfg "history/movies" match start with Some s => [("start_at", s)] | None => [] end.
Definition ratings (cfg : Config) : M (gmap N N) :=
  rated ← pages rated_of cfg "ratings/movies" []; mret (fold_left (λ m kr, <[kr.1 := kr.2]> m) rated ∅).

(** Settle an unconfirmed batch by hand. *)
Definition resolve (yes : bool) : M (list string) :=
  s ← load;
  '(s, fs) ← lift (if yes then ack s else discard s);
  _ ← save s;
  mret fs.

Definition session_confirm_ (rs : list Row) : M Confirmed := λ w,
  let '(took, r) := session_confirm (step w) in
  let w := mkWorld (state_file w) (tmp_file w) (csv_file w) (diary w) (landed w) (S (step w)) in
  (if took then land rs w else w, r).

Definition drive (cfg : Config) (b : Batch) (s : State) (next : string * gset N) (seen' : gset N) : M Outcome :=
  r ← ask session_login; _ ← lift r;
  _ ← modify choose;
  file ← gets csv_file;
  r ← ask (λ n, session_upload n (default "" file));
  summary ← lift r;
  if stop_before_confirm cfg then mret (Stopped summary)
  else
    t ← ask clock;
    let s1 := mkState (cursor s) (cursor_ids s) (seen s) (Some (mkPending (rfc3339_now t.1 t.2) (films b) next.1 next.2 seen')) in
    _ ← save s1;
    c ← session_confirm_ (rows b);
    match c with
    | Done _ => _ ← save (mkState next.1 next.2 seen' None); mret (Imported (films b))
    | Unrecognised text => throw "confirm was clicked but no success text followed"
    end.

Definition write_csv (c : string) : M () :=
  f ← ask disk;
  match f with
  | Works => modify (set_csv c)
  | Before => throw "write"
  | After partial => _ ← modify (set_csv partial); throw "write"
  end.

Definition upload (cfg : Config) (s : State) (plays : list Play) : M Outcome :=
  let plays := batch_plays (N.to_nat (max_films cfg)) plays in
  rs ← ok (ratings cfg);
  let '(b, seen') := build plays (default ∅ rs) (seen s) in
  match next_cursor s plays with
  | None => throw "panicked: plays is not empty"
  | Some next =>
      if bool_decide (films b = []) then
        _ ← save (mkState next.1 next.2 (seen s) (pending s));
        mret NothingNew
      else if dry_run cfg then mret (DryRun (batch_csv b))
      else match letterboxd_user cfg, letterboxd_password cfg with
      | Some _, Some _ =>
          _ ← write_csv (batch_csv b);
          r ← ask session_open; _ ← lift r;
          drive cfg b s next seen'
      | _, _ => throw "LETTERBOXD_USERNAME / LETTERBOXD_PASSWORD are not set"
      end
  end.

Definition run (cfg : Config) : M Outcome :=
  s ← load;
  match pending s with
  | Some p => throw ("an earlier run clicked confirm at " +:+ p_at p +:+ " but never saw the success text for: " +:+ join ", " (p_films p))
  | None =>
      if negb (is_baselined s) then
        all ← history cfg None;
        let is_later p := match start_at cfg with Some start => String.leb start (watched_at p) | None => false end in
        let backfill := List.filter is_later all in
        let before := List.filter (λ p, negb (is_later p)) all in
        let s := mkState (cursor s) (cursor_ids s) (tmdb_ids before) (pending s) in
        if bool_decide (length backfill = 0) then
          t ← ask clock;
          let '(c, ids) := default (rfc3339_now t.1 t.2, ∅) (newest all) in
          _ ← save (mkState c ids (seen s) (pending s));
          mret (Baselined (length all))
        else upload cfg s backfill
      else
        all ← history cfg (Some (cursor s));
        let fresh := List.filter (is_fresh s) all in
        if bool_decide (length fresh = 0) then mret NothingNew else upload cfg s fresh
  end.
End run.

(** ** The command line: [main.rs] *)

Definition TRAKT_HOST : string := "api.trakt.tv".
Inductive ExitCode : Type := SUCCESS | FAILURE.

Section main.
(** The process environment, and reading a mounted secret. *)
Context (vars : string → option string) (read_file : string → Result string string).

Definition env (name : string) : option string :=
  v ← vars name; let v := trim v in if bool_decide (v = "") then None else Some v.
Definition secret (name : string) : Result (option string) string :=
  match env (name +:+ "_FILE") with
  | Some path => match read_file path with Ok s => Ok (Some (trim s)) | Err e => Err ("read " +:+ path +:+ ": " +:+ e) end
  | None => Ok (env name)
  end.
Definition need (name : string) : Result string string :=
  match env name with Some v => Ok v | None => Err (name +:+ " is not set") end.
Definition switched_on (name : string) : bool :=
  match env name with Some v => negb (bool_decide (v = "0")) && negb (bool_decide (v = "false")) | None => false end.
Definition number_of (name : string) (d : N) : N := default d (env name ≫= parse_u64).
Definition config : Result Config string :=
  let? user := need "TRAKT_USERNAME" in
  let? id := secret "TRAKT_CLIENT_ID" in
  match id with
  | None => Err "TRAKT_CLIENT_ID / TRAKT_CLIENT_ID_FILE is not set"
  | Some id =>
      let? lu := secret "LETTERBOXD_USERNAME" in
      let? lp := secret "LETTERBOXD_PASSWORD" in
      Ok (mkConfig (default ("https://" +:+ TRAKT_HOST) (env "TRAKT_URL")) user id
            (default "https://letterboxd.com" (env "LETTERBOXD_URL")) lu lp
            (default "/state" (env "STATE_DIR")) (default "" (env "NTFY_URL")) (default "media" (env "NTFY_TOPIC"))
            (default "chromium" (env "CHROMIUM_PATH")) (env "START_AT") (switched_on "DRY_RUN") (switched_on "STOP_BEFORE_CONFIRM")
            (number_of "MAX_FILMS" 200) (number_of "PACE_MS_MIN" 800, number_of "PACE_MS_MAX" 2500) (number_of "CONFIRM_WAIT_SECS" 90))
  end.

Context `{Sites, StateText}.
Definition is_settling (cmd : string) : bool := bool_decide (cmd = "ack") || bool_decide (cmd = "discard").
Definition settle (yes : bool) : M ExitCode :=
  r ← ok (resolve yes); mret match r with Some _ => SUCCESS | None => FAILURE end.
(** With the command after the program's name, if there is one. *)
Definition main (command : option string) : M ExitCode :=
  match config with
  | Err _ => mret FAILURE
  | Ok cfg =>
      match command with
      | Some cmd => if is_settling cmd then settle (bool_decide (cmd = "ack")) else mret FAILURE
      | None =>
          _ ← match env "PENDING_ACTION" with
              | Some action => if is_settling action then _ ← ok (resolve (bool_decide (action = "ack"))); mret () else mret ()
              | None => mret ()
              end;
          r ← ok (run cfg);
          mret match r with Some _ => SUCCESS | None => FAILURE end
      end
  end.
End main.

(** ** The order of plays *)

Lemma compare_leb s t : String.leb s t = match String.compare s t with Gt => false | _ => true end.
Proof. reflexivity. Qed.
Lemma play_leb_spec a b :
  play_leb a b = true ↔ str_lt (watched_at a) (watched_at b) ∨ (watched_at a = watched_at b ∧ (play_id a ≤ play_id b)%N).
Proof.
  unfold play_leb, str_lt. rewrite compare_leb, (String.compare_antisym (watched_at b) (watched_at a)).
  destruct (String.compare (watched_at a) (watched_at b)) eqn:E; cbn [CompOpp].
  - apply String.compare_eq_iff in E. rewrite N.leb_le. intuition done.
  - split; [by left|done].
  - split; [done|]. intros [?|[E2 _]]; [done|]. rewrite E2 in E.
    by rewrite compare_refl in E.
Qed.
Lemma play_leb_total a b : play_leb a b = true ∨ play_leb b a = true.
Proof.
  rewrite !play_leb_spec. destruct (decide (watched_at a = watched_at b)) as [E|Hne].
  - destruct (N.le_ge_cases (play_id a) (play_id b)); [by left; right|by right; right].
  - destruct (str_le_lt (watched_at a) (watched_at b)) as [Hle|Hlt]; [|by right; left].
    left; left. by apply str_lt_spec.
Qed.
Lemma play_leb_trans a b c : play_leb a b = true → play_leb b c = true → play_leb a c = true.
Proof.
  rewrite !play_leb_spec. intros [Hab|[E1 H1]] [Hbc|[E2 H2]].
  - left. apply str_lt_spec in Hbc as [? _]. by eapply str_lt_le_trans.
  - left. by rewrite <- E2.
  - left. by rewrite E1.
  - right. split; [congruence|lia].
Qed.
Lemma play_leb_antisym a b : play_leb a b = true → play_leb b a = true → play_id a = play_id b ∧ watched_at a = watched_at b.
Proof.
  rewrite !play_leb_spec. intros [Hab|[E1 H1]] [Hbc|[E2 H2]].
  - destruct (str_lt_irrefl (watched_at a)). apply str_lt_spec in Hbc as [? _]. by eapply str_lt_le_trans.
  - rewrite E2 in Hab. by apply str_lt_irrefl in Hab.
  - rewrite E1 in Hbc. by apply str_lt_irrefl in Hbc.
  - split; [lia|done].
Qed.
Lemma sorted_plays l : StronglySorted (λ a b, play_leb a b = true) (stable_sort play_leb l).
Proof. apply stable_sort_sorted; [apply play_leb_total|apply play_leb_trans]. Qed.

(** ** A batch *)

(** Trakt gives a play one time. *)
Definition timed (at_of : N → string) (p : Play) : Prop := watched_at p = at_of (play_id p).

Lemma timed_same at_of a b : timed at_of a → timed at_of b → play_id a = play_id b →
  play_leb a b = true ∧ play_leb b a = true.
Proof. unfold timed. intros Ea Eb E. rewrite !play_leb_spec. rewrite Ea, Eb, E. split; right; split; done || lia. Qed.

Lemma dedup_from_elem last l p : p ∈ dedup_from last l → p ∈ l.
Proof.
  revert last. induction l as [|q l IH]; intros last; cbn; [done|]. case_match; [by right; eauto|].
  intros [->|?]%elem_of_cons; [left|right; eauto].
Qed.
Lemma dedup_from_keeps last l p : p ∈ l → play_id p ≠ last → ∃ q, q ∈ dedup_from last l ∧ play_id q = play_id p.
Proof.
  revert last. induction l as [|q l IH]; intros last; cbn; [by intros ?%not_elem_of_nil|].
  intros [->|Hp]%elem_of_cons Hne.
  - destruct (N.eqb_spec (play_id q) last); [done|]. exists q. split; [left|done].
  - destruct (N.eqb_spec (play_id q) last) as [E|]; [by apply IH|].
    destruct (decide (play_id p = play_id q)) as [E|Hq]; [exists q; split; [left|done]|].
    destruct (IH (play_id q) Hp Hq) as (r & ? & ?). exists r. split; [by right|done].
Qed.
Lemma dedup_by_id_elem l p : p ∈ dedup_by_id l → p ∈ l.
Proof. destruct l as [|q l]; [done|]. intros [->|?]%elem_of_cons; [left|right]. by eapply dedup_from_elem. Qed.
Lemma dedup_by_id_keeps l p : p ∈ l → ∃ q, q ∈ dedup_by_id l ∧ play_id q = play_id p.
Proof.
  destruct l as [|q l]; [by intros ?%not_elem_of_nil|]. cbn. intros [->|Hp]%elem_of_cons; [exists q; split; [left|done]|].
  destruct (decide (play_id p = play_id q)) as [E|Hq]; [exists q; split; [left|done]|].
  destruct (dedup_from_keeps (play_id q) l p Hp Hq) as (r & ? & ?). exists r. split; [by right|done].
Qed.

Lemma dedup_from_lt at_of h l :
  timed at_of h → Forall (timed at_of) l → Forall (λ p, play_leb h p = true) l →
  StronglySorted (λ a b, play_leb a b = true) l →
  play_id h ∉ play_id <$> dedup_from (play_id h) l ∧ NoDup (play_id <$> dedup_from (play_id h) l).
Proof.
  intros Hh HT HL HS. revert h Hh HL. induction HS as [|p l HS IH HF]; intros h Hh HL; cbn.
  { split; [apply not_elem_of_nil|constructor]. }
  apply Forall_cons in HT as [Hp HT]. apply Forall_cons in HL as [Hhp HL]. specialize (IH HT).
  destruct (N.eqb_spec (play_id p) (play_id h)) as [E|Hne]; [by apply IH|].
  destruct (IH p Hp HF) as [H1 H2]. rewrite fmap_cons. split; [|by constructor].
  rewrite not_elem_of_cons. split; [done|]. intros (q & Eq & Hq)%list_elem_of_fmap. apply dedup_from_elem in Hq.
  pose proof (Forall_in _ _ _ HT Hq) as Htq. pose proof (Forall_in _ _ _ HF Hq) as Hpq. cbn in Hpq.
  destruct (timed_same at_of h q Hh Htq Eq) as [_ Hqh]. apply Hne.
  by apply (play_leb_antisym p h); [eapply play_leb_trans|].
Qed.

Lemma dedup_from_sorted last l :
  StronglySorted (λ a b, play_leb a b = true) l → StronglySorted (λ a b, play_leb a b = true) (dedup_from last l).
Proof.
  intros HS. revert last. induction HS as [|p k HS IH HF]; intros last; cbn; [constructor|]. case_match; [done|].
  constructor; [done|]. apply Forall_forall. intros x Hx%dedup_from_elem. by eapply Forall_in in HF.
Qed.
Lemma dedup_by_id_sorted l :
  StronglySorted (λ a b, play_leb a b = true) l → StronglySorted (λ a b, play_leb a b = true) (dedup_by_id l).
Proof.
  intros [|h k HS HF]; [constructor|]. constructor; [by apply dedup_from_sorted|].
  apply Forall_forall. intros x Hx%dedup_from_elem. by eapply Forall_in in HF.
Qed.
Lemma batch_elem max l p : p ∈ batch_plays max l → p ∈ l.
Proof. intros H%take_elem%dedup_by_id_elem. by apply stable_sort_elem in H. Qed.

Section batch.
Context (at_of : N → string) (l : list Play) (Htimed : Forall (timed at_of) l).

Lemma dedup_sorted_nodup : NoDup (play_id <$> dedup_by_id (stable_sort play_leb l)).
Proof using Htimed.
  assert (Forall (timed at_of) (stable_sort play_leb l)) as HT.
  { apply Forall_forall. intros p Hp%stable_sort_elem. by eapply Forall_forall in Htimed. }
  pose proof (sorted_plays l) as HS. destruct (stable_sort play_leb l) as [|h k]; [constructor|].
  apply Forall_cons in HT as [Hh HT]. inversion HS as [|? ? HS' HF]; subst. cbn.
  destruct (dedup_from_lt at_of h k Hh HT HF HS'). by constructor.
Qed.
Lemma batch_nodup max : NoDup (play_id <$> batch_plays max l).
Proof using Htimed.
  pose proof dedup_sorted_nodup as H. unfold batch_plays. rewrite <- (take_drop max (dedup_by_id _)), fmap_app in H.
  by apply NoDup_app in H as [? _].
Qed.
(** What the cap leaves for later comes after what it sends. *)
Lemma batch_rest max p : p ∈ l →
  (∃ q, q ∈ batch_plays max l ∧ play_id q = play_id p) ∨ ∀ q, q ∈ batch_plays max l → play_leb q p = true.
Proof using Htimed.
  intros Hp. destruct (dedup_by_id_keeps (stable_sort play_leb l) p) as (r & Hr & Er); [by apply stable_sort_elem|].
  rewrite <- (take_drop max) in Hr. apply elem_of_app in Hr as [Hr|Hr]; [left; eauto|right]. intros q Hq.
  pose proof (dedup_by_id_sorted _ (sorted_plays l)) as HS.
  rewrite <- (take_drop max) in HS. apply StronglySorted_app in HS as (Hqr & _).
  specialize (Hqr q r Hq Hr). cbn in Hqr. eapply play_leb_trans; [exact Hqr|].
  eapply (timed_same at_of r p); [| |exact Er].
  - eapply (Forall_in _ _ _ Htimed), stable_sort_elem, dedup_by_id_elem. rewrite <- (take_drop max). apply elem_of_app. by right.
  - by apply (Forall_in _ _ _ Htimed).
Qed.
End batch.

(** *** The cursor *)

(** What a cursor counts as done. *)
Definition handled (c : string) (ids : gset N) (p : Play) : Prop :=
  str_lt (watched_at p) c ∨ watched_at p = c ∧ play_id p ∈ ids.
Lemma is_fresh_spec s p : is_fresh s p = true ↔ ¬ handled (cursor s) (cursor_ids s) p.
Proof.
  unfold is_fresh, handled, str_lt. destruct (String.leb (cursor s) (watched_at p)) eqn:E; cbn.
  - rewrite negb_true_iff, andb_false_iff, !bool_decide_eq_false.
    destruct (decide (watched_at p = cursor s)), (decide (play_id p ∈ cursor_ids s)); naive_solver.
  - naive_solver.
Qed.

Lemma max_string_spec l : match max_string l with
  | None => l = [] | Some t => t ∈ l ∧ ∀ s, s ∈ l → str_le s t end.
Proof.
  destruct l as [|a l]; [done|]. cbn.
  assert (∀ b l, let t := fold_left (λ x y, if String.leb x y then y else x) l b in
    (t = b ∨ t ∈ l) ∧ str_le b t ∧ ∀ s, s ∈ l → str_le s t) as Hgen.
  { intros b k. revert b. induction k as [|c k IH]; intros b; cbn.
    { split; [by left|]. split; [apply str_le_refl|]. by intros ? ?%not_elem_of_nil. }
    destruct (IH (if String.leb b c then c else b)) as (Hin & Hle & Hall). set (t := fold_left _ _ _) in *.
    assert (str_le b t ∧ str_le c t) as [Hb Hc].
    { destruct (String.leb b c) eqn:E.
      - split; [by eapply str_le_trans|done].
      - split; [done|]. assert (str_lt c b) as [? _]%str_lt_spec by done. by eapply str_le_trans. }
    split; [|split; [done|]].
    - destruct Hin as [->|?]; [|by right; right]. case_match; [right; left|by left].
    - intros s [->|?]%elem_of_cons; auto. }
  destruct (Hgen a l) as (Hin & Hle & Hall). split.
  - destruct Hin as [->|?]; [left|by right].
  - intros s [->|?]%elem_of_cons; auto.
Qed.
Lemma newest_spec plays top ids : newest plays = Some (top, ids) →
  (∃ p, p ∈ plays ∧ watched_at p = top) ∧ (∀ p, p ∈ plays → str_le (watched_at p) top) ∧
  (∀ k, k ∈ ids ↔ ∃ p, p ∈ plays ∧ watched_at p = top ∧ play_id p = k).
Proof.
  unfold newest. pose proof (max_string_spec (watched_at <$> plays)) as H.
  destruct (max_string _) as [t|]; [|done]. intros [= <- <-]. destruct H as [(p & -> & Hp)%list_elem_of_fmap Hle].
  split; [by exists p|]. split.
  - intros q Hq. apply Hle, list_elem_of_fmap. eauto.
  - intros k. rewrite elem_of_list_to_set, list_elem_of_fmap. setoid_rewrite list_elem_of_filter. naive_solver.
Qed.
Lemma newest_handles plays top ids p : newest plays = Some (top, ids) → p ∈ plays → handled top ids p.
Proof.
  intros (_ & Hle & Hids)%newest_spec Hp. unfold handled. destruct (decide (watched_at p = top)) as [E|Hne].
  - right. split; [done|]. apply Hids. eauto.
  - left. apply str_lt_spec. split; [by apply Hle|done].
Qed.
Lemma next_cursor_handles s plays next p : next_cursor s plays = Some next → p ∈ plays → handled next.1 next.2 p.
Proof.
  unfold next_cursor. destruct (newest plays) as [[c ids]|] eqn:E; [|done]. cbn. intros [= <-] Hp.
  pose proof (newest_handles _ _ _ _ E Hp) as [?|[? ?]]; case_bool_decide; cbn; [by left|by left|right..]; set_solver.
Qed.
(** A cursor only moves forward over fresh plays. *)
Lemma next_cursor_keeps s plays next p :
  next_cursor s plays = Some next → Forall (λ p, is_fresh s p = true) plays →
  handled (cursor s) (cursor_ids s) p → handled next.1 next.2 p.
Proof.
  unfold next_cursor. destruct (newest plays) as [[c ids]|] eqn:E; [|done]. cbn. intros [= <-] HF.
  apply newest_spec in E as ((q & Hq & Eq) & _). apply (Forall_in _ _ _ HF), is_fresh_spec in Hq. unfold handled in *.
  assert (str_le (cursor s) c) as Hle.
  { destruct (str_le_lt (cursor s) c) as [?|Hlt]; [done|]. destruct Hq. left. by rewrite Eq. }
  case_bool_decide as Ec; cbn.
  - subst c. rewrite <- Ec. set_solver.
  - intros [?|[-> ?]]; left; [by eapply str_lt_le_trans|]. by apply str_lt_spec.
Qed.

(** C15: the cap skips nothing: of the plays a run has to send, the cursor it leaves behind handles
    exactly those it sent, so the others are fresh again in the next run. *)
Theorem cap_skips_nothing s max l next at_of :
  Forall (timed at_of) l → Forall (λ p, is_fresh s p = true) l →
  next_cursor s (batch_plays max l) = Some next →
  ∀ p, p ∈ l →
    (is_fresh (mkState next.1 next.2 (seen s) None) p = false ↔ ∃ q, q ∈ batch_plays max l ∧ play_id q = play_id p).
Proof.
  intros HT HF Hn p Hp. rewrite <- not_true_iff_false, is_fresh_spec. cbn.
  assert (¬ ¬ handled next.1 next.2 p ↔ handled next.1 next.2 p) as ->.
  { unfold handled, str_lt. destruct (String.leb next.1 (watched_at p)), (decide (watched_at p = next.1)), (decide (play_id p ∈ next.2)); naive_solver. }
  pose proof (Forall_in _ _ _ HT Hp) as Htp.
  split.
  - intros Hh. destruct (batch_rest at_of l HT max p Hp) as [?|Hlast]; [done|].
    unfold next_cursor in Hn. destruct (newest (batch_plays max l)) as [[c ids]|] eqn:E; [|done]. cbn in Hn. injection Hn as <-.
    apply newest_spec in E as ((q & Hq & Eq) & _ & Hids). specialize (Hlast q Hq).
    assert (str_le c (watched_at p)) as Hle.
    { apply play_leb_spec in Hlast as [[? _]%str_lt_spec|[<- _]]; [by rewrite <- Eq|]. rewrite Eq. apply str_le_refl. }
    assert (watched_at p = c ∧ (play_id p ∈ ids ∨ cursor s = c ∧ play_id p ∈ cursor_ids s)) as [Ep Hin].
    { unfold handled in Hh. case_bool_decide; cbn in Hh; destruct Hh as [Hlt|[? ?]];
        try (destruct (str_lt_irrefl c); by eapply str_le_lt_trans); set_solver. }
    destruct Hin as [(r & Hr & _ & Er)%Hids|[Ec Hin]]; [eauto|].
    apply (Forall_in _ _ _ HF), is_fresh_spec in Hp. destruct Hp. right. by rewrite Ep.
  - intros (q & Hq & Eq). pose proof (Forall_in _ _ _ HT (batch_elem _ _ _ Hq)) as Htq.
    pose proof (next_cursor_handles _ _ _ _ Hn Hq) as Hh. unfold handled, timed in *. by rewrite Htp, <- Eq, <- Htq.
Qed.
Lemma cap_skips_nothing_witness :
  let p k t := mkPlay k t "Heat" None k None (Some k) in
  let s := mkState "2026-01-01" {[1%N]} ∅ None in
  let at_ k := if (k =? 3)%N then "2026-02-02" else "2026-01-01" in
  let l := [p 3 "2026-02-02"; p 5 "2026-01-01"; p 2 "2026-01-01"]%N in
  is_fresh (mkState "2026-01-01" {[1%N; 2%N]} ∅ None) (p 5 "2026-01-01")%N = true.
Proof.
  intros p s at_ l. apply not_false_is_true. intros E.
  assert (p 5 "2026-01-01" ∈ l)%N as Hp by (vm_compute; set_solver).
  destruct (proj1 (cap_skips_nothing s 1 l ("2026-01-01", {[1%N; 2%N]}) at_ ltac:(repeat constructor) ltac:(repeat constructor)
    ltac:(vm_compute; reflexivity) _ Hp) E) as (q & Hq & Eq).
  vm_compute in Hq. apply list_elem_of_singleton in Hq as ->. discriminate Eq.
Defined.

(** ** The rows of a batch *)

Definition r_id (r : Row) : N := play_id (r_play r).
Definition has_tmdb (p : Play) : bool := bool_decide (is_Some (tmdb p)).

Section build.
Context (rs : gmap N N).

(** The rows: what the loop adds to a batch under construction. *)
Lemma build_step_fold plays b seen b' seen' : fold_left (build_step rs) plays (b, seen) = (b', seen') → ∃ new,
  rows b' = rows b ++ new ∧ films b' = films b ++ (film_label ∘ r_play <$> new) ∧
  skipped b' = skipped b ++ (film_label <$> filter (λ p, tmdb p = None) plays) ∧
  (r_play <$> new) = filter (λ p, is_Some (tmdb p)) plays ∧
  Forall (λ r, tmdb (r_play r) = Some (r_tmdb r) ∧ r_rating r = rs !! trakt (r_play r)) new ∧
  seen' = list_to_set (r_tmdb <$> new) ∪ seen ∧
  ∀ pre r post, new = pre ++ r :: post → (r_rewatch r = true ↔ r_tmdb r ∈ seen ∨ r_tmdb r ∈ r_tmdb <$> pre).
Proof.
  revert b seen. induction plays as [|p plays IH]; intros b seen; cbn [fold_left].
  { intros [= -> ->]. exists []. rewrite !app_nil_r. split_and!; try done; [set_solver|]. intros [] ???; done. }
  unfold build_step at 2. rewrite !filter_cons. destruct (tmdb p) as [t|] eqn:Et.
  - intros (new & E1 & E2 & E3 & E4 & E5 & E6 & E7)%IH. cbn in E1, E2, E3.
    exists (mkRow p t (rs !! trakt p) (bool_decide (t ∈ seen)) :: new).
    rewrite decide_False, decide_True by (done || by eexists). rewrite E1, E2, E3, <- !app_assoc. cbn. rewrite E4.
    split_and!; try done; [by constructor|set_solver|].
    intros [|r' pre] r post [= <- E]; cbn; [rewrite bool_decide_eq_true; set_solver|].
    rewrite (E7 _ _ _ E). set_solver.
  - intros (new & E1 & E2 & E3 & E4 & E5 & E6 & E7)%IH. cbn in E1, E2, E3. exists new.
    rewrite decide_True, decide_False by (done || by intros [? ?]). rewrite E3, <- app_assoc. done.
Qed.

(** The import file holds a row for every play with a TMDB id, oldest first, with its rating; a row
    is a rewatch exactly when the film was in the diary or in an earlier row; and [seen] gains exactly
    the films of the rows. *)
Theorem build_spec plays seen b seen' : build plays rs seen = (b, seen') →
  (r_play <$> rows b) = filter (λ p, is_Some (tmdb p)) (stable_sort play_leb plays) ∧
  films b = (film_label ∘ r_play <$> rows b) ∧
  skipped b = (film_label <$> filter (λ p, tmdb p = None) (stable_sort play_leb plays)) ∧
  Forall (λ r, tmdb (r_play r) = Some (r_tmdb r) ∧ r_rating r = rs !! trakt (r_play r)) (rows b) ∧
  seen' = list_to_set (r_tmdb <$> rows b) ∪ seen ∧
  ∀ pre r post, rows b = pre ++ r :: post → (r_rewatch r = true ↔ r_tmdb r ∈ seen ∨ r_tmdb r ∈ r_tmdb <$> pre).
Proof. intros (new & -> & -> & -> & ? & ? & ? & ?)%build_step_fold. done. Qed.
Lemma build_rows plays seen b seen' : build plays rs seen = (b, seen') →
  (r_play <$> rows b) = filter (λ p, is_Some (tmdb p)) (stable_sort play_leb plays).
Proof. by intros (new & -> & _ & _ & ? & _)%build_step_fold. Qed.
End build.
Lemma build_spec_witness :
  let p k t := mkPlay k t "Heat" None k None (Some 949%N) in
  match build [p 2 "2026-02-02"; p 1 "2026-01-01"]%N ∅ ∅ with
  | (b, _) => r_rewatch <$> rows b = [false; true] ∧ play_id ∘ r_play <$> rows b = [1; 2]%N
  end.
Proof.
  intros p. destruct (build _ ∅ ∅) as [b seen'] eqn:E. pose proof (build_spec _ _ _ _ _ E) as (H & _).
  injection E as <- _. split; [reflexivity|]. change (play_id ∘ r_play <$> ?l) with (play_id ∘ r_play <$> l).
  by rewrite list_fmap_compose, H.
Defined.

(** ** Reading every page *)

Section paging.
#[local] Set Default Proof Using "Type*".
Context `{Sites} {A : Type} (as_ : Value → option A) (cfg : Config) (path : string) (query : list (string * string)).
(** A list of [count] pages, whenever it is asked for. *)
Context (count : nat) (page_items : nat → list A).
Context (served : ∀ k page, 1 ≤ page ≤ count → ∃ r,
  trakt_get k (users_url cfg path) (page_query query (N.of_nat page)) = Ok r ∧ is_success (status r) = true ∧
  reply_pages r = N.of_nat count ∧ body r ≫= list_of as_ = Some (page_items page)).

Lemma pages_from_complete n page out w :
  1 ≤ page ≤ count → count - page < n →
  (pages_from n as_ cfg path query (N.of_nat page) out w).2 = Ok (out ++ concat (page_items <$> seq page (S count - page))).
Proof.
  revert page out w. induction n as [|n IH]; intros page out w Hp Hn; [lia|]. cbn [pages_from].
  unfold mbind, SE_bind, ask at 1. cbn [fst snd]. destruct (served (step w) page Hp) as (r & -> & Es & Ec & Ei).
  unfold reply_items, lift. rewrite Es, Ei, Ec. cbn [negb]. replace (S count - page) with (S (count - page)) by lia. cbn [seq fmap list_fmap concat].
  destruct (N.leb_spec (N.of_nat count) (N.of_nat page)) as [Hle|Hlt].
  - assert (count - page = 0) as -> by lia. cbn. by rewrite app_nil_r.
  - replace (N.of_nat page + 1)%N with (N.of_nat (S page)) by lia. rewrite IH by lia.
    rewrite <- app_assoc. cbn [Nat.sub]. done.
Qed.

(** Reading a paged list ends, within the fuel for a hundred thousand pages, with the items of
    every page in order. *)
Theorem pages_complete w : 1 ≤ count ≤ PAGES_FUEL →
  (pages as_ cfg path query w).2 = Ok (concat (page_items <$> seq 1 count)).
Proof.
  intros Hc. unfold pages. change 1%N with (N.of_nat 1). rewrite pages_from_complete by lia.
  by replace (S count - 1) with count by lia.
Qed.
End paging.

(** ** Nothing is uploaded twice *)

Section safety.
#[local] Set Default Proof Using "Type*".
Context `{Sites, StateText, !StateTextLaws}.
(** Trakt gives every play one time, and it is not empty. *)
Context (at_of : N → string) (at_ne : ∀ k, at_of k ≠ "").
Context (trakt_timed : ∀ k url query r plays,
  trakt_get k url query = Ok r → body r ≫= list_of play_of = Some plays → Forall (timed at_of) plays).

(** The diary's plays are done for a cursor. *)
Definition covers (w : World) (c : string) (ids : gset N) : Prop := ∀ r, r ∈ diary w → handled c ids (r_play r).
Definition state_ok (w : World) (s : State) : Prop :=
  match pending s with
  | None => covers w (cursor s) (cursor_ids s)
  | Some p => covers w (p_cursor p) (p_cursor_ids p) ∧ (landed w = false → covers w (cursor s) (cursor_ids s))
  end.
Definition stored_state (w : World) (s : State) : Prop :=
  match state_file w with None => s = State_default | Some t => t = encode_state s end.
Definition diary_ok (w : World) : Prop := NoDup (r_id <$> diary w) ∧ Forall (λ r, timed at_of (r_play r)) (diary w).
Definition inv (w : World) : Prop := diary_ok w ∧ ∃ s, stored_state w s ∧ state_ok w s.

(** Worlds that differ only in what does not matter: the temp file, the import file and the step. *)
Definition same (w w' : World) : Prop :=
  state_file w' = state_file w ∧ diary w' = diary w ∧ landed w' = landed w.
(** The same, with a new state on disk. *)
Definition saved (s : State) (w w' : World) : Prop :=
  state_file w' = Some (encode_state s) ∧ diary w' = diary w ∧ landed w' = landed w.
(** [w] holds state [s], and all is well. *)
Definition holds (s : State) (w : World) : Prop := diary_ok w ∧ stored_state w s ∧ state_ok w s.

Lemma same_trans w1 w2 w3 : same w1 w2 → same w2 w3 → same w1 w3.
Proof. intros (? & ? & ?) (? & ? & ?). split_and!; congruence. Qed.
Lemma holds_inv (s : State) w : holds s w → inv w.
Proof. intros (? & ? & ?). split; [done|]. by exists s. Qed.
Lemma holds_same (s : State) w w' : same w w' → holds s w → holds s w'.
Proof. unfold holds, diary_ok, stored_state, state_ok, covers. by intros (-> & -> & ->). Qed.
Lemma holds_saved (s' : State) w w' : saved s' w w' → diary_ok w → state_ok w s' → holds s' w'.
Proof. unfold holds, diary_ok, stored_state, state_ok, covers. by intros (-> & -> & ->). Qed.

Lemma wp_ask {A} (f : nat → A) E (Q : A → World → Prop) w :
  (∀ w', same w w' → Q (f (step w)) w') → wp (ask f) E Q w.
Proof. intros HQ. unfold wp, ask. by apply HQ. Qed.
Lemma wp_save_state (s : State) E (Q : () → World → Prop) w :
  (∀ w', same w w' → E w') → (∀ w', saved s w w' → E w' ∧ Q () w') → wp (save s) E Q w.
Proof.
  intros HE HQ. unfold save, write_tmp, rename_tmp. apply wp_bind, wp_bind, wp_ask. intros w1 (S1 & D1 & L1).
  assert (∀ c w', same w w' → same w (set_tmp c w')) as Htmp by done.
  destruct (disk (step w)); [|apply wp_throw; by apply HE|apply wp_bind, wp_modify, wp_throw, HE; by apply Htmp].
  apply wp_modify, wp_bind, wp_ask. intros w2 (S2 & D2 & L2). cbn in *.
  assert (saved s w (set_state (Some (encode_state s)) w2)) as Hs by (split_and!; cbn; congruence).
  destruct (disk _).
  - by apply wp_modify, HQ.
  - apply wp_throw, HE. split_and!; congruence.
  - apply wp_bind, wp_modify, wp_throw. by apply (HQ _ Hs).
Qed.
Lemma wp_load (s : State) w E (Q : State → World → Prop) : holds s w → Q s w → wp load E Q w.
Proof.
  intros (_ & Hs & _) HQ. unfold load, stored_state in *. apply wp_bind, wp_gets.
  destruct (state_file w) as [t|]; subst; [|by apply wp_ret]. rewrite state_roundtrip. exact HQ.
Qed.
(** Reading pages only asks. *)
Lemma wp_pages {A} (I : A → Prop) n as_ cfg path query page out (w : World) E (Q : list A → World → Prop) :
  Forall I out →
  (∀ k url q r batch, trakt_get k url q = Ok r → body r ≫= list_of as_ = Some batch → Forall I batch) →
  (∀ w', same w w' → E w') → (∀ l w', same w w' → Forall I l → Q l w') →
  wp (pages_from n as_ cfg path query page out) E Q w.
Proof.
  intros Hout Hitems HE HQ. assert (∀ w0, same w w0 → wp (pages_from n as_ cfg path query page out) E Q w0) as Hgen.
  2:{ apply Hgen. done. }
  revert page out Hout. induction n as [|n IH]; intros page out Hout w0 G0; cbn [pages_from]; [by apply wp_throw, HE|].
  apply wp_bind, wp_ask. intros w1 G1. assert (same w w1) as Hs by (by eapply same_trans).
  destruct (trakt_get (step w0) _ _) as [r|e] eqn:Er; [|by apply wp_throw, HE].
  apply wp_bind, wp_lift; [by apply HE|]. intros batch Hb. unfold reply_items in Hb. case_match; [done|].
  destruct (body r ≫= list_of as_) as [b'|] eqn:Eb; [|done]. injection Hb as <-.
  assert (Forall I (out ++ b')) as Hob by (apply Forall_app; eauto).
  case_match; [by apply wp_ret, HQ|]. by apply IH.
Qed.

(** The batch of a run, on a world whose state it was made for. *)
Definition batch_ok (s : State) (b : Batch) (next : string * gset N) : Prop :=
  NoDup (r_id <$> rows b) ∧
  Forall (λ r, timed at_of (r_play r) ∧ ¬ handled (cursor s) (cursor_ids s) (r_play r) ∧ handled next.1 next.2 (r_play r)) (rows b) ∧
  ∀ p, handled (cursor s) (cursor_ids s) p → handled next.1 next.2 p.

Lemma timed_handled c ids p q : timed at_of p → timed at_of q → play_id p = play_id q → handled c ids p → handled c ids q.
Proof. unfold timed, handled. intros Ep Eq E. by rewrite Ep, Eq, E. Qed.
(** The rows of a batch are new to the diary. *)
Lemma land_ok (s : State) b next w :
  batch_ok s b next → diary_ok w → covers w (cursor s) (cursor_ids s) →
  diary_ok (land (rows b) w) ∧ covers (land (rows b) w) next.1 next.2.
Proof.
  intros (ND & HF & Hk) [HD HT] Hc. unfold diary_ok, covers, land. cbn. rewrite fmap_app. split; [split|].
  - apply NoDup_app. split; [done|]. split; [|done]. intros k (r & -> & Hr)%list_elem_of_fmap (r' & Er & Hr')%list_elem_of_fmap.
    destruct (Forall_in _ _ _ HF Hr') as (Ht' & Hn & _). apply Hn.
    eapply timed_handled; [exact (Forall_in _ _ _ HT Hr)|exact Ht'|exact Er|]. by apply Hc.
  - apply Forall_app. split; [done|]. eapply Forall_impl; [exact HF|]. by intros r (? & _).
  - intros r [Hr|Hr]%elem_of_app; [by apply Hk, Hc|]. by destruct (Forall_in _ _ _ HF Hr) as (_ & _ & ?).
Qed.

(** The state in memory agrees with the one on disk but for the films seen. *)
Definition on_disk (s sd : State) : Prop := pending sd = None ∧ cursor sd = cursor s ∧ cursor_ids sd = cursor_ids s.

(** Any world the state still fits may be the last. *)
Lemma wp_drive cfg b (s sd : State) next seen' w :
  batch_ok s b next → on_disk s sd → holds sd w → wp (drive cfg b s next seen') inv (λ _, inv) w.
Proof.
  intros Hb (Hp & Ec & Ei) Hw. unfold drive. apply wp_bind, wp_ask. intros w1 G1. apply (holds_same _ _ _ G1) in Hw.
  apply wp_bind, wp_lift; [by eapply holds_inv|]. intros _ _. apply wp_bind, wp_modify.
  assert (holds sd (choose w1)) as Hw1 by (unfold holds, state_ok in *; by rewrite Hp in *).
  assert (landed (choose w1) = false) as Hl by done. revert Hw1 Hl. generalize (choose w1). clear Hw G1 w w1. intros w Hw Hl.
  apply wp_bind, wp_gets, wp_bind, wp_ask. intros w2 G2.
  apply wp_bind, wp_lift; [by eapply holds_inv, holds_same|]. intros summary _.
  case_match; [by apply wp_ret; eapply holds_inv, holds_same|]. apply wp_bind, wp_ask. intros w3 G3.
  assert (same w w3) as Hs by (by eapply same_trans).
  pose proof (holds_same _ _ _ Hs Hw) as (Hd & _ & Hok). unfold state_ok in Hok. rewrite Hp, Ec, Ei in Hok.
  destruct Hb as (ND & HF & Hk).
  apply wp_bind, wp_save_state. { intros w4 G4. eapply holds_inv, (holds_same sd w3); [done|]. by eapply holds_same. }
  intros w4 G4. assert (holds (mkState (cursor s) (cursor_ids s) (seen s)
    (Some (mkPending (rfc3339_now (clock (step w2)).1 (clock (step w2)).2) (films b) next.1 next.2 seen'))) w4) as Hw4.
  { apply (holds_saved _ _ _ G4 Hd). unfold state_ok. cbn. split; [|done]. intros r Hr. by apply Hk, Hok. }
  split; [by eapply holds_inv|]. destruct G4 as (E4 & D4 & L4).
  apply wp_bind. unfold wp, session_confirm_. destruct (session_confirm (step w4)) as [took r].
  set (wc := mkWorld _ _ _ _ _ _).
  assert (diary_ok (if took then land (rows b) wc else wc) ∧ covers (if took then land (rows b) wc else wc) next.1 next.2 ∧
    inv (if took then land (rows b) wc else wc)) as (Hd5 & Hc5 & Hi5).
  { destruct Hw4 as (Hd4 & Hs4 & Hk4). destruct took.
    - assert (covers wc (cursor s) (cursor_ids s)) as Hc by (intros r' Hr'; apply Hok; cbn in Hr'; by rewrite D4 in Hr').
      destruct (land_ok s b next wc) as [? ?]; [done|exact Hd4|done|]. split; [done|]. split; [done|].
      split; [done|]. eexists. split; [exact Hs4|]. split; [done|]. cbn. done.
    - split; [exact Hd4|]. split; [by apply Hk4|]. split; [exact Hd4|]. eexists. split; [exact Hs4|exact Hk4]. }
  destruct r as [[]|]; [|by apply wp_throw|done].
  apply wp_bind, wp_save_state.
  - intros w6 (E6 & D6 & L6). destruct Hi5 as (_ & s6 & Hs6 & Hk6). split; [unfold diary_ok; by rewrite D6|].
    exists s6. unfold stored_state, state_ok, covers in *. by rewrite E6, D6, L6.
  - intros w6 G6. assert (inv w6) by (eapply holds_inv, (holds_saved _ _ _ G6); done). split; [done|]. by apply wp_ret.
Qed.

Lemma batch_of_ok (s : State) max l rs b seen' next :
  Forall (timed at_of) l → Forall (λ p, is_fresh s p = true) l →
  build (batch_plays max l) rs (seen s) = (b, seen') → next_cursor s (batch_plays max l) = Some next →
  batch_ok s b next.
Proof.
  intros HT HF Eb En. pose proof (build_rows _ _ _ _ _ Eb) as Er.
  assert (∀ r, r ∈ rows b → r_play r ∈ batch_plays max l) as Hin.
  { intros r Hr. assert (r_play r ∈ r_play <$> rows b) as Hr' by (apply list_elem_of_fmap; eauto).
    rewrite Er in Hr'. apply list_elem_of_filter in Hr' as [_ ?]. by apply stable_sort_elem in H2. }
  split; [|split].
  - unfold r_id. change (NoDup (play_id ∘ r_play <$> rows b)). rewrite list_fmap_compose, Er.
    assert (NoDup (play_id <$> stable_sort play_leb (batch_plays max l))) as ND.
    { rewrite stable_sort_perm. by eapply batch_nodup. }
    revert ND. generalize (stable_sort play_leb (batch_plays max l)). intros k ND.
    eapply sublist_NoDup; [exact ND|]. apply fmap_sublist, sublist_filter.
  - apply Forall_forall. intros r Hr%Hin. pose proof (batch_elem _ _ _ Hr) as Hl.
    split; [by eapply Forall_in in HT|]. split; [by apply is_fresh_spec, (Forall_in _ _ _ HF)|].
    by eapply next_cursor_handles.
  - intros p. eapply next_cursor_keeps; [done|]. apply Forall_forall. intros q Hq%batch_elem. by apply (Forall_in _ _ _ HF).
Qed.
Lemma wp_ratings cfg E (Q : option (gmap N N) → World → Prop) w :
  (∀ rs w', same w w' → Q rs w') → wp (ok (ratings cfg)) E Q w.
Proof.
  intros HQ. apply wp_ok, wp_bind, (wp_pages (λ _, True)); [done|intros; by apply Forall_true|by apply HQ|].
  intros l w' G _. by apply wp_ret, HQ.
Qed.
Lemma wp_upload cfg (s sd : State) l w :
  on_disk s sd → holds sd w → pending s = None → Forall (timed at_of) l → Forall (λ p, is_fresh s p = true) l →
  wp (upload cfg s l) inv (λ _, inv) w.
Proof.
  intros Hd Hw Hp HT HF. unfold upload. apply wp_bind, wp_ratings. intros rs w1 G1.
  pose proof (holds_same _ _ _ G1 Hw) as Hw1. clear Hw G1. destruct (build _ _ _) as [b seen'] eqn:Eb.
  destruct (next_cursor _ _) as [next|] eqn:En; [|by apply wp_throw; eapply holds_inv].
  pose proof (batch_of_ok _ _ _ _ _ _ _ HT HF Eb En) as Hb. case_bool_decide.
  { apply wp_bind, wp_save_state; [intros w2 G2; by eapply holds_inv, holds_same|]. intros w2 G2.
    enough (inv w2) by (split; [done|by apply wp_ret]). eapply holds_inv, (holds_saved _ _ _ G2); [apply Hw1|].
    destruct Hw1 as (_ & _ & Hok), Hd as (Hdp & Ec & Ei), Hb as (_ & _ & Hk). unfold state_ok in *. rewrite Hdp, Ec, Ei in Hok.
    cbn. rewrite Hp. intros r Hr. by apply Hk, Hok. }
  case_match; [by apply wp_ret; eapply holds_inv|]. repeat case_match; try by (apply wp_throw; eapply holds_inv).
  apply wp_bind. unfold write_csv. apply wp_bind, wp_ask. intros w2 G2.
  assert (∀ c, same w1 (set_csv c w2)) as Hcsv by done.
  destruct (disk _).
  - apply wp_modify, wp_bind, wp_ask. intros w3 G3. apply wp_bind, wp_lift; [|intros _ _].
    + eapply holds_inv, holds_same; [exact G3|]. by eapply holds_same.
    + eapply wp_drive; [done..|]. eapply holds_same; [exact G3|]. by eapply holds_same.
  - apply wp_throw. by eapply holds_inv, holds_same.
  - apply wp_bind, wp_modify, wp_throw. by eapply holds_inv, holds_same.
Qed.

Lemma wp_history cfg start E (Q : list Play → World → Prop) w :
  (∀ w', same w w' → E w') → (∀ l w', same w w' → Forall (timed at_of) l → Q l w') →
  wp (history cfg start) E Q w.
Proof. intros HE HQ. by apply (wp_pages (timed at_of)). Qed.

Lemma run_inv cfg w : inv w → inv (run cfg w).1.
Proof.
  intros (Hd & sd & Hs & Hok). apply wp_result. assert (holds sd w) as Hw by done.
  unfold run. apply wp_bind, (wp_load sd); [done|]. destruct (pending sd) as [p|] eqn:Hp; [by apply wp_throw; eapply holds_inv|].
  assert (∀ p, timed at_of p → watched_at p ≠ "") as Hne by (unfold timed; intros p ->; apply at_ne).
  unfold is_baselined. case_bool_decide as Hc; cbn [negb].
  - apply wp_bind, wp_history; [by intros w1 G1; eapply holds_inv, holds_same|]. intros l w1 G1 HT.
    pose proof (holds_same _ _ _ G1 Hw) as Hw1.
    assert (diary w1 = []) as Hnil.
    { destruct Hw1 as ([_ HT1] & _ & Hk). unfold state_ok in Hk. rewrite Hp, Hc in Hk.
      destruct (diary w1) as [|r d] eqn:Ed; [done|]. destruct (Hk r) as [Hlt|[E0 _]]; [rewrite Ed; left|..]; exfalso.
      - unfold str_lt in Hlt. by destruct (watched_at (r_play r)).
      - apply (Hne (r_play r)); [|done]. by inversion HT1. }
    case_bool_decide.
    + apply wp_bind, wp_ask. intros w2 G2. destruct (default _ _) as [c ids].
      apply wp_bind, wp_save_state; [by intros w3 G3; eapply holds_inv, holds_same, holds_same|]. intros w3 G3.
      enough (inv w3) by (split; [done|by apply wp_ret]). destruct G2 as (S2 & D2 & L2), Hw1 as (Hd1 & _ & _).
      eapply holds_inv, (holds_saved _ _ _ G3); [unfold diary_ok in *; by rewrite D2|].
      unfold state_ok, covers. cbn. rewrite D2, Hnil. by intros r ?%not_elem_of_nil.
    + eapply wp_upload; [by split|done|done|..].
      * apply Forall_forall. intros p Hq. rewrite <- list_elem_of_In in Hq || idtac.
        apply list_elem_of_In, filter_In in Hq as [Hq _]. apply (Forall_in _ _ _ HT). by apply list_elem_of_In.
      * apply Forall_forall. intros p Hq. apply list_elem_of_In, filter_In in Hq as [Hq _]. apply list_elem_of_In in Hq.
        apply is_fresh_spec. cbn. rewrite Hc. intros [Hlt|[E _]].
        -- unfold str_lt in Hlt. by destruct (watched_at p).
        -- by apply (Hne p); [apply (Forall_in _ _ _ HT)|].
  - apply wp_bind, wp_history; [by intros w1 G1; eapply holds_inv, holds_same|]. intros l w1 G1 HT.
    pose proof (holds_same _ _ _ G1 Hw) as Hw1. case_bool_decide; [by apply wp_ret; eapply holds_inv|].
    eapply wp_upload; [by split|done|done|..]; apply Forall_forall; intros p Hq; apply list_elem_of_In, filter_In in Hq as [Hq Hf].
    + apply (Forall_in _ _ _ HT). by apply list_elem_of_In.
    + done.
Qed.
Lemma resolve_inv yes w : inv w → (yes = false → landed w = false) → inv (resolve yes w).1.
Proof.
  intros (Hd & sd & Hs & Hok) Hy. apply wp_result. assert (holds sd w) as Hw by done.
  unfold resolve. apply wp_bind, (wp_load sd); [done|]. apply wp_bind, wp_lift; [by eapply holds_inv|].
  intros [s fs] E. apply wp_bind, wp_save_state; [by intros w1 G1; eapply holds_inv, holds_same|].
  intros w1 G1. enough (inv w1) by (split; [done|by apply wp_ret]). apply (holds_inv s), (holds_saved _ _ _ G1 Hd).
  unfold state_ok in *. unfold ack, discard in E. destruct (pending sd) as [p|]; [|by destruct yes].
  destruct Hok as [H2 H3], yes; injection E as <- _; cbn; auto.
Qed.

(** What may happen: a run, or settling a batch; a batch is discarded only when it is not in the diary. *)
Inductive event : relation World :=
  | ran cfg w : event w (run cfg w).1
  | acked w : event w (resolve true w).1
  | discarded w : landed w = false → event w (resolve false w).1.

(** C14: over any number of runs and of batches settled by hand, with every request, write, rename and
    browser step free to fail and the process to die there, no play enters the diary twice, as long as
    a batch is discarded only when it is not in the diary. *)
Theorem no_double_upload w w' :
  state_file w = None → diary w = [] → rtc event w w' → NoDup (play_id ∘ r_play <$> diary w').
Proof.
  intros Hs Hd Hr. enough (inv w') as [[? _] _] by done.
  assert (inv w) as Hi.
  { split; [by split; rewrite Hd; constructor|]. exists State_default. unfold stored_state, state_ok, covers. rewrite Hs, Hd.
    split; [done|]. by intros r ?%not_elem_of_nil. }
  clear Hs Hd. induction Hr as [|w w1 w' E Hr IH]; [done|]. apply IH.
  destruct E; [by apply run_inv|by apply resolve_inv|by apply resolve_inv].
Qed.
End safety.

(** *** A concrete site: two plays, one upload *)

Module Reference.
Notation atom := (string + N)%type.
Definition ids_field (ids : gset N) : list atom := inr <$> elements ids.
Definition ids_of (l : list atom) : gset N := list_to_set (omap (λ a, match a with inr n => Some n | inl _ => None end) l).
Definition texts_of (l : list atom) : list string := omap (λ a, match a with inl s => Some s | inr _ => None end) l.
Definition fields (s : State) : list (list atom) :=
  [inl (cursor s)] :: ids_field (cursor_ids s) :: ids_field (seen s) ::
  match pending s with
  | None => []
  | Some p => [[inl (p_at p)]; inl <$> p_films p; [inl (p_cursor p)]; ids_field (p_cursor_ids p); ids_field (p_seen p)]
  end.
Definition of_fields (l : list (list atom)) : option State :=
  match l with
  | [inl c] :: i :: n :: p =>
      match p with
      | [] => Some (mkState c (ids_of i) (ids_of n) None)
      | [[inl t]; fs; [inl pc]; pi; ps] => Some (mkState c (ids_of i) (ids_of n) (Some (mkPending t (texts_of fs) pc (ids_of pi) (ids_of ps))))
      | _ => None
      end
  | _ => None
  end.
Lemma ids_of_field ids : ids_of (ids_field ids) = ids.
Proof.
  unfold ids_of, ids_field. apply set_eq. intros n. rewrite elem_of_list_to_set, list_elem_of_omap.
  setoid_rewrite list_elem_of_fmap. setoid_rewrite elem_of_elements. naive_solver.
Qed.
Lemma state_of_fields s : of_fields (fields s) = Some s.
Proof.
  assert (∀ l, texts_of (inl <$> l) = l) as Ht by (intros l; induction l as [|? ? IH]; [done|]; cbn; f_equal; exact IH).
  destruct s as [c i n [[t f pc pi ps]|]]; cbn; by rewrite ?ids_of_field, ?Ht.
Qed.
#[export] Instance text : StateText := {| encode_state s := bits (encode (fields s)); decode_state t := p ← unbits t; l ← decode p; of_fields l |}.
#[export] Instance text_laws : StateTextLaws.
Proof. intros s. cbn. rewrite unbits_bits. cbn. rewrite decode_encode. apply state_of_fields. Qed.

Definition at_of (k : N) : string := if (k =? 7)%N then "2026-01-02T03:04:05.000Z" else "2026-01-01T00:00:00.000Z".
Definition play_json (k : N) : Value :=
  Object [("id", Number (PosInt k)); ("watched_at", Str (at_of k));
          ("movie", Object [("title", Str "Heat"); ("year", Number (PosInt 1995));
                            ("ids", Object [("trakt", Number (PosInt 5)); ("imdb", Null); ("tmdb", Number (PosInt 949))])])].
(** The click is answered, but without the success text the first time. *)
Definition site (text : string) : Sites := {|
  trakt_get _ url _ := Ok (mkReply 200 None (Some (Array (if contains "history" url then [play_json 7; play_json 8] else []))));
  disk _ := Works; session_open _ := Ok (); session_login _ := Ok (); session_upload _ _ := Ok "2 films";
  session_confirm _ := (true, Ok (if bool_decide (text = "") then Unrecognised "" else Done text)); clock _ := (1792105262, 345)%Z |}.
Lemma site_timed text k url query r plays :
  trakt_get (Sites := site text) k url query = Ok r → body r ≫= list_of play_of = Some plays → Forall (timed at_of) plays.
Proof. cbn. intros [= <-]. cbn [body]. destruct (contains "history" url); intros [= <-]; repeat constructor. Qed.
Definition cfg : Config :=
  mkConfig "https://api.trakt.tv/" "me" "id" "https://letterboxd.com" (Some "me") (Some "pw") "/state" "" "media" "chromium"
    (Some "2020") false false 200 (0, 0)%N 90.
Definition fresh_world : World := mkWorld None None None [] false 0.
End Reference.

(** A list of one page. *)
Lemma pages_complete_witness :
  (@pages (Reference.site "") _ play_of Reference.cfg "history/movies" [] Reference.fresh_world).2 =
  Ok (concat ((λ _, default [] (mapM play_of [Reference.play_json 7; Reference.play_json 8])) <$> seq 1 1)).
Proof.
  apply (@pages_complete (Reference.site "") _ play_of Reference.cfg "history/movies" [] 1
    (λ _, default [] (mapM play_of [Reference.play_json 7; Reference.play_json 8]))).
  - intros k page Hp. eexists. split; [reflexivity|]. split; [reflexivity|].
    split; [reflexivity|]. vm_compute. reflexivity.
  - unfold PAGES_FUEL. apply Nat.leb_le || split; apply Nat.leb_le; vm_compute; reflexivity.
Defined.

(** A run whose success text is missed, a second run, the batch acknowledged, a third run: both plays
    are in the diary once. *)
Lemma no_double_upload_witness :
  let w1 := (@run (Reference.site "") Reference.text Reference.cfg Reference.fresh_world).1 in
  let w2 := (@run (Reference.site "") Reference.text Reference.cfg w1).1 in
  let w3 := (@resolve (Reference.site "") Reference.text true w2).1 in
  let w4 := (@run (Reference.site "") Reference.text Reference.cfg w3).1 in
  (play_id ∘ r_play <$> diary w4) = [8; 7]%N ∧ NoDup (play_id ∘ r_play <$> diary w4).
Proof.
  intros w1 w2 w3 w4. split; [vm_compute; reflexivity|].
  apply (@no_double_upload (Reference.site "") Reference.text Reference.text_laws Reference.at_of
    ltac:(intros k; unfold Reference.at_of; by case_match) (Reference.site_timed "") Reference.fresh_world); [done|done|].
  eapply rtc_l; [apply ran|]. eapply rtc_l; [apply ran|]. eapply rtc_l; [apply acked|]. apply rtc_once, ran.
Defined.
