(* ===== verification/Ota.v ===== *)
(** * Over-the-air updates ([embedded/shared/ota])

    An A/B updater for ESP chips: the boot-time state machine, the trial of a new image and its
    rollback, and the download into the slot that is not running. The flash is a map from addresses
    to bytes; NOR writes only clear bits. The otadata operations of esp-bootloader-esp-idf, the
    bootloader's choice, the HTTP client and SHA-256 are outside the program (class [Chip]), and every
    one of them may fail. A reset or a panic ends the run: it is an error of the monad. So is the loss
    of power, which may come before any of these operations, and while a sector is erased or written. *)

From Stdlib Require Import Ascii.
From stdpp Require Import options.
From S2P Require Import Prelude Text State.
Local Open Scope N_scope.

Inductive AppPartitionSubType : Type := Factory | Ota0 | Ota1 | OtherSlot (n : N).
Inductive OtaImageState : Type := New | PendingVerify | Valid | Invalid | Aborted | Undefined.
#[export] Instance sub_eq_dec : EqDecision AppPartitionSubType.
Proof. solve_decision. Defined.
#[export] Instance image_state_eq_dec : EqDecision OtaImageState.
Proof. solve_decision. Defined.

Notation Flash := (N → N) (only parsing).
Record Part : Type := mkPart { p_offset : N; p_len : N }.
(** What may fail, and before what power may be lost. *)
Inductive Op : Type := ReadTable | ReadFlash | EraseFlash | WriteFlash | OtaNew | OtaData | SetPart | SetState (st : OtaImageState) | Get.

(** A reply: whether its status is a success, its whole body, or the body as a stream read in chunks:
    the k-th read offers so many bytes. *)
Record HttpReply : Type := mkReply {
  h_success : bool; h_status : string; h_body : Result (list N) string; h_stream : list N; h_reads : nat → Result nat string }.

Class Chip : Type := {
  works : nat → Op → bool;
  power : nat → Op → bool;
  (** the bytes of a sector whose erasing or writing was cut *)
  torn : nat → Flash;
  app_partition : AppPartitionSubType → option Part;
  otadata_partition : option Part;
  (** esp-bootloader-esp-idf *)
  selected_partition : Flash → option AppPartitionSubType;
  current_ota_state : Flash → option OtaImageState;
  set_current_app_partition : AppPartitionSubType → Flash → option Flash;
  set_current_ota_state : OtaImageState → Flash → option Flash;
  (** requesting and sending *)
  http_get : nat → string → Result HttpReply string;
  sha256 : list N → list N;
}.

Record World : Type := mkWorld { flash : Flash; tick : nat }.
Inductive Stop : Type := Reset (why : string) | Panic (why : string) | Fault (why : string) | PowerCut.
Notation M := (SE World Stop).

Definition TRIAL_TIMEOUT : N := 120.
Definition SECTOR : nat := 4096.
Definition APP_DESC_MAGIC : N := 0xABCD5432.

Record Ota : Type := mkOta { o_version : string; o_booted : AppPartitionSubType; o_trial : bool; o_bad_version : option (list N) }.

Definition other (slot : AppPartitionSubType) : AppPartitionSubType := if bool_decide (slot = Ota0) then Ota1 else Ota0.

(** ** Bytes *)

Definition u32_from_le_bytes (l : list N) : N := foldr (λ b acc, b + 256 * acc) 0 l.
Definition bytes (f : Flash) (at_ : N) (n : nat) : list N := (λ i, f (at_ + N.of_nat i)) <$> seq 0 n.

(** [core::str::from_utf8] *)
Definition continues (b : N) : bool := (128 <=? b) && (b <? 192).
Fixpoint utf8_valid (l : list N) : bool :=
  match l with
  | [] => true
  | a :: l =>
      if a <? 128 then utf8_valid l
      else match l with
      | [] => false
      | b :: l =>
          if (194 <=? a) && (a <? 224) then continues b && utf8_valid l
          else match l with
          | [] => false
          | c :: l =>
              if (224 <=? a) && (a <? 240) then
                continues b && continues c && (negb (a =? 224) || (160 <=? b)) && (negb (a =? 237) || (b <? 160)) && utf8_valid l
              else match l with
              | [] => false
              | d :: l =>
                  (240 <=? a) && (a <? 245) && continues b && continues c && continues d &&
                  (negb (a =? 240) || (144 <=? b)) && (negb (a =? 244) || (b <? 144)) && utf8_valid l
              end
          end
      end
  end.
Definition text_of (l : list N) : string := str (ascii_of_N <$> l).
Definition from_utf8 (l : list N) : option string := if utf8_valid l then Some (text_of l) else None.
Definition version_as_str (v : list N) : string := default "" (from_utf8 v).

Definition hex_digit (n : N) : ascii := ascii_of_N (if n <? 10 then 48 + n else 87 + n).
Definition hex (l : list N) : string := str (flat_map (λ b, [hex_digit (b / 16); hex_digit (b mod 16)]) l).
Definition eq_ignore_ascii_case (a b : string) : bool := bool_decide (to_lowercase a = to_lowercase b).

(** ** Flash operations *)

(** Erasing sets every bit; writing clears bits; cut short, either leaves anything. *)
Definition scrambled (lo hi : N) (bytes f : Flash) : Flash := λ a, if (lo <=? a) && (a <? hi) then bytes a else f a.
Definition erased (lo hi : N) (f : Flash) : Flash := λ a, if (lo <=? a) && (a <? hi) then 255 else f a.
Definition written (lo : N) (data : list N) (f : Flash) : Flash := λ a,
  if (lo <=? a) && (a <? lo + N.of_nat (length data)) then N.land (f a) (nth (N.to_nat (a - lo)) data 255) else f a.

Section ota.
Context `{Chip}.

Definition ask {A} (o : Op) (f : nat → A) : M A := λ w,
  (mkWorld (flash w) (S (tick w)), if power (tick w) o then Ok (f (tick w)) else Err PowerCut).
Definition attempt (o : Op) : M bool := ask o (λ n, works n o).
(** A change of the bytes from [lo] to [hi]. *)
Definition change (o : Op) (lo hi : N) (g : Flash → Flash) : M () := λ w,
  if power (tick w) o then (mkWorld (g (flash w)) (S (tick w)), Ok ())
  else (mkWorld (scrambled lo hi (torn (tick w)) (flash w)) (S (tick w)), Err PowerCut).
Definition set_flash (f : Flash) (w : World) : World := mkWorld f (tick w).
(** An operation of the library on the flash; whether it worked. *)
Definition update (o : Op) (g : Flash → option Flash) : M bool :=
  b ← attempt o;
  if negb b then mret false
  else f ← gets flash; match g f with Some f' => _ ← modify (set_flash f'); mret true | None => mret false end.
Definition set_part (s : AppPartitionSubType) : M bool := update SetPart (set_current_app_partition s).
Definition set_state_raw (st : OtaImageState) : M bool := update (SetState st) (set_current_ota_state st).
Definition read (at_ : N) (n : nat) : M (option (list N)) :=
  b ← attempt ReadFlash; if (b : bool) then gets (λ w, Some (bytes (flash w) at_ n)) else mret None.
Definition require (b : bool) (e : string) : M () := if b then mret () else throw (Fault e).

(** *** [read_bad_version] *)

(** An otadata entry that is INVALID or ABORTED names its slot by its sequence number. *)
Definition bad_entry (e : list N) : option AppPartitionSubType :=
  let seq := u32_from_le_bytes (take 4 e) in
  let state := u32_from_le_bytes (take 4 (drop 24 e)) in
  if negb (seq =? u32_modulus - 1) && negb (seq =? 0) && ((state =? 3) || (state =? 4))
  then Some (if (seq - 1) mod 2 =? 0 then Ota0 else Ota1) else None.
(** The app descriptor's magic, at a multiple of four below 208. *)
Definition descriptor (head : list N) : option nat :=
  List.find (λ i, u32_from_le_bytes (take 4 (drop i head)) =? APP_DESC_MAGIC) (Nat.mul 4 <$> seq 0 52).
Definition take_text (l : list N) : list N :=
  (fix go l := match l with [] => [] | b :: l => if b =? 0 then [] else b :: go l end) l.
Definition version_in (head : list N) : option (list N) :=
  at_ ← descriptor head;
  let v := take_text (take 32 (drop (at_ + 16) head)) in
  if utf8_valid v then Some v else None.
Fixpoint bad_slot (otadata : Part) (bad : option AppPartitionSubType) (offs : list N) : M (option (option AppPartitionSubType)) :=
  match offs with
  | [] => mret (Some bad)
  | off :: offs =>
      e ← read (p_offset otadata + off) 32;
      match e with
      | None => mret None
      | Some e => bad_slot otadata (match bad_entry e with Some s => Some s | None => bad end) offs
      end
  end.
Definition read_bad_version : M (option (list N)) :=
  b ← attempt ReadTable;
  match (if b : bool then otadata_partition else None) with
  | None => mret None
  | Some otadata =>
      bad ← bad_slot otadata None [0; 0x1000];
      match mjoin bad ≫= app_partition with
      | None => mret None
      | Some app => head ← read (p_offset app) 256; mret (head ≫= version_in)
      end
  end.

(** *** [Ota::boot] *)

(** Blank otadata: the running slot becomes VALID, by way of [Ota0]. *)
Definition adopt (booted : AppPartitionSubType) : M bool :=
  b ← attempt OtaData;
  if negb b then mret false else
  b1 ← set_part Ota0; if negb b1 then mret false else
  b2 ← set_part booted; if negb b2 then mret false else
  set_state_raw Valid.
(** The state machine: whether this boot is a trial, or [None] when the flash fails. *)
Definition boot_state (booted : AppPartitionSubType) : M (option bool) :=
  b ← attempt OtaNew;
  if negb b then mret None else
  f ← gets flash;
  match selected_partition f, current_ota_state f with
  | Some Factory, _ | _, None => b ← adopt booted; mret (if b : bool then Some false else None)
  | selected, Some state =>
      if match selected with Some s => negb (bool_decide (s = booted)) | None => false end
      then _ ← set_state_raw Invalid; mret (Some false)
      else match state with
      | New => b ← set_state_raw PendingVerify; mret (if b : bool then Some true else None)
      | PendingVerify => _ ← set_state_raw Aborted; throw (Reset "previous trial boot never confirmed, rolling back")
      | _ => mret (Some false)
      end
  end.
Definition is_ota_slot (s : AppPartitionSubType) : bool := bool_decide (s = Ota0) || bool_decide (s = Ota1).
Definition boot (booted_partition : option AppPartitionSubType) (version : string) : M (option Ota) :=
  b ← attempt ReadTable;
  match (if b : bool then booted_partition else None) with
  | None => mret None
  | Some booted =>
      if negb (is_ota_slot booted) then mret None
      else
        bad ← read_bad_version;
        trial ← boot_state booted;
        mret ((λ t, mkOta version booted t bad) <$> trial)
  end.

(** *** Confirming *)

Definition set_state (st : OtaImageState) : M () :=
  b ← attempt OtaNew;
  if negb b then throw (Panic "ota partitions")
  else b ← set_state_raw st; if (b : bool) then mret () else throw (Panic "set state").
Definition confirm (self : Ota) : M Ota :=
  if o_trial self then _ ← set_state Valid; mret (mkOta (o_version self) (o_booted self) false (o_bad_version self))
  else mret self.

(** *** [write_slot] *)

Definition next_multiple_of_16 (n : nat) : nat := 16 * ((n + 15) / 16).
Definition io_fault (r : bool) (e : string) : M () := if r then mret () else throw (Fault e).
(** One full or final sector goes to the flash. *)
Definition flush (part : Part) (offset : N) (sector : list N) (fill : nat) : M () :=
  let lo := p_offset part + offset in
  let hi := p_offset part + (offset + N.of_nat SECTOR) in
  b ← attempt EraseFlash;
  _ ← io_fault b "erase";
  _ ← change EraseFlash lo hi (erased lo hi);
  b ← attempt WriteFlash;
  _ ← io_fault b "write";
  change WriteFlash lo hi (written lo (take (next_multiple_of_16 fill) sector)).
(** [n] is fuel; [rest] what the stream still holds and [k] the reads so far. *)
Fixpoint write_loop (n : nat) (part : Part) (size : N) (reads : nat → Result nat string) (k : nat) (rest sector : list N)
    (fill : nat) (offset : N) (total : N) (hashed : list N) : M (N * list N) :=
  match n with
  | O => throw (Panic "out of fuel")
  | S n =>
      want ← lift (match reads k with Ok c => Ok c | Err e => Err (Fault e) end);
      let got := Nat.min (Nat.min want (SECTOR - fill)) (length rest) in
      let chunk := take got rest in
      let rest := drop got rest in
      let sector := (take fill sector ++ chunk ++ drop (fill + got) sector)%list in
      let hashed := (hashed ++ chunk)%list in
      let fill := (fill + got)%nat in
      let total := total + N.of_nat got in
      let eof := (got =? 0)%nat || (size <=? total) in
      '(sector, fill, offset) ←
        (if (fill =? SECTOR)%nat || (eof && (0 <? fill)%nat)
         then _ ← flush part offset sector fill; mret (replicate SECTOR 255, O, u32_add offset (N.of_nat SECTOR))
         else mret (sector, fill, offset));
      if eof then mret (total, hashed)
      else write_loop n part size reads (S k) rest sector fill offset total hashed
  end.
Definition write_slot (target : AppPartitionSubType) (size : N) (r : HttpReply) : M (list N) :=
  b ← attempt ReadTable;
  _ ← io_fault b "partition table";
  match app_partition target with
  | None => throw (Fault "no partition")
  | Some part =>
      if p_len part <? size then throw (Fault "image too large")
      else
        '(total, hashed) ← write_loop (S (length (h_stream r))) part size (h_reads r) 0 (h_stream r) (replicate SECTOR 255) 0 0 0 [];
        if negb (total =? size) then throw (Fault "short image") else mret (sha256 hashed)
  end.

(** *** [poll] *)

Definition fetch (url : string) (what : string) : M HttpReply :=
  r ← ask Get (λ n, http_get n url);
  r ← lift (match r with Ok r => Ok r | Err e => Err (Fault e) end);
  if h_success r then mret r else throw (Fault (what +:+ " HTTP " +:+ h_status r)).
Definition parse_manifest (text : string) : Result (string * string * N) string :=
  match split_whitespace text with
  | version :: sha :: size :: _ =>
      match parse_uint u32_modulus size with Some n => Ok (version, sha, n) | None => Err "bad size" end
  | _ => Err "bad manifest"
  end.
Definition manifest (base board : string) : M (string * string * N) :=
  r ← fetch (base +:+ "/" +:+ board +:+ "/manifest") "manifest";
  body ← lift (match h_body r with Ok b => Ok b | Err e => Err (Fault e) end);
  text ← lift (match from_utf8 body with Some t => Ok t | None => Err (Fault "manifest not utf8") end);
  lift (match parse_manifest text with Ok m => Ok m | Err e => Err (Fault e) end).
Definition activate (target : AppPartitionSubType) : M () :=
  b ← attempt OtaNew; _ ← io_fault b "ota partitions";
  b ← attempt OtaData; _ ← io_fault b "ota data";
  b ← set_part target; _ ← io_fault b "set partition";
  b ← set_state_raw New; io_fault b "set state".
Definition poll (self : Ota) (base board : string) : M () :=
  '(version, sha, size) ← manifest base board;
  if bool_decide (version = o_version self) then mret ()
  else if bool_decide (version_as_str <$> o_bad_version self = Some version) then mret ()
  else if o_trial self then mret ()
  else
    r ← fetch (base +:+ "/" +:+ board +:+ "/" +:+ version +:+ ".bin") "image";
    let target := other (o_booted self) in
    digest ← write_slot target size r;
    if negb (eq_ignore_ascii_case (hex digest) sha) then throw (Fault "sha256 mismatch")
    else _ ← activate target; throw (Reset "activating new image").

(** *** One round of [run]

    [elapsed] seconds since the start; [late] when the poll is still running (in its last pause)
    at the HTTP timeout. *)
Definition catch {A} (m : M A) : M (Result A Stop) := λ w, let '(w', r) := m w in (w', Ok r).
Definition round (self : Ota) (elapsed : N) (late confirm_on_health : bool) (base board : string) : M Ota :=
  if o_trial self && (TRIAL_TIMEOUT <? elapsed)
  then _ ← set_state Aborted; throw (Reset "trial not confirmed in time, rolling back")
  else
    r ← catch (poll self base board);
    match r with
    | Ok _ => if confirm_on_health then confirm self else mret self
    | Err (Fault _) => mret self
    | Err (Reset why) => if late then mret self else throw (Reset why)
    | Err (Panic why) => throw (Panic why)
    | Err PowerCut => throw PowerCut
    end.
End ota.

Example manifests :
  parse_manifest "1.4.0 ab12 4097
" = Ok ("1.4.0", "ab12", 4097) ∧ parse_manifest "1.4.0 ab12" = Err "bad manifest" ∧ hex [171; 5; 0] = "ab0500" ∧
  version_in (replicate 32 0 ++ [0x32; 0x54; 0xCD; 0xAB] ++ replicate 12 7 ++ [49; 46; 52] ++ replicate 205 0) = Some [49; 46; 52].
Proof. vm_compute. done. Qed.

(** ** The download

    A slot's bytes after [write_slot], and the bytes of the flash it leaves alone. *)

Definition untouched (lo hi : N) (f f' : Flash) : Prop := ∀ a, ¬ (lo ≤ a < hi) → f' a = f a.
Definition holds_at (at_ : N) (l : list N) (f : Flash) : Prop := ∀ i, (i < length l)%nat → f (at_ + N.of_nat i) = nth i l 255.

Lemma untouched_trans lo hi f1 f2 f3 : untouched lo hi f1 f2 → untouched lo hi f2 f3 → untouched lo hi f1 f3.
Proof. intros F G a Ha. by rewrite G, F. Qed.
Lemma untouched_sub lo hi lo' hi' f f' : untouched lo' hi' f f' → lo ≤ lo' → hi' ≤ hi → untouched lo hi f f'.
Proof. intros F ?? a Ha. apply F. lia. Qed.
Lemma erased_untouched lo hi f : untouched lo hi f (erased lo hi f).
Proof.
  intros a Ha. unfold erased. destruct (N.leb_spec lo a), (N.ltb_spec a hi); try done. lia.
Qed.
Lemma written_untouched lo l f : untouched lo (lo + N.of_nat (length l)) f (written lo l f).
Proof.
  intros a Ha. unfold written. destruct (N.leb_spec lo a), (N.ltb_spec a (lo + N.of_nat (length l))); try done. lia.
Qed.
Lemma land_255 b : b < 256 → N.land 255 b = b.
Proof. intros Hb. rewrite N.land_comm. change 255 with (N.ones 8). rewrite N.land_ones. by apply N.mod_small. Qed.
(** Written over erased flash, data reads back. *)
Lemma written_erased lo hi l f : lo + N.of_nat (length l) ≤ hi → Forall (λ b, b < 256) l →
  holds_at lo l (written lo l (erased lo hi f)).
Proof.
  intros Hh HF i Hi. unfold written, erased. rewrite !(proj2 (N.leb_le _ _)), !(proj2 (N.ltb_lt _ _)) by lia. cbn [andb].
  replace (N.to_nat (lo + N.of_nat i - lo)) with i by lia. apply land_255.
  eapply Forall_forall in HF; [exact HF|]. apply list_elem_of_In, nth_In. done.
Qed.
Lemma next_multiple_bounds fill : (fill ≤ SECTOR → fill ≤ next_multiple_of_16 fill ≤ SECTOR)%nat.
Proof.
  unfold next_multiple_of_16. intros Hf. assert (SECTOR = 16 * 256)%nat as E by done. rewrite E in *.
  pose proof (Nat.div_mod_eq (fill + 15) 16). pose proof (Nat.mod_upper_bound (fill + 15) 16).
  assert ((fill + 15) / 16 < 257)%nat by (apply Nat.Div0.div_lt_upper_bound; lia). lia.
Qed.

Section download.
#[local] Set Default Proof Using "Type*".
Context `{Chip}.

Lemma wp_ask_chip {A} o (f : nat → A) (E : World → Prop) (Q : A → World → Prop) w :
  E (mkWorld (flash w) (S (tick w))) → Q (f (tick w)) (mkWorld (flash w) (S (tick w))) → wp (ask o f) E Q w.
Proof. unfold wp, ask. by destruct (power _ _). Qed.
Lemma scrambled_untouched lo hi g f : untouched lo hi f (scrambled lo hi g f).
Proof. intros a Ha. unfold scrambled. destruct (N.leb_spec lo a), (N.ltb_spec a hi); try done. lia. Qed.
Lemma wp_change o lo hi g E (Q : () → World → Prop) w :
  (∀ w', untouched lo hi (flash w) (flash w') → E w') → Q () (mkWorld (g (flash w)) (S (tick w))) → wp (change o lo hi g) E Q w.
Proof. intros HE HQ. unfold wp, change. destruct (power _ _); [done|]. apply HE, scrambled_untouched. Qed.
Lemma wp_io_fault b e E (Q : () → World → Prop) w : E w → Q () w → wp (io_fault b e) E Q w.
Proof. unfold io_fault. by destruct b. Qed.

Lemma wp_flush part offset sector fill E (Q : () → World → Prop) w :
  length sector = SECTOR → (fill ≤ SECTOR)%nat →
  (∀ w', untouched (p_offset part + offset) (p_offset part + offset + N.of_nat SECTOR) (flash w) (flash w') → E w') →
  (∀ w', untouched (p_offset part + offset) (p_offset part + offset + N.of_nat SECTOR) (flash w) (flash w') →
    (Forall (λ b, b < 256) sector → holds_at (p_offset part + offset) (take fill sector) (flash w')) → Q () w') →
  wp (flush part offset sector fill) E Q w.
Proof.
  intros Hs Hf HE HQ. pose proof (next_multiple_bounds fill Hf) as [Hlo Hhi]. unfold flush.
  assert (∀ t, untouched (p_offset part + offset) (p_offset part + offset + N.of_nat SECTOR) (flash w) (flash (mkWorld (flash w) t))) as Hsame by done.
  rewrite N.add_assoc. apply wp_bind, wp_ask_chip; [by apply HE|]. apply wp_bind, wp_io_fault; [by apply HE|].
  apply wp_bind, wp_change; [by intros w' Hu; apply HE|]. cbn [flash tick].
  set (f1 := erased _ _ _).
  assert (untouched (p_offset part + offset) (p_offset part + offset + N.of_nat SECTOR) (flash w) f1) as H1.
  { eapply untouched_sub; [apply erased_untouched|lia..]. }
  apply wp_bind, wp_ask_chip; [by apply HE|]. apply wp_bind, wp_io_fault; [by apply HE|].
  apply wp_change; [intros w' Hu; apply HE; by eapply untouched_trans|]. apply HQ; cbn [flash].
  - eapply untouched_trans; [exact H1|]. eapply untouched_sub; [apply written_untouched|lia|]. rewrite length_take. lia.
  - intros HF i Hi. rewrite length_take in Hi.
    etrans; [apply (written_erased _ _ (take (next_multiple_of_16 fill) sector)); [rewrite length_take; lia|by apply Forall_take|rewrite length_take; lia]|].
    rewrite !nth_lookup, !lookup_take_lt by lia. done.
Qed.

Lemma holds_at_app at_ l1 l2 f :
  holds_at at_ (l1 ++ l2) f ↔ holds_at at_ l1 f ∧ holds_at (at_ + N.of_nat (length l1)) l2 f.
Proof.
  unfold holds_at. rewrite length_app. split.
  - intros HH. split; intros i Hi.
    + rewrite HH by lia. by rewrite app_nth1.
    + replace (at_ + N.of_nat (length l1) + N.of_nat i) with (at_ + N.of_nat (length l1 + i)) by lia.
      rewrite HH by lia. rewrite app_nth2 by lia. f_equal. lia.
  - intros [H1 H2] i Hi. destruct (decide (i < length l1)%nat).
    + rewrite H1 by done. by rewrite app_nth1.
    + replace (at_ + N.of_nat i) with (at_ + N.of_nat (length l1) + N.of_nat (i - length l1)) by lia.
      rewrite H2 by lia. by rewrite app_nth2 by lia.
Qed.
Lemma holds_at_untouched at_ l lo hi f f' :
  untouched lo hi f f' → at_ + N.of_nat (length l) ≤ lo → holds_at at_ l f → holds_at at_ l f'.
Proof. intros Hu Hl HH i Hi. rewrite Hu by lia. by apply HH. Qed.

(** What the loop has done so far; the slot reads back when the stream is one of bytes ([C]). *)
Record progress (C : Prop) (f0 : Flash) (part : Part) (size : N) (pend flushed sector : list N) (fill : nat) (offset total : N)
    (hashed rest : list N) (w : World) : Prop := {
  pr_hashed : hashed = flushed ++ pend;
  pr_offset : N.of_nat (length flushed) = offset;
  pr_aligned : (N.of_nat SECTOR | offset);
  pr_fill : length pend = fill;
  pr_room : (fill < SECTOR)%nat;
  pr_total : total = N.of_nat (length hashed);
  pr_more : total < size ∨ total = 0;
  pr_sector : sector = pend ++ replicate (SECTOR - fill) 255;
  pr_bytes : C → Forall (λ b, b < 256) (hashed ++ rest);
  pr_outside : untouched (p_offset part) (p_offset part + p_len part) f0 (flash w);
  pr_flushed : C → holds_at (p_offset part) flushed (flash w);
}.
(** A slot is a whole number of sectors, in a 32-bit address space. *)
Definition part_ok (part : Part) : Prop := (N.of_nat SECTOR | p_len part) ∧ 0 < p_len part < u32_modulus.

Lemma sector_inside part size offset total :
  part_ok part → size ≤ p_len part → (N.of_nat SECTOR | offset) → offset ≤ total → total < size ∨ total = 0 →
  offset + N.of_nat SECTOR ≤ p_len part.
Proof.
  intros ([a Ha] & Hl & _) Hs [b Hb] Ho Ht. rewrite Ha, Hb in *. assert (b < a); [|nia].
  destruct (N.lt_ge_cases b a); [done|]. assert (a * N.of_nat SECTOR ≤ b * N.of_nat SECTOR) by (by apply N.mul_le_mono_r). lia.
Qed.
Lemma sector_step pend chunk n : (length pend + length chunk ≤ n)%nat →
  take (length pend) (pend ++ replicate (n - length pend) 255) ++ chunk ++
    drop (length pend + length chunk) (pend ++ replicate (n - length pend) 255) =
  (pend ++ chunk) ++ replicate (n - (length pend + length chunk)) 255.
Proof.
  intros Hn. rewrite take_app_length, drop_app_ge, drop_replicate by lia. rewrite <- app_assoc. do 3 f_equal. lia.
Qed.

Lemma wp_write_loop n part size reads k rest sector fill offset total hashed C f0 pend flushed E Q w :
  part_ok part → size ≤ p_len part →
  progress C f0 part size pend flushed sector fill offset total hashed rest w →
  (∀ w', untouched (p_offset part) (p_offset part + p_len part) f0 (flash w') → E w') →
  (∀ w' got, untouched (p_offset part) (p_offset part + p_len part) f0 (flash w') → got `prefix_of` rest →
    (C → holds_at (p_offset part) (hashed ++ got) (flash w')) → Q (N.of_nat (length (hashed ++ got)), hashed ++ got) w') →
  wp (write_loop n part size reads k rest sector fill offset total hashed) E Q w.
Proof.
  intros Hpart Hsize. revert k rest sector fill offset total hashed pend flushed Q w.
  induction n as [|n IH]; intros k rest sector fill offset total hashed pend flushed Q w HP HE HQ;
    destruct HP as [E1 E2 E3 E4 E5 E6 E7 E8 E9 E10 E11]; cbn [write_loop]; [by apply wp_throw, HE|].
  apply wp_bind, wp_lift; [by apply HE|]. intros want _.
  set (got := Nat.min (Nat.min want (SECTOR - fill)) (length rest)).
  assert (length (take got rest) = got) as Hgot by (rewrite length_take; subst got; lia).
  assert (fill + got ≤ SECTOR)%nat as Hroom by (subst got; lia).
  assert (total = offset + N.of_nat fill) as Et by (rewrite E6, E1, length_app, <- E2, E4; lia).
  assert (take fill sector ++ take got rest ++ drop (fill + got) sector =
    (pend ++ take got rest) ++ replicate (SECTOR - (fill + got)) 255) as ->.
  { pose proof (sector_step pend (take got rest) SECTOR) as Hs. rewrite Hgot, E4 in Hs. rewrite E8. apply Hs. lia. }
  assert (offset + N.of_nat SECTOR ≤ p_len part) as Hin by (eapply sector_inside; eauto; lia).
  assert (C → Forall (λ b, b < 256) ((pend ++ take got rest) ++ replicate (SECTOR - (fill + got)) 255)) as Hbytes.
  { intros HC. specialize (E9 HC). rewrite E1 in E9. rewrite !Forall_app in E9. destruct E9 as [[_ ?] ?]. rewrite !Forall_app. split_and!; [done|by apply Forall_take|].
    by apply Forall_replicate. }
  assert (length (pend ++ take got rest) = (fill + got)%nat) as Hlen by (rewrite length_app; lia).
  remember ((got =? 0)%nat || (size <=? total + N.of_nat got)) as eof eqn:Eeof. symmetry in Eeof.
  destruct ((fill + got =? SECTOR)%nat || (eof && (0 <? fill + got)%nat)) eqn:Eflush.
  - apply wp_bind, wp_bind, wp_flush; [rewrite length_app, length_replicate; lia|done| |].
    { intros w' Hu. apply HE. eapply untouched_trans; [exact E10|]. eapply untouched_sub; [exact Hu|lia..]. }
    intros w' Hu Hh. rewrite <- Hlen in Hh at 2. rewrite take_app_length in Hh. apply wp_ret.
    assert (untouched (p_offset part) (p_offset part + p_len part) f0 (flash w')) as Hu'.
    { eapply untouched_trans; [exact E10|]. eapply untouched_sub; [exact Hu|lia..]. }
    assert (C → holds_at (p_offset part) (hashed ++ take got rest) (flash w')) as Hall.
    { intros HC. rewrite E1, <- app_assoc. apply holds_at_app. split; [eapply holds_at_untouched; [exact Hu|lia|auto]|rewrite E2; auto]. }
    destruct eof.
    { apply wp_ret. replace (total + N.of_nat got) with (N.of_nat (length (hashed ++ take got rest)))
        by (rewrite length_app, E6; lia). apply HQ; [done|apply prefix_take|done]. }
    rewrite andb_false_l, orb_false_r in Eflush. apply Nat.eqb_eq in Eflush. apply orb_false_iff in Eeof as [_ Emore%N.leb_gt].
    assert (offset + N.of_nat SECTOR < u32_modulus) as Hsmall.
    { destruct Hpart as [_ [_ ?]]. lia. }
    apply (IH _ _ _ _ _ _ _ [] (hashed ++ take got rest)); [|done|].
    + split; try done.
      * by rewrite app_nil_r.
      * rewrite u32_add_small by done. rewrite length_app, Hgot. lia.
      * rewrite u32_add_small by done. apply N.divide_add_r; [done|apply N.divide_refl].
      * unfold SECTOR. lia.
      * rewrite length_app, E6. lia.
      * by left.
      * by rewrite <- app_assoc, take_drop.
    + intros w2 g Hu2 Hg Hh2. rewrite <- app_assoc in *. apply HQ; [done| |done].
      rewrite <- (take_drop got rest) at 2. by apply prefix_app.
  - apply wp_bind, wp_ret. apply orb_false_iff in Eflush as [Ene%Nat.eqb_neq Efin]. destruct eof.
    { rewrite andb_true_l in Efin. apply Nat.ltb_ge in Efin. assert (fill = 0 ∧ got = 0)%nat as [Ef Eg] by lia.
      rewrite Eg, N.add_0_r. apply wp_ret. rewrite E6. replace hashed with (hashed ++ take 0 rest) at 1 by apply app_nil_r.
      apply HQ; [done|apply prefix_nil|]. cbn. intros HC. rewrite app_nil_r, E1. destruct pend; [rewrite app_nil_r; auto|cbn in *; lia]. }
    apply orb_false_iff in Eeof as [_ Emore%N.leb_gt].
    apply (IH _ _ _ _ _ _ _ (pend ++ take got rest) flushed); [|done|].
    + split; try done.
      * by rewrite E1, app_assoc.
      * lia.
      * rewrite length_app, E6. lia.
      * by left.
      * by rewrite <- app_assoc, take_drop.
    + intros w2 g Hu2 Hg Hh2. rewrite <- app_assoc in *. apply HQ; [done| |done].
      rewrite <- (take_drop got rest) at 2. by apply prefix_app.
Qed.

(** Errors that end the poll and nothing else, or the loss of power. *)
Definition ends_poll (e : Stop) : Prop := (∃ why, e = Fault why) ∨ e = PowerCut ∧ ∃ n o, power n o = false.
Definition faults_only {A} (m : M A) : Prop := ∀ w w' e, m w = (w', Err e) → ends_poll e.
Lemma faults_ret {A} (a : A) : faults_only (mret a).
Proof. by intros w w' e [=]. Qed.
Lemma faults_bind {A B} (m : M A) (f : A → M B) : faults_only m → (∀ a, faults_only (f a)) → faults_only (m ≫= f).
Proof.
  intros Hm Hf w w' e. unfold mbind, SE_bind. specialize (Hm w). destruct (m w) as [w1 [a|e1]]; [apply Hf|].
  intros [= <- <-]. by eapply Hm.
Qed.
Lemma faults_throw {A} why : faults_only (throw (A := A) (Fault why)).
Proof. intros w w' e [= _ <-]. left. by eexists. Qed.
Lemma faults_ask {A} o (f : nat → A) : faults_only (ask o f).
Proof. intros w w' e. unfold ask. destruct (power _ _) eqn:Ep; intros [=]. subst. right. eauto. Qed.
Lemma faults_change o lo hi g : faults_only (change o lo hi g).
Proof. intros w w' e. unfold change. destruct (power _ _) eqn:Ep; intros [=]. subst. right. eauto. Qed.
Lemma faults_io b e : faults_only (io_fault b e).
Proof. destruct b; [apply faults_ret|apply faults_throw]. Qed.
Lemma faults_lift {A} (r : Result A string) : faults_only (lift (match r with Ok a => Ok a | Err e => Err (Fault e) end)).
Proof. destruct r as [a|err]; intros w w' e [=]. subst. left. by eexists. Qed.
#[local] Hint Resolve faults_ret faults_throw faults_ask faults_change faults_io faults_lift : faults.
Lemma faults_flush part offset sector fill : faults_only (flush part offset sector fill).
Proof. unfold flush, attempt. repeat (apply faults_bind; [auto with faults|intros ?]). auto with faults. Qed.
(** The fuel is one more than the bytes left, and every read but the last takes one. *)
Lemma faults_write_loop n part size reads k rest sector fill offset total hashed :
  (length rest < n)%nat → faults_only (write_loop n part size reads k rest sector fill offset total hashed).
Proof.
  revert k rest sector fill offset total hashed. induction n as [|n IH]; intros k rest sector fill offset total hashed Hn; [lia|].
  cbn [write_loop]. apply faults_bind; [apply faults_lift|]. intros want.
  apply faults_bind; [case_match; [apply faults_bind; [apply faults_flush|]|]; auto with faults|].
  intros [[sector' fill'] offset']. destruct (_ || (size <=? _)) eqn:E; [apply faults_ret|].
  apply orb_false_iff in E as [E%Nat.eqb_neq _]. apply IH. rewrite length_drop. lia.
Qed.

Lemma wp_write_slot target part size r w :
  app_partition target = Some part → part_ok part →
  wp (write_slot target size r)
    (λ w', untouched (p_offset part) (p_offset part + p_len part) (flash w) (flash w'))
    (λ d w', untouched (p_offset part) (p_offset part + p_len part) (flash w) (flash w') ∧
      ∃ content, content `prefix_of` h_stream r ∧ N.of_nat (length content) = size ∧ d = sha256 content ∧
        (Forall (λ b, b < 256) (h_stream r) → holds_at (p_offset part) content (flash w'))) w.
Proof.
  intros Ht Hpart. unfold write_slot, attempt. rewrite Ht. apply wp_bind, wp_ask_chip; [done|]. apply wp_bind, wp_io_fault; [done|].
  destruct (N.ltb_spec (p_len part) size) as [|Hsize]; [by apply wp_throw|].
  apply wp_bind, (wp_write_loop _ _ _ _ _ _ _ _ _ _ _ (Forall (λ b, b < 256) (h_stream r)) (flash w) [] []); [done|done| |done|].
  - split; try done; [apply N.divide_0_r|unfold SECTOR; lia|by right|by intros _ i Hi%Nat.nlt_0_r].
  - intros w' got Hu Hp Hh. destruct (N.eqb_spec (N.of_nat (length ([] ++ got))) size) as [E|]; [|by apply wp_throw].
    apply wp_ret. split; [done|]. by exists got.
Qed.
Lemma faults_write_slot target size r : faults_only (write_slot target size r).
Proof.
  unfold write_slot, attempt. apply faults_bind; [apply faults_ask|]. intros b. apply faults_bind; [apply faults_io|].
  intros _. case_match; [|apply faults_throw]. case_match; [apply faults_throw|].
  apply faults_bind; [apply faults_write_loop; lia|]. intros [total hashed]. case_match; [apply faults_throw|apply faults_ret].
Qed.

(** C18: a download ends without running out of reads; when it succeeds the slot holds exactly the bytes
    that were hashed, as many as the manifest announced; and whatever fails and wherever power is lost,
    no byte outside the slot changes. *)
Theorem write_slot_spec target part size r w :
  app_partition target = Some part → part_ok part → Forall (λ b, b < 256) (h_stream r) →
  untouched (p_offset part) (p_offset part + p_len part) (flash w) (flash (write_slot target size r w).1) ∧
  match (write_slot target size r w).2 with
  | Ok digest => ∃ content, content `prefix_of` h_stream r ∧ N.of_nat (length content) = size ∧ digest = sha256 content ∧
      holds_at (p_offset part) content (flash (write_slot target size r w).1)
  | Err e => (∃ why, e = Fault why) ∨ e = PowerCut ∧ ∃ n o, power n o = false
  end.
Proof.
  intros Ht Hpart Hbytes. pose proof (wp_write_slot target part size r w Ht Hpart) as Hwp.
  pose proof (faults_write_slot target size r w) as Hfaults. unfold wp in Hwp.
  destruct (write_slot target size r w) as [w' [d|e]]; cbn.
  - destruct Hwp as (? & content & ? & ? & ? & ?). split; [done|]. exists content. auto.
  - split; [done|]. by eapply Hfaults.
Qed.
End download.

(** ** The device: boots, trials and rollbacks

    What the program relies on of the bootloader and of esp-bootloader-esp-idf: there is an otadata
    entry per slot, one of them the newest; selecting a slot makes its entry the newest; setting the
    state changes the newest entry; both touch only the otadata partition. The bootloader starts the
    newest entry's slot when its state is neither INVALID nor ABORTED and its image loads, and
    otherwise the other slot under the same conditions. *)

Definition inside (p : Part) (a : N) : Prop := p_offset p ≤ a < p_offset p + p_len p.
Definition agree_on (p : Part) (f f' : Flash) : Prop := ∀ a, inside p a → f' a = f a.
Definition bootable (st : OtaImageState) : bool := match st with Invalid | Aborted => false | _ => true end.

Class Otadata `{Chip} : Type := {
  part_of : AppPartitionSubType → Part;
  data_part : Part;
  entry : Flash → AppPartitionSubType → option OtaImageState;
  loads : Flash → AppPartitionSubType → bool;
  bootloader : Flash → option AppPartitionSubType;
}.
Class OtadataLaws `{Otadata} : Prop := {
  part_of_app s : is_ota_slot s = true → app_partition s = Some (part_of s);
  part_of_ok s : is_ota_slot s = true → part_ok (part_of s);
  slots_apart s a : is_ota_slot s = true → inside (part_of s) a → ¬ inside (part_of (other s)) a ∧ ¬ inside data_part a;
  state_of_selected f s : is_ota_slot s = true → selected_partition f = Some s → current_ota_state f = entry f s;
  view_local f f' : agree_on data_part f f' → selected_partition f' = selected_partition f ∧ ∀ s, entry f' s = entry f s;
  loads_local f f' s : is_ota_slot s = true → agree_on (part_of s) f f' → loads f' s = loads f s;
  set_part_spec f f' s : is_ota_slot s = true → set_current_app_partition s f = Some f' →
    selected_partition f' = Some s ∧ entry f' (other s) = entry f (other s) ∧ ∀ a, ¬ inside data_part a → f' a = f a;
  set_state_spec f s st : is_ota_slot s = true → selected_partition f = Some s → ∃ f', set_current_ota_state st f = Some f' ∧
    selected_partition f' = Some s ∧ entry f' s = Some st ∧ entry f' (other s) = entry f (other s) ∧
    ∀ a, ¬ inside data_part a → f' a = f a;
  bootloader_spec f s r : is_ota_slot s = true → selected_partition f = Some s → bootloader f = Some r →
    (r = s ∨ r = other s) ∧ loads f r = true ∧ (∃ st, entry f r = Some st ∧ bootable st = true);
  bootloader_newest f s st : is_ota_slot s = true → selected_partition f = Some s → entry f s = Some st →
    bootable st = true → loads f s = true → bootloader f = Some s;
  bootloader_other f s st st' : is_ota_slot s = true → selected_partition f = Some s → entry f s = Some st → bootable st = false →
    entry f (other s) = Some st' → bootable st' = true → loads f (other s) = true → bootloader f = Some (other s);
}.

(** The application after its boot: without updates when [boot] gave [None]. *)
Inductive App : Type := Booting | Without | With (o : Ota).
Record Device : Type := mkDevice { d_world : World; d_running : AppPartitionSubType; d_app : App }.

Section device.
#[local] Set Default Proof Using "Type*".
Context `{OtadataLaws}.

Inductive restarts (w : World) : Device → Prop :=
  | restarts_as s : bootloader (flash w) = Some s → restarts w (mkDevice w s Booting).
Inductive dev_step : relation Device :=
  | boots d version w o : d_app d = Booting → boot (Some (d_running d)) version (d_world d) = (w, Ok (Some o)) →
      dev_step d (mkDevice w (d_running d) (With o))
  | boots_without d version w : d_app d = Booting → boot (Some (d_running d)) version (d_world d) = (w, Ok None) →
      dev_step d (mkDevice w (d_running d) Without)
  | boot_stops d version w e d' : d_app d = Booting → boot (Some (d_running d)) version (d_world d) = (w, Err e) →
      restarts w d' → dev_step d d'
  | runs d o elapsed late healthy base board w o' : d_app d = With o →
      round o elapsed late healthy base board (d_world d) = (w, Ok o') → dev_step d (mkDevice w (d_running d) (With o'))
  | run_stops d o elapsed late healthy base board w e d' : d_app d = With o →
      round o elapsed late healthy base board (d_world d) = (w, Err e) → restarts w d' → dev_step d d'
  | loses_power d d' : restarts (d_world d) d' → dev_step d d'.

(** Slot [g] can be fallen back to. *)
Record fallback (g : AppPartitionSubType) (f : Flash) : Prop := {
  fb_slot : is_ota_slot g = true;
  fb_valid : entry f g = Some Valid;
  fb_loads : loads f g = true;
  fb_selected : selected_partition f = Some g ∨ selected_partition f = Some (other g);
  fb_state : ∃ st, current_ota_state f = Some st ∧ st ≠ Undefined;
}.
(** The other slot is being tried. *)
Record on_trial (g : AppPartitionSubType) (f : Flash) : Prop := {
  tr_fallback : fallback g f;
  tr_selected : selected_partition f = Some (other g);
  tr_state : entry f (other g) = Some New ∨ entry f (other g) = Some PendingVerify;
  tr_loads : loads f (other g) = true;
}.
Definition app_ok (booted : AppPartitionSubType) (trial : bool) (a : App) : Prop :=
  match a with With o => o_booted o = booted ∧ o_trial o = trial | _ => True end.
Definition safe (d : Device) : Prop := ∃ g,
  (fallback g (flash (d_world d)) ∧ d_running d = g ∧ app_ok g false (d_app d)) ∨
  (on_trial g (flash (d_world d)) ∧ d_running d = other g ∧ app_ok (other g) true (d_app d) ∧
    ∀ o, d_app d = With o → entry (flash (d_world d)) (other g) = Some PendingVerify).

Lemma other_slot s : is_ota_slot s = true → is_ota_slot (other s) = true ∧ other (other s) = s ∧ other s ≠ s.
Proof. unfold is_ota_slot, other. destruct s; done. Qed.
Lemma fb_states g f : fallback g f → ∃ s st, selected_partition f = Some s ∧ is_ota_slot s = true ∧ (s = g ∨ s = other g) ∧
  current_ota_state f = Some st ∧ entry f s = Some st ∧ st ≠ Undefined.
Proof.
  intros [Hg Hv Hl Hs (st & Hst & Hne)]. destruct (other_slot g Hg) as (Ho & _ & _).
  destruct Hs as [Hs|Hs]; [exists g, st|exists (other g), st]; split_and!; auto;
    by rewrite <- Hst; symmetry; apply state_of_selected.
Qed.

(** Changes that leave the otadata and slot [g] alone. *)
Lemma fallback_local g f f' :
  agree_on data_part f f' → agree_on (part_of g) f f' → fallback g f → fallback g f'.
Proof.
  intros Hd Hg Hf. destruct (fb_states g f Hf) as (s & st & Hs & Hss & Hsg & _ & He & Hne). destruct Hf as [Hgs Hv Hl Hsel _].
  destruct (view_local f f' Hd) as [E1 E2]. split; rewrite ?E1, ?E2; [done|done| |done|].
  - by rewrite (loads_local f f').
  - exists st. split; [|done]. rewrite (state_of_selected f' s); [by rewrite E2|done|congruence].
Qed.
Lemma data_agree_slots f f' s : is_ota_slot s = true → (∀ a, ¬ inside data_part a → f' a = f a) → agree_on (part_of s) f f'.
Proof. intros Hs Hf a Ha. apply Hf. by apply (slots_apart s a). Qed.

(** Setting the state of the newest entry, when it is the other slot's. *)
Lemma set_state_other g f f' st :
  fallback g f → selected_partition f = Some (other g) → st ≠ Undefined → set_current_ota_state st f = Some f' →
  fallback g f' ∧ selected_partition f' = Some (other g) ∧ entry f' (other g) = Some st ∧
  loads f' (other g) = loads f (other g).
Proof.
  intros Hf Hsel Hne E. pose proof (fb_slot _ _ Hf) as Hg. destruct (other_slot g Hg) as (Ho & Hoo & _).
  destruct (set_state_spec f (other g) st Ho Hsel) as (f2 & E2 & S2 & En & Eo & Ha). rewrite E in E2. injection E2 as <-.
  rewrite Hoo in Eo. split; [split|split_and!]; try done.
  - rewrite Eo. apply Hf.
  - rewrite (loads_local f f'); [apply Hf|done|by apply data_agree_slots].
  - by right.
  - exists st. split; [|done]. by rewrite (state_of_selected f' (other g)).
  - by apply loads_local, data_agree_slots.
Qed.

(** *** Operations that only read *)

Definition reads {A} (m : M A) : Prop := ∀ w, flash (m w).1 = flash w.
Lemma same_ret {A} (a : A) : reads (mret a).
Proof. done. Qed.
Lemma reads_throw {A} e : reads (throw (A := A) e).
Proof. done. Qed.
Lemma reads_ask {A} o (f : nat → A) : reads (ask o f).
Proof. done. Qed.
Lemma reads_lift {A} (r : Result A Stop) : reads (lift r).
Proof. done. Qed.
Lemma reads_gets {A} (f : World → A) : reads (gets f).
Proof. done. Qed.
Lemma same_bind {A B} (m : M A) (f : A → M B) : reads m → (∀ a, reads (f a)) → reads (m ≫= f).
Proof.
  intros Hm Hf w. unfold mbind, SE_bind. specialize (Hm w). destruct (m w) as [w1 [a|e]]; [|done]. cbn in Hm. rewrite <- Hm. apply Hf.
Qed.
#[local] Hint Resolve same_ret reads_throw reads_ask reads_lift reads_gets : reads.
Ltac reads_through :=
  repeat match goal with
  | |- ∀ _, _ => intros ?
  | |- reads (_ ≫= _) => apply same_bind
  | |- reads (match ?x with _ => _ end) => destruct x
  | |- reads (let '(_, _) := ?x in _) => destruct x
  | |- reads _ => solve [auto with reads]
  end.
Lemma wp_same {A} (m : M A) E (Q : A → World → Prop) w : reads m →
  (∀ w', flash w' = flash w → E w') → (∀ a w', flash w' = flash w → Q a w') → wp m E Q w.
Proof. intros Hm HE HQ. unfold wp. specialize (Hm w). destruct (m w) as [w' [a|e]]; auto. Qed.
Lemma reads_read at_ n : reads (read at_ n).
Proof. unfold read, attempt. reads_through. Qed.
#[local] Hint Resolve reads_read : reads.
Lemma reads_bad_version : reads read_bad_version.
Proof.
  assert (∀ p offs bad, reads (bad_slot p bad offs)) as Hs.
  { intros p offs. induction offs as [|off offs IH]; intros bad; cbn [bad_slot]; reads_through. }
  unfold read_bad_version, attempt. apply same_bind; [apply reads_ask|]. intros b.
  destruct (if b then _ else _); [|apply same_ret]. apply same_bind; [apply Hs|]. reads_through.
Qed.
(** Without a loss of power, reading the refused version gives an answer, and changes nothing. *)
Definition answers {A} (m : M A) : Prop := (∀ n o, power n o = true) → ∀ w, ∃ a w', m w = (w', Ok a) ∧ flash w' = flash w.
Lemma answers_ret {A} (a : A) : answers (mret a).
Proof. intros _ w. by exists a, w. Qed.
Lemma answers_ask {A} o (f : nat → A) : answers (ask o f).
Proof. intros Hp w. unfold ask. rewrite Hp. by eexists _, _. Qed.
Lemma answers_bind {A B} (m : M A) (f : A → M B) : answers m → (∀ a, answers (f a)) → answers (m ≫= f).
Proof.
  intros Hm Hf Hp w. unfold mbind, SE_bind. destruct (Hm Hp w) as (a & w1 & -> & E1). destruct (Hf a Hp w1) as (b & w2 & -> & E2).
  exists b, w2. split; [done|congruence].
Qed.
Lemma answers_read at_ n : answers (read at_ n).
Proof.
  unfold read, attempt. apply answers_bind; [apply answers_ask|]. intros []; [intros _ w; by eexists _, _|apply answers_ret].
Qed.
Lemma answers_bad_version : answers read_bad_version.
Proof.
  assert (∀ p offs bad, answers (bad_slot p bad offs)) as Hs.
  { intros p offs. induction offs as [|off offs IH]; intros bad; cbn [bad_slot]; [apply answers_ret|].
    apply answers_bind; [apply answers_read|]. intros [e|]; [apply IH|apply answers_ret]. }
  unfold read_bad_version, attempt. apply answers_bind; [apply answers_ask|]. intros b.
  destruct (if b then _ else _); [|apply answers_ret]. apply answers_bind; [apply Hs|]. intros bad.
  case_match; [|apply answers_ret]. apply answers_bind; [apply answers_read|]. intros. apply answers_ret.
Qed.
Lemma reads_fetch url what : reads (fetch url what).
Proof. unfold fetch. reads_through. Qed.
Lemma reads_manifest base board : reads (manifest base board).
Proof. unfold manifest. repeat (apply same_bind; [first [apply reads_fetch|apply reads_lift]|intros ?]). apply reads_lift. Qed.

(** The two writes of an activation go together: marking the new slot NEW does not fail, and power is
    not lost right before it. *)
Context (marked : ∀ n, works n (SetState New) = true ∧ power n (SetState New) = true).

Lemma wp_set_state_raw g st E (Q : bool → World → Prop) w :
  fallback g (flash w) → selected_partition (flash w) = Some (other g) → st ≠ Undefined →
  (∀ w', flash w' = flash w → E w' ∧ Q false w') →
  (∀ w', fallback g (flash w') → selected_partition (flash w') = Some (other g) → entry (flash w') (other g) = Some st →
    loads (flash w') (other g) = loads (flash w) (other g) → Q true w') →
  wp (set_state_raw st) E Q w.
Proof.
  intros Hf Hsel Hne Hno HQ. destruct (other_slot g (fb_slot _ _ Hf)) as (Ho & _).
  destruct (set_state_spec (flash w) (other g) st Ho Hsel) as (f' & E' & _).
  destruct (set_state_other g _ _ _ Hf Hsel Hne E') as (? & ? & ? & ?).
  unfold set_state_raw, update, attempt. apply wp_bind, wp_ask_chip; [by apply Hno|].
  destruct (works _ _); cbn [negb]; [|by apply wp_ret, Hno].
  apply wp_bind, wp_gets. cbn [flash]. rewrite E'. apply wp_bind, wp_modify, wp_ret. by apply HQ.
Qed.
Lemma wp_require b e E (Q : () → World → Prop) w : (b = false → E w) → (b = true → Q () w) → wp (io_fault b e) E Q w.
Proof. intros HE HQ. destruct b; [by apply HQ|by apply HE]. Qed.
Lemma wp_set_part g (E : World → Prop) (Q : bool → World → Prop) w : fallback g (flash w) →
  (∀ w', flash w' = flash w → E w' ∧ Q false w') →
  (∀ w', set_current_app_partition (other g) (flash w) = Some (flash w') → Q true w') →
  wp (set_part (other g)) E Q w.
Proof.
  intros Hf Hno Hyes. unfold set_part, update, attempt. apply wp_bind, wp_ask_chip; [by apply Hno|]. destruct (works _ _); cbn [negb]; [|by apply wp_ret, Hno].
  apply wp_bind, wp_gets. cbn [flash]. destruct (set_current_app_partition _ _) as [f'|] eqn:E'; [|by apply wp_ret, Hno].
  apply wp_bind, wp_modify, wp_ret. by apply Hyes.
Qed.
(** Activating the slot that is not running. *)
Lemma wp_activate g E (Q : () → World → Prop) w : fallback g (flash w) →
  (∀ w', fallback g (flash w') → E w') → (∀ w', fallback g (flash w') → Q () w') → wp (activate (other g)) E Q w.
Proof.
  intros Hf HE HQ. pose proof (fb_slot _ _ Hf) as Hg. destruct (other_slot g Hg) as (Ho & Hoo & _).
  unfold activate, attempt. do 2 (apply wp_bind, wp_ask_chip; [by apply HE|]; apply wp_bind, wp_io_fault; [by apply HE|]).
  apply wp_bind, (wp_set_part g); [done| |].
  { intros w1 E1. cbn [flash] in E1. split; [apply HE; by rewrite E1|]. apply wp_bind, wp_require; [|done]. intros _. apply HE. by rewrite E1. }
  intros w1 E1. apply wp_bind, wp_require; [done|intros _]. cbn [flash] in E1.
  destruct (set_part_spec _ _ _ Ho E1) as (S1 & N1 & A1). rewrite Hoo in N1.
  destruct (set_state_spec (flash w1) (other g) New Ho S1) as (f2 & E2 & S2 & N2 & O2 & A2). rewrite Hoo in O2.
  unfold set_state_raw, update, attempt. apply wp_bind, wp_bind. unfold wp at 1, ask.
  rewrite (proj1 (marked _)), (proj2 (marked _)). cbn [negb].
  apply wp_bind, wp_gets. cbn [flash]. rewrite E2. apply wp_bind, wp_modify, wp_ret, wp_require; [done|intros _].
  apply HQ. cbn [flash set_flash]. split; [done| | | |].
  - rewrite O2, N1. apply Hf.
  - rewrite (loads_local (flash w1) f2), (loads_local (flash w) (flash w1)); [apply Hf|done|by apply data_agree_slots|done|by apply data_agree_slots].
  - by right.
  - exists New. split; [|done]. by rewrite (state_of_selected f2 (other g)).
Qed.
(** A poll of the running slot [g] changes only the other slot, then activates it. *)
Lemma wp_poll g self base board w :
  fallback g (flash w) → o_booted self = g →
  wp (poll self base board) (λ w', fallback g (flash w')) (λ _ w', fallback g (flash w')) w.
Proof.
  intros Hf Hb. pose proof (fb_slot _ _ Hf) as Hg. destruct (other_slot g Hg) as (Ho & Hoo & _).
  unfold poll. apply wp_bind, wp_same; [apply reads_manifest|by intros ? ->|]. intros [[version sha] size] w1 E1.
  repeat case_match; try (apply wp_ret; by rewrite E1).
  apply wp_bind, wp_same; [apply reads_fetch|by intros ? ->; rewrite E1|]. intros r w2 E2.
  rewrite Hb. apply wp_bind.
  assert (∀ w3, untouched (p_offset (part_of (other g))) (p_offset (part_of (other g)) + p_len (part_of (other g))) (flash w) (flash w3) →
    fallback g (flash w3)) as Hkeep.
  { intros w3 Hu. eapply fallback_local; [| |exact Hf]; intros a Ha; apply Hu; intros Hin.
    - by destruct (slots_apart (other g) a Ho Hin).
    - by destruct (slots_apart g a Hg Ha). }
  eapply wp_mono; [apply (wp_write_slot (other g) (part_of (other g)) size r); [by apply part_of_app|by apply part_of_ok]|..].
  - intros w3 Hu. apply Hkeep. by rewrite <- E1, <- E2.
  - intros d w3 [Hu _]. assert (fallback g (flash w3)) as Hf3 by (apply Hkeep; by rewrite <- E1, <- E2).
    case_match; [by apply wp_throw|]. apply wp_bind, wp_activate; [done..|]. intros. by apply wp_throw.
Qed.

(** *** Boots and rounds *)

Lemma wp_boot_state g w :
  fallback g (flash w) →
  wp (boot_state g) (λ w', fallback g (flash w')) (λ t w', fallback g (flash w') ∧ (t = None ∨ t = Some false)) w.
Proof.
  intros Hf. destruct (fb_states g _ Hf) as (s & st & Hs & Hss & Hsg & Hc & He & Hne).
  destruct (other_slot g (fb_slot _ _ Hf)) as (_ & _ & Hog).
  unfold boot_state, attempt. apply wp_bind, wp_ask_chip; [done|]. case_match; [apply wp_ret; split; [done|by left]|].
  apply wp_bind, wp_gets. cbn [flash]. rewrite Hs, Hc.
  assert (s ≠ Factory) as Hnf by (by intros ->).
  assert (wp (if negb (bool_decide (s = g)) then _ ← set_state_raw Invalid; mret (Some false) else
    match st with
    | New => b ← set_state_raw PendingVerify; mret (if b : bool then Some true else None)
    | PendingVerify => _ ← set_state_raw Aborted; throw (Reset "previous trial boot never confirmed, rolling back")
    | _ => mret (Some false)
    end) (λ w', fallback g (flash w')) (λ t w', fallback g (flash w') ∧ (t = None ∨ t = Some false)) (mkWorld (flash w) (S (tick w)))) as Hgoal.
  { destruct Hsg as [->| ->].
    - rewrite bool_decide_true by done. cbn [negb]. assert (st = Valid) as -> by (pose proof (fb_valid _ _ Hf); congruence).
      apply wp_ret. split; [done|by right].
    - rewrite bool_decide_false by done. cbn [negb]. apply wp_bind, (wp_set_state_raw g); [done..| |].
      + intros w' Ew. cbn [flash] in Ew. split; [by rewrite Ew|]. apply wp_ret. split; [by rewrite Ew|by right].
      + intros w' Hf' _ _ _. apply wp_ret. split; [done|by right]. }
  by destruct s.
Qed.
Lemma wp_boot_trial g w :
  on_trial g (flash w) →
  wp (boot_state (other g)) (λ w', fallback g (flash w'))
    (λ t w', on_trial g (flash w') ∧ (t = None ∨ t = Some true ∧ entry (flash w') (other g) = Some PendingVerify)) w.
Proof.
  intros [Hf Hs Hst Hl]. destruct (other_slot g (fb_slot _ _ Hf)) as (Ho & _ & _).
  unfold boot_state, attempt. apply wp_bind, wp_ask_chip; [done|]. case_match; [apply wp_ret; split; [by split|by left]|].
  apply wp_bind, wp_gets. cbn [flash]. rewrite Hs, (state_of_selected _ (other g)) by done.
  assert (other g ≠ Factory) as Hnf by (intros E; by rewrite E in Ho).
  destruct Hst as [Hst|Hst]; rewrite Hst.
  - assert (wp (b ← set_state_raw PendingVerify; mret (if b : bool then Some true else None)) (λ w', fallback g (flash w'))
      (λ t w', on_trial g (flash w') ∧ (t = None ∨ t = Some true ∧ entry (flash w') (other g) = Some PendingVerify)) (mkWorld (flash w) (S (tick w)))) as Hgoal.
    { apply wp_bind, (wp_set_state_raw g); [done..| |].
      - intros w' Ew. cbn [flash] in Ew. split; [by rewrite Ew|]. apply wp_ret. rewrite Ew. split; [by split; [..|by left|]|by left].
      - intros w' Hf' Hs' He' Hl'. apply wp_ret. cbn [flash] in Hl'. split; [|by right]. split; [done|done|by right|congruence]. }
    destruct (other g); try done; exact Hgoal.
  - assert (wp (_ ← set_state_raw Aborted; throw (A := option bool) (Reset "previous trial boot never confirmed, rolling back"))
      (λ w', fallback g (flash w')) (λ t w', on_trial g (flash w') ∧ (t = None ∨ t = Some true ∧ entry (flash w') (other g) = Some PendingVerify)) (mkWorld (flash w) (S (tick w)))) as Hgoal.
    { apply wp_bind, (wp_set_state_raw g); [done..| |].
      - intros w' Ew. cbn [flash] in Ew. split; [by rewrite Ew|]. apply wp_throw. by rewrite Ew.
      - intros w' Hf' _ _ _. by apply wp_throw. }
    destruct (other g); try done; exact Hgoal.
Qed.
Lemma wp_boot s v w (E : World → Prop) (Q : option bool → World → Prop) : is_ota_slot s = true →
  (∀ w', flash w' = flash w → E w' ∧ Q None w' ∧ wp (boot_state s) E Q w') →
  wp (boot (Some s) v) E (λ o w', match o with Some o => o_booted o = s ∧ Q (Some (o_trial o)) w' | None => Q None w' end) w.
Proof.
  intros Hs HB. unfold boot, attempt. apply wp_bind, wp_ask_chip; [by apply HB|]. destruct (works _ _); [|by apply wp_ret, HB].
  rewrite Hs. cbn [negb]. apply wp_bind, wp_same; [apply reads_bad_version|by intros; apply HB|].
  intros bad w1 E1. apply wp_bind. eapply wp_mono; [by apply HB|done|]. intros [t|] w2 HQ; by apply wp_ret.
Qed.
(** A restart of a device that has a fallback is safe. *)
Lemma restart_safe g w d : fallback g (flash w) → restarts w d → safe d.
Proof.
  intros Hf [r Hr]. pose proof (fb_slot _ _ Hf) as Hg. destruct (other_slot g Hg) as (Ho & Hoo & _).
  destruct (fb_states g _ Hf) as (s & st & Hs & Hss & Hsg & Hc & He & Hne).
  destruct (bootloader_spec _ _ _ Hss Hs Hr) as (Hrs & Hl & st' & He' & Hb).
  assert (r = g ∨ r = other g) as [->| ->] by (destruct Hsg, Hrs; subst; rewrite ?Hoo; auto).
  { exists g. left. split_and!; done. }
  assert (s = other g) as ->.
  { destruct Hsg as [->|?]; [|done]. pose proof (fb_valid _ _ Hf) as Hv.
    rewrite (bootloader_newest _ g Valid) in Hr; [|done|done|done|done|apply Hf]. congruence. }
  assert (st' = st) as -> by congruence. destruct st; try done.
  - exists g. right. split_and!; [|done..]. split; [done..|by left|done].
  - exists g. right. split_and!; [|done..]. split; [done..|by right|done].
  - exists (other g). left. split_and!; [|done..]. split; [done..|by left|by exists Valid].
Qed.

Lemma round_settled g self elapsed late healthy base board w :
  fallback g (flash w) → o_booted self = g → o_trial self = false →
  wp (round self elapsed late healthy base board) (λ w', fallback g (flash w'))
    (λ o w', fallback g (flash w') ∧ o_booted o = g ∧ o_trial o = false) w.
Proof.
  intros Hf Hb Ht. unfold round, confirm. rewrite Ht. cbn [andb]. pose proof (wp_poll g self base board w Hf Hb) as Hp.
  apply wp_bind. unfold wp, catch in *. destruct (poll self base board w) as [w1 [()|e]]; [by destruct healthy|].
  destruct e, late; done.
Qed.
(** On trial, a poll changes nothing. *)
Lemma reads_trial_poll self base board : o_trial self = true → reads (poll self base board).
Proof.
  intros Ht. unfold poll. apply same_bind; [apply reads_manifest|]. intros [[version sha] size].
  rewrite Ht. repeat case_match; done.
Qed.
Lemma wp_set_state g st E (Q : () → World → Prop) w :
  on_trial g (flash w) → st ≠ Undefined → (∀ w', flash w' = flash w → E w') →
  (∀ w', fallback g (flash w') → selected_partition (flash w') = Some (other g) → entry (flash w') (other g) = Some st →
    loads (flash w') (other g) = true → Q () w') →
  wp (set_state st) E Q w.
Proof.
  intros [Hf Hs _ Hl] Hne HE HQ. unfold set_state, attempt. apply wp_bind, wp_ask_chip; [by apply HE|]. case_match; [by apply wp_throw, HE|].
  apply wp_bind, (wp_set_state_raw g); [done..| |].
  - intros w' Ew. cbn [flash] in Ew. split; [by apply HE|]. by apply wp_throw, HE.
  - intros w' Hf' Hs' He' Hl'. apply wp_ret, HQ; try done. cbn [flash] in Hl'. congruence.
Qed.
Lemma round_trial g self elapsed late healthy base board w :
  on_trial g (flash w) → o_booted self = other g → o_trial self = true →
  wp (round self elapsed late healthy base board) (λ w', fallback g (flash w'))
    (λ o w', o_booted o = other g ∧
      (on_trial g (flash w') ∧ o_trial o = true ∧ flash w' = flash w ∨ fallback (other g) (flash w') ∧ o_trial o = false)) w.
Proof.
  intros Htr Hb Ht. pose proof (tr_fallback _ _ Htr) as Hf. destruct (other_slot g (fb_slot _ _ Hf)) as (Ho & Hoo & _).
  assert (∀ w', flash w' = flash w → fallback g (flash w')) as Hsame by (by intros ? ->).
  unfold round. case_match.
  - apply wp_bind, (wp_set_state g); [done|done|done|]. intros. by apply wp_throw.
  - apply wp_bind. unfold wp at 1, catch. pose proof (reads_trial_poll self base board Ht w) as Hr.
    destruct (poll self base board w) as [w1 r]. cbn [fst] in Hr.
    assert (on_trial g (flash w1)) as Htr1 by (by rewrite Hr).
    destruct r as [()|[why|why|why|]].
    + destruct healthy; [|apply wp_ret; auto]. unfold confirm. rewrite Ht.
      apply wp_bind, (wp_set_state g); [done|done|by intros w' ->; apply Htr1|]. intros w' Hf' Hs' He' Hl'.
      apply wp_ret. split; [done|]. right. split; [|done]. split; [done..|by left|]. exists Valid. split; [|done].
      by rewrite (state_of_selected _ (other g)).
    + destruct late; [apply wp_ret; auto|apply wp_throw, Htr1].
    + apply wp_throw, Htr1.
    + apply wp_ret; auto.
    + apply wp_throw, Htr1.
Qed.

Lemma dev_step_safe d d' : safe d → dev_step d d' → safe d'.
Proof.
  intros (g & Hd) Hstep.
  assert (fallback g (flash (d_world d))) as Hf by (destruct Hd as [(? & _)|([? _ _ _] & _)]; done).
  destruct (other_slot g (fb_slot _ _ Hf)) as (Ho & Hoo & _).
  assert (∀ s v w r E Q, wp (boot (Some s) v) E Q (d_world d) → boot (Some s) v (d_world d) = (w, r) →
    match r with Ok o => Q o w | Err _ => E w end) as Hboot.
  { intros s v w r E Q Hw E1. unfold wp in Hw. by rewrite E1 in Hw. }
  assert (∀ v, d_running d = g ∧ wp (boot (Some (d_running d)) v) (λ w', fallback g (flash w'))
      (λ o w', fallback g (flash w') ∧ match o with Some o => o_booted o = g ∧ o_trial o = false | None => True end) (d_world d) ∨
    d_running d = other g ∧ wp (boot (Some (d_running d)) v) (λ w', fallback g (flash w'))
      (λ o w', on_trial g (flash w') ∧ match o with Some o => o_booted o = other g ∧ o_trial o = true ∧
        entry (flash w') (other g) = Some PendingVerify | None => True end) (d_world d)) as Hb.
  { intros v. destruct Hd as [(_ & -> & _)|(Htr & -> & _ & _)]; [left|right]; (split; [done|]).
    - eapply wp_mono; [apply (wp_boot g v _ (λ w', fallback g (flash w')) (λ t w', fallback g (flash w') ∧ (t = None ∨ t = Some false)))|..];
        [apply Hf| |done|intros [o|] w' HQ; naive_solver].
      intros w' E1. rewrite E1. split; [done|]. split; [by split; [|left]|]. eapply wp_mono; [apply (wp_boot_state g); by rewrite E1|done|done].
    - eapply wp_mono; [apply (wp_boot (other g) v _ (λ w', fallback g (flash w')) (λ t w', on_trial g (flash w') ∧ (t = None ∨ t = Some true ∧ entry (flash w') (other g) = Some PendingVerify)))|..];
        [done| |done|intros [o|] w' HQ; naive_solver].
      intros w' E1. rewrite E1. split; [done|]. split; [by split; [|left]|]. apply (wp_boot_trial g). by rewrite E1. }
  destruct Hstep as [d v w o Ha Hr|d v w Ha Hr|d v w e d' Ha Hr Hres|d o el late he base board w o' Ha Hr|d o el late he base board w e d' Ha Hr Hres|d d' Hres].
  - destruct (Hb v) as [[E1 Hw]|[E1 Hw]]; apply (Hboot _ _ _ _ _ _ Hw) in Hr as [? [? Hr]]; exists g; [left|right; destruct Hr]; split_and!; cbn; auto.
  - destruct (Hb v) as [[E1 Hw]|[E1 Hw]]; apply (Hboot _ _ _ _ _ _ Hw) in Hr as [? _]; exists g; [left|right]; split_and!; cbn; auto. done.
  - eapply (restart_safe g); [|exact Hres]. destruct (Hb v) as [[E1 Hw]|[E1 Hw]]; by apply (Hboot _ _ _ _ _ _ Hw) in Hr.
  - destruct Hd as [(_ & E1 & Hok)|(Htr & E1 & Hok & Hpv)]; rewrite Ha in Hok; destruct Hok as [Hob Hot].
    + pose proof (round_settled g o el late he base board _ Hf Hob Hot) as Hw. unfold wp in Hw. rewrite Hr in Hw.
      exists g. left. split_and!; cbn; [apply Hw|done|apply Hw..].
    + pose proof (round_trial g o el late he base board _ Htr Hob Hot) as Hw. unfold wp in Hw. rewrite Hr in Hw.
      destruct Hw as (Hb' & [(? & ? & Hsame)|[? ?]]); [exists g; right|exists (other g); left]; rewrite ?Hoo; split_and!; cbn; auto.
      intros _ _. rewrite Hsame. by apply (Hpv o).
  - eapply (restart_safe g); [|exact Hres]. destruct Hd as [(_ & E1 & Hok)|(Htr & E1 & Hok & Hpv)]; rewrite Ha in Hok; destruct Hok as [Hob Hot].
    + pose proof (round_settled g o el late he base board _ Hf Hob Hot) as Hw. unfold wp in Hw. by rewrite Hr in Hw.
    + pose proof (round_trial g o el late he base board _ Htr Hob Hot) as Hw. unfold wp in Hw. by rewrite Hr in Hw.
  - by eapply (restart_safe g).
Qed.

(** A device that runs a confirmed image: flashed over USB and adopted, or updated and confirmed. *)
Definition settled (d : Device) : Prop := fallback (d_running d) (flash (d_world d)) ∧ d_app d = Booting.
Lemma settled_safe d : settled d → safe d.
Proof. intros [Hf Ha]. exists (d_running d). left. split_and!; [done|done|by rewrite Ha]. Qed.
Lemma reachable_safe d d' : settled d → rtc dev_step d d' → safe d'.
Proof. intros Hs%settled_safe Hr. induction Hr as [|d d1 d' Hst Hr IH]; [done|]. by apply IH, (dev_step_safe d). Qed.

(** C16: from a device running a confirmed image, whatever polls, downloads, reads, erases and marks
    fail and wherever the power is cut, in the middle of a sector, too, one slot always holds an image
    marked VALID that the bootloader can start; and an image that runs without having been confirmed
    runs on trial, or without the updater. Excepted is the moment between the two writes that activate
    a new image, selecting its slot and marking it NEW (see [cut_activation_loses_trial]). *)
Theorem fallback_kept d d' : settled d → rtc dev_step d d' →
  ∃ g, is_ota_slot g = true ∧ entry (flash (d_world d')) g = Some Valid ∧ loads (flash (d_world d')) g = true ∧
    (d_running d' = g ∨ d_running d' = other g ∧ ∀ o, d_app d' = With o → o_trial o = true).
Proof.
  intros Hs Hr. destruct (reachable_safe d d' Hs Hr) as (g & [(Hf & Hg & _)|([Hf _ _ _] & Hg & Hok & _)]);
    exists g; (split_and!; [apply Hf..|]); [by left|right].
  split; [done|]. intros o Ho. by rewrite Ho in Hok; apply Hok.
Qed.

(** C17: an image that was never confirmed is gone after a reset: the bootloader starts it once more, its
    boot marks it ABORTED and resets, and the bootloader then starts the other slot, whose image is
    marked VALID. *)
Theorem rolls_back d d' o v : (∀ n op, works n op = true ∧ power n op = true) → settled d → rtc dev_step d d' →
  d_app d' = With o → o_trial o = true →
  bootloader (flash (d_world d')) = Some (d_running d') ∧
  ∃ w why, boot (Some (d_running d')) v (d_world d') = (w, Err (Reset why)) ∧
    bootloader (flash w) = Some (other (d_running d')) ∧ entry (flash w) (other (d_running d')) = Some Valid.
Proof.
  intros Hwp Hs Hr Ha Ht. assert (∀ n op, works n op = true) as Hw by (intros; apply Hwp).
  assert (∀ n op, power n op = true) as Hpow by (intros; apply Hwp).
  destruct (reachable_safe d d' Hs Hr) as (g & [(_ & _ & Hok)|(Htr & Hg & Hok & Hpv)]).
  { rewrite Ha in Hok. destruct Hok. congruence. }
  specialize (Hpv o Ha). destruct Htr as [Hf Hsel _ Hl]. destruct (other_slot g (fb_slot _ _ Hf)) as (Ho & Hoo & _).
  rewrite Hg, Hoo. split; [by apply (bootloader_newest _ (other g) PendingVerify)|].
  unfold boot, boot_state, set_state_raw, update, attempt, mbind, SE_bind, gets, modify, ask. rewrite Hpow, Hw, Ho. cbn [negb].
  destruct (answers_bad_version Hpow (mkWorld (flash (d_world d')) (S (tick (d_world d'))))) as (bad & w1 & -> & E1). cbn [flash] in E1.
  rewrite Hpow, Hw. cbn [negb flash tick]. rewrite E1, Hsel, (state_of_selected _ (other g)), Hpv by done.
  destruct (set_state_spec (flash (d_world d')) (other g) Aborted Ho Hsel) as (f' & Hf' & S' & N' & O' & A').
  rewrite Hoo in O'. exists (mkWorld f' (S (S (tick w1)))), "previous trial boot never confirmed, rolling back".
  split; [|split].
  - destruct (other g) eqn:Eo; try done; rewrite bool_decide_true by done; cbn [negb flash tick]; rewrite Hpow, Hw; cbn [negb flash tick]; by rewrite Hf'.
  - cbn [flash]. pose proof (bootloader_other f' (other g) Aborted Valid) as Hbo; rewrite Hoo in Hbo. apply Hbo; try done.
    + by rewrite O', (fb_valid _ _ Hf).
    + rewrite (loads_local (flash (d_world d')) f'); [apply Hf|apply Hf|apply data_agree_slots; [apply Hf|done]].
  - cbn [flash]. by rewrite O', (fb_valid _ _ Hf).
Qed.
End device.

(** ** A concrete chip

    Otadata in three bytes: the newest slot, and the state of each entry. Images start with the ESP
    magic number; the digest is the identity. *)

Module Reference.
Definition put (at_ v : N) (f : Flash) : Flash := λ a, if a =? at_ then v else f a.
Definition byte_of (st : OtaImageState) : N :=
  match st with New => 0 | PendingVerify => 1 | Valid => 2 | Invalid => 3 | Aborted => 4 | Undefined => 255 end.
Definition state_of (b : N) : OtaImageState :=
  if b =? 0 then New else if b =? 1 then PendingVerify else if b =? 2 then Valid
  else if b =? 3 then Invalid else if b =? 4 then Aborted else Undefined.
Definition slot_at (s : AppPartitionSubType) : N := if bool_decide (s = Ota0) then 1 else 2.
Definition ref_part (s : AppPartitionSubType) : Part := if bool_decide (s = Ota0) then mkPart 0x10000 0x1f0000 else mkPart 0x200000 0x1f0000.
Definition ref_selected (f : Flash) : option AppPartitionSubType :=
  Some (if f 0 =? 1 then Ota0 else if f 0 =? 2 then Ota1 else Factory).
Definition ref_entry (f : Flash) (s : AppPartitionSubType) : option OtaImageState := Some (state_of (f (slot_at s))).
Definition ref_loads (f : Flash) (s : AppPartitionSubType) : bool := f (p_offset (ref_part s)) =? 0xE9.
Definition ref_bootable (f : Flash) (s : AppPartitionSubType) : bool := bootable (state_of (f (slot_at s))) && ref_loads f s.

Definition chip_with (pw : nat → Op → bool) : Chip := {|
  works _ _ := true;
  power := pw;
  torn _ _ := 0;
  app_partition s := if is_ota_slot s then Some (ref_part s) else None;
  otadata_partition := Some (mkPart 0 0x2000);
  selected_partition := ref_selected;
  current_ota_state f := match ref_selected f with Some Factory | None => None | Some s => ref_entry f s end;
  set_current_app_partition s f := if is_ota_slot s then Some (put 0 (slot_at s) f) else None;
  set_current_ota_state st f := match ref_selected f with Some Factory | None => None | Some s => Some (put (slot_at s) (byte_of st) f) end;
  http_get _ url := Ok (mkReply true "" (Ok ((N_of_ascii <$> chars "v2 e901 2")))
                          (if bool_decide (url = "http://u/c3/v2.bin") then [0xE9; 1] else []) (λ _, Ok 100%nat));
  sha256 l := l |}.
#[export] Instance chip : Chip := chip_with (λ _ _, true).
#[export] Instance otadata pw : @Otadata (chip_with pw) := {|
  part_of := ref_part; data_part := mkPart 0 0x2000; entry := ref_entry; loads := ref_loads;
  bootloader f := match ref_selected f with
    | Some Factory | None => None
    | Some s => if ref_bootable f s then Some s else if ref_bootable f (other s) then Some (other s) else None
    end |}.

Lemma state_of_byte st : state_of (byte_of st) = st.
Proof. by destruct st. Qed.
Lemma slots s : is_ota_slot s = true → s = Ota0 ∨ s = Ota1.
Proof. intros Hs. destruct s; [done|by left|by right|done]. Qed.
Lemma put_outside at_ v f : at_ ≤ 2 → ∀ a, ¬ inside (mkPart 0 0x2000) a → put at_ v f a = f a.
Proof. unfold put, inside. cbn. intros Hat a Ha. destruct (N.eqb_spec a at_); [lia|done]. Qed.

#[export] Instance laws pw : @OtadataLaws (chip_with pw) (otadata pw).
Proof.
  split; cbn -[ref_selected ref_entry ref_loads ref_part slot_at put ref_bootable state_of other is_ota_slot].
  - by intros s ->.
  - intros s [-> | ->]%slots; (split; [exists 496; done|done]).
  - intros s a [-> | ->]%slots; unfold inside.
    + change (ref_part Ota0) with (mkPart 0x10000 0x1f0000). change (ref_part (other Ota0)) with (mkPart 0x200000 0x1f0000). cbn. lia.
    + change (ref_part Ota1) with (mkPart 0x200000 0x1f0000). change (ref_part (other Ota1)) with (mkPart 0x10000 0x1f0000). cbn. lia.
  - intros f s Hs E. rewrite E. by destruct (slots s Hs) as [-> | ->].
  - intros f f' Ha. assert (∀ a, a ≤ 2 → f' a = f a) as Hf by (intros a ?; apply Ha; unfold inside; cbn; lia).
    unfold ref_selected, ref_entry, slot_at. split; [by rewrite Hf by lia|]. intros s. rewrite Hf; [done|]. case_bool_decide; lia.
  - intros f f' s [-> | ->]%slots Ha; unfold ref_loads; rewrite Ha; (done || (unfold inside; cbn; lia)).
  - intros f f' s Hs. rewrite Hs. intros [= <-]. unfold ref_selected, ref_entry, put.
    destruct (slots s Hs) as [-> | ->]; (split; [done|]; split; [done|]); apply put_outside; cbn; lia.
  - intros f s st Hs E. rewrite E. assert (f 0 = slot_at s) as E0.
    { unfold ref_selected in E. destruct (N.eqb_spec (f 0) 1), (N.eqb_spec (f 0) 2); injection E as <-; done. }
    destruct (slots s Hs) as [-> | ->]; (eexists; split; [reflexivity|]);
      (split; [unfold ref_selected, put; cbn; by rewrite E0|]); (split; [unfold ref_entry, put; by rewrite N.eqb_refl, state_of_byte|]);
      (split; [done|]); apply put_outside; done.
  - intros f s r Hs E. rewrite E. unfold ref_bootable, ref_entry.
    destruct (slots s Hs) as [-> | ->]; repeat case_match; intros [= <-]; bool_prop; eauto 8.
  - intros f s st Hs E Ee Hb Hl. rewrite E. unfold ref_bootable. injection Ee as Ee. rewrite Ee, Hb, Hl.
    by destruct (slots s Hs) as [-> | ->].
  - intros f s st st' Hs E Ee Hb Ee' Hb' Hl. rewrite E. unfold ref_bootable. injection Ee as Ee. injection Ee' as Ee'.
    rewrite Ee, Hb, Ee', Hb', Hl. by destruct (slots s Hs) as [-> | ->].
Qed.

(** Slot 0 holds a confirmed image. *)
Definition first_flash : Flash := λ a,
  if a =? 0 then 1 else if a =? 1 then 2 else if a =? 0x10000 then 0xE9 else 255.
Definition first_device : Device := mkDevice (mkWorld first_flash 0) Ota0 Booting.
Lemma first_settled : settled first_device.
Proof. split; [|done]. split; try done; [by left|by exists Valid]. Qed.
Lemma run_eq {S E A} (m : SE S E A) s r : (m s).2 = r → m s = ((m s).1, r).
Proof. intros <-. by destruct (m s). Qed.

Definition w1 : World := (boot (Some Ota0) "v1" (d_world first_device)).1.
Definition app1 : Ota := mkOta "v1" Ota0 false None.
Definition w2 : World := (round app1 0 false true "http://u" "c3" w1).1.
Definition w3 : World := (boot (Some Ota1) "v2" w2).1.
Definition app3 : Ota := mkOta "v2" Ota1 true None.
Lemma update_reaches_trial : rtc dev_step first_device (mkDevice w3 Ota1 (With app3)).
Proof.
  eapply rtc_l.
  { apply (boots first_device "v1" w1 app1); [done|]. apply run_eq. vm_compute. reflexivity. }
  eapply rtc_l.
  { eapply (run_stops _ app1 0 false true "http://u" "c3" w2); [done|apply run_eq; vm_compute; reflexivity|].
    apply (restarts_as _ Ota1). vm_compute. reflexivity. }
  apply rtc_once. apply (boots (mkDevice w2 Ota1 Booting) "v2" w3 app3); [done|]. apply run_eq. vm_compute. reflexivity.
Qed.

(** Power is lost right after slot 1 was selected: its image is started with whatever state its entry
    had, not on trial, and may replace the confirmed image in slot 0. *)
Definition cut_power (n : nat) (o : Op) : bool := match o with SetState New => false | _ => true end.
Definition cut_world : World := (round (H := chip_with cut_power) app1 0 false true "http://u" "c3" w1).1.
Definition off_trial : Ota := mkOta "v2" Ota1 false None.
Lemma cut_activation_loses_trial :
  rtc (dev_step (H := chip_with cut_power) (H0 := otadata cut_power)) first_device
    (mkDevice (boot (H := chip_with cut_power) (Some Ota1) "v2" cut_world).1 Ota1 (With off_trial)) ∧
  ref_entry (flash cut_world) Ota1 = Some Undefined ∧ other (o_booted off_trial) = Ota0.
Proof.
  split; [|split; vm_compute; reflexivity].
  eapply rtc_l.
  { apply (boots (H := chip_with cut_power) first_device "v1" w1 app1); [done|]. vm_compute. reflexivity. }
  eapply rtc_l.
  { eapply (run_stops (H := chip_with cut_power) _ app1 0 false true "http://u" "c3" cut_world); [done|apply run_eq; vm_compute; reflexivity|].
    apply (restarts_as (H := chip_with cut_power) _ Ota1). vm_compute. reflexivity. }
  apply rtc_once. apply (boots (H := chip_with cut_power) (mkDevice cut_world Ota1 Booting) "v2" _ off_trial); [done|]. apply run_eq. vm_compute. reflexivity.
Qed.
End Reference.
Import Reference.

(** Two bytes are downloaded into slot 1. *)
Lemma write_slot_spec_witness :
  let r := mkReply true "" (Ok []) [0xE9; 1] (λ _, Ok 1%nat) in
  (write_slot Ota1 2 r (mkWorld Reference.first_flash 0)).2 = Ok [0xE9; 1] ∧
  untouched 0x200000 0x3f0000 Reference.first_flash (flash (write_slot Ota1 2 r (mkWorld Reference.first_flash 0)).1).
Proof.
  intros r. split; [vm_compute; reflexivity|].
  apply (write_slot_spec Ota1 (Reference.ref_part Ota1) 2 r (mkWorld Reference.first_flash 0)); [done| |repeat constructor].
  split; [exists 496; done|done].
Defined.
Lemma fallback_kept_witness :
  ∃ g, is_ota_slot g = true ∧ Reference.ref_entry (flash Reference.w3) g = Some Valid ∧ Reference.ref_loads (flash Reference.w3) g = true ∧
    (Ota1 = g ∨ Ota1 = other g ∧ ∀ o, With Reference.app3 = With o → o_trial o = true).
Proof.
  apply (fallback_kept ltac:(done) Reference.first_device (mkDevice Reference.w3 Ota1 (With Reference.app3))
    Reference.first_settled Reference.update_reaches_trial).
Defined.
Lemma rolls_back_witness :
  bootloader (flash Reference.w3) = Some Ota1 ∧
  ∃ w why, boot (Some Ota1) "v2" Reference.w3 = (w, Err (Reset why)) ∧
    bootloader (flash w) = Some Ota0 ∧ Reference.ref_entry (flash w) Ota0 = Some Valid.
Proof.
  apply (rolls_back ltac:(done) Reference.first_device (mkDevice Reference.w3 Ota1 (With Reference.app3)) Reference.app3 "v2"
    ltac:(done) Reference.first_settled Reference.update_reaches_trial); done.
Defined.
