(* ===== verification/Tracks.v ===== *)
(** * Choosing and naming tracks ([apps/dvdrip/src/tracks.rs])

    [select_subs] keeps one subtitle track per language and kind; [propedit_args] builds the
    mkvpropedit arguments that name the tracks of an encode and set their flags. Both read
    HandBrake's and mkvmerge's JSON. *)

From Stdlib Require Import Ascii.
From stdpp Require Import options.
From S2P Require Import Prelude F64 Json Text.

Definition truthy (v : Value) : bool := match v with Null | Bool false => false | _ => true end.
Definition array_or_empty (v : Value) : list Value := default [] (as_array v).

(** ** [select_subs] *)

Definition key (s : Value) : list Value :=
  let a := s.["Attributes"] in
  [s.["LanguageCode"]; s.["SourceName"]; a.["Commentary"]; a.["ClosedCaption"]; a.["Forced"]; a.["Large"]; a.["Children"]].
Fixpoint keys_eqb (k l : list Value) : bool :=
  match k, l with
  | [], [] => true
  | v :: k, w :: l => value_eqb v w && keys_eqb k l
  | _, _ => false
  end.
Definition key_eqb (s t : Value) : bool := keys_eqb (key s) (key t).
Definition variant (s : Value) : N :=
  let a := s.["Attributes"] in
  if truthy a.["Wide"] then 0
  else if negb (truthy a.["Letterbox"] || truthy a.["PanScan"] || truthy a.["4By3"]) then 1
  else if truthy a.["Letterbox"] then 2 else 3.

Definition is_wide (s : Value) : bool := truthy s.["Attributes"].["Wide"].

Notation Group := (list Value * list Value)%type.
(** The members of a group, in order; a new group goes last. *)
Fixpoint add_to (groups : list Group) (s : Value) : list Group :=
  match groups with
  | [] => [(key s, [s])]
  | (g, members) :: groups =>
      if keys_eqb g (key s) then (g, members ++ [s]) :: groups else (g, members) :: add_to groups s
  end.
(** [min_by_key]: the first of the least. *)
Fixpoint min_by_key (f : Value → N) (l : list Value) : option Value :=
  match l with
  | [] => None
  | s :: l => match min_by_key f l with Some t => Some (if (f s <=? f t)%N then s else t) | None => Some s end
  end.
Definition track_number (s : Value) : Z := default 0%Z (value_as_i64 s.["TrackNumber"]).
Definition track_leb (s t : Value) : bool := (track_number s <=? track_number t)%Z.
Definition select_subs (hb_title : Value) : list Value :=
  let groups := fold_left add_to (array_or_empty hb_title.["SubtitleList"]) [] in
  stable_sort track_leb (omap (λ g, min_by_key variant g.2) groups).

(** ** [propedit_args] *)

Section propedit.
Context `{SerdeJson}.

Definition layout (channels : Value) : string :=
  let n := to_string channels in
  if bool_decide (n = "1") then "Mono" else if bool_decide (n = "2") then "Stereo"
  else if bool_decide (n = "6") then "5.1" else if bool_decide (n = "8") then "7.1" else n +:+ "ch".
Definition flag (b : bool) : string := if b then "1" else "0".
Definition lang_stop (c : ascii) : bool := bool_decide (c ∈ [" "; ","; "("; "["]%char).
Definition lang (language : Value) : string :=
  str (fst (span (λ c, negb (lang_stop c)) (chars (default "" (as_str language))))).

Definition is_comm (d : Value) : bool := truthy d.["Attributes"].["Commentary"] || truthy d.["Attributes"].["AltCommentary"].
Definition is_ad (d : Value) : bool := truthy d.["Attributes"].["VisuallyImpaired"].
(** [position] *)
Fixpoint position {A} (p : A → bool) (l : list A) : option nat :=
  match l with [] => None | a :: l => if p a then Some 0 else S <$> position p l end.
Definition default_audio (al : list Value) : nat := default 0 (position (λ d, negb (is_comm d || is_ad d)) al).
Definition audio_args (dflt : nat) (i : nat) (d : Value) : list string :=
  let comm := is_comm d in
  let ad := is_ad d in
  let prefix := if comm then "Commentary - " else if ad then "Audio Description - " else "" in
  let surround := if contains "Dolby Surround" (default "" (as_str d.["Description"])) then " (Dolby Surround)" else "" in
  ["--edit"; "track:a" +:+ pretty (i + 1); "--set"; "name=" +:+ prefix +:+ layout d.["ChannelCount"] +:+ surround;
   "--set"; "flag-default=" +:+ flag (i =? dflt)%nat; "--set"; "flag-commentary=" +:+ flag comm;
   "--set"; "flag-visual-impaired=" +:+ flag ad].
Definition sub_kind (a : Value) : string :=
  if truthy a.["Commentary"] then " (Commentary)" else if truthy a.["ClosedCaption"] then " (CC)"
  else if truthy a.["Forced"] then " (Forced)" else if truthy a.["Large"] then " (Large)"
  else if truthy a.["Children"] then " (Children)" else "".
Definition sub_args (k : nat) (s : Value) : list string :=
  let a := s.["Attributes"] in
  ["--edit"; "track:s" +:+ pretty (k + 1); "--set"; "name=" +:+ lang s.["Language"] +:+ sub_kind a;
   "--set"; "flag-default=0"; "--set"; "flag-commentary=" +:+ flag (truthy a.["Commentary"]);
   "--set"; "flag-hearing-impaired=" +:+ flag (truthy a.["ClosedCaption"]); "--set"; "flag-forced=" +:+ flag (truthy a.["Forced"])].
Definition of_type (ty : string) (tracks : list Value) : nat := length (List.filter (λ t, value_is_str t.["type"] ty) tracks).
Definition propedit_args (mkvmerge hb_title : Value) (subs : list Value) (title : string) : list string :=
  let tracks := array_or_empty mkvmerge.["tracks"] in
  let al := array_or_empty hb_title.["AudioList"] in
  ["--edit"; "info"; "--set"; "title=" +:+ title] ++
  (if (of_type "audio" tracks =? length al)%nat then concat (imap (audio_args (default_audio al)) al) else []) ++
  (if (of_type "subtitles" tracks =? length subs)%nat then concat (imap sub_args subs) else []).
End propedit.

(** ** Examples, from the tests *)

Definition sub (n : N) (lang : string) (attrs : list string) : Value :=
  Object [("TrackNumber", Number (PosInt n)); ("LanguageCode", Str lang); ("Language", Str (lang +:+ " (Wide Screen) [VOBSUB]"));
          ("SourceName", Str "VOBSUB"); ("Attributes", Object ((λ a, (a, Bool true)) <$> attrs))].
Example keeps_widescreen_variants :
  track_number <$> select_subs (Object [("SubtitleList", Array
    [sub 1 "eng" ["Letterbox"]; sub 2 "eng" ["Wide"]; sub 3 "eng" ["Commentary"; "Letterbox"]; sub 4 "fra" []; sub 5 "fra" ["PanScan"]])])
  = [2; 3; 4]%Z.
Proof. vm_compute. done. Qed.
Example names_languages : lang (Str "English Director's Commentary (Wide Screen) [VOBSUB]") = "English" ∧ lang Null = "".
Proof. vm_compute. done. Qed.

(** ** Equality of values is an equivalence on the values JSON has *)

(** The two zeros are equal. *)
Definition norm_f64 (x : f64) : f64 := match x with S754_zero _ => S754_zero false | _ => x end.
Definition norm_number (n : number) : number := match n with Float x => Float (norm_f64 x) | _ => n end.
Fixpoint norm (v : Value) : Value :=
  match v with
  | Number n => Number (norm_number n)
  | Array l => Array (map norm l)
  | Object m => Object (map (λ kv, (kv.1, norm kv.2)) m)
  | _ => v
  end.
Lemma f64_eqb_norm x y : f64_finite x = true → f64_finite y = true → (f64_eqb x y = true ↔ norm_f64 x = norm_f64 y).
Proof.
  unfold f64_eqb, SFeqb, SFcompare.
  destruct x as [[]|[]| |[] mx ex], y as [[]|[]| |[] my ey]; cbn; try done;
    rewrite ?(pos_compare_cont_eq mx my); intros _ _;
    destruct (Z.compare_spec ex ey); destruct (Pos.compare_spec mx my); cbn; subst; split; intros; simplify_eq; try done; lia.
Qed.
Lemma value_eqb_norm v w : json_wf v = true → json_wf w = true → (value_eqb v w = true ↔ norm v = norm w).
Proof.
  revert w. induction v as [|b|n|s|l IH|m IH] using Value_ind'; intros w Hv Hw; destruct w as [|b'|n'|s'|l'|m']; try done.
  - cbn. rewrite Bool.eqb_true_iff. split; congruence.
  - destruct n, n'; cbn in *; try done; rewrite ?N.eqb_eq, ?Z.eqb_eq; try (split; congruence).
    rewrite f64_eqb_norm by done. split; [by intros ->|congruence].
  - cbn. rewrite String.eqb_eq. split; congruence.
  - cbn in Hv, Hw |- *. assert (∀ k k' : list Value, Array k = Array k' ↔ k = k') as -> by (split; congruence).
    revert l' Hw. induction IH as [|v l IHv IH IHl]; intros [|w l'] Hw; try done. cbn in *.
    apply andb_true_iff in Hv as [Hv Hl], Hw as [Hw Hl']. rewrite andb_true_iff, IHv, (IHl Hl l' Hl') by done.
    split; [by intros [-> ->]|intros [=]; done].
  - cbn in Hv, Hw |- *. assert (∀ k k', Object k = Object k' ↔ k = k') as -> by (split; congruence).
    revert m' Hw. induction IH as [|[k v] m IHv IH IHm]; intros [|[k' w] m'] Hw; try done. cbn in *.
    apply andb_true_iff in Hv as [Hv Hm], Hw as [Hw Hm'].
    rewrite !andb_true_iff, String.eqb_eq, IHv, (IHm Hm m' Hm') by done.
    split; [by intros [[-> ->] ->]|intros [=]; done].
Qed.

Definition all_wf (l : list Value) : Prop := Forall (λ v, json_wf v = true) l.
Lemma index_wf k v : json_wf v = true → json_wf v.[k] = true.
Proof.
  destruct v as [| | | | |m]; try done. cbn. induction m as [|[k' w] m IH]; [done|]. cbn.
  intros [Hw Hm]%andb_true_iff. case_decide; [done|by apply IH].
Qed.
Lemma key_wf s : json_wf s = true → all_wf (key s).
Proof. intros Hs. unfold key, all_wf. repeat constructor; by repeat apply index_wf. Qed.
Lemma keys_eqb_norm k l : all_wf k → all_wf l → (keys_eqb k l = true ↔ norm <$> k = norm <$> l).
Proof.
  intros Hk. revert l. induction Hk as [|v k Hv Hk IH]; intros [|w l]; inversion 1; subst; cbn; try done.
  rewrite andb_true_iff, value_eqb_norm, IH by done. split; [by intros [-> ->]|intros [=]; done].
Qed.

(** A sort of track: its key, up to the sign of zero. *)
Definition sort_of (s : Value) : list Value := norm <$> key s.
Definition gkey (g : Group) : list Value := norm <$> g.1.
Definition group_ok (g : Group) : Prop := g.2 ≠ [] ∧ all_wf g.1 ∧ Forall (λ m, sort_of m = gkey g) g.2.

Lemma add_to_ok groups s : json_wf s = true → Forall group_ok groups → NoDup (gkey <$> groups) →
  Forall group_ok (add_to groups s) ∧ NoDup (gkey <$> add_to groups s) ∧
  concat (snd <$> add_to groups s) ≡ₚ s :: concat (snd <$> groups) ∧
  (∀ k, k ∈ gkey <$> add_to groups s ↔ k = sort_of s ∨ k ∈ gkey <$> groups).
Proof.
  intros Hs. pose proof (key_wf s Hs) as Hk. induction 1 as [|[g ms] groups Hg HF IH]; cbn -[fmap list_fmap]; intros ND.
  - split_and!; [|by apply NoDup_singleton|done|].
    { constructor; [|constructor]. split_and!; [done|exact Hk|by repeat constructor]. }
    intros k. cbn. rewrite list_elem_of_singleton, elem_of_nil. tauto.
  - destruct Hg as (Hne & Hgw & Hms). cbn [fst snd] in *. rewrite fmap_cons in ND. apply NoDup_cons in ND as [Hnew ND].
    destruct (keys_eqb g (key s)) eqn:E.
    + apply keys_eqb_norm in E; [|done..]. split_and!.
      * constructor; [|done]. split_and!; [by destruct ms|done|]. cbn. apply Forall_app. split; [done|]. by repeat constructor.
      * rewrite fmap_cons. by constructor.
      * change ((ms ++ [s]) ++ concat (snd <$> groups) ≡ₚ s :: ms ++ concat (snd <$> groups)).
        rewrite <- app_assoc. symmetry. apply Permutation_middle.
      * intros k. rewrite !fmap_cons, !elem_of_cons. change (gkey (g, ms ++ [s])) with (norm <$> g). unfold gkey at 2. cbn [fst]. rewrite E.
        fold (sort_of s). tauto.
    + destruct (IH ND) as (I1 & I2 & I3 & I4). split_and!.
      * constructor; [|done]. done.
      * rewrite fmap_cons. constructor; [|done]. rewrite I4. intros [Eg|?]; [|done].
        assert (keys_eqb g (key s) = true) as E2 by (by apply keys_eqb_norm). congruence.
      * rewrite !fmap_cons. cbn. rewrite I3. by rewrite Permutation_middle.
      * intros k. rewrite !fmap_cons, !elem_of_cons, I4. tauto.
Qed.
Lemma groups_ok l groups : all_wf l → Forall group_ok groups → NoDup (gkey <$> groups) →
  let gs := fold_left add_to l groups in
  Forall group_ok gs ∧ NoDup (gkey <$> gs) ∧ concat (snd <$> gs) ≡ₚ l ++ concat (snd <$> groups).
Proof.
  intros Hl. revert groups. induction Hl as [|s l Hs Hl IH]; intros groups HF ND; cbn; [done|].
  destruct (add_to_ok groups s Hs HF ND) as (I1 & I2 & I3 & _). destruct (IH _ I1 I2) as (J1 & J2 & J3).
  split_and!; [done|done|]. by rewrite J3, I3, Permutation_middle.
Qed.
Lemma min_by_key_spec f l s : min_by_key f l = Some s → s ∈ l ∧ ∀ t, t ∈ l → (f s ≤ f t)%N.
Proof.
  revert s. induction l as [|t l IH]; intros s; cbn; [done|]. destruct (min_by_key f l) as [u|] eqn:E.
  - destruct (IH u eq_refl) as [Hu Hmin]. intros [= <-]. destruct (N.leb_spec (f t) (f u)).
    + split; [left|]. intros v [->|Hv]%elem_of_cons; [done|]. specialize (Hmin v Hv). lia.
    + split; [by right|]. intros v [->|Hv]%elem_of_cons; [lia|auto].
  - intros [= <-]. destruct l; [|cbn in E; by destruct (min_by_key f l)]. split; [left|].
    by intros v ->%list_elem_of_singleton.
Qed.
Lemma min_by_key_some f l : l ≠ [] → is_Some (min_by_key f l).
Proof. destruct l; [done|]. cbn. by destruct (min_by_key f l). Qed.

Lemma variant_wide s : variant s = 0%N ↔ is_wide s = true.
Proof. unfold variant, is_wide. destruct (truthy s.["Attributes"].["Wide"]); [done|]. by repeat case_match. Qed.
Lemma elem_of_groups k groups : k ∈ concat (snd <$> groups) ↔ ∃ g : Group, g ∈ groups ∧ k ∈ g.2.
Proof.
  rewrite list_elem_of_In, in_concat. split.
  - intros (ms & Hms%list_elem_of_In & Hk%list_elem_of_In). apply list_elem_of_fmap in Hms as (g & -> & Hg). eauto.
  - intros (g & Hg & Hk). exists g.2. rewrite <- !list_elem_of_In. split; [|done]. by apply list_elem_of_fmap_2.
Qed.

(** Of a title's subtitle tracks, [select_subs] keeps exactly one of each language and kind, no
    worse than any other of its kind (a widescreen one whenever there is one), in track order. *)
Theorem select_subs_spec hb_title : json_wf hb_title = true →
  let subs := array_or_empty hb_title.["SubtitleList"] in
  let kept := select_subs hb_title in
  (∀ k, k ∈ kept → k ∈ subs) ∧
  (∀ s, s ∈ subs → ∃ k, k ∈ kept ∧ key_eqb k s = true ∧ (variant k ≤ variant s)%N ∧ (is_wide s = true → is_wide k = true)) ∧
  (∀ i j k k', kept !! i = Some k → kept !! j = Some k' → key_eqb k k' = true → i = j) ∧
  StronglySorted (λ s t, (track_number s ≤ track_number t)%Z) kept.
Proof.
  intros Hwf subs kept.
  assert (all_wf subs) as Hsubs.
  { pose proof (index_wf "SubtitleList" _ Hwf) as Hw. subst subs. unfold array_or_empty. destruct (hb_title.["SubtitleList"]); try constructor.
    cbn in *. by apply Forall_forall; intros v Hv%list_elem_of_In; rewrite forallb_forall in Hw; apply Hw. }
  destruct (groups_ok subs [] Hsubs ltac:(constructor) ltac:(constructor)) as (HF & ND & HP). rewrite app_nil_r in HP.
  subst kept. unfold select_subs. fold subs. set (groups := fold_left add_to subs []) in *.
  assert (∀ k, k ∈ stable_sort track_leb (omap (λ g, min_by_key variant g.2) groups) ↔
    ∃ g, g ∈ groups ∧ min_by_key variant g.2 = Some k) as Hkept by (intros k; by rewrite stable_sort_elem, list_elem_of_omap).
  assert (∀ g k, g ∈ groups → k ∈ g.2 → k ∈ subs ∧ json_wf k = true ∧ sort_of k = gkey g) as Hmem.
  { intros g k Hg Hk. assert (k ∈ subs) as Hks.
    { rewrite <- HP. apply elem_of_groups. eauto. }
    split_and!; [done|by eapply Forall_forall in Hsubs|]. destruct (Forall_in _ _ _ HF Hg) as (_ & _ & Hms). by apply (Forall_in _ _ _ Hms). }
  split_and!.
  - intros k (g & Hg & [Hk _]%min_by_key_spec)%Hkept. by apply (Hmem g).
  - intros s Hs. rewrite <- HP in Hs. apply elem_of_groups in Hs as (g & Hg & Hs).
    destruct (min_by_key_some variant g.2) as [k Hk]; [by apply (Forall_in _ _ _ HF)|].
    pose proof (min_by_key_spec _ _ _ Hk) as [Hkg Hmin]. exists k. split; [apply Hkept; eauto|].
    assert (variant k ≤ variant s)%N as Hks by (by apply Hmin).
    split_and!; [|done|rewrite <- !variant_wide; lia].
    destruct (Hmem g k Hg Hkg) as (_ & Hkw & Ek), (Hmem g s Hg Hs) as (_ & Hsw & Es).
    apply keys_eqb_norm; [by apply key_wf..|]. etrans; [exact Ek|]. symmetry. exact Es.
  - assert (NoDup (sort_of <$> stable_sort track_leb (omap (λ g, min_by_key variant g.2) groups))) as NDk.
    { rewrite stable_sort_perm. clear -HF ND. induction HF as [|g gs Hg HF IH]; [constructor|]. cbn.
      rewrite fmap_cons in ND. apply NoDup_cons in ND as [Hnew ND]. destruct Hg as (Hne & _ & Hms).
      destruct (min_by_key_some variant g.2 Hne) as [k Hk]. rewrite Hk. cbn. constructor; [|by apply IH].
      intros (k' & Ek & (g' & Hg' & [Hk' _]%min_by_key_spec)%list_elem_of_omap)%list_elem_of_fmap. apply Hnew.
      apply min_by_key_spec in Hk as [Hk _]. apply list_elem_of_fmap. exists g'. split; [|done].
      destruct (Forall_in _ _ _ HF Hg') as (_ & _ & Hms'). pose proof (Forall_in _ _ _ Hms Hk) as E1. pose proof (Forall_in _ _ _ Hms' Hk') as E2.
      change (sort_of k = sort_of k') in Ek. by rewrite <- E1, Ek, E2. }
    intros i j k k' Hi Hj E.
    assert (k ∈ stable_sort track_leb (omap (λ g, min_by_key variant g.2) groups)) as (g & Hg & [Hk _]%min_by_key_spec)%Hkept by (by eapply list_elem_of_lookup_2).
    assert (k' ∈ stable_sort track_leb (omap (λ g, min_by_key variant g.2) groups)) as (g' & Hg' & [Hk' _]%min_by_key_spec)%Hkept by (by eapply list_elem_of_lookup_2).
    destruct (Hmem g k Hg Hk) as (_ & Hw & _), (Hmem g' k' Hg' Hk') as (_ & Hw' & _).
    apply keys_eqb_norm in E; [|by apply key_wf..].
    eapply NoDup_lookup; [exact NDk|..]; rewrite list_lookup_fmap; [by rewrite Hi|]. rewrite Hj. cbn. f_equal. symmetry. exact E.
  - assert (StronglySorted (λ s t, track_leb s t = true) (stable_sort track_leb (omap (λ g, min_by_key variant g.2) groups))) as HS.
    { apply stable_sort_sorted; unfold track_leb; intros *; rewrite ?Z.leb_le; lia. }
    clear -HS. induction HS as [|a l HS IH HL]; constructor; [done|]. eapply Forall_impl; [exact HL|]. unfold track_leb. intros b. by rewrite Z.leb_le.
Qed.

Lemma select_subs_spec_witness :
  let title := Object [("SubtitleList", Array [sub 1 "eng" ["Letterbox"]; sub 2 "eng" ["Wide"]; sub 3 "fra" []])] in
  json_wf title = true ∧ ∀ s, s ∈ array_or_empty title.["SubtitleList"] → ∃ k, k ∈ select_subs title ∧ key_eqb k s = true ∧ (variant k ≤ variant s)%N ∧ (is_wide s = true → is_wide k = true).
Proof.
  intros title. assert (json_wf title = true) as Hwf by (vm_compute; reflexivity).
  destruct (select_subs_spec title Hwf) as (_ & H & _). by split.
Defined.
