(* ===== verification/Makemkv.v ===== *)
(** * MakeMKV's robot output ([apps/dvdrip/src/makemkv.rs])

    makemkvcon prints [TAG:field,field,...] lines. [fields] splits one; [drive_index], [titles],
    [messages], [progress] and the tests of a backup's log read them; [closest] finds the title
    that stands for one HandBrake cannot read. *)

From Stdlib Require Import Ascii.
From stdpp Require Import options.
From S2P Require Import Prelude Text F64.

Definition comma : ascii := ",".
Definition dquote : ascii := "034".

(** ** Lines *)

(** The last field takes the characters; [acc] holds it reversed. *)
Fixpoint fields_from (quoted : bool) (acc : list ascii) (l : list ascii) : list string :=
  match l with
  | [] => [str (reverse acc)]
  | c :: l =>
      if bool_decide (c = dquote) then fields_from (negb quoted) acc l
      else if bool_decide (c = comma) && negb quoted then str (reverse acc) :: fields_from quoted [] l
      else fields_from quoted (c :: acc) l
  end.
Definition fields (rest : string) : list string := fields_from false [] (chars rest).

Definition drive_line (device l : string) : option N :=
  rest ← strip_prefix "DRV:" l;
  let f := fields rest in
  last_field ← last f;
  if bool_decide (last_field = device) then head f ≫= parse_u32 else None.
(** [find_map] *)
Fixpoint find_map {A B} (f : A → option B) (l : list A) : option B :=
  match l with [] => None | a :: l => match f a with Some b => Some b | None => find_map f l end end.
Definition drive_index (info device : string) : option N := find_map (drive_line device) (lines info).

(** ** Titles *)

Record MkvTitle : Type := mkMkvTitle { m_id : N; m_seconds : f64; m_file : string }.

Definition hms (v : string) : option f64 :=
  p ← mapM parse_f64 (split_char ":" v);
  match p with
  | [h; m; s] => Some (h * f64_of_Z 3600 + m * f64_of_Z 60 + s)%f64
  | _ => None
  end.

(** A TINFO line: title, attribute and value (an unquoted comma is part of the value). *)
Definition tinfo (l : string) : option (N * string * string) :=
  rest ← strip_prefix "TINFO:" l;
  let f := fields rest in
  id ← head f ≫= parse_u32; attr ← f !! 1;
  if (3 <=? length f)%nat then Some (id, attr, join "," (drop 3 f)) else None.
Definition set_attr (attr value : string) (t : MkvTitle) : MkvTitle :=
  if bool_decide (attr = "9") then mkMkvTitle (m_id t) (default f64_zero (hms value)) (m_file t)
  else if bool_decide (attr = "27") then mkMkvTitle (m_id t) (m_seconds t) value
  else t.
(** [BTreeMap::entry], on the list of values in key order *)
Fixpoint entry (id : N) (f : MkvTitle → MkvTitle) (m : list MkvTitle) : list MkvTitle :=
  match m with
  | [] => [f (mkMkvTitle id f64_zero "")]
  | t :: m' =>
      if (id <? m_id t)%N then f (mkMkvTitle id f64_zero "") :: m
      else if (id =? m_id t)%N then f t :: m'
      else t :: entry id f m'
  end.
Definition title_step (m : list MkvTitle) (l : string) : list MkvTitle :=
  match tinfo l with Some (id, attr, value) => entry id (set_attr attr value) m | None => m end.
Definition titles (info : string) : list MkvTitle := fold_left title_step (lines info) [].

Definition two : f64 := f64_of_Z 2.
Definition distance (want : f64) (t : MkvTitle) : f64 := f64_abs (m_seconds t - f64_floor want)%f64.
(** [min_by] with [total_cmp]: the first of the least. *)
Definition nearer (best x : MkvTitle * f64) : MkvTitle * f64 := if f64_total_ltb x.2 best.2 then x else best.
Definition closest (titles : list MkvTitle) (want : f64) : option MkvTitle :=
  match List.filter (λ td, f64_leb td.2 two) ((λ t, (t, distance want t)) <$> titles) with
  | [] => None
  | td :: l => Some (fold_left nearer l td).1
  end.

(** ** Logs *)

Definition messages (log : string) : list string :=
  omap (λ l, rest ← strip_prefix "MSG:" l; fields rest !! 3) (lines log).
Definition quoted_msg (s : string) : string := String dquote s.
Definition backup_failed (log : string) : bool := contains (quoted_msg "Backup failed") log.
Definition backup_done (log : string) : bool :=
  existsb (λ l, starts_with "MSG:5081," l && contains (quoted_msg "Backup done") l) (lines log).
Definition medium_error (log : string) : bool := contains "MEDIUM ERROR" log.
Definition error_message (m : string) : bool :=
  let l := to_lowercase m in
  (contains "error" l || contains "fail" l) && negb (contains "scrambled sector without authentication" l).
Definition read_errors (log : string) : N := u32_wrap (N.of_nat (length (List.filter error_message (messages log)))).
Definition progress (line : string) : option f64 :=
  rest ← strip_prefix "PRGV:" line;
  let f := fields rest in
  cur ← head f ≫= parse_f64; max ← f !! 2 ≫= parse_f64;
  if f64_ltb f64_zero max then Some (cur / max)%f64 else None.

(** ** Examples, from the tests *)

Definition q (s : string) : string := String dquote (s +:+ String dquote "").
Definition nl : string := String newline "".
Definition INFO : string := join nl
  ["DRV:0,2,999,1," +:+ q "DVD-ROM HL-DT-ST" +:+ "," +:+ q "BEETLEJUICE" +:+ "," +:+ q "/dev/sr0";
   "DRV:1,256,999,0," +:+ q "" +:+ "," +:+ q "" +:+ "," +:+ q "";
   "TINFO:0,2,0," +:+ q "Beetlejuice"; "TINFO:0,9,0," +:+ q "1:31:56"; "TINFO:0,27,0," +:+ q "Beetlejuice_t00.mkv";
   "TINFO:1,9,0," +:+ q "0:03:05"; "TINFO:1,27,0," +:+ q "Beetlejuice_t01.mkv";
   "MSG:2003,0,3," +:+ q "Error 'Scsi error - MEDIUM ERROR' occurred" +:+ "," +:+ q "x";
   "MSG:2004,0,3," +:+ q "READ OF SCRAMBLED SECTOR WITHOUT AUTHENTICATION at offset 1048576" +:+ "," +:+ q "x"; ""].
Example parses_info :
  drive_index INFO "/dev/sr0" = Some 0%N ∧ drive_index INFO "/dev/sr1" = None ∧
  titles INFO = [mkMkvTitle 0 (f64_of_Z 5516) "Beetlejuice_t00.mkv"; mkMkvTitle 1 (f64_of_Z 185) "Beetlejuice_t01.mkv"] ∧
  (m_id <$> closest (titles INFO) (f64_of_decimal false 1854 (-1))) = Some 1%N ∧ closest (titles INFO) (f64_of_Z 300) = None ∧
  medium_error INFO = true ∧ read_errors INFO = 1%N ∧ backup_failed INFO = false ∧ backup_done INFO = false ∧
  progress "PRGV:16384,32768,65536" = Some (f64_of_decimal false 25 (-2)).
Proof. vm_compute. done. Qed.

(** ** Splitting undoes printing *)

(** A field as makemkvcon prints it: a string in quotes, a number without. *)
Definition robot_field (f : bool * string) : string := if f.1 then q f.2 else f.2.
Definition field_ok (f : bool * string) : Prop :=
  ¬ char_in dquote f.2 ∧ (f.1 = false → ¬ char_in comma f.2).

Lemma fields_quoted acc w l : dquote ∉ w → fields_from true acc (w ++ l) = fields_from true (reverse w ++ acc) l.
Proof.
  revert acc. induction w as [|a w IH]; intros acc Hq; [done|]. apply not_elem_of_cons in Hq as [Ha Hw]. cbn [app fields_from].
  rewrite bool_decide_eq_false_2, andb_false_r by done. rewrite IH by done. by rewrite reverse_cons, <- app_assoc.
Qed.
Lemma fields_bare acc w l :
  dquote ∉ w → comma ∉ w → fields_from false acc (w ++ l) = fields_from false (reverse w ++ acc) l.
Proof.
  revert acc. induction w as [|a w IH]; intros acc Hq Hc; [done|].
  apply not_elem_of_cons in Hq as [Ha Hw], Hc as [Hac Hcw]. cbn [app fields_from].
  rewrite (bool_decide_eq_false_2 (a = dquote)), (bool_decide_eq_false_2 (a = comma)) by done. cbn [andb negb].
  rewrite IH by done. by rewrite reverse_cons, <- app_assoc.
Qed.
Lemma fields_one f l : field_ok f →
  fields_from false [] (chars (robot_field f) ++ l) = fields_from false (reverse (chars f.2)) l.
Proof.
  destruct f as [[] s]; intros [Hq Hc]; unfold robot_field; cbn [fst snd] in *.
  - unfold q. rewrite chars_cons, chars_app, <- app_comm_cons, <- app_assoc. cbn -[chars app].
    rewrite bool_decide_eq_true_2, fields_quoted, app_nil_r by done. cbn. by rewrite bool_decide_eq_true_2.
  - rewrite fields_bare, app_nil_r; [done|exact Hq|by apply Hc].
Qed.

(** [fields] undoes the robot mode's printing: it gives back the fields of any line whose strings
    are quoted, whatever commas they hold. *)
Theorem fields_roundtrip (fs : list (bool * string)) : fs ≠ [] → Forall field_ok fs →
  fields (join "," (robot_field <$> fs)) = fs.*2.
Proof.
  unfold fields. intros Hne Hok. induction Hok as [|f fs Hf Hok IH]; [done|].
  destruct fs as [|g fs].
  - change (fields_from false [] (chars (robot_field f)) = [f.2]).
    rewrite <- (app_nil_r (chars (robot_field f))), fields_one by done. cbn. by rewrite reverse_involutive, str_chars.
  - rewrite !fmap_cons, join_cons, chars_app, fields_one by done. rewrite chars_app, <- fmap_cons.
    change (chars ",") with [comma]. cbn [app fields_from]. rewrite bool_decide_eq_false_2, bool_decide_eq_true_2 by done.
    cbn [andb negb]. rewrite IH, reverse_involutive, str_chars by done. done.
Qed.
Lemma fields_roundtrip_witness :
  fields (join "," (robot_field <$> [(false, "0"); (false, "27"); (true, "A, B.mkv")])) = ["0"; "27"; "A, B.mkv"].
Proof.
  apply (fields_roundtrip [(false, "0"); (false, "27"); (true, "A, B.mkv")]); [done|].
  repeat constructor; cbn; unfold char_in; vm_compute; intros; try set_solver;
  match goal with H : _ |- _ => revert H end; rewrite ?elem_of_cons, ?elem_of_nil; naive_solver.
Defined.

(** ** The titles are what the lines say *)

Definition attrs (info : string) : list (N * string * string) := omap tinfo (lines info).
(** The last value given for an attribute of a title. *)
Definition last_value (id : N) (a : string) (l : list (N * string * string)) : option string :=
  last (omap (λ x, let '(i, b, v) := x in if bool_decide (i = id ∧ b = a) then Some v else None) l).
Definition title_of (l : list (N * string * string)) (id : N) : MkvTitle :=
  mkMkvTitle id (match last_value id "9" l with Some v => default f64_zero (hms v) | None => f64_zero end)
    (default "" (last_value id "27" l)).

Notation id_lt := (λ t u : MkvTitle, (m_id t < m_id u)%N).
Definition get (id : N) (m : list MkvTitle) : MkvTitle :=
  default (mkMkvTitle id f64_zero "") (List.find (λ t, (m_id t =? id)%N) m).

Lemma entry_spec id f m : (∀ t, m_id (f t) = m_id t) → StronglySorted id_lt m →
  StronglySorted id_lt (entry id f m) ∧
  ∀ t, t ∈ entry id f m ↔ t = f (get id m) ∨ (m_id t ≠ id ∧ t ∈ m).
Proof.
  intros Hf HS. unfold get. induction HS as [|t m HS IH HL]; cbn.
  { split; [by repeat constructor|]. intros t. rewrite list_elem_of_singleton, elem_of_nil. naive_solver. }
  assert (∀ u, u ∈ m → (m_id t < m_id u)%N) as Hlt by (intros u Hu; by apply (Forall_in _ _ _ HL)).
  destruct (N.ltb_spec id (m_id t)) as [Hid|Hid]; [|destruct (N.eqb_spec id (m_id t)) as [->|Hne]].
  - rewrite (proj2 (N.eqb_neq _ _)) by lia.
    assert (List.find (λ t, (m_id t =? id)%N) m = None) as ->.
    { destruct (List.find _ m) as [u|] eqn:E; [|done]. apply find_some_elem in E as [Hu E%N.eqb_eq]. specialize (Hlt u Hu). lia. }
    split.
    + constructor; [by constructor|]. rewrite Forall_cons, Hf. split; [done|]. apply Forall_forall. intros u Hu.
      cbn. specialize (Hlt u Hu). lia.
    + intros u. rewrite !elem_of_cons. split; [intros [->|[->|Hu]]; [by left|right..]|naive_solver].
      * split; [lia|by left].
      * split; [specialize (Hlt u Hu); lia|by right].
  - rewrite N.eqb_refl. split.
    + constructor; [done|]. rewrite Hf. exact HL.
    + intros u. rewrite !elem_of_cons. split; [intros [->|Hu]; [by left|right]|intros [->|[Hne [->|Hu]]]; [by left|done|by right]].
      split; [specialize (Hlt u Hu); lia|by right].
  - rewrite (proj2 (N.eqb_neq _ _)) by lia. destruct IH as [IH1 IH2]. split.
    + constructor; [done|]. apply Forall_forall. intros u [->|[_ Hu]]%IH2.
      * rewrite Hf. destruct (List.find _ m) as [w|] eqn:E; cbn; [|lia]. apply find_some_elem in E as [Hw _]. by apply Hlt.
      * by apply Hlt.
    + intros u. rewrite !elem_of_cons, IH2. naive_solver.
Qed.
Lemma set_attr_id a v t : m_id (set_attr a v t) = m_id t.
Proof. unfold set_attr. by repeat case_bool_decide. Qed.
Lemma last_value_snoc id a l i b v :
  last_value id a (l ++ [(i, b, v)]) = if bool_decide (i = id ∧ b = a) then Some v else last_value id a l.
Proof.
  unfold last_value. rewrite omap_app. cbn. case_bool_decide; cbn; [by rewrite last_snoc|by rewrite app_nil_r].
Qed.
Lemma title_of_snoc l id i a v :
  title_of (l ++ [(i, a, v)]) id = if bool_decide (i = id) then set_attr a v (title_of l id) else title_of l id.
Proof.
  unfold title_of. rewrite !last_value_snoc. unfold set_attr.
  repeat case_bool_decide; cbn; try done; destruct_and?; simplify_eq; tauto.
Qed.

(** What the map holds after some of the attributes. *)
Definition holds (seen : list (N * string * string)) (m : list MkvTitle) : Prop :=
  StronglySorted id_lt m ∧ ∀ t, t ∈ m ↔ m_id t ∈ (λ x, x.1.1) <$> seen ∧ t = title_of seen (m_id t).
Lemma holds_step seen m i a v : holds seen m → holds (seen ++ [(i, a, v)]) (entry i (set_attr a v) m).
Proof.
  intros [HS Hm]. destruct (entry_spec i (set_attr a v) m (set_attr_id a v) HS) as [ES EH]. split; [done|].
  assert (get i m = title_of seen i) as Hget.
  { unfold get. destruct (List.find _ m) as [u|] eqn:E; cbn.
    - apply find_some_elem in E as [[_ Hu]%Hm <-%N.eqb_eq]. exact Hu.
    - assert (∀ b, last_value i b seen = None) as Hnone; [|unfold title_of; by rewrite !Hnone].
      intros b. destruct (last_value i b seen) as [w|] eqn:Ew; [|done]. unfold last_value in Ew.
      apply last_Some_elem_of, list_elem_of_omap in Ew as ([[i' b'] w'] & Hx & Ex). case_bool_decide as Hi; [|done].
      destruct Hi as [-> ->]. assert (title_of seen i ∈ m) as Hin.
      { apply Hm. split; [|done]. apply list_elem_of_fmap. by exists (i, b, w'). }
      pose proof (find_none_elem _ _ _ E Hin) as Hf. cbn in Hf. by rewrite N.eqb_refl in Hf. }
  intros t. rewrite EH, Hget, fmap_app, elem_of_app, title_of_snoc.
  change ((λ x : N * string * string, x.1.1) <$> [(i, a, v)]) with [i]. rewrite list_elem_of_singleton. split.
  - intros [->|[Hne [Hin Ht]%Hm]]; rewrite ?set_attr_id; cbn [m_id title_of].
    + split; [by right|]. by rewrite bool_decide_eq_true_2.
    + split; [by left|]. by rewrite bool_decide_eq_false_2.
  - intros [Hin Ht]. case_bool_decide as Hi; [subst i; by left|]. right. split; [done|]. apply Hm. split; [|done]. naive_solver.
Qed.

(** [titles] gives one title per index the output names, in index order, with the runtime and the
    file of the last lines that set them. *)
Theorem titles_spec info :
  StronglySorted id_lt (titles info) ∧
  ∀ t, t ∈ titles info ↔ m_id t ∈ (λ x, x.1.1) <$> attrs info ∧ t = title_of (attrs info) (m_id t).
Proof.
  enough (∀ ls seen m, holds seen m → holds (seen ++ omap tinfo ls) (fold_left title_step ls m)) as H.
  { apply (H (lines info) [] []). split; [constructor|]. intros t. rewrite !elem_of_nil. naive_solver. }
  induction ls as [|l ls IH]; intros seen m Hm; [by rewrite app_nil_r|].
  cbn [fold_left]. unfold title_step at 2. change (omap tinfo (l :: ls)) with (match tinfo l with Some x => x :: omap tinfo ls | None => omap tinfo ls end).
  destruct (tinfo l) as [[[i a] v]|]; [|by apply IH]. rewrite cons_middle, app_assoc. apply IH, holds_step, Hm.
Qed.

Lemma parse_u32_bound s n : parse_u32 s = Some n → (n < u32_modulus)%N.
Proof.
  unfold parse_u32, parse_uint. destruct (match chars s with "+"%char :: l => l | l => l end); [done|].
  destruct (parse_digits _ _) as [k|]; [|done]. cbn. destruct (N.ltb_spec k u32_modulus); [|done]. by intros [= <-].
Qed.
(** Distinct indices, of 32 bits. *)
Lemma titles_ids info : NoDup (m_id <$> titles info) ∧ ∀ t, t ∈ titles info → (m_id t < u32_modulus)%N.
Proof.
  destruct (titles_spec info) as [HS Hin]. split.
  - clear Hin. induction HS as [|t l HS IH HL]; [constructor|]. rewrite fmap_cons. constructor; [|done].
    intros (u & Eu & Hu)%list_elem_of_fmap. pose proof (Forall_in _ _ _ HL Hu) as Hlt. cbn in Hlt. lia.
  - intros t [Ht _]%Hin. apply list_elem_of_fmap in Ht as ([[id a] v] & -> & Hx).
    unfold attrs in Hx. apply list_elem_of_omap in Hx as (l & _ & El). unfold tinfo in El.
    destruct (strip_prefix "TINFO:" l) as [rest|]; [|done]. cbn -[parse_u32] in El.
    destruct (head (fields rest) ≫= parse_u32) as [i|] eqn:E; [|done]. cbn -[parse_u32] in El.
    destruct (fields rest !! 1); [|done]. cbn -[parse_u32] in El. destruct (fields rest) as [|x fs]; [done|]. cbn -[parse_u32] in E, El.
    case_match; [|done]. injection El as <- _ _. by eapply parse_u32_bound.
Qed.

Lemma nearer_least l td : f64_is_nan td.2 = false → (∀ x, x ∈ l → f64_is_nan x.2 = false) →
  let b := fold_left nearer l td in
  b ∈ td :: l ∧ ∀ x, x ∈ td :: l → f64_leb b.2 x.2 = true.
Proof.
  revert td. induction l as [|y l IH]; intros td Htd Hl; cbn.
  { split; [left|]. intros x ->%list_elem_of_singleton. by apply f64_leb_refl. }
  assert (f64_is_nan y.2 = false) as Hy by (apply Hl; left).
  assert (nearer td y = td ∨ nearer td y = y) as Hn by (unfold nearer; destruct (f64_total_ltb y.2 td.2); auto).
  assert (f64_leb (nearer td y).2 td.2 = true ∧ f64_leb (nearer td y).2 y.2 = true) as [L1 L2].
  { pose proof (f64_total_ltb_leb y.2 td.2 Hy Htd) as Hle. unfold nearer.
    destruct (f64_total_ltb y.2 td.2); split; done || by apply f64_leb_refl. }
  destruct (IH (nearer td y)) as [Hin Hle].
  - by destruct Hn as [->| ->].
  - intros x Hx. apply Hl. by right.
  - split.
    + apply elem_of_cons in Hin as [->|Hin]; [|by right; right]. destruct Hn as [->| ->]; [left|right; left].
    + intros x [->|[->|Hx]%elem_of_cons]%elem_of_cons; [| |apply Hle; by right];
        (eapply f64_leb_trans; [apply Hle; left|done]).
Qed.

(** [closest] gives a title whose runtime is within two seconds of the one sought and no further
    from it than any other's, and gives none only when no title is that close. *)
Theorem closest_spec ts want :
  match closest ts want with
  | Some t => t ∈ ts ∧ f64_leb (distance want t) two = true ∧
      ∀ u, u ∈ ts → f64_leb (distance want u) two = true → f64_leb (distance want t) (distance want u) = true
  | None => ∀ u, u ∈ ts → f64_leb (distance want u) two = false
  end.
Proof.
  unfold closest. set (near := List.filter _ _).
  assert (∀ td, td ∈ near ↔ td.1 ∈ ts ∧ td.2 = distance want td.1 ∧ f64_leb td.2 two = true) as Hnear.
  { intros [t d]. subst near. rewrite list_elem_of_In, filter_In, <- list_elem_of_In, list_elem_of_fmap. cbn. naive_solver. }
  clearbody near. destruct near as [|td l].
  - intros u Hu. apply not_true_is_false. intros Hd. destruct (elem_of_nil (u, distance want u)) as [Hn _]. apply Hn, Hnear. done.
  - destruct (nearer_least l td) as [Hin Hle].
    + destruct (proj1 (Hnear td)) as (_ & _ & Ht); [left|]. by apply f64_leb_not_nan in Ht as [].
    + intros x Hx. destruct (proj1 (Hnear x)) as (_ & _ & Ht); [by right|]. by apply f64_leb_not_nan in Ht as [].
    + destruct (proj1 (Hnear _) Hin) as (Hts & Ed & Hd). rewrite Ed in Hd. split_and!; [done|done|].
      intros u Hu Hud. rewrite <- Ed. apply (Hle (u, distance want u)), Hnear. done.
Qed.
