(* ===== verification/Lsdvd.v ===== *)
(** * lsdvd's XML ([apps/dvdrip/src/lsdvd.rs])

    [sanitize] makes lsdvd's output well-formed text; [to_json] turns the XML into the JSON shape that
    xq gives. The XML reader is quick-xml's: the class [XmlReader] gives the events of a text, and
    [to_json] is the program's stack machine over them. [xq] is the shape itself, by recursion on the
    document, and [to_json_xq] shows that the machine computes it. *)

From Stdlib Require Import Ascii.
From stdpp Require Import options.
From S2P Require Import Prelude Text F64 Json.

(** ** [sanitize] *)

Definition printable (b : ascii) : bool := bool_decide (b = "009"%char ∨ b = "010"%char) || in_range 32 126 b.
Definition clean_byte (b : ascii) : ascii := if printable b then b else "?"%char.
(** The position of each line; the one of the first that starts with [<?xml]. *)
Fixpoint xml_start (pos : nat) (ls : list string) : option nat :=
  match ls with
  | [] => None
  | l :: ls => if starts_with "<?xml" l then Some pos else xml_start (pos + (String.length l + 1)) ls
  end.
Definition sanitize (raw : list ascii) : string :=
  let text := str (clean_byte <$> raw) in
  let start := default (String.length text) (xml_start 0 (lines text)) in
  replace "&" "&amp;" (str (drop start (chars text))).

(** ** [to_json] *)

Inductive Event : Type :=
  | Start (name : string)
  | Empty (name : string)
  | Text (text : string)
  | GeneralRef (name : string)
  | End_
  | Other.

(** The events of a text up to the end of the file, or up to the error that stopped the reader. *)
Class XmlReader : Type := read_events : string → list (Result Event string).

Definition str_ltb (s t : string) : bool := negb (String.leb t s).
(** [Map::insert] of a new key *)
Fixpoint map_insert (name : string) (value : Value) (m : list (string * Value)) : list (string * Value) :=
  match m with
  | [] => [(name, value)]
  | (k, v) :: m' => if str_ltb name k then (name, value) :: m else (k, v) :: map_insert name value m'
  end.
Definition push_value (existing value : Value) : Value :=
  match existing with Array items => Array (items ++ [value]) | _ => Array [existing; value] end.
Fixpoint map_update (name : string) (f : Value → Value) (m : list (string * Value)) : list (string * Value) :=
  match m with
  | [] => []
  | (k, v) :: m' => if bool_decide (k = name) then (k, f v) :: m' else (k, v) :: map_update name f m'
  end.
Definition insert (m : list (string * Value)) (name : string) (value : Value) : list (string * Value) :=
  match assoc name m with
  | Some _ => map_update name (λ v, push_value v value) m
  | None => map_insert name value m
  end.

(** An open element: its name, children and text. *)
Notation Frame := (string * list (string * Value) * string)%type.
Definition entity (name : string) : string :=
  if bool_decide (name = "amp") then "&" else if bool_decide (name = "lt") then "<"
  else if bool_decide (name = "gt") then ">" else if bool_decide (name = "quot") then String "034" ""
  else if bool_decide (name = "apos") then "'" else "?".
Definition push_text (s : string) (stack : list Frame) : list Frame :=
  match stack with [] => [] | (n, children, text) :: stack => (n, children, text +:+ s) :: stack end.
Definition element_value (children : list (string * Value)) (text : string) : Value :=
  match children with
  | _ :: _ => Object children
  | [] => if bool_decide (text = "") then Null else Str text
  end.
(** A finished element goes to its parent, or is the root. *)
Definition finish (name : string) (value : Value) (stack : list Frame) (root : option (string * Value))
    : list Frame * option (string * Value) :=
  match stack with
  | (n, children, text) :: stack => ((n, insert children name value, text) :: stack, root)
  | [] => ([], Some (name, value))
  end.
Definition on_event (e : Event) (stack : list Frame) (root : option (string * Value))
    : Result (list Frame * option (string * Value)) string :=
  match e with
  | Start name => Ok ((name, [], "") :: stack, root)
  | Empty name => Ok (finish name Null stack root)
  | Text t => Ok (push_text t stack, root)
  | GeneralRef name => Ok (push_text (entity name) stack, root)
  | End_ =>
      match stack with
      | [] => Err "unbalanced lsdvd XML"
      | (name, children, text) :: stack => Ok (finish name (element_value children text) stack root)
      end
  | Other => Ok (stack, root)
  end.
Fixpoint run (events : list (Result Event string)) (stack : list Frame) (root : option (string * Value))
    : Result (option (string * Value)) string :=
  match events with
  | [] => Ok root
  | Err e :: _ => Err ("parsing lsdvd XML: " +:+ e)
  | Ok e :: events => match on_event e stack root with Ok (stack, root) => run events stack root | Err e => Err e end
  end.
Definition to_json `{XmlReader} (xml : string) : Result Value string :=
  match run (read_events xml) [] None with
  | Ok (Some (name, value)) => Ok (Object [(name, value)])
  | Ok None => Err "no XML in lsdvd output"
  | Err e => Err e
  end.

Example sanitizes :
  sanitize (chars (String "255" (join (String "010" "") ["CHECK_VALUE failed"; "<?xml version='1.0'?>"; "<a>Pan&Scan" +:+ String "255" "</a>"; ""])))
  = join (String "010" "") ["<?xml version='1.0'?>"; "<a>Pan&amp;Scan?</a>"; ""].
Proof. vm_compute. done. Qed.
Example sanitizes_nothing : sanitize (chars "no xml here") = "".
Proof. vm_compute. done. Qed.

(** ** The document and its shape *)

Inductive Node : Type :=
  | Elem (name : string) (children : list Node)
  | EmptyTag (name : string)
  | Chars (text : string)
  | Ref (name : string)
  | Comment.

Fixpoint events_of (x : Node) : list Event :=
  match x with
  | Elem name children => Start name :: concat (map events_of children) ++ [End_]
  | EmptyTag name => [Empty name]
  | Chars text => [Text text]
  | Ref name => [GeneralRef name]
  | Comment => [Other]
  end.

Definition values_of (k : string) (kids : list (string * Value)) : list Value :=
  omap (λ kv, if bool_decide (kv.1 = k) then Some kv.2 else None) kids.
(** One child is its value, more are an array. *)
Definition shape (vs : list Value) : Value := match vs with [v] => v | _ => Array vs end.
Definition names (kids : list (string * Value)) : list string := stable_sort String.leb (remove_dups kids.*1).
Definition object_of (kids : list (string * Value)) : list (string * Value) :=
  (λ k, (k, shape (values_of k kids))) <$> names kids.
Definition node_text (x : Node) : string :=
  match x with Chars t => t | Ref r => entity r | _ => "" end.
(** The element [x] is, if it is one. *)
Fixpoint element (x : Node) : option (string * Value) :=
  match x with
  | Elem name children => Some (name, element_value (object_of (omap element children)) (join "" (node_text <$> children)))
  | EmptyTag name => Some (name, Null)
  | _ => None
  end.
Definition xq (x : Node) : Value := from_option snd Null (element x).

(** ** Maps in key order *)

Notation key_lt := (λ a b : string * Value, str_lt a.1 b.1).
Lemma str_ltb_spec s t : str_ltb s t = true ↔ str_lt s t.
Proof. unfold str_ltb, str_lt. by rewrite negb_true_iff. Qed.
Lemma assoc_None_elem {A} k (m : list (string * A)) : assoc k m = None ↔ k ∉ m.*1.
Proof.
  induction m as [|[k' a] m IH]; cbn; [split; [intros _ []%elem_of_nil|done]|].
  rewrite not_elem_of_cons. case_decide; [naive_solver|]. rewrite IH. naive_solver.
Qed.
Lemma sorted_head_fresh k v m : Forall (key_lt (k, v)) m → assoc k m = None.
Proof.
  intros HF. apply assoc_None_elem. intros ([k' w] & -> & Hin)%list_elem_of_fmap.
  pose proof (Forall_in _ _ _ HF Hin) as Hlt. by apply str_lt_irrefl in Hlt.
Qed.
(** A map in strict key order is determined by its lookups. *)
Lemma sorted_assoc_ext m1 m2 : StronglySorted key_lt m1 → StronglySorted key_lt m2 →
  (∀ k, assoc k m1 = assoc k m2) → m1 = m2.
Proof.
  intros H1. revert m2. induction H1 as [|[k1 v1] m1 S1 IH L1]; intros m2 H2 E.
  - destruct m2 as [|[k v] m2]; [done|]. specialize (E k). cbn in E. by rewrite decide_True in E.
  - destruct H2 as [|[k2 v2] m2 S2 L2]; [specialize (E k1); cbn in E; by rewrite decide_True in E|].
    assert (k1 = k2) as ->.
    { destruct (decide (k1 = k2)) as [|Hne]; [done|].
      assert (k2 ∈ m1.*1 ∧ k1 ∈ m2.*1) as [Hin1 Hin2].
      { split; apply dec_stable; rewrite <- assoc_None_elem; intros HN.
        - specialize (E k2). cbn in E. by rewrite decide_False, decide_True, HN in E.
        - specialize (E k1). cbn in E. by rewrite decide_True, decide_False, HN in E. }
      apply list_elem_of_fmap in Hin1 as ([a v] & -> & Hin1), Hin2 as ([b w] & -> & Hin2).
      pose proof (Forall_in _ _ _ L1 Hin1) as Q1. pose proof (Forall_in _ _ _ L2 Hin2) as Q2. cbn in Q1, Q2.
      destruct (str_lt_irrefl a). eapply str_lt_le_trans; [exact Q2|]. by apply str_lt_spec in Q1 as []. }
    pose proof (E k2) as Ev. cbn in Ev. rewrite !decide_True in Ev by done. injection Ev as ->. f_equal.
    apply IH; [done|]. intros k. specialize (E k). cbn in E. case_decide as Hk; [subst k|done].
    by rewrite (sorted_head_fresh _ _ _ L1), (sorted_head_fresh _ _ _ L2).
Qed.

Lemma map_insert_assoc n v m k : assoc n m = None →
  assoc k (map_insert n v m) = if decide (k = n) then Some v else assoc k m.
Proof.
  induction m as [|[k' w] m IH]; cbn; [done|].
  destruct (decide (n = k')) as [|Hn]; [done|]. intros Hm.
  destruct (str_ltb n k'); cbn; [by repeat case_decide; subst|].
  rewrite IH by done. by repeat case_decide; subst.
Qed.
Lemma map_insert_sorted n v m : assoc n m = None → StronglySorted key_lt m → StronglySorted key_lt (map_insert n v m).
Proof.
  intros Hn HS. induction HS as [|[k w] m HS IH HL]; cbn in *; [by repeat constructor|]. case_decide as Hk; [done|].
  destruct (str_ltb n k) eqn:E.
  - apply str_ltb_spec in E. constructor; [by constructor|]. constructor; [done|]. eapply Forall_impl; [exact HL|].
    intros [k' w'] Hlt. cbn in *. eapply str_lt_le_trans; [exact E|]. by apply str_lt_spec in Hlt as [].
  - constructor; [by apply IH|].
    assert (str_lt k n) as Hlt.
    { apply str_lt_spec. split; [|done]. destruct (str_le_lt k n) as [|Hlt]; [done|]. apply str_ltb_spec in Hlt. congruence. }
    clear -HL Hlt. induction m as [|[k' w'] m IH]; cbn; [by repeat constructor|]. apply Forall_cons in HL as [H1 H2].
    destruct (str_ltb n k'); repeat constructor; auto.
Qed.
Lemma map_update_assoc n f m k : assoc k (map_update n f m) = if decide (k = n) then f <$> assoc n m else assoc k m.
Proof.
  induction m as [|[k' w] m IH]; cbn; [by case_decide|]. case_bool_decide; subst; cbn; [by repeat case_decide; subst|].
  rewrite IH. repeat case_decide; subst; done.
Qed.
Lemma map_update_sorted n f m : StronglySorted key_lt m → StronglySorted key_lt (map_update n f m).
Proof.
  assert (∀ k v l, Forall (key_lt (k, v)) l → Forall (key_lt (k, v)) (map_update n f l)) as HF.
  { intros k v l. induction 1 as [|[k' w] l Hk Hl IH]; cbn; [constructor|]. case_bool_decide; by constructor. }
  induction 1 as [|[k v] m HS IH HL]; cbn; [constructor|]. case_bool_decide; constructor; try done.
  exact (HF _ v _ HL).
Qed.
Definition push_opt (o : option Value) (v : Value) : Value := match o with Some w => push_value w v | None => v end.
Lemma insert_assoc m n v k : assoc k (insert m n v) = if decide (k = n) then Some (push_opt (assoc n m) v) else assoc k m.
Proof.
  unfold insert. destruct (assoc n m) as [w|] eqn:E; cbn; [|by apply map_insert_assoc].
  rewrite map_update_assoc, E. done.
Qed.
Lemma insert_map_sorted m n v : StronglySorted key_lt m → StronglySorted key_lt (insert m n v).
Proof. unfold insert. intros HS. destruct (assoc n m) eqn:E; [by apply map_update_sorted|by apply map_insert_sorted]. Qed.

(** ** [object_of] is what [insert] builds *)

Lemma names_elem k kids : k ∈ names kids ↔ k ∈ kids.*1.
Proof. unfold names. by rewrite stable_sort_elem, elem_of_remove_dups. Qed.
Lemma values_of_nil k kids : values_of k kids = [] ↔ k ∉ kids.*1.
Proof.
  unfold values_of. induction kids as [|[k' v] kids IH]; cbn; [split; [intros _ []%elem_of_nil|done]|].
  rewrite not_elem_of_cons. case_bool_decide; cbn; [naive_solver|]. rewrite IH. naive_solver.
Qed.
Lemma object_of_sorted kids : StronglySorted key_lt (object_of kids).
Proof.
  unfold object_of. assert (StronglySorted str_lt (names kids)) as HS.
  { assert (NoDup (names kids)) as ND by (unfold names; rewrite stable_sort_perm; apply NoDup_remove_dups).
    assert (StronglySorted (λ x y, String.leb x y = true) (names kids)) as HS.
    { apply stable_sort_sorted; [intros a b; apply String.leb_total|intros a b c; apply str_le_trans]. }
    induction HS as [|k l HS IH HL]; [constructor|]. apply NoDup_cons in ND as [Hk ND]. constructor; [by apply IH|].
    apply Forall_forall. intros x Hx. apply str_lt_spec. split; [by apply (Forall_in _ _ _ HL)|]. by intros ->. }
  induction HS as [|k l HS IH HL]; [constructor|]. rewrite fmap_cons. constructor; [done|].
  apply Forall_fmap. eapply Forall_impl; [exact HL|]. done.
Qed.
Lemma object_of_assoc kids k :
  assoc k (object_of kids) = match values_of k kids with [] => None | vs => Some (shape vs) end.
Proof.
  assert (∀ (f : string → Value) (l : list string), assoc k ((λ k, (k, f k)) <$> l) = if decide (k ∈ l) then Some (f k) else None) as Hf.
  { intros f l. induction l as [|k' l IH]; cbn; [done|]. rewrite IH.
    repeat case_decide; subst; try done; set_solver. }
  unfold object_of. rewrite Hf. case_decide as Hk; rewrite names_elem in Hk.
  - destruct (values_of k kids) eqn:E; [by apply values_of_nil in E|done].
  - apply values_of_nil in Hk. by rewrite Hk.
Qed.

(** The value of an element is no array. *)
Definition not_array (v : Value) : Prop := match v with Array _ => False | _ => True end.
Lemma push_shape vs v : Forall not_array vs → vs ≠ [] → push_value (shape vs) v = shape (vs ++ [v]).
Proof. intros HF Hne. destruct HF as [|w vs Hw HF]; [done|]. destruct vs as [|u vs]; [by destruct w|done]. Qed.
Lemma insert_object kids n v : Forall (λ kv, not_array kv.2) kids →
  insert (object_of kids) n v = object_of (kids ++ [(n, v)]).
Proof.
  intros HF. apply sorted_assoc_ext; [apply insert_map_sorted, object_of_sorted|apply object_of_sorted|]. intros k.
  assert (values_of k (kids ++ [(n, v)]) = values_of k kids ++ (if decide (k = n) then [v] else [])) as Ev.
  { unfold values_of. rewrite omap_app. cbn. case_decide; [by rewrite bool_decide_eq_true_2|by rewrite bool_decide_eq_false_2]. }
  rewrite insert_assoc, !object_of_assoc, Ev. case_decide as Hk; [subst k|by rewrite app_nil_r].
  assert (Forall not_array (values_of n kids)) as Hv.
  { unfold values_of. clear Ev. induction HF as [|[k' w] kids Hw HF IH]; cbn; [constructor|]. case_bool_decide; [by constructor|done]. }
  destruct (values_of n kids) as [|w vs] eqn:E; cbn [push_opt]; [done|]. rewrite push_shape by done. by destruct vs.
Qed.

(** ** The stack machine computes the shape *)

Section Node_induction.
Context (P : Node → Prop) (HElem : ∀ n cs, Forall P cs → P (Elem n cs)) (HEmpty : ∀ n, P (EmptyTag n))
  (HChars : ∀ t, P (Chars t)) (HRef : ∀ n, P (Ref n)) (HComment : P Comment).
Fixpoint Node_ind' (x : Node) : P x :=
  match x with
  | Elem n cs => HElem n cs ((fix go l := match l return Forall P l with
      | [] => Forall_nil_2 _ | y :: l' => Forall_cons_2 _ _ _ (Node_ind' y) (go l') end) cs)
  | EmptyTag n => HEmpty n | Chars t => HChars t | Ref n => HRef n | Comment => HComment
  end.
End Node_induction.

Notation oks l := (@Ok Event string <$> l).
Definition text_of (cs : list Node) : string := join "" (node_text <$> cs).
Lemma text_of_cons x cs : text_of (x :: cs) = node_text x +:+ text_of cs.
Proof. unfold text_of. rewrite fmap_cons. destruct cs; [cbn; by rewrite str_app_nil_r|]. by rewrite fmap_cons, join_cons. Qed.
Lemma element_not_array x kv : element x = Some kv → not_array kv.2.
Proof.
  destruct x as [n cs| | | |]; cbn; intros [= <-]; cbn; [|done]. unfold element_value.
  destruct (object_of _); [|done]. by case_bool_decide.
Qed.
Lemma kids_not_array cs : Forall (λ kv, not_array kv.2) (omap element cs).
Proof.
  apply Forall_forall. intros kv (x & _ & Hx)%list_elem_of_omap. by eapply element_not_array.
Qed.

(** Inside an element: its children go to its frame. *)
Definition runs_inside (x : Node) : Prop := ∀ rest n kids text stack root,
  Forall (λ kv, not_array kv.2) kids →
  run (oks (events_of x) ++ rest) ((n, object_of kids, text) :: stack) root =
  run rest ((n, object_of (kids ++ omap element [x]), text +:+ node_text x) :: stack) root.
Lemma run_children cs : Forall runs_inside cs → ∀ rest n kids text stack root,
  Forall (λ kv, not_array kv.2) kids →
  run (oks (concat (map events_of cs)) ++ rest) ((n, object_of kids, text) :: stack) root =
  run rest ((n, object_of (kids ++ omap element cs), text +:+ text_of cs) :: stack) root.
Proof.
  induction 1 as [|x cs Hx Hcs IH]; intros rest n kids text stack root Hk; cbn [map concat].
  { cbn. by rewrite app_nil_r, str_app_nil_r. }
  rewrite fmap_app, <- app_assoc, Hx, IH by (rewrite ?Forall_app; split_and?; done || apply kids_not_array).
  by rewrite text_of_cons, <- app_assoc, <- str_app_assoc, <- omap_app.
Qed.
(** An element's events end with its value in the parent, or as the root. *)
Lemma run_element x n v : element x = Some (n, v) → Forall runs_inside (match x with Elem _ cs => cs | _ => [] end) →
  ∀ rest stack root, run (oks (events_of x) ++ rest) stack root =
    run rest (finish n v stack root).1 (finish n v stack root).2.
Proof.
  destruct x as [m cs|m| | |]; try done; intros Ex Hcs rest stack root; injection Ex as -> <-.
  - cbn [events_of]. rewrite fmap_cons, fmap_app, <- app_comm_cons, <- app_assoc. cbn [run on_event].
    rewrite (run_children cs Hcs _ n [] "" stack root) by constructor. cbn [app fmap list_fmap run on_event].
    fold (text_of cs). change ("" +:+ text_of cs) with (text_of cs). by destruct (finish _ _ _ _).
  - cbn. by destruct stack as [|[[? ?] ?] ?].
Qed.
Lemma runs_inside_all x : runs_inside x.
Proof.
  induction x as [n cs IH|n|t|r|] using Node_ind'; intros rest n' kids text stack root Hk.
  - rewrite (run_element (Elem n cs) _ _ eq_refl IH). cbn [finish fst snd]. by rewrite insert_object, str_app_nil_r.
  - cbn. by rewrite insert_object, str_app_nil_r.
  - cbn. by rewrite app_nil_r.
  - cbn. by rewrite app_nil_r.
  - cbn. by rewrite app_nil_r, str_app_nil_r.
Qed.
Lemma run_document doc root rest :
  run (oks (concat (map events_of doc)) ++ rest) [] root =
  run rest [] (match last (omap element doc) with Some kv => Some kv | None => root end).
Proof.
  revert root. induction doc as [|x doc IH]; intros root; [done|]. cbn [map concat]. rewrite fmap_app, <- app_assoc.
  assert (run (oks (events_of x) ++ oks (concat (map events_of doc)) ++ rest) [] root =
    run (oks (concat (map events_of doc)) ++ rest) [] (match element x with Some kv => Some kv | None => root end)) as ->.
  { destruct (element x) as [[n v]|] eqn:E; [|by destruct x].
    rewrite (run_element x n v E); [done|]. apply Forall_forall. intros y _. apply runs_inside_all. }
  rewrite IH. cbn [omap list_omap]. destruct (element x) as [kv|]; [|done]. rewrite last_cons. by destruct (last _).
Qed.

(** C19: [to_json] gives the shape xq gives: of the events of a document, whatever its nesting, the root
    element as an object from each child name (in order) to the child's value, or to the array of the
    values of children with one name; without a root element, or when the reader stops, it fails. *)
Theorem to_json_xq `{XmlReader} xml doc :
  (read_events xml = oks (concat (map events_of doc)) →
   to_json xml = match last (omap element doc) with
                 | Some (name, value) => Ok (Object [(name, value)])
                 | None => Err "no XML in lsdvd output" end) ∧
  (∀ e more, read_events xml = oks (concat (map events_of doc)) ++ Err e :: more →
   to_json xml = Err ("parsing lsdvd XML: " +:+ e)).
Proof.
  unfold to_json. split.
  - intros E. rewrite E, <- (app_nil_r (oks _)), run_document. cbn. by destruct (last _) as [[]|].
  - intros e more E. by rewrite E, run_document.
Qed.

Module Reference.
(** The document of the test that compares with xq. *)
Definition document : list Node :=
  [Comment; Elem "r" [Elem "t" [Elem "ix" [Chars "1"]]; Elem "t" [Elem "ix" [Chars "2"]; EmptyTag "e"]; Elem "one" [Chars "P"; Ref "amp"; Chars "S"]]].
#[export] Instance reader : XmlReader := λ _, oks (concat (map events_of document)).
End Reference.
Lemma to_json_xq_witness :
  @to_json Reference.reader "<r>" = Ok (Object [("r", Object
    [("one", Str "P&S"); ("t", Array [Object [("ix", Str "1")]; Object [("e", Null); ("ix", Str "2")]])])]).
Proof.
  destruct (@to_json_xq Reference.reader "<r>" Reference.document) as [E _]. rewrite (E eq_refl).
  vm_compute. reflexivity.
Defined.
