(* ===== verification/Work.v ===== *)
(** * The machine a Job runs on ([apps/dvdrip/src/tool.rs], [Work] of [apps/dvdrip/src/inspect.rs])

    A Job and the drive agent work on files and run media tools. The files are those of [Host]: a map
    from paths to contents; empty directories do not show. What a tool does, whether a disk operation
    works and in which order a directory is read is outside the program: the class [Tools], whose
    functions also take the number of the step, so that equal calls may differ. [ToolsLaws] states
    what the development relies on: a tool changes the files its arguments name for output, and
    nothing else. A tool's output that goes to a log is appended to it when the tool ends. *)

From Stdlib Require Import Ascii.
From stdpp Require Import options.
From S2P Require Import Prelude Text F64 Json State Host.

Class Tools : Type := {
  (** The files after the command (stopped after the limit in seconds, if it has one) and what it
      left, if it could be started and waited for. *)
  tool_run : nat → Files → option N → list string → Files * option Output;
  disk : nat → string → Stored;
  dir_order : nat → list string → list string;
  from_json : string → option Value;
}.
#[export] Instance tools_outside `{Tools} : Outside := {|
  command n fs _ args := tool_run n fs None args;
  http _ _ _ := HttpTransport "no network";
  stored := disk;
  parse_json := from_json;
|}.

(** serde's derived serialisers (pretty-printed), generated code. *)
Class Serialize (A : Type) : Type := serialize : A → string.

(** [Path::join], [parent], [file_name] and [with_extension] of the paths the program builds. *)
Definition path_join (dir rel : string) : string := dir +:+ "/" +:+ rel.
Definition slash : ascii := "/".
Definition dot : ascii := ".".
Definition parent (p : string) : option string := fst <$> rsplit_once slash p.
Definition file_name (p : string) : string := from_option snd p (rsplit_once slash p).
(** [file_stem]: a name that begins with its only dot has no extension. *)
Definition stem_of (name : string) : string :=
  match rsplit_once dot name with Some (stem, _) => if bool_decide (stem = "") then name else stem | None => name end.
Definition extension (name : string) : option string :=
  match rsplit_once dot name with Some (stem, ext) => if bool_decide (stem = "") then None else Some ext | None => None end.
Definition with_extension (p ext : string) : string :=
  match rsplit_once slash p with
  | Some (d, name) => d +:+ "/" +:+ stem_of name +:+ "." +:+ ext
  | None => stem_of p +:+ "." +:+ ext
  end.
Definition below (dir p : string) : bool := starts_with (dir +:+ "/") p.

(** A disc's work dir and its decrypted image. *)
Record Work : Type := mkWork { w_dir : string; w_master : string }.
Definition path (work : Work) (rel : string) : string := path_join (w_dir work) rel.
Definition log (work : Work) (name : string) : string := path_join (path_join (w_dir work) "logs") name.

Section operations.
Context `{Tools}.

(** ** Files *)

Definition disk_op (p : string) (f : Stored → Files → Files) : M () := λ w,
  let r := disk (w_step w) p in
  (mkWorld (f r (w_files w)) (S (w_step w)), match r with Whole => Ok () | _ => Err ["I/O error"] end).
Definition create_dir_all (p : string) : M () := disk_op p (λ _ fs, fs).
(** A removal that fails may have removed some of the files. *)
Definition remove_below (p : string) (r : Stored) (fs : Files) : Files :=
  let hit kv := negb (below p kv.1) in
  match r with
  | Whole => list_to_map (List.filter hit (map_to_list fs))
  | Unopened => fs
  | Cut n => list_to_map (List.filter hit (take n (map_to_list fs)) ++ drop n (map_to_list fs))
  end.
Definition remove_dir_all (p : string) : M () := disk_op p (remove_below p).
Definition rename (a b : string) : M () :=
  c ← read_to_string a;
  disk_op b (λ r fs, match r with Whole => <[b := c]> (delete a fs) | _ => fs end).
(** The names in a directory. *)
Definition name_in (dir p : string) : option string :=
  rest ← strip_prefix (dir +:+ "/") p; if contains_char slash rest then None else Some rest.
Definition read_dir (dir : string) : M (list string) := λ w,
  (mkWorld (w_files w) (S (w_step w)),
   match disk (w_step w) dir with
   | Whole => Ok (dir_order (w_step w) (omap (λ kv, name_in dir kv.1) (map_to_list (w_files w))))
   | _ => Err ["I/O error"] end).
(** [metadata().is_ok_and(|m| m.len() > 0)] *)
Definition non_empty (p : string) : M bool :=
  gets (λ w, match w_files w !! p with Some c => negb (bool_decide (c = "")) | None => false end).
(** [std::fs::write], and [write_json]: the new content in a part file, renamed over the old. *)
Definition write_json (p content : string) : M () :=
  let tmp := with_extension p "json.part" in _ ← write tmp content; rename tmp p.

(** ** Tools *)

(** Opening a log to append to creates it. *)
Definition open_log (p : string) : M () :=
  disk_op p (λ r fs, match r with Whole => <[p := default "" (fs !! p)]> fs | _ => fs end).
Definition append (p text : string) : M () :=
  modify (λ w, mkWorld (<[p := default "" (w_files w !! p) +:+ text]> (w_files w)) (w_step w)).
Definition spawn (limit : option N) (args : list string) : M Output :=
  o ← tick (λ n fs, tool_run n fs limit args);
  match o with Some o => mret o | None => throw ["starting " +:+ default "" (head args)] end.
Definition log_dir (p : string) : M () := match parent p with Some d => create_dir_all d | None => mret () end.
(** [args] begins with the program's name. *)
Definition status_logged (args : list string) (logfile : string) (limit : option N) : M bool :=
  _ ← log_dir logfile; _ ← open_log logfile;
  o ← spawn limit args;
  _ ← append logfile (o_stdout o +:+ o_stderr o);
  mret (o_success o).
Definition run_logged (args : list string) (logfile : string) : M () :=
  ok ← status_logged args logfile None;
  if (ok : bool) then mret () else throw [default "" (head args) +:+ " exited (see " +:+ logfile +:+ ")"].
Definition stdout (args : list string) (logfile : option string) (allow_fail : bool) : M string :=
  _ ← match logfile with Some l => _ ← log_dir l; open_log l | None => mret () end;
  o ← spawn None args;
  _ ← match logfile with Some l => append l (o_stderr o) | None => mret () end;
  if negb (o_success o) && negb allow_fail then throw [join " " args +:+ " exited"] else mret (o_stdout o).
(** [unwrap_or_default], [unwrap_or(0.0)] *)
Definition stdout_or_empty (args : list string) : M string := o ← ok (stdout args None true); mret (default "" o).
Definition duration_of (out : option string) : f64 := default f64_zero (out ≫= λ o, parse_f64 (trim o)).
Definition duration (file : string) : M f64 :=
  o ← ok (stdout ["ffprobe"; "-v"; "error"; "-show_entries"; "format=duration"; "-of"; "csv=p=0"; file] None true);
  mret (duration_of o).
End operations.

(** ** What a tool may change *)

Fixpoint word_after (flag : string) (l : list string) : option string :=
  match l with
  | w :: ((v :: _) as l') => if bool_decide (w = flag) then Some v else word_after flag l'
  | _ => None
  end.
(** The files that a command line names for output: a test of a path. *)
Definition writes (args : list string) (p : string) : bool :=
  let is_ o := bool_decide (o = Some p) in
  let under o := match o with Some d => below d p | None => false end in
  match args with
  | "HandBrakeCLI" :: l | "genisoimage" :: l => is_ (word_after "-o" l)
  | "dvdbackup" :: l => under (word_after "-o" l)
  | "makemkvcon" :: l => is_ (last l) || under (last l)
  | "mkvpropedit" :: f :: l => is_ (if bool_decide (f = "-q") then head l else Some f)
  | "ffmpeg" :: l => is_ (last l)
  | "ddrescue" :: l => bool_decide (p ∈ l)
  | _ => false
  end.
Class ToolsLaws `{Tools} : Prop := {
  tool_frame n fs limit args p : writes args p = false → (tool_run n fs limit args).1 !! p = fs !! p;
  dir_order_perm n l : dir_order n l ≡ₚ l;
}.

(** ** Files that stay as they are *)

(** [same P]: the files [P] holds of are unchanged. *)
Definition same (P : string → Prop) : relation Files := λ fs fs', ∀ p, P p → fs' !! p = fs !! p.
#[export] Instance same_preorder P : PreOrder (same P).
Proof. split; [done|]. intros a b c Hab Hbc p Hp. by rewrite Hbc, Hab. Qed.
Lemma same_mono (P Q : string → Prop) fs fs' : (∀ p, P p → Q p) → same Q fs fs' → same P fs fs'.
Proof. intros HPQ HQ p Hp. by apply HQ, HPQ. Qed.

Section frames.
#[local] Set Default Proof Using "Type*".
Context `{ToolsLaws} (P : string → Prop).
Notation R := (same P).

Lemma keep_ret {A} (a : A) : steps R (mret a).
Proof. by intros w p Hp. Qed.
Lemma same_throw {A} e : steps R (throw (A := A) e).
Proof. by intros w p Hp. Qed.
Lemma keep_bind {A B} (m : M A) (f : A → M B) : steps R m → (∀ a, steps R (f a)) → steps R (m ≫= f).
Proof. intros Hm Hf. apply steps_bind; [typeclasses eauto|done..]. Qed.
Lemma same_read p : steps R (read_to_string p).
Proof. by intros w q Hq. Qed.
Lemma same_ok {A} (m : M A) : steps R m → steps R (ok m).
Proof. intros Hm. apply steps_ok; [typeclasses eauto|done]. Qed.
Lemma same_try {A} (m : M A) : steps R m → steps R (try m).
Proof. intros Hm. apply steps_try; [typeclasses eauto|done]. Qed.
Lemma same_gets {A} (f : World → A) : steps R (gets f).
Proof. by intros w p Hp. Qed.
Lemma same_lift {A} (r : Result A Error) : steps R (lift r).
Proof. by intros w p Hp. Qed.
Lemma same_context {A} ctx (m : M A) : steps R m → steps R (with_context ctx m).
Proof. intros Hm. apply steps_context; [typeclasses eauto|done]. Qed.
Lemma same_is_file p : steps R (is_file p).
Proof. apply same_gets. Qed.
Lemma same_for_each {A B} (f : B → A → M B) b l : (∀ b a, a ∈ l → steps R (f b a)) → steps R (for_each f b l).
Proof. intros Hf. apply steps_for_each; [typeclasses eauto|done]. Qed.
Lemma steps_disk_op p f : (∀ r fs, R fs (f r fs)) → steps R (disk_op p f).
Proof. intros Hf w. apply Hf. Qed.
Lemma steps_create_dir p : steps R (create_dir_all p).
Proof. by apply steps_disk_op. Qed.
Lemma remove_below_lookup d r (fs : Files) p : below d p = false → remove_below d r fs !! p = fs !! p.
Proof.
  intros Hp. assert (∀ l1 l2 : list (string * string), NoDup (l1 ++ l2).*1 →
    (list_to_map (List.filter (λ kv, negb (below d kv.1)) l1 ++ l2) : Files) !! p = (list_to_map (l1 ++ l2) : Files) !! p) as Hl.
  { induction l1 as [|[k v] l1 IH]; intros l2 ND; [done|]. apply NoDup_cons in ND as [_ ND].
    cbn [List.filter fst]. rewrite <- app_comm_cons, list_to_map_cons. destruct (below d k) eqn:Ek; cbn [negb].
    - rewrite lookup_insert_ne by congruence. by apply IH.
    - rewrite <- app_comm_cons, list_to_map_cons. destruct (decide (k = p)) as [->|Hne]; [by rewrite !lookup_insert_eq|]. rewrite !lookup_insert_ne by done. by apply IH. }
  destruct r as [| |n]; cbn; [|done|].
  - rewrite <- (app_nil_r (List.filter _ _)), Hl; rewrite app_nil_r; [by rewrite list_to_map_to_list|apply NoDup_fst_map_to_list].
  - rewrite Hl; rewrite take_drop; [by rewrite list_to_map_to_list|apply NoDup_fst_map_to_list].
Qed.
Lemma steps_remove_dir d : (∀ p, P p → below d p = false) → steps R (remove_dir_all d).
Proof. intros Hd. apply steps_disk_op. intros r fs p Hp. by apply remove_below_lookup, Hd. Qed.
Lemma steps_rename a b : ¬ P a → ¬ P b → steps R (rename a b).
Proof.
  intros Ha Hb. apply keep_bind; [apply same_read|]. intros c. apply steps_disk_op.
  intros [] fs p Hp; try done. rewrite lookup_insert_ne, lookup_delete_ne; [done|..]; by intros ->.
Qed.
Lemma steps_read_dir d : steps R (read_dir d).
Proof. intros w. done. Qed.
Lemma steps_non_empty p : steps R (non_empty p).
Proof. intros w. done. Qed.
Lemma steps_write_file p c : ¬ P p → steps R (write p c).
Proof. intros Hp. apply steps_write; [typeclasses eauto|]. intros fs c' q Hq. rewrite lookup_insert_ne; [done|]. by intros ->. Qed.
Lemma steps_write_json p c : ¬ P p → ¬ P (with_extension p "json.part") → steps R (write_json p c).
Proof. intros H1 H2. apply keep_bind; [by apply steps_write_file|]. intros _. by apply steps_rename. Qed.
Lemma steps_remove_file p : ¬ P p → steps R (remove_file p).
Proof.
  intros Hp w q Hq. unfold remove_file. assert (p ≠ q) by (by intros ->).
  destruct (w_files w !! p), (stored (w_step w) p); cbn; by rewrite ?lookup_delete_ne.
Qed.
Lemma steps_spawn limit args : (∀ p, P p → writes args p = false) → steps R (spawn limit args).
Proof.
  intros Ha. apply keep_bind.
  - intros w p Hp. unfold tick. pose proof (tool_frame (w_step w) (w_files w) limit args p (Ha p Hp)) as Hf.
    by destruct (tool_run _ _ _ _).
  - intros []; [by apply keep_ret|by apply same_throw].
Qed.
Lemma steps_open_log l : ¬ P l → steps R (open_log l).
Proof. intros Hl. apply steps_disk_op. intros [] fs p Hp; try done. rewrite lookup_insert_ne; [done|]. by intros ->. Qed.
Lemma steps_append l t : ¬ P l → steps R (append l t).
Proof. intros Hl w p Hp. cbn. rewrite lookup_insert_ne; [done|]. by intros ->. Qed.
Lemma steps_log_dir l : steps R (log_dir l).
Proof. unfold log_dir. destruct (parent l); [apply steps_create_dir|by apply keep_ret]. Qed.
Lemma steps_status args l limit : ¬ P l → (∀ p, P p → writes args p = false) → steps R (status_logged args l limit).
Proof.
  intros Hl Ha. unfold status_logged. apply keep_bind; [apply steps_log_dir|intros _].
  apply keep_bind; [by apply steps_open_log|intros _]. apply keep_bind; [by apply steps_spawn|intros o].
  apply keep_bind; [by apply steps_append|intros _]. by apply keep_ret.
Qed.
Lemma steps_run_logged args l : ¬ P l → (∀ p, P p → writes args p = false) → steps R (run_logged args l).
Proof.
  intros Hl Ha. unfold run_logged. apply keep_bind; [by apply steps_status|].
  intros []; [by apply keep_ret|by apply same_throw].
Qed.
Lemma steps_stdout args l allow : (∀ f, l = Some f → ¬ P f) → (∀ p, P p → writes args p = false) → steps R (stdout args l allow).
Proof.
  intros Hl Ha. unfold stdout. apply keep_bind; [|intros _].
  { destruct l as [f|]; [|by apply keep_ret]. apply keep_bind; [apply steps_log_dir|intros _; by apply steps_open_log, Hl]. }
  apply keep_bind; [by apply steps_spawn|intros o]. apply keep_bind; [|intros _].
  { destruct l as [f|]; [by apply steps_append, Hl|by apply keep_ret]. }
  destruct (_ && _); [by apply same_throw|by apply keep_ret].
Qed.
Lemma steps_duration f : steps R (duration f).
Proof.
  unfold duration. apply keep_bind; [|intros ?; by apply keep_ret].
  apply same_ok. by apply steps_stdout.
Qed.
End frames.
#[export] Hint Resolve steps_create_dir steps_read_dir steps_non_empty steps_duration : steps.

(** Goes through a program's binds and branches; the operations that change files remain. *)
Ltac same_through :=
  repeat match goal with
  | |- ∀ _, _ => intros ?
  | |- steps _ (_ ≫= _) => apply keep_bind
  | |- steps _ (mret _) => apply keep_ret
  | |- steps _ (throw _) => apply same_throw
  | |- steps _ (ok _) => apply same_ok
  | |- steps _ (try _) => apply same_try
  | |- steps _ (gets _) => apply same_gets
  | |- steps _ (lift _) => apply same_lift
  | |- steps _ (with_context _ _) => apply same_context
  | |- steps _ (is_file _) => apply same_is_file
  | |- steps _ (read_to_string _) => apply same_read
  | |- steps _ (duration _) => apply steps_duration
  | |- steps _ (create_dir_all _) => apply steps_create_dir
  | |- steps _ (read_dir _) => apply steps_read_dir
  | |- steps _ (non_empty _) => apply steps_non_empty
  | |- steps _ (drop_ _) => unfold drop_
  | |- steps _ (stdout_or_empty _) => unfold stdout_or_empty
  | |- steps _ (match ?x with _ => _ end) => destruct x
  | |- steps _ (if ?x then _ else _) => destruct x
  | |- steps _ (let '(_, _) := ?x in _) => destruct x
  end.
(** A file keeps its content where its path is left alone. *)
Lemma steps_keep {A} (m : M A) p v w :
  steps (same (λ q, q = p)) m → w_files w !! p = v → wp m (λ w', w_files w' !! p = v) (λ _ w', w_files w' !! p = v) w.
Proof. intros Hm Hv. specialize (Hm w). unfold wp. destruct (m w) as [w' []]; rewrite <- Hv; by apply Hm. Qed.

(** A step that leaves [p] alone, and what follows. *)
Lemma file_then {A B} (m : M A) (f : A → M B) p v (E : World → Prop) Q w :
  steps (same (λ q, q = p)) m → w_files w !! p = v → (∀ w', w_files w' !! p = v → E w') →
  (∀ a w', w_files w' !! p = v → wp (f a) E Q w') → wp (m ≫= f) E Q w.
Proof. intros Hm Hv HE Hf. apply wp_bind. eapply wp_mono; [by apply steps_keep|exact HE|exact Hf]. Qed.

(** ** A machine with these laws

    ffprobe reports a hundred seconds of any file with content; HandBrake writes its output file, or
    prints an empty scan; the other tools succeed and change nothing; the disk works. *)

Module Reference.
Definition ok_output (out : string) : option Output := Some (mkOutput true out "").
Definition run (fs : Files) (args : list string) : Files * option Output :=
  match args with
  | "ffprobe" :: l => (fs, ok_output match last l ≫= (λ f, fs !! f) with Some (String _ _) => "100" | _ => "" end)
  | "HandBrakeCLI" :: l => match word_after "-o" l with
      | Some o => (<[o := "video"]> fs, ok_output "")
      | None => (fs, ok_output "JSON Title Set: {}")
      end
  | _ => (fs, ok_output "")
  end.
#[export] Instance tools : Tools := {|
  tool_run _ fs _ args := run fs args;
  disk _ _ := Whole;
  dir_order _ l := l;
  from_json _ := Some (Object []);
|}.
#[export] Instance tools_laws : ToolsLaws.
Proof.
  split; [|done]. intros n fs limit args p Hp. cbn in *. destruct args as [|prog l]; [done|]. cbn in *.
  repeat (case_match; try done). cbn. simplify_eq. rewrite lookup_insert_ne; [done|]. intros ->.
  by rewrite bool_decide_eq_true_2 in Hp.
Qed.
End Reference.
