(* ===== verification/Inspect.v ===== *)
(** * Inspecting a disc ([apps/dvdrip/src/inspect.rs])

    The first step of an encode: [inspect] reads the disc with lsdvd and HandBrake and classifies its
    titles; a copy-protected disc goes through MakeMKV's analysis instead ([protected]). Both write
    what they found into the work dir. *)

From Stdlib Require Import Ascii.
From stdpp Require Import options.
From S2P Require Import Prelude Text F64 Json State Host Classify Makemkv Lsdvd Work.

Record Inspected : Type := mkInspected { i_titles : list Title; i_protected : bool; i_scan : Value }.

Definition count (v : Value) : nat :=
  match v with Null => 0 | Array a => length a | _ => 1 end.

(** The first JSON value of a text: [Deserializer::into_iter().next()]. *)
Class JsonStream : Type := first_value : string → option Value.
Definition scan_json `{JsonStream} (stdout : string) : option Value :=
  '(_, after) ← find_list (chars "JSON Title Set: ") (chars stdout); first_value (str after).

(** ** Copy-protected discs: MakeMKV's titles *)

Definition longest (mkv : list MkvTitle) : f64 := fold_left f64_max (m_seconds <$> mkv) f64_zero.
Definition main_id (mkv : list MkvTitle) : option N :=
  m_id <$> List.find (λ t, f64_eqb (m_seconds t) (longest mkv)) mkv.
Definition protected_role (th : Thresholds) (max : f64) (main : option N) (t : MkvTitle) : Role :=
  if bool_decide (Some (m_id t) = main) then Main
  else if f64_ltb (f64_abs (m_seconds t - max)%f64) (max * f64_of_decimal false 2 (-2))%f64 then Alt
  else if f64_ltb (m_seconds t) (extra th) then Short
  else Extra.
Definition protected_title (th : Thresholds) (max : f64) (main : option N) (t : MkvTitle) : Title :=
  {| title := u32_add (m_id t) 1; seconds := m_seconds t; vts := 0; ttn := 0; aspect := Str ""; fps := f64_zero;
     angles := 0; Classify.chapters := []; cells := []; audio := []; subs := [];
     role := protected_role th max main t; part_of := None; playall_of := None; mkv := Some (m_id t); file := Some (m_file t) |}.
Definition protected_titles (mkv : list MkvTitle) (th : Thresholds) : list Title :=
  protected_title th (longest mkv) (main_id mkv) <$> mkv.

Section inspect.
Context `{Tools, XmlReader, JsonStream, !Serialize (list Title), !Serialize Value}.

Definition protected (work : Work) (th : Thresholds) : M Inspected :=
  let logfile := log work "makemkv-info.log" in
  text ← stdout ["makemkvcon"; "-r"; "--minlength=" +:+ pretty (as_u32 (extra th)); "info"; "iso:" +:+ w_master work] (Some logfile) true;
  _ ← write logfile text;
  let mkv := Makemkv.titles text in
  if bool_decide (mkv = []) then throw ["MakeMKV found no titles; see logs/makemkv-info.log"]
  else
    let titles := protected_titles mkv th in
    _ ← write_json (path work "titles.json") (serialize titles);
    mret (mkInspected titles true Null).

Definition inspect (work : Work) (main_override : option N) (force_protected : bool) (th : Thresholds) : M Inspected :=
  if force_protected then protected work th
  else
    raw ← stdout ["lsdvd"; "-x"; "-Ox"; w_master work] (Some (log work "lsdvd.err")) true;
    match to_json (sanitize (chars raw)) with
    | Ok disc =>
        let n := count disc.["lsdvd"].["track"] in
        if (n <? 90)%nat && (0 <? n)%nat then
          out ← stdout ["HandBrakeCLI"; "-i"; w_master work; "--title"; "0"; "--min-duration"; "0"; "--scan"; "--json"]
                  (Some (log work "scan.log")) true;
          match scan_json out with
          | None => throw ["no JSON in the HandBrake scan (see logs/scan.log)"]
          | Some scan =>
              let main := default 0%N (match main_override with Some m => Some m | None => main_feature scan disc end) in
              let titles := classify disc main th in
              _ ← write_json (path work "disc.json") (serialize disc);
              _ ← write_json (path work "scan.json") (serialize scan);
              _ ← write_json (path work "titles.json") (serialize titles);
              mret (mkInspected titles false scan)
          end
        else _ ← ok (write (path work "disc.lsdvd-failed.xml") raw); protected work th
    | Err _ => _ ← ok (write (path work "disc.lsdvd-failed.xml") raw); protected work th
    end.
End inspect.

(** ** Examples, from the tests *)

Definition mk (id : N) (seconds : Z) : MkvTitle := mkMkvTitle id (f64_of_Z seconds) ("t0" +:+ pretty id +:+ ".mkv").
Example protected_roles :
  let t := protected_titles [mk 0 600; mk 1 6000; mk 2 5950; mk 3 20] default_thresholds in
  role <$> t = [Extra; Main; Alt; Short] ∧ (title <$> t !! 1) = Some 2%N ∧ (file <$> t !! 1) = Some (Some "t01.mkv").
Proof. vm_compute. done. Qed.

(** ** The roles of a protected disc *)

Lemma f64_max_ge x y : f64_is_nan x = false →
  f64_is_nan (f64_max x y) = false ∧ f64_leb x (f64_max x y) = true ∧
  (f64_is_nan y = false → f64_leb y (f64_max x y) = true) ∧ (f64_max x y = x ∨ f64_max x y = y).
Proof.
  intros Hx. assert (f64_max x y = if f64_ltb x y then y else x) as E by (by destruct x, y).
  rewrite E. destruct (f64_ltb x y) eqn:L.
  - apply f64_ltb_leb in L as L'. pose proof (f64_leb_not_nan _ _ L') as [_ Hy].
    split_and!; [done|done|intros _; by apply f64_leb_refl|by right].
  - split_and!; [done|by apply f64_leb_refl|intros Hy; by apply f64_not_ltb_leb|by left].
Qed.
Lemma fold_max_ge l x : f64_is_nan x = false →
  let m := fold_left f64_max l x in
  f64_is_nan m = false ∧ f64_leb x m = true ∧ (∀ y, y ∈ l → f64_is_nan y = false → f64_leb y m = true) ∧ (m = x ∨ m ∈ l).
Proof.
  revert x. induction l as [|y l IH]; intros x Hx; cbn.
  { split_and!; [done|by apply f64_leb_refl|intros y []%elem_of_nil|by left]. }
  destruct (f64_max_ge x y Hx) as (Hn & Hxm & Hym & Hor). destruct (IH _ Hn) as (I1 & I2 & I3 & I4).
  split_and!; [done|by eapply f64_leb_trans| |].
  - intros z [->|Hz]%elem_of_cons Hz'; [|by apply I3]. eapply f64_leb_trans; [by apply Hym|done].
  - destruct I4 as [->|Hin]; [|by right; right]. destruct Hor as [->| ->]; [by left|right; left].
Qed.
Lemma f64_eqb_refl x : f64_is_nan x = false → f64_eqb x x = true.
Proof.
  unfold f64_eqb, SFeqb, SFcompare. destruct x as [[]|[]| |[] m e]; try done;
    by rewrite Z.compare_refl, pos_compare_cont_eq, Pos.compare_refl.
Qed.

Lemma NoDup_find_id (mkv : list MkvTitle) t u : NoDup (m_id <$> mkv) → t ∈ mkv → u ∈ mkv → m_id t = m_id u → t = u.
Proof.
  intros ND (i & Hi)%list_elem_of_lookup (j & Hj)%list_elem_of_lookup E.
  assert (i = j) as ->; [|congruence]. eapply NoDup_lookup; [exact ND|by rewrite list_lookup_fmap, Hi|].
  rewrite list_lookup_fmap, Hj. cbn. by rewrite E.
Qed.
(** Exactly one title, the longest, is the main feature of a protected disc. *)
Lemma protected_one_main mkv th : mkv ≠ [] → NoDup (m_id <$> mkv) →
  (∀ t, t ∈ mkv → f64_leb f64_zero (m_seconds t) = true) →
  ∃ m, m ∈ protected_titles mkv th ∧ role m = Main ∧
    (∀ t, t ∈ protected_titles mkv th → role t = Main → t = m) ∧
    (∀ t, t ∈ protected_titles mkv th → f64_leb (seconds t) (seconds m) = true).
Proof.
  intros Hne ND Hpos. destruct (fold_max_ge (m_seconds <$> mkv) f64_zero eq_refl) as (Hn & Hz & Hge & Hor).
  fold (longest mkv) in *.
  assert (∃ t, t ∈ mkv ∧ f64_eqb (m_seconds t) (longest mkv) = true) as (t0 & Ht0 & E0).
  { destruct Hor as [Ez|Hin].
    - destruct mkv as [|t mkv]; [done|]. exists t. split; [left|].
      assert (f64_leb (m_seconds t) f64_zero = true) as Hle.
      { rewrite <- Ez. apply Hge; [left|]. pose proof (f64_leb_not_nan _ _ (Hpos t ltac:(left))) as []. done. }
      rewrite Ez. pose proof (Hpos t ltac:(left)) as Hle'.
      destruct (m_seconds t) as [[]|[]| |[] m e]; done.
    - apply list_elem_of_fmap in Hin as (t & Et & Ht). exists t. split; [done|]. rewrite <- Et. by apply f64_eqb_refl. }
  destruct (find_is_Some (λ t, f64_eqb (m_seconds t) (longest mkv)) mkv t0 Ht0 E0) as [m Hm].
  apply find_some_elem in Hm as Hm'. destruct Hm' as [Hin Em].
  assert (main_id mkv = Some (m_id m)) as Hid by (unfold main_id; by rewrite Hm).
  assert (∀ t, t ∈ mkv → protected_role th (longest mkv) (main_id mkv) t = Main ↔ t = m) as Hrole.
  { intros t Ht. rewrite Hid. unfold protected_role. case_bool_decide as E.
    - injection E as E. split; [intros _; by eapply NoDup_find_id|done].
    - split; [by repeat case_match|by intros ->]. }
  exists (protected_title th (longest mkv) (main_id mkv) m). unfold protected_titles. split_and!.
  - by apply list_elem_of_fmap_2.
  - by apply Hrole.
  - intros t (u & -> & Hu)%list_elem_of_fmap Hr. apply Hrole in Hr; [by subst|done].
  - intros t (u & -> & Hu)%list_elem_of_fmap. cbn.
    assert (f64_leb (m_seconds u) (longest mkv) = true) as Hle.
    { apply Hge; [by apply list_elem_of_fmap_2|]. by pose proof (f64_leb_not_nan _ _ (Hpos u Hu)) as []. }
    eapply f64_leb_trans; [exact Hle|]. unfold f64_eqb, SFeqb in Em.
    assert (f64_is_nan (m_seconds m) = false) as Hnm by (by pose proof (f64_leb_not_nan _ _ (Hpos m Hin)) as []).
    apply f64_not_ltb_leb; [done|done|]. unfold f64_ltb, SFltb. by destruct (SFcompare (m_seconds m) (longest mkv)) as [[]|].
Qed.
