(* ===== verification/Encode.v ===== *)
(** * Encoding a disc ([apps/dvdrip/src/encode.rs])

    [encode] encodes every kept title of a master into the work dir: from the DVD ([from_dvd]), from
    MakeMKV's remux of a protected disc ([from_mkv]), or, when HandBrake cannot read a title, from
    MakeMKV's copy of it ([repair]). Existing encodes are kept, so a rerun resumes. The titles are
    encoded by parallel tasks; the model runs them whole, in the order [schedule] gives: no two of
    them touch the same files, and the one thing they share, MakeMKV's listing, is set once. *)

From Stdlib Require Import Ascii.
From stdpp Require Import options.
From S2P Require Import Prelude Text F64 Json State Host Tracks Classify Crd Layout Makemkv Lsdvd Work Inspect.

Record Settings : Type := mkSettings {
  encoder : string; s_preset : string; quality : string; parallel : N; extra_min : N
}.
Definition default_settings : Settings := mkSettings "nvenc_h264" "slowest" "19" 4 30.
Definition preset (s : Settings) : string :=
  if starts_with "nvenc" (encoder s) then s_preset s
  else if bool_decide (s_preset s = "slowest") then "slow" else s_preset s.

Inductive Outcome : Type :=
  | Encoded (seconds : f64)
  | Duplicate
  | Failed (why : string).
#[export] Instance Outcome_eq_dec : EqDecision Outcome.
Proof. solve_decision. Defined.

Definition feature (r : Role) : bool := match r with Main | Alt => true | _ => false end.
(** Nine tenths of a title's runtime. *)
Definition most_of (seconds : f64) : f64 := (f64_floor seconds * f64_of_decimal false 9 (-1))%f64.

Definition hb_common (s : Settings) : list string :=
  ["--format"; "av_mkv"; "--markers"; "--encoder"; encoder s; "--encoder-preset"; preset s; "--quality"; quality s;
   "--auto-anamorphic"; "--comb-detect"; "--decomb"; "--all-audio"; "--aencoder"; "copy"; "--audio-fallback"; "ac3";
   "--subtitle-burned=none"; "--subtitle-default=none"].
Definition part_path (out : string) : string := with_extension out "part.mkv".
Definition out_path (work : Work) (n : N) : string := path work (encode_path n).
Definition encode_log (work : Work) (n : N) : string := log work ("encode-t" +:+ pretty n +:+ ".log").
Definition repair_dir (work : Work) (n : N) : string := path work ("repair/t" +:+ pretty n).

(** The titles to encode, the main feature first. *)
Definition plan_leb (a b : Title) : bool :=
  match bool_decide (role a = Main), bool_decide (role b = Main) with
  | true, false => true
  | false, true => false
  | _, _ => (title a <=? title b)%N
  end.
Definition plan_of (titles : list Title) : list Title :=
  stable_sort plan_leb (List.filter (λ t, encoded (role t)) titles).

(** Main features and alternates without a remux whose runtime no encoded title has. *)
Definition encoded_seconds (results : list (N * Outcome)) : list f64 :=
  omap (λ r, match r.2 with Encoded s => Some s | _ => None end) results.
Definition lost_feature (titles : list Title) (secs : list f64) (n : N) : option N :=
  t ← List.find (λ t, (title t =? n)%N) titles;
  if feature (role t) && negb (existsb (λ s, f64_leb (most_of (seconds t)) s) secs) then Some (title t) else None.
Definition lost_features (titles : list Title) (results : list (N * Outcome)) : list N :=
  let secs := encoded_seconds results in
  omap (lost_feature titles secs) (List.filter (λ r, bool_decide (r.2 = Duplicate)) results).*1.

Definition LOST : string :=
  "MakeMKV wrote no file for it (see logs/remux.log; on a damaged disc this is a title it could not save)".
Definition role_debug (r : Role) : string :=
  match r with Main => "Main" | Alt => "Alt" | Dup => "Dup" | Playall => "Playall" | Part => "Part" | Stub => "Stub" | Short => "Short" | Extra => "Extra" end.
Definition fatal_of (r : Title * Outcome) : option string :=
  match r.2 with
  | Failed why => if feature (role r.1)
      then Some ("title " +:+ pretty (title r.1) +:+ " (" +:+ role_debug (role r.1) +:+ "): " +:+ why) else None
  | _ => None
  end.
(** [results.iter_mut().find(..)] *)
Fixpoint mark_lost (n : N) (results : list (N * Outcome)) : list (N * Outcome) :=
  match results with
  | [] => []
  | (m, o) :: rest => if (m =? n)%N then (m, Failed LOST) :: rest else (m, o) :: mark_lost n rest
  end.

(** The order in which the parallel tasks end. *)
Class Scheduler : Type := schedule : nat → list Title → list Title.
Class SchedulerLaws `{Scheduler} : Prop := schedule_perm n l : schedule n l ≡ₚ l.

Section encode.
Context `{Tools, SerdeJson, Scheduler}.

(** Encode an already-demuxed MakeMKV file. *)
Definition from_mkv (src out logfile : string) (s : Settings) : M f64 :=
  let tmp := part_path out in
  r ← try (run_logged (["HandBrakeCLI"; "-i"; src; "-o"; tmp] ++ hb_common s ++ ["--all-subtitles"]) logfile);
  match r with
  | Err e => _ ← ok (remove_file tmp); throw e
  | Ok _ =>
      seconds ← duration tmp;
      if f64_ltb seconds (f64_of_Z 1) then _ ← ok (remove_file tmp); throw ["unreadable output"]
      else _ ← rename tmp out; mret seconds
  end.

Definition scan_title (scan : Value) (n : N) : Value :=
  default Null (List.find (λ x, bool_decide (value_as_u64 x.["Index"] = Some n)) (array_or_empty scan.["TitleList"])).
Definition selected (subs : list Value) : string :=
  let sel := join "," (pretty <$> omap (λ x, value_as_i64 x.["TrackNumber"]) subs) in
  if bool_decide (sel = "") then "none" else sel.
Definition from_dvd (work : Work) (t : Title) (scan : Value) (out logfile : string) (s : Settings) : M f64 :=
  let hb := scan_title scan (title t) in
  let subs := select_subs hb in
  let tmp := part_path out in
  r ← try (run_logged (["HandBrakeCLI"; "-i"; w_master work; "--title"; pretty (title t); "--min-duration"; "0"; "-o"; tmp]
                       ++ hb_common s ++ ["--subtitle"; selected subs]) logfile);
  match r with
  | Err e => _ ← ok (remove_file tmp); throw e
  | Ok _ =>
      seconds ← duration tmp;
      if f64_ltb seconds (f64_of_Z 1) then _ ← ok (remove_file tmp); throw ["unreadable output (HandBrake exited 0)"]
      else if feature (role t) && f64_ltb seconds (most_of (Classify.seconds t)) then
        _ ← ok (remove_file tmp);
        throw ["encoded " +:+ fmt0 seconds +:+ "s of " +:+ fmt0 (Classify.seconds t) +:+ "s (navigation stopped early)"]
      else
        j ← stdout ["mkvmerge"; "-J"; tmp] None false;
        match from_json j with
        | None => throw ["bad JSON"]
        | Some mkvmerge =>
            _ ← ok (run_logged ("mkvpropedit" :: tmp :: propedit_args mkvmerge hb subs ("Title " +:+ pretty (title t))) logfile);
            _ ← rename tmp out; mret seconds
        end
  end.

(** MakeMKV's listing of the disc, made once. *)
Definition get_listing (work : Work) (cell : option (list MkvTitle)) : M (list MkvTitle) :=
  match cell with
  | Some all => mret all
  | None =>
      text ← stdout ["makemkvcon"; "-r"; "--minlength=1"; "info"; "iso:" +:+ w_master work] None true;
      _ ← write (log work "makemkv-all.log") text;
      mret (Makemkv.titles text)
  end.
Definition extracted (fs : Files) (dir name : string) : bool :=
  bool_decide (extension name = Some "mkv") && match fs !! path_join dir name with Some c => negb (bool_decide (c = "")) | None => false end.
Definition extract (work : Work) (t : Title) (out : string) (s : Settings) (all : list MkvTitle) : M f64 :=
  match closest all (seconds t) with
  | None => throw ["MakeMKV has no ~" +:+ fmt0 (seconds t) +:+ "s title"]
  | Some m =>
      let dir := repair_dir work (title t) in
      _ ← ok (remove_dir_all dir);
      _ ← create_dir_all dir;
      _ ← status_logged ["makemkvcon"; "-r"; "--minlength=1"; "mkv"; "iso:" +:+ w_master work; pretty (m_id m); dir]
            (log work ("repair-t" +:+ pretty (title t) +:+ ".log")) None;
      names ← read_dir dir;
      fs ← gets w_files;
      match List.find (extracted fs dir) names with
      | None => throw ["MakeMKV couldn't extract the title either"]
      | Some name =>
          seconds ← from_mkv (path_join dir name) out (encode_log work (title t)) s;
          _ ← ok (remove_dir_all dir);
          mret seconds
      end
  end.
Definition repair (work : Work) (t : Title) (out : string) (s : Settings) (cell : option (list MkvTitle))
    : M (option (list MkvTitle) * Result f64 Error) :=
  r ← try (get_listing work cell);
  match r with
  | Err e => mret (None, Err e)
  | Ok all => r ← try (extract work t out s all); mret (Some all, r)
  end.

Definition one (work : Work) (t : Title) (scan : Value) (protected : bool) (s : Settings) (cell : option (list MkvTitle))
    : M (option (list MkvTitle) * Outcome) :=
  let out := out_path work (title t) in
  let logfile := encode_log work (title t) in
  if protected then
    match file t with
    | None => mret (cell, Failed "no MakeMKV file for title")
    | Some f =>
        let src := path_join (path work "remux") f in
        e ← is_file src;
        if (e : bool) then
          r ← try (from_mkv src out logfile s);
          mret (cell, match r with Ok seconds => Encoded seconds | Err e => Failed (message e) end)
        else mret (cell, Duplicate)
    end
  else
    r ← try (from_dvd work t scan out logfile s);
    match r with
    | Ok seconds => mret (cell, Encoded seconds)
    | Err e =>
        '(cell, r) ← repair work t out s cell;
        mret (cell, match r with Ok seconds => Encoded seconds
                    | Err e' => Failed (message e +:+ "; repair: " +:+ message e') end)
    end.

(** MakeMKV remuxes every real title of a protected disc once. *)
Definition remux_all (work : Work) (s : Settings) : M () :=
  let dir := path work "remux" in
  _ ← create_dir_all dir;
  names ← read_dir dir;
  if bool_decide (names = []) then
    drop_ (status_logged ["makemkvcon"; "-r"; "--minlength=" +:+ pretty (extra_min s); "mkv"; "iso:" +:+ w_master work; "all"; dir]
             (log work "remux.log") None)
  else mret ().

(** What is unreadable is set aside. *)
Definition sweep_one (work : Work) (_ : ()) (name : string) : M () :=
  let p := path_join (path work "encodes") name in
  if ends_with ".part.mkv" name then drop_ (ok (remove_file p))
  else if ends_with ".mkv" name then
    seconds ← duration p;
    if f64_ltb seconds (f64_of_Z 1) then
      _ ← create_dir_all (path work ".broken-stubs");
      rename p (path_join (path work ".broken-stubs") name)
    else mret ()
  else mret ().
Definition sweep (work : Work) : M () :=
  names ← read_dir (path work "encodes"); for_each (sweep_one work) () names.

(** A planned title: already encoded, or to be done. *)
Definition look (work : Work) (acc : list (Title * Outcome) * list Title) (t : Title) : M (list (Title * Outcome) * list Title) :=
  let out := out_path work (title t) in
  e ← is_file out;
  if (e : bool) then seconds ← duration out; mret (acc.1 ++ [(t, Encoded seconds)], acc.2)
  else mret (acc.1, acc.2 ++ [t]).
Definition job (work : Work) (scan : Value) (protected : bool) (s : Settings)
    (acc : option (list MkvTitle) * list (Title * Outcome)) (t : Title) : M (option (list MkvTitle) * list (Title * Outcome)) :=
  '(cell, o) ← one work t scan protected s acc.1; mret (cell, acc.2 ++ [(t, o)]).

Definition encode (work : Work) (titles : list Title) (scan : Value) (protected : bool) (s : Settings) : M (list (N * Outcome)) :=
  _ ← create_dir_all (path work "encodes");
  _ ← (if protected then remux_all work s else mret ());
  '(ready, pending) ← for_each (look work) ([], []) (plan_of titles);
  n ← gets w_step;
  '(_, done) ← for_each (job work scan protected s) (None, []) (schedule n pending);
  let all := ready ++ done in
  let results := sort_by_key fst ((λ r, (title r.1, r.2)) <$> all) in
  let lost := lost_features titles results in
  let fatal := omap fatal_of all ++ ((λ n, "title " +:+ pretty n +:+ ": " +:+ LOST) <$> lost) in
  let results := fold_left (λ rs n, mark_lost n rs) lost results in
  _ ← sweep work;
  _ ← ok (remove_dir_all (path work "repair"));
  _ ← (if bool_decide (lost = []) then mret () else drop_ (ok (remove_dir_all (path work "remux"))));
  if bool_decide (fatal = []) then _ ← ok (remove_dir_all (path work "remux")); mret results
  else throw [join "; " fatal].
End encode.

(** ** Examples, from the tests *)

Example presets_per_encoder :
  preset default_settings = "slowest" ∧ preset (mkSettings "x264" "slowest" "19" 4 30) = "slow".
Proof. done. Qed.
Definition test_title (n : N) (r : Role) (secs : Z) : Title :=
  mkTitle n (f64_of_Z secs) 0 0 (Str "") f64_zero 0 [] [] [] [] r None None None None.
Example a_missing_main_feature_is_lost_not_a_duplicate :
  let titles := [test_title 3 Main 7134; test_title 4 Extra 33; test_title 5 Alt 7134] in
  lost_features titles [(3%N, Duplicate); (4%N, Encoded (f64_of_Z 33))] = [3%N] ∧
  lost_features titles [(3%N, Encoded (f64_of_Z 7134)); (5%N, Duplicate)] = [] ∧
  lost_features titles [(4%N, Duplicate)] = [].
Proof. vm_compute. done. Qed.

(** ** What a successful encode reports *)

Lemma wp_true {S F A} (m : SE S F A) s : wp m (λ _, True) (λ _ _, True) s.
Proof. unfold wp. by destruct (m s) as [? []]. Qed.
Lemma wp_skip {S F A B} (m : SE S F A) (f : A → SE S F B) (E : S → Prop) (Q : B → S → Prop) s :
  (∀ s, E s) → (∀ a s', wp (f a) E Q s') → wp (m ≫= f) E Q s.
Proof. intros HE Hf. apply wp_bind. unfold wp at 1. destruct (m s) as [s' [a|e]]; [apply Hf|apply HE]. Qed.

Lemma plan_elem titles t : t ∈ plan_of titles ↔ t ∈ titles ∧ encoded (role t) = true.
Proof. unfold plan_of. by rewrite stable_sort_elem, list_elem_of_In, filter_In, <- list_elem_of_In. Qed.
Lemma plan_perm titles : plan_of titles ≡ₚ List.filter (λ t, encoded (role t)) titles.
Proof. apply stable_sort_perm. Qed.
Lemma List_filter_sublist {A} (p : A → bool) (l : list A) : List.filter p l `sublist_of` l.
Proof. induction l as [|a l IH]; cbn; [done|]. destruct (p a); by constructor. Qed.
Lemma plan_nodup titles : NoDup (title <$> titles) → NoDup (title <$> plan_of titles).
Proof.
  intros ND. rewrite plan_perm. eapply sublist_NoDup; [exact ND|]. apply fmap_sublist, List_filter_sublist.
Qed.

Section results.
#[local] Set Default Proof Using "Type*".
Context `{Tools, SerdeJson, SchedulerLaws}.

Lemma look_spec work ts w :
  wp (for_each (look work) ([], []) ts) (λ _, True) (λ r _, r.1.*1 ++ r.2 ≡ₚ ts) w.
Proof.
  apply (wp_for_each (look work) (λ seen r _, r.1.*1 ++ r.2 ≡ₚ seen)); [|done].
  intros seen t [rdy pnd] s Hr _. cbn [fst snd] in *. unfold look. cbn [fst snd].
  apply wp_skip; [done|]. intros [] s1.
  - apply wp_skip; [done|]. intros d s2. apply wp_ret. cbn [fst snd]. rewrite fmap_app, <- Hr. cbn.
    rewrite <- !app_assoc. by rewrite (Permutation_app_comm [t]).
  - apply wp_ret. cbn [fst snd]. by rewrite app_assoc, Hr.
Qed.
(** Every task gives an outcome of its title. *)
Lemma job_spec work scan protected s ts w :
  wp (for_each (job work scan protected s) (None, []) ts) (λ _, True) (λ r _, r.2.*1 = ts) w.
Proof.
  apply (wp_for_each (job work scan protected s) (λ seen r _, r.2.*1 = seen)); [|done].
  intros seen t [cell done_] s1 Hr _. cbn [fst snd] in *. unfold job. cbn [fst snd].
  apply wp_skip; [done|]. intros [cell' o] s2. apply wp_ret. cbn. by rewrite fmap_app, Hr.
Qed.

(** What the results say of the features among the titles. *)
Definition carried (results : list (N * Outcome)) (t : Title) : Prop :=
  (∃ s, (title t, Encoded s) ∈ results) ∨
  ((title t, Duplicate) ∈ results ∧ ∃ n s, (n, Encoded s) ∈ results ∧ f64_leb (most_of (seconds t)) s = true).
Definition reported (titles : list Title) (results : list (N * Outcome)) : Prop :=
  results.*1 ≡ₚ title <$> plan_of titles ∧ StronglySorted (λ a b, (a.1 ≤ b.1)%N) results ∧
  ∀ t, t ∈ titles → feature (role t) = true → carried results t.

Lemma encoded_seconds_elem results s : s ∈ encoded_seconds results ↔ ∃ n, (n, Encoded s) ∈ results.
Proof.
  unfold encoded_seconds. rewrite list_elem_of_omap. split.
  - intros ([n []] & Hin & E); try done. injection E as ->. eauto.
  - intros (n & Hin). by exists (n, Encoded s).
Qed.
Lemma feature_encoded r : feature r = true → encoded r = true.
Proof. by destruct r. Qed.

Lemma results_reported titles all : NoDup (title <$> titles) → all.*1 ≡ₚ plan_of titles →
  let results := sort_by_key fst ((λ r : Title * Outcome, (title r.1, r.2)) <$> all) in
  omap fatal_of all = [] → lost_features titles results = [] → reported titles results.
Proof.
  intros ND Hall results Hfatal Hlost.
  assert (∀ n o, (n, o) ∈ results ↔ ∃ t, (t, o) ∈ all ∧ title t = n) as Hres.
  { intros n o. unfold results, sort_by_key. rewrite stable_sort_elem, list_elem_of_fmap. split.
    - intros ([t o'] & [= -> ->] & Hin). eauto.
    - intros (t & Hin & <-). by exists (t, o). }
  split_and!.
  - unfold results, sort_by_key. rewrite stable_sort_perm, <- Hall, <- !list_fmap_compose. done.
  - pose proof (sort_by_key_sorted fst ((λ r : Title * Outcome, (title r.1, r.2)) <$> all)) as HS. exact HS.
  - intros t Ht Hf. assert (t ∈ all.*1) as Hin by (rewrite Hall; apply plan_elem; split; [done|by apply feature_encoded]).
    apply list_elem_of_fmap in Hin as ([t' o] & -> & Hin). cbn [fst] in *. destruct o as [s| |why].
    + left. exists s. apply Hres. eauto.
    + right. assert ((title t', Duplicate) ∈ results) as Hd by (apply Hres; eauto). split; [done|].
      destruct (existsb (λ s, f64_leb (most_of (seconds t')) s) (encoded_seconds results)) eqn:E.
      * apply existsb_elem in E as (s & (n & Hs)%encoded_seconds_elem & Hle). eauto.
      * exfalso. assert (title t' ∈ lost_features titles results) as Hl; [|rewrite Hlost in Hl; by apply elem_of_nil in Hl].
        unfold lost_features. apply list_elem_of_omap. exists (title t'). split.
        { apply list_elem_of_fmap. exists (title t', Duplicate). split; [done|].
          rewrite list_elem_of_In, filter_In, <- list_elem_of_In. split; [done|]. by apply bool_decide_eq_true_2. }
        unfold lost_feature. destruct (find_is_Some (λ u, (title u =? title t')%N) titles t' Ht (N.eqb_refl _)) as [u Hu].
        rewrite Hu. cbn. apply find_some_elem in Hu as [Hut Eu%N.eqb_eq].
        assert (u = t') as -> by (by eapply title_unique). by rewrite Hf, E.
    + exfalso. assert (fatal_of (t', Failed why) ∈ fatal_of <$> all) as Hm by (by apply list_elem_of_fmap_2).
      assert (∃ m, fatal_of (t', Failed why) = Some m) as [m Em] by (unfold fatal_of; cbn; rewrite Hf; eauto).
      assert (m ∈ omap fatal_of all) as Hm2 by (apply list_elem_of_omap; eauto). rewrite Hfatal in Hm2. by apply elem_of_nil in Hm2.
Qed.

Lemma encode_wp work titles scan protected s w : NoDup (title <$> titles) →
  wp (encode work titles scan protected s) (λ _, True) (λ r _, reported titles r) w.
Proof.
  intros ND. unfold encode.
  apply wp_skip; [done|]. intros _ w1. apply wp_skip; [done|]. intros _ w2. apply wp_bind.
  eapply wp_mono; [apply look_spec|done|]. intros [rdy pnd] w3 Hl. cbn [fst snd] in Hl.
  apply wp_skip; [done|]. intros n w4. apply wp_bind. eapply wp_mono; [apply job_spec|done|].
  intros [cell done_] w5 Hj. cbn [snd] in Hj. cbv zeta.
  assert ((rdy ++ done_).*1 ≡ₚ plan_of titles) as Hall by (by rewrite fmap_app, Hj, schedule_perm).
  apply wp_skip; [done|]. intros _ w6. apply wp_skip; [done|]. intros _ w7. apply wp_skip; [done|]. intros _ w8.
  case_bool_decide as Hfatal; [|done]. apply wp_skip; [done|]. intros _ w9. apply wp_ret.
  apply app_nil in Hfatal as [Hf Hl']. apply fmap_nil_inv in Hl'.
  rewrite Hl'. cbn [fold_left]. by apply results_reported.
Qed.
(** C20: When an encode succeeds, whatever the tools and the disk did, its results name every kept title
    once, in order, and none of them reports a main feature or an alternate as failed: each is reported as
    encoded, or as a duplicate while a title reported as encoded has at least nine tenths of its runtime. It
    speaks of the report, not of the files: a title whose output is there and cannot be read is reported as
    encoded too ([unreadable_encode_reported]). The numbers of the disc's titles are distinct. *)
Theorem encode_spec work titles scan protected s w w' results : NoDup (title <$> titles) →
  encode work titles scan protected s w = (w', Ok results) → reported titles results.
Proof. intros ND. by apply (wp_Ok _ (λ _, True) (λ r _, reported titles r)), encode_wp. Qed.
End results.

(** ** No encode is lost *)

Lemma path_join_slash d r : char_in slash (path_join d r).
Proof. unfold path_join. apply char_in_app. right. unfold char_in. left. Qed.
Lemma pretty_not_flag (n : N) : pretty n ≠ "-o".
Proof. intros E. apply (pretty_N_char_not_in n "-"%char); [done|]. rewrite E. unfold char_in. left. Qed.
Lemma pretty_not_part (n : N) : ends_with ".part.mkv" (pretty n +:+ ".mkv") = false.
Proof.
  unfold ends_with. apply bool_decide_eq_false_2. rewrite chars_app, reverse_app. cbn. intros [k E]. injection E as E.
  destruct (pretty_N_digits n) as [HD _]. unfold all_digits in HD. rewrite <- Forall_reverse, E in HD.
  by apply Forall_cons in HD as [? _].
Qed.

Definition stub_path (work : Work) (name : string) : string := path_join (path work ".broken-stubs") name.
Definition encode_name (n : N) : string := pretty n +:+ ".mkv".

Section paths.
Context (work : Work) (d : string) (Hdir : w_dir work = "/" +:+ d) (Hmaster : w_master work ≠ "-o").

Lemma out_path_name n : out_path work n = path_join (path work "encodes") (encode_name n).
Proof. unfold out_path, path, path_join, encode_path, encode_name. by rewrite <- !str_app_assoc. Qed.
Lemma part_path_out n : part_path (out_path work n) = path_join (path work "encodes") (pretty n +:+ ".part.mkv").
Proof.
  rewrite out_path_name. unfold part_path, with_extension, path_join at 1, stem_of.
  assert (∀ c, is_digit c = false → ¬ char_in c (pretty n)) as Hd by (intros; by apply pretty_N_char_not_in).
  assert (rsplit_once slash (path work "encodes" +:+ "/" +:+ encode_name n) = Some (path work "encodes", encode_name n)) as ->.
  { apply rsplit_once_Some. split; [done|]. unfold encode_name. rewrite char_in_app. intros [?|?]; [by apply (Hd slash)|].
    by apply (bool_decide_eq_true_1 (¬ char_in slash ".mkv")). }
  assert (rsplit_once dot (encode_name n) = Some (pretty n, "mkv")) as ->.
  { apply rsplit_once_Some. split; [done|]. by apply (bool_decide_eq_true_1 (¬ char_in dot "mkv")). }
  rewrite bool_decide_eq_false_2 by apply pretty_N_digits. done.
Qed.
Lemma encodes_inj a b : path_join (path work "encodes") a = path_join (path work "encodes") b → a = b.
Proof. generalize (path work "encodes"). unfold path_join. by intros p E%str_app_inv_l%str_app_inv_l. Qed.
Lemma encode_name_inj n m : encode_name n = encode_name m → n = m.
Proof. unfold encode_name. by intros E%str_app_inv_r%(inj pretty). Qed.
Lemma out_path_inj n m : out_path work n = out_path work m → n = m.
Proof. rewrite !out_path_name. by intros E%encodes_inj%encode_name_inj. Qed.
Lemma out_not_part n m : out_path work n ≠ part_path (out_path work m).
Proof.
  rewrite part_path_out, out_path_name. intros E%encodes_inj. pose proof (pretty_not_part n) as Hn. fold (encode_name n) in Hn.
  rewrite E in Hn. unfold ends_with in Hn. apply bool_decide_eq_false_1 in Hn. apply Hn. rewrite chars_app, reverse_app. by eexists.
Qed.
(** A path of the work dir that is not below another of its directories. *)
Lemma not_below a b : starts_with (a +:+ "/") b = false → below (path work a) (path work b) = false.
Proof.
  intros E. unfold below, path, path_join. rewrite <- !str_app_assoc, !starts_with_app. exact E.
Qed.
Lemma path_ne a b : a ≠ b → path work a ≠ path work b.
Proof. intros Hne E. apply Hne. unfold path, path_join in E. by apply str_app_inv_l, str_app_inv_l in E. Qed.
Lemma below_repair m b : below (repair_dir work m) (path work ("e" +:+ b)) = false.
Proof. apply not_below. done. Qed.
End paths.

Section keeps.
#[local] Set Default Proof Using "Type*".
Context `{ToolsLaws, SerdeJson, SchedulerLaws}.
Context (work : Work) (d : string) (Hdir : w_dir work = "/" +:+ d) (Hmaster : w_master work ≠ "-o").
Context (n : N).
Notation out := (out_path work n).
Notation P := (λ p, p = out).
Notation R := (same P).

Lemma out_abs : starts_with "/" out = true.
Proof. unfold out_path, path, path_join. rewrite Hdir, <- !str_app_assoc. exact (starts_with_prefix "/" _). Qed.
Lemma log_ne name : log work name ≠ out.
Proof. unfold log, out_path. intros E. unfold path_join in E. rewrite <- !str_app_assoc in E. by apply str_app_inv_l in E. Qed.
Lemma writes_reader prog args : prog ∈ ["ffprobe"; "mkvmerge"] → writes (prog :: args) out = false.
Proof. intros Hp. rewrite !elem_of_cons, elem_of_nil in Hp. by destruct Hp as [->|[->|[]]]. Qed.
Lemma writes_makemkv args a l : last args = Some (String a l) → a ≠ slash → writes ("makemkvcon" :: args) out = false.
Proof.
  intros El Ha. cbn. rewrite El. pose proof out_abs as Ho. apply orb_false_iff. unfold below.
  destruct out as [|c o]; [done|]. apply starts_with_head in Ho as <-. split.
  - apply bool_decide_eq_false_2. by intros [= -> _].
  - by apply (starts_with_ne a slash (l +:+ "/") o).
Qed.

Lemma not_below_out a : starts_with (a +:+ "/") (encode_path n) = false → below (path work a) out = false.
Proof. apply not_below. Qed.
Lemma steps_makemkv_dir args a l : last args = Some (path work a) → path work a ≠ out →
  starts_with (a +:+ "/") (encode_path n) = false → steps R (status_logged ("makemkvcon" :: args) (log work l) None).
Proof.
  intros El Hne Ha. apply steps_status; [apply log_ne|]. intros p ->. cbn. rewrite El. apply orb_false_iff. split.
  - apply bool_decide_eq_false_2. congruence.
  - by apply not_below_out.
Qed.

(** A task of another title. *)
Section other.
Context (t : Title) (Hne : title t ≠ n) (s : Settings).
Notation out_t := (out_path work (title t)).
Lemma out_ne : out_t ≠ out.
Proof. by intros E%out_path_inj. Qed.
Lemma tmp_ne : part_path out_t ≠ out.
Proof. intros E. by eapply out_not_part. Qed.
Lemma steps_from_mkv src l : src ≠ "-o" → steps R (from_mkv src out_t (log work l) s).
Proof.
  intros Hsrc. pose proof out_ne. pose proof tmp_ne. unfold from_mkv. same_through.
  - apply steps_run_logged; [apply log_ne|]. intros p ->. cbn -[out_path part_path].
    rewrite (bool_decide_eq_false_2 (src = "-o")) by done. by apply bool_decide_eq_false_2; intros [=].
  - by apply steps_remove_file.
  - by apply steps_rename.
  - by apply steps_remove_file.
Qed.
Lemma steps_from_dvd scan l : steps R (from_dvd work t scan out_t (log work l) s).
Proof.
  pose proof out_ne. pose proof tmp_ne. pose proof (pretty_not_flag (title t)). unfold from_dvd. same_through;
    try (by apply steps_remove_file); try (by apply steps_rename).
  - apply steps_run_logged; [apply log_ne|]. intros p ->. cbn -[out_path part_path pretty].
    rewrite (bool_decide_eq_false_2 (w_master work = "-o")), (bool_decide_eq_false_2 (pretty (title t) = "-o")) by done.
    by apply bool_decide_eq_false_2; intros [=].
  - apply steps_stdout; [done|]. by intros p ->.
  - apply steps_run_logged; [apply log_ne|]. intros p ->. cbn -[out_path part_path].
    rewrite (bool_decide_eq_false_2 (part_path _ = "-q")); [by apply bool_decide_eq_false_2; intros [=]|].
    rewrite (part_path_out work). intros E. pose proof (path_join_slash (path work "encodes") (pretty (title t) +:+ ".part.mkv")) as Hs.
    rewrite E in Hs. by apply (bool_decide_eq_true_1 (¬ char_in slash "-q")) in Hs.
Qed.
Lemma steps_extract all : steps R (extract work t out_t s all).
Proof.
  unfold extract. same_through.
  - apply steps_remove_dir. intros p ->. by apply not_below_out.
  - apply (steps_makemkv_dir _ ("repair/t" +:+ pretty (title t))); [done|by apply path_ne|done].
  - apply steps_from_mkv. intros E. pose proof (path_join_slash (repair_dir work (title t)) s0) as Hs.
    rewrite E in Hs. by apply (bool_decide_eq_true_1 (¬ char_in slash "-o")) in Hs.
  - apply steps_remove_dir. intros p ->. by apply not_below_out.
Qed.
Lemma steps_one scan protected cell : steps R (one work t scan protected s cell).
Proof.
  unfold one, repair, get_listing, encode_log. same_through.
  - apply steps_from_mkv. intros E. pose proof (path_join_slash (path work "remux") s0) as Hs.
    rewrite E in Hs. by apply (bool_decide_eq_true_1 (¬ char_in slash "-o")) in Hs.
  - apply steps_from_dvd.
  - apply steps_stdout; [done|]. intros p ->. by eapply writes_makemkv.
  - apply steps_write_file. intros E. by eapply log_ne.
  - apply steps_extract.
Qed.
End other.

Lemma steps_jobs scan protected s ts : (∀ t, t ∈ ts → title t ≠ n) →
  steps R (for_each (job work scan protected s) (None, []) ts).
Proof.
  intros Hts. apply same_for_each. intros acc t Ht. unfold job. same_through. by apply steps_one, Hts.
Qed.
Lemma steps_remux s : steps R (remux_all work s).
Proof.
  unfold remux_all. same_through. apply (steps_makemkv_dir _ "remux"); [done|by apply path_ne|done].
Qed.
(** The titles left to do are those without an encode. *)
Lemma look_keeps c ts w : w_files w !! out = Some c →
  wp (for_each (look work) ([], []) ts) (λ w, w_files w !! out = Some c)
    (λ r w, w_files w !! out = Some c ∧ ∀ t, t ∈ r.2 → title t ≠ n) w.
Proof.
  intros Hc. apply (wp_for_each (look work) (λ _ r w, w_files w !! out = Some c ∧ ∀ t, t ∈ r.2 → title t ≠ n)).
  2:{ split; [done|]. intros t []%elem_of_nil. }
  intros _ t [rdy pnd] w1 [Hw Hp] _. unfold look, is_file. cbn [fst snd] in *. apply wp_bind, wp_gets.
  case_bool_decide as He.
  - apply wp_bind. eapply wp_mono; [apply steps_keep; [apply steps_duration|exact Hw]|done|]. intros secs w2 Hw2. by apply wp_ret.
  - apply wp_ret. cbn. split; [done|]. intros u [Hu|Hu%list_elem_of_singleton]%elem_of_app; [by apply Hp|].
    subst u. intros Et. apply He. rewrite Et, Hw. eauto.
Qed.

(** Where an encode is kept: in its place, or set aside. *)
Notation stub := (stub_path work (encode_name n)).
Definition kept (c : string) (w : World) : Prop :=
  w_files w !! out = Some c ∨ w_files w !! out = None ∧ w_files w !! stub = Some c.
Lemma stub_ne_out name : stub_path work name ≠ out.
Proof. unfold stub_path, out_path, path, path_join. rewrite <- !str_app_assoc. by intros E%str_app_inv_l%str_app_inv_l. Qed.
Lemma kept_steps {A} (m : M A) c w : steps (same (λ p, p = out ∨ p = stub)) m → kept c w → wp m (kept c) (λ _, kept c) w.
Proof.
  intros Hm Hk. specialize (Hm w). unfold wp, kept in *. destruct (m w) as [w' []]; cbn in Hm;
    rewrite (Hm out), (Hm stub) by auto; exact Hk.
Qed.
Lemma sweep_one_keeps c u name w : kept c w → wp (sweep_one work u name) (kept c) (λ _, kept c) w.
Proof.
  intros Hk. pose proof (pretty_not_part n) as Hnp. fold (encode_name n) in Hnp.
  pose proof (stub_ne_out (encode_name n)) as Hso. unfold sweep_one.
  destruct (ends_with ".part.mkv" name) eqn:Ep.
  { apply kept_steps; [|done]. same_through. apply steps_remove_file. rewrite out_path_name. intros [E|E].
    - apply encodes_inj in E as ->. congruence.
    - unfold stub_path, path, path_join in E. rewrite <- !str_app_assoc in E. by apply str_app_inv_l, str_app_inv_l in E. }
  destruct (ends_with ".mkv" name); [|by apply wp_ret].
  apply wp_bind. eapply wp_mono; [apply kept_steps; [apply steps_duration|exact Hk]|done|]. intros secs w1 Hk1.
  destruct (f64_ltb secs (f64_of_Z 1)); [|by apply wp_ret].
  apply wp_bind. eapply wp_mono; [apply kept_steps; [apply steps_create_dir|exact Hk1]|done|]. intros [] w2 Hk2.
  assert (∀ m, path_join (path work "encodes") m ≠ stub) as Hes.
  { intros m E. unfold stub_path, path, path_join in E. rewrite <- !str_app_assoc in E. by apply str_app_inv_l, str_app_inv_l in E. }
  destruct (decide (name = encode_name n)) as [->|Hne].
  - rewrite <- out_path_name. unfold rename, read_to_string, wp, mbind, SE_bind. destruct Hk2 as [Ho|[Ho Hs]]; rewrite Ho; [|by right].
    unfold disk_op. destruct (disk _ _); [right|by left..]. cbn. fold (stub_path work (encode_name n)).
    rewrite lookup_insert_ne, lookup_delete_eq, lookup_insert_eq; done.
  - apply kept_steps; [|done]. apply steps_rename.
    + intros [E|E]; [rewrite out_path_name in E; by apply encodes_inj in E|by apply Hes in E].
    + intros [E|E]; [by apply (stub_ne_out name)|]. revert E. unfold stub_path. generalize (path work ".broken-stubs"). unfold path_join.
      intros q E. by do 2 apply str_app_inv_l in E.
Qed.
Lemma sweep_keeps c w : kept c w → wp (sweep work) (kept c) (λ _, kept c) w.
Proof.
  intros Hk. unfold sweep. apply wp_bind. eapply wp_mono; [apply kept_steps; [apply steps_read_dir|exact Hk]|done|].
  intros names w1 Hk1. apply (wp_for_each (sweep_one work) (λ _ _, kept c)); [|done].
  intros _ name u w2 Hk2 _. by apply sweep_one_keeps.
Qed.
Lemma keep_then {A B} (m : M A) (f : A → M B) c w : steps R m → w_files w !! out = Some c →
  (∀ a w', w_files w' !! out = Some c → wp (f a) (kept c) (λ _, kept c) w') → wp (m ≫= f) (kept c) (λ _, kept c) w.
Proof.
  intros Hm Hc Hf. apply wp_bind. eapply wp_mono; [exact (steps_keep m out (Some c) w Hm Hc)|intros ? ?; by left|].
  intros a w' Hw'. by apply Hf.
Qed.
Lemma kept_then {A B} (m : M A) (f : A → M B) c w : wp m (kept c) (λ _, kept c) w →
  (∀ a w', kept c w' → wp (f a) (kept c) (λ _, kept c) w') → wp (m ≫= f) (kept c) (λ _, kept c) w.
Proof. intros Hm Hf. apply wp_bind. by eapply wp_mono; [apply Hm| |]. Qed.
Lemma remove_keeps a c w : starts_with (a +:+ "/") (encode_path n) = false → starts_with (a +:+ "/") (".broken-stubs/" +:+ encode_name n) = false →
  kept c w → wp (ok (remove_dir_all (path work a))) (kept c) (λ _, kept c) w.
Proof.
  intros H1' H2' Hk. apply kept_steps; [|done]. apply same_ok, steps_remove_dir. intros p [->| ->]; [by apply not_below_out|].
  assert (stub = path work (".broken-stubs/" +:+ encode_name n)) as ->; [|by apply not_below].
  unfold stub_path, path, path_join. by rewrite <- !str_app_assoc.
Qed.

Lemma encode_kept titles scan protected s w c : w_files w !! out = Some c →
  wp (encode work titles scan protected s) (kept c) (λ _, kept c) w.
Proof.
  intros Hc. unfold encode. apply keep_then; [apply steps_create_dir|done|]. intros _ w1 Hc1.
  apply keep_then; [destruct protected; [apply steps_remux|apply keep_ret]|done|]. intros _ w2 Hc2.
  apply wp_bind. eapply wp_mono; [by apply look_keeps|by left|]. intros [rdy pnd] w3 [Hc3 Hp]. cbn [snd] in Hp.
  apply keep_then; [apply same_gets|done|]. intros k w4 Hc4.
  apply keep_then; [apply steps_jobs|done|].
  { intros t Ht. apply Hp. by rewrite <- (schedule_perm k pnd). }
  intros [cell dn] w5 Hc5. cbv zeta. apply kept_then; [apply sweep_keeps; by left|]. intros _ w6 Hk6.
  apply kept_then; [by apply remove_keeps|]. intros _ w7 Hk7.
  apply kept_then; [case_bool_decide; [by apply wp_ret|]; unfold drop_; apply kept_then; [by apply remove_keeps|]; intros ? ? ?; by apply wp_ret|].
  intros _ w8 Hk8. case_bool_decide; [|by apply wp_throw]. apply kept_then; [by apply remove_keeps|].
  intros _ w9 Hk9. by apply wp_ret.
Qed.
End keeps.

(** An encode never loses one it finds: whatever title is encoded or fails and wherever it stops, a
    file that was [encodes/N.mkv] still is, with its content, or has been set aside whole. *)
Theorem encode_keeps `{ToolsLaws, SerdeJson, SchedulerLaws} work d n c titles scan protected s w :
  w_dir work = "/" +:+ d → w_master work ≠ "-o" → w_files w !! out_path work n = Some c →
  let fs' := w_files (encode work titles scan protected s w).1 in
  fs' !! out_path work n = Some c ∨ (fs' !! out_path work n = None ∧ fs' !! stub_path work (encode_name n) = Some c).
Proof.
  intros Hd Hm Hc. pose proof (encode_kept work d Hd Hm n titles scan protected s w c Hc) as Hk.
  exact (wp_result _ _ _ Hk).
Qed.

Module Reference.
#[export] Instance scheduler : Scheduler := λ _ l, l.
#[export] Instance scheduler_laws : SchedulerLaws.
Proof. intros n l. reflexivity. Qed.
Definition work : Work := mkWork "/work/abc" "/work/abc/master.iso".
Definition titles : list Title := [test_title 1 Main 100; test_title 2 Extra 40; test_title 3 Stub 1].
Definition world (files : list (string * string)) : World := mkWorld (list_to_map files) 0.
Definition half_done : World := world [("/work/abc/encodes/1.mkv", "the film")].
End Reference.

Lemma encode_spec_witness :
  ∃ results, (@encode Work.Reference.tools Json.Reference.serde Reference.scheduler Reference.work Reference.titles Null false default_settings Reference.half_done).2 = Ok results ∧
    reported Reference.titles results.
Proof.
  pose (run := @encode Work.Reference.tools Json.Reference.serde Reference.scheduler Reference.work Reference.titles Null false default_settings Reference.half_done).
  destruct run as [w' r] eqn:E. exists [(1%N, Encoded (f64_of_Z 100)); (2%N, Encoded (f64_of_Z 100))].
  assert (r = Ok [(1%N, Encoded (f64_of_Z 100)); (2%N, Encoded (f64_of_Z 100))]) as Er.
  { change r with (w', r).2. rewrite <- E. vm_compute. reflexivity. }
  split; [subst run; rewrite E; exact Er|]. rewrite Er in E.
  eapply (@encode_spec Work.Reference.tools Json.Reference.serde Reference.scheduler Reference.scheduler_laws); [|exact E].
  refine (bool_decide_unpack _ _); vm_compute; exact I.
Defined.
Lemma encode_keeps_witness :
  let fs' := w_files (@encode Work.Reference.tools Json.Reference.serde Reference.scheduler Reference.work Reference.titles Null false default_settings Reference.half_done).1 in
  fs' !! "/work/abc/encodes/1.mkv" = Some "the film" ∨ (fs' !! "/work/abc/encodes/1.mkv" = None ∧ fs' !! "/work/abc/.broken-stubs/1.mkv" = Some "the film").
Proof.
  apply (@encode_keeps Work.Reference.tools Work.Reference.tools_laws Json.Reference.serde Reference.scheduler Reference.scheduler_laws
           Reference.work "work/abc" 1 "the film"); [reflexivity|discriminate|reflexivity].
Defined.

(** A leftover encode that cannot be read counts as encoded, and is then set aside: the encode succeeds
    without the main feature. *)
Lemma unreadable_encode_reported :
  let r := @encode Work.Reference.tools Json.Reference.serde Reference.scheduler Reference.work [test_title 1 Main 100] Null false default_settings
             (Reference.world [("/work/abc/encodes/1.mkv", "")]) in
  r.2 = Ok [(1%N, Encoded f64_zero)] ∧ w_files r.1 !! "/work/abc/encodes/1.mkv" = None.
Proof. vm_compute. done. Qed.
