(* ===== verification/Review.v ===== *)
(** * Damage marks and contact sheets ([mark] of [apps/dvdrip/src/damage.rs], [apps/dvdrip/src/review.rs])

    The two steps after the encodes, on the machine of [Work]: [mark] puts a chapter at each glitch of
    a damaged disc's encodes; [review] makes a contact sheet per title and an image of all extras.
    Neither may fail the disc: [Job.run_encode] goes on when they stop. *)

From Stdlib Require Import Ascii.
From stdpp Require Import options.
From S2P Require Import Prelude Text F64 Json State Host Classify Crd Naming Layout Damage Work.

(** [f64]'s Display, and [{:?}] of a role. *)
Class ShowF64 : Type := show_f64 : f64 → string.
Definition show_role (r : Role) : string :=
  match r with Main => "Main" | Alt => "Alt" | Dup => "Dup" | Playall => "Playall" | Part => "Part" | Stub => "Stub" | Short => "Short" | Extra => "Extra" end.

(** ** [mark] *)

Record Glitch : Type := mkGlitch { g_title : N; g_start : N; g_end : N; g_errors : N }.
Definition glitch_of (n : N) (g : N * N * N) : Glitch := mkGlitch n g.1.1 g.1.2 g.2.

Section mark.
Context `{Tools, !Serialize (list Glitch)}.

Definition scan (work : Work) (n : N) : M (list (N * N * N)) :=
  o ← spawn None (["ffmpeg"; "-nostdin"; "-hide_banner"; "-v"; "error"; "-stats_period"; "0.5"; "-progress"; "pipe:1";
                   "-f"; "dvdvideo"; "-title"; pretty n; "-i"; w_master work;
                   "-map"; "0:v:0"; "-map"; "0:a:0?"; "-f"; "null"; "-"]);
  mret (glitches (lines (o_stdout o))).
Definition mark_title (work : Work) (max_glitches : nat) (found : list Glitch) (t : Title) : M (list Glitch) :=
  let f := path work (encode_path (title t)) in
  e ← is_file f;
  if negb e then mret found
  else
    g ← scan work (title t);
    if (max_glitches <? length g)%nat then mret found
    else
      let chap := path work ("logs/chapters-t" +:+ pretty (title t) +:+ ".txt") in
      existing ← stdout_or_empty ["mkvextract"; f; "chapters"; "--simple"; "-"];
      if bool_decide (g = []) && negb (contains MARKER_PREFIX existing) then mret found
      else
        _ ← write chap (chapters existing ((λ x, x.1.1) <$> g));
        _ ← run_logged ["mkvpropedit"; "-q"; f; "--chapters"; chap] (log work "damage.log");
        mret (found ++ (glitch_of (title t) <$> g)).
Definition mark (work : Work) (titles : list Title) (max_glitches : nat) : M (list Glitch) :=
  found ← for_each (mark_title work max_glitches) [] (List.filter (λ t, encoded (role t)) titles);
  _ ← write_json (path work "damage.json") (serialize found);
  mret found.
End mark.

(** ** [review] *)

Definition esc (s : string) : string :=
  replace (String "034" "") "&quot;" (replace ">" "&gt;" (replace "<" "&lt;" (replace "&" "&amp;" s))).
(** The second part of a split at [" - "]. *)
Definition after_dash (stem : string) : string :=
  match find_list (chars " - ") (chars stem) with
  | Some (_, rest) => match find_list (chars " - ") rest with Some (x, _) => str x | None => str rest end
  | None => ""
  end.
Definition pad_tile (i : nat) : string := "color=black:s=480x360:d=1[v" +:+ pretty (N.of_nat i) +:+ "];".
Definition v_name (i : nat) : string := "[v" +:+ pretty (N.of_nat i) +:+ "]".
Definition tile (i : nat) (label : string) : string :=
  let label := replace ":" "\:" (replace "'" "" label) in
  "[" +:+ pretty (N.of_nat i) +:+ "]scale=480:360,setsar=1,drawtext=text='" +:+ label
  +:+ "':x=6:y=6:fontsize=28:fontcolor=yellow:box=1:boxcolor=black@0.7[v" +:+ pretty (N.of_nat i) +:+ "];".

(** A grid of at most four columns, padded with black. *)
Definition grid_cols (n : nat) : nat := min n 4.
Definition grid_rows (n : nat) : nat := (n + grid_cols n - 1) / grid_cols n.
Definition montage_filter (labels : list string) : string :=
  let n := length labels in
  let cols := grid_cols n in
  let rows := grid_rows n in
  let filter := concat (imap tile labels) in
  let stack := concat (imap (λ i _, v_name i) labels) in
  if (n =? 1)%nat then filter +:+ stack +:+ "null"
  else
    let pads := seq n (cols * rows - n) in
    filter +:+ concat (pad_tile <$> pads) +:+ (stack +:+ concat (v_name <$> pads)) +:+ "xstack=inputs="
    +:+ pretty (N.of_nat (cols * rows)) +:+ ":grid=" +:+ pretty (N.of_nat cols) +:+ "x" +:+ pretty (N.of_nat rows).
(** [chunks(16)] *)
Fixpoint chunks {A} (fuel n : nat) (l : list A) : list (list A) :=
  match fuel, l with
  | S fuel, _ :: _ => take n l :: chunks fuel n (drop n l)
  | _, _ => []
  end.

Section review.
Context `{Tools, ShowF64}.

Definition sheet_entry (stem : string) (t : Title) (secs : f64) (tracks : list string) : string :=
  "<figure><h3>" +:+ esc stem +:+ " <small>(" +:+ show_role (role t) +:+ ", " +:+ dur secs +:+ ")</small></h3><code>"
  +:+ esc (join "; " tracks) +:+ "</code><br><img src=" +:+ quote +:+ esc (stem +:+ ".jpg") +:+ quote +:+ "></figure>" +:+ String newline "".
Definition make_sheet (work : Work) (f sheet : string) (secs : f64) : M () :=
  run_logged ["ffmpeg"; "-nostdin"; "-v"; "error"; "-y"; "-i"; f; "-vf"; "fps=16/" +:+ show_f64 secs +:+ ",scale=360:-2,tile=4x4:padding=4";
              "-frames:v"; "1"; sheet] (log work "review.log").
(** The page so far, and the extras with a sheet. *)
Definition review_title (work : Work) (out : string) (acc : string * list (N * string)) (t : Title) : M (string * list (N * string)) :=
  let '(html, extras) := acc in
  let f := path work (encode_path (title t)) in
  e ← is_file f;
  if negb e then mret acc
  else
    secs ← duration f;
    if f64_leb secs f64_zero then mret acc
    else
      let stem := title_stem (title t) (seconds t) in
      let sheet := path_join out (stem +:+ ".jpg") in
      have ← is_file sheet;
      r ← (if (have : bool) then mret (Ok ()) else try (make_sheet work f sheet secs));
      match r with
      | Err _ => mret acc
      | Ok _ =>
          tracks ← stdout_or_empty ["ffprobe"; "-v"; "error"; "-show_entries"; "stream=codec_type,codec_name:stream_tags=language,title";
                                    "-of"; "compact=p=0:nk=1"; f];
          let tracks := replace_char "|" " " <$> List.filter (λ l, negb (starts_with "video" l)) (lines tracks) in
          mret (html +:+ sheet_entry stem t secs tracks,
                if bool_decide (role t = Extra) then extras ++ [(title t, stem)] else extras)
      end.
Definition old_montage (n : string) : bool :=
  bool_decide (n = "extras.jpg") || (starts_with "extras-" n && ends_with ".jpg" n).
Definition montage (work : Work) (page : list (N * string)) (dest : string) : M () :=
  let dir := path work "review" in
  fs ← gets w_files;
  let have := List.filter (λ x : N * string, bool_decide (is_Some (fs !! path_join dir (x.2 +:+ ".jpg")))) page in
  match have with
  | [] => mret ()
  | _ =>
      let inputs := List.concat ((λ x : N * string, ["-i"; path_join dir (x.2 +:+ ".jpg")]) <$> have) in
      let labels := (λ x : N * string, "T" +:+ pretty x.1 +:+ " " +:+ after_dash x.2) <$> have in
      drop_ (ok (run_logged (["ffmpeg"; "-nostdin"; "-v"; "error"; "-y"] ++ inputs ++
                              ["-filter_complex"; montage_filter labels; "-frames:v"; "1"; dest]) (log work "review.log")))
  end.
Definition page_name (pages i : nat) : string :=
  if (pages =? 1)%nat then "extras.jpg" else "extras-" +:+ pretty (N.of_nat (i + 1)) +:+ ".jpg".
Definition HEAD (heading : string) : string :=
  "<!doctype html><meta charset=utf-8><title>" +:+ esc heading +:+
  " extras</title><style>body{font:14px system-ui;margin:16px;background:#111;color:#eee}figure{margin:0 0 24px}img{max-width:100%}code{color:#9cf}</style><h1>"
  +:+ esc heading +:+ "</h1>" +:+ String newline "".
Definition review (work : Work) (titles : list Title) (heading : string) : M () :=
  let out := path work "review" in
  _ ← create_dir_all out;
  '(html, extras) ← for_each (review_title work out) (HEAD heading, []) (List.filter (λ t, encoded (role t)) titles);
  _ ← write (path_join out "index.html") html;
  names ← read_dir out;
  _ ← for_each (λ _ n, if old_montage n then drop_ (ok (remove_file (path_join out n))) else mret ()) () names;
  let pages := chunks (length extras) 16 extras in
  for_each (λ _ ip, montage work ip.2 (path_join out (page_name (length pages) ip.1))) () (imap pair pages).
End review.

(** ** Examples, from the tests *)

Example montage_grids :
  ends_with "[v0]null" (montage_filter ["T1 1m00s"]) = true ∧
  let f := montage_filter ((λ i : N, "T" +:+ pretty i +:+ " 0m3" +:+ pretty i +:+ "s") <$> [1; 2; 3; 4; 5]%N) in
  ends_with "xstack=inputs=8:grid=4x2" f = true ∧ contains "color=black:s=480x360:d=1[v7];" f = true ∧ contains "text='T1 0m31s'" f = true.
Proof. vm_compute. done. Qed.

(** ** The pages hold every extra once, sixteen at most to a page *)

Lemma chunks_spec {A} fuel n (l : list A) : n ≠ 0 → length l ≤ fuel →
  List.concat (chunks fuel n l) = l ∧ Forall (λ p, 1 ≤ length p ≤ n) (chunks fuel n l).
Proof.
  intros Hn. revert l. induction fuel as [|fuel IH]; intros [|a l] Hl; cbn -[take drop]; try (by split); [cbn in Hl; lia|].
  destruct (IH (drop n (a :: l))) as [IH1 IH2]; [rewrite length_drop; cbn in *; lia|].
  rewrite IH1, take_drop. split; [done|]. constructor; [|done]. rewrite length_take. cbn. lia.
Qed.
(** The grid has a tile for every sheet, and less than a row to spare. *)
Lemma grid_fits n : n ≠ 0 → n ≤ grid_cols n * grid_rows n < n + grid_cols n.
Proof.
  intros Hn. unfold grid_rows. assert (1 ≤ grid_cols n) as Hc by (unfold grid_cols; lia).
  pose proof (Nat.div_mod (n + grid_cols n - 1) (grid_cols n) ltac:(lia)) as E.
  pose proof (Nat.mod_upper_bound (n + grid_cols n - 1) (grid_cols n) ltac:(lia)). lia.
Qed.
