(* ===== verification/Job.v ===== *)
(** * The encode Job ([apps/dvdrip/src/job.rs])

    [run_encode] composes the steps of [Inspect], [Encode] and [Review] on one work dir: an encode that
    fails on the DVD's navigation is done again through MakeMKV, and [summarize] turns what was encoded
    into the titles of the Disc's status. [prepare] is what the Job does before: choose the master and
    discard encodes of an older spec. Fetching and patching the Disc, and asking Jellyfin for a rescan,
    are calls to services and are not modelled. *)

From Stdlib Require Import Ascii.
From stdpp Require Import options.
From S2P Require Import Prelude Text F64 Json State Host Classify Crd Naming Layout Damage Makemkv Lsdvd Work Inspect Encode Review.

Record Summary : Type := mkSummary {
  sm_titles : list TitleStatus; sm_warnings : list string; sm_message : string; sm_protected : bool
}.

Definition outcome_of (results : list (N * Outcome)) (n : N) : option Outcome :=
  snd <$> List.find (λ r, (r.1 =? n)%N) results.
Definition encoded_of (results : list (N * Outcome)) (n : N) : option f64 :=
  match outcome_of results n with Some (Encode.Encoded s) => Some s | _ => None end.
Definition mine (glitches : list Glitch) (n : N) : list Glitch := List.filter (λ g, (g_title g =? n)%N) glitches.

Definition title_warnings (results : list (N * Outcome)) (glitches : list Glitch) (t : Title) : list string :=
  let n := pretty (title t) in
  match outcome_of results (title t) with
  | Some (Encode.Failed why) => ["title " +:+ n +:+ " failed: " +:+ why]
  | Some (Encode.Encoded got) =>
      if f64_ltb (f64_of_Z 10) (seconds t) && f64_ltb got (most_of (seconds t))
      then ["title " +:+ n +:+ ": encoded " +:+ fmt0 got +:+ "s of " +:+ fmt0 (seconds t) +:+ "s on disc (still-frame gallery or read problem)"]
      else []
  | _ => []
  end ++
  ((λ g, "glitch in title " +:+ pretty (g_title g) +:+ " at " +:+ pretty (g_start g / 60)%N +:+ "m" +:+ pretty (g_start g mod 60)%N
         +:+ "s (" +:+ pretty (g_errors g) +:+ " decode errors), marked with a chapter") <$> mine glitches (title t)).
Definition title_status (results : list (N * Outcome)) (glitches : list Glitch) (t : Title) : TitleStatus :=
  let encoded := encoded_of results (title t) in
  {| t_title := title t; t_role := role t; t_seconds := seconds t;
     t_output := (λ _, encode_path (title t)) <$> encoded;
     t_encoded_seconds := match encoded with
       | Some got => if f64_ltb (f64_of_Z 10) (f64_abs (got - seconds t)%f64) then Some got else None | None => None end;
     t_aspect := match as_str (aspect t) with Some a => if bool_decide (a = "") then None else Some a | None => None end;
     t_glitches := g_start <$> mine glitches (title t) |}.
Definition has_output (t : TitleStatus) : bool := match t_output t with Some _ => true | None => false end.
Definition count_role (r : Role) (out : list TitleStatus) : nat :=
  length (List.filter (λ t, bool_decide (t_role t = r) && has_output t) out).
Definition summarize (name : string) (titles : list Title) (results : list (N * Outcome)) (glitches : list Glitch) (protected : bool) : Summary :=
  let warnings := flat_map (title_warnings results glitches) titles in
  let out := title_status results glitches <$> titles in
  let main := List.find (λ t, bool_decide (t_role t = Main) && has_output t) out in
  let message := name +:+ ": main " +:+
    match main with Some m => dur (default (t_seconds m) (t_encoded_seconds m)) | None => "?" end +:+ ", " +:+
    pretty (N.of_nat (count_role Extra out)) +:+ " extras, " +:+ pretty (N.of_nat (count_role Short out)) +:+ " short, " +:+
    pretty (N.of_nat (length warnings)) +:+ " warnings" in
  mkSummary out warnings message protected.

Section job.
Context `{Tools, SerdeJson, Scheduler, XmlReader, JsonStream, ShowF64}.
Context `{!Serialize (list Title), !Serialize Value, !Serialize (list Glitch), !Serialize (string * Summary)}.

(** What the encode made of the disc: the inspection it went with, and the results. *)
Definition encode_disc (work : Work) (main : option N) (protected : bool) (s : Settings) : M (Inspected * list (N * Outcome)) :=
  let th := default_thresholds in
  ins ← inspect work main protected th;
  r ← try (encode work (i_titles ins) (i_scan ins) (i_protected ins) s);
  match r with
  | Ok results => mret (ins, results)
  | Err e =>
      if i_protected ins then throw e
      else
        _ ← for_each (λ _ t, drop_ (ok (remove_file (out_path work (title t))))) () (i_titles ins);
        ins ← inspect work main true th;
        results ← encode work (i_titles ins) (i_scan ins) true s;
        mret (ins, results)
  end.
Definition run_encode (work : Work) (main : option N) (protected damaged : bool) (s : Settings) (max_glitches : nat) (name : string) : M Summary :=
  '(ins, results) ← encode_disc work main protected s;
  _ ← (if i_protected ins then write (path work ".protected") "" else mret ());
  glitches ← (if damaged then g ← ok (mark work (i_titles ins) max_glitches); mret (default [] g) else mret []);
  _ ← ok (review work (i_titles ins) name);
  let summary := summarize name (i_titles ins) results glitches (i_protected ins) in
  _ ← write_json (path work "summary.json") (serialize (name, summary));
  mret summary.

(** Before the encode of a Disc: its work dir, and the master there or the published one. *)
Definition prepare (work_root dvd_root : string) (spec : DiscSpec) (status : DiscStatus) : M (Work * bool) :=
  let dir := path_join work_root (st_fingerprint status) in
  _ ← create_dir_all (path_join dir "logs");
  here ← is_file (path_join dir "master.iso");
  master ← (if (here : bool) then mret (path_join dir "master.iso")
            else match st_published status ≫= pub_iso with
                 | Some iso => mret (path_join dvd_root iso)
                 | None => throw ["no master in the work dir and nothing published"]
                 end);
  let work := mkWork dir master in
  _ ← match st_encode_key status with
      | Some k =>
          if bool_decide (k = encode_key spec) then mret ()
          else _ ← ok (remove_dir_all (path work "encodes")); _ ← ok (remove_file (path work ".protected"));
               drop_ (ok (remove_dir_all (path work "remux")))
      | None => mret ()
      end;
  marked ← is_file (path work ".protected");
  mret (work, spec_protected spec || marked).
End job.

(** ** The source's own test, on two titles *)

Example summary_message_and_warnings :
  let s := summarize "Beetlejuice" [test_title 1 Main 5516; test_title 6 Extra 60]
             [(1%N, Encode.Encoded (f64_of_Z 5516)); (6%N, Encode.Failed "decode")] [] false in
  sm_message s = "Beetlejuice: main 91m56s, 0 extras, 0 short, 1 warnings" ∧ sm_warnings s = ["title 6 failed: decode"] ∧
  t_output <$> sm_titles s = [Some "encodes/1.mkv"; None].
Proof. vm_compute. done. Qed.

(** ** No feature is missing from the summary of a finished encode *)

Lemma protected_titles_nodup info th : NoDup (title <$> protected_titles (Makemkv.titles info) th).
Proof.
  destruct (titles_ids info) as [ND Hlt]. unfold protected_titles. set (max := longest _). set (main := main_id _). clearbody max main.
  revert ND Hlt. induction (Makemkv.titles info) as [|t l IH]; intros ND Hlt; [constructor|]. rewrite !fmap_cons in *.
  apply NoDup_cons in ND as [Hnew ND]. constructor; [|apply IH; [done|]; intros u Hu; apply Hlt; by right].
  rewrite <- list_fmap_compose. intros (u & Eu & Hu)%list_elem_of_fmap. cbn in Eu. apply Hnew. apply list_elem_of_fmap. exists u.
  split; [|done]. pose proof (Hlt t ltac:(left)). pose proof (Hlt u ltac:(by right)).
  unfold u32_add, u32_wrap, u32_modulus in *. change (2 ^ 32)%N with 4294967296%N in *.
  pose proof (N.div_mod' (m_id t + 1) 4294967296). pose proof (N.div_mod' (m_id u + 1) 4294967296).
  pose proof (N.mod_upper_bound (m_id t + 1) 4294967296). pose proof (N.mod_upper_bound (m_id u + 1) 4294967296).
  assert ((m_id t + 1) / 4294967296 ≤ 1)%N by (apply N.Div0.div_le_upper_bound; lia).
  assert ((m_id u + 1) / 4294967296 ≤ 1)%N by (apply N.Div0.div_le_upper_bound; lia). nia.
Qed.

Section summary.
#[local] Set Default Proof Using "Type*".
Context `{Tools, SerdeJson, SchedulerLaws, XmlReader, JsonStream, ShowF64}.
Context `{!Serialize (list Title), !Serialize Value, !Serialize (list Glitch), !Serialize (string * Summary)}.
(** lsdvd numbers a disc's titles. *)
Context (lsdvd_numbers : ∀ raw disc, to_json (sanitize raw) = Ok disc → NoDup (title <$> read_titles disc)).

Lemma inspect_nodup work main force th w :
  wp (inspect work main force th) (λ _, True) (λ ins _, NoDup (title <$> i_titles ins)) w.
Proof.
  assert (∀ w, wp (protected work th) (λ _, True) (λ ins _, NoDup (title <$> i_titles ins)) w) as Hp.
  { intros w1. unfold protected. apply wp_skip; [done|]. intros text w2. apply wp_skip; [done|]. intros _ w3.
    case_bool_decide; [done|]. apply wp_skip; [done|]. intros _ w4. apply wp_ret. apply protected_titles_nodup. }
  unfold inspect. destruct force; [apply Hp|]. apply wp_skip; [done|]. intros raw w1.
  destruct (to_json (sanitize (chars raw))) as [disc|e] eqn:E; [|by apply wp_skip; [|intros; apply Hp]].
  destruct (_ && _); [|by apply wp_skip; [|intros; apply Hp]].
  apply wp_skip; [done|]. intros out w2. destruct (scan_json out) as [scan|]; [|done].
  do 3 (apply wp_skip; [done|]; intros _ ?). apply wp_ret. cbn.
  rewrite (titles_of_erase _ (read_titles disc)); [by eapply lsdvd_numbers|]. by rewrite classify_erase.
Qed.
Lemma encode_disc_reported work main force s w :
  wp (encode_disc work main force s) (λ _, True) (λ r _, NoDup (title <$> i_titles r.1) ∧ reported (i_titles r.1) r.2) w.
Proof.
  unfold encode_disc. apply wp_bind. eapply wp_mono; [apply inspect_nodup|done|]. intros ins w1 ND.
  apply wp_bind. unfold try, wp at 1. pose proof (encode_wp work (i_titles ins) (i_scan ins) (i_protected ins) s w1 ND) as He.
  unfold wp in He. destruct (encode work (i_titles ins) (i_scan ins) (i_protected ins) s w1) as [w2 [results|e]]; [by apply wp_ret|].
  destruct (i_protected ins); [done|]. apply wp_skip; [done|]. intros _ w3.
  apply wp_bind. eapply wp_mono; [apply inspect_nodup|done|]. intros ins' w4 ND'.
  apply wp_bind. eapply wp_mono; [by apply encode_wp|done|]. intros results w5 Hr. by apply wp_ret.
Qed.

Lemma encoded_of_elem results n s : NoDup results.*1 → (n, Encode.Encoded s) ∈ results → encoded_of results n = Some s.
Proof.
  intros ND Hin. unfold encoded_of, outcome_of.
  destruct (find_is_Some (λ r : N * Outcome, (r.1 =? n)%N) results _ Hin (N.eqb_refl n)) as [[m o] Hf]. rewrite Hf. cbn.
  apply find_some_elem in Hf as [Hmo Em%N.eqb_eq]. cbn in Em. subst m.
  apply list_elem_of_lookup in Hin as [i Hi], Hmo as [j Hj].
  assert (i = j) as ->; [|rewrite Hi in Hj; by injection Hj as <-].
  eapply NoDup_lookup; [exact ND|by rewrite list_lookup_fmap, Hi|]. by rewrite list_lookup_fmap, Hj.
Qed.

(** A title's runtime as the summary gives it: the encode's, when it is more than ten seconds off. *)
Definition runs (u : TitleStatus) (got : f64) : Prop :=
  t_encoded_seconds u = Some got ∨ (t_encoded_seconds u = None ∧ f64_ltb (f64_of_Z 10) (f64_abs (got - t_seconds u)%f64) = false).

(** Each title once; a feature has its encode, or another title that has one carries its runtime. *)
Definition features_kept (sum : Summary) : Prop :=
  NoDup (t_title <$> sm_titles sum) ∧
  ∀ t, t ∈ sm_titles sum → feature (t_role t) = true →
    t_output t = Some (encode_path (t_title t)) ∨
    (t_output t = None ∧ ∃ u got, u ∈ sm_titles sum ∧ t_output u = Some (encode_path (t_title u)) ∧ runs u got ∧
       f64_leb (most_of (t_seconds t)) got = true).

Lemma summary_features name titles results glitches protected :
  NoDup (title <$> titles) → reported titles results →
  features_kept (summarize name titles results glitches protected).
Proof.
  intros ND (Hperm & _ & Hcar). unfold features_kept. cbn [sm_titles summarize]. rewrite <- list_fmap_compose. split; [done|].
  assert (NoDup results.*1) as NDr by (rewrite Hperm; by apply plan_nodup).
  intros t (x & -> & Hx)%list_elem_of_fmap Hf. cbn in Hf |- *.
  destruct (Hcar x Hx Hf) as [[s Hs]|(Hd & n & got & Hn & Hge)].
  - left. by rewrite (encoded_of_elem _ _ _ NDr Hs).
  - destruct (encoded_of results (title x)) as [s|] eqn:E; [by left|]. right. split; [done|].
    assert (n ∈ title <$> plan_of titles) as Hin by (rewrite <- Hperm; by apply list_elem_of_fmap; exists (n, Encode.Encoded got)).
    apply list_elem_of_fmap in Hin as (y & -> & [Hy _]%plan_elem). pose proof (encoded_of_elem _ _ _ NDr Hn) as En.
    exists (title_status results glitches y), got. split; [by apply list_elem_of_fmap_2|]. cbn. rewrite En. split; [done|]. split; [|done].
    unfold runs, title_status. cbn [t_encoded_seconds t_seconds]. rewrite En. destruct (f64_ltb (f64_of_Z 10) (f64_abs (got - seconds y)%f64)) eqn:E10; [by left|by right].
Qed.

(** When the encode Job succeeds, on the first try or after redoing the disc through MakeMKV, its
    summary lists each title once and no main feature or alternate is missing from it: each has its
    encode, or another title of the summary with an encode carries nine tenths of its runtime. *)
Theorem run_encode_spec work main force damaged s max_glitches name w w' sum :
  run_encode work main force damaged s max_glitches name w = (w', Ok sum) →
  features_kept sum.
Proof.
  apply (wp_Ok _ (λ _, True) (λ sum _, features_kept sum)). unfold run_encode. apply wp_bind. eapply wp_mono; [apply encode_disc_reported|done|].
  intros [ins results] w1 [ND Hr]. cbn [fst snd] in *. do 4 (apply wp_skip; [done|]; intros ? ?).
  apply wp_ret. by apply summary_features.
Qed.
End summary.

Module Reference.
(** Two titles of a disc, as lsdvd numbers them. *)
Definition track (ix len : string) : Node := Elem "track" [Elem "ix" [Chars ix]; Elem "length" [Chars len]; Elem "vts" [Chars ix]].
Definition document : list Node := [Elem "lsdvd" [track "1" "100"; track "2" "40"; Elem "longest_track" [Chars "1"]]].
#[export] Instance reader : XmlReader := λ _, Ok <$> flat_map events_of document.
#[export] Instance stream : JsonStream := λ _, Some (Object []).
#[export] Instance shown : ShowF64 := fmt0.
#[export] Instance serialized A : Serialize A := λ _, "{}".
Definition run : World * Result Summary Error :=
  @run_encode Work.Reference.tools Json.Reference.serde Encode.Reference.scheduler reader stream shown
    (serialized _) (serialized _) (serialized _) (serialized _)
    Encode.Reference.work None false true default_settings 10 "Film" (Encode.Reference.world []).
End Reference.

Lemma run_encode_spec_witness :
  ∃ sum, Reference.run.2 = Ok sum ∧ t_output <$> sm_titles sum = [Some "encodes/1.mkv"; Some "encodes/2.mkv"] ∧ features_kept sum.
Proof.
  assert (∀ w' sum, Reference.run = (w', Ok sum) → features_kept sum) as Hspec.
  { intros w' sum. eapply (@run_encode_spec Work.Reference.tools Json.Reference.serde Encode.Reference.scheduler Encode.Reference.scheduler_laws Reference.reader Reference.stream).
    intros raw disc Hd. unfold to_json in Hd. change (read_events _) with (@Ok Event string <$> flat_map events_of Reference.document) in Hd.
    vm_compute in Hd. injection Hd as <-. refine (bool_decide_unpack _ _); vm_compute; exact I. }
  assert ((match (Reference.run).2 with Ok s => Some (t_output <$> sm_titles s) | Err _ => None end)
      = Some [Some "encodes/1.mkv"; Some "encodes/2.mkv"]) as Ht by (vm_compute; reflexivity).
  revert Hspec Ht. generalize Reference.run. intros [w' [sum|e]] Hspec Ht; [|discriminate Ht].
  exists sum. split; [reflexivity|]. split; [by injection Ht|by eapply Hspec].
Defined.
