(* ===== verification/Backup.v ===== *)
(** * Backing up a disc ([apps/dvdrip/src/backup.rs])

    [backup] makes a decrypted image of the disc in the drive: with MakeMKV; by ddrescue when MakeMKV
    meets a medium error; by dvdbackup when MakeMKV cannot do it; by a raw ddrescue image as the last
    resort. [resume_rescue] continues a rescue whose image is in staging. A tool that the program
    watches while it runs (dvdbackup, under guards) shows its states through the class [Watched]: the
    files at each look, five seconds apart. A hard link is a copy here: nothing writes to the linked
    image before the link is removed. *)

From Stdlib Require Import Ascii.
From stdpp Require Import options.
From S2P Require Import Prelude Text F64 Json State Host Classify Crd Makemkv Work Encode.

Record Limits : Type := mkLimits { l_rescue : N; l_trim : N; max_read_errors : nat; max_mirror_mb : N }.
Definition default_limits : Limits := mkLimits (60 * 60) (15 * 60) 3 12000.
Record Outcome : Type := mkOutcome { o_method : string; o_read_errors : N; o_damage : option Damage }.
Record Staging : Type := mkStaging { sg_dir : string; device : string; sg_label : string }.
Definition master (st : Staging) : string := path_join (sg_dir st) "master.iso".
Definition raw (st : Staging) : string := path_join (sg_dir st) "raw.iso".
Definition map_ (st : Staging) : string := path_join (sg_dir st) "raw.map".
Definition log (st : Staging) (n : string) : string := path_join (path_join (sg_dir st) "logs") n.
Definition mirror (st : Staging) : string := path_join (sg_dir st) "mirror".

(** ** ddrescuelog's summary *)

Record RescueStats : Type := mkStats { percent : option f64; missing : N; non_tried : N }.
Definition unit_factor (u : string) : f64 :=
  if bool_decide (u = "kB") then f64_of_Z 1000 else if bool_decide (u = "MB") then f64_of_Z 1000000
  else if bool_decide (u = "GB") then f64_of_Z 1000000000 else f64_of_Z 1.
Definition is_char (c a : ascii) : bool := bool_decide (a = c).
Definition size_of (rest : string) : f64 :=
  let words := split_whitespace rest in
  let n := default f64_zero (head words ≫= parse_f64) in
  let unit := match words !! 1 with Some u => trim_end_matches (is_char ",") u | None => "B" end in
  (n * unit_factor unit)%f64.
Definition percent_of (rest : string) : option f64 :=
  '(_, p) ← rsplit_once "(" rest;
  parse_f64 (trim (trim_end_matches (is_char "%") (trim_end_matches (is_char ")") (trim p)))).
Definition stats_line (acc : option f64 * f64 * f64) (l : string) : option f64 * f64 * f64 :=
  let '(pct, missing, non_tried) := acc in
  match split_once ":" (trim l) with
  | None => acc
  | Some (key, rest) =>
      if bool_decide (key = "rescued") then (percent_of rest, missing, non_tried)
      else if bool_decide (key = "non-tried") then (pct, missing + size_of rest, non_tried + size_of rest)%f64
      else if bool_decide (key ∈ ["non-trimmed"; "non-scraped"; "bad-sector"]) then (pct, (missing + size_of rest)%f64, non_tried)
      else acc
  end.
Definition rescue_stats (t : string) : RescueStats :=
  let '(pct, missing, non_tried) := fold_left stats_line (lines t) (None, f64_zero, f64_zero) in
  mkStats pct (as_u64 (f64_round missing)) (as_u64 (f64_round non_tried)).

(** ** The steps *)

(** The files at each look at a running tool. *)
Class Watched : Type := looks : nat → Files → list string → string → list Files.

Definition is_dir (fs : Files) (d : string) : bool := existsb (λ kv : string * string, below d kv.1) (map_to_list fs).
Definition dir_size (fs : Files) (d : string) : N :=
  fold_left (λ n (kv : string * string), if below d kv.1 then (n + N.of_nat (String.length kv.2))%N else n) (map_to_list fs) 0%N.
Definition reading_errors (fs : Files) (logfile : string) : nat :=
  length (List.filter (starts_with "Error reading") (lines (default "" (fs !! logfile)))).

Section backup.
Context `{Tools, Watched}.

Definition lsdvd_ok (iso : string) : M bool :=
  r ← ok (stdout ["lsdvd"; iso] None false); mret match r with Some _ => true | None => false end.
Definition readable (iso makemkv_log : string) (raw : bool) : M bool :=
  l ← lsdvd_ok iso;
  if (l : bool) then mret true
  else
    text ← ok (read_to_string makemkv_log);
    let done := backup_done (default "" text) in
    tree ← stdout_or_empty ["isoinfo"; "-l"; "-i"; iso];
    mret ((done && contains "VIDEO_TS" tree) || (raw && contains "VIDEO_TS.IFO" tree)).

(** dvdbackup, stopped when a look shows too many read errors or too big a mirror. *)
Definition violation (l : Limits) (st : Staging) (logfile : string) (fs : Files) : option string :=
  if (max_mirror_mb l <? dir_size fs (mirror st) / 1000000)%N
  then Some ("dvdbackup copy passed " +:+ pretty (max_mirror_mb l) +:+ " MB, more than a DVD holds: structure-protected disc (needs MakeMKV)")
  else if (max_read_errors l <=? reading_errors fs logfile)%nat
  then Some (pretty (N.of_nat (reading_errors fs logfile)) +:+ " read errors while copying with dvdbackup; clean or resurface the disc and reinsert it")
  else None.
Fixpoint first_violation (l : Limits) (st : Staging) (logfile : string) (seen : list Files) : option (Files * string) :=
  match seen with
  | [] => None
  | fs :: seen => match violation l st logfile fs with Some why => Some (fs, why) | None => first_violation l st logfile seen end
  end.
Definition set_files (fs : Files) : M () := modify (λ w, mkWorld fs (S (w_step w))).
(** The tool's error status is not looked at. *)
Definition dvdbackup_end (stopped : option (Files * string)) (args : list string) (logfile : string) (st : Staging) : M () :=
  match stopped with
  | Some (fs, why) => _ ← set_files fs; _ ← ok (remove_dir_all (mirror st)); throw [why]
  | None => o ← spawn None args; append logfile (o_stdout o +:+ o_stderr o)
  end.
Definition dvdbackup (args : list string) (logfile : string) (st : Staging) (guards : option Limits) : M () :=
  stopped ← gets (λ w, l ← guards; first_violation l st logfile (looks (w_step w) (w_files w) args logfile));
  dvdbackup_end stopped args logfile st.
Definition mirror_to_iso (st : Staging) (src logfile : string) (guards : option Limits) : M () :=
  _ ← ok (remove_dir_all (mirror st));
  _ ← log_dir logfile; _ ← open_log logfile;
  _ ← dvdbackup ["dvdbackup"; "-M"; "-i"; src; "-o"; mirror st; "-n"; sg_label st] logfile st guards;
  let video := path_join (mirror st) (sg_label st) in
  d ← gets (λ w, is_dir (w_files w) (path_join video "VIDEO_TS"));
  if negb d then _ ← ok (remove_dir_all (mirror st)); throw ["dvdbackup produced no VIDEO_TS (see " +:+ logfile +:+ ")"]
  else
    r ← try (run_logged ["genisoimage"; "-quiet"; "-dvd-video"; "-V"; sg_label st; "-o"; master st; video] logfile);
    _ ← ok (remove_dir_all (mirror st));
    _ ← lift r;
    l ← lsdvd_ok (master st);
    if (l : bool) then mret () else throw ["genisoimage made an unreadable image"].
Definition dvdbackup_mirror (st : Staging) (limits : Limits) : M () :=
  mirror_to_iso st (device st) (log st "dvdbackup.log") (Some limits).

Definition decrypt_raw (st : Staging) : M () :=
  let iso := master st in
  _ ← ok (remove_file iso);
  let logfile := log st "decrypt.log" in
  _ ← status_logged ["makemkvcon"; "-r"; "--noscan"; "backup"; "--decrypt"; "iso:" +:+ raw st; iso] logfile None;
  text ← ok (read_to_string logfile);
  good ← (if backup_failed (default "" text) then mret false else readable iso logfile false);
  if (good : bool) then mret ()
  else _ ← ok (remove_file iso); mirror_to_iso st (raw st) logfile None.

(** A budget that ran out, or an error status, is only logged. *)
Definition ddrescue (st : Staging) (args : list string) (budget : N) : M () :=
  drop_ (status_logged (["ddrescue"; "-d"; "-b"; "2048"] ++ args ++ [device st; raw st; map_ st]) (log st "ddrescue.log") (Some budget)).
Definition map_summary (st : Staging) : M string := stdout ["ddrescuelog"; "-t"; map_ st] None true.
Definition ensure_all_tried (st : Staging) : M () :=
  t ← map_summary st;
  let s := rescue_stats t in
  if (0 <? non_tried s)%N
  then throw ["rescue stopped at " +:+ fmt1 (default f64_zero (percent s)) +:+ "% with " +:+ pretty (non_tried s / 1000000)%N
              +:+ " MB never read (time limit, DVDRIP_RESCUE_MINUTES; a dirty disc reads slowly: clean it and reinsert, the read continues where it stopped)"]
  else mret ().
Definition record_rescue (st : Staging) : M (option Damage) :=
  t ← map_summary st;
  let s := rescue_stats t in
  if (missing s =? 0)%N then _ ← ok (remove_file (raw st)); mret None
  else mret (Some (mkDamage (default f64_zero (percent s)) (missing s) true)).
(** [hard_link], else a copy *)
Definition link_or_copy (a b : string) : M () :=
  r ← try (c ← read_to_string a; disk_op b (λ r fs, match r with Whole => <[b := c]> fs | _ => fs end));
  match r with Ok _ => mret () | Err _ => c ← read_to_string a; write b c end.
Definition master_from_raw (st : Staging) : M () :=
  r ← try (decrypt_raw st);
  _ ← match r with
      | Ok _ => mret ()
      | Err _ => _ ← ok (remove_file (master st)); link_or_copy (raw st) (master st)
      end;
  good ← readable (master st) (log st "decrypt.log") true;
  if (good : bool) then mret () else throw ["raw image isn't a readable DVD (no VIDEO_TS.IFO, or lsdvd failed)"].
Definition from_raw (st : Staging) (method : string) : M Outcome :=
  _ ← ensure_all_tried st;
  _ ← master_from_raw st;
  d ← record_rescue st;
  mret (mkOutcome method 0 d).
Definition read_something (st : Staging) : M () :=
  b ← non_empty (raw st); if (b : bool) then mret () else throw ["ddrescue read nothing"].
Definition rescue (st : Staging) (limits : Limits) : M Outcome :=
  _ ← ddrescue st ["-n"] (l_rescue limits);
  _ ← ddrescue st ["-r1"] (l_trim limits);
  _ ← read_something st;
  from_raw st "rescue".
Definition raw_image (st : Staging) (limits : Limits) : M Outcome :=
  _ ← ok (remove_file (master st));
  _ ← ddrescue st ["-n"] (l_rescue limits);
  _ ← read_something st;
  from_raw st "raw".
Definition resume_rescue (st : Staging) (limits : Limits) : M Outcome :=
  _ ← ok (status_logged ["dvdbackup"; "-I"; "-i"; device st] (log st "ddrescue.log") (Some 120%N));
  _ ← ddrescue st ["-r1"] (l_rescue limits);
  from_raw st "rescue".

(** MakeMKV's output, without the progress lines. *)
Definition log_lines (out : string) : string :=
  fold_right (λ l acc, match Makemkv.progress l with Some _ => acc | None => l +:+ String newline acc end) "" (lines out).
Definition makemkv_backup (src iso log_path : string) : M string :=
  o ← spawn None ["makemkvcon"; "-r"; "--noscan"; "--progress=-stdout"; "backup"; "--decrypt"; src; iso];
  let text := log_lines (o_stdout o) in
  _ ← log_dir log_path;
  _ ← write log_path text;
  mret text.

(** [forced]: DVD_BACKUP_METHOD is dvdbackup. *)
Definition find_drive (st : Staging) (forced : bool) : M (option string) :=
  if forced || negb (starts_with "/dev/" (device st)) then mret None
  else
    info ← stdout_or_empty ["makemkvcon"; "-r"; "info"; "disc:9999"];
    mret ((λ i, "disc:" +:+ pretty i) <$> drive_index info (device st)).
Definition copy_disc (st : Staging) (limits : Limits) (forced : bool) (idx : option string) (text : string) : M Outcome :=
  let errors := Makemkv.read_errors text in
  if backup_failed text && medium_error text then rescue st limits
  else if bool_decide (idx = None) || forced || backup_failed text || contains "too old" text then
    r ← try (dvdbackup_mirror st limits);
    match r with
    | Ok _ => mret (mkOutcome "dvdbackup" errors None)
    | Err _ => with_context "backup failed (MakeMKV, dvdbackup and raw imaging)" (raw_image st limits)
    end
  else mret (mkOutcome "makemkv" errors None).
Definition from_ddrescue (o : Outcome) : bool := bool_decide (o_method o ∈ ["rescue"; "raw"]).
Definition backup (st : Staging) (limits : Limits) (forced : bool) : M Outcome :=
  _ ← create_dir_all (path_join (sg_dir st) "logs");
  let iso := master st in
  _ ← ok (remove_file iso);
  idx ← find_drive st forced;
  let log_path := log st "backup.log" in
  text ← match idx with Some src => makemkv_backup src iso log_path | None => mret "" end;
  o ← copy_disc st limits forced idx text;
  good ← readable iso log_path (from_ddrescue o);
  if (good : bool) then mret o else throw ["the backup is not a readable DVD image (see logs/backup.log)"].
End backup.

(** ** The source's own test *)

Definition rescued_text : string :=
  join (String newline "")
   ["current pos:     4294 MB,  current status: finished"; "    domain size:     7411 MB,  in    1 area(s)";
    "        rescued:     6705 MB,  in   87 area(s)  ( 90.47%)"; "      non-tried:         0 B,  in    0 area(s)  (  0%)"; "";
    "  errsize:  705 MB, errors: 86  (  9.52%)"; "    non-trimmed:     2048 B,  in    1 area(s)  (  0%)";
    "    non-scraped:   700 MB,  in   85 area(s)  (  9.45%)"; "     bad-sector:    5 kB,  in    2 area(s)  (  0%)"; ""].
Definition cut_text : string :=
  join (String newline "") ["rescued:  4364 MB,  in 141 area(s)  ( 62.65%)"; " non-tried:  2567 MB,  in 1 area(s)  ( 36.8%)"; " non-trimmed: 34209 kB, in 3 area(s) (0.5%)"].
Example parses_ddrescuelog :
  rescue_stats rescued_text = mkStats (parse_f64 "90.47") 700007048 0 ∧
  rescue_stats (join (String newline "") ["rescued: 100 MB, in 1 area(s) (100%)"; "non-tried: 0 B, in 0 area(s) (0%)"]) = mkStats (Some (f64_of_Z 100)) 0 0 ∧
  rescue_stats cut_text = mkStats (parse_f64 "62.65") 2601209000 2567000000.
Proof. vm_compute. done. Qed.

(** ** What a summary says was not read *)

Definition unread_classes : list string := ["non-tried"; "non-trimmed"; "non-scraped"; "bad-sector"].
(** A line for a class that was not read gives this size, in some unit. *)
Definition sized (l size : string) : Prop :=
  ∃ key rest, split_once ":" (trim l) = Some (key, rest) ∧ key ∈ unread_classes ∧ head (split_whitespace rest) = Some size.
(** When the sizes are whole numbers, as ddrescuelog prints them, every one of them is zero. *)
Definition nothing_unread (text : string) : Prop :=
  (∀ l size, l ∈ lines text → sized l size → ∃ n : N, size = pretty n) → ∀ l (n : N), l ∈ lines text → sized l (pretty n) → n = 0%N.

Lemma unit_factor_one u : at_least_one (unit_factor u).
Proof. unfold unit_factor. repeat case_bool_decide; vm_compute; done. Qed.
Lemma size_of_cases rest : (∀ size, head (split_whitespace rest) = Some size → ∃ n : N, size = pretty n) →
  not_negative (size_of rest) ∧ ∀ n : N, head (split_whitespace rest) = Some (pretty n) → n ≠ 0%N → at_least_one (size_of rest).
Proof.
  intros Hs. unfold size_of. set (u := match _ !! 1 with Some _ => _ | None => _ end). pose proof (unit_factor_one u) as Hu.
  assert (not_negative (f64_zero * unit_factor u)%f64) as Hz by (unfold unit_factor; repeat case_bool_decide; vm_compute; done).
  destruct (head (split_whitespace rest)) as [size|]; [|by split]. destruct (Hs size eq_refl) as [k ->]. cbn [mbind option_bind].
  rewrite parse_f64_pretty. change (default f64_zero (Some ?x)) with x. destruct (f64_of_N_cases k) as [[-> ->]|Hk].
  - split; [exact Hz|]. intros n E Hn. apply (inj Some), (inj pretty) in E. by subst.
  - split; [apply at_least_not_negative|intros ? _ _]; by apply f64_mul_one.
Qed.
Lemma stats_line_missing acc l : (stats_line acc l).1.2 =
  match split_once ":" (trim l) with
  | Some (key, rest) => if bool_decide (key ∈ unread_classes) then (acc.1.2 + size_of rest)%f64 else acc.1.2
  | None => acc.1.2
  end.
Proof.
  destruct acc as [[pct m] n]. unfold stats_line, unread_classes. destruct (split_once ":" (trim l)) as [[key rest]|]; [|done].
  destruct (decide (key = "rescued")) as [->|]; [done|]. rewrite (bool_decide_eq_false_2 (key = "rescued")) by done.
  destruct (decide (key = "non-tried")) as [->|]; [done|]. rewrite (bool_decide_eq_false_2 (key = "non-tried")) by done.
  destruct (decide (key ∈ ["non-trimmed"; "non-scraped"; "bad-sector"])) as [Hk|Hk].
  - rewrite !bool_decide_eq_true_2; [done|set_solver|done].
  - rewrite !bool_decide_eq_false_2; [done|set_solver|done].
Qed.
(** A line adds nothing negative, and a size above zero makes the sum at least one. *)
Lemma stats_line_adds acc l : (∀ size, sized l size → ∃ n : N, size = pretty n) → not_negative acc.1.2 →
  not_negative (stats_line acc l).1.2 ∧
  (at_least_one acc.1.2 ∨ (∃ n : N, sized l (pretty n) ∧ n ≠ 0%N) → at_least_one (stats_line acc l).1.2).
Proof.
  intros Hw Hacc. rewrite stats_line_missing. unfold sized in *. destruct (split_once ":" (trim l)) as [[key rest]|].
  - case_bool_decide as Hk.
    + destruct (size_of_cases rest) as [Hn Ho]; [intros size Hh; apply Hw; by exists key, rest|]. split; [by apply f64_add_not_negative|].
      intros [Ha|(n & (? & ? & [= <- <-] & _ & Hh) & H0)]; [by apply f64_add_one|]. apply f64_add_comm_one; [done|by apply (Ho n)].
    + split; [done|]. intros [Ha|(n & (? & ? & [= <- <-] & ? & _) & _)]; done.
  - split; [done|]. by intros [Ha|(n & (? & ? & ? & _) & _)].
Qed.
Lemma stats_lines_add ls acc : (∀ l size, l ∈ ls → sized l size → ∃ n : N, size = pretty n) → not_negative acc.1.2 →
  not_negative (fold_left stats_line ls acc).1.2 ∧
  (at_least_one acc.1.2 ∨ (∃ l (n : N), l ∈ ls ∧ sized l (pretty n) ∧ n ≠ 0%N) → at_least_one (fold_left stats_line ls acc).1.2).
Proof.
  revert acc. induction ls as [|l ls IH]; intros acc Hw Hacc; cbn [fold_left].
  { split; [done|]. by intros [?|(? & ? & Hc%not_elem_of_nil & _)]. }
  destruct (stats_line_adds acc l) as [Hn Ho]; [by intros size; apply Hw; left|done|].
  destruct (IH (stats_line acc l)) as [Hn' Ho']; [by intros l' size Hl'; apply Hw; right|done|]. split; [done|].
  intros [Ha|(l' & n & [->|Hl']%elem_of_cons & Hs & H0)]; apply Ho'; [left; auto|left; apply Ho; right; by exists n|right; by exists l', n].
Qed.
Lemma missing_zero text : missing (rescue_stats text) = 0%N → nothing_unread text.
Proof.
  intros Hm Hw l n Hl Hs. destruct (decide (n = 0%N)) as [|H0]; [done|]. exfalso.
  destruct (stats_lines_add (lines text) (None, f64_zero, f64_zero) Hw) as [_ Ho]; [done|].
  revert Hm Ho. unfold rescue_stats. destruct (fold_left _ _ _) as [[pct m] nt]. cbn [fst snd missing]. intros Hm Ho.
  apply (as_u64_one m); [apply Ho; right; by exists l, n|done].
Qed.

(** ** A rescue's image is kept while anything is missing *)

Class BackupLaws `{Tools, Watched} : Prop := {
  backup_tools :: ToolsLaws;
  (** A look shows what the tool may have changed, and its log. *)
  looks_frame n fs args logfile fs' p : fs' ∈ looks n fs args logfile → writes args p = false → p ≠ logfile → fs' !! p = fs !! p;
  (** ddrescue removes no file. *)
  ddrescue_keeps n fs limit args p : is_Some (fs !! p) → is_Some ((tool_run n fs limit ("ddrescue" :: args)).1 !! p);
}.

(** Files apart from what the steps write in staging. *)
Record apart (st : Staging) (P : string → Prop) : Prop := {
  apart_abs p : P p → ∃ o, p = String slash o;
  apart_master : ¬ P (master st);
  apart_log n : ¬ P (log st n);
  apart_mirror p : P p → below (mirror st) p = false;
  apart_under p : P p → below (master st) p = false;
}.

Section frames.
#[local] Set Default Proof Using "Type*".
Context `{BackupLaws} (st : Staging) (P : string → Prop) (HP : apart st P).
Notation R := (same P).

Lemma below_rel a b p : a ≠ slash → P p → below (String a b) p = false.
Proof. intros Ha [o ->]%(apart_abs _ _ HP). by apply (starts_with_ne a slash (b +:+ "/") o). Qed.
Lemma rel_not_P a b p : a ≠ slash → P p → String a b ≠ p.
Proof. intros Ha [o ->]%(apart_abs _ _ HP). congruence. Qed.

Lemma writes_makemkv_iso args p : last args = Some (master st) → P p → writes ("makemkvcon" :: args) p = false.
Proof.
  intros El Hp. cbn -[below]. rewrite El. apply orb_false_iff. split; [|by apply (apart_under _ _ HP)].
  apply bool_decide_eq_false_2. intros [= <-]. by apply (apart_master _ _ HP).
Qed.
Lemma writes_makemkv_rel args a b p : a ≠ slash → last args = Some (String a b) → P p → writes ("makemkvcon" :: args) p = false.
Proof.
  intros Ha El Hp. cbn -[below]. rewrite El. apply orb_false_iff. split; [|by apply below_rel].
  apply bool_decide_eq_false_2. intros [= E]. by apply (rel_not_P a b p).
Qed.
Lemma writes_mirror src label p : P p → writes ["dvdbackup"; "-M"; "-i"; src; "-o"; mirror st; "-n"; label] p = false.
Proof.
  intros Hp. assert (word_after "-o" ["-M"; "-i"; src; "-o"; mirror st; "-n"; label] = Some (if bool_decide (src = "-o") then "-o" else mirror st)) as E.
  { cbn -[mirror]. rewrite (bool_decide_eq_false_2 ("-M" = "-o")), (bool_decide_eq_false_2 ("-i" = "-o")), (bool_decide_eq_true_2 ("-o" = "-o")) by done.
    by destruct (bool_decide (src = "-o")). }
  cbn -[below mirror word_after]. rewrite E. destruct (bool_decide (src = "-o")); [by apply below_rel|by apply (apart_mirror _ _ HP)].
Qed.
Lemma writes_iso label video p : P p → writes ["genisoimage"; "-quiet"; "-dvd-video"; "-V"; label; "-o"; master st; video] p = false.
Proof.
  intros Hp. assert (word_after "-o" ["-quiet"; "-dvd-video"; "-V"; label; "-o"; master st; video] = Some (if bool_decide (label = "-o") then "-o" else master st)) as Ew.
  { cbn -[master]. rewrite (bool_decide_eq_false_2 ("-quiet" = "-o")), (bool_decide_eq_false_2 ("-dvd-video" = "-o")),
      (bool_decide_eq_false_2 ("-V" = "-o")), (bool_decide_eq_true_2 ("-o" = "-o")) by done. by destruct (bool_decide (label = "-o")). }
  cbn -[master word_after]. rewrite Ew. destruct (bool_decide (label = "-o")); apply bool_decide_eq_false_2; intros [= E].
  - by apply (rel_not_P "-" "o" p).
  - subst p. by apply (apart_master _ _ HP) in Hp.
Qed.

Lemma steps_lsdvd iso : steps R (lsdvd_ok iso).
Proof. unfold lsdvd_ok. same_through. by apply steps_stdout. Qed.
Lemma steps_readable iso l b : steps R (readable iso l b).
Proof. unfold readable. same_through; [apply steps_lsdvd|by apply steps_stdout]. Qed.
Lemma first_violation_in l logfile seen fs why : first_violation l st logfile seen = Some (fs, why) → fs ∈ seen.
Proof.
  induction seen as [|f seen IH]; cbn; [done|]. destruct (violation l st logfile f); [intros [= <- _]; left|].
  intros ?. right. by apply IH.
Qed.
Lemma steps_dvdbackup args n guards : (∀ p, P p → writes args p = false) → steps R (dvdbackup args (log st n) st guards).
Proof.
  intros Ha w p Hp.
  change (w_files (dvdbackup_end (guards ≫= λ l, first_violation l st (log st n) (looks (w_step w) (w_files w) args (log st n))) args (log st n) st w).1 !! p
    = w_files w !! p).
  destruct (guards ≫= λ l, first_violation l st (log st n) (looks (w_step w) (w_files w) args (log st n))) as [[fs why]|] eqn:E; unfold dvdbackup_end.
  - destruct guards as [l|]; [|done]. cbn in E. apply first_violation_in in E.
    assert (steps R (_ ← ok (remove_dir_all (mirror st)); throw (A := ()) [why])) as Hs.
    { same_through. apply steps_remove_dir. intros q Hq. by apply (apart_mirror _ _ HP). }
    transitivity (fs !! p); [exact (Hs (mkWorld fs (S (w_step w))) p Hp)|].
    apply (looks_frame _ _ _ _ _ _ E); [by apply Ha|]. intros ->. by apply (apart_log _ _ HP) in Hp.
  - assert (steps R (o ← spawn None args; append (log st n) (o_stdout o +:+ o_stderr o))) as Hs; [|exact (Hs w p Hp)].
    same_through; [by apply steps_spawn|]. apply steps_append, (apart_log _ _ HP).
Qed.
Lemma steps_mirror src n guards : steps R (mirror_to_iso st src (log st n) guards).
Proof.
  assert (∀ p, P p → below (mirror st) p = false) as Hm by (intros p Hp; by apply (apart_mirror _ _ HP)).
  unfold mirror_to_iso. same_through; try (by apply steps_remove_dir).
  - apply steps_log_dir.
  - apply steps_open_log, (apart_log _ _ HP).
  - apply steps_dvdbackup. intros p Hp. by apply writes_mirror.
  - apply steps_run_logged; [apply (apart_log _ _ HP)|]. intros p Hp. by apply writes_iso.
  - apply steps_lsdvd.
Qed.
Lemma steps_decrypt : steps R (decrypt_raw st).
Proof.
  assert (¬ P (master st)) as Hm by (by apply (apart_master _ _ HP)).
  unfold decrypt_raw. same_through; try (by apply steps_remove_file).
  - apply steps_status; [apply (apart_log _ _ HP)|]. intros p Hp. by apply writes_makemkv_iso.
  - apply steps_readable.
  - apply steps_mirror.
Qed.
Lemma steps_master : steps R (master_from_raw st).
Proof.
  assert (¬ P (master st)) as Hm by (by apply (apart_master _ _ HP)).
  unfold master_from_raw, link_or_copy. same_through.
  - apply steps_decrypt.
  - by apply steps_remove_file.
  - apply steps_disk_op. intros [] fs p Hp; try done. rewrite lookup_insert_ne; [done|]. by intros <-.
  - by apply steps_write_file.
  - apply steps_readable.
Qed.
End frames.

Section rescue_kept.
#[local] Set Default Proof Using "Type*".
Context `{BackupLaws} (st : Staging) (d : string) (Hdir : sg_dir st = "/" +:+ d).
Notation P := (λ p, p = raw st ∨ p = map_ st).
Notation R := (same P).

(** What ddrescuelog prints of the map gives nothing that was not read. *)
Definition complete (w : World) : Prop :=
  ∃ n fs o, fs !! map_ st = w_files w !! map_ st ∧
    (tool_run n fs None ["ddrescuelog"; "-t"; map_ st]).2 = Some o ∧ nothing_unread (o_stdout o).
Definition images (w : World) : Prop := is_Some (w_files w !! raw st) ∧ is_Some (w_files w !! map_ st).
Definition resumable (w : World) : Prop := is_Some (w_files w !! map_ st) ∧ (is_Some (w_files w !! raw st) ∨ complete w).
Lemma images_resumable w : images w → resumable w.
Proof. intros [? ?]. split; [done|by left]. Qed.

Lemma name_ne a b : a ≠ b → path_join (sg_dir st) a ≠ path_join (sg_dir st) b.
Proof. intros Hne E. apply Hne. unfold path_join in E. by do 2 apply str_app_inv_l in E. Qed.
Lemma P_name p : P p → ∃ b, p = path_join (sg_dir st) (String "r" b).
Proof. intros [->| ->]; [exists "aw.iso"|exists "aw.map"]; reflexivity. Qed.
Lemma P_abs p : P p → ∃ o, p = String slash o.
Proof. intros [b ->]%P_name. exists (d +:+ "/" +:+ String "r" b). unfold path_join. rewrite Hdir. reflexivity. Qed.
Lemma log_not_P n : ¬ P (log st n).
Proof.
  intros [b E]%P_name. unfold log, path_join in E. rewrite <- !str_app_assoc in E. by do 2 apply str_app_inv_l in E.
Qed.
Lemma other_not_P a b : a ≠ "r"%char → ¬ P (path_join (sg_dir st) (String a b)).
Proof. intros Ha [b' E]%P_name. unfold path_join in E. do 2 apply str_app_inv_l in E. congruence. Qed.
Lemma below_other a b p : a ≠ "r"%char → P p → below (path_join (sg_dir st) (String a b)) p = false.
Proof.
  intros Ha [b' ->]%P_name. unfold below, path_join. rewrite <- !str_app_assoc, !starts_with_app.
  by apply (starts_with_ne a "r" (b +:+ "/") b').
Qed.
Lemma images_apart : apart st P.
Proof.
  split; [apply P_abs|by apply other_not_P|apply log_not_P|intros p Hp; by apply below_other..].
Qed.
#[local] Hint Resolve images_apart : core.

(** ** What a run leaves *)

Lemma same_images {A} (m : M A) w : steps R m → images w → wp m images (λ _, images) w.
Proof.
  intros Hm Hi. specialize (Hm w). unfold wp, images in *.
  destruct (m w) as [w' []]; cbn in Hm; rewrite (Hm (raw st)), (Hm (map_ st)) by auto; exact Hi.
Qed.
Lemma same_resumable {A} (m : M A) w : steps R m → resumable w → wp m resumable (λ _, resumable) w.
Proof.
  intros Hm Hi. specialize (Hm w). unfold wp, resumable, complete in *.
  destruct (m w) as [w' []]; cbn in Hm; rewrite (Hm (raw st)), (Hm (map_ st)) by auto; exact Hi.
Qed.
(** A step that keeps both images, before anything that ends resumable. *)
Lemma images_then {A B} (m : M A) (f : A → M B) Q w : wp m images (λ _, images) w →
  (∀ a w', images w' → wp (f a) resumable Q w') → wp (m ≫= f) resumable Q w.
Proof. intros Hm Hf. apply wp_bind. eapply wp_mono; [exact Hm|intros ?; apply images_resumable|exact Hf]. Qed.
Lemma ddrescue_images args budget w : images w → wp (ddrescue st args budget) images (λ _, images) w.
Proof.
  intros Hi. unfold ddrescue, drop_, status_logged. apply wp_bind. apply wp_bind.
  eapply wp_mono; [apply same_images; [apply steps_log_dir|exact Hi]|done|]. intros ? w1 H1'.
  apply wp_bind. eapply wp_mono; [apply same_images; [apply steps_open_log, log_not_P|exact H1']|done|]. intros ? w2 H2'.
  apply wp_bind. assert (wp (spawn (Some budget) (["ddrescue"; "-d"; "-b"; "2048"] ++ args ++ [device st; raw st; map_ st])) images (λ _, images) w2) as Hs.
  { destruct H2' as [Hr Hm]. unfold spawn, tick, wp, mbind, SE_bind.
    pose proof (ddrescue_keeps (w_step w2) (w_files w2) (Some budget) ("-d" :: "-b" :: "2048" :: args ++ [device st; raw st; map_ st]) (raw st) Hr) as Kr.
    pose proof (ddrescue_keeps (w_step w2) (w_files w2) (Some budget) ("-d" :: "-b" :: "2048" :: args ++ [device st; raw st; map_ st]) (map_ st) Hm) as Km.
    cbn [app]. destruct (tool_run _ _ _ _) as [fs [o|]]; by split. }
  eapply wp_mono; [exact Hs|done|]. intros o w3 H3'.
  apply wp_bind. eapply wp_mono; [apply same_images; [apply steps_append, log_not_P|exact H3']|done|]. intros ? w4 H4'.
  by do 2 apply wp_ret.
Qed.
Lemma map_summary_spec (w : World) : images w →
  wp (map_summary st) images (λ t w', images w' ∧ ∃ n fs o, fs !! map_ st = w_files w' !! map_ st ∧
    (tool_run n fs None ["ddrescuelog"; "-t"; map_ st]).2 = Some o ∧ t = o_stdout o) w.
Proof.
  intros Hi. assert (steps R (map_summary st)) as Hs by (apply steps_stdout; done).
  pose proof (same_images _ w Hs Hi) as Hw. apply wp_intro.
  - intros w' e Em. unfold wp in Hw. by rewrite Em in Hw.
  - intros w' t Em. split; [unfold wp in Hw; by rewrite Em in Hw|].
    unfold map_summary, stdout, spawn, tick, mbind, SE_bind, mret, SE_ret in Em. cbn in Em.
    destruct (tool_run _ _ _ _) as [fs [o|]] eqn:Et; [|done]. cbn in Em. rewrite andb_false_r in Em. injection Em as <- <-.
    exists (w_step w), (w_files w), o. rewrite Et. split_and!; [|done..]. symmetry.
    pose proof (tool_frame (w_step w) (w_files w) None ["ddrescuelog"; "-t"; map_ st] (map_ st)) as Hf. rewrite Et in Hf. by apply Hf.
Qed.
(** What is left when there is damage: the image to continue. *)
Definition left_over (o : Outcome) (w : World) : Prop := resumable w ∧ (∀ d, o_damage o = Some d → images w).
Lemma record_rescue_spec w : images w →
  wp (record_rescue st) resumable (λ d w', resumable w' ∧ ∀ x, d = Some x → images w') w.
Proof.
  intros Hi. unfold record_rescue. apply wp_bind. eapply wp_mono; [by apply map_summary_spec|intros ?; apply images_resumable|].
  intros t w1 [Hi1 (n & fs & o & Em & Eo & ->)]. destruct (N.eqb_spec (missing (rescue_stats (o_stdout o))) 0) as [E|E].
  - apply wp_bind.
    assert (∀ w', w' = (ok (remove_file (raw st)) w1).1 → resumable w') as Hrem.
    { intros w' ->. assert (raw st ≠ map_ st) by (by apply name_ne).
      assert (w_files (ok (remove_file (raw st)) w1).1 !! map_ st = w_files w1 !! map_ st) as Es.
      { unfold ok, remove_file. destruct (w_files w1 !! raw st), (stored (w_step w1) (raw st)); cbn; by rewrite ?lookup_delete_ne. }
      split; [rewrite Es; apply Hi1|]. right. exists n, fs, o. rewrite Es. split_and!; [done..|by apply missing_zero]. }
    unfold wp at 1. destruct (ok (remove_file (raw st)) w1) as [w' [u|e]] eqn:Er; [apply wp_ret|]; [split; [by apply Hrem|done]|by apply Hrem].
  - apply wp_ret. split; [by apply images_resumable|done].
Qed.
Lemma from_raw_spec m w : images w → wp (from_raw st m) resumable left_over w.
Proof.
  intros Hi. unfold from_raw. apply images_then; [apply same_images; [|done]|].
  { unfold ensure_all_tried, map_summary. same_through. by apply steps_stdout. }
  intros ? w1 Hi1. apply images_then; [by apply same_images; [apply steps_master|]|]. intros ? w2 Hi2.
  apply wp_bind. eapply wp_mono; [by apply record_rescue_spec|done|]. intros dmg w3 [Hr Hd]. apply wp_ret. by split.
Qed.
Lemma read_something_spec w : images w → wp (read_something st) images (λ _, images) w.
Proof. intros Hi. apply same_images; [|done]. unfold read_something. same_through. Qed.
Lemma rescue_spec limits w : images w → wp (rescue st limits) resumable left_over w.
Proof.
  intros Hi. unfold rescue. apply images_then; [by apply ddrescue_images|]. intros ? w1 H1'.
  apply images_then; [by apply ddrescue_images|]. intros ? w2 H2'.
  apply images_then; [by apply read_something_spec|]. intros ? w3 H3'. by apply from_raw_spec.
Qed.
Lemma master_not_P : ¬ P (master st).
Proof. by apply other_not_P. Qed.
Lemma raw_image_spec limits w : images w → wp (raw_image st limits) resumable left_over w.
Proof.
  intros Hi. unfold raw_image. apply images_then; [apply same_images; [|done]; apply same_ok, steps_remove_file, master_not_P|].
  intros ? w1 H1'. apply images_then; [by apply ddrescue_images|]. intros ? w2 H2'.
  apply images_then; [by apply read_something_spec|]. intros ? w3 H3'. by apply from_raw_spec.
Qed.
Lemma wp_context_ {A} ctx (m : M A) E Q w : wp m E Q w → wp (with_context ctx m) E Q w.
Proof. unfold wp, with_context. by destruct (m w) as [w' []]. Qed.
Lemma copy_disc_spec limits forced idx text w : images w → wp (copy_disc st limits forced idx text) resumable left_over w.
Proof.
  intros Hi. unfold copy_disc. destruct (_ && _); [by apply rescue_spec|]. destruct (_ || _).
  - apply images_then; [apply same_images; [apply same_try, (steps_mirror _ _ images_apart)|done]|]. intros [u|e] w1 H1'.
    + apply wp_ret. split; [by apply images_resumable|done].
    + apply wp_context_. by apply raw_image_spec.
  - apply wp_ret. split; [by apply images_resumable|done].
Qed.
Lemma same_left {A} (m : M A) o w : steps R m → left_over o w → wp m resumable (λ _, left_over o) w.
Proof.
  intros Hm [Hr Hd]. apply wp_intro.
  - intros w' e Em. pose proof (same_resumable m w Hm Hr) as Hw. unfold wp in Hw. by rewrite Em in Hw.
  - intros w' a Em. split.
    + pose proof (same_resumable m w Hm Hr) as Hw. unfold wp in Hw. by rewrite Em in Hw.
    + intros x Hx. pose proof (same_images m w Hm (Hd x Hx)) as Hw. unfold wp in Hw. by rewrite Em in Hw.
Qed.
Lemma backup_spec_wp limits forced w : images w → wp (backup st limits forced) resumable left_over w.
Proof.
  intros Hi. unfold backup. apply images_then; [by apply same_images; [apply steps_create_dir|]|]. intros ? w1 H1'.
  apply images_then; [apply same_images; [|done]; apply same_ok, steps_remove_file, master_not_P|]. intros ? w2 H2'.
  apply images_then.
  { apply same_images; [|done]. unfold find_drive. same_through. apply steps_stdout; [done|]. intros p Hp. by eapply (writes_makemkv_rel _ _ images_apart _ "d"). }
  intros idx w3 H3'. apply images_then.
  { apply same_images; [|done]. unfold makemkv_backup. same_through; [|apply steps_log_dir|apply steps_write_file, log_not_P].
    apply steps_spawn. intros p Hp. by apply (writes_makemkv_iso _ _ images_apart). }
  intros text w4 H4'. apply wp_bind. eapply wp_mono; [by apply copy_disc_spec|done|]. intros o w5 Ho.
  apply wp_bind. eapply wp_mono; [by apply same_left; [apply (steps_readable _ _ images_apart)|]|done|]. intros [] w6 Ho6; [by apply wp_ret|].
  apply wp_throw, Ho6.
Qed.
Lemma resume_spec_wp limits w : images w → wp (resume_rescue st limits) resumable left_over w.
Proof.
  intros Hi. unfold resume_rescue. apply images_then; [apply same_images; [|done]; apply same_ok, steps_status; [apply log_not_P|]|].
  { intros p Hp. cbn. done. }
  intros ? w2 H2'. apply images_then; [by apply ddrescue_images|]. intros ? w3 H3'. by apply from_raw_spec.
Qed.
End rescue_kept.

(** C21: Once a disc's raw image and its rescue map are in staging, a backup or a resumed rescue leaves
    something to go on from, however it ends: the map stays, and the image stays unless ddrescuelog, run on
    that map, printed no class of unread sectors with a size above zero (its sizes being whole numbers; a
    ddrescuelog that fails without printing counts as such, [failed_summary_drops_image]); and when the disc
    comes out damaged, the image and the map are both there for the next rescue. *)
Theorem rescue_resumable `{BackupLaws} st d limits forced w :
  sg_dir st = "/" +:+ d → images st w →
  Forall (λ m : M Outcome,
    let '(w', r) := m w in
    is_Some (w_files w' !! map_ st) ∧ (is_Some (w_files w' !! raw st) ∨ complete st w') ∧
    ∀ o x, r = Ok o → o_damage o = Some x → is_Some (w_files w' !! raw st) ∧ is_Some (w_files w' !! map_ st))
    [backup st limits forced; resume_rescue st limits].
Proof.
  intros Hd Hi. pose proof (backup_spec_wp st d Hd limits forced w Hi) as Hb. pose proof (resume_spec_wp st d Hd limits w Hi) as Hr.
  repeat constructor.
  - unfold wp in Hb. destruct (backup st limits forced w) as [w' [o|e]]; [destruct Hb as [[Hm Hc] Hx]|destruct Hb as [Hm Hc]]; split_and!; try done.
    intros ? x [= <-] Ex. by apply Hx with x.
  - unfold wp in Hr. destruct (resume_rescue st limits w) as [w' [o|e]]; [destruct Hr as [[Hm Hc] Hx]|destruct Hr as [Hm Hc]]; split_and!; try done.
    intros ? x [= <-] Ex. by apply Hx with x.
Qed.

(** ** Everything happens in staging *)

Section inside.
#[local] Set Default Proof Using "Type*".
Context `{BackupLaws} (st : Staging).
(** An absolute path, not in staging, and not the drive. *)
Definition outside (p : string) : Prop := (∃ o, p = String slash o) ∧ below (sg_dir st) p = false ∧ p ≠ device st.
Notation R := (same outside).

Lemma below_dir rel : below (sg_dir st) (path_join (sg_dir st) rel) = true.
Proof. unfold below, path_join. rewrite str_app_assoc. apply starts_with_prefix. Qed.
Lemma inside_ne rel : ¬ outside (path_join (sg_dir st) rel).
Proof. intros (_ & Hb & _). by rewrite below_dir in Hb. Qed.
Lemma inside_below rel p : outside p → below (path_join (sg_dir st) rel) p = false.
Proof.
  intros (_ & Hb & _). apply not_true_is_false. intros E. apply not_true_iff_false in Hb. apply Hb. unfold below, path_join in *.
  apply (starts_with_trans _ (rel +:+ "/")). by rewrite <- !str_app_assoc in *.
Qed.
Lemma outside_apart : apart st outside.
Proof.
  split; try (intros p Hp; by apply inside_below); try apply inside_ne; [by intros p (? & ? & ?)|].
  intros n. unfold log. change (path_join (path_join (sg_dir st) "logs") n) with ((sg_dir st +:+ "/" +:+ "logs") +:+ "/" +:+ n).
  rewrite <- !str_app_assoc. apply (inside_ne ("logs/" +:+ n)).
Qed.
Lemma inside_ddrescue args budget : Forall (λ a, ∃ c o, a = String c o ∧ c ≠ slash) args → steps R (ddrescue st args budget).
Proof.
  intros Ha. unfold ddrescue. same_through. apply steps_status; [apply (apart_log _ _ outside_apart)|].
  intros p Hp. destruct Hp as [[o ->] [Hb Hd]]. cbn [app writes]. apply bool_decide_eq_false_2. intros Hin.
  rewrite !elem_of_cons, elem_of_app, !elem_of_cons in Hin. rewrite Forall_forall in Ha.
  destruct Hin as [?|[?|[?|[Hin|[?|[E|[E|Hin]]]]]]]; try done.
  - destruct (Ha _ Hin) as (c & o' & [= -> ->] & ?). done.
  - rewrite E in Hb. by unfold raw in Hb; rewrite below_dir in Hb.
  - rewrite E in Hb. by unfold map_ in Hb; rewrite below_dir in Hb.
  - by apply not_elem_of_nil in Hin.
Qed.
Lemma inside_summary : steps R (map_summary st).
Proof. by apply steps_stdout. Qed.
Lemma inside_from_raw m : steps R (from_raw st m).
Proof.
  unfold from_raw, ensure_all_tried, record_rescue. same_through; try apply inside_summary.
  - apply (steps_master _ _ outside_apart).
  - apply steps_remove_file, inside_ne.
Qed.
Lemma inside_option c o : c ≠ slash → Forall (λ a, ∃ c o, a = String c o ∧ c ≠ slash) [String c o].
Proof. intros Hc. repeat constructor. by exists c, o. Qed.
Lemma inside_rescue limits : steps R (rescue st limits).
Proof. unfold rescue, read_something. same_through; first [by apply inside_ddrescue, inside_option|apply inside_from_raw]. Qed.
Lemma inside_raw_image limits : steps R (raw_image st limits).
Proof.
  unfold raw_image, read_something. same_through; first [by apply inside_ddrescue, inside_option|apply inside_from_raw|apply steps_remove_file, inside_ne].
Qed.
Lemma inside_resume limits : steps R (resume_rescue st limits).
Proof.
  unfold resume_rescue. same_through; try first [by apply inside_ddrescue, inside_option|apply inside_from_raw].
  by apply steps_status; [apply (apart_log _ _ outside_apart)|].
Qed.
Lemma inside_backup limits forced : steps R (backup st limits forced).
Proof.
  unfold backup, find_drive, makemkv_backup, copy_disc. same_through;
    try first [apply inside_rescue|apply inside_raw_image|apply (steps_mirror _ _ outside_apart)|apply (steps_readable _ _ outside_apart)
          |apply steps_log_dir|apply steps_write_file, (apart_log _ _ outside_apart)|apply steps_remove_file, inside_ne|idtac].
  - apply steps_stdout; [done|]. intros p Hp. by eapply (writes_makemkv_rel _ _ outside_apart _ "d").
  - apply steps_spawn. intros p Hp. by apply (writes_makemkv_iso _ _ outside_apart).
Qed.
End inside.

(** ** A machine with these laws: ddrescuelog prints the map, and every image is readable. *)

Module Reference.
Definition run (fs : Files) (args : list string) : Files * option Output :=
  (fs, Some (mkOutput true match args with "ddrescuelog" :: l => default "" (last l ≫= λ m, fs !! m) | _ => "" end "")).
#[export] Instance tools : Tools := {|
  tool_run _ fs _ args := run fs args;
  disk _ _ := Whole;
  dir_order _ l := l;
  from_json _ := Some (Object []);
|}.
#[export] Instance watched : Watched := λ _ _ _ _, [].
#[export] Instance backup_laws : BackupLaws.
Proof. split; [by split|by intros ? ? ? ? ? ? Hl%not_elem_of_nil|done]. Qed.
Definition staging : Staging := mkStaging "/scratch/D1" "/dev/sr0" "D1".
Definition world (m : string) : World := mkWorld (<[map_ staging := m]> {[raw staging := "sectors"]}) 0.
End Reference.
#[local] Existing Instances Reference.tools Reference.watched Reference.backup_laws.
(** The rescue of the source's test: nothing is left untried, 700 MB are missing. *)
Lemma rescue_resumable_witness :
  let w := Reference.world rescued_text in
  let '(w', r) := resume_rescue Reference.staging default_limits w in
  r = Ok (mkOutcome "rescue" 0 (Some (mkDamage (default f64_zero (parse_f64 "90.47")) 700007048 true))) ∧
  is_Some (w_files w' !! raw Reference.staging) ∧ is_Some (w_files w' !! map_ Reference.staging).
Proof.
  pose proof (rescue_resumable Reference.staging "scratch/D1" default_limits false (Reference.world rescued_text)) as T.
  assert ((resume_rescue Reference.staging default_limits (Reference.world rescued_text)).2
    = Ok (mkOutcome "rescue" 0 (Some (mkDamage (default f64_zero (parse_f64 "90.47")) 700007048 true)))) as E by (vm_compute; done).
  specialize (T eq_refl). apply Forall_cons_1 in T as [_ T].
  - apply Forall_cons_1 in T as [T _]. cbn zeta. revert T E. generalize (resume_rescue Reference.staging default_limits (Reference.world rescued_text)).
    intros [w' r] (_ & _ & T) [= ->]. split; [done|]. by eapply T.
  - split; eexists; vm_compute; done.
Defined.
(** A ddrescuelog that fails prints nothing, which reads as nothing missing: the raw image of a damaged disc goes. *)
Module FailingLog.
#[export] Instance tools : Tools := {|
  tool_run _ fs _ args := (fs, Some (mkOutput (negb (bool_decide (head args = Some "ddrescuelog"))) "" ""));
  disk _ _ := Whole; dir_order _ l := l; from_json _ := Some (Object []);
|}.
End FailingLog.
Example failed_summary_drops_image :
  let '(w', r) := resume_rescue (H := FailingLog.tools) (H0 := Reference.watched) Reference.staging default_limits (Reference.world rescued_text) in
  r = Ok (mkOutcome "rescue" 0 None) ∧ w_files w' !! raw Reference.staging = None ∧ missing (rescue_stats rescued_text) = 700007048%N.
Proof. vm_compute. done. Qed.

