(* ===== verification/Agent.v ===== *)
(** * The drive agent ([apps/dvdrip/src/agent.rs])

    One task per drive: [step] is a round of its loop, [handle] takes a disc in the drive to its Disc
    object, [backup_and_upload] makes the image ([Backup]) and brings it to the work volume. The state is
    the machine of [Work] with both volumes, the API server's Disc and Drive objects, the drive state last
    sent and the notifications. Every API call meets its fate: it works, is refused, or takes effect and
    loses its reply. The heartbeats that run beside, metrics, spans and waiting are left out. *)

From Stdlib Require Import Ascii.
From stdpp Require Import options relations.
From S2P Require Import Prelude Text F64 Json Naming Classify Controller Lifecycle State Host Crd Makemkv Work Encode Backup.

Record AgentArgs : Type := mkAgentArgs {
  aa_node : string; aa_namespace : string; aa_staging : string; aa_work_root : string; aa_min_free_gb : N;
  aa_rescue_minutes : N; aa_trim_minutes : N; aa_rerip : list string; aa_seed_dir : option string; aa_presets : string;
}.
Definition u64_mul (a b : N) : N := u64_wrap (a * b).
Definition limits (a : AgentArgs) : Limits :=
  mkLimits (u64_mul (aa_rescue_minutes a) 60) (u64_mul (aa_trim_minutes a) 60)
    (max_read_errors default_limits) (max_mirror_mb default_limits).

(** ** Presets *)

Record Preset : Type := mkPreset { p_name : option string; p_disc : option N }.
Definition default_preset : Preset := mkPreset None None.
Definition name_value (v : Value) : option (option string) :=
  match v with Null => Some None | Str s => Some (Some s) | _ => None end.
Definition disc_value (v : Value) : option (option N) :=
  match v with
  | Null => Some None
  | Number (PosInt n) => if (n <? u32_modulus)%N then Some (Some n) else None
  | _ => None
  end.
(** serde reads a struct from an object or from an array of its fields. *)
Definition preset_of (v : Value) : option Preset :=
  match v with
  | Object _ => n ← name_value v.["name"]; d ← disc_value v.["disc"]; Some (mkPreset n d)
  | Array [n; d] => n ← name_value n; d ← disc_value d; Some (mkPreset n d)
  | _ => None
  end.
Definition presets_of (v : Value) : option (gmap string Preset) :=
  match v with
  | Object m => list_to_map <$> mapM (λ kv : string * Value, p ← preset_of kv.2; Some (kv.1, p)) m
  | _ => None
  end.
Definition preset `{Tools} (a : AgentArgs) (fp : string) : Preset :=
  match from_json (aa_presets a) ≫= presets_of with Some m => default default_preset (m !! fp) | None => default_preset end.

(** ** What the tools say of a drive and its disc *)

Definition drives_present (entries : list string) : list string :=
  stable_sort String.leb ((λ n, "/dev/" +:+ n) <$> List.filter (starts_with "sr") entries).
(** The last value of a key counts. *)
Definition udev_of (out : string) : gmap string string := list_to_map (reverse (omap (split_once "=") (lines out))).
Definition parse_label (isoinfo : string) : string :=
  default "UNKNOWN" (match omap (strip_prefix "Volume id: ") (lines isoinfo) with
                     | l :: _ => if bool_decide (trim l = "") then None else Some (trim l)
                     | [] => None end).
Definition dvd_listing (out : string) : string :=
  fold_right (λ l acc, l +:+ String newline acc) "" (List.filter (λ l, negb (starts_with "Disc Title" l)) (lines out)).

Example labels :
  parse_label (join (String newline "") ["CD-ROM is in ISO 9660 format"; "Volume id: BEETLEJUICE"; "Volume set id: "; ""]) = "BEETLEJUICE" ∧
  parse_label ("Volume id: " +:+ String newline "") = "UNKNOWN" ∧
  drives_present ["sr1"; "sda"; "sr0"] = ["/dev/sr0"; "/dev/sr1"].
Proof. vm_compute. done. Qed.

(** ** The state *)

(** [Ran]: the call took effect. *)
Inductive Fate : Type := Ran | Rejected | Unanswered.
Class Outer : Type := {
  fate : nat → Fate;
  (** nanoseconds at a step, and the seconds between two steps *)
  time_at : nat → Z;
  elapsed : nat → nat → N;
  free_gb : nat → string → option N;
  digest : string → string;
  new_uid : nat → string;
}.

Record Drive : Type := mkDrive { dv_spec : DriveSpec; dv_status : option DriveStatus }.
Definition Reported : Type := DriveState * option string * option string.
#[export] Instance Reported_eq_dec : EqDecision Reported.
Proof. unfold Reported. solve_decision. Defined.
Record Agent : Type := mkAgent {
  ag_host : Host.World;
  ag_discs : gmap string Disc;
  ag_drives : gmap string Drive;
  ag_last : option Reported;
  ag_notes : list (string * string);
}.
Notation AM := (SE Agent (list string)).
Definition with_host (h : Host.World) (s : Agent) : Agent := mkAgent h (ag_discs s) (ag_drives s) (ag_last s) (ag_notes s).
Definition with_discs (d : gmap string Disc) (s : Agent) : Agent := mkAgent (ag_host s) d (ag_drives s) (ag_last s) (ag_notes s).
Definition with_drives (d : gmap string Drive) (s : Agent) : Agent := mkAgent (ag_host s) (ag_discs s) d (ag_last s) (ag_notes s).
Definition with_last (l : option Reported) (s : Agent) : Agent := mkAgent (ag_host s) (ag_discs s) (ag_drives s) l (ag_notes s).

Definition default_disc_spec (name : string) (disc : N) : DiscSpec := mkDiscSpec name disc None false ∅ false 0.
Definition FINGERPRINT_LABEL : string := "dvd.trdos.me/fingerprint".

Section agent.
Context `{Tools, Watched, Outer, Clock} (a : AgentArgs) (dev : string).

(** ** Files *)

(** [fs::copy] *)
Definition copy (src dst : string) : Host.M () := c ← read_to_string src; write dst c.
(** [Publish.copy_verified] on this machine, without an expected hash *)
Definition copy_verified (src dst : string) : Host.M string :=
  let part := dst +:+ ".part" in
  content ← read_to_string src;
  _ ← write part content;
  written ← read_to_string part;
  _ ← (if bool_decide (digest written = digest content) then mret ()
       else _ ← ok (remove_file part); throw [part +:+ ": wrong hash"]);
  _ ← rename part dst;
  mret (digest content).

Definition entry_in (dir p : string) : option string :=
  rest ← strip_prefix (dir +:+ "/") p; Some (default rest (fst <$> split_once "/" rest)).
Definition read_entries (dir : string) : Host.M (list string) := λ w,
  (mkWorld (w_files w) (S (w_step w)),
   match disk (w_step w) dir with
   | Whole => Ok (dir_order (w_step w) (remove_dups (omap (λ kv : string * string, entry_in dir kv.1) (map_to_list (w_files w)))))
   | _ => Err ["I/O error"] end).
Definition images_in (dir : string) : Host.M bool :=
  i ← is_file (path_join dir "raw.iso"); m ← is_file (path_join dir "raw.map"); mret (i && m).
Fixpoint seed_entries (seed fp dst : string) (entries : list string) : Host.M bool :=
  match entries with
  | [] => mret false
  | e :: entries =>
      let dir := path_join seed e in
      id ← ok (read_to_string (path_join dir ".discid"));
      here ← images_in dir;
      if match id with Some id => bool_decide (trim id = fp) | None => false end && here then
        _ ← create_dir_all dst;
        _ ← for_each (λ _ f, with_context ("copying " +:+ f +:+ " from " +:+ dir) (copy (path_join dir f) (path_join dst f))) () ["raw.iso"; "raw.map"];
        mret true
      else seed_entries seed fp dst entries
  end.
Definition seed_from (seed fp dst : string) : Host.M bool :=
  entries ← read_entries seed; seed_entries seed fp dst entries.
Definition partial_image (fp : string) : Host.M bool :=
  let dir := path_join (aa_staging a) fp in
  here ← images_in dir;
  _ ← match here, aa_seed_dir a with
      | false, Some seed =>
          r ← try (seed_from seed fp dir);
          match r with Ok _ => mret () | Err _ => drop_ (ok (remove_file (path_join dir "raw.map"))) end
      | _, _ => mret ()
      end;
  images_in dir.

Definition udev : Host.M (gmap string string) :=
  o ← stdout_or_empty ["udevadm"; "info"; "--query=property"; "--name=" +:+ dev]; mret (udev_of o).
Definition media : Host.M (bool * bool) :=
  p ← udev; mret (bool_decide (p !! "ID_CDROM_MEDIA" = Some "1"), bool_decide (p !! "ID_CDROM_MEDIA_DVD" = Some "1")).
Definition disc_label : Host.M string := o ← stdout_or_empty ["isoinfo"; "-d"; "-i"; dev]; mret (parse_label o).
Definition short_sha (b : string) : string := str (take 12 (chars (digest b))).
Fixpoint fingerprint_by_titles (tries : nat) : Host.M (option string) :=
  match tries with
  | O => mret None
  | S tries =>
      o ← stdout_or_empty ["lsdvd"; "-x"; dev];
      if bool_decide (dvd_listing o = "") then fingerprint_by_titles tries else mret (Some (short_sha (dvd_listing o)))
  end.
Definition fingerprint : Host.M (option string) :=
  ifo ← stdout_or_empty ["isoinfo"; "-i"; dev; "-x"; "/VIDEO_TS/VIDEO_TS.IFO;1"];
  if bool_decide (ifo = "") then fingerprint_by_titles 3 else mret (Some (short_sha ifo)).

(** ** The API server *)

Definition host {A} (m : Host.M A) : AM A := λ s, let '(w, r) := m (ag_host s) in (with_host w s, r).
Definition step_of (s : Agent) : nat := w_step (ag_host s).
Definition ticked (s : Agent) : Agent := with_host (mkWorld (w_files (ag_host s)) (S (step_of s))) s.
(** [act]: the effect and the answer, if the object is there. *)
Definition api {A} (act : Agent → option (Agent * A)) : AM A := λ s,
  match fate (step_of s), act s with
  | Rejected, _ | _, None => (ticked s, Err ["API"])
  | Ran, Some (s', r) => (ticked s', Ok r)
  | Unanswered, Some (s', _) => (ticked s', Err ["API"])
  end.
Definition now : AM string := gets (λ s, format_time (time_at (step_of s))).
Definition notify (text tag : string) : AM () :=
  modify (λ s, mkAgent (ag_host s) (ag_discs s) (ag_drives s) (ag_last s) (ag_notes s ++ [(text, tag)])).

Definition get_disc_status (name : string) : AM DiscStatus :=
  api (λ s, d ← ag_discs s !! name; Some (s, default default_disc_status (disc_status d))).
Definition patch_disc (name : string) (f : Disc → Disc) : AM () :=
  api (λ s, d ← ag_discs s !! name; Some (with_discs (<[name := f d]> (ag_discs s)) s, ())).
Definition patch_status (name : string) (f : DiscStatus → DiscStatus) : AM () :=
  patch_disc name (λ d, with_status (f (default default_disc_status (disc_status d))) d).
(** False: there is one by that name (409). *)
Definition create_disc (name : string) (d : Disc) : AM bool :=
  api (λ s, match ag_discs s !! name with
            | Some _ => Some (s, false)
            | None => Some (with_discs (<[name := d]> (ag_discs s)) s, true)
            end).
Definition fp_label (d : Disc) : option string := disc_labels d ≫= λ l, l !! FINGERPRINT_LABEL.
Definition existing (fp : string) : AM (option (string * Disc)) :=
  api (λ s, Some (s, head (List.filter (λ kv : string * Disc, bool_decide (fp_label kv.2 = Some fp)) (map_to_list (ag_discs s))))).
Definition get_drive (name : string) : AM (option Drive) := api (λ s, Some (s, ag_drives s !! name)).
Definition patch_drive (name : string) (f : DriveStatus → DriveStatus) : AM () :=
  api (λ s, d ← ag_drives s !! name;
            Some (with_drives (<[name := mkDrive (dv_spec d) (Some (f (default default_drive_status (dv_status d))))]> (ag_drives s)) s, ())).
Definition create_drive (name : string) (sp : DriveSpec) : AM Drive :=
  api (λ s, match ag_drives s !! name with
            | Some _ => None
            | None => Some (with_drives (<[name := mkDrive sp None]> (ag_drives s)) s, mkDrive sp None)
            end).

(** ** The drive *)

Definition drive_name : string := aa_node a +:+ "-" +:+ trim_start_str "/dev/" dev.
Definition state (st : DriveState) (disc msg : option string) : AM () :=
  last ← gets ag_last;
  if bool_decide (last = Some (st, disc, msg)) then mret ()
  else
    r ← ok (patch_drive drive_name (λ d, mkDriveStatus (dr_node d) (dr_device d) (dr_model d) (dr_serial d) st disc msg (dr_heartbeat d)));
    match r with Some _ => modify (with_last (Some (st, disc, msg))) | None => mret () end.
Definition drive : AM Drive :=
  known ← get_drive drive_name;
  match known with
  | Some d => mret d
  | None =>
      props ← host udev;
      d ← create_drive drive_name (mkDriveSpec true true);
      let model := join " " (omap (λ k, props !! k) ["ID_VENDOR"; "ID_MODEL"]) in
      _ ← patch_drive drive_name (λ st, mkDriveStatus (aa_node a) dev (Some (replace_char "_" " " model)) (props !! "ID_SERIAL_SHORT")
            Waiting (dr_disc st) (dr_message st) (dr_heartbeat st));
      mret d
  end.
Fixpoint wait_for_tray (n : nat) : Host.M () :=
  match n with O => mret () | S n => m ← media; if (m.1 : bool) then wait_for_tray n else mret () end.
Definition eject (disc : option string) : AM () :=
  _ ← state Ejecting disc None;
  _ ← host (ok (stdout ["eject"; dev] None false));
  host (wait_for_tray 150).
Definition heartbeat_of (d : Drive) : option Z := st ← dv_status d; h ← dr_heartbeat st; parse_time h.
Definition drive_alive (drive : option string) : AM bool :=
  match drive with
  | None => mret false
  | Some name =>
      d ← ok (get_drive name);
      t ← gets (λ s, time_at (step_of s));
      mret match d with
           | Some (Some d) =>
               match heartbeat_of d with
               | Some h => let age := Z.quot (t - h) (10 ^ 9) in (0 <=? age)%Z && (age <? LEASE)%Z
               | None => false
               end
           | _ => false
           end
  end.

(** ** A backup, brought to the work volume *)

Definition derived : list string := ["remux"; "encodes"; "repair"].
Definition fetch_images (st : Staging) (work : string) : Host.M () :=
  for_each (λ _ f,
    here ← is_file (path_join (sg_dir st) f);
    if (here : bool) then mret ()
    else with_context ("fetching " +:+ f +:+ " from the work volume") (copy (path_join work f) (path_join (sg_dir st) f)))
    () ["raw.iso"; "raw.map"].
(** [forced]: DVD_BACKUP_METHOD is dvdbackup *)
Definition make_image (st : Staging) (work : string) (forced resume : bool) : Host.M Outcome :=
  if resume then _ ← fetch_images st work; resume_rescue st (limits a) else backup st (limits a) forced.
Definition metadata_len (p : string) : Host.M N := c ← read_to_string p; mret (N.of_nat (String.length c)).
(** A damaged disc's images stay on the work volume, so that any drive can resume the rescue. *)
Definition keep_images (st : Staging) (work : string) (damage : option Damage) : Host.M () :=
  match damage with
  | Some d =>
      if rescue_pending d
      then for_each (λ _ f, drop_ (copy_verified (path_join (sg_dir st) f) (path_join work f))) () ["raw.iso"; "raw.map"]
      else mret ()
  | None => for_each (λ _ f, drop_ (ok (remove_file (path_join work f)))) () ["raw.iso"; "raw.map"]
  end.
Definition move_logs (st : Staging) (work : string) : Host.M () :=
  logs ← ok (read_dir (path_join (sg_dir st) "logs"));
  for_each (λ _ n, drop_ (ok (copy (path_join (path_join (sg_dir st) "logs") n) (path_join (path_join work "logs") n)))) () (default [] logs).
Definition clear_staging (st : Staging) (work : string) : Host.M () :=
  _ ← move_logs st work; drop_ (ok (remove_dir_all (sg_dir st))).
Definition upload (st : Staging) (work : string) (o : Outcome) : Host.M string :=
  sha ← copy_verified (master st) (path_join work "master.iso");
  _ ← for_each (λ _ d, drop_ (ok (remove_dir_all (path_join work d)))) () derived;
  _ ← keep_images st work (o_damage o);
  _ ← clear_staging st work;
  there ← is_file (path_join work "master.iso");
  if (there : bool) then mret sha else throw ["upload vanished"].
(** The step at which the backup began. *)
Definition start_backup (st : Staging) (work name : string) : AM nat :=
  _ ← host (create_dir_all (path_join work "logs"));
  _ ← host (create_dir_all (path_join (sg_dir st) "logs"));
  start ← gets step_of;
  _ ← state DriveBackingUp (Some name) None;
  mret start.
Definition backup_and_upload (forced : bool) (label fp name : string) (resume : bool) : AM (Crd.Backup * option Damage * string) :=
  let st := mkStaging (path_join (aa_staging a) fp) dev label in
  let work := path_join (aa_work_root a) fp in
  start ← start_backup st work name;
  o ← host (make_image st work forced resume);
  seconds ← gets (λ s, elapsed start (step_of s));
  bytes ← host (metadata_len (master st));
  _ ← state Uploading (Some name) None;
  sha ← host (upload st work o);
  let message := pretty (bytes / 1000000)%N +:+ " MB in " +:+ dur (f64_of_Z (Z.of_N seconds)) +:+ " (" +:+ o_method o +:+ ")" in
  mret (mkBackup (o_method o) bytes seconds (o_read_errors o) sha, o_damage o, message).

(** ** A disc in the drive *)

Definition over (msg : string) (disc : option string) : AM () := _ ← eject disc; state Waiting None (Some msg).
Definition with_spec_fields (p : Preset) (sp : DiscSpec) : DiscSpec :=
  mkDiscSpec (default (spec_name sp) (p_name p)) (default (spec_disc sp) (p_disc p)) (spec_main_title sp) (spec_protected sp)
    (spec_titles sp) false (spec_retry sp).
Definition with_attempts (n : N) (st : DiscStatus) : DiscStatus :=
  mkDiscStatus (st_phase st) (st_message st) (st_label st) (st_fingerprint st) (st_drive st) n (st_observed_retry st)
    (st_backup st) (st_damage st) (st_protected st) (st_titles st) (st_warnings st) (st_published st)
    (st_encoded_generation st) (st_summary st) (st_since st) (st_encode_key st) (st_publish_key st) (st_heartbeat st).
Definition is_import (st : DiscStatus) : bool :=
  match st_backup st with Some b => bool_decide (method b = "import") | None => false end.
Definition listed (fp : string) : bool := existsb (λ f, bool_decide (trim f = fp)) (aa_rerip a).

(** A disc the API server knows: its name and whether to continue an image, unless it is left alone. *)
Definition known (label fp name : string) (d : Disc) : AM (option (string * bool)) :=
  let st := default default_disc_status (disc_status d) in
  raw_map ← host (is_file (path_join (path_join (aa_work_root a) fp) "raw.map"));
  let rescue := match st_damage st with Some x => rescue_pending x | None => false end && raw_map in
  let rerip := wants_rerip (aa_rerip a) fp st in
  if rescue then mret (Some (name, true))
  else if match st_backup st with Some _ => true | None => false end && negb rerip then
    _ ← notify (label +:+ ": already ripped (" +:+ spec_name (disc_spec d) +:+ ")") "duplicate";
    _ ← over (label +:+ " was already ripped") (Some name);
    mret None
  else
    alive ← (if bool_decide (st_phase st = BackingUp) && negb (bool_decide (st_drive st = Some drive_name))
             then drive_alive (st_drive st) else mret false);
    if (alive : bool) then
      _ ← over (label +:+ " is being backed up on " +:+ default "" (st_drive st)) (Some name);
      mret None
    else
      _ ← (if rerip then notify (label +:+ ": ripping again on request (the imported copy was not good)") "new" else mret ());
      partial ← host (partial_image fp);
      mret (Some (name, partial)).
Definition unknown (label fp : string) : AM (option (string * bool)) :=
  let name := disc_object_name label fp in
  let p := preset a fp in
  uid ← gets (λ s, new_uid (step_of s));
  let d := mkDisc name (Some (aa_namespace a)) (Some {[FINGERPRINT_LABEL := fp]}) uid
             (default_disc_spec (default (label_to_name label) (p_name p)) (default 1%N (p_disc p))) None in
  created ← create_disc name d;
  if (created : bool) then
    _ ← notify (label +:+ ": new disc, backing up on " +:+ drive_name) "new";
    partial ← host (partial_image fp);
    mret (Some (name, partial))
  else
    _ ← over (label +:+ " is being handled by another drive") (Some name);
    mret None.
Definition rip (forced : bool) (label fp name : string) (resume : bool) : AM () :=
  prev ← get_disc_status name;
  t ← now;
  _ ← patch_status name (λ st, with_attempts (u32_add (st_attempts prev) 1)
        (agent_start label fp drive_name (if resume then "re-reading the missing sectors" else "copying the disc") t st));
  _ ← (if is_import prev && listed fp
       then drop_ (ok (patch_disc name (λ d, with_spec (with_spec_fields (preset a fp) (disc_spec d)) d)))
       else mret ());
  r ← try (backup_and_upload forced label fp name resume);
  t ← now;
  match r with
  | Ok (b, damage, msg) =>
      _ ← patch_status name (agent_done b damage msg drive_name t);
      _ ← notify (label +:+ ": " +:+ msg) "backed-up";
      over (label +:+ ": " +:+ msg) (Some name)
  | Err e =>
      let msg := "backup failed: " +:+ alternate e in
      _ ← ok (patch_status name (agent_failed msg t));
      _ ← notify (label +:+ ": " +:+ msg) "failed";
      over (label +:+ ": " +:+ msg) (Some name)
  end.
Definition handle (forced : bool) (label fp : string) : AM () :=
  known_disc ← existing fp;
  start ← match known_disc with Some (name, d) => known label fp name d | None => unknown label fp end;
  match start with Some (name, resume) => rip forced label fp name resume | None => mret () end.

(** A round of the drive's loop: what it has handled since the tray was last empty. *)
Fixpoint short_of_space (l : list (string * string)) : AM bool :=
  match l with
  | [] => mret false
  | (what, path) :: l =>
      gb ← gets (λ s, free_gb (step_of s) path);
      match gb with
      | Some gb =>
          if (gb <? aa_min_free_gb a)%N
          then _ ← state Paused None (Some ("only " +:+ pretty gb +:+ " GB free on the " +:+ what +:+ "; waiting for space")); mret true
          else short_of_space l
      | None => short_of_space l
      end
  end.
Definition step (forced : bool) (handled : option string) : AM (option string) :=
  d ← drive;
  if negb (enabled (dv_spec d)) then _ ← state Disabled None (Some "disabled (spec.enabled=false)"); mret handled
  else
    paused ← host (is_file (path_join (aa_staging a) ".pause"));
    if (paused : bool) then _ ← state Paused None (Some ("paused (" +:+ aa_staging a +:+ "/.pause exists)")); mret handled
    else
      m ← host media;
      if negb m.1 then _ ← state Waiting None None; mret None
      else
        match handled with
        | Some _ => mret handled
        | None =>
            short ← short_of_space [("staging", aa_staging a); ("work volume", aa_work_root a)];
            if (short : bool) then mret None
            else
              _ ← state Reading None None;
              if negb m.2 then
                _ ← (if eject_unknown (dv_spec d) then eject None else mret ());
                _ ← state Waiting None (Some "the last disc was not a DVD (CD or Blu-ray?)");
                mret (Some "not-a-dvd")
              else
                label ← host disc_label;
                fp ← host fingerprint;
                match fp with
                | None =>
                    _ ← (if eject_unknown (dv_spec d) then eject None else mret ());
                    _ ← state Waiting None (Some (label +:+ ": can't read VIDEO_TS (not a video DVD, or dirty/scratched)"));
                    mret (Some "unreadable")
                | Some fp => _ ← try (handle forced label fp); mret (Some fp)
                end
        end.
(** A round that fails is reported; [handled] is as it was, since only [drive] fails. *)
Definition round (forced : bool) (handled : option string) : AM (option string) :=
  r ← try (step forced handled);
  match r with Ok handled => mret handled | Err e => _ ← state DriveError None (Some (alternate e)); mret handled end.
End agent.

(** ** The upload *)

Section upload.
#[local] Set Default Proof Using "Type*".
Context `{BackupLaws, !Outer, !Clock} (a : AgentArgs) (dev : string).

Lemma steps_copy P src dst : ¬ P dst → steps (same P) (copy src dst).
Proof. intros Hd. unfold copy. same_through. by apply steps_write_file. Qed.
Lemma steps_copy_verified P src dst : ¬ P dst → ¬ P (dst +:+ ".part") → steps (same P) (copy_verified src dst).
Proof.
  intros Hd Hp. unfold copy_verified. same_through; [by apply steps_write_file|by apply steps_remove_file|by apply steps_rename].
Qed.
(** The target is as before, or a whole copy. *)
Lemma copy_verified_wp src dst w :
  wp (copy_verified src dst) (λ w', w_files w' !! dst = w_files w !! dst)
    (λ sha w', ∃ c, w_files w !! src = Some c ∧ sha = digest c ∧ w_files w' !! dst = Some c) w.
Proof.
  unfold copy_verified. set (part := dst +:+ ".part").
  assert (part ≠ dst) as Hne by (intros E%(f_equal String.length); unfold part in E; rewrite str_length_app in E; cbn in E; lia).
  destruct (w_files w !! src) as [c|] eqn:Es; [|unfold wp, mbind, SE_bind, read_to_string; by rewrite Es].
  assert (read_to_string src w = (w, Ok c)) as Er by (unfold read_to_string; by rewrite Es).
  apply wp_bind. unfold wp at 1. rewrite Er. apply wp_bind. unfold wp at 1, write. cbn [stored tools_outside].
  destruct (disk (w_step w) part); cbn [w_files]; rewrite ?lookup_insert_ne by done; [|done..].
  apply wp_bind. unfold wp at 1, read_to_string. cbn [w_files]. rewrite lookup_insert_eq, bool_decide_eq_true_2 by done.
  apply wp_bind, wp_ret. apply wp_bind. unfold rename. apply wp_bind. unfold wp at 1, read_to_string. cbn [w_files]. rewrite lookup_insert_eq.
  unfold wp at 1, disk_op. cbn [w_files w_step]. destruct (disk _ dst).
  - apply wp_ret. exists c. cbn. by rewrite lookup_insert_eq.
  - by rewrite lookup_insert_ne.
  - by rewrite lookup_insert_ne.
Qed.

Context (st : Staging) (work : string).
Definition goal : string := path_join work "master.iso".
(** Staging and the work dir are apart. *)
Definition separate : Prop :=
  (∃ d, sg_dir st = "/" +:+ d) ∧ (∃ d, work = "/" +:+ d) ∧ device st ≠ goal ∧
  (∀ rel, below (sg_dir st) (path_join work rel) = false) ∧ (∀ rel, below work (path_join (sg_dir st) rel) = false).
Context (Hsep : separate).

Lemma work_ne x y : x ≠ y → path_join work x ≠ path_join work y.
Proof. intros Hne E. apply Hne. unfold path_join in E. by do 2 apply str_app_inv_l in E. Qed.
Lemma work_not_below x y p : x ≠ y → below (path_join work (String x p)) (path_join work (String y "aster.iso")) = false.
Proof. intros Hne. unfold below, path_join. rewrite <- !str_app_assoc, !starts_with_app. by apply starts_with_ne. Qed.
Lemma steps_tail_copy P f : ¬ P (path_join work f) → ¬ P (path_join work (f +:+ ".part")) →
  steps (same P) (copy_verified (path_join (sg_dir st) f) (path_join work f)).
Proof. intros H1' H2'. apply steps_copy_verified; [done|]. unfold path_join. by rewrite <- !str_app_assoc. Qed.
Lemma goal_kept_images damage : steps (same (λ p, p = goal)) (keep_images st work damage).
Proof.
  unfold keep_images. destruct damage as [d|]; [destruct (rescue_pending d)|]; [|by apply keep_ret|];
    apply same_for_each; intros _ f Hf; unfold drop_; same_through.
  - apply elem_of_cons in Hf as [->|Hf%list_elem_of_singleton]; [|subst f]; apply steps_tail_copy; by apply work_ne.
  - apply steps_remove_file, work_ne. set_solver.
Qed.
(** What the work volume keeps of a damaged disc. *)
Notation kept := (λ p, p = goal ∨ p = path_join work "raw.iso" ∨ p = path_join work "raw.map").
Definition images_kept (w : Host.World) : Prop :=
  is_Some (w_files w !! path_join work "raw.iso") ∧ is_Some (w_files w !! path_join work "raw.map").
Lemma keep_images_wp d w : rescue_pending d = true → wp (keep_images st work (Some d)) (λ _, True) (λ _, images_kept) w.
Proof.
  intros Hp. unfold keep_images. rewrite Hp. cbn [for_each]. unfold drop_.
  apply wp_bind, wp_bind. eapply wp_mono; [apply copy_verified_wp|done|]. intros s1 w1 (c & _ & _ & E1). apply wp_ret.
  apply wp_bind, wp_bind. apply wp_intro; [done|]. intros w2 s2 Em. apply wp_ret, wp_ret. split.
  - pose proof (steps_tail_copy (λ p, p = path_join work "raw.iso") "raw.map") as Hs.
    assert (∀ x, x ≠ "raw.iso" → path_join work x ≠ path_join work "raw.iso") as Hne by (intros; by apply work_ne).
    specialize (Hs ltac:(by apply Hne) ltac:(by apply Hne) w1 _ eq_refl). rewrite Em in Hs. cbn in Hs. rewrite Hs. eauto.
  - pose proof (copy_verified_wp (path_join (sg_dir st) "raw.map") (path_join work "raw.map") w1) as Hw.
    eapply wp_Ok in Hw; [|exact Em]. destruct Hw as (c' & _ & _ & ->). eauto.
Qed.
Lemma steps_clear : steps (same kept) (clear_staging st work).
Proof.
  destruct Hsep as (_ & _ & _ & Hb & _). unfold clear_staging, move_logs. same_through.
  - apply same_for_each. intros _ n _. unfold drop_. same_through. apply steps_copy. unfold goal, path_join. rewrite <- !str_app_assoc.
    intros [E|[E|E]]; by do 2 apply str_app_inv_l in E.
  - apply steps_remove_dir. intros p [->|[->| ->]]; apply Hb.
Qed.
Lemma upload_wp o w :
  wp (upload st work o)
    (λ w', w_files w' !! goal = w_files w !! goal ∨ (is_Some (w_files w' !! goal) ∧ w_files w' !! goal = w_files w !! master st))
    (λ sha w', (∃ c, w_files w !! master st = Some c ∧ w_files w' !! goal = Some c ∧ sha = digest c) ∧
       ∀ d, o_damage o = Some d → rescue_pending d = true → images_kept w') w.
Proof.
  unfold upload. apply wp_bind. eapply wp_mono; [apply copy_verified_wp|by left|].
  intros sha w1 (c & Em & -> & Eg). rewrite Em. change (path_join work "master.iso") with goal in *.
  assert (∀ w', w_files w' !! goal = Some c → w_files w' !! goal = w_files w !! goal ∨ is_Some (w_files w' !! goal) ∧ w_files w' !! goal = Some c) as Hend.
  { intros w' E. right. by rewrite E. }
  eapply (file_then _ _ goal); [|exact Eg|exact Hend|intros ? w2 E2].
  { apply same_for_each. intros _ d Hd. unfold drop_. same_through. apply steps_remove_dir. intros p ->. unfold goal.
    repeat (apply elem_of_cons in Hd as [->|Hd]; [by apply work_not_below|]). by apply not_elem_of_nil in Hd. }
  apply wp_bind. eapply (wp_mono _ (λ w', w_files w' !! goal = Some c) _
    (λ _ w', w_files w' !! goal = Some c ∧ ∀ d, o_damage o = Some d → rescue_pending d = true → images_kept w')); [|exact Hend|].
  { pose proof (steps_keep _ _ _ w2 (goal_kept_images (o_damage o)) E2) as Hk. apply wp_intro; [intros w' e Er; unfold wp in Hk; by rewrite Er in Hk|].
    intros w' u Er. split; [unfold wp in Hk; by rewrite Er in Hk|]. intros d Ed Hp. rewrite Ed in Er.
    exact (wp_Ok _ _ _ _ _ _ (keep_images_wp d w2 Hp) Er). }
  intros ? w3 [E3 Hd]. apply wp_bind. pose proof (steps_clear w3) as Hc. unfold wp at 1.
  assert (w_files (clear_staging st work w3).1 !! goal = Some c) as E4 by (rewrite Hc; auto).
  destruct (clear_staging st work w3) as [w4 [u|e]]; [|by apply Hend].
  apply wp_bind, wp_gets. cbn beta. cbn [fst] in E4. rewrite E4, bool_decide_eq_true_2 by done. apply wp_ret. split; [by exists c|].
  intros d Ed Hp. destruct (Hd d Ed Hp) as [Hi Hm]. split; rewrite Hc by auto; done.
Qed.
End upload.

(** ** A backup, from the drive to the work volume *)

Definition files_of (s : Agent) : gmap string string := w_files (ag_host s).
(** API calls do not touch the volumes. *)
Definition quiet {A} (m : AM A) : Prop := ∀ s, files_of (m s).1 = files_of s.

Lemma host_wp {A} (m : Host.M A) (E : Agent → Prop) Q s :
  wp m (λ w, E (with_host w s)) (λ x w, Q x (with_host w s)) (ag_host s) → wp (host m) E Q s.
Proof. unfold wp, host. by destruct (m (ag_host s)) as [w []]. Qed.
Lemma quiet_wp {A} (m : AM A) (E : Agent → Prop) (Q : A → Agent → Prop) s :
  quiet m → (∀ s', files_of s' = files_of s → E s') → (∀ x s', files_of s' = files_of s → Q x s') → wp m E Q s.
Proof. intros Hm HE HQ. specialize (Hm s). unfold wp. destruct (m s) as [s' []]; auto. Qed.
Lemma quiet_bind {A B} (m : AM A) (f : A → AM B) : quiet m → (∀ x, quiet (f x)) → quiet (m ≫= f).
Proof.
  intros Hm Hf s. unfold mbind, SE_bind. specialize (Hm s). destruct (m s) as [s' [x|e]]; [|done]. cbn in Hm. by rewrite <- Hm, Hf.
Qed.
Lemma quiet_ok {A} (m : AM A) : quiet m → quiet (ok m).
Proof. intros Hm s. specialize (Hm s). unfold ok. by destruct (m s) as [s' []]. Qed.
Lemma quiet_api `{Outer} {A} (act : Agent → option (Agent * A)) :
  (∀ s s' x, act s = Some (s', x) → ag_host s' = ag_host s) → quiet (api act).
Proof.
  intros Ha s. unfold api. specialize (Ha s). destruct (fate _), (act s) as [[s' x]|]; try done; specialize (Ha _ _ eq_refl);
    unfold files_of, ticked, with_host, step_of; cbn; by rewrite Ha.
Qed.
Lemma quiet_state `{Outer} a dev d disc msg : quiet (state a dev d disc msg).
Proof.
  unfold state. apply quiet_bind; [done|]. intros last. destruct (bool_decide _); [done|].
  apply quiet_bind; [|by intros []]. apply quiet_ok, quiet_api. intros s s' x E.
  destruct (ag_drives s !! _); [|done]. cbn in E. by injection E as <- _.
Qed.

Section verified.
#[local] Set Default Proof Using "Type*".
Context `{BackupLaws, !Outer, !Clock} (a : AgentArgs) (dev label fp : string).
Notation st := (mkStaging (path_join (aa_staging a) fp) dev label).
Notation work := (path_join (aa_work_root a) fp).
Context (Hsep : separate st work).

Lemma goal_outside : outside st (goal work).
Proof.
  destruct Hsep as (_ & [d Hd] & Hdev & Hb & _). split_and!; [|by apply Hb|by intros E; apply Hdev].
  unfold goal. exists (d +:+ "/master.iso"). cbn [sg_dir] in *. unfold path_join at 1. by rewrite Hd.
Qed.
Lemma make_image_frame forced resume : steps (same (outside st)) (make_image a st work forced resume).
Proof.
  unfold make_image, fetch_images. destruct resume; [|apply inside_backup]. apply keep_bind; [|intros _; apply inside_resume].
  apply same_for_each. intros _ f _. apply keep_bind; [apply same_is_file|]. intros []; [by apply keep_ret|].
  apply same_context, steps_copy. apply (inside_ne st f).
Qed.
(** The image that the backup of this run leaves in staging. *)
Definition finished (forced resume : bool) (name : string) (s : Agent) (c : string) : Prop :=
  ∃ w' o, make_image a st work forced resume (ag_host (start_backup a dev st work name s).1) = (w', Ok o) ∧
    w_files w' !! master st = Some c.
Lemma start_wp name s v : files_of s !! goal work = v →
  wp (start_backup a dev st work name) (λ s', files_of s' !! goal work = v) (λ _ s', files_of s' !! goal work = v) s.
Proof.
  intros Ev. unfold start_backup.
  assert (∀ B p (f : () → AM B) Q s1, files_of s1 !! goal work = v →
    (∀ s2, files_of s2 !! goal work = v → wp (f ()) (λ s', files_of s' !! goal work = v) Q s2) →
    wp (x ← host (create_dir_all p); f x) (λ s', files_of s' !! goal work = v) Q s1) as Hhost.
  { intros B p f Q s1 E1 Hf. apply wp_bind, host_wp. eapply wp_mono; [apply steps_keep; [apply steps_create_dir|exact E1]|done|]. intros [] w Ew. by apply Hf. }
  apply Hhost; [done|]. intros s1 E1. apply Hhost; [done|]. intros s2 E2.
  apply wp_bind, wp_gets. apply wp_bind. apply quiet_wp; [apply quiet_state|intros s3 E3; by rewrite E3|]. intros [] s3 E3. apply wp_ret. by rewrite E3.
Qed.

Lemma backup_and_upload_wp forced name resume s :
  let good w := w !! goal work = files_of s !! goal work ∨ ∃ c, w !! goal work = Some c ∧ finished forced resume name s c in
  wp (backup_and_upload a dev forced label fp name resume) (λ s', good (files_of s'))
    (λ out s', ∃ c, files_of s' !! goal work = Some c ∧ finished forced resume name s c ∧
       sha256 out.1.1 = digest c ∧ bytes out.1.1 = N.of_nat (String.length c) ∧
       ∀ d, out.1.2 = Some d → rescue_pending d = true → images_kept work (ag_host s')) s.
Proof.
  intros good. unfold backup_and_upload. pose proof (start_wp name s _ eq_refl) as Hs.
  apply wp_bind, wp_intro; [intros s1 e E; unfold wp in Hs; rewrite E in Hs; by left|].
  intros s3 start E. assert (finished forced resume name s = λ c, ∃ w' o,
    make_image a st work forced resume (ag_host s3) = (w', Ok o) ∧ w_files w' !! master st = Some c) as Hfin by (unfold finished; by rewrite E).
  assert (files_of s3 !! goal work = files_of s !! goal work) as E2 by (unfold wp in Hs; by rewrite E in Hs). clear Hs E.
  pose proof (make_image_frame forced resume (ag_host s3) _ goal_outside) as Hf.
  apply wp_bind, host_wp. apply wp_intro.
  { intros w e Em. left. rewrite Em in Hf. cbn in Hf. by rewrite <- E2. }
  intros w o Em. rewrite Em in Hf. cbn [fst] in Hf.
  assert (w_files w !! goal work = files_of s !! goal work) as Ew by (by rewrite <- E2).
  apply wp_bind, wp_gets. apply wp_bind, host_wp. unfold metadata_len. apply wp_bind. unfold wp at 1, read_to_string. cbn [ag_host with_host].
  destruct (w_files w !! master st) as [c|] eqn:Ec; [|by left]. apply wp_ret.
  apply wp_bind. apply quiet_wp; [apply quiet_state|intros s4 E4; left; by rewrite E4|]. intros [] s4 E4. cbn in E4.
  assert (finished forced resume name s c) as Hc by (rewrite Hfin; by exists w, o).
  apply wp_bind, host_wp. eapply wp_mono; [by apply upload_wp| |].
  - unfold files_of in *. cbn -[goal master]. intros w5 [Hg|[[x Hx] Hg]]; rewrite E4 in Hg; [left; by rewrite Hg|]. right. exists c. rewrite Hg. by split.
  - unfold files_of in *. cbn -[goal master]. intros sha w5 [(c2 & Ec2 & Eg & ->) Hk]. rewrite E4 in Ec2.
    assert (c2 = c) as -> by (apply (inj Some); etransitivity; [symmetry; exact Ec2|exact Ec]). by exists c.
Qed.
End verified.

(** While a disc is backed up and uploaded, the work volume's master.iso is only ever what it was, or the
    whole image that this run's backup left in staging, wherever the run fails; when the run succeeds, the recorded hash and
    size are those of the image there, and a damaged disc's raw image and map are there, too. *)
Theorem upload_atomic `{BackupLaws, !Outer, !Clock} a dev label fp forced name resume s s' r :
  let st := mkStaging (path_join (aa_staging a) fp) dev label in
  let work := path_join (aa_work_root a) fp in
  let iso := path_join work "master.iso" in
  separate st work → backup_and_upload a dev forced label fp name resume s = (s', r) →
  (files_of s' !! iso = files_of s !! iso ∨ ∃ c, files_of s' !! iso = Some c ∧ finished a dev label fp forced resume name s c) ∧
  ∀ b damage msg, r = Ok (b, damage, msg) →
    (∃ c, files_of s' !! iso = Some c ∧ finished a dev label fp forced resume name s c ∧ sha256 b = digest c ∧ bytes b = N.of_nat (String.length c)) ∧
    ∀ d, damage = Some d → rescue_pending d = true → images_kept work (ag_host s').
Proof.
  intros st work iso Hsep E. pose proof (backup_and_upload_wp a dev label fp Hsep forced name resume s) as Hw. cbn zeta in Hw.
  unfold wp in Hw. rewrite E in Hw. split.
  - destruct r as [out|e]; [|exact Hw]. destruct Hw as (c & Hc & Hf & _). right. by exists c.
  - intros b damage msg ->. destruct Hw as (c & Hc & Hf & Hs & Hb & Hk). split; [by exists c|exact Hk].
Qed.

(** ** What the agent does to the Disc *)

Definition discs_kept {A} (m : AM A) : Prop := ∀ s, ag_discs (m s).1 = ag_discs s.
Lemma discs_bind {A B} (m : AM A) (f : A → AM B) : discs_kept m → (∀ x, discs_kept (f x)) → discs_kept (m ≫= f).
Proof.
  intros Hm Hf s. unfold mbind, SE_bind. specialize (Hm s). destruct (m s) as [s' [x|e]]; [|done]. cbn in Hm. by rewrite <- Hm, Hf.
Qed.
Lemma discs_ok {A} (m : AM A) : discs_kept m → discs_kept (ok m).
Proof. intros Hm s. specialize (Hm s). unfold ok. by destruct (m s) as [s' []]. Qed.
Lemma discs_try {A} (m : AM A) : discs_kept m → discs_kept (try m).
Proof. intros Hm s. specialize (Hm s). unfold try. by destruct (m s) as [s' []]. Qed.
Lemma discs_host {A} (m : Host.M A) : discs_kept (host m).
Proof. intros s. unfold host. by destruct (m (ag_host s)). Qed.
Lemma discs_api `{Outer} {A} (act : Agent → option (Agent * A)) :
  (∀ s s' x, act s = Some (s', x) → ag_discs s' = ag_discs s) → discs_kept (api act).
Proof. intros Ha s. unfold api. specialize (Ha s). destruct (fate _), (act s) as [[s' x]|]; try done; exact (Ha _ _ eq_refl). Qed.
Lemma discs_state `{Outer} a dev d disc msg : discs_kept (state a dev d disc msg).
Proof.
  unfold state. apply discs_bind; [done|]. intros last. destruct (bool_decide _); [done|].
  apply discs_bind; [|by intros []]. apply discs_ok, discs_api. intros s s' x E.
  destruct (ag_drives s !! _); [|done]. cbn in E. by injection E as <- _.
Qed.
Lemma discs_over `{Tools, Outer} a dev msg disc : discs_kept (over a dev msg disc).
Proof.
  unfold over, eject. apply discs_bind; [|intros _; apply discs_state]. apply discs_bind; [apply discs_state|intros _].
  apply discs_bind; [apply discs_host|intros _; apply discs_host].
Qed.
Lemma discs_alive `{Outer, Clock} drive : discs_kept (drive_alive drive).
Proof.
  unfold drive_alive. destruct drive as [n|]; [|done]. apply discs_bind; [|done]. apply discs_ok, discs_api. by intros s s' x [= <- _].
Qed.
Lemma discs_known `{Tools, Outer, Clock} a dev label fp name d : discs_kept (known a dev label fp name d).
Proof.
  unfold known. apply discs_bind; [apply discs_host|intros raw_map]. destruct (_ && _); [done|].
  destruct (_ && _); [by repeat (apply discs_bind; [by first [apply discs_over|done]|intros _])|].
  apply discs_bind; [destruct (_ && _); [apply discs_alive|done]|]. intros [].
  - by apply discs_bind; [apply discs_over|].
  - apply discs_bind; [by destruct (wants_rerip _ _ _)|intros _]. by apply discs_bind; [apply discs_host|].
Qed.
Lemma discs_backup `{Tools, Watched, Outer, Clock} a dev forced label fp name resume : discs_kept (backup_and_upload a dev forced label fp name resume).
Proof.
  unfold backup_and_upload, start_backup. repeat first [done|apply discs_host|apply discs_state|apply discs_bind; [|intros ?]].
Qed.
Lemma discs_wp {A} (m : AM A) (I : gmap string Disc → Prop) s : discs_kept m → I (ag_discs s) → wp m (λ s', I (ag_discs s')) (λ _ s', I (ag_discs s')) s.
Proof. intros Hm HI. specialize (Hm s). unfold wp. destruct (m s) as [s' []]; cbn in Hm; by rewrite Hm. Qed.

Lemma any_then {A B} (m : AM A) (f : A → AM B) Q s :
  (∀ x s', m s = (s', Ok x) → wp (f x) (λ _, True) Q s') → wp (m ≫= f) (λ _, True) Q s.
Proof. intros Hf. apply wp_bind, wp_intro; [done|]. auto. Qed.

(** What may become of the Disc [d] of a disc in this drive, found by the agent in state [s] with
    status [st]. *)
Section handled.
Context `{Tools, Watched, Outer, Clock} (a : AgentArgs) (dev : string) (forced : bool) (label fp name : string).
Context (s : Agent) (d : Disc) (st : DiscStatus).

(** The missing sectors can be read: a rescue is pending and its map is in the work dir. *)
Definition rescue_left : Prop :=
  (∃ x, st_damage st = Some x ∧ rescue_pending x = true) ∧ is_Some (files_of s !! path_join (path_join (aa_work_root a) fp) "raw.map").
(** An imported disc that is to be ripped again. *)
Definition asked_again : Prop :=
  (∃ b, st_backup st = Some b ∧ method b = "import") ∧ ∃ f, f ∈ aa_rerip a ∧ trim f = fp.
(** Another drive is at it: the API server, asked, has a heartbeat of it younger than the lease. *)
Definition beats (drive : Drive) (now : Z) : Prop :=
  ∃ t, heartbeat_of drive = Some t ∧ (0 ≤ Z.quot (now - t) (10 ^ 9) < LEASE)%Z.
Definition taken_elsewhere : Prop :=
  st_phase st = BackingUp ∧ ∃ n drive, st_drive st = Some n ∧ n ≠ drive_name a dev ∧ ag_drives s !! n = Some drive ∧
    fate (S (step_of s)) = Ran ∧ beats drive (time_at (S (S (step_of s)))).
Definition to_be_read : Prop := rescue_left ∨ ((st_backup st = None ∨ asked_again) ∧ ¬ taken_elsewhere).

Definition begun (message since : string) : Disc :=
  with_status (with_attempts (u32_add (st_attempts st) 1) (agent_start label fp (drive_name a dev) message since st)) d.
Inductive being_read : Disc → Prop :=
  | read_begun message since : to_be_read → being_read (begun message since)
  (** an imported disc is not held any more and takes the name and number of its preset *)
  | read_again message since : to_be_read → asked_again →
      being_read (with_spec (with_spec_fields (preset a fp) (disc_spec d)) (begun message since)).
Inductive handled : Disc → Prop :=
  | handled_not : handled d
  | handled_reading d' : being_read d' → handled d'
  (** what is recorded was found by a backup that ran while the Disc said so *)
  | handled_done d' st' resume s1 s2 b damage msg since :
      being_read d' → disc_status d' = Some st' → ag_discs s1 !! name = Some d' →
      backup_and_upload a dev forced label fp name resume s1 = (s2, Ok (b, damage, msg)) →
      handled (with_status (agent_done b damage msg (drive_name a dev) since st') d')
  | handled_failed d' st' resume s1 s2 e since :
      being_read d' → disc_status d' = Some st' → ag_discs s1 !! name = Some d' →
      backup_and_upload a dev forced label fp name resume s1 = (s2, Err e) →
      handled (with_status (agent_failed ("backup failed: " +:+ alternate e) since st') d').
End handled.

Section refines.
#[local] Set Default Proof Using "Type*".
Context `{Tools, Watched, Outer, Clock} (a : AgentArgs) (dev : string) (forced : bool) (label fp name : string) (s0 : Agent).
Context (d : Disc) (st : DiscStatus) (Hst : disc_status d = Some st).
Notation read' := (being_read a dev label fp s0 d st).
Notation handled' := (handled a dev forced label fp name s0 d st).

Lemma wants_asked : wants_rerip (aa_rerip a) fp st = true ↔ asked_again a fp st.
Proof using Type.
  unfold wants_rerip, asked_again. rewrite andb_true_iff, existsb_exists. destruct (st_backup st) as [b|]; [|naive_solver].
  rewrite String.eqb_eq. setoid_rewrite String.eqb_eq. setoid_rewrite list_elem_of_In. naive_solver.
Qed.
Lemma listed_asked : is_import st && listed a fp = true → asked_again a fp st.
Proof using Type.
  unfold is_import, listed, asked_again. rewrite andb_true_iff. destruct (st_backup st) as [b|]; [|naive_solver].
  rewrite bool_decide_eq_true. intros [Hm (f & Hf & Ht%bool_decide_eq_true)%existsb_exists]. apply list_elem_of_In in Hf. split; [by exists b|by exists f].
Qed.

(** The disc is one of these, and the other discs are as they were. *)
Definition along (P : Disc → Prop) (discs : gmap string Disc) : Prop :=
  (∃ d', discs !! name = Some d' ∧ P d') ∧ ∀ n, n ≠ name → discs !! n = ag_discs s0 !! n.

Lemma along_mono (P Q : Disc → Prop) discs : (∀ d, P d → Q d) → along P discs → along Q discs.
Proof. intros HPQ [(d' & E & HP) Ho]. split; [|done]. exists d'. auto. Qed.
Lemma patch_wp (P Q : Disc → Prop) f s : along P (ag_discs s) → (∀ d, P d → Q (f d)) →
  wp (patch_disc name f) (λ s', along (λ d, P d ∨ Q d) (ag_discs s')) (λ _ s', along Q (ag_discs s')) s.
Proof.
  intros [(d' & E & HP) Ho] Hf. unfold wp, patch_disc, api. rewrite E. cbn.
  assert (∀ n, n ≠ name → <[name:=f d']> (ag_discs s) !! n = ag_discs s0 !! n) as Ho'.
  { intros n Hn. rewrite lookup_insert_ne by done. by apply Ho. }
  destruct (fate _); cbn; (split; [|done]).
  - exists (f d'). rewrite lookup_insert_eq. auto.
  - exists d'. auto.
  - exists (f d'). rewrite lookup_insert_eq. auto.
Qed.
Lemma along_wp {A} (m : AM A) P s : discs_kept m → along P (ag_discs s) → (∀ d, P d → handled' d) →
  wp m (λ s', along handled' (ag_discs s')) (λ _ s', along P (ag_discs s')) s.
Proof.
  intros Hm HP Hh. eapply wp_mono; [by apply (discs_wp m (along P))| |done]. intros s'. by apply along_mono.
Qed.
Lemma along_then {A B} (m : AM A) (f : A → AM B) P (Q : B → Agent → Prop) s : discs_kept m → along P (ag_discs s) →
  (∀ d, P d → handled' d) →
  (∀ x s', m s = (s', Ok x) → along P (ag_discs s') → wp (f x) (λ s', along handled' (ag_discs s')) Q s') →
  wp (m ≫= f) (λ s', along handled' (ag_discs s')) Q s.
Proof.
  intros Hm HP Hh Hf. pose proof (along_wp m P s Hm HP Hh) as Hw. apply wp_bind. unfold wp in *.
  specialize (Hf). destruct (m s) as [s' [x|e]] eqn:E; [|done]. by apply Hf.
Qed.

Lemma known_wp s : files_of s = files_of s0 → ag_drives s = ag_drives s0 → step_of s = S (step_of s0) →
  wp (known a dev label fp name d) (λ _, True) (λ r _, ∀ n resume, r = Some (n, resume) → n = name ∧ to_be_read a dev fp s0 st) s.
Proof.
  intros Ef Edr Es. unfold known. rewrite Hst. change (default default_disc_status (Some st)) with st. cbv zeta.
  apply any_then. intros raw_map s1 E1. unfold host, is_file, gets in E1. injection E1 as <- <-.
  match goal with |- context [bool_decide ?P] => set (raw := bool_decide P) end.
  assert (raw = true → is_Some (files_of s0 !! path_join (path_join (aa_work_root a) fp) "raw.map")) as Hraw.
  { intros E%bool_decide_eq_true. by rewrite <- Ef. }
  clearbody raw. match goal with |- wp _ _ _ ?s1 => assert (s1 = s) as -> by (by destruct s) end.
  match goal with |- context [if ?b then _ else _] => destruct b eqn:Er end.
  { apply wp_ret. intros n resume [= <- _]. split; [done|]. left. apply andb_true_iff in Er as [Er Hr]. split; [|by apply Hraw].
    destruct (st_damage st) as [x|]; [by exists x|done]. }
  match goal with |- context [if ?b then _ else _] => destruct b eqn:Ea end.
  { do 2 (apply any_then; intros ? ? _). by apply wp_ret. }
  assert (st_backup st = None ∨ asked_again a fp st) as Hback.
  { destruct (st_backup st) eqn:Eb; [right|by left]. apply wants_asked. by destruct (wants_rerip _ _ _). }
  apply any_then. intros alive s2 Eal. destruct alive.
  { apply any_then; intros ? ? _. by apply wp_ret. }
  do 2 (apply any_then; intros ? ? _). apply wp_ret. intros n resume [= <- _]. split; [done|]. right. split; [done|].
  intros (Hp & n & drive & Hn & Hne & Hd & Hfate & (t & Ht & Hlt)).
  rewrite bool_decide_eq_true_2 in Eal by done. rewrite Hn in Eal.
  rewrite bool_decide_eq_false_2 in Eal by congruence. cbn [andb negb] in Eal.
  unfold drive_alive, get_drive, api, ok, mbind, SE_bind, gets, mret, SE_ret in Eal. cbn in Eal.
  rewrite Es, Hfate, Edr, Hd in Eal. cbn in Eal. rewrite Ht, Es in Eal. injection Eal as _ Eal. symmetry in Eal.
  destruct Hlt as [Hl1%Z.leb_le Hl2%Z.ltb_lt]. by rewrite Hl1, Hl2 in Eal.
Qed.

Lemma get_status_wp s : along (λ d', d' = d) (ag_discs s) →
  wp (get_disc_status name) (λ s', along handled' (ag_discs s')) (λ prev s', prev = st ∧ along (λ d', d' = d) (ag_discs s')) s.
Proof.
  intros Hd. pose proof Hd as [(d' & E & ->) Ho]. unfold wp, get_disc_status, api. rewrite E. cbn. rewrite Hst.
  destruct (fate _); cbn; [by split|eapply along_mono; [|exact Hd]; intros ? ->; apply handled_not..].
Qed.
Lemma read_status d' : read' d' → ∃ st', disc_status d' = Some st'.
Proof. by intros []; eexists. Qed.

Lemma rip_wp resume s : to_be_read a dev fp s0 st → along (λ d', d' = d) (ag_discs s) →
  wp (rip a dev forced label fp name resume) (λ s', along handled' (ag_discs s')) (λ _ s', along handled' (ag_discs s')) s.
Proof.
  intros Hread Hd. assert (∀ d', d' = d → handled' d') as Hnot by (intros ? ->; apply handled_not).
  pose proof (handled_reading a dev forced label fp name s0 d st) as Hreading.
  unfold rip. apply wp_bind. eapply wp_mono; [by apply get_status_wp|done|]. intros prev s1 [-> H1'].
  eapply along_then; [done|exact H1'|done|]. intros t s2 _ H2'.
  apply wp_bind. eapply wp_mono; [apply (patch_wp (λ d', d' = d) (λ d', ∃ m t, d' = begun a dev label fp d st m t)); [exact H2'|]| |].
  { intros d' ->. rewrite Hst. by eexists _, _. }
  { intros s'. apply along_mono. intros d' [->|(m & t' & ->)]; [apply handled_not|by apply Hreading, read_begun]. }
  intros [] s3 H3'. apply wp_bind. eapply (wp_mono _ (λ s', along handled' (ag_discs s')) _ (λ _ s', along read' (ag_discs s'))); [|done|].
  { destruct (is_import st && listed a fp) eqn:Eask.
    2:{ apply wp_ret. eapply along_mono; [|exact H3']. intros d' (m & t' & ->). by apply read_begun. }
    apply listed_asked in Eask. unfold drop_. apply wp_bind, wp_ok.
    eapply wp_mono; [apply (patch_wp (λ d', ∃ m t, d' = begun a dev label fp d st m t) read'); [exact H3'|]| |].
    - intros d' (m & t' & ->). by apply (read_again a dev label fp s0 d st m t').
    - intros s' Hs'. apply wp_ret. eapply along_mono, Hs'. intros d' [(m & t' & ->)|Hd']; [by apply read_begun|done].
    - intros ? s' Hs'. by apply wp_ret. }
  intros [] s4 H4'. eapply along_then; [apply discs_try, discs_backup|exact H4'|done|]. intros r s5 E5 H5'.
  assert (∃ d', ag_discs s4 !! name = Some d' ∧ ag_discs s5 !! name = Some d' ∧ read' d') as (d4 & E4 & E5' & Hr4).
  { destruct H4' as [(d4 & E4 & Hr4) _]. exists d4. split_and!; [done| |done].
    pose proof (discs_backup a dev forced label fp name resume s4) as Hk. unfold try in E5.
    destruct (backup_and_upload _ _ _ _ _ _ _ s4) as [s' r']. injection E5 as <- _. cbn in Hk. by rewrite Hk. }
  assert (along (λ d', d' = d4) (ag_discs s5)) as H5'' by (destruct H5' as [_ Ho]; split; [by exists d4|done]).
  assert (∀ d', d' = d4 → handled' d') as Hd4 by (intros ? ->; by apply Hreading).
  destruct (read_status d4 Hr4) as [st4 Est4].
  eapply along_then; [done|exact H5''|done|]. intros t' s6 _ H6'.
  assert (∀ f, handled' (with_status (f st4) d4) →
    wp (patch_status name f) (λ s', along handled' (ag_discs s')) (λ _ s', along handled' (ag_discs s')) s6) as Hend.
  { intros f Hf. eapply wp_mono; [apply (patch_wp (λ d', d' = d4) handled'); [exact H6'|intros d' ->; by rewrite Est4]| |done].
    intros s'. apply along_mono. intros d' [->|]; [by apply Hd4|done]. }
  unfold try in E5. destruct (backup_and_upload a dev forced label fp name resume s4) as [s5' r'] eqn:Eb.
  injection E5 as -> ->. destruct r as [[[b damage] msg]|e].
  - apply wp_bind. eapply wp_mono; [apply Hend|done|].
    + by apply (handled_done a dev forced label fp name s0 d st d4 st4 resume s4 s5).
    + intros [] s7 H7'. eapply along_then; [done|exact H7'|done|]. intros ? s8 _ H8'. eapply along_wp; [apply discs_over|exact H8'|done].
  - apply wp_bind. apply wp_ok. assert (∀ r s7, along handled' (ag_discs s7) → wp ((λ _ : option (), _ ← notify (label +:+ ": " +:+ "backup failed: " +:+ alternate e) "failed";
       over a dev (label +:+ ": " +:+ "backup failed: " +:+ alternate e) (Some name)) r)
       (λ s', along handled' (ag_discs s')) (λ _ s', along handled' (ag_discs s')) s7) as Hrest.
    { intros r s7 H7'. cbn beta. eapply along_then; [done|exact H7'|done|]. intros ? s8 _ H8'. eapply along_wp; [apply discs_over|exact H8'|done]. }
    eapply wp_mono; [apply Hend|intros s7; apply (Hrest None)|intros ? s7; apply (Hrest (Some ()))].
    by apply (handled_failed a dev forced label fp name s0 d st d4 st4 resume s4 s5).
Qed.
(** The disc is the only one with this fingerprint. *)
Lemma handle_wp : ag_discs s0 !! name = Some d →
  fp_label d = Some fp → (∀ n d', ag_discs s0 !! n = Some d' → fp_label d' = Some fp → n = name) →
  wp (handle a dev forced label fp) (λ s', along handled' (ag_discs s')) (λ _ s', along handled' (ag_discs s')) s0.
Proof.
  intros Ed Hl Huniq. assert (∀ d', d' = d → handled' d') as Hnot by (intros ? ->; apply handled_not).
  assert (along (λ d', d' = d) (ag_discs s0)) as H0' by (split; [by exists d|done]).
  unfold handle. apply wp_bind. unfold existing at 1, api, wp. cbn.
  assert (head (List.filter (λ kv : string * Disc, bool_decide (fp_label kv.2 = Some fp)) (map_to_list (ag_discs s0))) = Some (name, d)) as ->.
  { set (l := List.filter _ _). assert (∀ x, x ∈ l → x = (name, d)) as Hall.
    { intros [n d'] Hx%list_elem_of_In. apply filter_In in Hx as [Hx%list_elem_of_In%elem_of_map_to_list Hy%bool_decide_eq_true]. cbn in Hy.
      pose proof (Huniq n d' Hx Hy) as ->. rewrite Ed in Hx. by injection Hx as ->. }
    assert ((name, d) ∈ l) as Hin.
    { apply list_elem_of_In, filter_In. split; [by apply list_elem_of_In, elem_of_map_to_list|by apply bool_decide_eq_true]. }
    destruct l as [|x l]; [by apply not_elem_of_nil in Hin|]. cbn. f_equal. apply Hall. by left. }
  destruct (fate _); cbn; [|by apply (along_mono _ _ _ Hnot)..].
  apply wp_bind. set (s1 := ticked s0). assert (along (λ d', d' = d) (ag_discs s1)) as H1' by done.
  pose proof (known_wp s1 eq_refl eq_refl eq_refl) as Hk. pose proof (discs_known a dev label fp name d s1) as Hd.
  apply wp_intro; [intros s2 e E; rewrite E in Hd; cbn in Hd; rewrite Hd; by apply (along_mono _ _ _ Hnot)|].
  intros s2 start E. rewrite E in Hd. cbn in Hd. eapply wp_Ok in Hk; [|exact E]. destruct start as [[n resume]|].
  - destruct (Hk n resume eq_refl) as [-> Hread]. apply rip_wp; [done|]. by rewrite Hd.
  - apply wp_ret. rewrite Hd. by apply (along_mono _ _ _ Hnot).
Qed.
End refines.

(** ** The agent is one of the actors of [Lifecycle] *)

Section steps.
Context `{Tools, Watched, Outer, Clock, SerdeJson} (ca : ControllerArgs) (env_var : string → option string).
Context (a : AgentArgs) (dev : string) (forced : bool) (label fp name : string) (s0 : Agent) (cached : Controller.World → Disc → Prop).
Notation lstep := (Lifecycle.step ca env_var (aa_rerip a) cached).

(** A disc that is to be read is one [Lifecycle]'s agent may start on. *)
Lemma to_be_read_starts st : to_be_read a dev fp s0 st →
  ∃ raw_map alive, agent_starts (aa_rerip a) (drive_name a dev) raw_map alive fp st = true.
Proof.
  unfold agent_starts, handle_existing. intros [[(x & Hx & Hp) _]|[Hb _]].
  - exists true, false. by rewrite Hx, Hp.
  - exists false, false. rewrite andb_false_r. destruct Hb as [->|Ha%wants_asked]; [|rewrite Ha, andb_false_r]; cbn; by rewrite andb_false_r.
Qed.
Lemma begun_steps d st message since w : w_disc w = d → disc_status d = Some st → st_fingerprint st = fp → to_be_read a dev fp s0 st →
  lstep w (with_disc (begun a dev label fp d st message since) w).
Proof.
  intros Hw Hst Hfp (raw_map & alive & Hs)%to_be_read_starts. unfold begun.
  replace (with_attempts _ _) with (agent_start label (st_fingerprint st) (drive_name a dev) message since st) by (by rewrite Hfp).
  rewrite <- Hw. eapply (step_agent_start ca env_var (aa_rerip a) cached w st); [by rewrite Hw|by rewrite Hfp].
Qed.
Lemma handled_steps d st w d' : w_disc w = d → disc_status d = Some st → st_fingerprint st = fp →
  handled a dev forced label fp name s0 d st d' → rtc lstep w (with_disc d' w).
Proof.
  intros Hw Hst Hfp.
  assert (∀ d', being_read a dev label fp s0 d st d' → rtc lstep w (with_disc d' w) ∧
    ∀ st', disc_status d' = Some st' → st_phase st' = BackingUp) as Hread.
  { intros d2 [m t Hr|m t Hr _]; (split; [|by intros ? [= <-]]); [by apply rtc_once, begun_steps|].
    eapply rtc_r; [by apply rtc_once, (begun_steps d st m t)|].
    exact (step_edit ca env_var (aa_rerip a) cached (with_disc (begun a dev label fp d st m t) w) _). }
  intros [|d2 Hd2|d2 st2 resume s1 s2 b damage msg since Hd2 E2 _ _|d2 st2 resume s1 s2 e since Hd2 E2 _ _].
  - rewrite <- Hw. destruct w. apply rtc_refl.
  - by apply Hread.
  - destruct (Hread d2 Hd2) as [Hr Hp]. eapply rtc_r; [exact Hr|].
    eapply (step_agent_done ca env_var (aa_rerip a) cached (with_disc d2 w) st2); [exact E2|right; left; by apply Hp].
  - destruct (Hread d2 Hd2) as [Hr Hp]. eapply rtc_r; [exact Hr|].
    eapply (step_agent_failed ca env_var (aa_rerip a) cached (with_disc d2 w) st2); [exact E2|right; left; by apply Hp].
Qed.
End steps.


(** ** A machine with these laws

    ddrescue finds nothing more to read, ddrescuelog prints the map, and MakeMKV decrypts an image by
    copying it. *)

Module Reference.
Definition run (fs : gmap string string) (args : list string) : gmap string string * option Output :=
  let done out := Some (mkOutput true out "") in
  match args with
  | "ddrescuelog" :: l => (fs, done (default "" (last l ≫= λ m, fs !! m)))
  | ["makemkvcon"; "-r"; "--noscan"; "backup"; "--decrypt"; src; iso] =>
      match strip_prefix "iso:" src ≫= λ f, fs !! f with Some c => (<[iso := c]> fs, done "") | None => (fs, done "") end
  | _ => (fs, done "")
  end.
#[export] Instance tools : Tools := {|
  tool_run _ fs _ args := run fs args;
  disk _ _ := Whole;
  dir_order _ l := l;
  from_json _ := Some (Object []);
|}.
#[export] Instance tools_laws : ToolsLaws.
Proof.
  split; [|done]. intros n fs limit args p Hp. cbn in *. unfold run.
  repeat (case_match; try done). subst. cbn. rewrite lookup_insert_ne; [done|]. intros ->.
  cbn -[below] in Hp. apply orb_false_iff in Hp as [Hp _]. by rewrite bool_decide_eq_true_2 in Hp.
Qed.
#[export] Instance watched : Watched := λ _ _ _ _, [].
#[export] Instance backup_laws : BackupLaws.
Proof. split; [typeclasses eauto|by intros ? ? ? ? ? ? Hl%not_elem_of_nil|done]. Qed.
#[export] Instance outer : Outer := {|
  fate _ := Ran;
  time_at _ := 0%Z;
  elapsed _ _ := 60%N;
  free_gb _ _ := None;
  digest s := s;
  new_uid _ := "uid";
|}.
Definition args : AgentArgs := mkAgentArgs "n" "media" "/s" "/w" 20 60 15 [] None "{}".
Definition agent (files : list (string * string)) (discs : list (string * Disc)) : Agent :=
  mkAgent (mkWorld (list_to_map files) 0) (list_to_map discs) ∅ None [].
End Reference.
#[local] Existing Instances Reference.tools Reference.watched Reference.backup_laws Reference.outer test_clock Json.Reference.serde.

Definition whole_map : string :=
  join (String newline "") ["rescued: 7411 MB, in 1 area(s) (100%)"; "non-tried: 0 B, in 0 area(s) (0%)"].

(** A rescue of disc F was finished in staging but its upload failed: the map in staging says that nothing
    is missing, and the raw image there is gone; the work volume has the image and the map of the first
    attempt. When the disc is put back, only the image is fetched from the work volume: the finished map
    vouches for the old image, whose gaps become part of an undamaged master. *)
Definition interrupted : Agent :=
  Reference.agent [("/s/F/raw.map", whole_map); ("/s/F/master.iso", "every sector");
                   ("/w/F/raw.iso", "gaps"); ("/w/F/raw.map", rescued_text); ("/w/F/master.iso", "gaps")] [].
Example gaps_taken_for_whole :
  let '(s', r) := backup_and_upload Reference.args "/dev/sr0" false "F" "F" "f" true interrupted in
  files_of s' !! "/w/F/master.iso" = Some "gaps" ∧ files_of s' !! "/w/F/raw.iso" = None ∧
  r = Ok (mkBackup "rescue" 4 60 0 "gaps", None, "0 MB in 1m00s (rescue)").
Proof. vm_compute. done. Qed.

Lemma reference_separate label : separate (mkStaging "/s/F" "/dev/sr0" label) "/w/F".
Proof. split_and!; [by exists "s/F"|by exists "w/F"|done|done..]. Qed.

(** A damaged disc, read again: the gaps stay, and so do its image and map. *)
Definition damaged : Agent :=
  Reference.agent [("/s/F/raw.iso", "sectors"); ("/s/F/raw.map", rescued_text); ("/w/F/master.iso", "older")] [].
Lemma upload_atomic_witness :
  let '(s', _) := backup_and_upload Reference.args "/dev/sr0" false "F" "F" "f" true damaged in
  images_kept "/w/F" (ag_host s').
Proof.
  assert (∃ b d msg, (backup_and_upload Reference.args "/dev/sr0" false "F" "F" "f" true damaged).2 = Ok (b, Some d, msg) ∧ rescue_pending d = true) as (b & d & msg & E & Hp).
  { vm_compute. do 3 eexists. split; reflexivity. }
  pose proof (upload_atomic Reference.args "/dev/sr0" "F" "F" false "f" true damaged) as T. revert T E.
  generalize (backup_and_upload Reference.args "/dev/sr0" false "F" "F" "f" true damaged). intros [s' r] T E. cbn in E.
  destruct (T s' r (reference_separate "F") eq_refl) as [_ T2]. exact (proj2 (T2 b (Some d) msg E) d eq_refl Hp).
Defined.

(** The disc of [Lifecycle]'s tests, seen for the first time by an agent. *)
Definition seen_disc : Disc :=
  mkDisc "elf-abc" (Some "media") (Some {[FINGERPRINT_LABEL := "F"]}) "u" test_disc_spec
    (Some (mkDiscStatus Detected None "X" "F" None 0 0 None None false [] [] None None None None None None None)).
