(* ===== verification/Org.v ===== *)
(** * Org notes ([org-bridge/src/orgparse.rs], paths of [org-bridge/src/syncthing.rs])

    What org-bridge takes from a note: the headings with a timestamp or a TODO keyword. The org syntax is
    the orgize library's: the class [Orgize] gives the headlines of a text, in document order, with the
    titles around them. *)

From Stdlib Require Import Ascii.
From stdpp Require Import options.
From S2P Require Import Prelude Text.

(** ** Keywords *)

Definition is_comma (c : ascii) : bool := bool_decide (c = ","%char).
Definition keyword_of (w : string) : string := default w (fst <$> split_once "(" w).
Definition words (part : string) : list string :=
  filter (λ w, w ≠ "") (keyword_of ∘ str <$> pieces (λ c, is_whitespace c || is_comma c) (chars part)).
Definition parse_keywords (spec : string) : list string * list string :=
  match split_once "|" spec with
  | Some (open, done) => (words open, words done)
  | None =>
      let all := words spec in
      (take (length all - 1) all, match last all with Some k => [k] | None => [] end)
  end.
(** None: [ORG_TODO_KEYWORDS] is not set. *)
Definition keywords (spec : option string) : list string * list string :=
  match spec with Some s => parse_keywords s | None => (["TODO"], ["DONE"]) end.
Definition is_done_state (spec : option string) (state : string) : bool := bool_decide (state ∈ (keywords spec).2).

(** ** Entries *)

Record Timestamp : Type := mkTimestamp {
  year : N; month : N; day : N; hour : option N; minute : option N; end_hour : option N; end_minute : option N
}.
#[export] Instance Timestamp_eq_dec : EqDecision Timestamp.
Proof. solve_decision. Defined.
Definition date (y m d : N) : Timestamp := mkTimestamp y m d None None None None.
Definition datetime (y m d h mi : N) : Timestamp := mkTimestamp y m d (Some h) (Some mi) None None.
Definition range (y m d h mi eh emi : N) : Timestamp := mkTimestamp y m d (Some h) (Some mi) (Some eh) (Some emi).

Record OrgEntry : Type := mkEntry {
  e_title : string; heading_path : string; e_file : string; todo_state : option string; priority : option ascii;
  tags : list string; scheduled : list Timestamp; deadline : list Timestamp; active_timestamps : list Timestamp
}.

(** orgize's headline: the tokens of its first planning timestamps, and the titles of the headlines around
    it, innermost first. *)
Record Tokens : Type := mkTokens {
  year_start : option string; month_start : option string; day_start : option string; hour_start : option string;
  minute_start : option string; hour_end : option string; minute_end : option string
}.
Record Headline : Type := mkHeadline {
  title_raw : string; todo_keyword : option string; priority_token : option string; tag_tokens : list string;
  scheduled_token : option Tokens; deadline_token : option Tokens; around : list string
}.
Class Orgize : Type := headlines : list string * list string → string → list Headline.

Definition u8_modulus : N := 2 ^ 8.
Definition u16_modulus : N := 2 ^ 16.
Definition num (modulus : N) (t : option string) : option N := t ≫= parse_uint modulus.
Definition parse_orgize_timestamp (t : Tokens) : option Timestamp :=
  y ← num u16_modulus (year_start t); m ← num u8_modulus (month_start t); d ← num u8_modulus (day_start t);
  Some (mkTimestamp y m d (num u8_modulus (hour_start t)) (num u8_modulus (minute_start t))
          (num u8_modulus (hour_end t)) (num u8_modulus (minute_end t))).
Definition build_heading_path (h : Headline) : string := join "/" (reverse (trim <$> (title_raw h :: around h))).
Definition first_char (s : string) : option ascii := head (chars s).
Definition entry_of (file : string) (h : Headline) : option OrgEntry :=
  let title := trim (title_raw h) in
  let scheduled := option_list (scheduled_token h ≫= parse_orgize_timestamp) in
  let deadline := option_list (deadline_token h ≫= parse_orgize_timestamp) in
  if bool_decide (title = "") then None
  else if bool_decide (scheduled = []) && bool_decide (deadline = []) && bool_decide (todo_keyword h = None) then None
  else Some (mkEntry title (build_heading_path h) file (todo_keyword h) (priority_token h ≫= first_char) (tag_tokens h) scheduled deadline []).
Definition parse_org_content `{Orgize} (spec : option string) (content file : string) : list OrgEntry :=
  omap (entry_of file) (headlines (keywords spec) content).

(** ** Paths *)

Definition is_hidden (path : string) : bool := existsb (starts_with ".") (split_char "/" path).
Definition is_org_file (path : string) : bool := ends_with ".org" path && negb (is_hidden path).
(** [Path::extension] is [org]: a name that is only a dot and the extension has none. *)
Definition has_org_extension (path : string) : bool :=
  match rsplit_once "." (default path (snd <$> rsplit_once "/" path)) with
  | Some (stem, ext) => negb (bool_decide (stem = "")) && bool_decide (ext = "org")
  | None => false
  end.

(** ** The source's own tests *)

Example keyword_spec :
  parse_keywords "DRAFTING PLANNED(p!) IN-PROGRESS(i!/@) | COMPLETED(c@) REJECTED" = (["DRAFTING"; "PLANNED"; "IN-PROGRESS"], ["COMPLETED"; "REJECTED"]) ∧
  parse_keywords "TODO NEXT DONE" = (["TODO"; "NEXT"], ["DONE"]).
Proof. vm_compute. done. Qed.
Example hidden_paths :
  is_org_file ".stversions/inbox~20261016-164002.org" = false ∧ is_org_file "notes/.stversions/a.org" = false ∧
  is_org_file "notes/inbox.org" = true ∧ is_org_file "readme.md" = false ∧ is_org_file "file.org.bak" = false ∧
  has_org_extension "a/notes.org" = true ∧ has_org_extension "a/.org" = false.
Proof. vm_compute. done. Qed.
