(* ===== verification/Caldav.v ===== *)
(** * The CalDAV client ([org-bridge/src/caldav.rs])

    Requests with Digest or Basic authentication, the three operations on the calendar, and the iCalendar
    text of an entry. The server is the class [Server]: what it does to its resources and what it answers,
    at each step. MD5, Base64, the URL parser and the client nonce are library code. *)

From Stdlib Require Import Ascii.
From stdpp Require Import options.
From S2P Require Import Prelude Text State Org.

(** ** Digest challenges *)

Record Challenge : Type := mkChallenge { realm : string; nonce : string; opaque : option string; qop : bool }.

(** A quoted or plain value, and what follows it. *)
Definition value_of (after : string) : option (string * string) :=
  match strip_prefix quote after with
  | Some q => split_once "034" q
  | None => Some (match split_once "," after with Some (v, t) => (v, "," +:+ t) | None => (after, "") end)
  end.
Definition trim_start (s : string) : string := trim_start_matches is_whitespace s.
(** Each round takes at least the [=] away: the fuel is the length. *)
Fixpoint parse_fields (fuel : nat) (s : string) (kv : gmap string string) : option (gmap string string) :=
  match fuel, split_once "=" s with
  | _, None => Some kv
  | O, _ => None
  | S fuel, Some (key, after) =>
      let key := to_lowercase (trim (trim_start_matches is_comma (trim key))) in
      '(v, tail) ← value_of (trim_start after);
      parse_fields fuel (trim_start_matches is_comma (trim_start tail)) (<[key := v]> kv)
  end.
Definition offers_auth (q : string) : bool := existsb (λ x, bool_decide (trim x = "auth")) (split_char "," q).
Definition parse_challenge (h : string) : option Challenge :=
  rest ← match strip_prefix "Digest " (trim h) with Some r => Some r | None => strip_prefix "digest " (trim h) end;
  kv ← parse_fields (String.length rest) rest ∅;
  r ← kv !! "realm"; n ← kv !! "nonce";
  Some (mkChallenge r n (kv !! "opaque") (match kv !! "qop" with Some q => offers_auth q | None => false end)).

(** ** Requests *)

Record Req : Type := mkReq { rq_method : string; rq_url : string; rq_headers : list (string * string); rq_body : option string }.
Record Resp : Type := mkResp { rs_status : N; rs_challenges : list string; rs_text : string }.
Definition is_success (r : Resp) : bool := (200 <=? rs_status r)%N && (rs_status r <? 300)%N.

Class Server : Type := {
  (** The resources after the request, and the answer, if one arrived. *)
  serve : nat → gmap string string → Req → gmap string string * option Resp;
  md5_hex : string → string;
  sha256_hex : string → string;
  base64 : string → string;
  (** the path and query of a URL *)
  uri_of : string → option string;
  cnonce : nat → string;
  (** a status as reqwest displays it *)
  status_text : N → string;
  (** whether the state database does what it is told *)
  db_works : nat → bool;
}.

Record Exported : Type := mkExported { x_uid : string; content_hash : string; x_file : string; x_heading_path : string; entry_type : string }.
(** The server's resources by URL, the last challenge and its request counter, and the state database. *)
Record World : Type := mkWorld {
  w_dav : gmap string string; w_auth : option Challenge * N; w_db : gmap string Exported; w_step : nat
}.
Inductive BridgeError : Type := BIo | BDb | BCalDav (msg : string).
Notation M := (SE World BridgeError).

Record Client : Type := mkClient { c_base : string; c_user : string; c_pass : string }.
Definition new (base_url user pass : string) : Client :=
  mkClient (trim_end_matches (λ c, bool_decide (c = "/"%char)) base_url) user pass.

(** [{:08x}] *)
Definition hex_digit (n : N) : ascii := ascii_of_N (if n <? 10 then 48 + n else 87 + n)%N.
Fixpoint hex_digits (fuel : nat) (n : N) (acc : list ascii) : list ascii :=
  match fuel with
  | O => acc
  | S fuel => if (n =? 0)%N then acc else hex_digits fuel (n / 16) (hex_digit (n mod 16) :: acc)
  end.
Definition hex8 (n : N) : string :=
  let d := hex_digits 16 n [] in str (replicate (8 - length d) "0"%char ++ d).
Definition quoted (s : string) : string := quote +:+ s +:+ quote.

Section client.
Context `{Server} (c : Client).

Definition digest_header (ch : Challenge) (method uri : string) (nc : N) (cn : string) : string :=
  let ha1 := md5_hex (c_user c +:+ ":" +:+ realm ch +:+ ":" +:+ c_pass c) in
  let ha2 := md5_hex (method +:+ ":" +:+ uri) in
  let nc := hex8 nc in
  let response := if qop ch then md5_hex (ha1 +:+ ":" +:+ nonce ch +:+ ":" +:+ nc +:+ ":" +:+ cn +:+ ":auth:" +:+ ha2)
                  else md5_hex (ha1 +:+ ":" +:+ nonce ch +:+ ":" +:+ ha2) in
  "Digest username=" +:+ quoted (c_user c) +:+ ", realm=" +:+ quoted (realm ch) +:+ ", nonce=" +:+ quoted (nonce ch)
  +:+ ", uri=" +:+ quoted uri +:+ ", response=" +:+ quoted response
  +:+ (if qop ch then ", qop=auth, nc=" +:+ nc +:+ ", cnonce=" +:+ quoted cn else "")
  +:+ match opaque ch with Some o => ", opaque=" +:+ quoted o | None => "" end.
Definition u64_succ (n : N) : N := u64_wrap (n + 1).
Definition authorization (method uri : string) : M (option string) := λ w,
  match (w_auth w).1 with
  | None => (w, Ok None)
  | Some ch =>
      let nc := u64_succ (w_auth w).2 in
      (mkWorld (w_dav w) (Some ch, nc) (w_db w) (w_step w), Ok (Some (digest_header ch method uri nc (cnonce (w_step w)))))
  end.
Definition exchange (rq : Req) : M Resp := λ w,
  let '(dav, r) := serve (w_step w) (w_dav w) rq in
  (mkWorld dav (w_auth w) (w_db w) (S (w_step w)), match r with Some r => Ok r | None => Err (BCalDav "HTTP error") end).
Definition set_challenge (ch : Challenge) : M () := modify (λ w, mkWorld (w_dav w) (Some ch, 0%N) (w_db w) (w_step w)).
Definition is_basic (h : string) : bool := starts_with "basic" (to_lowercase (trim h)).
(** The first attempt meets a challenge with another; the second one's answer counts. *)
Fixpoint attempts (more : nat) (basic : bool) (method url uri : string) (headers : list (string * string)) (body : option string) (content_type : string) : M Resp :=
  auth ← (if basic then mret (Some ("Basic " +:+ base64 (c_user c +:+ ":" +:+ c_pass c))) else authorization method uri);
  r ← exchange (mkReq method url (headers ++ match body with Some _ => [("Content-Type", content_type)] | None => [] end
                                  ++ match auth with Some a => [("Authorization", a)] | None => [] end) body);
  match more with
  | O => mret r
  | S more =>
      if (rs_status r =? 401)%N then
        match head (omap parse_challenge (rs_challenges r)) with
        | Some ch => _ ← set_challenge ch; attempts more basic method url uri headers body content_type
        | None =>
            if existsb is_basic (rs_challenges r) then attempts more true method url uri headers body content_type
            else mret r
        end
      else mret r
  end.
Definition send_as (method url : string) (body : option string) (content_type : string) (headers : list (string * string)) : M Resp :=
  match uri_of url with
  | None => throw (BCalDav ("Server error: bad CalDAV URL " +:+ url))
  | Some uri => attempts 1 false method url uri headers body content_type
  end.
Definition send (method url : string) (body : option string) : M Resp := send_as method url body "text/calendar; charset=utf-8" [].

Definition url_of (uid : string) : string := c_base c +:+ "/" +:+ uid +:+ ".ics".
Definition refused (method url : string) (r : Resp) : BridgeError :=
  BCalDav ("Server error: " +:+ method +:+ " " +:+ url +:+ " returned " +:+ status_text (rs_status r) +:+ ": " +:+ rs_text r).
Definition put_event (uid ical : string) : M () :=
  r ← send "PUT" (url_of uid) (Some ical);
  if is_success r then mret () else throw (refused "PUT" (url_of uid) r).
Definition delete_event (uid : string) : M () :=
  r ← send "DELETE" (url_of uid) None;
  if is_success r || (rs_status r =? 404)%N then mret () else throw (refused "DELETE" (url_of uid) r).

(** [split("href>").skip(1)], as list of characters; the first piece is what precedes the first mark *)
Fixpoint split_str (fuel : nat) (p l : list ascii) : list (list ascii) :=
  match fuel, find_list p l with
  | S fuel, Some (before, after) => before :: split_str fuel p after
  | _, _ => [l]
  end.
Definition strip_suffix (suffix s : string) : option string :=
  if ends_with suffix s then Some (str (take (String.length s - String.length suffix) (chars s))) else None.
Definition is_slash (a : ascii) : bool := bool_decide (a = "/"%char).
Definition name_of_href (part : string) : option string :=
  let href := trim_end_matches is_slash (default part (fst <$> split_once "<" part)) in
  strip_suffix ".ics" (default href (snd <$> rsplit_once "/" href)).
Definition uids_in (body : string) : list string :=
  omap (λ part, name_of_href (str part)) (tail (split_str (String.length body) (chars "href>") (chars body))).
Definition propfind : string :=
  "<?xml version=" +:+ quoted "1.0" +:+ "?><d:propfind xmlns:d=" +:+ quoted "DAV:" +:+ "><d:prop><d:getetag/></d:prop></d:propfind>".
Definition list_uids : M (list string) :=
  let url := c_base c +:+ "/" in
  r ← send_as "PROPFIND" url (Some propfind) "application/xml; charset=utf-8" [("Depth", "1")];
  if is_success r then mret (uids_in (rs_text r)) else throw (refused "PROPFIND" url r).
End client.

(** ** iCalendar *)

Definition pad (width : nat) (n : N) : string := str (replicate (width - String.length (pretty n)) "0"%char) +:+ pretty n.
Definition crlf : string := String "013" (String "010" "").
Definition ymd (ts : Timestamp) : string := pad 4 (year ts) +:+ pad 2 (month ts) +:+ pad 2 (day ts).
Definition hm (h m : N) : string := pad 2 h +:+ pad 2 m +:+ "00".
Definition format_ical_datetime (ts : Timestamp) : string :=
  match hour ts, minute ts with
  | Some h, Some m => "DTSTART:" +:+ ymd ts +:+ "T" +:+ hm h m +:+ crlf
  | _, _ => "DTSTART;VALUE=DATE:" +:+ ymd ts +:+ crlf
  end.
Definition u8_add (a b : N) : N := ((a + b) `mod` u8_modulus)%N.
Definition format_ical_dtend (ts : Timestamp) : string :=
  match end_hour ts, end_minute ts with
  | Some eh, Some em => "DTEND:" +:+ ymd ts +:+ "T" +:+ hm eh em +:+ crlf
  | _, _ =>
      match hour ts, minute ts with
      | Some h, Some m =>
          let end_h := if (23 <? u8_add h 1)%N then 23%N else u8_add h 1 in
          "DTEND:" +:+ ymd ts +:+ "T" +:+ hm end_h m +:+ crlf
      | _, _ => ""
      end
  end.
Definition priority_of (e : OrgEntry) : string :=
  match priority e with Some "A"%char => "1" | Some "B"%char => "5" | Some "C"%char => "9" | _ => "0" end.
Definition categories_of (e : OrgEntry) : string :=
  if bool_decide (tags e = []) then "" else "CATEGORIES:" +:+ join "," (tags e) +:+ crlf.
Definition calendar (kind uid start stop : string) (e : OrgEntry) (status : string) : string :=
  "BEGIN:VCALENDAR" +:+ crlf +:+ "VERSION:2.0" +:+ crlf +:+ "PRODID:-//org-bridge//EN" +:+ crlf +:+ "BEGIN:" +:+ kind +:+ crlf
  +:+ "UID:" +:+ uid +:+ crlf +:+ start +:+ stop +:+ "SUMMARY:" +:+ e_title e +:+ crlf
  +:+ "DESCRIPTION:File: " +:+ e_file e +:+ " | Path: " +:+ heading_path e +:+ crlf
  +:+ "PRIORITY:" +:+ priority_of e +:+ crlf +:+ "STATUS:" +:+ status +:+ crlf +:+ categories_of e
  +:+ "END:" +:+ kind +:+ crlf +:+ "END:VCALENDAR" +:+ crlf.
(** [spec]: the configured keywords *)
Definition generate_vevent (spec : option string) (e : OrgEntry) (ts : Timestamp) (uid : string) : string :=
  let status := match todo_state e with
                | Some s => if is_done_state spec s then "COMPLETED" else "NEEDS-ACTION"
                | None => "CONFIRMED" end in
  calendar "VEVENT" uid (format_ical_datetime ts) (format_ical_dtend ts) e status.
Definition generate_vtodo (spec : option string) (e : OrgEntry) (uid : string) : string :=
  let dtstart := from_option format_ical_datetime "" (head (scheduled e)) in
  let due := from_option format_ical_datetime "" (head (deadline e)) in
  let status := match todo_state e with
                | Some s => if is_done_state spec s then "COMPLETED" else "NEEDS-ACTION"
                | None => "NEEDS-ACTION" end in
  calendar "VTODO" uid dtstart due e status.

(** ** The source's own tests *)

Definition test_entry : OrgEntry :=
  mkEntry "Write thesis" "Projects/Thesis/Write thesis" "projects.org" (Some "TODO") (Some "A"%char) ["work"; "writing"]
    [datetime 2026 3 25 10 0] [date 2026 4 1] [].
Example generates_vevent :
  let ical := generate_vevent None test_entry (datetime 2026 3 25 10 0) "test-uid-123" in
  forallb (λ p, contains p ical) ["BEGIN:VEVENT"; "UID:test-uid-123"; "SUMMARY:Write thesis"; "DTSTART:20260325T100000";
    "DTEND:20260325T110000"; "PRIORITY:1"; "STATUS:NEEDS-ACTION"; "CATEGORIES:work,writing"] = true ∧
  contains "DTEND:20260325T153000" (generate_vevent None test_entry (range 2026 3 25 14 0 15 30) "u") = true ∧
  contains "DTEND" (generate_vevent None test_entry (date 2026 3 25) "u") = false.
Proof. vm_compute. done. Qed.
(** A to-do's deadline is written as a second start, never as DUE. *)
Example vtodo_without_due :
  let ical := generate_vtodo None test_entry "u" in
  contains "DUE" ical = false ∧ contains ("DTSTART:20260325T100000" +:+ crlf +:+ "DTSTART;VALUE=DATE:20260401" +:+ crlf) ical = true.
Proof. vm_compute. done. Qed.

Example challenges :
  parse_challenge ("Digest realm=" +:+ quoted "testrealm@host.com" +:+ ", qop=" +:+ quoted "auth,auth-int" +:+ ", nonce=" +:+ quoted "dcd98b"
    +:+ ", opaque=" +:+ quoted "5ccc") = Some (mkChallenge "testrealm@host.com" "dcd98b" (Some "5ccc") true) ∧
  parse_challenge ("Basic realm=" +:+ quoted "x") = None ∧ hex8 1 = "00000001" ∧ hex8 48879 = "0000beef".
Proof. vm_compute. done. Qed.
Example lists_uids :
  uids_in ("<d:multistatus xmlns:d=" +:+ quoted "DAV:" +:+ "><d:response><d:href>/dav.php/calendars/admin/org/</d:href></d:response><d:response><d:href>/dav.php/calendars/admin/org/org-abc.ics</d:href></d:response><d:response><d:href>/dav.php/calendars/admin/org/org-todo-def.ics</d:href></d:response></d:multistatus>")
  = ["org-abc"; "org-todo-def"].
Proof. vm_compute. done. Qed.

(** ** What a request does to the calendar *)

(** A server stores and removes what it is told to, keeps its resources through any other request, and says so
    when it has; an answer may also be lost. *)
Class ServerLaws `{Server} : Prop := {
  serve_put n dav rq body dav' r : rq_method rq = "PUT" → rq_body rq = Some body → serve n dav rq = (dav', r) →
    (dav' = dav ∨ dav' = <[rq_url rq := body]> dav) ∧ ∀ x, r = Some x → is_success x = true → dav' = <[rq_url rq := body]> dav;
  serve_delete n dav rq dav' r : rq_method rq = "DELETE" → serve n dav rq = (dav', r) →
    (dav' = dav ∨ dav' = delete (rq_url rq) dav) ∧ ∀ x, r = Some x → is_success x || (rs_status x =? 404)%N = true → dav' = delete (rq_url rq) dav;
  serve_list n dav rq dav' r : rq_method rq = "PROPFIND" → serve n dav rq = (dav', r) → dav' = dav;
}.

Section requests.
#[local] Set Default Proof Using "Type*".
Context `{ServerLaws} (c : Client).

(** [I]: what any number of these requests leaves; [J]: what one that is answered well leaves. *)
Lemma attempts_wp (I : gmap string string → Prop) (J : gmap string string → Resp → Prop) method url uri headers body content_type d more basic w :
  (∀ n dav rq dav' r, rq_method rq = method → rq_url rq = url → rq_body rq = body → I dav → serve n dav rq = (dav', r) →
    I dav' ∧ ∀ x, r = Some x → J dav' x) →
  I (w_dav w) → w_db w = d →
  wp (attempts c more basic method url uri headers body content_type) (λ w', I (w_dav w') ∧ w_db w' = d)
    (λ r w', I (w_dav w') ∧ w_db w' = d ∧ J (w_dav w') r) w.
Proof.
  intros Hs. revert basic w. induction more as [|more IH]; intros basic w HI Hd; cbn [attempts];
    (apply wp_bind; apply (wp_mono _ (λ w', I (w_dav w') ∧ w_db w' = d) _ (λ _ w', I (w_dav w') ∧ w_db w' = d));
      [destruct basic; [by apply wp_ret|]; unfold wp, authorization; by destruct (w_auth w).1|done|]);
    intros a w1 [HI1 Hd1]; apply wp_bind; unfold wp at 1, exchange;
    match goal with |- context [serve ?n ?dav ?rq] => destruct (serve n dav rq) as [dav' r] eqn:Er;
      destruct (Hs n dav rq dav' r eq_refl eq_refl eq_refl HI1 Er) as [HI2 HJ] end;
    (destruct r as [x|]; [|done]); pose proof (HJ x eq_refl) as HJx.
  - by apply wp_ret.
  - destruct (rs_status x =? 401)%N; [|by apply wp_ret]. destruct (head _).
    + apply wp_bind, wp_modify. by apply IH.
    + destruct (existsb _ _); [by apply IH|by apply wp_ret].
Qed.
Lemma send_wp I J method url body ct headers d w :
  (∀ n dav rq dav' r, rq_method rq = method → rq_url rq = url → rq_body rq = body → I dav → serve n dav rq = (dav', r) →
    I dav' ∧ ∀ x, r = Some x → J dav' x) →
  I (w_dav w) → w_db w = d →
  wp (send_as c method url body ct headers) (λ w', I (w_dav w') ∧ w_db w' = d) (λ r w', I (w_dav w') ∧ w_db w' = d ∧ J (w_dav w') r) w.
Proof. intros Hs HI Hd. unfold send_as. destruct (uri_of url); [by apply attempts_wp|by split]. Qed.

Lemma put_wp uid ical w :
  wp (put_event c uid ical)
    (λ w', w_db w' = w_db w ∧ (w_dav w' = w_dav w ∨ w_dav w' = <[url_of c uid := ical]> (w_dav w)))
    (λ _ w', w_db w' = w_db w ∧ w_dav w' = <[url_of c uid := ical]> (w_dav w)) w.
Proof.
  set (dav0 := w_dav w). unfold put_event. apply wp_bind.
  eapply wp_mono; [eapply (send_wp (λ dav, dav = dav0 ∨ dav = <[url_of c uid := ical]> dav0)
    (λ dav r, is_success r = true → dav = <[url_of c uid := ical]> dav0))| |]; [|by left|done|..].
  - intros n dav rq dav' r Hm Hu Hb HI E. destruct (serve_put n dav rq ical dav' r Hm Hb E) as [H1 H2]. rewrite Hu in *. split.
    + destruct H1 as [->| ->], HI as [->| ->]; auto. right. by rewrite insert_insert_eq.
    + intros x Ex Hx. rewrite (H2 x Ex Hx). destruct HI as [->| ->]; [done|]. by rewrite insert_insert_eq.
  - by intros w' [? ?].
  - intros r w' (HI & Hd & HJ). destruct (is_success r); [apply wp_ret; auto|by apply wp_throw].
Qed.
Lemma delete_wp uid w :
  wp (delete_event c uid)
    (λ w', w_db w' = w_db w ∧ (w_dav w' = w_dav w ∨ w_dav w' = delete (url_of c uid) (w_dav w)))
    (λ _ w', w_db w' = w_db w ∧ w_dav w' = delete (url_of c uid) (w_dav w)) w.
Proof.
  set (dav0 := w_dav w). unfold delete_event. apply wp_bind.
  eapply wp_mono; [eapply (send_wp (λ dav, dav = dav0 ∨ dav = delete (url_of c uid) dav0)
    (λ dav r, is_success r || (rs_status r =? 404)%N = true → dav = delete (url_of c uid) dav0))| |]; [|by left|done|..].
  - intros n dav rq dav' r Hm Hu Hb HI E. destruct (serve_delete n dav rq dav' r Hm E) as [H1 H2]. rewrite Hu in *. split.
    + destruct H1 as [->| ->], HI as [->| ->]; auto. right. by rewrite delete_delete_eq.
    + intros x Ex Hx. rewrite (H2 x Ex Hx). destruct HI as [->| ->]; [done|]. by rewrite delete_delete_eq.
  - by intros w' [? ?].
  - intros r w' (HI & Hd & HJ). destruct (_ || _); [apply wp_ret; auto|by apply wp_throw].
Qed.
Lemma list_wp w : wp (list_uids c) (λ w', w_db w' = w_db w ∧ w_dav w' = w_dav w) (λ _ w', w_db w' = w_db w ∧ w_dav w' = w_dav w) w.
Proof.
  unfold list_uids. apply wp_bind. eapply wp_mono; [eapply (send_wp (λ dav, dav = w_dav w) (λ _ _, True))| |]; [|done|done|..].
  - intros n dav rq dav' r Hm Hu Hb -> E. split; [by eapply serve_list|done].
  - by intros w' [? ?].
  - intros r w' (HI & Hd & _). destruct (is_success r); [by apply wp_ret|by apply wp_throw].
Qed.
Lemma url_of_inj u v : url_of c u = url_of c v → u = v.
Proof.
  unfold url_of. intros E. do 2 apply str_app_inv_l in E. by apply str_app_inv_r in E.
Qed.
End requests.

(** ** Listing the calendar *)

Definition href_mark : list ascii := chars "href>".
Lemma find_mark before after : find_list href_mark before = None →
  find_list href_mark (before ++ href_mark ++ after) = Some (before, after).
Proof.
  induction before as [|a before IH]; intros Hn.
  { cbn. rewrite decide_True; [done|by exists after]. }
  cbn [find_list app] in *. destruct (decide (href_mark `prefix_of` a :: before)) as [|Hp]; [done|].
  destruct (find_list href_mark before) as [[x y]|] eqn:E; [done|]. rewrite decide_False; [by rewrite (IH eq_refl)|].
  intros [k Ek]. apply Hp. unfold href_mark, chars in *. cbn in Ek.
  destruct before as [|b [|b2 [|b3 [|b4 before]]]]; cbn in Ek; simplify_eq. by exists before.
Qed.
Lemma split_mark fuel before after : find_list href_mark before = None →
  split_str (S fuel) href_mark (before ++ href_mark ++ after) = before :: split_str fuel href_mark after.
Proof. intros Hn. cbn [split_str]. by rewrite find_mark. Qed.
Lemma split_last fuel l : find_list href_mark l = None → split_str fuel href_mark l = [l].
Proof. intros Hn. destruct fuel; cbn [split_str]; [done|by rewrite Hn]. Qed.

(** A multistatus answer: what precedes the first [href>], then each resource's path and what follows it up to
    the next one. *)
Fixpoint multistatus (resources : list (string * string)) : string :=
  match resources with
  | [] => ""
  | (href, rest) :: resources => "href>" +:+ href +:+ "</d:" +:+ "href>" +:+ rest +:+ multistatus resources
  end.
Definition unmarked (s : string) : Prop := find_list href_mark (chars s) = None.
Definition plain (s : string) : Prop := ∀ a, a ∈ chars s → a ≠ "<"%char ∧ a ≠ ">"%char.
(** The path of a resource named [uid] and of the collection itself *)
Definition resource_href (dir uid : string) : string := dir +:+ "/" +:+ uid +:+ ".ics".

Lemma find_none_char (l : list ascii) : ">"%char ∉ l → find_list href_mark l = None.
Proof.
  induction l as [|a l IH]; intros Hl; cbn [find_list]; rewrite decide_False.
  - done.
  - by intros [k Ek].
  - rewrite IH; [done|set_solver].
  - intros [k Ek]. apply Hl. rewrite Ek. unfold href_mark. cbn. set_solver.
Qed.
Lemma plain_unmarked s : plain s → unmarked (s +:+ "</d:").
Proof.
  intros Hp. apply find_none_char. rewrite chars_app, elem_of_app. intros [Hin|Hin]; [by destruct (Hp _ Hin)|].
  cbn in Hin. set_solver.
Qed.
Lemma split_multistatus resources : ∀ fuel before, (2 * length resources ≤ fuel)%nat → unmarked before →
  Forall (λ r : string * string, plain r.1 ∧ unmarked r.2) resources →
  split_str fuel href_mark (chars (before +:+ multistatus resources))
  = chars before :: flat_map (λ r : string * string, [chars (r.1 +:+ "</d:"); chars r.2]) resources.
Proof.
  induction resources as [|[href rest] resources IH]; intros fuel before Hf Hb Hr.
  { cbn [multistatus flat_map]. rewrite str_app_nil_r. by apply split_last. }
  apply Forall_cons in Hr as [[Hh Hrest] Hr]. cbn [multistatus flat_map length fst snd] in *. destruct fuel as [|[|fuel]]; [lia..|].
  rewrite chars_app. change (chars ("href>" +:+ href +:+ "</d:" +:+ "href>" +:+ rest +:+ multistatus resources))
    with (chars ("href>" +:+ (href +:+ "</d:" +:+ ("href>" +:+ (rest +:+ multistatus resources))))).
  rewrite (chars_app "href>"). change (chars "href>") with href_mark. rewrite split_mark by done. f_equal.
  rewrite (str_app_assoc href), chars_app, (chars_app "href>"). change (chars "href>") with href_mark. rewrite split_mark by (by apply plain_unmarked).
  change ([chars (href +:+ "</d:"); chars rest] ++ flat_map (λ r : string * string, [chars (r.1 +:+ "</d:"); chars r.2]) resources)
    with (chars (href +:+ "</d:") :: chars rest :: flat_map (λ r : string * string, [chars (r.1 +:+ "</d:"); chars r.2]) resources).
  f_equal. apply IH; [lia|done|done].
Qed.

Lemma ends_with_app suffix s : ends_with suffix (s +:+ suffix) = true.
Proof. unfold ends_with. apply bool_decide_eq_true. rewrite chars_app, reverse_app. by eexists. Qed.
Lemma ends_with_more suffix s t : ends_with suffix t = true → ends_with suffix (s +:+ t) = true.
Proof.
  unfold ends_with. rewrite !bool_decide_eq_true. intros [k E]. rewrite chars_app, reverse_app, E. exists (k ++ reverse (chars s)). by rewrite <- app_assoc.
Qed.
Lemma strip_suffix_app suffix s : strip_suffix suffix (s +:+ suffix) = Some s.
Proof.
  unfold strip_suffix. rewrite ends_with_app, str_length_app, Nat.add_sub, length_chars, chars_app, take_app_length. by rewrite str_chars.
Qed.
Lemma trim_end_id p s a : last (chars s) = Some a → p a = false → trim_end_matches p s = s.
Proof.
  intros Hl Hp. unfold trim_end_matches, drop_while_end. apply last_Some in Hl as [l El]. rewrite El, reverse_app.
  change (reverse [a] ++ reverse l) with (a :: reverse l). cbn [drop_while]. rewrite Hp, reverse_cons, reverse_involutive, <- El. apply str_chars.
Qed.
Lemma href_before href : plain href → fst <$> split_once "<" (href +:+ "</d:") = Some href.
Proof.
  intros Hp. unfold split_once. assert (split_once_list "<" (chars (href +:+ "</d:")) = Some (chars href, chars "/d:")) as ->.
  { apply split_once_list_Some. rewrite chars_app. split; [done|]. intros Hin. by destruct (Hp _ Hin). }
  cbn. by rewrite str_chars.
Qed.
Lemma href_resource dir uid : plain dir → plain uid → ¬ char_in "/" uid → name_of_href (resource_href dir uid +:+ "</d:") = Some uid.
Proof.
  intros Hd Hu Hs. unfold name_of_href, resource_href. rewrite href_before.
  - change (default ?x (Some ?y)) with y. rewrite (trim_end_id _ _ "s"); [|by rewrite !chars_app, !last_app|done].
    rewrite (proj2 (rsplit_once_Some "/" _ dir (uid +:+ ".ics"))); [apply strip_suffix_app|]. split; [done|].
    rewrite char_in_app. intros [?|Hc]; [done|]. unfold char_in in Hc. cbn in Hc. set_solver.
  - intros a. rewrite !chars_app, !elem_of_app. cbn. intros [?|[?|[?|?]]]; [by apply Hd|split; set_solver|by apply Hu|split; set_solver].
Qed.
(** What follows a path begins with a tag, or is empty. *)
Definition between (rest : string) : Prop := unmarked rest ∧ (rest = "" ∨ ∃ t, rest = "<" +:+ t).
Lemma href_rest rest : between rest → name_of_href rest = None.
Proof. intros [_ [->|[t ->]]]; reflexivity. Qed.
Lemma href_collection dir : plain dir → ends_with ".ics" (trim_end_matches is_slash dir) = false → name_of_href (dir +:+ "/" +:+ "</d:") = None.
Proof.
  intros Hd He. unfold name_of_href. rewrite (str_app_assoc dir "/"), href_before.
  - change (default ?x (Some ?y)) with y. assert (trim_end_matches is_slash (dir +:+ "/") = trim_end_matches is_slash dir) as ->.
    { unfold trim_end_matches, drop_while_end. by rewrite chars_app, reverse_app. }
    set (d := trim_end_matches is_slash dir) in *. destruct (rsplit_once "/" d) as [[x y]|] eqn:Er; cbn.
    + unfold strip_suffix. apply rsplit_once_Some in Er as [Er _]. destruct (ends_with ".ics" y) eqn:Ey; [|done].
      rewrite Er in He. rewrite ends_with_more in He; [done|]. by apply ends_with_more.
    + unfold strip_suffix. by rewrite He.
  - intros a. rewrite chars_app, elem_of_app. cbn. intros [?|?]; [by apply Hd|split; set_solver].
Qed.
Definition listing (dir rest0 : string) (named : list (string * string)) : list (string * string) :=
  (dir +:+ "/", rest0) :: ((λ ur : string * string, (resource_href dir ur.1, ur.2)) <$> named).

Lemma multistatus_length resources : (2 * length resources ≤ String.length (multistatus resources))%nat.
Proof.
  induction resources as [|[h r] resources IH]; cbn [multistatus length]; [lia|]. rewrite !str_length_app. cbn [String.length]. lia.
Qed.
Lemma uids_in_listing before dir rest0 named :
  unmarked before → plain dir → ends_with ".ics" (trim_end_matches is_slash dir) = false → between rest0 →
  Forall (λ ur : string * string, plain ur.1 ∧ ¬ char_in "/" ur.1 ∧ between ur.2) named →
  uids_in (before +:+ multistatus (listing dir rest0 named)) = named.*1.
Proof.
  intros Hb Hd He Hr Hn. unfold uids_in. change (chars "href>") with href_mark.
  rewrite split_multistatus; [|rewrite str_length_app; pose proof (multistatus_length (listing dir rest0 named)); lia|done|].
  - cbn [tail listing flat_map fst snd]. cbn [app omap list_omap]. rewrite !str_chars, <- str_app_assoc.
    rewrite href_collection, href_rest by done. induction Hn as [|[u rest] named (Hu & Hs & Hrest) _ IH]; [done|].
    cbn [fmap list_fmap flat_map fst snd app omap list_omap]. rewrite !str_chars, href_resource, href_rest by done. by f_equal.
  - constructor; [split; [|apply Hr]|].
    + intros a. cbn. rewrite chars_app, elem_of_app. intros [?|?]; [by apply Hd|cbn in *; split; set_solver].
    + apply Forall_fmap. eapply Forall_impl; [exact Hn|]. intros [u rest] (Hu & Hs & Hrest). cbn. split; [|apply Hrest].
      unfold resource_href. intros a. rewrite !chars_app, !elem_of_app. cbn. intros [?|[?|[?|?]]]; [by apply Hd|split; set_solver|by apply Hu|split; set_solver].
Qed.

(** ** A server that answers *)

(** Every request succeeds, though one without credentials may be answered with a Digest challenge; the
    database works; names have no mark-up and no slash, and a PROPFIND lists them as sabre/dav does. *)
Definition plain_name (u : string) : Prop := plain u ∧ ¬ char_in "/" u.
Definition named_plainly (c : Client) (dav : gmap string string) : Prop := ∀ u, is_Some (dav !! url_of c u) → plain_name u.
Class Answers `{Server} (c : Client) : Prop := {
  answered n dav rq : ∃ dav' r, serve n dav rq = (dav', Some r) ∧
    (is_success r = true ∨
     rs_status r = 401%N ∧ is_Some (head (omap parse_challenge (rs_challenges r))) ∧ "Authorization" ∉ (rq_headers rq).*1);
  listed n dav rq dav' r : rq_method rq = "PROPFIND" → named_plainly c dav → serve n dav rq = (dav', Some r) → is_success r = true →
    ∃ before dir rest0 named, rs_text r = before +:+ multistatus (listing dir rest0 named) ∧
      unmarked before ∧ plain dir ∧ ends_with ".ics" (trim_end_matches is_slash dir) = false ∧ between rest0 ∧
      Forall (λ ur : string * string, plain ur.1 ∧ ¬ char_in "/" ur.1 ∧ between ur.2) named ∧
      ∀ u, u ∈ named.*1 ↔ is_Some (dav !! url_of c u);
  parsed u : is_Some (uri_of (url_of c u));
  parsed_base : is_Some (uri_of (c_base c +:+ "/"));
  db_up n : db_works n = true;
  sha_plain s : plain_name (sha256_hex s);
}.

Section answers.
#[local] Set Default Proof Using "Type*".
Context `{Server} (c : Client) `{!ServerLaws, !Answers c}.

(** What [attempts] ends with, when the first answer may be a challenge *)
Lemma attempts_success method url uri headers body ct w :
  wp (attempts c 1 false method url uri headers body ct) (λ _, False) (λ r _, is_success r = true) w.
Proof.
  cbn [attempts]. apply wp_bind.
  apply (wp_mono _ (λ _, False) _ (λ a w1, w1 = (authorization c method uri w).1 ∧ (a = None ∨ is_Some a))); [|done|].
  { unfold wp, authorization. destruct (w_auth w).1; cbn; eauto. }
  intros a w1 [_ Ha]. apply wp_bind. unfold wp at 1, exchange.
  match goal with |- context [serve ?n ?dav ?rq] => destruct (answered n dav rq) as (dav' & r & E & Hr); rewrite E end.
  destruct Hr as [Hr|(H401 & [ch Hch] & Hna)].
  - destruct (rs_status r =? 401)%N eqn:E4; [|by apply wp_ret]. apply N.eqb_eq in E4. unfold is_success in Hr. by rewrite E4 in Hr.
  - rewrite H401, Hch. cbn [N.eqb Pos.eqb]. apply wp_bind, wp_modify. apply wp_bind. unfold wp at 1, authorization. cbn [w_auth fst].
    apply wp_bind. unfold wp at 1, exchange.
    match goal with |- context [serve ?n ?dav ?rq] => destruct (answered n dav rq) as (dav2 & r2 & E2 & Hr2); rewrite E2 end.
    destruct Hr2 as [Hr2|(_ & _ & Hna2)]; [by apply wp_ret|]. exfalso. apply Hna2. cbn [rq_headers]. rewrite !fmap_app, !elem_of_app. right. right. left.
Qed.
Lemma send_success method url body ct headers w : is_Some (uri_of url) →
  wp (send_as c method url body ct headers) (λ _, False) (λ r _, is_success r = true) w.
Proof. intros [uri Hu]. unfold send_as. rewrite Hu. apply attempts_success. Qed.
Lemma put_success uid ical w :
  wp (put_event c uid ical) (λ _, False) (λ _ w', w_db w' = w_db w ∧ w_dav w' = <[url_of c uid := ical]> (w_dav w)) w.
Proof.
  pose proof (put_wp c uid ical w) as Hw. unfold wp in *.
  assert (∃ w', put_event c uid ical w = (w', Ok ())) as [w' E].
  { pose proof (send_success "PUT" (url_of c uid) (Some ical) "text/calendar; charset=utf-8" [] w (parsed uid)) as Hs.
    unfold put_event, send, mbind, SE_bind, wp in *. destruct (send_as _ _ _ _ _ _ w) as [w1 [r|e]]; [|done]. rewrite Hs. by eexists. }
  by rewrite E in *.
Qed.
Lemma delete_success uid w :
  wp (delete_event c uid) (λ _, False) (λ _ w', w_db w' = w_db w ∧ w_dav w' = delete (url_of c uid) (w_dav w)) w.
Proof.
  pose proof (delete_wp c uid w) as Hw. unfold wp in *.
  assert (∃ w', delete_event c uid w = (w', Ok ())) as [w' E].
  { pose proof (send_success "DELETE" (url_of c uid) None "text/calendar; charset=utf-8" [] w (parsed uid)) as Hs.
    unfold delete_event, send, mbind, SE_bind, wp in *. destruct (send_as _ _ _ _ _ _ w) as [w1 [r|e]]; [|done]. rewrite Hs. by eexists. }
  by rewrite E in *.
Qed.
(** The listing is complete. *)
Lemma list_success w : named_plainly c (w_dav w) →
  wp (list_uids c) (λ _, False) (λ uids w', w_db w' = w_db w ∧ w_dav w' = w_dav w ∧ ∀ u, u ∈ uids ↔ is_Some (w_dav w !! url_of c u)) w.
Proof.
  intros Hn. unfold list_uids, send_as. destruct parsed_base as [uri Hu]. rewrite Hu. apply wp_bind.
  set (I := λ dav : gmap string string, dav = w_dav w).
  set (J := λ (_ : gmap string string) r, is_success r = true → ∀ u, u ∈ uids_in (rs_text r) ↔ is_Some (w_dav w !! url_of c u)).
  pose proof (attempts_wp c I J "PROPFIND" (c_base c +:+ "/") uri [("Depth", "1")] (Some propfind) "application/xml; charset=utf-8" (w_db w) 1 false w) as Ha.
  assert (wp (attempts c 1 false "PROPFIND" (c_base c +:+ "/") uri [("Depth", "1")] (Some propfind) "application/xml; charset=utf-8")
    (λ w', I (w_dav w') ∧ w_db w' = w_db w) (λ r w', I (w_dav w') ∧ w_db w' = w_db w ∧ J (w_dav w') r) w) as Ha'.
  { apply Ha; [|done|done]. intros n dav rq dav' r Hm _ _ -> E. split; [by eapply serve_list|]. intros x -> Hx.
    destruct (listed n _ rq dav' x Hm Hn E Hx) as (before & dir & rest0 & named & Et & Hb & Hd & He & Hr & Hf & Hu'). intros u.
    rewrite Et, uids_in_listing by done. apply Hu'. }
  pose proof (attempts_success "PROPFIND" (c_base c +:+ "/") uri [("Depth", "1")] (Some propfind) "application/xml; charset=utf-8" w) as Hs.
  unfold wp at 1. unfold wp in Ha', Hs. destruct (attempts _ _ _ _ _ _ _ _ _ w) as [w' [r|e]]; [|done]. rewrite Hs. destruct Ha' as (HI & Hd & HJ).
  apply wp_ret. split_and!; [done|done|by apply HJ].
Qed.
End answers.
