(* ===== verification/Bridge.v ===== *)
(** * The bridge ([org-bridge/src/bridge.rs], [state.rs], [main.rs] and the events of [syncthing.rs])

    [reconcile_file] brings the calendar's entries of one note up to date, [full_reconciliation] those of all
    notes, and [main]'s loop does so for the files that Syncthing says have changed. The state is the
    client's ([Caldav.World]): the server's resources, the authentication, and the database that remembers
    what was exported. The notes are the class [Notes], read anew at every step. *)

From Stdlib Require Import Ascii.
From stdpp Require Import options.
From S2P Require Import Prelude Text Json State Org Caldav.

(** ** The state database ([state.rs]) *)

Class Notes : Type := {
  (** a note's text at a step, unless it cannot be read *)
  note : nat → string → option string;
  (** the paths below the notes' directory *)
  walk : nat → list string;
  (** the order in which a HashSet or a query lists strings *)
  some_order : nat → list string → list string;
}.
Class NotesLaws `{Notes} : Prop := some_order_perm n l : some_order n l ≡ₚ l.

Section bridge.
Context `{Server, Notes, Orgize} (c : Client) (spec : option string).

(** A statement of the database works whole or not at all. *)
Definition db {A} (f : gmap string Exported → gmap string Exported * A) : M A := λ w,
  if db_works (w_step w) then
    let '(d, a) := f (w_db w) in (mkWorld (w_dav w) (w_auth w) d (S (w_step w)), Ok a)
  else (mkWorld (w_dav w) (w_auth w) (w_db w) (S (w_step w)), Err BDb).
Definition upsert (e : Exported) : M () := db (λ d, (<[x_uid e := e]> d, ())).
Definition in_order (n : nat) (d : gmap string Exported) : list Exported := omap (λ u, d !! u) (some_order n (map_to_list d).*1).
Definition get_all_entries : M (list Exported) := λ w, db (λ d, (d, in_order (w_step w) d)) w.
Definition get_entries_for_file (file : string) : M (list Exported) := λ w,
  db (λ d, (d, List.filter (λ e, bool_decide (x_file e = file)) (in_order (w_step w) d))) w.
Definition delete_row (uid : string) : M () := db (λ d, (delete uid d, ())).
(** Two statements: the rows' UIDs are read, then the rows go. *)
Definition delete_file_entries (file : string) : M (list string) :=
  rows ← get_entries_for_file file;
  _ ← db (λ d, (filter (λ ue : string * Exported, x_file ue.2 ≠ file) d, ()));
  mret (x_uid <$> rows).

(** ** What an entry becomes *)

(** [{:?}] of a string (ASCII), an option, a list and a timestamp *)
Definition debug_char (q a : ascii) : string :=
  if bool_decide (a = q) || bool_decide (a = "\"%char) then String "\" (String a "")
  else if bool_decide (a = "010"%char) then "\n" else if bool_decide (a = "013"%char) then "\r"
  else if bool_decide (a = "009"%char) then "\t" else if bool_decide (a = "000"%char) then "\0"
  else if (N_of_ascii a <? 32)%N || (N_of_ascii a =? 127)%N
  then "\u{" +:+ str (hex_digits 2 (N_of_ascii a) []) +:+ "}" else String a "".
Definition debug_str (s : string) : string := quoted (fold_right (λ a acc, debug_char "034" a +:+ acc) "" (chars s)).
Definition debug_option {A} (f : A → string) (o : option A) : string :=
  match o with Some a => "Some(" +:+ f a +:+ ")" | None => "None" end.
Definition debug_list {A} (f : A → string) (l : list A) : string := "[" +:+ join ", " (f <$> l) +:+ "]".
Definition debug_priority (a : ascii) : string := "'" +:+ debug_char "'" a +:+ "'".
Definition debug_timestamp (t : Timestamp) : string :=
  "Timestamp { year: " +:+ pretty (year t) +:+ ", month: " +:+ pretty (month t) +:+ ", day: " +:+ pretty (day t)
  +:+ ", hour: " +:+ debug_option pretty (hour t) +:+ ", minute: " +:+ debug_option pretty (minute t)
  +:+ ", end_hour: " +:+ debug_option pretty (end_hour t) +:+ ", end_minute: " +:+ debug_option pretty (end_minute t) +:+ " }".

Definition uid_of (prefix input : string) : string := str (take 48 (chars (prefix +:+ sha256_hex input))).
Definition stamp (ts : Timestamp) : string := ymd ts +:+ pad 2 (default 0%N (hour ts)) +:+ pad 2 (default 0%N (minute ts)).
Definition make_uid (file path : string) (ts : Timestamp) : string :=
  uid_of "org-" ("event:" +:+ file +:+ ":" +:+ path +:+ ":" +:+ stamp ts).
Definition make_todo_uid (file path : string) : string := uid_of "org-todo-" ("todo:" +:+ file +:+ ":" +:+ path).
Definition entry_text (e : OrgEntry) : string :=
  e_title e +:+ ":" +:+ heading_path e +:+ ":" +:+ debug_option debug_str (todo_state e) +:+ ":"
  +:+ debug_option debug_priority (priority e) +:+ ":" +:+ debug_list debug_str (tags e) +:+ ":".
Definition hash_entry_timestamp (e : OrgEntry) (ts : Timestamp) : string :=
  sha256_hex (entry_text e +:+ stamp ts +:+ pad 2 (default 0%N (end_hour ts)) +:+ pad 2 (default 0%N (end_minute ts))).
Definition hash_todo (e : OrgEntry) : string :=
  sha256_hex (entry_text e +:+ debug_list debug_timestamp (scheduled e) +:+ ":" +:+ debug_list debug_timestamp (deadline e)).

(** One resource of the calendar. *)
Record Item : Type := mkItem { i_uid : string; i_hash : string; i_path : string; i_type : string; i_ical : string }.
Definition items_of (relative : string) (e : OrgEntry) : list Item :=
  ((λ ts, let uid := make_uid relative (heading_path e) ts in
     mkItem uid (hash_entry_timestamp e ts) (heading_path e) "event" (generate_vevent spec e ts uid))
   <$> (scheduled e ++ deadline e ++ active_timestamps e))
  ++ match todo_state e with
     | Some _ => let uid := make_todo_uid relative (heading_path e) in
                 [mkItem uid (hash_todo e) (heading_path e) "todo" (generate_vtodo spec e uid)]
     | None => []
     end.

(** ** One note *)

Record Counts : Type := mkCounts { created : N; updated : N; deleted : N }.
Record ReconcileResult : Type := mkResult { r_file : string; r_counts : Counts }.
Definition push (relative : string) (existing : list Exported) (n : Counts) (i : Item) : M Counts :=
  let known := List.find (λ e, bool_decide (x_uid e = i_uid i)) existing in
  if match known with Some e => negb (bool_decide (content_hash e = i_hash i)) | None => true end then
    _ ← put_event c (i_uid i) (i_ical i);
    _ ← upsert (mkExported (i_uid i) (i_hash i) relative (i_path i) (i_type i));
    mret (if known then mkCounts (created n) (u32_add (updated n) 1) (deleted n) else mkCounts (u32_add (created n) 1) (updated n) (deleted n))
  else mret n.
Definition drop_old (wanted : list string) (n : Counts) (old : Exported) : M Counts :=
  if bool_decide (x_uid old ∈ wanted) then mret n
  else
    _ ← delete_event c (x_uid old);
    _ ← delete_row (x_uid old);
    mret (mkCounts (created n) (updated n) (u32_add (deleted n) 1)).
Definition reconcile (relative : string) (items : list Item) : M ReconcileResult :=
  existing ← get_entries_for_file relative;
  n ← for_each (push relative existing) (mkCounts 0 0 0) items;
  n ← for_each (drop_old (i_uid <$> items)) n existing;
  mret (mkResult relative n).
Definition items_in (relative content : string) : list Item := flat_map (items_of relative) (parse_org_content spec content relative).
Definition read_note (relative : string) : M (option string) := λ w,
  (mkWorld (w_dav w) (w_auth w) (w_db w) (S (w_step w)), Ok (note (w_step w) relative)).
Definition reconcile_file (relative : string) : M ReconcileResult :=
  content ← read_note relative;
  match content with Some content => reconcile relative (items_in relative content) | None => throw BIo end.

(** ** All notes *)

Definition try {A} (m : M A) : M (Result A BridgeError) := λ w, let '(w', r) := m w in (w', Ok r).
(** A note that cannot be read is skipped. *)
Definition parse_one (files : list string) (path : string) : M (list string) :=
  if has_org_extension path && negb (is_hidden path) then
    content ← read_note path;
    mret match content with
         | Some content => if bool_decide (parse_org_content spec content path = []) then files else files ++ [path]
         | None => files
         end
  else mret files.
Definition parse_directory : M (list string) := λ w, for_each parse_one [] (walk (w_step w)) w.
Definition ordered (l : list string) : M (list string) := λ w, (w, Ok (some_order (w_step w) (remove_dups l))).
Definition reconcile_one (acc : bool * list ReconcileResult) (file : string) : M (bool * list ReconcileResult) :=
  r ← try (reconcile_file file);
  mret match r with Ok r => (acc.1, acc.2 ++ [r]) | Err _ => (true, acc.2) end.
Definition clean_file (results : list ReconcileResult) (file : string) : M (list ReconcileResult) :=
  uids ← delete_file_entries file;
  _ ← for_each (λ _ uid, delete_event c uid) () uids;
  mret (results ++ [mkResult file (mkCounts 0 0 (u32_wrap (N.of_nat (length uids))))]).
Definition sweep_one (known : list string) (_ : ()) (uid : string) : M () :=
  if starts_with "org-" uid && negb (bool_decide (uid ∈ known)) then _ ← try (delete_event c uid); mret () else mret ().
Definition sweep : M () :=
  remote ← try (list_uids c);
  match remote with
  | Ok remote =>
      known ← get_all_entries;
      for_each (sweep_one (x_uid <$> known)) () remote
  | Err _ => mret ()
  end.
Definition full_reconciliation : M (list ReconcileResult) :=
  files ← parse_directory;
  order ← ordered files;
  '(failed, results) ← for_each reconcile_one (false, []) order;
  all ← get_all_entries;
  stale ← ordered (List.filter (λ f, negb (bool_decide (f ∈ files))) (x_file <$> all));
  results ← for_each clean_file results stale;
  _ ← (if (failed : bool) then mret () else sweep);
  mret results.

(** ** Syncthing's events *)

Record Event : Type := mkEvent { ev_id : N; ev_type : string; ev_data : Value }.
Definition field (k : string) (v : Value) : option Value := match v with Object m => assoc k m | _ => None end.
Definition extract_file_path (e : Event) : option string :=
  match match field "item" (ev_data e) with Some v => Some v | None => field "path" (ev_data e) end with
  | Some v => as_str v
  | None => None
  end.
(** [exists]: whether the note is there when the event is handled *)
Definition on_change (exists_ : bool) (path : string) : M () :=
  if exists_ then _ ← try (reconcile_file path); mret ()
  else
    r ← try (delete_file_entries path);
    match r with
    | Ok uids => for_each (λ _ uid, _ ← try (delete_event c uid); mret ()) () uids
    | Err _ => mret ()
    end.
Definition on_event (there : string → bool) (_ : N) (e : Event) : M N :=
  _ ← match extract_file_path e with
      | Some path => if is_org_file path then on_change (there path) path else mret ()
      | None => mret ()
      end;
  mret (ev_id e).
(** A round of the loop: what the poll brought, and the last event handled. *)
Definition round (there : string → bool) (last : N) (events : option (list Event)) : M N :=
  match events with Some l => for_each (on_event there) last l | None => mret last end.
(** The start of the program, up to the loop: a failure is only logged. *)
Definition start : M () := _ ← try full_reconciliation; mret ().
End bridge.

(** ** One note, brought up to date *)

Section reconcile.
#[local] Set Default Proof Using "Type*".
Context `{ServerLaws, NotesLaws, Orgize} (c : Client) (spec : option string) (relative : string) (items : list Item).

Notation url u := (url_of c u).
(** Two items of one note with the same UID are the same resource. *)
Definition consistent : Prop := ∀ i j, i ∈ items → j ∈ items → i_uid i = i_uid j → i_hash i = i_hash j ∧ i_ical i = i_ical j.
Definition keyed (d : gmap string Exported) : Prop := ∀ u e, d !! u = Some e → x_uid e = u.
(** What the database takes for up to date is. *)
Definition truthful (w : World) : Prop :=
  ∀ i e, i ∈ items → w_db w !! i_uid i = Some e → content_hash e = i_hash i → w_dav w !! url (i_uid i) = Some (i_ical i).
Definition good (i : Item) (w : World) : Prop :=
  w_dav w !! url (i_uid i) = Some (i_ical i) ∧
  ∃ e, w_db w !! i_uid i = Some e ∧ x_file e = relative ∧ content_hash e = i_hash i.
Definition wanted : list string := i_uid <$> items.
Context (Hcon : consistent) (w0 : World).
(** The rows of this note when the run began. *)
Definition old (u : string) : Prop := ∃ e, w_db w0 !! u = Some e ∧ x_file e = relative.
(** Other resources and rows are left alone. *)
Definition frame (w : World) : Prop :=
  (∀ p, (∀ u, u ∈ wanted ∨ old u → p ≠ url u) → w_dav w !! p = w_dav w0 !! p) ∧
  (∀ u, u ∉ wanted → ¬ old u → w_db w !! u = w_db w0 !! u).
Definition safe (w : World) : Prop := keyed (w_db w) ∧ truthful w ∧ frame w.

Lemma good_put i w j : i ∈ items → j ∈ items → w_dav w !! url (i_uid j) = Some (i_ical j) →
  <[url (i_uid i) := i_ical i]> (w_dav w) !! url (i_uid j) = Some (i_ical j).
Proof.
  intros Hi Hj Hg. destruct (decide (i_uid i = i_uid j)) as [E|E].
  - rewrite E, lookup_insert_eq. by destruct (Hcon i j Hi Hj E) as [_ ->].
  - rewrite lookup_insert_ne; [done|]. intros ?%url_of_inj. done.
Qed.
Lemma safe_put i w w' : i ∈ items → safe w → w_db w' = w_db w →
  (w_dav w' = w_dav w ∨ w_dav w' = <[url (i_uid i) := i_ical i]> (w_dav w)) → safe w'.
Proof.
  intros Hi (Hk & Ht & Hf) Hd Hdav. split; [by rewrite Hd|]. split.
  - intros j e Hj. rewrite Hd. intros Ej Eh. specialize (Ht j e Hj Ej Eh). destruct Hdav as [->| ->]; [done|by apply good_put].
  - split; [|intros u; rewrite Hd; apply Hf]. intros p Hp. destruct Hdav as [->| ->]; [by apply Hf|].
    rewrite lookup_insert_ne; [by apply Hf|]. apply not_eq_sym, Hp. left. by apply list_elem_of_fmap_2.
Qed.
Lemma db_wp {A} (f : gmap string Exported → gmap string Exported * A) w :
  wp (db f) (λ w', w_db w' = w_db w ∧ w_dav w' = w_dav w)
    (λ a w', w_db w' = (f (w_db w)).1 ∧ a = (f (w_db w)).2 ∧ w_dav w' = w_dav w) w.
Proof. unfold wp, db. destruct (db_works _); [|done]. by destruct (f (w_db w)). Qed.
Lemma in_order_elem n d e : keyed d → e ∈ in_order n d ↔ d !! x_uid e = Some e.
Proof.
  intros Hk. unfold in_order. rewrite list_elem_of_omap. split.
  - intros (u & _ & E). by rewrite (Hk _ _ E).
  - intros E. exists (x_uid e). split; [|done]. rewrite (some_order_perm n). apply list_elem_of_fmap. exists (x_uid e, e).
    split; [done|]. by apply elem_of_map_to_list.
Qed.

Definition rows_of (existing : list Exported) : Prop := ∀ e, e ∈ existing ↔ w_db w0 !! x_uid e = Some e ∧ x_file e = relative.
Context (existing : list Exported) (Hex : rows_of existing) (Hk0 : keyed (w_db w0)).

(** After the items [seen] have been pushed *)
Definition pushed (seen : list Item) (w : World) : Prop :=
  safe w ∧ (∀ i, i ∈ seen → good i w) ∧
  (∀ u, (∀ i, i ∈ seen → i_uid i ≠ u) → w_db w !! u = w_db w0 !! u).
Lemma pushed_frame seen w u e : Forall (λ i, i ∈ items) seen → pushed seen w → w_db w !! u = Some e → x_file e = relative → u ∈ wanted ∨ old u.
Proof.
  intros Hs (_ & _ & Ho) E Hf. destruct (decide (u ∈ i_uid <$> seen)) as [Hu|Hu].
  - left. apply list_elem_of_fmap in Hu as (i & -> & Hi). apply list_elem_of_fmap_2. rewrite Forall_forall in Hs. auto.
  - right. exists e. split; [|done]. rewrite <- Ho; [done|]. intros i Hi <-. apply Hu. by apply list_elem_of_fmap_2.
Qed.
Lemma find_existing u e : List.find (λ e, bool_decide (x_uid e = u)) existing = Some e → w_db w0 !! u = Some e ∧ x_file e = relative.
Proof.
  intros [Hin Hu]%List.find_some. apply bool_decide_eq_true in Hu as <-. apply list_elem_of_In, Hex in Hin. done.
Qed.
Lemma push_wp seen n x w : Forall (λ i, i ∈ items) seen → x ∈ items → pushed seen w →
  wp (push c relative existing n x) safe (λ _, pushed (seen ++ [x])) w.
Proof.
  intros Hs Hx HI. pose proof HI as (Hsafe & Hg & Ho). unfold push.
  destruct (match List.find _ existing with Some e => _ | None => true end) eqn:Ek.
  - apply wp_bind. eapply wp_mono; [apply put_wp|intros w' [Hd Hdav]; eapply safe_put; eauto|].
    intros [] w1 [Hd1 Hdav1]. apply wp_bind. unfold upsert. eapply wp_mono; [apply db_wp| |].
    + intros w2 [Hd2 Hdav2]. eapply (safe_put x w w2); [done..|congruence|]. right. congruence.
    + intros [] w2 (Hd2 & _ & Hdav2). cbn [fst x_uid] in Hd2. rewrite Hd1 in Hd2. rewrite Hdav1 in Hdav2.
      assert (good x w2) as Hgx.
      { split; [by rewrite Hdav2, lookup_insert_eq|]. rewrite Hd2. rewrite lookup_insert_eq. eexists. by split_and!. }
      apply wp_ret. split_and!.
      * destruct Hsafe as (Hk & Ht & Hf). split_and!.
        -- intros u e. rewrite Hd2. intros Hi%lookup_insert_Some. destruct Hi as [(<- & <-)|(Hne & E)]; [done|by apply Hk].
        -- intros j e Hj. rewrite Hd2, Hdav2. intros Hi Eh. apply lookup_insert_Some in Hi as [(E & <-)|(Hne & E)].
           ++ rewrite <- E, lookup_insert_eq. by destruct (Hcon x j Hx Hj E) as [_ ->].
           ++ apply good_put; [done..|]. by apply (Ht j e).
        -- split.
           ++ intros p Hp. rewrite Hdav2, lookup_insert_ne; [by apply Hf|]. apply not_eq_sym, Hp. left. by apply list_elem_of_fmap_2.
           ++ intros u Hu Hou. rewrite Hd2, lookup_insert_ne; [by apply Hf|]. intros <-. apply Hu. by apply list_elem_of_fmap_2.
      * intros i Hi; apply elem_of_app in Hi as [Hi|Hi%list_elem_of_singleton]; [|by subst i]. destruct (Hg i Hi) as [Hc (e & Ee & Hfe & Hhe)].
        assert (i ∈ items) as Hii by (rewrite Forall_forall in Hs; auto). split; [rewrite Hdav2; by apply good_put|].
        rewrite Hd2. destruct (decide (i_uid x = i_uid i)) as [E|E].
        -- rewrite <- E, lookup_insert_eq. eexists. split_and!; [done..|]. by destruct (Hcon x i Hx Hii E) as [-> _].
        -- rewrite lookup_insert_ne by done. by exists e.
      * intros u Hu. rewrite Hd2, lookup_insert_ne; [|apply Hu, elem_of_app; right; left]. apply Ho. intros i Hi. apply Hu, elem_of_app. by left.
  - destruct (List.find _ existing) as [e|] eqn:Ef; [|done]. apply negb_false_iff, bool_decide_eq_true in Ek.
    apply find_existing in Ef as [Ee Hf]. apply wp_ret. split_and!; [done| |].
    + intros i Hi; apply elem_of_app in Hi as [Hi|Hi%list_elem_of_singleton]; [by apply Hg|subst i].
      destruct (decide (i_uid x ∈ i_uid <$> seen)) as [Hu|Hu].
      * apply list_elem_of_fmap in Hu as (j & Ej & Hj). assert (j ∈ items) as Hjj by (rewrite Forall_forall in Hs; auto).
        destruct (Hg j Hj) as [Hc He]. destruct (Hcon x j Hx Hjj Ej) as [Eh Ei]. unfold good. by rewrite Ej, Eh, Ei.
      * assert (w_db w !! i_uid x = Some e) as Ew.
        { rewrite Ho; [done|]. intros i Hi E. apply Hu. rewrite <- E. by apply list_elem_of_fmap_2. }
        split; [by apply (proj1 (proj2 Hsafe) x e)|by exists e].
    + intros u Hu. apply Ho. intros i Hi. apply Hu, elem_of_app. by left.
Qed.

(** After all items have been pushed and the old rows [seen] have been looked at *)
Definition dropped (seen : list Exported) (w : World) : Prop :=
  safe w ∧ (∀ i, i ∈ items → good i w) ∧
  (∀ u e, w_db w !! u = Some e → x_file e = relative → u ∈ wanted ∨ (old u ∧ u ∉ x_uid <$> seen)) ∧
  (∀ u, u ∉ wanted → u ∈ x_uid <$> seen → w_dav w !! url u = None ∧ w_db w !! u = None).
Lemma drop_wp seen n x w : x ∈ existing → dropped seen w → wp (drop_old c wanted n x) safe (λ _, dropped (seen ++ [x])) w.
Proof.
  intros Hx (Hsafe & Hg & Hr & Hd). unfold drop_old. destruct (bool_decide _) eqn:Ew.
  - apply bool_decide_eq_true in Ew. apply wp_ret. split_and!; [done|done| |].
    + intros u e Eu Hf. destruct (Hr u e Eu Hf) as [?|[Ho Hn]]; [by left|]. rewrite fmap_app, elem_of_app.
      destruct (decide (u = x_uid x)) as [->|Hne]; [by left|]. right. split; [done|]. intros [?|Hc%list_elem_of_singleton]; done.
    + intros u Hu. rewrite fmap_app, elem_of_app. intros [?| ->%list_elem_of_singleton]; [by apply Hd|done].
  - apply bool_decide_eq_false in Ew. assert (old (x_uid x)) as Hox by (apply Hex in Hx as [? ?]; by exists x).
    assert (∀ i, i ∈ items → url (x_uid x) ≠ url (i_uid i)) as Hne.
    { intros i Hi E%url_of_inj. apply Ew. rewrite E. by apply list_elem_of_fmap_2. }
    assert (∀ w', w_db w' = w_db w → (w_dav w' = w_dav w ∨ w_dav w' = delete (url (x_uid x)) (w_dav w)) → safe w' ∧ ∀ i, i ∈ items → good i w') as Hsafe'.
    { intros w' Hdb Hdav. destruct Hsafe as (Hk & Ht & Hf). split; [split; [by rewrite Hdb|split]|].
      - intros i e Hi. rewrite Hdb. intros E Eh. specialize (Ht i e Hi E Eh). destruct Hdav as [->| ->]; [done|]. rewrite lookup_delete_ne; auto.
      - split; [|intros u; rewrite Hdb; apply Hf]. intros p Hp. destruct Hdav as [->| ->]; [by apply Hf|].
        rewrite lookup_delete_ne; [by apply Hf|]. apply not_eq_sym, Hp. by right.
      - intros i Hi. destruct (Hg i Hi) as [Hc He]. unfold good. rewrite Hdb. split; [|done].
        destruct Hdav as [->| ->]; [done|]. rewrite lookup_delete_ne; auto. }
    apply wp_bind. eapply wp_mono; [apply delete_wp|intros w' [Hdb Hdav]; by apply Hsafe'|].
    intros [] w1 [Hdb1 Hdav1]. destruct (Hsafe' w1 Hdb1 (or_intror Hdav1)) as [Hs1 Hg1]. apply wp_bind. unfold delete_row.
    eapply wp_mono; [apply db_wp|intros w2 [Hdb2 Hdav2]; apply Hsafe'; [congruence|right; congruence]|].
    intros [] w2 (Hdb2 & _ & Hdav2). cbn [fst] in Hdb2. rewrite Hdb1 in Hdb2. rewrite Hdav1 in Hdav2. apply wp_ret. split_and!.
    + destruct Hs1 as (Hk & Ht & Hf). split_and!.
      * intros u e. rewrite Hdb2. intros Hl%lookup_delete_Some. apply Hk. rewrite Hdb1. by destruct Hl.
      * intros i e Hi. rewrite Hdb2, Hdav2. intros Hl%lookup_delete_Some Eh. rewrite <- Hdav1. apply (Ht i e); [done|rewrite Hdb1; by destruct Hl|done].
      * split; [intros p Hp; rewrite Hdav2, <- Hdav1; by apply Hf|]. intros u Hu Ho. rewrite Hdb2, lookup_delete_ne; [|by intros <-].
        rewrite <- Hdb1. by apply Hf.
    + intros i Hi. destruct (Hg1 i Hi) as [Hc (e & Ee & He)]. split; [by rewrite Hdav2, <- Hdav1|]. exists e. split; [|done].
      rewrite Hdb2, lookup_delete_ne; [by rewrite <- Hdb1|]. intros E. apply Ew. rewrite E. by apply list_elem_of_fmap_2.
    + intros u e. rewrite Hdb2. intros Hl%lookup_delete_Some Hf. destruct Hl as [Hne' E]. destruct (Hr u e E Hf) as [?|[Ho Hn]]; [by left|].
      right. split; [done|]. rewrite fmap_app, elem_of_app. intros [?|Hc%list_elem_of_singleton]; [done|]. by rewrite Hc in Hne'.
    + intros u Hu. rewrite fmap_app, elem_of_app, Hdav2, Hdb2.
      destruct (decide (u = x_uid x)) as [->|Hne2]; [by rewrite !lookup_delete_eq|]. intros [Hin|Hc%list_elem_of_singleton]; [|done].
      rewrite !lookup_delete_ne; [by apply Hd|done|by intros ?%url_of_inj].
Qed.

(** The run has brought the note's resources up to date. *)
Definition done_ (w : World) : Prop :=
  safe w ∧ (∀ i, i ∈ items → good i w) ∧
  (∀ u e, w_db w !! u = Some e → x_file e = relative → u ∈ wanted) ∧
  (∀ u, u ∉ wanted → old u → w_dav w !! url u = None ∧ w_db w !! u = None).
End reconcile.

Section reconcile_run.
#[local] Set Default Proof Using "Type*".
Context `{ServerLaws, NotesLaws} (c : Client) (relative : string) (items : list Item).
Context (Hcon : consistent items).

Lemma frame_refl w : frame c relative items w w.
Proof. by split. Qed.
Lemma reconcile_wp w : keyed (w_db w) → truthful c items w →
  wp (reconcile c relative items) (safe c relative items w) (λ _, done_ c relative items w) w.
Proof.
  intros Hk Ht. assert (safe c relative items w w) as Hsafe by (split_and!; [done..|apply frame_refl]).
  unfold reconcile. apply wp_bind. unfold get_entries_for_file. eapply wp_mono; [apply db_wp| |].
  - intros w1 [Hdb Hdav]. destruct Hsafe as (_ & _ & Hf). split_and!; [by rewrite Hdb|intros i e; rewrite Hdb, Hdav; apply Ht|].
    split; [intros p; rewrite Hdav; apply Hf|intros u; rewrite Hdb; apply Hf].
  - intros existing w1 (Hdb & -> & Hdav). cbn [fst snd] in *. set (existing := List.filter _ _).
    assert (rows_of relative w existing) as Hex.
    { intros e. unfold existing. rewrite list_elem_of_In, filter_In, bool_decide_eq_true, <- list_elem_of_In, in_order_elem by done. done. }
    apply wp_bind. assert (pushed c relative items w [] w1) as Hp.
    { split_and!; [|by intros ? ?%not_elem_of_nil|intros u _; by rewrite Hdb]. split_and!; [by rewrite Hdb|intros i e; rewrite Hdb, Hdav; apply Ht|].
      split; [intros p _; by rewrite Hdav|intros u _ _; by rewrite Hdb]. }
    eapply wp_mono; [|done|].
    { apply (wp_for_each _ (λ seen _ w', pushed c relative items w seen w' ∧ Forall (λ i, i ∈ items) seen)); [|by split].
      intros seen x n w2 [Hp2 Hs] Hx. eapply wp_mono; [by apply push_wp|done|]. intros n' w3 Hp3. split; [done|].
      apply Forall_app. split; [done|]. by constructor. }
    intros n w2 [Hp2 Hs2]. apply wp_bind. eapply wp_mono; [|done|].
    { apply (wp_for_each _ (λ seen _, dropped c relative items w seen)).
      - intros seen x n' w3 Hd Hx. by eapply drop_wp.
      - pose proof Hp2 as (Hs & Hg & Ho). split_and!; [done|done| |by intros u _ ?%not_elem_of_nil].
        intros u e E Hf. assert (u ∈ wanted items ∨ old relative w u) as [?|?] by (by eapply pushed_frame); [by left|]. right. split; [done|]. apply not_elem_of_nil. }
    intros n' w3 (Hs3 & Hg3 & Hr3 & Hd3). apply wp_ret. split_and!; [done|done| |].
    + intros u e E Hf. destruct (Hr3 u e E Hf) as [?|[(e0 & Ee0 & Hf0) Hn]]; [done|]. exfalso. apply Hn.
      rewrite <- (Hk _ _ Ee0). apply list_elem_of_fmap_2, Hex. by rewrite (Hk _ _ Ee0).
    + intros u Hu (e0 & Ee0 & Hf0). apply Hd3; [done|]. rewrite <- (Hk _ _ Ee0). apply list_elem_of_fmap_2, Hex. by rewrite (Hk _ _ Ee0).
Qed.
End reconcile_run.

(** C23: Bringing a readable note up to date, the bridge never lets the state database take a stale resource for a
    fresh one, wherever a request or the database fails; when it succeeds, the calendar holds the iCalendar text
    of every item of the note, the database lists exactly those for the note, what the note no longer has is
    gone, and nothing else has changed. This is for a note whose items of the same UID say the same ([consistent];
    [twins_swap] shows the other case), from a database whose rows are filed under their own UIDs ([keyed]) and
    in which a row with the hash of one of the items means that the calendar already holds the text of that
    item ([truthful]; [midnight_unseen] shows a change that the hash does not see). *)
Theorem reconcile_spec `{ServerLaws, NotesLaws, Orgize} c spec relative content w w' r :
  let items := items_in spec relative content in
  note (w_step w) relative = Some content → consistent items → keyed (w_db w) → truthful c items w →
  reconcile_file c spec relative w = (w', r) →
  (keyed (w_db w') ∧ truthful c items w' ∧ frame c relative items w w') ∧
  ∀ x, r = Ok x →
    (∀ i, i ∈ items → w_dav w' !! url_of c (i_uid i) = Some (i_ical i)) ∧
    (∀ u, (∃ e, w_db w' !! u = Some e ∧ x_file e = relative) ↔ u ∈ i_uid <$> items) ∧
    (∀ u e, w_db w !! u = Some e → x_file e = relative → u ∉ i_uid <$> items → w_dav w' !! url_of c u = None).
Proof.
  intros items Hn Hcon Hk Ht E. set (w1 := mkWorld (w_dav w) (w_auth w) (w_db w) (S (w_step w))).
  assert (reconcile c relative items w1 = (w', r)) as E1.
  { unfold reconcile_file, mbind, SE_bind, read_note in E. rewrite Hn in E. exact E. }
  pose proof (reconcile_wp c relative items Hcon w1 Hk Ht) as Hw. unfold wp in Hw. rewrite E1 in Hw. split.
  - destruct r; [destruct Hw as [Hw _]|]; exact Hw.
  - intros x ->. destruct Hw as (_ & Hg & Hr & Hd). split_and!.
    + intros i Hi. by destruct (Hg i Hi).
    + intros u. split; [intros (e & Ee & Hf); by eapply Hr|]. intros (i & -> & Hi)%list_elem_of_fmap. destruct (Hg i Hi) as [_ (e & Ee & Hf & _)]. by exists e.
    + intros u e Ee Hf Hu. apply Hd; [done|]. by exists e.
Qed.

(** ** Only the bridge's own resources *)

(** The calendar's resources that the bridge may touch *)
Definition ours (u : string) : Prop := starts_with "org-" u = true.
Section foreign.
#[local] Set Default Proof Using "Type*".
Context `{ServerLaws, NotesLaws, Orgize} (c : Client) (spec : option string) (dav0 : gmap string string).

Definition apart (w : World) : Prop :=
  (∀ u e, w_db w !! u = Some e → x_uid e = u ∧ ours u) ∧ ∀ p, (∀ u, ours u → p ≠ url_of c u) → w_dav w !! p = dav0 !! p.
Definition keeps {A} (m : M A) : Prop := ∀ w, apart w → wp m apart (λ _, apart) w.

Lemma keepsB_ret {A} (a : A) : keeps (mret a).
Proof. by intros w. Qed.
Lemma keepsB_throw {A} e : keeps (throw (A := A) e).
Proof. by intros w. Qed.
Lemma keepsB_bind {A B} (m : M A) (f : A → M B) : keeps m → (∀ a, keeps (f a)) → keeps (m ≫= f).
Proof. intros Hm Hf w Hw. apply wp_bind. eapply wp_mono; [by apply Hm|done|]. intros a w'. apply Hf. Qed.
Lemma keeps_try {A} (m : M A) : keeps m → keeps (try m).
Proof. intros Hm w Hw. specialize (Hm w Hw). unfold wp, try in *. by destruct (m w) as [w' []]. Qed.
Lemma keepsB_for_each {A B} (f : B → A → M B) b l : (∀ b a, a ∈ l → keeps (f b a)) → keeps (for_each f b l).
Proof.
  intros Hf w Hw. apply (wp_for_each f (λ _ _, apart)); [|done]. intros _ a b' w' Hw' Ha. by apply Hf.
Qed.
Lemma keeps_put uid ical : ours uid → keeps (put_event c uid ical).
Proof.
  intros Hu w [Hdb Hdav]. assert (∀ w', w_db w' = w_db w → (w_dav w' = w_dav w ∨ w_dav w' = <[url_of c uid := ical]> (w_dav w)) → apart w') as Hp.
  { intros w' E E'. split; [by rewrite E|]. intros p Hp. destruct E' as [->| ->]; [by apply Hdav|]. rewrite lookup_insert_ne; [by apply Hdav|]. by apply not_eq_sym, Hp. }
  eapply wp_mono; [apply put_wp|intros w' []; by apply Hp|intros _ w' []; apply Hp; auto].
Qed.
Lemma keeps_delete uid : ours uid → keeps (delete_event c uid).
Proof.
  intros Hu w [Hdb Hdav]. assert (∀ w', w_db w' = w_db w → (w_dav w' = w_dav w ∨ w_dav w' = delete (url_of c uid) (w_dav w)) → apart w') as Hp.
  { intros w' E E'. split; [by rewrite E|]. intros p Hp. destruct E' as [->| ->]; [by apply Hdav|]. rewrite lookup_delete_ne; [by apply Hdav|]. by apply not_eq_sym, Hp. }
  eapply wp_mono; [apply delete_wp|intros w' []; by apply Hp|intros _ w' []; apply Hp; auto].
Qed.
Lemma keeps_list : keeps (list_uids c).
Proof. intros w [Hdb Hdav]. eapply wp_mono; [apply list_wp|..]; [intros w' [E E']|intros _ w' [E E']]; (split; [by rewrite E|by rewrite E']). Qed.
(** A database operation that adds rows of ours only *)
Lemma keeps_db {A} (f : gmap string Exported → gmap string Exported * A) :
  (∀ d u e, (f d).1 !! u = Some e → d !! u = Some e ∨ (x_uid e = u ∧ ours u)) → keeps (db f).
Proof.
  intros Hf w [Hdb Hdav]. eapply wp_mono; [apply db_wp|intros w' [E E']; split; [by rewrite E|by rewrite E']|].
  intros a w' (E & _ & E'). split; [|by rewrite E']. rewrite E. intros u e He. destruct (Hf _ _ _ He); [by apply Hdb|done].
Qed.
(** The rows a query gives are ours. *)
Lemma rows_wp f : (∀ w e, e ∈ f w → e ∈ in_order (w_step w) (w_db w)) → ∀ w, apart w →
  wp (λ w, db (λ d, (d, f w)) w) apart (λ rows w', apart w' ∧ Forall (λ e, ours (x_uid e)) rows) w.
Proof.
  intros Hf w Hw. pose proof Hw as [Hdb Hdav]. eapply wp_mono; [apply db_wp|intros w' [E E']; split; [by rewrite E|by rewrite E']|].
  intros rows w' (E & -> & E'). cbn [fst snd] in *. split; [split; [by rewrite E|by rewrite E']|]. apply Forall_forall. intros e He%Hf.
  unfold in_order in He. apply list_elem_of_omap in He as (u & _ & Eu). destruct (Hdb u e Eu) as [-> Ho]. exact Ho.
Qed.
Lemma all_rows_wp w : apart w → wp get_all_entries apart (λ rows w', apart w' ∧ Forall (λ e, ours (x_uid e)) rows) w.
Proof. intros Hw. apply (rows_wp (λ w, in_order (w_step w) (w_db w))); [done|exact Hw]. Qed.
Lemma file_rows_wp file w : apart w → wp (get_entries_for_file file) apart (λ rows w', apart w' ∧ Forall (λ e, ours (x_uid e)) rows) w.
Proof.
  intros Hw. apply (rows_wp (λ w, List.filter (λ e, bool_decide (x_file e = file)) (in_order (w_step w) (w_db w)))); [|exact Hw].
  intros w' e. rewrite !list_elem_of_In, filter_In. by intros [].
Qed.
Lemma ours_uid x : ours (str (take 48 (chars ("org-" +:+ x)))).
Proof. apply (starts_with_prefix "org-" (str (take 44 (chars x)))). Qed.
Lemma ours_items file e i : i ∈ items_of spec file e → ours (i_uid i).
Proof.
  unfold items_of. rewrite elem_of_app. intros [Hi|Hi].
  - apply list_elem_of_fmap in Hi as (ts & -> & _). apply ours_uid.
  - destruct (todo_state e); [|by apply not_elem_of_nil in Hi]. apply list_elem_of_singleton in Hi as ->. apply (ours_uid ("todo-" +:+ _)).
Qed.
Lemma keeps_reconcile relative items : (∀ i, i ∈ items → ours (i_uid i)) → keeps (reconcile c relative items).
Proof.
  intros Hi w Hw. unfold reconcile. apply wp_bind. eapply wp_mono; [by apply file_rows_wp|done|]. intros existing w1 [Hw1 He].
  rewrite Forall_forall in He. revert w1 Hw1. change (keeps (n ← for_each (push c relative existing) (mkCounts 0 0 0) items;
    n ← for_each (drop_old c (i_uid <$> items)) n existing; mret (mkResult relative n))).
  apply keepsB_bind; [|intros n; apply keepsB_bind; [|intros; apply keepsB_ret]].
  - apply keepsB_for_each. intros n i Hin. unfold push. destruct (match List.find _ _ with Some _ => _ | None => _ end); [|apply keepsB_ret].
    apply keepsB_bind; [by apply keeps_put, Hi|intros _]. apply keepsB_bind; [|intros _; apply keepsB_ret].
    apply keeps_db. intros d u e. cbn. intros [(<- & <-)|(_ & ?)]%lookup_insert_Some; [right; split; [done|by apply Hi]|by left].
  - apply keepsB_for_each. intros n' e Hin. unfold drop_old. destruct (bool_decide _); [apply keepsB_ret|].
    apply keepsB_bind; [by apply keeps_delete, He|intros _]. apply keepsB_bind; [|intros _; apply keepsB_ret].
    apply keeps_db. intros d u e'. cbn. intros [_ ?]%lookup_delete_Some. by left.
Qed.
Lemma keepsB_read relative : keeps (read_note relative).
Proof. intros w Hw. exact Hw. Qed.
Lemma keeps_ordered l : keeps (ordered l).
Proof. intros w Hw. exact Hw. Qed.
Lemma keeps_file relative : keeps (reconcile_file c spec relative).
Proof.
  unfold reconcile_file. apply keepsB_bind; [apply keepsB_read|]. intros [content|]; [|apply keepsB_throw]. apply keeps_reconcile.
  unfold items_in. intros i. rewrite list_elem_of_In, in_flat_map. intros (e & _ & Hi%list_elem_of_In). by eapply ours_items.
Qed.
(** The UIDs of a file whose rows are deleted *)
Lemma delete_file_wp file w : apart w → wp (delete_file_entries file) apart (λ uids w', apart w' ∧ Forall ours uids) w.
Proof.
  intros Hw. unfold delete_file_entries. apply wp_bind. eapply wp_mono; [by apply file_rows_wp|done|]. intros rows w1 [Hw1 Hr].
  apply wp_bind. eapply wp_mono; [apply keeps_db; [|exact Hw1]|done|].
  - intros d u e. cbn. intros [? _]%map_lookup_filter_Some. by left.
  - intros ? w2 Hw2. apply wp_ret. split; [done|]. by apply Forall_fmap.
Qed.
Lemma keeps_uids {A} (m : M (list string)) (f : list string → M A) :
  (∀ w, apart w → wp m apart (λ uids w', apart w' ∧ Forall ours uids) w) → (∀ uids, Forall ours uids → keeps (f uids)) → keeps (m ≫= f).
Proof. intros Hm Hf w Hw. apply wp_bind. eapply wp_mono; [by apply Hm|done|]. intros uids w' [Hw' Hu]. by apply Hf. Qed.
Lemma keeps_sweep : keeps (sweep c).
Proof.
  unfold sweep. apply keepsB_bind; [apply keeps_try, keeps_list|]. intros [remote|]; [|apply keepsB_ret].
  apply keepsB_bind; [intros w Hw; eapply wp_mono; [by apply all_rows_wp|done|by intros ? ? []]|]. intros known.
  apply keepsB_for_each. intros ? uid ?. unfold sweep_one. destruct (starts_with "org-" uid) eqn:Eo; [|apply keepsB_ret].
  destruct (_ && _); [|apply keepsB_ret]. apply keepsB_bind; [by apply keeps_try, keeps_delete|intros; apply keepsB_ret].
Qed.
Lemma keeps_full : keeps (full_reconciliation c spec).
Proof.
  unfold full_reconciliation. apply keepsB_bind; [|intros files].
  { intros w Hw. unfold parse_directory. apply keepsB_for_each; [|done]. intros fs p _. unfold parse_one. destruct (_ && _); [|apply keepsB_ret].
    apply keepsB_bind; [apply keepsB_read|intros ?; apply keepsB_ret]. }
  apply keepsB_bind; [apply keeps_ordered|intros order]. apply keepsB_bind.
  { apply keepsB_for_each. intros acc f _. unfold reconcile_one. apply keepsB_bind; [apply keeps_try, keeps_file|intros ?; apply keepsB_ret]. }
  intros [failed results]. apply keepsB_bind; [intros w Hw; eapply wp_mono; [by apply all_rows_wp|done|by intros ? ? []]|intros all].
  apply keepsB_bind; [apply keeps_ordered|intros stale]. apply keepsB_bind.
  { apply keepsB_for_each. intros acc f _. unfold clean_file. apply keeps_uids; [by apply delete_file_wp|]. intros uids Hu.
    apply keepsB_bind; [|intros ?; apply keepsB_ret]. apply keepsB_for_each. intros ? u Hin. apply keeps_delete. rewrite Forall_forall in Hu. auto. }
  intros results'. apply keepsB_bind; [destruct failed; [apply keepsB_ret|apply keeps_sweep]|intros ?; apply keepsB_ret].
Qed.
Lemma keeps_round there last events : keeps (round c spec there last events).
Proof.
  unfold round. destruct events as [l|]; [|apply keepsB_ret]. apply keepsB_for_each. intros id e _. unfold on_event.
  apply keepsB_bind; [|intros _; apply keepsB_ret]. destruct (extract_file_path e) as [path|]; [|apply keepsB_ret].
  destruct (is_org_file path); [|apply keepsB_ret]. unfold on_change. destruct (there path).
  - apply keepsB_bind; [apply keeps_try, keeps_file|intros ?; apply keepsB_ret].
  - intros w Hw. apply wp_bind. pose proof (delete_file_wp path w Hw) as Hd. unfold wp, try in *.
    destruct (delete_file_entries path w) as [w1 [uids|e1]]; [|exact Hd]. destruct Hd as [Hw1 Hu]. revert w1 Hw1.
    change (keeps (for_each (λ _ uid, _ ← try (delete_event c uid); mret ()) () uids)). apply keepsB_for_each. intros ? u Hin.
    apply keepsB_bind; [apply keeps_try, keeps_delete; rewrite Forall_forall in Hu; auto|intros ?; apply keepsB_ret].
Qed.
End foreign.

(** The program: the start, then rounds of its loop. *)
Definition run `{Server, Notes, Orgize} (c : Client) (spec : option string) (rounds : list ((string → bool) * option (list Event))) : M N :=
  _ ← start c spec; for_each (λ last r, round c spec r.1 last r.2) 0%N rounds.

(** C25: In any run of the program, over any notes and events and with every request and database statement free to
    fail, the calendar's resources that are not the bridge's (their names do not begin with org-) keep what they
    hold, and the database only ever lists the bridge's. *)
Theorem foreign_untouched `{ServerLaws, NotesLaws, Orgize} c spec rounds w :
  (∀ u e, w_db w !! u = Some e → x_uid e = u ∧ ours u) →
  let w' := (run c spec rounds w).1 in
  (∀ p, (∀ u, ours u → p ≠ url_of c u) → w_dav w' !! p = w_dav w !! p) ∧
  ∀ u e, w_db w' !! u = Some e → x_uid e = u ∧ ours u.
Proof.
  intros Hdb w'. assert (keeps c (w_dav w) (run c spec rounds)) as Hk.
  { unfold run, start. apply keepsB_bind; [apply keepsB_bind; [apply keeps_try, keeps_full|intros ?; apply keepsB_ret]|intros _].
    apply keepsB_for_each. intros last r _. apply keeps_round. }
  assert (apart c (w_dav w) w) as Hw by (by split). apply Hk, wp_result in Hw. destruct Hw as [H1' H2']. by split.
Qed.

(** ** The start rebuilds the calendar *)

Section rebuild.
#[local] Set Default Proof Using "Type*".
Context `{Server} (c : Client) `{!ServerLaws, !Answers c, NotesLaws, Orgize} (spec : option string).
(** Notes that stand still *)
Context (text : string → option string) (paths : list string).
Context (Hstill : ∀ n p, note n p = text p) (Hwalk : ∀ n, walk n = paths).
Notation url u := (url_of c u).

Definition noted (f : string) : bool :=
  has_org_extension f && negb (is_hidden f) &&
  match text f with Some t => negb (bool_decide (parse_org_content spec t f = [])) | None => false end.
Definition all_files : list string := List.filter noted paths.
Definition note_items (f : string) : list Item := match text f with Some t => items_in spec f t | None => [] end.
Definition distinct : Prop := ∀ f g i j, f ∈ all_files → g ∈ all_files → i ∈ note_items f → j ∈ note_items g → i_uid i = i_uid j →
  f = g ∧ i_hash i = i_hash j ∧ i_ical i = i_ical j.
Context (Hdist : distinct).

Definition total {A} (m : M A) : Prop := ∀ w, is_ok (m w).2 = true.
Lemma total_wp {A} (m : M A) E Q w : total m → wp m E Q w → wp m (λ _, False) Q w.
Proof. intros Hm. specialize (Hm w). unfold wp. by destruct (m w) as [w' []]. Qed.
Lemma total_bind {A B} (m : M A) (f : A → M B) : total m → (∀ a, total (f a)) → total (m ≫= f).
Proof. intros Hm Hf w. unfold mbind, SE_bind. specialize (Hm w). destruct (m w) as [w' [a|e]]; [apply Hf|done]. Qed.
Lemma total_for_each {A B} (f : B → A → M B) b l : (∀ b a, total (f b a)) → total (for_each f b l).
Proof. intros Hf. revert b. induction l as [|a l IH]; intros b; cbn [for_each]; [by intros w|]. by apply total_bind. Qed.
Lemma total_db {A} (f : gmap string Exported → gmap string Exported * A) : total (db f).
Proof. intros w. unfold db. rewrite db_up. by destruct (f (w_db w)). Qed.
Lemma total_of_wp {A} (m : M A) : (∀ w, ∃ Q, wp m (λ _, False) Q w) → total m.
Proof. intros Hm w. destruct (Hm w) as [Q HQ]. unfold wp in HQ. by destruct (m w) as [w' []]. Qed.
Lemma total_put uid ical : total (put_event c uid ical).
Proof. apply total_of_wp. intros w. eexists. apply (put_success c). Qed.
Lemma total_delete uid : total (delete_event c uid).
Proof. apply total_of_wp. intros w. eexists. apply (delete_success c). Qed.
Lemma total_ret {A} (a : A) : total (mret a).
Proof. by intros w. Qed.
Lemma total_rows f : total (get_entries_for_file f).
Proof. intros w. apply total_db. Qed.
Lemma total_reconcile relative items : total (reconcile c relative items).
Proof.
  unfold reconcile. apply total_bind; [apply total_rows|]. intros existing. apply total_bind; [apply total_for_each|].
  { intros n i. unfold push. destruct (match List.find _ _ with Some _ => _ | None => _ end); [|apply total_ret].
    apply total_bind; [apply total_put|intros _]. apply total_bind; [apply total_db|intros _; apply total_ret]. }
  intros n. apply total_bind; [apply total_for_each|intros; apply total_ret]. intros n' e. unfold drop_old. destruct (bool_decide _); [apply total_ret|].
  apply total_bind; [apply total_delete|intros _]. apply total_bind; [apply total_db|intros _; apply total_ret].
Qed.

(** The files [D] are up to date, and the database tells the truth about all. *)
Definition current (D : list string) (w : World) : Prop :=
  keyed (w_db w) ∧ (∀ f, f ∈ all_files → truthful c (note_items f) w) ∧
  (∀ f i, f ∈ D → i ∈ note_items f → good c f i w) ∧
  (∀ f u e, f ∈ D → w_db w !! u = Some e → x_file e = f → u ∈ wanted (note_items f)) ∧
  named_plainly c (w_dav w).
Lemma consistent_items f : f ∈ all_files → consistent (note_items f).
Proof. intros Hf i j Hi Hj E. by destruct (Hdist f f i j Hf Hf Hi Hj E) as (_ & ? & ?). Qed.
Lemma plain_uid x y : plain_name y → (∀ a, a ∈ chars x → a ≠ "<"%char ∧ a ≠ ">"%char ∧ a ≠ "/"%char) → plain_name (str (take 48 (chars (x +:+ y)))).
Proof.
  intros [Hp Hs] Hx. assert (∀ a, a ∈ take 48 (chars (x +:+ y)) → a ≠ "<"%char ∧ a ≠ ">"%char ∧ a ≠ "/"%char) as Ha.
  { intros a Ha. apply elem_of_take in Ha as (k & Hk & _). apply list_elem_of_lookup_2 in Hk. rewrite chars_app, elem_of_app in Hk.
    destruct Hk as [Hk|Hk]; [by apply Hx|]. destruct (Hp a Hk). split_and!; [done..|]. intros ->. by apply Hs. }
  split; [intros a; rewrite chars_str; intros Hin; by destruct (Ha a Hin) as (? & ? & ?)|].
  unfold char_in. rewrite chars_str. intros Hin. by destruct (Ha _ Hin) as (_ & _ & ?).
Qed.
Lemma plain_items f i : i ∈ note_items f → plain_name (i_uid i).
Proof.
  unfold note_items. destruct (text f) as [t|]; [|by intros ?%not_elem_of_nil]. unfold items_in.
  rewrite list_elem_of_In, in_flat_map. intros (e & _ & Hi%list_elem_of_In). unfold items_of in Hi. rewrite elem_of_app in Hi. destruct Hi as [Hi|Hi].
  - apply list_elem_of_fmap in Hi as (ts & -> & _). apply plain_uid; [apply sha_plain|]. cbn. set_solver.
  - destruct (todo_state e); [|by apply not_elem_of_nil in Hi]. apply list_elem_of_singleton in Hi as ->. apply plain_uid; [apply sha_plain|]. cbn. set_solver.
Qed.
Lemma reconcile_current D f w : f ∈ all_files → current D w → Forall (λ g, g ∈ all_files) D →
  wp (reconcile c f (note_items f)) (λ _, False) (λ _ w', current (D ++ [f]) w') w.
Proof.
  intros Hf (Hk & Ht & Hg & Hr & Hn) HD. rewrite Forall_forall in HD. eapply total_wp; [apply total_reconcile|].
  eapply wp_mono; [apply reconcile_wp; [by apply consistent_items|done|by apply Ht]|done|].
  intros _ w' ((Hk' & Ht' & [Hfp Hfd]) & Hg' & Hr' & Hd').
  assert (∀ g i, g ∈ all_files → i ∈ note_items g → g ≠ f → i_uid i ∉ wanted (note_items f)) as Hother.
  { intros g i Hga Hi Hne Hin. apply list_elem_of_fmap in Hin as (j & E & Hj). by destruct (Hdist g f i j Hga Hf Hi Hj E). }
  assert (∀ u, u ∉ wanted (note_items f) → ¬ old f w u → w_dav w' !! url u = w_dav w !! url u) as Hfp'.
  { intros u Hu Ho. apply Hfp. intros v Hv E%url_of_inj. subst v. tauto. }
  split_and!; [done| | | |].
  - intros g Hga. destruct (decide (g = f)) as [->|Hne]; [done|]. intros i e Hi Ei Eh. pose proof (Hother g i Hga Hi Hne) as Hu.
    assert (¬ old f w (i_uid i)) as Ho by (intros Ho; destruct (Hd' _ Hu Ho) as [_ Hnone]; by rewrite Hnone in Ei).
    rewrite Hfp' by done. rewrite (Hfd _ Hu Ho) in Ei. by apply (Ht g Hga i e).
  - intros g i Hin Hi. apply elem_of_app in Hin as [Hin|Hin%list_elem_of_singleton]; [|subst g; by apply Hg'].
    destruct (decide (g = f)) as [->|Hne]; [by apply Hg'|]. pose proof (Hother g i (HD g Hin) Hi Hne) as Hu.
    destruct (Hg g i Hin Hi) as [Hc (e & Ee & Hfe & Hhe)].
    assert (¬ old f w (i_uid i)) as Ho by (intros (e' & Ee' & Hfe'); rewrite Ee in Ee'; injection Ee' as <-; congruence).
    split; [by rewrite Hfp'|]. exists e. by rewrite (Hfd _ Hu Ho).
  - intros g u e Hin Ee Hfe. apply elem_of_app in Hin as [Hin|Hin%list_elem_of_singleton]; [|subst g; by eapply Hr'].
    destruct (decide (g = f)) as [->|Hne]; [by eapply Hr'|]. destruct (decide (u ∈ wanted (note_items f))) as [Hu|Hu].
    { apply list_elem_of_fmap in Hu as (i & -> & Hi). destruct (Hg' i Hi) as [_ (e' & Ee' & Hfe' & _)]. rewrite Ee in Ee'. injection Ee' as <-. congruence. }
    assert (¬ old f w u) as Ho by (intros Ho; destruct (Hd' _ Hu Ho) as [_ Hnone]; by rewrite Hnone in Ee).
    rewrite (Hfd _ Hu Ho) in Ee. by apply (Hr g u e).
  - intros u Hu. destruct (decide (u ∈ wanted (note_items f))) as [Hin|Hin].
    { apply list_elem_of_fmap in Hin as (i & -> & Hi). by eapply plain_items. }
    destruct (w_db w !! u) as [e|] eqn:Ee; [destruct (decide (x_file e = f)) as [Hfe|Hfe]|].
    + destruct (Hd' u Hin) as [Hnone _]; [by exists e|]. rewrite Hnone in Hu. by destruct Hu.
    + apply Hn. rewrite <- Hfp'; [done..|]. intros (e' & Ee' & ?). congruence.
    + apply Hn. rewrite <- Hfp'; [done..|]. intros (e' & Ee' & ?). congruence.
Qed.

(** Reading the notes *)
Lemma noted_step fs p w :
  wp (parse_one spec fs p) (λ _, False) (λ r w', r = fs ++ List.filter noted [p] ∧ w_db w' = w_db w ∧ w_dav w' = w_dav w) w.
Proof.
  unfold parse_one, noted. cbn [List.filter]. destruct (has_org_extension p && negb (is_hidden p)); [|apply wp_ret; by rewrite app_nil_r].
  apply wp_bind. unfold wp at 1, read_note. apply wp_ret. rewrite Hstill. cbn [andb]. destruct (text p) as [t|]; [|by rewrite app_nil_r].
  destruct (bool_decide _); cbn; by rewrite ?app_nil_r.
Qed.
Lemma parse_wp w : wp (parse_directory spec) (λ _, False) (λ r w', r = all_files ∧ w_db w' = w_db w ∧ w_dav w' = w_dav w) w.
Proof.
  match goal with |- wp _ ?E ?Q w => change (wp (for_each (parse_one spec) [] (walk (w_step w))) E Q w) end. rewrite Hwalk.
  apply (wp_for_each (parse_one spec) (λ seen r w', r = List.filter noted seen ∧ w_db w' = w_db w ∧ w_dav w' = w_dav w) (λ _, False)); [|done].
  intros seen p r w1 (-> & Hd & Hv) _. eapply wp_mono; [apply noted_step|done|]. intros r w2 (-> & -> & ->). split_and!; [by rewrite List.filter_app|done..].
Qed.
Lemma current_same D w w' : w_db w' = w_db w → w_dav w' = w_dav w → current D w → current D w'.
Proof.
  intros Hd Hv (Hk & Ht & Hg & Hr & Hn). unfold current, keyed, truthful, good. rewrite Hd, Hv. done.
Qed.
Lemma reconcile_one_wp acc D f w : f ∈ all_files → current D w → Forall (λ g, g ∈ all_files) D → acc.1 = false →
  wp (reconcile_one c spec acc f) (λ _, False) (λ acc' w', acc'.1 = false ∧ current (D ++ [f]) w') w.
Proof.
  intros Hf Hc HD Ha. unfold reconcile_one, reconcile_file. apply wp_bind. unfold wp at 1, try.
  assert (is_Some (text f)) as [t Et].
  { unfold all_files in Hf. apply list_elem_of_In, filter_In in Hf as [_ Hn]. unfold noted in Hn. destruct (text f); [done|]. by rewrite andb_false_r in Hn. }
  unfold mbind, SE_bind at 1, read_note. rewrite Hstill, Et. set (w1 := mkWorld _ _ _ _).
  assert (current D w1) as Hc1 by (by eapply current_same).
  pose proof (reconcile_current D f w1 Hf Hc1 HD) as Hw. unfold note_items at 1 in Hw. rewrite Et in Hw. unfold wp in Hw.
  destruct (reconcile c f (items_in spec f t) w1) as [w2 [x|e]]; [|done]. by apply wp_ret.
Qed.

(** Rows of files that are no longer there *)
Definition fewer (d d' : gmap string Exported) : Prop := ∀ u e, d' !! u = Some e → d !! u = Some e.
Lemma total_file_rows f : total (delete_file_entries f).
Proof. unfold delete_file_entries. apply total_bind; [apply total_rows|intros rows]. apply total_bind; [apply total_db|intros ?; apply total_ret]. Qed.
Lemma clean_file_wp results g w : current all_files w → g ∉ all_files →
  wp (clean_file c results g) (λ _, False) (λ _ w', current all_files w' ∧ fewer (w_db w) (w_db w') ∧ ∀ u e, w_db w' !! u = Some e → x_file e ≠ g) w.
Proof.
  intros Hc Hg. pose proof Hc as (Hk & _). unfold clean_file, delete_file_entries. apply wp_bind, wp_bind.
  eapply total_wp; [apply total_rows|]. eapply wp_mono; [apply db_wp|intros; exact I|].
  intros rows w1 (Hd1 & -> & Hv1). cbn [fst snd] in *. set (rows := List.filter _ _).
  assert (∀ e, e ∈ rows → w_db w !! x_uid e = Some e ∧ x_file e = g) as Hrows.
  { intros e He. unfold rows in He. rewrite list_elem_of_In, filter_In, bool_decide_eq_true, <- list_elem_of_In, in_order_elem in He by done. done. }
  apply wp_bind. eapply total_wp; [apply total_db|]. eapply wp_mono; [apply db_wp|intros; exact I|].
  intros _ w2 (Hd2 & _ & Hv2). cbn [fst] in Hd2. rewrite Hd1 in Hd2. rewrite Hv1 in Hv2.
  assert (fewer (w_db w) (w_db w2)) as Hfew by (intros u e; rewrite Hd2; by intros [? _]%map_lookup_filter_Some).
  assert (∀ u e, w_db w2 !! u = Some e → x_file e ≠ g) as Hgone by (intros u e; rewrite Hd2; by intros [_ ?]%map_lookup_filter_Some).
  assert (current all_files w2) as Hc2.
  { destruct Hc as (_ & Ht & Hgd & Hr & Hn). split_and!; [intros u e He; by eapply Hk, Hfew|intros f Hf i e Hi Ee Eh; rewrite Hv2; by eapply Ht; eauto| |intros f u e Hf Ee; by apply (Hr f u e Hf), Hfew|by rewrite Hv2].
    intros f i Hf Hi. destruct (Hgd f i Hf Hi) as [Hi' (e & Ee & Hfe & Hhe)]. split; [by rewrite Hv2|]. exists e. split; [|done].
    rewrite Hd2. apply map_lookup_filter_Some. split; [done|]. cbn. rewrite Hfe. by intros ->. }
  apply wp_ret, wp_bind. assert (∀ u f i, u ∈ x_uid <$> rows → f ∈ all_files → i ∈ note_items f → u ≠ i_uid i) as Hne.
  { intros u f i (e & -> & He)%list_elem_of_fmap Hf Hi E. destruct (Hrows e He) as [Ee Hfe]. destruct Hc as (_ & _ & Hgd & _).
    destruct (Hgd f i Hf Hi) as [_ (e' & Ee' & Hfe' & _)]. rewrite E, Ee' in Ee. injection Ee as <-. congruence. }
  eapply (wp_mono _ (λ _, False)); [|done|].
  { apply (wp_for_each _ (λ _ _ w', current all_files w' ∧ w_db w' = w_db w2)); [|done].
    intros _ u _ w3 [Hc3 Hd3] Hu. eapply wp_mono; [apply (delete_success c)|done|]. intros _ w4 [Hd4 Hv4]. split; [|congruence].
    destruct Hc3 as (Hk3 & Ht3 & Hg3 & Hr3 & Hn3). split_and!; [by rewrite Hd4| | |intros f u' e; rewrite Hd4; apply Hr3|].
    - intros f Hf i e Hi. rewrite Hd4, Hv4. intros Ee Eh. rewrite lookup_delete_ne; [by eapply Ht3; eauto|]. intros E%url_of_inj. by eapply Hne.
    - intros f i Hf Hi. destruct (Hg3 f i Hf Hi) as [Hi' He]. unfold good. rewrite Hd4, Hv4. split; [|done]. rewrite lookup_delete_ne; [done|].
      intros E%url_of_inj. by eapply Hne.
    - intros v Hv. apply Hn3. rewrite Hv4 in Hv. destruct Hv as [x [_ Hx]%lookup_delete_Some]. by exists x. }
  intros ? w3 [Hc3 Hd3]. apply wp_ret. by rewrite Hd3.
Qed.

(** The calendar is what the notes say. *)
Definition rebuilt (w : World) : Prop :=
  (∀ f i, f ∈ all_files → i ∈ note_items f → w_dav w !! url (i_uid i) = Some (i_ical i)) ∧
  ∀ u, ours u → (∀ f i, f ∈ all_files → i ∈ note_items f → i_uid i ≠ u) → w_dav w !! url u = None.
Lemma sweep_wp w : current all_files w → (∀ u e, w_db w !! u = Some e → x_file e ∈ all_files) →
  wp (sweep c) (λ _, False) (λ _ w', rebuilt w') w.
Proof.
  intros (Hk & Ht & Hg & Hr & Hn) Hfiles. unfold sweep. apply wp_bind. unfold wp at 1, try.
  pose proof (list_success c w Hn) as Hl. unfold wp in Hl. destruct (list_uids c w) as [w1 [remote|e]]; [|done]. destruct Hl as (Hd1 & Hv1 & Hrem).
  apply wp_bind. eapply total_wp; [intros w'; apply total_db|]. eapply wp_mono; [apply db_wp|intros; exact I|].
  intros known w2 (Hd2 & -> & Hv2). cbn [fst snd] in *. rewrite Hv1 in Hv2. set (known := x_uid <$> _).
  assert (∀ u, u ∈ known ↔ is_Some (w_db w !! u)) as Hkn.
  { intros u. unfold known. rewrite Hd1, list_elem_of_fmap. split.
    - intros (e & -> & He). rewrite in_order_elem in He by done. by exists e.
    - intros [e Ee]. exists e. rewrite (Hk u e Ee), in_order_elem by done. by rewrite (Hk u e Ee). }
  eapply (wp_mono _ (λ _, False)); [|done|].
  { apply (wp_for_each _ (λ seen _ w', (∀ u, u ∈ known → w_dav w' !! url u = w_dav w !! url u) ∧
      (∀ u, is_Some (w_dav w' !! url u) → is_Some (w_dav w !! url u)) ∧ ∀ u, u ∈ seen → ours u → u ∉ known → w_dav w' !! url u = None)).
    2: { rewrite Hv2. split_and!; [done|done|]. by intros u ?%not_elem_of_nil. }
    intros seen x [] w3 (H1' & H2' & H3') Hx. unfold sweep_one.
    destruct (starts_with "org-" x && negb (bool_decide (x ∈ known))) eqn:Ex.
    - apply andb_true_iff in Ex as [Eo Ek%negb_true_iff%bool_decide_eq_false]. apply wp_bind. unfold wp at 1, try.
      pose proof (delete_success c x w3) as Hd. unfold wp in Hd. destruct (delete_event c x w3) as [w4 [u0|e]]; [|done]. destruct Hd as [_ Hv4].
      apply wp_ret. rewrite Hv4. split_and!.
      + intros u Hu. rewrite lookup_delete_ne; [by apply H1'|]. intros E%url_of_inj. by subst u.
      + intros u [y [_ Hy]%lookup_delete_Some]. apply H2'. by exists y.
      + intros u Hu Ho Hnk. destruct (decide (u = x)) as [->|?]; [by rewrite lookup_delete_eq|].
        rewrite lookup_delete_ne by (by intros E%url_of_inj). apply elem_of_app in Hu as [Hu|Hu%list_elem_of_singleton]; [by apply H3'|done].
    - apply wp_ret. split_and!; [done|done|]. intros u Hu Ho Hnk. apply elem_of_app in Hu as [Hu|Hu%list_elem_of_singleton]; [by apply H3'|]. subst u.
      apply andb_false_iff in Ex as [Ex|Ex]; [by rewrite Ho in Ex|]. by apply negb_false_iff, bool_decide_eq_true in Ex. }
  intros _ w3 (H1' & H2' & H3'). split.
  - intros f i Hf Hi. destruct (Hg f i Hf Hi) as [Hc (e & Ee & _)]. rewrite H1'; [done|]. apply Hkn. by exists e.
  - intros u Ho Hnot. destruct (w_dav w3 !! url u) as [x|] eqn:Ex; [|done]. rewrite <- Ex. apply H3'; [|done|].
    + apply Hrem, H2'. by exists x.
    + rewrite Hkn. intros [e Ee]. pose proof (Hfiles u e Ee) as Hf. pose proof (Hr _ u e Hf Ee eq_refl) as Hu.
      apply list_elem_of_fmap in Hu as (i & Eu & Hi). by eapply Hnot.
Qed.

Lemma full_wp w : keyed (w_db w) → (∀ f, f ∈ all_files → truthful c (note_items f) w) → named_plainly c (w_dav w) →
  wp (full_reconciliation c spec) (λ _, False) (λ _ w', rebuilt w') w.
Proof.
  intros Hk Ht Hn. unfold full_reconciliation. apply wp_bind. eapply wp_mono; [apply parse_wp|done|]. intros files w1 (-> & Hd1 & Hv1).
  apply wp_bind. unfold wp at 1, ordered. set (order := some_order _ _).
  assert (∀ f, f ∈ order ↔ f ∈ all_files) as Horder by (intros f; unfold order; by rewrite (some_order_perm _ _), elem_of_remove_dups).
  apply wp_bind. eapply (wp_mono _ (λ _, False)); [|done|].
  { apply (wp_for_each _ (λ seen acc w', acc.1 = false ∧ current seen w' ∧ Forall (λ f, f ∈ all_files) seen)).
    - intros seen f acc w2 (Ha & Hc & Hs) Hf%Horder. eapply wp_mono; [by apply (reconcile_one_wp acc seen)|done|]. intros acc' w3 [Ha' Hc'].
      split_and!; [done|done|]. apply Forall_app. split; [done|]. by constructor.
    - split_and!; [done| |done]. eapply current_same; [exact Hd1|exact Hv1|]. split_and!; [done|done|by intros f i ?%not_elem_of_nil|by intros f u e ?%not_elem_of_nil|done]. }
  intros [failed results] w2 (Ha & Hc & _). cbn in Ha. subst failed.
  assert (current all_files w2) as Hc2.
  { destruct Hc as (Hk2 & Ht2 & Hg2 & Hr2 & Hn2). split_and!; [done|done|intros f i Hf; apply Hg2; by apply Horder|intros f u e Hf; apply Hr2; by apply Horder|done]. }
  apply wp_bind. eapply total_wp; [intros w'; apply total_db|]. eapply wp_mono; [apply db_wp|intros; exact I|].
  intros all w3 (Hd3 & -> & Hv3). cbn [fst snd] in *. set (rows := in_order _ _). assert (current all_files w3) as Hc3 by (by eapply current_same).
  assert (∀ u e, w_db w3 !! u = Some e → e ∈ rows) as Hrows.
  { intros u e. rewrite Hd3. intros Ee. destruct Hc2 as (Hk2 & _). unfold rows. rewrite in_order_elem by done. by rewrite (Hk2 u e Ee). }
  apply wp_bind. unfold wp at 1, ordered. set (stale := some_order _ _).
  assert (∀ f, f ∈ stale ↔ f ∈ x_file <$> rows ∧ f ∉ all_files) as Hstale.
  { intros f. unfold stale. by rewrite (some_order_perm _ _), elem_of_remove_dups, list_elem_of_In, filter_In, negb_true_iff, bool_decide_eq_false, <- list_elem_of_In. }
  apply wp_bind. eapply (wp_mono _ (λ _, False)); [|done|].
  { apply (wp_for_each _ (λ seen _ w', current all_files w' ∧ fewer (w_db w3) (w_db w') ∧ ∀ u e, w_db w' !! u = Some e → x_file e ∉ seen)).
    - intros seen g res w4 (Hc4 & Hf4 & Hs4) [_ Hg]%Hstale. eapply wp_mono; [by apply clean_file_wp|done|]. intros _ w5 (Hc5 & Hf5 & Hg5).
      split_and!; [done|by intros u e ?%Hf5%Hf4|]. intros u e Ee. rewrite elem_of_app. intros [Hin|Hin%list_elem_of_singleton]; [by eapply Hs4; [apply Hf5, Ee|]|by eapply Hg5].
    - split_and!; [done|by intros u e|]. intros u e _. apply not_elem_of_nil. }
  intros results' w4 (Hc4 & Hf4 & Hs4). apply wp_bind. eapply wp_mono; [apply sweep_wp; [done|]|done|intros ? w5 Hr; by apply wp_ret].
  intros u e Ee. destruct (decide (x_file e ∈ all_files)) as [?|Hnot]; [done|]. exfalso. apply (Hs4 u e Ee). apply Hstale. split; [|done].
  apply list_elem_of_fmap_2, (Hrows u), Hf4, Ee.
Qed.
End rebuild.

(** C24: While the notes stand still, every one of them can be read, and the server and the database answer, the
    start of the program succeeds and leaves in the calendar, of all that is named as the bridge names things,
    exactly the items of the notes, whatever entries were there before. This is for notes of which no two items
    share a UID but say different things or stand in different notes ([distinct]; [twins_swap] shows the other
    case), a calendar whose resources have plain names, and a database that is [keyed] and [truthful] as in C23. *)
Theorem full_rebuilds `{Server} c `{!ServerLaws, !Answers c, NotesLaws, Orgize} spec text paths w :
  (∀ n p, note n p = text p) → (∀ n, walk n = paths) → (∀ p, p ∈ paths → has_org_extension p = true → is_Some (text p)) →
  distinct spec text paths → keyed (w_db w) → (∀ f, f ∈ all_files spec text paths → truthful c (note_items spec text f) w) → named_plainly c (w_dav w) →
  let '(w', r) := full_reconciliation c spec w in is_ok r = true ∧ rebuilt c spec text paths w'.
Proof.
  intros Hstill Hwalk _ Hdist Hk Ht Hn. pose proof (full_wp c spec text paths Hstill Hwalk Hdist w Hk Ht Hn) as Hw.
  unfold wp in Hw. by destruct (full_reconciliation c spec w) as [w' [r|e]].
Qed.

(** ** Limits of the change detection *)

(** An appointment moved from all day to midnight keeps its UID and hash, though it would be written
    differently: the calendar keeps the all-day entry. *)
Lemma midnight_unseen `{Server} spec e file y m d :
  let day := date y m d in let midnight := datetime y m d 0 0 in
  make_uid file (heading_path e) day = make_uid file (heading_path e) midnight ∧
  hash_entry_timestamp e day = hash_entry_timestamp e midnight ∧
  format_ical_datetime day ≠ format_ical_datetime midnight ∧
  generate_vevent spec e day "u" = calendar "VEVENT" "u" (format_ical_datetime day) "" e
    match todo_state e with Some s => if is_done_state spec s then "COMPLETED" else "NEEDS-ACTION" | None => "CONFIRMED" end.
Proof. split_and!; [reflexivity|reflexivity|by intros E|reflexivity]. Qed.

(** ** A server, notes and a run *)

Module Reference.
Definition client : Client := mkClient "http://d/cal" "admin" "pw".
Definition names (dav : gmap string string) : list string :=
  omap (λ kv : string * string, x ← strip_prefix "http://d/cal/" kv.1; strip_suffix ".ics" x) (map_to_list dav).
Definition asks : string := "Digest realm=" +:+ quoted "BaikalDAV" +:+ ", qop=" +:+ quoted "auth" +:+ ", nonce=" +:+ quoted "abc".
Definition answer (dav : gmap string string) (rq : Req) : gmap string string * option Resp :=
  if bool_decide ("Authorization" ∈ (rq_headers rq).*1) then
    if String.eqb (rq_method rq) "PUT" then
      (match rq_body rq with Some b => <[rq_url rq := b]> dav | None => dav end, Some (mkResp 201 [] ""))
    else if String.eqb (rq_method rq) "DELETE" then (delete (rq_url rq) dav, Some (mkResp 204 [] ""))
    else (dav, Some (mkResp 207 [] ("<d:" +:+ multistatus (listing "/cal" "<d:" ((λ u, (u, "<d:")) <$> names dav)))))
  else (dav, Some (mkResp 401 [asks] "")).
#[export] Instance server : Server := {|
  serve _ dav rq := answer dav rq;
  md5_hex s := s; sha256_hex s := pretty (N.of_nat (String.length s)); base64 s := s;
  uri_of s := Some s; cnonce _ := "c"; status_text := pretty; db_works _ := true;
|}.
#[export] Instance server_laws : ServerLaws.
Proof.
  split.
  - intros n dav rq body dav' r Hm Hb. cbn. unfold answer. rewrite Hm, Hb. cbn. destruct (bool_decide _); intros [= <- <-].
    + split; [by right|done].
    + split; [by left|]. by intros x [= <-].
  - intros n dav rq dav' r Hm. cbn. unfold answer. rewrite Hm. cbn. destruct (bool_decide _); intros [= <- <-].
    + split; [by right|done].
    + split; [by left|]. by intros x [= <-].
  - intros n dav rq dav' r Hm. cbn. unfold answer. rewrite Hm. cbn. destruct (bool_decide _); by intros [= <- <-].
Qed.
Lemma strip_suffix_Some suffix s t : strip_suffix suffix s = Some t → s = t +:+ suffix.
Proof.
  unfold strip_suffix. destruct (ends_with suffix s) eqn:E; [|done]. intros [= <-]. unfold ends_with in E. apply bool_decide_eq_true in E as [k E].
  apply (inj chars). rewrite chars_app, chars_str. assert (chars s = reverse k ++ chars suffix) as Es.
  { apply (inj reverse). by rewrite reverse_app, reverse_involutive. }
  rewrite Es at 1. f_equal. rewrite !length_chars, Es, length_app, Nat.add_sub. by rewrite take_app_length.
Qed.
Lemma entry_names_elem dav u : u ∈ names dav ↔ is_Some (dav !! url_of client u).
Proof.
  unfold names. rewrite list_elem_of_omap. split.
  - intros ([k v] & Hk%elem_of_map_to_list & E). apply bind_Some in E as (x & Ek & E). cbn [fst] in Ek.
    apply strip_suffix_Some in E as ->. apply strip_prefix_Some in Ek as ->. exists v. exact Hk.
  - intros [v Hv]. exists (url_of client u, v). split; [by apply elem_of_map_to_list|]. cbn [fst].
    assert (strip_prefix "http://d/cal/" (url_of client u) = Some (u +:+ ".ics")) as -> by (apply strip_prefix_Some; reflexivity). apply strip_suffix_app.
Qed.
#[export] Instance answers : Answers client.
Proof.
  split; try done.
  - intros n dav rq. cbn. unfold answer. destruct (bool_decide _) eqn:E.
    + destruct (String.eqb (rq_method rq) "PUT"), (String.eqb (rq_method rq) "DELETE"); do 2 eexists; (split; [reflexivity|by left]).
    + do 2 eexists. split; [reflexivity|]. right. split_and!; [done|by vm_compute; eexists|by apply bool_decide_eq_false in E].
  - intros n dav rq dav' r Hm Hn. cbn. unfold answer. rewrite Hm. cbn. destruct (bool_decide _); intros [= <- <-]; [intros _|done].
    assert (between "<d:") as Hb by (split; [vm_compute; done|right; by exists "d:"]).
    exists "<d:", "/cal", "<d:", ((λ u, (u, "<d:")) <$> names dav). split_and!; [done|vm_compute; done|intros a; cbn; set_solver|by vm_compute|done| |].
    + apply Forall_fmap, Forall_forall. intros u Hu%entry_names_elem%Hn. destruct Hu. by split_and!.
    + intros u. rewrite <- list_fmap_compose. rewrite <- entry_names_elem. by rewrite list_fmap_id.
  - intros s. cbn. split; [intros a Ha|]; destruct (pretty_N_digits (N.of_nat (String.length s))) as [F _];
      unfold all_digits in F; rewrite Forall_forall in F.
    + pose proof (F a Ha). split; by intros ->.
    + intros Hin. by specialize (F _ Hin).
Qed.
Definition heading : Headline :=
  mkHeadline "Call" (Some "TODO") None [] (Some (mkTokens (Some "2026") (Some "10") (Some "20") (Some "10") (Some "00") None None)) None [].
#[export] Instance orgize : Orgize := λ _ _, [heading].
#[export] Instance notes : Notes := {|
  note _ p := if String.eqb p "t.org" then Some "* TODO Call" else None;
  walk _ := ["t.org"; "pic.png"];
  some_order _ l := l;
|}.
#[export] Instance notes_laws : NotesLaws.
Proof. by intros n l. Qed.
Definition world : World :=
  mkWorld (<["http://d/cal/org-old.ics" := "an old entry"]> {["http://d/cal/mine.ics" := "my own"]}) (None, 0%N) ∅ 0.
End Reference.
#[local] Existing Instances Reference.server Reference.server_laws Reference.answers Reference.orgize Reference.notes Reference.notes_laws.

Definition test_text (p : string) : option string := if String.eqb p "t.org" then Some "* TODO Call" else None.
Definition test_paths : list string := ["t.org"; "pic.png"].
Lemma test_files f : f ∈ all_files None test_text test_paths → f = "t.org".
Proof. intros Hf. vm_compute in Hf. by apply list_elem_of_singleton in Hf. Qed.
Lemma test_consistent : consistent (note_items None test_text "t.org").
Proof.
  intros i j Hi Hj E. assert (note_items None test_text "t.org" = items_in None "t.org" "* TODO Call") as En by done. rewrite En in *.
  vm_compute in Hi, Hj.
  repeat (apply elem_of_cons in Hi as [->|Hi]; [|]); try (by apply not_elem_of_nil in Hi);
    repeat (apply elem_of_cons in Hj as [->|Hj]; [|]); try (by apply not_elem_of_nil in Hj); by split || done.
Qed.
Lemma test_plain : named_plainly Reference.client (w_dav Reference.world).
Proof.
  intros u [v Hv]. cbn [Reference.world w_dav] in Hv. apply lookup_insert_Some in Hv as [[E _]|[_ [E _]%lookup_singleton_Some]].
  - apply (url_of_inj Reference.client "org-old") in E as <-. split; [intros a; cbn; set_solver|]. unfold char_in. cbn. set_solver.
  - apply (url_of_inj Reference.client "mine") in E as <-. split; [intros a; cbn; set_solver|]. unfold char_in. cbn. set_solver.
Qed.

(** The start deletes what an earlier run left, and asks for the credentials once. *)
Lemma full_rebuilds_witness :
  let '(w', r) := full_reconciliation Reference.client None Reference.world in
  is_ok r = true ∧ w_dav w' !! "http://d/cal/org-old.ics" = None ∧ rebuilt Reference.client None test_text test_paths w'.
Proof.
  pose proof (full_rebuilds Reference.client None test_text test_paths Reference.world) as T.
  destruct (full_reconciliation Reference.client None Reference.world) as [w' r]. destruct T as [Hok Hr].
  - done.
  - done.
  - intros p [->|[->|[]%elem_of_nil]%elem_of_cons]%elem_of_cons; [by eexists|done].
  - intros f g i j ->%test_files ->%test_files Hi Hj E. split; [done|]. by apply test_consistent.
  - by intros u e.
  - by intros f _ i e _.
  - exact test_plain.
  - split_and!; [done| |done]. destruct Hr as [_ Hr]. apply (Hr "org-old"); [done|]. intros f i ->%test_files Hi.
    vm_compute in Hi. repeat (apply elem_of_cons in Hi as [->|Hi]; [done|]). by apply not_elem_of_nil in Hi.
Defined.

Lemma reconcile_spec_witness :
  let '(w', r) := reconcile_file Reference.client None "t.org" Reference.world in
  r = Ok (mkResult "t.org" (mkCounts 2 0 0)) ∧
  ∀ i, i ∈ items_in None "t.org" "* TODO Call" → w_dav w' !! url_of Reference.client (i_uid i) = Some (i_ical i).
Proof.
  pose proof (reconcile_spec Reference.client None "t.org" "* TODO Call" Reference.world) as T.
  assert ((reconcile_file Reference.client None "t.org" Reference.world).2 = Ok (mkResult "t.org" (mkCounts 2 0 0))) as E by (vm_compute; done).
  revert T E. generalize (reconcile_file Reference.client None "t.org" Reference.world). intros [w' r] T E. cbn in E. split; [done|].
  destruct (T w' r eq_refl test_consistent ltac:(by intros u e) ltac:(by intros i e _) eq_refl) as [_ T']. by destruct (T' _ E).
Defined.

Lemma foreign_untouched_witness :
  let w' := (run Reference.client None [(λ _, false, Some [mkEvent 7 "ItemFinished" (Object [("item", Str "t.org")])])] Reference.world).1 in
  w_dav w' !! "http://d/cal/mine.ics" = Some "my own".
Proof.
  intros w'. destruct (foreign_untouched Reference.client None
    [(λ _, false, Some [mkEvent 7 "ItemFinished" (Object [("item", Str "t.org")])])] Reference.world ltac:(by intros u e)) as [T _].
  etransitivity; [apply T|done]. intros u Ho E. apply (url_of_inj Reference.client "mine") in E as <-. done.
Defined.

(** Two headings of one path and keyword share a UID: the calendar swaps between them at every run. *)
Definition twins : list Item := [mkItem "org-u" "one" "Call" "todo" "first"; mkItem "org-u" "two" "Call" "todo" "second"].
Example twins_swap :
  let w1 := (reconcile Reference.client "t.org" twins Reference.world).1 in
  let w2 := (reconcile Reference.client "t.org" twins w1).1 in
  w_dav w1 !! "http://d/cal/org-u.ics" = Some "second" ∧ w_dav w2 !! "http://d/cal/org-u.ics" = Some "first" ∧
  w_dav (reconcile Reference.client "t.org" twins w2).1 !! "http://d/cal/org-u.ics" = Some "second".
Proof. vm_compute. done. Qed.

(** A note that cannot be read when the directory is walked counts as gone, not as failed: its entries are
    deleted. *)
Definition unreadable_notes : Notes := {| note _ _ := None; walk _ := ["t.org"]; some_order _ l := l |}.
Example unreadable_deleted :
  let w1 := (full_reconciliation Reference.client None Reference.world).1 in
  let '(w2, r) := full_reconciliation (H0 := unreadable_notes) Reference.client None w1 in
  w_dav w1 !! "http://d/cal/org-todo-15.ics" ≠ None ∧ w_dav w2 !! "http://d/cal/org-todo-15.ics" = None ∧ is_ok r = true.
Proof. vm_compute. done. Qed.
