(* ===== verification/Codec.v ===== *)
(** * Hexadecimal and Base64 ([app-bootstrap/src/common.rs], and the [hex] helpers of the other programs)

    [b64] and [unb64] are translated with the source's shifts and masks on a [u32]; [unb64_b64] shows that
    decoding undoes encoding for every byte string. *)

From Stdlib Require Import Ascii.
From stdpp Require Import options.
From S2P Require Import Prelude.

(** ** Hexadecimal *)

Definition hex_digit (n : N) : ascii := ascii_of_N (if (n <? 10)%N then 48 + n else 87 + n)%N.
(** [format!("{b:02x}")] of each byte *)
Definition hex (bytes : string) : string :=
  str (flat_map (λ b, [hex_digit (N_of_ascii b / 16); hex_digit (N_of_ascii b mod 16)]) (chars bytes)).

Lemma N_ascii_bound c : (N_of_ascii c < 256)%N.
Proof. apply N_ascii_bounded. Qed.
Lemma hex_digit_inj n m : (n < 16)%N → (m < 16)%N → hex_digit n = hex_digit m → n = m.
Proof.
  intros Hn Hm E. apply (f_equal N_of_ascii) in E. unfold hex_digit in E. destruct (N.ltb_spec n 10), (N.ltb_spec m 10);
    rewrite !N_ascii_embedding in E by lia; lia.
Qed.
Lemma hex_inj s t : hex s = hex t → s = t.
Proof.
  intros E. apply (f_equal chars) in E. unfold hex in E. rewrite !chars_str in E. rewrite <- (str_chars s), <- (str_chars t). f_equal.
  revert E. generalize (chars s) (chars t). clear. intros l. induction l as [|a l IH]; intros [|b k]; cbn; try done.
  intros [= Ea Eb E]. f_equal; [|by apply IH]. pose proof (N_ascii_bound a). pose proof (N_ascii_bound b).
  apply hex_digit_inj in Ea; [|by apply N.Div0.div_lt_upper_bound; lia|by apply N.Div0.div_lt_upper_bound; lia].
  apply hex_digit_inj in Eb; [|by apply N.mod_lt|by apply N.mod_lt].
  assert (N_of_ascii a = N_of_ascii b) as En by (rewrite (N.div_mod (N_of_ascii a) 16), (N.div_mod (N_of_ascii b) 16) by done; by rewrite Ea, Eb).
  by rewrite <- (ascii_N_embedding a), <- (ascii_N_embedding b), En.
Qed.

(** ** Base64 *)

Definition T : list ascii := chars "ABCDEFGHIJKLMNOPQRSTUVWXYZabcdefghijklmnopqrstuvwxyz0123456789+/".
Definition byte (c : ascii) : N := N_of_ascii c.
Definition u32_shl (a : N) (k : N) : N := u32_wrap (N.shiftl a k).

(** The fourth characters of a chunk that is short are [=]. *)
Definition b64_chunk (c : list ascii) : list ascii :=
  let at_ i := default 0%N (byte <$> c !! i) in
  let n := N.lor (N.lor (u32_shl (at_ 0%nat) 16) (u32_shl (at_ 1%nat) 8)) (at_ 2%nat) in
  (λ i, if (i <=? length c)%nat then default "="%char (T !! N.to_nat (N.land (N.shiftr n (18 - 6 * N.of_nat i)) 63)) else "="%char) <$> seq 0 4.
Fixpoint b64_list (l : list ascii) : list ascii :=
  match l with
  | [] => []
  | [a] => b64_chunk [a]
  | [a; b] => b64_chunk [a; b]
  | a :: b :: c :: l => b64_chunk [a; b; c] ++ b64_list l
  end.
Definition b64 (input : string) : string := str (b64_list (chars input)).

Fixpoint position (c : ascii) (l : list ascii) : option nat :=
  match l with [] => None | t :: l => if bool_decide (t = c) then Some 0%nat else S <$> position c l end.
Definition unb64_step (st : list ascii * N * N) (c : ascii) : option (list ascii * N * N) :=
  let '(out, acc, bits) := st in
  v ← position c T;
  let acc := N.lor (u32_shl acc 6) (N.of_nat v) in
  let bits := (bits + 6)%N in
  Some (if (8 <=? bits)%N then
          let bits := (bits - 8)%N in
          (out ++ [ascii_of_N (N.shiftr acc bits mod 256)], N.land acc (N.shiftl 1 bits - 1), bits)
        else (out, acc, bits)).
(** None: [invalid base64] *)
Fixpoint unb64_from (st : list ascii * N * N) (l : list ascii) : option (list ascii) :=
  match l with
  | [] => Some st.1.1
  | c :: l => st ← unb64_step st c; unb64_from st l
  end.
Definition unb64 (input : string) : option string :=
  str <$> unb64_from ([], 0%N, 0%N) (List.filter (λ c, negb (bool_decide (c = "="%char))) (chars input)).

Example b64_tests :
  forallb (λ s, bool_decide (unb64 (b64 s) = Some s)) [""; "f"; "fo"; "foo"; "foob"; "fooba"; "foobar"] = true ∧
  b64 "foob" = "Zm9vYg==" ∧ unb64 "Zm9v!" = None ∧ hex "az" = "617a".
Proof. vm_compute. done. Qed.

(** *** Decoding undoes encoding *)

Lemma T_position i : (i < 64)%nat → ∃ c, T !! i = Some c ∧ position c T = Some i ∧ c ≠ "="%char.
Proof.
  intros Hi. assert (forallb (λ i, match T !! i with Some c => bool_decide (position c T = Some i) && negb (bool_decide (c = "="%char)) | None => false end)
    (seq 0 64) = true) as H by (vm_compute; done).
  rewrite forallb_forall in H. specialize (H i). rewrite in_seq in H. specialize (H ltac:(lia)).
  destruct (T !! i) as [c|]; [|done]. apply andb_true_iff in H as [H1%bool_decide_eq_true H2%negb_true_iff%bool_decide_eq_false]. by exists c.
Qed.

(** The six bits that a character stands for. *)
Definition six (n : N) : ascii := default "="%char (T !! N.to_nat n).
Lemma six_step out acc bits n : (n < 64)%N →
  unb64_step (out, acc, bits) (six n) =
  Some (if (8 <=? bits + 6)%N then
          (out ++ [ascii_of_N (N.shiftr (N.lor (u32_shl acc 6) n) (bits + 6 - 8) mod 256)], N.land (N.lor (u32_shl acc 6) n) (N.shiftl 1 (bits + 6 - 8) - 1), bits + 6 - 8)%N
        else (out, N.lor (u32_shl acc 6) n, bits + 6)%N).
Proof.
  intros Hn. assert (position (six n) T = Some (N.to_nat n)) as Ep.
  { unfold six. destruct (T_position (N.to_nat n)) as (c & Ec & Ep & _); [lia|]. by rewrite Ec. }
  unfold unb64_step. rewrite Ep. unfold mbind, option_bind. by rewrite N2Nat.id.
Qed.
Lemma six_ne n : (n < 64)%N → six n ≠ "="%char.
Proof. intros Hn. unfold six. destruct (T_position (N.to_nat n)) as (c & Ec & _ & Hc); [lia|]. by rewrite Ec. Qed.

Lemma lor_add a b k : (b < 2 ^ k)%N → N.lor (N.shiftl a k) b = (a * 2 ^ k + b)%N.
Proof.
  intros Hb. rewrite <- N.shiftl_mul_pow2. assert (N.land (N.shiftl a k) b = 0%N) as Hl.
  { apply N.bits_inj_0. intros i. rewrite N.land_spec. destruct (N.lt_ge_cases i k) as [Hi|Hi].
    - by rewrite N.shiftl_spec_low.
    - assert (N.testbit b i = false) as ->; [|by rewrite andb_false_r].
      destruct (N.eq_dec b 0%N) as [->|Hne]; [apply N.bits_0|]. apply N.bits_above_log2. apply N.log2_lt_pow2; [lia|].
      eapply N.lt_le_trans; [exact Hb|]. by apply N.pow_le_mono_r. }
  rewrite N.add_nocarry_lxor by done. symmetry. by apply N.lxor_lor.
Qed.
Lemma mask n k : N.land n (N.shiftl 1 k - 1) = (n mod 2 ^ k)%N.
Proof. rewrite N.shiftl_1_l, N.sub_1_r, <- N.ones_equiv. apply N.land_ones. Qed.
Lemma u32_shl_small a k : (a * 2 ^ k < 2 ^ 32)%N → u32_shl a k = N.shiftl a k.
Proof. intros H. unfold u32_shl, u32_wrap, u32_modulus. rewrite N.shiftl_mul_pow2. by apply N.mod_small. Qed.
Lemma byte_bound c : (byte c < 256)%N.
Proof. apply N_ascii_bound. Qed.
Lemma byte_ascii n c : n = byte c → ascii_of_N n = c.
Proof. intros ->. apply ascii_N_embedding. Qed.

(** One step of the decoder, as arithmetic. *)
Lemma six_step_arith out acc bits n : (n < 64)%N → (acc < 2 ^ 6)%N →
  let a := (acc * 64 + n)%N in
  unb64_step (out, acc, bits) (six n) =
  Some (if (8 <=? bits + 6)%N then (out ++ [ascii_of_N ((a / 2 ^ (bits + 6 - 8)) mod 256)], a mod 2 ^ (bits + 6 - 8), bits + 6 - 8)%N
        else (out, a, bits + 6)%N).
Proof.
  intros Hn Ha a. rewrite six_step by done. rewrite u32_shl_small by (change (2 ^ 6)%N with 64%N in *; change (2 ^ 32)%N with 4294967296%N; lia).
  rewrite lor_add by done. change (2 ^ 6)%N with 64%N. fold a. destruct (8 <=? bits + 6)%N; [|done]. by rewrite N.shiftr_div_pow2, mask.
Qed.

(** A chunk's characters, as arithmetic on the number its bytes make. *)
Definition sixes (n : N) : list ascii := [six (n / 262144 mod 64); six (n / 4096 mod 64); six (n / 64 mod 64); six (n mod 64)].
Lemma pack a b c : (b < 256)%N → (c < 256)%N → (a < 256)%N → N.lor (N.lor (u32_shl a 16) (u32_shl b 8)) c = (a * 65536 + b * 256 + c)%N.
Proof.
  intros Hb Hc Ha. rewrite !u32_shl_small by (change (2 ^ 32)%N with 4294967296%N; change (2 ^ 16)%N with 65536%N; change (2 ^ 8)%N with 256%N; lia).
  rewrite lor_add by (rewrite N.shiftl_mul_pow2; change (2 ^ 16)%N with 65536%N; change (2 ^ 8)%N with 256%N; lia).
  replace (a * 2 ^ 16 + N.shiftl b 8)%N with (N.shiftl (a * 256 + b) 8).
  - rewrite lor_add by done. change (2 ^ 8)%N with 256%N. lia.
  - rewrite !N.shiftl_mul_pow2. change (2 ^ 16)%N with 65536%N. change (2 ^ 8)%N with 256%N. lia.
Qed.
Lemma land63 n k : N.land (N.shiftr n k) 63 = (n / 2 ^ k mod 64)%N.
Proof. change 63%N with (N.ones 6). by rewrite N.land_ones, N.shiftr_div_pow2. Qed.
Lemma land63_0 n : N.land (N.shiftr n (18 - 6 * N.of_nat 3)) 63 = (n mod 64)%N.
Proof. rewrite land63. change (2 ^ (18 - 6 * N.of_nat 3))%N with 1%N. by rewrite N.div_1_r. Qed.
Lemma chunk3 a b c : b64_chunk [a; b; c] = sixes (byte a * 65536 + byte b * 256 + byte c).
Proof. unfold b64_chunk. cbn -[N.land N.shiftr N.sub N.mul u32_shl byte T]. rewrite pack by apply byte_bound. by rewrite land63_0, !land63. Qed.
Lemma chunk2 a b : b64_chunk [a; b] = take 3 (sixes (byte a * 65536 + byte b * 256)) ++ ["="%char].
Proof.
  unfold b64_chunk. cbn -[N.land N.shiftr N.sub N.mul u32_shl byte T]. rewrite pack by first [apply byte_bound|done]. rewrite !land63. by rewrite N.add_0_r.
Qed.
Lemma chunk1 a : b64_chunk [a] = take 2 (sixes (byte a * 65536)) ++ ["="%char; "="%char].
Proof.
  unfold b64_chunk. cbn -[N.land N.shiftr N.sub N.mul u32_shl byte T]. rewrite pack by first [apply byte_bound|done]. rewrite !land63. by rewrite !N.add_0_r.
Qed.

(** The decoder takes the characters of a chunk back to its bytes. *)
Lemma unb64_from_app st l k : unb64_from st (l ++ k) = unb64_from st l ≫= λ out, unb64_from st (l ++ k).
Proof.
  revert st. induction l as [|c l IH]; intros st; cbn; [done|]. destruct (unb64_step st c) as [st'|]; cbn; [|done]. apply IH.
Qed.
Fixpoint unb64_state (st : list ascii * N * N) (l : list ascii) : option (list ascii * N * N) :=
  match l with [] => Some st | c :: l => st ← unb64_step st c; unb64_state st l end.
Lemma unb64_from_state st l k : unb64_from st (l ++ k) = unb64_state st l ≫= λ st, unb64_from st k.
Proof. revert st. induction l as [|c l IH]; intros st; cbn; [done|]. by destruct (unb64_step st c) as [st'|]; cbn. Qed.

Ltac euclid := zify; Z.to_euclidean_division_equations; lia.
Lemma decode2 out a : (a < 256)%N →
  unb64_state (out, 0%N, 0%N) (take 2 (sixes (a * 65536))) = Some (out ++ [ascii_of_N a], 0%N, 4%N).
Proof.
  intros Ha. unfold sixes. cbn [take unb64_state]. unfold mbind, option_bind.
  rewrite six_step_arith by first [by apply N.mod_lt|done]. change (8 <=? 0 + 6)%N with false. cbv match.
  rewrite six_step_arith by first [by apply N.mod_lt|euclid]. change (8 <=? 0 + 6 + 6)%N with true. cbv match.
  change (2 ^ (0 + 6 + 6 - 8))%N with 16%N. change (0 + 6 + 6 - 8)%N with 4%N.
  f_equal. f_equal. f_equal; [f_equal; f_equal; f_equal|]; euclid.
Qed.
Lemma decode3 out a b : (a < 256)%N → (b < 256)%N →
  unb64_state (out, 0%N, 0%N) (take 3 (sixes (a * 65536 + b * 256))) = Some (out ++ [ascii_of_N a; ascii_of_N b], 0%N, 2%N).
Proof.
  intros Ha Hb. unfold sixes. cbn [take unb64_state]. unfold mbind, option_bind.
  rewrite six_step_arith by first [by apply N.mod_lt|done]. change (8 <=? 0 + 6)%N with false. cbv match.
  rewrite six_step_arith by first [by apply N.mod_lt|euclid]. change (8 <=? 0 + 6 + 6)%N with true. cbv match.
  change (2 ^ (0 + 6 + 6 - 8))%N with 16%N. change (0 + 6 + 6 - 8)%N with 4%N.
  rewrite six_step_arith by first [by apply N.mod_lt|euclid]. change (8 <=? 4 + 6)%N with true. cbv match.
  change (2 ^ (4 + 6 - 8))%N with 4%N. change (4 + 6 - 8)%N with 2%N.
  rewrite <- app_assoc. cbn [app]. f_equal. f_equal. f_equal; [f_equal; f_equal; [f_equal|f_equal; f_equal]|]; euclid.
Qed.
(** The four numbers of a whole chunk, by its bytes. *)
Lemma quads a b c : (a < 256)%N → (b < 256)%N → (c < 256)%N → let n := (a * 65536 + b * 256 + c)%N in
  (n / 262144 mod 64 = a / 4 ∧ n / 4096 mod 64 = (a mod 4) * 16 + b / 16 ∧ n / 64 mod 64 = (b mod 16) * 4 + c / 64 ∧ n mod 64 = c mod 64)%N.
Proof. intros Ha Hb Hc n. unfold n. split_and!; euclid. Qed.
Lemma decode4 out a b c : (a < 256)%N → (b < 256)%N → (c < 256)%N →
  unb64_state (out, 0%N, 0%N) (sixes (a * 65536 + b * 256 + c)) = Some (out ++ [ascii_of_N a; ascii_of_N b; ascii_of_N c], 0%N, 0%N).
Proof.
  intros Ha Hb Hc. unfold sixes. destruct (quads a b c Ha Hb Hc) as (-> & -> & -> & ->). cbn [unb64_state]. unfold mbind, option_bind.
  rewrite six_step_arith by first [euclid|done]. change (8 <=? 0 + 6)%N with false. cbv match.
  rewrite six_step_arith by euclid. change (8 <=? 0 + 6 + 6)%N with true. cbv match.
  change (2 ^ (0 + 6 + 6 - 8))%N with 16%N. change (0 + 6 + 6 - 8)%N with 4%N.
  rewrite six_step_arith by euclid. change (8 <=? 4 + 6)%N with true. cbv match.
  change (2 ^ (4 + 6 - 8))%N with 4%N. change (4 + 6 - 8)%N with 2%N.
  rewrite six_step_arith by euclid. change (8 <=? 2 + 6)%N with true. cbv match.
  change (2 ^ (2 + 6 - 8))%N with 1%N. change (2 + 6 - 8)%N with 0%N.
  rewrite <- !app_assoc. cbn [app]. f_equal. f_equal. f_equal; [f_equal; f_equal; [f_equal|f_equal; [f_equal|f_equal; f_equal]]|]; euclid.
Qed.

Lemma filter_sixes n l : (l ⊆ sixes n) → List.filter (λ c, negb (bool_decide (c = "="%char))) l = l.
Proof.
  intros Hl. induction l as [|c l IH]; cbn; [done|]. rewrite bool_decide_eq_false_2.
  - cbn. f_equal. apply IH. intros x Hx. apply Hl. by right.
  - assert (c ∈ sixes n) as Hc by (apply Hl; by left). unfold sixes in Hc.
    repeat (apply elem_of_cons in Hc as [->|Hc]; [by apply six_ne, N.mod_lt|]). by apply not_elem_of_nil in Hc.
Qed.

(** Decoding an encoded byte string gives it back. *)
Theorem unb64_b64 s : unb64 (b64 s) = Some s.
Proof.
  unfold unb64, b64. rewrite chars_str. rewrite <- (str_chars s) at 2. set (st := ([], 0%N, 0%N)). generalize (chars s). intros l.
  assert (∀ n l out, (length l ≤ n)%nat →
    unb64_from (out, 0%N, 0%N) (List.filter (λ c, negb (bool_decide (c = "="%char))) (b64_list l)) = Some (out ++ l)) as H; [|unfold st; by rewrite (H (length l) l [])].
  clear. induction n as [|n IH]; intros l out Hl; [destruct l; [cbn; by rewrite app_nil_r|cbn in Hl; lia]|].
  assert (∀ x, ascii_of_N (byte x) = x) as Hx by (intros; apply ascii_N_embedding).
  destruct l as [|a [|b [|c l]]]; cbn [b64_list].
  - cbn. by rewrite app_nil_r.
  - rewrite chunk1, List.filter_app, (filter_sixes (byte a * 65536)) by (by intros x ?%take_elem).
    rewrite unb64_from_state, decode2 by apply byte_bound. cbn. by rewrite Hx.
  - rewrite chunk2, List.filter_app, (filter_sixes (byte a * 65536 + byte b * 256)) by (by intros x ?%take_elem).
    rewrite unb64_from_state, decode3 by apply byte_bound. cbn. by rewrite !Hx.
  - rewrite chunk3, List.filter_app, (filter_sixes (byte a * 65536 + byte b * 256 + byte c)) by done.
    rewrite unb64_from_state, decode4 by apply byte_bound. unfold mbind, option_bind. rewrite IH by (cbn in Hl; lia). by rewrite <- app_assoc, !Hx.
Qed.
