(* ===== verification/Threads.v ===== *)
(** * Concurrent handlers

    A handler is a program of atomic actions [Prog]: it returns, fails, or does an action and goes on with its
    answer. [run] interleaves a pool of them, one action at a time, under any schedule; a handler may be
    dropped between two actions, as an async runtime drops a future whose client has gone. [safe] is a
    rely-guarantee judgement: [safe i p] keeps the invariant at every action of handler [i], whatever the
    others do in between, and [run_safe] puts the handlers together. *)

From stdpp Require Import options.
From S2P Require Import Prelude.

Section programs.
Context {Act : Type} (Ans : Act → Type).

Inductive Prog (E A : Type) : Type :=
  | Ret (a : A)
  | Throw (e : E)
  | Do (x : Act) (k : Ans x → Prog E A).
Arguments Ret {_ _} _.
Arguments Throw {_ _} _.
Arguments Do {_ _} _ _.

Fixpoint bind {E A B} (f : A → Prog E B) (p : Prog E A) : Prog E B :=
  match p with
  | Ret a => f a
  | Throw e => Throw e
  | Do x k => Do x (λ r, bind f (k r))
  end.
#[export] Instance Prog_ret E : MRet (Prog E) := λ A, Ret.
#[export] Instance Prog_bind E : MBind (Prog E) := λ A B, bind.
Definition act {E} (x : Act) : Prog E (Ans x) := Do x Ret.
(** The outcome of a program, without the [?]. *)
Fixpoint attempt {E F A} (p : Prog E A) : Prog F (Result A E) :=
  match p with
  | Ret a => Ret (Ok a)
  | Throw e => Ret (Err e)
  | Do x k => Do x (λ r, attempt (k r))
  end.
Definition of_result {E A} (r : Result A E) : Prog E A := match r with Ok a => Ret a | Err e => Throw e end.

(** ** Running a pool *)

Section machine.
Context {W : Type}.
(** None: the action has to wait (a mutex that is held). *)
Context (exec : nat → ∀ x : Act, W → option (W * Ans x)).
(** What dropping a handler does (its guards are dropped). *)
Context (abandon : nat → W → W).
Context {E A : Type}.

Inductive Choice : Type := Run (i : nat) | Drop (i : nat).
Definition advance (i : nat) (w : W) (p : Prog E A) : W * Prog E A :=
  match p with
  | Do x k => match exec i x w with Some (w', r) => (w', k r) | None => (w, p) end
  | p => (w, p)
  end.
Definition step (s : W * list (option (Prog E A))) (c : Choice) : W * list (option (Prog E A)) :=
  match c with
  | Run i =>
      match s.2 !! i with
      | Some (Some p) => let '(w', p') := advance i s.1 p in (w', <[i := Some p']> s.2)
      | _ => s
      end
  | Drop i =>
      match s.2 !! i with
      | Some (Some (Do _ _)) => (abandon i s.1, <[i := None]> s.2)
      | _ => s
      end
  end.
Definition run (cs : list Choice) (s : W * list (option (Prog E A))) : W * list (option (Prog E A)) := foldl step s cs.

(** ** Rely and guarantee *)

Context (inv : W → Prop) (G R : nat → W → W → Prop).
Class RelyGuarantee : Prop := {
  rely_refl i w : R i w w;
  rely_trans i w w' w'' : R i w w' → R i w' w'' → R i w w'';
  guarantee_rely i j w w' : i ≠ j → G i w w' → R j w w';
  abandon_inv i w : inv w → inv (abandon i w);
  abandon_guarantee i w : G i w (abandon i w);
}.
Context `{RelyGuarantee}.

Fixpoint safe {F B} (i : nat) (p : Prog F B) (X : F → W → Prop) (Q : B → W → Prop) (w : W) : Prop :=
  match p with
  | Ret a => Q a w
  | Throw e => X e w
  | Do x k => ∀ w' w'' r, R i w w' → inv w' → exec i x w' = Some (w'', r) → inv w'' ∧ G i w' w'' ∧ safe i (k r) X Q w''
  end.

Lemma safe_bind {F B C} i (p : Prog F B) (f : B → Prog F C) X Q w :
  safe i p X (λ a w, safe i (f a) X Q w) w → safe i (p ≫= f) X Q w.
Proof.
  revert w. induction p as [a|e|x k IH]; intros w; [done|done|]. cbn. intros Hs w' w'' r Hr Hi He.
  destruct (Hs w' w'' r Hr Hi He) as (? & ? & ?). split_and!; [done|done|by apply IH].
Qed.
Lemma safe_attempt {F F' B} i (p : Prog F B) (X : F' → W → Prop) Q w :
  safe i p (λ e, Q (Err e)) (λ a, Q (Ok a)) w → safe i (attempt p) X Q w.
Proof.
  revert w. induction p as [a|e|x k IH]; intros w; [done|done|]. cbn. intros Hs w' w'' r Hr Hi He.
  destruct (Hs w' w'' r Hr Hi He) as (? & ? & ?). split_and!; [done|done|by apply IH].
Qed.
Lemma safe_mono {F B} i (p : Prog F B) (X X' : F → W → Prop) (Q Q' : B → W → Prop) w :
  safe i p X Q w → (∀ e w, X e w → X' e w) → (∀ a w, Q a w → Q' a w) → safe i p X' Q' w.
Proof.
  intros Hs HX HQ. revert w Hs. induction p as [a|e|x k IH]; intros w; cbn; [by auto|by auto|]. intros Hs w' w'' r Hr Hi He.
  destruct (Hs w' w'' r Hr Hi He) as (? & ? & ?). split_and!; [done|done|by apply IH].
Qed.
Lemma safe_act {F} i (x : Act) (X : F → W → Prop) Q w :
  (∀ w' w'' r, R i w w' → inv w' → exec i x w' = Some (w'', r) → inv w'' ∧ G i w' w'' ∧ Q r w'') → safe i (act x) X Q w.
Proof. done. Qed.
(** A fact that the others keep may be carried along. *)
Lemma safe_do_stable {F B} i x (k : Ans x → Prog F B) X Q w w' :
  safe i (Do x k) X Q w → R i w w' → safe i (Do x k) X Q w'.
Proof using H. intros Hs Hr w1 w2 r H1. apply Hs. by eapply rely_trans. Qed.

Definition pool_safe (s : W * list (option (Prog E A))) : Prop :=
  inv s.1 ∧ ∀ i p, s.2 !! i = Some (Some p) → safe i p (λ _ _, True) (λ _ _, True) s.1.
Lemma safe_rely i (p : Prog E A) w w' : safe i p (λ _ _, True) (λ _ _, True) w → R i w w' → safe i p (λ _ _, True) (λ _ _, True) w'.
Proof using H. destruct p; [done|done|]. intros Hs Hr. by eapply safe_do_stable. Qed.
Lemma step_safe s c : pool_safe s → pool_safe (step s c).
Proof using H.
  intros [Hi Hs]. assert (∀ i p' (w' : W), G i s.1 w' → inv w' → (∀ q, p' = Some q → safe i q (λ _ _, True) (λ _ _, True) w') → pool_safe (w', <[i := p']> s.2)) as Hset.
  { intros i p' w' Hg Hw Hp. split; [done|]. intros j q Hq. cbn [snd] in Hq. apply list_lookup_insert_Some in Hq as [(-> & -> & _)|(Hne & Hq)]; [by apply Hp|].
    eapply safe_rely; [by apply Hs|]. by eapply guarantee_rely. }
  destruct c as [i|i]; cbn; destruct (s.2 !! i) as [[p|]|] eqn:Ep; try done; pose proof (Hs i p Ep) as Hp.
  - destruct p as [a|e|x k]; cbn [advance]; [split; [done|]; by rewrite list_insert_id|split; [done|]; by rewrite list_insert_id|].
    destruct (exec i x s.1) as [[w' r]|] eqn:Ex; [|split; [done|]; by rewrite list_insert_id].
    destruct (Hp s.1 w' r (rely_refl _ _) Hi Ex) as (Hw & Hg & Hk). apply Hset; [done|done|]. by intros q [= <-].
  - destruct p as [a|e|x k]; [done|done|]. apply Hset; [apply abandon_guarantee|by apply abandon_inv|done].
Qed.
(** A pool of safe handlers keeps the invariant under every schedule. *)
Theorem run_safe cs s : pool_safe s → inv (run cs s).1.
Proof using H. intros Hs. cut (pool_safe (run cs s)); [by intros []|]. revert s Hs. induction cs as [|c cs IH]; intros s Hs; [done|]. cbn. by apply IH, step_safe. Qed.
End machine.
End programs.
Arguments Ret {_ _ _ _} _.
Arguments Throw {_ _ _ _} _.
Arguments Do {_ _ _ _} _ _.
Arguments safe : simpl never.
