(* ===== verification/SeerrSso.v ===== *)
(** * Single sign-on in front of Seerr ([apps/seerr-sso/src/main.rs])

    The sidecar that turns the identity oauth2-proxy vouches for into the person's own Seerr session. Requests
    are handled concurrently ([Threads]): the two caches and the mutex around making a session are the shared
    state, every external call is sent and answered in two steps, and a request may be dropped in between.
    Seerr, oauth2-proxy, the clock and the settings file are the class [Outside], which may answer anything.
    The world keeps a log of what was sent and answered, in which the theorems are stated. *)

From Stdlib Require Import Ascii.
From stdpp Require Import options.
From S2P Require Import Prelude Text Json Codec Threads.

(** ** Configuration *)

Definition ADMIN : N := 2.
Definition FAMILY : N := N.lor (N.lor 32 16384) (N.lor 4194304 67108864).
Definition MAX_BODY : N := N.shiftl 64 20.
(** Times in nanoseconds. *)
Definition secs (n : N) : N := (n * 1000000000)%N.
Definition AUTH_CACHE : N := secs 15.

Section config.
Context (env : string → option string).
Definition var (name dflt : string) : string :=
  match env name with Some v => if bool_decide (v = "") then dflt else v | None => dflt end.
Definition list_of (text : string) : list string := List.filter (λ s, negb (bool_decide (s = ""))) (trim <$> split_char "," text).
Definition listed (name dflt : string) : list string := list_of (var name dflt).
End config.

Record Cfg : Type := mkCfg {
  upstream : string; auth_url : string; settings_file : string; key : string; admin_groups : list string;
  family_groups : list string; family_perms : N; ttl : N; link_jellyfin : bool
}.
Inductive CfgError : Type := KeyUnreadable | KeyShort | BadPermissions | BadTtl.
Definition from_env (env : string → option string) (read : string → option string) : Result Cfg CfgError :=
  match read (var env "SSO_KEY_FILE" "/secrets/key/password") with
  | None => Err KeyUnreadable
  | Some text =>
      let key := trim text in
      if (String.length key <? 16)%nat then Err KeyShort
      else
        match parse_u64 (var env "FAMILY_PERMISSIONS" (pretty FAMILY)), parse_u64 (var env "SESSION_TTL_SECS" "1800") with
        | None, _ => Err BadPermissions
        | _, None => Err BadTtl
        | Some perms, Some ttl =>
            Ok (mkCfg (trim_end_matches (λ c, bool_decide (c = "/"%char)) (var env "UPSTREAM" "http://127.0.0.1:5055"))
                  (var env "AUTH_URL" "http://oauth2-proxy.identity.svc.cluster.local:4180/oauth2/auth")
                  (var env "SETTINGS_FILE" "/app/config/settings.json") key (listed env "ADMIN_GROUPS" "admin")
                  (listed env "FAMILY_GROUPS" "family") perms (secs ttl) (bool_decide (var env "LINK_JELLYFIN" "true" = "true")))
        end
  end.

(** The Seerr permissions the groups give, None when none of them may use Seerr. *)
Definition permissions (cfg : Cfg) (groups : list string) : option N :=
  let has wanted := existsb (λ g, bool_decide (g ∈ wanted)) groups in
  if has (admin_groups cfg) then Some ADMIN else if has (family_groups cfg) then Some (family_perms cfg) else None.

Class Crypto : Type := { sha256 : string → string; hmac_sha256 : string → string → string }.
Definition password `{Crypto} (cfg : Cfg) (email : string) : string :=
  hex (hmac_sha256 (key cfg) ("seerr-sso:v1:" +:+ to_lowercase email)).

(** ** Headers and identities *)

(** Header names are in lower case, as hyper and reqwest give them. *)
Definition Headers : Type := list (string * string).
Definition visible (c : ascii) : bool := in_range 32 126 c || bool_decide (c = "009"%char).
Definition to_str (v : string) : option string := if forallb visible (chars v) then Some v else None.
Definition header (name : string) (h : Headers) : option string := assoc name h ≫= to_str.

Record Identity : Type := mkIdentity { email : string; username : string; groups : list string }.
#[export] Instance Identity_eq_dec : EqDecision Identity.
Proof. solve_decision. Defined.
Definition nonempty (s : string) : option string := if bool_decide (s = "") then None else Some s.
Definition identity_from (h : Headers) : option Identity :=
  let get n := trim <$> header n h ≫= nonempty in
  let user := get "x-auth-request-user" in
  mail ← match get "x-auth-request-email" with
         | Some e => Some e
         | None => u ← user; if contains_char "@" u then Some u else None
         end;
  let mail := to_lowercase mail in
  let name := default (default mail (fst <$> split_once "@" mail))
                (match get "x-auth-request-preferred-username" with Some n => Some n | None => user end) in
  Some (mkIdentity mail name (from_option list_of [] (get "x-auth-request-groups"))).

(** ** Calls *)

Record Failure : Type := mkFailure { f_status : N; f_msg : string }.
Record Session : Type := mkSession { sid : string; perms : N; at_ : N }.
Record Resp : Type := mkResp { rs_status : N; rs_headers : Headers; rs_body : option string }.
(** The head of a client's request, and its body, unless reading it fails. *)
Record Parts : Type := mkParts { p_method : string; p_path : string; p_target : option string; p_headers : Headers }.
Record Request : Type := mkRequest { rq_parts : Parts; rq_body : option string }.
Record Reply : Type := mkReply { re_status : N; re_headers : Headers; re_body : string }.

Inductive Call : Type :=
  | AuthCheck (cookie auth : string)
  | Api (method path : string) (body : option Value) (api_key : string)
  | Login (mail pass : string)
  | Me (sid : string)
  | Logout (sid : string)
  | Forward (parts : Parts) (body : string) (sid : string).

Definition drop_request_header (name : string) : bool :=
  bool_decide (name ∈ ["connection"; "keep-alive"; "proxy-authenticate"; "proxy-authorization"; "te"; "trailer"; "transfer-encoding"; "upgrade";
    "content-length"; "cookie"; "authorization"; "x-api-key"; "x-api-user"; "x-forwarded-proto"]).
Definition drop_response_header (name : string) : bool :=
  bool_decide (name ∈ ["connection"; "keep-alive"; "proxy-authenticate"; "te"; "trailer"; "transfer-encoding"; "upgrade"; "content-length"]).

(** The HTTP request of a call: method, URL, headers, body. *)
Record Http : Type := mkHttp { h_method : string; h_url : string; h_headers : Headers; h_body : option string }.
Definition sid_cookie (s : string) : string * string := ("cookie", "connect.sid=" +:+ s).
Definition https : string * string := ("x-forwarded-proto", "https").
Definition json_type : string * string := ("content-type", "application/json").
Definition render `{SerdeJson} (cfg : Cfg) (c : Call) : Http :=
  let api path := upstream cfg +:+ "/api/v1" +:+ path in
  match c with
  | AuthCheck cookie auth =>
      mkHttp "GET" (auth_url cfg)
        (match nonempty cookie with Some c => [("cookie", c)] | None => [] end ++ match nonempty auth with Some a => [("authorization", a)] | None => [] end) None
  | Api method path body k =>
      mkHttp method (api path) ([("x-api-key", k); https] ++ match body with Some _ => [json_type] | None => [] end) (to_string <$> body)
  | Login mail pass =>
      mkHttp "POST" (api "/auth/local") [json_type; https] (Some (to_string (Object [("email", Str mail); ("password", Str pass)])))
  | Me s => mkHttp "GET" (api "/auth/me") [sid_cookie s; https] None
  | Logout s => mkHttp "POST" (api "/auth/logout") [sid_cookie s; https] None
  | Forward p body s =>
      mkHttp (p_method p) (upstream cfg +:+ default "/" (p_target p))
        (List.filter (λ nv, negb (drop_request_header nv.1)) (p_headers p) ++ [sid_cookie s; https]) (Some body)
  end.

(** ** The shared state *)

Inductive Event : Type :=
  | Sent (i : nat) (c : Call)
  | Got (i : nat) (c : Call) (r : option Resp)
  (** an identity put in the cache, and taken from it, and when *)
  | Cached (i : nat) (k : string) (t : N) (id : Identity)
  | Recalled (i : nat) (k : string) (t : N).
Record World : Type := mkWorld {
  w_sessions : gmap string Session; w_identities : gmap string (N * Identity); w_lock : option nat; w_log : list Event; w_step : nat
}.
Class Outside : Type := {
  answer : nat → Call → option Resp;
  clock : nat → N;
  settings : nat → option string;
  json_of : string → option Value;
}.

(** The actions between two awaits, or under one of the std mutexes. [IdentityGet] gives an identity that is
    young enough. *)
Inductive Act : Type :=
  | Now
  | ReadSettings
  | SessionGet (e : string)
  | SessionRemove (e : string)
  | SessionInsert (e : string) (s : Session)
  | IdentityGet (k : string)
  | IdentityInsert (k : string) (id : Identity)
  | Lock
  | Unlock
  | Send (c : Call)
  | Recv (c : Call).
Definition Ans (x : Act) : Type :=
  match x with
  | Now => N
  | ReadSettings => option string
  | SessionGet _ | SessionRemove _ => option Session
  | IdentityGet _ => option Identity
  | Recv _ => option Resp
  | _ => ()
  end.
Definition tick (w : World) : World := mkWorld (w_sessions w) (w_identities w) (w_lock w) (w_log w) (S (w_step w)).
Definition log (e : Event) (w : World) : World := mkWorld (w_sessions w) (w_identities w) (w_lock w) (w_log w ++ [e]) (w_step w).
Definition set_sessions (s : gmap string Session) (w : World) : World := mkWorld s (w_identities w) (w_lock w) (w_log w) (w_step w).
Definition set_identities (m : gmap string (N * Identity)) (w : World) : World := mkWorld (w_sessions w) m (w_lock w) (w_log w) (w_step w).
Definition set_lock (l : option nat) (w : World) : World := mkWorld (w_sessions w) (w_identities w) l (w_log w) (w_step w).
Definition young (now : N) (ent : N * Identity) : bool := (saturating_sub now ent.1 <? AUTH_CACHE)%N.
(** A cache that has grown is cleared of what is too old. *)
Definition pruned (now : N) (m : gmap string (N * Identity)) : gmap string (N * Identity) :=
  if (1024 <? size m)%nat then filter (λ kv, young now kv.2 = true) m else m.
Definition exec `{Outside} (i : nat) (x : Act) (w : World) : option (World * Ans x) :=
  let now := clock (w_step w) in
  let w1 := tick w in
  match x return option (World * Ans x) with
  | Now => Some (w1, now)
  | ReadSettings => Some (w1, settings (w_step w))
  | SessionGet e => Some (w1, w_sessions w !! e)
  | SessionRemove e => Some (set_sessions (delete e (w_sessions w)) w1, w_sessions w !! e)
  | SessionInsert e s => Some (set_sessions (<[e := s]> (w_sessions w)) w1, ())
  | IdentityGet k =>
      match w_identities w !! k with
      | Some ent => if young now ent then Some (log (Recalled i k now) w1, Some ent.2) else Some (w1, None)
      | None => Some (w1, None)
      end
  | IdentityInsert k id => Some (log (Cached i k now id) (set_identities (<[k := (now, id)]> (pruned now (w_identities w))) w1), ())
  | Lock => match w_lock w with None => Some (set_lock (Some i) w1, ()) | Some _ => None end
  | Unlock => Some (if bool_decide (w_lock w = Some i) then set_lock None w1 else w1, ())
  | Send c => Some (log (Sent i c) w1, ())
  | Recv c => let r := answer (w_step w) c in Some (log (Got i c r) w1, r)
  end.
(** A handler that is dropped drops its guard. *)
Definition abandon (i : nat) (w : World) : World := if bool_decide (w_lock w = Some i) then set_lock None w else w.

(** ** The handler *)

Notation Task := (Prog Ans Failure).
Definition fail {A} (status : N) (msg : string) : Task A := Throw (mkFailure status msg).
Definition call (c : Call) : Task (option Resp) := _ ← act Ans (Send c); act Ans (Recv c).
Definition eq_ignore_ascii_case (a b : string) : bool := bool_decide (to_lowercase a = to_lowercase b).
(** The existing Seerr user an identity maps to: by email, else by Jellyfin username. Never user 1. *)
Definition find_user (users : list Value) (id : Identity) : option Value :=
  let eq v k want := match as_str (v.[k]) with Some s => eq_ignore_ascii_case s want | None => false end in
  let candidates := List.filter (λ u, negb (bool_decide (value_as_i64 (u.["id"]) = Some 1%Z))) users in
  match List.find (λ u, eq u "email" (email id)) candidates with
  | Some u => Some u
  | None => List.find (λ u, eq u "jellyfinUsername" (username id)) candidates
  end.
Definition session_cookie (cookies : list string) : option string :=
  head (omap (λ c, strip_prefix "connect.sid=" (default c (fst <$> split_once ";" c))) cookies).
Definition set_cookies (h : Headers) : list string := omap (λ nv, if bool_decide (nv.1 = "set-cookie") then to_str nv.2 else None) h.
Definition text_reply (status : N) (body : string) : Reply := mkReply status [("content-type", "text/plain; charset=utf-8")] body.
Definition users_path : string := "/user?take=1000&skip=0".
Definition user_path (uid : Z) (rest : string) : string := "/user/" +:+ pretty uid +:+ "/settings/" +:+ rest.
Definition id_of (u : Value) : Z := default 0%Z (value_as_i64 (u.["id"])).
Definition array_of (v : Value) : list Value := default [] (as_array v).

Section handler.
Context `{Crypto, Outside} (cfg : Cfg).

Definition api_key : Task string :=
  text ← act Ans ReadSettings;
  match text with
  | None => fail 503 (settings_file cfg)
  | Some text =>
      match json_of text with
      | None => fail 503 (settings_file cfg)
      | Some v =>
          match as_str (v.["main"].["apiKey"]) ≫= nonempty with
          | Some k => mret k
          | None => fail 503 "Seerr has no API key yet"
          end
      end
  end.
(** The status and the JSON body ([Null] when there is none). *)
Definition body_json (r : Resp) : Value := default Null (json_of (default "" (rs_body r))).
Definition api (method path : string) (body : option Value) : Task (N * Value) :=
  k ← api_key;
  r ← call (Api method path body k);
  match r with
  | None => fail 502 ("seerr " +:+ path)
  | Some r => mret (rs_status r, body_json r)
  end.
(** None when Seerr refuses the password. *)
Definition login (mail pass : string) : Task (option string) :=
  r ← call (Login mail pass);
  match r with
  | None => fail 502 "seerr login"
  | Some r =>
      if (rs_status r =? 200)%N then
        match session_cookie (set_cookies (rs_headers r)) with
        | Some s => mret (Some s)
        | None => fail 502 "seerr login set no session cookie"
        end
      else if (rs_status r =? 403)%N then mret None
      else fail 502 ("seerr login: HTTP " +:+ pretty (rs_status r))
  end.

(** The person's Seerr user and login email: found, imported from Jellyfin, or created. *)
Definition user_of (dflt : string) (u : Value) : Z * string := (id_of u, default dflt (as_str (u.["email"]))).
Definition import_user (id : Identity) (jid : string) : Task (Z * string) :=
  '(status, made) ← api "POST" "/user/import-from-jellyfin" (Some (Object [("jellyfinUserIds", Array [Str jid])]));
  match (if (status =? 201)%N then as_array made ≫= head else None) with
  | Some u => mret (user_of (username id) u)
  | None => fail 502 ("importing Jellyfin user " +:+ username id)
  end.
Definition create_user (id : Identity) (pass : string) : Task (Z * string) :=
  '(status, made) ← api "POST" "/user" (Some (Object [("email", Str (email id)); ("password", Str pass); ("username", Str (username id))]));
  if (status =? 201)%N then mret (id_of made, email id)
  else if (status =? 409)%N then fail 503 (email id +:+ " is the email of the break-glass Seerr user; the Seerr bootstrap has not moved it yet")
  else fail 502 ("creating Seerr user for " +:+ username id).
Definition jellyfin_id (id : Identity) (jf : Value) : option string :=
  List.find (λ j, match as_str (j.["username"]) with Some n => eq_ignore_ascii_case n (username id) | None => false end) (array_of jf)
  ≫= λ j, as_str (j.["id"]).
Definition ensure_user (id : Identity) (pass : string) : Task (Z * string) :=
  '(_, listing) ← api "GET" users_path None;
  match find_user (array_of (listing.["results"])) id with
  | Some u => mret (user_of (email id) u)
  | None =>
      jid ← (if link_jellyfin cfg then
               '(_, jf) ← api "GET" "/settings/jellyfin/users" None; mret (jellyfin_id id jf)
             else mret None);
      match jid with
      | Some jid => import_user id jid
      | None => create_user id pass
      end
  end.

Definition permissions_body (p : N) : Value := Object [("permissions", Number (PosInt p))].
Definition grant (uid : Z) (p : N) : Task () :=
  '(_, current) ← api "GET" (user_path uid "permissions") None;
  if bool_decide (value_as_u64 (current.["permissions"]) = Some p) then mret ()
  else
    '(status, _) ← api "POST" (user_path uid "permissions") (Some (permissions_body p));
    if (status =? 200)%N then mret () else fail 502 ("setting permissions of Seerr user " +:+ pretty uid).
Definition sign_in (uid : Z) (mail pass : string) : Task string :=
  s ← login mail pass;
  match s with
  | Some s => mret s
  | None =>
      '(status, _) ← api "POST" (user_path uid "password") (Some (Object [("newPassword", Str pass)]));
      if (status =? 204)%N then
        s ← login mail pass;
        match s with
        | Some s => mret s
        | None => fail 502 ("Seerr refuses the derived password of user " +:+ pretty uid)
        end
      else fail 502 ("setting the password of Seerr user " +:+ pretty uid)
  end.
(** The session is handed out only once it works. *)
Fixpoint probe (attempts : nat) (uid : Z) (s : string) (p : N) : Task Session :=
  match attempts with
  | O => fail 502 ("Seerr user " +:+ pretty uid +:+ "'s new session is not accepted")
  | S attempts =>
      r ← call (Me s);
      match r with
      | None => fail 502 "seerr auth/me"
      | Some r => if (rs_status r =? 200)%N then now ← act Ans Now; mret (mkSession s p now) else probe attempts uid s p
      end
  end.
Definition make_session (id : Identity) (p : N) : Task Session :=
  let pass := password cfg (email id) in
  '(uid, mail) ← ensure_user id pass;
  if bool_decide (uid = 1%Z) || bool_decide (uid = 0%Z) then fail 502 "refusing to sign anyone in as Seerr user 1"
  else
    _ ← grant uid p;
    s ← sign_in uid mail pass;
    probe 8 uid s p.

Definition drop_session (e : string) : Task () :=
  old ← act Ans (SessionRemove e);
  match old with
  | Some s => _ ← call (Logout (sid s)); mret ()
  | None => mret ()
  end.
(** The cached session while its permissions are current and it is young. *)
Definition cached_session (e : string) (p : N) (force : bool) : Task (option Session) :=
  cached ← act Ans (SessionGet e);
  match cached with
  | Some s =>
      if negb force && (perms s =? p)%N then
        now ← act Ans Now; mret (if (saturating_sub now (at_ s) <? ttl cfg)%N then Some s else None)
      else mret None
  | None => mret None
  end.
Definition with_lock {A} (p : Task A) : Task A :=
  _ ← act Ans Lock; r ← attempt Ans p; _ ← act Ans Unlock; of_result Ans r.
Definition renew (id : Identity) (p : N) (force : bool) : Task Session :=
  cached ← cached_session (email id) p force;
  match cached with
  | Some s => mret s
  | None =>
      made ← make_session id p;
      _ ← drop_session (email id);
      _ ← act Ans (SessionInsert (email id) made);
      mret made
  end.
Definition session_for (id : Identity) (p : N) (force : bool) : Task Session :=
  cached ← cached_session (email id) p force;
  match cached with
  | Some s => mret s
  | None => with_lock (renew id p force)
  end.

Definition cookie_of (h : Headers) : string := default "" (header "cookie" h).
Definition auth_of (h : Headers) : string := default "" (header "authorization" h).
Definition credential_key (cookie auth : string) : string := hex (sha256 (cookie +:+ String "000" auth)).
Definition identity (h : Headers) : Task Identity :=
  let cookie := cookie_of h in
  let auth := auth_of h in
  if bool_decide (cookie = "") && bool_decide (auth = "") then fail 401 "no oauth2-proxy session"
  else
    let k := credential_key cookie auth in
    known ← act Ans (IdentityGet k);
    match known with
    | Some id => mret id
    | None =>
        r ← call (AuthCheck cookie auth);
        match r with
        | None => fail 502 "oauth2-proxy"
        | Some r =>
            if bool_decide (rs_status r ∈ [200; 202]%N) then
              match identity_from (rs_headers r) with
              | Some id => _ ← act Ans (IdentityInsert k id); mret id
              | None => fail 403 "oauth2-proxy gave no email"
              end
            else if bool_decide (rs_status r ∈ [401; 403]%N) then fail 401 "no valid oauth2-proxy session"
            else fail 502 ("oauth2-proxy: HTTP " +:+ pretty (rs_status r))
        end
    end.
Definition seerr_cookie (nv : string * string) : bool :=
  bool_decide (nv.1 = "set-cookie") && match to_str nv.2 with Some v => starts_with "connect.sid=" v | None => false end.
Definition forward (p : Parts) (body : string) (s : string) : Task Reply :=
  r ← call (Forward p body s);
  match r with
  | None => fail 502 "seerr"
  | Some r =>
      match rs_body r with
      | Some bytes => mret (mkReply (rs_status r) (List.filter (λ nv, negb (drop_response_header nv.1) && negb (seerr_cookie nv)) (rs_headers r)) bytes)
      | None => fail 502 "seerr body"
      end
  end.
Definition read_body (rq : Request) : Task string :=
  match rq_body rq with
  | Some b => if (N.of_nat (String.length b) <=? MAX_BODY)%N then mret b else fail 413 "request body"
  | None => fail 413 "request body"
  end.
Definition serve (rq : Request) : Task Reply :=
  let parts := rq_parts rq in
  id ← identity (p_headers parts);
  match permissions cfg (groups id) with
  | None => fail 403 "your groups do not give access to Seerr"
  | Some p =>
      if bool_decide (is_Some (assoc "upgrade" (p_headers parts))) then fail 501 "upgrades are not proxied"
      else if bool_decide (p_method parts = "POST") && bool_decide (p_path parts = "/api/v1/auth/logout") then
        mret (text_reply 200 ("{" +:+ quote +:+ "status" +:+ quote +:+ ":" +:+ quote +:+ "ok" +:+ quote +:+ "}"))
      else
        body ← read_body rq;
        session ← session_for id p false;
        resp ← forward parts body (sid session);
        if (re_status resp =? 403)%N && bool_decide (p_path parts = "/api/v1/auth/me") then
          now ← act Ans Now;
          if (secs 5 <? saturating_sub now (at_ session))%N then
            session ← session_for id p true;
            forward parts body (sid session)
          else mret resp
        else mret resp
  end.
Definition handle (rq : Request) : Prog Ans Empty_set Reply :=
  r ← attempt Ans (serve rq);
  mret match r with
       | Ok reply => reply
       | Err f => text_reply (f_status f) (if (500 <=? f_status f)%N then "seerr-sso: Seerr is not available" else f_msg f)
       end.
End handler.

(** ** What the log shows *)

Section spec.
Context `{Crypto, Outside} (cfg : Cfg).

(** oauth2-proxy's answer to a pair of credentials, for an identity. *)
Definition accepted (r : Resp) (id : Identity) : Prop := rs_status r ∈ [200; 202]%N ∧ identity_from (rs_headers r) = Some id.
(** An identity in the cache since [t], for the credentials with the digest [k]. *)
Definition vouched (l : list Event) (k : string) (t : N) (id : Identity) : Prop :=
  ∃ j h r l1 l2 l3, l = l1 ++ Got j (AuthCheck (cookie_of h) (auth_of h)) (Some r) :: l2 ++ Cached j k t id :: l3 ∧
    credential_key (cookie_of h) (auth_of h) = k ∧ accepted r id.
(** Request [i]'s credentials are an identity's: oauth2-proxy said so to itself, or less than [AUTH_CACHE] ago. *)
Definition identified (l : list Event) (i : nat) (h : Headers) (id : Identity) : Prop :=
  (∃ r, Got i (AuthCheck (cookie_of h) (auth_of h)) (Some r) ∈ l ∧ accepted r id) ∨
  (∃ t now, vouched l (credential_key (cookie_of h) (auth_of h)) t id ∧ Recalled i (credential_key (cookie_of h) (auth_of h)) now ∈ l ∧
     (saturating_sub now t < AUTH_CACHE)%N).

(** A Seerr user is the identity's: an answer of Seerr says so. *)
Definition mapped (l : list Event) (id : Identity) (uid : Z) (mail : string) : Prop :=
  ∃ j m path body k r, Got j (Api m path body k) (Some r) ∈ l ∧
    ((m = "GET" ∧ path = users_path ∧ body = None ∧ ∃ u, find_user (array_of ((body_json r).["results"])) id = Some u ∧ (uid, mail) = user_of (email id) u) ∨
     (m = "POST" ∧ path = "/user/import-from-jellyfin" ∧ rs_status r = 201%N ∧ ∃ jid u, body = Some (Object [("jellyfinUserIds", Array [Str jid])]) ∧
        as_array (body_json r) ≫= head = Some u ∧ (uid, mail) = user_of (username id) u) ∨
     (m = "POST" ∧ path = "/user" ∧ rs_status r = 201%N ∧ uid = id_of (body_json r) ∧ mail = email id ∧
        body = Some (Object [("email", Str (email id)); ("password", Str (password cfg (email id))); ("username", Str (username id))]))).
(** Seerr has said that a user has the permissions, or has taken them. *)
Definition granted (l : list Event) (uid : Z) (p : N) : Prop :=
  ∃ j k r, (Got j (Api "GET" (user_path uid "permissions") None k) (Some r) ∈ l ∧ value_as_u64 ((body_json r).["permissions"]) = Some p) ∨
           (Got j (Api "POST" (user_path uid "permissions") (Some (permissions_body p)) k) (Some r) ∈ l ∧ rs_status r = 200%N).
(** A session of an email's: Seerr gave it for that person's derived password, after the permissions were settled, to a
    user that is not user 1, and has answered to it since. *)
Definition earned (l : list Event) (e : string) (p : N) (s : string) : Prop :=
  ∃ id uid mail j r r' l1 l2, email id = e ∧ uid ≠ 1%Z ∧ uid ≠ 0%Z ∧ l = l1 ++ Got j (Login mail (password cfg e)) (Some r) :: l2 ∧
    mapped l1 id uid mail ∧ granted l1 uid p ∧ rs_status r = 200%N ∧ session_cookie (set_cookies (rs_headers r)) = Some s ∧
    Got j (Me s) (Some r') ∈ l2 ∧ rs_status r' = 200%N.
(** A request goes to Seerr only as the person its credentials belong to. *)
Definition authorised (l : list Event) (i : nat) (parts : Parts) (s : string) : Prop :=
  ∃ id p, identified l i (p_headers parts) id ∧ permissions cfg (groups id) = Some p ∧ earned l (email id) p s.

(** Calls that make a Seerr user. *)
Definition makes_user (c : Call) : Prop :=
  match c with Api "POST" path _ _ => path = "/user" ∨ path = "/user/import-from-jellyfin" | _ => False end.
Definition quiet (e : Event) : Prop := match e with Sent _ c => ¬ makes_user c | _ => True end.
(** A handler makes a user only after it has asked for the users, and nobody has made one in between. *)
Definition after_listing (i : nat) (l : list Event) : Prop :=
  ∃ la lb k, l = la ++ Sent i (Api "GET" users_path None k) :: lb ∧ Forall quiet lb.

Context (reqs : list Request).
Definition inv (w : World) : Prop :=
  (∀ e s, w_sessions w !! e = Some s → earned (w_log w) e (perms s) (sid s)) ∧
  (∀ k t id, w_identities w !! k = Some (t, id) → vouched (w_log w) k t id) ∧
  (∀ i parts body s l1 l2, w_log w = l1 ++ Sent i (Forward parts body s) :: l2 →
     (∃ rq, reqs !! i = Some rq ∧ parts = rq_parts rq ∧ rq_body rq = Some body) ∧ authorised l1 i parts s) ∧
  (∀ i c l1 l2, w_log w = l1 ++ Sent i c :: l2 → makes_user c → after_listing i l1).

(** What handler [i] may rely on, and what it guarantees. *)
Definition rely (i : nat) (w w' : World) : Prop :=
  ∃ l, w_log w' = w_log w ++ l ∧ (w_lock w = Some i → w_lock w' = Some i ∧ Forall quiet l).
Definition guarantee (i : nat) (w w' : World) : Prop :=
  ∃ l, w_log w' = w_log w ++ l ∧ ∀ j, j ≠ i → w_lock w = Some j → w_lock w' = Some j ∧ Forall quiet l.

Lemma rely_step i w w' w'' : rely i w w' → rely i w' w'' → rely i w w''.
Proof.
  intros (l & E & Hl) (l' & E' & Hl'). exists (l ++ l'). split; [by rewrite E', E, app_assoc|].
  intros Hi. destruct (Hl Hi) as [Hi' Hq]. destruct (Hl' Hi') as [Hi'' Hq']. split; [done|]. by apply Forall_app.
Qed.
#[export] Instance rely_guarantee : RelyGuarantee abandon inv guarantee rely.
Proof.
  split.
  - intros i w. exists []. by rewrite app_nil_r.
  - apply rely_step.
  - intros i j w w' Hij (l & E & Hl). exists l. split; [done|]. intros Hj. apply Hl; [by intros ->|done].
  - intros i w Hw. unfold abandon. by case_bool_decide.
  - intros i w. unfold abandon. exists []. rewrite app_nil_r. case_bool_decide as Hi; split; try done.
    intros j Hj Hl. rewrite Hi in Hl. by injection Hl as ->.
Qed.

(** The facts of the log stay. *)
Lemma identified_app l k i h id : identified l i h id → identified (l ++ k) i h id.
Proof.
  intros [(r & Hr & Ha)|(t & now & (j & h' & r & l1 & l2 & l3 & -> & Hk & Ha) & Hr & Ht)].
  - left. exists r. split; [by apply elem_of_app; left|done].
  - right. exists t, now. split_and!; [|by apply elem_of_app; left|done]. exists j, h', r, l1, l2, (l3 ++ k). split_and!; [|done|done].
    by rewrite <- app_assoc, <- app_comm_cons, <- app_assoc.
Qed.
Lemma vouched_app l k c t id : vouched l c t id → vouched (l ++ k) c t id.
Proof.
  intros (j & h' & r & l1 & l2 & l3 & -> & Hk & Ha). exists j, h', r, l1, l2, (l3 ++ k). split_and!; [|done|done].
  by rewrite <- app_assoc, <- app_comm_cons, <- app_assoc.
Qed.
Lemma mapped_app l k id uid mail : mapped l id uid mail → mapped (l ++ k) id uid mail.
Proof. intros (j & m & path & body & a & r & Hr & Ho). exists j, m, path, body, a, r. split; [by apply elem_of_app; left|done]. Qed.
Lemma granted_app l k uid p : granted l uid p → granted (l ++ k) uid p.
Proof. intros (j & a & r & [[Hr Hp]|[Hr Hp]]); exists j, a, r; [left|right]; (split; [by apply elem_of_app; left|done]). Qed.
Lemma earned_app l k e p s : earned l e p s → earned (l ++ k) e p s.
Proof.
  intros (id & uid & mail & j & r & r' & l1 & l2 & He & H1' & H0' & -> & Hm & Hg & Hs & Hc & Hme & Hr').
  exists id, uid, mail, j, r, r', l1, (l2 ++ k). split_and!; try done; [by rewrite <- app_assoc|by apply elem_of_app; left].
Qed.

(** *** Actions *)

Lemma snoc_split {A} (l l1 l2 : list A) (e x : A) : l ++ [e] = l1 ++ x :: l2 → (l1 = l ∧ x = e ∧ l2 = []) ∨ ∃ l2', l2 = l2' ++ [e] ∧ l = l1 ++ x :: l2'.
Proof.
  destruct l2 as [|y l2 _] using rev_ind; intros E.
  - apply app_inj_tail in E as [-> ->]. by left.
  - right. exists l2. rewrite app_comm_cons, app_assoc in E. by apply app_inj_tail in E as [-> ->].
Qed.
Lemma inv_event w w' e : w_sessions w' = w_sessions w → w_identities w' = w_identities w → w_log w' = w_log w ++ [e] →
  (∀ i parts body s, e = Sent i (Forward parts body s) →
     (∃ rq, reqs !! i = Some rq ∧ parts = rq_parts rq ∧ rq_body rq = Some body) ∧ authorised (w_log w) i parts s) →
  (∀ i c, e = Sent i c → makes_user c → after_listing i (w_log w)) → inv w → inv w'.
Proof.
  intros Es Ei El Hf Hm (H1' & H2' & H3' & H4'). unfold inv. rewrite Es, Ei, El. split_and!.
  - intros e' s Hs. by apply earned_app, H1'.
  - intros k t id Hk. by apply vouched_app, H2'.
  - intros i parts body s l1 l2 [(-> & He & _)|(l2' & -> & E)]%snoc_split; [by apply Hf|by eapply H3'].
  - intros i c l1 l2 [(-> & He & _)|(l2' & -> & E)]%snoc_split Hc; [by eapply Hm|by eapply H4'].
Qed.
Lemma rely_same i w w1 w2 : rely i w w1 → w_log w2 = w_log w1 → w_lock w2 = w_lock w1 → rely i w w2.
Proof. intros (l & E & Hl) E1 E2. exists l. by rewrite E1, E2. Qed.
Lemma guarantee_log i w w' es : w_log w' = w_log w ++ es → w_lock w' = w_lock w → (∀ j, j ≠ i → w_lock w = Some j → Forall quiet es) → guarantee i w w'.
Proof. intros E El Hq. exists es. split; [done|]. intros j Hj Hl. split; [by rewrite El|by eapply Hq]. Qed.

Notation safe := (safe Ans exec inv guarantee rely).
(** An action that logs nothing. *)
Lemma silent_safe {F} i x w (X : F → World → Prop) Q :
  (∀ w1 w2 r, inv w1 → exec i x w1 = Some (w2, r) → w_log w2 = w_log w1 ∧ w_lock w2 = w_lock w1 ∧ inv w2) →
  (∀ w1 w2 r, exec i x w1 = Some (w2, r) → inv w1 → inv w2 → rely i w w1 → rely i w w2 → Q r w2) → safe i (act Ans x) X Q w.
Proof.
  intros Hx HQ. apply safe_act. intros w1 w2 r Hr Hi He. destruct (Hx w1 w2 r Hi He) as (El & Ek & Hi2). split_and!; [done| |].
  - apply (guarantee_log _ _ _ []); [by rewrite app_nil_r|done|done].
  - eapply HQ; try done. by eapply rely_same.
Qed.
Lemma now_safe {F} i w (X : F → World → Prop) (Q : N → World → Prop) : (∀ t w', rely i w w' → Q t w') → safe i (act Ans Now) X Q w.
Proof. intros HQ. apply silent_safe; [by intros w1 w2 r Hi [= <- <-]|]. intros w1 w2 r _ _ _ _ Hr. by apply HQ. Qed.

Definition cleared (i : nat) (c : Call) (w : World) : Prop :=
  (∀ parts body s, c = Forward parts body s →
     (∃ rq, reqs !! i = Some rq ∧ parts = rq_parts rq ∧ rq_body rq = Some body) ∧ authorised (w_log w) i parts s) ∧
  (makes_user c → w_lock w = Some i ∧ after_listing i (w_log w)).
Lemma after_listing_rely i w w' : rely i w w' → w_lock w = Some i → after_listing i (w_log w) → after_listing i (w_log w').
Proof.
  intros (l & -> & Hl) Hi (la & lb & k & E & Hq). destruct (Hl Hi) as [_ Hql]. exists la, (lb ++ l), k. split; [by rewrite E, <- app_assoc|]. by apply Forall_app.
Qed.
Lemma authorised_app l k i parts s : authorised l i parts s → authorised (l ++ k) i parts s.
Proof. intros (id & p & Hi & Hp & He). exists id, p. split_and!; [by apply identified_app|done|by apply earned_app]. Qed.
Lemma cleared_rely i c w w' : rely i w w' → cleared i c w → cleared i c w'.
Proof.
  intros Hr [Hf Hm]. split.
  - intros parts body s E. destruct (Hf parts body s E) as [? Ha]. split; [done|]. destruct Hr as (l & -> & _). by apply authorised_app.
  - intros Hc. destruct (Hm Hc) as [Hl Ha]. split; [|by eapply after_listing_rely]. destruct Hr as (l & _ & Hk). by destruct (Hk Hl).
Qed.
Lemma call_safe i c w X Q : cleared i c w →
  (∀ w' l r, w_log w' = w_log w ++ l ++ [Got i c r] → Sent i c ∈ l → (¬ makes_user c → rely i w w') → Q r w') → safe i (call c) X Q w.
Proof.
  intros Hc HQ. unfold call. apply safe_bind, safe_act. intros w1 w2 u Hr1 Hi1 [= <- <-]. pose proof (cleared_rely _ _ _ _ Hr1 Hc) as [Hf Hm].
  assert (inv (log (Sent i c) (tick w1))) as Hi2.
  { apply (inv_event w1 _ (Sent i c)); [done|done|done| | |exact Hi1].
    - intros j parts body s [= <- Es]. by apply Hf.
    - intros j c' [= <- <-] Hc'. by apply Hm. }
  split_and!; [done| |].
  - apply (guarantee_log _ _ _ [Sent i c]); [done|done|]. intros j Hj Hl. constructor; [|done]. cbn. intros Hmk. destruct (Hm Hmk) as [Hl' _].
    cbn in Hl. rewrite Hl in Hl'. by injection Hl' as ->.
  - apply safe_act. intros w3 w4 r Hr3 Hi3 [= <- <-]. split_and!.
    + by apply (inv_event w3 _ (Got i c (answer (w_step w3) c))).
    + apply (guarantee_log _ _ _ [Got i c (answer (w_step w3) c)]); [done|done|]. by constructor.
    + destruct Hr1 as (la & Ea & Hla), Hr3 as (lb & Eb & Hlb). cbn in Eb, Hlb. apply (HQ _ (la ++ [Sent i c] ++ lb)).
      * cbn. by rewrite Eb, Ea, <- !app_assoc.
      * set_solver.
      * intros Hn. exists (la ++ [Sent i c] ++ lb ++ [Got i c (answer (w_step w3) c)]). split; [cbn; by rewrite Eb, Ea, <- !app_assoc|].
        intros Hl. destruct (Hla Hl) as [Hl1 Hqa]. destruct (Hlb Hl1) as [Hl3 Hqb]. split; [done|]. rewrite !Forall_app. by split_and!; try done; constructor.
Qed.

(** *** Programs *)

Notation ok i p Q w := (safe i p (λ _ _, True) Q w).
Definition grown (w w' : World) : Prop := ∃ l, w_log w' = w_log w ++ l.
Lemma grown_refl w : grown w w.
Proof. exists []. by rewrite app_nil_r. Qed.
Lemma grown_trans w w' w'' : grown w w' → grown w' w'' → grown w w''.
Proof. intros [l E] [l' E']. exists (l ++ l'). by rewrite E', E, app_assoc. Qed.
Lemma rely_grown i w w' : rely i w w' → grown w w'.
Proof. intros (l & E & _). by exists l. Qed.
Lemma ret_ok {A} i (a : A) (Q : A → World → Prop) w : Q a w → ok i (mret a : Prog Ans Failure A) Q w.
Proof. done. Qed.
Lemma fail_ok {A} i st msg (Q : A → World → Prop) w : ok i (fail st msg) Q w.
Proof. done. Qed.
Lemma plain_cleared i c w : (∀ parts body s, c ≠ Forward parts body s) → ¬ makes_user c → cleared i c w.
Proof. intros Hf Hm. split; [intros p b s E; by destruct (Hf p b s)|done]. Qed.

Lemma api_key_ok i w (Q : string → World → Prop) : (∀ k w', rely i w w' → Q k w') → ok i (api_key cfg) Q w.
Proof.
  intros HQ. unfold api_key. apply safe_bind, silent_safe; [by intros w1 w2 r Hi [= <- <-]|]. intros w1 w2 text _ _ _ _ Hr.
  destruct text as [text|]; [|done]. destruct (json_of text) as [v|]; [|done]. destruct (as_str _ ≫= nonempty) as [k|]; [|done]. by apply HQ.
Qed.
(** The answer of an admin call. *)
Definition told (i : nat) (w w' : World) (m path : string) (body : option Value) (res : N * Value) : Prop :=
  ∃ k r l, w_log w' = w_log w ++ l ++ [Got i (Api m path body k) (Some r)] ∧ Sent i (Api m path body k) ∈ l ∧ res = (rs_status r, body_json r).
Lemma api_ok i m path body w (Q : N * Value → World → Prop) : (∀ k, makes_user (Api m path body k) → w_lock w = Some i ∧ after_listing i (w_log w)) →
  (∀ res w', told i w w' m path body res → ((∀ k, ¬ makes_user (Api m path body k)) → rely i w w') → Q res w') → ok i (api cfg m path body) Q w.
Proof.
  intros Hc HQ. unfold api. apply safe_bind, api_key_ok. intros k w1 Hr1. apply safe_bind, call_safe.
  { apply (cleared_rely i _ w); [done|]. split; [done|apply Hc]. }
  intros w2 l r E Hs Hq. destruct r as [r|]; [|done]. destruct Hr1 as (l1 & E1 & Hl1). apply HQ.
  - exists k, r, (l1 ++ l). split_and!; [by rewrite E, E1, <- !app_assoc|by apply elem_of_app; right|done].
  - intros Hn. specialize (Hq (Hn k)). eapply rely_step; [by exists l1|done].
Qed.
Lemma told_grown i w w' m path body res : told i w w' m path body res → grown w w'.
Proof. intros (k & r & l & E & _). by eexists. Qed.
Lemma get_not_making path body k : ¬ makes_user (Api "GET" path body k).
Proof. intros Hm. exact Hm. Qed.
Lemma settings_not_making m uid rest body k : ¬ makes_user (Api m (user_path uid rest) body k).
Proof.
  assert (∀ s, user_path uid rest = s → contains "/settings/" s = true) as Hs.
  { intros s <-. unfold contains. rewrite bool_decide_eq_true. destruct (find_list _ _) eqn:E; [by eexists|]. rewrite find_list_None in E.
    destruct (E (chars ("/user/" +:+ pretty uid)) (chars rest)). unfold user_path. by rewrite !chars_app, <- !app_assoc. }
  intros Hm. assert (user_path uid rest = "/user" ∨ user_path uid rest = "/user/import-from-jellyfin") as [E|E].
  { unfold makes_user in Hm. repeat (case_match; try done). }
  - apply Hs in E. by vm_compute in E.
  - apply Hs in E. by vm_compute in E.
Qed.

Lemma listing_done i w w1 res : told i w w1 "GET" users_path None res → rely i w w1 → w_lock w = Some i →
  w_lock w1 = Some i ∧ after_listing i (w_log w1).
Proof.
  intros (k & r & l & E & Hs & _) (l' & E' & Hl') Hi. destruct (Hl' Hi) as [Hi1 Hq]. split; [done|].
  rewrite E' in E. apply app_inv_head in E. subst l'. apply Forall_app in Hq as [Hq _].
  apply list_elem_of_split in Hs as (la & lb & ->). apply Forall_app in Hq as [_ Hq]. apply Forall_cons in Hq as [_ Hq].
  eexists (w_log w ++ la), (lb ++ _), k. split; [rewrite E', <- !app_assoc; done|]. apply Forall_app. split; [done|]. by constructor.
Qed.
Lemma told_in i w w' m path body res : told i w w' m path body res → ∃ k r, Got i (Api m path body k) (Some r) ∈ w_log w' ∧ res = (rs_status r, body_json r).
Proof. intros (k & r & l & -> & _ & ->). exists k, r. split; [set_solver|done]. Qed.

Lemma import_ok i id jid w w0 : grown w0 w → w_lock w = Some i → after_listing i (w_log w) →
  ok i (import_user cfg id jid) (λ um w', grown w0 w' ∧ mapped (w_log w') id um.1 um.2) w.
Proof.
  intros Hg Hl Ha. unfold import_user. apply safe_bind, api_ok; [done|]. intros [status made] w1 Ht _.
  destruct (told_in _ _ _ _ _ _ _ Ht) as (k & r & Hr & [= Es Em]). destruct (N.eqb_spec status 201); [|done]. destruct (as_array made ≫= head) as [u|] eqn:Eu; [|done].
  split; [eapply grown_trans; [done|]; by eapply told_grown|]. exists i, "POST", "/user/import-from-jellyfin", (Some (Object [("jellyfinUserIds", Array [Str jid])])), k, r. split; [done|].
  right. left. subst. split_and!; [done|done|done|]. exists jid, u. by split_and!.
Qed.
Lemma create_ok i id w w0 : grown w0 w → w_lock w = Some i → after_listing i (w_log w) →
  ok i (create_user cfg id (password cfg (email id))) (λ um w', grown w0 w' ∧ mapped (w_log w') id um.1 um.2) w.
Proof.
  intros Hg Hl Ha. unfold create_user. apply safe_bind, api_ok; [done|]. intros [status made] w1 Ht _.
  destruct (told_in _ _ _ _ _ _ _ Ht) as (k & r & Hr & [= Es Em]). destruct (N.eqb_spec status 201); [|by destruct (_ =? _)%N].
  split; [eapply grown_trans; [done|]; by eapply told_grown|]. eexists i, "POST", "/user", _, k, r. split; [exact Hr|].
  right. right. subst. by split_and!.
Qed.
Lemma ensure_ok i id w : w_lock w = Some i →
  ok i (ensure_user cfg id (password cfg (email id))) (λ um w', grown w w' ∧ mapped (w_log w') id um.1 um.2) w.
Proof.
  intros Hl. unfold ensure_user. apply safe_bind, api_ok; [by intros k Hk%get_not_making|]. intros [status listing] w1 Ht Hr. specialize (Hr (get_not_making _ _)).
  destruct (listing_done _ _ _ _ Ht Hr Hl) as [Hl1 Ha1]. pose proof (rely_grown _ _ _ Hr) as Hg1.
  destruct (find_user _ id) as [u|] eqn:Eu.
  { split; [done|]. destruct (told_in _ _ _ _ _ _ _ Ht) as (k & r & Hk & [= -> ->]). exists i, "GET", users_path, None, k, r. split; [done|]. left. split_and!; [done|done|done|]. by exists u. }
  apply safe_bind. apply safe_mono with (X := λ _ _, True) (Q := λ _ w', grown w w' ∧ w_lock w' = Some i ∧ after_listing i (w_log w')); [|done|].
  - destruct (link_jellyfin cfg); [|done]. apply safe_bind, api_ok; [by intros k Hk%get_not_making|]. intros [st jf] w2 _ Hr2. specialize (Hr2 (get_not_making _ _)).
    split_and!; [by eapply grown_trans, rely_grown|by destruct Hr2 as (l & _ & Hk); destruct (Hk Hl1)|by eapply after_listing_rely].
  - intros jid w2 (Hg2 & Hl2 & Ha2). destruct jid as [jid|]; [by apply import_ok|by apply create_ok].
Qed.

Lemma grant_ok i uid p w : ok i (grant cfg uid p) (λ _ w', grown w w' ∧ granted (w_log w') uid p) w.
Proof.
  unfold grant. apply safe_bind, api_ok; [by intros k Hk%settings_not_making|]. intros [st current] w1 Ht _. pose proof (told_grown _ _ _ _ _ _ _ Ht) as Hg.
  destruct (told_in _ _ _ _ _ _ _ Ht) as (k & r & Hk & [= -> ->]). case_bool_decide as Ep.
  { split; [done|]. exists i, k, r. by left. }
  apply safe_bind, api_ok; [by intros k' Hk'%settings_not_making|]. intros [st2 v2] w2 Ht2 _. destruct (told_in _ _ _ _ _ _ _ Ht2) as (k2 & r2 & Hk2 & [= -> ->]).
  destruct (N.eqb_spec (rs_status r2) 200); [|done]. split; [eapply grown_trans; [exact Hg|by eapply told_grown]|]. exists i, k2, r2. by right.
Qed.
(** A login that Seerr has taken, after everything that was known before. *)
Definition logged_in (i : nat) (w w' : World) (mail pass s : string) : Prop :=
  ∃ l r l2, w_log w' = (w_log w ++ l) ++ Got i (Login mail pass) (Some r) :: l2 ∧ rs_status r = 200%N ∧ session_cookie (set_cookies (rs_headers r)) = Some s.
Lemma login_ok i mail pass w : ok i (login mail pass) (λ s w', grown w w' ∧ ∀ x, s = Some x → logged_in i w w' mail pass x) w.
Proof.
  unfold login. apply safe_bind, call_safe; [apply plain_cleared; [done|by intros []]|]. intros w1 l r E _ _. destruct r as [r|]; [|done].
  assert (grown w w1) by by eexists. destruct (N.eqb_spec (rs_status r) 200); [|destruct (_ =? _)%N; [by split|done]].
  destruct (session_cookie _) as [s|] eqn:Ec; [|done]. split; [done|]. intros x [= <-]. exists l, r, []. split_and!; [by rewrite E, <- app_assoc|done|done].
Qed.
Lemma logged_in_grown i w0 w w' mail pass s : grown w0 w → logged_in i w w' mail pass s → logged_in i w0 w' mail pass s.
Proof. intros [l0 E0] (l & r & l2 & E & H'). exists (l0 ++ l), r, l2. split; [|done]. by rewrite E, E0, <- !app_assoc. Qed.
Lemma sign_in_ok i uid mail pass w : ok i (sign_in cfg uid mail pass) (λ s w', logged_in i w w' mail pass s) w.
Proof.
  unfold sign_in. apply safe_bind. eapply safe_mono; [apply login_ok|done|]. intros s w1 [Hg Hs]. destruct s as [s|]; [by apply Hs|].
  apply safe_bind, api_ok; [by intros k' Hk'%settings_not_making|]. intros [st v] w2 Ht _. destruct (st =? 204)%N; [|done].
  apply safe_bind. eapply safe_mono; [apply login_ok|done|]. intros s w3 [Hg3 Hs3]. destruct s as [s|]; [|done].
  eapply logged_in_grown; [|by apply Hs3]. eapply grown_trans; [exact Hg|by eapply told_grown].
Qed.
Lemma probe_ok i n uid s p w : ok i (probe n uid s p) (λ x w', perms x = p ∧ sid x = s ∧ ∃ l r, w_log w' = w_log w ++ l ∧ Got i (Me s) (Some r) ∈ l ∧ rs_status r = 200%N) w.
Proof.
  revert w. induction n as [|n IH]; intros w; [done|]. cbn [probe]. apply safe_bind, call_safe; [apply plain_cleared; [done|by intros []]|]. intros w1 l r E _ _.
  destruct r as [r|]; [|done]. destruct (N.eqb_spec (rs_status r) 200).
  - apply safe_bind, now_safe. intros t w2 (l2 & E2 & _). split_and!; [done|done|]. exists (l ++ [Got i (Me s) (Some r)] ++ l2), r. split_and!; [by rewrite E2, E, <- !app_assoc|set_solver|done].
  - eapply safe_mono; [apply IH|done|]. intros x w2 (Hp & Hs & l2 & r2 & E2 & Hin & Hr2). split_and!; [done|done|].
    exists (l ++ [Got i (Me s) (Some r)] ++ l2), r2. split_and!; [by rewrite E2, E, <- !app_assoc|by do 2 (apply elem_of_app; right)|done].
Qed.

(** *** Sessions *)

Lemma make_session_ok i id p w : w_lock w = Some i → ok i (make_session cfg id p) (λ s w', earned (w_log w') (email id) p (sid s) ∧ perms s = p) w.
Proof.
  intros Hl. unfold make_session. apply safe_bind. eapply safe_mono; [by apply ensure_ok|done|]. intros [uid mail] w1 [_ Hm].
  case_bool_decide as H1'; [done|]. case_bool_decide as H0'; [done|]. cbn [orb]. apply safe_bind. eapply safe_mono; [apply grant_ok|done|]. intros _ w2 [[lg Eg] Hg].
  apply safe_bind. eapply safe_mono; [apply sign_in_ok|done|]. intros s w3 (l & r & l2 & E3 & Hr & Hc).
  eapply safe_mono; [apply probe_ok|done|]. intros x w4 (Hp & Hs & l4 & r4 & E4 & Hin & Hr4). split; [|done]. subst s.
  exists id, uid, mail, i, r, r4, (w_log w2 ++ l), (l2 ++ l4). split_and!; try done.
  - by rewrite E4, E3, <- app_assoc.
  - apply mapped_app. rewrite Eg. by apply mapped_app.
  - by apply granted_app.
  - by apply elem_of_app; right.
Qed.
Lemma drop_session_ok i e w (Q : () → World → Prop) : (∀ w', grown w w' → Q () w') → ok i (drop_session e) Q w.
Proof.
  intros HQ. unfold drop_session. apply safe_bind, silent_safe.
  { intros w1 w2 r (H1' & H2' & H3' & H4') [= <- <-]. split_and!; [done|done|]. split_and!; [|done..]. intros e' s; cbn; intros [_ Hs]%lookup_delete_Some. by apply H1'. }
  intros w1 w2 old _ _ _ _ Hr. destruct old as [s|]; [|by apply HQ, (rely_grown i)]. apply safe_bind, call_safe; [apply plain_cleared; [done|by intros []]|].
  intros w3 l r E _ _. apply HQ. eapply grown_trans; [by eapply rely_grown|by eexists].
Qed.
Lemma cached_ok i e p force w : ok i (cached_session cfg e p force) (λ c w', rely i w w' ∧ ∀ s, c = Some s → earned (w_log w') e p (sid s) ∧ perms s = p) w.
Proof.
  unfold cached_session. apply safe_bind, silent_safe; [by intros w1 w2 r Hi [= <- <-]|]. intros w1 w2 c [= <- <-] (Hs & _) _ _ Hr.
  destruct (w_sessions w1 !! e) as [s|] eqn:Es; [|by split]. specialize (Hs e s Es). destruct (negb force && _) eqn:Ec; [|by split].
  apply andb_true_iff in Ec as [_ Ep%N.eqb_eq]. subst p. apply safe_bind, now_safe. intros t w3 Hr3. split; [by eapply rely_step|].
  intros x. destruct (_ <? _)%N; [|done]. intros [= <-]. split; [|done]. destruct Hr3 as (l & -> & _). by apply earned_app.
Qed.
Lemma insert_ok i e s w (Q : () → World → Prop) : earned (w_log w) e (perms s) (sid s) → (∀ w', grown w w' → Q () w') → ok i (act Ans (SessionInsert e s) : Prog Ans Failure ()) Q w.
Proof.
  intros He HQ. apply safe_act. intros w1 w2 r Hr (H1' & H2' & H3' & H4') [= <- <-]. split_and!.
  - split_and!; [|done..]. intros e' s'; cbn; intros Hs. destruct Hr as (l & El & _). apply lookup_insert_Some in Hs as [[<- <-]|[_ Hs]]; [|by apply H1']. rewrite El. by apply earned_app.
  - by apply (guarantee_log _ _ _ []); [cbn; rewrite app_nil_r| |].
  - apply HQ. destruct Hr as (l & El & _). by exists l.
Qed.
Lemma renew_ok i id p force w : w_lock w = Some i → ok i (renew cfg id p force) (λ s w', earned (w_log w') (email id) p (sid s) ∧ perms s = p) w.
Proof.
  intros Hl. unfold renew. apply safe_bind. eapply safe_mono; [apply cached_ok|done|]. intros c w1 [Hr Hc]. destruct c as [s|]; [by apply Hc|].
  apply safe_bind. eapply safe_mono; [apply make_session_ok|done|]; [by destruct Hr as (l & _ & Hk); destruct (Hk Hl)|].
  intros made w2 [He Hp]. apply safe_bind, drop_session_ok. intros w3 [l3 E3]. apply safe_bind, insert_ok.
  - rewrite Hp, E3. by apply earned_app.
  - intros w4 [l4 E4]. split; [|done]. rewrite E4, E3. by do 2 apply earned_app.
Qed.
Lemma unlock_ok i w (Q : () → World → Prop) : (∀ w', grown w w' → Q () w') → ok i (act Ans Unlock : Prog Ans Failure ()) Q w.
Proof.
  intros HQ. apply safe_act. intros w1 w2 u Hr Hi [= <- <-]. split_and!.
  - by case_bool_decide.
  - exists []. case_bool_decide as Hl; (split; [by rewrite app_nil_r|]); intros j Hj Hl'; cbn in *; [|done]. rewrite Hl in Hl'. by injection Hl' as ->.
  - apply HQ. destruct Hr as (l & El & _). exists l. by case_bool_decide.
Qed.
Lemma with_lock_ok {A} i (p : Prog Ans Failure A) (Q : A → World → Prop) w : (∀ a w1 w2, Q a w1 → grown w1 w2 → Q a w2) →
  (∀ w1, grown w w1 → w_lock w1 = Some i → ok i p Q w1) → ok i (with_lock p) Q w.
Proof.
  intros Hst Hp. unfold with_lock. apply safe_bind, safe_act. intros w1 w2 u Hr Hi He. cbn in He. destruct (w_lock w1) eqn:El; [done|]. injection He as <- <-.
  split_and!; [exact Hi| |].
  - exists []. split; [by rewrite app_nil_r|]. intros j _ Hl. cbn in Hl. by rewrite El in Hl.
  - apply safe_bind, safe_attempt. eapply safe_mono; [apply Hp; [|done]| |].
    + destruct Hr as (l & E & _). by exists l.
    + intros e w3 _. apply safe_bind, unlock_ok. by intros w4 _.
    + intros a w3 Ha. apply safe_bind, unlock_ok. intros w4 Hg. cbn. by eapply Hst.
Qed.
Lemma grown_ok {E A} i (p : Prog Ans E A) X (Q : A → World → Prop) w : safe i p X Q w → safe i p X (λ a w', grown w w' ∧ Q a w') w.
Proof.
  enough (∀ w0, grown w0 w → safe i p X Q w → safe i p X (λ a w', grown w0 w' ∧ Q a w') w) as Hs by apply Hs, grown_refl.
  revert w. induction p as [a|e|x k IH]; intros w w0 Hg Hp; [by split|done|]. intros w1 w2 r Hr Hi He. destruct (Hp w1 w2 r Hr Hi He) as (Hi2 & Hg2 & Hs).
  split_and!; [done|done|]. apply IH; [|done]. eapply grown_trans; [done|]. eapply grown_trans; [by eapply rely_grown|]. destruct Hg2 as (l & E' & _). by exists l.
Qed.
Lemma session_ok i id p force w : ok i (session_for cfg id p force) (λ s w', earned (w_log w') (email id) p (sid s)) w.
Proof.
  unfold session_for. apply safe_bind. eapply safe_mono; [apply cached_ok|done|]. intros c w1 [Hr%rely_grown Hc]. destruct c as [s|]; [by apply Hc|].
  apply with_lock_ok.
  - intros a w2 w3 He [l ->]. by apply earned_app.
  - intros w2 _ Hl2. eapply safe_mono; [by apply renew_ok|done|]. by intros s w3 [He _].
Qed.

(** *** Identities *)

Lemma recall_ok i k w : ok i (act Ans (E := Failure) (IdentityGet k))
  (λ (r : option Identity) w', ∀ id, r = Some id → ∃ t now, vouched (w_log w') k t id ∧ Recalled i k now ∈ w_log w' ∧ (saturating_sub now t < AUTH_CACHE)%N) w.
Proof.
  apply safe_act. intros w1 w2 r Hr Hi He. cbn in He. destruct (w_identities w1 !! k) as [[t id]|] eqn:Ek.
  - destruct (young _ _) eqn:Ey; injection He as <- <-.
    + split_and!.
      * by apply (inv_event w1 _ (Recalled i k (clock (w_step w1)))).
      * apply (guarantee_log _ _ _ [Recalled i k (clock (w_step w1))]); [done|done|]. by constructor.
      * intros id' [= <-]. exists t, (clock (w_step w1)). split_and!; [|cbn; set_solver|by apply N.ltb_lt].
        apply vouched_app. by apply Hi.
    + split_and!; [exact Hi|by apply (guarantee_log _ _ _ []); [cbn; rewrite app_nil_r|..]|done].
  - injection He as <- <-. split_and!; [exact Hi|by apply (guarantee_log _ _ _ []); [cbn; rewrite app_nil_r|..]|done].
Qed.
Lemma pruned_sub now m k ent : pruned now m !! k = Some ent → m !! k = Some ent.
Proof. unfold pruned. destruct (_ <? _)%nat; [|done]. by intros [? _]%map_lookup_filter_Some. Qed.
Lemma remember_ok i h r id w (Q : () → World → Prop) :
  Got i (AuthCheck (cookie_of h) (auth_of h)) (Some r) ∈ w_log w → accepted r id → (∀ w', grown w w' → Q () w') →
  ok i (act Ans (IdentityInsert (credential_key (cookie_of h) (auth_of h)) id) : Prog Ans Failure ()) Q w.
Proof.
  intros Hg Ha HQ. apply safe_act. intros w1 w2 u Hr Hi [= <- <-]. set (ev := Cached i _ (clock (w_step w1)) id).
  destruct Hr as (lr & Er & _). assert (vouched (w_log w1 ++ [ev]) (credential_key (cookie_of h) (auth_of h)) (clock (w_step w1)) id) as Hv.
  { apply list_elem_of_split in Hg as (l1 & l2 & E). exists i, h, r, l1, (l2 ++ lr), []. split_and!; [|done|done].
    by rewrite Er, E, <- !app_assoc. }
  split_and!.
  - assert (inv (log ev (tick w1))) as Hi2 by by apply (inv_event w1 _ ev). destruct Hi2 as (H1' & H2' & H3' & H4'). split_and!; [done| |done|done].
    intros k t id' Hk. cbn in Hk. apply lookup_insert_Some in Hk as [[<- [= <- <-]]|[_ Hk%pruned_sub]]; [done|]. by apply H2'.
  - apply (guarantee_log _ _ _ [ev]); [done|done|]. by constructor.
  - apply HQ. exists (lr ++ [ev]). cbn. by rewrite Er, <- app_assoc.
Qed.
Lemma identity_ok i h w : ok i (identity h) (λ id w', identified (w_log w') i h id) w.
Proof.
  unfold identity. destruct (_ && _); [done|]. apply safe_bind. eapply safe_mono; [apply recall_ok|done|]. intros known w1 Hk.
  destruct known as [id|]; [right; by apply Hk|]. clear Hk. apply safe_bind, call_safe; [apply plain_cleared; [done|by intros []]|]. intros w2 l r E _ _.
  destruct r as [r|]; [|done]. case_bool_decide as Hst; [|by case_bool_decide]. destruct (identity_from (rs_headers r)) as [id|] eqn:Eid; [|done].
  assert (Got i (AuthCheck (cookie_of h) (auth_of h)) (Some r) ∈ w_log w2) as Hin by (rewrite E; set_solver).
  apply safe_bind. eapply remember_ok; [done|by split|]. intros w3 [l3 E3]. left. exists r. split; [rewrite E3; by apply elem_of_app; left|by split].
Qed.

(** *** Requests *)

Lemma forward_ok i rq body s w : reqs !! i = Some rq → rq_body rq = Some body → authorised (w_log w) i (rq_parts rq) s →
  ok i (forward (rq_parts rq) body s) (λ _ _, True) w.
Proof.
  intros Hrq Hb Ha. unfold forward. apply safe_bind, call_safe.
  - split; [|by intros []]. intros parts b s' [= <- <- <-]. split; [by exists rq|done].
  - intros w1 l r _ _ _. destruct r as [r|]; [|done]. by destruct (rs_body r).
Qed.
Lemma serve_ok i rq w : reqs !! i = Some rq → ok i (serve cfg rq) (λ _ _, True) w.
Proof.
  intros Hrq. unfold serve. apply safe_bind. eapply safe_mono; [apply identity_ok|done|]. intros id w1 Hid.
  destruct (permissions cfg (groups id)) as [p|] eqn:Ep; [|done]. case_bool_decide; [done|]. destruct (_ && _); [done|].
  unfold read_body. destruct (rq_body rq) as [body|] eqn:Eb; [|done]. destruct (_ <=? _)%N; [|done].
  apply safe_bind, ret_ok, safe_bind. eapply safe_mono; [apply grown_ok, session_ok|done|]. intros x w2 [[l2 E2] He].
  assert (identified (w_log w2) i (p_headers (rq_parts rq)) id) as Hid2 by (rewrite E2; by apply identified_app).
  apply safe_bind. eapply safe_mono; [apply grown_ok, forward_ok; [done|done|]|done|]; [by exists id, p|]. intros resp w3 [[l3 E3] _].
  destruct (_ && _); [|done]. apply safe_bind, now_safe. intros t w4 [l4 E4]%rely_grown. destruct (_ <? _)%N; [|done].
  apply safe_bind. eapply safe_mono; [apply grown_ok, session_ok|done|]. intros y w5 [[l5 E5] He5].
  apply forward_ok; [done|done|]. exists id, p. split_and!; [|done|done]. rewrite E5, E4, E3. by do 3 apply identified_app.
Qed.
Lemma handle_ok i rq w : reqs !! i = Some rq → safe i (handle cfg rq) (λ _ _, True) (λ _ _, True) w.
Proof.
  intros Hrq. unfold handle. apply safe_bind, safe_attempt. eapply safe_mono; [by apply serve_ok|done|done].
Qed.
End spec.

(** ** The program *)

Definition start : World := mkWorld ∅ ∅ None [] 0.
Definition serve_all `{Crypto, Outside} (cfg : Cfg) (cs : list Choice) (reqs : list Request) : World * list (option (Prog Ans Empty_set Reply)) :=
  run Ans exec abandon cs (start, (λ rq, Some (handle cfg rq)) <$> reqs).
Lemma serve_all_inv `{Crypto, Outside} cfg cs reqs : inv cfg reqs (serve_all cfg cs reqs).1.
Proof.
  apply (run_safe Ans exec abandon (inv cfg reqs) guarantee rely). split.
  - split_and!; try done; intros ? *; cbn; by intros ?%app_cons_not_nil.
  - intros i p. cbn. rewrite list_lookup_fmap. destruct (reqs !! i) as [rq|] eqn:E; [|done]. intros [= <-]. eapply safe_mono; [by apply (handle_ok cfg reqs)|done|done].
Qed.

Lemma header_no_nul name h v : header name h = Some v → "000"%char ∉ chars v.
Proof.
  unfold header. destruct (assoc name h) as [x|]; [|done]. cbn. unfold to_str. destruct (forallb visible (chars x)) eqn:E; [|done]. intros [= <-] Hin.
  rewrite forallb_forall in E. specialize (E "000"%char). rewrite <- list_elem_of_In in E. by specialize (E Hin).
Qed.
Lemma default_header_no_nul name h : "000"%char ∉ chars (default "" (header name h)).
Proof. destruct (header name h) as [v|] eqn:E; [by eapply header_no_nul|]. by intros ?%not_elem_of_nil. Qed.
Lemma credentials_inj h h' : cookie_of h +:+ String "000" (auth_of h) = cookie_of h' +:+ String "000" (auth_of h') → cookie_of h = cookie_of h' ∧ auth_of h = auth_of h'.
Proof.
  intros E. apply (f_equal chars) in E. rewrite !chars_app, !chars_cons in E.
  assert (∀ x, split_once_list "000"%char (chars (cookie_of x) ++ "000"%char :: chars (auth_of x)) = Some (chars (cookie_of x), chars (auth_of x))) as Hx.
  { intros x. apply split_once_list_Some. split; [done|]. apply default_header_no_nul. }
  pose proof (Hx h) as E1. pose proof (Hx h') as E2.
  rewrite E in E1. rewrite E1 in E2. injection E2 as Ec Ea. split; [rewrite <- (str_chars (cookie_of h)), Ec|rewrite <- (str_chars (auth_of h)), Ea]; apply str_chars.
Qed.

(** C26: Whatever the clients send, Seerr and oauth2-proxy answer and the scheduler does, requests being dropped at any
    point: what the sidecar forwards to Seerr is the request it got, for an identity that oauth2-proxy gave for
    exactly this request's Cookie and Authorization (to this request, or into the cache less than fifteen seconds
    before it was looked up), with the permissions of that identity's groups, and with a session that Seerr gave to
    that person's user, never user 1, after those permissions were settled. Of the client's own credentials
    nothing is forwarded. *)
Theorem forwarded_authorised `{Crypto, Outside, SerdeJson} cfg cs reqs i parts body s l1 l2 :
  (∀ x y, sha256 x = sha256 y → x = y) →
  w_log (serve_all cfg cs reqs).1 = l1 ++ Sent i (Forward parts body s) :: l2 →
  ∃ rq id p j r, reqs !! i = Some rq ∧ parts = rq_parts rq ∧ rq_body rq = Some body ∧
    Got j (AuthCheck (cookie_of (p_headers parts)) (auth_of (p_headers parts))) (Some r) ∈ l1 ∧ accepted r id ∧
    (j = i ∨ ∃ t now, let k := credential_key (cookie_of (p_headers parts)) (auth_of (p_headers parts)) in
       Cached j k t id ∈ l1 ∧ Recalled i k now ∈ l1 ∧ (saturating_sub now t < AUTH_CACHE)%N) ∧
    permissions cfg (groups id) = Some p ∧ earned cfg l1 (email id) p s ∧
    ∀ n v, (n, v) ∈ h_headers (render cfg (Forward parts body s)) → n ∈ ["cookie"; "authorization"; "x-api-key"; "x-api-user"] → (n, v) = sid_cookie s.
Proof.
  intros Hsha E. destruct (serve_all_inv cfg cs reqs) as (_ & _ & Hf & _). destruct (Hf _ _ _ _ _ _ E) as [(rq & Hrq & -> & Hb) (id & p & Hid & Hp & He)].
  assert (∀ n v, (n, v) ∈ h_headers (render cfg (Forward (rq_parts rq) body s)) → n ∈ ["cookie"; "authorization"; "x-api-key"; "x-api-user"] → (n, v) = sid_cookie s) as Hh.
  { intros n v Hin Hn. cbn in Hin. apply elem_of_app in Hin as [Hin|[Hin|[Hin|Hin]%elem_of_cons]%elem_of_cons]; [|done| |by apply not_elem_of_nil in Hin].
    - apply list_elem_of_In, filter_In in Hin as [_ Hd]. apply negb_true_iff in Hd. unfold drop_request_header in Hd. apply bool_decide_eq_false in Hd.
      exfalso. apply Hd. cbn. clear -Hn. set_solver.
    - injection Hin as -> ->. exfalso. clear -Hn. set_solver. }
  destruct Hid as [(r & Hr & Ha)|(t & now & (j & h & r & la & lb & lc & El & Hk & Ha) & Hrec & Ht)].
  - exists rq, id, p, i, r. split_and!; try done. by left.
  - unfold credential_key in Hk. apply hex_inj, Hsha, credentials_inj in Hk as [Ec Ea]. exists rq, id, p, j, r. rewrite <- Ec, <- Ea.
    split_and!; try done; [rewrite El; apply elem_of_app; right; by left|]. right. exists t, now. cbn zeta. rewrite Ec, Ea in El. rewrite Ec, Ea. split_and!; [|done|done].
    rewrite El. apply elem_of_app. right. right. apply elem_of_app. right. by left.
Qed.

(** C27: Two requests never make a Seerr user behind each other's back: whoever makes one has asked Seerr for its users
    before, and between the two nobody else has made one, under every schedule and wherever requests are dropped. *)
Theorem users_made_in_turn `{Crypto, Outside} cfg cs reqs i c l1 l2 :
  w_log (serve_all cfg cs reqs).1 = l1 ++ Sent i c :: l2 → makes_user c →
  ∃ la lb k, l1 = la ++ Sent i (Api "GET" users_path None k) :: lb ∧ ∀ j c', Sent j c' ∈ lb → ¬ makes_user c'.
Proof.
  intros E Hc. destruct (serve_all_inv cfg cs reqs) as (_ & _ & _ & Hm). destruct (Hm _ _ _ _ E Hc) as (la & lb & k & El & Hq).
  exists la, lb, k. split; [done|]. intros j c' Hin. rewrite Forall_forall in Hq. exact (Hq _ Hin).
Qed.

(** ** Two requests at once *)

Module Reference.
#[export] Instance crypto : Crypto := {| sha256 s := s; hmac_sha256 k m := m |}.
Definition ok_with (body : string) : option Resp := Some (mkResp 200 [] (Some body)).
Definition seerr (c : Call) : option Resp :=
  match c with
  | AuthCheck _ _ =>
      Some (mkResp 202 [("x-auth-request-email", "Kay@x.me"); ("x-auth-request-preferred-username", "kay"); ("x-auth-request-groups", "family")] (Some ""))
  | Api "GET" "/user?take=1000&skip=0" _ _ => ok_with "users"
  | Api "POST" "/user" _ _ => Some (mkResp 201 [] (Some "made"))
  | Login _ _ => Some (mkResp 200 [("set-cookie", "connect.sid=s1; Path=/; HttpOnly")] (Some ""))
  | _ => ok_with ""
  end.
Definition json (s : string) : option Value :=
  if String.eqb s "settings" then Some (Object [("main", Object [("apiKey", Str "k")])])
  else if String.eqb s "users" then Some (Object [("results", Array [Object [("id", Number (PosInt 1)); ("email", Str "kay@x.me")]])])
  else if String.eqb s "made" then Some (Object [("id", Number (PosInt 7))])
  else None.
#[export] Instance outside : Outside := {| answer _ c := seerr c; clock n := N.of_nat n; settings _ := Some "settings"; json_of := json |}.
#[export] Instance serde : SerdeJson := λ _, "{}".
Definition cfg : Cfg :=
  mkCfg "http://127.0.0.1:5055" "http://proxy/oauth2/auth" "/settings.json" "0123456789abcdef" ["admin"] ["family"] FAMILY (secs 1800) true.
Definition asks : Request := mkRequest (mkParts "GET" "/api/v1/search" (Some "/api/v1/search?q=x") [("cookie", "_oauth2_proxy=abc"); ("accept", "*/*"); ("x-api-key", "stolen")]) (Some "").
Definition reqs : list Request := [asks; asks].
Definition turns : list Choice := concat (replicate 60 [Run 0; Run 1]).
(** The first forwarded request, and what precedes it. *)
Fixpoint until (p : Event → bool) (l : list Event) : option (list Event * Event * list Event) :=
  match l with
  | [] => None
  | e :: l => if p e then Some ([], e, l) else '(a, x, b) ← until p l; Some (e :: a, x, b)
  end.
Definition forwards (e : Event) : bool := match e with Sent _ (Forward _ _ _) => true | _ => false end.
Definition creates (e : Event) : bool := match e with Sent _ (Api "POST" "/user" _ _) => true | _ => false end.
End Reference.
#[local] Existing Instances Reference.crypto Reference.outside Reference.serde.

(** Both requests are answered through the one session that was made; the listing's only match is user 1, which is left alone. *)
Example two_requests :
  let '(w, pool) := serve_all Reference.cfg Reference.turns Reference.reqs in
  pool = [Some (Ret (mkReply 200 [] "")); Some (Ret (mkReply 200 [] ""))] ∧ length (List.filter Reference.creates (w_log w)) = 1 ∧
  length (List.filter Reference.forwards (w_log w)) = 2 ∧ sid <$> w_sessions w = {["kay@x.me" := "s1"]}.
Proof. vm_compute. done. Qed.
Example groups_decide :
  permissions Reference.cfg ["admin"; "family"] = Some ADMIN ∧ permissions Reference.cfg ["guests"] = None ∧ N.land FAMILY ADMIN = 0%N ∧
  N.land FAMILY (N.lor (N.lor 128 256) (N.lor 512 16)) = 0%N.
Proof. vm_compute. done. Qed.

Lemma until_split p l a x b : Reference.until p l = Some (a, x, b) → l = a ++ x :: b.
Proof.
  revert a. induction l as [|e l IH]; intros a; cbn; [done|]. destruct (p e); [by intros [= <- <- <-]|].
  destruct (Reference.until p l) as [[[a' x'] b']|]; [|done]. intros [= <- <- <-]. cbn. by rewrite (IH a').
Qed.
Lemma forwarded_authorised_witness :
  ∃ l1 parts body s id p, permissions Reference.cfg (groups id) = Some p ∧ email id = "kay@x.me" ∧ p = FAMILY ∧ earned Reference.cfg l1 (email id) p s ∧ parts = rq_parts Reference.asks ∧ body = "".
Proof.
  assert (∀ x y : string, sha256 x = sha256 y → x = y) as Hsha by done.
  pose proof (λ l1 l2, forwarded_authorised Reference.cfg Reference.turns Reference.reqs 0 (rq_parts Reference.asks) "" "s1" l1 l2 Hsha) as T.
  assert (∃ l1 l2, w_log (serve_all Reference.cfg Reference.turns Reference.reqs).1 = l1 ++ Sent 0 (Forward (rq_parts Reference.asks) "" "s1") :: l2) as E.
  { eexists _, _. apply (until_split Reference.forwards). vm_compute. reflexivity. }
  assert (forallb (λ e, match e with Got _ (AuthCheck _ _) (Some r) => bool_decide (identity_from (rs_headers r) = Some (mkIdentity "kay@x.me" "kay" ["family"])) | _ => true end)
    (w_log (serve_all Reference.cfg Reference.turns Reference.reqs).1) = true) as Hl by (vm_compute; reflexivity).
  revert T E Hl. generalize (w_log (serve_all Reference.cfg Reference.turns Reference.reqs).1). intros log T (l1 & l2 & E) Hl.
  destruct (T l1 l2 E) as (rq & id & p & j & r & _ & _ & _ & Hr & [_ Ha] & _ & Hp & He & _).
  rewrite forallb_forall in Hl. specialize (Hl (Got j (AuthCheck (cookie_of (p_headers (rq_parts Reference.asks))) (auth_of (p_headers (rq_parts Reference.asks)))) (Some r))).
  rewrite <- list_elem_of_In in Hl. rewrite E in Hl. specialize (Hl ltac:(by apply elem_of_app; left)). apply bool_decide_eq_true in Hl. rewrite Hl in Ha. injection Ha as <-.
  exists l1, (rq_parts Reference.asks), "", "s1", (mkIdentity "kay@x.me" "kay" ["family"]), p. split_and!; try done. by injection Hp.
Defined.
Lemma users_made_in_turn_witness :
  ∃ i c l1 l2, w_log (serve_all Reference.cfg Reference.turns Reference.reqs).1 = l1 ++ Sent i c :: l2 ∧ makes_user c ∧ ∃ j k, Sent j (Api "GET" users_path None k) ∈ l1.
Proof.
  pose proof (λ i c l1 l2, users_made_in_turn Reference.cfg Reference.turns Reference.reqs i c l1 l2) as T.
  assert (∃ i c l1 l2, w_log (serve_all Reference.cfg Reference.turns Reference.reqs).1 = l1 ++ Sent i c :: l2 ∧ makes_user c) as E.
  { eexists _, _, _, _. split; [apply (until_split Reference.creates); vm_compute; reflexivity|by left]. }
  revert T E. generalize (w_log (serve_all Reference.cfg Reference.turns Reference.reqs).1). intros log T (i & c & l1 & l2 & E & Hc).
  exists i, c, l1, l2. split_and!; [done|done|]. destruct (T i c l1 l2 E Hc) as (la & lb & k & El & _).
  exists i, k. rewrite El. apply elem_of_app. right. by left.
Defined.
