(* ===== verification/Markers.v ===== *)
(** * Run markers and scopes ([apps/e2e/src/ctx.rs])

    Every run of the end-to-end tests has an id; everything it creates carries the marker [e2e-<id>], and
    cleanup touches only what a [Scope] hits. [find_marker_spec] says what the scanner finds,
    [run_id_roundtrip] that an id is a marker, gives its start time back, and exactly when the stale scope hits it. *)

From Stdlib Require Import Ascii ZArith.
From stdpp Require Import options.
From S2P Require Import Prelude Text Json Calendar Codec.
#[local] Open Scope Z_scope.

(** ** Markers *)

Definition PREFIX : list ascii := chars "e2e-".
Definition is_id_char (c : ascii) : bool := is_lower c || is_digit c.
(** What follows the prefix: [YYYYMMDD-HHMMSS-xxxx], and anything. *)
Definition tail_ok (m : list ascii) : bool :=
  (20 <=? length m)%nat && forallb is_digit (take 8 m) && bool_decide (m !! 8%nat = Some "-"%char) &&
  forallb is_digit (take 6 (drop 9 m)) && bool_decide (m !! 15%nat = Some "-"%char) && forallb is_id_char (take 4 (drop 16 m)).
(** The search goes on after a prefix that is no marker; each round takes the prefix away. *)
Fixpoint find_marker_from (fuel : nat) (l : list ascii) : option (list ascii) :=
  match fuel, find_list PREFIX l with
  | S fuel, Some (_, after) => if tail_ok after then Some (PREFIX ++ take 20 after) else find_marker_from fuel after
  | _, _ => None
  end.
Definition find_marker (s : string) : option string := str <$> find_marker_from (S (String.length s)) (chars s).

(** [str::parse::<i64>] *)
Definition parse_i64 (s : string) : option Z :=
  let read (neg : bool) l :=
    match l with
    | [] => None
    | _ => n ← parse_digits 0 l; let z := if neg then - Z.of_N n else Z.of_N n in if (- 2 ^ 63 <=? z) && (z <? 2 ^ 63) then Some z else None
    end in
  match chars s with
  | "-"%char :: l => read true l
  | "+"%char :: l => read false l
  | l => read false l
  end.
(** [m.get(a..b)?.parse().ok()], on ASCII *)
Definition number_at (m : string) (a b : nat) : option Z :=
  if (b <=? String.length m)%nat then parse_i64 (str (take (b - a) (drop a (chars m)))) else None.
Definition marker_time (m : string) : option Z :=
  y ← number_at m 4 8; mo ← number_at m 8 10; d ← number_at m 10 12;
  h ← number_at m 13 15; mi ← number_at m 15 17; sec ← number_at m 17 19;
  Some (days_from_civil y mo d * 86400 + h * 3600 + mi * 60 + sec).
(** None: not a run id, and no scope is built from it. *)
Definition run_marker (id : string) : option string :=
  let m := "e2e-" +:+ default id (strip_prefix "e2e-" id) in
  if bool_decide (find_marker m = Some m) then Some m else None.

(** ** Run ids *)

Definition xorshift (x : N) : N :=
  let x := if (x =? 0)%N then 11400714819323198485%N else x in
  let x := N.lxor x (u64_wrap (N.shiftl x 13)) in
  let x := N.lxor x (N.shiftr x 7) in
  N.lxor x (u64_wrap (N.shiftl x 17)).
Definition ALPHABET : list ascii := chars "abcdefghijklmnopqrstuvwxyz0123456789".
Fixpoint suffix (n : nat) (seed : N) : list ascii :=
  match n with
  | O => []
  | S n => let seed := xorshift seed in default "a"%char (ALPHABET !! N.to_nat (seed mod 36)) :: suffix n seed
  end.
(** The clock's seconds and nanoseconds since the epoch, and the process id. *)
Definition new_run_id (secs : Z) (nanos pid : N) : string :=
  let '(y, m, d) := civil (secs / 86400) in
  let t := secs mod 86400 in
  let seed := N.lxor (u64_wrap nanos) (u64_wrap (N.shiftl pid 32)) in
  padded 4 y +:+ padded 2 m +:+ padded 2 d +:+ "-" +:+ padded 2 (t /ᵗ 3600) +:+ padded 2 (t %ᵗ 3600 /ᵗ 60) +:+ padded 2 (t %ᵗ 60)
  +:+ "-" +:+ str (suffix 4 seed).

(** ** Scopes *)

Inductive Scope : Type := ScopeRun (m : string) | ScopeAll | ScopeStale (before : Z).
Definition hit (sc : Scope) (s : string) : bool :=
  match sc with
  | ScopeRun m => contains m s
  | ScopeAll => bool_decide (is_Some (find_marker s))
  | ScopeStale before => match find_marker s ≫= marker_time with Some t => t <? before | None => false end
  end.
Definition hit_v (sc : Scope) (v : Value) : bool := match as_str v with Some s => hit sc s | None => false end.

(** ** Helpers of the flows *)

Definition excerpt (s : string) : string := replace_char newline " "%char (str (take 240 (chars s))).
Definition unreserved (c : ascii) : bool := is_ascii_alphanumeric c || bool_decide (c ∈ chars "-_.~").
Definition upper_hex (n : N) : ascii := ascii_of_N (if (n <? 10)%N then 48 + n else 55 + n)%N.
Definition enc (s : string) : string :=
  str (flat_map (λ c, if unreserved c then [c] else ["%"%char; upper_hex (N_of_ascii c / 16); upper_hex (N_of_ascii c mod 16)]) (chars s)).
(** The dotted quads of a text. *)
Definition quad_part (p : string) : bool :=
  negb (bool_decide (p = "")) && (String.length p <=? 3)%nat && match parse_uint (2 ^ 16) p with Some n => (n <? 256)%N | None => false end.
Definition is_quad (tok : string) : bool := let parts := split_char "." tok in (length parts =? 4)%nat && forallb quad_part parts.
Definition ipv4s (s : string) : list string :=
  List.filter is_quad (str <$> pieces (λ c, negb (is_digit c || bool_decide (c = "."%char))) (chars s)).
(** Direct storage-node URLs of a file, from the item's metadata. *)
Definition add_url (out : list string) (u : string) : list string := if bool_decide (u ∈ out) then out else out ++ [u].
Definition archive_nodes (meta : Value) (file : string) : list string :=
  match as_str (meta.["dir"]) with
  | None => []
  | Some dir =>
      let hosts := omap as_str (default [] (as_array (meta.["workable_servers"]))) ++ omap (λ k, as_str (meta.[k])) ["server"; "d1"; "d2"] in
      foldl add_url [] ((λ h, "https://" +:+ h +:+ dir +:+ "/" +:+ file) <$> hosts)
  end.

Example markers :
  find_marker "/media/books/.e2e-20261011-031200-ab12/x" = Some "e2e-20261011-031200-ab12" ∧ find_marker "e2e-2026-x e2e-20261011-031200-ab1" = None ∧
  find_marker "Books" = None ∧ run_marker "20261011-031200-ab12" = Some "e2e-20261011-031200-ab12" ∧
  run_marker "e2e-20261011-031200-ab12" = Some "e2e-20261011-031200-ab12" ∧
  omap run_marker [""; "e2e"; "2026"; "20261011-031200"; "20261011-031200-ab12-extra"; "x20261011-031200-ab12"; "20261011-031200-AB12"; "e2e-e2e-20261011-031200-ab12"] = [].
Proof. vm_compute. done. Qed.
Example stale_scope :
  match marker_time "e2e-20261015-053550-258f" with
  | Some t => rfc3339 t = "2026-10-15T05:35:50Z" ∧ hit (ScopeStale (t + 1)) "/media/downloads/e2e-20261015-053550-258f/tv" = true ∧
      hit (ScopeStale t) "/media/downloads/e2e-20261015-053550-258f/tv" = false ∧ hit (ScopeStale (t + 1)) "Movies" = false
  | None => False
  end ∧ marker_time "e2e-19700101-000000-abcd" = Some 0.
Proof. vm_compute. done. Qed.
Example helpers :
  ipv4s "<td>1.2.3.4</td> 999.1.1.1 10.0.0.1:80" = ["1.2.3.4"; "10.0.0.1"] ∧ enc "a b/ü~" = "a%20b%2F%C3%BC~" ∧
  archive_nodes (Object [("server", Str "dn1.us.archive.org"); ("workable_servers", Array [Str "dn1.us.archive.org"; Str "dn2.ca.archive.org"]); ("dir", Str "/0/items/X"); ("d1", Str "dn1.us.archive.org")]) "Content/a.mp4"
  = ["https://dn1.us.archive.org/0/items/X/Content/a.mp4"; "https://dn2.ca.archive.org/0/items/X/Content/a.mp4"] ∧
  archive_nodes (Object [("server", Str "x")]) "f" = [].
Proof. vm_compute. done. Qed.

(** ** What the scanner finds *)

Definition is_marker (m : list ascii) : Prop := ∃ t, m = PREFIX ++ t ∧ length t = 20%nat ∧ tail_ok t = true.

Lemma tail_ok_app t x : length t = 20%nat → tail_ok (t ++ x) = tail_ok t.
Proof.
  intros Hl. do 20 (destruct t as [|? t]; [done|]). destruct t; [|done]. unfold tail_ok. cbn -[is_digit is_id_char bool_decide]. by rewrite !take_0.
Qed.
Lemma tail_ok_length t : tail_ok t = true → (20 ≤ length t)%nat.
Proof. unfold tail_ok. intros H. repeat (apply andb_true_iff in H as [H _]). by apply Nat.leb_le in H. Qed.
Lemma find_list_first p l before after b a : find_list p l = Some (before, after) → l = b ++ p ++ a → (length before ≤ length b)%nat.
Proof.
  revert before b. induction l as [|x l IH]; intros before b; cbn [find_list]; (destruct (decide (p `prefix_of` _)) as [|Hn]; [intros [= <- <-] _; cbn; lia|]); [done|].
  destruct (find_list p l) as [[bf af]|] eqn:E; [|done]. cbn. intros [= <- <-] El. destruct b as [|y b].
  - destruct Hn. by exists a.
  - cbn in *. injection El as _ El. specialize (IH bf b eq_refl El). lia.
Qed.
(** Two occurrences of the prefix do not overlap. *)
Lemma prefix_apart before after b a : before ++ PREFIX ++ after = b ++ PREFIX ++ a → (length before ≤ length b)%nat →
  (before = b ∧ after = a) ∨ ∃ b', b = before ++ PREFIX ++ b' ∧ after = b' ++ PREFIX ++ a.
Proof.
  intros E Hle. assert (∃ c, b = before ++ c) as [c ->].
  { exists (drop (length before) b). rewrite <- (take_drop (length before) b) at 1. f_equal. apply (f_equal (take (length before))) in E.
    rewrite take_app_length, take_app_le in E by done. by symmetry. }
  rewrite <- !app_assoc in E. apply app_inv_head in E. destruct c as [|x1 [|x2 [|x3 [|x4 c]]]]; cbn in E.
  - left. rewrite app_nil_r. split; [done|]. by injection E.
  - by injection E.
  - by injection E.
  - by injection E.
  - right. injection E as <- <- <- <- E. exists c. split; [done|]. exact E.
Qed.
Lemma marker_scan fuel l : (length l < fuel)%nat →
  match find_marker_from fuel l with
  | Some m => is_marker m ∧ ∃ before after, l = before ++ m ++ after ∧ ∀ b m' a, l = b ++ m' ++ a → is_marker m' → (length before ≤ length b)%nat
  | None => ∀ b m a, l = b ++ m ++ a → ¬ is_marker m
  end.
Proof.
  revert l. induction fuel as [|fuel IH]; intros l Hl; [lia|]. cbn [find_marker_from]. destruct (find_list PREFIX l) as [[before after]|] eqn:E.
  2: { intros b m a -> (t & -> & _). rewrite find_list_None in E. apply (E b (t ++ a)). by rewrite <- app_assoc. }
  pose proof (find_list_Some _ _ _ _ E) as El. destruct (tail_ok after) eqn:Et.
  - pose proof (tail_ok_length _ Et) as Hlen. assert (length (take 20 after) = 20%nat) as H20 by (rewrite length_take; lia). split.
    + exists (take 20 after). split_and!; [done|done|]. by rewrite <- (tail_ok_app _ (drop 20 after) H20), take_drop.
    + exists before, (drop 20 after). split; [by rewrite <- app_assoc, take_drop|]. intros b m' a El' (t & -> & _).
      eapply find_list_first; [exact E|]. by rewrite El', <- !app_assoc.
  - assert (∀ b m a, l = b ++ m ++ a → is_marker m → ∃ b', b = before ++ PREFIX ++ b' ∧ after = b' ++ m ++ a) as Hocc.
    { intros b m a El' (t & -> & H20 & Hok). rewrite <- app_assoc in El'. pose proof (find_list_first _ _ _ _ _ _ E El') as Hle. rewrite El in El'.
      destruct (prefix_apart _ _ _ _ El' Hle) as [[_ ->]|(b' & -> & ->)]; [by rewrite tail_ok_app, Hok in Et|]. exists b'. by rewrite <- !app_assoc. }
    assert (length after < fuel)%nat as Hf by (rewrite El in Hl; rewrite !length_app in Hl; cbn in Hl; lia). specialize (IH after Hf).
    destruct (find_marker_from fuel after) as [m|].
    + destruct IH as (Hm & bf & af & Eaf & Hfirst). split; [done|]. exists (before ++ PREFIX ++ bf), af. split; [by rewrite El, Eaf, <- !app_assoc|].
      intros b m' a El' Hm'. destruct (Hocc _ _ _ El' Hm') as (b' & -> & Ea). specialize (Hfirst _ _ _ Ea Hm'). rewrite !length_app. lia.
    + intros b m a El' Hm. destruct (Hocc _ _ _ El' Hm) as (b' & _ & Ea). by apply (IH _ _ _ Ea).
Qed.

Lemma find_marker_is s m : find_marker s = Some m → is_marker (chars m).
Proof.
  unfold find_marker. pose proof (marker_scan (S (String.length s)) (chars s)) as H. rewrite length_chars in H. specialize (H ltac:(lia)).
  rewrite <- length_chars in H. destruct (find_marker_from _ _) as [l|]; [|done]. cbn. intros [= <-]. rewrite chars_str. apply H.
Qed.
(** A marker has one prefix. *)
Lemma marker_rest x : is_marker (chars ("e2e-" +:+ x)) → strip_prefix "e2e-" x = None.
Proof.
  intros (t & E & _ & Hok). rewrite chars_app in E. apply app_inv_head in E. destruct (strip_prefix "e2e-" x) as [r|] eqn:Es; [|done].
  apply strip_prefix_Some in Es. rewrite Es, chars_app in E. rewrite <- E in Hok. unfold tail_ok in Hok. rewrite !andb_true_iff in Hok. by destruct Hok as (((((_ & Hd8) & _) & _) & _) & _).
Qed.
Lemma trim_none n p s : strip_prefix p s = None → trim_prefixes n p s = s.
Proof. intros E. destruct n; cbn; [done|]. by rewrite E. Qed.
Lemma run_marker_whole id m : run_marker id = Some m → find_marker m = Some m ∧ "e2e-" +:+ trim_start_str "e2e-" id = m.
Proof.
  unfold run_marker. case_bool_decide as Hm; [|done]. intros [= <-]. split; [done|]. pose proof (marker_rest _ (find_marker_is _ _ Hm)) as Hr. clear Hm.
  assert (trim_start_str "e2e-" id = default id (strip_prefix "e2e-" id)) as ->; [|done].
  unfold trim_start_str. destruct (strip_prefix "e2e-" id) as [r|] eqn:E; cbn [default from_option] in Hr |- *; [|by apply trim_none].
  pose proof (proj1 (strip_prefix_Some _ _ _) E) as Er. destruct (String.length id) as [|n] eqn:El; [by rewrite Er in El|].
  cbn [trim_prefixes]. rewrite E. by apply trim_none.
Qed.

(** Find_marker finds the first run marker of a text, and none only when there is none. *)
Theorem find_marker_spec s :
  match find_marker s with
  | Some m => is_marker (chars m) ∧ ∃ before after, s = before +:+ m +:+ after ∧
      ∀ b m' a, s = b +:+ m' +:+ a → is_marker (chars m') → (String.length before ≤ String.length b)%nat
  | None => ∀ b m a, s = b +:+ m +:+ a → ¬ is_marker (chars m)
  end.
Proof.
  unfold find_marker. pose proof (marker_scan (S (String.length s)) (chars s)) as H. rewrite length_chars in H. specialize (H ltac:(lia)).
  rewrite <- length_chars in H. destruct (find_marker_from _ _) as [m|]; cbn.
  - destruct H as (Hm & before & after & E & Hf). rewrite chars_str. split; [done|]. exists (str before), (str after). split.
    + by rewrite <- !str_app, <- E, str_chars.
    + intros b m' a Es Hm'. rewrite !length_chars, chars_str. apply (Hf (chars b) (chars m') (chars a)); [by rewrite Es, !chars_app|done].
  - intros b m a Es. apply (H (chars b) (chars m) (chars a)). by rewrite Es, !chars_app.
Qed.

(** ** A run's id and its start *)

Lemma digit_is_digit z : 0 ≤ z < 10 → is_digit (digit z) = true ∧ digit_val (digit z) = Z.to_N z.
Proof.
  intros Hz. unfold is_digit, in_range, digit_val, digit. rewrite N_ascii_embedding by lia. split; [|lia].
  apply andb_true_iff. split; apply N.leb_le; lia.
Qed.
Lemma fixed_digits w a : 0 ≤ a < 10 ^ Z.of_nat w → Forall (λ c, is_digit c = true) (chars (fixed w a)) ∧ length (chars (fixed w a)) = w ∧
  ∀ acc, parse_digits acc (chars (fixed w a)) = Some (acc * 10 ^ N.of_nat w + Z.to_N a)%N.
Proof.
  revert a. induction w as [|w IH]; intros a Ha.
  { split_and!; [constructor|done|]. intros acc. cbn. f_equal. change (10 ^ Z.of_nat 0) with 1 in Ha. replace a with 0 by lia. cbn. lia. }
  cbn [fixed]. rewrite chars_cons. assert (0 < 10 ^ Z.of_nat w) by (apply Z.pow_pos_nonneg; lia).
  rewrite Nat2Z.inj_succ, Z.pow_succ_r in Ha by lia.
  pose proof (Z.mod_pos_bound a (10 ^ Z.of_nat w) ltac:(lia)) as Hm. destruct (IH (a mod 10 ^ Z.of_nat w)) as (Hd & Hl & Hp); [lia|].
  assert (0 ≤ a / 10 ^ Z.of_nat w < 10) as Hq by (split; [apply Z.div_pos|apply Z.div_lt_upper_bound]; lia).
  destruct (digit_is_digit _ Hq) as [Hdig Hval]. split_and!; [by constructor|by cbn; rewrite Hl|]. intros acc. cbn [parse_digits]. rewrite Hdig, Hp, Hval. f_equal.
  rewrite Nat2N.inj_succ, N.pow_succ_r by lia. apply N2Z.inj. rewrite !N2Z.inj_add, !N2Z.inj_mul, !N2Z.inj_add, !N2Z.inj_mul, !Z2N.id by lia.
  rewrite N2Z.inj_pow, nat_N_Z. change (Z.of_N 10) with 10. pose proof (Z.div_mod a (10 ^ Z.of_nat w)). nia.
Qed.
Lemma parse_fixed w a : (0 < w ≤ 18)%nat → 0 ≤ a < 10 ^ Z.of_nat w → parse_i64 (fixed w a) = Some a.
Proof.
  intros Hw Ha. destruct (fixed_digits w a Ha) as (Hd & Hl & Hp). unfold parse_i64. specialize (Hp 0%N). rewrite N.mul_0_l, N.add_0_l in Hp.
  assert (10 ^ Z.of_nat w ≤ 10 ^ 18) as Hle by (apply Z.pow_le_mono_r; lia).
  destruct (chars (fixed w a)) as [|c l] eqn:E; [cbn in Hl; lia|]. apply Forall_cons in Hd as [Hc _].
  assert ((n ← Some (Z.to_N a); (if (- 2 ^ 63 <=? Z.of_N n) && (Z.of_N n <? 2 ^ 63) then Some (Z.of_N n) else None)) = Some a) as Hres.
  { unfold mbind, option_bind. rewrite Z2N.id by lia. replace (- 2 ^ 63 <=? a) with true by (symmetry; apply Z.leb_le; lia).
    by replace (a <? 2 ^ 63) with true by (symmetry; apply Z.ltb_lt; lia). }
  rewrite <- Hp in Hres. destruct c as [[] [] [] [] [] [] [] []]; try done.
Qed.

(** The parts of an id have their fixed widths. *)
Definition id_text (y m d h mi s : Z) (x : list ascii) : string :=
  fixed 4 y +:+ fixed 2 m +:+ fixed 2 d +:+ "-" +:+ fixed 2 h +:+ fixed 2 mi +:+ fixed 2 s +:+ "-" +:+ str x.
Lemma chars_split s w : length (chars s) = w → ∃ l, chars s = l ∧ length l = w.
Proof. intros H. by exists (chars s). Qed.
Lemma suffix_chars n seed : length (suffix n seed) = n ∧ forallb is_id_char (suffix n seed) = true.
Proof.
  revert seed. induction n as [|n IH]; intros seed; [done|]. cbn [suffix length forallb]. destruct (IH (xorshift seed)) as [Hl Hf]. rewrite Hl, Hf, andb_true_r. split; [done|].
  assert (forallb (λ i, match ALPHABET !! i with Some c => is_id_char c | None => false end) (seq 0 36) = true) as T by (vm_compute; done).
  rewrite forallb_forall in T. specialize (T (N.to_nat (xorshift seed mod 36))). rewrite in_seq in T.
  pose proof (N.mod_lt (xorshift seed) 36 ltac:(done)) as Hlt. revert T Hlt. generalize (xorshift seed mod 36)%N. intros q T Hlt. specialize (T ltac:(lia)). by destruct (ALPHABET !! _).
Qed.
Lemma parts_of_id (ly lm ld lh li ls x : list ascii) y m d h mi s :
  length ly = 4%nat → length lm = 2%nat → length ld = 2%nat → length lh = 2%nat → length li = 2%nat → length ls = 2%nat → length x = 4%nat →
  Forall (λ c, is_digit c = true) (ly ++ lm ++ ld ++ lh ++ li ++ ls) → forallb is_id_char x = true →
  parse_i64 (str ly) = Some y → parse_i64 (str lm) = Some m → parse_i64 (str ld) = Some d → parse_i64 (str lh) = Some h →
  parse_i64 (str li) = Some mi → parse_i64 (str ls) = Some s →
  let id := ly ++ lm ++ ld ++ ["-"%char] ++ lh ++ li ++ ls ++ ["-"%char] ++ x in
  length id = 20%nat ∧ tail_ok id = true ∧ marker_time (str (PREFIX ++ id)) = Some (days_from_civil y m d * 86400 + h * 3600 + mi * 60 + s).
Proof.
  intros Ly Lm Ld Lh Li Ls Lx HF Hx Py Pm Pd Ph Pi Ps id.
  destruct ly as [|y1 [|y2 [|y3 [|y4 [|? ?]]]]]; try done. destruct lm as [|m1 [|m2 [|? ?]]]; try done. destruct ld as [|d1 [|d2 [|? ?]]]; try done.
  destruct lh as [|h1 [|h2 [|? ?]]]; try done. destruct li as [|i1 [|i2 [|? ?]]]; try done. destruct ls as [|s1 [|s2 [|? ?]]]; try done.
  destruct x as [|x1 [|x2 [|x3 [|x4 [|? ?]]]]]; try done. cbn [app] in HF.
  repeat match goal with H : Forall _ (_ :: _) |- _ => apply Forall_cons in H as [? ?] end. split_and!; [done| |].
  - unfold id, tail_ok. cbn [app length take drop forallb lookup list_lookup Nat.leb andb]. cbn [forallb] in Hx.
    repeat match goal with H : is_digit _ = true |- _ => rewrite H; clear H end. by rewrite Hx.
  - unfold marker_time, number_at. rewrite !chars_str. unfold id.
    repeat match goal with |- context [String.length (str ?l)] => change (String.length (str l)) with 24%nat end.
    cbn [Nat.leb take drop app PREFIX chars String.list_ascii_of_string Nat.sub].
    by rewrite Py, Pm, Pd, Ph, Pi, Ps.
Qed.
Lemma id_facts y m d h mi s x : 0 ≤ y < 10000 → 0 ≤ m < 100 → 0 ≤ d < 100 → 0 ≤ h < 100 → 0 ≤ mi < 100 → 0 ≤ s < 100 →
  length x = 4%nat → forallb is_id_char x = true →
  let id := chars (id_text y m d h mi s x) in
  length id = 20%nat ∧ tail_ok id = true ∧ marker_time (str (PREFIX ++ id)) = Some (days_from_civil y m d * 86400 + h * 3600 + mi * 60 + s).
Proof.
  intros Hy Hm Hd Hh Hmi Hs Hx Hxs id. unfold id, id_text. rewrite !chars_app, chars_str.
  destruct (fixed_digits 4 y Hy) as (Fy & Ly & _), (fixed_digits 2 m Hm) as (Fm & Lm & _), (fixed_digits 2 d Hd) as (Fd & Ld & _),
    (fixed_digits 2 h Hh) as (Fh & Lh & _), (fixed_digits 2 mi Hmi) as (Fi & Li & _), (fixed_digits 2 s Hs) as (Fs & Ls & _).
  apply parts_of_id; try done; rewrite ?str_chars; try (by apply parse_fixed; [lia|]). by repeat (apply Forall_app; split).
Qed.

Lemma clock_parts t : 0 ≤ t < 86400 →
  0 ≤ t /ᵗ 3600 < 24 ∧ 0 ≤ t %ᵗ 3600 /ᵗ 60 < 60 ∧ 0 ≤ t %ᵗ 60 < 60 ∧ t /ᵗ 3600 * 3600 + t %ᵗ 3600 /ᵗ 60 * 60 + t %ᵗ 60 = t.
Proof.
  intros Ht. rewrite (Z.quot_div_nonneg t 3600), (Z.rem_mod_nonneg t 3600), (Z.rem_mod_nonneg t 60) by lia.
  pose proof (Z.mod_pos_bound t 3600 ltac:(done)). rewrite Z.quot_div_nonneg by lia. split_and!; Z.to_euclidean_division_equations; lia.
Qed.

(** Through the year 9999, the id of a run is a run marker, whole, and the marker gives the run's start back; so
    the stale cleanup of another run takes for stale exactly what was started before its limit, of a text whose first
    marker is the run's. *)
Theorem run_id_roundtrip secs nanos pid before : 0 ≤ secs < 253402300800 →
  let id := new_run_id secs nanos pid in
  let m := "e2e-" +:+ id in
  run_marker id = Some m ∧ marker_time m = Some secs ∧ ∀ s, find_marker s = Some m → hit (ScopeStale before) s = (secs <? before).
Proof.
  intros Hs id m. pose proof (civil_range (secs / 86400)) as Hr. pose proof (days_civil (secs / 86400)) as Hc. pose proof (Z.mod_pos_bound secs 86400 ltac:(done)) as Ht.
  assert (0 ≤ secs / 86400 ≤ 2932896) as Hdays by (split; [apply Z.div_pos; lia|apply Z.lt_succ_r, Z.div_lt_upper_bound; lia]). specialize (Hr Hdays).
  assert (∃ y mo d h mi sec x, id = id_text y mo d h mi sec x ∧ 0 ≤ y < 10000 ∧ 0 ≤ mo < 100 ∧ 0 ≤ d < 100 ∧ 0 ≤ h < 100 ∧ 0 ≤ mi < 100 ∧ 0 ≤ sec < 100 ∧
    length x = 4%nat ∧ forallb is_id_char x = true ∧ days_from_civil y mo d * 86400 + h * 3600 + mi * 60 + sec = secs) as (y & mo & d & h & mi & sec & x & Eid & Hy & Hm & Hd & Hh & Hmi & Hsec & Hx & Hxs & Etot).
  { unfold id, new_run_id. destruct (civil (secs / 86400)) as [[y mo] d]. destruct Hr as (Hy & Hmo & Hd), Hc as [_ Hc].
    set (t := secs mod 86400) in *. set (seed := N.lxor _ _). destruct (suffix_chars 4 seed) as [Hl Hf].
    assert (0 ≤ t /ᵗ 3600 < 24 ∧ 0 ≤ t %ᵗ 3600 /ᵗ 60 < 60 ∧ 0 ≤ t %ᵗ 60 < 60 ∧ t /ᵗ 3600 * 3600 + t %ᵗ 3600 /ᵗ 60 * 60 + t %ᵗ 60 = t) as (H1 & H2 & H3 & H4).
    { apply clock_parts. unfold t. lia. }
    exists y, mo, d, (t /ᵗ 3600), (t %ᵗ 3600 /ᵗ 60), (t %ᵗ 60), (suffix 4 seed). split.
    - assert (∀ z, 0 ≤ z < 100 → padded 2 z = fixed 2 z) as Hp2 by (intros z Hz; apply padded_fixed; [by right; left|done]).
      unfold id_text. rewrite <- !Hp2 by lia. rewrite <- (padded_fixed 4 y); [done|by do 3 right; left|]. change (10 ^ Z.of_nat 4) with 10000. lia.
    - split_and!; try done; try lia. rewrite Hc. pose proof (Z.div_mod secs 86400 ltac:(done)). fold t in H. lia. }
  destruct (id_facts y mo d h mi sec x) as (Hlen & Hok & Htime); try done. rewrite <- Eid in *. rewrite Etot in Htime.
  assert (m = str (PREFIX ++ chars id)) as Em by (unfold m, PREFIX; by rewrite str_app, !str_chars).
  rewrite <- Em in Htime. split_and!; [|done|].
  - assert (strip_prefix "e2e-" id = None) as En.
    { destruct (strip_prefix "e2e-" id) as [r|] eqn:E; [|done]. apply strip_prefix_Some in E. rewrite E, chars_app in Hok. unfold tail_ok in Hok. rewrite !andb_true_iff in Hok. destruct Hok as (((((_ & Hd8) & _) & _) & _) & _). done. }
    unfold run_marker. rewrite En. cbn [default]. fold m. rewrite bool_decide_eq_true_2; [done|].
    assert (chars m = PREFIX ++ chars id) as Ecm by (rewrite Em; apply chars_str). unfold find_marker. rewrite Ecm. cbn [find_marker_from].
    destruct (find_list PREFIX (PREFIX ++ chars id)) as [[b a]|] eqn:E; [|by destruct (proj1 (find_list_None _ _) E [] (chars id))].
    pose proof (find_list_first _ _ _ _ [] (chars id) E eq_refl) as Hb. pose proof (find_list_Some _ _ _ _ E) as Ea. destruct b; [|cbn in Hb; lia].
    cbn [app] in Ea. apply app_inv_head in Ea as <-. rewrite Hok. rewrite firstn_all2 by (rewrite Hlen; done). by rewrite Em.
  - intros s Hf. cbn [hit]. rewrite Hf. cbn. by rewrite Htime.
Qed.
Lemma run_id_roundtrip_witness :
  let m := "e2e-" +:+ new_run_id 1760506550 123456789 42 in
  marker_time m = Some 1760506550 ∧ hit (ScopeStale (1760506550 + 6 * 3600)) ("/media/tv/." +:+ m) = true ∧ hit (ScopeStale 1760506550) ("/media/tv/." +:+ m) = false.
Proof.
  assert (0 ≤ 1760506550 < 253402300800) as Hs by lia.
  assert (find_marker ("/media/tv/." +:+ ("e2e-" +:+ new_run_id 1760506550 123456789 42)) = Some ("e2e-" +:+ new_run_id 1760506550 123456789 42)) as Hf by (vm_compute; reflexivity).
  destruct (run_id_roundtrip 1760506550 123456789 42 (1760506550 + 6 * 3600) Hs) as (_ & Ht & H1).
  destruct (run_id_roundtrip 1760506550 123456789 42 1760506550 Hs) as (_ & _ & H2).
  split; [exact Ht|]. split; [rewrite (H1 _ Hf)|rewrite (H2 _ Hf)]; reflexivity.
Defined.
