(* ===== verification/E2e.v ===== *)
(** * The end-to-end test runner ([apps/e2e/src/flow.rs], [report.rs], [main.rs])

    Flows are run through their phases, families are swept, and the exit code says whether anything failed.
    A flow's phases and a family's sweeps are any functions of a world [W] (the cluster, its files, the flows'
    shared state), so what is shown holds for every family. The engine keeps a log of what it ran. *)

From Stdlib Require Import Ascii ZArith.
From stdpp Require Import options.
From S2P Require Import Prelude Text Json Calendar Markers.

(** ** Results ([ctx.rs], [report.rs]) *)

Record Fail : Type := mkFail { fail_app : string; fail_step : string; fail_msg : string; fail_skip : bool }.
Notation R A := (Result A Fail).
Record RStep : Type := mkRStep { s_phase : string; s_app : string; s_name : string; s_detail : string; s_ms : N }.
Record Flow : Type := mkFlow {
  f_family : string; f_name : string; f_phase : string; f_steps : list RStep; f_started : N; f_last : N; f_ms : N; f_outcome : option (R ())
}.
(** Instants in nanoseconds. *)
Definition millis (since now : N) : N := (saturating_sub now since / 1000000)%N.
Definition new_flow (now : N) (name : string) : Flow := mkFlow "" name "" [] now now 0 None.
Definition set_family (x : string) (f : Flow) : Flow := mkFlow x (f_name f) (f_phase f) (f_steps f) (f_started f) (f_last f) (f_ms f) (f_outcome f).
Definition set_name (x : string) (f : Flow) : Flow := mkFlow (f_family f) x (f_phase f) (f_steps f) (f_started f) (f_last f) (f_ms f) (f_outcome f).
Definition set_phase (x : string) (f : Flow) : Flow := mkFlow (f_family f) (f_name f) x (f_steps f) (f_started f) (f_last f) (f_ms f) (f_outcome f).
Definition flow_ok (now : N) (app name detail : string) (f : Flow) : Flow :=
  mkFlow (f_family f) (f_name f) (f_phase f) (f_steps f ++ [mkRStep (f_phase f) app name detail (millis (f_last f) now)]) (f_started f) now (f_ms f) (f_outcome f).
Definition finish (now : N) (res : R ()) (f : Flow) : Flow :=
  mkFlow (f_family f) (f_name f) (f_phase f) (f_steps f) (f_started f) (f_last f) (millis (f_started f) now) (Some res).
Definition status (f : Flow) : string :=
  match f_outcome f with
  | Some (Ok _) => "pass"
  | Some (Err e) => if fail_skip e then "skip" else "fail"
  | None => "not-run"
  end.

Definition u64 (n : N) : Value := Number (PosInt (u64_wrap n)).
Definition step_json (s : RStep) : Value :=
  Object [("app", Str (s_app s)); ("detail", Str (s_detail s)); ("ms", u64 (s_ms s)); ("phase", Str (s_phase s)); ("step", Str (s_name s))].
Definition to_json (f : Flow) : Value :=
  let err := match f_outcome f with
             | Some (Err e) => Object [("app", Str (fail_app e)); ("message", Str (fail_msg e)); ("step", Str (fail_step e))]
             | _ => Null
             end in
  Object [("error", err); ("family", Str (f_family f)); ("flow", Str (f_name f)); ("ms", u64 (f_ms f)); ("status", Str (status f));
          ("steps", Array (step_json <$> f_steps f))].
Definition count (s : string) (flows : list Flow) : N := N.of_nat (length (List.filter (λ f, bool_decide (status f = s)) flows)).
Definition document (run kind : string) (flows : list Flow) : Value :=
  Object [("flows", Array (to_json <$> flows)); ("kind", Str kind); ("run", Str run);
          ("summary", Object [("fail", u64 (count "fail" flows)); ("pass", u64 (count "pass" flows)); ("skip", u64 (count "skip" flows))])].
(** [v["key"] = x]: replaces, or adds in key order. *)
Fixpoint put (k : string) (x : Value) (m : list (string * Value)) : list (string * Value) :=
  match m with
  | [] => [(k, x)]
  | (k', y) :: m' => if bool_decide (k = k') then (k, x) :: m' else if String.leb k k' then (k, x) :: m else (k', y) :: put k x m'
  end.
Definition slim_flow (f : Value) : Value := match f with Object m => Object (put "steps" Null m) | v => v end.
Definition slim (doc : Value) : Value :=
  match doc with
  | Object m => Object (put "flows" (match doc.["flows"] with Array l => Array (slim_flow <$> l) | v => v end) m)
  | v => v
  end.
Definition LIMIT : N := 900000.
Definition report_text `{SerdeJson} (doc : Value) : string :=
  let text := to_string doc in
  if (LIMIT <? N.of_nat (String.length text))%N then to_string (slim doc) else text.
Definition configmap `{SerdeJson} (now : Z) (ns name : string) (doc : Value) : Value :=
  let failed := (0 <? default 0 (value_as_u64 (doc.["summary"].["fail"])))%N in
  Object [("apiVersion", Str "v1");
          ("data", Object [("finished", Str (rfc3339 now)); ("kind", Str (default "" (as_str (doc.["kind"])))); ("report.json", Str (report_text doc));
                           ("result", Str (if failed then "fail" else "pass")); ("run", Str (default "" (as_str (doc.["run"]))));
                           ("summary", Str (to_string (doc.["summary"])))]);
          ("kind", Str "ConfigMap");
          ("metadata", Object [("labels", Object [("app.kubernetes.io/name", Str "e2e-report")]); ("name", Str name); ("namespace", Str ns)])].
(** The manifest given to [kubectl apply], if any; the run's result never depends on it. *)
Definition save `{SerdeJson} (env : string → option string) (now : Z) (doc : Value) : option Value :=
  v ← env "E2E_REPORT_CONFIGMAP"; '(ns, name) ← split_once "/" v; Some (configmap now ns name doc).

(** ** Flows and families ([flow.rs]) *)

Inductive Tier : Type := Offline | Full.
#[export] Instance Tier_eq_dec : EqDecision Tier.
Proof. solve_decision. Defined.
Record Ctx : Type := mkCtx { c_run : string; c_marker : string; c_full : bool }.
Definition new_ctx (run : string) (full : bool) : Ctx := mkCtx run ("e2e-" +:+ run) full.

Class Machine (W : Type) : Type := {
  instant : W → N;
  (** nanoseconds since the epoch *)
  epoch : W → N;
  pid : W → N;
}.
Definition unix_now `{Machine W} (w : W) : Z := Z.of_N (epoch w / 1000000000).
Definition fresh_id `{Machine W} (w : W) : string := new_run_id (unix_now w) (epoch w) (pid w).

Section engine.
Context {W : Type} `{Machine W, SerdeJson}.

Definition Step : Type := Ctx → W → Flow → W * Flow * R ().
Definition Sweep : Type := Ctx → Scope → bool → W → W * Flow.
Record FlowDef : Type := mkDef {
  d_family : string; d_name : string; d_tier : Tier; d_about : string; d_setup : option Step; d_act : Step; d_assert : option Step; d_cleanup : option Step
}.
Definition id (d : FlowDef) : string := d_family d +:+ "/" +:+ d_name d.
Definition matches (d : FlowDef) (sel : string) : bool := bool_decide (sel = d_name d) || bool_decide (sel = id d).
Record Family : Type := mkFamily {
  fam_name : string; fam_about : string; fam_runner : string; fam_flows : list FlowDef; fam_cleanup : option Sweep; fam_residue : option Sweep; fam_finalize : option Sweep
}.
(** A family-wide pass. *)
Inductive Pass : Type := Cleanup | Residue | Finalize.
(** What was run, and what it gave. *)
Inductive Event : Type :=
  | Ran (flow phase : string) (res : R ())
  | Swept (family : string) (p : Pass) (sc : Scope) (dry : bool) (f : Flow).
Definition World : Type := W * list Event.

Definition run_phase (ctx : Ctx) (d : FlowDef) (phase : string) (step : Step) (w : World) (f : Flow) : World * Flow * R () :=
  let '(w', f', r) := step ctx w.1 (set_phase phase f) in ((w', w.2 ++ [Ran (id d) phase r]), f', r).
Definition next_phase (ctx : Ctx) (d : FlowDef) (st : World * Flow * R ()) (ps : string * option Step) : World * Flow * R () :=
  match st.2, ps.2 with
  | Ok _, Some step => run_phase ctx d ps.1 step st.1.1 st.1.2
  | _, _ => st
  end.
Definition phase_list (d : FlowDef) : list (string * option Step) := [("setup", d_setup d); ("act", Some (d_act d)); ("assert", d_assert d)].
Definition skips (res : R ()) : bool := match res with Err e => fail_skip e | Ok _ => false end.
Definition cleaned (now : N) (clean res : R ()) (f : Flow) : Flow * R () :=
  match clean, res with
  | Ok _, _ => (f, res)
  | Err e, Ok _ => (f, Err (mkFail (fail_app e) ("cleanup: " +:+ fail_step e) (fail_msg e) false))
  | Err e, Err _ => (flow_ok now (fail_app e) "cleanup also failed" (fail_msg e) f, res)
  end.
Definition run_def (ctx : Ctx) (d : FlowDef) (w : World) : World * Flow :=
  let f := set_family (d_family d) (new_flow (instant w.1) (d_name d)) in
  let '(w, f, res) := foldl (next_phase ctx d) (w, f, Ok ()) (phase_list d) in
  let '(w, f, res) :=
    match d_cleanup d, skips res with
    | Some clean, false =>
        let '(w, f, r) := run_phase ctx d "cleanup" clean w f in
        let '(f, res) := cleaned (instant w.1) r res f in (w, f, res)
    | _, _ => (w, f, res)
    end in
  (w, finish (instant w.1) res f).

(** The flows to run, or the name nobody has. *)
Definition select (all : list FlowDef) (families only : list string) (full : bool) : Result (list FlowDef) string :=
  match List.find (λ fam, negb (existsb (λ d, bool_decide (d_family d = fam)) all)) families with
  | Some fam => Err ("unknown family " +:+ fam)
  | None =>
      match List.find (λ sel, negb (existsb (λ d, matches d sel) all)) only with
      | Some sel => Err ("unknown flow " +:+ sel)
      | None =>
          let in_family := List.filter (λ d, bool_decide (families = []) || bool_decide (d_family d ∈ families)) all in
          Ok (if bool_decide (only = []) then List.filter (λ d, full || bool_decide (d_tier d = Offline)) in_family
              else List.filter (λ d, existsb (matches d) only) in_family)
      end
  end.

(** ** The program ([main.rs]) *)

Definition sweep_of (p : Pass) (fam : Family) : option Sweep :=
  match p with Cleanup => fam_cleanup fam | Residue => fam_residue fam | Finalize => fam_finalize fam end.
Definition sweep (ctx : Ctx) (p : Pass) (sc : Scope) (dry : bool) (name : Flow → Flow) (st : World * list Flow) (fam : Family) : World * list Flow :=
  match sweep_of p fam with
  | None => st
  | Some s =>
      let '(w, f) := s ctx sc dry st.1.1 in
      let f := name (set_family (fam_name fam) f) in
      ((w, st.1.2 ++ [Swept (fam_name fam) p sc dry f]), st.2 ++ [f])
  end.
Definition sweeps (ctx : Ctx) (fams : list Family) (sc : Scope) (dry : bool) (st : World * list Flow) : World * list Flow :=
  foldl (λ st p, foldl (sweep ctx p sc dry (λ f, f)) st fams) st (if dry then [Cleanup; Finalize] else [Cleanup; Residue; Finalize]).
Definition run_one (ctx : Ctx) (st : World * list Flow) (d : FlowDef) : World * list Flow :=
  let '(w, f) := run_def ctx d st.1 in (w, st.2 ++ [f]).
Definition STALE_SECS : Z := 6 * 3600.
(** Leftovers of old runs, the selected flows, then this run's own. *)
Definition run_suite (ctx : Ctx) (used : list Family) (selected : list FlowDef) (keep : bool) (w : World) : World * list Flow :=
  let stale := ScopeStale (unix_now w.1 - STALE_SECS) in
  let st := foldl (sweep ctx Cleanup stale false (set_name "stale cleanup")) (w, []) used in
  let st := foldl (run_one ctx) st selected in
  if keep then st else sweeps ctx used (ScopeRun (c_marker ctx)) false st.

Definition failed (flows : list Flow) : bool := existsb (λ f, bool_decide (status f = "fail")) flows.

(** *** The command line and the environment *)

Context (env : string → option string).
Fixpoint arg (args : list string) (flag : string) : option string :=
  match args with
  | [] => None
  | a :: rest => if bool_decide (a = flag) then head rest else arg rest flag
  end.
Definition flag (args : list string) (name envvar : string) : bool :=
  bool_decide (name ∈ args) || match env envvar with Some v => bool_decide (v = "1") || bool_decide (v = "true") | None => false end.
Definition names_of (text : string) : list string := List.filter (λ x, negb (bool_decide (x = ""))) (trim <$> split_char "," text).
Definition list_arg (args : list string) (names : list string) (envvar : string) : list string :=
  match head (omap (arg args) names) with
  | Some s => names_of s
  | None => from_option names_of [] (env envvar)
  end.
Definition nonempty_env (name : string) : option string := v ← env name; if bool_decide (v = "") then None else Some v.
(** The end of the program: exit code, and what was run before. *)
(** [x_saved]: the ConfigMap the report is kept in. *)
Record Exit : Type := mkExit { x_world : World; x_success : bool; x_flows : list Flow; x_saved : option Value }.
Definition quit (success : bool) (w : World) : Exit := mkExit w success [] None.

Definition cleanup_scope (args : list string) : option (string * Scope) :=
  match arg args "--run", bool_decide ("--all" ∈ args) with
  | Some r, _ => m ← run_marker r; Some (r, ScopeRun m)
  | None, true => Some ("all", ScopeAll)
  | None, false => None
  end.
Definition chosen (fams : list Family) (names : list string) : list Family :=
  List.filter (λ f, bool_decide (names = []) || bool_decide (fam_name f ∈ names)) fams.
Definition cleanup_main (fams : list Family) (want args : list string) (dry : bool) (w : World) : Exit :=
  match cleanup_scope args with
  | None => quit false w
  | Some (run, sc) =>
      let ctx := new_ctx (trim_start_str "e2e-" run) false in
      let '(w, flows) := sweeps ctx (chosen fams want) sc dry (w, []) in mkExit w (negb (failed flows)) flows None
  end.
(** The flows of the other runners, whose job a flow they own is. *)
Definition foreign (all : list Family) (runner : string) : list FlowDef :=
  List.concat (fam_flows <$> List.filter (λ f, negb (bool_decide (fam_runner f = runner))) all).
Definition run_main (all fams : list Family) (want args : list string) (full : bool) (w : World) : Exit :=
  let run := default (fresh_id w.1) (nonempty_env "E2E_RUN_ID") in
  match run_marker run with
  | None => quit false w
  | Some _ =>
      let ctx := new_ctx (trim_start_str "e2e-" run) full in
      let defs := List.concat (fam_flows <$> fams) in
      let asked := list_arg args ["--flow"; "--flows"] "E2E_FLOWS" in
      let only := match nonempty_env "E2E_RUNNER" with
                  | Some runner => List.filter (λ s, negb (existsb (λ d, matches d s) (foreign all runner))) asked
                  | None => asked
                  end in
      if bool_decide (asked ≠ []) && bool_decide (only = []) then quit true w
      else
        match select defs want only full with
        | Err _ => quit false w
        | Ok selected =>
            let used := List.filter (λ f, existsb (λ d, bool_decide (d_family d = fam_name f)) selected) fams in
            let '(w, flows) := run_suite ctx (chosen fams (fam_name <$> used)) selected (flag args "--keep" "E2E_KEEP") w in
            mkExit w (negb (failed flows)) flows (save env (unix_now w.1) (document (c_run ctx) (if full then "full" else "offline") flows))
        end
  end.
(** The helper the tests run in pods ([pod.rs]). *)
Context (pod_main : list string → W → W * bool).
Definition main (all : list Family) (argv : list string) (w : World) : Exit :=
  let args := if bool_decide (argv = []) then split_whitespace (default "run" (env "E2E_ARGS")) else argv in
  if bool_decide (head args = Some "__pod") then let '(w', ok) := pod_main (tail args) w.1 in quit ok (w', w.2)
  else
    let full := flag args "--full" "E2E_FULL" in
    let dry := flag args "--dry-run" "E2E_DRY_RUN" in
    let want := list_arg args ["--family"; "--families"] "E2E_FAMILY" in
    if existsb (λ x, negb (existsb (λ f, bool_decide (fam_name f = x)) all)) want then quit false w
    else
      let fams := match nonempty_env "E2E_RUNNER" with Some r => List.filter (λ f, bool_decide (fam_runner f = r)) all | None => all end in
      let want' := List.filter (λ x, existsb (λ f, bool_decide (fam_name f = x)) fams) want in
      if bool_decide (want ≠ []) && bool_decide (want' = []) then quit true w
      else
        match head args with
        | Some "list" => quit true w
        | Some "cleanup" => cleanup_main fams want' args dry w
        | Some "run" => run_main all fams want' args full w
        | _ => quit false w
        end.
End engine.

(** ** One flow *)

Section flow_spec.
Context {W : Type} `{Machine W, SerdeJson}.
#[local] Set Default Proof Using "Type*".
Implicit Types (w : World (W := W)) (d : FlowDef (W := W)) (f : Flow).

Definition ran_as d (pr : string * R ()) : Event := Ran (id d) pr.1 pr.2.
Definition present (l : list (string * option (Step (W := W)))) : list string := omap (λ ps, (λ _, ps.1) <$> ps.2) l.
Definition last_result (rs : list (string * R ())) : R () := default (Ok ()) (snd <$> last rs).
(** The phases that ran: all of them, or those up to the first that failed. *)
Definition ran_up_to (rs : list (string * R ())) (phases : list string) : Prop :=
  rs.*1 `prefix_of` phases ∧ (∀ l1 p r x l2, rs = l1 ++ (p, r) :: x :: l2 → r = Ok ()) ∧ (last_result rs = Ok () → rs.*1 = phases).

Lemma phases_stopped ctx d l w f e : foldl (next_phase ctx d) (w, f, Err e) l = (w, f, Err e).
Proof. induction l as [|[p s] l IH]; cbn; [done|]. exact IH. Qed.
Lemma phases_run ctx d l w f :
  ∃ rs w' f', foldl (next_phase ctx d) (w, f, Ok ()) l = (w', f', last_result rs) ∧ w'.2 = w.2 ++ (ran_as d <$> rs) ∧ ran_up_to rs (present l).
Proof.
  revert w f. induction l as [|[p [s|]] l IH]; intros w f.
  - exists [], w, f. cbn. rewrite app_nil_r. split_and!; [done|done|]. split_and!; [done| |done]. by intros [] *.
  - cbn [foldl next_phase fst snd]. unfold run_phase. destruct (s ctx w.1 (set_phase p f)) as [[w1 f1] [[]|e]]; cbn beta iota.
    + destruct (IH (w1, w.2 ++ [Ran (id d) p (Ok ())]) f1) as (rs & w' & f' & E & El & (x & Ep) & Hok & Hall). exists ((p, Ok ()) :: rs), w', f'.
      assert (last_result ((p, Ok ()) :: rs) = last_result rs) as Hl by (unfold last_result; by destruct rs). rewrite Hl. split_and!; [exact E| |].
      * rewrite El. cbn. by rewrite <- app_assoc.
      * unfold ran_up_to. rewrite Hl. split_and!.
        -- exists x. change (p :: present l = p :: (rs.*1 ++ x)). by rewrite Ep.
        -- intros [|y l1] p' r x' l2; [by intros [= _ <- _]|]. intros [= _ E']. by apply (Hok l1 p' r x' l2).
        -- intros Hr. change (p :: rs.*1 = p :: present l). f_equal. by apply Hall.
    + exists [(p, Err e)], (w1, w.2 ++ [Ran (id d) p (Err e)]), f1. rewrite phases_stopped. split_and!; [done|done|]. split_and!.
      * cbn. by eexists.
      * intros [|y [|z l1]] *; by intros [= ].
      * done.
  - destruct (IH w f) as (rs & w' & f' & E & El & Hr). by exists rs, w', f'.
Qed.

(** The result of a flow whose phases end with [res], and whose cleanup, if it ran, with [clean]. *)
Definition verdict (res : R ()) (clean : option (R ())) : R () :=
  match clean, res with
  | Some (Err e), Ok _ => Err (mkFail (fail_app e) ("cleanup: " +:+ fail_step e) (fail_msg e) false)
  | _, _ => res
  end.
Lemma run_def_ran ctx d w :
  ∃ rs clean, (run_def ctx d w).1.2 = w.2 ++ (ran_as d <$> rs) ++ from_option (λ r, [Ran (id d) "cleanup" r]) [] clean ∧
    ran_up_to rs (present (phase_list d)) ∧ (is_Some clean ↔ is_Some (d_cleanup d) ∧ skips (last_result rs) = false) ∧
    f_outcome (run_def ctx d w).2 = Some (verdict (last_result rs) clean).
Proof.
  unfold run_def. set (f0 := set_family _ _). destruct (phases_run ctx d (phase_list d) w f0) as (rs & w1 & f1 & -> & El & Hr).
  destruct (d_cleanup d) as [c|].
  - destruct (skips (last_result rs)) eqn:Es; cbn [fst snd].
    + exists rs, None. split; [by rewrite El, app_nil_r|]. split; [done|]. split; [|done]. split; [by intros []|intros [_ E]; congruence].
    + unfold run_phase. destruct (c ctx w1.1 (set_phase "cleanup" f1)) as [[w2 f2] r]. destruct (cleaned (instant w2) r (last_result rs) f2) as [f3 res] eqn:Ec.
      exists rs, (Some r). cbn. rewrite Ec. cbn. split; [by rewrite El, <- app_assoc|]. split; [done|]. split; [by split|].
      f_equal. revert Ec. unfold cleaned, verdict. destruct r as [|e], (last_result rs); by intros [= _ <-].
  - exists rs, None. cbn. split; [by rewrite El, app_nil_r|]. split; [done|]. split; [|done]. by split; [intros []|intros [[] ?]].
Qed.

(** ** Whole runs *)

(** Events that fail a run. *)
Definition bad (e : Event) : bool :=
  match e with
  | Ran _ phase (Err e) => negb (fail_skip e) || bool_decide (phase = "cleanup")
  | Ran _ _ (Ok _) => false
  | Swept _ _ _ _ f => bool_decide (status f = "fail")
  end.
(** A flow's events: its phases up to the first failure, and its cleanup unless it was skipped. *)
Definition flow_ran d (l : list Event) : Prop :=
  ∃ rs clean, l = (ran_as d <$> rs) ++ from_option (λ r, [Ran (id d) "cleanup" r]) [] clean ∧
    ran_up_to rs (present (phase_list d)) ∧ (is_Some clean ↔ is_Some (d_cleanup d) ∧ skips (last_result rs) = false).
(** One pass over the families that have it, in their order. *)
Definition passed (p : Pass) (sc : Scope) (dry : bool) (fams : list (Family (W := W))) (l : list Event) : Prop :=
  Forall2 (λ fam e, ∃ f, e = Swept (fam_name fam) p sc dry f) (List.filter (λ fam, bool_decide (is_Some (sweep_of p fam))) fams) l.
Definition swept_all (sc : Scope) (dry : bool) (fams : list (Family (W := W))) (l : list Event) : Prop :=
  ∃ a b c, l = a ++ b ++ c ∧ passed Cleanup sc dry fams a ∧ (if dry then b = [] else passed Residue sc dry fams b) ∧ passed Finalize sc dry fams c.
Definition flows_ran (ds : list (FlowDef (W := W))) (l : list Event) : Prop := ∃ ls, l = concat ls ∧ Forall2 flow_ran ds ls.

(** A piece of a run: what it adds to the log and to the report, which agree about failures. *)
Definition added (K : list Event → Prop) (st st' : World (W := W) * list Flow) : Prop :=
  ∃ l fs, st'.1.2 = st.1.2 ++ l ∧ st'.2 = st.2 ++ fs ∧ failed fs = existsb bad l ∧ K l.
Lemma added_mono (K K' : list Event → Prop) a b : added K a b → (∀ l, K l → K' l) → added K' a b.
Proof. intros (l & fs & El & Ef & Hb & HK) HKK. exists l, fs. split_and!; [done|done|done|by apply HKK]. Qed.
Lemma added_trans (K K' : list Event → Prop) a b c : added K a b → added K' b c → added (λ l, ∃ l1 l2, l = l1 ++ l2 ∧ K l1 ∧ K' l2) a c.
Proof.
  intros (l & fs & El & Ef & Hb & HK) (l' & fs' & El' & Ef' & Hb' & HK'). exists (l ++ l'), (fs ++ fs'). split_and!.
  - by rewrite El', El, app_assoc.
  - by rewrite Ef', Ef, app_assoc.
  - unfold failed in *. by rewrite !existsb_app, Hb, Hb'.
  - by exists l, l'.
Qed.
Lemma added_nil (K : list Event → Prop) a : K [] → added K a a.
Proof. intros HK. exists [], []. by rewrite !app_nil_r. Qed.

Lemma bad_phase d pr : pr.1 ≠ "cleanup" → bad (ran_as d pr) = match pr.2 with Err e => negb (fail_skip e) | Ok _ => false end.
Proof. destruct pr as [p [u|e]]; cbn; [done|]. intros Hp. by rewrite bool_decide_eq_false_2, orb_false_r. Qed.
Lemma phases_bad d rs : ran_up_to rs (present (phase_list d)) →
  existsb bad (ran_as d <$> rs) = match last_result rs with Err e => negb (fail_skip e) | Ok _ => false end.
Proof.
  intros ([x Ep] & Hok & _). assert (∀ pr, pr ∈ rs → pr.1 ≠ "cleanup") as Hne.
  { intros pr Hin E. assert ("cleanup" ∈ present (phase_list d)) as Hc by (rewrite Ep, <- E; apply elem_of_app; left; by apply list_elem_of_fmap_2).
    unfold present in Hc. apply list_elem_of_omap in Hc as ([p s] & Hin' & Es). destruct s; [|done]. injection Es as ->. unfold phase_list in Hin'. set_solver. }
  clear Ep. destruct rs as [|[p r] rs _] using rev_ind; [done|]. unfold last_result. rewrite last_snoc, fmap_app, existsb_app. cbn [fmap list_fmap existsb option_fmap option_map from_option snd].
  change (existsb bad (ran_as d <$> rs) || (bad (ran_as d (p, r)) || false) = match r with Err e => negb (fail_skip e) | Ok _ => false end).
  rewrite bad_phase by (apply Hne; set_solver). assert (existsb bad (ran_as d <$> rs) = false) as ->; [|by rewrite orb_false_r].
  apply not_true_is_false. intros (e & (pr & -> & Hin)%list_elem_of_fmap & Hb)%existsb_elem. rewrite bad_phase in Hb by (apply Hne; set_solver).
  apply list_elem_of_split in Hin as (l1 & l2 & ->). destruct pr as [q rq]. destruct l2 as [|y l2].
  - rewrite (Hok l1 q rq (p, r) []) in Hb; [done|by rewrite <- app_assoc].
  - rewrite (Hok l1 q rq y (l2 ++ [(p, r)])) in Hb; [done|by rewrite <- app_assoc].
Qed.
Lemma run_one_added ctx d st : added (flow_ran d) st (run_one ctx st d).
Proof.
  unfold run_one. destruct (run_def_ran ctx d st.1) as (rs & clean & El & Hr & Hc & Ho). destruct (run_def ctx d st.1) as [w f]. cbn [fst snd] in *.
  exists ((ran_as d <$> rs) ++ from_option (λ r, [Ran (id d) "cleanup" r]) [] clean), [f]. split_and!; [done|done| |by exists rs, clean].
  rewrite existsb_app, (phases_bad d rs) by done. cbn. unfold status. rewrite Ho. unfold verdict. destruct clean as [[u|e]|]; cbn.
  - rewrite !orb_false_r. destruct (last_result rs); cbn; [done|]. by destruct (fail_skip e).
  - destruct Hc as [Hc _]. destruct Hc as [_ Hs]; [done|]. rewrite orb_true_r, orb_true_l, orb_true_r, orb_false_r. destruct (last_result rs); cbn in *; [done|]. by rewrite Hs.
  - rewrite !orb_false_r. destruct (last_result rs); cbn; [done|]. by destruct (fail_skip e).
Qed.
Lemma runs_added ctx ds st : added (flows_ran ds) st (foldl (run_one ctx) st ds).
Proof.
  revert st. induction ds as [|d ds IH]; intros st; [apply added_nil; by exists []|]. cbn.
  eapply added_mono; [eapply added_trans; [apply run_one_added|apply IH]|]. intros l (l1 & l2 & -> & H1' & ls & -> & H2'). exists (l1 :: ls). split; [done|by constructor].
Qed.
Lemma pass_added ctx p sc dry name fams st : added (passed p sc dry fams) st (foldl (sweep ctx p sc dry name) st fams).
Proof.
  revert st. induction fams as [|fam fams IH]; intros st; [apply added_nil; constructor|]. cbn.
  assert (added (passed p sc dry [fam]) st (sweep ctx p sc dry name st fam)) as Ha.
  { unfold sweep, passed. cbn. destruct (sweep_of p fam) as [s|]; [|rewrite bool_decide_eq_false_2 by (by intros []); by apply added_nil].
    rewrite bool_decide_eq_true_2 by done. destruct (s ctx sc dry st.1.1) as [w f]. eexists [_], [_]. split_and!; [done|done|done|]. constructor; [by eexists|constructor]. }
  eapply added_mono; [eapply added_trans; [exact Ha|apply IH]|]. intros l (l1 & l2 & -> & H1' & H2'). unfold passed in *. cbn in *.
  case_bool_decide; [|by apply Forall2_nil_inv_l in H1' as ->]. apply Forall2_cons_inv_l in H1' as (e & l' & He & ->%Forall2_nil_inv_l & ->). by constructor.
Qed.
Lemma sweeps_added ctx fams sc dry st : added (swept_all sc dry fams) st (sweeps ctx fams sc dry st).
Proof.
  unfold sweeps. destruct dry; cbn [foldl].
  - eapply added_mono; [eapply added_trans; [apply pass_added|apply pass_added]|]. intros l (a & c & -> & Ha & Hc). by exists a, [], c.
  - eapply added_mono; [eapply added_trans; [eapply added_trans; [apply pass_added|apply pass_added]|apply pass_added]|].
    intros l (ab & c & -> & (a & b & -> & Ha & Hb) & Hc). exists a, b, c. by rewrite <- app_assoc.
Qed.
Lemma suite_added (ctx : Ctx) (used : list (Family (W := W))) (selected : list (FlowDef (W := W))) (keep : bool) w :
  added (λ l : list Event, ∃ stale ran last, l = stale ++ ran ++ last ∧ passed Cleanup (ScopeStale (unix_now w.1 - STALE_SECS)) false used stale ∧ flows_ran selected ran ∧
    if keep then last = [] else swept_all (ScopeRun (c_marker ctx)) false used last) (w, []) (run_suite ctx used selected keep w).
Proof.
  unfold run_suite. cbn zeta. pose proof (pass_added ctx Cleanup (ScopeStale (unix_now w.1 - STALE_SECS)) false (set_name "stale cleanup") used (w, [])) as H1'.
  set (st1 := foldl _ (w, []) used) in *. pose proof (runs_added ctx selected st1) as H2'. set (st2 := foldl _ st1 selected) in *. destruct keep.
  - eapply added_mono; [exact (added_trans _ _ _ _ _ H1' H2')|]. intros l (a & b & -> & Ha & Hb). exists a, b, []. by rewrite app_nil_r.
  - pose proof (sweeps_added ctx used (ScopeRun (c_marker ctx)) false st2) as H3'.
    eapply added_mono; [exact (added_trans _ _ _ _ _ (added_trans _ _ _ _ _ H1' H2') H3')|].
    intros l (ab & c & -> & (a & b & -> & Ha & Hb) & Hc). exists a, b, c. by rewrite <- app_assoc.
Qed.
End flow_spec.

(** ** The program *)

Section program_spec.
Context {W : Type} `{Machine W, SerdeJson} (env : string → option string) (pod_main : list string → W → W * bool).
#[local] Set Default Proof Using "Type*".
Implicit Types (all : list (Family (W := W))) (w : World (W := W)).

Definition args_of (argv : list string) : list string := if bool_decide (argv = []) then split_whitespace (default "run" (env "E2E_ARGS")) else argv.
(** What the program did: nothing; the cleanup it was asked for; or a run, with its marker. *)
Definition cleaned_up (args : list string) (l : list Event) : Prop :=
  ∃ run sc fams, cleanup_scope args = Some (run, sc) ∧ swept_all (W := W) sc (flag env args "--dry-run" "E2E_DRY_RUN") fams l.
Definition ran_suite (args : list string) w (l : list Event) : Prop :=
  ∃ m fams selected stale ran last, find_marker m = Some m ∧ l = stale ++ ran ++ last ∧
    passed (W := W) Cleanup (ScopeStale (unix_now w.1 - STALE_SECS)) false fams stale ∧ flows_ran (W := W) selected ran ∧
    if flag env args "--keep" "E2E_KEEP" then last = [] else swept_all (ScopeRun m) false fams last.
Definition did (args : list string) w (l : list Event) (x : Exit (W := W)) : Prop :=
  (x_world x).2 = w.2 ++ l ∧
  (l = [] ∧ x_flows x = [] ∨
   (x_success x = negb (existsb bad l) ∧
    (head args = Some "cleanup" ∧ cleaned_up args l ∨ head args = Some "run" ∧ ran_suite args w l))).
Lemma did_quit args b w : did args w [] (quit b w).
Proof. split; [by rewrite app_nil_r|]. by left. Qed.
Lemma cleanup_did fams want args w : head args = Some "cleanup" → ∃ l, did args w l (cleanup_main fams want args (flag env args "--dry-run" "E2E_DRY_RUN") w).
Proof.
  intros Hh. unfold cleanup_main. destruct (cleanup_scope args) as [[run sc]|] eqn:Es; [|eexists; by apply did_quit]. cbn zeta. set (ctx := new_ctx _ _). set (dry := flag _ _ _ _).
  pose proof (sweeps_added ctx (chosen fams want) sc dry (w, [])) as (l & fs & El & Ef & Hb & HK). destruct (sweeps _ _ _ _ _) as [w' flows]. cbn in El, Ef. subst flows.
  exists l. split; [done|]. right. cbn. split; [by rewrite Hb|]. left. split; [done|]. by exists run, sc, (chosen fams want).
Qed.
Lemma run_did all fams want args full w : head args = Some "run" → ∃ l, did args w l (run_main env all fams want args full w).
Proof.
  intros Hh. unfold run_main. cbn zeta. destruct (run_marker _) as [m|] eqn:Em; [|eexists; by apply did_quit]. apply run_marker_whole in Em as [Hm Et].
  destruct (_ && _); [eexists; by apply did_quit|]. destruct (select _ _ _ _) as [selected|]; [|eexists; by apply did_quit].
  set (ctx := new_ctx _ _). set (used := chosen _ _). set (keep := flag _ _ _ _).
  pose proof (suite_added ctx used selected keep w) as (l & fs & El & Ef & Hb & a & b & c & -> & Ha & Hr & Hc). destruct (run_suite _ _ _ _ _) as [w' flows]. cbn in El, Ef. subst flows.
  exists (a ++ b ++ c). split; [done|]. right. cbn [x_success]. split; [by rewrite Hb|]. right. split; [done|]. exists m, used, selected, a, b, c. split_and!; try done.
  assert (c_marker ctx = m) as <- by exact Et. done.
Qed.
Lemma main_did all argv w : head (args_of argv) ≠ Some "__pod" → ∃ l, did (args_of argv) w l (main env pod_main all argv w).
Proof.
  intros Hh. unfold main. cbn zeta. fold (args_of argv). rewrite (bool_decide_eq_false_2 (head _ = _)) by done. destruct (existsb _ _); [eexists; by apply did_quit|].
  destruct (_ && _); [eexists; by apply did_quit|]. destruct (head (args_of argv)) as [a|] eqn:Ea; [|eexists; by apply did_quit].
  destruct (decide (a = "list")) as [->|]; [eexists; by apply did_quit|]. destruct (decide (a = "cleanup")) as [->|]; [by apply cleanup_did|].
  destruct (decide (a = "run")) as [->|]; [by apply run_did|]. exists [].
  repeat (case_match; simplify_eq; try by apply did_quit).
Qed.
(** Whatever the flows and sweeps do, a run is: the sweep of what old runs left, the selected flows in order, and
    unless it keeps its data the cleanup, residue and final passes over its own marker; a cleanup is those passes
    over the scope it was asked for. Each flow runs its phases up to the first failure, and its cleanup unless it
    was skipped. The program succeeds exactly when nothing it ran failed; where it refuses, it runs nothing. *)
Theorem run_in_order all argv w : head (args_of argv) ≠ Some "__pod" →
  let x := main env pod_main all argv w in
  ∃ l, (x_world x).2 = w.2 ++ l ∧
    (l = [] ∧ x_flows x = [] ∨
     (x_success x = true ↔ ∀ e, e ∈ l → bad e = false) ∧
     (head (args_of argv) = Some "cleanup" ∧ cleaned_up (args_of argv) l ∨ head (args_of argv) = Some "run" ∧ ran_suite (args_of argv) w l)).
Proof.
  intros Hh. destruct (main_did all argv w Hh) as (l & El & Hl). exists l. split; [done|]. destruct Hl as [Hl|[Hs Hd]]; [by left|right]. split; [|done].
  rewrite Hs, negb_true_iff. split.
  - intros Hb e. by apply existsb_false_elem.
  - intros Hb. apply not_true_is_false. intros (e & He & He')%existsb_elem. by rewrite Hb in He'.
Qed.

Lemma passed_swept p sc dry fams l e : passed (W := W) p sc dry fams l → e ∈ l → ∃ fam f, e = Swept fam p sc dry f.
Proof. intros Hp He. apply list_elem_of_lookup in He as [i Hi]. eapply Forall2_lookup_r in Hp as (fam & _ & f & ->); [|exact Hi]. by eexists _, _. Qed.
Lemma swept_all_in sc dry fams l fam p sc' dry' f : swept_all (W := W) sc dry fams l → Swept fam p sc' dry' f ∈ l → sc' = sc ∧ dry' = dry ∧ (p = Residue → dry = false).
Proof.
  intros (a & b & c & -> & Ha & Hb & Hc) [Hin|[Hin|Hin]%elem_of_app]%elem_of_app.
  - destruct (passed_swept _ _ _ _ _ _ Ha Hin) as (? & ? & [=]). by subst.
  - destruct dry; [subst b; by apply not_elem_of_nil in Hin|]. destruct (passed_swept _ _ _ _ _ _ Hb Hin) as (? & ? & [=]). by subst.
  - destruct (passed_swept _ _ _ _ _ _ Hc Hin) as (? & ? & [=]). by subst.
Qed.
Lemma flows_ran_ran ds l fam p sc dry f : flows_ran (W := W) ds l → Swept fam p sc dry f ∉ l.
Proof.
  intros (ls & -> & Hf) Hin. apply list_elem_of_In, in_concat in Hin as (l & Hl & Hin). apply list_elem_of_In in Hl, Hin. apply list_elem_of_lookup in Hl as [i Hi].
  destruct (Forall2_lookup_r _ _ _ _ _ Hf Hi) as (d & _ & rs & clean & E & _). rewrite E in Hin. apply elem_of_app in Hin as [Hin|Hin].
  - by apply list_elem_of_fmap in Hin as (? & [=] & _).
  - destruct clean; cbn in Hin; [|by apply not_elem_of_nil in Hin]. by apply list_elem_of_singleton in Hin.
Qed.

(** Every sweep is for a whole run marker, for runs that started six hours ago or earlier (in a run, and only to clean
    up), or for all markers when that was asked for and no run was named: no argument and no environment widens a
    cleanup. A dry cleanup is dry in every pass and checks no residue. *)
Theorem scopes_gated all argv w : head (args_of argv) ≠ Some "__pod" →
  let x := main env pod_main all argv w in
  ∃ l, (x_world x).2 = w.2 ++ l ∧ ∀ fam p sc dry f, Swept fam p sc dry f ∈ l →
    (dry = true → head (args_of argv) = Some "cleanup" ∧ flag env (args_of argv) "--dry-run" "E2E_DRY_RUN" = true ∧ p ≠ Residue) ∧
    (head (args_of argv) = Some "cleanup" → dry = flag env (args_of argv) "--dry-run" "E2E_DRY_RUN") ∧
    match sc with
    | ScopeRun m => find_marker m = Some m
    | ScopeStale before => head (args_of argv) = Some "run" ∧ p = Cleanup ∧ before = (unix_now w.1 - 21600)%Z
    | ScopeAll => head (args_of argv) = Some "cleanup" ∧ "--all" ∈ args_of argv ∧ arg (args_of argv) "--run" = None
    end.
Proof.
  intros Hh. destruct (main_did all argv w Hh) as (l & El & Hl). exists l. split; [done|]. intros fam p sc dry f Hin.
  destruct Hl as [[-> _]|[_ [[Hc (run & sc0 & fams & Es & Hs)]|[Hr (m & fams & selected & a & b & c & Hm & -> & Ha & Hb & Hk)]]]]; [by apply not_elem_of_nil in Hin| |].
  - destruct (swept_all_in _ _ _ _ _ _ _ _ _ Hs Hin) as (-> & -> & Hp). split_and!; [|done|].
    + intros Hd. split_and!; [done|done|]. intros E. specialize (Hp E). congruence.
    + unfold cleanup_scope in Es. destruct (arg (args_of argv) "--run") as [r|].
      * destruct (run_marker r) as [m|] eqn:Em; [|done]. injection Es as _ <-. by apply run_marker_whole in Em as [].
      * case_bool_decide; [|done]. by injection Es as _ <-.
  - apply elem_of_app in Hin as [Hin|[Hin|Hin]%elem_of_app].
    + destruct (passed_swept _ _ _ _ _ _ Ha Hin) as (? & ? & [=]). subst. split_and!; [done|by rewrite Hr|done|done|done].
    + by destruct (flows_ran_ran _ _ _ _ _ _ _ Hb Hin).
    + destruct (flag env (args_of argv) "--keep" "E2E_KEEP"); [subst c; by apply not_elem_of_nil in Hin|].
      destruct (swept_all_in _ _ _ _ _ _ _ _ _ Hk Hin) as (-> & -> & _). split_and!; [done|by rewrite Hr|done].
Qed.
End program_spec.

(** ** The report *)

Lemma count_fail flows : (0 <? count "fail" flows)%N = failed flows.
Proof.
  unfold count, failed. induction flows as [|f flows IH]; cbn; [done|]. case_bool_decide; cbn; [apply N.ltb_lt; lia|]. exact IH.
Qed.
(** The ConfigMap a run's report is kept in says fail exactly when a flow failed, and its document, even when it is cut
    to fit, has the summary and every flow in order, with its name, family, status, time and error. *)
Theorem report_verdicts `{SerdeJson} now ns name run kind flows : (N.of_nat (length flows) < 2 ^ 64)%N →
  let doc := document run kind flows in
  let data := (configmap now ns name doc).["data"] in
  data.["result"] = Str (if failed flows then "fail" else "pass") ∧ data.["run"] = Str run ∧ data.["kind"] = Str kind ∧
  ∃ v, data.["report.json"] = Str (to_string v) ∧ ((N.of_nat (String.length (to_string doc)) ≤ LIMIT)%N → v = doc) ∧
    v.["run"] = Str run ∧ v.["summary"] = doc.["summary"] ∧
    ∀ i f, flows !! i = Some f → ∃ u, (as_array (v.["flows"]) ≫= λ l, l !! i) = Some u ∧
      ∀ k, k ∈ ["family"; "flow"; "status"; "ms"; "error"] → u.[k] = (to_json f).[k].
Proof.
  intros Hlen doc data. split_and!; [|done|done|].
  - unfold data, configmap, doc, document, u64. cbn -[count u64_wrap failed]. assert (u64_wrap (count "fail" flows) = count "fail" flows) as ->; [|rewrite <- (count_fail flows); reflexivity].
    apply N.mod_small. eapply N.le_lt_trans; [|exact Hlen]. unfold count. clear. induction flows as [|f flows IH]; cbn; [lia|]. case_bool_decide; cbn; lia.
  - unfold data, configmap, report_text. destruct (N.ltb_spec LIMIT (N.of_nat (String.length (to_string doc)))) as [Hl|Hl].
    + exists (slim doc). split_and!; [done|intros ?; lia|done|done|]. intros i f Hi. exists (slim_flow (to_json f)). split.
      * change ((slim_flow <$> (to_json <$> flows)) !! i = Some (slim_flow (to_json f))). by rewrite !list_lookup_fmap, Hi.
      * intros k Hk. unfold to_json. cbn -[status]. set_solver.
    + exists doc. split_and!; try done. intros i f Hi. exists (to_json f). split; [|done]. change ((to_json <$> flows) !! i = Some (to_json f)). by rewrite list_lookup_fmap, Hi.
Qed.

(** ** A run of the engine *)

Module Reference.
(** A world that remembers what was done to it; a tick of a second per action. *)
Definition W : Type := list string.
#[export] Instance machine : Machine W :=
  {| instant w := (N.of_nat (length w) * 1000000000)%N; epoch w := ((1760506550 + N.of_nat (length w)) * 1000000000)%N; pid _ := 42%N |}.
Definition mark : Step (W := W) := λ _ w f, (w ++ [f_phase f], f, Ok ()).
Definition boom : Step (W := W) := λ _ w f, (w ++ ["boom"], f, Err (mkFail "t" "boom" "failed" false)).
Definition no_creds : Step (W := W) := λ _ w f, (w, f, Err (mkFail "t" "creds" "none" true)).
Definition sweeper (name : string) (res : R ()) : Sweep (W := W) :=
  λ _ sc dry w, (w ++ [name], finish (instant w) res (new_flow (instant w) name)).
Definition a : FlowDef (W := W) := mkDef "fam" "a" Offline "" (Some mark) mark (Some mark) (Some mark).
Definition b : FlowDef (W := W) := mkDef "fam" "b" Full "" None boom (Some mark) (Some mark).
Definition c : FlowDef (W := W) := mkDef "other" "c" Offline "" None no_creds None (Some boom).
Definition fam : Family (W := W) :=
  mkFamily "fam" "" "media" [a; b] (Some (sweeper "cleanup" (Ok ()))) (Some (sweeper "residue" (Ok ()))) (Some (sweeper "sessions" (Ok ()))).
Definition other : Family (W := W) := mkFamily "other" "" "cluster" [c] (Some (sweeper "other" (Ok ()))) None None.
Definition env (name : string) : option string := if String.eqb name "E2E_RUN_ID" then Some "20261011-031200-ab12" else None.
Definition runs (argv : list string) : Exit (W := W) := main (H0 := Json.Reference.serde) env (λ _ w, (w, true)) [fam; other] argv ([], []).
End Reference.
#[local] Existing Instance Reference.machine.

Example flows_and_sweeps :
  let x := Reference.runs ["run"] in
  (x_world x).1 = ["cleanup"; "other"; "setup"; "act"; "assert"; "cleanup"; "cleanup"; "other"; "residue"; "sessions"] ∧ x_success x = true ∧
  status <$> x_flows x = ["pass"; "pass"; "pass"; "skip"; "pass"; "pass"; "pass"; "pass"].
Proof. vm_compute. done. Qed.
Example selections :
  let names all fams only full := match select all fams only full with Ok l => Some (d_name <$> l) | Err _ => None end in
  let all := [Reference.a; Reference.b; Reference.c] in
  names all [] [] false = Some ["a"; "c"] ∧ names all [] [] true = Some ["a"; "b"; "c"] ∧ names all ["other"] [] true = Some ["c"] ∧
  names all [] ["b"] false = Some ["b"] ∧ names all [] ["other/c"] false = Some ["c"] ∧ names all ["nope"] [] false = None ∧ names all [] ["nope"] false = None.
Proof. vm_compute. done. Qed.
Example refusals :
  (Reference.runs ["cleanup"]).(x_success) = false ∧ (Reference.runs ["cleanup"; "--run"; "2026"]).(x_success) = false ∧
  (Reference.runs ["cleanup"; "--run"; "--all"]).(x_success) = false ∧ (x_world (Reference.runs ["cleanup"; "--run"; "--all"])).2 = [] ∧
  (x_world (Reference.runs ["cleanup"; "--all"; "--dry-run"])).1 = ["cleanup"; "other"; "sessions"] ∧
  (Reference.runs ["run"; "--flow"; "b"]).(x_success) = false ∧ (x_world (Reference.runs ["run"; "--flow"; "b"; "--keep"])).1 = ["cleanup"; "boom"; "cleanup"].
Proof. vm_compute. done. Qed.

Lemma run_in_order_witness :
  ∃ l, (x_world (Reference.runs ["run"])).2 = l ∧ length l = 11 ∧ (∀ e, e ∈ l → bad e = false) ∧ ran_suite (W := Reference.W) Reference.env ["run"] ([], []) l.
Proof.
  assert (head (args_of Reference.env ["run"]) ≠ Some "__pod") as Hh by done.
  destruct (run_in_order (H0 := Json.Reference.serde) Reference.env (λ _ w, (w, true)) [Reference.fam; Reference.other] ["run"] ([], []) Hh) as (l & El & Hl).
  assert (length (x_world (Reference.runs ["run"])).2 = 11) as Hn by (vm_compute; reflexivity). assert (x_success (Reference.runs ["run"]) = true) as Hs by (vm_compute; reflexivity).
  change ((x_world (Reference.runs ["run"])).2 = l) in El. exists l. split; [exact El|]. rewrite El in Hn. split; [exact Hn|].
  destruct Hl as [[-> _]|[Hb [[[=] _]|[_ Hr]]]]; [discriminate Hn|]. split; [apply Hb; exact Hs|exact Hr].
Defined.
Lemma scopes_gated_witness :
  ∃ l fam f, (x_world (Reference.runs ["cleanup"; "--all"; "--dry-run"])).2 = l ∧ Swept fam Finalize ScopeAll true f ∈ l ∧ arg ["cleanup"; "--all"; "--dry-run"] "--run" = None.
Proof.
  set (argv := ["cleanup"; "--all"; "--dry-run"]). assert (head (args_of Reference.env argv) ≠ Some "__pod") as Hh by done.
  destruct (scopes_gated (H0 := Json.Reference.serde) Reference.env (λ _ w, (w, true)) [Reference.fam; Reference.other] argv ([], []) Hh) as (l & El & Hl).
  change ((x_world (Reference.runs argv)).2 = l) in El.
  assert (∃ f, (x_world (Reference.runs argv)).2 !! 2%nat = Some (Swept "fam" Finalize ScopeAll true f)) as [f Hf] by (eexists; vm_compute; reflexivity).
  rewrite El in Hf. apply list_elem_of_lookup_2 in Hf. exists l, "fam", f. split; [exact El|]. split; [exact Hf|]. destruct (Hl _ _ _ _ _ Hf) as (_ & _ & _ & _ & Ha). exact Ha.
Defined.
Lemma report_verdicts_witness :
  let flows := x_flows (Reference.runs ["run"; "--full"]) in
  failed flows = true ∧ (configmap (H := Json.Reference.serde) 0 "e2e" "last" (document "r" "full" flows)).["data"].["result"] = Str "fail".
Proof.
  set (flows := x_flows (Reference.runs ["run"; "--full"])). assert (N.of_nat (length flows) < 2 ^ 64)%N as Hl by (vm_compute; reflexivity).
  assert (failed flows = true) as Hf by (vm_compute; reflexivity). destruct (report_verdicts (H := Json.Reference.serde) 0 "e2e" "last" "r" "full" flows Hl) as (Hr & _).
  split; [exact Hf|]. rewrite Hf in Hr. exact Hr.
Defined.
