(* ===== verification/Trace.v ===== *)
(** * Programs that talk to the outside

    A sequential program of the actions of [Threads.Prog], with a state and errors of its own ([M]), run against an
    outside whose every answer may depend on all that has happened ([exec]). [okay] is the judgement that a
    program only does what [ok] allows at that point of the log, and [exec_okay] that its runs then do; [fine] also
    says what its errors may tell. *)

From stdpp Require Import options.
From S2P Require Import Prelude Threads.

Section trace.
Context {Act : Type} (Ans : Act → Type).
#[local] Set Default Proof Using "Type".

Record Event : Type := mkEvent { e_act : Act; e_ans : Ans e_act }.
Notation Log := (list Event).
Implicit Types (l : Log).

(** ** Runs *)

Section run.
Context (outside : Log → ∀ x : Act, Ans x).
Fixpoint exec {E A} (p : Prog Ans E A) (l : Log) : Log * Result A E :=
  match p with
  | Ret a => (l, Ok a)
  | Throw e => (l, Err e)
  | Do x k => let r := outside l x in exec (k r) (l ++ [mkEvent x r])
  end.
End run.

Lemma exec_grows {E A} outside (p : Prog Ans E A) l : ∃ k, (exec outside p l).1 = l ++ k.
Proof.
  revert l. induction p as [a|f|x k IH]; intros l; cbn; [exists []; by rewrite app_nil_r|exists []; by rewrite app_nil_r|].
  destruct (IH (outside l x) (l ++ [mkEvent x (outside l x)])) as [k' ->]. exists (mkEvent x (outside l x) :: k'). by rewrite <- app_assoc.
Qed.
(** The log is what the outside answered. *)
Lemma exec_answers {E A} outside (p : Prog Ans E A) l k1 e k2 : (exec outside p l).1 = l ++ k1 ++ e :: k2 → e_ans e = outside (l ++ k1) (e_act e).
Proof.
  revert l k1. induction p as [a|f|x k IH]; intros l k1; cbn.
  - intros E'. rewrite <- (app_nil_r l) in E' at 1. apply app_inv_head in E'. by destruct k1.
  - intros E'. rewrite <- (app_nil_r l) in E' at 1. apply app_inv_head in E'. by destruct k1.
  - set (r := outside l x). destruct k1 as [|y k1]; intros E'.
    + destruct (exec_grows outside (k r) (l ++ [mkEvent x r])) as [k' Ek]. rewrite Ek, <- app_assoc in E'.
      apply app_inv_head in E' as [= <- _]. cbn. by rewrite app_nil_r.
    + assert (y = mkEvent x r) as ->.
      { destruct (exec_grows outside (k r) (l ++ [mkEvent x r])) as [k' Ek]. rewrite Ek, <- app_assoc in E'. by apply app_inv_head in E' as [= <- _]. }
      change (l ++ (mkEvent x r :: k1) ++ e :: k2) with (l ++ [mkEvent x r] ++ k1 ++ e :: k2) in E'. rewrite app_assoc in E'.
      rewrite (IH r _ _ E'). by rewrite <- app_assoc.
Qed.

Context (ok : Log → Act → Prop).
(** Every action is allowed, and [Q] holds at the end, whatever the answers. *)
Fixpoint holds {E A} (Q : Result A E → Log → Prop) (p : Prog Ans E A) (l : Log) : Prop :=
  match p with
  | Ret a => Q (Ok a) l
  | Throw e => Q (Err e) l
  | Do x k => ok l x ∧ ∀ r, holds Q (k r) (l ++ [mkEvent x r])
  end.
Lemma holds_mono {E A} (Q Q' : Result A E → Log → Prop) p l : holds Q p l → (∀ r l', l `prefix_of` l' → Q r l' → Q' r l') → holds Q' p l.
Proof.
  revert l. induction p as [a|e|x k IH]; intros l; cbn; [intros H HQ; by apply HQ|intros H HQ; by apply HQ|].
  intros [Hx H] HQ. split; [done|]. intros r. eapply IH; [apply H|]. intros r' l' Hl. apply HQ. etrans; [|exact Hl]. by eexists.
Qed.
Lemma holds_bind {E A B} (Q : Result B E → Log → Prop) (p : Prog Ans E A) (f : A → Prog Ans E B) l :
  holds (λ r l', match r with Ok a => holds Q (f a) l' | Err e => Q (Err e) l' end) p l → holds Q (p ≫= f) l.
Proof.
  revert l. induction p as [a|e|x k IH]; intros l; cbn; [done|done|]. intros [Hx H]. split; [done|]. intros r. by apply IH.
Qed.
Lemma exec_holds {E A} outside (Q : Result A E → Log → Prop) p l : holds Q p l →
  Q (exec outside p l).2 (exec outside p l).1 ∧
  ∃ k, (exec outside p l).1 = l ++ k ∧ ∀ k1 e k2, k = k1 ++ e :: k2 → ok (l ++ k1) (e_act e).
Proof.
  revert l. induction p as [a|e|x k IH]; intros l; cbn.
  - intros H. split; [done|]. exists []. rewrite app_nil_r. split; [done|]. by intros [].
  - intros H. split; [done|]. exists []. rewrite app_nil_r. split; [done|]. by intros [].
  - intros [Hx H]. set (r := outside l x). destruct (IH r (l ++ [mkEvent x r]) (H r)) as [HQ (ks & El & Hk)]. split; [done|].
    exists (mkEvent x r :: ks). rewrite El, <- app_assoc. split; [done|]. intros [|y k1] e k2; cbn; [intros [= <- ->]; by rewrite app_nil_r|].
    intros [= <- E']. specialize (Hk _ _ _ E'). by rewrite <- app_assoc in Hk.
Qed.

(** ** Programs with a state and errors *)

Section monad.
Context {St Fa : Type}.
Definition M (A : Type) : Type := St → Prog Ans Empty_set (St * Result A Fa).
#[export] Instance M_ret : MRet M := λ A a s, Ret (s, Ok a).
#[export] Instance M_bind : MBind M := λ A B f m s,
  '(s, r) ← (m s : Prog Ans Empty_set (St * Result A Fa)); match r with Ok a => f a s | Err e => Ret (s, Err e) end.
Definition do (x : Act) : M (Ans x) := λ s, r ← act Ans x; Ret (s, Ok r).
Definition raise {A} (e : Fa) : M A := λ s, Ret (s, Err e).
Definition get : M St := λ s, Ret (s, Ok s).
Definition modify (f : St → St) : M () := λ s, Ret (f s, Ok ()).
(** The outcome of a program, without the [?]. *)
Definition catch {A} (m : M A) : M (Result A Fa) := λ s, '(s, r) ← m s; Ret (s, Ok r).
Fixpoint for_each {A} (xs : list A) (f : A → M ()) : M () :=
  match xs with [] => mret () | x :: xs => f x ≫= λ _, for_each xs f end.

Definition okay {A} (m : M A) (Q : A → Log → Prop) (l : Log) : Prop :=
  ∀ s, holds (λ r l', l `prefix_of` l' ∧ match r with Ok (_, Ok a) => Q a l' | _ => True end) (m s) l.
Lemma okay_mono {A} (m : M A) (Q Q' : A → Log → Prop) l : okay m Q l → (∀ a l', l `prefix_of` l' → Q a l' → Q' a l') → okay m Q' l.
Proof.
  intros H HQ s. eapply holds_mono; [apply H|]. intros [[s' [a|e]]|[]] l' Hl [_ HQa]; split; try done. by apply HQ.
Qed.
Lemma okay_ret {A} (a : A) (Q : A → Log → Prop) l : Q a l → okay (mret a) Q l.
Proof. by intros H s. Qed.
Lemma okay_raise {A} e (Q : A → Log → Prop) l : okay (raise e) Q l.
Proof. by intros s. Qed.
Lemma okay_get (Q : St → Log → Prop) l : (∀ s, Q s l) → okay get Q l.
Proof. by intros H s. Qed.
Lemma okay_modify f (Q : () → Log → Prop) l : Q () l → okay (modify f) Q l.
Proof. by intros H s. Qed.
Lemma okay_do x (Q : Ans x → Log → Prop) l : ok l x → (∀ r, Q r (l ++ [mkEvent x r])) → okay (do x) Q l.
Proof. intros Hx HQ s. split; [done|]. intros r. split; [by eexists|apply HQ]. Qed.
Lemma okay_bind {A B} (m : M A) (f : A → M B) (Q : B → Log → Prop) l : okay m (λ a l', okay (f a) Q l') l → okay (m ≫= f) Q l.
Proof.
  intros H s. apply (holds_bind _ (m s)). eapply holds_mono; [apply H|]. intros [[s' [a|e]]|[]] l' Hl [_ Hf]; [|done].
  eapply holds_mono; [apply Hf|]. intros r l'' Hl' [_ HQ]. split; [by etrans|done].
Qed.
Lemma okay_catch {A} (m : M A) (Q : A → Log → Prop) (Q' : Result A Fa → Log → Prop) l : okay m Q l →
  (∀ r l', l `prefix_of` l' → (∀ a, r = Ok a → Q a l') → Q' r l') → okay (catch m) Q' l.
Proof.
  intros H HQ s. apply (holds_bind _ (m s)). eapply holds_mono; [apply H|]. intros [[s' r]|[]] l' Hl [_ Hr]. split; [done|]. apply HQ; [done|].
  by intros a ->.
Qed.
Lemma okay_for_each {A} (xs : list A) (f : A → M ()) (Q : () → Log → Prop) l :
  (∀ x l', x ∈ xs → l `prefix_of` l' → okay (f x) (λ _ _, True) l') → (∀ l', l `prefix_of` l' → Q () l') → okay (for_each xs f) Q l.
Proof.
  revert l. induction xs as [|x xs IH]; intros l Hf HQ; cbn; [by apply okay_ret, HQ|]. apply okay_bind.
  eapply okay_mono; [apply Hf; [by left|done]|]. intros [] l' Hl _. apply IH.
  - intros y l'' Hy Hl'. apply Hf; [by right|by etrans].
  - intros l'' Hl'. apply HQ. by etrans.
Qed.
Lemma okay_then {A B} (m : M A) (f : A → M B) (F : A → Log → Prop) (Q : B → Log → Prop) l :
  okay m F l → (∀ a l', l `prefix_of` l' → F a l' → okay (f a) Q l') → okay (m ≫= f) Q l.
Proof. intros Hm Hf. apply okay_bind. eapply okay_mono; [exact Hm|]. exact Hf. Qed.
Lemma catch_any {A} (m : M A) (F : A → Log → Prop) l : okay m F l → okay (catch m) (λ r l', match r with Ok a => F a l' | Err _ => True end) l.
Proof. intros Hm. eapply okay_catch; [exact Hm|]. intros [a|e] l' _ Hr; [by apply Hr|done]. Qed.
Lemma exec_seq {E A B} outside (p : Prog Ans E A) (f : A → Prog Ans E B) l :
  exec outside (p ≫= f) l = match exec outside p l with (l', Ok a) => exec outside (f a) l' | (l', Err e) => (l', Err e) end.
Proof. revert l. induction p as [a|e|x k IH]; intros l; cbn; [done|done|apply IH]. Qed.
Lemma exec_bind {A B} outside (m : M A) (f : A → M B) s l :
  exec outside ((m ≫= f) s) l =
    match exec outside (m s) l with (l', Ok (s', Ok a)) => exec outside (f a s') l' | (l', Ok (s', Err e)) => (l', Ok (s', Err e)) | (l', Err e) => (l', Err e) end.
Proof.
  unfold mbind at 1, M_bind. etrans; [exact (exec_seq outside (m s) _ l)|]. destruct (exec outside (m s) l) as [l' [[s' [a|e]]|e]]; done.
Qed.
(** What a run did. *)
Lemma exec_okay {A} outside (m : M A) (Q : A → Log → Prop) s l : okay m Q l →
  ∃ k, (exec outside (m s) l).1 = l ++ k ∧ ∀ k1 e k2, k = k1 ++ e :: k2 → ok (l ++ k1) (e_act e).
Proof. intros H. destruct (exec_holds outside _ _ _ (H s)) as [_ Hk]. exact Hk. Qed.
End monad.

(** ** Programs whose errors are constrained too *)

Section fine.
Context {St Fa : Type} (tells : Fa → Log → Prop).
Definition fine {A} (m : M (St := St) (Fa := Fa) A) (Q : A → Log → Prop) (l : Log) : Prop :=
  ∀ s, holds (λ r l', l `prefix_of` l' ∧ match r with Ok (_, Ok a) => Q a l' | Ok (_, Err e) => tells e l' | Err _ => True end) (m s) l.
Lemma fine_mono {A} (m : M A) (Q Q' : A → Log → Prop) l : fine m Q l → (∀ a l', l `prefix_of` l' → Q a l' → Q' a l') → fine m Q' l.
Proof.
  intros H HQ s. eapply holds_mono; [apply H|]. intros [[s' [a|e]]|[]] l' Hl [_ HQa]; split; try done. by apply HQ.
Qed.
Lemma fine_ret {A} (a : A) (Q : A → Log → Prop) l : Q a l → fine (mret a) Q l.
Proof. by intros H s. Qed.
Lemma fine_raise {A} e (Q : A → Log → Prop) l : tells e l → fine (raise e) Q l.
Proof. by intros He s. Qed.
Lemma fine_do x (Q : Ans x → Log → Prop) l : ok l x → (∀ r, Q r (l ++ [mkEvent x r])) → fine (do x) Q l.
Proof. intros Hx HQ s. split; [done|]. intros r. split; [by eexists|apply HQ]. Qed.
Lemma fine_bind {A B} (m : M A) (f : A → M B) (Q : B → Log → Prop) l : fine m (λ a l', fine (f a) Q l') l → fine (m ≫= f) Q l.
Proof.
  intros H s. apply (holds_bind _ (m s)). eapply holds_mono; [apply H|]. intros [[s' [a|e]]|[]] l' Hl [_ Hf]; [|done].
  eapply holds_mono; [apply Hf|]. intros r l'' Hl' [_ HQ]. split; [by etrans|done].
Qed.
Lemma fine_then {A B} (m : M A) (f : A → M B) (F : A → Log → Prop) (Q : B → Log → Prop) l :
  fine m F l → (∀ a l', l `prefix_of` l' → F a l' → fine (f a) Q l') → fine (m ≫= f) Q l.
Proof. intros Hm Hf. apply fine_bind. eapply fine_mono; [exact Hm|]. exact Hf. Qed.
Lemma fine_catch {A} (m : M A) (F : A → Log → Prop) l : fine m F l → fine (catch m) (λ r l', match r with Ok a => F a l' | Err e => tells e l' end) l.
Proof. intros H s. apply (holds_bind _ (m s)). eapply holds_mono; [apply H|]. intros [[s' [a|e]]|[]] l' Hl [_ Hr]; done. Qed.
Lemma fine_for_each {A} (xs : list A) (f : A → M ()) (Q : () → Log → Prop) l :
  (∀ x l', x ∈ xs → l `prefix_of` l' → fine (f x) (λ _ _, True) l') → (∀ l', l `prefix_of` l' → Q () l') → fine (for_each xs f) Q l.
Proof.
  revert l. induction xs as [|x xs IH]; intros l Hf HQ; cbn; [by apply fine_ret, HQ|]. apply fine_bind.
  eapply fine_mono; [apply Hf; [by left|done]|]. intros [] l' Hl _. apply IH.
  - intros y l'' Hy Hl'. apply Hf; [by right|by etrans].
  - intros l'' Hl'. apply HQ. by etrans.
Qed.
(** What a run did, and said when it failed. *)
Lemma exec_fine {A} outside (m : M A) (Q : A → Log → Prop) s l : fine m Q l →
  (∃ k, (exec outside (m s) l).1 = l ++ k ∧ ∀ k1 e k2, k = k1 ++ e :: k2 → ok (l ++ k1) (e_act e)) ∧
  ∀ s' e, (exec outside (m s) l).2 = Ok (s', Err e) → tells e (exec outside (m s) l).1.
Proof.
  intros H. destruct (exec_holds outside _ _ _ (H s)) as [[_ Hr] Hk]. split; [exact Hk|]. intros s' e E. by rewrite E in Hr.
Qed.
End fine.
End trace.
Arguments Event {_} _.
Arguments mkEvent {_ _} _ _.
Arguments e_act {_ _} _.
Arguments e_ans {_ _} _.

Section only.
Context {Act : Type} {Ans : Act → Type}.
Implicit Types (l : list (Event Ans)).
#[local] Set Default Proof Using "Type".
Lemma holds_weaken {E A} (ok ok' : list (Event Ans) → Act → Prop) (Q : Result A E → list (Event Ans) → Prop) (p : Prog Ans E A) l :
  (∀ l x, ok l x → ok' l x) → holds Ans ok Q p l → holds Ans ok' Q p l.
Proof. intros Hok. revert l. induction p as [a|e|x k IH]; intros l; cbn; [done|done|]. intros [Hx H]. split; [by apply Hok|]. intros r. by apply IH. Qed.
Lemma okay_weaken {St Fa A} (ok ok' : list (Event Ans) → Act → Prop) (m : M Ans (St := St) (Fa := Fa) A) Q l :
  (∀ l x, ok l x → ok' l x) → okay Ans ok m Q l → okay Ans ok' m Q l.
Proof. intros Hok H s. by eapply holds_weaken; [|apply H]. Qed.
(** A program that only does what [P] allows extends the log by such events. *)
Lemma holds_only {E A} (P : Act → Prop) (Q : Result A E → list (Event Ans) → Prop) (p : Prog Ans E A) l :
  holds Ans (λ _, P) Q p l → holds Ans (λ _, P) (λ r l', Q r l' ∧ ∃ k, l' = l ++ k ∧ Forall (λ e : Event Ans, P (e_act e)) k) p l.
Proof.
  revert l. induction p as [a|e|x k IH]; intros l; cbn.
  - intros H. split; [done|]. exists []. by rewrite app_nil_r.
  - intros H. split; [done|]. exists []. by rewrite app_nil_r.
  - intros [Hx H]. split; [done|]. intros r. eapply holds_mono; [by apply IH|]. intros a l' _ [HQ (k' & -> & Hk)]. split; [done|].
    exists (mkEvent x r :: k'). rewrite <- app_assoc. split; [done|]. by constructor.
Qed.
Lemma fine_weaken {St Fa A} (ok ok' : list (Event Ans) → Act → Prop) (tells tells' : Fa → list (Event Ans) → Prop) (m : M Ans (St := St) (Fa := Fa) A) Q l :
  (∀ l x, ok l x → ok' l x) → (∀ e l, tells e l → tells' e l) → fine Ans ok tells m Q l → fine Ans ok' tells' m Q l.
Proof.
  intros Hok He H s. eapply holds_weaken; [exact Hok|]. eapply holds_mono; [apply H|]. intros [[s' [a|e]]|[]] l' Hl [_ HQ]; split; auto.
Qed.
Lemma okay_only {St Fa A} (P : Act → Prop) (m : M Ans (St := St) (Fa := Fa) A) Q l :
  okay Ans (λ _, P) m Q l → okay Ans (λ _, P) m (λ a l', Q a l' ∧ ∃ k, l' = l ++ k ∧ Forall (λ e : Event Ans, P (e_act e)) k) l.
Proof.
  intros H s. eapply holds_mono; [apply holds_only, H|]. intros [[s' [a|e]]|[]] l' _ [[Hl HQ] Hk]; split; try done.
Qed.
End only.
