(* ===== verification/Apps.v ===== *)
(** * Clients of the media apps ([apps/e2e/src/ctx.rs], [apps/e2e/src/media/apps.rs])

    Requests, their failures, secrets, polling, and each app's login and request builder, as programs over an
    outside that may answer anything ([Trace]). Timeouts of single requests and the trace spans are left out;
    what a message quotes is not always quoted the same way. *)

From Stdlib Require Import Ascii.
From stdpp Require Import options.
From S2P Require Import Prelude Text Json Codec Threads Trace Markers E2e.

(** ** Requests *)

Inductive Body : Type := NoBody | JsonBody (v : Value) | FormBody (fields : list (string * string)).
Record Req : Type := mkReq { rq_method : string; rq_url : string; rq_query : list (string * string); rq_headers : list (string * string); rq_body : Body }.
(** The body, or why reading it failed. *)
Record Resp : Type := mkResp { rs_status : N; rs_headers : list (string * string); rs_text : Result string string }.
Record Output : Type := mkOutput { o_success : bool; o_stdout : string; o_stderr : string }.

Inductive Act : Type :=
  | Http (rq : Req)
  | ReadFile (path : string)
  | ReadDir (path : string)
  | RemoveDirAll (path : string)
  | RemoveFile (path : string)
  | Command (program : string) (args : list string)
  | Clock
  | Sleep (ns : N)
  | Connect (addr : string)
  | ReadLine
  | WriteAll (text : string)
  | UnixTime
  | DbConnect (host user password dbname : string)
  | Execute (statement : string) (params : list Value)
  | Query (statement : string) (params : list Value).
(** The entries of a directory are names, and whether each is a directory itself. A line read comes with its end, or is
    empty at the end of the connection; an answer of the connection may be that its time is up. [Clock] is monotonic;
    [UnixTime] is the system's, in seconds, unless it stands before 1970. [Execute] and [Query] run a statement of SQL on
    the connection [DbConnect] made; a query answers rows of columns. *)
Definition Ans (x : Act) : Type :=
  match x with
  | Http _ => Result Resp string
  | ReadFile _ => option string
  | ReadDir _ => option (list (string * bool))
  | RemoveDirAll _ | RemoveFile _ => Result () string
  | Command _ _ => Result Output string
  | Clock => N
  | Sleep _ => ()
  | Connect _ | WriteAll _ => Result () string
  | ReadLine => Result string string
  | UnixTime => option N
  | DbConnect _ _ _ _ | Execute _ _ => Result () string
  | Query _ _ => Result (list (list Value)) string
  end.

(** The part of the HTTP and JSON libraries that is not theirs to say here. *)
Class Libs : Type := { reason : N → string; from_str : string → Result Value string }.

(** [Ctx]'s remembered Jellyfin session, and the report of the pass that is running. *)
Record St : Type := mkSt { st_jellyfin : option (string * string); st_actions : list string; st_errors : list string; st_skipped : list string; st_flow : Flow }.
Notation Task := (M Ans (St := St) (Fa := Fail)).
Definition set_jellyfin (x : option (string * string)) (s : St) : St := mkSt x (st_actions s) (st_errors s) (st_skipped s) (st_flow s).
Definition add_action (x : string) (s : St) : St := mkSt (st_jellyfin s) (st_actions s ++ [x]) (st_errors s) (st_skipped s) (st_flow s).
Definition add_error (x : string) (s : St) : St := mkSt (st_jellyfin s) (st_actions s) (st_errors s ++ [x]) (st_skipped s) (st_flow s).
Definition add_skipped (x : string) (s : St) : St := mkSt (st_jellyfin s) (st_actions s) (st_errors s) (st_skipped s ++ [x]) (st_flow s).
Definition on_flow (f : Flow → Flow) (s : St) : St := mkSt (st_jellyfin s) (st_actions s) (st_errors s) (st_skipped s) (f (st_flow s)).

Definition new_fail (app step msg : string) : Fail := mkFail app step msg false.
Definition skip_fail (app step msg : string) : Fail := mkFail app step msg true.
(** [.at(app, step)] *)
Definition at_ {A} (x : option A) (app step : string) : Task A :=
  match x with Some a => mret a | None => raise Ans (new_fail app step "missing value") end.

Section clients.
Context `{SerdeJson, Libs} (env : string → option string).
Implicit Types (app step path : string).

Definition var (name dflt : string) : string := default dflt (env name).
Definition secret_path (name key : string) : string := var "SECRETS_DIR" "/secrets" +:+ "/" +:+ name +:+ "/" +:+ key.
Definition is_eol (c : ascii) : bool := bool_decide (c = newline) || bool_decide (c = carriage_return).
Definition secret (name key : string) : Task (option string) :=
  t ← do Ans (ReadFile (secret_path name key));
  mret (t ≫= λ s, let s := trim_end_matches is_eol s in if bool_decide (s = "") then None else Some s).
Definition need_secret app name key : Task string :=
  s ← secret name key;
  match s with
  | Some s => mret s
  | None => raise Ans (skip_fail app "credentials" ("secret " +:+ name +:+ "/" +:+ key +:+ " not mounted"))
  end.

Definition status_text (status : N) : string := pretty status +:+ " " +:+ reason status.
Definition is_success (status : N) : bool := (200 <=? status)%N && (status <? 300)%N.
Definition send (rq : Req) app step : Task Resp :=
  r ← do Ans (Http rq);
  match r with
  | Err e => raise Ans (new_fail app step e)
  | Ok r =>
      if is_success (rs_status r) then mret r
      else raise Ans (new_fail app step ("HTTP " +:+ status_text (rs_status r) +:+ ": " +:+ excerpt (match rs_text r with Ok t => t | Err _ => "" end)))
  end.
Definition text_of (r : Resp) app step : Task string :=
  match rs_text r with Ok t => mret t | Err e => raise Ans (new_fail app step e) end.
Definition json_of_text (text : string) app step : Task Value :=
  if bool_decide (trim text = "") then mret Null
  else match from_str text with
       | Ok v => mret v
       | Err e => raise Ans (new_fail app step ("bad JSON (" +:+ e +:+ "): " +:+ excerpt text))
       end.
Definition json (rq : Req) app step : Task Value :=
  r ← send rq app step; text ← text_of r app step; json_of_text text app step.
(** [.await.unwrap_or_default()] *)
Definition json_or_null (rq : Req) app step : Task Value :=
  r ← catch Ans (json rq app step); mret match r with Ok v => v | Err _ => Null end.
Definition send_unit (rq : Req) app step : Task () := _ ← send rq app step; mret ().

(** Times in nanoseconds. Each wait lasts at least [every], so there are at most [timeout / every + 2] rounds. *)
Fixpoint poll_from {A} (fuel : nat) app step (timeout every start : N) (f : Task (option A)) (last : string) : Task A :=
  let late := new_fail app step ("timed out after " +:+ pretty (timeout / 1000000000)%N +:+ "s: " +:+ last) in
  match fuel with
  | O => raise Ans late
  | S fuel =>
      r ← catch Ans f;
      match r with
      | Ok (Some v) => mret v
      | _ =>
          let last := match r with Err e => fail_msg e | Ok _ => last end in
          match r with
          | Err (mkFail _ _ _ true as e) => raise Ans e
          | _ =>
              now ← do Ans Clock;
              if (timeout <? saturating_sub now start)%N then raise Ans (new_fail app step ("timed out after " +:+ pretty (timeout / 1000000000)%N +:+ "s: " +:+ last))
              else _ ← do Ans (Sleep every); poll_from fuel app step timeout every start f last
          end
      end
  end.
Definition poll {A} app step (timeout every : N) (f : Task (option A)) : Task A :=
  start ← do Ans Clock; poll_from (S (S (N.to_nat (timeout / every)))) app step timeout every start f "condition never met".

Definition kubectl (args : list string) : Task string :=
  out ← do Ans (Command "kubectl" ("-n" :: "media" :: args));
  match out with
  | Err e => raise Ans (new_fail "kubectl" (join " " args) e)
  | Ok out =>
      if o_success out then mret (trim (o_stdout out)) else raise Ans (new_fail "kubectl" (join " " args) (trim (o_stderr out)))
  end.

(** ** The apps *)

Definition to_uppercase (s : string) : string := str (to_upper_char <$> chars s).
Definition url (app dflt : string) : string :=
  trim_end_matches (λ c, bool_decide (c = "/"%char)) (var (replace_char "-"%char "_"%char (to_uppercase app) +:+ "_URL") dflt).
Definition bearer (token : string) : string * string := ("authorization", "Bearer " +:+ token).
Definition basic (user pw : string) : string * string := ("authorization", "Basic " +:+ b64 (user +:+ ":" +:+ pw)).
Definition plain (method url : string) : Req := mkReq method url [] [] NoBody.
Definition with_header (h : string * string) (rq : Req) : Req := mkReq (rq_method rq) (rq_url rq) (rq_query rq) (rq_headers rq ++ [h]) (rq_body rq).
Definition with_body (b : Body) (rq : Req) : Req := mkReq (rq_method rq) (rq_url rq) (rq_query rq) (rq_headers rq) b.
Definition with_query (q : list (string * string)) (rq : Req) : Req := mkReq (rq_method rq) (rq_url rq) q (rq_headers rq) (rq_body rq).
Definition user_pw (user pw : string) : Value := Object [("password", Str pw); ("username", Str user)].

(** *** Servarr *)

Record Arr : Type := mkArr { a_app : string; a_base : string; a_key : string; a_api : string }.
Definition arr_new app : Task Arr :=
  let api := if bool_decide (app ∈ ["lidarr"; "prowlarr"; "bookshelf"; "bookshelf-audio"]) then "v1" else "v3" in
  key ← need_secret app (app +:+ "-apikey") "apikey";
  mret (mkArr app (url app ("http://" +:+ app +:+ ".media.svc.cluster.local")) key api).
Definition arr_req (a : Arr) (method path : string) : Req :=
  with_header ("x-api-key", a_key a) (plain method (a_base a +:+ "/api/" +:+ a_api a +:+ path)).
Definition arr_get (a : Arr) path : Task Value := json (arr_req a "GET" path) (a_app a) ("GET " +:+ path).
Definition arr_delete (a : Arr) path : Task () := send_unit (arr_req a "DELETE" path) (a_app a) ("DELETE " +:+ path).

(** *** Jellyfin *)

Record Jellyfin : Type := mkJellyfin { jf_base : string; jf_token : string; jf_user : string; jf_device : string }.
Definition jf_auth (device : string) (token : option string) : string * string :=
  ("x-emby-authorization",
   "MediaBrowser Client=" +:+ quote +:+ "media-e2e" +:+ quote +:+ ", Device=" +:+ quote +:+ "media-e2e" +:+ quote +:+ ", DeviceId=" +:+ quote +:+ device +:+ quote
   +:+ ", Version=" +:+ quote +:+ "1" +:+ quote +:+ from_option (λ t, ", Token=" +:+ quote +:+ t +:+ quote) "" token).
Definition jf_login (ctx : Ctx) : Task Jellyfin :=
  let base := url "jellyfin" "http://jellyfin.media.svc.cluster.local:8096" in
  let device := c_marker ctx in
  s ← get Ans;
  match st_jellyfin s with
  | Some (user, token) => mret (mkJellyfin base token user device)
  | None =>
      pw ← need_secret "jellyfin" "jellyfin-admin" "password";
      r ← json (with_body (JsonBody (Object [("Pw", Str pw); ("Username", Str (var "JELLYFIN_USER" "admin"))]))
                  (with_header (jf_auth device None) (plain "POST" (base +:+ "/Users/AuthenticateByName")))) "jellyfin" "login";
      token ← at_ (as_str (r.["AccessToken"])) "jellyfin" "login token";
      user ← at_ (as_str (r.["User"].["Id"])) "jellyfin" "login user";
      _ ← modify Ans (set_jellyfin (Some (user, token)));
      mret (mkJellyfin base token user device)
  end.
Definition jf_req (j : Jellyfin) (method path : string) : Req :=
  with_header (jf_auth (jf_device j) (Some (jf_token j))) (plain method (jf_base j +:+ path)).
Definition before_query (path : string) : string := default path (fst <$> split_once "?" path).
Definition jf_get (j : Jellyfin) path : Task Value := json (jf_req j "GET" path) "jellyfin" ("GET " +:+ before_query path).
Definition virtual_folders (j : Jellyfin) : Task (list Value) := v ← jf_get j "/Library/VirtualFolders"; mret (default [] (as_array v)).

(** *** qBittorrent *)

Record Qbt : Type := mkQbt { q_base : string; q_sid : string }.
Definition is_visible (c : ascii) : bool := in_range 32 126 c || bool_decide (c = "009"%char).
Definition cookies (r : Resp) : list string :=
  omap (λ nv, if bool_decide (nv.1 = "set-cookie") && forallb is_visible (chars nv.2) then Some nv.2 else None) (rs_headers r).
Definition before_semicolon (c : string) : string := default c (fst <$> split_once ";" c).
Definition qbt_login : Task Qbt :=
  let base := url "qbittorrent" "http://qbittorrent.media.svc.cluster.local:8080" in
  pw ← need_secret "qbittorrent" "qbittorrent-admin" "password";
  r ← do Ans (Http (with_body (FormBody [("username", var "QBITTORRENT_USER" "admin"); ("password", pw)])
                      (with_header ("referer", base) (plain "POST" (base +:+ "/api/v2/auth/login")))));
  match r with
  | Err e => raise Ans (skip_fail "qbittorrent" "login" ("unreachable (scaled to 0 until VPN credentials exist?): " +:+ e))
  | Ok r =>
      match List.find (λ c, starts_with "SID=" c || starts_with "QBT_SID_" c) (cookies r) with
      | Some c => mret (mkQbt base (before_semicolon c))
      | None => raise Ans (new_fail "qbittorrent" "login" ("HTTP " +:+ status_text (rs_status r) +:+ ": no SID cookie (wrong password?)"))
      end
  end.
Definition qbt_req (q : Qbt) (method path : string) : Req :=
  with_header ("referer", q_base q) (with_header ("cookie", q_sid q) (plain method (q_base q +:+ "/api/v2" +:+ path))).
Definition qbt_post (q : Qbt) path (form : list (string * string)) : Task string :=
  r ← send (with_body (FormBody form) (qbt_req q "POST" path)) "qbittorrent" path; text_of r "qbittorrent" path.
Definition qbt_get (q : Qbt) path : Task Value := json (qbt_req q "GET" path) "qbittorrent" (before_query path).

(** *** Kavita, Komga, Audiobookshelf, Navidrome, Seerr, Ombi *)

Record Kavita : Type := mkKavita { k_base : string; k_token : string; k_api_key : string }.
(** [s.rsplit(p).next()]: what follows the last occurrence. *)
Fixpoint after_last (n : nat) (p : string) (l : list ascii) : list ascii :=
  match n, find_list (chars p) l with S n, Some (_, rest) => after_last n p rest | _, _ => l end.
Definition opds_key (text : string) : string :=
  let url := trim_matches (λ c, bool_decide (c = "034"%char)) (trim text) in
  trim_end_matches (λ c, bool_decide (c = "/"%char)) (str (after_last (String.length url) "api/opds/" (chars url))).
Definition kavita_login : Task Kavita :=
  let base := url "kavita" "http://kavita.media.svc.cluster.local:5000" in
  pw ← need_secret "kavita" "kavita-admin" "password";
  r ← json (with_body (JsonBody (user_pw (var "KAVITA_USER" "admin") pw)) (plain "POST" (base +:+ "/api/Account/login"))) "kavita" "login";
  token ← at_ (as_str (r.["token"])) "kavita" "login token";
  let key := default "" (as_str (r.["apiKey"])) in
  if bool_decide (key = "") then
    r ← send (with_header (bearer token) (plain "GET" (base +:+ "/api/Account/opds-url"))) "kavita" "OPDS URL";
    t ← text_of r "kavita" "OPDS URL";
    mret (mkKavita base token (opds_key t))
  else mret (mkKavita base token key).
Definition kavita_req (k : Kavita) (method path : string) : Req := with_header (bearer (k_token k)) (plain method (k_base k +:+ path)).

Record Komga : Type := mkKomga { ko_base : string; ko_user : string; ko_pw : string }.
Definition komga_new : Task Komga :=
  match env "ADMIN_EMAIL" with
  | None => raise Ans (skip_fail "komga" "credentials" "ADMIN_EMAIL unset")
  | Some user =>
      pw ← need_secret "komga" "komga-admin" "password";
      mret (mkKomga (url "komga" "http://komga.media.svc.cluster.local:25600") user pw)
  end.
Definition komga_req (k : Komga) (method path : string) : Req := with_header (basic (ko_user k) (ko_pw k)) (plain method (ko_base k +:+ path)).

Record Abs : Type := mkAbs { ab_base : string; ab_token : string }.
Definition or_else {A} (x y : option A) : option A := match x with Some _ => x | None => y end.
Definition abs_login : Task Abs :=
  let base := url "audiobookshelf" "http://audiobookshelf.media.svc.cluster.local:13378" in
  pw ← need_secret "audiobookshelf" "audiobookshelf-admin" "password";
  r ← json (with_body (JsonBody (user_pw (var "ABS_USER" "tristan") pw)) (plain "POST" (base +:+ "/login"))) "audiobookshelf" "login";
  token ← at_ (or_else (as_str (r.["user"].["accessToken"])) (as_str (r.["user"].["token"]))) "audiobookshelf" "login token";
  mret (mkAbs base token).
Definition abs_req (a : Abs) (method path : string) : Req := with_header (bearer (ab_token a)) (plain method (ab_base a +:+ path)).

Record Navidrome : Type := mkNavidrome { n_base : string; n_user : string; n_pw : string; n_jwt : string }.
Definition navidrome_login : Task Navidrome :=
  let base := url "navidrome" "http://navidrome.media.svc.cluster.local:4533" in
  let user := var "NAVIDROME_USER" "tristan" in
  pw ← need_secret "navidrome" "navidrome-admin" "password";
  r ← json (with_body (JsonBody (user_pw user pw)) (plain "POST" (base +:+ "/auth/login"))) "navidrome" "login";
  jwt ← at_ (as_str (r.["token"])) "navidrome" "login token";
  mret (mkNavidrome base user pw jwt).
Definition subsonic (app_method : string) (v : Value) : Task Value :=
  let r := v.["subsonic-response"] in
  if value_is_str (r.["status"]) "ok" then mret r else raise Ans (new_fail "navidrome" app_method (to_string (r.["error"]))).
Definition nd_sub (n : Navidrome) (method : string) (params : list (string * string)) : Task Value :=
  let q := [("u", n_user n); ("p", "enc:" +:+ hex (n_pw n)); ("v", "1.16.1"); ("c", "media-e2e"); ("f", "json")] ++ params in
  v ← json (with_query q (plain "GET" (n_base n +:+ "/rest/" +:+ method))) "navidrome" method; subsonic method v.
Definition nd_native (n : Navidrome) (method path : string) : Req := with_header ("x-nd-authorization", "Bearer " +:+ n_jwt n) (plain method (n_base n +:+ path)).

Record Seerr : Type := mkSeerr { s_base : string; s_cookie : string }.
Definition seerr_login : Task Seerr :=
  let base := url "seerr" "http://seerr.media.svc.cluster.local:5055" in
  pw ← need_secret "seerr" "jellyfin-admin" "password";
  r ← send (with_body (JsonBody (user_pw (var "JELLYFIN_USER" "admin") pw)) (plain "POST" (base +:+ "/api/v1/auth/jellyfin"))) "seerr" "login (jellyfin admin)";
  let cookie := join "; " (before_semicolon <$> cookies r) in
  if bool_decide (cookie = "") then raise Ans (new_fail "seerr" "login" "no session cookie") else mret (mkSeerr base cookie).
Definition seerr_req (s : Seerr) (method path : string) : Req := with_header ("cookie", s_cookie s) (plain method (s_base s +:+ "/api/v1" +:+ path)).
(** Three tries; [last] is the failure of the one before. *)
Fixpoint seerr_sessions (tries : nat) (attempt : N) (last : Fail) : Task Seerr :=
  match tries with
  | O => raise Ans last
  | S tries =>
      _ ← (if (0 <? attempt)%N then do Ans (Sleep (3000000000 * attempt)) else mret ());
      s ← seerr_login;
      r ← catch Ans (send (seerr_req s "GET" "/request?take=1&skip=0&filter=all") "seerr" "list requests");
      match r with
      | Ok _ => mret s
      | Err e => if starts_with "HTTP 403" (fail_msg e) then seerr_sessions tries (attempt + 1) e else raise Ans e
      end
  end.
Definition seerr_session : Task Seerr := seerr_sessions 3 0 (new_fail "seerr" "list requests" "").

Record Ombi : Type := mkOmbi { o_base : string; o_key : string; o_admin : string }.
Definition ombi_new : Task Ombi :=
  key ← need_secret "ombi" "ombi-apikey" "apikey";
  mret (mkOmbi (url "ombi" "http://ombi.media.svc.cluster.local:3579") key (var "OMBI_ADMIN_USER" "ombi-admin")).
Definition ombi_req (o : Ombi) (method path : string) : Req :=
  with_header ("username", o_admin o) (with_header ("apikey", o_key o) (plain method (o_base o +:+ "/api/v1" +:+ path))).

Definition maintainerr_url : string := url "maintainerr" "http://maintainerr.media.svc.cluster.local:6246".
Definition maloja_url : string := url "maloja" "http://maloja.media.svc.cluster.local:42010".
Definition maloja_user_url : string := url "maloja_e2e" "http://maloja-e2e.media.svc.cluster.local:42011".
Definition media_root : string := var "MEDIA_ROOT" "/media".
End clients.
