(* ===== verification/Sweep.v ===== *)
(** * Removing test data from the media apps ([apps/e2e/src/media/cleanup.rs], the sweep of [flows_dvdrip.rs])

    Every app is asked for its objects; those that carry a marker in scope are deleted. *)

From Stdlib Require Import Ascii.
From stdpp Require Import options.
From S2P Require Import Prelude Text Json Codec Threads Trace Markers E2e Apps.

Definition LIBS : list string := ["movies"; "tv"; "music"; "books"; "audiobooks"; "comics"; "dvd"; "downloads"; "podcasts"].

Section sweep.
Context `{SerdeJson, Libs} (env : string → option string) (ctx : Ctx) (sc : Scope) (dry : bool).

(** Do [del] unless it is a dry run; what was deleted, or would be, is recorded. *)
Definition act_ (what : string) (del : Task ()) : Task () :=
  if dry then modify Ans (add_action ("would delete " +:+ what))
  else
    r ← catch Ans del;
    match r with
    | Ok _ => modify Ans (add_action ("deleted " +:+ what))
    | Err e => modify Ans (add_error (what +:+ ": " +:+ fail_msg e))
    end.

Definition array_of (v : Value) : list Value := default [] (as_array v).
Definition text_at (v : Value) : string := default "" (as_str v).
Definition tag_ids (tags : Value) : list Z :=
  omap (λ t, value_as_i64 (t.["id"])) (List.filter (λ t, hit_v sc (t.["label"])) (array_of tags)).
Definition tagged (item : Value) (ids : list Z) : bool :=
  existsb (λ x, match value_as_i64 x with Some i => bool_decide (i ∈ ids) | None => false end) (array_of (item.["tags"])).
(** An item of a Servarr app is in scope by its path or by a tag. *)
Definition arr_hit (ids : list Z) (item : Value) : bool := hit_v sc (item.["path"]) || tagged item ids.
Definition item_path (collection : string) (item : Value) : string :=
  collection +:+ "/" +:+ pretty (default 0%Z (value_as_i64 (item.["id"]))) +:+ "?deleteFiles=true&addImportExclusion=false&addImportListExclusion=false".
Definition folder_path (r : Value) : string := "/rootfolder/" +:+ to_string (r.["id"]).
Definition tag_path (id : Z) : string := "/tag/" +:+ pretty id.
Definition sweep_arr (app collection : string) : Task () :=
  a ← arr_new env app;
  tags ← arr_get a "/tag";
  let ids := tag_ids tags in
  items ← arr_get a collection;
  _ ← for_each Ans (array_of items) (λ item,
        if arr_hit ids item then act_ (app +:+ " " +:+ text_at (item.["path"])) (arr_delete a (item_path collection item)) else mret ());
  folders ← arr_get a "/rootfolder";
  _ ← for_each Ans (array_of folders) (λ r,
        if hit_v sc (r.["path"]) then act_ (app +:+ " root folder " +:+ text_at (r.["path"])) (arr_delete a (folder_path r)) else mret ());
  for_each Ans ids (λ id, act_ (app +:+ " tag " +:+ pretty id) (arr_delete a (tag_path id))).

Definition requests_path : string := "/request?take=200&skip=0&filter=all".
Definition request_path (r : Value) : string := "/request/" +:+ to_string (r.["id"]).
Definition media_path (m : Value) : string := "/media/" +:+ to_string (m.["id"]).
Definition details_path (m : Value) : string := "/" +:+ default "movie" (as_str (m.["mediaType"])) +:+ "/" +:+ to_string (m.["tmdbId"]).
(** Nothing is left on a media row, as far as its details say. *)
Definition unrequested (d : Value) : bool :=
  match as_array (d.["mediaInfo"].["requests"]) with Some l => bool_decide (l = []) || dry | None => true end.
Definition sweep_seerr : Task () :=
  s ← seerr_session env;
  reqs ← json (seerr_req s "GET" requests_path) "seerr" "list requests";
  let mine := List.filter (λ r, hit_v sc (r.["rootFolder"])) (array_of (reqs.["results"])) in
  _ ← for_each Ans mine (λ r,
        act_ ("seerr request " +:+ to_string (r.["id"])) (send_unit (seerr_req s "DELETE" (request_path r)) "seerr" "delete request"));
  for_each Ans mine (λ r,
    let m := r.["media"] in
    d ← json_or_null (seerr_req s "GET" (details_path m)) "seerr" "media details";
    if unrequested d then act_ ("seerr media " +:+ to_string (m.["id"])) (send_unit (seerr_req s "DELETE" (media_path m)) "seerr" "delete media") else mret ()).

Definition users_in_scope (users : Value) : list (string * string) :=
  omap (λ u, i ← as_str (u.["id"]); n ← as_str (u.["userName"]); Some (i, n)) (List.filter (λ u, hit_v sc (u.["userName"])) (array_of users)).
Definition by_one_of (mine : list (string * string)) (r : Value) : bool := bool_decide (text_at (r.["requestedUserId"]) ∈ mine.*1).
Definition ombi_request_path (kind : string) (r : Value) : string := "/request/" +:+ kind +:+ "/" +:+ to_string (r.["id"]).
Definition sweep_ombi : Task () :=
  o ← ombi_new env;
  users ← json (ombi_req o "GET" "/Identity/Users") "ombi" "list users";
  let mine := users_in_scope users in
  _ ← for_each Ans ["movie"; "music"] (λ kind,
        reqs ← json (ombi_req o "GET" ("/request/" +:+ kind)) "ombi" "list requests";
        for_each Ans (array_of reqs) (λ r,
          if by_one_of mine r then
            act_ ("ombi " +:+ kind +:+ " request " +:+ to_string (r.["id"])) (send_unit (ombi_req o "DELETE" (ombi_request_path kind r)) "ombi" "delete request")
          else mret ()));
  for_each Ans mine (λ u, act_ ("ombi user " +:+ u.2) (send_unit (ombi_req o "DELETE" ("/Identity/" +:+ u.1)) "ombi" "delete user")).

Definition folder_delete_path (name : string) : string := "/Library/VirtualFolders?name=" +:+ enc name +:+ "&refreshLibrary=true".
Definition boxsets_path : string := "/Items?Recursive=true&IncludeItemTypes=BoxSet".
Definition sweep_jellyfin : Task () :=
  jf ← jf_login env ctx;
  folders ← virtual_folders jf;
  _ ← for_each Ans folders (λ v,
        if hit_v sc (v.["Name"]) then
          act_ ("jellyfin library " +:+ text_at (v.["Name"])) (send_unit (jf_req jf "DELETE" (folder_delete_path (text_at (v.["Name"])))) "jellyfin" "delete library")
        else mret ());
  sets ← jf_get jf boxsets_path;
  for_each Ans (array_of (sets.["Items"])) (λ b,
    if hit_v sc (b.["Name"]) then
      act_ ("jellyfin collection " +:+ to_string (b.["Name"])) (send_unit (jf_req jf "DELETE" ("/Items/" +:+ text_at (b.["Id"]))) "jellyfin" "delete collection")
    else mret ()).

Definition device_path (id : string) : string := "/Devices?id=" +:+ enc id.
Definition own_device (d : Value) : bool := value_is_str (d.["Id"]) (c_marker ctx).
(** An expired session answers 401: it is gone. *)
Definition delete_device (jf : Jellyfin) (id : string) : Task () :=
  r ← catch Ans (send (jf_req jf "DELETE" (device_path id)) "jellyfin" "delete device");
  match r with
  | Ok _ => mret ()
  | Err e => if starts_with "HTTP 401" (fail_msg e) then mret () else raise Ans e
  end.
(** This run's own session always goes. *)
Definition sweep_devices : Task () :=
  jf ← jf_login env ctx;
  devices ← jf_get jf "/Devices";
  for_each Ans (array_of (devices.["Items"])) (λ d,
    if own_device d && dry then
      _ ← send (jf_req jf "DELETE" (device_path (c_marker ctx))) "jellyfin" "revoke own session";
      modify Ans (add_action ("revoked own session " +:+ c_marker ctx))
    else if own_device d || hit_v sc (d.["Id"]) then act_ ("jellyfin device/session " +:+ to_string (d.["Id"])) (delete_device jf (text_at (d.["Id"])))
    else mret ()).

Definition sweep_kavita : Task () :=
  k ← kavita_login env;
  libs ← json (kavita_req k "GET" "/api/Library/libraries") "kavita" "list libraries";
  for_each Ans (array_of libs) (λ l,
    if hit_v sc (l.["name"]) then
      act_ ("kavita library " +:+ to_string (l.["name"]))
        (send_unit (kavita_req k "DELETE" ("/api/Library/delete?libraryId=" +:+ to_string (l.["id"]))) "kavita" "delete library")
    else mret ()).

Definition komga_hit (l : Value) : bool := hit_v sc (l.["name"]) || hit_v sc (l.["root"]).
Definition sweep_komga : Task () :=
  k ← komga_new env;
  libs ← json (komga_req k "GET" "/api/v1/libraries") "komga" "list libraries";
  _ ← for_each Ans (array_of libs) (λ l,
        if komga_hit l then
          act_ ("komga library " +:+ to_string (l.["name"])) (send_unit (komga_req k "DELETE" ("/api/v1/libraries/" +:+ text_at (l.["id"]))) "komga" "delete library")
        else mret ());
  keys ← json (komga_req k "GET" "/api/v2/users/me/api-keys") "komga" "list API keys";
  for_each Ans (array_of keys) (λ x,
    if hit_v sc (x.["comment"]) then
      act_ ("komga API key " +:+ to_string (x.["comment"])) (send_unit (komga_req k "DELETE" ("/api/v2/users/me/api-keys/" +:+ text_at (x.["id"]))) "komga" "delete API key")
    else mret ()).

Definition abs_hit (l : Value) : bool := hit_v sc (l.["name"]) || existsb (λ f, hit_v sc (f.["fullPath"])) (array_of (l.["folders"])).
Definition sweep_abs : Task () :=
  a ← abs_login env;
  libs ← json (abs_req a "GET" "/api/libraries") "audiobookshelf" "list libraries";
  for_each Ans (array_of (libs.["libraries"])) (λ l,
    if abs_hit l then
      act_ ("audiobookshelf library " +:+ to_string (l.["name"])) (send_unit (abs_req a "DELETE" ("/api/libraries/" +:+ text_at (l.["id"]))) "audiobookshelf" "delete library")
    else mret ()).

Definition rules_url : string := maintainerr_url env +:+ "/api/rules".
Definition sweep_maintainerr : Task () :=
  groups ← json (plain "GET" rules_url) "maintainerr" "list rule groups";
  for_each Ans (array_of groups) (λ g,
    if hit_v sc (g.["name"]) then
      act_ ("maintainerr rule group " +:+ to_string (g.["name"])) (send_unit (plain "DELETE" (rules_url +:+ "/" +:+ to_string (g.["id"]))) "maintainerr" "delete rule group")
    else mret ()).

Definition torrent_hit (t : Value) : bool := hit_v sc (t.["tags"]) || hit_v sc (t.["category"]) || hit_v sc (t.["save_path"]).
Definition keys_of (v : Value) : list string := match v with Object m => m.*1 | _ => [] end.
Definition form_unit (q : Qbt) (path : string) (form : list (string * string)) : Task () := _ ← qbt_post q path form; mret ().
Definition sweep_qbittorrent : Task () :=
  q ← qbt_login env;
  torrents ← qbt_get q "/torrents/info";
  _ ← for_each Ans (array_of torrents) (λ t,
        if torrent_hit t then
          act_ ("qbittorrent torrent " +:+ text_at (t.["hash"])) (form_unit q "/torrents/delete" [("hashes", text_at (t.["hash"])); ("deleteFiles", "true")])
        else mret ());
  cats ← qbt_get q "/torrents/categories";
  _ ← for_each Ans (keys_of cats) (λ name,
        if hit sc name then act_ ("qbittorrent category " +:+ name) (form_unit q "/torrents/removeCategories" [("categories", name)]) else mret ());
  tags ← qbt_get q "/torrents/tags";
  for_each Ans (omap as_str (array_of tags)) (λ t,
    if hit sc t then act_ ("qbittorrent tag " +:+ t) (form_unit q "/torrents/deleteTags" [("tags", t)]) else mret ()).

Definition scrobble_hit (s : Value) : bool :=
  hit_v sc (s.["track"].["title"]) || existsb (hit_v sc) (array_of (s.["track"].["artists"])).
Definition scrobbles_url (base : string) : string := base +:+ "/apis/mlj_1/scrobbles?perpage=1000".
Definition unscrobble (base cookie : string) (s : Value) : Req :=
  with_body (JsonBody (Object [("timestamp", s.["time"])])) (with_header ("cookie", cookie) (plain "POST" (base +:+ "/apis/mlj_1/delete_scrobble"))).
Definition sweep_maloja_at (base : string) : Task () :=
  pw ← secret env "maloja-admin" "password";
  match pw with
  | None => raise Ans (skip_fail "maloja" "credentials" "maloja-admin not mounted")
  | Some pw =>
      login ← json (with_body (JsonBody (Object [("password", Str pw); ("user", Str "admin")])) (plain "POST" (base +:+ "/auth/authenticate"))) "maloja" "admin login";
      let cookie := default "maloja_sessiontoken" (as_str (login.["cookie_name"])) +:+ "=" +:+ text_at (login.["token"]) in
      list ← json (plain "GET" (scrobbles_url base)) "maloja" "list scrobbles";
      for_each Ans (array_of (list.["list"])) (λ s,
        if scrobble_hit s then
          act_ ("maloja scrobble at " +:+ to_string (s.["time"])) (send_unit (unscrobble base cookie s) "maloja" "delete scrobble")
        else mret ())
  end.
Definition sweep_maloja : Task () := for_each Ans [maloja_url env; maloja_user_url env] sweep_maloja_at.

(** Top-level entries of the media volumes, by their own names. *)
Definition lib_dir (lib : string) : string := media_root env +:+ "/" +:+ lib.
Definition remove (path : string) (is_dir : bool) : Task (Result () string) :=
  if is_dir then do Ans (RemoveDirAll path) else do Ans (RemoveFile path).
Definition sweep_files : Task () :=
  for_each Ans LIBS (λ lib,
    rd ← do Ans (ReadDir (lib_dir lib));
    for_each Ans (default [] rd) (λ e,
      let path := lib_dir lib +:+ "/" +:+ e.1 in
      if hit sc e.1 then
        if dry then modify Ans (add_action ("would delete " +:+ path))
        else
          r ← remove path e.2;
          match r with
          | Ok _ => modify Ans (add_action ("deleted " +:+ path))
          | Err e => modify Ans (add_error (path +:+ ": " +:+ e))
          end
      else mret ())).

Definition missing_path : string := "/api/missing?_start=0&_end=1000".
Definition missing_ids (missing : Value) : list string := omap (λ m, as_str (m.["id"])) (List.filter (λ m, hit_v sc (m.["path"])) (array_of missing)).
Definition drop_missing_path (ids : list string) : string := "/api/missing?" +:+ join "&" ((λ i, "id=" +:+ i) <$> ids).
Definition SECOND : N := 1000000000.
Definition scanned (nd : Navidrome) : Task (option ()) :=
  v ← nd_sub nd "getScanStatus" [];
  mret (if value_eqb (v.["scanStatus"].["scanning"]) (Bool true) then None else Some ()).
Definition sweep_navidrome : Task () :=
  nd ← navidrome_login env;
  _ ← (if dry then mret ()
       else
         _ ← nd_sub nd "startScan" [("fullScan", "true")];
         poll "navidrome" "rescan" (300 * SECOND) (5 * SECOND) (scanned nd));
  missing ← json_or_null (nd_native nd "GET" missing_path) "navidrome" "list missing files";
  let ids := missing_ids missing in
  if bool_decide (ids = []) then mret ()
  else act_ "navidrome missing-file rows" (send_unit (nd_native nd "DELETE" (drop_missing_path ids)) "navidrome" "delete missing").

(** *** Discs and the pods that made them ([flows_dvdrip.rs]) *)

Definition get_args (kind : string) : list string := ["get"; kind; "-o"; "jsonpath={.items[*].metadata.name}"].
Definition delete_args (kind n : string) : list string := ["delete"; kind; n; "--ignore-not-found"; "--wait=true"; "--timeout=120s"].
Definition in_sweep (kind n : string) : bool :=
  bool_decide (is_Some (find_marker n)) && hit sc n && negb (bool_decide (kind = "pod") && negb (ends_with "-synth" n)).
Fixpoint delete_all (kind : string) (drop : bool) (names : list string) : Task () :=
  match names with
  | [] => mret ()
  | n :: names => _ ← (if drop then _ ← kubectl (delete_args kind n); mret () else mret ()); delete_all kind drop names
  end.
Definition sweep_kind (drop : bool) (kind : string) : Task (list string) :=
  out ← catch Ans (kubectl (get_args kind));
  match out with
  | Ok out =>
      let names := List.filter (in_sweep kind) (split_whitespace out) in
      _ ← delete_all kind drop names; mret ((λ n, kind +:+ "/" +:+ n) <$> names)
  | Err e => if bool_decide (kind = "disc") && contains "the server doesn't have a resource type" (fail_msg e) then mret [] else raise Ans e
  end.
Definition sweep_discs (drop : bool) : Task (list string) :=
  pods ← sweep_kind drop "pod"; discs ← sweep_kind drop "disc"; mret (pods ++ discs).

(** ** The passes *)

Definition now_ok (app name detail : string) : Task () := t ← do Ans Clock; modify Ans (on_flow (flow_ok t app name detail)).
Definition finish_flow (res : R ()) : Task Flow := t ← do Ans Clock; _ ← modify Ans (on_flow (finish t res)); s ← get Ans; mret (st_flow s).
(** A pass starts with its own report, and keeps the remembered session. *)
Definition begin (name : string) : Task () := t ← do Ans Clock; modify Ans (λ s, mkSt (st_jellyfin s) [] [] [] (new_flow t name)).
(** One app's cleanup: what it cannot do is an error, unless the app is not there. *)
Definition step (app : string) (m : Task ()) : Task () :=
  before ← get Ans;
  r ← catch Ans m;
  _ ← match r with
      | Ok _ => mret ()
      | Err e => if fail_skip e then modify Ans (add_skipped (app +:+ ": " +:+ fail_msg e)) else modify Ans (add_error (app +:+ ": " +:+ fail_msg e))
      end;
  after ← get Ans;
  now_ok app "cleanup" (pretty (N.of_nat (length (st_actions after) - length (st_actions before))) +:+ " item(s)").
Definition record_discs : Task () :=
  found ← sweep_discs (negb dry); for_each Ans found (λ w, modify Ans (add_action w)).
Definition cleanup : Task Flow :=
  _ ← begin (if dry then "cleanup (dry run)" else "cleanup");
  _ ← step "qbittorrent" sweep_qbittorrent;
  _ ← step "seerr" sweep_seerr;
  _ ← step "ombi" sweep_ombi;
  _ ← step "radarr" (sweep_arr "radarr" "/movie");
  _ ← step "sonarr" (sweep_arr "sonarr" "/series");
  _ ← step "lidarr" (sweep_arr "lidarr" "/artist");
  _ ← step "bookshelf" (sweep_arr "bookshelf" "/author");
  _ ← step "bookshelf-audio" (sweep_arr "bookshelf-audio" "/author");
  _ ← step "maintainerr" sweep_maintainerr;
  _ ← step "jellyfin" sweep_jellyfin;
  _ ← step "kavita" sweep_kavita;
  _ ← step "komga" sweep_komga;
  _ ← step "audiobookshelf" sweep_abs;
  _ ← step "maloja" sweep_maloja;
  _ ← step "dvdrip" record_discs;
  _ ← sweep_files;
  _ ← now_ok "fs" "cleanup" "marked top-level entries";
  _ ← step "navidrome" sweep_navidrome;
  s ← get Ans;
  if bool_decide (st_errors s = []) then
    _ ← (if bool_decide (st_skipped s = []) then mret () else now_ok "cleanup" "skipped apps" (join "; " (st_skipped s)));
    finish_flow (Ok ())
  else finish_flow (Err (new_fail "cleanup" "delete" (join "; " (st_errors s)))).
Definition sessions : Task Flow :=
  _ ← begin "revoke test sessions";
  r ← catch Ans sweep_devices;
  s ← get Ans;
  match r with
  | Ok _ =>
      if bool_decide (st_errors s = []) then
        _ ← now_ok "jellyfin" "test device/session revoked" (pretty (N.of_nat (length (st_actions s))) +:+ " item(s)"); finish_flow (Ok ())
      else finish_flow (Err (new_fail "jellyfin" "revoke session" (join "; " (st_errors s))))
  | Err e => finish_flow (Err e)
  end.
(** ** The residue check: the same questions, and nothing deleted *)

Definition add_left (app : string) (found : list string) : Task () := for_each Ans found (λ x, modify Ans (add_error (app +:+ ": " +:+ x))).
Definition check (app : string) (m : Task (list string)) : Task () :=
  r ← catch Ans m;
  match r with
  | Ok found => if bool_decide (found = []) then now_ok app "no residue" "" else add_left app found
  | Err e => if fail_skip e then modify Ans (add_skipped (app +:+ ": " +:+ fail_msg e)) else modify Ans (add_error (app +:+ ": could not check: " +:+ fail_msg e))
  end.
Definition named (kind : string) (field : string) (p : Value → bool) (vs : list Value) : list string :=
  (λ v, kind +:+ to_string (v.[field])) <$> List.filter p vs.
Definition left_arr (app collection : string) : Task (list string) :=
  a ← arr_new env app;
  tags ← arr_get a "/tag";
  items ← arr_get a collection;
  folders ← arr_get a "/rootfolder";
  mret (named "" "path" (arr_hit (tag_ids tags)) (array_of items) ++ named "root folder " "path" (λ r, hit_v sc (r.["path"])) (array_of folders)
        ++ ((λ i, "tag " +:+ pretty i) <$> tag_ids tags)).
Definition left_seerr : Task (list string) :=
  s ← seerr_session env;
  reqs ← json (seerr_req s "GET" requests_path) "seerr" "list requests";
  mret (named "request " "id" (λ r, hit_v sc (r.["rootFolder"])) (array_of (reqs.["results"]))).
Definition left_ombi : Task (list string) :=
  o ← ombi_new env;
  users ← json (ombi_req o "GET" "/Identity/Users") "ombi" "list users";
  mret (named "user " "userName" (λ u, hit_v sc (u.["userName"])) (array_of users)).
Definition all_items_path : string :=
  "/Items?Recursive=true&IncludeItemTypes=Movie,Episode,Series,Audio,MusicAlbum,Book,AudioBook,BoxSet&Fields=Path".
Definition item_hit (i : Value) : bool := hit_v sc (i.["Path"]) || hit_v sc (i.["Name"]).
Definition items_gone (jf : Jellyfin) : Task (option (list string)) :=
  r ← jf_get jf all_items_path;
  let found := named "item " "Name" item_hit (array_of (r.["Items"])) in
  mret (if bool_decide (found = []) then Some found else None).
(** Items vanish once the library refresh is done. *)
Definition left_jellyfin : Task (list string) :=
  jf ← jf_login env ctx;
  folders ← virtual_folders jf;
  let v := named "library " "Name" (λ l, hit_v sc (l.["Name"])) folders in
  items ← catch Ans (poll "jellyfin" "items gone" (240 * SECOND) (10 * SECOND) (items_gone jf));
  mret match items with Ok _ => v | Err e => v ++ [fail_msg e] end.
Definition left_kavita : Task (list string) :=
  k ← kavita_login env;
  libs ← json (kavita_req k "GET" "/api/Library/libraries") "kavita" "libraries";
  mret (named "library " "name" (λ l, hit_v sc (l.["name"])) (array_of libs)).
Definition left_komga : Task (list string) :=
  k ← komga_new env;
  libs ← json (komga_req k "GET" "/api/v1/libraries") "komga" "libraries";
  keys ← json (komga_req k "GET" "/api/v2/users/me/api-keys") "komga" "api keys";
  mret (named "library " "name" komga_hit (array_of libs) ++ named "API key " "comment" (λ x, hit_v sc (x.["comment"])) (array_of keys)).
Definition left_abs : Task (list string) :=
  a ← abs_login env;
  libs ← json (abs_req a "GET" "/api/libraries") "audiobookshelf" "libraries";
  mret (named "library " "name" (λ l, hit_v sc (l.["name"])) (array_of (libs.["libraries"]))).
Definition left_maintainerr : Task (list string) :=
  groups ← json (plain "GET" rules_url) "maintainerr" "rule groups";
  mret (named "rule group " "name" (λ g, hit_v sc (g.["name"])) (array_of groups)).
Definition left_maloja_at (base : string) : Task (list string) :=
  list ← json (plain "GET" (scrobbles_url base)) "maloja" "scrobbles";
  mret ((λ s, "scrobble " +:+ to_string (s.["track"].["title"]) +:+ " in " +:+ base) <$> List.filter (λ s, hit_v sc (s.["track"].["title"])) (array_of (list.["list"]))).
Definition left_maloja : Task (list string) :=
  own ← left_maloja_at (maloja_url env); fixture ← left_maloja_at (maloja_user_url env); mret (own ++ fixture).
Definition search_params : list (string * string) := [("query", "e2e"); ("songCount", "200"); ("artistCount", "50"); ("albumCount", "50")].
Definition left_navidrome : Task (list string) :=
  nd ← navidrome_login env;
  r ← nd_sub nd "search3" search_params;
  let found (key field : string) := named (key +:+ " ") field (λ x, hit_v sc (x.[field])) (array_of (r.["searchResult3"].[key])) in
  missing ← json_or_null (nd_native nd "GET" missing_path) "navidrome" "missing";
  mret (found "song" "title" ++ found "album" "name" ++ found "artist" "name" ++ named "missing row " "path" (λ m, hit_v sc (m.["path"])) (array_of missing)).
Definition left_qbittorrent : Task (list string) :=
  q ← qbt_login env;
  torrents ← qbt_get q "/torrents/info";
  cats ← qbt_get q "/torrents/categories";
  mret (named "torrent " "name" (λ t, hit_v sc (t.["tags"]) || hit_v sc (t.["category"])) (array_of torrents)
        ++ ((λ k, "category " +:+ k) <$> List.filter (hit sc) (keys_of cats))).
Fixpoint left_files (libs : list string) : Task (list string) :=
  match libs with
  | [] => mret []
  | lib :: libs =>
      rd ← do Ans (ReadDir (lib_dir lib));
      rest ← left_files libs;
      mret (((λ n, lib +:+ "/" +:+ n) <$> List.filter (hit sc) (fst <$> default [] rd)) ++ rest)
  end.
Definition artists_url : string := maloja_url env +:+ "/apis/mlj_1/artists".
Definition note_orphans : Task () :=
  artists ← json_or_null (plain "GET" artists_url) "maloja" "artists";
  let orphans := to_string <$> List.filter (hit_v sc) (array_of (artists.["list"])) in
  if bool_decide (orphans = []) then mret ()
  else now_ok "maloja" "orphan artist rows" (join ", " orphans +:+ " (no scrobbles left; Maloja's hourly clean_db removes artists without tracks)").
Definition residue : Task Flow :=
  _ ← begin "residue check";
  _ ← for_each Ans [("radarr", "/movie"); ("sonarr", "/series"); ("lidarr", "/artist"); ("bookshelf", "/author"); ("bookshelf-audio", "/author")]
        (λ ac, check ac.1 (left_arr ac.1 ac.2));
  _ ← check "seerr" left_seerr;
  _ ← check "ombi" left_ombi;
  _ ← check "jellyfin" left_jellyfin;
  _ ← check "kavita" left_kavita;
  _ ← check "komga" left_komga;
  _ ← check "audiobookshelf" left_abs;
  _ ← check "maintainerr" left_maintainerr;
  _ ← check "maloja" left_maloja;
  _ ← check "navidrome" left_navidrome;
  _ ← check "qbittorrent" left_qbittorrent;
  _ ← check "dvdrip" (sweep_discs false);
  _ ← check "fs" (left_files LIBS);
  _ ← note_orphans;
  s ← get Ans;
  _ ← (if bool_decide (st_skipped s = []) then mret () else now_ok "residue" "not checked" (join "; " (st_skipped s)));
  finish_flow (if bool_decide (st_errors s = []) then Ok () else Err (new_fail "residue" "verify" (join "; " (st_errors s)))).
End sweep.
