(* ===== verification/Marked.v ===== *)
(** * What the cleanup of the media apps deletes

    [allowed] lists everything a pass may do to the outside: questions and logins, and, unless it is dry, the
    deletion of an object that an answer of the same app has shown with a marker in scope. [passes_marked]: the
    passes of [Sweep] do nothing else, whatever the apps answer. *)

From Stdlib Require Import Ascii.
From stdpp Require Import options.
From S2P Require Import Prelude Text Json Codec Threads Trace Markers E2e Apps Sweep.

Notation Log := (list (Trace.Event Ans)).

Section spec.
Context `{SerdeJson, Libs} (env : string → option string) (ctx : Ctx) (sc : Scope).
Implicit Types (l : Log).

(** An app has answered a question with a value. *)
Definition answered l (rq : Req) (v : Value) : Prop :=
  ∃ r text, mkEvent (Http rq) (Ok r : Ans (Http rq)) ∈ l ∧ is_success (rs_status r) = true ∧ rs_text r = Ok text ∧
    if bool_decide (trim text = "") then v = Null else from_str text = Ok v.
Definition got l (rq : Req) (v : Value) (x : Value) : Prop := answered l rq v ∧ x ∈ array_of v.

(** The value in an answer *)
Definition shows (r : Result Apps.Resp string) (v : Value) : Prop :=
  ∃ resp text, r = Ok resp ∧ is_success (rs_status resp) = true ∧ rs_text resp = Ok text ∧ trim text ≠ "" ∧ from_str text = Ok v.

(** Deletions of objects that carry a marker in scope. A Seerr media row carries none: it goes with a request in scope
    for it, and only when the last thing asked was what is left on it, and the answer showed no request. *)
Inductive marked l : Act → Prop :=
  | m_arr_item a coll items tags item :
      answered l (arr_req a "GET" "/tag") tags → answered l (arr_req a "GET" coll) items → item ∈ array_of items →
      arr_hit sc (tag_ids sc tags) item = true → marked l (Http (arr_req a "DELETE" (item_path coll item)))
  | m_arr_folder a folders r :
      answered l (arr_req a "GET" "/rootfolder") folders → r ∈ array_of folders → hit_v sc (r.["path"]) = true →
      marked l (Http (arr_req a "DELETE" (folder_path r)))
  | m_arr_tag a tags id : answered l (arr_req a "GET" "/tag") tags → id ∈ tag_ids sc tags → marked l (Http (arr_req a "DELETE" (tag_path id)))
  | m_request s reqs r :
      answered l (seerr_req s "GET" requests_path) reqs → r ∈ array_of (reqs.["results"]) → hit_v sc (r.["rootFolder"]) = true →
      marked l (Http (seerr_req s "DELETE" (request_path r)))
  | m_media s reqs r d :
      answered l (seerr_req s "GET" requests_path) reqs → r ∈ array_of (reqs.["results"]) → hit_v sc (r.["rootFolder"]) = true →
      last l = Some (mkEvent (Http (seerr_req s "GET" (details_path (r.["media"])))) d) →
      (∀ v q qs, shows d v → v.["mediaInfo"].["requests"] ≠ Array (q :: qs)) →
      marked l (Http (seerr_req s "DELETE" (media_path (r.["media"]))))
  | m_ombi_request o users kind reqs r :
      answered l (ombi_req o "GET" "/Identity/Users") users → answered l (ombi_req o "GET" ("/request/" +:+ kind)) reqs → r ∈ array_of reqs →
      by_one_of (users_in_scope sc users) r = true → marked l (Http (ombi_req o "DELETE" (ombi_request_path kind r)))
  | m_ombi_user o users u :
      answered l (ombi_req o "GET" "/Identity/Users") users → u ∈ users_in_scope sc users → marked l (Http (ombi_req o "DELETE" ("/Identity/" +:+ u.1)))
  | m_library jf folders v :
      answered l (jf_req jf "GET" "/Library/VirtualFolders") folders → v ∈ array_of folders → hit_v sc (v.["Name"]) = true →
      marked l (Http (jf_req jf "DELETE" (folder_delete_path (text_at (v.["Name"])))))
  | m_collection jf sets b :
      answered l (jf_req jf "GET" boxsets_path) sets → b ∈ array_of (sets.["Items"]) → hit_v sc (b.["Name"]) = true →
      marked l (Http (jf_req jf "DELETE" ("/Items/" +:+ text_at (b.["Id"]))))
  | m_device jf devices d :
      answered l (jf_req jf "GET" "/Devices") devices → d ∈ array_of (devices.["Items"]) → own_device ctx d || hit_v sc (d.["Id"]) = true →
      marked l (Http (jf_req jf "DELETE" (device_path (text_at (d.["Id"])))))
  | m_kavita k libs x :
      answered l (kavita_req k "GET" "/api/Library/libraries") libs → x ∈ array_of libs → hit_v sc (x.["name"]) = true →
      marked l (Http (kavita_req k "DELETE" ("/api/Library/delete?libraryId=" +:+ to_string (x.["id"]))))
  | m_komga_library k libs x :
      answered l (komga_req k "GET" "/api/v1/libraries") libs → x ∈ array_of libs → komga_hit sc x = true →
      marked l (Http (komga_req k "DELETE" ("/api/v1/libraries/" +:+ text_at (x.["id"]))))
  | m_komga_key k keys x :
      answered l (komga_req k "GET" "/api/v2/users/me/api-keys") keys → x ∈ array_of keys → hit_v sc (x.["comment"]) = true →
      marked l (Http (komga_req k "DELETE" ("/api/v2/users/me/api-keys/" +:+ text_at (x.["id"]))))
  | m_abs a libs x :
      answered l (abs_req a "GET" "/api/libraries") libs → x ∈ array_of (libs.["libraries"]) → abs_hit sc x = true →
      marked l (Http (abs_req a "DELETE" ("/api/libraries/" +:+ text_at (x.["id"]))))
  | m_rules groups g :
      answered l (plain "GET" (rules_url env)) groups → g ∈ array_of groups → hit_v sc (g.["name"]) = true →
      marked l (Http (plain "DELETE" (rules_url env +:+ "/" +:+ to_string (g.["id"]))))
  | m_torrent q torrents t :
      answered l (qbt_req q "GET" "/torrents/info") torrents → t ∈ array_of torrents → torrent_hit sc t = true →
      marked l (Http (with_body (FormBody [("hashes", text_at (t.["hash"])); ("deleteFiles", "true")]) (qbt_req q "POST" "/torrents/delete")))
  | m_category q cats name :
      answered l (qbt_req q "GET" "/torrents/categories") cats → name ∈ keys_of cats → hit sc name = true →
      marked l (Http (with_body (FormBody [("categories", name)]) (qbt_req q "POST" "/torrents/removeCategories")))
  | m_tag q tags t :
      answered l (qbt_req q "GET" "/torrents/tags") tags → Str t ∈ array_of tags → hit sc t = true →
      marked l (Http (with_body (FormBody [("tags", t)]) (qbt_req q "POST" "/torrents/deleteTags")))
  | m_scrobble base cookie list s :
      answered l (plain "GET" (scrobbles_url base)) list → s ∈ array_of (list.["list"]) → scrobble_hit sc s = true →
      marked l (Http (unscrobble base cookie s))
  | m_dir lib entries name :
      mkEvent (ReadDir (lib_dir env lib)) (Some entries : Ans (ReadDir _)) ∈ l → lib ∈ LIBS → (name, true) ∈ entries → hit sc name = true →
      marked l (RemoveDirAll (lib_dir env lib +:+ "/" +:+ name))
  | m_file lib entries name :
      mkEvent (ReadDir (lib_dir env lib)) (Some entries : Ans (ReadDir _)) ∈ l → lib ∈ LIBS → (name, false) ∈ entries → hit sc name = true →
      marked l (RemoveFile (lib_dir env lib +:+ "/" +:+ name))
  | m_missing nd missing :
      answered l (nd_native nd "GET" missing_path) missing → marked l (Http (nd_native nd "DELETE" (drop_missing_path (missing_ids sc missing))))
  | m_disc kind out n :
      mkEvent (Command "kubectl" ("-n" :: "media" :: get_args kind)) (Ok out : Ans (Command _ _)) ∈ l → kind ∈ ["pod"; "disc"] →
      n ∈ split_whitespace (trim (o_stdout out)) → is_Some (find_marker n) → hit sc n = true →
      marked l (Command "kubectl" ("-n" :: "media" :: delete_args kind n)).

(** What asks, signs in or waits. *)
Definition sign_ins : list string :=
  ["/Users/AuthenticateByName"; "/api/v2/auth/login"; "/api/Account/login"; "/login"; "/auth/login"; "/api/v1/auth/jellyfin"; "/auth/authenticate"].
Definition gentle (x : Act) : Prop :=
  match x with
  | Http rq => rq_method rq = "GET" ∨ rq_method rq = "POST" ∧ ∃ base path, path ∈ sign_ins ∧ rq_url rq = base +:+ path
  | Command program args => program = "kubectl" ∧ ∃ kind, args = "-n" :: "media" :: get_args kind
  | RemoveDirAll _ | RemoveFile _ | Connect _ | WriteAll _ | ReadLine | UnixTime | DbConnect _ _ _ _ | Execute _ _ | Query _ _ => False
  | ReadFile _ | ReadDir _ | Clock | Sleep _ => True
  end.
Definition own_session (x : Act) : Prop := ∃ jf, x = Http (jf_req jf "DELETE" (device_path (c_marker ctx))).
(** [final]: the pass that ends this run's own session. *)
(** [calm]: nothing is deleted. *)
Definition allowed (final calm : bool) l (x : Act) : Prop := gentle x ∨ (calm = false ∧ marked l x) ∨ (final = true ∧ own_session x).

Lemma answered_mono l l' rq v : l `prefix_of` l' → answered l rq v → answered l' rq v.
Proof. intros [k ->] (r & text & Hin & Hr). exists r, text. split; [by apply elem_of_app; left|done]. Qed.

(** ** The clients *)

Context (final calm : bool).
Definition anything {A} (a : A) (l : Log) : Prop := True.
Notation okay := (Trace.okay Ans (allowed final calm) (St := St) (Fa := Fail)).
#[local] Set Default Proof Using "Type".
Lemma do_gentle x l : gentle x → okay (do Ans x) (λ r l', l' = l ++ [mkEvent x r]) l.
Proof. intros Hx. apply okay_do; [by left|done]. Qed.
Lemma read_ok path l : okay (do Ans (ReadFile path) : Task (option string)) anything l.
Proof. refine (okay_mono Ans _ _ _ _ _ (do_gentle (ReadFile path) l _) _); done. Qed.
Lemma clock_ok l : okay (do Ans Clock : Task N) anything l.
Proof. refine (okay_mono Ans _ _ _ _ _ (do_gentle Clock l _) _); done. Qed.
Lemma sleep_ok ns l : okay (do Ans (Sleep ns) : Task ()) anything l.
Proof. refine (okay_mono Ans _ _ _ _ _ (do_gentle (Sleep ns) l _) _); done. Qed.
Lemma send_ok rq app step l : allowed final calm l (Http rq) →
  okay (send rq app step) (λ r l', mkEvent (Http rq) (Ok r : Ans (Http rq)) ∈ l' ∧ is_success (rs_status r) = true) l.
Proof.
  intros Hx. unfold send. apply okay_bind. refine (okay_do Ans (allowed final calm) (Http rq) _ _ Hx _). intros [r|e]; [|apply okay_raise]. destruct (is_success (rs_status r)) eqn:Es; [|apply okay_raise].
  apply okay_ret. split; [apply elem_of_app; right; by left|done].
Qed.
Lemma send_unit_ok rq app step l : allowed final calm l (Http rq) → okay (send_unit rq app step) anything l.
Proof. intros Hx. unfold send_unit. eapply okay_then; [by apply send_ok|]. intros. by apply okay_ret. Qed.
Lemma text_of_ok r app step l : okay (text_of r app step) (λ t _, rs_text r = Ok t) l.
Proof. unfold text_of. destruct (rs_text r); [by apply okay_ret|apply okay_raise]. Qed.
Lemma json_ok rq app step l : allowed final calm l (Http rq) → okay (json rq app step) (λ v l', answered l' rq v) l.
Proof.
  intros Hx. unfold json. eapply okay_then; [by apply send_ok|]. intros r l1 _ [Hin Hs]. eapply okay_then; [apply text_of_ok|]. intros t l2 [k ->] Ht.
  assert (mkEvent (Http rq) (Ok r : Ans (Http rq)) ∈ l1 ++ k) as Hin' by by apply elem_of_app; left.
  unfold json_of_text. case_bool_decide as Hb.
  - apply okay_ret. exists r, t. split_and!; try done. by rewrite bool_decide_eq_true_2.
  - destruct (from_str t) as [v|] eqn:Ev; [|apply okay_raise]. apply okay_ret. exists r, t. split_and!; try done. by rewrite bool_decide_eq_false_2.
Qed.
Lemma json_or_null_ok rq app step l : allowed final calm l (Http rq) → okay (json_or_null rq app step) (λ v l', v = Null ∨ answered l' rq v) l.
Proof.
  intros Hx. unfold json_or_null. eapply okay_then; [eapply okay_catch; [by apply json_ok|]|].
  - intros r l' _ Hr. exact (match r as r return (∀ a, r = Ok a → answered l' rq a) → (match r with Ok v => answered l' rq v | Err _ => True end) with Ok v => λ H, H v eq_refl | Err _ => λ _, I end Hr).
  - intros [v|e] l' _ Hv; apply okay_ret; [by right|by left].
Qed.
Lemma json_or_null_last rq app step l : allowed final calm l (Http rq) →
  okay (json_or_null rq app step) (λ v l', ∃ d, last l' = Some (mkEvent (Http rq) d) ∧ ∀ v', shows d v' → v = v') l.
Proof.
  intros Hx s. cbn -[json_of_text]. split; [exact Hx|]. intros r.
  assert (∀ v, (∀ v', shows r v' → v = v') → l `prefix_of` l ++ [mkEvent (Http rq) r] ∧
    ∃ d : Ans (Http rq), last (l ++ [mkEvent (Http rq) r]) = Some (mkEvent (Http rq) d) ∧ ∀ v', shows d v' → v = v') as Hend.
  { intros v Hv. split; [by eexists|]. exists r. by rewrite last_snoc. }
  destruct r as [resp|e]; cbn -[json_of_text]; [|apply Hend; by intros v' (? & ? & ? & _)].
  destruct (is_success (rs_status resp)) eqn:Es; cbn -[json_of_text]; [|apply Hend; intros v' (? & ? & [= <-] & E & _); congruence].
  unfold text_of. destruct (rs_text resp) as [t|e] eqn:Et; unfold mbind, M_bind, mret, M_ret, raise; cbn -[json_of_text]; [|apply Hend; intros v' (? & ? & [= <-] & _ & E & _); congruence].
  unfold json_of_text. destruct (bool_decide (trim t = "")) eqn:Hb; unfold mret, M_ret; cbn; [apply bool_decide_eq_true in Hb; apply Hend; intros v' (? & ? & [= <-] & _ & E & Hn & _); congruence|].
  apply bool_decide_eq_false in Hb. destruct (from_str t) as [v|e] eqn:Ev; cbn; apply Hend; intros v' (? & ? & [= <-] & _ & E & _ & E'); congruence.
Qed.
Lemma event_mono (e : Trace.Event Ans) l l' : l `prefix_of` l' → e ∈ l → e ∈ l'.
Proof. intros [k ->] He. by apply elem_of_app; left. Qed.
(** What is known of a log holds of the longer one. *)
Ltac lift Hl :=
  repeat match goal with
  | H : answered ?l _ _ |- _ => lazymatch type of Hl with l `prefix_of` _ => apply (answered_mono _ _ _ _ Hl) in H end
  | H : _ ∈ ?l |- _ => lazymatch type of Hl with l `prefix_of` _ => apply (event_mono _ _ _ Hl) in H end
  end; clear Hl.
Ltac next lem := eapply okay_then; [lem|let Hl := fresh "Hl" in let Ha := fresh "Ha" in intros ? ? Hl Ha; cbn beta in Ha; lift Hl].
Ltac asks := by left; left.
Ltac signs_in := left; right; split; [done|eexists _, _; split; [|reflexivity]; set_solver].
Ltac done_ := by apply okay_ret.

Lemma secret_ok name key l : okay (secret env name key) anything l.
Proof. unfold secret. next ltac:(apply read_ok). done_. Qed.
Lemma need_secret_ok app name key l : okay (need_secret env app name key) anything l.
Proof. unfold need_secret. next ltac:(apply secret_ok). case_match; [done_|apply okay_raise]. Qed.
Lemma at_ok {A} (x : option A) app step l : okay (at_ x app step) anything l.
Proof. unfold at_. destruct x; [done_|apply okay_raise]. Qed.
Lemma now_ok_ok app name detail l : okay (now_ok app name detail) anything l.
Proof. unfold now_ok. next ltac:(apply clock_ok). by apply okay_modify. Qed.
Lemma kubectl_ok args l : allowed final calm l (Command "kubectl" ("-n" :: "media" :: args)) →
  okay (kubectl args) (λ t l', ∃ out, mkEvent (Command "kubectl" ("-n" :: "media" :: args)) (Ok out : Ans (Command _ _)) ∈ l' ∧ t = trim (o_stdout out)) l.
Proof.
  intros Hx. unfold kubectl. apply okay_bind. refine (okay_do Ans (allowed final calm) (Command _ _) _ _ Hx _). intros [out|e]; [|apply okay_raise].
  destruct (o_success out); [|apply okay_raise]. apply okay_ret. exists out. split; [set_solver|done].
Qed.
Lemma poll_ok {A} app step timeout every (f : Task (option A)) l : (∀ l', l `prefix_of` l' → okay f anything l') → okay (poll app step timeout every f) anything l.
Proof.
  intros Hf. unfold poll. eapply okay_then; [apply clock_ok|]. intros a l0 Hl0 _. generalize (S (S (N.to_nat (timeout / every)))) "condition never met". intros fuel.
  assert (∀ l', l `prefix_of` l' → ∀ last, okay (poll_from fuel app step timeout every a f last) anything l') as H3; [|].
  { induction fuel as [|fuel IH]; intros l1 Hl1 last; cbn [poll_from]; [apply okay_raise|].
    eapply okay_then; [eapply catch_any, Hf; exact Hl1|]. intros r l2 Hl2 _.
    assert (∀ last, okay (now ← do Ans Clock; if (timeout <? saturating_sub now a)%N then raise Ans (new_fail app step ("timed out after " +:+ pretty (timeout / 1000000000)%N +:+ "s: " +:+ last))
      else _ ← do Ans (Sleep every); poll_from fuel app step timeout every a f last) anything l2) as Hround.
    { intros last'. eapply okay_then; [apply clock_ok|]. intros now l3 Hl3 _. destruct (_ <? _)%N; [apply okay_raise|].
      eapply okay_then; [apply sleep_ok|]. intros [] l4 Hl4 _. apply IH. by do 3 (etrans; [eassumption|]). }
    destruct r as [[v|]|[? ? ? []]]; [done_|apply Hround|apply okay_raise|apply Hround]. }
  by apply H3.
Qed.

Lemma arr_new_ok app l : okay (arr_new env app) anything l.
Proof. unfold arr_new. next ltac:(apply need_secret_ok). done_. Qed.
Lemma arr_get_ok a path l : okay (arr_get a path) (λ v l', answered l' (arr_req a "GET" path) v) l.
Proof. apply json_ok. asks. Qed.
Lemma jf_login_ok l : okay (jf_login env ctx) anything l.
Proof.
  unfold jf_login. apply okay_bind, okay_get. intros s. destruct (st_jellyfin s) as [[u t]|]; [done_|]. next ltac:(apply need_secret_ok).
  next ltac:(apply json_ok; signs_in). next ltac:(apply at_ok). next ltac:(apply at_ok). eapply okay_then; [by apply (okay_modify _ _ _ anything)|]. intros. done_.
Qed.
Lemma jf_get_ok jf path l : okay (jf_get jf path) (λ v l', answered l' (jf_req jf "GET" path) v) l.
Proof. apply json_ok. asks. Qed.
Lemma qbt_login_ok l : okay (qbt_login env) anything l.
Proof.
  unfold qbt_login. next ltac:(apply need_secret_ok). apply okay_bind. refine (okay_do Ans (allowed final calm) (Http _) _ _ _ _); [signs_in|].
  intros [r|e]; [|apply okay_raise]. case_match; [done_|apply okay_raise].
Qed.
Lemma qbt_get_ok q path l : okay (qbt_get q path) (λ v l', answered l' (qbt_req q "GET" path) v) l.
Proof. apply json_ok. asks. Qed.
Lemma kavita_login_ok l : okay (kavita_login env) anything l.
Proof.
  unfold kavita_login. next ltac:(apply need_secret_ok). next ltac:(apply json_ok; signs_in). next ltac:(apply at_ok). case_bool_decide; [|done_].
  next ltac:(apply send_ok; asks). next ltac:(apply text_of_ok). done_.
Qed.
Lemma komga_new_ok l : okay (komga_new env) anything l.
Proof. unfold komga_new. destruct (env "ADMIN_EMAIL"); [|apply okay_raise]. next ltac:(apply need_secret_ok). done_. Qed.
Lemma abs_login_ok l : okay (abs_login env) anything l.
Proof. unfold abs_login. next ltac:(apply need_secret_ok). next ltac:(apply json_ok; signs_in). next ltac:(apply at_ok). done_. Qed.
Lemma navidrome_login_ok l : okay (navidrome_login env) anything l.
Proof. unfold navidrome_login. next ltac:(apply need_secret_ok). next ltac:(apply json_ok; signs_in). next ltac:(apply at_ok). done_. Qed.
Lemma nd_sub_ok n method params l : okay (nd_sub n method params) anything l.
Proof. unfold nd_sub. next ltac:(apply json_ok; asks). unfold subsonic. case_match; [done_|apply okay_raise]. Qed.
Lemma seerr_session_ok l : okay (seerr_session env) anything l.
Proof.
  unfold seerr_session. generalize 3, 0%N, (new_fail "seerr" "list requests" ""). intros tries. revert l. induction tries as [|n IH]; intros l at_ last; cbn [seerr_sessions]; [apply okay_raise|].
  eapply okay_then; [instantiate (1 := anything); destruct (_ <? _)%N; [apply sleep_ok|done_]|]. intros _ l1 _ _.
  eapply okay_then; [instantiate (1 := anything); unfold seerr_login; next ltac:(apply need_secret_ok); next ltac:(apply send_ok; signs_in); case_bool_decide; [apply okay_raise|done_]|].
  intros s l2 _ _. next ltac:(apply catch_any, send_ok; asks). destruct a; [done_|]. case_match; [apply IH|apply okay_raise].
Qed.
Lemma ombi_new_ok l : okay (ombi_new env) anything l.
Proof. unfold ombi_new. next ltac:(apply need_secret_ok). done_. Qed.
(** ** The passes *)

Context (dry : bool) (Hcalm : dry = false → calm = false).
#[local] Set Default Proof Using "Type*".
Lemma act_ok what del l : (calm = false → okay del anything l) → okay (act_ dry what del) anything l.
Proof.
  intros Hd. unfold act_. destruct dry; [by apply okay_modify|]. next ltac:(by apply catch_any, Hd, Hcalm). case_match; by apply okay_modify.
Qed.
Ltac drops := let Hc := fresh in intros Hc; first [apply send_unit_ok | idtac]; right; left; split; [exact Hc|].
Ltac each := eapply okay_for_each; [let Hx := fresh "Hx" in let Hl := fresh "Hl" in intros ? ? Hx Hl; lift Hl|done].
Ltac eachn := eapply okay_then; [instantiate (1 := anything); each|let Hl := fresh "Hl" in intros ? ? Hl _; lift Hl].
Ltac if_hit := match goal with |- context [if ?b then _ else _] => let Hb := fresh "Hb" in destruct b eqn:Hb; [|done_] end.

Lemma sweep_arr_ok app coll l : okay (sweep_arr env sc dry app coll) anything l.
Proof.
  unfold sweep_arr. next ltac:(apply arr_new_ok). next ltac:(apply arr_get_ok). cbn zeta. next ltac:(apply arr_get_ok).
  eachn. { if_hit. apply act_ok. drops. by eapply m_arr_item. }
  next ltac:(apply arr_get_ok). eachn. { if_hit. apply act_ok. drops. by eapply m_arr_folder. }
  each. apply act_ok. drops. by eapply m_arr_tag.
Qed.
Lemma mine_in {A} (p : A → bool) xs x : x ∈ List.filter p xs → x ∈ xs ∧ p x = true.
Proof. intros Hx. apply list_elem_of_In, filter_In in Hx as [Hx Hp]. split; [by apply list_elem_of_In|done]. Qed.
Lemma sweep_seerr_ok l : okay (sweep_seerr env sc dry) anything l.
Proof.
  unfold sweep_seerr. next ltac:(apply seerr_session_ok). next ltac:(apply json_ok; asks). cbn zeta.
  eachn. { apply mine_in in Hx as [Hx Hh]. apply act_ok. drops. by eapply m_request. }
  each. apply mine_in in Hx as [Hx Hh]. 
  eapply okay_then; [apply json_or_null_last; asks|]. intros d l2 Hl (a' & Ea & Hd). lift Hl. if_hit. assert (dry = true ∨ dry = false) as [Edry|Edry] by (case dry; auto).
  { unfold act_. rewrite Edry. by apply okay_modify. }
  apply act_ok. drops. eapply m_media; [done..|]. intros v q qs Hv%Hd. subst d. intros E. unfold unrequested in Hb. rewrite E, Edry in Hb. done.
Qed.
Lemma sweep_ombi_ok l : okay (sweep_ombi env sc dry) anything l.
Proof.
  unfold sweep_ombi. next ltac:(apply ombi_new_ok). next ltac:(apply json_ok; asks). cbn zeta.
  eachn. { next ltac:(apply json_ok; asks). each. if_hit. apply act_ok. drops. by eapply m_ombi_request. }
  each. apply act_ok. drops. by eapply m_ombi_user.
Qed.
Lemma sweep_jellyfin_ok l : okay (sweep_jellyfin env ctx sc dry) anything l.
Proof.
  unfold sweep_jellyfin, virtual_folders. next ltac:(apply jf_login_ok).
  eapply (okay_then Ans _ _ _ (λ vs l', ∃ v, vs = array_of v ∧ answered l' (jf_req a "GET" "/Library/VirtualFolders") v)).
  { next ltac:(apply jf_get_ok). apply okay_ret. by eexists. }
  intros ? l1 Hl (v & -> & Hv). clear Hl. eachn. { if_hit. apply act_ok. drops. by eapply m_library. }
  next ltac:(apply jf_get_ok). each. if_hit. apply act_ok. drops. by eapply m_collection.
Qed.
Lemma sweep_devices_ok l : final = true → okay (sweep_devices env ctx sc dry) anything l.
Proof.
  intros Hf. unfold sweep_devices. next ltac:(apply jf_login_ok). next ltac:(apply jf_get_ok). each. destruct (own_device ctx x && dry) eqn:Eo.
  - next ltac:(apply send_ok; right; right; split; [done|by eexists]). by apply okay_modify.
  - if_hit. apply act_ok. intros Hc. unfold delete_device.
    next ltac:(apply catch_any, send_ok; right; left; split; [done|by eapply m_device]). case_match; [done_|case_match; [done_|apply okay_raise]].
Qed.
Lemma sweep_kavita_ok l : okay (sweep_kavita env sc dry) anything l.
Proof. unfold sweep_kavita. next ltac:(apply kavita_login_ok). next ltac:(apply json_ok; asks). each. if_hit. apply act_ok. drops. by eapply m_kavita. Qed.
Lemma sweep_komga_ok l : okay (sweep_komga env sc dry) anything l.
Proof.
  unfold sweep_komga. next ltac:(apply komga_new_ok). next ltac:(apply json_ok; asks). eachn. { if_hit. apply act_ok. drops. by eapply m_komga_library. }
  next ltac:(apply json_ok; asks). each. if_hit. apply act_ok. drops. by eapply m_komga_key.
Qed.
Lemma sweep_abs_ok l : okay (sweep_abs env sc dry) anything l.
Proof. unfold sweep_abs. next ltac:(apply abs_login_ok). next ltac:(apply json_ok; asks). each. if_hit. apply act_ok. drops. by eapply m_abs. Qed.
Lemma sweep_maintainerr_ok l : okay (sweep_maintainerr env sc dry) anything l.
Proof. unfold sweep_maintainerr. next ltac:(apply json_ok; asks). each. if_hit. apply act_ok. drops. by eapply m_rules. Qed.
Lemma text_any r app step l : okay (text_of r app step) anything l.
Proof. unfold text_of. destruct (rs_text r); [done_|apply okay_raise]. Qed.
Lemma form_ok q path form l : allowed final calm l (Http (with_body (FormBody form) (qbt_req q "POST" path))) → okay (form_unit q path form) anything l.
Proof. intros Hx. unfold form_unit, qbt_post. eapply okay_then; [next ltac:(by apply send_ok); apply text_any|]. intros. done_. Qed.
Lemma sweep_qbittorrent_ok l : okay (sweep_qbittorrent env sc dry) anything l.
Proof.
  unfold sweep_qbittorrent. next ltac:(apply qbt_login_ok). next ltac:(apply qbt_get_ok).
  eachn. { if_hit. apply act_ok. intros Hc. apply form_ok. right; left; split; [done|]. by eapply m_torrent. }
  next ltac:(apply qbt_get_ok). eachn. { if_hit. apply act_ok. intros Hc. apply form_ok. right; left; split; [done|]. by eapply m_category. }
  next ltac:(apply qbt_get_ok). each. if_hit. apply act_ok. intros Hc. apply form_ok. right; left; split; [done|].
  apply list_elem_of_omap in Hx as (v & Hv & Es). destruct v; try done. injection Es as ->. by eapply m_tag.
Qed.
Lemma sweep_maloja_ok l : okay (sweep_maloja env sc dry) anything l.
Proof.
  unfold sweep_maloja. each. unfold sweep_maloja_at. next ltac:(apply secret_ok). case_match; [|apply okay_raise]. next ltac:(apply json_ok; signs_in). cbn zeta.
  next ltac:(apply json_ok; asks). each. if_hit. apply act_ok. drops. by eapply m_scrobble.
Qed.
Lemma remove_ok path (is_dir : bool) l : allowed final calm l (if is_dir then RemoveDirAll path else RemoveFile path) → okay (remove path is_dir) anything l.
Proof using Type. intros Hx. unfold remove. destruct is_dir; (refine (okay_mono Ans _ _ _ _ _ (okay_do Ans (allowed final calm) _ anything l Hx _) _); done). Qed.
Lemma list_dir_ok dir l : okay (do Ans (ReadDir dir) : Task (option (list (string * bool)))) (λ rd l', mkEvent (ReadDir dir) (rd : Ans (ReadDir dir)) ∈ l') l.
Proof using Type. refine (okay_mono Ans _ _ _ _ _ (do_gentle (ReadDir dir) l I) _). intros rd l' _ ->. apply elem_of_app. right. left. Qed.
Lemma sweep_files_ok l : okay (sweep_files env sc dry) anything l.
Proof.
  unfold sweep_files. eapply okay_for_each; [|done]. intros lib l1 Hlib _. eapply okay_then; [apply list_dir_ok|]. intros rd l2 _ Hrd.
  eapply okay_for_each; [|done]. intros [name d] l3 Hin Hl3. apply (event_mono _ _ _ Hl3) in Hrd. cbn [fst snd]. if_hit. destruct rd as [entries|]; [|by apply not_elem_of_nil in Hin].
  destruct dry; [by apply okay_modify|]. eapply okay_then; [apply remove_ok; right; left; split; [by apply Hcalm|]|intros [] ? _ _; by apply okay_modify].
  destruct d; [by eapply m_dir|by eapply m_file].
Qed.
Lemma scan_ok nd l :
  okay (if dry then mret () else _ ← nd_sub nd "startScan" [("fullScan", "true")]; poll "navidrome" "rescan" (300 * SECOND) (5 * SECOND) (scanned nd) : Task ()) anything l.
Proof.
  destruct dry; [done_|]. next ltac:(apply nd_sub_ok). apply poll_ok. intros. unfold scanned. next ltac:(apply nd_sub_ok). done_.
Qed.
Lemma missing_nil : missing_ids sc Null = [].
Proof. done. Qed.
Lemma sweep_navidrome_ok l : okay (sweep_navidrome env sc dry) anything l.
Proof.
  unfold sweep_navidrome. next ltac:(apply navidrome_login_ok). next ltac:(apply scan_ok). eapply okay_then; [apply json_or_null_ok; asks|]. intros v l1 _ Hv. cbn zeta.
  case_bool_decide as Hn; [done_|]. destruct Hv as [->|Hv]; [by rewrite missing_nil in Hn|]. apply act_ok. drops. by eapply m_missing.
Qed.

Lemma in_sweep_marked kind n : in_sweep sc kind n = true → is_Some (find_marker n) ∧ hit sc n = true.
Proof. unfold in_sweep. rewrite !andb_true_iff. intros [[Hm Hh] _]. by apply bool_decide_eq_true in Hm. Qed.
Lemma delete_all_ok kind drop (names : list string) l : (∀ n, n ∈ names → drop = true → ∀ l', l `prefix_of` l' → allowed final calm l' (Command "kubectl" ("-n" :: "media" :: delete_args kind n))) →
  okay (delete_all kind drop names) anything l.
Proof.
  revert l. induction names as [|n names IH]; intros l Hn; cbn [delete_all]; [done_|].
  eapply okay_then; [instantiate (1 := anything)|intros _ l1 Hl1 _; apply IH; intros m Hm Hd l2 Hl2; apply Hn; [by right|done|by etrans]].
  destruct drop; [|done_]. eapply okay_then; [apply kubectl_ok, Hn; [by left|done|done]|]. intros. done_.
Qed.
Lemma sweep_kind_ok drop kind l : (drop = true → calm = false) → kind ∈ ["pod"; "disc"] → okay (sweep_kind sc drop kind) anything l.
Proof.
  intros Hd Hk. unfold sweep_kind. eapply okay_then; [apply catch_any, kubectl_ok; left; split; [done|by eexists]|]. intros [out|e] l1 _ Ho; [|case_match; [done_|apply okay_raise]].
  destruct Ho as (o & Hin & ->). cbn zeta. eapply okay_then; [apply delete_all_ok|intros; done_]. intros n Hn Hdrop l2 Hl2. right. left. split; [by apply Hd|].
  apply mine_in in Hn as [Hn [Hm Hh]%in_sweep_marked]. eapply m_disc; try done. by eapply event_mono.
Qed.
Lemma sweep_discs_ok drop l : (drop = true → calm = false) → okay (sweep_discs sc drop) anything l.
Proof.
  intros Hd. unfold sweep_discs. next ltac:(apply sweep_kind_ok; [done|by left]). next ltac:(apply sweep_kind_ok; [done|by right; left]). done_.
Qed.

Lemma begin_ok name l : okay (begin name) anything l.
Proof. unfold begin. next ltac:(apply clock_ok). by apply okay_modify. Qed.
Lemma finish_flow_ok res l : okay (finish_flow res) anything l.
Proof.
  unfold finish_flow. next ltac:(apply clock_ok). eapply okay_then; [by apply (okay_modify _ _ _ anything)|]. intros. apply okay_bind, okay_get. intros. done_.
Qed.
Lemma step_ok app m l : (∀ l', okay m anything l') → okay (step app m) anything l.
Proof.
  intros Hm. unfold step. apply okay_bind, okay_get. intros s. next ltac:(by apply catch_any). eapply okay_then; [instantiate (1 := anything)|].
  - destruct a; [done_|]. case_match; by apply okay_modify.
  - intros. apply okay_bind, okay_get. intros. apply now_ok_ok.
Qed.
Lemma record_discs_ok l : okay (record_discs sc dry) anything l.
Proof.
  unfold record_discs. next ltac:(apply sweep_discs_ok; intros Hd%negb_true_iff; by apply Hcalm). each. by apply okay_modify.
Qed.
Lemma cleanup_ok l : okay (cleanup env ctx sc dry) anything l.
Proof.
  unfold cleanup. next ltac:(apply begin_ok).
  next ltac:(apply step_ok, sweep_qbittorrent_ok). next ltac:(apply step_ok, sweep_seerr_ok). next ltac:(apply step_ok, sweep_ombi_ok).
  do 5 next ltac:(apply step_ok; intros; apply sweep_arr_ok). next ltac:(apply step_ok, sweep_maintainerr_ok). next ltac:(apply step_ok, sweep_jellyfin_ok).
  next ltac:(apply step_ok, sweep_kavita_ok). next ltac:(apply step_ok, sweep_komga_ok). next ltac:(apply step_ok, sweep_abs_ok). next ltac:(apply step_ok, sweep_maloja_ok).
  next ltac:(apply step_ok, record_discs_ok). next ltac:(apply sweep_files_ok). next ltac:(apply now_ok_ok). next ltac:(apply step_ok, sweep_navidrome_ok).
  apply okay_bind, okay_get. intros s. case_bool_decide; [|apply finish_flow_ok]. eapply okay_then; [instantiate (1 := anything)|intros; apply finish_flow_ok].
  case_bool_decide; [done_|apply now_ok_ok].
Qed.
Lemma sessions_ok l : final = true → okay (sessions env ctx sc dry) anything l.
Proof.
  intros Hf. unfold sessions. next ltac:(apply begin_ok). next ltac:(by apply catch_any, sweep_devices_ok). apply okay_bind, okay_get. intros s.
  destruct a0; [|apply finish_flow_ok]. case_bool_decide; [|apply finish_flow_ok]. next ltac:(apply now_ok_ok). apply finish_flow_ok.
Qed.

Lemma check_ok app m l : (∀ l', okay m anything l') → okay (check app m) anything l.
Proof.
  intros Hm. unfold check. next ltac:(by apply catch_any). destruct a as [found|e].
  - case_bool_decide; [apply now_ok_ok|]. unfold add_left. each. by apply okay_modify.
  - case_match; by apply okay_modify.
Qed.
Lemma left_arr_ok app coll l : okay (left_arr env sc app coll) anything l.
Proof. unfold left_arr. next ltac:(apply arr_new_ok). do 3 next ltac:(apply arr_get_ok). done_. Qed.
Lemma left_jellyfin_ok l : okay (left_jellyfin env ctx sc) anything l.
Proof.
  unfold left_jellyfin, virtual_folders. next ltac:(apply jf_login_ok). eapply okay_then; [instantiate (1 := anything); next ltac:(apply jf_get_ok); done_|]. intros folders l1 _ _. cbn zeta.
  eapply okay_then; [eapply catch_any, poll_ok|intros; done_]. intros. unfold items_gone. next ltac:(apply jf_get_ok). done_.
Qed.
Lemma left_files_ok libs l : okay (left_files env sc libs) anything l.
Proof.
  revert l. induction libs as [|lib libs IH]; intros l; cbn [left_files]; [done_|]. eapply okay_then; [apply list_dir_ok|]. intros rd l1 _ _. next ltac:(apply IH). done_.
Qed.
Lemma left_simple l :
  okay (left_seerr env sc) anything l ∧ okay (left_ombi env sc) anything l ∧ okay (left_kavita env sc) anything l ∧ okay (left_komga env sc) anything l ∧
  okay (left_abs env sc) anything l ∧ okay (left_maintainerr env sc) anything l ∧ okay (left_maloja env sc) anything l ∧ okay (left_navidrome env sc) anything l ∧
  okay (left_qbittorrent env sc) anything l.
Proof.
  split_and!.
  - unfold left_seerr. next ltac:(apply seerr_session_ok). next ltac:(apply json_ok; asks). done_.
  - unfold left_ombi. next ltac:(apply ombi_new_ok). next ltac:(apply json_ok; asks). done_.
  - unfold left_kavita. next ltac:(apply kavita_login_ok). next ltac:(apply json_ok; asks). done_.
  - unfold left_komga. next ltac:(apply komga_new_ok). do 2 next ltac:(apply json_ok; asks). done_.
  - unfold left_abs. next ltac:(apply abs_login_ok). next ltac:(apply json_ok; asks). done_.
  - unfold left_maintainerr. next ltac:(apply json_ok; asks). done_.
  - unfold left_maloja, left_maloja_at. do 2 (eapply okay_then; [instantiate (1 := anything); next ltac:(apply json_ok; asks); done_|intros ? ? _ _]). done_.
  - unfold left_navidrome. next ltac:(apply navidrome_login_ok). next ltac:(apply nd_sub_ok). cbn zeta. eapply okay_then; [apply json_or_null_ok; asks|]. intros. done_.
  - unfold left_qbittorrent. next ltac:(apply qbt_login_ok). do 2 next ltac:(apply qbt_get_ok). done_.
Qed.
Lemma note_orphans_ok l : okay (note_orphans env sc) anything l.
Proof. unfold note_orphans. eapply okay_then; [apply json_or_null_ok; asks|]. intros. cbn zeta. case_bool_decide; [done_|apply now_ok_ok]. Qed.
Lemma residue_ok l : okay (residue env ctx sc) anything l.
Proof.
  unfold residue. next ltac:(apply begin_ok). eachn. { apply check_ok. intros. apply left_arr_ok. }
  do 2 next ltac:(apply check_ok; intros; apply left_simple). next ltac:(apply check_ok, left_jellyfin_ok). do 7 next ltac:(apply check_ok; intros; apply left_simple).
  next ltac:(apply check_ok; intros; by apply sweep_discs_ok). next ltac:(apply check_ok; intros; apply left_files_ok). next ltac:(apply note_orphans_ok).
  apply okay_bind, okay_get. intros s. eapply okay_then; [instantiate (1 := anything); case_bool_decide; [done_|apply now_ok_ok]|]. intros. apply finish_flow_ok.
Qed.
End spec.

(** ** Whole passes *)

#[export] Instance Pass_eq_dec : EqDecision Pass.
Proof. solve_decision. Defined.

Section passes.
Context `{SerdeJson, Libs} (env : string → option string) (outside : Log → ∀ x : Act, Ans x).
Definition pass (p : Pass) (ctx : Ctx) (sc : Scope) (dry : bool) : Task Flow :=
  match p with Cleanup => cleanup env ctx sc dry | Residue => residue env ctx sc | Finalize => sessions env ctx sc dry end.
(** Everything a stretch of the log does is allowed at its point. *)
Definition careful (ctx : Ctx) (sc : Scope) (final calm : bool) (l l' : Log) : Prop :=
  ∃ k, l' = l ++ k ∧ ∀ k1 e k2, k = k1 ++ e :: k2 → allowed env ctx sc final calm (l ++ k1) (e_act e).

Lemma pass_careful p ctx sc dry s l :
  careful ctx sc (bool_decide (p = Finalize)) (dry || bool_decide (p = Residue)) l (exec Ans outside (pass p ctx sc dry s) l).1.
Proof.
  assert (Trace.okay Ans (allowed env ctx sc (bool_decide (p = Finalize)) (dry || bool_decide (p = Residue))) (pass p ctx sc dry) anything l) as Hok; [|exact (exec_okay Ans _ outside _ _ s l Hok)].
  destruct p; cbn [pass].
  - apply cleanup_ok. by intros ->.
  - apply (residue_ok _ _ _ _ _ true). done.
  - apply sessions_ok; [by intros ->|done].
Qed.
Lemma careful_refl ctx sc final calm l : careful ctx sc final calm l l.
Proof. exists []. rewrite app_nil_r. split; [done|]. by intros []. Qed.
Lemma careful_trans ctx sc final calm l1 l2 l3 : careful ctx sc final calm l1 l2 → careful ctx sc final calm l2 l3 → careful ctx sc final calm l1 l3.
Proof.
  intros (k & -> & Hk) (k' & -> & Hk'). exists (k ++ k'). rewrite app_assoc. split; [done|]. intros k1 e k2 E.
  apply List.app_eq_app in E as [m [[-> E]|[-> E]]].
  - destruct m as [|y m]; cbn in E.
    + specialize (Hk' [] e k2 (eq_sym E)). by rewrite !app_nil_r in *.
    + injection E as <- ->. by apply (Hk k1 e m).
  - rewrite app_assoc. by apply (Hk' m e k2).
Qed.
Lemma careful_mono ctx sc final final' calm calm' l l' : (final = true → final' = true) → (calm = false → calm' = false) →
  careful ctx sc final calm l l' → careful ctx sc final' calm' l l'.
Proof.
  intros Hf Hc (k & -> & Hk). exists k. split; [done|]. intros k1 e k2 E. destruct (Hk _ _ _ E) as [Hg|[[Hcalm Hm]|[Hfin Ho]]]; [by left| |]; right; [left|right]; auto.
Qed.

(** *** The media family, run by the program *)

Definition World : Type := Log * option (string * string).
Definition sweeper (p : Pass) : Sweep (W := World) := λ ctx sc dry w,
  let st := mkSt w.2 [] [] [] (new_flow 0 "") in
  let '(l, r) := exec Ans outside (pass p ctx sc dry st) w.1 in
  match r with
  | Ok (s, Ok f) => ((l, st_jellyfin s), f)
  | Ok (s, Err e) => ((l, st_jellyfin s), finish 0 (Err e) (st_flow s))
  | Err e => match e with end
  end.
Definition media_family (flows : list (FlowDef (W := World))) : Family (W := World) :=
  mkFamily "media" "Servarr chains, Jellyfin, books, music, SSO redirects, VPN leak tests" "media" flows
    (Some (sweeper Cleanup)) (Some (sweeper Residue)) (Some (sweeper Finalize)).
Lemma sweeper_careful p ctx sc dry w : careful ctx sc (bool_decide (p = Finalize)) (dry || bool_decide (p = Residue)) w.1 (sweeper p ctx sc dry w).1.1.
Proof.
  unfold sweeper. pose proof (pass_careful p ctx sc dry (mkSt w.2 [] [] [] (new_flow 0 "")) w.1) as H'. destruct (exec _ _ _ _) as [l [[s [f|e]]|[]]]; exact H'.
Qed.
Context `{Machine World}.
Lemma sweep_careful ctx p sc dry name st flows : careful ctx sc true dry st.1.1.1 (sweep ctx p sc dry name st (media_family flows)).1.1.1.
Proof.
  assert (∀ p, careful ctx sc true dry st.1.1.1 (sweeper p ctx sc dry st.1.1).1.1) as Hs.
  { intros q. eapply careful_mono; [| |apply (sweeper_careful q)]; [done|]. by intros [-> _]%orb_false_iff. }
  unfold sweep. destruct p; cbn [sweep_of media_family fam_cleanup fam_residue fam_finalize]; [pose proof (Hs Cleanup) as H'|pose proof (Hs Residue) as H'|pose proof (Hs Finalize) as H'];
    destruct (sweeper _ _ _ _ _) as [w' f]; exact H'.
Qed.
Lemma pass_sweeps ctx p sc dry name flows n st : careful ctx sc true dry st.1.1.1 (foldl (sweep ctx p sc dry name) st (replicate n (media_family flows))).1.1.1.
Proof.
  revert st. induction n as [|n IH]; intros st; cbn; [apply careful_refl|]. eapply careful_trans; [apply sweep_careful|apply IH].
Qed.
Lemma sweeps_careful ctx sc dry flows n st : careful ctx sc true dry st.1.1.1 (sweeps ctx (replicate n (media_family flows)) sc dry st).1.1.1.
Proof. unfold sweeps. destruct dry; cbn [foldl]; [eapply careful_trans|eapply careful_trans; [|eapply careful_trans]]; apply pass_sweeps. Qed.

(** Every pass over the media apps, in a run or a cleanup, whatever they answer, only asks, signs in and deletes what an
    answer of the same app has shown with a marker in scope; the residue check and dry passes delete nothing; the
    last pass also ends this run's own Jellyfin session. *)
Theorem passes_marked p ctx sc dry s l :
  ∃ k, (exec Ans outside (pass p ctx sc dry s) l).1 = l ++ k ∧
    ∀ k1 e k2, k = k1 ++ e :: k2 → allowed env ctx sc (bool_decide (p = Finalize)) (dry || bool_decide (p = Residue)) (l ++ k1) (e_act e).
Proof. exact (pass_careful p ctx sc dry s l). Qed.
End passes.

(** ** A cleanup at work *)

Module Reference.
#[export] Instance serde : SerdeJson := λ v, match v with Number (PosInt n) => pretty n | Str s => s | _ => "?" end.
Definition marker : string := "e2e-20261011-031200-ab12".
Definition id_ (n : N) : string * Value := ("id", Number (PosInt n)).
Definition known : list (string * Value) :=
  [("tags", Array [Object [id_ 5; ("label", Str marker)]; Object [id_ 6; ("label", Str "kids")]]);
   ("movies", Array [Object [id_ 1; ("path", Str "/media/movies/Heat"); ("tags", Array [Number (PosInt 6)])];
                     Object [id_ 2; ("path", Str "/media/movies/X"); ("tags", Array [Number (PosInt 5)])]]);
   ("folders", Array []);
   ("requests", Object [("results", Array [Object [id_ 7; ("media", Object [id_ 9; ("mediaType", Str "movie"); ("tmdbId", Number (PosInt 603))]);
                                                    ("rootFolder", Str ("/media/movies/." +:+ marker))]])])].
#[export] Instance libs : Libs := {| reason _ := ""; from_str t := match assoc t known with Some v => Ok v | None => Err "unknown" end |}.
Definition answers : list (string * string) :=
  [("http://radarr.media.svc.cluster.local/api/v3/tag", "tags"); ("http://radarr.media.svc.cluster.local/api/v3/movie", "movies");
   ("http://radarr.media.svc.cluster.local/api/v3/rootfolder", "folders");
   ("http://seerr.media.svc.cluster.local:5055/api/v1/request?take=1&skip=0&filter=all", "requests");
   ("http://seerr.media.svc.cluster.local:5055/api/v1/request?take=200&skip=0&filter=all", "requests")].
Definition answer (rq : Req) : Result Apps.Resp string :=
  if String.eqb (rq_method rq) "DELETE" then Ok (Apps.mkResp 200 [] (Ok ""))
  else if ends_with "/auth/jellyfin" (rq_url rq) then Ok (Apps.mkResp 200 [("set-cookie", "connect.sid=x; Path=/")] (Ok ""))
  else match assoc (rq_url rq) answers with Some t => Ok (Apps.mkResp 200 [] (Ok t)) | None => Ok (Apps.mkResp 500 [] (Ok "")) end.
Definition outside (l : Log) (x : Act) : Ans x :=
  match x return Ans x with
  | Http rq => answer rq
  | ReadFile path => if bool_decide (path ∈ ["/secrets/radarr-apikey/apikey"; "/secrets/jellyfin-admin/password"]) then Some "k" else None
  | ReadDir dir => if String.eqb dir "/media/tv" then Some [("Shows", true); ("." +:+ marker, true)] else None
  | RemoveDirAll _ | RemoveFile _ => Ok ()
  | Command _ _ => Err "no kubectl"
  | Clock => 0%N
  | Sleep _ => ()
  | Connect _ | WriteAll _ => Err ""
  | ReadLine => Err ""
  | UnixTime => None
  | DbConnect _ _ _ _ | Execute _ _ => Err ""
  | Query _ _ => Err ""
  end.
#[export] Instance machine : Machine World := {| instant _ := 0%N; epoch _ := 1760506550000000000%N; pid _ := 1%N |}.
Definition env (name : string) : option string := None.
Definition main (argv : list string) : Exit (W := World) := E2e.main env (λ _ w, (w, true)) [media_family env outside []] argv (([], None), []).
Definition deleted (l : Log) : list string :=
  omap (λ e, match e_act e with
             | Http rq => if String.eqb (rq_method rq) "DELETE" then Some (rq_url rq) else None
             | RemoveDirAll p | RemoveFile p => Some p
             | _ => None
             end) l.
End Reference.
#[local] Existing Instances Reference.serde Reference.libs Reference.machine.

(** The tagged movie, its tag, the marked folder, and the test request; nothing of anybody else. *)
Example cleans_up :
  Reference.deleted (x_world (Reference.main ["cleanup"; "--run"; Reference.marker])).1.1 =
    ["http://seerr.media.svc.cluster.local:5055/api/v1/request/7"; "http://seerr.media.svc.cluster.local:5055/api/v1/media/9";
     "http://radarr.media.svc.cluster.local/api/v3/movie/2?deleteFiles=true&addImportExclusion=false&addImportListExclusion=false";
     "http://radarr.media.svc.cluster.local/api/v3/tag/5"; "/media/tv/.e2e-20261011-031200-ab12"] ∧
  Reference.deleted (x_world (Reference.main ["cleanup"; "--run"; Reference.marker; "--dry-run"])).1.1 = [] ∧
  (x_world (Reference.main ["cleanup"; "--run"; "2026"])).1.1 = [].
Proof. vm_compute. done. Qed.
(** A media row is deleted when Seerr cannot say what is left on it: an answer that failed counts as no requests. *)
Example unread_details_delete :
  ∃ before after, (x_world (Reference.main ["cleanup"; "--run"; Reference.marker])).1.1 = before ++ after ∧
    (∃ r, last before = Some (mkEvent (Http (seerr_req (mkSeerr "http://seerr.media.svc.cluster.local:5055" "connect.sid=x") "GET" "/movie/603")) (Ok r : Ans (Http _))) ∧
          rs_status r = 500%N) ∧
    head (Reference.deleted after) = Some "http://seerr.media.svc.cluster.local:5055/api/v1/media/9".
Proof.
  set (l := (x_world (Reference.main ["cleanup"; "--run"; Reference.marker])).1.1). exists (take 9 l), (drop 9 l). split; [by rewrite take_drop|].
  vm_compute. split; [|done]. by eexists.
Qed.
(** Objects the cleanup deletes and the residue check does not look for: torrents known by their folder, libraries known by
    theirs, scrobbles known by an artist. *)
Example residue_misses :
  let sc := ScopeRun Reference.marker in
  let torrent := Object [("category", Str ""); ("save_path", Str ("/media/downloads/" +:+ Reference.marker)); ("tags", Str "")] in
  let library := Object [("folders", Array [Object [("fullPath", Str ("/media/books/." +:+ Reference.marker))]]); ("name", Str "Books")] in
  torrent_hit sc torrent = true ∧ named "torrent " "name" (λ t, hit_v sc (t.["tags"]) || hit_v sc (t.["category"])) [torrent] = [] ∧
  abs_hit sc library = true ∧ named "library " "name" (λ l, hit_v sc (l.["name"])) [library] = [].
Proof. vm_compute. done. Qed.
