(* ===== verification/Bootstrap.v ===== *)
(** * What the bootstraps share ([apps/app-bootstrap/src/common.rs])

    Requests, retries, secrets and the in-cluster Kubernetes client, as programs over an outside that may answer
    anything ([Trace], with the actions of [Apps]). A program's state is what it has printed; its error is a message. *)

From Stdlib Require Import Ascii.
From stdpp Require Import options.
From S2P Require Import Prelude Text Json Codec Threads Trace Apps.
From S2P Require Ota.

Notation Job := (M Ans (St := list string) (Fa := string)).
Notation Log := (list (Trace.Event Ans)).
Definition say (line : string) : Job () := modify Ans (λ out, out ++ [line]).
Definition fail {A} (msg : string) : Job A := raise Ans msg.
(** [ok_or(msg)?] *)
Definition need {A} (x : option A) (msg : string) : Job A := match x with Some a => mret a | None => fail msg end.
Fixpoint traverse {A B} (f : A → Job B) (xs : list A) : Job (list B) :=
  match xs with [] => mret [] | x :: xs => y ← f x; ys ← traverse f xs; mret (y :: ys) end.
(** A loop that carries its variables. *)
Fixpoint fold_m {A S} (f : S → A → Job S) (s : S) (xs : list A) : Job S :=
  match xs with [] => mret s | x :: xs => s ← f s x; fold_m f s xs end.

(** ** Values that are changed in place

    [v[k] = x]: only ever done to an object here, what [index_object] shows of a value with a field. *)
Fixpoint insert_key {A} (k : string) (x : A) (m : list (string * A)) : list (string * A) :=
  match m with
  | [] => [(k, x)]
  | (k', x') :: m' =>
      match String.compare k k' with Eq => (k, x) :: m' | Lt => (k, x) :: m | Gt => (k', x') :: insert_key k x m' end
  end.
Definition set_key (k : string) (x : Value) (v : Value) : Value :=
  match v with Object m => Object (insert_key k x m) | Null => Object [(k, x)] | _ => v end.
(** [json!({ ... })] *)
Definition json_object (fields : list (string * Value)) : Value := Object (foldl (λ m kv, insert_key kv.1 kv.2 m) [] fields).
Definition json_i64 (z : Z) : Value := Number (if (z <? 0)%Z then NegInt z else PosInt (Z.to_N z)).
Definition array_of (v : Value) : list Value := default [] (as_array v).
Definition object_of (v : Value) : list (string * Value) := match v with Object m => m | _ => [] end.
Definition as_bool (v : Value) : option bool := match v with Bool b => Some b | _ => None end.
(** [v.get(k)] *)
Definition get_key (k : string) (v : Value) : option Value := match v with Object m => assoc k m | _ => None end.
Definition has_value (k : string) (x v : Value) : bool := match get_key k v with Some y => value_eqb y x | None => false end.
(** [v.as_str() == Some(s)] *)
Definition is_text (v : Value) (s : string) : bool := bool_decide (as_str v = Some s).
Definition btree (data : list (string * string)) : list (string * Value) := foldl (λ m kv, insert_key kv.1 (Str kv.2) m) [] data.
Definition eq_ignore_ascii_case (a b : string) : bool := bool_decide (to_lowercase a = to_lowercase b).

Lemma assoc_insert {A} k (x : A) m : assoc k (insert_key k x m) = Some x.
Proof.
  induction m as [|[k' x'] m IH]; cbn; [by rewrite decide_True|]. destruct (String.compare k k') eqn:E; cbn; [by rewrite decide_True|by rewrite decide_True|].
  rewrite decide_False; [done|]. intros ->. pose proof (String.compare_antisym k' k') as Ea. by rewrite E in Ea.
Qed.
Lemma assoc_insert_ne {A} k j (x : A) m : j ≠ k → assoc j (insert_key k x m) = assoc j m.
Proof.
  intros Hj. induction m as [|[k' x'] m IH]; cbn; [by rewrite decide_False|]. destruct (String.compare k k') eqn:E; cbn.
  - apply String.compare_eq_iff in E as <-. by rewrite !decide_False.
  - by rewrite (decide_False (P := j = k)).
  - by rewrite IH.
Qed.
Lemma str_compare_refl k : String.compare k k = Eq.
Proof. pose proof (String.compare_antisym k k) as E. by destruct (String.compare k k). Qed.
Lemma insert_key_twice {A} k (x : A) m : insert_key k x (insert_key k x m) = insert_key k x m.
Proof.
  induction m as [|[k' x'] m IH]; cbn.
  - by rewrite str_compare_refl.
  - destruct (String.compare k k') eqn:E; cbn; rewrite ?str_compare_refl, ?E; [done|done|by rewrite IH].
Qed.
Lemma read_i64 z : (- 2 ^ 63 <= z < 2 ^ 63)%Z → value_as_i64 (json_i64 z) = Some z.
Proof.
  intros Hz. unfold json_i64. destruct (z <? 0)%Z eqn:E; [done|]. apply Z.ltb_ge in E. cbn. rewrite Z2N.id by done. by rewrite (proj2 (Z.ltb_lt z (2 ^ 63)%Z)) by apply Hz.
Qed.
Lemma index_object v k : v.[k] ≠ Null → ∃ m, v = Object m.
Proof. destruct v; try done. by eexists. Qed.
Lemma set_key_index k x m : (set_key k x (Object m)).[k] = x.
Proof. cbn. by rewrite assoc_insert. Qed.
Lemma set_key_index_ne k j x m : j ≠ k → (set_key k x (Object m)).[j] = (Object m).[j].
Proof. intros Hj. cbn. by rewrite assoc_insert_ne. Qed.
Lemma set_key_object k x m : ∃ m', set_key k x (Object m) = Object m'.
Proof. by eexists. Qed.

Section common.
Context `{SerdeJson, Libs} (env : string → option string).
Implicit Types (name what : string).

Definition var name (dflt : string) : string := default dflt (env name).
Definition is_eol (c : ascii) : bool := bool_decide (c = newline) || bool_decide (c = carriage_return).
Definition read_to_string (path : string) : Job string :=
  t ← do Ans (ReadFile path); need t ("cannot read " +:+ path).
Definition secret name : Job string :=
  match env (name +:+ "_FILE") with
  | Some path => t ← read_to_string path; mret (trim_end_matches is_eol t)
  | None => need (env name) ("set " +:+ name +:+ "_FILE or " +:+ name)
  end.

(** ** Requests *)

Definition send (rq : Req) : Job Resp :=
  r ← do Ans (Http rq); match r with Ok r => mret r | Err e => fail e end.
Definition ok (r : Resp) what : Job Resp :=
  if is_success (rs_status r) then mret r
  else fail (what +:+ ": HTTP " +:+ status_text (rs_status r) +:+ ": " +:+ str (take 300 (chars (match rs_text r with Ok t => t | Err _ => "" end)))).
(** [Response::json] *)
Definition json_body (r : Resp) : Job Value :=
  match rs_text r with
  | Err e => fail e
  | Ok t => match from_str t with Ok v => mret v | Err e => fail e end
  end.

(** ** [retry]: every 5 s, [attempts] times in all *)

(** [n] tries are done, [rest] more can follow this one. *)
Fixpoint retry_from {A} (what : string) (attempts n : N) (rest : nat) (f : Job A) : Job A :=
  let n := (n + 1)%N in
  r ← catch Ans f;
  match r with
  | Ok v => mret v
  | Err e =>
      match rest with
      | O => fail e
      | S rest =>
          _ ← say (what +:+ " (" +:+ pretty n +:+ "/" +:+ pretty attempts +:+ "): " +:+ e);
          _ ← do Ans (Sleep 5000000000); retry_from what attempts n rest f
      end
  end.
Definition retry {A} what (attempts : N) (f : Job A) : Job A := retry_from what attempts 0 (N.to_nat attempts - 1) f.

(** ** Kubernetes *)

Record Kube : Type := mkKube { api : string; token : string; namespace : string }.
Definition SA_DIR : string := "/var/run/secrets/kubernetes.io/serviceaccount".
(** Whether a certificate is one is for the TLS library to say. *)
Definition kube_new (from_pem : string → Result () string) : Job Kube :=
  host ← need (env "KUBERNETES_SERVICE_HOST") "environment variable not found";
  port ← need (env "KUBERNETES_SERVICE_PORT") "environment variable not found";
  ca ← read_to_string (SA_DIR +:+ "/ca.crt");
  _ ← (match from_pem ca with Ok _ => mret () | Err e => fail e end : Job ());
  token ← read_to_string (SA_DIR +:+ "/token");
  namespace ← read_to_string (SA_DIR +:+ "/namespace");
  mret (mkKube ("https://" +:+ host +:+ ":" +:+ port) (trim token) (trim namespace)).

Definition kube_url (k : Kube) (kind : string) : string := api k +:+ "/api/v1/namespaces/" +:+ namespace k +:+ "/" +:+ kind.
Definition kube_req (k : Kube) (method url : string) : Req := with_header (bearer (token k)) (plain method url).
Definition merge_patch (k : Kube) (url : string) (body : Value) : Req :=
  with_body (JsonBody body) (with_header ("content-type", "application/merge-patch+json") (kube_req k "PATCH" url)).
Definition kube_post (k : Kube) (url : string) (body : Value) : Req := with_body (JsonBody body) (kube_req k "POST" url).

Definition from_utf8 (bytes : string) : option string :=
  if Ota.utf8_valid (N_of_ascii <$> chars bytes) then Some bytes else None.
Definition secret_value (k : Kube) (name key : string) : Job (option string) :=
  r ← send (kube_req k "GET" (kube_url k "secrets" +:+ "/" +:+ name));
  if bool_decide (rs_status r = 404%N) then mret None
  else
    r ← ok r "get secret";
    cur ← json_body r;
    match as_str (cur.["data"].[key]) with
    | Some v => b ← need (unb64 v) "invalid base64"; s ← need (from_utf8 b) "invalid utf-8"; mret (Some s)
    | None => mret None
    end.
Definition config_map_keys (k : Kube) (name : string) : Job (list string) :=
  r ← send (kube_req k "GET" (kube_url k "configmaps" +:+ "/" +:+ name));
  if bool_decide (rs_status r = 404%N) then mret []
  else r ← ok r "get configmap"; cur ← json_body r; mret (object_of (cur.["data"])).*1.
Definition config_map_body (name key value : string) : Value :=
  Object [("apiVersion", Str "v1"); ("data", Object [(key, Str value)]); ("kind", Str "ConfigMap"); ("metadata", Object [("name", Str name)])].
Definition config_map_set (k : Kube) (name key value : string) : Job () :=
  let url := kube_url k "configmaps" in
  let body := config_map_body name key value in
  r ← send (merge_patch k (url +:+ "/" +:+ name) body);
  if bool_decide (rs_status r = 404%N) then r ← send (kube_post k url body); _ ← ok r "create configmap"; mret ()
  else _ ← ok r "patch configmap"; mret ().

Definition secret_body (name : string) (data : list (string * string)) : Value :=
  Object [("apiVersion", Str "v1"); ("kind", Str "Secret"); ("metadata", Object [("name", Str name)]); ("stringData", Object (btree data)); ("type", Str "Opaque")].
(** Every pair of [data] is in the Secret already. *)
Definition same_data (cur : Value) (data : list (string * string)) : bool :=
  forallb (λ kv, bool_decide (as_str (cur.["data"].[kv.1]) = Some (b64 kv.2))) data.
Definition ensure_secret (k : Kube) (name : string) (data : list (string * string)) : Job bool :=
  let url := kube_url k "secrets" in
  let body := secret_body name data in
  r ← send (kube_req k "GET" (url +:+ "/" +:+ name));
  if bool_decide (rs_status r = 404%N) then r ← send (kube_post k url body); _ ← ok r "create secret"; mret true
  else
    r ← ok r "get secret";
    cur ← json_body r;
    if same_data cur data then mret false
    else r ← send (merge_patch k (url +:+ "/" +:+ name) body); _ ← ok r "patch secret"; mret true.
End common.

(** ** What these programs do, by the judgement of [Trace] *)

Section judge.
Context `{SerdeJson, Libs} (allowed : Log → Act → Prop).
Notation okay := (Trace.okay Ans allowed (St := list string) (Fa := string)).
#[local] Set Default Proof Using "Type".

Definition reads (r : Resp) (v : Value) : Prop := is_success (rs_status r) = true ∧ ∃ t, rs_text r = Ok t ∧ from_str t = Ok v.
Lemma say_ok line (Q : () → Log → Prop) l : Q () l → okay (say line) Q l.
Proof. apply okay_modify. Qed.
Lemma need_ok {A} (x : option A) msg l : okay (need x msg) (λ a l', x = Some a ∧ l' = l) l.
Proof. unfold need. destruct x; [by apply okay_ret|apply okay_raise]. Qed.
Lemma request_ok rq l : allowed l (Http rq) → okay (send rq) (λ r l', l' = l ++ [mkEvent (Http rq) (Ok r : Ans (Http rq))]) l.
Proof.
  intros Hx. unfold send. apply okay_bind. refine (okay_do Ans allowed (Http rq) _ _ Hx _). intros [r|e]; [by apply okay_ret|apply okay_raise].
Qed.
Lemma ok_ok r what l : okay (ok r what) (λ r' l', r' = r ∧ l' = l ∧ is_success (rs_status r) = true) l.
Proof. unfold ok. destruct (is_success _) eqn:E; [by apply okay_ret|apply okay_raise]. Qed.
Lemma json_body_ok r l : okay (json_body r) (λ v l', l' = l ∧ ∃ t, rs_text r = Ok t ∧ from_str t = Ok v) l.
Proof. unfold json_body. destruct (rs_text r) as [t|]; [|apply okay_raise]. destruct (from_str t) eqn:E; [|apply okay_raise]. apply okay_ret. eauto. Qed.
Lemma retry_ok {A} what attempts (f : Job A) (Q : A → Log → Prop) l : (∀ l' ns, allowed l' (Sleep ns)) → (∀ l', l `prefix_of` l' → okay f Q l') → okay (retry what attempts f) Q l.
Proof.
  unfold retry. generalize 0%N. generalize (N.to_nat attempts - 1). intros rest n Hz Hf. revert l n Hf.
  induction rest as [|rest IH]; intros l n Hf; cbn [retry_from].
  - eapply okay_then; [apply catch_any, Hf; done|]. intros [a|e] l1 _ Hq; [by apply okay_ret|apply okay_raise].
  - eapply okay_then; [apply catch_any, Hf; done|]. intros [a|e] l1 Hl1 Hq; [by apply okay_ret|].
    eapply okay_then; [by apply (say_ok _ (λ _ _, True))|]. intros _ l2 Hl2 _. apply okay_bind.
    refine (okay_do Ans allowed (Sleep _) _ _ _ _); [apply Hz|]. intros []. apply IH. intros l' Hl'. apply Hf.
    do 2 (etrans; [eassumption|]). etrans; [|exact Hl']. by eexists.
Qed.
Lemma traverse_ok {A B} (f : A → Job B) (P : A → B → Log → Prop) xs l :
  (∀ x y l l', l `prefix_of` l' → P x y l → P x y l') → (∀ x l', x ∈ xs → l `prefix_of` l' → okay (f x) (λ y l'', P x y l'') l') →
  okay (traverse f xs) (λ ys l', Forall2 (λ x y, P x y l') xs ys) l.
Proof.
  intros Hm. revert l. induction xs as [|x xs IH]; intros l Hf; cbn [traverse]; [by apply okay_ret|].
  eapply okay_then; [apply Hf; [by left|done]|]. intros y l1 Hl1 Hy. eapply okay_then.
  { apply IH. intros x' l' Hx Hl'. apply Hf; [by right|by etrans]. }
  intros ys l2 Hl2 Hys. apply okay_ret. constructor; [by eapply Hm|done].
Qed.
Lemma fold_ok {A S} (f : S → A → Job S) (I : S → list A → Log → Prop) xs seen st l :
  I st seen l → (∀ st x seen l', x ∈ xs → l `prefix_of` l' → I st seen l' → okay (f st x) (λ st' l'', I st' (seen ++ [x]) l'') l') →
  okay (fold_m f st xs) (λ st' l', I st' (seen ++ xs) l') l.
Proof.
  revert st seen l. induction xs as [|x xs IH]; intros st seen l HI Hf; cbn [fold_m]; [apply okay_ret; by rewrite app_nil_r|].
  eapply okay_then; [apply Hf; [by left|done|exact HI]|]. intros st' l1 Hl1 HI'. eapply okay_mono.
  - apply (IH st' (seen ++ [x])); [exact HI'|]. intros s2 y seen' l' Hy Hl' HI2. apply Hf; [by right|by etrans|done].
  - intros a l' _. by rewrite <- app_assoc.
Qed.
Lemma for_each_all {A} (f : A → Job ()) (P : A → Log → Prop) xs l :
  (∀ x l l', l `prefix_of` l' → P x l → P x l') → (∀ x l', x ∈ xs → l `prefix_of` l' → okay (f x) (λ _ l'', P x l'') l') →
  okay (for_each Ans xs f) (λ _ l', Forall (λ x, P x l') xs) l.
Proof.
  intros Hm. revert l. induction xs as [|x xs IH]; intros l Hf; cbn [for_each]; [by apply okay_ret|].
  eapply okay_then; [apply Hf; [by left|done]|]. intros [] l1 Hl1 Hx. eapply okay_mono.
  - apply IH. intros y l' Hy Hl'. apply Hf; [by right|by etrans].
  - intros [] l2 Hl2 Hxs. constructor; [by eapply Hm|done].
Qed.

(** What was answered, and what was accepted. *)
Definition answered (l : Log) (rq : Req) (v : Value) : Prop := ∃ r, mkEvent (Http rq) (Ok r : Ans (Http rq)) ∈ l ∧ reads r v.
Definition accepted (l : Log) (rq : Req) : Prop := ∃ r, mkEvent (Http rq) (Ok r : Ans (Http rq)) ∈ l ∧ is_success (rs_status r) = true.
Lemma answered_later l l' rq v : l `prefix_of` l' → answered l rq v → answered l' rq v.
Proof. intros [k ->] (r & Hin & Hr). exists r. split; [by apply elem_of_app; left|done]. Qed.
Lemma accepted_later l l' rq : l `prefix_of` l' → accepted l rq → accepted l' rq.
Proof. intros [k ->] (r & Hin & Hr). exists r. split; [by apply elem_of_app; left|done]. Qed.
Lemma answered_accepted l rq v : answered l rq v → accepted l rq.
Proof. intros (r & Hin & Hs & _). by exists r. Qed.
Lemma value_ok rq what l : allowed l (Http rq) → okay (r ← send rq; r ← ok r what; json_body r) (λ v l', answered l' rq v) l.
Proof.
  intros Hx. eapply okay_then; [by apply request_ok|]. intros r l1 _ ->. eapply okay_then; [apply ok_ok|]. intros r' l2 _ (-> & -> & Hs).
  eapply okay_mono; [apply json_body_ok|]. intros v l3 _ (-> & Ht). exists r. split; [apply elem_of_app; right; by left|done].
Qed.
Lemma value_then {A} rq what (f : Value → Job A) Q l : allowed l (Http rq) → (∀ v l', l `prefix_of` l' → answered l' rq v → okay (f v) Q l') →
  okay (r ← send rq; r ← ok r what; v ← json_body r; f v) Q l.
Proof.
  intros Hx Hf. eapply okay_then; [by apply request_ok|]. intros r l1 Hl1 ->. eapply okay_then; [apply ok_ok|]. intros r' l2 _ (-> & -> & Hs).
  eapply okay_then; [apply json_body_ok|]. intros v l3 _ (-> & Ht). apply Hf; [done|]. exists r. split; [apply elem_of_app; right; by left|done].
Qed.
Lemma commanded_ok rq what l : allowed l (Http rq) → okay (r ← send rq; _ ← ok r what; mret ()) (λ _ l', accepted l' rq) l.
Proof.
  intros Hx. eapply okay_then; [by apply request_ok|]. intros r l1 _ ->. eapply okay_then; [apply ok_ok|]. intros r' l2 _ (-> & -> & Hs).
  apply okay_ret. exists r. split; [apply elem_of_app; right; by left|done].
Qed.
Lemma read_file_okay path l : allowed l (ReadFile path) →
  okay (read_to_string path) (λ t l', mkEvent (ReadFile path) (Some t : Ans (ReadFile path)) ∈ l') l.
Proof.
  intros Hx. unfold read_to_string. apply okay_bind. refine (okay_do Ans allowed (ReadFile path) _ _ Hx _).
  intros [t|]; cbn [need]; [|apply okay_raise]. apply okay_ret. apply elem_of_app. right. by left.
Qed.
Lemma secret_okay env name l : (∀ path l', allowed l' (ReadFile path)) → okay (secret env name) (λ _ _, True) l.
Proof.
  intros Hx. unfold secret. destruct (env (name +:+ "_FILE")).
  - eapply okay_then; [by apply read_file_okay|]. intros ? l1 _ _. by apply okay_ret.
  - eapply okay_mono; [apply need_ok|done].
Qed.
End judge.

(** ** Writing Secrets ([Kube::ensure_secret] of [apps/app-bootstrap/src/common.rs])

    A Secret is written only after an answer that it is missing or that a pair of [data] is not in it, and when the
    function returns, either it held every pair or the write was accepted. *)

Section secrets.
Context `{SerdeJson, Libs} (k : Kube) (name : string) (data : list (string * string)).
Implicit Types (l : Log).
#[local] Set Default Proof Using "Type".

Definition look_secret : Req := kube_req k "GET" (kube_url k "secrets" +:+ "/" +:+ name).
Definition create_secret : Req := kube_post k (kube_url k "secrets") (secret_body name data).
Definition patch_secret : Req := merge_patch k (kube_url k "secrets" +:+ "/" +:+ name) (secret_body name data).
Definition replied l (rq : Req) (r : Resp) : Prop := mkEvent (Http rq) (Ok r : Ans (Http rq)) ∈ l.
Inductive secret_step l : Act → Prop :=
  | s_look : secret_step l (Http look_secret)
  | s_create r : replied l look_secret r → rs_status r = 404%N → secret_step l (Http create_secret)
  | s_patch r cur : replied l look_secret r → reads r cur → same_data cur data = false → secret_step l (Http patch_secret).
Definition secret_holds (changed : bool) l : Prop :=
  if changed then ∃ rq r, (rq = create_secret ∨ rq = patch_secret) ∧ replied l rq r ∧ is_success (rs_status r) = true
  else ∃ r cur, replied l look_secret r ∧ reads r cur ∧ same_data cur data = true.

Lemma write_ok rq what l : secret_step l (Http rq) → rq = create_secret ∨ rq = patch_secret →
  Trace.okay Ans secret_step (St := list string) (Fa := string) (r ← send rq; _ ← ok r what; mret true) secret_holds l.
Proof.
  intros Hx Hrq. eapply okay_then; [by apply request_ok|]. intros r l1 _ ->. eapply okay_then; [apply ok_ok|]. intros _ l2 _ (_ & -> & Hs).
  apply okay_ret. exists rq, r. split_and!; [done| |done]. unfold replied. set_solver.
Qed.
Lemma ensure_secret_ok l : Trace.okay Ans secret_step (St := list string) (Fa := string) (ensure_secret k name data) secret_holds l.
Proof.
  unfold ensure_secret. eapply okay_then; [apply request_ok, s_look|]. intros r l1 _ ->.
  assert (replied (l ++ [mkEvent (Http look_secret) (Ok r : Ans (Http look_secret))]) look_secret r) as Hr. { unfold replied. set_solver. }
  case_bool_decide as H4; [apply write_ok; [by eapply s_create|by left]|].
  eapply okay_then; [apply ok_ok|]. intros r' l2 _ (-> & -> & Hs). eapply okay_then; [apply json_body_ok|]. intros cur l3 _ (-> & Ht).
  destruct (same_data cur data) eqn:Es; [apply okay_ret; by exists r, cur|]. apply write_ok; [by eapply s_patch|by right].
Qed.
(** A Secret is looked at first, created only when it was not found, patched only when a pair differs, and in the end it
    was seen to hold every pair or its write was accepted. *)
Theorem ensure_secret_spec outside out l : let run := exec Ans outside (ensure_secret k name data out) l in
  (∃ ks, run.1 = l ++ ks ∧ ∀ k1 e k2, ks = k1 ++ e :: k2 → secret_step (l ++ k1) (e_act e)) ∧
  (∀ out' changed, run.2 = Ok (out', Ok changed) → secret_holds changed run.1).
Proof.
  split; [by destruct (exec_okay Ans secret_step outside _ _ out l (ensure_secret_ok l)) as (ks & Ek & Hk); exists ks|].
  intros out' changed E. destruct (exec_holds Ans secret_step outside _ _ _ (ensure_secret_ok l out)) as [HQ _]. rewrite E in HQ. by destruct HQ.
Qed.
End secrets.

(** A Secret with a pair more counts as the same: it is not made to hold exactly the data. *)
Example leftover_stays :
  same_data (Object [("data", Object [("old", Str "eA=="); ("user", Str "YQ==")])]) [("user", "a")] = true.
Proof. vm_compute. done. Qed.
