(* ===== verification/Servarr.v ===== *)
(** * Wiring the Servarr apps ([apps/app-bootstrap/src/arr.rs])

    Root folders, download clients, Prowlarr's applications and indexers, the ntfy notifications and the import of
    the movies already there. Characters are bytes of ASCII text. *)

From Stdlib Require Import Ascii.
From stdpp Require Import options.
From S2P Require Import Prelude Text Json Codec Threads Trace Markers Apps Bootstrap.

Record Servarr : Type := mkServarr { base : string; key : string; api : string }.
Record App : Type := mkApp { a_name : string; a_env : string; host : string; a_api : string; root : string; folder : string; category : string; prowlarr_as : string }.
Definition APPS : list App := [
  mkApp "Sonarr" "SONARR" "sonarr" "v3" "/media/tv" "TV" "sonarr" "Sonarr";
  mkApp "Radarr" "RADARR" "radarr" "v3" "/media/movies" "Movies" "radarr" "Radarr";
  mkApp "Lidarr" "LIDARR" "lidarr" "v1" "/media/music" "Music" "lidarr" "Lidarr";
  mkApp "Bookshelf" "BOOKSHELF" "bookshelf" "v1" "/media/books" "Books" "bookshelf" "Readarr";
  mkApp "Bookshelf Audio" "BOOKSHELF_AUDIO" "bookshelf-audio" "v1" "/media/audiobooks" "Audiobooks" "bookshelf-audio" "Readarr"].

Definition is_slash (c : ascii) : bool := bool_decide (c = "/"%char).
Definition no_slash (p : string) : string := trim_end_matches is_slash p.
Definition list_min (l : list Z) : option Z := match l with [] => None | z :: l => Some (foldl Z.min z l) end.
Definition ids_of (l : list Value) : list Z := omap (λ p, value_as_i64 (p.["id"])) l.
Definition first_id (v : Value) : option Z :=
  l ← as_array v; list_min (List.filter (λ i, negb (i =? 0)%Z) (ids_of l)).

(** Fields the schema names get the value [set] has for them. *)
Definition fill_field (set : string → option Value) (f : Value) : Value :=
  match as_str (f.["name"]) ≫= set with Some v => set_key "value" v f | None => f end.
Definition fill_fields (set : string → option Value) (schema : Value) : Value :=
  set_key "fields" (match schema.["fields"] with Array l => Array (fill_field set <$> l) | v => v end) schema.
Definition set_keys (extra : list (string * Value)) (body : Value) : Value := foldl (λ b kv, set_key kv.1 kv.2 b) body extra.

Definition is_category (f : string) : bool :=
  eq_ignore_ascii_case f "category" || (ends_with "Category" f && negb (contains "Post" f) && negb (contains "Recent" f) && negb (contains "Older" f)).
Definition qbt_fields (host : string) (port : Z) (user pass category : string) (f : string) : option Value :=
  if bool_decide (f = "host") then Some (Str host)
  else if bool_decide (f = "port") then Some (json_i64 port)
  else if bool_decide (f = "useSsl") then Some (Bool false)
  else if bool_decide (f = "username") then Some (Str user)
  else if bool_decide (f = "password") then Some (Str pass)
  else if is_category f then Some (Str category)
  else None.
(** The server and the topic of [https://host/topic]. *)
Definition ntfy_split (url : string) : option (string * string) :=
  '(server, topic) ← rsplit_once "/" (no_slash url);
  if negb (contains "://" server) || bool_decide (topic = "") then None else Some (server, topic).
Definition ntfy_fields (url : string) (token : option string) : option (string → option Value) :=
  '(server, topic) ← ntfy_split url;
  Some (λ f, if bool_decide (f = "serverUrl") then Some (Str server)
             else if bool_decide (f = "topics") then Some (Array [Str topic])
             else if bool_decide (f = "priority") then Some (json_i64 3)
             else if bool_decide (f = "accessToken") then Str <$> token
             else None).

(** *** Does an indexer differ from what is declared? *)

Fixpoint insert_z (z : Z) (l : list Z) : list Z :=
  match l with [] => [z] | y :: l' => if (z <=? y)%Z then z :: l else y :: insert_z z l' end.
Definition sort_z (l : list Z) : list Z := foldr insert_z [] l.
Definition field_value (have : Value) (name : string) : option Value :=
  (λ f, f.["value"]) <$> List.find (λ f, value_is_str (f.["name"]) name) (array_of (have.["fields"])).
Definition field_differs (have : Value) (nv : string * Value) : bool :=
  match field_value have nv.1 with Some v => negb (value_eqb v nv.2) | None => true end.
Definition indexer_differs (have : Value) (enable : bool) (priority : Z) (tags : list Z) (fields : list (string * Value)) : bool :=
  if negb (value_eqb (have.["enable"]) (Bool enable)) || negb (value_eqb (have.["priority"]) (json_i64 priority)) then true
  else if negb (bool_decide (sort_z (omap value_as_i64 (array_of (have.["tags"]))) = sort_z tags)) then true
  else existsb (field_differs have) fields.

(** *** Matching a folder to a movie *)

Definition norm (title : string) : string := to_lowercase (str (List.filter is_ascii_alphanumeric (chars title))).
Definition title_of (v : Value) : string := default "" (as_str v).
Definition year_ok (year : Z) (r : Value) : bool :=
  bool_decide (value_as_i64 (r.["year"]) = Some year) && negb (default 0%Z (value_as_i64 (r.["tmdbId"])) =? 0)%Z.
Definition title_ok (want : string) (r : Value) : bool :=
  String.eqb (norm (title_of (r.["title"]))) want || String.eqb (norm (title_of (r.["originalTitle"]))) want
  || existsb (λ a, String.eqb (norm (title_of (a.["title"]))) want) (array_of (r.["alternateTitles"])).
Definition pick_match (results : Value) (title : string) (year : Z) : option Value :=
  l ← as_array results;
  let hits := List.filter (title_ok (norm title)) (List.filter (year_ok year) l) in
  first ← head hits;
  if forallb (λ h, value_eqb (h.["tmdbId"]) (first.["tmdbId"])) hits then Some first else None.
(** [query_pairs_mut().append_pair]: form encoding *)
Definition form_byte (c : ascii) : list ascii :=
  if is_ascii_alphanumeric c || bool_decide (c ∈ chars "*-._") then [c]
  else if bool_decide (c = " "%char) then ["+"%char]
  else ["%"%char; upper_hex (N_of_ascii c / 16); upper_hex (N_of_ascii c mod 16)].
Definition form_encode (s : string) : string := str (flat_map form_byte (chars s)).
Definition query (path key value : string) : string := path +:+ "?" +:+ form_encode key +:+ "=" +:+ form_encode value.

(** The program's own tests. *)
Example servarr_tests :
  let jn z := json_i64 z in
  let have := Object [("enable", Bool true); ("fields", Array [Object [("name", Str "titleOnly"); ("value", Bool true)]]); ("priority", jn 25%Z); ("tags", Array [jn 2%Z; jn 1%Z])] in
  let brian := Object [("alternateTitles", Array [Object [("title", Str "Monty Python's Life of Brian")]]); ("title", Str "Life of Brian"); ("tmdbId", jn 583%Z); ("year", jn 1979%Z)] in
  let results := Array [brian; Object [("title", Str "Life of Brian"); ("tmdbId", jn 9%Z); ("year", jn 1980%Z)]; Object [("title", Str "Other"); ("tmdbId", jn 5%Z); ("year", jn 1979%Z)]] in
  indexer_differs have true 25 [1; 2]%Z [("titleOnly", Bool true)] = false ∧ indexer_differs have true 25 [1]%Z [("titleOnly", Bool true)] = true ∧
  indexer_differs have true 25 [1; 2]%Z [("noMagnet", Bool true)] = true ∧
  pick_match results "Monty Pythons Life of Brian" 1979 = Some brian ∧ pick_match results "Life of Brian" 1990 = None ∧ norm "WALL-E" = "walle" ∧
  query "/parse" "title" "A (1) [x]" = "/parse?title=A+%281%29+%5Bx%5D" ∧
  ntfy_split "https://ntfy.example/media" = Some ("https://ntfy.example", "media") ∧ ntfy_split "media" = None ∧ ntfy_split "https://ntfy.example/" = None ∧
  (let set := qbt_fields "qb" 8080 "admin" "pw" "sonarr" in set "tvCategory" = Some (Str "sonarr") ∧ set "recentTvPriority" = None ∧ set "tvPostImportCategory" = None ∧ set "port" = Some (jn 8080%Z)) ∧
  first_id (Array [Object [("id", jn 0%Z)]; Object [("id", jn 7%Z)]; Object [("id", jn 3%Z)]]) = Some 3%Z.
Proof. vm_compute. done. Qed.

(** ** Requests *)

Section servarr.
Context `{SerdeJson, Libs} (env : string → option string).
Implicit Types (s : Servarr) (path name : string).

Definition url s path : string := no_slash (base s) +:+ "/api/" +:+ api s +:+ path.
Definition req s (method path : string) : Req := with_header ("x-api-key", key s) (plain method (url s path)).
Definition req_body s (method path : string) (body : Value) : Req := with_body (JsonBody body) (req s method path).
Definition call s (rq : Req) (what : string) : Job Value := r ← send rq; r ← ok r what; json_body r.
Definition get s path : Job Value := call s (req s "GET" path) ("GET " +:+ path).
Definition post s path (body : Value) : Job Value := call s (req_body s "POST" path body) ("POST " +:+ path).
Definition put s path (body : Value) : Job Value := call s (req_body s "PUT" path body) ("PUT " +:+ path).
Definition wait s (what : string) : Job () := retry ("waiting for " +:+ what) 120 (_ ← get s "/system/status"; mret ()).
Definition optional_secret name : Job (option string) :=
  if bool_decide (is_Some (env (name +:+ "_FILE"))) || bool_decide (is_Some (env name)) then v ← secret env name; mret (Some v) else mret None.

(** ** Root folders *)

Definition is_folder path (f : Value) : bool :=
  match as_str (f.["path"]) with Some p => String.eqb (no_slash p) (no_slash path) | None => false end.
Definition ensure_named_root_folder s path name : Job bool :=
  folders ← get s "/rootfolder";
  if existsb (is_folder path) (array_of folders) then mret false
  else
    body ← (if bool_decide (api s = "v1") then
              qs ← get s "/qualityprofile"; quality ← need (first_id qs) "no quality profile";
              ms ← get s "/metadataprofile"; metadata ← need (first_id ms) "no metadata profile";
              mret (Object [("defaultMetadataProfileId", json_i64 metadata); ("defaultMonitorOption", Str "all"); ("defaultNewItemMonitorOption", Str "all");
                            ("defaultQualityProfileId", json_i64 quality); ("defaultTags", Array []); ("isCalibreLibrary", Bool false);
                            ("name", Str name); ("path", Str path)])
            else mret (Object [("path", Str path)]) : Job Value);
    _ ← post s "/rootfolder" body;
    mret true.
Definition ensure_root_folder s path : Job bool := ensure_named_root_folder s path "Music".

(** ** Providers *)

Definition is_provider (name implementation : string) (by_impl : bool) (p : Value) : bool :=
  value_is_str (p.["name"]) name || (by_impl && value_is_str (p.["implementation"]) implementation).
Definition provider_body (name : string) (extra : Value) (set : string → option Value) (schema : Value) : Value :=
  set_keys (object_of extra) (set_key "enable" (Bool true) (set_key "name" (Str name) (fill_fields set schema))).
Definition ensure_provider_by s (collection name implementation : string) (by_impl : bool) (extra : Value) (set : string → option Value) : Job bool :=
  existing ← get s collection;
  if existsb (is_provider name implementation by_impl) (array_of existing) then mret false
  else
    schemas ← get s (collection +:+ "/schema");
    schema ← need (List.find (λ p, value_is_str (p.["implementation"]) implementation) (array_of schemas))
               (collection +:+ ": no " +:+ implementation +:+ " in the schema");
    _ ← post s (collection +:+ "?forceSave=true") (provider_body name extra set schema);
    mret true.
Definition ensure_provider s (collection name implementation : string) (extra : Value) (set : string → option Value) : Job bool :=
  ensure_provider_by s collection name implementation true extra set.

(** ** qBittorrent's save path *)

Definition qbt_cookie (r : Resp) : option string :=
  before_semicolon <$> List.find (λ c, starts_with "SID=" c || starts_with "QBT_SID_" c) (cookies r).
Definition qbt_login_req (base user pass : string) : Req :=
  with_body (FormBody [("username", user); ("password", pass)]) (with_header ("referer", base) (plain "POST" (base +:+ "/api/v2/auth/login"))).
Definition save_prefs (base sid save_path : string) : Req :=
  with_body (FormBody [("json", to_string (Object [("save_path", Str save_path)]))]) (qbt_req (mkQbt base sid) "POST" "/app/setPreferences").
Definition saves_to (save_path : string) (prefs : Value) : bool :=
  match as_str (prefs.["save_path"]) with Some p => String.eqb (no_slash p) (no_slash save_path) | None => false end.
Definition ensure_qbittorrent_save_path (base user pass save_path : string) : Job bool :=
  r ← send (qbt_login_req base user pass);
  sid ← need (qbt_cookie r) "qbittorrent login did not set a session cookie (wrong password?)";
  r ← send (qbt_req (mkQbt base sid) "GET" "/app/preferences");
  r ← ok r "GET /app/preferences";
  prefs ← json_body r;
  if saves_to save_path prefs then mret false
  else r ← send (save_prefs base sid save_path); _ ← ok r "POST /app/setPreferences"; mret true.

(** ** Tags and indexers *)

Definition has_label (label : string) (t : Value) : bool :=
  match as_str (t.["label"]) with Some l => eq_ignore_ascii_case l label | None => false end.
Definition tag_id (tags : Value) (label : string) : option Z := t ← List.find (has_label label) (array_of tags); value_as_i64 (t.["id"]).
Definition ensure_tag s (label : string) : Job Z :=
  tags ← get s "/tag";
  match tag_id tags label with
  | Some id => mret id
  | None => t ← post s "/tag" (Object [("label", Str label)]); need (value_as_i64 (t.["id"])) ("tag " +:+ label +:+ ": no id in the reply")
  end.

Definition secret_field name (kf : string * Value) : Job (string * Value) :=
  path ← need (as_str kf.2) ("indexer " +:+ name +:+ ": secret " +:+ kf.1 +:+ " is not a file path");
  t ← read_to_string path;
  mret (kf.1, Str (trim_end_matches is_eol t)).
Definition fill_indexer name (enable : bool) (priority : Z) (tags : list Z) (fields : list (string * Value)) (body : Value) : Value :=
  set_key "tags" (Array (json_i64 <$> tags)) (set_key "priority" (json_i64 priority) (set_key "enable" (Bool enable) (set_key "name" (Str name)
    (fill_fields (λ f, snd <$> List.find (λ nv, bool_decide (nv.1 = f)) fields) body)))).
Definition named (name : string) (i : Value) : bool :=
  match as_str (i.["name"]) with Some n => eq_ignore_ascii_case n name | None => false end.
Definition has_definition (definition : string) (i : Value) : bool :=
  match as_str (i.["definitionName"]) with Some n => eq_ignore_ascii_case n definition | None => false end.
Definition indexer_path (id : Z) : string := "/indexer/" +:+ pretty id +:+ "?forceSave=true".
Definition ensure_indexer (p : Servarr) (schemas : Value) (profile : Z) (ix : Value) : Job () :=
  name ← need (as_str (ix.["name"])) "an indexer without a name";
  definition ← need (as_str (ix.["definition"])) ("indexer " +:+ name +:+ ": no definition");
  let enable := default true (as_bool (ix.["enable"])) in
  let priority := default 25%Z (value_as_i64 (ix.["priority"])) in
  tags ← traverse (ensure_tag p) (omap as_str (array_of (ix.["tags"])));
  let settings := object_of (ix.["settings"]) in
  let secrets := object_of (ix.["secrets"]) in
  hidden ← traverse (secret_field name) secrets;
  let fields := settings ++ hidden in
  existing ← get p "/indexer";
  match List.find (named name) (array_of existing) with
  | Some have =>
      if bool_decide (secrets = []) && negb (indexer_differs have enable priority tags fields) then mret ()
      else
        id ← need (value_as_i64 (have.["id"])) "indexer without an id";
        _ ← put p (indexer_path id) (fill_indexer name enable priority tags fields have);
        say ("prowlarr: updated indexer " +:+ name)
  | None =>
      schema ← need (List.find (has_definition definition) (array_of schemas)) ("indexer " +:+ name +:+ ": Prowlarr has no definition " +:+ quote +:+ definition +:+ quote);
      _ ← post p "/indexer?forceSave=true" (set_key "appProfileId" (json_i64 profile) (fill_indexer name enable priority tags fields schema));
      say ("prowlarr: added indexer " +:+ name +:+ " (" +:+ definition +:+ ")")
  end.
Definition ensure_indexers (p : Servarr) (spec : Value) : Job () :=
  wanted ← need (as_array spec) "PROWLARR_INDEXERS must be a JSON list";
  if bool_decide (wanted = []) then mret ()
  else
    schemas ← get p "/indexer/schema";
    profiles ← get p "/appprofile";
    profile ← need (first_id profiles) "prowlarr has no app profile";
    for_each Ans wanted (ensure_indexer p schemas profile).

(** ** Notifications *)

Definition ntfy_path (id : Z) : string := "/notification/" +:+ pretty id +:+ "?forceSave=true".
Definition is_ntfy (n : Value) : bool := value_is_str (n.["implementation"]) "Ntfy".
Definition with_token (token : string) (n : Value) : Value := fill_fields (λ f, if bool_decide (f = "accessToken") then Some (Str token) else None) n.
Definition set_ntfy_token s (token : string) : Job () :=
  existing ← get s "/notification";
  for_each Ans (List.filter is_ntfy (array_of existing)) (λ n,
    let body := with_token token n in
    id ← need (value_as_i64 (body.["id"])) "ntfy notification without an id";
    _ ← put s (ntfy_path id) body; mret ()).
Definition on_events : Value :=
  Object ((λ k, (k, Bool true)) <$> ["onDownload"; "onDownloadFailure"; "onGrab"; "onHealthIssue"; "onHealthRestored"; "onImportFailure";
                                     "onManualInteractionRequired"; "onReleaseImport"; "onUpgrade"]).

(** ** Movies that are there already *)

Definition unmapped (root : string) (folders : Value) : list string :=
  omap (λ f, as_str (f.["path"])) (flat_map (λ f, array_of (f.["unmappedFolders"])) (List.filter (is_folder root) (array_of folders))).
Definition import_profile (profiles : Value) (wanted : option string) : option Z :=
  list_min (ids_of (List.filter (λ p, match wanted with None => true | Some w => bool_decide (as_str (p.["name"]) = Some w) end) (array_of profiles))).
Definition movie_body (found : Value) (path root : string) (profile : Z) : Value :=
  set_keys [("path", Str path); ("rootFolderPath", Str root); ("qualityProfileId", json_i64 profile); ("monitored", Bool false); ("tags", Array []);
            ("addOptions", Object [("monitor", Str "none"); ("searchForMovie", Bool false)])] found.
(** The TMDb ids known so far, the movies added and the folders left alone. *)
Record Import : Type := mkImport { known : list Z; added : N; unmatched : list string }.
Definition leave (m : Import) (why : string) : Import := mkImport (known m) (added m) (unmatched m ++ [why]).
Definition last_part (path : string) : string := default path (snd <$> rsplit_once "/" path).
Definition import_folder s (root : string) (profile : Z) (m : Import) (path : string) : Job Import :=
  let name := last_part path in
  if starts_with "." name then mret m
  else
    parsed ← get s (query "/parse" "title" name);
    let info := parsed.["parsedMovieInfo"] in
    let title := title_of (info.["movieTitle"]) in
    let year := default 0%Z (value_as_i64 (info.["year"])) in
    if bool_decide (title = "") || (year =? 0)%Z then mret (leave m (name +:+ ": no title and year in the folder name"))
    else
      results ← get s (query "/movie/lookup" "term" (title +:+ " " +:+ pretty year));
      match pick_match results title year with
      | None => mret (leave m (name +:+ ": no single TMDb result for " +:+ quote +:+ title +:+ quote +:+ " (" +:+ pretty year +:+ ")"))
      | Some found =>
          let tmdb := default 0%Z (value_as_i64 (found.["tmdbId"])) in
          if bool_decide (tmdb ∈ known m) then mret (leave m (name +:+ ": TMDb " +:+ pretty tmdb +:+ " (" +:+ default "?" (as_str (found.["title"])) +:+ ") is already in Radarr"))
          else
            _ ← post s "/movie" (movie_body found path root profile);
            _ ← say ("radarr: imported " +:+ name +:+ " as " +:+ default "?" (as_str (found.["title"])) +:+ " (" +:+ pretty year +:+ "), unmonitored");
            mret (mkImport (tmdb :: known m) (added m + 1) (unmatched m))
      end.
Definition import_existing_movies s (root : string) : Job () :=
  folders ← get s "/rootfolder";
  let folders := unmapped root folders in
  if bool_decide (folders = []) then mret ()
  else
    profiles ← get s "/qualityprofile";
    profile ← need (import_profile profiles (env "RADARR_IMPORT_PROFILE")) "no quality profile to import the movies with";
    movies ← get s "/movie";
    m ← fold_m (import_folder s root profile) (mkImport (omap (λ m, value_as_i64 (m.["tmdbId"])) (array_of movies)) 0 []) folders;
    _ ← say ("radarr: imported " +:+ pretty (added m) +:+ " existing movie(s), " +:+ pretty (N.of_nat (length (unmatched m))) +:+ " folder(s) left unmatched");
    for_each Ans (unmatched m) (λ u, say ("radarr: unmatched " +:+ u)).

(** ** The whole run *)

Record Qb : Type := mkQb { qb_host : string; qb_port : Z; qb_user : string; qb_pass : string }.
Definition qb_set (q : Qb) (category : string) : string → option Value := qbt_fields (qb_host q) (qb_port q) (qb_user q) (qb_pass q) category.
(** A failure of this step is a warning. *)
Definition warn {A} (m : Job A) (why : string) (k : A → Job ()) : Job () :=
  r ← catch Ans m; match r with Ok a => k a | Err e => say (why +:+ ": " +:+ e) end.
Definition on_true (line : string) (b : bool) : Job () := if b then say line else mret ().

Definition notify s (l : string) : Job () :=
  token ← optional_secret "NTFY_TOKEN";
  match env "NTFY_URL" ≫= λ url, ntfy_fields url token with
  | None => mret ()
  | Some set =>
      warn (ensure_provider s "/notification" "ntfy" "Ntfy" on_events set) (l +:+ ": skipping the ntfy notification") (λ added,
        if added : bool then say (l +:+ ": added the ntfy notification")
        else match token with
             | Some token =>
                 warn (set_ntfy_token s token) (l +:+ ": could not set the ntfy access token")
                   (λ _, say (l +:+ ": ntfy notification has its access token"))
             | None => mret ()
             end)
  end.
Definition wire_app (q : Qb) (present : list (App * string * string)) (app : App) : Job (list (App * string * string)) :=
  apikey ← optional_secret (a_env app +:+ "_API_KEY");
  match apikey with
  | None => _ ← say (a_name app +:+ ": no API key set, skipping"); mret present
  | Some apikey =>
      let l := host app in
      let addr := var env (a_env app +:+ "_URL") ("http://" +:+ l +:+ ".media.svc.cluster.local") in
      let s := mkServarr addr apikey (a_api app) in
      _ ← wait s l;
      let root := var env (a_env app +:+ "_ROOT") (root app) in
      made ← retry (l +:+ " root folder") 12 (ensure_named_root_folder s root (folder app));
      _ ← on_true (l +:+ ": added root folder " +:+ root) made;
      let category := var env (a_env app +:+ "_CATEGORY") (category app) in
      _ ← warn (ensure_provider s "/downloadclient" "qBittorrent" "QBittorrent" (Object []) (qb_set q category))
             (l +:+ ": skipping the qBittorrent download client (is qbittorrent up?)") (on_true (l +:+ ": added the qBittorrent download client"));
      _ ← notify s l;
      _ ← (if bool_decide (a_env app = "RADARR") && bool_decide (var env "RADARR_IMPORT_EXISTING" "false" = "true")
           then warn (import_existing_movies s root) (l +:+ ": importing the existing movies failed (the next run retries)") (λ _, mret ())
           else mret ());
      mret (present ++ [(app, addr, apikey)])
  end.
Definition app_set (purl addr apikey : string) (f : string) : option Value :=
  if bool_decide (f = "prowlarrUrl") then Some (Str purl)
  else if bool_decide (f = "baseUrl") then Some (Str addr)
  else if bool_decide (f = "apiKey") then Some (Str apikey)
  else None.
Definition add_application (prowlarr : Servarr) (purl : string) (x : App * string * string) : Job () :=
  let '(app, addr, apikey) := x in
  made ← ensure_provider_by prowlarr "/applications" (a_name app) (prowlarr_as app) (bool_decide (prowlarr_as app = a_name app))
           (Object [("syncLevel", Str "fullSync")]) (app_set purl addr apikey);
  on_true ("prowlarr: added application " +:+ a_name app) made.
Definition wire_prowlarr (q : Qb) (purl pkey : string) (present : list (App * string * string)) : Job () :=
  let prowlarr := mkServarr purl pkey "v1" in
  _ ← wait prowlarr "prowlarr";
  _ ← for_each Ans present (add_application prowlarr purl);
  _ ← warn (ensure_provider prowlarr "/downloadclient" "qBittorrent" "QBittorrent" (Object []) (qb_set q "prowlarr"))
         "prowlarr: skipping the qBittorrent download client (is qbittorrent up?)" (on_true "prowlarr: added the qBittorrent download client");
  let flaresolverr := var env "FLARESOLVERR_URL" "http://flaresolverr.media.svc.cluster.local:8191" in
  tag ← ensure_tag prowlarr "flaresolverr";
  made ← ensure_provider prowlarr "/indexerProxy" "FlareSolverr" "FlareSolverr" (Object [("tags", Array [json_i64 tag])])
           (λ f, if bool_decide (f = "host") then Some (Str flaresolverr) else None);
  _ ← on_true "prowlarr: added the FlareSolverr indexer proxy" made;
  match env "PROWLARR_INDEXERS" with
  | None => mret ()
  | Some text => match from_str text with Ok spec => ensure_indexers prowlarr spec | Err e => fail ("PROWLARR_INDEXERS: " +:+ e) end
  end.
Definition run : Job () :=
  let qb_host := var env "QBITTORRENT_HOST" "qbittorrent.media.svc.cluster.local" in
  qb_port ← need (parse_i64 (var env "QBITTORRENT_PORT_NUMBER" "8080")) "invalid digit found in string";
  let qb_user := var env "QBITTORRENT_USER" "admin" in
  pass ← optional_secret "QBITTORRENT_PASSWORD";
  let q := mkQb qb_host qb_port qb_user (default "" pass) in
  let qb_save := var env "QBITTORRENT_SAVE_PATH" "/media/downloads" in
  _ ← warn (ensure_qbittorrent_save_path ("http://" +:+ qb_host +:+ ":" +:+ pretty qb_port) qb_user (qb_pass q) qb_save)
         "qbittorrent: not setting the save path (is qbittorrent up?)" (on_true ("qbittorrent: default save path is now " +:+ qb_save));
  present ← fold_m (wire_app q) [] APPS;
  pkey ← optional_secret "PROWLARR_API_KEY";
  match pkey with
  | None => say "Prowlarr: no API key set, skipping"
  | Some pkey => wire_prowlarr q (var env "PROWLARR_URL" "http://prowlarr.media.svc.cluster.local") pkey present
  end.
End servarr.
