(* ===== verification/Wired.v ===== *)
(** * What wiring the Servarr apps does to them

    [called_for] lists every change a run may make, each with the answer that calls for it. [arr_called_for]: a run
    makes no other. [arr_created_once]: over any number of runs, nothing is created twice. [arr_complete]: a run that
    ends well leaves everything in place. *)

From Stdlib Require Import Ascii.
From stdpp Require Import options.
From stdpp Require Import countable options.
From S2P Require Import Prelude Text F64 Json Codec Threads Markers Trace Apps Bootstrap Servarr.

(** ** What is kept where *)

Inductive Kind : Type := Folder | Client | Notification | Application | Proxy | Tag | Indexer | Movie.
#[export] Instance Kind_eq_dec : EqDecision Kind.
Proof. solve_decision. Defined.
Definition list_path (kind : Kind) : string :=
  match kind with
  | Folder => "/rootfolder" | Client => "/downloadclient" | Notification => "/notification" | Application => "/applications"
  | Proxy => "/indexerProxy" | Tag => "/tag" | Indexer => "/indexer" | Movie => "/movie"
  end.
Definition post_path (kind : Kind) : string :=
  match kind with Folder | Tag | Movie => list_path kind | _ => list_path kind +:+ "?forceSave=true" end.
(** What tells the items of a collection apart. *)
Definition ident (kind : Kind) (v : Value) : option (string + Z) :=
  match kind with
  | Folder => (λ p, inl (no_slash p)) <$> as_str (v.["path"])
  | Tag => (λ p, inl (to_lowercase p)) <$> as_str (v.["label"])
  | Indexer => (λ p, inl (to_lowercase p)) <$> as_str (v.["name"])
  | Movie => inr <$> value_as_i64 (v.["tmdbId"])
  | _ => inl <$> as_str (v.["name"])
  end.
Definition look (s : Servarr) (kind : Kind) : Req := req s "GET" (list_path kind).
Definition create (s : Servarr) (kind : Kind) (body : Value) : Req := req_body s "POST" (post_path kind) body.

(** Looking, reading, waiting, and qBittorrent's login. *)
Definition quiet (x : Act) : Prop :=
  match x with
  | Http rq => rq_method rq = "GET" ∨ ∃ base user pass, rq = qbt_login_req base user pass
  | ReadFile _ | Sleep _ => True
  | _ => False
  end.
Lemma json_not_quiet s method path body : method ≠ "GET" → ¬ quiet (Http (req_body s method path body)).
Proof. intros Hm [H|(b & u & p & H)]; cbn in H; [done|]. unfold req_body, qbt_login_req, with_body in H. by injection H. Qed.

Section spec.
Context `{SerdeJson, Libs}.
Implicit Types (l : Log) (s : Servarr) (kind : Kind).

Definition answered l (rq : Req) (v : Value) : Prop := ∃ r, mkEvent (Http rq) (Ok r : Ans (Http rq)) ∈ l ∧ reads r v.
Definition made l s kind (body : Value) : Prop :=
  ∃ r, mkEvent (Http (create s kind body)) (Ok r : Ans (Http (create s kind body))) ∈ l ∧ is_success (rs_status r) = true.
(** A listing does not have the item; a tag that is listed without a number counts as missing. *)
Definition numbered (v : Value) : Prop := Forall (λ t, is_Some (as_str (t.["label"])) → is_Some (value_as_i64 (t.["id"]))) (array_of v).
Definition missing kind (k : string + Z) (v : Value) : Prop :=
  Forall (λ item, ident kind item ≠ Some k) (array_of v) ∨ (kind = Tag ∧ ¬ numbered v).
(** The collection was listed without the item, and the item was not created since. *)
Definition absent l s kind (k : string + Z) : Prop :=
  ∃ l0 r v l1, l = l0 ++ mkEvent (Http (look s kind)) (Ok r : Ans (Http (look s kind))) :: l1 ∧ reads r v ∧
    missing kind k v ∧ ∀ e body, e ∈ l1 → e_act e = Http (create s kind body) → ident kind body ≠ Some k.
Definition in_place l s kind (p : Value → bool) : Prop :=
  (∃ v, answered l (look s kind) v ∧ existsb p (array_of v) = true) ∨ (∃ body, made l s kind body ∧ p body = true).
(** A tag's number, as the app gave it. *)
Definition labelled l s (label : string) (id : Z) : Prop :=
  (∃ v, answered l (look s Tag) v ∧ tag_id v label = Some id) ∨
  (∃ v, answered l (create s Tag (Object [("label", Str label)])) v ∧ value_as_i64 (v.["id"]) = Some id).

Section env.
Context (env : string → option string).
Definition declared (ix : Value) : Prop := ∃ text spec, env "PROWLARR_INDEXERS" = Some text ∧ from_str text = Ok spec ∧ ix ∈ array_of spec.
Definition enabled (ix : Value) : bool := default true (as_bool (ix.["enable"])).
Definition priority (ix : Value) : Z := default 25%Z (value_as_i64 (ix.["priority"])).
Definition labels (ix : Value) : list string := omap as_str (array_of (ix.["tags"])).

Inductive called_for l : Act → Prop :=
  | c_create s kind k body : ident kind body = Some k → absent l s kind k → called_for l (Http (create s kind body))
  | c_indexer s ix name existing have id tags hidden :
      declared ix → as_str (ix.["name"]) = Some name → answered l (look s Indexer) existing → List.find (named name) (array_of existing) = Some have →
      value_as_i64 (have.["id"]) = Some id → Forall2 (labelled l s) (labels ix) tags →
      hidden.*1 = (object_of (ix.["secrets"])).*1 →
      (hidden ≠ [] ∨ indexer_differs have (enabled ix) (priority ix) tags (object_of (ix.["settings"])) = true) →
      called_for l (Http (req_body s "PUT" (indexer_path id) (fill_indexer name (enabled ix) (priority ix) tags (object_of (ix.["settings"]) ++ hidden) have)))
  | c_token s existing n id token :
      is_Some (env "NTFY_TOKEN_FILE") ∨ is_Some (env "NTFY_TOKEN") → answered l (look s Notification) existing → n ∈ array_of existing → is_ntfy n = true →
      value_as_i64 ((with_token token n).["id"]) = Some id → called_for l (Http (req_body s "PUT" (ntfy_path id) (with_token token n)))
  | c_prefs base sid prefs :
      answered l (qbt_req (mkQbt base sid) "GET" "/app/preferences") prefs →
      saves_to (var env "QBITTORRENT_SAVE_PATH" "/media/downloads") prefs = false →
      called_for l (Http (save_prefs base sid (var env "QBITTORRENT_SAVE_PATH" "/media/downloads"))).
Definition allowed l (x : Act) : Prop := quiet x ∨ called_for l x.
End env.

(** ** Logs *)

Definition grows l l' : Prop := ∃ k, l' = l ++ k ∧ Forall (λ e, quiet (e_act e)) k.
#[local] Instance grows_preorder : PreOrder grows.
Proof.
  split; [intros l; exists []; by rewrite app_nil_r|]. intros l1 l2 l3 (k1 & -> & H1) (k2 & -> & H2). exists (k1 ++ k2).
  rewrite <- app_assoc. split; [done|]. by apply Forall_app.
Qed.
Lemma grows_one l x r : quiet x → grows l (l ++ [mkEvent x r]).
Proof. intros Hx. exists [mkEvent x r]. split; [done|]. by constructor. Qed.
Definition fresh l s kind (v : Value) : Prop :=
  ∃ l0 r, reads r v ∧ grows (l0 ++ [mkEvent (Http (look s kind)) (Ok r : Ans (Http (look s kind)))]) l.
Lemma fresh_grows l l' s kind v : fresh l s kind v → grows l l' → fresh l' s kind v.
Proof. intros (l0 & r & Hr & Hl) Hg. exists l0, r. split; [done|]. by etrans. Qed.
Lemma fresh_absent l s kind v k : fresh l s kind v → missing kind k v → absent l s kind k.
Proof.
  intros (l0 & r & Hr & l1 & -> & Hq) Hv. exists l0, r, v, l1. rewrite <- app_assoc. split_and!; try done.
  intros e body He Ee. rewrite Forall_forall in Hq. specialize (Hq e He). rewrite Ee in Hq. by apply json_not_quiet in Hq.
Qed.
Lemma fresh_answered l s kind v : fresh l s kind v → answered l (look s kind) v.
Proof. intros (l0 & r & Hr & k & -> & _). exists r. split; [set_solver|done]. Qed.
Lemma answered_prefix l l' rq v : l `prefix_of` l' → answered l rq v → answered l' rq v.
Proof. intros [k ->] (r & Hin & Hr). exists r. split; [set_solver|done]. Qed.
Lemma made_prefix l l' s kind body : l `prefix_of` l' → made l s kind body → made l' s kind body.
Proof. intros [k ->] (r & Hin & Hr). exists r. split; [set_solver|done]. Qed.
Lemma in_place_prefix l l' s kind p : l `prefix_of` l' → in_place l s kind p → in_place l' s kind p.
Proof.
  intros Hl [(v & Hv & Hp)|(b & Hb & Hp)]; [left; exists v|right; exists b]; (split; [|done]); [by eapply answered_prefix|by eapply made_prefix].
Qed.
Lemma labelled_prefix l l' s label id : l `prefix_of` l' → labelled l s label id → labelled l' s label id.
Proof. intros Hl [(v & Hv & Hi)|(v & Hv & Hi)]; [left|right]; exists v; (split; [by eapply answered_prefix|done]). Qed.
Lemma none_of (p : Value → bool) kind k items : existsb p items = false → (∀ v, ident kind v = Some k → p v = true) → Forall (λ i, ident kind i ≠ Some k) items.
Proof. intros Hn Hp. apply Forall_forall. intros i Hi E. apply not_true_iff_false in Hn. apply Hn, existsb_exists. exists i. split; [by apply list_elem_of_In|by apply Hp]. Qed.
End spec.

(** ** The clients *)

Section clients.
Context `{SerdeJson, Libs} (env : string → option string).
Implicit Types (l : Log) (s : Servarr) (kind : Kind).
Notation okay := (Trace.okay Ans (allowed env) (St := list string) (Fa := string)).
#[local] Existing Instance grows_preorder.

Lemma grows_prefix l l' : grows l l' → l `prefix_of` l'.
Proof. intros (k & -> & _). by eexists. Qed.
Lemma call_ok s rq what l : allowed env l (Http rq) → okay (call s rq what) (λ v l', ∃ r, l' = l ++ [mkEvent (Http rq) (Ok r : Ans (Http rq))] ∧ reads r v) l.
Proof.
  intros Hx. unfold call. eapply okay_then; [by apply request_ok|]. intros r l1 _ ->. eapply okay_then; [apply ok_ok|]. intros r' l2 _ (-> & -> & Hs).
  eapply okay_mono; [apply json_body_ok|]. intros v l3 _ (-> & Ht). by exists r.
Qed.
Lemma get_ok s path l : okay (get s path) (λ v l', grows l l' ∧ answered l' (req s "GET" path) v) l.
Proof.
  eapply okay_mono; [apply call_ok; by left; left|]. intros v l' _ (r & -> & Hr). split; [by apply grows_one; left|].
  exists r. split; [set_solver|done].
Qed.
Lemma look_ok s kind l : okay (get s (list_path kind)) (λ v l', grows l l' ∧ fresh l' s kind v) l.
Proof.
  eapply okay_mono; [apply call_ok; by left; left|]. intros v l' _ (r & -> & Hr). split; [by apply grows_one; left|].
  exists l, r. done.
Qed.
Lemma creates_ok s kind k body l : ident kind body = Some k → absent l s kind k →
  okay (post s (post_path kind) body) (λ v l', made l' s kind body ∧ answered l' (create s kind body) v) l.
Proof.
  intros Hk Ha. eapply okay_mono; [apply call_ok; right; by eapply c_create|]. intros v l' _ (r & -> & Hs & Ht). split.
  - exists r. split; [set_solver|done].
  - exists r. split; [set_solver|done].
Qed.
Lemma put_ok s path body l : called_for env l (Http (req_body s "PUT" path body)) → okay (put s path body) (λ _ _, True) l.
Proof. intros Hx. eapply okay_mono; [apply call_ok; by right|done]. Qed.
Lemma read_to_string_ok path l : okay (read_to_string path) (λ _ l', grows l l') l.
Proof.
  unfold read_to_string. apply okay_bind. refine (okay_do Ans (allowed env) (ReadFile path) _ _ _ _); [by left|]. intros t.
  eapply okay_mono; [apply need_ok|]. intros a l' _ [_ ->]. by apply grows_one.
Qed.
Lemma var_secret_ok name l : okay (secret env name) (λ _ l', grows l l' ∧ (is_Some (env (name +:+ "_FILE")) ∨ is_Some (env name))) l.
Proof.
  unfold secret. destruct (env (name +:+ "_FILE")) eqn:E.
  - eapply okay_then; [apply read_to_string_ok|]. intros t l1 _ Hg. apply okay_ret. eauto.
  - eapply okay_mono; [apply need_ok|]. intros a l' _ [E' ->]. split; [done|]. right. by eexists.
Qed.
Definition configured (name : string) : Prop := is_Some (env (name +:+ "_FILE")) ∨ is_Some (env name).
Lemma optional_secret_ok name l : okay (optional_secret env name) (λ x l', grows l l' ∧ (is_Some x ↔ configured name)) l.
Proof.
  unfold optional_secret. destruct (bool_decide (is_Some (env (name +:+ "_FILE"))) || _) eqn:E.
  - eapply okay_then; [apply var_secret_ok|]. intros v l1 _ [Hg Hc]. apply okay_ret. split; [done|]. split; [done|by eexists].
  - apply okay_ret. split; [done|]. bool_prop. split; [by intros []|by intros []].
Qed.
Lemma warn_ok {A} (m : Job A) why k (Q : A → Log → Prop) l :
  okay m Q l → (∀ a l', l `prefix_of` l' → Q a l' → okay (k a) (λ _ _, True) l') → okay (warn m why k) (λ _ _, True) l.
Proof. intros Hm Hk. eapply okay_then; [by apply catch_any|]. intros [a|e] l1 Hl1 Hq; [by apply Hk|by apply say_ok]. Qed.
Lemma on_true_ok line b (Q : () → Log → Prop) l : Q () l → okay (on_true line b) Q l.
Proof. intros HQ. unfold on_true. destruct b; [by apply say_ok|by apply okay_ret]. Qed.
End clients.

(** ** Every step *)

Section steps.
Context `{SerdeJson, Libs} (env : string → option string).
Implicit Types (l : Log) (s : Servarr) (kind : Kind).
Notation okay := (Trace.okay Ans (allowed env) (St := list string) (Fa := string)).
#[local] Existing Instance grows_preorder.

(** What is kept in a collection, by its listing or by a creation. *)
Lemma place_listed l s kind v p : fresh l s kind v → existsb p (array_of v) = true → in_place l s kind p.
Proof. intros Hf Hp. left. exists v. split; [by apply fresh_answered|done]. Qed.
Lemma place_made l s kind body p : made l s kind body → p body = true → in_place l s kind p.
Proof. intros Hb Hp. right. by exists body. Qed.

Lemma folder_ident path v : ident Folder v = Some (inl (no_slash path)) → is_folder path v = true.
Proof. cbn [ident]. unfold is_folder. destruct (as_str _) as [p|]; [|done]. intros [= ->]. apply String.eqb_refl. Qed.
Lemma ensure_folder_ok s path name l : okay (ensure_named_root_folder s path name) (λ _ l', in_place l' s Folder (is_folder path)) l.
Proof.
  unfold ensure_named_root_folder. eapply okay_then; [apply (look_ok env s Folder)|]. intros v l1 _ [_ Hv].
  destruct (existsb _ _) eqn:Ep; [apply okay_ret; by eapply place_listed|].
  apply (okay_then Ans _ _ _ (λ body l', fresh l' s Folder v ∧ body.["path"] = Str path)).
  { destruct (bool_decide _); [|by apply okay_ret].
    eapply okay_then; [apply get_ok|]. intros qs l2 _ [Hg2 _]. eapply okay_then; [apply need_ok|]. intros q l3 _ [_ ->].
    eapply okay_then; [apply get_ok|]. intros ms l4 _ [Hg4 _]. eapply okay_then; [apply need_ok|]. intros m l5 _ [_ ->].
    apply okay_ret. split; [|done]. eapply fresh_grows; [|exact Hg4]. by eapply fresh_grows. }
  intros body l2 _ [Hf Hb].
  assert (ident Folder body = Some (inl (no_slash path))) as Hi. { cbn [ident]. by rewrite Hb. }
  eapply okay_then; [eapply (creates_ok env s Folder); [exact Hi|eapply fresh_absent; [exact Hf|]]|].
  { left. eapply none_of; [exact Ep|]. apply folder_ident. }
  intros v' l3 _ [Hm _]. apply okay_ret. eapply place_made; [exact Hm|by apply folder_ident].
Qed.

(** Collections of providers are known by their items' names. *)
Definition provider (kind : Kind) : bool := match kind with Client | Notification | Application | Proxy => true | _ => false end.
Lemma provider_ident kind name v : provider kind = true → ident kind v = Some (inl name) ↔ v.["name"] = Str name.
Proof. destruct kind; try done; intros _; cbn [ident]; destruct (v.["name"]); cbn; split; by intros [= ->] || intros []. Qed.
Lemma set_keys_index extra m k : k ∉ extra.*1 → (set_keys extra (Object m)).[k] = (Object m).[k].
Proof.
  revert m. induction extra as [|[k' v] extra IH]; intros m Hk; [done|]. cbn in Hk. unfold set_keys in *. cbn [foldl]. apply not_elem_of_cons in Hk as [Hne Hk].
  destruct (set_key_object k' v m) as [m' E]. cbn [fst snd]. rewrite E, IH by done. rewrite <- E. by apply set_key_index_ne.
Qed.
Lemma provider_name name extra set schema : schema.["implementation"] ≠ Null → "name" ∉ (object_of extra).*1 → (provider_body name extra set schema).["name"] = Str name.
Proof.
  intros Hs Hx. apply index_object in Hs as [m ->]. unfold provider_body, fill_fields.
  edestruct (set_key_object "fields") as [m1 ->]. destruct (set_key_object "name" (Str name) m1) as [m2 E2].
  rewrite E2. edestruct (set_key_object "enable") as [m3 E3]. rewrite E3, set_keys_index by done. rewrite <- E3, set_key_index_ne by done.
  rewrite <- E2. apply set_key_index.
Qed.
Lemma ensure_provider_ok s kind name impl by_impl extra set l : provider kind = true → "name" ∉ (object_of extra).*1 →
  okay (ensure_provider_by s (list_path kind) name impl by_impl extra set) (λ _ l', in_place l' s kind (is_provider name impl by_impl)) l.
Proof.
  intros Hk Hx. unfold ensure_provider_by. eapply okay_then; [apply look_ok|]. intros v l1 _ [_ Hv].
  destruct (existsb _ _) eqn:Ep; [apply okay_ret; by eapply place_listed|].
  eapply okay_then; [apply get_ok|]. intros schemas l2 _ [Hg _]. eapply okay_then; [apply need_ok|]. intros schema l3 _ [Hf ->].
  apply List.find_some in Hf as [_ Hi].
  assert ((provider_body name extra set schema).["name"] = Str name) as Hn.
  { apply provider_name; [|done]. destruct (schema.["implementation"]); done. }
  assert (∀ v, ident kind v = Some (inl name) → is_provider name impl by_impl v = true) as Hp.
  { intros x E. apply provider_ident in E; [|done]. unfold is_provider. rewrite E. cbn. by rewrite String.eqb_refl. }
  apply (provider_ident kind) in Hn; [|exact Hk].
  assert (list_path kind +:+ "?forceSave=true" = post_path kind) as -> by by destruct kind.
  eapply okay_then; [eapply creates_ok; [exact Hn|eapply fresh_absent; [by eapply fresh_grows|by left; eapply none_of]]|].
  intros v' l4 _ [Hm _]. apply okay_ret. eapply place_made; [exact Hm|by apply Hp].
Qed.

Lemma label_ident label v : ident Tag v = Some (inl (to_lowercase label)) → has_label label v = true.
Proof. cbn [ident]. unfold has_label, eq_ignore_ascii_case. destruct (as_str _); [|done]. intros [= ->]. by apply bool_decide_eq_true. Qed.
Lemma tag_missing v label : tag_id v label = None → missing Tag (inl (to_lowercase label)) v.
Proof.
  unfold tag_id. destruct (List.find _ _) as [t|] eqn:E; cbn.
  - apply List.find_some in E as [Ht Hl]. intros Hi. right. split; [done|]. unfold numbered. rewrite Forall_forall. intros Hn.
    unfold has_label in Hl. destruct (Hn t) as [z Hz]; [by apply list_elem_of_In|by destruct (as_str _)|congruence].
  - intros _. left. apply Forall_forall. intros i Hi Ei. apply list_elem_of_In, (List.find_none _ _ E) in Hi.
    by rewrite (label_ident _ _ Ei) in Hi.
Qed.
Lemma ensure_tag_ok s label l : okay (ensure_tag s label) (λ id l', labelled l' s label id) l.
Proof.
  unfold ensure_tag. eapply okay_then; [apply (look_ok env s Tag)|]. intros v l1 _ [_ Hv]. destruct (tag_id v label) as [id|] eqn:Et.
  - apply okay_ret. left. exists v. split; [by apply fresh_answered|done].
  - eapply okay_then; [apply (creates_ok env s Tag (inl (to_lowercase label)) (Object [("label", Str label)])); [done|]|].
    { eapply fresh_absent; [exact Hv|by apply tag_missing]. }
    intros t l2 _ [_ Ht]. eapply okay_mono; [apply need_ok|]. intros id l3 _ [Hi ->]. right. by exists t.
Qed.
Lemma labelled_place l s label id : labelled l s label id → in_place l s Tag (has_label label).
Proof.
  intros [(v & Hv & Hi)|(v & (r & Hr & Hs & _) & _)].
  - left. exists v. split; [done|]. unfold tag_id in Hi. destruct (List.find _ _) as [t|] eqn:E; [|done]. apply existsb_exists. exists t. by apply List.find_some in E.
  - eapply place_made; [by exists r|]. by apply label_ident.
Qed.

Lemma secret_field_ok name kf l : okay (secret_field name kf) (λ kv l', kv.1 = kf.1 ∧ grows l l') l.
Proof.
  unfold secret_field. eapply okay_then; [apply need_ok|]. intros path l1 _ [_ ->]. eapply okay_then; [apply read_to_string_ok|].
  intros t l2 _ Hg. by apply okay_ret.
Qed.
Lemma hidden_fields_ok name secrets l : okay (traverse (secret_field name) secrets) (λ hidden _, hidden.*1 = secrets.*1) l.
Proof.
  eapply okay_mono; [apply (traverse_ok (allowed env) _ (λ kf kv _, kv.1 = kf.1)); [done|]|].
  - intros x l' _ _. eapply okay_mono; [apply secret_field_ok|]. by intros ? ? _ [? _].
  - intros hidden l' _ Hh. cbn beta in Hh. induction Hh; [done|]. cbn. by f_equal.
Qed.

Lemma named_ident name v : ident Indexer v = Some (inl (to_lowercase name)) ↔ named name v = true.
Proof.
  cbn [ident]. unfold named, eq_ignore_ascii_case. destruct (as_str _); [|done]. cbn. rewrite bool_decide_eq_true. split; [by intros [= ->]|by intros ->].
Qed.
Lemma fill_name name en pr tags fields body m : body = Object m → ∃ m', fill_indexer name en pr tags fields body = Object m' ∧ (Object m').["name"] = Str name.
Proof.
  intros ->. unfold fill_indexer, fill_fields. edestruct (set_key_object "fields") as [m1 ->].
  edestruct (set_key_object "name") as [m2 E2]. rewrite E2. edestruct (set_key_object "enable") as [m3 E3]. rewrite E3.
  edestruct (set_key_object "priority") as [m4 E4]. rewrite E4. edestruct (set_key_object "tags") as [m5 E5]. rewrite E5. exists m5. split; [done|].
  rewrite <- E5, set_key_index_ne, <- E4, set_key_index_ne, <- E3, set_key_index_ne, <- E2 by done. apply set_key_index.
Qed.
Definition indexer_in_place l s (ix : Value) : Prop := ∃ name, as_str (ix.["name"]) = Some name ∧ in_place l s Indexer (named name).
Lemma ensure_indexer_ok s schemas profile ix l : declared env ix →
  okay (ensure_indexer s schemas profile ix) (λ _ l', indexer_in_place l' s ix) l.
Proof.
  intros Hd. unfold ensure_indexer. eapply okay_then; [apply need_ok|]. intros name l1 _ [Hn ->].
  eapply okay_then; [apply need_ok|]. intros definition l1 _ [_ ->].
  eapply okay_then; [apply (traverse_ok (allowed env) _ (λ label id l, labelled l s label id)); [intros; by eapply labelled_prefix|intros; apply ensure_tag_ok]|].
  intros tags l1 _ Ht. eapply okay_then; [apply hidden_fields_ok|]. intros hidden l2 Hl2 Hh.
  eapply okay_then; [apply (look_ok env s Indexer)|]. intros v l3 Hl3 [_ Hv]. destruct (List.find _ _) as [have|] eqn:Ef.
  - assert (in_place l3 s Indexer (named name)) as Hp.
    { eapply place_listed; [exact Hv|]. apply existsb_exists. exists have. by apply List.find_some in Ef. }
    destruct (_ && _) eqn:Eq; [apply okay_ret; by exists name|].
    eapply okay_then; [apply need_ok|]. intros id l4 _ [Hid ->]. eapply okay_then.
    { apply put_ok. eapply c_indexer; [exact Hd|exact Hn|by apply fresh_answered|exact Ef|exact Hid| |exact Hh|].
      - eapply Forall2_impl; [exact Ht|]. cbn beta. intros label i Hi. eapply labelled_prefix; [|exact Hi]. by etrans.
      - apply andb_false_iff in Eq as [Eq|Eq].
        + left. apply bool_decide_eq_false in Eq. intros ->. apply Eq. symmetry in Hh. by apply fmap_nil_inv in Hh.
        + destruct hidden; [right|by left]. rewrite app_nil_r in Eq. by apply negb_false_iff in Eq. }
    intros _ l4 Hl4 _. apply say_ok. exists name. split; [done|]. by eapply in_place_prefix.
  - eapply okay_then; [apply need_ok|]. intros schema l4 _ [Hs ->]. apply List.find_some in Hs as [_ Hs].
    assert (∃ m, schema = Object m) as [m Em]. { apply (index_object _ "definitionName"). unfold has_definition in Hs. by destruct (schema.["definitionName"]). }
    edestruct (fill_name name) as (m' & E' & Hname); [exact Em|].
    assert (ident Indexer (set_key "appProfileId" (json_i64 profile) (Object m')) = Some (inl (to_lowercase name))) as Hi.
    { cbn [ident]. rewrite set_key_index_ne by done. by rewrite Hname. }
    eapply okay_then; [|].
    { rewrite E'. apply (creates_ok env s Indexer _ _ _ Hi). eapply fresh_absent; [exact Hv|]. left. apply Forall_forall. intros i Hin Ei.
      apply list_elem_of_In, (List.find_none _ _ Ef) in Hin. apply named_ident in Ei. congruence. }
    intros _ l4 Hl4 [Hm _]. apply say_ok. exists name. split; [done|]. eapply place_made; [exact Hm|]. by apply named_ident.
Qed.
End steps.

Section run.
Context `{SerdeJson, Libs} (env : string → option string).
Implicit Types (l : Log) (s : Servarr) (kind : Kind).
Notation okay := (Trace.okay Ans (allowed env) (St := list string) (Fa := string)).
Notation any := (λ _ _, True).
#[local] Existing Instance grows_preorder.

Lemma ensure_indexers_ok s spec text l : env "PROWLARR_INDEXERS" = Some text → from_str text = Ok spec →
  okay (ensure_indexers s spec) (λ _ l', ∀ ix, ix ∈ array_of spec → indexer_in_place l' s ix) l.
Proof.
  intros He Hs. unfold ensure_indexers. eapply okay_then; [apply need_ok|]. intros wanted l1 _ [Hw ->]. unfold array_of at 1. rewrite Hw. cbn [default].
  case_bool_decide as Hn; [apply okay_ret; subst; set_solver|].
  eapply okay_then; [apply get_ok|]. intros schemas l2 _ _. eapply okay_then; [apply get_ok|]. intros ps l3 _ _.
  eapply okay_then; [apply need_ok|]. intros profile l4 _ [_ ->]. eapply okay_mono.
  - apply (for_each_all (allowed env) _ (λ ix l, indexer_in_place l s ix)).
    + intros x l4 l' Hl (name & Hx & Hp). exists name. split; [done|]. by eapply in_place_prefix.
    + intros ix l' Hix _. apply ensure_indexer_ok. exists text, spec. split_and!; try done. unfold array_of. by rewrite Hw.
  - intros [] l' _ Hf. cbn beta in Hf. rewrite Forall_forall in Hf. exact Hf.
Qed.
Lemma set_ntfy_token_ok s token l : configured env "NTFY_TOKEN" → okay (set_ntfy_token s token) any l.
Proof.
  intros Hc. unfold set_ntfy_token. eapply okay_then; [apply (look_ok env s Notification)|]. intros v l1 _ [_ Hv].
  apply okay_for_each; [|done]. intros n l2 Hn Hl2. apply list_elem_of_In, List.filter_In in Hn as [Hn Hi]. apply list_elem_of_In in Hn.
  eapply okay_then; [apply need_ok|]. intros id l3 _ [Hid ->]. eapply okay_then; [|intros; by apply okay_ret].
  apply put_ok. eapply c_token; [exact Hc| |exact Hn|exact Hi|exact Hid]. eapply answered_prefix; [exact Hl2|]. by apply fresh_answered.
Qed.
Lemma save_path_ok base user pass l :
  okay (ensure_qbittorrent_save_path base user pass (var env "QBITTORRENT_SAVE_PATH" "/media/downloads")) any l.
Proof.
  unfold ensure_qbittorrent_save_path. eapply okay_then; [apply request_ok; left; right; by do 3 eexists|]. intros r l1 _ _.
  eapply okay_then; [apply need_ok|]. intros sid l2 _ [_ ->]. eapply okay_then; [apply request_ok; by left; left|]. intros r' l2 _ ->.
  eapply okay_then; [apply ok_ok|]. intros r2 l3 _ (-> & -> & Hs). eapply okay_then; [apply json_body_ok|]. intros prefs l4 _ [-> Ht].
  destruct (saves_to _ _) eqn:Ep; [by apply okay_ret|]. eapply okay_then; [apply request_ok; right|].
  - eapply c_prefs; [|exact Ep]. exists r'. split; [set_solver|done].
  - intros r3 l4 _ _. eapply okay_then; [apply ok_ok|]. intros. by apply okay_ret.
Qed.

(** *** The movies that are there already *)

Lemma absent_grows l l' s kind k : absent l s kind k → grows l l' → absent l' s kind k.
Proof.
  intros (l0 & r & v & l1 & -> & Hr & Hv & Hl1) (k' & -> & Hq). exists l0, r, v, (l1 ++ k'). rewrite <- app_assoc. split_and!; try done.
  intros e body He Ee. apply elem_of_app in He as [He|He]; [by eapply Hl1|]. rewrite Forall_forall in Hq. specialize (Hq e He). rewrite Ee in Hq.
  by apply json_not_quiet in Hq.
Qed.
Lemma absent_create l s kind k body r : absent l s kind k → ident kind body ≠ Some k → absent (l ++ [mkEvent (Http (create s kind body)) r]) s kind k.
Proof.
  intros (l0 & r' & v & l1 & -> & Hr & Hv & Hl1) Hk. exists l0, r', v, (l1 ++ [mkEvent (Http (create s kind body)) r]). rewrite <- app_assoc. split_and!; try done.
  intros e body' He Ee. apply elem_of_app in He as [He|He]; [by eapply Hl1|]. apply list_elem_of_singleton in He as ->. cbn in Ee. injection Ee as Ee. by rewrite <- Ee.
Qed.
Lemma pick_tmdb results title year found : pick_match results title year = Some found → value_as_i64 (found.["tmdbId"]) = Some (default 0%Z (value_as_i64 (found.["tmdbId"]))).
Proof.
  unfold pick_match. destruct (as_array results) as [items|]; [|done]. cbn. destruct (head _) as [first|] eqn:Eh; [|done]. cbn.
  destruct (forallb _ _); [|done]. intros [= <-]. apply head_Some_elem_of, list_elem_of_In, List.filter_In in Eh as [Eh _]. apply List.filter_In in Eh as [_ Hy].
  unfold year_ok in Hy. bool_prop. by destruct (value_as_i64 (first.["tmdbId"])).
Qed.
Lemma import_folder_ok s root profile m path l : (∀ z, z ∉ known m → absent l s Movie (inr z)) →
  okay (import_folder s root profile m path) (λ m' l', ∀ z, z ∉ known m' → absent l' s Movie (inr z)) l.
Proof.
  intros Hk. unfold import_folder. destruct (starts_with _ _); [by apply okay_ret|]. eapply okay_then; [apply get_ok|]. intros parsed l1 _ [Hg1 _].
  assert (∀ l', grows l1 l' → ∀ z, z ∉ known m → absent l' s Movie (inr z)) as Hk'. { intros l' Hg z Hz. eapply absent_grows; [by apply Hk|by etrans]. }
  destruct (_ || _); [apply okay_ret; intros z; by apply Hk'|]. eapply okay_then; [apply get_ok|]. intros results l2 _ [Hg2 _].
  destruct (pick_match _ _ _) as [found|] eqn:Ep; [|apply okay_ret; intros z; by apply Hk'].
  case_bool_decide as Hin; [apply okay_ret; intros z; by apply Hk'|].
  assert (ident Movie (movie_body found path root profile) = Some (inr (default 0%Z (value_as_i64 (found.["tmdbId"]))))) as Hi.
  { pose proof (pick_tmdb _ _ _ _ Ep) as Ht. destruct (index_object found "tmdbId") as [o Eo]; [by destruct (found.["tmdbId"])|].
    cbn [ident]. unfold movie_body. rewrite Eo, set_keys_index, <- Eo, Ht by (cbn; set_solver). done. }
  eapply okay_then.
  { apply call_ok. right. eapply (c_create _ _ s Movie); [exact Hi|]. by apply (Hk' l2). }
  intros v l3 _ (r & -> & _). eapply okay_then; [by apply (say_ok (allowed env) _ (λ _ l', l' = l2 ++ [mkEvent (Http (req_body s "POST" "/movie" (movie_body found path root profile))) (Ok r)]))|].
  intros _ l4 _ ->. apply okay_ret. cbn [known]. intros z Hz. apply not_elem_of_cons in Hz as [Hne Hz].
  apply (absent_create l2 s Movie); [by apply (Hk' l2)|]. rewrite Hi. congruence.
Qed.
Lemma import_movies_ok s root l : okay (import_existing_movies env s root) any l.
Proof.
  unfold import_existing_movies. eapply okay_then; [apply get_ok|]. intros v l1 _ _. case_bool_decide; [by apply okay_ret|].
  eapply okay_then; [apply get_ok|]. intros ps l2 _ _. eapply okay_then; [apply need_ok|]. intros profile l3 _ [_ ->].
  eapply okay_then; [apply (look_ok env s Movie)|]. intros movies l3 _ [_ Hf]. eapply okay_then.
  { apply (fold_ok (allowed env) _ (λ m _ l, ∀ z, z ∉ known m → absent l s Movie (inr z)) _ []).
    - cbn [known]. intros z Hz. eapply fresh_absent; [exact Hf|]. left. apply Forall_forall. intros i Hin Ei. apply Hz.
      apply list_elem_of_omap. exists i. split; [done|]. cbn [ident] in Ei. by destruct (value_as_i64 _) eqn:E; simplify_eq/=.
    - intros. by apply import_folder_ok. }
  intros m l4 _ _. eapply okay_then; [by apply (say_ok (allowed env) _ any)|]. intros _ l5 _ _. apply okay_for_each; [|done]. intros. by apply say_ok.
Qed.

(** *** The run *)

(** What a run leaves in an app, at its address and with its key. *)
Definition root_of (app : App) : string := var env (a_env app +:+ "_ROOT") (root app).
Definition wired l (x : App * string * string) : Prop :=
  let '(app, addr, apikey) := x in in_place l (mkServarr addr apikey (a_api app)) Folder (is_folder (root_of app)).
Lemma wired_prefix l l' x : l `prefix_of` l' → wired l x → wired l' x.
Proof. destruct x as [[app addr] apikey]. apply in_place_prefix. Qed.
Lemma wait_ok s what l : okay (wait s what) any l.
Proof. apply retry_ok; [by left|]. intros l' _. eapply okay_then; [apply get_ok|]. intros. by apply okay_ret. Qed.
Lemma notify_ok s name l : okay (notify env s name) any l.
Proof.
  unfold notify. eapply okay_then; [apply optional_secret_ok|]. intros token l1 _ [_ Ht]. destruct (_ ≫= _) as [set|]; [|by apply okay_ret].
  eapply warn_ok; [by apply (ensure_provider_ok env s Notification); [|vm_compute; set_solver]|].
  intros [] l2 _ _; [by apply say_ok|]. destruct token as [token|]; [|by apply okay_ret].
  eapply warn_ok; [apply set_ntfy_token_ok; apply Ht; by eexists|]. intros. by apply say_ok.
Qed.
Lemma client_ok s set why line l : okay (warn (ensure_provider s "/downloadclient" "qBittorrent" "QBittorrent" (Object []) set) why (on_true line)) any l.
Proof. eapply warn_ok; [by apply (ensure_provider_ok env s Client); [|set_solver]|]. intros. by apply on_true_ok. Qed.
Definition some_wired l (present : list (App * string * string)) (seen : list App) : Prop :=
  Forall (wired l) present ∧ ∀ app, app ∈ seen → configured env (a_env app +:+ "_API_KEY") → app ∈ present.*1.*1.
Lemma wire_app_ok q present app seen l : some_wired l present seen → okay (wire_app env q present app) (λ present' l', some_wired l' present' (seen ++ [app])) l.
Proof.
  intros [Hw Hs]. unfold wire_app. eapply okay_then; [apply optional_secret_ok|]. intros apikey l1 Hl1 [_ Hc].
  destruct apikey as [apikey|].
  - eapply okay_then; [apply wait_ok|]. intros _ l2 Hl2 _. eapply okay_then; [apply retry_ok; [by left|]; intros; apply ensure_folder_ok|]. intros made l3 Hl3 Hf.
    eapply okay_then; [by apply (on_true_ok env _ _ any)|]. intros _ l4 Hl4 _. eapply okay_then; [apply client_ok|]. intros _ l5 Hl5 _.
    eapply okay_then; [apply notify_ok|]. intros _ l6 Hl6 _. apply (okay_then Ans _ _ _ any).
    { destruct (_ && _); [|by apply okay_ret]. eapply warn_ok; [apply import_movies_ok|]. intros. by apply okay_ret. }
    intros _ l7 Hl7 _. apply okay_ret. split.
    + apply Forall_app. split; [eapply Forall_impl; [exact Hw|]|constructor; [|done]].
      * intros x. apply wired_prefix. repeat (etrans; [eassumption|]). done.
      * eapply in_place_prefix; [|exact Hf]. repeat (etrans; [eassumption|]). done.
    + intros a Ha Hca. rewrite !fmap_app. apply elem_of_app in Ha as [Ha|Ha]; [apply elem_of_app; left; by apply Hs|].
      apply list_elem_of_singleton in Ha as ->. apply elem_of_app. right. by left.
  - eapply okay_then; [by apply (say_ok (allowed env) _ any)|]. intros _ l2 Hl2 _. apply okay_ret. split.
    + eapply Forall_impl; [exact Hw|]. intros x. apply wired_prefix. by etrans.
    + intros a Ha Hca. apply elem_of_app in Ha as [Ha|Ha]; [by apply Hs|]. apply list_elem_of_singleton in Ha as ->. apply Hc in Hca. by destruct Hca.
Qed.
Definition applied l p (x : App * string * string) : Prop :=
  let app := x.1.1 in in_place l p Application (is_provider (a_name app) (prowlarr_as app) (bool_decide (prowlarr_as app = a_name app))).
(** What a run leaves in Prowlarr. *)
Record prowlarr_done l (present : list (App * string * string)) (p : Servarr) : Prop := {
  all_applied : Forall (applied l p) present;
  tag_there : in_place l p Tag (has_label "flaresolverr");
  proxy_there : in_place l p Proxy (is_provider "FlareSolverr" "FlareSolverr" true);
  indexers_there ix : declared env ix → indexer_in_place l p ix;
}.
Lemma wire_prowlarr_ok q purl pkey present l :
  okay (wire_prowlarr env q purl pkey present) (λ _ l', prowlarr_done l' present (mkServarr purl pkey "v1")) l.
Proof.
  unfold wire_prowlarr. set (p := mkServarr purl pkey "v1"). eapply okay_then; [apply wait_ok|]. intros _ l1 _ _.
  eapply okay_then; [apply (for_each_all (allowed env) _ (λ x l, applied l p x))|].
  { intros x l2 l' Hl. by apply in_place_prefix. }
  { intros [[app addr] apikey] l2 _ _. eapply okay_then; [apply (ensure_provider_ok env p Application); [done|set_solver]|].
    intros made l3 _ Hp. by apply on_true_ok. }
  intros ? l2 _ Ha. cbn beta in Ha. eapply okay_then; [apply client_ok|]. intros _ l3 Hl3 _. eapply okay_then; [apply ensure_tag_ok|]. intros tag l4 Hl4 Ht.
  apply labelled_place in Ht.
  eapply okay_then; [apply (ensure_provider_ok env p Proxy); [done|set_solver]|]. intros made l5 Hl5 Hp.
  eapply okay_then; [by apply (on_true_ok env _ _ any)|]. intros _ l6 Hl6 _.
  assert (∀ l', l6 `prefix_of` l' → (∀ ix, declared env ix → indexer_in_place l' p ix) → prowlarr_done l' present p) as Hall.
  { intros l' Hl' Hix. split; [|eapply in_place_prefix; [|exact Ht]|eapply in_place_prefix; [|exact Hp]|done].
    - eapply Forall_impl; [exact Ha|]. intros x. apply in_place_prefix. repeat (etrans; [eassumption|]). done.
    - repeat (etrans; [eassumption|]). done.
    - by etrans. }
  destruct (env "PROWLARR_INDEXERS") as [text|] eqn:E.
  - destruct (from_str text) as [spec|] eqn:Es; [|apply okay_raise]. eapply okay_mono; [by eapply ensure_indexers_ok|]. intros [] l7 Hl7 Hix.
    apply Hall; [done|]. intros ix (t & sp & Et & Esp & Hx). apply Hix. congruence.
  - apply okay_ret, Hall; [done|]. intros ix (t & sp & Et & _). congruence.
Qed.
(** What a run that ends well leaves. *)
Definition complete l : Prop :=
  ∃ present, Forall (wired l) present ∧ (∀ app, app ∈ APPS → configured env (a_env app +:+ "_API_KEY") → app ∈ present.*1.*1) ∧
    (configured env "PROWLARR_API_KEY" → ∃ pkey, prowlarr_done l present (mkServarr (var env "PROWLARR_URL" "http://prowlarr.media.svc.cluster.local") pkey "v1")).
Lemma run_ok l : okay (run env) (λ _ l', complete l') l.
Proof.
  unfold run. eapply okay_then; [apply need_ok|]. intros port l1 _ [_ ->]. eapply okay_then; [apply optional_secret_ok|]. intros pass l1 _ _.
  eapply okay_then; [eapply warn_ok; [apply save_path_ok|intros; by apply on_true_ok]|]. intros _ l2 _ _.
  eapply okay_then; [apply (fold_ok (allowed env) _ (λ present seen l, some_wired l present seen) APPS [] [])|].
  { split; [done|set_solver]. }
  { intros st x seen l' _ _. apply wire_app_ok. }
  intros present l3 Hl3 [Hw Hs]. eapply okay_then; [apply optional_secret_ok|]. intros pkey l4 Hl4 [_ Hc].
  destruct pkey as [pkey|].
  - eapply okay_mono; [apply wire_prowlarr_ok|]. intros [] l5 Hl5 Hp. exists present. split_and!; [|exact Hs|by exists pkey].
    eapply Forall_impl; [exact Hw|]. intros x. apply wired_prefix. by etrans.
  - apply say_ok. exists present. split_and!; [|exact Hs|].
    + eapply Forall_impl; [exact Hw|]. intros x. by apply wired_prefix.
    + intros Hp. apply Hc in Hp. by destruct Hp.
Qed.

(** Whatever the apps answer, a run of the wiring only looks, signs in to qBittorrent, or makes a change an answer
    calls for: it creates an item after a listing without it and nothing of that name created since, updates a declared
    indexer that differs (or has secrets), gives a listed ntfy notification its token, and sets a save path that differs.
    Nothing is deleted. *)
Theorem arr_called_for outside out l : ∃ k, (exec Ans outside (run env out) l).1 = l ++ k ∧
  ∀ k1 e k2, k = k1 ++ e :: k2 → quiet (e_act e) ∨ called_for env (l ++ k1) (e_act e).
Proof. destruct (exec_okay Ans (allowed env) outside _ _ out l (run_ok l)) as (k & Ek & Hk). exists k. split; [exact Ek|]. exact Hk. Qed.

(** A run that ends without an error leaves, by a listing or an accepted creation, every configured app's root folder,
    its application in Prowlarr, the FlareSolverr tag and proxy, and every declared indexer. *)
Theorem arr_complete outside out l out' : (exec Ans outside (run env out) l).2 = Ok (out', Ok ()) → complete (exec Ans outside (run env out) l).1.
Proof. intros E. destruct (exec_holds Ans (allowed env) outside _ _ _ (run_ok l out)) as [HQ _]. rewrite E in HQ. by destruct HQ. Qed.
End run.

(** ** Runs after runs *)

(** Two requests end alike only when their paths do. *)
Definition clash (p q : list ascii) : bool := existsb (λ xy, negb (bool_decide (xy.1 = xy.2))) (zip (reverse p) (reverse q)).
Lemma no_clash (a b p q : list ascii) : a ++ p = b ++ q → clash p q = false.
Proof.
  intros E. apply not_true_iff_false. unfold clash. rewrite existsb_exists. intros ([x y] & Hxy & Hne). cbn in Hne. bool_prop.
  apply list_elem_of_In, list_elem_of_lookup in Hxy as [i Hi]. apply lookup_zip_Some in Hi as [Hx Hy].
  apply (f_equal reverse) in E. rewrite !reverse_app in E. apply (f_equal (lookup i)) in E. rewrite (lookup_app_l_Some _ _ _ _ Hx), (lookup_app_l_Some _ _ _ _ Hy) in E.
  congruence.
Qed.
Lemma post_path_inj a b kind kind' : a +:+ post_path kind = b +:+ post_path kind' → kind = kind' ∧ a = b.
Proof.
  intros E. assert (kind = kind') as ->.
  { apply (f_equal chars) in E. rewrite !chars_app in E. apply no_clash in E. by destruct kind, kind'. }
  split; [done|]. by apply str_app_inv_r in E.
Qed.
Lemma create_look s kind b s' kind' b' : create s kind b = create s' kind' b' →
  kind = kind' ∧ b = b' ∧ look s kind = look s' kind ∧ ∀ body, create s kind body = create s' kind body.
Proof.
  unfold create, req_body, req, with_header, with_body, plain, url. cbn. intros E.
  assert (no_slash (base s) +:+ "/api/" +:+ api s +:+ post_path kind = no_slash (base s') +:+ "/api/" +:+ api s' +:+ post_path kind') as Eu by congruence.
  assert (key s = key s') as Ek by congruence. assert (b = b') as -> by congruence. clear E. rewrite !str_app_assoc in Eu.
  apply post_path_inj in Eu as [<- Eu]. unfold look, req, with_header, plain, url. cbn. rewrite Ek, !str_app_assoc, Eu. by split_and!.
Qed.

Section reruns.
Context `{SerdeJson, Libs}.
Context (outside : Log → ∀ x : Act, Ans x).
Implicit Types (l : Log) (s : Servarr) (kind : Kind).

(** Runs of the program, each with the environment it finds; what one prints starts empty. *)
Fixpoint runs (envs : list (string → option string)) l : Log :=
  match envs with [] => l | env :: envs => runs envs (exec Ans outside (run env []) l).1 end.
(** An app lists what it accepted, and numbers its tags. *)
Definition remembers : Prop := ∀ l s kind body r v,
  made l s kind body → outside l (Http (look s kind)) = Ok r → reads r v →
  (∃ item, item ∈ array_of v ∧ ident kind item = ident kind body) ∧ (kind = Tag → numbered v).

Definition lawful l : Prop := ∀ l1 e l2, l = l1 ++ e :: l2 →
  (quiet (e_act e) ∨ ∃ env, called_for env l1 (e_act e)) ∧ e_ans e = outside l1 (e_act e).
Lemma run_lawful env l : lawful l → lawful (exec Ans outside (run env []) l).1.
Proof.
  intros Hl l1 e l2 E. destruct (exec_okay Ans (allowed env) outside _ _ [] l (run_ok env l)) as (k & Ek & Hk).
  assert (∀ k1 e l2, k = k1 ++ e :: l2 → (quiet (e_act e) ∨ ∃ env, called_for env (l ++ k1) (e_act e)) ∧ e_ans e = outside (l ++ k1) (e_act e)) as Hnew.
  { intros k1 e' l2' E'. split; [destruct (Hk _ _ _ E'); eauto|]. eapply exec_answers. by rewrite Ek, E'. }
  rewrite Ek in E. apply List.app_eq_app in E as [m [[-> Em]|[-> Em]]]; [|by eapply Hnew].
  destruct m as [|e' m]; [|injection Em as <- ->; by eapply Hl]. destruct (Hnew [] e l2) as [H1 H2]; [done|]. by rewrite !app_nil_r in *.
Qed.
Lemma runs_lawful envs l : lawful l → lawful (runs envs l).
Proof. revert l. induction envs as [|env envs IH]; intros l Hl; [done|]. apply IH. by apply run_lawful. Qed.
Lemma Http_inj rq rq' : Http rq = Http rq' → rq = rq'.
Proof. by intros [= ->]. Qed.
(** What is created now was not accepted before. *)
Lemma fresh_name l s kind body body' env : remembers → lawful l → called_for env l (Http (create s kind body')) → made l s kind body → ident kind body ≠ ident kind body'.
Proof.
  intros Hr Hl Hc Hm Ei. remember (Http (create s kind body')) as x eqn:Ex. destruct Hc as [s' kind' k b Hk Ha|s' ix name v have id tags hidden|s' v n id token|b sid prefs].
  all: apply Http_inj in Ex.
  2-3: by apply (f_equal rq_method) in Ex.
  2: by apply (f_equal rq_body) in Ex.
  symmetry in Ex. apply create_look in Ex as (<- & <- & El & Ec). destruct Ha as (l0 & r & v & l1 & -> & Hrd & Hv & Hl1).
  rewrite <- El in *. destruct Hm as (rm & Hin & Hs). apply elem_of_app in Hin as [Hin|Hin].
  - destruct (Hl l0 _ l1 eq_refl) as [_ Ha]. cbn in Ha. destruct (Hr l0 s kind body r v) as [(item & Hi & E) Hnum]; [by exists rm|done|done|].
    destruct Hv as [Hv|[-> Hv]]; [|by apply Hv, Hnum]. rewrite Forall_forall in Hv. apply (Hv item Hi). by rewrite E, Ei.
  - apply elem_of_cons in Hin as [Hin|Hin]; [by injection Hin|]. apply (Hl1 _ body Hin); [|by rewrite Ei]. cbn. by rewrite <- Ec.
Qed.

(** C29: Over any number of runs, in any environments, against apps that list what they accepted: no item is created in a
    collection where one of the same name (path, label, movie) was created before, in this run or an earlier one. *)
Theorem arr_created_once envs i j e1 e2 s kind body1 body2 r1 : remembers →
  runs envs [] !! i = Some e1 → runs envs [] !! j = Some e2 → i < j →
  e1 = mkEvent (Http (create s kind body1)) (Ok r1 : Ans (Http (create s kind body1))) → is_success (rs_status r1) = true →
  e_act e2 = Http (create s kind body2) → ident kind body1 ≠ ident kind body2.
Proof.
  intros Hr H1 H2 Hij E1 Hs E2. assert (lawful (runs envs [])) as Hl. { apply runs_lawful. intros l1 e l2 E. by destruct l1. }
  set (L := runs envs []) in *. pose proof (take_drop_middle L j e2 H2) as Ej. symmetry in Ej.
  destruct (Hl _ _ _ Ej) as [[Hq|[env Hc]] _]; rewrite E2 in *; [by apply json_not_quiet in Hq|].
  eapply fresh_name; [exact Hr| |exact Hc|].
  - intros l1 e l2 E. apply (Hl l1 e (l2 ++ e2 :: drop (S j) L)). rewrite Ej at 1. rewrite E, <- app_assoc. done.
  - exists r1. split; [|done]. rewrite <- E1. apply list_elem_of_lookup. exists i. by rewrite lookup_take_lt.
Qed.
End reruns.

(** ** Running the wiring twice, against apps that remember

    A concrete server, with a text for every JSON value, that lists what it accepted: the hypotheses of [Wired] can
    hold, a first run sets everything up, and a second one changes nothing. *)

Module Reference.
Import Json.Reference(f64_countable, to_tree).
#[local] Existing Instance f64_countable.
(** A text for every value, and its reader. *)
Fixpoint of_tree (t : gen_tree (bool + N + Z + f64 + string)) : Value :=
  match t with
  | GenLeaf (inl (inl (inl (inl b)))) => Bool b
  | GenLeaf (inl (inl (inl (inr n)))) => Number (PosInt n)
  | GenLeaf (inl (inl (inr z))) => Number (NegInt z)
  | GenLeaf (inl (inr x)) => Number (Float x)
  | GenLeaf (inr s) => Str s
  | GenNode 1 l => Array (map of_tree l)
  | GenNode 2 m => Object (map (λ kv, match kv with GenNode _ [GenLeaf (inr k); v] => (k, of_tree v) | _ => ("", Null) end) m)
  | GenNode _ _ => Null
  end.
Lemma of_to_tree v : of_tree (to_tree v) = v.
Proof.
  induction v as [|b|[]|s|l IH|m IH] using Value_ind'; cbn; try done; f_equal; rewrite map_map.
  - induction IH as [|v l Hv _ IH']; cbn; [done|]. by rewrite Hv, IH'.
  - induction IH as [|[k v] m Hv _ IH']; cbn; [done|]. cbn in Hv. by rewrite Hv, IH'.
Qed.
Fixpoint bits (p : positive) : string := match p with xH => "" | xO p => String "0" (bits p) | xI p => String "1" (bits p) end.
Fixpoint of_bits (s : string) : positive :=
  match s with EmptyString => xH | String c s => if bool_decide (c = "0"%char) then xO (of_bits s) else xI (of_bits s) end.
Lemma of_bits_bits p : of_bits (bits p) = p.
Proof. induction p; cbn; by f_equal. Qed.
Definition text (v : Value) : string := bits (encode (to_tree v)).
#[export] Instance serde : SerdeJson := text.
#[export] Instance libs : Libs := {| reason _ := ""; from_str t := match decode (of_bits t) with Some v => Ok (of_tree v) | None => Err "not JSON" end |}.
Lemma from_text v : from_str (text v) = Ok v.
Proof. unfold from_str, libs, text. by rewrite of_bits_bits, decode_encode, of_to_tree. Qed.

(** What was posted to [url] with a header, and accepted; the app numbers its items (all alike here). *)
Definition kept_body (url : string) (headers : list (string * string)) (e : Trace.Event Ans) : option Value :=
  match e with
  | mkEvent (Http rq) a =>
      match rq_body rq, (a : Result Resp string) with
      | JsonBody b, Ok r =>
          if is_success (rs_status r) && bool_decide (rq_headers rq = headers) && bool_decide (rq_url rq = url ∨ rq_url rq = url +:+ "?forceSave=true")
             && bool_decide (rq_method rq = "POST")
          then Some b else None
      | _, _ => None
      end
  | _ => None
  end.
Definition kept (l : Log) (url : string) (headers : list (string * string)) : list Value :=
  set_key "id" (json_i64 1) <$> omap (kept_body url headers) l.
Definition obj (fields : list (string * string)) : Value := Object ((λ kv, (kv.1, Str kv.2)) <$> fields).
Definition schemas : list Value :=
  (λ i, Object [("fields", Array [obj [("name", "host")]; obj [("name", "tvCategory")]]); ("implementation", Str i)])
    <$> ["QBittorrent"; "Ntfy"; "Sonarr"; "Radarr"; "FlareSolverr"].
Definition static (url : string) : list Value :=
  if ends_with "profile" url then [Object [("id", json_i64 1)]]
  else if ends_with "/indexer/schema" url then [Object [("definitionName", Str "archive")]]
  else if ends_with "/schema" url then schemas
  else [].
Definition answer (l : Log) (rq : Req) : Result Resp string :=
  if String.eqb (rq_method rq) "GET" then Ok (mkResp 200 [] (Ok (text (Array (static (rq_url rq) ++ kept l (rq_url rq) (rq_headers rq))))))
  else match rq_body rq with
       | JsonBody _ => Ok (mkResp 201 [] (Ok (text (Object [("id", json_i64 1)]))))
       | _ => Err "qBittorrent is down"
       end.
Definition outside (l : Log) (x : Act) : Ans x :=
  match x return Ans x with
  | Http rq => answer l rq
  | ReadFile _ => None
  | ReadDir _ => None
  | RemoveDirAll _ | RemoveFile _ => Err ""
  | Command _ _ => Err ""
  | Clock => 0%N
  | Sleep _ => ()
  | Connect _ | WriteAll _ => Err ""
  | ReadLine => Err ""
  | UnixTime => None
  | DbConnect _ _ _ _ | Execute _ _ => Err ""
  | Query _ _ => Err ""
  end.
Definition env (name : string) : option string :=
  if bool_decide (name ∈ ["SONARR_API_KEY"; "RADARR_API_KEY"; "PROWLARR_API_KEY"]) then Some "k"
  else if String.eqb name "NTFY_URL" then Some "https://ntfy.example/media"
  else if String.eqb name "PROWLARR_INDEXERS" then
    Some (text (Array [Object [("definition", Str "archive"); ("name", Str "Archive"); ("tags", Array [Str "slow"; Str "FlareSolverr"])]]))
  else None.
End Reference.
#[local] Existing Instances Reference.serde Reference.libs.

Lemma ident_numbered kind z b : ident kind (set_key "id" z b) = ident kind b.
Proof. destruct b as [| | | | |m]; [by destruct kind| | | | |]; try done. destruct kind; cbn [ident]; by rewrite set_key_index_ne. Qed.
Lemma static_unlabelled url t : t ∈ Reference.static url → as_str (t.["label"]) = None.
Proof.
  assert (Forall (λ t, as_str (t.["label"]) = None) (Reference.static url)) as Hf; [|by rewrite Forall_forall in Hf; apply Hf].
  unfold Reference.static. repeat case_match; repeat constructor.
Qed.
Lemma kept_item l url h b : b ∈ omap (Reference.kept_body url h) l → set_key "id" (json_i64 1) b ∈ Reference.kept l url h.
Proof. intros Hb. by apply list_elem_of_fmap_2. Qed.
Lemma kept_numbered l url h t : t ∈ Reference.kept l url h → is_Some (as_str (t.["label"])) → is_Some (value_as_i64 (t.["id"])).
Proof.
  intros (b & -> & _)%list_elem_of_fmap. destruct b; cbn; try by intros []. intros _. by rewrite assoc_insert.
Qed.
Lemma kept_look (l : Log) s kind body r : mkEvent (Http (create s kind body)) (Ok r : Ans (Http (create s kind body))) ∈ l → is_success (rs_status r) = true →
  body ∈ omap (Reference.kept_body (rq_url (look s kind)) (rq_headers (look s kind))) l.
Proof.
  intros Hin Hs. apply list_elem_of_omap. eexists. split; [exact Hin|]. cbn. rewrite Hs. rewrite !bool_decide_eq_true_2; [done|done| |done].
  unfold url. destruct kind; cbn; try (by left); right; by rewrite !str_app_assoc.
Qed.
Lemma server_remembers : remembers Reference.outside.
Proof.
  intros l s kind body r v (rm & Hin & Hs) E (_ & t & Et & Ev). cbn in E. injection E as <-. injection Et as <-.
  rewrite Reference.from_text in Ev. injection Ev as <-. split.
  - exists (set_key "id" (json_i64 1) body). split; [|apply ident_numbered]. apply elem_of_app. right. apply kept_item. by eapply kept_look.
  - intros _. unfold numbered. apply Forall_forall. intros t Ht Hl. apply elem_of_app in Ht as [Ht|Ht]; [|by eapply kept_numbered].
    apply static_unlabelled in Ht. rewrite Ht in Hl. by destruct Hl.
Qed.

(** What a run changes, besides looking. *)
Definition change (e : Trace.Event Ans) : option (string * string) :=
  match e_act e with Http rq => if String.eqb (rq_method rq) "GET" then None else Some (rq_method rq, rq_url rq) | _ => None end.
Definition once : Log := runs Reference.outside [Reference.env] [].
Definition twice : Log := runs Reference.outside [Reference.env; Reference.env] [].
(** The first run sets everything up; the second only looks, and signs in. *)
Example rerun_changes_nothing :
  omap change once =
    [("POST", "http://qbittorrent.media.svc.cluster.local:8080/api/v2/auth/login");
     ("POST", "http://sonarr.media.svc.cluster.local/api/v3/rootfolder");
     ("POST", "http://sonarr.media.svc.cluster.local/api/v3/downloadclient?forceSave=true");
     ("POST", "http://sonarr.media.svc.cluster.local/api/v3/notification?forceSave=true");
     ("POST", "http://radarr.media.svc.cluster.local/api/v3/rootfolder");
     ("POST", "http://radarr.media.svc.cluster.local/api/v3/downloadclient?forceSave=true");
     ("POST", "http://radarr.media.svc.cluster.local/api/v3/notification?forceSave=true");
     ("POST", "http://prowlarr.media.svc.cluster.local/api/v1/applications?forceSave=true");
     ("POST", "http://prowlarr.media.svc.cluster.local/api/v1/applications?forceSave=true");
     ("POST", "http://prowlarr.media.svc.cluster.local/api/v1/downloadclient?forceSave=true");
     ("POST", "http://prowlarr.media.svc.cluster.local/api/v1/tag");
     ("POST", "http://prowlarr.media.svc.cluster.local/api/v1/indexerProxy?forceSave=true");
     ("POST", "http://prowlarr.media.svc.cluster.local/api/v1/tag");
     ("POST", "http://prowlarr.media.svc.cluster.local/api/v1/indexer?forceSave=true")] ∧
  omap change (drop (length once) twice) = [("POST", "http://qbittorrent.media.svc.cluster.local:8080/api/v2/auth/login")].
Proof. vm_compute. done. Qed.

Lemma arr_complete_witness : complete Reference.env once.
Proof. unfold once, runs. eapply (arr_complete Reference.env Reference.outside [] []). vm_compute. reflexivity. Defined.

Definition prowlarr : Servarr := mkServarr "http://prowlarr.media.svc.cluster.local" "k" "v1".
Definition label (l : string) : Value := Object [("label", Str l)].
Lemma arr_created_once_witness : ident Tag (label "flaresolverr") ≠ ident Tag (label "slow").
Proof.
  eapply (arr_created_once Reference.outside [Reference.env; Reference.env] 30 37 _ _ prowlarr Tag _ _ (mkResp 201 [] (Ok (Reference.text (Object [("id", json_i64 1)]))))).
  - exact server_remembers.
  - vm_compute. reflexivity.
  - vm_compute. reflexivity.
  - lia.
  - reflexivity.
  - reflexivity.
  - reflexivity.
Defined.
