(* ===== verification/AlertDigest.v ===== *)
(** * The daily alert email ([apps/app-bootstrap/src/alert_digest.rs])

    What fires, what fired and resolved, and what is held back; the text and the message made of it; the SMTP
    dialogue; and the run. Texts are bytes of ASCII. *)

From Stdlib Require Import Ascii.
From stdpp Require Import options.
From S2P Require Import Prelude F64 Text Json Codec Calendar Threads Trace Apps Bootstrap.

Notation Labels := (list (string * string)).
Record Alert : Type := mkAlert { labels : Labels; since : option Z; summary : string }.
Record Digest : Type := mkDigest { firing : list Alert; resolved : list Alert; silenced : list (Alert * string) }.

(** ** Times *)

Definition fmt_time (t : Z) : string :=
  let '(y, m, d) := civil (t / 86400)%Z in
  let s := (t `mod` 86400)%Z in
  padded 4 y +:+ "-" +:+ padded 2 m +:+ "-" +:+ padded 2 d +:+ " " +:+ padded 2 (Z.quot s 3600) +:+ ":" +:+ padded 2 (Z.quot (Z.rem s 3600) 60) +:+ " UTC".
Definition WEEKDAYS : list string := ["Thu"; "Fri"; "Sat"; "Sun"; "Mon"; "Tue"; "Wed"].
Definition MONTHS : list string := ["Jan"; "Feb"; "Mar"; "Apr"; "May"; "Jun"; "Jul"; "Aug"; "Sep"; "Oct"; "Nov"; "Dec"].
Definition rfc2822 (t : Z) : string :=
  let '(y, m, d) := civil (t / 86400)%Z in
  let s := (t `mod` 86400)%Z in
  let weekday := default "" (WEEKDAYS !! Z.to_nat ((t / 86400) `mod` 7)) in
  let month := default "" (MONTHS !! (Z.to_nat m - 1)%nat) in
  weekday +:+ ", " +:+ padded 2 d +:+ " " +:+ month +:+ " " +:+ padded 4 y +:+ " " +:+ padded 2 (Z.quot s 3600) +:+ ":" +:+ padded 2 (Z.quot (Z.rem s 3600) 60)
  +:+ ":" +:+ padded 2 (Z.rem s 60) +:+ " +0000".
Definition age (secs : Z) : string :=
  if (secs <=? 59)%Z then "<1m"
  else if (secs <=? 3599)%Z then pretty (Z.quot secs 60) +:+ "m"
  else if (secs <=? 86399)%Z then pretty (Z.quot secs 3600) +:+ "h" +:+ padded 2 (Z.quot (Z.rem secs 3600) 60) +:+ "m"
  else pretty (Z.quot secs 86400) +:+ "d" +:+ pretty (Z.quot (Z.rem secs 86400) 3600) +:+ "h".

(** [i64] arithmetic of a release build. *)
Definition i64_wrap (z : Z) : Z := ((z + 2 ^ 63) `mod` 2 ^ 64 - 2 ^ 63)%Z.

(** ** Alerts *)

Definition label (a : Alert) (k : string) : string := default "" (assoc k (labels a)).
Definition nonempty (s : string) : bool := negb (bool_decide (s = "")).
Definition scope (a : Alert) : string :=
  let place := if bool_decide (label a "instance" = "") then label a "node" else label a "instance" in
  let parts := List.filter nonempty [label a "namespace"; place] in
  if bool_decide (parts = []) then "-" else join "/" parts.
Definition severity_rank (s : string) : N :=
  if bool_decide (s = "critical") then 0%N else if bool_decide (s = "warning") then 1%N else if bool_decide (s = "info") then 3%N else 2%N.
Definition rank (a : Alert) : N * string * string := (severity_rank (label a "severity"), label a "alertname", scope a).
Definition str_ltb (s t : string) : bool := negb (String.leb t s).
(** The order of tuples. *)
Definition rank_leb (x y : N * string * string) : bool :=
  let '(n, s, t) := x in let '(n', s', t') := y in
  (n <? n')%N || ((n =? n')%N && (str_ltb s s' || (String.eqb s s' && String.leb t t'))).
Definition by_rank (a b : Alert) : bool := rank_leb (rank a) (rank b).
Definition line (now : Z) (a : Alert) : string :=
  let severity := if bool_decide (label a "severity" = "") then "unknown" else label a "severity" in
  let since := match since a with Some t => "since " +:+ fmt_time t +:+ " (" +:+ age (i64_wrap (now - t)) +:+ ")" | None => "since unknown" end in
  trim_end_matches is_whitespace (severity +:+ " " +:+ label a "alertname" +:+ " " +:+ scope a +:+ " " +:+ since +:+ " " +:+ summary a).

(** ** The digest as text *)

Definition digest_is_empty (d : Digest) : bool := bool_decide (firing d = []) && bool_decide (resolved d = []) && bool_decide (silenced d = []).
Definition count {A} (l : list A) : string := pretty (N.of_nat (length l)).
Definition sections (d : Digest) (hours : N) (now : Z) : list (string * list string) :=
  [("Firing now (" +:+ count (firing d) +:+ ")", line now <$> firing d);
   ("Fired in the last " +:+ pretty hours +:+ "h, resolved (" +:+ count (resolved d) +:+ ")", line now <$> resolved d);
   ("Silenced or inhibited (" +:+ count (silenced d) +:+ ")", (λ aw, line now aw.1 +:+ " [" +:+ aw.2 +:+ "]") <$> silenced d)].
Definition subject (d : Digest) (now : Z) : string :=
  "[alerts] " +:+ count (firing d) +:+ " firing, " +:+ count (resolved d) +:+ " resolved, " +:+ count (silenced d) +:+ " silenced (" +:+ str (take 10 (chars (fmt_time now))) +:+ ")".
Definition nl : string := String newline "".
Definition concat_str (l : list string) : string := foldr (λ s t, s +:+ t) "" l.
Definition text (d : Digest) (hours : N) (now : Z) : string :=
  "Alert digest, " +:+ fmt_time now +:+ nl +:+
  concat_str ((λ s, nl +:+ s.1 +:+ nl +:+ (if bool_decide (s.2 = []) then "  none" +:+ nl else concat_str ((λ l, "  " +:+ l +:+ nl) <$> s.2))) <$> sections d hours now).
Definition escape (s : string) : string := replace ">" "&gt;" (replace "<" "&lt;" (replace "&" "&amp;" s)).
Definition html (d : Digest) (hours : N) (now : Z) : string :=
  "<h2>Alert digest, " +:+ fmt_time now +:+ "</h2>" +:+ nl +:+
  concat_str ((λ s, "<h3>" +:+ escape s.1 +:+ "</h3>" +:+ nl +:+ "<ul>" +:+ nl +:+ (if bool_decide (s.2 = []) then "<li>none</li>" +:+ nl else "")
                    +:+ concat_str ((λ l, "<li><code>" +:+ escape l +:+ "</code></li>" +:+ nl) <$> s.2) +:+ "</ul>" +:+ nl) <$> sections d hours now).

(** ** What Prometheus and Alertmanager say *)

Definition nth_value (n : nat) (v : Value) : Value := match v with Array l => default Null (l !! n) | _ => Null end.
Definition labels_of (v : Value) : Labels := omap (λ kv, s ← as_str kv.2; Some (kv.1, s)) (object_of v).
Definition series (v : Value) : list (Labels * f64) :=
  omap (λ s, x ← as_str (nth_value 1 (s.["value"])) ≫= parse_f64;
             Some (List.filter (λ kv, negb (bool_decide (kv.1 = "alertstate"))) (labels_of (s.["metric"])), x))
    (array_of (v.["data"].["result"])).
Definition rule_summary (r : Value) : option (string * string) :=
  name ← as_str (r.["name"]); s ← as_str (r.["annotations"].["summary"]); if contains "{{" s then None else Some (name, s).
Definition rule_summaries (rules : Value) : list (string * string) :=
  foldl (λ m kv, insert_key kv.1 kv.2 m) [] (omap rule_summary (flat_map (λ g, array_of (g.["rules"])) (array_of (rules.["data"].["groups"])))).
Definition suppressed (am : Value) : list (Labels * string) :=
  (λ a, (labels_of (a.["labels"]), match as_array (a.["status"].["silencedBy"]) with Some (_ :: _) => "silenced" | _ => "inhibited" end))
    <$> List.filter (λ a, value_is_str (a.["status"].["state"]) "suppressed") (array_of am).
Definition current (active : Value) : list (Labels * string) :=
  (λ a, (labels_of (a.["labels"]), default "" (as_str (a.["annotations"].["summary"]))))
    <$> List.filter (λ a, value_is_str (a.["state"]) "firing") (array_of (active.["data"].["alerts"])).
Definition ignored (ignore : list string) (l : Labels) : bool := match assoc "alertname" l with Some n => bool_decide (n ∈ ignore) | None => false end.
Definition since_of (started : list (Labels * f64)) (l : Labels) : option Z := (λ st, as_i64 st.2) <$> List.find (λ st, bool_decide (st.1 = l)) started.
(** An alert of Alertmanager holds all of Prometheus's labels, and more. *)
Definition covers (l s : Labels) : bool := forallb (λ kv, bool_decide (assoc kv.1 s = Some kv.2)) l.
Definition place (started : list (Labels * f64)) (held : list (Labels * string)) (ignore : list string) (d : Digest) (c : Labels * string) : Digest :=
  if ignored ignore c.1 then d
  else
    let alert := mkAlert c.1 (since_of started c.1) c.2 in
    match List.find (λ s, covers c.1 s.1) held with
    | Some s => mkDigest (firing d) (resolved d) (silenced d ++ [(alert, s.2)])
    | None => mkDigest (firing d ++ [alert]) (resolved d) (silenced d)
    end.
Definition add_resolved (started : list (Labels * f64)) (summaries : list (string * string)) (now : list (Labels * string)) (ignore : list string)
    (d : Digest) (s : Labels * f64) : Digest :=
  if ignored ignore s.1 || existsb (λ c, bool_decide (c.1 = s.1)) now then d
  else mkDigest (firing d) (resolved d ++ [mkAlert s.1 (since_of started s.1) (default "" (assoc "alertname" s.1 ≫= λ n, assoc n summaries))]) (silenced d).
Definition classify (active fired started rules am : Value) (ignore : list string) : Digest :=
  let started := series started in
  let d := foldl (place started (suppressed am) ignore) (mkDigest [] [] []) (current active) in
  let d := foldl (add_resolved started (rule_summaries rules) (current active) ignore) d (series fired) in
  mkDigest (stable_sort by_rank (firing d)) (stable_sort by_rank (resolved d)) (stable_sort (λ x y, by_rank x.1 y.1) (silenced d)).

(** ** The message *)

Definition crlf : string := String carriage_return (String newline "").
Fixpoint chunks_from (fuel n : nat) (l : list ascii) : list (list ascii) :=
  match fuel, l with
  | S fuel, _ :: _ => take n l :: chunks_from fuel n (drop n l)
  | _, _ => []
  end.
(** There are no more chunks than characters. *)
Definition wrapped (s : string) : list string := str <$> chunks_from (String.length s) 76 (chars s).
Definition host_of (from : string) : string := default from (snd <$> rsplit_once "@" from).
Definition part (boundary kind body : string) : string :=
  "--" +:+ boundary +:+ crlf +:+ "Content-Type: " +:+ kind +:+ "; charset=utf-8" +:+ crlf +:+ "Content-Transfer-Encoding: base64" +:+ crlf +:+ crlf +:+
  join crlf (wrapped (b64 body)) +:+ crlf.
Definition message (from to subject text html : string) (now : Z) : string :=
  let boundary := "alert-digest-" +:+ pretty now in
  "From: Alert digest <" +:+ from +:+ ">" +:+ crlf +:+ "To: <" +:+ to +:+ ">" +:+ crlf +:+ "Subject: " +:+ subject +:+ crlf +:+ "Date: " +:+ rfc2822 now +:+ crlf +:+
  "Message-ID: <alert-digest-" +:+ pretty now +:+ "@" +:+ host_of from +:+ ">" +:+ crlf +:+ "MIME-Version: 1.0" +:+ crlf +:+
  "Content-Type: multipart/alternative; boundary=" +:+ quote +:+ boundary +:+ quote +:+ crlf +:+ crlf +:+
  part boundary "text/plain" text +:+ part boundary "text/html" html +:+ "--" +:+ boundary +:+ "--".

(** ** SMTP *)

Section smtp.
Context `{Libs} (patience : nat).

(** A step of the connection, or that it failed or its time is up. *)
Definition io {A} (r : Result A string) : Job A := match r with Ok a => mret a | Err e => fail e end.
(** [patience]: how many lines can arrive in the 60 s. *)
Fixpoint expect_from (fuel : nat) (code : string) : Job () :=
  match fuel with
  | O => fail "deadline has elapsed"
  | S fuel =>
      r ← do Ans ReadLine;
      line ← io r;
      if bool_decide (line = "") then fail "smtp: connection closed"
      else
        let line := trim_end_matches is_whitespace line in
        if bool_decide (chars line !! 3%nat = Some "-"%char) then expect_from fuel code
        else if starts_with code line then mret () else fail ("smtp: expected " +:+ code +:+ ", got " +:+ line)
  end.
Definition expect : string → Job () := expect_from patience.
Definition write (s : string) : Job () := r ← do Ans (WriteAll s); io r.
Definition commands (from to : string) : list (string * string) :=
  [("EHLO " +:+ host_of from, "250"); ("MAIL FROM:<" +:+ from +:+ ">", "250"); ("RCPT TO:<" +:+ to +:+ ">", "250"); ("DATA", "354")].
Definition smtp (addr from to data : string) : Job () :=
  r ← do Ans (Connect addr);
  _ ← io r;
  _ ← expect "220";
  _ ← for_each Ans (commands from to) (λ cc, _ ← write (cc.1 +:+ crlf); expect cc.2);
  _ ← write (data +:+ crlf +:+ "." +:+ crlf);
  _ ← expect "250";
  write ("QUIT" +:+ crlf).
End smtp.

(** ** The run *)

Section run.
Context `{Libs} (patience : nat) (env : string → option string).
Definition no_slash (p : string) : string := trim_end_matches (λ c, bool_decide (c = "/"%char)) p.
Definition get (url : string) (query : list (string * string)) : Job Value :=
  r ← send (mkReq "GET" url query [] NoBody); r ← ok r url; json_body r.
Definition query (prometheus expr : string) : Job Value := get (prometheus +:+ "/api/v1/query") [("query", expr)].
Definition ask (p am : string) (hours : N) : Job (Value * Value * Value * Value * Value) :=
  active ← get (p +:+ "/api/v1/alerts") [];
  fired ← query p ("max_over_time(ALERTS{alertstate=" +:+ quote +:+ "firing" +:+ quote +:+ "}[" +:+ pretty hours +:+ "h])");
  started ← query p ("max_over_time(ALERTS_FOR_STATE[" +:+ pretty hours +:+ "h])");
  rules ← get (p +:+ "/api/v1/rules") [("type", "alert")];
  held ← get (am +:+ "/api/v2/alerts") [];
  mret (active, fired, started, rules, held).
Definition ignore_list : list string :=
  List.filter nonempty (trim <$> split_char "," (var env "IGNORE_ALERTS" "Watchdog,InfoInhibitor")).
Definition mail (from to : string) (d : Digest) (hours : N) (now : Z) : string := message from to (subject d now) (text d hours now) (html d hours now) now.
Definition run : Job () :=
  let prometheus := var env "PROMETHEUS_URL" "http://prometheus-kube-prometheus-prometheus.observability.svc.cluster.local:9090" in
  let alertmanager := var env "ALERTMANAGER_URL" "http://alertmanager.observability.svc.cluster.local:9093" in
  let smtp_addr := var env "SMTP_ADDR" "stalwart.mail.svc.cluster.local:25" in
  from ← need (env "DIGEST_FROM") "set DIGEST_FROM";
  to ← need (env "DIGEST_TO") "set DIGEST_TO";
  hours ← need (parse_u32 (var env "DIGEST_HOURS" "24")) "invalid digit found in string";
  '(active, fired, started, rules, held) ← retry "querying prometheus and alertmanager" 3 (ask (no_slash prometheus) (no_slash alertmanager) hours);
  let d := classify active fired started rules held ignore_list in
  _ ← say ("alert digest: " +:+ count (firing d) +:+ " firing, " +:+ count (resolved d) +:+ " resolved, " +:+ count (silenced d) +:+ " silenced");
  if digest_is_empty d && negb (bool_decide (var env "ALWAYS_SEND" "false" = "true")) then say "alert digest: nothing fired and nothing is firing, no email"
  else
    t ← do Ans UnixTime;
    now ← need t "second time provided was later than self";
    let now := Z.of_N now in
    _ ← retry "sending the digest" 3 (smtp patience smtp_addr from to (mail from to d hours now));
    say ("alert digest: sent to " +:+ to).
End run.

(** The program's own tests. *)
Example times :
  fmt_time 0 = "1970-01-01 00:00 UTC" ∧ fmt_time 1000000000 = "2001-09-09 01:46 UTC" ∧ fmt_time (1709164800 + 86399) = "2024-02-29 23:59 UTC" ∧
  rfc2822 1000000000 = "Sun, 09 Sep 2001 01:46:40 +0000" ∧ age <$> [30; 600; 7260; 90000]%Z = ["<1m"; "10m"; "2h01m"; "1d1h"].
Proof. vm_compute. done. Qed.
