(* ===== verification/AlertMail.v ===== *)
(** * What the alert email says, and that it arrives as it was written

    [digest_partition]: every alert is in exactly its section. [message_lines]: the message is a list of lines none of
    which can end the SMTP data early, and its parts decode to the texts. [mail_in_step] and [run_delivers]: the
    dialogue, and what a run that ends well has done. *)

From Stdlib Require Import Ascii.
From stdpp Require Import options.
From S2P Require Import Prelude Text F64 Json Calendar Codec Threads Trace Apps Bootstrap AlertDigest.

(** ** The sections *)

Lemma name_ltb_spec s t : str_ltb s t = true ↔ str_lt s t.
Proof. unfold str_ltb, str_lt. by rewrite negb_true_iff. Qed.
Lemma rank_leb_spec x y : rank_leb x y = true ↔
  (x.1.1 < y.1.1)%N ∨ (x.1.1 = y.1.1 ∧ (str_lt x.1.2 y.1.2 ∨ (x.1.2 = y.1.2 ∧ str_le x.2 y.2))).
Proof.
  destruct x as [[n s] t], y as [[n' s'] t']. unfold rank_leb. cbn. rewrite orb_true_iff, andb_true_iff, orb_true_iff, andb_true_iff, N.ltb_lt, N.eqb_eq, name_ltb_spec, String.eqb_eq. done.
Qed.
Lemma rank_leb_total x y : rank_leb x y = true ∨ rank_leb y x = true.
Proof.
  rewrite !rank_leb_spec. destruct x as [[n s] t], y as [[n' s'] t']. cbn. destruct (N.lt_trichotomy n n') as [?|[->|?]]; [tauto| |tauto].
  destruct (str_le_lt s s') as [Hs|Hs]; [|tauto]. destruct (decide (s = s')) as [->|Hne].
  - destruct (str_le_lt t t') as [Ht|[Ht _]%str_lt_spec]; tauto.
  - left. right. split; [done|]. left. by apply str_lt_spec.
Qed.
Lemma rank_leb_trans x y z : rank_leb x y = true → rank_leb y z = true → rank_leb x z = true.
Proof.
  rewrite !rank_leb_spec. destruct x as [[n s] t], y as [[n' s'] t'], z as [[n'' s''] t'']. cbn.
  intros [?|[-> Hxy]] [?|[-> Hyz]]; [left; lia|by left|by left|]. right. split; [done|].
  destruct Hxy as [Hxy|[-> Hxy]], Hyz as [Hyz|[-> Hyz]]; [left|by left|by left|right; split; [done|by eapply str_le_trans]].
  apply str_lt_le_trans with s'; [done|]. by apply str_lt_spec in Hyz as [? _].
Qed.
Lemma sorted_by_rank l : StronglySorted (λ a b, by_rank a b = true) (stable_sort by_rank l).
Proof. apply stable_sort_sorted; unfold by_rank; [intros; apply rank_leb_total|intros *; apply rank_leb_trans]. Qed.

Section partition.
Context (active fired started rules am : Value) (ignore : list string).
Definition heard : list (Labels * string) := List.filter (λ c, negb (ignored ignore c.1)) (current active).
Definition alert_of (c : Labels * string) : Alert := mkAlert c.1 (since_of (series started) c.1) c.2.
Definition over : list (Labels * f64) :=
  List.filter (λ s, negb (ignored ignore s.1 || existsb (λ c, bool_decide (c.1 = s.1)) (current active))) (series fired).
Definition over_alert (s : Labels * f64) : Alert :=
  mkAlert s.1 (since_of (series started) s.1) (default "" (assoc "alertname" s.1 ≫= λ n, assoc n (rule_summaries rules))).
Definition holder (c : Labels * string) : option (Labels * string) := List.find (λ s, covers c.1 s.1) (suppressed am).

Lemma place_all cs d : foldl (place (series started) (suppressed am) ignore) d cs =
  let hs := List.filter (λ c, negb (ignored ignore c.1)) cs in
  mkDigest (firing d ++ omap (λ c, match holder c with None => Some (alert_of c) | Some _ => None end) hs) (resolved d)
    (silenced d ++ omap (λ c, (λ s, (alert_of c, s.2)) <$> holder c) hs).
Proof.
  revert d. induction cs as [|c cs IH]; intros d; cbn; [by destruct d; cbn; rewrite !app_nil_r|]. rewrite IH. unfold place.
  destruct (ignored ignore c.1); cbn; [done|]. fold (holder c). destruct (holder c); cbn; by rewrite <- app_assoc.
Qed.
Lemma resolve_all ss d : foldl (add_resolved (series started) (rule_summaries rules) (current active) ignore) d ss =
  mkDigest (firing d) (resolved d ++ (over_alert <$> List.filter (λ s, negb (ignored ignore s.1 || existsb (λ c, bool_decide (c.1 = s.1)) (current active))) ss)) (silenced d).
Proof.
  revert d. induction ss as [|s ss IH]; intros d; cbn; [by destruct d; cbn; rewrite app_nil_r|]. rewrite IH. unfold add_resolved.
  destruct (_ || _); cbn; [done|]. by rewrite <- app_assoc.
Qed.
Lemma split_perm (f : Labels * string → option (Labels * string)) cs :
  omap (λ c, match f c with None => Some (alert_of c) | Some _ => None end) cs ++ (omap (λ c, (λ s, (alert_of c, s.2)) <$> f c) cs).*1 ≡ₚ alert_of <$> cs.
Proof.
  induction cs as [|c cs IH]; cbn; [done|]. destruct (f c) as [s|]; cbn; [|by rewrite IH]. by rewrite <- Permutation_middle, IH.
Qed.

(** Every firing alert that is not ignored is in the digest exactly once: silenced, with the reason, when a suppressed
    alert of Alertmanager holds all its labels, and firing otherwise; every series that fired and is neither ignored nor
    firing now is resolved, exactly once; and each section is sorted by severity, name and place. *)
Theorem digest_partition : let d := classify active fired started rules am ignore in
  firing d ++ (silenced d).*1 ≡ₚ alert_of <$> heard ∧ resolved d ≡ₚ over_alert <$> over ∧
  (∀ a s, a ∈ firing d → s ∈ suppressed am → covers (labels a) s.1 = false) ∧
  (∀ a why, (a, why) ∈ silenced d → ∃ s, (s, why) ∈ suppressed am ∧ covers (labels a) s = true) ∧
  StronglySorted (λ a b, by_rank a b = true) (firing d) ∧ StronglySorted (λ a b, by_rank a b = true) (resolved d) ∧
  StronglySorted (λ x y, by_rank x.1 y.1 = true) (silenced d).
Proof.
  unfold classify. rewrite place_all, resolve_all. fold heard over. cbn [firing resolved silenced app]. split_and!.
  - rewrite (stable_sort_perm _ (omap _ _)). rewrite (fmap_Permutation fst _ _ (stable_sort_perm _ _)). apply split_perm.
  - apply stable_sort_perm.
  - intros a s Ha Hs. apply stable_sort_elem, list_elem_of_omap in Ha as (c & _ & E). destruct (holder c) eqn:Eh; [done|]. injection E as <-.
    by apply (find_none_elem _ _ _ Eh).
  - intros a why Ha. apply stable_sort_elem, list_elem_of_omap in Ha as (c & _ & E). destruct (holder c) as [[s w]|] eqn:Eh; [|done]. injection E as <- <-.
    apply find_some_elem in Eh as [Hin Hc]. by exists s.
  - apply sorted_by_rank.
  - apply sorted_by_rank.
  - apply stable_sort_sorted; unfold by_rank; [intros; apply rank_leb_total|intros *; apply rank_leb_trans].
Qed.
End partition.

(** ** The message *)

Definition plain (s : string) : Prop := Forall (λ c, c ≠ newline ∧ c ≠ carriage_return) (chars s).
#[export] Instance plain_dec s : Decision (plain s).
Proof. unfold plain. apply _. Defined.
Ltac literal := apply (bool_decide_unpack _); vm_compute; exact I.
Lemma plain_app s t : plain (s +:+ t) ↔ plain s ∧ plain t.
Proof. unfold plain. by rewrite chars_app, Forall_app. Qed.
Lemma plain_sub s t : (∀ c, c ∈ chars s → c ∈ chars t) → plain t → plain s.
Proof. unfold plain. rewrite !Forall_forall. auto. Qed.
Lemma plain_digits (n : N) : plain (pretty n).
Proof.
  unfold plain. apply Forall_forall. intros c Hc.
  split; intros ->; [apply (pretty_N_char_not_in n newline)|apply (pretty_N_char_not_in n carriage_return)]; done.
Qed.
Lemma plain_Z (z : Z) : plain (pretty z).
Proof. unfold pretty, pretty_Z. destruct z; [literal|apply plain_digits|]. apply (plain_app "-"). split; [literal|apply plain_digits]. Qed.
Lemma plain_replicate n : plain (str (replicate n "0"%char)).
Proof. unfold plain. rewrite chars_str. by apply Forall_replicate. Qed.
Lemma plain_padded w z : plain (padded w z).
Proof.
  unfold padded. apply plain_app. split; [destruct (_ <? _)%Z; literal|]. apply plain_app. split; [apply plain_replicate|apply plain_digits].
Qed.

(** The lines of the message. *)
Definition heads (from to subject : string) (now : Z) : list string :=
  ["From: Alert digest <" +:+ from +:+ ">"; "To: <" +:+ to +:+ ">"; "Subject: " +:+ subject; "Date: " +:+ rfc2822 now;
   "Message-ID: <alert-digest-" +:+ pretty now +:+ "@" +:+ host_of from +:+ ">"; "MIME-Version: 1.0";
   "Content-Type: multipart/alternative; boundary=" +:+ quote +:+ "alert-digest-" +:+ pretty now +:+ quote; ""].
Definition body_lines (body : string) : list string := match wrapped (b64 body) with [] => [""] | l => l end.
Definition part_lines (boundary kind body : string) : list string :=
  ["--" +:+ boundary; "Content-Type: " +:+ kind +:+ "; charset=utf-8"; "Content-Transfer-Encoding: base64"; ""] ++ body_lines body.
Definition lines_of (from to subject text html : string) (now : Z) : list string :=
  let boundary := "alert-digest-" +:+ pretty now in
  heads from to subject now ++ part_lines boundary "text/plain" text ++ part_lines boundary "text/html" html ++ ["--" +:+ boundary +:+ "--"].

Lemma join_app sep a b : a ≠ [] → b ≠ [] → join sep (a ++ b) = join sep a +:+ sep +:+ join sep b.
Proof.
  intros Ha Hb. induction a as [|w [|w' a] IH]; [done| |].
  - destruct b; [done|]. done.
  - cbn [app]. rewrite !join_cons. cbn [app] in IH. rewrite IH by done. by rewrite !str_app_assoc.
Qed.
Lemma join_body body : join crlf (body_lines body) = join crlf (wrapped (b64 body)).
Proof. unfold body_lines. by destruct (wrapped _). Qed.
Lemma body_lines_ne body : body_lines body ≠ [].
Proof. unfold body_lines. by destruct (wrapped _). Qed.
Lemma part_join boundary kind body : part boundary kind body = join crlf (part_lines boundary kind body) +:+ crlf.
Proof.
  unfold part_lines. rewrite join_app by (done || apply body_lines_ne). rewrite join_body. unfold part. cbn [join]. by rewrite <- !str_app_assoc.
Qed.
Lemma message_join from to subject text html now : message from to subject text html now = join crlf (lines_of from to subject text html now).
Proof.
  unfold lines_of, message. rewrite !part_join, !join_app by (done || by destruct (part_lines _ _ _)). cbn [heads join]. by rewrite <- !str_app_assoc.
Qed.

Lemma chunks_concat fuel n l : n ≠ 0 → length l ≤ fuel → concat (chunks_from fuel n l) = l.
Proof.
  intros Hn. revert l. induction fuel as [|fuel IH]; intros [|a l] Hl; cbn in Hl; try done; [lia|]. cbn [chunks_from concat].
  rewrite IH; [apply take_drop|]. rewrite length_drop. cbn. lia.
Qed.
Lemma chunks_length fuel n l c : c ∈ chunks_from fuel n l → length c ≤ n.
Proof.
  revert l. induction fuel as [|fuel IH]; intros [|a l]; cbn [chunks_from]; try (by intros ?%not_elem_of_nil).
  intros [->|Hc]%elem_of_cons; [rewrite length_take; lia|by eapply IH].
Qed.
Lemma concat_strs l : concat_str (str <$> l) = str (concat l).
Proof. induction l as [|x l IH]; [done|]. change (str x +:+ concat_str (str <$> l) = str (x ++ concat l)). rewrite IH. apply (inj chars). by rewrite chars_app, !chars_str. Qed.
Lemma wrapped_concat s : concat_str (wrapped s) = s.
Proof. unfold wrapped. rewrite concat_strs, chunks_concat; [apply str_chars|done|by rewrite <- length_chars]. Qed.
Lemma wrapped_chars s w c : w ∈ wrapped s → c ∈ chars w → c ∈ chars s.
Proof.
  intros (l & -> & Hl)%list_elem_of_fmap Hc. rewrite chars_str in Hc. rewrite <- (chunks_concat (String.length s) 76 (chars s)) by (done || by rewrite <- length_chars).
  apply list_elem_of_In, in_concat. exists l. split; by apply list_elem_of_In.
Qed.
Definition alphabet (c : ascii) : Prop := c ∈ T ++ ["="%char].
Lemma T_alphabet k : alphabet (default "="%char (T !! k)).
Proof.
  destruct (T !! k) as [x|] eqn:E; cbn [default from_option id]; apply elem_of_app; [left; by eapply list_elem_of_lookup_2|right; by left].
Qed.
Lemma b64_alphabet s : Forall alphabet (chars (b64 s)).
Proof.
  unfold b64. rewrite chars_str. generalize (chars s). clear s.
  assert (∀ c, Forall alphabet (b64_chunk c)) as Hc.
  { intros c. unfold b64_chunk. apply Forall_fmap, Forall_forall. intros i _. cbv beta zeta delta [compose]. case_match; [apply T_alphabet|]. apply elem_of_app. right. by left. }
  assert (∀ n l, length l ≤ n → Forall alphabet (b64_list l)) as H; [|intros l; by apply (H (length l))].
  induction n as [|n IH]; intros l Hl; [by destruct l; cbn in Hl; [|lia]|]. destruct l as [|a [|b [|d l]]]; cbn [b64_list]; [done|apply Hc..|].
  apply Forall_app. split; [apply Hc|]. apply IH. cbn in Hl. lia.
Qed.
Lemma alphabet_safe c : alphabet c → c ≠ newline ∧ c ≠ carriage_return ∧ c ≠ "."%char ∧ c ≠ "-"%char.
Proof.
  assert (Forall (λ c, c ≠ newline ∧ c ≠ carriage_return ∧ c ≠ "."%char ∧ c ≠ "-"%char) (T ++ ["="%char])) as H.
  { apply (bool_decide_unpack _). vm_compute. done. }
  rewrite Forall_forall in H. apply H.
Qed.
Lemma body_line body w : w ∈ body_lines body → Forall alphabet (chars w) ∧ String.length w ≤ 76.
Proof.
  unfold body_lines. intros Hw. assert (w = "" ∨ w ∈ wrapped (b64 body)) as [->|H].
  { destruct (wrapped (b64 body)); [left; by apply list_elem_of_singleton in Hw|by right]. }
  { split; [done|cbn; lia]. }
  split.
  - apply Forall_forall. intros c Hc. pose proof (b64_alphabet body) as Hb. rewrite Forall_forall in Hb. apply Hb. by eapply wrapped_chars.
  - apply list_elem_of_fmap in H as (l & -> & Hl%chunks_length). rewrite length_chars, chars_str. exact Hl.
Qed.
Lemma body_concat body : concat_str (body_lines body) = b64 body.
Proof. unfold body_lines. pose proof (wrapped_concat (b64 body)) as H. by destruct (wrapped (b64 body)). Qed.

(** No line break of the text is followed by a dot. *)
Definition undotted (s : string) : Prop := ∀ pre post, chars s ≠ pre ++ carriage_return :: newline :: "."%char :: post.
Lemma plain_no_cr s pre post : plain s → chars s ≠ pre ++ carriage_return :: post.
Proof. intros Hs E. unfold plain in Hs. rewrite E, Forall_app in Hs. destruct Hs as [_ [Hc _]%Forall_cons]. by destruct Hc. Qed.
Lemma starts_dot s post : chars s = "."%char :: post → starts_with "." s = true.
Proof. intros E. rewrite <- (str_chars s), E. exact (starts_with_prefix "." (str post)). Qed.
Lemma join_undotted ls : Forall (λ l, plain l ∧ starts_with "." l = false) ls → undotted (join crlf ls) ∧ starts_with "." (join crlf ls) = false.
Proof.
  intros Hls. induction Hls as [|w ls [Hw Hd] Hls IH].
  { split; [|done]. intros pre post E. by destruct pre. }
  destruct ls as [|w' ls].
  { cbn [join]. split; [|done]. intros pre post E. by eapply plain_no_cr in E. }
  rewrite join_cons. destruct IH as [IH1 IH2]. revert IH1 IH2. generalize (join crlf (w' :: ls)). intros rest IH1 IH2. split.
  - intros pre post E. rewrite !chars_app in E. apply List.app_eq_app in E as [m [[E1 E2]|[E1 E2]]].
    + destruct m as [|a m]; [|injection E2 as <- E2; by eapply plain_no_cr in E1].
      cbn in E2. assert (chars rest = "."%char :: post) as E3 by congruence. apply starts_dot in E3. congruence.
    + destruct m as [|a m].
      { cbn in E2. assert (chars rest = "."%char :: post) as E3 by congruence. apply starts_dot in E3. congruence. }
      destruct m as [|b m]; [by injection E2|]. cbn in E2. injection E2 as <- <- E2. by apply IH1 in E2.
  - destruct w as [|a w]; [done|]. destruct (decide (a = "."%char)) as [->|Hne]; [|by apply (starts_with_ne "." a)].
    pose proof (starts_with_prefix "." w) as Hp. change ("." +:+ w) with (String "." w) in Hp. congruence.
Qed.

Lemma plain_rfc2822 t : plain (rfc2822 t).
Proof.
  unfold rfc2822. destruct (civil _) as [[y m] d].
  assert (∀ i, plain (default "" (WEEKDAYS !! i))) as Hw. { intros i. do 7 (destruct i; [literal|]). literal. }
  assert (∀ i, plain (default "" (MONTHS !! i))) as Hm. { intros i. do 12 (destruct i; [literal|]). literal. }
  rewrite !plain_app. split_and!; try apply plain_padded; try apply Hw; try apply Hm; literal.
Qed.
Lemma plain_host from : plain from → plain (host_of from).
Proof.
  intros Hf. unfold host_of. destruct (rsplit_once "@" from) as [[x y]|] eqn:E; [|done]. cbn. apply rsplit_once_Some in E as [-> _].
  rewrite !plain_app in Hf. tauto.
Qed.
Definition fine (l : string) : Prop := plain l ∧ starts_with "." l = false.
Ltac fine_lines :=
  repeat apply Forall_cons_2; try apply Forall_nil_2;
  (split; [rewrite ?plain_app; split_and?; first [apply plain_Z|apply plain_rfc2822|by apply plain_host|done|literal]|done]).
Lemma fine_body body : Forall (λ l, fine l ∧ starts_with "--" l = false ∧ String.length l ≤ 76) (body_lines body).
Proof.
  apply Forall_forall. intros w [Ha Hl]%body_line. split_and!; [|destruct w as [|c w]; [done|]|done].
  - split; [eapply Forall_impl; [exact Ha|]; intros c Hc; by apply alphabet_safe in Hc as (? & ? & _)|]. destruct w as [|c w]; [done|].
    apply Forall_cons in Ha as [(_ & _ & Hc & _)%alphabet_safe _]. by apply starts_with_ne.
  - apply Forall_cons in Ha as [(_ & _ & _ & Hc)%alphabet_safe _]. by apply starts_with_ne.
Qed.

(** The message is a list of lines joined by CRLF, for a sender, a receiver and a subject without line breaks: no line
    breaks itself or starts with a dot, so that SMTP takes the data to its end; and the lines of each part are at most 76
    characters, cannot be taken for a boundary, and decode to the text they were made of. *)
Theorem message_lines from to subject text html now : plain from → plain to → plain subject →
  message from to subject text html now = join crlf (lines_of from to subject text html now) ∧
  Forall fine (lines_of from to subject text html now) ∧ undotted (message from to subject text html now +:+ crlf) ∧
  ∀ body, unb64 (concat_str (body_lines body)) = Some body ∧ Forall (λ l, fine l ∧ starts_with "--" l = false ∧ String.length l ≤ 76) (body_lines body).
Proof.
  intros Hf Ht Hs. assert (Forall fine (lines_of from to subject text html now)) as Hl.
  { assert (∀ kind body, plain kind → Forall fine (part_lines ("alert-digest-" +:+ pretty now) kind body)) as Hp.
    { intros kind body Hk. unfold part_lines. apply Forall_app. split; [|eapply Forall_impl; [apply fine_body|]; by intros l []].
      fine_lines. }
    unfold lines_of. rewrite !Forall_app. split_and!; [|apply Hp; literal|apply Hp; literal|].
    - unfold heads. fine_lines.
    - fine_lines. }
  split_and!; [apply message_join|done| |].
  - rewrite message_join. destruct (join_undotted (lines_of from to subject text html now ++ [""])) as [Hu _].
    { apply Forall_app. split; [done|]. fine_lines. }
    by rewrite join_app in Hu.
  - intros body. split; [rewrite body_concat; apply unb64_b64|apply fine_body].
Qed.
Lemma message_lines_witness :
  message "me@x.org" "you@x.org" "hi" "a" "b" 0 = join crlf (lines_of "me@x.org" "you@x.org" "hi" "a" "b" 0) ∧ undotted (message "me@x.org" "you@x.org" "hi" "a" "b" 0 +:+ crlf).
Proof. destruct (message_lines "me@x.org" "you@x.org" "hi" "a" "b" 0) as (E & _ & Hu & _); [literal..|]. by split. Defined.

(** ** The mail's delivery ([smtp] and [run] of [apps/app-bootstrap/src/alert_digest.rs])

    The dialogue with the mail server as a state machine over the log; a run stays in step with it, sends only the digest
    made of what was answered, and when it ends well the mail was accepted or there was nothing to say. *)

(** ** The dialogue *)

(** Before a connection (or after a failure); waiting for reply [k]; with reply [k]. *)
Inductive Stage : Type := Off | Await (k : nat) | Ready (k : nat).
Definition codes : list string := ["220"; "250"; "250"; "250"; "354"; "250"].
Definition hears (k : nat) (line : string) : Stage :=
  let t := trim_end_matches is_whitespace line in
  if bool_decide (line = "") then Off
  else if bool_decide (chars t !! 3%nat = Some "-"%char) then Await k
  else match codes !! k with Some c => if starts_with c t then Ready k else Off | None => Off end.
Definition stage_step (st : Stage) (e : Trace.Event Ans) : Stage :=
  match e with
  | mkEvent (Connect _) r => match (r : Result () string) with Ok _ => Await 0 | Err _ => Off end
  | mkEvent ReadLine r => match st, (r : Result string string) with Await k, Ok line => hears k line | _, _ => Off end
  | mkEvent (WriteAll _) r => match st, (r : Result () string) with Ready k, Ok _ => Await (S k) | _, _ => Off end
  | _ => st
  end.
Definition stage (l : Log) : Stage := foldl stage_step Off l.
Lemma stage_app l e : stage (l ++ [e]) = stage_step (stage l) e.
Proof. unfold stage. by rewrite foldl_app. Qed.

Section spec.
Context `{Libs} (patience : nat) (env : string → option string).
Implicit Types (l : Log).

Definition prometheus : string := no_slash (var env "PROMETHEUS_URL" "http://prometheus-kube-prometheus-prometheus.observability.svc.cluster.local:9090").
Definition alertmanager : string := no_slash (var env "ALERTMANAGER_URL" "http://alertmanager.observability.svc.cluster.local:9093").
Definition get_req (url : string) (query : list (string * string)) : Req := mkReq "GET" url query [] NoBody.
(** A digest of what the two services answered. *)
Definition drawn_up l (hours : N) (d : Digest) : Prop := ∃ active fired started rules held,
  answered l (get_req (prometheus +:+ "/api/v1/alerts") []) active ∧
  answered l (get_req (prometheus +:+ "/api/v1/query") [("query", "max_over_time(ALERTS{alertstate=" +:+ quote +:+ "firing" +:+ quote +:+ "}[" +:+ pretty hours +:+ "h])")]) fired ∧
  answered l (get_req (prometheus +:+ "/api/v1/query") [("query", "max_over_time(ALERTS_FOR_STATE[" +:+ pretty hours +:+ "h])")]) started ∧
  answered l (get_req (prometheus +:+ "/api/v1/rules") [("type", "alert")]) rules ∧
  answered l (get_req (alertmanager +:+ "/api/v2/alerts") []) held ∧
  d = classify active fired started rules held (ignore_list env).
(** The mail a run may send: of a digest that has something to say, or is sent always. *)
Definition composed l (from to data : string) : Prop := ∃ hours d t,
  parse_u32 (var env "DIGEST_HOURS" "24") = Some hours ∧ drawn_up l hours d ∧ mkEvent UnixTime (Some t : Ans UnixTime) ∈ l ∧
  (digest_is_empty d = false ∨ var env "ALWAYS_SEND" "false" = "true") ∧ data = mail from to d hours (Z.of_N t).
Definition terminator : string := crlf +:+ "." +:+ crlf.
(** What may be written with reply [k]. *)
Inductive says l (from to : string) : nat → string → Prop :=
  | says_command k cmd code : commands from to !! k = Some (cmd, code) → says l from to k (cmd +:+ crlf)
  | says_data data : composed l from to data → says l from to 4 (data +:+ terminator)
  | says_quit : says l from to 5 ("QUIT" +:+ crlf).
Definition allowed l (x : Act) : Prop :=
  match x with
  | Http rq => rq_method rq = "GET"
  | ReadLine => ∃ k, stage l = Await k
  | WriteAll s => ∃ k from to, stage l = Ready k ∧ env "DIGEST_FROM" = Some from ∧ env "DIGEST_TO" = Some to ∧ says l from to k s
  | Connect a => a = var env "SMTP_ADDR" "stalwart.mail.svc.cluster.local:25"
  | Sleep _ | UnixTime => True
  | _ => False
  end.
Definition asking (x : Act) : Prop := match x with Http rq => rq_method rq = "GET" | Sleep _ => True | _ => False end.
Definition asked l l' : Prop := ∃ k, l' = l ++ k ∧ Forall (λ e : Trace.Event Ans, asking (e_act e)) k.
(** How a run that ends well ends. *)
Definition delivered l l' : Prop :=
  stage l' = Await 6 ∨
  (asked l l' ∧ var env "ALWAYS_SEND" "false" ≠ "true" ∧ ∃ hours d, parse_u32 (var env "DIGEST_HOURS" "24") = Some hours ∧ drawn_up l' hours d ∧ digest_is_empty d = true).

Notation okay := (Trace.okay Ans allowed (St := list string) (Fa := string)).
Lemma composed_prefix l l' from to data : l `prefix_of` l' → composed l from to data → composed l' from to data.
Proof.
  intros Hl (h & d & t & Hh & (a & f & s & r & c & Ha & Hf & Hs & Hr & Hc & E) & Ht & Hd & Ed). exists h, d, t. split_and!; try done.
  - exists a, f, s, r, c. split_and!; try (by eapply answered_later); done.
  - destruct Hl as [k ->]. by apply elem_of_app; left.
Qed.

(** ** Asking *)

Notation okay_asking := (Trace.okay Ans (λ _, asking) (St := list string) (Fa := string)).
Lemma query_ok url q l : okay_asking (get url q) (λ v l', answered l' (get_req url q) v) l.
Proof. by apply (value_ok (λ _, asking)). Qed.
Ltac ask_next := eapply okay_then; [apply query_ok|]; let Hl := fresh "Hl" in let Ha := fresh "Ha" in intros ? ? Hl Ha; cbn beta in Ha;
  repeat match goal with H : answered ?x _ _, P : ?x `prefix_of` _ |- _ => apply (answered_later _ _ _ _ P) in H end; clear Hl.
Lemma ask_ok hours l : okay_asking (ask prometheus alertmanager hours)
  (λ '(active, fired, started, rules, held) l', drawn_up l' hours (classify active fired started rules held (ignore_list env))) l.
Proof. unfold ask, query. do 5 ask_next. apply okay_ret. unfold drawn_up, get_req in *. do 5 eexists. split_and!; done. Qed.
Lemma asking_allowed l x : asking x → allowed l x.
Proof. by destruct x. Qed.

(** ** Sending *)

Lemma expect_ok fuel k code l : stage l = Await k → codes !! k = Some code → okay (expect_from fuel code) (λ _ l', stage l' = Ready k) l.
Proof.
  intros Hst Hc. revert l Hst. induction fuel as [|fuel IH]; intros l Hst; cbn [expect_from]; [apply okay_raise|]. apply okay_bind.
  refine (okay_do Ans allowed ReadLine _ _ _ _); [by exists k|]. intros [text|e]; [|apply okay_raise]. apply okay_bind, okay_ret.
  assert (stage (l ++ [mkEvent ReadLine (Ok text : Ans ReadLine)]) = hears k text) as Hs by by rewrite stage_app, Hst.
  case_bool_decide as He; [apply okay_raise|]. case_bool_decide as Hd.
  - apply IH. rewrite Hs. unfold hears. by rewrite bool_decide_eq_false_2, bool_decide_eq_true_2.
  - destruct (starts_with code _) eqn:Es; [|apply okay_raise]. apply okay_ret. rewrite Hs. unfold hears.
    by rewrite !bool_decide_eq_false_2, Hc, Es.
Qed.
Lemma line_ok k from to s l : env "DIGEST_FROM" = Some from → env "DIGEST_TO" = Some to → stage l = Ready k → says l from to k s →
  okay (write s) (λ _ l', stage l' = Await (S k)) l.
Proof.
  intros Hf Ht Hst Hs. unfold write. apply okay_bind. refine (okay_do Ans allowed (WriteAll s) _ _ _ _); [by exists k, from, to|].
  intros [[]|e]; [|apply okay_raise]. apply okay_ret. by rewrite stage_app, Hst.
Qed.
Lemma smtp_ok from to data l : env "DIGEST_FROM" = Some from → env "DIGEST_TO" = Some to → composed l from to data →
  okay (smtp patience (var env "SMTP_ADDR" "stalwart.mail.svc.cluster.local:25") from to data) (λ _ l', stage l' = Await 6) l.
Proof.
  intros Hf Ht Hd. unfold smtp. apply okay_bind. refine (okay_do Ans allowed (Connect _) _ _ _ _); [done|]. intros [[]|e]; [|apply okay_raise].
  apply okay_bind, okay_ret. eapply okay_then; [by apply (expect_ok _ 0); [rewrite stage_app|]|]. intros [] l1 Hl1 Hst1. cbn beta in Hst1.
  apply (okay_then Ans _ _ _ (λ _ l', stage l' = Ready 4)).
  { cbn [commands for_each].
    eapply okay_then; [eapply okay_then; [by apply (line_ok 0 from to); [| | |eapply says_command]|intros [] l2 _ Hst2; by apply (expect_ok _ 1)]|]. intros [] l2 _ Hst2.
    eapply okay_then; [eapply okay_then; [by apply (line_ok 1 from to); [| | |eapply says_command]|intros [] l3 _ Hst3; by apply (expect_ok _ 2)]|]. intros [] l3 _ Hst3.
    eapply okay_then; [eapply okay_then; [by apply (line_ok 2 from to); [| | |eapply says_command]|intros [] l4 _ Hst4; by apply (expect_ok _ 3)]|]. intros [] l4 _ Hst4.
    eapply okay_then; [eapply okay_then; [by apply (line_ok 3 from to); [| | |eapply says_command]|intros [] l5 _ Hst5; by apply (expect_ok _ 4)]|]. intros [] l5 _ Hst5.
    by apply okay_ret. }
  intros [] l2 Hl2 Hst2. cbn beta in Hst2. eapply okay_then.
  { apply (line_ok 4 from to); [done|done|done|]. apply says_data. eapply composed_prefix; [|exact Hd].
    etrans; [|exact Hl2]. etrans; [|exact Hl1]. by eexists. }
  intros [] l3 _ Hst3. cbn beta in Hst3. eapply okay_then; [by apply (expect_ok _ 5)|]. intros [] l4 _ Hst4. cbn beta in Hst4.
  apply (line_ok 5 from to); [done..|]. apply says_quit.
Qed.

(** ** The run *)

Lemma digest_run_ok l : okay (run patience env) (λ _ l', delivered l l') l.
Proof.
  unfold run. eapply okay_then; [apply need_ok|]. intros from l0 _ [Hf ->]. eapply okay_then; [apply need_ok|]. intros to l0 _ [Ht ->].
  eapply okay_then; [apply need_ok|]. intros hours l0 _ [Hh ->]. eapply okay_then.
  { eapply okay_weaken; [intros l0 x; apply asking_allowed|]. apply okay_only, retry_ok; [done|]. intros l' _. apply ask_ok. }
  intros [[[[active fired] started] rules] held] l1 _ [Hd (k & -> & Hk)]. cbn beta iota in Hd.
  set (d := classify active fired started rules held (ignore_list env)) in *.
  eapply okay_then; [by apply (say_ok _ _ (λ _ l', l' = l ++ k))|]. intros [] l2 _ ->.
  destruct (digest_is_empty d && _) eqn:Ee.
  - apply say_ok. right. bool_prop. split_and!; [by exists k|done|]. by exists hours, d.
  - apply okay_bind. refine (okay_do Ans allowed UnixTime _ _ _ _); [done|]. intros t. eapply okay_then; [apply need_ok|]. intros now l2 _ [-> ->].
    assert (∀ l', (l ++ k) ++ [mkEvent UnixTime (Some now : Ans UnixTime)] `prefix_of` l' → composed l' from to (mail from to d hours (Z.of_N now))) as Hcomp.
    { intros l' Hl'. eapply composed_prefix; [exact Hl'|]. exists hours, d, now. split_and!; [done| | | |done].
      - destruct Hd as (a & f & s & r & c & Ha & Hfi & Hs & Hr & Hc & E). exists a, f, s, r, c. split_and!; [eapply answered_later; [by eexists|eassumption]..|done].
      - apply elem_of_app. right. by left.
      - apply andb_false_iff in Ee as [Ee|Ee]; [by left|right]. by apply negb_false_iff, bool_decide_eq_true in Ee. }
    eapply okay_then; [apply retry_ok; [done|]; intros l' Hl'; apply smtp_ok; [done|done|by apply Hcomp]|].
    intros [] l3 _ Hst. apply say_ok. by left.
Qed.

(** Whatever the services and the mail server answer, a run asks Prometheus and Alertmanager, connects to the
    configured server, waits for a reply before it writes, and writes only the command that is due: the data are the mail of a
    digest of what was answered, and only of one that has something to say, unless it is always sent. *)
Theorem mail_in_step outside out l : ∃ k, (exec Ans outside (run patience env out) l).1 = l ++ k ∧
  ∀ k1 e k2, k = k1 ++ e :: k2 → allowed (l ++ k1) (e_act e).
Proof. by destruct (exec_okay Ans allowed outside _ _ out l (digest_run_ok l)) as (k & Ek & Hk); exists k. Qed.

(** A run that ends without an error has gone through the whole dialogue, every reply as expected and QUIT written after
    the data were accepted; or everything it asked was answered and the digest of it is empty. *)
Theorem run_delivers outside out l out' : (exec Ans outside (run patience env out) l).2 = Ok (out', Ok ()) →
  delivered l (exec Ans outside (run patience env out) l).1.
Proof. intros E. destruct (exec_holds Ans allowed outside _ _ _ (digest_run_ok l out)) as [HQ _]. rewrite E in HQ. by destruct HQ. Qed.
End spec.

(** ** A concrete evening *)

Module Reference.
Definition metric (fields : list (string * string)) : Value := Object ((λ kv, (kv.1, Str kv.2)) <$> fields).
Definition ready : Value := metric [("alertname", "KubePodNotReady"); ("namespace", "media"); ("severity", "warning")].
Definition known : list (string * Value) :=
  [("alerts", Object [("data", Object [("alerts", Array [
      Object [("annotations", metric [("summary", "always")]); ("labels", metric [("alertname", "Watchdog")]); ("state", Str "firing")];
      Object [("annotations", metric [("summary", "Pod not ready")]); ("labels", ready); ("state", Str "firing")];
      Object [("annotations", metric [("summary", "Ceph warns")]); ("labels", metric [("alertname", "CephHealthWarning"); ("severity", "critical")]); ("state", Str "firing")]])])]);
   ("fired", Object [("data", Object [("result", Array [
      Object [("metric", metric [("alertname", "DiskFull"); ("alertstate", "firing")]); ("value", Array [Null; Str "1"])];
      Object [("metric", ready); ("value", Array [Null; Str "1"])]])])]);
   ("started", Object [("data", Object [("result", Array [Object [("metric", ready); ("value", Array [Null; Str "1000000000"])]])])]);
   ("rules", Object [("data", Object [("groups", Array [Object [("rules", Array [Object [("annotations", metric [("summary", "Disk is full")]); ("name", Str "DiskFull")]])]])])]);
   ("held", Array [Object [("labels", metric [("alertname", "CephHealthWarning"); ("prometheus", "p"); ("severity", "critical")]);
                           ("status", Object [("silencedBy", Array [Str "abc"]); ("state", Str "suppressed")])]])].
#[export] Instance libs : Libs := {| reason _ := ""; from_str t := match assoc t known with Some v => Ok v | None => Err "unknown" end |}.
Definition body_of (rq : Req) : string :=
  if ends_with "/api/v1/alerts" (rq_url rq) then "alerts"
  else if ends_with "/api/v1/rules" (rq_url rq) then "rules"
  else if ends_with "/api/v2/alerts" (rq_url rq) then "held"
  else if existsb (λ kv, contains "FOR_STATE" kv.2) (rq_query rq) then "started" else "fired".
Definition reply_line (l : Log) : string :=
  match e_act <$> last l with
  | Some (Connect _) => "220 hi" +:+ crlf
  | Some (WriteAll s) => if starts_with "EHLO" s then "250-hello" +:+ crlf else if starts_with "DATA" s then "354 go" +:+ crlf else "250 ok" +:+ crlf
  | _ => "250 8BITMIME" +:+ crlf
  end.
(** [hangs_up]: the server closes the connection once it has the mail. *)
Definition outside (hangs_up : bool) (l : Log) (x : Act) : Ans x :=
  match x return Ans x with
  | Http rq => Ok (mkResp 200 [] (Ok (body_of rq)))
  | Connect _ => Ok ()
  | WriteAll s => if hangs_up && starts_with "QUIT" s then Err "connection reset" else Ok ()
  | ReadLine => Ok (reply_line l)
  | UnixTime => Some 1000010920%N
  | DbConnect _ _ _ _ | Execute _ _ => Err ""
  | Query _ _ => Err ""
  | Sleep _ => ()
  | Clock => 0%N
  | ReadFile _ | ReadDir _ => None
  | RemoveDirAll _ | RemoveFile _ | Command _ _ => Err ""
  end.
Definition env (name : string) : option string :=
  if String.eqb name "DIGEST_FROM" then Some "noreply@example.org" else if String.eqb name "DIGEST_TO" then Some "me@example.org" else None.
Definition go (hangs_up : bool) : Log * Result (list string * Result () string) Empty_set := exec Ans (outside hangs_up) (run 100 env []) [].
Definition written (l : Log) : list string := omap (λ e, match e_act e with WriteAll s => Some (str (take 20 (chars s))) | _ => None end) l.
Definition digest : Digest :=
  let v k := default Null (assoc k known) in classify (v "alerts") (v "fired") (v "started") (v "rules") (v "held") ["Watchdog"; "InfoInhibitor"].
End Reference.
#[local] Existing Instance Reference.libs.

Example evening :
  line 1000010920 <$> firing Reference.digest = ["warning KubePodNotReady media since 2001-09-09 01:46 UTC (3h02m) Pod not ready"] ∧
  line 1000010920 <$> resolved Reference.digest = ["unknown DiskFull - since unknown Disk is full"] ∧
  (λ aw, (label aw.1 "alertname", aw.2)) <$> silenced Reference.digest = [("CephHealthWarning", "silenced")] ∧
  subject Reference.digest 1000010920 = "[alerts] 1 firing, 1 resolved, 1 silenced (2001-09-09)".
Proof. vm_compute. done. Qed.
Example mail_sent :
  Reference.written (Reference.go false).1 =
    ["EHLO example.org" +:+ crlf; "MAIL FROM:<noreply@e"; "RCPT TO:<me@example."; "DATA" +:+ crlf; "From: Alert digest <"; "QUIT" +:+ crlf].
Proof. vm_compute. done. Qed.
(** A server that closes the connection after it accepted the mail gets the mail three times. *)
Example mail_sent_thrice :
  length (List.filter (λ s, String.eqb s "From: Alert digest <") (Reference.written (Reference.go true).1)) = 3 ∧
  match (Reference.go true).2 with Ok (_, Err e) => e = "connection reset" | _ => False end.
Proof. vm_compute. done. Qed.

Lemma run_delivers_witness : delivered Reference.env [] (Reference.go false).1.
Proof. unfold Reference.go. eapply (run_delivers 100 Reference.env (Reference.outside false) []). vm_compute. reflexivity. Defined.
