(* ===== verification/Serde.v ===== *)
(** * Reading JSON into structures

    What a derived reader accepts: a field by its name in an object or by its place in an array, a missing or null option
    as none. The value is read first, so of a key written twice the last counts. *)

From stdpp Require Import options.
From S2P Require Import Prelude Json.

Definition field (v : Value) (name : string) (i : nat) : option Value :=
  match v with Object m => assoc name m | Array l => l !! i | _ => None end.
(** An object, or an array of at most [n] elements ([exactly]: of [n], where every field has to be there). *)
Definition shaped (v : Value) (n : nat) : bool := match v with Object _ => true | Array l => (length l <=? n)%nat | _ => false end.
Definition shaped_exactly (v : Value) (n : nat) : bool := match v with Object _ => true | Array l => (length l =? n)%nat | _ => false end.
Definition opt_string (v : option Value) : option (option string) :=
  match v with None => Some None | Some Null => Some None | Some (Str s) => Some (Some s) | Some _ => None end.
(** An integer literal that fits; a number with a fraction or exponent is refused. *)
Definition read_u64 (v : Value) : option N := match v with Number (PosInt n) => Some n | _ => None end.
Definition opt_u64 (v : option Value) : option (option N) :=
  match v with None => Some None | Some Null => Some None | Some v => Some <$> read_u64 v end.
