(* ===== verification/JellyfinBootstrap.v ===== *)
(** * Setting up Jellyfin ([apps/jellyfin-bootstrap/src/main.rs])

    The whole program, over any answers: the wizard, the libraries, the Maintainerr key and its generations, the plugins,
    single sign-on and the server settings. A reply that is read into a structure is read as a JSON value first.
    Characters are bytes of ASCII text. *)

From Stdlib Require Import Ascii.
From stdpp Require Import options.
From S2P Require Import Prelude Text Json Serde Codec Threads Trace Apps Bootstrap.

Definition MAINTAINERR_KEY_NAME : string := "Maintainerr".
Definition MAINTAINERR_KEY_GEN_PREFIX : string := "Maintainerr (gen ".
Definition SSO_PLUGIN_NAME : string := "SSO Authentication".
Definition SSO_PLUGIN_GUID : string := "505ce9d1d91642fa86ca673ef241d7df".
Definition SSO_PLUGIN_VERSION : string := "4.0.0.4".
Definition SSO_REPO_NAME : string := "Jellyfin SSO".
Definition SSO_REPO_URL : string := "https://raw.githubusercontent.com/9p4/jellyfin-plugin-sso/manifest-release/manifest.json".
Definition STABLE_REPO_URL : string := "https://repo.jellyfin.org/files/plugin/manifest.json".
Definition nl : string := String newline "".
Definition SSO_CSS_MARKER : string := "/* jellyfin-bootstrap:sso */".
Definition SSO_CSS : string :=
  "/* jellyfin-bootstrap:sso */" +:+ nl +:+ "a.raised.emby-button { padding: 0.9em 1em; color: inherit !important; }" +:+ nl +:+ ".disclaimerContainer { display: block; }".
Definition Library : Type := string * string * string.
Definition LIBRARIES : list Library :=
  [("Movies", "/media/movies", "movies"); ("TV Shows", "/media/tv", "tvshows"); ("Music", "/media/music", "music"); ("Books", "/media/books", "books");
   ("Audiobooks", "/media/audiobooks", "books"); ("Comics", "/media/comics", "books"); ("Sports", "/media/sports", "tvshows")].

(** ** Replies *)

Definition public_info (v : Value) : option bool :=
  if shaped v 1 then match field v "StartupWizardCompleted" 0 with None => Some false | Some v => as_bool v end else None.
Definition auth_result (v : Value) : option string := if shaped v 1 then field v "AccessToken" 0 ≫= as_str else None.
Definition virtual_folder (v : Value) : option string := if shaped v 1 then field v "Name" 0 ≫= as_str else None.
Definition virtual_folders (v : Value) : option (list string) := l ← as_array v; mapM virtual_folder l.
Record ApiKey : Type := mkApiKey { access_token : string; app_name : string }.
Definition api_key (v : Value) : option ApiKey :=
  if shaped v 2 then t ← field v "AccessToken" 0 ≫= as_str; n ← field v "AppName" 1 ≫= as_str; Some (mkApiKey t n) else None.
Definition api_keys (v : Value) : option (list ApiKey) :=
  if shaped v 1 then l ← field v "Items" 0 ≫= as_array; mapM api_key l else None.
Record MaintainerrSettings : Type := mkSettings { media_server_type : option string; jellyfin_url : option string; jellyfin_api_key : option string }.
(** In an array every field must be there. *)
Definition maintainerr_settings (v : Value) : option MaintainerrSettings :=
  if shaped_exactly v 3 then
    t ← opt_string (field v "media_server_type" 0); u ← opt_string (field v "jellyfin_url" 1); k ← opt_string (field v "jellyfin_api_key" 2);
    Some (mkSettings t u k)
  else None.

(** ** What is compared, and what is made *)

(** Names from [wanted] that are not already present (case-insensitive). *)
Definition missing (existing : list string) (wanted : list Library) : list Library :=
  List.filter (λ l, negb (existsb (λ e, eq_ignore_ascii_case e l.1.1) existing)) wanted.
Definition strip_suffix (p s : string) : option string := (λ l, str (reverse (chars l))) <$> strip_prefix (str (reverse (chars p))) (str (reverse (chars s))).
Definition key_generation (name : string) : option N :=
  if bool_decide (name = MAINTAINERR_KEY_NAME) then Some 1%N
  else s ← strip_prefix MAINTAINERR_KEY_GEN_PREFIX name; s ← strip_suffix ")" s; parse_u32 s.
Definition key_name (generation : N) : string := MAINTAINERR_KEY_GEN_PREFIX +:+ pretty generation +:+ ")".
Definition is_older (generation : N) (k : ApiKey) : bool :=
  match key_generation (app_name k) with Some g => (g <? generation)%N | None => false end.
Definition split_keys (keys : list ApiKey) (generation : N) : option string * list string :=
  (access_token <$> List.find (λ k, bool_decide (key_generation (app_name k) = Some generation)) keys, access_token <$> List.filter (is_older generation) keys).
Definition slice (a n : nat) (s : string) : string := str (take n (drop a (chars s))).
Definition key_matches (current key : string) : bool :=
  String.eqb current key
  || ((String.length current =? 9)%nat && String.eqb (slice 3 3 current) "..." && starts_with (slice 0 3 current) key && ends_with (slice 6 3 current) key).
Definition settings_in_sync (s : MaintainerrSettings) (url key : string) : bool :=
  bool_decide (media_server_type s = Some "jellyfin") && bool_decide (jellyfin_url s = Some url)
  && match jellyfin_api_key s with Some c => key_matches c key | None => false end.

Record SsoSettings : Type := mkSso { provider : string; issuer : string; client_id : string; sso_secret : string; roles : list string; admin_roles : list string }.
Definition strings (l : list string) : Value := Array (Str <$> l).
Definition desired_oid_config (s : SsoSettings) : Value :=
  Object [("AdminRoles", strings (admin_roles s)); ("DefaultUsernameClaim", Str "preferred_username"); ("EnableAllFolders", Bool true);
          ("EnableAuthorization", Bool true); ("Enabled", Bool true); ("NewPath", Bool true); ("OidClientId", Str (client_id s)); ("OidEndpoint", Str (issuer s));
          ("OidScopes", Array [Str "groups"]); ("OidSecret", Str (sso_secret s)); ("RoleClaim", Str "groups"); ("Roles", strings (roles s)); ("SchemeOverride", Str "https")].
(** Case-insensitive object key lookup. *)
Definition get_ci (v : Value) (key : string) : option Value :=
  match v with Object m => snd <$> List.find (λ kv, eq_ignore_ascii_case kv.1 key) m | _ => None end.
Definition has_ci (v : Value) (kv : string * Value) : bool := match get_ci v kv.1 with Some w => value_eqb w kv.2 | None => false end.
Definition config_in_sync (current desired : Value) : bool := match desired with Object d => forallb (has_ci current) d | _ => false end.
Definition drop_ci {A} (k : string) (m : list (string * A)) : list (string * A) := List.filter (λ kv, negb (eq_ignore_ascii_case kv.1 k)) m.
(** [desired] laid over [current]. *)
Definition lay (m : list (string * Value)) (kv : string * Value) : list (string * Value) := insert_key kv.1 kv.2 (drop_ci kv.1 m).
Definition merged (current desired : Value) : Value := Object (foldl lay (object_of current) (object_of desired)).

Definition norm_guid (g : string) : string := to_lowercase (str (List.filter (λ c, negb (bool_decide (c = "-"%char))) (chars g))).
Definition str_ci (v : Value) (k : string) : option string := get_ci v k ≫= as_str.
Definition is_plugin (guid plugin : string) (p : Value) : bool :=
  bool_decide (norm_guid <$> str_ci p "Id" = Some (norm_guid guid)) || bool_decide (str_ci p "Name" = Some plugin).
Definition unusable (p : Value) : bool :=
  let status := default "" (str_ci p "Status") in eq_ignore_ascii_case status "Malfunctioned" || eq_ignore_ascii_case status "NotSupported".
(** None: installed but unusable. *)
Definition plugin_state (plugins : Value) (guid plugin : string) : option bool :=
  match as_array plugins with
  | None => Some false
  | Some l => match List.find (is_plugin guid plugin) l with None => Some false | Some p => if unusable p then None else Some true end
  end.
Definition sso_plugin_state (plugins : Value) : option bool := plugin_state plugins SSO_PLUGIN_GUID SSO_PLUGIN_NAME.

Record PluginSpec : Type := mkPlugin { p_name : string; p_guid : string; p_version : string; p_repo : string }.
Definition nonempty (s : string) : bool := negb (bool_decide (s = "")).
Definition parse_plugin (entry : string) : option PluginSpec :=
  match trim <$> split_char "|" entry with
  | [name; guid; version] => if nonempty name && nonempty guid && nonempty version then Some (mkPlugin name guid version STABLE_REPO_URL) else None
  | [name; guid; version; repo] =>
      if nonempty name && nonempty guid && nonempty version && starts_with "http" repo then Some (mkPlugin name guid version repo) else None
  | _ => None
  end.
Definition split_commas (raw : string) : list string := List.filter nonempty (trim <$> split_char "," raw).
Definition parse_plugins (raw : string) : option (list PluginSpec) := mapM parse_plugin (split_commas raw).

Definition is_repo (url : string) (r : Value) : bool := bool_decide (str_ci r "Url" = Some url).
Definition is_enabled (r : Value) : bool := bool_decide (get_ci r "Enabled" ≫= as_bool = Some true).
(** The repository list to post, unless [url] is registered and enabled. *)
Definition repos_with (current : Value) (name url : string) : option Value :=
  let l := array_of current in
  if existsb (λ r, is_repo url r && is_enabled r) l then None
  else
    let l' := (λ r, if is_repo url r then set_key "Enabled" (Bool true) r else r) <$> l in
    Some (Array (if existsb (is_repo url) l then l' else l' ++ [Object [("Enabled", Bool true); ("Name", Str name); ("Url", Str url)]])).
Definition repos_with_sso (current : Value) : option Value := repos_with current SSO_REPO_NAME SSO_REPO_URL.
Definition login_disclaimer (provider : string) : string :=
  "<form action=" +:+ quote +:+ "/sso/OID/start/" +:+ provider +:+ quote +:+ "><button class=" +:+ quote +:+ "raised block emby-button button-submit" +:+ quote +:+
  ">Sign in with Keycloak</button></form>".
Definition css_with_sso (current : string) : option string :=
  if contains SSO_CSS_MARKER current then None
  else if bool_decide (trim current = "") then Some SSO_CSS
  else Some (current +:+ nl +:+ SSO_CSS).
Definition desired_encoding (accel : string) (decoding_codecs : list string) (tonemapping : bool) : Value :=
  let on := negb (String.eqb accel "none") in
  Object [("AllowHevcEncoding", Bool on); ("EnableHardwareEncoding", Bool on); ("EnableTonemapping", Bool tonemapping);
          ("HardwareAccelerationType", Str accel); ("HardwareDecodingCodecs", strings decoding_codecs)].
Definition policy_with_downloading (policy : Value) (want : bool) : option Value :=
  if bool_decide (get_ci policy "EnableContentDownloading" ≫= as_bool = Some want) then None
  else Some (merged policy (Object [("EnableContentDownloading", Bool want)])).

(** The program's own tests. *)
Example jellyfin_tests :
  let key := "8b4e1c0d9a7f4e2b8c3d5a6f7e1d2cfe" in
  (λ l, l.1.1) <$> missing ["movies"; "Music"] LIBRARIES = ["TV Shows"; "Books"; "Audiobooks"; "Comics"; "Sports"] ∧
  key_matches "8b4...cfe" key = true ∧ key_matches "8b4...aaa" key = false ∧ key_matches "" key = false ∧
  key_generation "Maintainerr" = Some 1%N ∧ key_generation "Maintainerr (gen 2)" = Some 2%N ∧ key_generation "Maintainerr (gen x)" = None ∧ key_name 3 = "Maintainerr (gen 3)" ∧
  (let keys := [mkApiKey "old" "Maintainerr"; mkApiKey "t" "Tracearr"; mkApiKey "new" "Maintainerr (gen 2)"] in
   split_keys keys 1 = (Some "old", []) ∧ split_keys keys 2 = (Some "new", ["old"]) ∧ split_keys keys 3 = (None, ["old"; "new"])) ∧
  parse_plugins "" = Some [] ∧ parse_plugins "Webhook|abc" = None ∧
  p_repo <$> default [] (parse_plugins "Intro Skipper|c83d|1.10|https://i.org/m.json") = ["https://i.org/m.json"] ∧
  sso_plugin_state (Array [Object [("Id", Str "505ce9d1-d916-42fa-86ca-673ef241d7df"); ("Name", Str "x"); ("Status", Str "Active")]]) = Some true ∧
  sso_plugin_state (Array [Object [("Name", Str SSO_PLUGIN_NAME); ("Status", Str "Malfunctioned")]]) = None ∧
  merged (Object [("Other", json_i64 1); ("remoteClientBitrateLimit", json_i64 0)]) (Object [("RemoteClientBitrateLimit", json_i64 8)]) =
    Object [("Other", json_i64 1); ("RemoteClientBitrateLimit", json_i64 8)] ∧
  css_with_sso "  " = Some SSO_CSS.
Proof. vm_compute. done. Qed.

(** ** The program *)

Section jellyfin.
Context `{SerdeJson, Libs} (version : string) (env : string → option string).
Implicit Types (base token user password : string).

Definition auth_header (token : option string) : string :=
  let q s := quote +:+ s +:+ quote in
  "MediaBrowser Client=" +:+ q "jellyfin-bootstrap" +:+ ", Device=" +:+ q "bootstrap-job" +:+ ", DeviceId=" +:+ q "jellyfin-bootstrap-job" +:+ ", Version=" +:+ q version
  +:+ match token with Some t => ", Token=" +:+ q t | None => "" end.
Definition emby (token : option string) (rq : Req) : Req := with_header ("x-emby-authorization", auth_header token) rq.
(** Requests of the signed-in admin. *)
Definition jget base token path : Req := emby (Some token) (plain "GET" (base +:+ path)).
Definition jpost base token path : Req := emby (Some token) (plain "POST" (base +:+ path)).
Definition jpost_json base token path (v : Value) : Req := with_body (JsonBody v) (jpost base token path).
Definition jdelete base token path : Req := emby (Some token) (plain "DELETE" (base +:+ path)).
Definition jpost_query base token path (q : list (string * string)) : Req := with_query q (jpost base token path).
(** Send, check, and read nothing. *)
Definition command (rq : Req) (what : string) : Job () := r ← send rq; _ ← ok r what; mret ().
Definition ask (rq : Req) (what : string) : Job Value := r ← send rq; r ← ok r what; json_body r.
Definition read_as {A} (f : Value → option A) (v : Value) : Job A := need (f v) "error decoding response body".
Definition read_password : Job string :=
  match env "ADMIN_PASSWORD_FILE" with
  | Some path => t ← read_to_string path; mret (trim_end_matches is_eol t)
  | None => need (env "ADMIN_PASSWORD") "set ADMIN_PASSWORD_FILE or ADMIN_PASSWORD"
  end.

(** A loop of the form [attempt += 1; match ... { Err(e) if attempt < n => sleep(5 s) }]. *)
Fixpoint again_from {A} (note : N → string → string) (attempt : N) (rest : nat) (f : Job A) : Job A :=
  let attempt := (attempt + 1)%N in
  r ← catch Ans f;
  match r with
  | Ok v => mret v
  | Err e =>
      match rest with
      | O => fail e
      | S rest => _ ← say (note attempt e); _ ← do Ans (Sleep 5000000000); again_from note attempt rest f
      end
  end.
Definition again {A} (note : N → string → string) (attempts : N) (f : Job A) : Job A := again_from note 0 (N.to_nat attempts - 1) f.
Definition waiting (what : string) (n : N) (e : string) : string := "waiting for " +:+ what +:+ " (" +:+ pretty n +:+ "): " +:+ e.

Definition info_req base : Req := plain "GET" (base +:+ "/System/Info/Public").
Definition wait_for_jellyfin base : Job bool :=
  again (waiting "jellyfin") 120 (v ← ask (info_req base) "GET /System/Info/Public"; read_as public_info v).
Definition wizard_req base (method path : string) : Req := emby None (plain method (base +:+ path)).
Definition run_wizard base user password : Job () :=
  _ ← say "startup wizard incomplete, running it";
  _ ← command (with_body (JsonBody (Object [("MetadataCountryCode", Str "US"); ("PreferredMetadataLanguage", Str "en"); ("UICulture", Str "en-US")]))
                (wizard_req base "POST" "/Startup/Configuration")) "POST /Startup/Configuration";
  _ ← command (wizard_req base "GET" "/Startup/User") "GET /Startup/User";
  _ ← command (with_body (JsonBody (Object [("Name", Str user); ("Password", Str password)])) (wizard_req base "POST" "/Startup/User")) "POST /Startup/User";
  _ ← command (wizard_req base "POST" "/Startup/Complete") "POST /Startup/Complete";
  say "startup wizard completed".
Definition login_req base user password : Req :=
  with_body (JsonBody (Object [("Pw", Str password); ("Username", Str user)])) (emby None (plain "POST" (base +:+ "/Users/AuthenticateByName"))).
Definition authenticate base user password : Job string :=
  again (λ n e, "authenticate attempt " +:+ pretty n +:+ " failed: " +:+ e) 6
    (v ← ask (login_req base user password) "POST /Users/AuthenticateByName"; read_as auth_result v).

Definition library_req base token (l : Library) : Req :=
  jpost_query base token "/Library/VirtualFolders" [("name", l.1.1); ("collectionType", l.2); ("paths", l.1.2); ("refreshLibrary", "true")].
Definition ensure_libraries base token : Job () :=
  v ← ask (jget base token "/Library/VirtualFolders") "GET /Library/VirtualFolders";
  existing ← read_as virtual_folders v;
  _ ← say ("existing libraries: " +:+ join ", " existing);
  let todo := missing existing LIBRARIES in
  if bool_decide (todo = []) then say "all libraries present, nothing to do"
  else for_each Ans todo (λ l,
         _ ← say ("creating library " +:+ l.1.1 +:+ " (" +:+ l.2 +:+ ") -> " +:+ l.1.2);
         command (library_req base token l) ("POST /Library/VirtualFolders (" +:+ l.1.1 +:+ ")")).

(** *** The Maintainerr key *)

Definition list_keys base token : Job (list ApiKey) := v ← ask (jget base token "/Auth/Keys") "GET /Auth/Keys"; read_as api_keys v.
Definition new_key_req base token (generation : N) : Req := jpost_query base token "/Auth/Keys" [("app", key_name generation)].
Definition ensure_api_key base token (generation : N) : Job (string * list string) :=
  keys ← list_keys base token;
  let '(current, stale) := split_keys keys generation in
  match current with
  | Some key => _ ← say ("reusing the " +:+ key_name generation +:+ " API key"); mret (key, stale)
  | None =>
      _ ← say ("creating the " +:+ key_name generation +:+ " API key");
      _ ← command (new_key_req base token generation) "POST /Auth/Keys";
      keys ← list_keys base token;
      key ← need (split_keys keys generation).1 "API key not listed after creation";
      mret (key, stale)
  end.
Definition delete_key_req base token (key : string) : Req := jdelete base token ("/Auth/Keys/" +:+ key).
Definition delete_keys base token (stale : list string) : Job () :=
  _ ← for_each Ans stale (λ key, command (delete_key_req base token key) "DELETE /Auth/Keys");
  if bool_decide (stale = []) then mret () else say ("deleted " +:+ pretty (N.of_nat (length stale)) +:+ " older Maintainerr API key(s)").
Definition settings_req (base : string) : Req := plain "GET" (base +:+ "/api/settings").
Definition fetch_maintainerr_settings (base : string) : Job MaintainerrSettings :=
  again (waiting "maintainerr") 60 (v ← ask (settings_req base) "GET /api/settings"; read_as maintainerr_settings v).
Definition point_req (base url key : string) : Req :=
  with_body (JsonBody (Object [("jellyfin_api_key", Str key); ("jellyfin_url", Str url); ("media_server_type", Str "jellyfin")])) (plain "PATCH" (base +:+ "/api/settings")).
Definition ensure_maintainerr (base url key : string) : Job () :=
  current ← fetch_maintainerr_settings base;
  if settings_in_sync current url key then say "maintainerr already configured, nothing to do"
  else _ ← say ("configuring maintainerr for jellyfin at " +:+ url); command (point_req base url key) "PATCH /api/settings".

(** *** Plugins and single sign-on *)

Definition var_list (name dflt : string) : list string := split_commas (var env name dflt).
Definition sso_settings : Job (option SsoSettings) :=
  match env "SSO_ISSUER" with
  | None => mret None
  | Some issuer =>
      secret_file ← need (env "SSO_SECRET_FILE") "SSO_ISSUER set but SSO_SECRET_FILE is not";
      secret ← read_to_string secret_file;
      mret (Some (mkSso (var env "SSO_PROVIDER" "keycloak") (trim_end_matches (λ c, bool_decide (c = "/"%char)) issuer) (var env "SSO_CLIENT_ID" "jellyfin") (trim secret)
                    (var_list "SSO_ROLES" "admin,family") (var_list "SSO_ADMIN_ROLES" "admin")))
  end.
Definition get_json base token path : Job Value := ask (jget base token path) ("GET " +:+ path).
(** Whether it went down in the thirty seconds. *)
Fixpoint went_down (rounds : nat) base : Job bool :=
  match rounds with
  | O => mret false
  | S rounds =>
      _ ← do Ans (Sleep 2000000000);
      r ← do Ans (Http (info_req base));
      match r with Ok r => if is_success (rs_status r) then went_down rounds base else mret true | Err _ => mret true end
  end.
Definition restart_req base token : Req := jpost base token "/System/Restart".
Definition restart_and_wait base token : Job () :=
  _ ← say "restarting jellyfin";
  _ ← command (restart_req base token) "POST /System/Restart";
  down ← went_down 15 base;
  _ ← (if down : bool then mret () else say "jellyfin never appeared to go down, continuing" : Job ());
  _ ← wait_for_jellyfin base;
  do Ans (Sleep 5000000000).
Definition repos_req base token (repos : Value) : Req := jpost_json base token "/Repositories" repos.
Definition register base token (name : string) (repos : option Value) : Job () :=
  match repos with
  | None => mret ()
  | Some repos => _ ← say ("registering plugin repository " +:+ name); command (repos_req base token repos) "POST /Repositories"
  end.
Definition install_req base token (p : PluginSpec) : Req :=
  jpost_query base token ("/Packages/Installed/" +:+ replace " " "%20" (p_name p)) [("assemblyGuid", p_guid p); ("version", p_version p); ("repositoryUrl", p_repo p)].
Definition sso_plugin : PluginSpec := mkPlugin SSO_PLUGIN_NAME SSO_PLUGIN_GUID SSO_PLUGIN_VERSION SSO_REPO_URL.
Definition state_of (name guid : string) (plugins : Value) : Job bool := need (plugin_state plugins guid name) (name +:+ " plugin present but unusable").
(** The new token, when Jellyfin was restarted. *)
Definition ensure_sso_plugin base user password token : Job string :=
  repos ← get_json base token "/Repositories";
  _ ← register base token SSO_REPO_NAME (repos_with_sso repos);
  plugins ← get_json base token "/Plugins";
  there ← state_of SSO_PLUGIN_NAME SSO_PLUGIN_GUID plugins;
  if there : bool then _ ← say "SSO plugin already installed"; mret token
  else
    _ ← say ("installing SSO plugin " +:+ SSO_PLUGIN_VERSION);
    _ ← command (install_req base token sso_plugin) "POST /Packages/Installed";
    _ ← restart_and_wait base token;
    token ← authenticate base user password;
    plugins ← get_json base token "/Plugins";
    there ← state_of SSO_PLUGIN_NAME SSO_PLUGIN_GUID plugins;
    if there : bool then mret token else fail "SSO plugin not listed after install + restart".
Definition install base token (plugins : Value) (installed : list PluginSpec) (p : PluginSpec) : Job (list PluginSpec) :=
  there ← state_of (p_name p) (p_guid p) plugins;
  if there : bool then _ ← say (p_name p +:+ " plugin already installed"); mret installed
  else
    _ ← (if bool_decide (p_repo p = STABLE_REPO_URL) then mret ()
         else repos ← get_json base token "/Repositories"; register base token (p_name p) (repos_with repos (p_name p) (p_repo p)) : Job ());
    _ ← say ("installing " +:+ p_name p +:+ " plugin " +:+ p_version p);
    _ ← command (install_req base token p) "POST /Packages/Installed";
    mret (installed ++ [p]).
Definition ensure_plugins base user password token (wanted : list PluginSpec) : Job string :=
  plugins ← get_json base token "/Plugins";
  installed ← fold_m (install base token plugins) [] wanted;
  if bool_decide (installed = []) then mret token
  else
    _ ← restart_and_wait base token;
    token ← authenticate base user password;
    plugins ← get_json base token "/Plugins";
    _ ← for_each Ans installed (λ p,
          there ← state_of (p_name p) (p_guid p) plugins;
          if there : bool then mret () else fail (p_name p +:+ " plugin not listed after install + restart"));
    mret token.
Definition provider_req base token (s : SsoSettings) : Req := jpost_json base token ("/sso/OID/Add/" +:+ provider s) (desired_oid_config s).
Definition ensure_sso_provider base token (s : SsoSettings) : Job () :=
  current ← again (waiting "sso endpoints") 12 (get_json base token "/sso/OID/Get");
  if match get_ci current (provider s) with Some c => config_in_sync c (desired_oid_config s) | None => false end
  then say ("sso provider " +:+ provider s +:+ " already configured")
  else _ ← say ("configuring sso provider " +:+ provider s); command (provider_req base token s) "POST /sso/OID/Add".
Definition branding_path : string := "/System/Configuration/branding".
Definition with_button (m : list (string * Value)) (want css : string) : Value :=
  Object (insert_key "CustomCss" (Str css) (insert_key "LoginDisclaimer" (Str want) (drop_ci "CustomCss" (drop_ci "LoginDisclaimer" m)))).
Definition ensure_login_button base token (provider : string) : Job () :=
  branding ← get_json base token branding_path;
  let want := login_disclaimer provider in
  let cur_disclaimer := default "" (str_ci branding "LoginDisclaimer") in
  let cur_css := default "" (str_ci branding "CustomCss") in
  let new_css := css_with_sso cur_css in
  if String.eqb cur_disclaimer want && bool_decide (new_css = None) then say "login button already configured"
  else
    _ ← say "configuring login button";
    m ← need (match branding with Object m => Some m | _ => None end) "branding config is not an object";
    command (jpost_json base token branding_path (with_button m want (default cur_css new_css))) "POST /System/Configuration/branding".

(** *** Server settings *)

Definition ensure_config base token path (desired : Value) : Job () :=
  current ← get_json base token path;
  if config_in_sync current desired then say (path +:+ " already configured")
  else _ ← say ("configuring " +:+ path +:+ ": " +:+ to_string desired); command (jpost_json base token path (merged current desired)) path.
Definition env_flag (name : string) : option bool := (λ v, eq_ignore_ascii_case v "true") <$> env name.
Definition policy_req base token (id : string) (policy : Value) : Req := jpost_json base token ("/Users/" +:+ id +:+ "/Policy") policy.
Definition bring_in_line base token (want : bool) (changed : N) (user : Value) : Job N :=
  match str_ci user "Id", get_ci user "Policy" with
  | Some id, Some policy =>
      match policy_with_downloading policy want with
      | None => mret changed
      | Some new_policy =>
          _ ← say ("setting EnableContentDownloading for user " +:+ default id (str_ci user "Name"));
          _ ← command (policy_req base token id new_policy) "POST /Users/{id}/Policy";
          mret (changed + 1)%N
      end
  | _, _ => mret changed
  end.
Definition ensure_content_downloading base token (want : bool) : Job () :=
  users ← get_json base token "/Users";
  changed ← fold_m (bring_in_line base token want) 0%N (array_of users);
  if (changed =? 0)%N then say "EnableContentDownloading already as wanted for every user" else mret ().
Definition ensure_server_settings base token : Job () :=
  _ ← (match env "ENCODING_HW_ACCEL" with
       | Some accel =>
           let codecs := var_list "ENCODING_DECODING_CODECS" "h264,hevc,vp9,av1" in
           ensure_config base token "/System/Configuration/encoding" (desired_encoding accel codecs (default true (env_flag "ENCODING_TONEMAPPING")))
       | None => mret ()
       end : Job ());
  _ ← (match env "REMOTE_BITRATE_LIMIT" with
       | Some limit =>
           n ← need (parse_u64 limit) ("REMOTE_BITRATE_LIMIT " +:+ limit);
           ensure_config base token "/System/Configuration" (Object [("RemoteClientBitrateLimit", Number (PosInt n))])
       | None => mret ()
       end : Job ());
  _ ← (match env "LOCAL_NETWORK_SUBNETS" with
       | Some _ => ensure_config base token "/System/Configuration/network" (Object [("LocalNetworkSubnets", strings (var_list "LOCAL_NETWORK_SUBNETS" ""))])
       | None => mret ()
       end : Job ());
  match env_flag "ENABLE_CONTENT_DOWNLOADING" with
  | Some want => ensure_content_downloading base token want
  | None => mret ()
  end.

(** *** The run *)

Definition without_slash (s : string) : string := trim_end_matches (λ c, bool_decide (c = "/"%char)) s.
Definition maintainerr_step base token : Job () :=
  match env "MAINTAINERR_URL" with
  | None => mret ()
  | Some maintainerr =>
      let url := var env "MAINTAINERR_JELLYFIN_URL" base in
      generation ← (match env "MAINTAINERR_KEY_GENERATION" with None => mret 1%N | Some g => need (parse_u32 g) "invalid digit found in string" end : Job N);
      '(key, stale) ← ensure_api_key base token generation;
      _ ← ensure_maintainerr (without_slash maintainerr) url key;
      delete_keys base token stale
  end.
Definition run : Job () :=
  let base := without_slash (var env "JELLYFIN_URL" "http://jellyfin.media.svc.cluster.local:8096") in
  let user := var env "ADMIN_USER" "admin" in
  password ← read_password;
  wizard_done ← wait_for_jellyfin base;
  _ ← (if wizard_done : bool then mret () else run_wizard base user password : Job ());
  token ← authenticate base user password;
  _ ← ensure_libraries base token;
  _ ← maintainerr_step base token;
  plugins ← need (parse_plugins (var env "PLUGINS" "")) "PLUGINS entry is not name|guid|version[|https://manifest-url]";
  token ← (if bool_decide (plugins = []) then mret token else ensure_plugins base user password token plugins : Job string);
  sso ← sso_settings;
  _ ← (match sso with
       | None => mret token
       | Some sso =>
           token ← ensure_sso_plugin base user password token;
           _ ← ensure_sso_provider base token sso;
           _ ← ensure_login_button base token (provider sso);
           mret token
       end ≫= λ token, ensure_server_settings base token : Job ());
  say "bootstrap done".
End jellyfin.
