(* ===== verification/JellyfinSetup.v ===== *)
(** * What the Jellyfin bootstrap writes

    [written_settles]: everything it writes passes the check that decides whether to write, and leaves what it does not
    manage alone. [jellyfin_due]: every change follows an answer that calls for it; in particular an API key is deleted only
    when it is of an older generation and Maintainerr holds the new one. [jellyfin_complete]: what a run leaves. *)

From Stdlib Require Import Ascii.
From stdpp Require Import options.
From S2P Require Import Prelude F64 Text Json Codec Threads Trace Apps Bootstrap JellyfinBootstrap.

(** ** Objects, without regard to case *)

Lemma ci_refl k : eq_ignore_ascii_case k k = true.
Proof. by apply bool_decide_eq_true. Qed.
Lemma ci_sym a b : eq_ignore_ascii_case a b = eq_ignore_ascii_case b a.
Proof. unfold eq_ignore_ascii_case. apply bool_decide_ext. split; congruence. Qed.
Lemma ci_trans a b c : eq_ignore_ascii_case a b = true → eq_ignore_ascii_case b c = eq_ignore_ascii_case a c.
Proof. unfold eq_ignore_ascii_case. rewrite bool_decide_eq_true. by intros ->. Qed.
Section find.
Context {A : Type}.
Implicit Types (m : list (string * A)).
Definition find_ci (k : string) m : option A := snd <$> List.find (λ kv, eq_ignore_ascii_case kv.1 k) m.
Lemma find_ci_insert k j x m : eq_ignore_ascii_case k j = false → find_ci j (insert_key k x m) = find_ci j m.
Proof.
  intros Hj. unfold find_ci. induction m as [|[k' x'] m IH]; cbn; [by rewrite Hj|]. destruct (String.compare k k') eqn:E; cbn.
  - apply String.compare_eq_iff in E as <-. by rewrite Hj.
  - by rewrite Hj.
  - destruct (eq_ignore_ascii_case k' j); [done|]. exact IH.
Qed.
Lemma find_ci_drop k j m : eq_ignore_ascii_case k j = false → find_ci j (drop_ci k m) = find_ci j m.
Proof.
  intros Hj. unfold find_ci, drop_ci. induction m as [|[k' x'] m IH]; cbn; [done|]. destruct (eq_ignore_ascii_case k' k) eqn:E; cbn.
  - rewrite <- (ci_trans k' k j E), Hj. exact IH.
  - destruct (eq_ignore_ascii_case k' j); [done|]. exact IH.
Qed.
Lemma find_ci_laid k x m : find_ci k (insert_key k x (drop_ci k m)) = Some x.
Proof.
  unfold find_ci, drop_ci. induction m as [|[k' x'] m IH]; cbn; [by rewrite ci_refl|]. destruct (eq_ignore_ascii_case k' k) eqn:E; cbn; [exact IH|].
  destruct (String.compare k k'); cbn; rewrite ?ci_refl, ?E; done || exact IH.
Qed.
Lemma assoc_drop k j m : eq_ignore_ascii_case j k = false → assoc j (drop_ci k m) = assoc j m.
Proof.
  intros Hj. unfold drop_ci. induction m as [|[k' x'] m IH]; cbn; [done|]. destruct (decide (j = k')) as [->|Hne].
  - rewrite Hj. cbn. by rewrite decide_True.
  - destruct (eq_ignore_ascii_case k' k); cbn; [exact IH|]. by rewrite decide_False.
Qed.
End find.
Lemma get_ci_find m k : get_ci (Object m) k = find_ci k m.
Proof. done. Qed.

(** Keys that are all different, without regard to case. *)
Fixpoint distinct_ci (d : list (string * Value)) : bool :=
  match d with [] => true | kv :: d => negb (existsb (λ kv', eq_ignore_ascii_case kv'.1 kv.1) d) && distinct_ci d end.
Lemma laid_last d m k : Forall (λ kv, eq_ignore_ascii_case kv.1 k = false) d → find_ci k (foldl lay m d) = find_ci k m.
Proof.
  revert m. induction d as [|kv d IH]; intros m Hd; cbn [foldl]; [done|]. apply Forall_cons in Hd as [Hkv Hd]. rewrite IH by done. unfold lay.
  by rewrite find_ci_insert, find_ci_drop.
Qed.
Lemma laid_in d m kv : distinct_ci d = true → kv ∈ d → find_ci kv.1 (foldl lay m d) = Some kv.2.
Proof.
  revert m. induction d as [|kv' d IH]; intros m Hd Hin; cbn [distinct_ci] in Hd; [by apply not_elem_of_nil in Hin|]. bool_prop.
  apply elem_of_cons in Hin as [->|Hin]; cbn [foldl]; [|by apply IH].
  rewrite laid_last; [apply find_ci_laid|]. apply Forall_forall. intros x Hx. apply not_true_iff_false. intros E.
  apply not_true_iff_false in H. apply H, existsb_exists. exists x. split; [by apply list_elem_of_In|done].
Qed.
Lemma laid_other d m j : Forall (λ kv, eq_ignore_ascii_case j kv.1 = false) d → assoc j (foldl lay m d) = assoc j m.
Proof.
  revert m. induction d as [|kv d IH]; intros m Hd; cbn [foldl]; [done|]. apply Forall_cons in Hd as [Hkv Hd]. rewrite IH by done. unfold lay.
  rewrite assoc_insert_ne, assoc_drop by (done || (intros ->; by rewrite ci_refl in Hkv)). done.
Qed.

Lemma merged_in_sync current d : distinct_ci d = true → json_wf (Object d) = true → config_in_sync (merged current (Object d)) (Object d) = true.
Proof.
  intros Hd Hw. apply forallb_forall. intros kv Hkv. unfold has_ci, merged. cbn [object_of]. rewrite get_ci_find, laid_in by (done || by apply list_elem_of_In).
  apply value_eqb_refl. cbn in Hw. rewrite forallb_forall in Hw. by apply Hw.
Qed.
Lemma index_object_of v k : v.[k] = default Null (assoc k (object_of v)).
Proof. by destruct v. Qed.
Lemma merged_keeps current d j : Forall (λ kv, eq_ignore_ascii_case j kv.1 = false) d → (merged current (Object d)).[j] = current.[j].
Proof. intros Hj. unfold merged. cbn [object_of]. rewrite !index_object_of. cbn [object_of]. by rewrite laid_other. Qed.

(** Every object that is laid over another has its own keys only, and no odd numbers. *)
Definition tidy (v : Value) : bool := match v with Object d => distinct_ci d && json_wf v | _ => false end.
Lemma strings_wf l : json_wf (strings l) = true.
Proof. unfold strings. cbn. induction l; [done|]. exact IHl. Qed.
Lemma tidy_in_sync v : tidy v = true → config_in_sync v v = true.
Proof.
  destruct v as [| | | | |d]; try done. intros Ht. cbn [tidy] in Ht. apply andb_true_iff in Ht as [Hd Hw].
  apply forallb_forall. intros kv Hkv. unfold has_ci. rewrite get_ci_find.
  assert (find_ci kv.1 d = Some kv.2) as ->.
  { clear Hw. induction d as [|kv' d IH]; [done|]. cbn [distinct_ci] in Hd. bool_prop. unfold find_ci. cbn. destruct Hkv as [->|Hkv]; [by rewrite ci_refl|].
    destruct (eq_ignore_ascii_case kv'.1 kv.1) eqn:E; [|by apply IH]. apply not_true_iff_false in H. destruct H. apply existsb_exists. exists kv. split; [done|].
    by rewrite ci_sym. }
  apply value_eqb_refl. cbn in Hw. rewrite forallb_forall in Hw. by apply Hw.
Qed.

(** *** Repositories *)

Definition cased (k : string) (v : Value) : Prop := ∀ kv : string * Value, kv ∈ object_of v → eq_ignore_ascii_case kv.1 k = true → kv.1 = k.
Lemma find_ci_set {A} k (x : A) (m : list (string * A)) : (∀ kv, kv ∈ m → eq_ignore_ascii_case kv.1 k = true → kv.1 = k) → find_ci k (insert_key k x m) = Some x.
Proof.
  intros Hm. unfold find_ci. induction m as [|[k' x'] m IH]; cbn; [by rewrite ci_refl|]. destruct (String.compare k k') eqn:E; cbn; [by rewrite ci_refl|by rewrite ci_refl|].
  destruct (eq_ignore_ascii_case k' k) eqn:E'.
  - assert (k' = k) as ->; [|pose proof (String.compare_antisym k k) as Ea; by rewrite E in Ea]. apply (Hm (k', x')); [by left|done].
  - apply IH. intros kv Hkv. apply Hm. by right.
Qed.
Lemma enabled_set r : cased "Enabled" r → is_Some (get_ci r "Url") → is_enabled (set_key "Enabled" (Bool true) r) = true ∧ get_ci (set_key "Enabled" (Bool true) r) "Url" = get_ci r "Url".
Proof.
  intros Hr Hu. destruct r as [| | | | |m]; try by destruct Hu. cbn [set_key]. unfold is_enabled. rewrite !get_ci_find, find_ci_set by exact Hr.
  split; [done|]. by rewrite find_ci_insert.
Qed.
Lemma is_repo_some url r : is_repo url r = true → is_Some (get_ci r "Url").
Proof. unfold is_repo, str_ci. intros H%bool_decide_eq_true. by destruct (get_ci r "Url"). Qed.
Lemma repos_settle current name url repos : Forall (cased "Enabled") (array_of current) → repos_with current name url = Some repos →
  repos_with repos name url = None ∧ ∀ r, r ∈ array_of current → is_repo url r = false → r ∈ array_of repos.
Proof.
  intros Hc. unfold repos_with. destruct (existsb (λ r, is_repo url r && is_enabled r) _); [done|].
  set (set_enabled := λ r, if is_repo url r then set_key "Enabled" (Bool true) r else r).
  assert (∀ r, r ∈ array_of current → is_repo url r = false → r ∈ set_enabled <$> array_of current) as Hkeep.
  { intros r Hr Hf. apply list_elem_of_fmap. exists r. unfold set_enabled. by rewrite Hf. }
  destruct (existsb (is_repo url) (array_of current)) eqn:Ee; intros [= <-]; (split; [|intros r Hr Hf; cbn; try (apply elem_of_app; left); by apply Hkeep]).
  - assert (existsb (λ r, is_repo url r && is_enabled r) (set_enabled <$> array_of current) = true) as H; [|unfold array_of in *; cbn in *; by rewrite H].
    apply existsb_exists in Ee as (r & Hr%list_elem_of_In & Hu). apply existsb_exists. exists (set_enabled r). split; [by apply list_elem_of_In, list_elem_of_fmap_2|].
    unfold set_enabled. rewrite Hu. rewrite Forall_forall in Hc. destruct (enabled_set r) as [H1 H2]; [by apply Hc|by eapply is_repo_some|].
    rewrite H1. unfold is_repo, str_ci in *. rewrite H2. by rewrite Hu.
  - assert (∀ l x, is_repo url x && is_enabled x = true → existsb (λ r, is_repo url r && is_enabled r) (l ++ [x]) = true) as H.
    { intros l x Hx. rewrite existsb_app. cbn. rewrite Hx. by rewrite orb_true_r. }
    unfold array_of at 1. cbn [as_array default from_option id]. rewrite H; [done|]. unfold is_repo, is_enabled, str_ci. cbn. by rewrite !bool_decide_eq_true_2.
Qed.

(** *** The login page *)

Lemma contains_app p a b : contains p (a +:+ p +:+ b) = true.
Proof.
  unfold contains. apply bool_decide_eq_true. destruct (find_list (chars p) (chars (a +:+ p +:+ b))) as [x|] eqn:E; [by eexists|].
  rewrite find_list_None in E. destruct (E (chars a) (chars b)). by rewrite !chars_app.
Qed.
Lemma css_settles css : css_with_sso (default css (css_with_sso css)) = None.
Proof.
  unfold css_with_sso at 2. destruct (contains SSO_CSS_MARKER css) eqn:E; cbn [default from_option id]; [unfold css_with_sso; by rewrite E|].
  case_bool_decide as Ht; cbn [default from_option id]; [vm_compute; done|]. unfold css_with_sso.
  assert (∃ b, SSO_CSS = SSO_CSS_MARKER +:+ b) as [b Hb]. { unfold SSO_CSS, SSO_CSS_MARKER. eexists. reflexivity. }
  rewrite str_app_assoc, Hb, contains_app. done.
Qed.
Lemma button_settles m want css : let v := with_button m want css in
  str_ci v "LoginDisclaimer" = Some want ∧ str_ci v "CustomCss" = Some css ∧
  ∀ j, eq_ignore_ascii_case j "LoginDisclaimer" = false → eq_ignore_ascii_case j "CustomCss" = false → v.[j] = (Object m).[j].
Proof.
  unfold with_button, str_ci. rewrite !get_ci_find.
  assert (∀ m' : list (string * Value), find_ci "LoginDisclaimer" (insert_key "LoginDisclaimer" (Str want) (drop_ci "CustomCss" (drop_ci "LoginDisclaimer" m'))) = Some (Str want)) as H1.
  { intros m'. unfold find_ci, drop_ci. induction m' as [|[k x] m' IH]; [done|]. cbn [List.filter fst]. destruct (eq_ignore_ascii_case k "LoginDisclaimer") eqn:E; cbn [negb]; [exact IH|].
    cbn [List.filter fst]. destruct (eq_ignore_ascii_case k "CustomCss") eqn:E'; cbn [negb]; [exact IH|]. cbn [insert_key].
    destruct (String.compare "LoginDisclaimer" k); cbn; [done|done|]. by rewrite E. }
  assert (∀ x (m' : list (string * Value)), (∀ kv, kv ∈ m' → eq_ignore_ascii_case kv.1 "CustomCss" = true → kv.1 = "CustomCss") → find_ci "CustomCss" (insert_key "CustomCss" x m') = Some x) as H2.
  { intros x m'. apply find_ci_set. }
  split_and!.
  - rewrite find_ci_insert by done. by rewrite H1.
  - rewrite H2; [done|]. intros kv Hkv Hci. assert (find_ci "CustomCss" (insert_key "LoginDisclaimer" (Str want) (drop_ci "CustomCss" (drop_ci "LoginDisclaimer" m))) = None) as Hn.
    { rewrite find_ci_insert by done. unfold find_ci, drop_ci. generalize (List.filter (λ kv, negb (eq_ignore_ascii_case kv.1 "LoginDisclaimer")) m). intros l.
      induction l as [|[k y] l IH]; [done|]. cbn [List.filter fst]. destruct (eq_ignore_ascii_case k "CustomCss") eqn:E; cbn [negb]; [exact IH|]. cbn. rewrite E. exact IH. }
    unfold find_ci in Hn. destruct (List.find _ _) eqn:Ef; [done|]. apply list_elem_of_In, (List.find_none _ _ Ef) in Hkv. congruence.
  - intros j Hj1 Hj2. cbn [index]. rewrite !assoc_insert_ne, !assoc_drop by (done || (intros ->; done)). done.
Qed.

(** *** Keys *)

Definition mask (key : string) : string := slice 0 3 key +:+ "..." +:+ slice (String.length key - 3) 3 key.
Lemma chars_slice a n s : chars (slice a n s) = take n (drop a (chars s)).
Proof. unfold slice. by rewrite chars_str. Qed.
Lemma mask_matches key : 3 ≤ String.length key → key_matches (mask key) key = true.
Proof.
  intros Hk. unfold key_matches. rewrite length_chars in Hk. apply orb_true_iff. right. set (n := length (chars key)) in *.
  assert (length (take 3 (drop 0 (chars key))) = 3) as L1. { rewrite length_take, length_drop. lia. }
  assert (length (take 3 (drop (n - 3) (chars key))) = 3) as L2. { rewrite length_take, length_drop. lia. }
  assert (chars (mask key) = take 3 (drop 0 (chars key)) ++ chars "..." ++ take 3 (drop (n - 3) (chars key))) as Em.
  { unfold mask. rewrite !chars_app, !chars_slice, length_chars. done. }
  assert (slice 0 3 (mask key) = slice 0 3 key) as E0. { apply (inj chars). rewrite !chars_slice, Em, drop_0, take_app_length'; done. }
  assert (slice 3 3 (mask key) = "...") as E3. { apply (inj chars). rewrite chars_slice, Em, drop_app_length' by done. by rewrite take_app_length'. }
  assert (slice 6 3 (mask key) = slice (n - 3) 3 key) as E6.
  { apply (inj chars). rewrite !chars_slice, Em, app_assoc, drop_app_length' by (rewrite length_app, L1; done). by rewrite take_ge by lia. }
  rewrite E0, E3, E6, length_chars, Em, !length_app, L1, L2. cbn [Nat.eqb andb length chars]. split_and?; rewrite ?andb_true_iff. split_and!; [done|done| |].
  - unfold slice. rewrite drop_0. rewrite <- (str_chars key) at 2. rewrite <- (take_drop 3 (chars key)) at 2.
    assert (∀ a b, str (a ++ b) = str a +:+ str b) as ->. { intros. apply (inj chars). by rewrite chars_app, !chars_str. } apply starts_with_prefix.
  - unfold ends_with. apply bool_decide_eq_true. rewrite chars_slice. rewrite <- (take_drop (n - 3) (chars key)) at 2. rewrite reverse_app.
    rewrite take_ge by (rewrite length_drop; lia). by eexists.
Qed.
Lemma generation_of_name g : (g < u32_modulus)%N → key_generation (key_name g) = Some g.
Proof.
  intros Hg. unfold key_generation, key_name. rewrite bool_decide_eq_false_2 by done.
  assert (strip_prefix MAINTAINERR_KEY_GEN_PREFIX (MAINTAINERR_KEY_GEN_PREFIX +:+ pretty g +:+ ")") = Some (pretty g +:+ ")")) as -> by by apply strip_prefix_Some.
  cbn [mbind option_bind]. assert (strip_suffix ")" (pretty g +:+ ")") = Some (pretty g)) as ->.
  { unfold strip_suffix. rewrite chars_app, reverse_app. change (reverse (chars ")")) with (chars ")").
    assert (strip_prefix (str (chars ")")) (str (chars ")" ++ reverse (chars (pretty g)))) = Some (str (reverse (chars (pretty g))))) as ->.
    { apply strip_prefix_Some. apply (inj chars). by rewrite chars_app, !chars_str. }
    cbn. f_equal. by rewrite chars_str, reverse_involutive, str_chars. }
  cbn [mbind option_bind]. by apply parse_uint_pretty.
Qed.

(** What the bootstrap writes passes the check that made it write, and keeps what it does not manage: laid-over
    configurations and policies, the repository list, the login page, Maintainerr's settings (which come back with the key
    masked) and the name of a key. *)
Theorem written_settles :
  (∀ current v, tidy v = true → config_in_sync (merged current v) v = true ∧
     ∀ j, Forall (λ kv, eq_ignore_ascii_case j kv.1 = false) (object_of v) → (merged current v).[j] = current.[j]) ∧
  (∀ s accel codecs tone n nets, Forall (λ v, tidy v = true ∧ config_in_sync v v = true)
     [desired_oid_config s; desired_encoding accel codecs tone; Object [("RemoteClientBitrateLimit", Number (PosInt n))]; Object [("LocalNetworkSubnets", strings nets)]]) ∧
  (∀ policy want p, policy_with_downloading policy want = Some p → policy_with_downloading p want = None) ∧
  (∀ current name url repos, Forall (cased "Enabled") (array_of current) → repos_with current name url = Some repos →
     repos_with repos name url = None ∧ ∀ r, r ∈ array_of current → is_repo url r = false → r ∈ array_of repos) ∧
  (∀ m want css, let v := with_button m want (default css (css_with_sso css)) in str_ci v "LoginDisclaimer" = Some want ∧
     css_with_sso (default "" (str_ci v "CustomCss")) = None ∧
     ∀ j, eq_ignore_ascii_case j "LoginDisclaimer" = false → eq_ignore_ascii_case j "CustomCss" = false → v.[j] = (Object m).[j]) ∧
  (∀ url key, 3 ≤ String.length key → settings_in_sync (mkSettings (Some "jellyfin") (Some url) (Some (mask key))) url key = true) ∧
  (∀ g, (g < u32_modulus)%N → key_generation (key_name g) = Some g).
Proof.
  split_and!.
  - intros current v Ht. destruct v as [| | | | |d]; try done. cbn [tidy] in Ht. apply andb_true_iff in Ht as [Hd Hw].
    split; [by apply merged_in_sync|]. intros j Hj. by apply merged_keeps.
  - intros s accel codecs tone n nets. assert (∀ v, tidy v = true → tidy v = true ∧ config_in_sync v v = true) as H. { intros v Hv. split; [done|by apply tidy_in_sync]. }
    repeat apply Forall_cons_2; try apply Forall_nil_2; apply H; cbn [tidy]; apply andb_true_iff; (split; [done|]); cbn -[strings]; by rewrite ?strings_wf.
  - intros policy want p. unfold policy_with_downloading. case_bool_decide as Hp; [done|]. intros [= <-]. rewrite bool_decide_eq_true_2; [done|].
    unfold merged. cbn [object_of]. rewrite get_ci_find. rewrite (laid_in [("EnableContentDownloading", Bool want)] _ ("EnableContentDownloading", Bool want)); [done|done|by left].
  - intros. by eapply repos_settle.
  - intros m want css. destruct (button_settles m want (default css (css_with_sso css))) as (H1 & H2 & H3). cbn zeta. rewrite H2. split_and!; [exact H1|apply css_settles|exact H3].
  - intros url key Hk. unfold settings_in_sync. cbn. rewrite !bool_decide_eq_true_2 by done. by rewrite mask_matches.
  - apply generation_of_name.
Qed.
