(* ===== verification/JellyfinDue.v ===== *)
(** * What calls for each change of the Jellyfin bootstrap

    [due] lists the changes with the answers that call for them; [jellyfin_due] and [jellyfin_complete] are about every
    run, whatever is answered. *)

From Stdlib Require Import Ascii.
From stdpp Require Import options.
From S2P Require Import Prelude Text F64 Json Codec Threads Trace Apps Bootstrap Wired JellyfinBootstrap.

Section due.
Context `{SerdeJson, Libs} (version : string) (env : string → option string).
Implicit Types (l : Log) (token : string).

Definition base : string := without_slash (var env "JELLYFIN_URL" "http://jellyfin.media.svc.cluster.local:8096").
Definition maintainerr : string := without_slash (default "" (env "MAINTAINERR_URL")).
Definition jf_url : string := var env "MAINTAINERR_JELLYFIN_URL" base.
Definition generation : option N := match env "MAINTAINERR_KEY_GENERATION" with None => Some 1%N | Some g => parse_u32 g end.
Definition wanted_plugin (p : PluginSpec) : Prop := (is_Some (env "SSO_ISSUER") ∧ p = sso_plugin) ∨ p ∈ default [] (parse_plugins (var env "PLUGINS" "")).
(** The provider the environment asks for, with the secret that was read. *)
Definition sso_of (issuer secret : string) : SsoSettings :=
  mkSso (var env "SSO_PROVIDER" "keycloak") (without_slash issuer) (var env "SSO_CLIENT_ID" "jellyfin") (trim secret)
    (var_list env "SSO_ROLES" "admin,family") (var_list env "SSO_ADMIN_ROLES" "admin").
Definition sso_known l (s : SsoSettings) : Prop := ∃ issuer file secret,
  env "SSO_ISSUER" = Some issuer ∧ env "SSO_SECRET_FILE" = Some file ∧ mkEvent (ReadFile file) (Some secret : Ans (ReadFile file)) ∈ l ∧ s = sso_of issuer secret.
Definition user_name : string := var env "ADMIN_USER" "admin".

Notation got l token path := (answered l (jget version base token path)).
(** The key of the configured generation, as Jellyfin lists it. *)
Definition current_key l (g : N) (key : string) : Prop :=
  ∃ token v keys, got l token "/Auth/Keys" v ∧ api_keys v = Some keys ∧ (split_keys keys g).1 = Some key.
(** Maintainerr holds the key: it said so, or took it. *)
Definition held l (key : string) : Prop :=
  (∃ v s, answered l (settings_req maintainerr) v ∧ maintainerr_settings v = Some s ∧ settings_in_sync s jf_url key = true) ∨
  accepted l (point_req maintainerr jf_url key).
(** The settings the environment asks for. *)
Inductive setting : string → Value → Prop :=
  | s_encoding accel : env "ENCODING_HW_ACCEL" = Some accel →
      setting "/System/Configuration/encoding"
        (desired_encoding accel (var_list env "ENCODING_DECODING_CODECS" "h264,hevc,vp9,av1") (default true (env_flag env "ENCODING_TONEMAPPING")))
  | s_bitrate limit n : env "REMOTE_BITRATE_LIMIT" = Some limit → parse_u64 limit = Some n →
      setting "/System/Configuration" (Object [("RemoteClientBitrateLimit", Number (PosInt n))])
  | s_subnets : is_Some (env "LOCAL_NETWORK_SUBNETS") →
      setting "/System/Configuration/network" (Object [("LocalNetworkSubnets", strings (var_list env "LOCAL_NETWORK_SUBNETS" ""))]).

Inductive due l : Act → Prop :=
  | d_wizard v body path : answered l (info_req base) v → public_info v = Some false →
      path ∈ ["/Startup/Configuration"; "/Startup/User"; "/Startup/Complete"] → due l (Http (with_body body (wizard_req version base "POST" path)))
  | d_library token v existing lib : got l token "/Library/VirtualFolders" v → virtual_folders v = Some existing → lib ∈ missing existing LIBRARIES →
      due l (Http (library_req version base token lib))
  | d_new_key token v keys g : generation = Some g → got l token "/Auth/Keys" v → api_keys v = Some keys → (split_keys keys g).1 = None →
      due l (Http (new_key_req version base token g))
  | d_point g key v s : generation = Some g → current_key l g key → answered l (settings_req maintainerr) v → maintainerr_settings v = Some s →
      settings_in_sync s jf_url key = false → due l (Http (point_req maintainerr jf_url key))
  | d_delete token v keys k g key : generation = Some g → got l token "/Auth/Keys" v → api_keys v = Some keys → k ∈ keys → is_older g k = true →
      current_key l g key → held l key → due l (Http (delete_key_req version base token (access_token k)))
  | d_repos token v p name repos : wanted_plugin p → got l token "/Repositories" v → repos_with v name (p_repo p) = Some repos →
      due l (Http (repos_req version base token repos))
  | d_install token v p : wanted_plugin p → got l token "/Plugins" v → plugin_state v (p_guid p) (p_name p) = Some false →
      due l (Http (install_req version base token p))
  | d_restart token p : wanted_plugin p → accepted l (install_req version base token p) → due l (Http (restart_req version base token))
  | d_provider token v s : sso_known l s → got l token "/sso/OID/Get" v →
      match get_ci v (provider s) with Some c => config_in_sync c (desired_oid_config s) | None => false end = false →
      due l (Http (provider_req version base token s))
  | d_button token m s : sso_known l s → got l token branding_path (Object m) →
      let css := default "" (str_ci (Object m) "CustomCss") in
      (default "" (str_ci (Object m) "LoginDisclaimer") ≠ login_disclaimer (provider s) ∨ css_with_sso css ≠ None) →
      due l (Http (jpost_json version base token branding_path (with_button m (login_disclaimer (provider s)) (default css (css_with_sso css)))))
  | d_setting token path desired v : setting path desired → got l token path v → config_in_sync v desired = false →
      due l (Http (jpost_json version base token path (merged v desired)))
  | d_policy token users u id policy want new : env_flag env "ENABLE_CONTENT_DOWNLOADING" = Some want → got l token "/Users" users → u ∈ array_of users →
      str_ci u "Id" = Some id → get_ci u "Policy" = Some policy → policy_with_downloading policy want = Some new →
      due l (Http (policy_req version base token id new)).
Definition quiet (x : Act) : Prop :=
  match x with
  | Http rq => rq_method rq = "GET" ∨ ∃ password, rq = login_req version base user_name password
  | ReadFile _ | Sleep _ => True
  | _ => False
  end.
Definition allowed l (x : Act) : Prop := quiet x ∨ due l x.

Lemma current_mono l l' g key : l `prefix_of` l' → current_key l g key → current_key l' g key.
Proof. intros Hl (t & v & ks & Hv & Hk & Hc). exists t, v, ks. split; [by eapply answered_later|done]. Qed.
Lemma held_mono l l' key : l `prefix_of` l' → held l key → held l' key.
Proof.
  intros Hl [(v & s & Hv & Hs)|Ha]; [left; exists v, s; split; [by eapply answered_later|done]|right; by eapply accepted_later].
Qed.

(** ** The steps *)

Notation okay := (Trace.okay Ans allowed (St := list string) (Fa := string)).
Notation any := (λ _ _, True).
Lemma asked_ok rq what l : allowed l (Http rq) → okay (ask rq what) (λ v l', answered l' rq v) l.
Proof. apply value_ok. Qed.
Lemma get_json_ok token path l : okay (get_json version base token path) (λ v l', got l' token path v) l.
Proof. apply asked_ok. by left; left. Qed.
Lemma command_ok rq what l : allowed l (Http rq) → okay (command rq what) (λ _ l', accepted l' rq) l.
Proof. apply commanded_ok. Qed.
Lemma read_as_ok {A} (f : Value → option A) v l : okay (read_as f v) (λ a l', f v = Some a ∧ l' = l) l.
Proof. apply need_ok. Qed.
Lemma sleep_any ns l : okay (do Ans (Sleep ns) : Job ()) any l.
Proof. refine (okay_do Ans allowed (Sleep ns) _ _ _ _); [by left|done]. Qed.
Lemma again_ok {A} note attempts (f : Job A) (Q : A → Log → Prop) l : (∀ l', l `prefix_of` l' → okay f Q l') → okay (again note attempts f) Q l.
Proof.
  unfold again. generalize 0%N. generalize (N.to_nat attempts - 1). intros rest n Hf. revert l n Hf.
  induction rest as [|rest IH]; intros l n Hf; cbn [again_from].
  - eapply okay_then; [apply catch_any, Hf; done|]. intros [a|e] l1 _ Hq; [by apply okay_ret|apply okay_raise].
  - eapply okay_then; [apply catch_any, Hf; done|]. intros [a|e] l1 Hl1 Hq; [by apply okay_ret|].
    eapply okay_then; [by apply (say_ok _ _ any)|]. intros _ l2 Hl2 _. eapply okay_then; [apply sleep_any|]. intros _ l3 Hl3 _. apply IH. intros l' Hl'. apply Hf.
    do 3 (etrans; [eassumption|]). done.
Qed.
Lemma wait_jellyfin_ok l : okay (wait_for_jellyfin base) (λ b l', ∃ v, answered l' (info_req base) v ∧ public_info v = Some b) l.
Proof.
  apply again_ok. intros l' _. eapply okay_then; [apply asked_ok; by left; left|]. intros v l1 _ Hv. eapply okay_mono; [apply read_as_ok|].
  intros b l2 _ [Hb ->]. by exists v.
Qed.
Lemma wizard_ok v password l : answered l (info_req base) v → public_info v = Some false → okay (run_wizard version base user_name password) any l.
Proof.
  intros Hv Hi. unfold run_wizard.
  assert (∀ l' body path, l `prefix_of` l' → path ∈ ["/Startup/Configuration"; "/Startup/User"; "/Startup/Complete"] →
    allowed l' (Http (with_body body (wizard_req version base "POST" path)))) as Hw.
  { intros l' body path Hl' Hp. right. eapply d_wizard; [by eapply answered_later|done|done]. }
  eapply okay_then; [by apply (say_ok _ _ any)|]. intros _ l1 Hl1 _.
  eapply okay_then; [apply command_ok, Hw; [done|set_solver]|]. intros _ l2 Hl2 _.
  eapply okay_then; [apply command_ok; by left; left|]. intros _ l3 Hl3 _.
  eapply okay_then; [apply command_ok, Hw; [by repeat (etrans; [eassumption|])|set_solver]|]. intros _ l4 Hl4 _.
  eapply okay_then; [apply command_ok, (Hw _ NoBody); [by repeat (etrans; [eassumption|])|set_solver]|]. intros _ l5 _ _. by apply say_ok.
Qed.
Lemma authenticate_ok password l : okay (authenticate version base user_name password) any l.
Proof.
  apply again_ok. intros l' _. eapply okay_then; [apply asked_ok; left; right; by exists password|]. intros v l1 _ _.
  eapply okay_mono; [apply read_as_ok|done].
Qed.

(** A library is there: listed, or made. *)
Definition library_there l (lib : Library) : Prop := ∃ token,
  (∃ v existing, got l token "/Library/VirtualFolders" v ∧ virtual_folders v = Some existing ∧ lib ∉ missing existing LIBRARIES) ∨
  accepted l (library_req version base token lib).
Lemma library_mono l l' lib : l `prefix_of` l' → library_there l lib → library_there l' lib.
Proof.
  intros Hl [token [(v & e & Hv & He)|Ha]]; exists token; [left; exists v, e; split; [by eapply answered_later|done]|right; by eapply accepted_later].
Qed.
Lemma libraries_ok token l : okay (ensure_libraries version base token) (λ _ l', ∀ lib, lib ∈ LIBRARIES → library_there l' lib) l.
Proof.
  unfold ensure_libraries. eapply okay_then; [apply asked_ok; by left; left|]. intros v l1 _ Hv. cbn beta in Hv.
  eapply okay_then; [apply read_as_ok|]. intros existing l2 _ [He ->]. eapply okay_then; [by apply (say_ok _ _ (λ _ l', l1 `prefix_of` l'))|]. intros _ l2 Hl2 _.
  assert (∀ l' lib, l2 `prefix_of` l' → lib ∈ LIBRARIES → lib ∉ missing existing LIBRARIES → library_there l' lib) as Hthere.
  { intros l' lib Hl' _ Hm. exists token. left. exists v, existing. split; [eapply answered_later; [|exact Hv]; by etrans|done]. }
  case_bool_decide as Ht.
  - apply say_ok. intros lib Hlib. apply Hthere; [done|done|]. rewrite Ht. apply not_elem_of_nil.
  - eapply okay_mono.
    + apply (for_each_all allowed _ (λ lib l, library_there l lib)); [intros; by eapply library_mono|].
      intros lib l3 Hlib Hl3. eapply okay_then; [by apply (say_ok _ _ any)|]. intros _ l4 Hl4 _. eapply okay_mono.
      * apply command_ok. right. eapply d_library; [|exact He|exact Hlib]. eapply answered_later; [|exact Hv]. repeat (etrans; [eassumption|]). done.
      * intros ? l5 _ Ha. exists token. by right.
    + intros [] l3 Hl3 Hall lib Hlib. cbn beta in Hall. rewrite Forall_forall in Hall.
      destruct (decide (lib ∈ missing existing LIBRARIES)); [by apply Hall|by apply Hthere].
Qed.

(** *** The key *)

(** The older keys of a listing. *)
Definition stale_of l token (g : N) (stale : list string) : Prop :=
  ∃ v keys, got l token "/Auth/Keys" v ∧ api_keys v = Some keys ∧ stale = (split_keys keys g).2.
Lemma stale_mono l l' token g stale : l `prefix_of` l' → stale_of l token g stale → stale_of l' token g stale.
Proof. intros Hl (v & ks & Hv & Hk). exists v, ks. split; [by eapply answered_later|done]. Qed.
Definition cleared l (g : N) : Prop := ∃ token stale, stale_of l token g stale ∧ Forall (λ t, accepted l (delete_key_req version base token t)) stale.
Lemma list_keys_ok token l : okay (list_keys version base token) (λ keys l', ∃ v, got l' token "/Auth/Keys" v ∧ api_keys v = Some keys) l.
Proof.
  unfold list_keys. eapply okay_then; [apply asked_ok; by left; left|]. intros v l1 _ Hv. eapply okay_mono; [apply read_as_ok|]. intros keys l2 _ [Hk ->]. by exists v.
Qed.
Lemma current_key_ok token g l : generation = Some g → okay (ensure_api_key version base token g)
  (λ ks l', current_key l' g ks.1 ∧ stale_of l' token g ks.2) l.
Proof.
  intros Hg. unfold ensure_api_key. eapply okay_then; [apply list_keys_ok|]. intros keys l1 _ (v & Hv & Hk).
  assert (stale_of l1 token g (split_keys keys g).2) as Hold by by exists v, keys.
  destruct (split_keys keys g) as [current stale] eqn:Es. cbn [snd] in Hold. destruct current as [key|].
  - eapply okay_then; [by apply (say_ok _ _ (λ _ l', l' = l1))|]. intros _ l2 _ ->. apply okay_ret. split; [|done].
    exists token, v, keys. by rewrite Es.
  - eapply okay_then; [by apply (say_ok _ _ (λ _ l', l' = l1))|]. intros _ l2 _ ->.
    eapply okay_then; [apply command_ok; right; eapply d_new_key; [exact Hg|exact Hv|exact Hk|by rewrite Es]|]. intros ? l2 Hl2 _.
    eapply okay_then; [apply list_keys_ok|]. intros keys' l3 Hl3 (v' & Hv' & Hk'). eapply okay_then; [apply need_ok|]. intros key l4 _ [Hkey ->].
    apply okay_ret. split; [by exists token, v', keys'|]. eapply stale_mono; [|exact Hold]. by etrans.
Qed.
Lemma maintainerr_ok g key l : generation = Some g → current_key l g key → okay (ensure_maintainerr maintainerr jf_url key) (λ _ l', held l' key) l.
Proof.
  intros Hg Hc. unfold ensure_maintainerr. eapply (okay_then Ans _ _ _ (λ s l', ∃ v, answered l' (settings_req maintainerr) v ∧ maintainerr_settings v = Some s)).
  { apply again_ok. intros l' _. eapply okay_then; [apply asked_ok; by left; left|]. intros v l1 _ Hv. eapply okay_mono; [apply read_as_ok|].
    intros s l2 _ [Hs ->]. by exists v. }
  intros s l1 Hl1 (v & Hv & Hs). destruct (settings_in_sync s jf_url key) eqn:Ei; [apply say_ok; left; by exists v, s|].
  eapply okay_then; [by apply (say_ok _ _ (λ _ l', l' = l1))|]. intros _ l2 _ ->. eapply okay_mono.
  - apply command_ok. right. eapply d_point; [exact Hg|by eapply current_mono|exact Hv|exact Hs|exact Ei].
  - intros ? l2 _ Ha. by right.
Qed.
Lemma delete_keys_ok token g key stale l : generation = Some g → current_key l g key → held l key → stale_of l token g stale →
  okay (delete_keys version base token stale) (λ _ l', cleared l' g) l.
Proof.
  intros Hg Hc Hh Hs. unfold delete_keys. eapply okay_then.
  - apply (for_each_all allowed _ (λ t l, accepted l (delete_key_req version base token t))); [intros; by eapply accepted_later|].
    intros t l1 Ht Hl1. destruct Hs as (v & keys & Hv & Hk & ->).
    apply list_elem_of_fmap in Ht as (k & -> & Hin). apply list_elem_of_In, List.filter_In in Hin as [Hin Ho]. apply list_elem_of_In in Hin.
    apply command_ok. right. eapply d_delete; [exact Hg|eapply answered_later; [exact Hl1|exact Hv]|exact Hk|exact Hin|exact Ho|by eapply current_mono|by eapply held_mono].
  - intros ? l1 Hl1 Ha. cbn beta in Ha.
    assert (cleared l1 g) as Hd by (exists token, stale; split; [by eapply stale_mono|done]). case_bool_decide; [by apply okay_ret|by apply say_ok].
Qed.
Definition maintainerr_there l : Prop := ∃ g key, generation = Some g ∧ current_key l g key ∧ held l key ∧ cleared l g.
Lemma maintainerr_step_ok token l : okay (maintainerr_step version env base token) (λ _ l', is_Some (env "MAINTAINERR_URL") → maintainerr_there l') l.
Proof.
  unfold maintainerr_step. destruct (env "MAINTAINERR_URL") as [m|] eqn:Em; [|apply okay_ret; by intros []]. cbn zeta.
  assert (without_slash m = maintainerr) as -> by (unfold maintainerr; by rewrite Em). change (var env "MAINTAINERR_JELLYFIN_URL" base) with jf_url.
  apply (okay_then Ans _ _ _ (λ g l', generation = Some g ∧ l' = l)).
  { unfold generation. destruct (env "MAINTAINERR_KEY_GENERATION"); [apply need_ok|by apply okay_ret]. }
  intros g l0 _ [Hg ->]. eapply okay_then; [by apply current_key_ok|]. intros [key stale] l1 _ [Hc Hs]. cbn [fst snd] in *.
  eapply okay_then; [by apply (maintainerr_ok g)|]. intros ? l2 Hl2 Hh. eapply okay_mono; [apply (delete_keys_ok _ g key); [done|by eapply current_mono|done|by eapply stale_mono]|].
  intros ? l3 Hl3 Hd _. exists g, key. split_and!; [done|eapply current_mono; [|exact Hc]; by etrans|by eapply held_mono|done].
Qed.

(** *** Plugins *)

Definition plugin_there l (p : PluginSpec) : Prop := ∃ token v, got l token "/Plugins" v ∧ plugin_state v (p_guid p) (p_name p) = Some true.
Lemma plugin_mono l l' p : l `prefix_of` l' → plugin_there l p → plugin_there l' p.
Proof. intros Hl (t & v & Hv & Hp). exists t, v. split; [by eapply answered_later|done]. Qed.
Definition installed_by l (p : PluginSpec) : Prop := ∃ token, accepted l (install_req version base token p).
Lemma went_down_ok rounds l : okay (went_down rounds base) any l.
Proof.
  revert l. induction rounds as [|n IH]; intros l; cbn [went_down]; [by apply okay_ret|]. eapply okay_then; [apply sleep_any|]. intros _ l1 _ _.
  apply okay_bind. refine (okay_do Ans allowed (Http (info_req base)) _ _ _ _); [by left; left|]. intros [r|e]; [|by apply okay_ret].
  destruct (is_success _); [apply IH|by apply okay_ret].
Qed.
Lemma restart_ok token p l : wanted_plugin p → accepted l (install_req version base token p) → okay (restart_and_wait version base token) any l.
Proof.
  intros Hw Ha. unfold restart_and_wait. eapply okay_then; [by apply (say_ok _ _ (λ _ l', l' = l))|]. intros _ l1 _ ->.
  eapply okay_then; [apply command_ok; right; by eapply d_restart|]. intros ? l1 _ _. eapply okay_then; [apply went_down_ok|]. intros down l2 _ _.
  apply (okay_then Ans _ _ _ any); [destruct down; [by apply okay_ret|by apply say_ok]|]. intros _ l3 _ _.
  eapply okay_then; [apply wait_jellyfin_ok|]. intros ? l4 _ _. apply sleep_any.
Qed.
Lemma state_of_ok name guid v l : okay (state_of name guid v) (λ b l', plugin_state v guid name = Some b ∧ l' = l) l.
Proof. apply need_ok. Qed.
Lemma register_ok token p name v l : wanted_plugin p → got l token "/Repositories" v → okay (register version base token name (repos_with v name (p_repo p))) any l.
Proof.
  intros Hw Hv. unfold register. destruct (repos_with _ _ _) as [repos|] eqn:Er; [|by apply okay_ret].
  eapply okay_then; [by apply (say_ok _ _ (λ _ l', l' = l))|]. intros _ l1 _ ->. eapply okay_mono; [apply command_ok; right; by eapply d_repos|done].
Qed.
Lemma sso_plugin_ok password token l : is_Some (env "SSO_ISSUER") → okay (ensure_sso_plugin version base user_name password token) (λ _ l', plugin_there l' sso_plugin) l.
Proof.
  intros Hsome. assert (wanted_plugin sso_plugin) as Hw by by left.
  unfold ensure_sso_plugin. eapply okay_then; [apply get_json_ok|]. intros repos l1 _ Hr. eapply okay_then; [exact (register_ok token sso_plugin SSO_REPO_NAME repos l1 Hw Hr)|]. intros _ l2 _ _.
  eapply okay_then; [apply get_json_ok|]. intros v l3 _ Hv. eapply okay_then; [apply state_of_ok|]. intros [] l4 _ [Hs ->].
  - eapply okay_then; [by apply (say_ok _ _ (λ _ l', l' = l3))|]. intros _ l4 _ ->. apply okay_ret. by exists token, v.
  - eapply okay_then; [by apply (say_ok _ _ (λ _ l', l' = l3))|]. intros _ l4 _ ->.
    eapply okay_then; [apply command_ok; right; exact (d_install _ token v sso_plugin Hw Hv Hs)|]. intros ? l4 _ Ha. eapply okay_then; [exact (restart_ok token sso_plugin _ Hw Ha)|]. intros _ l5 _ _.
    eapply okay_then; [apply authenticate_ok|]. intros tok l6 _ _. eapply okay_then; [apply get_json_ok|]. intros v' l7 _ Hv'.
    eapply okay_then; [apply state_of_ok|]. intros [] l8 _ [Hs' ->]; [apply okay_ret; by exists tok, v'|apply okay_raise].
Qed.
Definition installing token (installed seen : list PluginSpec) l : Prop :=
  (∀ p, p ∈ seen → plugin_there l p ∨ p ∈ installed) ∧ (∀ p, p ∈ installed → wanted_plugin p ∧ accepted l (install_req version base token p)).
Lemma installing_mono token installed seen l l' : l `prefix_of` l' → installing token installed seen l → installing token installed seen l'.
Proof.
  intros Hl [Hs Hi]. split.
  - intros p Hp. destruct (Hs p Hp); [left; by eapply plugin_mono|by right].
  - intros p Hp. destruct (Hi p Hp). split; [done|by eapply accepted_later].
Qed.
Lemma install_ok token v installed p seen l : wanted_plugin p → got l token "/Plugins" v → installing token installed seen l →
  okay (install version base token v installed p) (λ installed' l', installing token installed' (seen ++ [p]) l') l.
Proof.
  intros Hw Hv Hi. unfold install. eapply okay_then; [apply state_of_ok|]. intros [] l0 _ [Hs ->].
  - eapply okay_then; [by apply (say_ok _ _ (λ _ l', l' = l))|]. intros _ l1 _ ->. apply okay_ret. destruct Hi as [H1 H2]. split; [|done].
    intros q Hq. apply elem_of_app in Hq as [Hq|Hq]; [by apply H1|]. apply list_elem_of_singleton in Hq as ->. left. by exists token, v.
  - apply (okay_then Ans _ _ _ any).
    { case_bool_decide; [by apply okay_ret|]. eapply okay_then; [apply get_json_ok|]. intros repos l1 _ Hr. by apply register_ok. }
    intros _ l1 Hl1 _. eapply okay_then; [by apply (say_ok _ _ (λ _ l', l' = l1))|]. intros _ l2 _ ->.
    eapply okay_then; [apply command_ok; right; eapply d_install; [done|by eapply answered_later|done]|]. intros ? l2 Hl2 Ha. apply okay_ret.
    apply (installing_mono _ _ _ l l2) in Hi as [H1 H2]; [|by etrans]. split.
    + intros q Hq. apply elem_of_app in Hq as [Hq|Hq]; [destruct (H1 q Hq); [by left|right; apply elem_of_app; by left]|]. right. apply elem_of_app. by right.
    + intros q Hq. apply elem_of_app in Hq as [Hq|Hq]; [by apply H2|]. by apply list_elem_of_singleton in Hq as ->.
Qed.
Lemma plugins_ok password token wanted l : Forall wanted_plugin wanted →
  okay (ensure_plugins version base user_name password token wanted) (λ _ l', Forall (plugin_there l') wanted) l.
Proof.
  intros Hw. rewrite Forall_forall in Hw. unfold ensure_plugins. eapply okay_then; [apply get_json_ok|]. intros v l1 _ Hv. cbn beta in Hv.
  eapply okay_then; [apply (fold_ok allowed _ (installing token) wanted [])|].
  { split; [set_solver|set_solver]. }
  { intros st p seen l' Hp Hl' Hi. apply install_ok; [by apply Hw|by eapply answered_later|done]. }
  intros installed l2 _ [Hs Hi]. cbn [app] in Hs. case_bool_decide as Hn.
  - apply okay_ret. apply Forall_forall. intros p Hp. destruct (Hs p Hp) as [|Hin]; [done|]. subst. by apply not_elem_of_nil in Hin.
  - destruct installed as [|p0 installed]; [done|]. destruct (Hi p0) as [Hw0 Ha0]; [by left|].
    eapply okay_then; [by eapply restart_ok|]. intros _ l3 Hl3 _. eapply okay_then; [apply authenticate_ok|]. intros tok l4 Hl4 _.
    eapply okay_then; [apply get_json_ok|]. intros v' l5 Hl5 Hv'. cbn beta in Hv'. eapply okay_then.
    { apply (for_each_all allowed _ (λ p l, plugin_there l p)); [intros; by eapply plugin_mono|]. intros p l6 _ Hl6. eapply okay_then; [apply state_of_ok|].
      intros [] l7 _ [Hst ->]; [|apply okay_raise]. apply okay_ret. exists tok, v'. split; [by eapply answered_later|done]. }
    intros ? l6 Hl6 Hall. cbn beta in Hall. rewrite Forall_forall in Hall. apply okay_ret. apply Forall_forall. intros p Hp.
    destruct (Hs p Hp) as [Hp'|Hp']; [|by apply Hall]. eapply plugin_mono; [|exact Hp']. repeat (etrans; [eassumption|]). done.
Qed.
(** *** Single sign-on *)

Definition provider_set (v : Value) (s : SsoSettings) : bool :=
  match get_ci v (provider s) with Some c => config_in_sync c (desired_oid_config s) | None => false end.
Definition provider_there l (s : SsoSettings) : Prop := ∃ token,
  (∃ v, got l token "/sso/OID/Get" v ∧ provider_set v s = true) ∨ accepted l (provider_req version base token s).
(** The login page as it should be. *)
Definition button_set (v : Value) (s : SsoSettings) : Prop :=
  default "" (str_ci v "LoginDisclaimer") = login_disclaimer (provider s) ∧ css_with_sso (default "" (str_ci v "CustomCss")) = None.
Definition button_there l (s : SsoSettings) : Prop := ∃ token v, got l token branding_path v ∧
  (button_set v s ∨ accepted l (jpost_json version base token branding_path
     (with_button (object_of v) (login_disclaimer (provider s)) (let css := default "" (str_ci v "CustomCss") in default css (css_with_sso css))))).
Definition sso_there l : Prop := ∃ s, sso_known l s ∧ plugin_there l sso_plugin ∧ provider_there l s ∧ button_there l s.
Lemma known_mono l l' s : l `prefix_of` l' → sso_known l s → sso_known l' s.
Proof. intros [k ->] (i & f & x & ? & ? & Hin & ?). exists i, f, x. split_and!; try done. apply elem_of_app. by left. Qed.
Lemma provider_mono l l' s : l `prefix_of` l' → provider_there l s → provider_there l' s.
Proof.
  intros Hl [token [(v & Hv & Hs)|Ha]]; exists token; [left; exists v; split; [by eapply answered_later|done]|right; by eapply accepted_later].
Qed.
Lemma secret_read_ok path l : okay (read_to_string path) (λ t l', mkEvent (ReadFile path) (Some t : Ans (ReadFile path)) ∈ l') l.
Proof. apply read_file_okay. by left. Qed.
Lemma sso_settings_ok l : okay (sso_settings env) (λ s l', match s with None => env "SSO_ISSUER" = None | Some s => sso_known l' s end) l.
Proof.
  unfold sso_settings. destruct (env "SSO_ISSUER") as [issuer|] eqn:Ei; [|by apply okay_ret].
  eapply okay_then; [apply need_ok|]. intros file l1 _ [Hf ->]. eapply okay_then; [apply secret_read_ok|]. intros secret l1 _ Hs.
  apply okay_ret. by exists issuer, file, secret.
Qed.
Lemma provider_ok token s l : sso_known l s → okay (ensure_sso_provider version base token s) (λ _ l', provider_there l' s) l.
Proof.
  intros Hs. unfold ensure_sso_provider. eapply okay_then; [apply (again_ok _ _ _ (λ v l', got l' token "/sso/OID/Get" v)); intros; apply get_json_ok|].
  intros v l1 Hl1 Hv. fold (provider_set v s). destruct (provider_set v s) eqn:Ep; [apply say_ok; exists token; left; by exists v|].
  eapply okay_then; [by apply (say_ok _ _ (λ _ l', l' = l1))|]. intros _ l2 _ ->. eapply okay_mono.
  - apply command_ok. right. eapply d_provider; [by eapply known_mono|exact Hv|exact Ep].
  - intros ? l2 _ Ha. exists token. by right.
Qed.
Lemma button_ok token s l : sso_known l s → okay (ensure_login_button version base token (provider s)) (λ _ l', button_there l' s) l.
Proof.
  intros Hs. unfold ensure_login_button. eapply okay_then; [apply get_json_ok|]. intros v l1 Hl1 Hv. cbn beta in Hv. cbn zeta.
  destruct (String.eqb _ _ && _) eqn:Eb.
  - apply andb_true_iff in Eb as [H1%String.eqb_eq H2%bool_decide_eq_true]. apply say_ok. exists token, v. split; [exact Hv|]. by left.
  - eapply okay_then; [by apply (say_ok _ _ (λ _ l', l' = l1))|]. intros _ l2 _ ->.
    eapply okay_then; [apply need_ok|]. intros m l2 _ [Hm ->]. destruct v as [| | | | |m']; try done. injection Hm as ->. eapply okay_mono.
    + apply command_ok. right. eapply d_button; [by eapply known_mono|exact Hv|]. cbn zeta. apply andb_false_iff in Eb as [Eb|Eb].
      * left. by apply String.eqb_neq.
      * right. by apply bool_decide_eq_false in Eb.
    + intros ? l2 Hl2 Ha. exists token, (Object m). split; [by eapply answered_later|]. by right.
Qed.

(** *** Server settings *)

Definition setting_there l path (desired : Value) : Prop := ∃ token v, got l token path v ∧
  (config_in_sync v desired = true ∨ accepted l (jpost_json version base token path (merged v desired))).
Lemma config_ok token path desired l : setting path desired → okay (ensure_config version base token path desired) (λ _ l', setting_there l' path desired) l.
Proof.
  intros Hs. unfold ensure_config. eapply okay_then; [apply get_json_ok|]. intros v l1 _ Hv. cbn beta in Hv. destruct (config_in_sync v desired) eqn:Ec.
  - apply say_ok. exists token, v. split; [exact Hv|by left].
  - eapply okay_then; [by apply (say_ok _ _ (λ _ l', l' = l1))|]. intros _ l2 _ ->. eapply okay_mono; [apply command_ok; right; by eapply d_setting|].
    intros ? l2 Hl2 Ha. exists token, v. split; [by eapply answered_later|by right].
Qed.
Lemma setting_mono l l' path desired : l `prefix_of` l' → setting_there l path desired → setting_there l' path desired.
Proof.
  intros Hl (t & v & Hv & Hs). exists t, v. split; [by eapply answered_later|]. destruct Hs; [by left|right; by eapply accepted_later].
Qed.
(** The change to a user, when the policy is not as wanted. *)
Definition policy_change (want : bool) (u : Value) : option (string * Value) :=
  id ← str_ci u "Id"; policy ← get_ci u "Policy"; new ← policy_with_downloading policy want; Some (id, new).
Definition downloading_there l (want : bool) : Prop := ∃ token users, got l token "/Users" users ∧
  ∀ u id new, u ∈ array_of users → policy_change want u = Some (id, new) → accepted l (policy_req version base token id new).
Lemma downloading_ok token want l : env_flag env "ENABLE_CONTENT_DOWNLOADING" = Some want →
  okay (ensure_content_downloading version base token want) (λ _ l', downloading_there l' want) l.
Proof.
  intros Hw. unfold ensure_content_downloading. eapply okay_then; [apply get_json_ok|]. intros users l1 _ Hu. cbn beta in Hu.
  eapply okay_then.
  - apply (fold_ok allowed _ (λ _ seen l, ∀ u id new, u ∈ seen → policy_change want u = Some (id, new) → accepted l (policy_req version base token id new)) (array_of users) []).
    { intros u ? ? Hin. by apply not_elem_of_nil in Hin. }
    intros n u seen l2 Hin Hl2 Hseen. unfold bring_in_line.
    assert (∀ l', l2 `prefix_of` l' → (∀ id new, policy_change want u = Some (id, new) → accepted l' (policy_req version base token id new)) →
      ∀ u' id new, u' ∈ seen ++ [u] → policy_change want u' = Some (id, new) → accepted l' (policy_req version base token id new)) as Hnext.
    { intros l' Hl' Hlast u' id new [Hin'|Hin'%list_elem_of_singleton]%elem_of_app Hc; [eapply accepted_later; [exact Hl'|by eapply Hseen]|subst u'; by apply Hlast]. }
    unfold policy_change in Hnext |- *. destruct (str_ci u "Id") as [id|] eqn:Eid; [|apply okay_ret; by apply Hnext].
    destruct (get_ci u "Policy") as [policy|] eqn:Ep; [|apply okay_ret; by apply Hnext].
    cbn in Hnext |- *. destruct (policy_with_downloading policy want) as [new|] eqn:En; [|apply okay_ret; by apply Hnext].
    eapply okay_then; [by apply (say_ok _ _ (λ _ l', l' = l2))|]. intros _ l3 _ ->. eapply okay_then.
    { apply command_ok. right. eapply d_policy; [exact Hw|by eapply answered_later|exact Hin|exact Eid|exact Ep|exact En]. }
    intros ? l3 Hl3 Ha. apply okay_ret. apply Hnext; [exact Hl3|]. by intros ? ? [= <- <-].
  - intros n l2 Hl2 Hall. cbn [app] in Hall. assert (downloading_there l2 want) as Hd.
    { exists token, users. split; [by eapply answered_later|exact Hall]. }
    destruct (_ =? _)%N; [by apply say_ok|by apply okay_ret].
Qed.
Definition settings_there l : Prop :=
  (∀ path desired, setting path desired → setting_there l path desired) ∧
  (is_Some (env "REMOTE_BITRATE_LIMIT") → ∃ desired, setting "/System/Configuration" desired) ∧
  (∀ want, env_flag env "ENABLE_CONTENT_DOWNLOADING" = Some want → downloading_there l want).
Lemma settings_ok token l : okay (ensure_server_settings version env base token) (λ _ l', settings_there l') l.
Proof.
  unfold ensure_server_settings.
  eapply (okay_then Ans _ _ _ (λ _ l', ∀ desired, setting "/System/Configuration/encoding" desired → setting_there l' "/System/Configuration/encoding" desired)).
  { destruct (env "ENCODING_HW_ACCEL") as [accel|] eqn:Ea.
    - eapply okay_mono; [apply config_ok; by apply s_encoding|]. intros ? l' _ Ht d Hd. inversion Hd; subst. congruence.
    - apply okay_ret. intros d Hd. inversion Hd; congruence. }
  intros ? l1 _ H1. eapply (okay_then Ans _ _ _ (λ _ l', (is_Some (env "REMOTE_BITRATE_LIMIT") → ∃ desired, setting "/System/Configuration" desired) ∧
    ∀ desired, setting "/System/Configuration" desired → setting_there l' "/System/Configuration" desired)).
  { destruct (env "REMOTE_BITRATE_LIMIT") as [limit|] eqn:El.
    - eapply okay_then; [apply need_ok|]. intros n l2 _ [Hn ->]. eapply okay_mono; [apply config_ok; by eapply s_bitrate|]. intros ? l' _ Ht. split.
      + intros _. eexists. by eapply s_bitrate.
      + intros d Hd. inversion Hd; subst. congruence.
    - apply okay_ret. split; [by intros []|]. intros d Hd. inversion Hd; congruence. }
  intros ? l2 Hl2 [H2 H3]. eapply (okay_then Ans _ _ _ (λ _ l', ∀ desired, setting "/System/Configuration/network" desired → setting_there l' "/System/Configuration/network" desired)).
  { destruct (env "LOCAL_NETWORK_SUBNETS") as [nets|] eqn:En.
    - eapply okay_mono; [apply config_ok; apply s_subnets; by rewrite En|]. intros ? l' _ Ht d Hd. by inversion Hd; subst.
    - apply okay_ret. intros d Hd. inversion Hd as [| |Hs]. rewrite En in Hs. by destruct Hs. }
  intros ? l3 Hl3 H4. cbn beta in *.
  assert (∀ l', l3 `prefix_of` l' → ∀ path desired, setting path desired → setting_there l' path desired) as Hall.
  { intros l' Hl' path desired Hd. inversion Hd; subst.
    - eapply setting_mono; [|by apply H1]. repeat (etrans; [eassumption|]). done.
    - eapply setting_mono; [|by apply H3]. by etrans.
    - eapply setting_mono; [|by apply H4]. done. }
  destruct (env_flag env "ENABLE_CONTENT_DOWNLOADING") as [want|] eqn:Ew.
  - eapply okay_mono; [by apply downloading_ok|]. intros ? l4 Hl4 Hd. split_and!; [by apply Hall|done|]. intros w E. by assert (w = want) as -> by congruence.
  - apply okay_ret. split_and!; [by apply Hall|done|]. intros w E. congruence.
Qed.
(** *** The run *)

Definition jellyfin_ready l : Prop :=
  (∀ lib, lib ∈ LIBRARIES → library_there l lib) ∧
  (is_Some (env "MAINTAINERR_URL") → maintainerr_there l) ∧
  (∃ plugins, parse_plugins (var env "PLUGINS" "") = Some plugins ∧ Forall (plugin_there l) plugins) ∧
  (is_Some (env "SSO_ISSUER") → sso_there l) ∧
  settings_there l.
Lemma maintainerr_mono l l' : l `prefix_of` l' → maintainerr_there l → maintainerr_there l'.
Proof.
  intros Hl (g & key & Hg & Hc & Hh & (token & stale & Hs & Ha)). exists g, key. split_and!; [done|by eapply current_mono|by eapply held_mono|].
  exists token, stale. split; [by eapply stale_mono|]. eapply Forall_impl; [exact Ha|]. intros t Ht. by eapply accepted_later.
Qed.
Lemma sso_there_mono l l' : l `prefix_of` l' → sso_there l → sso_there l'.
Proof.
  intros Hl (s & Hk & Hp & Hv & (token & v & Hb & Hs)). exists s. split_and!; [by eapply known_mono|by eapply plugin_mono|by eapply provider_mono|].
  exists token, v. split; [by eapply answered_later|]. destruct Hs; [by left|right; by eapply accepted_later].
Qed.
Lemma sso_ok password token s l : is_Some (env "SSO_ISSUER") → sso_known l s →
  okay (token ← ensure_sso_plugin version base user_name password token; _ ← ensure_sso_provider version base token s; _ ← ensure_login_button version base token (provider s); mret token)
    (λ _ l', sso_there l') l.
Proof.
  intros Hi Hs. eapply okay_then; [by apply sso_plugin_ok|]. intros tok l1 Hl1 Hp. cbn beta in Hp.
  eapply okay_then; [apply provider_ok; by eapply known_mono|]. intros ? l2 Hl2 Hv. cbn beta in Hv.
  eapply okay_then; [apply button_ok; eapply known_mono; [|exact Hs]; by etrans|]. intros ? l3 Hl3 Hb. cbn beta in Hb. apply okay_ret.
  exists s. split_and!; [|eapply plugin_mono; [|exact Hp]|by eapply provider_mono|done].
  - eapply known_mono; [|exact Hs]. repeat (etrans; [eassumption|]). done.
  - by etrans.
Qed.
Lemma password_ok l : okay (read_password env) any l.
Proof.
  unfold read_password. destruct (env "ADMIN_PASSWORD_FILE").
  - eapply okay_then; [apply secret_read_ok|]. intros ? l1 _ _. by apply okay_ret.
  - eapply okay_mono; [apply need_ok|done].
Qed.
Lemma jellyfin_ok l : okay (run version env) (λ _ l', jellyfin_ready l') l.
Proof.
  unfold run. fold base. change (var env "ADMIN_USER" "admin") with user_name. cbn zeta.
  eapply okay_then; [apply password_ok|]. intros password l1 _ _. eapply okay_then; [apply wait_jellyfin_ok|]. intros done_ l2 _ (v & Hv & Hi).
  apply (okay_then Ans _ _ _ any); [destruct done_; [by apply okay_ret|by eapply wizard_ok]|]. intros _ l3 _ _.
  eapply okay_then; [apply authenticate_ok|]. intros token l4 _ _. eapply okay_then; [apply libraries_ok|]. intros ? l5 Hl5 Hlib. cbn beta in Hlib.
  eapply okay_then; [apply maintainerr_step_ok|]. intros ? l6 Hl6 Hm. cbn beta in Hm. eapply okay_then; [apply need_ok|]. intros plugins l7 _ [Hp ->].
  apply (okay_then Ans _ _ _ (λ _ l', Forall (plugin_there l') plugins)).
  { case_bool_decide as En; [apply okay_ret; by rewrite En|]. apply plugins_ok. apply Forall_forall. intros p Hin. right. by rewrite Hp. }
  intros tok l7 Hl7 Hpl. eapply okay_then; [apply sso_settings_ok|]. intros sso l8 Hl8 Hs. cbn beta in Hs.
  apply (okay_then Ans _ _ _ (λ _ l', (is_Some (env "SSO_ISSUER") → sso_there l') ∧ settings_there l')).
  { eapply (okay_then Ans _ _ _ (λ _ l', is_Some (env "SSO_ISSUER") → sso_there l')).
    - destruct sso as [s|]; [|apply okay_ret; rewrite Hs; by intros []]. eapply okay_mono; [apply sso_ok; [|exact Hs]|done].
      destruct Hs as (i & ? & ? & Ei & _). by rewrite Ei.
    - intros tok' l9 Hl9 Hsso. eapply okay_mono; [apply settings_ok|]. intros ? l10 Hl10 Hset. split; [|exact Hset]. intros Hi'. eapply sso_there_mono; [exact Hl10|by apply Hsso]. }
  intros ? l9 Hl9 [Hsso Hset]. cbn beta in *. apply say_ok. assert (l6 `prefix_of` l9) as Hl by (repeat (etrans; [eassumption|]); done).
  split_and!; [|intros Hu; eapply maintainerr_mono; [exact Hl|by apply Hm]| |exact Hsso|exact Hset].
  - intros lib Hin. eapply library_mono; [|by apply Hlib]. by etrans.
  - exists plugins. split; [done|]. eapply Forall_impl; [exact Hpl|]. intros p Hp'. eapply plugin_mono; [|exact Hp']. by etrans.
Qed.

(** C30: Whatever is answered, every change of the bootstrap is called for by an earlier answer or acceptance: the wizard by a
    server that says it is not done, a library by a listing without it, a key by a listing without its generation, the deletion of
    a key by a listing of it as older once Maintainerr holds the current one, an installation by a listing without the
    plugin, a restart by an accepted installation, a configuration by one that is not in sync. All else only looks, signs in
    or waits. *)
Theorem jellyfin_due outside out l : ∃ k, (exec Ans outside (run version env out) l).1 = l ++ k ∧
  ∀ k1 e k2, k = k1 ++ e :: k2 → quiet (e_act e) ∨ due (l ++ k1) (e_act e).
Proof. destruct (exec_okay Ans allowed outside _ _ out l (jellyfin_ok l)) as (k & Ek & Hk). exists k. split; [exact Ek|]. exact Hk. Qed.

(** A run that ends without an error leaves every library there (listed or made), Maintainerr with the current key
    and the older ones deleted, every wanted plugin listed as usable, single sign-on set up, and every setting in sync or
    accepted. *)
Theorem jellyfin_complete outside out l out' : (exec Ans outside (run version env out) l).2 = Ok (out', Ok ()) →
  jellyfin_ready (exec Ans outside (run version env out) l).1.
Proof. intros E. destruct (exec_holds Ans allowed outside _ _ _ (jellyfin_ok l out)) as [HQ _]. rewrite E in HQ. by destruct HQ. Qed.
End due.

(** ** Setting Jellyfin up twice

    A concrete Jellyfin and Maintainerr that remember what they accepted: a run sets everything up, and the next one
    only looks and signs in. *)
#[local] Existing Instances Reference.serde Reference.libs.

Definition jf : string := "http://jellyfin".
Definition version : string := "1.0".
Definition env (name : string) : option string :=
  assoc name [("JELLYFIN_URL", "http://jellyfin/"); ("ADMIN_PASSWORD", "secret"); ("MAINTAINERR_URL", "http://maintainerr"); ("MAINTAINERR_KEY_GENERATION", "2");
    ("PLUGINS", "Webhook|71552a5a|18"); ("SSO_ISSUER", "https://keycloak/realms/x/"); ("SSO_SECRET_FILE", "/secret"); ("ENCODING_HW_ACCEL", "vaapi");
    ("REMOTE_BITRATE_LIMIT", "8000000"); ("ENABLE_CONTENT_DOWNLOADING", "true")].

(** The accepted requests of a method and URL. *)
Definition sent (method url : string) (e : Trace.Event Ans) : option Req :=
  match e with
  | mkEvent (Http rq) a => match (a : Result Resp string) with
      | Ok _ => if String.eqb (rq_method rq) method && starts_with url (rq_url rq) then Some rq else None
      | Err _ => None
      end
  | _ => None
  end.
Definition posted (l : Log) (url : string) : list Req := omap (sent "POST" url) l.
Definition json_of (rq : Req) : option Value := match rq_body rq with JsonBody v => Some v | _ => None end.
(** The last body posted to [url], or [dflt]. *)
Definition stored (l : Log) (method url : string) (dflt : Value) : Value := List.last (omap json_of (omap (sent method url) l)) dflt.
Definition q (name : string) (rq : Req) : string := default "" (assoc name (rq_query rq)).
Definition old_key : Value := Object [("AccessToken", Str "12345678-old"); ("AppName", Str "Maintainerr")].
Definition kept_keys (l : Log) : list Value :=
  List.filter (λ v, match omap (sent "DELETE" (jf +:+ "/Auth/Keys/" +:+ default "" (as_str v.["AccessToken"]))) l with [] => true | _ => false end)
    (old_key :: ((λ rq, Object [("AccessToken", Str "abcdefgh-new"); ("AppName", Str (q "app" rq))]) <$> posted l (jf +:+ "/Auth/Keys"))).
Definition answer (l : Log) (url : string) : Value :=
  let at_ path := String.eqb url (jf +:+ path) in
  if at_ "/System/Info/Public" then Object [("StartupWizardCompleted", Bool (match posted l (jf +:+ "/Startup/Complete") with [] => false | _ => true end))]
  else if at_ "/Library/VirtualFolders" then Array ((λ rq, Object [("Name", Str (q "name" rq))]) <$> posted l url)
  else if at_ "/Auth/Keys" then Object [("Items", Array (kept_keys l))]
  else if at_ "/Plugins" then Array ((λ rq, Object [("Id", Str (q "assemblyGuid" rq)); ("Status", Str "Active")]) <$> posted l (jf +:+ "/Packages/Installed/"))
  else if at_ "/sso/OID/Get" then Object [("keycloak", stored l "POST" (jf +:+ "/sso/OID/Add/keycloak") Null)]
  else if at_ "/Users" then Array [Object [("Id", Str "7"); ("Policy", stored l "POST" (jf +:+ "/Users/7/Policy") (Object [("IsAdministrator", Bool true)]))]]
  else if at_ "/Repositories" then stored l "POST" url (Array [])
  else if starts_with "http://maintainerr" url then stored l "PATCH" url (Object [])
  else stored l "POST" url (Object [("Kept", Bool true)]).
Definition outside (l : Log) (x : Act) : Ans x :=
  match x return Ans x with
  | Http rq =>
      Ok (mkResp 200 [] (Ok (Reference.text (if ends_with "AuthenticateByName" (rq_url rq) then Object [("AccessToken", Str "t")] else answer l (rq_url rq)))))
  | ReadFile _ => Some "sso-secret"
  | x => Reference.outside l x
  end.
Definition first : Log := (exec Ans outside (run version env []) []).1.
Definition second : Log := (exec Ans outside (run version env []) first).1.
Definition changes (l : Log) : list (string * string) := omap change l.


(** The first run makes the libraries, moves Maintainerr to its second key before it deletes the first, and installs both plugins. *)
Example jellyfin_twice :
  let post path := ("POST", jf +:+ path) in
  changes first =
    [post "/Startup/Configuration"; post "/Startup/User"; post "/Startup/Complete"; post "/Users/AuthenticateByName"] ++ repeat (post "/Library/VirtualFolders") 7 ++
    [post "/Auth/Keys"; ("PATCH", "http://maintainerr/api/settings"); ("DELETE", jf +:+ "/Auth/Keys/12345678-old");
     post "/Packages/Installed/Webhook"; post "/System/Restart"; post "/Users/AuthenticateByName";
     post "/Repositories"; post "/Packages/Installed/SSO%20Authentication"; post "/System/Restart"; post "/Users/AuthenticateByName";
     post "/sso/OID/Add/keycloak"; post "/System/Configuration/branding";
     post "/System/Configuration/encoding"; post "/System/Configuration"; post "/Users/7/Policy"] ∧
  changes (drop (length first) second) = [post "/Users/AuthenticateByName"].
Proof. vm_compute. done. Qed.
Lemma jellyfin_complete_witness : jellyfin_ready version env first.
Proof. unfold first. eapply (jellyfin_complete version env outside [] []). vm_compute. reflexivity. Defined.
