(* ===== verification/SsoToken.v ===== *)
(** * Tokens for command lines ([apps/sso-token/src/main.rs], [store.rs])

    The store (the keychain's tool, else a private file), the device grant, silent refreshing and logout, over any
    answers of the outside. Request timeouts and proxies are left out; of the platforms, Unix with ([macos]) and without
    the macOS keychain. Times are in seconds, in 64 bits that wrap as in a release build. *)

From Stdlib Require Import Ascii.
From stdpp Require Import options.
From S2P Require Import Prelude Text Json Codec Threads Trace Serde.

Inductive IoError : Type := NotFound | OtherIo (e : string).
(** A reply with a status of 400 or more is an error to the HTTP client. *)
Record Reply : Type := mkReply { rp_status : N; rp_text : Result string string }.
(** The answer of an MCP endpoint: its lines and text end with an error when reading does. *)
Record McpReply : Type := mkMcpReply { mr_status : N; mr_session : option string; mr_type : string; mr_lines : list (Result string string); mr_text : Result string string }.
Inductive Act : Type :=
  | Tool (program : string) (args : list string) (stdin : option string)
  | OpenUrl (program url : string)
  | ReadFile (path : string)
  | RemoveFile (path : string)
  | CreateDir (path : string)
  | OpenTrunc (path : string)
  | WriteAll (path text : string)
  | SyncAll (path : string)
  | RenameFile (from to : string)
  | Post (url : string) (form : list (string * string))
  | Now
  | SleepSecs (n : N)
  | PrintOut (line : string)
  | PrintErr (line : string)
  (** of [mcp.rs] *)
  | Begin (i : nat)
  | Spawn (i : nat)
  | Finish (i : nat)
  | Join (i : nat)
  | GetSession
  | SetSession (id : string)
  | Emit (line : string)
  | Forward (i : nat) (url token : string) (session : option string) (body : string)
  | EndSession (url token session : string).
(** A tool answers with what it printed, when it could be started, read its input and succeeded. *)
Definition Ans (x : Act) : Type :=
  match x with
  | Tool _ _ _ => option string
  | ReadFile _ => Result string IoError
  | RemoveFile _ => Result () IoError
  | CreateDir _ | OpenTrunc _ | WriteAll _ _ | SyncAll _ | RenameFile _ _ => Result () IoError
  | Post _ _ => Result Reply string
  | Now => N
  | GetSession => option string
  | Forward _ _ _ _ _ => Result McpReply string
  | _ => ()
  end.
Notation Task := (M Ans (St := ()) (Fa := string)).
Notation Log := (list (Trace.Event Ans)).
Definition bail {A} (msg : string) : Task A := raise Ans msg.
Definition context {A} (x : option A) (msg : string) : Task A := match x with Some a => mret a | None => bail msg end.
Definition io {A} (r : Result A IoError) (what : string) : Task A :=
  match r with Ok a => mret a | Err NotFound => bail (what +:+ ": not found") | Err (OtherIo e) => bail (what +:+ ": " +:+ e) end.
Definition eprint (line : string) : Task () := do Ans (PrintErr line).

(** ** Storage *)

Section store.
Context (macos : bool) (env : string → option string).
Implicit Types (account : string).

Definition SERVICE : string := "sso-token".
Definition SECURITY : string := "/usr/bin/security".
(** [run] of [store.rs] *)
Definition run_tool (program : string) (args : list string) (stdin : option string) : Task (option string) := do Ans (Tool program args stdin).
Definition security_get account : Task (option string) := run_tool SECURITY ["find-generic-password"; "-s"; SERVICE; "-a"; account; "-w"] None.
Definition add_command account secret : string :=
  let q s := quote +:+ s +:+ quote in
  "add-generic-password -U -s " +:+ q SERVICE +:+ " -a " +:+ q account +:+ " -l " +:+ q (SERVICE +:+ " " +:+ account) +:+ " -X " +:+ hex secret +:+ String newline "".
Definition security_set account secret : Task bool :=
  r ← run_tool SECURITY ["-i"] (Some (add_command account secret));
  match r with
  | None => mret false
  | Some _ => got ← security_get account; mret (bool_decide (trim <$> got = Some secret))
  end.
Definition security_delete account : Task () := _ ← run_tool SECURITY ["delete-generic-password"; "-s"; SERVICE; "-a"; account] None; mret ().
Definition secret_tool_get account : Task (option string) := run_tool "secret-tool" ["lookup"; "service"; SERVICE; "account"; account] None.
Definition secret_tool_set account secret : Task bool :=
  r ← run_tool "secret-tool" ["store"; "--label"; SERVICE +:+ " " +:+ account; "service"; SERVICE; "account"; account] (Some secret);
  mret (bool_decide (is_Some r)).
Definition secret_tool_delete account : Task () := _ ← run_tool "secret-tool" ["clear"; "service"; SERVICE; "account"; account] None; mret ().
Definition keychain_get account : Task (option string) := if macos then security_get account else secret_tool_get account.
Definition keychain_set account secret : Task bool := if macos then security_set account secret else secret_tool_set account secret.
Definition keychain_delete account : Task () := if macos then security_delete account else secret_tool_delete account.
(** [PathBuf::join] of a relative path *)
Definition path_join (a b : string) : string := if bool_decide (a = "") then b else if ends_with "/" a then a +:+ b else a +:+ "/" +:+ b.
Definition state_dir : option string :=
  match env "XDG_STATE_HOME" with
  | Some dir => if bool_decide (dir = "") then (λ home, path_join home ".local/state") <$> env "HOME" else Some dir
  | None => (λ home, path_join home ".local/state") <$> env "HOME"
  end.
Definition file_stem account : string := str ((λ c, if is_ascii_alphanumeric c then c else "_"%char) <$> chars account).
(** The directory, and the file's stem: it holds no dot, so [with_extension("tmp")] replaces [json]. *)
Definition file account : Task (string * string) :=
  state ← context state_dir "HOME is not set"; mret (path_join state SERVICE, file_stem account).
Definition json_path (f : string * string) : string := path_join f.1 (f.2 +:+ ".json").
Definition tmp_path (f : string * string) : string := path_join f.1 (f.2 +:+ ".tmp").

Definition store_get account : Task (option string) :=
  k ← keychain_get account;
  match k with
  | Some secret =>
      if negb (bool_decide (trim secret = "")) then mret (Some (trim secret))
      else f ← file account; r ← do Ans (ReadFile (json_path f)); match r with Ok s => mret (Some s) | Err NotFound => mret None | Err (OtherIo e) => bail ("reading " +:+ json_path f) end
  | None => f ← file account; r ← do Ans (ReadFile (json_path f)); match r with Ok s => mret (Some s) | Err NotFound => mret None | Err (OtherIo e) => bail ("reading " +:+ json_path f) end
  end.
Definition write_private (f : string * string) secret : Task () :=
  r ← do Ans (CreateDir f.1); _ ← io r "create";
  r ← do Ans (OpenTrunc (tmp_path f)); _ ← io r "open";
  r ← do Ans (WriteAll (tmp_path f) secret); _ ← io r "write";
  r ← do Ans (SyncAll (tmp_path f)); _ ← io r "sync";
  r ← do Ans (RenameFile (tmp_path f) (json_path f)); io r "rename".
Definition store_set account secret : Task () :=
  f ← file account;
  stored ← keychain_set account secret;
  if stored : bool then _ ← do Ans (RemoveFile (json_path f)); mret ()
  else write_private f secret.
Definition store_delete account : Task () :=
  _ ← keychain_delete account;
  f ← file account;
  r ← do Ans (RemoveFile (json_path f));
  match r with Ok _ | Err NotFound => mret () | Err (OtherIo e) => bail e end.
End store.

(** ** The client *)

Record Tokens : Type := mkTokens { refresh_token : string; access_token : string; expires_at : N }.
Record TokenResponse : Type := mkTokenResponse { tr_access : string; tr_expires_in : N; tr_refresh : option string }.
Record OAuthError : Type := mkOAuthError { oe_error : string; oe_description : option string }.
Record DeviceAuth : Type := mkDeviceAuth { device_code : string; user_code : string; verification_uri : string; verification_uri_complete : option string; da_expires_in : N; da_interval : option N }.
Definition tokens_of (v : Value) : option Tokens :=
  if shaped v 3 then
    r ← field v "refresh_token" 0 ≫= as_str; a ← field v "access_token" 1 ≫= as_str; e ← field v "expires_at" 2 ≫= read_u64; Some (mkTokens r a e)
  else None.
Definition token_response (v : Value) : option TokenResponse :=
  if shaped_exactly v 3 then
    a ← field v "access_token" 0 ≫= as_str; e ← field v "expires_in" 1 ≫= read_u64; r ← opt_string (field v "refresh_token" 2); Some (mkTokenResponse a e r)
  else None.
Definition oauth_error (v : Value) : option OAuthError :=
  if shaped_exactly v 2 then e ← field v "error" 0 ≫= as_str; d ← opt_string (field v "error_description" 1); Some (mkOAuthError e d) else None.
Definition device_auth (v : Value) : option DeviceAuth :=
  if shaped_exactly v 6 then
    d ← field v "device_code" 0 ≫= as_str; u ← field v "user_code" 1 ≫= as_str; l ← field v "verification_uri" 2 ≫= as_str;
    c ← opt_string (field v "verification_uri_complete" 3); e ← field v "expires_in" 4 ≫= read_u64; i ← opt_u64 (field v "interval" 5);
    Some (mkDeviceAuth d u l c e i)
  else None.
(** As written: the fields in the structure's order. *)
Definition tokens_value (t : Tokens) : Value :=
  Object [("refresh_token", Str (refresh_token t)); ("access_token", Str (access_token t)); ("expires_at", Number (PosInt (expires_at t)))].
Definition SCOPES : string := "openid profile email groups offline_access".
Definition MARGIN : N := 30.
Definition describe (e : OAuthError) : string :=
  match oe_description e with Some d => oe_error e +:+ " (" +:+ d +:+ ")" | None => oe_error e end.
Definition u64_add (a b : N) : N := ((a + b) mod 2 ^ 64)%N.

Record Client : Type := mkClient { issuer : string; client_id : string; account : string }.
Definition client_of (env : string → option string) : option Client :=
  issuer ← env "SSO_ISSUER";
  let issuer := trim_end_matches (λ c, bool_decide (c = "/"%char)) issuer in
  let client_id := default "cli" (env "SSO_CLIENT_ID") in
  Some (mkClient issuer client_id (client_id +:+ "@" +:+ issuer)).
Definition from_env (env : string → option string) : Task Client := context (client_of env) "SSO_ISSUER is not set".

Section client.
Context `{SerdeJson} (from_str : string → Result Value string) (macos : bool) (env : string → option string).
Implicit Types (c : Client).

Definition parse {A} (f : Value → option A) (text : string) : option A := match from_str text with Ok v => f v | Err _ => None end.
Definition endpoint c (path : string) : string := issuer c +:+ "/protocol/openid-connect/" +:+ path.
Definition is_error_status (code : N) : bool := (400 <=? code)%N.
Definition post {A} (f : Value → option A) c (path : string) (form : list (string * string)) : Task (Result A OAuthError) :=
  r ← do Ans (Post (endpoint c path) (form ++ [("client_id", client_id c)]));
  match r with
  | Err e => bail (path +:+ ": request failed")
  | Ok r =>
      if is_error_status (rp_status r) then
        let body := match rp_text r with Ok t => t | Err _ => "" end in
        match parse oauth_error body with
        | Some e => mret (Err e)
        | None => bail (path +:+ ": HTTP " +:+ pretty (rp_status r) +:+ ": " +:+ body)
        end
      else match rp_text r with
           | Ok t => match parse f t with Some a => mret (Ok a) | None => bail "Failed to read JSON" end
           | Err e => bail e
           end
  end.
Definition now : Task N := do Ans Now.
Definition save c (t : TokenResponse) (previous_refresh : option string) : Task string :=
  refresh_token ← context (match tr_refresh t with Some r => Some r | None => previous_refresh end) "token response carried no refresh token";
  n ← now;
  let tokens := mkTokens refresh_token (tr_access t) (u64_add n (tr_expires_in t)) in
  _ ← store_set macos env (account c) (to_string (tokens_value tokens));
  mret (tr_access t).
Definition open_browser (url : string) : Task () := do Ans (OpenUrl (if macos then "open" else "xdg-open") url).
Definition device_grant (a : DeviceAuth) : list (string * string) :=
  [("grant_type", "urn:ietf:params:oauth:grant-type:device_code"); ("device_code", device_code a)].
(** The rounds left are at most the seconds to the deadline and one: each waits a second at least. *)
Fixpoint poll_login (rounds : nat) c (a : DeviceAuth) (deadline interval : N) : Task () :=
  match rounds with
  | O => bail "out of rounds"
  | S rounds =>
      n ← now;
      if (n <? deadline)%N then
        _ ← do Ans (SleepSecs interval);
        r ← post token_response c "token" (device_grant a);
        match r with
        | Ok t => _ ← save c t None; eprint "Logged in; `sso-token` now prints an access token."
        | Err e =>
            if String.eqb (oe_error e) "authorization_pending" then poll_login rounds c a deadline interval
            else if String.eqb (oe_error e) "slow_down" then poll_login rounds c a deadline (u64_add interval 5)
            else bail ("login: " +:+ describe e)
        end
      else bail "login: the code expired before it was confirmed"
  end.
Definition login c : Task () :=
  r ← post device_auth c "auth/device" [("scope", SCOPES)];
  match r with
  | Err e => bail ("device authorization: " +:+ describe e)
  | Ok a =>
      let url := default (verification_uri a) (verification_uri_complete a) in
      _ ← eprint ("Open " +:+ url); _ ← eprint ("and confirm the code " +:+ user_code a);
      _ ← open_browser url;
      n ← now;
      poll_login (S (S (N.to_nat (da_expires_in a)))) c a (u64_add n (da_expires_in a)) (N.max 1 (default 5%N (da_interval a)))
  end.
Definition refresh_grant (t : Tokens) : list (string * string) := [("grant_type", "refresh_token"); ("refresh_token", refresh_token t)].
Definition token c : Task string :=
  raw ← store_get macos env (account c);
  raw ← context raw "not logged in; run `sso-token login`";
  tokens ← context (parse tokens_of raw) "stored tokens are unreadable; run `sso-token login`";
  n ← now;
  if (u64_add n MARGIN <? expires_at tokens)%N then mret (access_token tokens)
  else
    r ← post token_response c "token" (refresh_grant tokens);
    match r with
    | Ok t => save c t (Some (refresh_token tokens))
    | Err e => if String.eqb (oe_error e) "invalid_grant" then bail ("session expired (" +:+ describe e +:+ "); run `sso-token login`") else bail ("refresh: " +:+ describe e)
    end.
Definition revoke_form c (t : Tokens) : list (string * string) := [("token", refresh_token t); ("token_type_hint", "refresh_token"); ("client_id", client_id c)].
Definition logout c : Task () :=
  raw ← store_get macos env (account c);
  _ ← (match raw ≫= parse tokens_of with
       | Some t =>
           r ← do Ans (Post (endpoint c "revoke") (revoke_form c t));
           match r with
           | Ok r => if is_error_status (rp_status r) then eprint "warning: revoking the session failed" else mret ()
           | Err e => eprint "warning: revoking the session failed"
           end
       | None => mret ()
       end : Task ());
  _ ← store_delete macos env (account c);
  eprint "Logged out.".
End client.

(** ** The MCP bridge ([apps/sso-token/src/mcp.rs]) and the command line ([main])

    Each message of standard input is forwarded with a fresh token: [initialize] and notifications in order, the rest on
    threads of their own. The threads share the session's identifier and standard output, one line at a time; an
    answer's lines are taken as read when it arrives. *)

Section mcp.
Context `{SerdeJson} (from_str : string → Result Value string) (macos : bool) (env : string → option string).
Context (c : Client) (url : string).
Implicit Types (i : nat) (line : string).

Definition emit (msg : string) : Task () := do Ans (Emit msg).
(** Re-serialised, so that every message is one line. *)
Definition emit_json (raw : string) : Task () :=
  match from_str raw with
  | Ok v => emit (to_string v)
  | Err e => eprint ("sso-token mcp: dropping a non-JSON message (" +:+ e +:+ ")")
  end.
Definition error_message (id : Value) (err : string) : Value :=
  Object [("error", Object [("code", Number (NegInt (-32603))); ("message", Str err)]); ("id", id); ("jsonrpc", Str "2.0")].
Definition fail_with (id : Value) (err : string) : Task () :=
  _ ← eprint ("sso-token mcp: " +:+ err);
  match id with Null => mret () | _ => emit (to_string (error_message id err)) end.
(** The lines of an event stream, with the event's data so far. *)
Fixpoint sse (data : string) (ls : list (Result string string)) : Task () :=
  match ls with
  | [] => if bool_decide (data = "") then mret () else emit_json data
  | Err e :: _ => bail e
  | Ok line :: ls =>
      match strip_prefix "data:" line with
      | Some d => sse ((if bool_decide (data = "") then "" else data +:+ String newline "") +:+ default d (strip_prefix " " d)) ls
      | None => if bool_decide (line = "") && negb (bool_decide (data = "")) then _ ← emit_json data; sse "" ls else sse data ls
      end
  end.
Definition post_message i (body : string) : Task () :=
  t ← token from_str macos env c;
  session ← do Ans GetSession;
  r ← do Ans (Forward i url t session body);
  match r with
  | Err e => bail e
  | Ok r =>
      if is_error_status (mr_status r) then bail ("HTTP " +:+ pretty (mr_status r) +:+ " from " +:+ url +:+ ": " +:+ match mr_text r with Ok t => t | Err _ => "" end)
      else
        _ ← (match mr_session r with Some id => do Ans (SetSession id) | None => mret () end : Task ());
        if (mr_status r =? 202)%N then mret ()
        else if String.eqb (mr_type r) "text/event-stream" then sse "" (mr_lines r)
        else
          match mr_text r with
          | Err e => bail e
          | Ok text => if bool_decide (trim text = "") then mret () else emit_json text
          end
  end.
Definition id_of line : Value := match from_str line with Ok (Object m) => default Null (assoc "id" m) | _ => Null end.
Definition forward i line : Task () :=
  r ← catch Ans (post_message i line);
  match r with Ok _ => mret () | Err e => fail_with (id_of line) e end.
Definition in_order line : bool :=
  match from_str line with
  | Ok v => bool_decide (as_str v.["method"] = Some "initialize") || match v with Object m => negb (bool_decide (is_Some (assoc "id" m))) | _ => true end
  | Err _ => false
  end.
Definition worker i line : Task () := _ ← do Ans (Begin i); _ ← forward i line; do Ans (Finish i).
(** The main thread over the lines of standard input, numbered; the threads it started. *)
Fixpoint dispatch i (input : list (Result string string)) (workers : list nat) : Task (list nat) :=
  match input with
  | [] => mret workers
  | Err e :: _ => bail e
  | Ok line :: input =>
      if bool_decide (trim line = "") then dispatch (S i) input workers
      else if in_order line then _ ← do Ans (Begin i); _ ← forward i line; dispatch (S i) input workers
      else _ ← do Ans (Spawn i); dispatch (S i) input (workers ++ [i])
  end.
Definition end_session : Task () :=
  session ← do Ans GetSession;
  match session with
  | None => mret ()
  | Some id =>
      t ← catch Ans (token from_str macos env c);
      match t with Ok t => do Ans (EndSession url t id) | Err _ => mret () end
  end.
Definition mcp_run (input : list (Result string string)) : Task () :=
  _ ← token from_str macos env c;
  workers ← dispatch 0 input [];
  _ ← for_each Ans workers (λ i, do Ans (Join i));
  end_session.
End mcp.

Section main.
Context `{SerdeJson} (from_str : string → Result Value string) (macos : bool) (env : string → option string).
Definition USAGE : string := "usage: sso-token [token|login|logout|mcp <url>]".
(** The main thread, over the lines that standard input will give. *)
Definition main (args : list string) (input : list (Result string string)) : Task () :=
  c ← from_env env;
  match args with
  | [] => t ← token from_str macos env c; do Ans (PrintOut t)
  | command :: args =>
      if String.eqb command "token" then t ← token from_str macos env c; do Ans (PrintOut t)
      else if String.eqb command "login" then login from_str macos env c
      else if String.eqb command "logout" then logout from_str macos env c
      else if String.eqb command "mcp" then url ← context (head args) USAGE; mcp_run from_str macos env c url input
      else if bool_decide (command ∈ ["-h"; "--help"; "help"]) then eprint USAGE
      else bail ("unknown command " +:+ command +:+ "; " +:+ USAGE)
  end.
End main.

(** ** Event streams *)

(** A line of an event: data, with or without the space after the colon, or another field or a comment. *)
Inductive EventLine : Type := Data (space : bool) (d : string) | Other (line : string).
Definition line_of (x : EventLine) : string := match x with Data true d => "data: " +:+ d | Data false d => "data:" +:+ d | Other line => line end.
Definition data_of (x : EventLine) : option string := match x with Data _ d => Some d | Other _ => None end.
(** Without the space the data must not begin with one; another line is neither empty nor data. *)
Definition line_ok (x : EventLine) : bool :=
  match x with
  | Data true _ => true
  | Data false d => negb (starts_with " " d)
  | Other line => negb (bool_decide (line = "")) && negb (starts_with "data:" line)
  end.
Definition event_ok (e : list EventLine) : bool :=
  forallb line_ok e && match omap data_of e with d :: _ => negb (bool_decide (d = "")) | [] => false end.
Definition event_data (e : list EventLine) : string := join (String newline "") (omap data_of e).
Definition stream (es : list (list EventLine)) : list (Result string string) := Ok <$> concat ((λ e, (line_of <$> e) ++ [""]) <$> es).

Section streams.
Context `{SerdeJson} (from_str : string → Result Value string).
Notation sse := (sse from_str).
Notation emit_json := (emit_json from_str).
Notation nl := (String newline "").

Definition more (data : string) (ds : list string) : string := foldl (λ s d, s +:+ nl +:+ d) data ds.
Lemma more_nonempty data ds : data ≠ "" → more data ds ≠ "".
Proof. revert data. induction ds as [|d ds IH]; intros data Hd; [done|]. cbn. apply IH. by destruct data. Qed.
Lemma join_more d ds : join nl (d :: ds) = more d ds.
Proof.
  unfold more. revert d. induction ds as [|x ds IH]; intros d; [done|]. change (join nl (d :: x :: ds)) with (d +:+ nl +:+ join nl (x :: ds)). rewrite IH.
  cbn [foldl]. clear IH. revert x. induction ds as [|y ds IH]; intros x; [done|]. cbn [foldl]. rewrite (IH (x +:+ nl +:+ y)). f_equal. by rewrite !str_app_assoc.
Qed.
Lemma not_stripped p s : starts_with p s = false → strip_prefix p s = None.
Proof. intros Hs. destruct (strip_prefix p s) eqn:E; [|done]. apply strip_prefix_Some in E as ->. by rewrite starts_with_prefix in Hs. Qed.
(** One line of a good event, with the data so far. *)
Definition fed (data : string) (x : EventLine) : string := match x with Data _ d => if bool_decide (data = "") then d else data +:+ nl +:+ d | Other _ => data end.
Lemma sse_line data x rest : line_ok x = true → sse data (Ok (line_of x) :: rest) = sse (fed data x) rest.
Proof.
  assert (∀ d, (if bool_decide (data = "") then "" else data +:+ nl) +:+ d = fed data (Data true d)) as Hd.
  { intros d. cbn [fed]. case_bool_decide; [done|]. by rewrite str_app_assoc. }
  destruct x as [[|] d|line]; cbn [line_ok line_of fed sse]; intros Hl.
  - assert (strip_prefix "data:" ("data: " +:+ d) = Some (" " +:+ d)) as -> by by apply strip_prefix_Some.
    assert (strip_prefix " " (" " +:+ d) = Some d) as -> by by apply strip_prefix_Some. cbn [default]. by rewrite Hd.
  - assert (strip_prefix "data:" ("data:" +:+ d) = Some d) as -> by by apply strip_prefix_Some.
    rewrite not_stripped by (by apply negb_true_iff). cbn [default]. by rewrite Hd.
  - apply andb_true_iff in Hl as [H1%negb_true_iff H2%negb_true_iff]. rewrite (not_stripped _ _ H2), H1. done.
Qed.
Lemma sse_fed data e rest : forallb line_ok e = true → sse data ((Ok <$> (line_of <$> e)) ++ rest) = sse (foldl fed data e) rest.
Proof.
  revert data. induction e as [|x e IH]; intros data; [done|]. cbn [forallb]. intros [Hx He]%andb_true_iff. cbn [fmap list_fmap app foldl].
  rewrite sse_line by done. by apply IH.
Qed.
Lemma fed_more data e : data ≠ "" → foldl fed data e = more data (omap data_of e).
Proof.
  revert data. induction e as [|x e IH]; intros data Hd; [done|]. destruct x as [s d|line]; cbn [foldl fed omap list_omap data_of more].
  - rewrite bool_decide_eq_false_2 by done. change (foldl fed (data +:+ nl +:+ d) e = more (data +:+ nl +:+ d) (omap data_of e)). apply IH. by destruct data.
  - by apply IH.
Qed.
Lemma fed_event e : event_ok e = true → foldl fed "" e = event_data e ∧ event_data e ≠ "".
Proof.
  unfold event_ok, event_data. intros [_ Hd]%andb_true_iff. induction e as [|[s d|line] e IH]; [done| |exact (IH Hd)].
  change (omap data_of (Data s d :: e)) with (d :: omap data_of e) in *. apply negb_true_iff, bool_decide_eq_false in Hd.
  rewrite join_more. cbn [foldl fed]. rewrite bool_decide_eq_true_2 by done. rewrite fed_more by done. split; [done|by apply more_nonempty].
Qed.
Lemma sse_event e rest : event_ok e = true → sse "" ((Ok <$> (line_of <$> e)) ++ Ok "" :: rest) = (_ ← emit_json (event_data e); sse "" rest).
Proof.
  intros He. destruct (fed_event e He) as [Hf Hn]. apply andb_true_iff in He as [Hl _]. rewrite sse_fed, Hf by done. cbn [sse].
  rewrite not_stripped by done. by rewrite (bool_decide_eq_false_2 _ Hn).
Qed.

Definition emitted (es : list (list EventLine)) (k : Task ()) : Task () := foldr (λ e k, _ ← emit_json (event_data e); k) k es.
(** The messages of an event stream come out one by one, in order: each event's data joined, whatever other fields and
    comments stand between; the last event also when the stream ends without its empty line. *)
Theorem sse_messages (es : list (list EventLine)) (e : list EventLine) : forallb event_ok es = true → event_ok e = true →
  sse "" (stream es) = emitted es (mret ()) ∧ sse "" (stream es ++ (Ok <$> (line_of <$> e))) = emitted es (emit_json (event_data e)).
Proof.
  intros Hes He. assert (∀ rest, sse "" (stream es ++ rest) = emitted es (sse "" rest)) as H0.
  { intros rest. induction es as [|x es IH]; [done|]. apply andb_true_iff in Hes as [Hx Hes]. 
    assert (stream (x :: es) ++ rest = (Ok <$> (line_of <$> x)) ++ Ok "" :: stream es ++ rest) as ->.
    { unfold stream. cbn [fmap list_fmap concat]. rewrite !fmap_app, <- !app_assoc. done. }
    rewrite sse_event by done. by rewrite IH. }
  split; [by rewrite <- (app_nil_r (stream es)), H0|]. rewrite H0. f_equal. destruct (fed_event e He) as [Hf Hn]. apply andb_true_iff in He as [Hl _].
  rewrite <- (app_nil_r (_ <$> _)), sse_fed, Hf by done. cbn [sse]. by rewrite bool_decide_eq_false_2.
Qed.
End streams.

Lemma sse_messages_witness :
  let e := [Other ": ping"; Data true "{"; Other "event: message"; Data false "}"] in let read := λ t : string, Ok (Str t) : Result Value string in
  sse (H := Json.Reference.serde) read "" (stream [e]) = emitted (H := Json.Reference.serde) read [e] (mret ()) ∧
  sse (H := Json.Reference.serde) read "" (stream [e] ++ (Ok <$> (line_of <$> [Data true "1"]))) = emitted (H := Json.Reference.serde) read [e] (emit_json (H := Json.Reference.serde) read "1").
Proof. apply (sse_messages (H := Json.Reference.serde) _ [[Other ": ping"; Data true "{"; Other "event: message"; Data false "}"]] [Data true "1"]); reflexivity. Defined.
