(* ===== verification/SsoSafe.v ===== *)
(** * Where the tokens go

    What [sso-token] sends, stores, prints, says and opens, whatever it is answered: refresh tokens only to the issuer's
    endpoints and the store, a printed or forwarded access token is good, and no message or error is made of either. *)

From Stdlib Require Import Ascii.
From stdpp Require Import options.
From S2P Require Import Prelude Text F64 Json Codec Threads Trace Serde SsoToken.

Section spec.
Context `{SerdeJson} (from_str : string → Result Value string) (macos : bool) (env : string → option string) (c : Client).
(** The arguments of the command line, an MCP server's address among them, and what the client sends *)
Context (args : list string) (url : string) (input : list (Result string string)).
Implicit Types (l : Log) (tk : Tokens).

Definition my_file : option (string * string) := (λ state, (path_join state SERVICE, file_stem (account c))) <$> state_dir env.
Definition lookup : Act := if macos then Tool SECURITY ["find-generic-password"; "-s"; SERVICE; "-a"; account c; "-w"] None
  else Tool "secret-tool" ["lookup"; "service"; SERVICE; "account"; account c] None.
Definition clear : Act := if macos then Tool SECURITY ["delete-generic-password"; "-s"; SERVICE; "-a"; account c] None
  else Tool "secret-tool" ["clear"; "service"; SERVICE; "account"; account c] None.
Definition keep (s : string) : Act := if macos then Tool SECURITY ["-i"] (Some (add_command (account c) s))
  else Tool "secret-tool" ["store"; "--label"; SERVICE +:+ " " +:+ account c; "service"; SERVICE; "account"; account c] (Some s).
Definition tool_gave l (x : Act) (out : string) : Prop :=
  ∃ p args stdin, x = Tool p args stdin ∧ mkEvent (Tool p args stdin) (Some out : Ans (Tool p args stdin)) ∈ l.
Definition io_done l (x : Act) : Prop :=
  match x with
  | OpenTrunc p => mkEvent (OpenTrunc p) (Ok () : Ans (OpenTrunc p)) ∈ l
  | WriteAll p s => mkEvent (WriteAll p s) (Ok () : Ans (WriteAll p s)) ∈ l
  | SyncAll p => mkEvent (SyncAll p) (Ok () : Ans (SyncAll p)) ∈ l
  | RenameFile p q => mkEvent (RenameFile p q) (Ok () : Ans (RenameFile p q)) ∈ l
  | _ => False
  end.
(** What the store gave, and as tokens. *)
Definition gave l (raw : string) : Prop :=
  (∃ out, tool_gave l lookup out ∧ trim out ≠ "" ∧ raw = trim out) ∨
  (∃ f, my_file = Some f ∧ mkEvent (ReadFile (json_path f)) (Ok raw : Ans (ReadFile (json_path f))) ∈ l).
Definition stored l tk : Prop := ∃ raw, gave l raw ∧ parse from_str tokens_of raw = Some tk.
(** What the issuer replied. *)
Definition replied l (path : string) (form : list (string * string)) (text : string) : Prop := ∃ r,
  mkEvent (Post (endpoint c path) (form ++ [("client_id", client_id c)])) (Ok r : Ans (Post _ _)) ∈ l ∧ is_error_status (rp_status r) = false ∧ rp_text r = Ok text.
Definition granted l (t : TokenResponse) : Prop := ∃ form text, replied l "token" form text ∧ parse from_str token_response text = Some t.
Definition offered l (a : DeviceAuth) : Prop := ∃ text, replied l "auth/device" [("scope", SCOPES)] text ∧ parse from_str device_auth text = Some a.
Definition told l (n : N) : Prop := mkEvent Now (n : Ans Now) ∈ l.
(** The tokens of a grant; without a new refresh token, with the stored one. *)
Definition of_grant l tk : Prop := ∃ t n, granted l t ∧ told l n ∧ access_token tk = tr_access t ∧ expires_at tk = u64_add n (tr_expires_in t) ∧
  (tr_refresh t = Some (refresh_token tk) ∨ (tr_refresh t = None ∧ ∃ old, stored l old ∧ refresh_token tk = refresh_token old)).
Definition secret l (s : string) : Prop := ∃ tk, of_grant l tk ∧ s = to_string (tokens_value tk).
Definition saved l tk : Prop := let s := to_string (tokens_value tk) in
  (∃ out, tool_gave l (keep s) out) ∨
  (∃ f, my_file = Some f ∧ io_done l (WriteAll (tmp_path f) s) ∧ io_done l (SyncAll (tmp_path f)) ∧ io_done l (RenameFile (tmp_path f) (json_path f))).
(** An access token to use: stored with more than the margin left, or granted and saved. *)
Definition fresh l (t : string) : Prop :=
  (∃ tk n, stored l tk ∧ told l n ∧ (u64_add n MARGIN < expires_at tk)%N ∧ t = access_token tk) ∨ (∃ tk, of_grant l tk ∧ saved l tk ∧ t = access_token tk).

Inductive sends l : string → list (string * string) → Prop :=
  | s_device : sends l (endpoint c "auth/device") [("scope", SCOPES); ("client_id", client_id c)]
  | s_poll a : offered l a → sends l (endpoint c "token") (device_grant a ++ [("client_id", client_id c)])
  | s_refresh tk n : stored l tk → told l n → (expires_at tk ≤ u64_add n MARGIN)%N → sends l (endpoint c "token") (refresh_grant tk ++ [("client_id", client_id c)])
  | s_revoke tk : stored l tk → sends l (endpoint c "revoke") (revoke_form c tk).
Definition verification_url (a : DeviceAuth) : string := default (verification_uri a) (verification_uri_complete a).
Definition says l (line : string) : Prop :=
  line ∈ [USAGE; "Logged in; `sso-token` now prints an access token."; "Logged out."; "warning: revoking the session failed"] ∨
  ∃ a, offered l a ∧ (line = "Open " +:+ verification_url a ∨ line = "and confirm the code " +:+ user_code a).
Definition may l (x : Act) : Prop :=
  match x with
  | Tool _ _ _ => x = lookup ∨ x = clear ∨ ∃ s, secret l s ∧ x = keep s
  | ReadFile p | RemoveFile p => ∃ f, my_file = Some f ∧ p = json_path f
  | CreateDir p => ∃ f, my_file = Some f ∧ p = f.1
  | OpenTrunc p | SyncAll p => ∃ f, my_file = Some f ∧ p = tmp_path f
  | WriteAll p s => secret l s ∧ ∃ f, my_file = Some f ∧ p = tmp_path f
  | RenameFile p q => ∃ f s, my_file = Some f ∧ p = tmp_path f ∧ q = json_path f ∧ secret l s ∧ io_done l (WriteAll p s) ∧ io_done l (SyncAll p)
  | Post url form => sends l url form
  | OpenUrl p url => ∃ a, offered l a ∧ url = verification_url a
  | PrintOut t => fresh l t
  | PrintErr line => says l line
  | Now | SleepSecs _ => True
  | _ => False
  end.

(** Where the texts come from that are printed, handed to the client or in an error: fixed words, numbers, the command
    line, the name of the file, the operating system's errors, a refusal by the issuer (its good replies carry tokens),
    the MCP server, and the identifier in the client's message that is answered. *)
Definition words : list string :=
  [""; ": "; "HOME is not set"; ": not found"; "create"; "open"; "write"; "sync"; "rename"; "reading "; "token"; "auth/device"; ": request failed";
   ": HTTP "; "Failed to read JSON"; "token response carried no refresh token"; " ("; ")"; "out of rounds"; "login: ";
   "login: the code expired before it was confirmed"; "device authorization: "; "not logged in; run `sso-token login`";
   "stored tokens are unreadable; run `sso-token login`"; "session expired ("; "); run `sso-token login`"; "refresh: "; "HTTP "; " from ";
   String newline ""; "sso-token mcp: "; "sso-token mcp: dropping a non-JSON message ("; USAGE; "unknown command "; "; "].
Definition failed l (x : Act) (e : string) : Prop :=
  match x with
  | ReadFile p => mkEvent (ReadFile p) (Err (OtherIo e) : Ans (ReadFile p)) ∈ l
  | RemoveFile p => mkEvent (RemoveFile p) (Err (OtherIo e) : Ans (RemoveFile p)) ∈ l
  | CreateDir p => mkEvent (CreateDir p) (Err (OtherIo e) : Ans (CreateDir p)) ∈ l
  | OpenTrunc p => mkEvent (OpenTrunc p) (Err (OtherIo e) : Ans (OpenTrunc p)) ∈ l
  | WriteAll p s => mkEvent (WriteAll p s) (Err (OtherIo e) : Ans (WriteAll p s)) ∈ l
  | SyncAll p => mkEvent (SyncAll p) (Err (OtherIo e) : Ans (SyncAll p)) ∈ l
  | RenameFile p q => mkEvent (RenameFile p q) (Err (OtherIo e) : Ans (RenameFile p q)) ∈ l
  | _ => False
  end.
Definition heard (r : Result McpReply string) (x : string) : Prop :=
  match r with
  | Err e => x = e
  | Ok r => mr_text r = Ok x ∨ mr_text r = Err x ∨ Err x ∈ mr_lines r ∨
      ∃ line d, Ok line ∈ mr_lines r ∧ strip_prefix "data:" line = Some d ∧ x = default d (strip_prefix " " d)
  end.
Inductive public l : string → Prop :=
  | p_word s : s ∈ words → public l s
  | p_number (n : N) : public l (pretty n)
  | p_argument s : s ∈ url :: args → public l s
  | p_file f : my_file = Some f → public l (json_path f)
  | p_input e : Err e ∈ input → public l e
  | p_system x e : failed l x e → public l e
  | p_refused path form r body :
      mkEvent (Post path form) (Ok r : Ans (Post path form)) ∈ l → is_error_status (rp_status r) = true → rp_text r = Ok body → public l body
  | p_unread path form r e : mkEvent (Post path form) (Ok r : Ans (Post path form)) ∈ l → rp_text r = Err e → public l e
  | p_oauth body e x : public l body → parse from_str oauth_error body = Some e → x = oe_error e ∨ oe_description e = Some x → public l x
  | p_heard i u t s b r x : mkEvent (Forward i u t s b) (r : Ans (Forward i u t s b)) ∈ l → heard r x → public l x
  | p_value raw v : public l raw → from_str raw = Ok v → public l (to_string v)
  | p_syntax raw e : public l raw → from_str raw = Err e → public l e
  | p_answer line e : Ok line ∈ input → public l e → public l (to_string (error_message (id_of from_str line) e))
  | p_app s t : public l s → public l t → public l (s +:+ t).

Lemma more_log l l' (e : Trace.Event Ans) : l `prefix_of` l' → e ∈ l → e ∈ l'.
Proof. intros [k ->] He. apply elem_of_app. by left. Qed.
Lemma tool_gave_mono l l' x out : l `prefix_of` l' → tool_gave l x out → tool_gave l' x out.
Proof. intros Hl (p & a & i & -> & He). exists p, a, i. split; [done|]. by eapply more_log. Qed.
Lemma io_done_mono l l' x : l `prefix_of` l' → io_done l x → io_done l' x.
Proof. intros Hl. destruct x; try done; cbn; by apply more_log. Qed.
Lemma gave_mono l l' raw : l `prefix_of` l' → gave l raw → gave l' raw.
Proof.
  intros Hl [(out & Ho & Hr)|(f & Hf & He)]; [left; exists out; split; [by eapply tool_gave_mono|done]|right]. exists f. split; [done|]. by eapply more_log.
Qed.
Lemma stored_mono l l' tk : l `prefix_of` l' → stored l tk → stored l' tk.
Proof. intros Hl (raw & Hg & Hp). exists raw. split; [by eapply gave_mono|done]. Qed.
Lemma replied_mono l l' path form text : l `prefix_of` l' → replied l path form text → replied l' path form text.
Proof. intros Hl (r & He & Hr). exists r. split; [by eapply more_log|done]. Qed.
Lemma granted_mono l l' t : l `prefix_of` l' → granted l t → granted l' t.
Proof. intros Hl (f & x & Hr & Hp). exists f, x. split; [by eapply replied_mono|done]. Qed.
Lemma offered_mono l l' a : l `prefix_of` l' → offered l a → offered l' a.
Proof. intros Hl (x & Hr & Hp). exists x. split; [by eapply replied_mono|done]. Qed.
Lemma told_mono l l' n : l `prefix_of` l' → told l n → told l' n.
Proof. intros Hl. by apply more_log. Qed.
Lemma of_grant_mono l l' tk : l `prefix_of` l' → of_grant l tk → of_grant l' tk.
Proof.
  intros Hl (t & n & Hg & Hn & Ha & He & Hr). exists t, n. split_and!; try done; [by eapply granted_mono|by eapply told_mono|].
  destruct Hr as [Hr|(Hr & old & Ho & E)]; [by left|right]. split; [done|]. exists old. split; [by eapply stored_mono|done].
Qed.
Lemma secret_mono l l' s : l `prefix_of` l' → secret l s → secret l' s.
Proof. intros Hl (tk & Hg & ->). exists tk. split; [by eapply of_grant_mono|done]. Qed.
Lemma saved_mono l l' tk : l `prefix_of` l' → saved l tk → saved l' tk.
Proof.
  intros Hl [[out Ho]|(f & Hf & H1 & H2 & H3)]; [left; exists out; by eapply tool_gave_mono|right]. exists f. split_and!; [done|by eapply io_done_mono..].
Qed.
Lemma fresh_mono l l' t : l `prefix_of` l' → fresh l t → fresh l' t.
Proof.
  intros Hl [(tk & n & Hs & Hn & Ht)|(tk & Hg & Hs & ->)]; [left; exists tk, n; split_and!; [by eapply stored_mono|by eapply told_mono|by destruct Ht|by destruct Ht]|right].
  exists tk. split_and!; [by eapply of_grant_mono|by eapply saved_mono|done].
Qed.
(** ** The steps *)

Lemma public_mono l l' s : l `prefix_of` l' → public l s → public l' s.
Proof.
  intros Hl. induction 1; try (by eauto using public).
  - eapply (p_system _ x). destruct x; try done; by eapply more_log.
  - eapply p_refused; [by eapply more_log|done..].
  - eapply p_unread; [by eapply more_log|done].
  - eapply p_heard; [by eapply more_log|done].
Qed.
Notation okay := (fine Ans may (λ e l, public l e) (St := ()) (Fa := string)).
Notation any := (λ _ _, True).
(** A text of known words and texts *)
Ltac word := by apply p_word, (bool_decide_eq_true_1 (_ ∈ words)).
Ltac tell := unfold describe, io, bail; repeat (apply p_app); first [word|apply p_number|assumption|eauto using public|idtac].
Lemma bail_ok {A} msg (Q : A → Log → Prop) l : public l msg → okay (bail msg) Q l.
Proof. intros Hm. by apply fine_raise. Qed.
Lemma context_ok {A} (x : option A) msg l : msg ∈ words → okay (context x msg) (λ a l', x = Some a ∧ l' = l) l.
Proof. unfold context. destruct x; [by intros; apply fine_ret|intros; by apply bail_ok, p_word]. Qed.
Ltac in_words := by apply (bool_decide_eq_true_1 (_ ∈ words)).
Lemma do_ok x (Q : Ans x → Log → Prop) l : may l x → (∀ r, Q r (l ++ [mkEvent x r])) → okay (do Ans x) Q l.
Proof. apply fine_do. Qed.
Lemma logged x (r : Ans x) l : mkEvent x r ∈ l ++ [mkEvent x r].
Proof. apply elem_of_app. right. by left. Qed.
Lemma eprint_ok line l : says l line → okay (eprint line) any l.
Proof. intros Hs. refine (do_ok (PrintErr line) _ _ Hs _). done. Qed.
Lemma io_ok {A} (r : Result A IoError) what l : what ∈ words → (∀ e, r = Err (OtherIo e) → public l e) → okay (io r what) (λ a l', r = Ok a ∧ l' = l) l.
Proof.
  intros Hw He. apply (p_word l) in Hw. destruct r as [a|[|e]]; [by apply fine_ret|apply bail_ok, p_app; [done|word]|].
  apply bail_ok, p_app; [done|]. apply p_app; [word|by apply He].
Qed.
Lemma now_ok l : okay now (λ n l', told l' n) l.
Proof. apply (do_ok Now); [done|]. intros r. exact (logged Now r l). Qed.
Lemma lookup_ok l : okay (keychain_get macos (account c)) (λ r l', ∀ out, r = Some out → tool_gave l' lookup out) l.
Proof.
  unfold keychain_get, security_get, secret_tool_get, run_tool. destruct macos eqn:Em.
  all: refine (do_ok (Tool _ _ _) _ _ _ _); [left; unfold lookup; by rewrite Em|]; intros r out ->; unfold lookup; rewrite Em; eexists _, _, _; (split; [done|]); apply logged.
Qed.
Lemma my_file_ok l : okay (file env (account c)) (λ f l', my_file = Some f ∧ l' = l) l.
Proof. unfold file, my_file. destruct (state_dir env); [by apply fine_ret|apply bail_ok; word]. Qed.
Lemma read_file_ok l :
  okay (f ← file env (account c); r ← do Ans (ReadFile (json_path f)); match r with Ok s => mret (Some s) | Err NotFound => mret None | Err (OtherIo e) => bail ("reading " +:+ json_path f) end)
    (λ r l', ∀ raw, r = Some raw → gave l' raw) l.
Proof.
  eapply fine_then; [apply my_file_ok|]. intros f l1 _ [Hf ->]. apply fine_bind. refine (do_ok (ReadFile (json_path f)) _ _ _ _); [by exists f|].
  intros [s|[]]; [apply fine_ret|by apply fine_ret|apply bail_ok, p_app; [word|by apply p_file]]. intros raw [= <-]. right. exists f. split; [done|]. exact (logged (ReadFile (json_path f)) (Ok s) l).
Qed.
Lemma store_get_ok l : okay (store_get macos env (account c)) (λ r l', ∀ raw, r = Some raw → gave l' raw) l.
Proof.
  unfold store_get. eapply fine_then; [apply lookup_ok|]. intros [out|] l1 _ Ho; [|apply read_file_ok]. case_bool_decide as Ht; cbn [negb]; [apply read_file_ok|].
  apply fine_ret. intros raw [= <-]. left. exists out. split_and!; [by apply Ho|done|done].
Qed.
Lemma keep_ok s l : secret l s → okay (keychain_set macos (account c) s) (λ b l', b = true → ∃ out, tool_gave l' (keep s) out) l.
Proof.
  intros Hs. unfold keychain_set, security_set, secret_tool_set, run_tool. destruct macos eqn:Em.
  - apply fine_bind. refine (do_ok (Tool _ _ _) _ _ _ _); [right; right; exists s; split; [done|by unfold keep; rewrite Em]|]. intros [out|]; [|by apply fine_ret].
    eapply fine_then; [change (security_get (account c)) with (if true then security_get (account c) else secret_tool_get (account c)); rewrite <- Em; apply lookup_ok|]. intros got l1 Hl1 _. apply fine_ret. intros _. exists out. eapply tool_gave_mono; [exact Hl1|].
    unfold keep. rewrite Em. eexists _, _, _. split; [done|]. apply logged.
  - apply fine_bind. refine (do_ok (Tool _ _ _) _ _ _ _); [right; right; exists s; split; [done|by unfold keep; rewrite Em]|]. intros r. apply fine_ret.
    intros [out ->]%bool_decide_eq_true. exists out. unfold keep. rewrite Em. eexists _, _, _. split; [done|]. apply logged.
Qed.
Lemma write_private_ok f s l : my_file = Some f → secret l s →
  okay (write_private f s) (λ _ l', io_done l' (WriteAll (tmp_path f) s) ∧ io_done l' (SyncAll (tmp_path f)) ∧ io_done l' (RenameFile (tmp_path f) (json_path f))) l.
Proof.
  intros Hf Hs. unfold write_private.
  apply fine_bind. refine (do_ok (CreateDir _) _ _ _ _); [by exists f|]. intros r1. eapply fine_then; [apply io_ok; [in_words|intros e ->; eapply (p_system _ (CreateDir _)), (logged (CreateDir _))]|]. intros ? ? _ [_ ->].
  apply fine_bind. refine (do_ok (OpenTrunc _) _ _ _ _); [by exists f|]. intros r2. eapply fine_then; [apply io_ok; [in_words|intros e ->; eapply (p_system _ (OpenTrunc _)), (logged (OpenTrunc _))]|]. intros ? ? _ [_ ->].
  apply fine_bind. refine (do_ok (WriteAll _ _) _ _ _ _); [split; [|by exists f]; eapply secret_mono; [|exact Hs]; rewrite <- app_assoc; by eexists|].
  intros r3. eapply fine_then; [apply io_ok; [in_words|intros e ->; eapply (p_system _ (WriteAll _ _)), (logged (WriteAll _ _))]|]. intros [] ? _ [-> ->].
  apply fine_bind. refine (do_ok (SyncAll _) _ _ _ _); [by exists f|]. intros r4. eapply fine_then; [apply io_ok; [in_words|intros e ->; eapply (p_system _ (SyncAll _)), (logged (SyncAll _))]|]. intros [] ? _ [-> ->].
  set (l1 := (((l ++ _) ++ _) ++ _) ++ _). assert (io_done l1 (WriteAll (tmp_path f) s)) as Hw.
  { unfold l1. eapply io_done_mono; [by eexists|]. cbn. apply (logged (WriteAll (tmp_path f) s)). }
  assert (io_done l1 (SyncAll (tmp_path f))) as Hy by (cbn; apply (logged (SyncAll (tmp_path f)))).
  assert (l `prefix_of` l1) as Hl by (unfold l1; rewrite <- !app_assoc; by eexists). clearbody l1.
  apply fine_bind. refine (do_ok (RenameFile _ _) _ _ _ _); [exists f, s; split_and!; try done; by eapply secret_mono|].
  intros r5. eapply fine_mono; [apply io_ok; [in_words|intros e ->; eapply (p_system _ (RenameFile _ _)), (logged (RenameFile _ _))]|]. intros [] ? _ [-> ->]. split_and!; [eapply io_done_mono; [by eexists|done]|eapply io_done_mono; [by eexists|done]|].
  cbn. apply (logged (RenameFile (tmp_path f) (json_path f))).
Qed.
Lemma store_set_ok tk l : of_grant l tk → okay (store_set macos env (account c) (to_string (tokens_value tk))) (λ _ l', saved l' tk) l.
Proof.
  intros Hg. unfold store_set. eapply fine_then; [apply my_file_ok|]. intros f l0 _ [Hf ->]. eapply fine_then; [apply keep_ok; by exists tk|].
  intros [] l1 Hl1 Hk.
  - apply fine_bind. refine (do_ok (RemoveFile _) _ _ _ _); [by exists f|]. intros r. apply fine_ret. destruct Hk as [out Ho]; [done|]. left. exists out.
    eapply tool_gave_mono; [by eexists|done].
  - eapply fine_mono; [apply write_private_ok; [done|eapply secret_mono; [exact Hl1|by exists tk]]|]. intros ? l2 _ Hd. right. by exists f.
Qed.
Lemma store_delete_ok l : okay (store_delete macos env (account c)) any l.
Proof.
  unfold store_delete, keychain_delete, security_delete, secret_tool_delete, run_tool. apply (fine_then Ans _ _ _ _ any).
  { destruct macos eqn:Em; (apply (fine_then Ans _ _ _ _ any); [|intros; by apply fine_ret]);
      (refine (do_ok (Tool _ _ _) _ _ _ _); try done; right; left; unfold clear; by rewrite Em). }
  intros ? l1 _ _. eapply fine_then; [apply my_file_ok|]. intros f l2 _ [Hf ->]. apply fine_bind. refine (do_ok (RemoveFile _) _ _ _ _); [by exists f|].
  intros [[]|[|e]]; [by apply fine_ret..|apply bail_ok]. eapply (p_system _ (RemoveFile _)), (logged (RemoveFile _)).
Qed.

(** ** The client *)

Lemma post_ok {A} (f : Value → option A) path form l : path ∈ words → may l (Post (endpoint c path) (form ++ [("client_id", client_id c)])) →
  okay (post from_str f c path form) (λ r l', (∀ a, r = Ok a → ∃ text, replied l' path form text ∧ parse from_str f text = Some a) ∧
    ∀ e, r = Err e → public l' (describe e)) l.
Proof.
  intros Hw Hm. assert (∀ l, public l path) as Hpath by (intros; by apply p_word). unfold post. apply fine_bind. refine (do_ok (Post _ _) _ _ Hm _).
  intros [r|e]; [|apply bail_ok, p_app; [done|word]]. set (l1 := l ++ _).
  destruct (is_error_status (rp_status r)) eqn:Es; cbn zeta.
  - assert (public l1 match rp_text r with Ok t => t | Err _ => "" end) as Hb.
    { destruct (rp_text r) as [t|] eqn:Et; [|word]. eapply p_refused; [apply (logged (Post _ _))|done..]. }
    destruct (parse from_str oauth_error _) as [e|] eqn:Ee.
    + apply fine_ret. split; [by intros a|]. intros ? [= <-]. assert (public l1 (oe_error e)) as He by (eapply p_oauth; [exact Hb|done|by left]).
      unfold describe. destruct (oe_description e) as [d|] eqn:Ed; [|done]. apply p_app; [done|]. apply p_app; [word|]. apply p_app; [|word].
      eapply p_oauth; [exact Hb|done|by right].
    + apply bail_ok, p_app; [done|]. apply p_app; [word|]. apply p_app; [apply p_number|]. apply p_app; [word|done].
  - destruct (rp_text r) as [t|e] eqn:Et; [|apply bail_ok; eapply p_unread; [apply (logged (Post _ _))|done]].
    destruct (parse from_str f t) as [a|] eqn:Ea; [|apply bail_ok; word]. apply fine_ret. split; [|done].
    intros ? [= <-]. exists t. split; [|done]. exists r. split; [apply (logged (Post _ _))|done].
Qed.
Lemma save_ok t previous l : granted l t → (∀ r, previous = Some r → ∃ old, stored l old ∧ r = refresh_token old) →
  okay (save macos env c t previous) (λ a l', fresh l' a) l.
Proof.
  intros Hg Hp. unfold save. eapply fine_then; [apply context_ok; in_words|]. intros r l0 _ [Hr ->]. eapply fine_then; [apply now_ok|]. intros n l1 Hl1 Hn.
  assert (of_grant l1 (mkTokens r (tr_access t) (u64_add n (tr_expires_in t)))) as Hk.
  { exists t, n. split_and!; [by eapply granted_mono|exact Hn|done|done|]. destruct (tr_refresh t) as [r'|]; [left; exact Hr|right]. split; [done|].
    destruct (Hp r Hr) as (old & Ho & ->). exists old. split; [by eapply stored_mono|done]. }
  eapply fine_then; [by apply store_set_ok|]. intros ? l2 Hl2 Hs. apply fine_ret. right. eexists. split_and!; [eapply of_grant_mono; [exact Hl2|exact Hk]|exact Hs|done].
Qed.
Lemma token_ok l : okay (token from_str macos env c) (λ t l', fresh l' t) l.
Proof.
  unfold token. eapply fine_then; [apply store_get_ok|]. intros raw l1 _ Hr. eapply fine_then; [apply context_ok; in_words|]. intros text l1' _ [-> ->].
  eapply fine_then; [apply context_ok; in_words|]. intros tk l1' _ [Hp ->]. assert (stored l1 tk) as Hs by (exists text; split; [by apply Hr|done]).
  eapply fine_then; [apply now_ok|]. intros n l2 Hl2 Hn. destruct (N.ltb_spec (u64_add n MARGIN) (expires_at tk)) as [Hlt|Hge].
  - apply fine_ret. left. exists tk, n. split_and!; [by eapply stored_mono|exact Hn|done|done].
  - eapply fine_then; [apply post_ok; [in_words|]; eapply s_refresh; [by eapply stored_mono|exact Hn|exact Hge]|]. intros [t|e] l3 Hl3 [Ha He].
    + apply save_ok.
      * destruct (Ha t eq_refl) as (x & Hx & Ht). by exists (refresh_grant tk), x.
      * intros ? [= <-]. exists tk. split; [|done]. eapply stored_mono; [|exact Hs]. by etrans.
    + specialize (He e eq_refl). destruct (String.eqb _ _); apply bail_ok; repeat (apply p_app; [first [word|done]|]); first [word|done].
Qed.
Lemma poll_login_ok rounds a deadline interval l : offered l a → okay (poll_login from_str macos env rounds c a deadline interval) any l.
Proof.
  revert interval l. induction rounds as [|n IH]; intros interval l Ha; cbn [poll_login]; [apply bail_ok; word|].
  eapply fine_then; [apply now_ok|]. intros t l1 Hl1 _. destruct (_ <? _)%N; [|apply bail_ok; word].
  apply (fine_then Ans _ _ _ _ any); [refine (do_ok (SleepSecs _) _ _ _ _); done|]. intros ? l2 Hl2 _.
  eapply fine_then; [apply post_ok; [in_words|]; apply s_poll; eapply offered_mono; [|exact Ha]; by etrans|]. intros [r|e] l3 Hl3 [Hr He].
  - eapply fine_then; [apply save_ok; [|done]|].
    + destruct (Hr r eq_refl) as (x & Hx & Ht). by exists (device_grant a), x.
    + intros ? l4 _ _. apply eprint_ok. left. do 1 right. by left.
  - destruct (String.eqb _ _); [|destruct (String.eqb _ _); [|apply bail_ok, p_app; [word|by apply He]]]; apply IH; (eapply offered_mono; [|exact Ha]); do 2 (etrans; [eassumption|]); done.
Qed.
Lemma device_login_ok l : okay (login from_str macos env c) any l.
Proof.
  unfold login. eapply fine_then; [apply post_ok; [in_words|apply s_device]|]. intros [a|e] l1 Hl1 [Ha He]; [|apply bail_ok, p_app; [word|by apply He]].
  assert (offered l1 a) as Ho by (destruct (Ha a eq_refl) as (x & Hx & Hp); by exists x).
  eapply fine_then; [apply eprint_ok; right; exists a; split; [done|by left]|]. intros ? l2 Hl2 _.
  assert (offered l2 a) as Ho2 by by eapply offered_mono.
  eapply fine_then; [apply eprint_ok; right; exists a; split; [done|by right]|]. intros ? l3 Hl3 _.
  assert (offered l3 a) as Ho3 by by eapply offered_mono.
  apply (fine_then Ans _ _ _ _ any); [refine (do_ok (OpenUrl _ _) _ _ _ _); [by exists a|done]|]. intros ? l4 Hl4 _.
  eapply fine_then; [apply now_ok|]. intros n l5 Hl5 _. apply poll_login_ok. eapply offered_mono; [|exact Ho3]. by etrans.
Qed.
Lemma logout_ok l : okay (logout from_str macos env c) any l.
Proof.
  assert (∀ l, says l "warning: revoking the session failed" ∧ says l "Logged out.") as Hw by (intros; split; left; set_solver).
  unfold logout. eapply fine_then; [apply store_get_ok|]. intros raw l1 _ Hr. apply (fine_then Ans _ _ _ _ any).
  - destruct raw as [text|]; cbn [mbind option_bind]; [|by apply fine_ret]. destruct (parse from_str tokens_of text) as [tk|] eqn:Ep; [|by apply fine_ret].
    apply fine_bind. refine (do_ok (Post _ _) _ _ _ _); [apply s_revoke; exists text; split; [by apply Hr|done]|].
    intros [r|e]; [|apply eprint_ok, Hw]. destruct (is_error_status _); [apply eprint_ok, Hw|by apply fine_ret].
  - intros ? l2 _ _. eapply fine_then; [apply store_delete_ok|]. intros ? l3 _ _. apply eprint_ok, Hw.
Qed.

(** ** The bridge *)

Definition may_bridge l (x : Act) : Prop :=
  match x with
  | Forward _ u t _ _ | EndSession u t _ => u = url ∧ fresh l t
  | Emit line => public l line
  | PrintErr line => says l line ∨ public l line
  | Begin _ | Spawn _ | Finish _ | Join _ | GetSession | SetSession _ => True
  | _ => may l x
  end.
Notation bridged := (fine Ans may_bridge (λ e l, public l e) (St := ()) (Fa := string)).
Lemma may_bridge_may l x : may l x → may_bridge l x.
Proof. destruct x; try done. by left. Qed.
Lemma bridged_do x l : may_bridge l x → bridged (do Ans x) any l.
Proof. intros Hx. by apply fine_do. Qed.
Lemma bridged_token l : bridged (token from_str macos env c) (λ t l', fresh l' t) l.
Proof. refine (fine_weaken may may_bridge (λ e l, public l e) (λ e l, public l e) _ _ l may_bridge_may _ (token_ok l)). done. Qed.
Lemma emit_json_ok raw l : public l raw → bridged (emit_json from_str raw) any l.
Proof.
  intros Hr. unfold emit_json. destruct (from_str raw) as [v|e] eqn:E.
  - refine (bridged_do (Emit _) _ _). by eapply p_value.
  - refine (bridged_do (PrintErr _) _ _). right. apply p_app; [word|]. apply p_app; [by eapply p_syntax|word].
Qed.
(** The lines of an answer, and the data in them *)
Definition told_line l (x : Result string string) : Prop :=
  match x with Ok line => ∀ d, strip_prefix "data:" line = Some d → public l (default d (strip_prefix " " d)) | Err e => public l e end.
Lemma told_line_mono l l' x : l `prefix_of` l' → told_line l x → told_line l' x.
Proof. intros Hl. destruct x; [intros Ht d Hd|]; eapply public_mono; eauto. Qed.
Lemma sse_ok data ls l : public l data → Forall (told_line l) ls → bridged (sse from_str data ls) any l.
Proof.
  revert data l. induction ls as [|[line|e] ls IH]; intros data l Hd Hls; cbn [sse].
  - case_bool_decide; [by apply fine_ret|by apply emit_json_ok].
  - apply Forall_cons in Hls as [Hline Hls]. destruct (strip_prefix "data:" line) as [d|] eqn:Es.
    + apply IH; [|done]. apply p_app; [|by apply Hline]. case_bool_decide; [word|]. apply p_app; [done|word].
    + destruct (_ && _); [|by apply IH]. eapply fine_then; [by apply emit_json_ok|]. intros ? l1 Hl1 _. apply IH; [word|].
      eapply Forall_impl; [exact Hls|]. intros x. by apply told_line_mono.
  - apply Forall_cons in Hls as [He _]. by apply fine_raise.
Qed.
Lemma post_message_ok i body l : bridged (post_message from_str macos env c url i body) any l.
Proof.
  unfold post_message. eapply fine_then; [apply bridged_token|]. intros t l1 _ Ht. cbn beta in Ht.
  eapply fine_then; [by apply (bridged_do GetSession)|]. intros session l2 Hl2 _. apply fine_bind.
  refine (fine_do Ans may_bridge _ (Forward _ _ _ _ _) _ _ _ _); [split; [done|by eapply fresh_mono]|]. intros r. set (l3 := l2 ++ _).
  assert (∀ x, heard r x → public l3 x) as Hheard by (intros x Hx; eapply p_heard; [apply (logged (Forward _ _ _ _ _))|done]). clearbody l3.
  destruct r as [r|e]; [|apply fine_raise; by apply Hheard].
  destruct (is_error_status _).
  { apply fine_raise, p_app; [word|]. apply p_app; [apply p_number|]. apply p_app; [word|]. apply p_app; [apply p_argument; by left|].
    apply p_app; [word|]. destruct (mr_text r) as [t'|] eqn:Et; [|word]. apply Hheard. by left. }
  apply (fine_then Ans _ _ _ _ any).
  { destruct (mr_session r); [by refine (bridged_do (SetSession _) _ _)|by apply fine_ret]. }
  intros ? l4 Hl4 _. assert (∀ x, heard (Ok r) x → public l4 x) as Hheard' by (intros x Hx; eapply public_mono; [exact Hl4|by apply Hheard]).
  destruct (_ =? _)%N; [by apply fine_ret|]. destruct (String.eqb _ _).
  - apply sse_ok; [word|]. apply Forall_forall. intros [line|e] Hx; [intros d Hd|]; apply Hheard'; right; right; [right; by exists line, d|by left].
  - destruct (mr_text r) as [text|e] eqn:Et; [|apply fine_raise, Hheard'; right; by left].
    case_bool_decide; [by apply fine_ret|]. apply emit_json_ok, Hheard'. by left.
Qed.
Lemma bridge_forward_ok i line l : Ok line ∈ input → bridged (forward from_str macos env c url i line) any l.
Proof.
  intros Hin. unfold forward. eapply fine_then; [apply fine_catch, post_message_ok|]. intros [[]|e] l1 _ He; [by apply fine_ret|]. unfold fail_with.
  eapply fine_then; [refine (bridged_do (PrintErr _) _ _); right; by apply p_app; [word|]|]. intros ? l2 Hl2 _.
  assert (public l2 (to_string (error_message (id_of from_str line) e))) as Hp by (apply p_answer; [done|by eapply public_mono]).
  destruct (id_of from_str line); first [by apply fine_ret|by refine (bridged_do (Emit _) _ _)].
Qed.
Lemma worker_ok i line l : Ok line ∈ input → bridged (worker from_str macos env c url i line) any l.
Proof.
  intros Hin. unfold worker. eapply fine_then; [by refine (bridged_do (Begin i) _ _)|]. intros ? l1 _ _. eapply fine_then; [by apply bridge_forward_ok|]. intros ? l2 _ _.
  by refine (bridged_do (Finish i) _ _).
Qed.
Lemma dispatch_ok i ls workers l : ls ⊆ input → bridged (dispatch from_str macos env c url i ls workers) any l.
Proof.
  revert i workers l. induction ls as [|x ls IH]; intros i workers l Hin; cbn [dispatch]; [by apply fine_ret|].
  assert (ls ⊆ input) as Hls by set_solver. assert (x ∈ input) as Hx by set_solver. destruct x as [line|e]; [|apply fine_raise; by apply p_input].
  case_bool_decide; [by apply IH|]. destruct (in_order from_str line).
  - eapply fine_then; [by refine (bridged_do (Begin i) _ _)|]. intros ? l1 _ _. eapply fine_then; [by apply bridge_forward_ok|]. intros ? l2 _ _. by apply IH.
  - eapply fine_then; [by refine (bridged_do (Spawn i) _ _)|]. intros ? l1 _ _. by apply IH.
Qed.
Lemma mcp_run_ok l : bridged (mcp_run from_str macos env c url input) any l.
Proof.
  unfold mcp_run. eapply fine_then; [apply bridged_token|]. intros ? l1 _ _. eapply fine_then; [by apply dispatch_ok|]. intros ws l2 _ _.
  apply (fine_then Ans _ _ _ _ any).
  { apply fine_for_each; [|done]. intros i l3 _ _. by refine (bridged_do (Join i) _ _). }
  intros ? l3 _ _. unfold end_session. eapply fine_then; [by apply (bridged_do GetSession)|]. intros [id|] l4 _ _; [|by apply fine_ret].
  eapply fine_then; [apply fine_catch, bridged_token|]. intros [t|e] l5 _ Ht; [|by apply fine_ret]. by refine (bridged_do (EndSession _ _ _) _ _).
Qed.
End spec.

Section main.
Context `{SerdeJson} (from_str : string → Result Value string) (macos : bool) (env : string → option string).
Definition url_of (args : list string) : string := default "" (args !! 1%nat).
Definition may_run (args : list string) (input : list (Result string string)) (l : Log) (x : Act) : Prop :=
  ∃ c, client_of env = Some c ∧
    if bool_decide (head args = Some "mcp") then may_bridge from_str macos env c args (url_of args) input l x else may from_str macos env c l x.
(** What an error may say. *)
Definition may_say (args : list string) (input : list (Result string string)) (e : string) (l : Log) : Prop :=
  match client_of env with Some c => public from_str env c args (url_of args) input l e | None => e = "SSO_ISSUER is not set" end.
Lemma main_ok args input l : fine Ans (may_run args input) (may_say args input) (St := ()) (Fa := string) (main from_str macos env args input) (λ _ _, True) l.
Proof.
  unfold main, from_env. destruct (client_of env) as [c|] eqn:Ec; [|apply fine_raise; unfold may_say; by rewrite Ec].
  assert (∀ l x, may from_str macos env c l x → may_run args input l x) as Hm.
  { intros l' x Hx. exists c. split; [done|]. case_bool_decide; [by apply may_bridge_may|done]. }
  assert (∀ e l, public from_str env c args (url_of args) input l e → may_say args input e l) as He by (intros e l'; unfold may_say; by rewrite Ec).
  eapply (fine_then Ans _ _ _ _ (λ c' l', c' = c ∧ l' = l)); [by apply fine_ret|]. intros ? ? _ [-> ->].
  assert (∀ l, fine Ans (may_run args input) (may_say args input) (St := ()) (Fa := string) (t ← token from_str macos env c; do Ans (PrintOut t)) (λ _ _, True) l) as Ht.
  { intros l'. eapply fine_weaken; [exact Hm|exact He|]. eapply fine_then; [apply token_ok|]. intros t l1 _ Hf. by refine (do_ok _ _ _ _ _ _ _ (PrintOut t) _ _ Hf _). }
  destruct args as [|command args]; [apply Ht|]. destruct (String.eqb command "token"); [apply Ht|].
  destruct (String.eqb command "login"); [eapply fine_weaken; [exact Hm|exact He|apply device_login_ok]|].
  destruct (String.eqb command "logout"); [eapply fine_weaken; [exact Hm|exact He|apply logout_ok]|].
  destruct (String.eqb command "mcp") eqn:Em.
  - destruct args as [|url args]; [apply fine_raise, He, p_word; by apply (bool_decide_eq_true_1 (_ ∈ words))|].
    eapply (fine_then Ans _ _ _ _ (λ u l', u = url ∧ l' = l)); [by apply fine_ret|]. intros ? ? _ [-> ->].
    eapply fine_weaken; [|exact He|apply mcp_run_ok]. intros l' x Hx. exists c. split; [done|]. apply String.eqb_eq in Em as ->. exact Hx.
  - case_bool_decide; [|].
    + refine (fine_do Ans _ _ (PrintErr USAGE) _ _ _ _); [apply Hm; left; by left|done].
    + apply fine_raise, He. assert (∀ s, s ∈ words → public from_str env c (command :: args) (url_of (command :: args)) input l s) as Hw by apply p_word.
      apply p_app; [by apply Hw, (bool_decide_eq_true_1 (_ ∈ words))|]. apply p_app; [apply p_argument; right; by left|].
      apply p_app; apply Hw; by apply (bool_decide_eq_true_1 (_ ∈ words)).
Qed.

End main.

(** ** Logging in ends, and what is stored is found

    The polling of a device grant ends by its deadline, so its rounds are enough; the store over a keychain and files. *)

Section login.
Context `{SerdeJson} (from_str : string → Result Value string) (macos : bool) (env : string → option string).
Context (outside : Log → ∀ x : Act, Ans x).
Implicit Types (l : Log) (c : Client).

(** The seconds slept. *)
Definition slept_in (e : Trace.Event Ans) : N := match e_act e with SleepSecs n => n | _ => 0%N end.
Definition slept l : N := foldr N.add 0%N (slept_in <$> l).
Lemma slept_app l l' : slept (l ++ l') = (slept l + slept l')%N.
Proof. unfold slept. induction l as [|e l IH]; [done|]. cbn in *. rewrite IH. lia. Qed.
(** The clock moves on at least by what was slept, and 1970 is more than four seconds past. *)
Definition clock_runs : Prop := ∀ l1 n l2, (N.max 4 n + slept l2 ≤ outside (l1 ++ mkEvent Now (n : Ans Now) :: l2) Now)%N.

(** One round of the polling. *)
Lemma poll_round rounds c a deadline interval l :
  exec Ans outside (poll_login from_str macos env (S rounds) c a deadline interval ()) l =
    let n := outside l Now in let l1 := l ++ [mkEvent Now n] in
    if (n <? deadline)%N then
      let l2 := l1 ++ [mkEvent (SleepSecs interval) (outside l1 (SleepSecs interval))] in
      match exec Ans outside (post from_str token_response c "token" (device_grant a) ()) l2 with
      | (l3, Ok (s, Ok (Err e))) =>
          if String.eqb (oe_error e) "authorization_pending" then exec Ans outside (poll_login from_str macos env rounds c a deadline interval s) l3
          else if String.eqb (oe_error e) "slow_down" then exec Ans outside (poll_login from_str macos env rounds c a deadline (u64_add interval 5) s) l3
          else (l3, Ok (s, Err ("login: " +:+ describe e)))
      | (l3, Ok (s, Ok (Ok t))) => exec Ans outside ((_ ← save macos env c t None; eprint "Logged in; `sso-token` now prints an access token.") s) l3
      | (l3, Ok (s, Err e)) => (l3, Ok (s, Err e))
      | (l3, Err e) => (l3, Err e)
      end
    else (l1, Ok ((), Err "login: the code expired before it was confirmed")).
Proof.
  cbn [poll_login]. rewrite exec_bind. change (exec Ans outside (now ()) l) with (l ++ [mkEvent Now (outside l Now)], Ok ((), Ok (outside l Now)) : Result (() * Result N string) Empty_set).
  cbn iota beta zeta. destruct (_ <? _)%N; [|done]. set (l1 := l ++ _). rewrite exec_bind.
  change (exec Ans outside (do Ans (SleepSecs interval) ()) l1) with (l1 ++ [mkEvent (SleepSecs interval) (outside l1 (SleepSecs interval))], Ok ((), Ok (outside l1 (SleepSecs interval))) : Result (() * Result () string) Empty_set).
  cbn iota beta. rewrite exec_bind. destruct (exec Ans outside (post _ _ _ _ _ _) _) as [l3 [[[] [[t|e]|e]]|e]]; try done.
  destruct (String.eqb _ _); [done|]. by destruct (String.eqb _ _).
Qed.

Lemma u64_add_lt a b : (u64_add a b < 2 ^ 64)%N.
Proof. by apply N.mod_lt. Qed.
(** An interval that wraps was slept first, past any deadline. *)
Lemma polling_more c a deadline interval rounds more l1 n l2 : clock_runs → (deadline < 2 ^ 64)%N →
  (1 ≤ interval ∨ deadline ≤ N.max 4 n + slept l2)%N → (deadline ≤ N.max 4 n + slept l2 + N.of_nat rounds)%N →
  let l := l1 ++ mkEvent Now (n : Ans Now) :: l2 in
  exec Ans outside (poll_login from_str macos env (S rounds + more) c a deadline interval ()) l = exec Ans outside (poll_login from_str macos env (S rounds) c a deadline interval ()) l.
Proof.
  intros Hc H64. revert interval l2. induction rounds as [|rounds IH]; intros interval l2 Hi Hd l; cbn [Nat.add]; rewrite !poll_round; cbn zeta;
    pose proof (Hc l1 n l2) as Hn; fold l in Hn; destruct (N.ltb_spec (outside l Now) deadline) as [Hlt|]; try done; [lia|].
  set (l3 := (l ++ _) ++ _). assert (∃ k, l3 = l1 ++ mkEvent Now (n : Ans Now) :: l2 ++ k ∧ slept k = interval) as (k & E3 & Hk).
  { unfold l3, l. eexists. rewrite <- !app_assoc. cbn [app]. split; [done|]. cbn. lia. }
  destruct (exec_grows Ans outside (post from_str token_response c "token" (device_grant a) ()) l3) as [k' Ek].
  destruct (exec Ans outside (post _ _ _ _ _ _) l3) as [l4 [[[] [[t|e]|e]]|e]]; try done. cbn [fst] in Ek.
  assert (l4 = l1 ++ mkEvent Now (n : Ans Now) :: (l2 ++ k ++ k')) as -> by (rewrite Ek, E3, <- app_assoc; cbn [app]; by rewrite <- app_assoc).
  assert (deadline ≤ N.max 4 n + slept (l2 ++ k ++ k') + N.of_nat rounds)%N as Hd' by (rewrite !slept_app, Hk; lia).
  assert (1 ≤ u64_add interval 5 ∨ deadline ≤ N.max 4 n + slept (l2 ++ k ++ k'))%N as Hi'.
  { rewrite !slept_app, Hk. unfold u64_add. destruct (N.lt_ge_cases (interval + 5) (2 ^ 64)); [left; rewrite N.mod_small; lia|right; lia]. }
  destruct (String.eqb _ _); [apply IH; [left; lia|done]|]. destruct (String.eqb _ _); [by apply IH|done].
Qed.
(** C32: Where the clock moves on while the program sleeps, polling for the device grant ends by the deadline: more rounds than
    a login takes change nothing, however often the server says to slow down. *)
Theorem login_ends c a more l1 n : clock_runs →
  let l := l1 ++ [mkEvent Now (n : Ans Now)] in let rounds := S (S (N.to_nat (da_expires_in a))) in
  let polled rounds := exec Ans outside (poll_login from_str macos env rounds c a (u64_add n (da_expires_in a)) (N.max 1 (default 5%N (da_interval a))) ()) l in
  polled (rounds + more) = polled rounds.
Proof.
  intros Hc. apply (polling_more _ _ _ _ (S (N.to_nat (da_expires_in a))) more l1 n []); [done|apply u64_add_lt|left; lia|].
  assert (u64_add n (da_expires_in a) ≤ n + da_expires_in a)%N by (unfold u64_add; apply N.Div0.mod_le). cbn. lia.
Qed.
End login.

(** A clock: at least the latest time told, and what was slept since. *)
Definition clock_step (t : N) (e : Trace.Event Ans) : N :=
  match e with mkEvent Now n => N.max t (n : N) | mkEvent (SleepSecs k) _ => (t + k)%N | _ => t end.
Definition clock_of (l : Log) : N := foldl clock_step 4%N l.
Definition idle (l : Log) (x : Act) : Ans x :=
  match x return Ans x with
  | Tool _ _ _ => None
  | ReadFile _ | RemoveFile _ => Err NotFound
  | CreateDir _ | OpenTrunc _ | WriteAll _ _ | SyncAll _ | RenameFile _ _ => Ok ()
  | Post _ _ => Ok (mkReply 400 (Ok "slow down"))
  | Now => clock_of l
  | GetSession => None
  | Forward _ _ _ _ _ => Err ""
  | _ => ()
  end.
Lemma idle_clock_runs : clock_runs idle.
Proof.
  intros l1 n l2. unfold idle. unfold clock_of. rewrite foldl_app. cbn [foldl].
  assert (∀ l t, 4 ≤ t → 4 ≤ foldl clock_step t l)%N as Hfour.
  { intros l. induction l as [|e l IH]; intros t Ht; cbn [foldl]; [done|]. apply IH. destruct e as [[] r]; cbn [clock_step]; lia. }
  cbn [clock_step]. match goal with |- (_ ≤ foldl _ ?t _)%N => assert (N.max 4 n ≤ t)%N as Ht; [|revert Ht; generalize t] end.
  { pose proof (Hfour l1 4%N ltac:(lia)). lia. }
  clear Hfour. generalize (N.max 4 n). clear n. intros n t. revert n t. induction l2 as [|e l2 IH]; intros n t Ht; [cbn; lia|].
  cbn [foldl]. change (slept (e :: l2)) with (slept_in e + slept l2)%N.
  destruct e as [[] r]; cbn [slept_in e_act clock_step]; rewrite N.add_assoc || idtac; try (rewrite N.add_0_r; by apply IH); apply IH; lia.
Qed.

(** ** The store over a keychain and files *)

Record World : Type := mkWorld { keychain : gmap string string; readable : bool; writable : bool; files : gmap string string }.
Definition set_keychain (k : gmap string string) (w : World) : World := mkWorld k (readable w) (writable w) (files w).
Definition set_files (f : gmap string string) (w : World) : World := mkWorld (keychain w) (readable w) (writable w) f.
(** [secret-tool] on a Secret Service that may be locked for reading or writing, and a file system that works. *)
Definition tool (w : World) (args : list string) (stdin : option string) : World * option string :=
  match args, stdin with
  | ["lookup"; _; _; _; account], None => (w, if readable w then keychain w !! account else None)
  | ["store"; _; _; _; _; _; account], Some s => if writable w then (set_keychain (<[account := s]> (keychain w)) w, Some "") else (w, None)
  | ["clear"; _; _; _; account], None => if writable w then (set_keychain (delete account (keychain w)) w, Some "") else (w, None)
  | _, _ => (w, None)
  end.
Definition perform (w : World) (x : Act) : World * Ans x :=
  match x return World * Ans x with
  | Tool _ args stdin => tool w args stdin
  | ReadFile p => (w, match files w !! p with Some s => Ok s | None => Err NotFound end)
  | RemoveFile p => (set_files (delete p (files w)) w, match files w !! p with Some _ => Ok () | None => Err NotFound end)
  | OpenTrunc p => (set_files (<[p := ""]> (files w)) w, Ok ())
  | WriteAll p s => (set_files (alter (λ t, t +:+ s) p (files w)) w, Ok ())
  | RenameFile p q => (set_files (match files w !! p with Some s => <[q := s]> (delete p (files w)) | None => files w end) w, match files w !! p with Some _ => Ok () | None => Err NotFound end)
  | x => (w, idle [] x)
  end.
Fixpoint live {A} (w : World) (p : Prog Ans Empty_set A) : World * option A :=
  match p with
  | Ret a => (w, Some a)
  | Throw e => (w, None)
  | Do x k => let '(w', r) := perform w x in live w' (k r)
  end.
Section store.
Context (env : string → option string).
Definition set_in (account s : string) (w : World) : World * option (() * Result () string) := live w (store_set false env account s ()).
Definition get_in (account : string) (w : World) : option (() * Result (option string) string) := (live w (store_get false env account ())).2.
Definition delete_in (account : string) (w : World) : World * option (() * Result () string) := live w (store_delete false env account ()).
(** Nothing older can be read from a keychain that cannot be written. *)
Definition settled (account : string) (w : World) : Prop :=
  if writable w then readable w = true else readable w = false ∨ keychain w !! account = None.
Lemma tmp_not_json (f g : string * string) : tmp_path f ≠ json_path g.
Proof.
  intros E. unfold tmp_path, json_path, path_join in E. apply (f_equal (λ s, reverse (chars s))) in E. 
  repeat case_match; rewrite ?chars_app, ?reverse_app in E; cbn in E; discriminate.
Qed.
Ltac live_steps :=
  unfold store_set, store_get, store_delete, keychain_set, keychain_get, keychain_delete, secret_tool_get, secret_tool_set, secret_tool_delete, run_tool, file, write_private, io, bail, SsoToken.context, do, raise, act, mbind, mret, M_bind, M_ret, Prog_bind, Prog_ret;
  cbn -[json_path tmp_path file_stem path_join trim app].
Lemma live_set account s w st : state_dir env = Some st → let f := (path_join st SERVICE, file_stem account) in
  set_in account s w =
    (if writable w then set_files (delete (json_path f) (files w)) (set_keychain (<[account := s]> (keychain w)) w)
     else set_files (<[json_path f := s]> (delete (tmp_path f) (<[tmp_path f := s]> (files w)))) w, Some ((), Ok ())).
Proof.
  intros Hst f. unfold set_in. live_steps. rewrite Hst. fold f. cbn -[json_path tmp_path file_stem path_join trim app].
  fold f. destruct (writable w) eqn:Ew; cbn -[json_path tmp_path file_stem path_join trim app]; fold f; [done|].
  assert (alter (λ t : string, t +:+ s) (tmp_path f) (<[tmp_path f:=""]> (files w)) = <[tmp_path f := s]> (files w)) as ->.
  { apply map_eq. intros i. destruct (decide (i = tmp_path f)) as [->|Hi]; [by rewrite lookup_alter_eq, !lookup_insert_eq|].
    by rewrite lookup_alter_ne, !lookup_insert_ne. }
  by rewrite lookup_insert_eq.
Qed.
(** What the store gives: the keychain's secret, else the file's. *)
Definition found (account : string) (f : string * string) (w : World) : option string :=
  match (if readable w then keychain w !! account else None) with
  | Some s => if bool_decide (trim s = "") then files w !! json_path f else Some (trim s)
  | None => files w !! json_path f
  end.
Lemma live_get account w st : state_dir env = Some st → get_in account w = Some ((), Ok (found account (path_join st SERVICE, file_stem account) w)).
Proof.
  intros Hst. unfold get_in, found. live_steps. rewrite Hst. set (f := (path_join st SERVICE, file_stem account)). destruct (if readable w then _ else _) as [s'|] eqn:Ek.
  - case_bool_decide; cbn -[json_path tmp_path file_stem path_join trim app]; fold f; [|done]. by destruct (files w !! json_path f).
  - cbn -[json_path tmp_path file_stem path_join trim app]. fold f. by destruct (files w !! json_path f).
Qed.
Lemma live_delete account w st : state_dir env = Some st → let f := (path_join st SERVICE, file_stem account) in
  delete_in account w = (set_files (delete (json_path f) (files w)) (if writable w then set_keychain (delete account (keychain w)) w else w), Some ((), Ok ())).
Proof.
  intros Hst f. unfold delete_in. live_steps. rewrite Hst. destruct (writable w); cbn -[json_path tmp_path file_stem path_join trim app]; fold f; by destruct (files w !! json_path f).
Qed.
Lemma json_path_inj (d x y : string) : json_path (d, x) = json_path (d, y) → x = y.
Proof.
  unfold json_path, path_join. cbn. repeat case_match; intros E; rewrite ?str_app_assoc in E; try (apply (f_equal chars) in E; rewrite !chars_app in E; simplify_list_eq).
  all: by apply (inj chars).
Qed.
(** C33: On a platform other than macOS, what is stored is found again, in the Secret Service or, where that cannot be
    written, in the private file; what is deleted is gone; the secrets of an account with another file stay. This is
    for a secret that is not empty and has no white space at its ends, a known state directory, files that work, and a
    Secret Service that can be read when it can be written, and shows nothing older when it cannot ([settled];
    [stale_keychain] shows the other case). *)
Theorem store_roundtrip account s w : is_Some (state_dir env) → trim s = s → s ≠ "" → settled account w →
  let w1 := (set_in account s w).1 in let w2 := (delete_in account w1).1 in
  (set_in account s w).2 = Some ((), Ok ()) ∧ get_in account w1 = Some ((), Ok (Some s)) ∧
  (delete_in account w1).2 = Some ((), Ok ()) ∧ get_in account w2 = Some ((), Ok None) ∧
  ∀ other, file_stem other ≠ file_stem account → get_in other w1 = get_in other w ∧ get_in other w2 = get_in other w.
Proof.
  intros [st Hst] Ht Hs Hw. cbn zeta. rewrite (live_set _ _ _ st), (live_delete _ _ st), !(live_get _ _ st) by done. cbn [fst snd].
  set (d := path_join st SERVICE). set (f := (d, file_stem account)). split; [done|]. unfold settled in Hw. destruct (writable w) eqn:Ew.
  - split; [|split; [done|split]].
    + unfold found. cbn. by rewrite Hw, lookup_insert_eq, Ht, bool_decide_eq_false_2.
    + unfold found. cbn. rewrite Ew. cbn. by rewrite Hw, lookup_delete_eq, lookup_delete_eq.
    + intros other Ho. rewrite !(live_get _ _ st) by done. unfold found. cbn. rewrite Ew. cbn. fold d.
      assert (account ≠ other) by congruence. assert (json_path f ≠ json_path (d, file_stem other)) by (by intros E%json_path_inj).
      by rewrite delete_insert_eq, !lookup_delete_ne, !lookup_insert_ne.
  - assert ((if readable w then keychain w !! account else None) = None) as Hn by (destruct Hw as [->| ->]; [done|by destruct (readable w)]).
    split; [|split; [done|split]].
    + unfold found. cbn. by rewrite Hn, lookup_insert_eq.
    + unfold found. cbn. rewrite Ew. cbn. by rewrite Hn, lookup_delete_eq.
    + intros other Ho. rewrite !(live_get _ _ st) by done. unfold found. cbn. rewrite Ew. cbn. fold d.
      assert (json_path f ≠ json_path (d, file_stem other)) by (by intros E%json_path_inj). assert (tmp_path f ≠ json_path (d, file_stem other)) by apply tmp_not_json.
      by rewrite lookup_delete_ne, !lookup_insert_ne, lookup_delete_ne, lookup_insert_ne.
Qed.
End store.

Definition home (name : string) : option string := if bool_decide (name = "HOME") then Some "/home/u" else None.
Definition locked : World := mkWorld {[ "cli@i" := "old" ]} true false ∅.
(** A secret left in a keychain that can be read but not written hides what is stored after it. *)
Example stale_keychain : (set_in home "cli@i" "new" locked).2 = Some ((), Ok ()) ∧ get_in home "cli@i" (set_in home "cli@i" "new" locked).1 = Some ((), Ok (Some "old")).
Proof. vm_compute. done. Qed.
(** Accounts that differ only in other characters than letters and digits share a file. *)
Example shared_file : file_stem "cli@https://h/realms/a-b" = file_stem "cli@https://h/realms/a_b".
Proof. reflexivity. Qed.

Lemma store_roundtrip_witness :
  let w1 := (set_in home "cli@i" "new" (mkWorld ∅ false false ∅)).1 in let w2 := (delete_in home "cli@i" w1).1 in
  (set_in home "cli@i" "new" (mkWorld ∅ false false ∅)).2 = Some ((), Ok ()) ∧ get_in home "cli@i" w1 = Some ((), Ok (Some "new")) ∧
  (delete_in home "cli@i" w1).2 = Some ((), Ok ()) ∧ get_in home "cli@i" w2 = Some ((), Ok None) ∧
  ∀ other, file_stem other ≠ file_stem "cli@i" → get_in home other w1 = get_in home other (mkWorld ∅ false false ∅) ∧ get_in home other w2 = get_in home other (mkWorld ∅ false false ∅).
Proof. apply (store_roundtrip home "cli@i" "new"); [by eexists|reflexivity|done|by left]. Defined.
Lemma login_ends_witness :
  let a := mkDeviceAuth "d" "u" "v" None 3 (Some 0%N) in let l := [mkEvent Now (5%N : Ans Now)] in let c := mkClient "i" "cli" "cli@i" in
  let polled rounds := exec Ans idle (poll_login (H := Json.Reference.serde) (λ _, Ok (Object [("error", Str "slow_down")])) false home rounds c a (u64_add 5 3) 1 ()) l in
  polled 7 = polled 5.
Proof. apply (login_ends (H := Json.Reference.serde) (λ _, Ok (Object [("error", Str "slow_down")])) false home idle (mkClient "i" "cli" "cli@i") (mkDeviceAuth "d" "u" "v" None 3 (Some 0%N)) 2 [] 5%N idle_clock_runs). Defined.
