(* ===== verification/Keycloak.v ===== *)
(** * The Keycloak helper ([apps/app-bootstrap/src/keycloak.rs])

    Looking up users and the members of a group with an admin session, and the invitations by email with their ledger in
    a ConfigMap. Usernames are ASCII, so that lowering a letter is lowering a byte. *)

From Stdlib Require Import Ascii.
From stdpp Require Import options.
From S2P Require Import Prelude Text Json Codec Threads Trace Markers Apps Bootstrap Servarr.

Record KeycloakUser : Type := mkKeycloakUser { sub : string; kc_email : option string }.
Record Account : Type := mkAccount { username : string; email : option string }.
Record Admin : Type := mkAdmin { kc_base : string; kc_realm : string; kc_token : string; kc_public : bool }.

(** A string that is there and not empty. *)
Definition filled (v : Value) : option string := e ← as_str v; if bool_decide (e = "") then None else Some e.
Definition account (u : Value) : option Account := name ← as_str (u.["username"]); Some (mkAccount name (filled (u.["email"]))).
Definition enabled (u : Value) : bool := negb (value_eqb (u.["enabled"]) (Bool false)).
Definition accounts (all : Value) : list Account := omap account (List.filter enabled (array_of all)).
Definition group_id (groups : Value) (name : string) : option string :=
  g ← List.find (λ g, value_is_str (g.["name"]) name) (array_of groups); as_str (g.["id"]).
Definition member_names (members : Value) : list string := (λ m, to_lowercase (username m)) <$> omap account (array_of members).
Definition has_password (credentials : Value) : bool := existsb (λ c, value_is_str (c.["type"]) "password") (array_of credentials).
(** Neither in the ledger nor with a password. *)
Definition needs_invite (sent : list string) (id : string) (credentials : Value) : bool :=
  negb (existsb (λ k, String.eqb k id) sent) && negb (has_password credentials).

Example keycloak_tests :
  let pw := Array [Object [("type", Str "password")]] in let otp := Array [Object [("type", Str "otp")]] in
  needs_invite [] "a" (Array []) = true ∧ needs_invite [] "a" otp = true ∧ needs_invite [] "a" pw = false ∧
  needs_invite ["a"] "a" (Array []) = false ∧ needs_invite ["b"] "a" (Array []) = true.
Proof. vm_compute. done. Qed.

Section keycloak.
Context `{SerdeJson, Libs} (env : string → option string).

Definition keycloak_url : string := var env "KEYCLOAK_URL" "http://keycloak.identity.svc.cluster.local:8080".
Definition keycloak_user : string := var env "KEYCLOAK_USER" "admin".
Definition realm : string := var env "KEYCLOAK_REALM" "default".
(** The headers every request of a public session carries. *)
Definition as_public (public : bool) (rq : Req) : Req :=
  if public then with_header ("x-forwarded-port", "443") (with_header ("x-forwarded-proto", "https") rq) else rq.
Definition admin_login base (public : bool) (password : string) : Req :=
  as_public public (with_body (FormBody [("grant_type", "password"); ("client_id", "admin-cli"); ("username", keycloak_user); ("password", password)])
    (plain "POST" (base +:+ "/realms/master/protocol/openid-connect/token"))).
Definition sign_in base (public : bool) (password : string) : Job string :=
  r ← send (admin_login base public password);
  r ← ok r "keycloak admin login";
  v ← json_body r;
  need (as_str (v.["access_token"])) "keycloak login response has no access_token".

Definition user_query : list (string * string) := [("username", var env "OIDC_USERNAME" "tristan"); ("exact", "true")].
Definition user_lookup base (token : string) : Req :=
  with_query user_query (with_header (bearer token) (plain "GET" (base +:+ "/admin/realms/" +:+ realm +:+ "/users"))).
Definition user : Job KeycloakUser :=
  let base := no_slash keycloak_url in
  let username := var env "OIDC_USERNAME" "tristan" in
  password ← secret env "KEYCLOAK_PASSWORD";
  retry ("looking up keycloak user " +:+ username) 120 (
    token ← sign_in base false password;
    r ← send (user_lookup base token);
    r ← ok r "keycloak user lookup";
    users ← json_body r;
    u ← need (l ← as_array users; head l) ("keycloak user " +:+ username +:+ " not found yet");
    sub ← need (as_str (u.["id"])) "keycloak user has no id";
    mret (mkKeycloakUser sub (filled (u.["email"])))).

Definition admin_as (public : bool) : Job Admin :=
  let base := no_slash keycloak_url in
  password ← secret env "KEYCLOAK_PASSWORD";
  token ← retry "keycloak admin login" 24 (sign_in base public password);
  mret (mkAdmin base realm token public).
Definition admin : Job Admin := admin_as false.
Definition admin_req (a : Admin) (method path : string) (query : list (string * string)) : Req :=
  as_public (kc_public a) (with_query query (with_header (bearer (kc_token a)) (plain method (kc_base a +:+ "/admin/realms/" +:+ kc_realm a +:+ path)))).
Definition admin_get (a : Admin) (path : string) (query : list (string * string)) : Job Value :=
  r ← send (admin_req a "GET" path query); r ← ok r ("keycloak GET " +:+ path); json_body r.
Definition users : Job (list Account) :=
  a ← admin; all ← admin_get a "/users" [("max", "1000")]; mret (accounts all).
Definition group_query (name : string) : list (string * string) := [("search", name); ("exact", "true")].
Definition members_path (id : string) : string := "/groups/" +:+ id +:+ "/members".
Definition group_members (name : string) : Job (list string) :=
  a ← admin;
  groups ← admin_get a "/groups" (group_query name);
  match group_id groups name with
  | None => mret []
  | Some id => members ← admin_get a (members_path id) [("max", "1000")]; mret (member_names members)
  end.

(** ** Invitations *)

Definition csv (s : string) : list string := List.filter (λ s, negb (bool_decide (s = ""))) (trim <$> split_char "," s).
Definition actions : list string := csv (var env "INVITE_ACTIONS" "UPDATE_PASSWORD,VERIFY_EMAIL").
Definition invite_req (a : Admin) (id : string) : Req :=
  with_body (JsonBody (Array (Str <$> actions))) (admin_req a "PUT" ("/users/" +:+ id +:+ "/execute-actions-email") [("lifespan", var env "INVITE_LIFESPAN" "604800")]).
Definition ledger : string := var env "INVITE_LEDGER" "keycloak-invites".
Definition invite_member (a : Admin) (k : Kube) (sent : list string) (m : Value) : Job () :=
  match as_str (m.["id"]), filled (m.["email"]) with
  | Some id, Some email =>
      if negb (enabled m) then mret ()
      else
        credentials ← admin_get a ("/users/" +:+ id +:+ "/credentials") [];
        if negb (needs_invite sent id credentials) then mret ()
        else
          r ← send (invite_req a id); _ ← ok r "keycloak execute-actions-email";
          _ ← config_map_set k ledger id email;
          say ("keycloak invite: sent " +:+ join "+" actions +:+ " to " +:+ email)
  | _, _ => mret ()
  end.
Definition invite (from_pem : string → Result () string) : Job () :=
  a ← admin_as true;
  let group := var env "INVITE_GROUP" "family" in
  groups ← admin_get a "/groups" (group_query group);
  match group_id groups group with
  | None => say ("keycloak invite: no group " +:+ group)
  | Some gid =>
      members ← admin_get a (members_path gid) [("max", "1000")];
      k ← kube_new env from_pem;
      sent ← config_map_keys k ledger;
      for_each Ans (array_of members) (invite_member a k sent)
  end.
End keycloak.

(** ** Looking up the user, by the judgement of [Trace] *)

Section judge.
Context `{SerdeJson, Libs} (allowed : Log → Act → Prop) (env : string → option string).
Notation okay := (Trace.okay Ans allowed (St := list string) (Fa := string)).
#[local] Set Default Proof Using "Type".

(** The identity is one that was looked up. *)
Definition told_user (l : Log) (kc : KeycloakUser) : Prop := ∃ token all u, answered l (user_lookup env (no_slash (keycloak_url env)) token) all ∧
  (as_array all ≫= head) = Some u ∧ as_str (u.["id"]) = Some (sub kc).
Lemma told_user_later l l' kc : l `prefix_of` l' → told_user l kc → told_user l' kc.
Proof. intros Hl (t & a & u & Ha & E). exists t, a, u. split; [by eapply answered_later|done]. Qed.
Lemma user_ok l : (∀ l' rq, rq_method rq = "GET" → allowed l' (Http rq)) → (∀ l' path, allowed l' (ReadFile path)) → (∀ l' ns, allowed l' (Sleep ns)) →
  (∀ l' base password, allowed l' (Http (admin_login env base false password))) → okay (user env) (λ kc l', told_user l' kc) l.
Proof.
  intros Hget Hfile Hsleep Hlogin. unfold user. cbv zeta. eapply okay_then; [by apply secret_okay|]. intros password l1 _ _. apply retry_ok; [done|]. intros l' _. unfold sign_in. eapply okay_then.
  { apply value_then; [apply Hlogin|]. intros v l2 _ _. eapply okay_mono; [apply need_ok|]. intros t ? _ _. exact I. }
  intros token l2 _ _. apply value_then; [by apply Hget|]. intros all l3 _ Ha. eapply okay_then; [apply need_ok|]. intros u ? _ [Eu ->].
  eapply okay_then; [apply need_ok|]. intros sub ? _ [Es ->]. apply okay_ret. by exists token, all, u.
Qed.
End judge.
