(* ===== verification/Ombi.v ===== *)
(** * Setting up Ombi ([apps/app-bootstrap/src/ombi.rs])

    The break-glass admin, the settings, the media servers, ntfy and one account for each Keycloak user. A settings
    object of the wrong shape makes the program panic: an error here. Usernames are ASCII. *)

From Stdlib Require Import Ascii.
From stdpp Require Import options.
From S2P Require Import Prelude Text Json Codec Threads Trace Markers Apps Bootstrap Servarr Keycloak.

Definition DEFAULT_FAMILY_ROLES : string := "RequestMovie,RequestTv,RequestMusic,ManageOwnRequests".
Definition DEFAULT_ADMIN_ROLES : string := "Admin,RequestMovie,RequestTv,RequestMusic,AutoApproveMovie,AutoApproveTv,AutoApproveMusic,ManageOwnRequests".
Definition NOTIFY_TYPES : list Z := [0; 1; 2; 3; 6; 7; 9; 12]%Z.
Definition PRIVILEGED : list string := ["Admin"; "PowerUser"; "AutoApproveMovie"; "AutoApproveTv"; "AutoApproveMusic"; "AutoApprove4KMovie"; "EditCustomPage"].

(** ** Values changed in place: None is a panic *)

Definition put_key (k : string) (x : Value) (v : Value) : option Value :=
  match v with Object m => Some (Object (insert_key k x m)) | Null => Some (Object [(k, x)]) | _ => None end.
(** [f(&mut v[k])]: a missing key is made, as null. *)
Definition update_key (k : string) (f : Value → option Value) (v : Value) : option Value :=
  match v with
  | Object m => x ← f (default Null (assoc k m)); Some (Object (insert_key k x m))
  | Null => x ← f Null; Some (Object [(k, x)])
  | _ => None
  end.
Definition update_first (f : Value → option Value) (v : Value) : option Value :=
  match v with Array (x :: l) => x ← f x; Some (Array (x :: l)) | _ => None end.
Definition set (fields : list (string * Value)) (v : Value) : option Value := foldl (λ v kv, v ≫= put_key kv.1 kv.2) (Some v) fields.
Definition is_null (v : Value) : bool := match v with Null => true | _ => false end.
(** No array, or an empty one. *)
Definition none_or_empty (v : Value) : bool := match v with Array (_ :: _) => false | _ => true end.

(** ** Roles: sets of strings, as sorted lists *)

Fixpoint add_role (r : string) (s : list string) : list string :=
  match s with
  | [] => [r]
  | x :: s' => match String.compare r x with Eq => s | Lt => r :: s | Gt => x :: add_role r s' end
  end.
Definition role_set (l : list string) : list string := foldr add_role [] l.
Definition wanted_roles (admin family : bool) (admin_roles family_roles : list string) : list string :=
  if admin then role_set admin_roles else if family then role_set family_roles else ["Disabled"].
Definition enabled_roles (user : Value) : list string :=
  role_set (omap (λ c, as_str (c.["value"])) (List.filter (λ c, value_eqb (c.["enabled"]) (Bool true)) (array_of (user.["claims"])))).
Definition has_role (s : list string) (r : string) : bool := existsb (String.eqb r) s.
Definition lost_privilege (current want : list string) : bool := existsb (λ r, has_role current r && negb (has_role want r)) PRIVILEGED.
Definition claims (roles : list string) : Value := Array ((λ r, Object [("enabled", Bool true); ("value", Str r)]) <$> roles).

Definition NAMES : list string :=
  ["NewRequest"; "Issue"; "RequestAvailable"; "RequestApproved"; "AdminNote"; "Test"; "RequestDeclined"; "ItemAddedToFaultQueue"; "WelcomeEmail"; "IssueResolved";
   "IssueComment"; "Newsletter"; "PartiallyAvailable"; "PlexWatchlistTokenExpired"; "RequestDeleted"; "IssueInProgress"; "IssueDeleted"].
Fixpoint position_from (i : Z) (s : string) (l : list string) : option Z :=
  match l with [] => None | n :: l => if String.eqb n s then Some i else position_from (i + 1) s l end.
Definition notification_type (t : Value) : option Z :=
  match value_as_i64 t with Some z => Some z | None => as_str t ≫= λ s, position_from 0 s NAMES end.

Definition parse_u16 : string → option N := parse_uint 65536.
(** [str::split_once] with a string *)
Definition split_at_str (p s : string) : option (string * string) := '(a, b) ← find_list (chars p) (chars s); Some (str a, str b).
Definition url_parts (url : string) : option (bool * string * N) :=
  let '(ssl, rest) := match split_at_str "://" url with Some (scheme, r) => (String.eqb scheme "https", r) | None => (false, url) end in
  let hostport := no_slash rest in
  match rsplit_once ":" hostport with
  | Some (h, p) => port ← parse_u16 p; Some (ssl, h, port)
  | None => Some (ssl, hostport, if ssl : bool then 443%N else 80%N)
  end.
(** [Iterator::min_by_key]: the first of the least. *)
Fixpoint least {A} (key : A → Z) (best : A) (l : list A) : A :=
  match l with [] => best | x :: l => least key (if (key x <? key best)%Z then x else best) l end.
Definition profile_key (p : Value) : Z := default 9223372036854775807%Z (value_as_i64 (p.["id"])).
Definition profile_id (profiles : Value) (want : string) : option Z :=
  all ← as_array profiles;
  p ← match List.find (λ p, value_is_str (p.["name"]) want) all with Some p => Some p | None => match all with [] => None | p :: l => Some (least profile_key p l) end end;
  value_as_i64 (p.["id"]).
Definition root_id (roots : Value) (path : string) : option Z :=
  all ← as_array roots;
  r ← List.find (λ r, match as_str (r.["path"]) with Some p => String.eqb (no_slash p) (no_slash path) | None => false end) all;
  value_as_i64 (r.["id"]).

(** The program's own tests. *)
Example ombi_tests :
  let a := ["Admin"; "RequestMovie"] in let f := ["RequestMovie"] in
  length (wanted_roles true true a f) = 2 ∧ wanted_roles false true a f = ["RequestMovie"] ∧ wanted_roles false false a f = ["Disabled"] ∧
  lost_privilege a f = true ∧ lost_privilege ["Admin"] ["Disabled"] = true ∧ lost_privilege ["ManageOwnRequests"; "RequestMovie"] f = false ∧ lost_privilege f a = false ∧
  enabled_roles (Object [("claims", Array [Object [("enabled", Bool true); ("value", Str "Admin")]; Object [("enabled", Bool false); ("value", Str "RequestTv")]])]) = ["Admin"] ∧
  notification_type (json_i64 2) = Some 2%Z ∧ notification_type (Str "RequestDeclined") = Some 6%Z ∧ notification_type (Str "Nope") = None ∧
  url_parts "http://jellyfin.media.svc.cluster.local:8096" = Some (false, "jellyfin.media.svc.cluster.local", 8096%N) ∧ url_parts "https://x.example/" = Some (true, "x.example", 443%N) ∧
  (let p := Array [Object [("id", json_i64 4); ("name", Str "Any")]; Object [("id", json_i64 2); ("name", Str "HD-1080p")]] in
   profile_id p "HD-1080p" = Some 2%Z ∧ profile_id p "missing" = Some 2%Z) ∧
  root_id (Array [Object [("id", json_i64 7); ("path", Str "/media/tv/")]]) "/media/tv" = Some 7%Z.
Proof. vm_compute. done. Qed.

(** ** The API *)

Record Api : Type := mkApi { ap_base : string; ap_headers : list (string * string) }.

Section ombi.
Context `{SerdeJson, Libs} (env : string → option string).
Implicit Types (base path : string).

Definition api_req (a : Api) (method path : string) (body : Body) : Req :=
  with_body body (foldl (λ rq h, with_header h rq) (plain method (ap_base a +:+ path)) (ap_headers a)).
Definition text_value (text : string) : Value := if bool_decide (trim text = "") then Null else match from_str text with Ok v => v | Err _ => Str text end.
Definition api_call (a : Api) (method path : string) (body : Body) : Job Value :=
  r ← send (api_req a method path body);
  r ← ok r (method +:+ " " +:+ path);
  match rs_text r with
  | Err e => fail e
  | Ok text => mret (text_value text)
  end.
Definition api_get (a : Api) path : Job Value := api_call a "GET" path NoBody.
Definition api_post (a : Api) path (body : Value) : Job Value := api_call a "POST" path (JsonBody body).
Definition api_put (a : Api) path (body : Value) : Job Value := api_call a "PUT" path (JsonBody body).
Definition is_true (v : Value) : bool := value_eqb v (Bool true).
Definition ensure (a : Api) path (label : string) (change : Value → option Value) : Job () :=
  before ← api_get a path;
  cur ← need (change before) "panicked";
  if value_eqb cur before then say ("ombi: " +:+ label +:+ " already as declared")
  else
    r ← api_post a path cur;
    if value_eqb r (Bool false) then fail ("ombi refused the " +:+ label +:+ " settings") else say ("ombi: updated " +:+ label).

(** ** The admin *)

Definition token_login base user password : Req :=
  with_body (JsonBody (Object [("password", Str password); ("rememberMe", Bool true); ("username", Str user)])) (plain "POST" (base +:+ "/api/v1/Token")).
Definition login base user password : Job (option string) :=
  r ← send (token_login base user password);
  if bool_decide (rs_status r = 401%N) then mret None
  else r ← ok r "POST /api/v1/Token"; v ← json_body r; mret (as_str (v.["access_token"])).
Definition wizard base user password : Req :=
  with_body (JsonBody (Object [("password", Str password); ("usePlexAdminAccount", Bool false); ("username", Str user)])) (plain "POST" (base +:+ "/api/v1/Identity/Wizard")).
Definition admin_session base : Job string :=
  let user := var env "ADMIN_USER" "ombi-admin" in
  password ← secret env "ADMIN_PASSWORD";
  t ← login base user password;
  match t with
  | Some t => mret t
  | None =>
      _ ← say ("ombi: no " +:+ user +:+ " yet, running the first-run wizard");
      r ← send (wizard base user password); r ← ok r "POST /api/v1/Identity/Wizard"; v ← json_body r;
      if negb (is_true (v.["result"])) then fail ("the wizard refused to create " +:+ user)
      else t ← login base user password; need t "login after the wizard failed"
  end.

(** ** Media servers *)

Definition JELLYFIN_CLIENT : string :=
  "MediaBrowser Client=" +:+ quote +:+ "app-bootstrap" +:+ quote +:+ ", Device=" +:+ quote +:+ "ombi-bootstrap" +:+ quote +:+ ", DeviceId=" +:+ quote +:+ "app-bootstrap-ombi" +:+ quote
  +:+ ", Version=" +:+ quote +:+ "1" +:+ quote.
Definition emby_header (h : string) (rq : Req) : Req := with_header ("x-emby-authorization", h) rq.
Definition find_key base hdr : Job (option string) :=
  r ← send (emby_header hdr (plain "GET" (base +:+ "/Auth/Keys"))); r ← ok r "GET /Auth/Keys"; v ← json_body r;
  mret (k ← List.find (λ k, value_is_str (k.["AppName"]) "Ombi") (array_of (v.["Items"])); as_str (k.["AccessToken"])).
Definition jellyfin_key base : Job string :=
  let user := var env "JELLYFIN_ADMIN_USER" "admin" in
  pw ← secret env "JELLYFIN_ADMIN_PASSWORD";
  r ← send (with_body (JsonBody (Object [("Pw", Str pw); ("Username", Str user)])) (emby_header JELLYFIN_CLIENT (plain "POST" (base +:+ "/Users/AuthenticateByName"))));
  r ← ok r "POST /Users/AuthenticateByName"; v ← json_body r;
  token ← need (as_str (v.["AccessToken"])) "jellyfin login has no AccessToken";
  let hdr := JELLYFIN_CLIENT +:+ ", Token=" +:+ quote +:+ token +:+ quote in
  k ← find_key base hdr;
  match k with
  | Some k => mret k
  | None =>
      r ← send (with_query [("app", "Ombi")] (emby_header hdr (plain "POST" (base +:+ "/Auth/Keys")))); _ ← ok r "POST /Auth/Keys";
      k ← find_key base hdr; need k "jellyfin API key not listed after creation"
  end.
Definition is_video (l : Value) : bool := value_is_str (l.["CollectionType"]) "movies" || value_is_str (l.["CollectionType"]) "tvshows".
Definition selected_libraries (libs : Value) : list Value :=
  (λ l, Object [("collectionType", l.["CollectionType"]); ("enabled", Bool true); ("key", l.["ItemId"]); ("title", l.["Name"])]) <$> List.filter is_video (array_of libs).
Definition jellyfin_server (host : string) (port : N) (ssl : bool) (key public : string) (info : Value) (selected : list Value) (srv : Value) : option Value :=
  srv ← set [("ip", Str host); ("port", Number (PosInt port)); ("ssl", Bool ssl); ("subDir", Str ""); ("apiKey", Str key); ("serverHostname", Str public)] srv;
  srv ← (if is_null (srv.["name"]) then
           srv ← put_key "name" (if is_null (info.["serverName"]) then Str "Jellyfin" else info.["serverName"]) srv;
           srv ← put_key "serverId" (info.["id"]) srv; put_key "enableEpisodeSearching" (Bool true) srv
         else Some srv);
  if none_or_empty (srv.["jellyfinSelectedLibraries"]) then put_key "jellyfinSelectedLibraries" (Array selected) srv else Some srv.
Definition jellyfin_settings host port ssl key public info selected (s : Value) : option Value :=
  s ← put_key "enable" (Bool true) s;
  s ← (if none_or_empty (s.["servers"]) then put_key "servers" (Array [Object []]) s else Some s);
  update_key "servers" (update_first (jellyfin_server host port ssl key public info selected)) s.
Definition wire_jellyfin (a : Api) : Job () :=
  let url := var env "JELLYFIN_URL" "http://jellyfin.media.svc.cluster.local:8096" in
  '(ssl, host, port) ← need (url_parts url) "invalid digit found in string";
  key ← jellyfin_key (no_slash url);
  '(_, public, _) ← need (url_parts (var env "JELLYFIN_PUBLIC_URL" url)) "invalid digit found in string";
  info ← api_post a "/api/v1/Jellyfin/info" (Object [("apiKey", Str key); ("ip", Str host); ("port", Number (PosInt port)); ("ssl", Bool ssl); ("subDir", Str "")]);
  r ← send (with_header ("x-emby-token", key) (plain "GET" (no_slash url +:+ "/Library/VirtualFolders"))); r ← ok r "GET /Library/VirtualFolders"; libs ← json_body r;
  let selected := selected_libraries libs in
  if bool_decide (selected = []) then fail "jellyfin has no movie or TV library to enable"
  else ensure a "/api/v1/Settings/jellyfin" "Jellyfin" (jellyfin_settings host port ssl key public info selected).

Definition common_fields (key host : string) (port : Z) : list (string * Value) :=
  [("enabled", Bool true); ("apiKey", Str key); ("ip", Str host); ("port", json_i64 port); ("ssl", Bool false); ("subDir", Str "")].
Definition sonarr_settings (common : list (string * Value)) (profile root_id : string) (s : Value) : option Value :=
  s ← set common s;
  set [("qualityProfile", Str profile); ("qualityProfileAnime", Str profile); ("rootPath", Str root_id); ("rootPathAnime", Str root_id); ("seasonFolders", Bool true);
       ("scanForAvailability", Bool true)] s.
Definition radarr_settings (common : list (string * Value)) (profile root_id : string) (s : Value) : option Value :=
  update_key "radarr" (λ r,
    r ← set common r;
    r ← set [("defaultQualityProfile", Str profile); ("defaultRootPath", Str root_id); ("scanForAvailability", Bool true)] r;
    if is_null (r.["minimumAvailability"]) then put_key "minimumAvailability" (Str "Released") r else Some r) s.
Definition lidarr_settings (common : list (string * Value)) (profile root_id : string) (metadata : Z) (s : Value) : option Value :=
  s ← set common s;
  set [("defaultQualityProfile", Str profile); ("defaultRootPath", Str root_id); ("metadataProfileId", json_i64 metadata); ("albumFolder", Bool true)] s.
Definition to_uppercase (s : string) : string := str (to_upper_char <$> chars s).
Definition wire_one (a : Api) (app : string * string * string * string) : Job () :=
  let '(kind, api_ver, root_default, profile_default) := app in
  let up := to_uppercase kind in
  key ← optional_secret env (up +:+ "_API_KEY");
  match key with
  | None => mret ()
  | Some key =>
      let host := var env (up +:+ "_HOST") (kind +:+ ".media.svc.cluster.local") in
      port ← need (parse_i64 (var env (up +:+ "_PORT_NUMBER") "80")) "invalid digit found in string";
      let root := var env (up +:+ "_ROOT") root_default in
      let want := var env (up +:+ "_PROFILE") profile_default in
      let s := mkServarr ("http://" +:+ host +:+ ":" +:+ pretty port) key api_ver in
      _ ← wait s kind;
      profiles ← get s "/qualityprofile";
      profile ← need (profile_id profiles want) (kind +:+ " has no quality profile");
      roots ← get s "/rootfolder";
      root_id ← need (root_id roots root) (kind +:+ " has no root folder " +:+ root +:+ " (the arr bootstrap creates it)");
      let common := common_fields key host port in
      if String.eqb kind "sonarr" then ensure a "/api/v1/Settings/sonarr" "Sonarr" (sonarr_settings common (pretty profile) (pretty root_id))
      else if String.eqb kind "radarr" then ensure a "/api/v1/Settings/radarr" "Radarr" (radarr_settings common (pretty profile) (pretty root_id))
      else
        metadata ← get s "/metadataprofile";
        metadata ← need (list_min (ids_of (array_of metadata))) "lidarr has no metadata profile";
        ensure a "/api/v1/Settings/lidarr" "Lidarr" (lidarr_settings common (pretty profile) (pretty root_id) metadata)
  end.
Definition ARRS : list (string * string * string * string) :=
  [("sonarr", "v3", "/media/tv", "WEB-1080p"); ("radarr", "v3", "/media/movies", "HD-1080p"); ("lidarr", "v1", "/media/music", "")].
Definition wire_arr (a : Api) : Job () := for_each Ans ARRS (wire_one a).

(** ** Notifications and the settings *)

Definition declared (n : Value) : bool := match notification_type n with Some z => bool_decide (z ∈ NOTIFY_TYPES) | None => false end.
(** Exactly the declared set. *)
Definition set_template (t : Value) : option Value := put_key "enabled" (Bool (declared (t.["notificationType"]))) t.
Definition ntfy_settings (url topic : string) (priority : Z) (authorization : option string) (s : Value) : option Value :=
  s ← set [("enabled", Bool true); ("baseUrl", Str url); ("topic", Str topic); ("priority", json_i64 priority)] s;
  s ← match authorization with Some h => put_key "authorizationHeader" (Str h) s | None => Some s end;
  update_key "notificationTemplates" (λ v, match v with Array l => l ← mapM set_template l; Some (Array l) | v => Some v end) s.
Definition wire_ntfy (a : Api) : Job () :=
  let url := var env "NTFY_URL" "" in
  if bool_decide (url = "") then mret ()
  else
    let topic := var env "NTFY_TOPIC" "media" in
    priority ← need (parse_i64 (var env "NTFY_PRIORITY" "2")) "invalid digit found in string";
    token ← optional_secret env "NTFY_TOKEN";
    ensure a "/api/v1/Settings/notifications/ntfy" "ntfy" (ntfy_settings url topic priority ((λ t, "Bearer " +:+ t) <$> token)).
Definition family_roles : list string := csv (var env "FAMILY_ROLES" DEFAULT_FAMILY_ROLES).
Definition admin_roles : list string := csv (var env "ADMIN_ROLES" DEFAULT_ADMIN_ROLES).
Definition wire_ombi (a : Api) : Job () :=
  key ← secret env "OMBI_API_KEY";
  _ ← ensure a "/api/v1/Settings/ombi" "Ombi" (set [("apiKey", Str key); ("collectAnalyticData", Bool false)]);
  let header := var env "AUTH_HEADER" "X-Auth-Request-Preferred-Username" in
  _ ← ensure a "/api/v1/Settings/authentication" "authentication"
        (set [("enableHeaderAuth", Bool true); ("headerAuthVariable", Str header); ("headerAuthCreateUser", Bool true); ("allowNoPassword", Bool false)]);
  _ ← ensure a "/api/v1/Settings/UserManagement" "user management" (set [("defaultRoles", Array (Str <$> family_roles)); ("importJellyfinUsers", Bool true)]);
  match env "PUBLIC_URL" with
  | Some url => ensure a "/api/v1/Settings/customization" "application URL" (put_key "applicationUrl" (Str (no_slash url)))
  | None => mret ()
  end.

(** ** Accounts *)

(** Twenty-four bytes of [/dev/urandom]. *)
Definition random_password : Job string :=
  t ← read_to_string "/dev/urandom";
  if (String.length t <? 24)%nat then fail "failed to fill whole buffer" else mret ("A!" +:+ hex (str (take 24 (chars t)))).
Definition named (name : string) (u : Value) : bool := match as_str (u.["userName"]) with Some n => String.eqb (to_lowercase n) name | None => false end.
Definition create_body (kc : Account) (password : string) (want : list string) : Value :=
  Object [("alias", Str ""); ("claims", claims want); ("emailAddress", Str (default "" (email kc))); ("episodeRequestLimit", json_i64 0); ("movieRequestLimit", json_i64 0);
          ("musicRequestLimit", json_i64 0); ("password", Str password); ("streamingCountry", Str "US"); ("userName", Str (username kc))].
Definition delete_path (id : string) : string := "/api/v1/Identity/" +:+ id.
(** The account that is left after a lost privilege has been dealt with. *)
Definition drop_privileged (a : Api) (name : string) (want : list string) (existing : option Value) : Job (option Value) :=
  match existing with
  | None => mret None
  | Some u =>
      if negb (lost_privilege (enabled_roles u) want) then mret (Some u)
      else
        id ← need (as_str (u.["id"])) "ombi user without an id";
        r ← api_call a "DELETE" (delete_path id) NoBody;
        if negb (is_true (r.["successful"])) then fail ("deleting " +:+ name)
        else _ ← say ("ombi: " +:+ name +:+ " lost privileged roles; account deleted so its token stops working"); mret None
  end.
Definition settle_account (a : Api) (kc : Account) (name : string) (want : list string) (existing : option Value) : Job () :=
  match existing with
  | Some u =>
      if bool_decide (enabled_roles u = want) then mret ()
      else
        body ← need (put_key "claims" (claims want) u) "panicked";
        r ← api_put a "/api/v1/Identity" body;
        if negb (is_true (r.["successful"])) then fail ("updating " +:+ name) else say ("ombi: " +:+ name +:+ " roles -> " +:+ join ", " want)
  | None =>
      if has_role want "Disabled" then mret ()
      else
        password ← random_password;
        r ← api_post a "/api/v1/Identity" (create_body kc password want);
        if negb (is_true (r.["successful"])) then fail ("creating " +:+ name) else say ("ombi: created " +:+ name +:+ " with " +:+ join ", " want)
  end.
Definition breakglass : string := to_lowercase (var env "ADMIN_USER" "ombi-admin").
Definition wanted (admins family : list string) (name : string) : list string :=
  wanted_roles (has_role admins name) (has_role family name) admin_roles family_roles.
Definition sync_one (a : Api) (admins family : list string) (ombi_users : Value) (kc : Account) : Job () :=
  let name := to_lowercase (username kc) in
  if bool_decide (name = breakglass) then mret ()
  else
    let want := wanted admins family name in
    existing ← drop_privileged a name want (List.find (named name) (array_of ombi_users));
    settle_account a kc name want existing.
Definition known_roles (v : Value) : list string := omap (λ c, as_str (c.["value"])) (array_of v).
Definition sync_users (a : Api) : Job () :=
  if negb (bool_decide (is_Some (env "KEYCLOAK_PASSWORD_FILE"))) && negb (bool_decide (is_Some (env "KEYCLOAK_PASSWORD"))) then
    say "ombi: no Keycloak credentials, not syncing accounts"
  else
    let admin_group := var env "ADMIN_GROUP" "admin" in
    let family_group := var env "FAMILY_GROUP" "family" in
    all_users ← users env;
    admins ← group_members env admin_group;
    family ← group_members env family_group;
    if bool_decide (admins = []) && bool_decide (family = []) then fail "the keycloak groups have no members (or do not exist); not touching Ombi accounts"
    else
      known ← api_get a "/api/v1/Identity/claims";
      match List.find (λ r, negb (has_role (known_roles known) r)) (admin_roles ++ family_roles) with
      | Some r => fail ("ombi has no role " +:+ r)
      | None =>
          ombi_users ← api_get a "/api/v1/Identity/Users";
          for_each Ans all_users (sync_one a admins family ombi_users)
      end.

Definition run : Job () :=
  let base := no_slash (var env "OMBI_URL" "http://ombi.media.svc.cluster.local:3579") in
  _ ← retry "waiting for ombi" 120 (r ← send (plain "GET" (base +:+ "/api/v1/Settings/baseurl")); _ ← ok r "GET /api/v1/Settings/baseurl"; mret ());
  if String.eqb (var env "OMBI_MODE" "full") "users" then
    key ← secret env "OMBI_API_KEY"; sync_users (mkApi base [("apikey", key)])
  else
    token ← admin_session base;
    let a := mkApi base [bearer token] in
    _ ← wire_ombi a;
    jellyfin ← optional_secret env "JELLYFIN_ADMIN_PASSWORD";
    _ ← (match jellyfin with Some _ => wire_jellyfin a | None => mret () end : Job ());
    _ ← wire_arr a;
    _ ← wire_ntfy a;
    sync_users a.
End ombi.
