(* ===== verification/OmbiSync.v ===== *)
(** * Ombi's accounts follow Keycloak's groups

    Which changes [sync_users] makes, whatever it is answered, and what holds when it ends well. *)

From Stdlib Require Import Ascii.
From stdpp Require Import options.
From S2P Require Import Prelude Text F64 Json Codec Threads Markers Trace Apps Bootstrap Servarr Wired Keycloak Ombi.

(** ** Sets of roles *)

Definition before (r x : string) : Prop := String.compare r x = Lt.
Lemma add_role_in x r s : x ∈ add_role r s ↔ x = r ∨ x ∈ s.
Proof.
  induction s as [|y s IH]; cbn [add_role]; [rewrite list_elem_of_singleton; split; [by left|intros [?|H]; [done|by apply not_elem_of_nil in H]]|].
  destruct (String.compare r y) eqn:E.
  - apply String.compare_eq_iff in E as ->. rewrite elem_of_cons. tauto.
  - by rewrite elem_of_cons.
  - rewrite !elem_of_cons, IH. tauto.
Qed.
Lemma role_set_in x l : x ∈ role_set l ↔ x ∈ l.
Proof. unfold role_set. induction l as [|r l IH]; [done|]. cbn [foldr]. by rewrite add_role_in, elem_of_cons, IH. Qed.
Lemma add_role_sorted r s : Sorted before s → Sorted before (add_role r s).
Proof.
  induction 1 as [|x s Hs IH Hx]; cbn [add_role]; [repeat constructor|]. destruct (String.compare r x) eqn:E; [by constructor|by repeat constructor|].
  constructor; [done|]. assert (before x r) as Hr by (unfold before; rewrite String.compare_antisym, E; done).
  destruct Hx as [|y s Hy]; cbn [add_role]; [by constructor|]. destruct (String.compare r y); constructor; done.
Qed.
Lemma role_set_sorted l : Sorted before (role_set l).
Proof. unfold role_set. induction l as [|r l IH]; cbn [foldr]; [constructor|by apply add_role_sorted]. Qed.
Lemma role_set_sorted_id s : Sorted before s → role_set s = s.
Proof.
  unfold role_set. induction 1 as [|x s Hs IH Hx]; [done|]. cbn [foldr]. rewrite IH. destruct Hx as [|y s Hy]; [done|]. cbn [add_role]. unfold before in Hy. by rewrite Hy.
Qed.
Lemma has_role_in s r : has_role s r = true ↔ r ∈ s.
Proof. unfold has_role. rewrite existsb_exists. setoid_rewrite String.eqb_eq. split; [intros (x & Hx & ->); by apply list_elem_of_In|intros Hx; exists r; split; [by apply list_elem_of_In|done]]. Qed.
Lemma kept_privilege current want r : lost_privilege current want = false → r ∈ PRIVILEGED → r ∈ current → r ∈ want.
Proof.
  unfold lost_privilege. intros Hl Hp Hc. destruct (has_role want r) eqn:Ew; [by apply has_role_in|]. exfalso.
  assert (existsb (λ r, has_role current r && negb (has_role want r)) PRIVILEGED = true) as Ht; [|congruence].
  apply existsb_exists. exists r. split; [by apply list_elem_of_In|]. rewrite Ew. apply has_role_in in Hc. by rewrite Hc.
Qed.
Lemma wanted_roles_sorted admin family ar fr : Sorted before (wanted_roles admin family ar fr).
Proof. unfold wanted_roles. destruct admin; [apply role_set_sorted|]. destruct family; [apply role_set_sorted|repeat constructor]. Qed.
(** What is written is what is wanted. *)
Lemma written_roles u body want : Sorted before want → put_key "claims" (claims want) u = Some body → enabled_roles body = want.
Proof.
  intros Hs Hb. unfold enabled_roles. assert (body.["claims"] = claims want) as -> by (destruct u; try done; injection Hb as <-; [done|cbn; by rewrite assoc_insert]).
  transitivity (role_set want); [|by apply role_set_sorted_id]. f_equal. change (array_of (claims want)) with ((λ r, Object [("enabled", Bool true); ("value", Str r)]) <$> want). clear.
  induction want as [|r want IH]; [done|]. rewrite <- IH at 2. done.
Qed.

Section sync.
Context `{SerdeJson, Libs} (env : string → option string) (a : Api).
Implicit Types (l : Log) (name : string) (want : list string).

(** What Keycloak and Ombi answered. *)
Definition kc_req (tok path : string) (query : list (string * string)) : Req := admin_req (mkAdmin (no_slash (keycloak_url env)) (realm env) tok false) "GET" path query.
Definition listed l (us : list Account) : Prop := ∃ tok v, answered l (kc_req tok "/users" [("max", "1000")]) v ∧ us = accounts v.
Definition members_of l (g : string) (ms : list string) : Prop := ∃ tok v, answered l (kc_req tok "/groups" (group_query g)) v ∧
  match group_id v g with
  | None => ms = []
  | Some id => ∃ mv, answered l (kc_req tok (members_path id) [("max", "1000")]) mv ∧ ms = member_names mv
  end.
Definition gave l (rq : Req) (v : Value) : Prop := ∃ r t, mkEvent (Http rq) (Ok r : Ans (Http rq)) ∈ l ∧ is_success (rs_status r) = true ∧ rs_text r = Ok t ∧ v = text_value t.
Definition successful l (rq : Req) : Prop := ∃ v, gave l rq v ∧ is_true (v.["successful"]) = true.
Definition ombi_list l (uv : Value) : Prop := gave l (api_req a "GET" "/api/v1/Identity/Users" NoBody) uv.
Definition account_of l name (existing : option Value) : Prop := ∃ uv, ombi_list l uv ∧ List.find (named name) (array_of uv) = existing.
Definition groups_are l (admins family : list string) : Prop :=
  members_of l (var env "ADMIN_GROUP" "admin") admins ∧ members_of l (var env "FAMILY_GROUP" "family") family ∧ (admins ≠ [] ∨ family ≠ []).
(** Someone of Keycloak's users, and the roles of the groups. *)
Definition person l (kc : Account) name want : Prop := ∃ us admins family, listed l us ∧ groups_are l admins family ∧ kc ∈ us ∧
  name = to_lowercase (username kc) ∧ name ≠ breakglass env ∧ want = wanted env admins family name.
Definition delete_req (id : string) : Req := api_req a "DELETE" (delete_path id) NoBody.
Definition update_req (body : Value) : Req := api_req a "PUT" "/api/v1/Identity" (JsonBody body).
Definition create_req (kc : Account) (password : string) want : Req := api_req a "POST" "/api/v1/Identity" (JsonBody (create_body kc password want)).
(** The account lost a privilege, and is gone. *)
Definition removed l (u : Value) want : Prop := lost_privilege (enabled_roles u) want = true ∧ ∃ id, as_str (u.["id"]) = Some id ∧ successful l (delete_req id).

Inductive due l : Act → Prop :=
  | o_delete kc name want u id : person l kc name want → account_of l name (Some u) → lost_privilege (enabled_roles u) want = true → as_str (u.["id"]) = Some id →
      due l (Http (delete_req id))
  | o_update kc name want u body : person l kc name want → account_of l name (Some u) → lost_privilege (enabled_roles u) want = false → enabled_roles u ≠ want →
      put_key "claims" (claims want) u = Some body → due l (Http (update_req body))
  | o_create kc name want password : person l kc name want → "Disabled" ∉ want → (account_of l name None ∨ ∃ u, account_of l name (Some u) ∧ removed l u want) →
      due l (Http (create_req kc password want)).
Definition quiet (x : Act) : Prop :=
  match x with
  | Http rq => rq_method rq = "GET" ∨ ∃ password, rq = admin_login env (no_slash (keycloak_url env)) false password
  | ReadFile _ | Sleep _ => True
  | _ => False
  end.
Definition allowed l (x : Act) : Prop := quiet x ∨ due l x.

Lemma gave_later l l' rq v : l `prefix_of` l' → gave l rq v → gave l' rq v.
Proof. intros [k ->] (r & t & Hin & Hr). exists r, t. split; [by apply elem_of_app; left|done]. Qed.
Lemma listed_later l l' us : l `prefix_of` l' → listed l us → listed l' us.
Proof. intros Hl (tok & v & Hv & E). exists tok, v. split; [by eapply answered_later|done]. Qed.
Lemma members_later l l' g ms : l `prefix_of` l' → members_of l g ms → members_of l' g ms.
Proof.
  intros Hl (tok & v & Hv & E). exists tok, v. split; [by eapply answered_later|]. destruct (group_id v g); [|done]. destruct E as (mv & Hm & ->). exists mv. split; [by eapply answered_later|done].
Qed.
Lemma groups_later l l' admins family : l `prefix_of` l' → groups_are l admins family → groups_are l' admins family.
Proof. intros Hl (H1 & H2 & H3). split_and!; [by eapply members_later..|done]. Qed.
Lemma person_later l l' kc name want : l `prefix_of` l' → person l kc name want → person l' kc name want.
Proof. intros Hl (us & ad & fa & Hu & Hg & Hp). exists us, ad, fa. split_and!; [by eapply listed_later|by eapply groups_later|apply Hp..]. Qed.
Lemma account_later l l' name e : l `prefix_of` l' → account_of l name e → account_of l' name e.
Proof. intros Hl (uv & Hu & E). exists uv. split; [by eapply gave_later|done]. Qed.
Lemma successful_later l l' rq : l `prefix_of` l' → successful l rq → successful l' rq.
Proof. intros Hl (v & Hv & E). exists v. split; [by eapply gave_later|done]. Qed.
Lemma removed_later l l' u want : l `prefix_of` l' → removed l u want → removed l' u want.
Proof. intros Hl (Hp & id & Hi & Hs). split; [done|]. exists id. split; [done|by eapply successful_later]. Qed.

(** ** The steps *)

Notation okay := (Trace.okay Ans allowed (St := list string) (Fa := string)).
Lemma api_method method path body : rq_method (api_req a method path body) = method.
Proof.
  unfold api_req. cbn. assert (∀ hs rq, rq_method (foldl (λ rq h, with_header h rq) rq hs) = rq_method rq) as ->; [|done].
  induction hs as [|h hs IH]; intros rq; [done|]. cbn [foldl]. by rewrite IH.
Qed.
Lemma api_call_ok method path body l : allowed l (Http (api_req a method path body)) → okay (api_call a method path body) (λ v l', gave l' (api_req a method path body) v) l.
Proof.
  intros Hx. unfold api_call. eapply okay_then; [by apply request_ok|]. intros r l1 _ ->. eapply okay_then; [apply ok_ok|]. intros r' l2 _ (-> & -> & Hs).
  destruct (rs_text r) as [t|e] eqn:Et; [|apply okay_raise]. apply okay_ret. exists r, t. split_and!; [apply elem_of_app; right; by left|done..].
Qed.
Lemma admin_ok l : okay (admin env) (λ ad l', ∃ tok, ad = mkAdmin (no_slash (keycloak_url env)) (realm env) tok false) l.
Proof.
  unfold admin, admin_as. eapply okay_then; [apply secret_okay; intros; by left|]. intros password l1 _ _.
  eapply okay_then; [apply (retry_ok _ _ _ _ (λ _ _, True)); [intros; by left|]|intros tok l2 _ _; apply okay_ret; by exists tok].
  intros l' _. unfold sign_in. eapply okay_then; [apply request_ok; left; right; by exists password|]. intros r l2 _ _.
  eapply okay_then; [apply ok_ok|]. intros r' l3 _ _. eapply okay_then; [apply json_body_ok|]. intros v l4 _ _. eapply okay_mono; [apply need_ok|done].
Qed.
Lemma admin_get_ok tok path query l :
  okay (admin_get (mkAdmin (no_slash (keycloak_url env)) (realm env) tok false) path query) (λ v l', answered l' (kc_req tok path query) v) l.
Proof. apply value_ok. by left; left. Qed.
Lemma users_ok l : okay (users env) (λ us l', listed l' us) l.
Proof.
  unfold users. eapply okay_then; [apply admin_ok|]. intros ? l1 _ [tok ->]. eapply okay_then; [apply admin_get_ok|]. intros v l2 _ Hv. apply okay_ret. by exists tok, v.
Qed.
Lemma group_members_ok g l : okay (group_members env g) (λ ms l', members_of l' g ms) l.
Proof.
  unfold group_members. eapply okay_then; [apply admin_ok|]. intros ? l1 _ [tok ->]. eapply okay_then; [apply admin_get_ok|]. intros v l2 _ Hv.
  destruct (group_id v g) as [id|] eqn:Eg.
  - eapply okay_then; [apply admin_get_ok|]. intros mv l3 Hl3 Hm. apply okay_ret. exists tok, v. split; [by eapply answered_later|]. rewrite Eg. by exists mv.
  - apply okay_ret. exists tok, v. split; [done|]. by rewrite Eg.
Qed.
Lemma random_password_ok l : okay random_password (λ _ _, True) l.
Proof.
  unfold random_password. eapply okay_then; [apply read_file_okay; by left|]. intros t l1 _ _. destruct (_ <? _)%nat; [apply okay_raise|by apply okay_ret].
Qed.
(** How an account ends. *)
Definition created l (kc : Account) want : Prop := "Disabled" ∈ want ∨ ∃ password, successful l (create_req kc password want).
Definition account_right l (kc : Account) want (existing : option Value) : Prop :=
  match existing with
  | None => created l kc want
  | Some u => (removed l u want ∧ created l kc want) ∨
      (lost_privilege (enabled_roles u) want = false ∧ (enabled_roles u = want ∨ ∃ body, put_key "claims" (claims want) u = Some body ∧ successful l (update_req body)))
  end.
Lemma created_later l l' kc want : l `prefix_of` l' → created l kc want → created l' kc want.
Proof. intros Hl [Hd|[p Hp]]; [by left|right; exists p; by eapply successful_later]. Qed.
Lemma right_later l l' kc want e : l `prefix_of` l' → account_right l kc want e → account_right l' kc want e.
Proof.
  intros Hl. destruct e as [u|]; cbn; [|by apply created_later]. intros [[Hr Hc]|[Hk [E|(body & Hb & Hs)]]]; [left|right|right].
  - split; [by eapply removed_later|by eapply created_later].
  - split; [done|by left].
  - split; [done|]. right. exists body. split; [done|by eapply successful_later].
Qed.
Lemma create_account_ok l kc name want : person l kc name want → (account_of l name None ∨ ∃ u, account_of l name (Some u) ∧ removed l u want) →
  okay (settle_account a kc name want None) (λ _ l', created l' kc want) l.
Proof.
  intros Hp He. cbn [settle_account]. destruct (has_role want "Disabled") eqn:Ed; [apply okay_ret; left; by apply has_role_in|].
  eapply okay_then; [apply random_password_ok|]. intros password l1 Hl1 _. eapply okay_then.
  - apply api_call_ok. right. eapply o_create; [by eapply person_later| |].
    + rewrite <- has_role_in. congruence.
    + destruct He as [He|(u & He & Hr)]; [left; by eapply account_later|right; exists u; split; [by eapply account_later|by eapply removed_later]].
  - intros v l2 _ Hv. destruct (is_true (v.["successful"])) eqn:Es; cbn [negb]; [|apply okay_raise]. apply say_ok. right. exists password, v. by split.
Qed.
Lemma update_ok l kc name want u : person l kc name want → account_of l name (Some u) → lost_privilege (enabled_roles u) want = false →
  okay (settle_account a kc name want (Some u)) (λ _ l', account_right l' kc want (Some u)) l.
Proof.
  intros Hp He Hk. cbn [settle_account]. case_bool_decide as Hw; [apply okay_ret; right; by split; [|left]|].
  eapply okay_then; [apply need_ok|]. intros body l0 _ [Hb ->]. eapply okay_then; [apply api_call_ok; right; by eapply o_update|]. intros v l2 _ Hv.
  destruct (is_true (v.["successful"])) eqn:Es; cbn [negb]; [|apply okay_raise]. apply say_ok. right. split; [done|]. right. exists body. split; [done|]. by exists v.
Qed.
Lemma sync_one_ok l admins family us uv kc : listed l us → groups_are l admins family → ombi_list l uv → kc ∈ us →
  okay (sync_one env a admins family uv kc) (λ _ l', let name := to_lowercase (username kc) in
    name ≠ breakglass env → account_right l' kc (wanted env admins family name) (List.find (named name) (array_of uv))) l.
Proof.
  intros Hu Hg Ho Hin. unfold sync_one. cbn zeta. set (name := to_lowercase (username kc)). set (want := wanted env admins family name).
  case_bool_decide as Hb; [by apply okay_ret|]. assert (person l kc name want) as Hp by (exists us, admins, family; split_and!; done).
  set (e := List.find (named name) (array_of uv)). assert (account_of l name e) as He by (exists uv; by split). clearbody e.
  destruct e as [u|]; cbn [drop_privileged].
  - destruct (lost_privilege (enabled_roles u) want) eqn:El; cbn [negb].
    + eapply (okay_then Ans _ _ _ (λ e l', e = None ∧ removed l' u want)).
      * eapply okay_then; [apply need_ok|]. intros id l0 _ [Hid ->]. eapply okay_then; [apply api_call_ok; right; by eapply o_delete|]. intros v l1 _ Hv.
        destruct (is_true (v.["successful"])) eqn:Es; cbn [negb]; [|apply okay_raise].
        eapply okay_then; [by apply (say_ok _ _ (λ _ l', l' = l1))|]. intros ? ? _ ->. apply okay_ret. split; [done|]. split; [done|]. exists id. split; [done|]. by exists v.
      * intros ? l1 Hl1 [-> Hr]. eapply okay_mono; [apply create_account_ok; [by eapply person_later|right; exists u; split; [by eapply account_later|done]]|].
        intros ? l2 Hl2 Hc _. left. split; [by eapply removed_later|exact Hc].
    + eapply (okay_then Ans _ _ _ (λ e l', e = Some u ∧ l' = l)); [by apply okay_ret|]. intros ? ? _ [-> ->].
      eapply okay_mono; [by apply update_ok|]. intros ? l1 _ Hr _. exact Hr.
  - eapply (okay_then Ans _ _ _ (λ e l', e = None ∧ l' = l)); [by apply okay_ret|]. intros ? ? _ [-> ->].
    eapply okay_mono; [apply create_account_ok; [done|by left]|]. intros ? l1 _ Hr _. exact Hr.
Qed.
Definition credentials : bool := bool_decide (is_Some (env "KEYCLOAK_PASSWORD_FILE")) || bool_decide (is_Some (env "KEYCLOAK_PASSWORD")).
Definition reconciled l : Prop := ∃ us admins family uv, listed l us ∧ groups_are l admins family ∧ ombi_list l uv ∧
  ∀ kc, kc ∈ us → let name := to_lowercase (username kc) in name ≠ breakglass env →
    account_right l kc (wanted env admins family name) (List.find (named name) (array_of uv)).
Lemma sync_users_ok l : okay (sync_users env a) (λ _ l', credentials = true → reconciled l') l.
Proof.
  unfold sync_users, credentials. rewrite <- negb_orb. destruct (_ || _); cbn [negb]; [|by apply say_ok].
  eapply okay_then; [apply users_ok|]. intros us l1 Hl1 Hu. cbn beta in Hu. eapply okay_then; [apply group_members_ok|]. intros admins l2 Hl2 Ha. cbn beta in Ha.
  eapply okay_then; [apply group_members_ok|]. intros family l3 Hl3 Hf. cbn beta in Hf. destruct (bool_decide _ && bool_decide _) eqn:En; [apply okay_raise|].
  eapply okay_then; [apply api_call_ok; left; left; apply api_method|]. intros known l4 Hl4 _. destruct (List.find _ _); [apply okay_raise|].
  eapply okay_then; [apply api_call_ok; left; left; apply api_method|]. intros uv l5 Hl5 Ho. cbn beta in Ho.
  assert (l1 `prefix_of` l5 ∧ l2 `prefix_of` l5 ∧ l3 `prefix_of` l5) as (Hl1' & Hl2' & Hl3') by (split_and!; repeat (etrans; [eassumption|]); done).
  assert (groups_are l5 admins family) as Hg.
  { split_and!; [exact (members_later _ _ _ _ Hl2' Ha)|exact (members_later _ _ _ _ Hl3' Hf)|]. apply andb_false_iff in En as [En|En]; apply bool_decide_eq_false in En; [by left|by right]. }
  assert (listed l5 us) as Hu5 by exact (listed_later _ _ _ Hl1' Hu). eapply okay_mono.
  - apply (for_each_all allowed _ (λ kc l, let name := to_lowercase (username kc) in name ≠ breakglass env → account_right l kc (wanted env admins family name) (List.find (named name) (array_of uv)))).
    + intros kc l' l'' Hl' Hr name Hb. eapply right_later; [exact Hl'|by apply Hr].
    + intros kc l' Hkc Hl'. eapply sync_one_ok; [by eapply listed_later|by eapply groups_later|by eapply gave_later|done].
  - intros ? l6 Hl6 Hall _. cbn beta in Hall. rewrite Forall_forall in Hall. exists us, admins, family, uv.
    refine (conj _ (conj _ (conj _ _))); [by eapply listed_later|by eapply groups_later|by eapply gave_later|exact Hall].
Qed.

(** Whatever Keycloak and Ombi answer, the sync of accounts changes only an account of a Keycloak user other than the
    break-glass admin, and only while a group has members: it deletes one whose owner's groups no longer give a privileged role
    it has, sets the roles of one that differs without losing a privilege, and makes one where there is none (or it was just
    removed) for a member of a group. All else looks, signs in to Keycloak or waits. *)
Theorem accounts_due outside out l : ∃ k, (exec Ans outside (sync_users env a out) l).1 = l ++ k ∧ ∀ k1 e k2, k = k1 ++ e :: k2 → quiet (e_act e) ∨ due (l ++ k1) (e_act e).
Proof. destruct (exec_okay Ans allowed outside _ _ out l (sync_users_ok l)) as (k & Ek & Hk). exists k. split; [exact Ek|exact Hk]. Qed.

End sync.

(** ** A sync of accounts

    Keycloak with an admin, a member of the family and someone in neither group; Ombi with accounts whose roles are out of date. *)
#[local] Existing Instances Reference.serde Reference.libs.

Definition env (name : string) : option string :=
  assoc name [("KEYCLOAK_URL", "http://kc"); ("KEYCLOAK_PASSWORD", "secret"); ("OMBI_URL", "http://ombi"); ("ADMIN_ROLES", "Admin,RequestMovie"); ("FAMILY_ROLES", "RequestMovie")].
Definition people (names : list string) : Value := Array ((λ n, Object [("username", Str n)]) <$> names).
Definition ombi_account (name id : string) (roles : list string) : Value :=
  Object [("claims", Array ((λ r, Object [("enabled", Bool true); ("value", Str r)]) <$> roles)); ("id", Str id); ("userName", Str name)].
Definition answer (url : string) (query : list (string * string)) : Value :=
  if ends_with "/token" url then Object [("access_token", Str "t")]
  else if ends_with "/users" url then people ["Ada"; "bob"; "carol"; "dave"; "ombi-admin"]
  else if ends_with "/groups" url then Array [Object [("id", Str (default "" (assoc "search" query))); ("name", Str (default "" (assoc "search" query)))]]
  else if ends_with "/groups/admin/members" url then people ["ada"]
  else if ends_with "/groups/family/members" url then people ["bob"]
  else if ends_with "/Identity/claims" url then Array [Object [("value", Str "Admin")]; Object [("value", Str "RequestMovie")]]
  else if ends_with "/Identity/Users" url then
    Array [ombi_account "bob" "2" ["Admin"]; ombi_account "Carol" "3" ["RequestMovie"]; ombi_account "ombi-admin" "1" ["Admin"]; ombi_account "erin" "5" ["Admin"]]
  else Object [("successful", Bool true)].
Definition outside (l : Log) (x : Act) : Ans x :=
  match x return Ans x with
  | Http rq => Ok (mkResp 200 [] (Ok (Reference.text (answer (rq_url rq) (rq_query rq)))))
  | ReadFile _ => Some "0123456789abcdefghijklmnopqrstuv"
  | x => Reference.outside l x
  end.
Definition ombi_api : Api := mkApi "http://ombi" [("apikey", "k")].
Definition synced : Log := (exec Ans outside (sync_users env ombi_api []) []).1.
(** Ada is made an admin's account, Bob's is removed and made again with the family's roles, Carol's is disabled in place; Dave
    has none, and Erin, whom Keycloak does not know, and the break-glass admin are left alone. *)
Example accounts_synced :
  List.filter (λ c, negb (ends_with "/token" c.2)) (omap change synced) =
    [("POST", "http://ombi/api/v1/Identity"); ("DELETE", "http://ombi/api/v1/Identity/2"); ("POST", "http://ombi/api/v1/Identity"); ("PUT", "http://ombi/api/v1/Identity")].
Proof. vm_compute. done. Qed.
