(* ===== verification/Syncthing.v ===== *)
(** * Declaring the Syncthing hub ([apps/app-bootstrap/src/syncthing.rs])

    Devices and folders of a table brought into Syncthing through its REST API: what is missing is added over the
    defaults, what differs is patched, and only devices are ever removed. *)

From Stdlib Require Import Ascii.
From stdpp Require Import options.
From S2P Require Import Prelude Text Json Codec Threads Trace Markers Apps Bootstrap Servarr Ombi.

(** ** Comparing and merging *)

Definition is_object (v : Value) : bool := match v with Object _ => true | _ => false end.
Definition device_ids (l : Value) : gset string := list_to_set (omap (λ d, as_str (d.["deviceID"])) (array_of l)).
(** Objects are compared key by key of [want]. *)
Fixpoint covers (current want : Value) {struct want} : bool :=
  match current, want with
  | Object c, Object w =>
      (fix all w := match w with
                    | [] => true
                    | (k, v) :: w' =>
                        match assoc k c with
                        | Some cv => if String.eqb k "devices" then bool_decide (device_ids cv = device_ids v) else covers cv v
                        | None => false
                        end && all w'
                    end) w
  | _, _ => value_eqb current want
  end.
(** [base] with every key of [over] set. *)
Fixpoint overlay (base over : Value) {struct over} : Value :=
  match base, over with
  | Object b, Object o =>
      Object ((fix go b o := match o with
                             | [] => b
                             | (k, v) :: o' =>
                                 let merged := match assoc k b with
                                               | Some cur => if is_object cur && is_object v then overlay cur v else v
                                               | None => v
                                               end in
                                 go (insert_key k merged b) o'
                             end) b o)
  | _, _ => over
  end.

Definition find_entry (l : Value) (key id : string) : option Value := List.find (λ e, value_is_str (e.[key]) id) (array_of l).
Definition same_path (path : string) (f : Value) : bool :=
  match as_str (f.["path"]) with Some p => String.eqb (no_slash p) (no_slash path) | None => false end.
Definition path_owner (folders : Value) (id path : string) : option string :=
  f ← List.find (same_path path) (List.filter (λ f, negb (value_is_str (f.["id"]) id)) (array_of folders)); as_str (f.["id"]).
(** None where the program panics: [folder] is neither an object nor null. *)
Definition with_hub (folder : Value) (hub : string) : option Value :=
  let devices := array_of (folder.["devices"]) in
  if existsb (λ d, value_is_str (d.["deviceID"]) hub) devices then Some folder
  else put_key "devices" (Array (Object [("deviceID", Str hub)] :: devices)) folder.
Definition url_char (c : ascii) : bool := is_ascii_alphanumeric c || contains_char c "-_.".
Definition singular (kind : string) : string := trim_end_matches (λ c, bool_decide (c = "s"%char)) kind.

(** The program's own tests. *)
Example syncthing_tests :
  let cur := Object [("id", Str "a"); ("path", Str "/x"); ("rescanIntervalS", json_i64 3600);
                     ("versioning", Object [("fsType", Str "basic"); ("params", Object [("maxAge", Str "1")]); ("type", Str "staggered")])] in
  covers cur (Object [("path", Str "/x"); ("versioning", Object [("params", Object [("maxAge", Str "1")]); ("type", Str "staggered")])]) = true ∧
  covers cur (Object [("path", Str "/y")]) = false ∧ covers cur (Object [("versioning", Object [("params", Object [("maxAge", Str "2")])])]) = false ∧
  covers cur (Object [("label", Str "new")]) = false ∧
  (let dev l := Object [("devices", Array ((λ i, Object [("deviceID", Str i)]) <$> l))] in covers (dev ["B"; "A"]) (dev ["A"; "B"]) = true ∧
   covers (dev ["B"; "A"]) (dev ["A"]) = false ∧ covers (dev ["B"; "A"]) (dev ["A"; "B"; "C"]) = false) ∧
  overlay (Object [("devices", Array []); ("id", Str ""); ("versioning", Object [("fsType", Str "basic"); ("params", Object []); ("type", Str "")])])
          (Object [("devices", Array [Object [("deviceID", Str "A")]]); ("id", Str "x"); ("versioning", Object [("params", Object [("maxAge", Str "1")]); ("type", Str "staggered")])]) =
    Object [("devices", Array [Object [("deviceID", Str "A")]]); ("id", Str "x"); ("versioning", Object [("fsType", Str "basic"); ("params", Object [("maxAge", Str "1")]); ("type", Str "staggered")])] ∧
  (let f := Object [("devices", Array [Object [("deviceID", Str "A")]]); ("id", Str "a")] in
   with_hub f "H" = Some (Object [("devices", Array [Object [("deviceID", Str "H")]; Object [("deviceID", Str "A")]]); ("id", Str "a")]) ∧ (with_hub f "H" ≫= λ f, with_hub f "H") = with_hub f "H") ∧
  (let l := Array [Object [("id", Str "default"); ("path", Str "/var/syncthing/org/")]; Object [("id", Str "org"); ("path", Str "/var/syncthing/org")]] in
   path_owner l "org" "/var/syncthing/org" = Some "default" ∧ path_owner l "default" "/var/syncthing/org" = Some "org" ∧ path_owner l "x" "/var/syncthing/docs" = None).
Proof. vm_compute. done. Qed.

Section syncthing.
Context `{SerdeJson, Libs} (env : string → option string).
Implicit Types (path kind key id me : string).

(** ** The API *)

Record Hub : Type := mkHub { hub_base : string; hub_key : string }.
Definition hub_req (a : Hub) (method path : string) (body : Body) : Req := with_body body (with_header ("x-api-key", hub_key a) (plain method (hub_base a +:+ path))).
Definition hub_call (a : Hub) (method path : string) (body : Body) : Job Value :=
  r ← send (hub_req a method path body);
  r ← ok r (method +:+ " " +:+ path);
  match rs_text r with
  | Err e => fail e
  | Ok text => if bool_decide (trim text = "") then mret Null else match from_str text with Ok v => mret v | Err e => fail e end
  end.
Definition hub_get (a : Hub) path : Job Value := hub_call a "GET" path NoBody.

(** ** The table *)

Definition parse_env (name raw : string) : Job Value := match from_str raw with Ok v => mret v | Err e => fail (name +:+ " is not JSON: " +:+ e) end.
Definition list_of (name : string) : Job (list Value) :=
  raw ← need (env name) ("set " +:+ name);
  v ← parse_env name raw;
  need (as_array v) (name +:+ " must be a JSON array").
Definition text_at (v : Value) key (what : string) : Job string :=
  s ← need (match as_str (v.[key]) with Some s => if bool_decide (s = "") then None else Some s | None => None end) (what +:+ " without " +:+ key);
  if forallb url_char (chars s) then mret s else fail (what +:+ " " +:+ key +:+ " " +:+ s +:+ " has characters outside [A-Za-z0-9._-]").
Definition name_of (want : Value) id : string :=
  match as_str (want.["label"]) with Some n => n | None => default id (as_str (want.["name"])) end.

(** ** Adding and patching *)

Definition config_path kind : string := "/rest/config/" +:+ kind.
Definition ensure_one (a : Hub) kind key (current template want : Value) : Job () :=
  id ← text_at want key kind;
  match find_entry current key id with
  | None => _ ← hub_call a "POST" (config_path kind) (JsonBody (overlay template want)); say ("added " +:+ singular kind +:+ " " +:+ name_of want id)
  | Some cur =>
      if covers cur want then mret ()
      else _ ← hub_call a "PATCH" (config_path kind +:+ "/" +:+ id) (JsonBody want); say ("updated " +:+ singular kind +:+ " " +:+ name_of want id)
  end.
Definition ensure_all (a : Hub) kind key (wanted : list Value) : Job Value :=
  current ← hub_get a (config_path kind);
  template ← hub_get a ("/rest/config/defaults/" +:+ singular kind);
  _ ← for_each Ans wanted (ensure_one a kind key current template);
  mret current.

Definition apply_gui (a : Hub) : Job () :=
  match env "GUI" with
  | None => mret ()
  | Some raw =>
      want ← parse_env "GUI" raw;
      if negb (is_object want) then fail "GUI must be a JSON object"
      else
        cur ← hub_get a "/rest/config/gui";
        if covers cur want then mret () else _ ← hub_call a "PATCH" "/rest/config/gui" (JsonBody want); say "updated gui"
  end.
(** No other folder has the path already. *)
Definition path_free (current f : Value) : Job () :=
  id ← text_at f "id" "folder";
  path ← need (as_str (f.["path"])) "folder without path";
  match path_owner current id path with
  | Some other => fail ("folder " +:+ id +:+ " wants " +:+ path +:+ ", which folder " +:+ other +:+ " already uses")
  | None => mret ()
  end.
Definition ids_in key (l : list Value) : list string := omap (λ d, as_str (d.[key])) l.
Definition report_folder (wanted : list string) (f : Value) : Job () :=
  let id := default "" (as_str (f.["id"])) in
  if bool_decide (id ∈ wanted) then mret () else say ("folder " +:+ id +:+ " is not in the table: left alone").
Definition remove_device (a : Hub) me (wanted : list string) (d : Value) : Job () :=
  let id := default "" (as_str (d.["deviceID"])) in
  if bool_decide (id = me) || bool_decide (id ∈ wanted) then mret ()
  else
    i ← text_at d "deviceID" "device";
    _ ← hub_call a "DELETE" (config_path "devices" +:+ "/" +:+ i) NoBody;
    say ("removed device " +:+ default "unnamed" (as_str (d.["name"])) +:+ " (" +:+ id +:+ "): not in the table").
Definition other_devices me (devices : list Value) : list Value := List.filter (λ d, negb (value_is_str (d.["deviceID"]) me)) devices.
Definition own_id (a : Hub) : Job string :=
  status ← retry "waiting for syncthing" 120 (hub_get a "/rest/system/status");
  me ← need (as_str (status.["myID"])) "no myID in /rest/system/status";
  match env "HUB_DEVICE_ID" with
  | Some hub => if bool_decide (hub = me) then mret me else fail ("this Syncthing is " +:+ me +:+ ", not the hub " +:+ hub)
  | None => mret me
  end.
Definition restart (a : Hub) : Job () :=
  pending ← hub_get a "/rest/config/restart-required";
  if value_eqb (pending.["requiresRestart"]) (Bool true) then _ ← hub_call a "POST" "/rest/system/restart" NoBody; say "restarting syncthing" else mret ().
Definition declare (a : Hub) me (devices folders : list Value) : Job () :=
  let devices := other_devices me devices in
  current_devices ← ensure_all a "devices" "deviceID" devices;
  folders ← need (mapM (λ f, with_hub f me) folders) "panicked";
  current_folders ← hub_get a (config_path "folders");
  _ ← for_each Ans folders (path_free current_folders);
  _ ← ensure_all a "folders" "id" folders;
  _ ← for_each Ans (array_of current_folders) (report_folder (ids_in "id" folders));
  _ ← for_each Ans (array_of current_devices) (remove_device a me (ids_in "deviceID" devices));
  restart a.
Definition run : Job () :=
  let base := no_slash (var env "SYNCTHING_URL" "http://syncthing.home.svc.cluster.local:8384") in
  k ← secret env "API_KEY";
  let a := mkHub base k in
  devices ← list_of "DEVICES";
  folders ← list_of "FOLDERS";
  me ← own_id a;
  _ ← apply_gui a;
  declare a me devices folders.
End syncthing.
