(* ===== verification/HubSync.v ===== *)
(** * What declaring the Syncthing hub does to it

    [hub_due]: every change of a run follows an answer that calls for it. [hub_declared]: a run that ends well has left every
    device and folder of the table covered. [covers_overlay]: what is added covers what was wanted. *)

From Stdlib Require Import Ascii.
From stdpp Require Import options.
From S2P Require Import Prelude Text F64 Json Codec Threads Markers Trace Apps Bootstrap Servarr Wired Ombi Syncthing.

(** ** Merging covers *)

(** Objects have each key once, at every depth: what a JSON reader makes. *)
Fixpoint keyed (v : Value) : bool :=
  match v with
  | Array l => forallb keyed l
  | Object m => bool_decide (NoDup m.*1) && forallb (λ kv, keyed kv.2) m
  | _ => true
  end.
Definition covers_at (c : list (string * Value)) (kv : string * Value) : bool :=
  match assoc kv.1 c with
  | Some cv => if String.eqb kv.1 "devices" then bool_decide (device_ids cv = device_ids kv.2) else covers cv kv.2
  | None => false
  end.
Lemma covers_object c w : covers (Object c) (Object w) = forallb (covers_at c) w.
Proof. cbn. induction w as [|[k v] w IH]; [done|]. cbn [forallb]. by rewrite <- IH. Qed.
Definition merge_at (cur : option Value) (v : Value) : Value :=
  match cur with Some cur => if is_object cur && is_object v then overlay cur v else v | None => v end.
Definition put_merged (b : list (string * Value)) (kv : string * Value) : list (string * Value) := insert_key kv.1 (merge_at (assoc kv.1 b) kv.2) b.
Lemma overlay_object b o : overlay (Object b) (Object o) = Object (foldl put_merged b o).
Proof. cbn. f_equal. revert b. induction o as [|[k v] o IH]; intros b; [done|]. cbn [foldl]. by rewrite <- IH. Qed.
Lemma overlay_not_object base over : is_object base && is_object over = false → overlay base over = over.
Proof. by destruct base, over. Qed.
Lemma assoc_not_in {A} k (m : list (string * A)) : k ∉ m.*1 → assoc k m = None.
Proof. induction m as [|[k' x] m IH]; [done|]. cbn. rewrite not_elem_of_cons. intros [Hk Hm]. rewrite decide_False by done. by apply IH. Qed.
Lemma assoc_in {A} k (x : A) m : NoDup m.*1 → (k, x) ∈ m → assoc k m = Some x.
Proof.
  induction m as [|[k' x'] m IH]; cbn; [by intros _ H%not_elem_of_nil|]. intros [Hk Hm]%NoDup_cons. intros [E|Hin]%elem_of_cons.
  - injection E as -> ->. by rewrite decide_True.
  - rewrite decide_False; [by apply IH|]. intros ->. apply Hk, list_elem_of_fmap. by exists (k', x).
Qed.
Lemma assoc_merged b o k : NoDup o.*1 → assoc k (foldl put_merged b o) = match assoc k o with Some v => Some (merge_at (assoc k b) v) | None => assoc k b end.
Proof.
  revert b. induction o as [|[j v] o IH]; intros b Ho; [done|]. cbn in Ho. apply NoDup_cons in Ho as [Hj Ho]. cbn [foldl]. rewrite IH by done.
  unfold put_merged. cbn. destruct (decide (k = j)) as [->|Hk].
  - rewrite assoc_not_in by done. by rewrite assoc_insert.
  - by rewrite assoc_insert_ne.
Qed.
(** What the table does not name is kept. *)
Lemma overlay_keeps b o k : NoDup o.*1 → k ∉ o.*1 → (overlay (Object b) (Object o)).[k] = (Object b).[k].
Proof. intros Ho Hk. rewrite overlay_object. cbn. by rewrite assoc_merged, (assoc_not_in k o). Qed.
Lemma covers_refl v : json_wf v = true → keyed v = true → covers v v = true.
Proof.
  induction v as [| | | | |m IH] using Value_ind'; intros Hw Hk; try by apply value_eqb_refl.
  rewrite covers_object. apply forallb_forall. intros [k v] Hin%list_elem_of_In. cbn in Hk, Hw. apply andb_true_iff in Hk as [Hn Hk]. apply bool_decide_eq_true in Hn.
  unfold covers_at. cbn. rewrite (assoc_in k v) by done. destruct (String.eqb k "devices"); [by apply bool_decide_eq_true|].
  rewrite Forall_forall in IH. rewrite forallb_forall in Hk, Hw. apply (IH _ Hin); [by apply (Hw (k, v)), list_elem_of_In|by apply (Hk (k, v)), list_elem_of_In].
Qed.
Lemma ids_merged cur v : device_ids (merge_at cur v) = device_ids v.
Proof. destruct cur as [[]|], v; done. Qed.
Lemma covers_overlay over base : json_wf over = true → keyed over = true → covers (overlay base over) over = true.
Proof.
  revert base. induction over as [| | | | |o IH] using Value_ind'; intros base Hw Hk; try (rewrite overlay_not_object by (by destruct base); by apply covers_refl).
  destruct base as [| | | | |b]; try (rewrite overlay_not_object by done; by apply covers_refl).
  rewrite overlay_object, covers_object. apply forallb_forall. intros [k v] Hin%list_elem_of_In. cbn in Hk, Hw. apply andb_true_iff in Hk as [Hn Hk]. apply bool_decide_eq_true in Hn.
  rewrite forallb_forall in Hk, Hw. assert (json_wf v = true) as Hwv by (by apply (Hw (k, v)), list_elem_of_In). assert (keyed v = true) as Hkv by (by apply (Hk (k, v)), list_elem_of_In).
  unfold covers_at. cbn [fst snd]. rewrite assoc_merged, (assoc_in k v) by done. destruct (String.eqb k "devices"); [rewrite ids_merged; by apply bool_decide_eq_true|].
  unfold merge_at. destruct (assoc k b) as [cur|]; [|by apply covers_refl]. destruct (is_object cur && is_object v); [|by apply covers_refl].
  rewrite Forall_forall in IH. by apply (IH _ Hin).
Qed.
(** The hub is among the devices of a folder that was given it, and nothing else of the folder changes. *)
Lemma hub_joins f hub f' : with_hub f hub = Some f' →
  device_ids (f'.["devices"]) = device_ids (f.["devices"]) ∪ {[hub]} ∧ ∀ k, k ≠ "devices" → f'.[k] = f.[k].
Proof.
  unfold with_hub. destruct (existsb _ _) eqn:E.
  - intros [= <-]. split; [|done]. apply existsb_exists in E as (d & Hd%list_elem_of_In & E). symmetry. assert (hub ∈ device_ids (f.["devices"])) as Hin; [|set_solver].
    unfold device_ids. apply elem_of_list_to_set, list_elem_of_omap. exists d. split; [done|]. unfold value_is_str in E. destruct (d.["deviceID"]); try done.
    apply String.eqb_eq in E as ->. done.
  - intros Hp. destruct f as [| | | | |m]; try done; injection Hp as <-.
    + split; [|intros k Hk; cbn; by rewrite decide_False]. vm_compute device_ids at 2. set_solver.
    + split; [|intros k Hk; cbn; by rewrite assoc_insert_ne]. cbn. rewrite assoc_insert. unfold device_ids. cbn. set_solver.
Qed.

(** ** What calls for a change *)

Section hub.
Context `{SerdeJson, Libs} (env : string → option string) (a : Hub).
Implicit Types (l : Log) (kind key id me : string).

Definition reply (text : string) (v : Value) : Prop := (trim text = "" ∧ v = Null) ∨ from_str text = Ok v.
Definition got l (rq : Req) (v : Value) : Prop := ∃ r t, mkEvent (Http rq) (Ok r : Ans (Http rq)) ∈ l ∧ is_success (rs_status r) = true ∧ rs_text r = Ok t ∧ reply t v.
Definition get_req path : Req := hub_req a "GET" path NoBody.
Definition shown l path (v : Value) : Prop := got l (get_req path) v.
Definition table (name : string) (ds : list Value) : Prop := ∃ raw v, env name = Some raw ∧ from_str raw = Ok v ∧ as_array v = Some ds.
(** Syncthing has said who it is, and it is the hub that was expected, if any was. *)
Definition is_me l me : Prop := (∃ v, shown l "/rest/system/status" v ∧ as_str (v.["myID"]) = Some me) ∧ ∀ hub, env "HUB_DEVICE_ID" = Some hub → hub = me.
Inductive listed_under me : string → string → Value → Prop :=
  | a_device ds want : table "DEVICES" ds → want ∈ other_devices me ds → listed_under me "devices" "deviceID" want
  | a_folder fs f want : table "FOLDERS" fs → f ∈ fs → with_hub f me = Some want → listed_under me "folders" "id" want.
Definition safe_id id : Prop := id ≠ "" ∧ Forall (λ c, url_char c = true) (chars id).
Definition has_id (want : Value) key id : Prop := as_str (want.[key]) = Some id ∧ safe_id id.
Definition add_req kind (template want : Value) : Req := hub_req a "POST" (config_path kind) (JsonBody (overlay template want)).
Definition patch_req kind id (want : Value) : Req := hub_req a "PATCH" (config_path kind +:+ "/" +:+ id) (JsonBody want).
Definition remove_req id : Req := hub_req a "DELETE" (config_path "devices" +:+ "/" +:+ id) NoBody.
(** No folder of another id was listed at its path. *)
Definition path_is_free l kind (want : Value) id : Prop := kind = "folders" → ∃ v path, shown l (config_path "folders") v ∧ as_str (want.["path"]) = Some path ∧ path_owner v id path = None.

Inductive due l : Act → Prop :=
  | h_gui me raw want cur : is_me l me → env "GUI" = Some raw → from_str raw = Ok want → is_object want = true → shown l "/rest/config/gui" cur → covers cur want = false →
      due l (Http (hub_req a "PATCH" "/rest/config/gui" (JsonBody want)))
  | h_add me kind key want id current template : is_me l me → listed_under me kind key want → has_id want key id → shown l (config_path kind) current →
      shown l ("/rest/config/defaults/" +:+ singular kind) template → find_entry current key id = None → path_is_free l kind want id → due l (Http (add_req kind template want))
  | h_patch me kind key want id current cur : is_me l me → listed_under me kind key want → has_id want key id → shown l (config_path kind) current →
      find_entry current key id = Some cur → covers cur want = false → path_is_free l kind want id → due l (Http (patch_req kind id want))
  | h_remove me ds current d id : is_me l me → table "DEVICES" ds → shown l (config_path "devices") current → d ∈ array_of current → has_id d "deviceID" id →
      id ≠ me → id ∉ ids_in "deviceID" ds → due l (Http (remove_req id))
  | h_restart me v : is_me l me → shown l "/rest/config/restart-required" v → v.["requiresRestart"] = Bool true → due l (Http (hub_req a "POST" "/rest/system/restart" NoBody)).
Definition quiet (x : Act) : Prop := match x with Http rq => rq_method rq = "GET" | ReadFile _ | Sleep _ => True | _ => False end.
Definition allowed l (x : Act) : Prop := quiet x ∨ due l x.

Lemma got_later l l' rq v : l `prefix_of` l' → got l rq v → got l' rq v.
Proof. intros [k ->] (r & t & Hin & Hr). exists r, t. split; [by apply elem_of_app; left|done]. Qed.
Lemma me_later l l' me : l `prefix_of` l' → is_me l me → is_me l' me.
Proof. intros Hl [(v & Hv & E) Hh]. split; [|done]. exists v. split; [by eapply got_later|done]. Qed.
Lemma free_later l l' kind want id : l `prefix_of` l' → path_is_free l kind want id → path_is_free l' kind want id.
Proof. intros Hl Hf Hk. destruct (Hf Hk) as (v & p & Hv & E). exists v, p. split; [by eapply got_later|done]. Qed.

(** ** The steps *)

Notation okay := (Trace.okay Ans allowed (St := list string) (Fa := string)).
Lemma hub_call_ok method path body l : allowed l (Http (hub_req a method path body)) → okay (hub_call a method path body) (λ v l', got l' (hub_req a method path body) v) l.
Proof.
  intros Hx. unfold hub_call. eapply okay_then; [by apply request_ok|]. intros r l1 _ ->. eapply okay_then; [apply ok_ok|]. intros r' l2 _ (-> & -> & Hs).
  destruct (rs_text r) as [t|e] eqn:Et; [|apply okay_raise].
  assert (∀ v, reply t v → okay (mret v) (λ v l', got l' (hub_req a method path body) v) (l ++ [mkEvent (Http (hub_req a method path body)) (Ok r : Ans (Http _))])) as Hr.
  { intros v Hv. apply okay_ret. exists r, t. split_and!; [apply elem_of_app; right; by left|done..]. }
  case_bool_decide as Hb; [apply Hr; by left|]. destruct (from_str t) eqn:Ef; [apply Hr; by right|apply okay_raise].
Qed.
Lemma hub_get_ok path l : okay (hub_get a path) (λ v l', shown l' path v) l.
Proof. apply hub_call_ok. by left. Qed.
Lemma hub_do_ok method path body line l : due l (Http (hub_req a method path body)) →
  okay (_ ← hub_call a method path body; say line) (λ _ l', accepted l' (hub_req a method path body)) l.
Proof.
  intros Hd. eapply okay_then; [apply hub_call_ok; by right|]. intros v l1 _ (r & t & Hin & Hs & _). apply say_ok. by exists r.
Qed.
Lemma text_at_ok v key what l : okay (text_at v key what) (λ id l', has_id v key id ∧ l' = l) l.
Proof.
  unfold text_at. eapply okay_then; [apply need_ok|]. intros s l1 _ [E ->]. destruct (forallb url_char (chars s)) eqn:Ef; [|apply okay_raise]. apply okay_ret. split; [|done].
  destruct (as_str (v.[key])) as [s'|] eqn:Es; [|done]. case_bool_decide; [done|]. injection E as ->. split; [done|]. split; [done|].
  rewrite Forall_forall. rewrite forallb_forall in Ef. intros c Hc. by apply Ef, list_elem_of_In.
Qed.
Lemma parse_env_ok name raw l : okay (parse_env name raw) (λ v l', from_str raw = Ok v ∧ l' = l) l.
Proof. unfold parse_env. destruct (from_str raw) eqn:E; [by apply okay_ret|apply okay_raise]. Qed.
Lemma list_of_ok name l : okay (list_of env name) (λ ds l', table name ds ∧ l' = l) l.
Proof.
  unfold list_of. eapply okay_then; [apply need_ok|]. intros raw ? _ [E ->]. eapply okay_then; [apply parse_env_ok|]. intros v ? _ [Ev ->].
  eapply okay_mono; [apply need_ok|]. intros ds ? _ [Ea ->]. split; [|done]. by exists raw, v.
Qed.

(** How an entry of the table ends. *)
Definition settled l kind key (want : Value) : Prop := ∃ id, has_id want key id ∧ path_is_free l kind want id ∧
  ((∃ current cur, shown l (config_path kind) current ∧ find_entry current key id = Some cur ∧ (covers cur want = true ∨ accepted l (patch_req kind id want))) ∨
   ∃ template, shown l ("/rest/config/defaults/" +:+ singular kind) template ∧ accepted l (add_req kind template want)).
Lemma settled_later l l' kind key want : l `prefix_of` l' → settled l kind key want → settled l' kind key want.
Proof.
  intros Hl (id & Hi & Hf & Hs). exists id. split; [done|]. split; [by eapply free_later|]. destruct Hs as [(cu & c & Hc & E & Hd)|(t & Ht & Ha)].
  - left. exists cu, c. split; [by eapply got_later|]. split; [done|]. destruct Hd as [Hd|Hd]; [by left|right; by eapply accepted_later].
  - right. exists t. split; [by eapply got_later|by eapply accepted_later].
Qed.
Lemma ensure_one_ok me kind key current template want l : is_me l me → listed_under me kind key want → shown l (config_path kind) current →
  shown l ("/rest/config/defaults/" +:+ singular kind) template → (∀ id, has_id want key id → path_is_free l kind want id) →
  okay (ensure_one a kind key current template want) (λ _ l', settled l' kind key want) l.
Proof.
  intros Hm Hu Hc Ht Hf. unfold ensure_one. eapply okay_then; [apply text_at_ok|]. intros id ? _ [Hi ->]. specialize (Hf id Hi).
  destruct (find_entry current key id) as [cur|] eqn:Ef.
  - destruct (covers cur want) eqn:Ec; [apply okay_ret; exists id; split_and!; [done..|]; left; exists current, cur; split_and!; [done..|by left]|].
    eapply okay_mono; [apply hub_do_ok; by eapply h_patch|]. intros ? l1 Hl1 Hacc. exists id. split_and!; [done|by eapply free_later|]. left. exists current, cur.
    split_and!; [by eapply got_later|done|by right].
  - eapply okay_mono; [apply hub_do_ok; by eapply h_add|]. intros ? l1 Hl1 Hacc. exists id. split_and!; [done|by eapply free_later|]. right. exists template.
    split; [by eapply got_later|done].
Qed.
Lemma ensure_all_ok me kind key wanted l : is_me l me → (∀ want, want ∈ wanted → listed_under me kind key want ∧ ∀ id, has_id want key id → path_is_free l kind want id) →
  okay (ensure_all a kind key wanted) (λ current l', shown l' (config_path kind) current ∧ Forall (settled l' kind key) wanted) l.
Proof.
  intros Hm Hw. unfold ensure_all. eapply okay_then; [apply hub_get_ok|]. intros current l1 Hl1 Hc. cbn beta in Hc.
  eapply okay_then; [apply hub_get_ok|]. intros template l2 Hl2 Ht. cbn beta in Ht. eapply okay_then.
  - apply (for_each_all allowed _ (λ want l, settled l kind key want)); [by intros; eapply settled_later|]. intros want l3 Hin Hl3. destruct (Hw _ Hin) as [Hu Hf].
    assert (l `prefix_of` l3) by (etrans; [exact Hl1|etrans; [exact Hl2|done]]). assert (l1 `prefix_of` l3) by (etrans; [exact Hl2|done]).
    eapply ensure_one_ok; [by eapply me_later; [|exact Hm]|done|by eapply got_later; [|exact Hc]|by eapply got_later; [|exact Ht]|]. intros id Hi. eapply free_later; [|by apply Hf]. done.
  - intros ? l3 Hl3 Hall. apply okay_ret. split; [|exact Hall]. eapply got_later; [|exact Hc]. by etrans.
Qed.
Lemma path_free_ok current f l : shown l (config_path "folders") current → okay (path_free current f) (λ _ l', ∀ id, has_id f "id" id → path_is_free l' "folders" f id) l.
Proof.
  intros Hc. unfold path_free. eapply okay_then; [apply text_at_ok|]. intros id ? _ [Hi ->]. eapply okay_then; [apply need_ok|]. intros path ? _ [Hp ->].
  destruct (path_owner current id path) eqn:Eo; [apply okay_raise|]. apply okay_ret. intros id' Hi' _. exists current, path. split; [done|]. split; [done|].
  destruct Hi as [Hi _], Hi' as [Hi' _]. rewrite Hi in Hi'. by injection Hi' as <-.
Qed.
Lemma other_in me ds d : d ∈ other_devices me ds ↔ d ∈ ds ∧ value_is_str (d.["deviceID"]) me = false.
Proof. unfold other_devices. rewrite !list_elem_of_In, filter_In, negb_true_iff. done. Qed.
Lemma ids_of_others me ds id : id ≠ me → id ∉ ids_in "deviceID" (other_devices me ds) → id ∉ ids_in "deviceID" ds.
Proof.
  unfold ids_in. intros Hne Hn Hin. apply Hn. apply list_elem_of_omap in Hin as (d & Hd & E). apply list_elem_of_omap. exists d. split; [|done].
  apply other_in. split; [done|]. destruct (d.["deviceID"]); try done. injection E as ->. by apply String.eqb_neq.
Qed.
(** A listed device is the hub, of the table, or removed. *)
Definition device_right l me (wanted : list string) (d : Value) : Prop := let id := default "" (as_str (d.["deviceID"])) in id = me ∨ id ∈ wanted ∨ accepted l (remove_req id).
Lemma device_later l l' me wanted d : l `prefix_of` l' → device_right l me wanted d → device_right l' me wanted d.
Proof. intros Hl [?|[?|?]]; [by left|right; by left|right; right; by eapply accepted_later]. Qed.
Lemma remove_device_ok me ds current d l : is_me l me → table "DEVICES" ds → shown l (config_path "devices") current → d ∈ array_of current →
  okay (remove_device a me (ids_in "deviceID" (other_devices me ds)) d) (λ _ l', device_right l' me (ids_in "deviceID" (other_devices me ds)) d) l.
Proof.
  intros Hm Ht Hc Hd. unfold remove_device. case_bool_decide as H1; [apply okay_ret; by left|]. case_bool_decide as H2; [apply okay_ret; right; by left|]. cbn [orb].
  eapply okay_then; [apply text_at_ok|]. intros id ? _ [Hi ->]. destruct Hi as [E Hs]. rewrite E in H1, H2. cbn in H1, H2.
  eapply okay_mono; [apply hub_do_ok; eapply h_remove; [done..|by split|done|by eapply ids_of_others]|]. intros ? l1 _ Hacc. right. right. by rewrite E.
Qed.
Lemma apply_gui_ok me l : is_me l me → okay (apply_gui env a) (λ _ _, True) l.
Proof.
  intros Hm. unfold apply_gui. destruct (env "GUI") as [raw|] eqn:Eg; [|by apply okay_ret]. eapply okay_then; [apply parse_env_ok|]. intros want ? _ [Ew ->].
  destruct (is_object want) eqn:Eo; cbn [negb]; [|apply okay_raise]. eapply okay_then; [apply hub_get_ok|]. intros cur l1 Hl1 Hc. cbn beta in Hc.
  destruct (covers cur want) eqn:Ec; [by apply okay_ret|]. eapply okay_mono; [apply hub_do_ok; eapply h_gui; [by eapply me_later|done..]|done].
Qed.
Lemma own_id_ok l : okay (own_id env a) (λ me l', is_me l' me) l.
Proof.
  unfold own_id. eapply okay_then.
  { apply (retry_ok allowed _ _ _ (λ v l', shown l' "/rest/system/status" v)); [intros; by left|]. intros l' _. apply hub_get_ok. }
  intros v l1 _ Hv. cbn beta in Hv. eapply okay_then; [apply need_ok|]. intros me ? _ [E ->]. destruct (env "HUB_DEVICE_ID") as [hub|] eqn:Eh.
  - case_bool_decide; [|apply okay_raise]. apply okay_ret. split; [by exists v|]. intros hub' E'. rewrite Eh in E'. injection E' as <-. done.
  - apply okay_ret. split; [by exists v|]. intros hub' E'. by rewrite Eh in E'.
Qed.
Lemma hub_restart_ok me l : is_me l me → okay (restart a) (λ _ _, True) l.
Proof.
  intros Hm. unfold restart. eapply okay_then; [apply hub_get_ok|]. intros v l1 Hl1 Hv. cbn beta in Hv. destruct (value_eqb _ _) eqn:E; [|by apply okay_ret].
  eapply okay_mono; [apply hub_do_ok; eapply h_restart; [by eapply me_later|done|]|done]. destruct (v.["requiresRestart"]) as [|[]| | | |]; done.
Qed.
(** The hub is as the table says. *)
Definition declared l me (ds fs : list Value) : Prop :=
  is_me l me ∧ (∀ want, want ∈ other_devices me ds → settled l "devices" "deviceID" want) ∧
  (∀ f, f ∈ fs → ∃ want, with_hub f me = Some want ∧ settled l "folders" "id" want) ∧
  ∃ current, shown l (config_path "devices") current ∧ ∀ d, d ∈ array_of current → device_right l me (ids_in "deviceID" (other_devices me ds)) d.
Lemma declare_ok me ds fs l : is_me l me → table "DEVICES" ds → table "FOLDERS" fs → okay (declare a me ds fs) (λ _ l', declared l' me ds fs) l.
Proof.
  intros Hm Hds Hfs. unfold declare. eapply okay_then.
  { apply (ensure_all_ok me); [exact Hm|]. intros want Hw. split; [by eapply a_device|]. intros id _ Hk. done. }
  intros current l1 Hl1 [Hc Hsd]. eapply okay_then; [apply need_ok|]. intros folders ? _ [Ef ->].
  eapply okay_then; [apply hub_get_ok|]. intros current_folders l2 Hl2 Hcf. cbn beta in Hcf. eapply okay_then.
  { apply (for_each_all allowed _ (λ f l, ∀ id, has_id f "id" id → path_is_free l "folders" f id)).
    - intros f l' l'' Hl Hf id Hi. eapply free_later; [exact Hl|by apply Hf].
    - intros f l' _ Hl. apply path_free_ok. by eapply got_later. }
  intros ? l3 Hl3 Hfree. cbn beta in Hfree. rewrite Forall_forall in Hfree. apply mapM_Some in Ef.
  assert (l `prefix_of` l3) as Hl by (etrans; [exact Hl1|etrans; [exact Hl2|done]]). eapply okay_then.
  { apply (ensure_all_ok me); [by eapply me_later|]. intros want Hw. split; [|by apply Hfree]. apply list_elem_of_lookup in Hw as [i Hi].
    destruct (Forall2_lookup_r _ _ _ _ _ Ef Hi) as (f & Hf & E). eapply a_folder; [done|by eapply list_elem_of_lookup_2|done]. }
  intros ? l4 Hl4 [_ Hsf]. eapply okay_then.
  { apply (okay_for_each Ans allowed _ _ (λ _ l', l4 `prefix_of` l')); [|done]. intros f l' _ _. unfold report_folder. case_bool_decide; [by apply okay_ret|by apply say_ok]. }
  intros ? l5 _ Hl5. assert (l1 `prefix_of` l5) as H15 by (etrans; [exact Hl2|etrans; [exact Hl3|etrans; [exact Hl4|done]]]). assert (l `prefix_of` l5) as H05 by (etrans; [exact Hl1|exact H15]). eapply okay_then.
  { apply (for_each_all allowed _ (λ d l, device_right l me (ids_in "deviceID" (other_devices me ds)) d)); [by intros; eapply device_later|].
    intros d l' Hd Hl'. eapply (remove_device_ok _ _ current); [eapply me_later; [|exact Hm]; etrans; [exact H05|done]|done|eapply got_later; [|exact Hc]; etrans; [exact H15|done]|done]. }
  intros ? l6 Hl6 Hdev. cbn beta in Hdev. assert (l `prefix_of` l6) as H06 by (etrans; [exact H05|exact Hl6]). assert (l1 `prefix_of` l6) as H16 by (etrans; [exact H15|exact Hl6]).
  assert (l4 `prefix_of` l6) as H46 by (etrans; [exact Hl5|exact Hl6]).
  eapply okay_mono; [eapply hub_restart_ok, me_later; [exact H06|exact Hm]|]. intros ? l7 Hl7 _. rewrite Forall_forall in Hsd, Hsf, Hdev. split_and!.
  - eapply me_later; [|exact Hm]. etrans; [exact H06|done].
  - intros want Hw. eapply settled_later; [|by apply Hsd]. etrans; [exact H16|done].
  - intros f Hf. apply list_elem_of_lookup in Hf as [i Hi]. destruct (Forall2_lookup_l _ _ _ _ _ Ef Hi) as (want & Hw & E). exists want. split; [done|].
    eapply settled_later; [|apply Hsf; by eapply list_elem_of_lookup_2]. etrans; [exact H46|done].
  - exists current. split; [eapply got_later; [|exact Hc]; etrans; [exact H16|done]|]. intros d Hd. eapply device_later; [exact Hl7|by apply Hdev].
Qed.
End hub.

Section run.
Context `{SerdeJson, Libs} (env : string → option string).
Implicit Types (l : Log).

Definition hub_of (k : string) : Hub := mkHub (no_slash (var env "SYNCTHING_URL" "http://syncthing.home.svc.cluster.local:8384")) k.
Definition may l (x : Act) : Prop := quiet x ∨ ∃ k, due env (hub_of k) l x.
Lemma list_of_may name l : Trace.okay Ans may (list_of env name) (λ ds l', table env name ds ∧ l' = l) l.
Proof.
  eapply okay_weaken; [|apply (list_of_ok env (hub_of ""))]. intros l' x [Hq|Hd]; [by left|right; by exists ""].
Qed.
Lemma hub_run_ok l : Trace.okay Ans may (run env) (λ _ l', ∃ k me ds fs, table env "DEVICES" ds ∧ table env "FOLDERS" fs ∧ declared env (hub_of k) l' me ds fs) l.
Proof.
  unfold run. eapply okay_then; [apply secret_okay; intros; by left|]. intros k l1 _ _. fold (hub_of k).
  eapply okay_then; [apply list_of_may|]. intros ds ? _ [Hds ->]. eapply okay_then; [apply list_of_may|]. intros fs ? _ [Hfs ->].
  assert (∀ l x, allowed env (hub_of k) l x → may l x) as Hw by (intros l' x [Hq|Hd]; [by left|right; by exists k]).
  eapply okay_then; [eapply okay_weaken; [exact Hw|apply own_id_ok]|]. intros me l2 _ Hm. cbn beta in Hm.
  eapply okay_then; [eapply okay_weaken; [exact Hw|by eapply apply_gui_ok]|]. intros ? l3 Hl3 _.
  eapply okay_mono; [eapply okay_weaken; [exact Hw|apply declare_ok; [eapply me_later; [exact Hl3|exact Hm]|done..]]|].
  intros ? l4 _ Hdec. by exists k, me, ds, fs.
Qed.

(** Whatever Syncthing answers, a run changes nothing before Syncthing has said that it is the expected hub, and then: adds a
    device or folder of the table when the list it was shown has none of that identifier (a folder only where no other folder
    was listed at its path), patches one that does not cover what the table says, removes only devices the table lacks (never the
    hub itself, never a folder), patches the GUI settings that differ and restarts when asked to. *)
Theorem hub_due outside out l : ∃ k, (exec Ans outside (run env out) l).1 = l ++ k ∧
  ∀ k1 e k2, k = k1 ++ e :: k2 → quiet (e_act e) ∨ ∃ key, due env (hub_of key) (l ++ k1) (e_act e).
Proof. destruct (exec_okay Ans may outside _ _ out l (hub_run_ok l)) as (k & Ek & Hk). exists k. split; [exact Ek|exact Hk]. Qed.

(** When a run ends without an error, every device and folder of the table (the hub among each folder's devices) was listed
    covering what the table says, was patched, or was added over the defaults, which covers it; and every listed device is the
    hub, of the table or removed. A patch that is accepted and a listing that covers send nothing next time. *)
Theorem hub_declared outside out l out' : (exec Ans outside (run env out) l).2 = Ok (out', Ok ()) →
  (∃ k me ds fs, table env "DEVICES" ds ∧ table env "FOLDERS" fs ∧ declared env (hub_of k) (exec Ans outside (run env out) l).1 me ds fs) ∧
  (∀ template want, json_wf want = true → keyed want = true → covers (overlay template want) want = true) ∧
  (∀ f me want, with_hub f me = Some want → me ∈ device_ids (want.["devices"]) ∧ ∀ k, k ≠ "devices" → want.[k] = f.[k]).
Proof.
  intros E. split_and!.
  - destruct (exec_holds Ans may outside _ _ _ (hub_run_ok l out)) as [HQ _]. rewrite E in HQ. destruct HQ as [_ HQ]. exact HQ.
  - intros template want. apply covers_overlay.
  - intros f me want Hh. destruct (hub_joins _ _ _ Hh) as [-> Hk]. split; [set_solver|exact Hk].
Qed.
End run.

(** ** A hub is declared, and declared again

    A Syncthing with a device too many, one that differs and a folder to add; and the same Syncthing once it is as declared. *)
#[local] Existing Instances Reference.serde Reference.libs.

Definition device (id name : string) (auto : bool) : Value := Object [("autoAcceptFolders", Bool auto); ("deviceID", Str id); ("name", Str name)].
Definition folder (id path : string) (devices : list string) : Value :=
  Object [("devices", Array ((λ d, Object [("deviceID", Str d)]) <$> devices)); ("id", Str id); ("path", Str path)].
Definition env (name : string) : option string :=
  assoc name [("SYNCTHING_URL", "http://st"); ("API_KEY", "k"); ("HUB_DEVICE_ID", "HUB"); ("DEVICES", Reference.text (Array [device "A" "laptop" false; device "B" "phone" false]));
              ("FOLDERS", Reference.text (Array [folder "org" "/data/org" ["A"; "B"]]))].
Definition answer (devices folders : list Value) (url : string) : Value :=
  if ends_with "/system/status" url then Object [("myID", Str "HUB")]
  else if ends_with "/config/devices" url then Array devices
  else if ends_with "/config/folders" url then Array folders
  else if ends_with "/defaults/device" url then Object [("autoAcceptFolders", Bool true); ("compression", Str "metadata"); ("name", Str "")]
  else if ends_with "/defaults/folder" url then Object [("rescanIntervalS", json_i64 3600)]
  else Object [("requiresRestart", Bool false)].
Definition outside (devices folders : list Value) (l : Log) (x : Act) : Ans x :=
  match x return Ans x with
  | Http rq => Ok (mkResp 200 [] (Ok (if String.eqb (rq_method rq) "GET" then Reference.text (answer devices folders (rq_url rq)) else "")))
  | x => Reference.outside l x
  end.
Definition first : Log * Result (list string * Result () string) Empty_set :=
  exec Ans (outside [device "HUB" "hub" false; device "A" "laptop" true; device "C" "old" false] [folder "photos" "/data/photos" ["HUB"]]) (run env []) [].
Definition again : Log * Result (list string * Result () string) Empty_set :=
  exec Ans (outside [device "HUB" "hub" false; device "A" "laptop" false; overlay (Object [("compression", Str "metadata")]) (device "B" "phone" false)] [folder "photos" "/data/photos" ["HUB"]; folder "org" "/data/org" ["B"; "HUB"; "A"]]) (run env []) [].
Example hub_runs :
  omap change first.1 = [("PATCH", "http://st/rest/config/devices/A"); ("POST", "http://st/rest/config/devices"); ("POST", "http://st/rest/config/folders"); ("DELETE", "http://st/rest/config/devices/C")] ∧
  omap change again.1 = [].
Proof. vm_compute. done. Qed.
Lemma hub_declared_witness :
  (∃ k me ds fs, table env "DEVICES" ds ∧ table env "FOLDERS" fs ∧ declared env (hub_of env k) first.1 me ds fs) ∧
  (∀ template want, json_wf want = true → keyed want = true → covers (overlay template want) want = true) ∧
  (∀ f me want, with_hub f me = Some want → me ∈ device_ids (want.["devices"]) ∧ ∀ k, k ≠ "devices" → want.[k] = f.[k]).
Proof. unfold first. eapply (hub_declared env _ [] []). vm_compute. reflexivity. Defined.
