(* ===== verification/Bazarr.v ===== *)
(** * Setting up Bazarr ([apps/app-bootstrap/src/bazarr.rs])

    The language profile with its plan, the links to Sonarr and Radarr, the providers, the one settings form made of them, and
    the profile of what was synced before. Texts are bytes of ASCII. *)

From Stdlib Require Import Ascii.
From stdpp Require Import options.
From S2P Require Import Prelude Text Json Codec Threads Trace Markers Apps Bootstrap Servarr Keycloak Ombi.

Definition PROVIDERS : string := "gestdown,tvsubtitles,yifysubtitles,subf2m,subtitlecat,animetosho".

(** ** The index page *)

(** [s.split(p).nth(1)] *)
Definition second_piece (p s : string) : option string :=
  '(_, rest) ← find_list (chars p) (chars s);
  Some (str match find_list (chars p) rest with Some (piece, _) => piece | None => rest end).
Definition page_api_key (html : string) : option string :=
  rest ← second_piece (quote +:+ "apiKey" +:+ quote +:+ ": " +:+ quote) html;
  let key := hd "" (split_char "034" rest) in
  if bool_decide (key = "") then None else Some key.

(** ** The plan of the profiles *)

Definition i64_wrap (z : Z) : Z := ((z + 2 ^ 63) `mod` 2 ^ 64 - 2 ^ 63)%Z.
Definition FLAGS : list string := ["audio_exclude"; "audio_only_include"; "hi"; "forced"].
Definition item (id : Z) (language : string) : Value :=
  Object [("audio_exclude", Str "False"); ("audio_only_include", Str "False"); ("forced", Str "False"); ("hi", Str "False"); ("id", json_i64 id); ("language", Str language)].
(** Numbered from [first]. *)
Fixpoint items_from (first : Z) (languages : list string) : list Value :=
  match languages with [] => [] | l :: ls => item first l :: items_from (i64_wrap (first + 1)) ls end.
Definition language_profile (id : Z) (name : string) (languages : list string) : Value :=
  Object [("cutoff", Null); ("items", Array (items_from 1 languages)); ("mustContain", Array []); ("mustNotContain", Array []); ("name", Str name);
          ("originalFormat", Bool false); ("profileId", json_i64 id); ("tag", Null)].
Record Profiles : Type := mkProfiles { all : list Value; p_id : Z; changed : bool; superseded : option Z }.
Definition missing (have wanted : list string) : list string := List.filter (λ w, negb (bool_decide (w ∈ have))) wanted.
Definition strings (v : Value) : list string := omap as_str (array_of v).
Definition languages_of (p : Value) : list string := omap (λ it, as_str (it.["language"])) (array_of (p.["items"])).
(** An item with the flags it lacks, and whether it lacked one. *)
Definition add_flag (s : list (string * Value) * bool) (flag : string) : list (string * Value) * bool :=
  match assoc flag s.1 with Some _ => s | None => (insert_key flag (Str "False") s.1, true) end.
Definition with_flags (it : Value) : Value * bool :=
  match it with Object m => let s := foldl add_flag (m, false) FLAGS in (Object s.1, s.2) | _ => (it, false) end.
Definition max_or_zero (l : list Z) : Z := match l with [] => 0%Z | z :: l => foldl Z.max z l end.
Definition pid (p : Value) : option Z := value_as_i64 (p.["profileId"]).
Definition is_named (name : string) (p : Value) : Prop := value_is_str (p.["name"]) name = true.
#[export] Instance is_named_dec name p : Decision (is_named name p) := decide (value_is_str (p.["name"]) name = true).
(** The items of a profile that is there, completed. *)
Definition completed (p : Value) (languages : list string) : list Value * bool :=
  let flagged := with_flags <$> array_of (p.["items"]) in
  let items := flagged.*1 in
  let lacking := missing (languages_of p) languages in
  let first := i64_wrap (max_or_zero (omap (λ it, value_as_i64 (it.["id"])) items) + 1) in
  (items ++ items_from first lacking, existsb snd flagged || negb (bool_decide (lacking = []))).
Definition with_profile (existing : Value) (name rename_from : string) (languages : list string) : Profiles :=
  let all := array_of existing in
  let old_id := if String.eqb rename_from name then None else ip ← list_find (is_named rename_from) all; pid ip.2 in
  match list_find (is_named name) all with
  | Some (i, p) =>
      let id := default 1%Z (pid p) in
      let '(items, changed) := completed p languages in
      let all := <[i := set_key "items" (Array items) p]> all in
      match old_id with
      | Some old => mkProfiles (List.filter (λ p, negb (bool_decide (pid p = Some old))) all) id true (Some old)
      | None => mkProfiles all id changed None
      end
  | None =>
      match list_find (is_named rename_from) all with
      | Some (i, p) => let id := default 1%Z (pid p) in mkProfiles (<[i := language_profile id name languages]> all) id true None
      | None => let id := i64_wrap (max_or_zero (omap pid all) + 1) in mkProfiles (all ++ [language_profile id name languages]) id true None
      end
  end.

(** ** Links *)

Definition is_linked (settings : Value) (kind host : string) (port : Z) (key : string) : bool :=
  let have := settings.[kind] in
  value_eqb (settings.["general"].["use_" +:+ kind]) (Bool true) && value_is_str (have.["ip"]) host && value_eqb (have.["port"]) (json_i64 port)
  && value_is_str (have.["apikey"]) key && value_eqb (have.["ssl"]) (Bool false).
Definition link_arr (settings : Value) (kind host : string) (port : Z) (key : string) : list (string * string) :=
  if is_linked settings kind host port key then []
  else [("settings-general-use_" +:+ kind, "true"); ("settings-" +:+ kind +:+ "-ip", host); ("settings-" +:+ kind +:+ "-port", pretty port);
        ("settings-" +:+ kind +:+ "-base_url", "/"); ("settings-" +:+ kind +:+ "-ssl", "false"); ("settings-" +:+ kind +:+ "-apikey", key)].

(** The program's own tests. *)
Example bazarr_tests :
  page_api_key ("window.Bazarr = JSON.parse(`{" +:+ quote +:+ "apiKey" +:+ quote +:+ ": " +:+ quote +:+ "b8d980ae" +:+ quote +:+ ", ") = Some "b8d980ae" ∧
  page_api_key "<html></html>" = None ∧ page_api_key (quote +:+ "apiKey" +:+ quote +:+ ": " +:+ quote +:+ quote +:+ ", ") = None ∧
  (let profile id name items := Object ([("items", Array items)] ++ [("name", Str name); ("profileId", json_i64 id)]) in
   let en := Object [("id", json_i64 1); ("language", Str "en")] in
   let shape p := (length (all p), p_id p, changed p, superseded p) in
   let p := with_profile (Array []) "Practice" "English" ["en"; "pt"] in
   shape p = (1, 1%Z, true, None) ∧ shape (with_profile (Array (all p)) "Practice" "English" ["en"; "pt"]) = (1, 1%Z, false, None) ∧
   shape (with_profile (Array [Object [("name", Str "French"); ("profileId", json_i64 4)]]) "Practice" "English" ["en"]) = (2, 5%Z, true, None) ∧
   (let p := with_profile (Array [profile 1%Z "English" [en]; profile 2%Z "Practice" [en]]) "Practice" "English" ["en"; "pt"; "es"] in
    shape p = (1, 2%Z, true, Some 1%Z) ∧ flat_map languages_of (all p) = ["en"; "pt"; "es"] ∧ shape (with_profile (Array (all p)) "Practice" "English" ["en"; "pt"; "es"]) = (1, 2%Z, false, None)) ∧
   shape (with_profile (Array [profile 3%Z "English" [en]; profile 4%Z "Other" []]) "Practice" "English" ["en"; "es"]) = (2, 3%Z, true, None)) ∧
  (let settings := Object [("general", Object [("use_sonarr", Bool true)]); ("sonarr", Object [("apikey", Str "k"); ("ip", Str "sonarr"); ("port", json_i64 80); ("ssl", Bool false)])] in
   link_arr settings "sonarr" "sonarr" 80 "k" = [] ∧ length (link_arr settings "sonarr" "sonarr" 80 "other") = 6 ∧ length (link_arr settings "radarr" "radarr" 80 "k") = 6) ∧
  missing ["a"; "b"] ["b"; "c"] = ["c"].
Proof. vm_compute. done. Qed.

Section bazarr.
Context `{SerdeJson, Libs} (env : string → option string).
Implicit Types (path kind : string) (settings : Value).

Record Bazarr : Type := mkBazarr { bz_base : string; bz_key : string }.
Definition bz_req (b : Bazarr) (method path : string) (body : Body) : Req := with_body body (with_header ("x-api-key", bz_key b) (plain method (bz_base b +:+ path))).
Definition bz_get (b : Bazarr) path : Job Value := r ← send (bz_req b "GET" path NoBody); r ← ok r ("GET " +:+ path); json_body r.
Definition bz_post (b : Bazarr) path (form : list (string * string)) : Job () :=
  r ← send (bz_req b "POST" path (FormBody form)); _ ← ok r ("POST " +:+ path); mret ().
Definition page_key base : Job string :=
  retry "waiting for bazarr" 120
    (r ← send (plain "GET" (no_slash base +:+ "/")); r ← ok r "GET /";
     match rs_text r with
     | Err e => fail e
     | Ok html => need (page_api_key html) "no apiKey in the index page (is Bazarr authentication on?)"
     end).

(** ** The settings form *)

Definition wanted_languages : list string := csv (var env "BAZARR_LANGUAGES" "en").
Definition providers : list string := csv (var env "BAZARR_PROVIDERS" PROVIDERS).
Definition profile_name : string := var env "BAZARR_PROFILE" "English".
Definition rename_from : string := var env "BAZARR_RENAME_FROM" "English".
Definition enabled_languages (languages : Value) : list string :=
  omap (λ l, as_str (l.["code2"])) (List.filter (λ l, value_eqb (l.["enabled"]) (Bool true)) (array_of languages)).
(** Everything that is on and what is missing, or nothing when nothing is. *)
Definition repeated (key : string) (have wanted : list string) : list (string * string) :=
  let add := missing have wanted in if bool_decide (add = []) then [] else pair key <$> have ++ add.
Definition form_profiles (plan : Profiles) : list (string * string) :=
  if changed plan then [("languages-profiles", to_string (Array (all plan)))] else [].
Definition DEFAULTS : list (string * string * string) :=
  [("series", "serie_default_enabled", "serie_default_profile"); ("movies", "movie_default_enabled", "movie_default_profile")].
Definition form_default (general : Value) (plan : Profiles) (d : string * string * string) : list (string * string) :=
  let '(_, flag, profile) := d in
  let on_superseded := bool_decide (is_Some (superseded plan)) && bool_decide (value_as_i64 (general.[profile]) = superseded plan) in
  if negb (value_eqb (general.[flag]) (Bool true)) || on_superseded then [("settings-general-" +:+ flag, "true"); ("settings-general-" +:+ profile, pretty (p_id plan))] else [].
Definition form_embedded (general : Value) : list (string * string) :=
  match env "BAZARR_USE_EMBEDDED_SUBS" with
  | Some want =>
      let want := String.eqb want "true" in
      if value_eqb (general.["use_embedded_subs"]) (Bool want) then [] else [("settings-general-use_embedded_subs", if want then "true" else "false")]
  | None => []
  end.
Record Link : Type := mkLink { k_kind : string; k_host : string; k_port : Z; k_key : string }.
Definition ARR_KINDS : list (string * string) := [("sonarr", "SONARR_PORT_NUMBER"); ("radarr", "RADARR_PORT_NUMBER")].
Definition link_of (kp : string * string) : Job (option Link) :=
  let up := to_uppercase kp.1 in
  key ← optional_secret env (up +:+ "_API_KEY");
  match key with
  | None => mret None
  | Some key =>
      let host := var env (up +:+ "_HOST") (kp.1 +:+ ".media.svc.cluster.local") in
      port ← need (parse_i64 (var env kp.2 "80")) "invalid digit found in string";
      mret (Some (mkLink kp.1 host port key))
  end.
Definition form_link settings (k : Link) : list (string * string) := link_arr settings (k_kind k) (k_host k) (k_port k) (k_key k).
Definition settings_form settings (languages : Value) (plan : Profiles) (links : list Link) : list (string * string) :=
  let general := settings.["general"] in
  repeated "languages-enabled" (enabled_languages languages) wanted_languages ++ form_profiles plan ++ flat_map (form_default general plan) DEFAULTS ++
  form_embedded general ++ flat_map (form_link settings) links ++ repeated "settings-general-enabled_providers" (strings (general.["enabled_providers"])) providers.

(** ** What was synced before the defaults *)

(** The items of [synced] on no profile, or on one that is gone. *)
Definition unset (known : list Z) (id_field : string) (synced : Value) : list Z :=
  omap (λ i, value_as_i64 (i.[id_field])) (List.filter (λ i, match value_as_i64 (i.["profileId"]) with Some p => negb (bool_decide (p ∈ known)) | None => true end)
    (array_of (synced.["data"]))).
Definition profile_form (field : string) (id : Z) (items : list Z) : list (string * string) :=
  flat_map (λ i, [(field, pretty i); ("profileid", pretty id)]) items.
(** The list of the arr app, the identifier's field, and Bazarr's path and form field. *)
Definition arr_of kind : string * string * string * string :=
  if String.eqb kind "sonarr" then ("/series", "sonarrSeriesId", "/api/series", "seriesid") else ("/movie", "radarrId", "/api/movies", "radarrid").
Definition count_of (v : option (list Value)) : nat := match v with Some l => length l | None => O end.
Definition give_profile (b : Bazarr) (plan : Profiles) (k : Link) : Job () :=
  let '(lst, id_field, path, field) := arr_of (k_kind k) in
  let known := omap pid (all plan) in
  arr ← get (mkServarr ("http://" +:+ k_host k +:+ ":" +:+ pretty (k_port k)) (k_key k) "v3") lst;
  let want := count_of (as_array arr) in
  synced ← catch Ans (retry ("bazarr syncing " +:+ k_kind k) 24
    (have ← bz_get b path;
     let n := count_of (as_array (have.["data"])) in
     if (n <? want)%nat then fail (pretty (N.of_nat n) +:+ " of " +:+ pretty (N.of_nat want) +:+ " synced") else mret have));
  match synced with
  | Err _ => say ("bazarr: " +:+ k_kind k +:+ " not synced yet, leaving the profile to the default for new items")
  | Ok synced =>
      let items := unset known id_field synced in
      if bool_decide (items = []) then mret ()
      else
        _ ← bz_post b path (profile_form field (p_id plan) items);
        say ("bazarr: gave " +:+ pretty (N.of_nat (length items)) +:+ " " +:+ k_kind k +:+ " item(s) the " +:+ profile_name +:+ " profile")
  end.
Definition apply_form (b : Bazarr) (form : list (string * string)) : Job () :=
  if bool_decide (form = []) then say "bazarr: already configured"
  else _ ← bz_post b "/api/system/settings" form; say ("bazarr: applied " +:+ pretty (N.of_nat (length form)) +:+ " setting(s)").
Definition run : Job () :=
  let base := var env "BAZARR_URL" "http://bazarr.media.svc.cluster.local:6767" in
  key ← page_key base;
  let b := mkBazarr (no_slash base) key in
  settings ← bz_get b "/api/system/settings";
  languages ← bz_get b "/api/system/languages";
  existing ← bz_get b "/api/system/languages/profiles";
  let plan := with_profile existing profile_name rename_from wanted_languages in
  links ← traverse link_of ARR_KINDS;
  let links := omap id links in
  _ ← apply_form b (settings_form settings languages plan links);
  for_each Ans links (give_profile b plan).
End bazarr.
