(* ===== verification/BazarrPlan.v ===== *)
(** * Bazarr's profile is made once

    [profiles_settled]: what the plan of the profiles holds, and that it is its own fixed point. [bazarr_due]: what a run posts,
    whatever is answered. *)

From Stdlib Require Import Ascii.
From stdpp Require Import options.
From S2P Require Import Prelude Text Json Codec Threads Markers Trace Apps Bootstrap Servarr Keycloak Ombi Bazarr.

(** ** Lists with distinct keys *)

Lemma omap_insert_same {A B} (f : A → option B) (l : list A) (i : nat) x y : l !! i = Some x → f y = f x → omap f (<[i:=y]> l) = omap f l.
Proof.
  revert i. induction l as [|z l IH]; intros [|i] Hi Hf; try done; cbn in *.
  - injection Hi as ->. by rewrite Hf.
  - pose proof (IH i Hi Hf) as E. destruct (f z); [f_equal; exact E|exact E].
Qed.
Lemma omap_distinct {A B} (f : A → option B) (l : list A) (i j : nat) x y b : NoDup (omap f l) → l !! i = Some x → l !! j = Some y → f x = Some b → f y = Some b → i = j.
Proof.
  revert i j. induction l as [|z l IH]; intros i j Hn Hi Hj Hx Hy; [done|]. cbn in Hn.
  assert (∀ k w, l !! k = Some w → f w = Some b → f z = Some b → False) as Hz.
  { intros k w Hk Hw E. rewrite E in Hn. apply NoDup_cons in Hn as [Hn _]. apply Hn, list_elem_of_omap. exists w. split; [by eapply list_elem_of_lookup_2|done]. }
  destruct i as [|i], j as [|j]; cbn in Hi, Hj; [done| | |].
  - injection Hi as ->. by destruct (Hz _ _ Hj Hy Hx).
  - injection Hj as ->. by destruct (Hz _ _ Hi Hx Hy).
  - f_equal. apply (IH i j); try done. destruct (f z); [by apply NoDup_cons in Hn as [_ ?]|done].
Qed.
Lemma omap_filter_sub {A B} (f : A → option B) (P : A → bool) (l : list A) : omap f (List.filter P l) `sublist_of` omap f l.
Proof.
  induction l as [|x l IH]; cbn; [done|]. destruct (P x); cbn; destruct (f x); try (by constructor); done.
Qed.
Lemma in_filter {A} (P : A → bool) x l : x ∈ List.filter P l ↔ x ∈ l ∧ P x = true.
Proof. by rewrite !list_elem_of_In, filter_In. Qed.

(** ** Items *)

Definition flagged (m : list (string * Value)) : Prop := ∀ flag, flag ∈ FLAGS → is_Some (assoc flag m).
Lemma flags_from fs s : (∀ j, is_Some (assoc j s.1) → is_Some (assoc j (foldl add_flag s fs).1)) ∧ (∀ flag, flag ∈ fs → is_Some (assoc flag (foldl add_flag s fs).1)) ∧
  ∀ j, j ∉ fs → assoc j (foldl add_flag s fs).1 = assoc j s.1.
Proof.
  revert s. induction fs as [|g fs IH]; intros s; cbn [foldl]; [split_and!; [done|by intros ? H%not_elem_of_nil|done]|].
  destruct (IH (add_flag s g)) as (I1 & I2 & I3). assert (∀ j, is_Some (assoc j s.1) → is_Some (assoc j (add_flag s g).1)) as Hs.
  { intros j Hj. unfold add_flag. destruct (assoc g s.1) eqn:E; [done|]. cbn. destruct (decide (j = g)) as [->|]; [by rewrite assoc_insert|by rewrite assoc_insert_ne]. }
  split_and!.
  - intros j Hj. by apply I1, Hs.
  - intros flag [->|Hf]%elem_of_cons; [|by apply I2]. apply I1. unfold add_flag. destruct (assoc g s.1) eqn:E; [by rewrite E|]. cbn. by rewrite assoc_insert.
  - intros j [Hj Hn]%not_elem_of_cons. rewrite I3 by done. unfold add_flag. destruct (assoc g s.1); [done|]. cbn. by rewrite assoc_insert_ne.
Qed.
Lemma flags_done m b : flagged m → foldl add_flag (m, b) FLAGS = (m, b).
Proof.
  intros Hf. unfold flagged in Hf. induction FLAGS as [|g fs IH]; [done|]. cbn [foldl]. unfold add_flag at 2. cbn [fst].
  destruct (Hf g) as [v ->]; [by left|]. apply IH. intros flag Hin. apply Hf. by right.
Qed.
Definition complete_item (it : Value) : Prop := ∀ m, it = Object m → flagged m.
Lemma with_flags_complete it : complete_item (with_flags it).1.
Proof. destruct it; try done. intros m' [= <-] flag Hf. by apply (flags_from FLAGS). Qed.
Lemma with_flags_done it : complete_item it → with_flags it = (it, false).
Proof. destruct it as [| | | | |m]; try done. intros Hc. cbn [with_flags]. by rewrite flags_done by by apply Hc. Qed.
Lemma with_flags_index it k : k ∉ FLAGS → (with_flags it).1.[k] = it.[k].
Proof. intros Hk. destruct it as [| | | | |m]; try done. cbn. destruct (flags_from FLAGS (m, false)) as (_ & _ & E). cbn [fst] in E. cbn in E |- *. by rewrite E. Qed.
Lemma item_complete id l : complete_item (item id l).
Proof. intros m [= <-] flag Hf. repeat (apply elem_of_cons in Hf as [->|Hf]; [by eexists|]). by apply not_elem_of_nil in Hf. Qed.
Lemma items_from_complete first ls : Forall complete_item (items_from first ls).
Proof. revert first. induction ls as [|l ls IH]; intros first; constructor; [apply item_complete|apply IH]. Qed.
Definition lang (it : Value) : option string := as_str (it.["language"]).
Lemma items_from_langs first ls : omap lang (items_from first ls) = ls.
Proof. revert first. induction ls as [|l ls IH]; intros first; cbn; [done|]. by rewrite IH. Qed.
Lemma missing_in have wanted w : w ∈ missing have wanted ↔ w ∈ wanted ∧ w ∉ have.
Proof. unfold missing. rewrite in_filter, negb_true_iff, bool_decide_eq_false. done. Qed.
Lemma missing_none have wanted : (∀ w, w ∈ wanted → w ∈ have) → missing have wanted = [].
Proof.
  intros Hw. destruct (missing have wanted) as [|w ws] eqn:E; [done|]. exfalso.
  assert (w ∈ missing have wanted) as Hin by (rewrite E; by left). apply missing_in in Hin as [Hin Hn]. by apply Hn, Hw.
Qed.
(** A completed profile has the languages it had and those it lacked, and completing it again changes nothing. *)
Lemma completed_items p langs : ∃ its, (completed p langs).1 = its ∧ Forall complete_item its ∧ omap lang its = languages_of p ++ missing (languages_of p) langs.
Proof.
  eexists. split; [done|]. unfold completed. cbn [fst]. split.
  - apply Forall_app. split; [|apply items_from_complete]. apply Forall_forall. intros it. rewrite <- list_fmap_compose, list_elem_of_fmap. intros (x & -> & _). apply with_flags_complete.
  - rewrite omap_app, items_from_langs. f_equal. unfold languages_of. induction (array_of (p.["items"])) as [|it l IH]; [done|]. cbn. unfold lang at 1.
    rewrite with_flags_index by (vm_compute; intros Hin; repeat (apply elem_of_cons in Hin as [Hin|Hin]; [done|]); by apply not_elem_of_nil in Hin). by rewrite <- IH.
Qed.
Lemma completed_done p langs its : p.["items"] = Array its → Forall complete_item its → (∀ w, w ∈ langs → w ∈ omap lang its) → completed p langs = (its, false).
Proof.
  intros Ei Hc Hl. unfold completed, languages_of. rewrite Ei. change (array_of (Array its)) with its. rewrite missing_none by exact Hl. cbn [items_from]. rewrite app_nil_r.
  assert (with_flags <$> its = (λ it, (it, false)) <$> its) as ->.
  { apply Forall_fmap_ext. rewrite Forall_forall in Hc |- *. intros it Hin. by apply with_flags_done, Hc. }
  rewrite <- list_fmap_compose. cbn. f_equal; [apply list_fmap_id|]. clear. induction its as [|it its IH]; [done|exact IH].
Qed.

(** ** The plan *)

Definition nm (p : Value) : option string := as_str (p.["name"]).
Lemma named_nm n p : is_named n p ↔ nm p = Some n.
Proof. unfold is_named, nm. destruct (p.["name"]); cbn; try done. rewrite String.eqb_eq. split; [by intros ->|by intros [= ->]]. Qed.
Definition distinct (ps : list Value) : Prop := NoDup (omap pid ps) ∧ NoDup (omap nm ps).
(** Bazarr's profiles have small identifiers and names, each its own. *)
Definition well_formed (ps : list Value) : Prop := distinct ps ∧ Forall (λ p, ∃ z, pid p = Some z ∧ (0 ≤ z < 2 ^ 62)%Z) ps.
Lemma found_at ps n i p : NoDup (omap nm ps) → ps !! i = Some p → is_named n p → list_find (is_named n) ps = Some (i, p).
Proof.
  intros Hn Hi Hp. apply list_find_Some. split; [done|]. split; [done|]. intros j y Hj Hlt Hy. rewrite named_nm in Hp, Hy.
  assert (i = j) as <- by by eapply omap_distinct. lia.
Qed.
Lemma i64_wrap_id z : (- 2 ^ 63 <= z < 2 ^ 63)%Z → i64_wrap z = z.
Proof. unfold i64_wrap. intros Hz. rewrite Z.mod_small; lia. Qed.
Lemma max_above z0 l z : (z ∈ l ∨ z ≤ z0 → z <= foldl Z.max z0 l)%Z.
Proof.
  revert z0. induction l as [|y l IH]; intros z0; cbn; [intros [H%not_elem_of_nil|?]; done|]. rewrite elem_of_cons. intros H. apply IH. destruct H as [[->|H]|H]; [right; lia|by left|right; lia].
Qed.
Lemma max_or_zero_above l z : z ∈ l → (z <= max_or_zero l)%Z.
Proof. destruct l as [|y l]; cbn; [by intros H%not_elem_of_nil|]. intros [->|H]%elem_of_cons; apply max_above; [right; lia|by left]. Qed.
Lemma max_or_zero_bound l b : (0 <= b)%Z → Forall (λ z, z <= b)%Z l → (max_or_zero l <= b)%Z.
Proof.
  intros Hb. destruct l as [|y l]; cbn; [done|]. intros [Hy Hl]%Forall_cons. revert y Hy. induction Hl as [|x l Hx _ IH]; intros y Hy; cbn; [done|]. apply IH. lia.
Qed.
Lemma distinct_insert {B} (f : Value → option B) (l : list Value) (i : nat) y b :
  NoDup (omap f l) → f y = Some b → (∀ z, z ∈ l → f z ≠ Some b) → NoDup (omap f (<[i:=y]> l)).
Proof.
  revert i. induction l as [|z l IH]; intros i Hn Hy Hf; [done|]. assert (NoDup (omap f l)) as Hl by (cbn in Hn; destruct (f z); [by apply NoDup_cons in Hn as [_ ?]|done]).
  destruct i as [|i]; cbn.
  - rewrite Hy. apply NoDup_cons. split; [|done]. intros (z' & Hz & E)%list_elem_of_omap. by apply (Hf z'); [right|].
  - assert (NoDup (omap f (<[i:=y]> l))) as Hi by (apply IH; [done..|]; intros z' Hz; apply Hf; by right).
    destruct (f z) as [c|] eqn:Ez; [|exact Hi]. apply NoDup_cons. split; [|exact Hi]. intros (z' & Hz & E)%list_elem_of_omap.
    apply list_elem_of_lookup in Hz as [j Hj]. apply list_lookup_insert_Some in Hj as [(-> & <- & _)|[_ Hj]].
    + rewrite Hy in E. injection E as <-. by apply (Hf z); [left|].
    + cbn in Hn. rewrite Ez in Hn. apply NoDup_cons in Hn as [Hn _]. apply Hn, list_elem_of_omap. exists z'. split; [by eapply list_elem_of_lookup_2|done].
Qed.

(** The profile is there with everything wanted, and the one it replaces is not. *)
Definition has_profile (ps : list Value) (name rename_from : string) (languages : list string) (id : Z) (p : Value) : Prop :=
  p ∈ ps ∧ is_named name p ∧ pid p = Some id ∧
  (∃ its, p.["items"] = Array its ∧ set_key "items" (Array its) p = p ∧ Forall complete_item its ∧ ∀ w, w ∈ languages → w ∈ omap lang its) ∧
  (rename_from ≠ name → ∀ q, q ∈ ps → ¬ is_named rename_from q).
Lemma settled_again ps name rename_from languages id p : distinct ps → has_profile ps name rename_from languages id p →
  with_profile (Array ps) name rename_from languages = mkProfiles ps id false None.
Proof.
  intros [_ Hn] (Hin & Hp & Hid & (its & Ei & Es & Hc & Hl) & Hr). apply list_elem_of_lookup in Hin as [i Hi]. unfold with_profile. change (array_of (Array ps)) with ps.
  rewrite (found_at ps name i p), (completed_done p languages its), Es, list_insert_id, Hid by done.
  assert ((if String.eqb rename_from name then None else ip ← list_find (is_named rename_from) ps; pid ip.2) = None) as ->; [|done].
  destruct (String.eqb_spec rename_from name) as [|Hne]; [done|]. destruct (list_find (is_named rename_from) ps) as [[j q]|] eqn:Ef; [|done].
  apply list_find_Some in Ef as (Hj & Hq & _). destruct (Hr Hne q); [by eapply list_elem_of_lookup_2|done].
Qed.
Lemma named_object n p : is_named n p → ∃ m, p = Object m.
Proof. destruct p; try done. by eexists. Qed.
Definition completed_profile (p : Value) (languages : list string) : Value := set_key "items" (Array (completed p languages).1) p.
Lemma completed_profile_same p languages n : is_named n p → nm (completed_profile p languages) = nm p ∧ pid (completed_profile p languages) = pid p.
Proof. intros [m ->]%named_object. unfold completed_profile, nm, pid. by rewrite !set_key_index_ne. Qed.
Lemma completed_profile_has p languages n : is_named n p → ∃ its, (completed_profile p languages).["items"] = Array its ∧
  set_key "items" (Array its) (completed_profile p languages) = completed_profile p languages ∧ Forall complete_item its ∧ omap lang its = languages_of p ++ missing (languages_of p) languages.
Proof.
  intros [m ->]%named_object. destruct (completed_items (Object m) languages) as (its & E & Hc & Hl). exists its. unfold completed_profile. rewrite E. split_and!; [apply set_key_index| |done..].
  cbn. by rewrite insert_key_twice.
Qed.
Lemma wanted_in have languages w : w ∈ languages → w ∈ have ++ missing have languages.
Proof. intros Hw. apply elem_of_app. destruct (decide (w ∈ have)); [by left|right; by apply missing_in]. Qed.
Lemma language_profile_has id name languages : (- 2 ^ 63 <= id < 2 ^ 63)%Z →
  let p := language_profile id name languages in is_named name p ∧ pid p = Some id ∧
  ∃ its, p.["items"] = Array its ∧ set_key "items" (Array its) p = p ∧ Forall complete_item its ∧ ∀ w, w ∈ languages → w ∈ omap lang its.
Proof.
  intros Hid. split_and!; [by apply named_nm|unfold pid; cbn; by apply read_i64|]. exists (items_from 1 languages). split_and!; [done|done|apply items_from_complete|].
  intros w Hw. by rewrite items_from_langs.
Qed.
(** What the plan keeps of the profiles that were there, and whose place the profile takes. *)
Definition keeps (ps : list Value) (name rename_from : string) (plan : Profiles) (p : Value) : Prop :=
  (∀ q w, q ∈ ps → is_named name q → w ∈ languages_of q → w ∈ languages_of p) ∧
  (∀ q, q ∈ ps → nm q ≠ Some name → nm q ≠ Some rename_from → q ∈ all plan) ∧
  (∀ old, superseded plan = Some old → rename_from ≠ name ∧ ∃ q, q ∈ ps ∧ is_named rename_from q ∧ pid q = Some old).
Definition planned (ps : list Value) (name rename_from : string) (languages : list string) (plan : Profiles) : Prop :=
  distinct (all plan) ∧ ∃ p, has_profile (all plan) name rename_from languages (p_id plan) p ∧ keeps ps name rename_from plan p.
Lemma only_named ps n i j p q : NoDup (omap nm ps) → ps !! i = Some p → ps !! j = Some q → is_named n p → is_named n q → i = j.
Proof. rewrite !named_nm. intros Hn Hi Hj Hp Hq. by eapply omap_distinct. Qed.
Lemma in_insert {A} (l : list A) (i : nat) x y : y ∈ <[i:=x]> l → y = x ∨ ∃ j, j ≠ i ∧ l !! j = Some y.
Proof. intros [j Hj]%list_elem_of_lookup. apply list_lookup_insert_Some in Hj as [(-> & -> & _)|[Hne Hj]]; [by left|right; by exists j]. Qed.
Lemma insert_in {A} (l : list A) (i : nat) x : is_Some (l !! i) → x ∈ <[i:=x]> l ∧ ∀ j y, j ≠ i → l !! j = Some y → y ∈ <[i:=x]> l.
Proof.
  intros Hi. split; [eapply list_elem_of_lookup_2, list_lookup_insert_eq; by apply lookup_lt_is_Some|]. intros j y Hne Hj. eapply list_elem_of_lookup_2. by rewrite list_lookup_insert_ne.
Qed.
Lemma planned_found ps name rename_from languages i p : well_formed ps → ps !! i = Some p → is_named name p →
  planned ps name rename_from languages (with_profile (Array ps) name rename_from languages).
Proof.
  intros [[Hids Hns] Hr] Hi Hp. destruct (completed_profile_same p languages name Hp) as [En Ep]. destruct (completed_profile_has p languages name Hp) as (its & Ei & Es & Hc & Hl).
  assert (∀ q w, q ∈ ps → is_named name q → w ∈ languages_of q → w ∈ languages_of (completed_profile p languages)) as Hlk.
  { intros q w Hq Hqn Hw. apply list_elem_of_lookup in Hq as [j Hj]. assert (i = j) as <- by exact (only_named _ _ _ _ _ _ Hns Hi Hj Hp Hqn). rewrite Hi in Hj. injection Hj as <-.
    unfold languages_of. rewrite Ei. change (w ∈ omap lang its). rewrite Hl. apply elem_of_app. by left. }
  assert (∃ its, (completed_profile p languages).["items"] = Array its ∧ set_key "items" (Array its) (completed_profile p languages) = completed_profile p languages ∧ Forall complete_item its ∧
            ∀ w, w ∈ languages → w ∈ omap lang its) as Hits by (exists its; split_and!; [done..|]; intros w Hw; rewrite Hl; by apply wanted_in).
  assert (is_named name (completed_profile p languages)) as Hpn by (apply named_nm; rewrite En; by apply named_nm).
  rewrite Forall_forall in Hr. destruct (Hr p) as (id & Eid & _); [by eapply list_elem_of_lookup_2|].
  set (ps' := <[i:=completed_profile p languages]> ps). assert (NoDup (omap pid ps')) as Hids' by (unfold ps'; by rewrite (omap_insert_same pid ps i p) by done).
  assert (NoDup (omap nm ps')) as Hns' by (unfold ps'; by rewrite (omap_insert_same nm ps i p) by done).
  destruct (insert_in ps i (completed_profile p languages)) as [Hin Hoth]; [by eexists|]. fold ps' in Hin, Hoth.
  unfold with_profile. change (array_of (Array ps)) with ps. rewrite (found_at ps name i p), Eid by done.
  unfold completed_profile in *. destruct (completed p languages) as [items chg]. cbn [fst default] in *. fold ps'.
  destruct (String.eqb_spec rename_from name) as [->|Hne].
  - split; [done|]. exists (set_key "items" (Array items) p). split; [split_and!; [done|done|by rewrite Ep|done|done]|]. split_and!; [done| |done].
    intros q Hq Hqn _. apply list_elem_of_lookup in Hq as [j Hj]. apply (Hoth j); [|done]. intros ->. rewrite Hi in Hj. injection Hj as <-. by apply named_nm in Hp.
  - destruct (list_find (is_named rename_from) ps) as [[k q]|] eqn:Ef.
    + apply list_find_Some in Ef as (Hk & Hq & _). destruct (Hr q) as (old & Eold & _); [by eapply list_elem_of_lookup_2|]. cbn. rewrite Eold.
      assert (k ≠ i) as Hki by (intros ->; rewrite Hi in Hk; injection Hk as <-; apply named_nm in Hp, Hq; congruence).
      assert (∀ j x, ps !! j = Some x → pid x = Some old → j = k) as Hold by (intros j x Hj Hx; by eapply (omap_distinct pid ps)).
      split; [split; (eapply sublist_NoDup; [|apply omap_filter_sub]; done)|]. exists (set_key "items" (Array items) p). split; [split_and!|split_and!]; cbn.
      * apply in_filter. split; [done|]. rewrite Ep, negb_true_iff, bool_decide_eq_false. intros E. apply Hki. symmetry. by apply (Hold i p).
      * done.
      * by rewrite Ep.
      * done.
      * intros _ x Hx Hxn. apply in_filter in Hx as [Hx Hxo]. apply in_insert in Hx as [->|(j & Hj & Ej)]; [apply named_nm in Hxn; rewrite En in Hxn; apply named_nm in Hp; congruence|].
        assert (j = k) as -> by exact (only_named _ _ _ _ _ _ Hns Ej Hk Hxn Hq). rewrite Hk in Ej. injection Ej as <-. rewrite negb_true_iff, bool_decide_eq_false in Hxo. done.
      * done.
      * intros x Hx Hxn Hxr. apply list_elem_of_lookup in Hx as [j Hj]. apply in_filter. split.
        -- apply (Hoth j); [|done]. intros ->. rewrite Hi in Hj. injection Hj as <-. by apply named_nm in Hp.
        -- rewrite negb_true_iff, bool_decide_eq_false. intros E. apply (Hold j x) in E as ->; [|done]. rewrite Hk in Hj. injection Hj as <-. by apply named_nm in Hq.
      * intros o [= <-]. split; [done|]. exists q. split; [by eapply list_elem_of_lookup_2|done].
    + cbn. split; [done|]. exists (set_key "items" (Array items) p). split; [split_and!|split_and!]; cbn; try done.
      * by rewrite Ep.
      * intros _ x Hx Hxn. apply in_insert in Hx as [->|(j & Hj & Ej)]; [apply named_nm in Hxn; rewrite En in Hxn; apply named_nm in Hp; congruence|].
        apply list_find_None in Ef. rewrite Forall_forall in Ef. apply (Ef x); [by eapply list_elem_of_lookup_2|done].
      * intros x Hx Hxn Hxr. apply list_elem_of_lookup in Hx as [j Hj]. apply (Hoth j); [|done]. intros ->. rewrite Hi in Hj. injection Hj as <-. by apply named_nm in Hp.
Qed.
Lemma none_named ps n q : list_find (is_named n) ps = None → q ∈ ps → ¬ is_named n q.
Proof. intros Hf Hq. apply list_find_None in Hf. rewrite Forall_forall in Hf. by apply Hf. Qed.
Lemma planned_renamed ps name rename_from languages i p : well_formed ps → list_find (is_named name) ps = None → list_find (is_named rename_from) ps = Some (i, p) →
  planned ps name rename_from languages (with_profile (Array ps) name rename_from languages).
Proof.
  intros [[Hids Hns] Hr] Hno Hf. unfold with_profile. change (array_of (Array ps)) with ps. rewrite Hno, Hf. apply list_find_Some in Hf as (Hi & Hp & _).
  rewrite Forall_forall in Hr. destruct (Hr p) as (id & Eid & Hz); [by eapply list_elem_of_lookup_2|]. rewrite Eid. cbv zeta. change (default 1%Z (Some id)) with id.
  destruct (language_profile_has id name languages) as (Hn & Hid & Hits); [lia|]. set (q := language_profile id name languages) in *. clearbody q.
  destruct (insert_in ps i q) as [Hin Hoth]; [by eexists|]. split; cbn [all p_id].
  - split; [rewrite (omap_insert_same pid ps i p q Hi); [done|by rewrite Hid, Eid]|]. apply (distinct_insert nm _ _ _ name); [done|by apply named_nm|].
    intros z Hzin E. eapply none_named; [exact Hno|exact Hzin|by apply named_nm].
  - exists q. split; [split_and!; [done..|]|split_and!; [|cbn|done]].
    + intros Hne x Hx Hxn. apply in_insert in Hx as [->|(j & Hj & Ej)]; [apply named_nm in Hn, Hxn; congruence|]. apply Hj. by eapply (only_named ps).
    + intros x w Hx Hxn. by destruct (none_named _ _ _ Hno Hx).
    + intros x Hx Hxn Hxr. apply list_elem_of_lookup in Hx as [j Hj]. apply (Hoth j); [|done]. intros ->. rewrite Hi in Hj. injection Hj as <-. by apply named_nm in Hp.
Qed.
Lemma omap_single {A B} (f : A → option B) x b : f x = Some b → omap f [x] = [b].
Proof. intros E. cbn. by rewrite E. Qed.
Lemma planned_added ps name rename_from languages : well_formed ps → list_find (is_named name) ps = None → list_find (is_named rename_from) ps = None →
  planned ps name rename_from languages (with_profile (Array ps) name rename_from languages).
Proof.
  intros [[Hids Hns] Hr] Hno Hf. unfold with_profile. change (array_of (Array ps)) with ps. rewrite Hno, Hf.
  assert (0 <= max_or_zero (omap pid ps) < 2 ^ 62)%Z as Hz.
  { split.
    - destruct (omap pid ps) as [|z l] eqn:E; [done|]. etrans; [|apply max_or_zero_above; by left]. assert (z ∈ omap pid ps) as Hin by (rewrite E; by left).
      apply list_elem_of_omap in Hin as (p & Hp & Ez). rewrite Forall_forall in Hr. destruct (Hr p Hp) as (z' & E' & Hz). rewrite Ez in E'. injection E' as <-. lia.
    - apply Z.lt_le_pred, max_or_zero_bound; [done|]. apply Forall_forall. intros z (p & Hp & Ez)%list_elem_of_omap. rewrite Forall_forall in Hr.
      destruct (Hr p Hp) as (z' & E' & Hz). rewrite Ez in E'. injection E' as <-. lia. }
  rewrite i64_wrap_id by lia. set (id := (max_or_zero (omap pid ps) + 1)%Z). destruct (language_profile_has id name languages) as (Hn & Hid & Hits); [unfold id; lia|].
  set (q := language_profile id name languages) in *. clearbody q. split; cbn [all p_id].
  - split; rewrite omap_app.
    + rewrite (omap_single pid q id) by done. apply NoDup_app. split_and!; [done| |apply NoDup_singleton]. intros z Hin Ez%list_elem_of_singleton. subst z. apply max_or_zero_above in Hin. unfold id in Hin. lia.
    + rewrite (omap_single nm q name) by (by apply named_nm). apply NoDup_app. split_and!; [done| |apply NoDup_singleton]. intros n (p & Hp & E)%list_elem_of_omap Ez%list_elem_of_singleton. subst n. by destruct (none_named _ _ _ Hno Hp); apply named_nm.
  - exists q. split; [split_and!; [apply elem_of_app; right; by left|done..|]|split_and!; [|cbn|done]].
    + intros Hne x Hx Hxn. apply elem_of_app in Hx as [Hx|E%list_elem_of_singleton]; [by eapply none_named|subst x; apply named_nm in Hn, Hxn; congruence].
    + intros x w Hx Hxn. by destruct (none_named _ _ _ Hno Hx).
    + intros x Hx _ _. apply elem_of_app. by left.
Qed.
Lemma profiles_planned ps name rename_from languages : well_formed ps → planned ps name rename_from languages (with_profile (Array ps) name rename_from languages).
Proof.
  intros Hw. destruct (list_find (is_named name) ps) as [[i p]|] eqn:En.
  - apply list_find_Some in En as (Hi & Hp & _). by eapply planned_found.
  - destruct (list_find (is_named rename_from) ps) as [[i p]|] eqn:Ef; [by eapply planned_renamed|by apply planned_added].
Qed.

(** C35: Where Bazarr's profiles have identifiers and names each their own, the plan has a profile of the wanted name, with every
    wanted language, the languages it had and the flags Bazarr reads on every item; the profile it replaces is gone, every other
    is kept as it was, and identifiers and names stay distinct. Made of its own result, the plan changes nothing: a rerun sends
    no profiles. *)
Theorem profiles_settled ps name rename_from languages : well_formed ps →
  let plan := with_profile (Array ps) name rename_from languages in
  planned ps name rename_from languages plan ∧ with_profile (Array (all plan)) name rename_from languages = mkProfiles (all plan) (p_id plan) false None.
Proof.
  intros Hw plan. destruct (profiles_planned ps name rename_from languages Hw) as [Hd (p & Hp & Hk)]. split; [split; [done|by exists p]|]. by eapply settled_again.
Qed.
Lemma profiles_settled_witness :
  let ps := [Object [("items", Array [Object [("id", json_i64 1); ("language", Str "en")]]); ("name", Str "English"); ("profileId", json_i64 1)];
             Object [("items", Array [Object [("id", json_i64 1); ("language", Str "en")]]); ("name", Str "Practice"); ("profileId", json_i64 2)]] in
  let plan := with_profile (Array ps) "Practice" "English" ["en"; "pt"] in
  planned ps "Practice" "English" ["en"; "pt"] plan ∧ with_profile (Array (all plan)) "Practice" "English" ["en"; "pt"] = mkProfiles (all plan) (p_id plan) false None.
Proof.
  apply profiles_settled. split; [split; vm_compute; repeat constructor; rewrite ?elem_of_cons, ?elem_of_nil; intuition done|].
  repeat (apply Forall_cons; split; [eexists; split; [vm_compute; reflexivity|lia]|]). constructor.
Defined.

(** ** What setting up Bazarr posts

    One settings form, made of what was answered, and the profile for synced items that have none; whatever is answered. *)

Section posts.
Context `{SerdeJson, Libs} (env : string → option string).
Implicit Types (l : Log) (path kind : string) (b : Bazarr).

Definition at_key (key : string) : Bazarr := mkBazarr (no_slash (var env "BAZARR_URL" "http://bazarr.media.svc.cluster.local:6767")) key.
Definition told l b path (v : Value) : Prop := answered l (bz_req b "GET" path NoBody) v.
Definition link_ok (k : Link) : Prop := ∃ kp, kp ∈ ARR_KINDS ∧ k_kind k = kp.1 ∧ k_host k = var env (to_uppercase kp.1 +:+ "_HOST") (kp.1 +:+ ".media.svc.cluster.local") ∧
  parse_i64 (var env kp.2 "80") = Some (k_port k).
Definition plan_of l b (plan : Profiles) : Prop := ∃ existing, told l b "/api/system/languages/profiles" existing ∧
  plan = with_profile existing (profile_name env) (rename_from env) (wanted_languages env).
Definition form_of l b (plan : Profiles) (links : list Link) (form : list (string * string)) : Prop := ∃ settings languages,
  told l b "/api/system/settings" settings ∧ told l b "/api/system/languages" languages ∧ form = settings_form env settings languages plan links.
Definition form_req b (form : list (string * string)) : Req := bz_req b "POST" "/api/system/settings" (FormBody form).
Definition items_req b path (form : list (string * string)) : Req := bz_req b "POST" path (FormBody form).
Inductive due l : Act → Prop :=
  | b_settings key plan links form : plan_of l (at_key key) plan → Forall link_ok links → form_of l (at_key key) plan links form → form ≠ [] → due l (Http (form_req (at_key key) form))
  | b_items key plan k lst id_field path field synced items : plan_of l (at_key key) plan → link_ok k → arr_of (k_kind k) = (lst, id_field, path, field) →
      told l (at_key key) path synced → items = unset (omap pid (all plan)) id_field synced → items ≠ [] →
      due l (Http (items_req (at_key key) path (profile_form field (p_id plan) items))).
Definition quiet (x : Act) : Prop := match x with Http rq => rq_method rq = "GET" | ReadFile _ | Sleep _ => True | _ => False end.
Definition allowed l (x : Act) : Prop := quiet x ∨ due l x.
(** The form was accepted, or there was nothing to set. *)
Definition configured l : Prop := ∃ key plan links form, plan_of l (at_key key) plan ∧ Forall link_ok links ∧ form_of l (at_key key) plan links form ∧
  (form = [] ∨ accepted l (form_req (at_key key) form)).

Lemma plan_later l l' b plan : l `prefix_of` l' → plan_of l b plan → plan_of l' b plan.
Proof. intros Hl (e & He & E). exists e. split; [by eapply answered_later|done]. Qed.
Lemma form_later l l' b plan links form : l `prefix_of` l' → form_of l b plan links form → form_of l' b plan links form.
Proof. intros Hl (s & g & Hs & Hg & E). exists s, g. split_and!; [by eapply answered_later..|done]. Qed.

Notation okay := (Trace.okay Ans allowed (St := list string) (Fa := string)).
Lemma bz_get_ok b path l : okay (bz_get b path) (λ v l', told l' b path v) l.
Proof. apply value_ok. by left. Qed.
Lemma page_key_ok base l : okay (page_key base) (λ _ _, True) l.
Proof.
  apply retry_ok; [intros; by left|]. intros l' _. eapply okay_then; [apply request_ok; by left|]. intros r l1 _ _. eapply okay_then; [apply ok_ok|]. intros r' l2 _ _.
  destruct (rs_text r'); [|apply okay_raise]. eapply okay_mono; [apply need_ok|done].
Qed.
Lemma secret_or_none_ok name l : okay (optional_secret env name) (λ _ _, True) l.
Proof.
  unfold optional_secret. destruct (_ || _); [|by apply okay_ret]. eapply okay_then; [apply secret_okay; intros; by left|]. intros v l1 _ _. by apply okay_ret.
Qed.
Lemma link_of_ok kp l : kp ∈ ARR_KINDS → okay (link_of env kp) (λ k _, ∀ x, k = Some x → link_ok x) l.
Proof.
  intros Hin. unfold link_of. eapply okay_then; [apply secret_or_none_ok|]. intros [key|] l1 _ _; [|by apply okay_ret].
  eapply okay_then; [apply need_ok|]. intros port l2 _ [Hp ->]. apply okay_ret. intros x [= <-]. by exists kp.
Qed.
Lemma give_profile_ok key plan k l : plan_of l (at_key key) plan → link_ok k → okay (give_profile env (at_key key) plan k) (λ _ _, True) l.
Proof.
  intros Hp Hk. unfold give_profile. destruct (arr_of (k_kind k)) as [[[lst id_field] path] field] eqn:Ea. eapply okay_then.
  { apply (value_ok allowed (req _ "GET" lst)). by left. }
  intros arr l1 Hl1 _. eapply okay_then.
  { apply catch_any, (retry_ok allowed _ _ _ (λ v l', told l' (at_key key) path v)); [intros; by left|]. intros l' _. eapply okay_then; [apply bz_get_ok|].
    intros v l2 _ Hv. cbn beta in Hv. destruct (_ <? _)%nat; [apply okay_raise|by apply okay_ret]. }
  intros [synced|e] l2 Hl2 Hs; [|by apply say_ok]. case_bool_decide as Hn; [by apply okay_ret|]. eapply okay_then.
  - apply commanded_ok. right. eapply b_items; [eapply plan_later; [|exact Hp]; by etrans|exact Hk|exact Ea|exact Hs|done|exact Hn].
  - intros ? l3 _ _. by apply say_ok.
Qed.
Lemma apply_form_ok key plan links form l : plan_of l (at_key key) plan → Forall link_ok links → form_of l (at_key key) plan links form →
  okay (apply_form (at_key key) form) (λ _ l', form = [] ∨ accepted l' (form_req (at_key key) form)) l.
Proof.
  intros Hp Hk Hf. unfold apply_form. case_bool_decide as Hn; [apply say_ok; by left|].
  eapply okay_then; [apply commanded_ok; right; by eapply b_settings|]. intros ? l1 _ Hacc. apply say_ok. by right.
Qed.
Lemma bazarr_run_ok l : okay (run env) (λ _ l', configured l') l.
Proof.
  unfold run. eapply okay_then; [apply page_key_ok|]. intros key l1 Hl1 _. fold (at_key key).
  eapply okay_then; [apply bz_get_ok|]. intros settings l2 Hl2 Hs. cbn beta in Hs. eapply okay_then; [apply bz_get_ok|]. intros languages l3 Hl3 Hg. cbn beta in Hg.
  eapply okay_then; [apply bz_get_ok|]. intros existing l4 Hl4 He. cbn beta in He. set (plan := with_profile _ _ _ _).
  assert (plan_of l4 (at_key key) plan) as Hp by (by exists existing). clearbody plan. eapply okay_then.
  { apply (traverse_ok allowed _ (λ _ k _, ∀ x, k = Some x → link_ok x)); [done|]. intros kp l' Hin _. by apply link_of_ok. }
  intros ks l5 Hl5 Hks. cbn beta in Hks. cbv zeta. set (links := omap Datatypes.id ks).
  assert (Forall link_ok links) as Hlinks.
  { apply Forall_forall. intros x (o & Ho & E)%list_elem_of_omap. cbn in E. apply list_elem_of_lookup in Ho as [i Hi]. destruct (Forall2_lookup_r _ _ _ _ _ Hks Hi) as (kp & _ & Hx). by apply Hx. }
  clearbody links. set (form := settings_form _ _ _ _ _). assert (l4 `prefix_of` l5) as H45 by done.
  assert (form_of l5 (at_key key) plan links form) as Hform.
  { exists settings, languages. split_and!; [eapply answered_later; [|exact Hs]; etrans; [exact Hl3|etrans; [exact Hl4|exact H45]]|eapply answered_later; [|exact Hg]; etrans; [exact Hl4|exact H45]|done]. }
  clearbody form. assert (plan_of l5 (at_key key) plan) as Hp5 by (eapply plan_later; [exact H45|exact Hp]).
  eapply okay_then; [by apply (apply_form_ok key plan links)|]. intros ? l6 Hl6 Hacc. cbn beta in Hacc. apply okay_for_each.
  - intros k l' Hin Hl'. apply give_profile_ok; [eapply plan_later; [|exact Hp5]; by etrans|]. rewrite Forall_forall in Hlinks. by apply Hlinks.
  - intros l7 Hl7. exists key, plan, links, form. split_and!; [eapply plan_later; [|exact Hp5]; by etrans|done|eapply form_later; [|exact Hform]; by etrans|].
    destruct Hacc as [?|Hacc]; [by left|right; by eapply accepted_later].
Qed.

(** Whatever Bazarr, Sonarr and Radarr answer, a run posts one settings form made of what was answered, when there is something
    to set, and the profile of synced items that are on none or on one that is gone; all else looks or waits. A run that ends
    well has had the form accepted, or had nothing to set. *)
Theorem bazarr_due outside out l : ∃ k, (exec Ans outside (run env out) l).1 = l ++ k ∧
  (∀ k1 e k2, k = k1 ++ e :: k2 → quiet (e_act e) ∨ due (l ++ k1) (e_act e)) ∧
  ∀ out', (exec Ans outside (run env out) l).2 = Ok (out', Ok ()) → configured (l ++ k).
Proof.
  destruct (exec_holds Ans allowed outside _ _ _ (bazarr_run_ok l out)) as [HQ (k & Ek & Hk)]. exists k. split; [exact Ek|]. split; [exact Hk|].
  intros out' E. rewrite E in HQ. rewrite <- Ek. by destruct HQ.
Qed.
End posts.
