(* ===== verification/Web.v ===== *)
(** * The controller's web view ([apps/dvdrip/src/web.rs])

    The page that lists the discs, and the files of a disc's work dir that may be read. The router, the metrics' text and the
    API client are library code: the discs are what a listing gave. What is in a directory is asked by the components of a path:
    a name may be empty or a dot, which the system skips, or two dots, which go up. Symbolic links are left out. *)

From Stdlib Require Import Ascii.
From stdpp Require Import options.
From S2P Require Import Prelude Text Crd Work.

(** ** [esc] *)

Definition esc_char (c : ascii) : string :=
  if bool_decide (c = "&"%char) then "&amp;" else if bool_decide (c = "<"%char) then "&lt;" else if bool_decide (c = ">"%char) then "&gt;"
  else if bool_decide (c = "034"%char) then "&quot;" else String c "".
Definition esc (s : string) : string := replace quote "&quot;" (replace ">" "&gt;" (replace "<" "&lt;" (replace "&" "&amp;" s))).

(** ** Paths

    [Path::components] on Unix: the root, the names, [.] only at the start and [..] wherever it is. *)
Inductive Component : Type := RootDir | CurDir | ParentDir | Normal (name : string).
Definition component (piece : string) : option Component :=
  if bool_decide (piece = "") || bool_decide (piece = ".") then None else Some (if bool_decide (piece = "..") then ParentDir else Normal piece).
Definition pieces (path : string) : list string := split_char slash path.
Definition components (path : string) : list Component :=
  let l := omap component (pieces path) in
  match pieces path with
  | "" :: _ :: _ => RootDir :: l
  | "." :: _ => CurDir :: l
  | _ => l
  end.
Definition is_normal (c : Component) : bool := match c with Normal _ => true | _ => false end.
Definition JSON_FILES : list string := ["summary.json"; "titles.json"; "damage.json"; "scan.json"; "disc.json"].
Definition servable (path : string) : option string :=
  if existsb (λ c, negb (is_normal c)) (components path) then None
  else match components path with
       | Normal first :: _ => if bool_decide (first = "review") || bool_decide (first = "logs") || bool_decide (path ∈ JSON_FILES) then Some path else None
       | _ => None
       end.
(** [PathBuf::join]: an absolute path replaces the other. *)
Definition join_path (base rel : string) : string :=
  if starts_with "/" rel then rel else if ends_with_char slash base || bool_decide (base = "") then base +:+ rel else base +:+ "/" +:+ rel.
(** [Path::extension] of the last component. *)
Definition path_extension (path : string) : option string :=
  match last (components path) with Some (Normal name) => extension name | _ => None end.
(** Where the system looks: the names from the root, [..] taking one back. *)
Definition step_into (at_ : list string) (piece : string) : list string :=
  match component piece with None => at_ | Some ParentDir => take (length at_ - 1) at_ | Some _ => at_ ++ [piece] end.
Definition walk_path (at_ : list string) (path : string) : list string := foldl step_into at_ (pieces path).

(** ** The handlers *)

Record Listed : Type := mkListed { li_disc : Disc; li_created : option Z }.
Definition li_name (d : Listed) : string := disc_name (li_disc d).
(** Newest first; a disc without a time is last. *)
Definition newer (x y : Listed) : bool :=
  match li_created x, li_created y with Some a, Some b => (b <=? a)%Z | _, None => true | None, Some _ => false end.
Definition discs (answer : option (list Listed)) : list Listed := stable_sort newer (default [] answer).
Definition phase_name (p : Phase) : string :=
  match p with
  | Detected => "Detected" | BackingUp => "BackingUp" | BackedUp => "BackedUp" | Held => "Held" | Encoding => "Encoding" | Encoded => "Encoded"
  | Publishing => "Publishing" | Done => "Done" | Failed => "Failed"
  end.
Definition HEAD : string :=
  "<!doctype html><meta charset=utf-8><title>DVD ripping</title><style>body{font:14px system-ui;margin:16px;background:#111;color:#eee}td,th{padding:4px 10px;text-align:left;vertical-align:top}a{color:#9cf}</style><h1>Discs</h1><table><tr><th>Disc</th><th>Name</th><th>Phase</th><th>Message</th><th></th></tr>".
Definition row (d : Listed) : string :=
  let s := default default_disc_status (disc_status (li_disc d)) in
  let n := li_name d in
  "<tr><td>" +:+ esc (st_label s) +:+ "</td><td>" +:+ esc (spec_name (disc_spec (li_disc d))) +:+ "</td><td>" +:+ phase_name (st_phase s) +:+ "</td><td>"
  +:+ esc (default "" (st_message s)) +:+ "</td><td><a href=" +:+ quote +:+ "/discs/" +:+ n +:+ "/review/index.html" +:+ quote +:+ ">review</a> · <a href=" +:+ quote +:+ "/discs/" +:+ n
  +:+ "/summary.json" +:+ quote +:+ ">summary</a></td></tr>".
Definition index (answer : option (list Listed)) : string := HEAD +:+ fold_right String.append "" (row <$> discs answer) +:+ "</table>".

Inductive Answer : Type := NOT_FOUND | OK (content_type bytes : string).
Definition content_type (full : string) : string :=
  match path_extension full with
  | Some "html" => "text/html; charset=utf-8"
  | Some "jpg" => "image/jpeg"
  | Some "json" => "application/json"
  | _ => "text/plain; charset=utf-8"
  end.
Section file.
(** The files under the root of the file system, by their names from it; [cwd] is where a relative path starts. *)
Context (cwd : list string) (tree : list string → option string) (work_root : string).
Definition names_of (path : string) : list string := walk_path (if starts_with "/" path then [] else cwd) path.
Definition read_file (path : string) : option string := tree (names_of path).
Definition file (answer : option (list Listed)) (name path : string) : Answer :=
  match servable path with
  | None => NOT_FOUND
  | Some rel =>
      match List.find (λ d, String.eqb (li_name d) name) (discs answer) ≫= λ d, st_fingerprint <$> disc_status (li_disc d) with
      | None => NOT_FOUND
      | Some fp =>
          let full := join_path (join_path work_root fp) rel in
          match read_file full with None => NOT_FOUND | Some bytes => OK (content_type full) bytes end
      end
  end.
End file.

(** The program's own tests, and paths they leave out. *)
Example web_tests :
  is_Some (servable "review/index.html") ∧ is_Some (servable "review/Title 3 - 1m00s.jpg") ∧ is_Some (servable "logs/encode-t1.log") ∧ is_Some (servable "summary.json") ∧
  servable "master.iso" = None ∧ servable "encodes/1.mkv" = None ∧ servable "review/../master.iso" = None ∧ servable "/etc/passwd" = None ∧
  servable "" = None ∧ servable "./summary.json" = None ∧ servable "summary.json/" = None ∧ is_Some (servable "review//./x") ∧
  names_of [] (join_path (join_path "/work" "ab12") "review//./x.html") = ["work"; "ab12"; "review"; "x.html"] ∧
  content_type "/work/ab12/review//./x.html" = "text/html; charset=utf-8" ∧ esc "<a href=&>" = "&lt;a href=&amp;&gt;".
Proof. vm_compute. naive_solver. Qed.

(** ** The web view shows review material only

    [file_confined]: what is read is in the disc's work dir, and of it the review sheets, the logs and five JSON files.
    [esc_plain]: text of a disc cannot leave its cell of the page. *)

(** ** Escaping *)

Lemma replace_list_char n c q l : length l ≤ n → replace_list n [c] q l = flat_map (λ x, if bool_decide (x = c) then q else [x]) l.
Proof.
  revert l. induction n as [|n IH]; intros l Hl; [by destruct l; [|cbn in Hl; lia]|]. cbn [replace_list].
  assert (∀ b : list ascii, c ∉ b → flat_map (λ x, if bool_decide (x = c) then q else [x]) b = b) as Hb.
  { induction b as [|x b IHb]; [done|]. intros [Hx Hb]%not_elem_of_cons. cbn. rewrite bool_decide_eq_false_2 by done. by rewrite IHb. }
  destruct (find_list [c] l) as [[b r]|] eqn:E.
  - assert (c ∉ b) as Hn.
    { clear IH Hl Hb. revert b E. induction l as [|x l IHl]; intros b; cbn [find_list]; case_decide as Hp; [intros [= <- <-]; apply not_elem_of_nil|done|intros [= <- <-]; apply not_elem_of_nil|].
      destruct (find_list [c] l) as [[b' r']|]; [|done]. intros [= <- <-]. apply not_elem_of_cons. split; [|by apply IHl]. intros ->. apply Hp. by exists l. }
    apply find_list_Some in E as ->. rewrite length_app in Hl. cbn in Hl. rewrite flat_map_app, (Hb b Hn). cbn. rewrite bool_decide_eq_true_2 by done. by rewrite IH by lia.
  - rewrite Hb; [done|]. intros Hin. apply list_elem_of_split in Hin as (l1 & l2 & ->). by apply find_list_None with (before := l1) (after := l2) in E.
Qed.
Lemma replace_char_flat c q s : chars (replace (String c "") q s) = flat_map (λ x, if bool_decide (x = c) then chars q else [x]) (chars s).
Proof. unfold replace, replacen. rewrite chars_str. apply replace_list_char. by rewrite length_chars. Qed.
Lemma esc_flat s : chars (esc s) = flat_map (λ c, chars (esc_char c)) (chars s).
Proof.
  unfold esc, quote. rewrite (replace_char_flat "034" _), (replace_char_flat ">" _), (replace_char_flat "<" _), (replace_char_flat "&" _).
  generalize (chars s). induction l as [|c l IH]; [done|]. cbn [flat_map]. rewrite !flat_map_app, IH. f_equal. by destruct c as [[] [] [] [] [] [] [] []].
Qed.
(** Nothing in it can end an element, an attribute or a cell. *)
Lemma esc_plain s c : char_in c (esc s) → c ≠ "<"%char ∧ c ≠ ">"%char ∧ c ≠ "034"%char.
Proof.
  unfold char_in. rewrite esc_flat, list_elem_of_In, in_flat_map. intros (x & _ & Hc). unfold esc_char in Hc.
  repeat (case_bool_decide; [cbn in Hc; naive_solver|]). cbn in Hc. destruct Hc as [->|[]]. done.
Qed.

(** ** Paths *)

Lemma split_list_sep c l k : split_list c (l ++ c :: k) = split_list c l ++ split_list c k.
Proof.
  induction l as [|a l IH]; cbn [app split_list]; [by rewrite decide_True|]. destruct (decide (a = c)); [by rewrite IH|].
  rewrite IH. pose proof (split_list_ne c l). destruct (split_list c l); done.
Qed.
Lemma pieces_sep a b : pieces (a +:+ "/" +:+ b) = pieces a ++ pieces b.
Proof. unfold pieces, split_char. rewrite !chars_app. change (chars "/" ++ chars b) with ("/"%char :: chars b). by rewrite split_list_sep, fmap_app. Qed.
Lemma walk_sep at_ a b : walk_path at_ (a +:+ "/" +:+ b) = walk_path (walk_path at_ a) b.
Proof. unfold walk_path. by rewrite pieces_sep, foldl_app. Qed.
Lemma walk_end at_ a : walk_path at_ (a +:+ "/") = walk_path at_ a.
Proof. exact (walk_sep at_ a ""). Qed.
(** A name that is a name: not empty, no dots alone, no slash. *)
Definition plain_name (s : string) : Prop := component s = Some (Normal s) ∧ ¬ char_in slash s.
Lemma plain_pieces s : plain_name s → pieces s = [s].
Proof. intros [_ Hs]. unfold pieces, split_char. by rewrite split_list_single, fmap_cons, str_chars by exact Hs. Qed.
Lemma walk_plain at_ s : plain_name s → walk_path at_ s = at_ ++ [s].
Proof. intros Hs. unfold walk_path. rewrite plain_pieces by done. cbn. unfold step_into. by rewrite (proj1 Hs). Qed.
Lemma starts_slash s : starts_with "/" s = true ↔ ∃ r, s = "/" +:+ r.
Proof.
  split.
  - destruct s as [|c s]; [done|]. unfold starts_with, String.prefix. destruct (ascii_dec "/" c) as [<-|]; [|done]. intros _. by exists s.
  - intros [r ->]. by destruct r.
Qed.
(** Where a joined path leads. *)
Lemma joined_names cwd base rel : starts_with "/" rel = false → names_of cwd (join_path base rel) = walk_path (names_of cwd base) rel.
Proof.
  intros Hr. unfold join_path. rewrite Hr. unfold names_of. destruct (decide (base = "")) as [->|Hb].
  { rewrite orb_true_r. change ("" +:+ rel) with rel. by rewrite Hr. }
  rewrite (bool_decide_eq_false_2 _ Hb), orb_false_r. assert (∀ x, starts_with "/" (base +:+ x) = starts_with "/" base) as Hs.
  { intros x. destruct base as [|c base]; [done|]. change (String c base +:+ x) with (String c (base +:+ x)). unfold starts_with, String.prefix.
    destruct (ascii_dec "/" c); [|done]. by destruct base, (_ +:+ x). }
  unfold ends_with_char. case_bool_decide as He; rewrite Hs; [|by rewrite walk_sep].
  apply last_Some in He as [l' E]. assert (base = str l' +:+ "/") as -> by (apply (inj chars); by rewrite E, chars_app, chars_str).
  rewrite <- str_app_assoc, walk_sep, walk_end. done.
Qed.

(** What may be served: a path without a root, [.] at its start or [..], whose names begin with review or logs, or that is one of
    the JSON files. *)
Definition names_in (path : string) : list string := List.filter (λ s, bool_decide (is_Some (component s))) (pieces path).
Definition shown_names (parts : list string) : Prop :=
  Forall plain_name parts ∧ ((∃ rest, parts = "review" :: rest ∨ parts = "logs" :: rest) ∨ ∃ j, j ∈ JSON_FILES ∧ parts = [j]).
Lemma components_pieces path : Forall (λ c, is_normal c = true) (components path) →
  starts_with "/" path = false ∧ (∀ s, s ∈ pieces path → component s = None ∨ component s = Some (Normal s)) ∧ components path = Normal <$> names_in path.
Proof.
  intros Hn. assert (components path = omap component (pieces path) ∧ starts_with "/" path = false) as [Ec Hs].
  { unfold components in *. destruct (starts_with "/" path) eqn:Es.
    - apply starts_slash in Es as [r ->]. exfalso. pose proof (pieces_sep "" r) as E. change ("" +:+ "/" +:+ r) with ("/" +:+ r) in E. rewrite E in Hn. cbn in Hn.
      pose proof (split_list_ne slash (chars r)) as Hne. unfold pieces, split_char in Hn. destruct (split_list slash (chars r)); [done|]. by apply Forall_cons in Hn as [? _].
    - split; [|done]. destruct (pieces path) as [|p ps]; [done|]. destruct p as [|[[] [] [] [] [] [] [] []] [|]]; destruct ps; try done; by apply Forall_cons in Hn as [? _]. }
  split; [done|]. rewrite Ec in *. unfold names_in. clear Ec Hs. induction (pieces path) as [|s l IH]; [split; [by intros ? ?%not_elem_of_nil|done]|]. cbn in *.
  destruct (component s) as [c|] eqn:E; cbn in *.
  - apply Forall_cons in Hn as [Hc Hn]. destruct (IH Hn) as [IH1 IH2]. assert (c = Normal s) as -> by (unfold component in E; destruct (_ || _); [done|]; case_bool_decide; by simplify_eq).
    split; [|by rewrite IH2]. intros x [->|Hx]%elem_of_cons; [by right|by apply IH1].
  - destruct (IH Hn) as [IH1 IH2]. split; [|done]. intros x [->|Hx]%elem_of_cons; [by left|by apply IH1].
Qed.
Lemma walk_names at_ path : (∀ s, s ∈ pieces path → component s = None ∨ component s = Some (Normal s)) → walk_path at_ path = at_ ++ names_in path.
Proof.
  unfold walk_path, names_in. revert at_. induction (pieces path) as [|s l IH]; intros at_ Hp; cbn; [by rewrite app_nil_r|]. unfold step_into at 2.
  destruct (Hp s) as [E|E]; [by left| |]; rewrite E; cbn; rewrite IH by (intros x Hx; apply Hp; by right); [done|by rewrite <- app_assoc].
Qed.
Lemma servable_names path rel : servable path = Some rel → rel = path ∧ starts_with "/" path = false ∧ shown_names (names_in path) ∧ ∀ at_, walk_path at_ path = at_ ++ names_in path.
Proof.
  unfold servable. destruct (existsb _ _) eqn:Ee; [done|].
  assert (Forall (λ c, is_normal c = true) (components path)) as Hn.
  { apply Forall_forall. intros c Hc. destruct (is_normal c) eqn:E; [done|]. exfalso. apply not_true_iff_false in Ee. apply Ee, existsb_exists. exists c. split; [by apply list_elem_of_In|by rewrite E]. }
  destruct (components_pieces path Hn) as (Hs & Hp & Ec). rewrite Ec. destruct (names_in path) as [|s l] eqn:El; [done|]. cbn [fmap list_fmap]. destruct (_ || _) eqn:Eo; [|done]. intros [= <-].
  assert (Forall plain_name (names_in path)) as Hplain.
  { unfold names_in. apply Forall_forall. intros x [Hx Hd]%list_elem_of_In%filter_In. apply list_elem_of_In in Hx. destruct (Hp x Hx) as [E|E]; [by rewrite E in Hd|]. split; [done|]. by eapply split_char_no_sep. }
  split; [done|]. split; [done|]. rewrite <- El. split; [|intros at_; by apply walk_names]. split; [exact Hplain|]. rewrite !orb_true_iff in Eo.
  destruct Eo as [[Eo|Eo]|Eo]; apply bool_decide_eq_true in Eo; [left; exists l; left; by rewrite El, Eo|left; exists l; right; by rewrite El, Eo|].
  right. exists path. split; [done|]. clear -Eo. repeat (apply elem_of_cons in Eo as [->|Eo]; [reflexivity|]). by apply not_elem_of_nil in Eo.
Qed.

(** C36: Whatever is asked of the view under the name of a disc, an answer other than 404 is the content of a file of the work dir of
    a disc of that name: below [review] or [logs] there, or one of the five JSON files. So no request reads another disc's files,
    the master, the encodes or anything outside the work dirs. *)
Theorem file_confined cwd tree work_root answer name path ct bytes : file cwd tree work_root answer name path = OK ct bytes →
  ∃ d fp, d ∈ default [] answer ∧ li_name d = name ∧ st_fingerprint <$> disc_status (li_disc d) = Some fp ∧ (plain_name fp →
    ∃ parts, shown_names parts ∧ tree (names_of cwd work_root ++ fp :: parts) = Some bytes).
Proof.
  unfold file. destruct (servable path) as [rel|] eqn:Es; [|done]. destruct (List.find _ _) as [d|] eqn:Ef; [|done]. cbn [mbind option_bind].
  destruct (st_fingerprint <$> _) as [fp|] eqn:Efp; [|done]. destruct (read_file _ _ _) as [b|] eqn:Er; [|done]. intros [= _ <-]. exists d, fp.
  apply find_some in Ef as [Hd Hn]. apply list_elem_of_In in Hd. apply String.eqb_eq in Hn. split_and!; [by eapply stable_sort_elem|done|done|]. intros Hfp.
  destruct (servable_names _ _ Es) as (-> & Hs & Hshown & Hw). exists (names_in path). split; [done|]. rewrite <- Er. unfold read_file. f_equal.
  rewrite joined_names, Hw by done. assert (starts_with "/" fp = false) as Hf.
  { apply not_true_iff_false. intros [r ->]%starts_slash. destruct Hfp as [_ Hfp]. apply Hfp. by left. }
  rewrite joined_names, walk_plain by done. by rewrite <- app_assoc.
Qed.
Definition ripped : Listed := mkListed (mkDisc "elf-ab12" None None "u" (mkDiscSpec "Elf" 1 None false ∅ false 0)
  (Some (mkDiscStatus Done None "ELF" "ab12" None 0 0 None None false [] [] None None None None None None None))) None.
Definition work_files (names : list string) : option string :=
  if bool_decide (names = ["work"; "ab12"; "review"; "index.html"]) then Some "sheet" else if bool_decide (names = ["work"; "ab12"; "master.iso"]) then Some "film" else None.
Lemma file_confined_witness :
  file [] work_files "/work" (Some [ripped]) "elf-ab12" "review/../master.iso" = NOT_FOUND ∧
  ∃ d fp, d ∈ [ripped] ∧ li_name d = "elf-ab12" ∧ st_fingerprint <$> disc_status (li_disc d) = Some fp ∧ (plain_name fp →
    ∃ parts, shown_names parts ∧ work_files (["work"] ++ fp :: parts) = Some "sheet").
Proof. split; [reflexivity|]. apply (file_confined [] work_files "/work" (Some [ripped]) "elf-ab12" "review//index.html" "text/html; charset=utf-8"). reflexivity. Defined.
