(* ===== verification/Import.v ===== *)
(** * Importing discs ripped before ([apps/dvdrip/src/import.rs])

    Disc objects for what media-dvd holds and for the finished rips of the bash pipeline, on the state of [Agent]: the machine of
    [Work] with its volumes and the API server's objects, every call with its fate. Reading titles.json and damage.json back is
    serde's: the class [Deserialize]. A merge patch keeps what it does not name. *)

From Stdlib Require Import Ascii.
From stdpp Require Import options.
From S2P Require Import Prelude Text F64 Json Naming Classify Controller Lifecycle State Host Crd Layout Damage Work Backup Review Agent.

Class Deserialize (A : Type) : Type := deserialize : string → option A.

Record ImportArgs : Type := mkImportArgs { im_namespace : string; im_dvd_root : option string; im_rips : option string; im_work_root : string; im_dry_run : bool }.

(** [str::rsplit_once] with a string *)
Definition rsplit_str (p s : string) : option (string * string) :=
  '(after, before) ← find_list (reverse (chars p)) (reverse (chars s)); Some (str (reverse before), str (reverse after)).
Definition disc_number (stem : string) : N :=
  default 1%N ('(_, n) ← rsplit_str " - Disc " stem; parse_u32 (trim n)).
Example disc_numbers :
  disc_number "Alice in Wonderland (1951) - Disc 2" = 2%N ∧ disc_number "9 (2009)" = 1%N ∧ disc_number "X - Disc two" = 1%N ∧ disc_number "A - Disc 3 - Disc 4" = 4%N.
Proof. vm_compute. done. Qed.

(** Paths are compared component by component. *)
Fixpoint names_leb (a b : list string) : bool :=
  match a, b with
  | [], _ => true
  | _, [] => false
  | x :: a, y :: b => match String.compare x y with Lt => true | Gt => false | Eq => names_leb a b end
  end.
Definition path_leb (a b : string) : bool := names_leb (split_char slash a) (split_char slash b).

(** A finished bash rip's library tree, mapped back to disc titles. *)
Record Curated : Type := mkCurated { cu_titles : gmap string TitleSpec; cu_files : list (N * string); cu_status : list TitleStatus; cu_unmapped : list string }.
Definition title_of (titles : list Title) (name : string) (folder : option string) (stem : string) : option N :=
  if bool_decide (folder = None) && bool_decide (stem = name) then title <$> List.find (λ t, bool_decide (role t = Main)) titles
  else match (if bool_decide (folder = None) then strip_prefix (name +:+ " - ") stem else None) with
       | Some v => title <$> List.find (λ t, bool_decide (role t = Alt) && bool_decide (version_label (aspect t) (title t) = v)) titles
       | None => rest ← strip_prefix "Title " stem; parse_u32 (hd "" (split_char " " rest))
       end.
Definition strip_suffix (suffix s : string) : option string :=
  if ends_with suffix s then Some (str (take (String.length s - String.length suffix) (chars s))) else None.
Definition add_file (c : Curated) (n : N) (p : string) (folder : option string) : Curated :=
  mkCurated (match folder with
             | Some f => if bool_decide (f = "extras") then cu_titles c else <[pretty n := mkTitleSpec (Some f) None]> (cu_titles c)
             | None => cu_titles c
             end) (cu_files c ++ [(n, p)]) (cu_status c) (cu_unmapped c).
Definition add_unmapped (c : Curated) (rel : string) : Curated := mkCurated (cu_titles c) (cu_files c) (cu_status c) (cu_unmapped c ++ [rel]).
Definition curated_status (glitches : list Glitch) (files : list (N * string)) (t : Title) : TitleStatus :=
  {| t_title := title t; t_role := role t; t_seconds := seconds t;
     t_output := if existsb (λ f, (f.1 =? title t)%N) files then Some (encode_path (title t)) else None;
     t_encoded_seconds := None;
     t_aspect := match as_str (aspect t) with Some a => if bool_decide (a = "") then None else Some a | None => None end;
     t_glitches := g_start <$> List.filter (λ g, (g_title g =? title t)%N) glitches |}.
Definition file_leb (x y : N * string) : bool := (x.1 <? y.1)%N || ((x.1 =? y.1)%N && path_leb x.2 y.2).

Section import.
Context `{Tools, Outer, Clock, SerdeJson, Deserialize (list Title), Deserialize (list Glitch)} (a : ImportArgs).

(** ** Reading the volumes *)

Definition is_dir (p : string) : Host.M bool := gets (λ w, existsb (λ kv, below p kv.1) (map_to_list (w_files w))).
Definition exists_ (p : string) : Host.M bool := f ← is_file p; d ← is_dir p; mret (f || d).
(** One directory of the library: its files are taken in, and its directories returned, the last one read first. *)
Definition library_entry (lib name : string) (titles : list Title) (d : string) (folder : option string) (s : Curated * list (string * string)) (e : string) : Host.M (Curated * list (string * string)) :=
  let p := path_join d e in
  dir ← is_dir p;
  if (dir : bool) then mret (s.1, (p, e) :: s.2)
  else mret (match strip_suffix ".mkv" e with
             | None => s
             | Some stem => (match title_of titles name folder stem with
                             | Some n => add_file s.1 n p folder
                             | None => add_unmapped s.1 (default p (strip_prefix (lib +:+ "/") p))
                             end, s.2)
             end).
(** The program keeps the directories to visit on a stack, so each is walked with all below it before those read earlier.
    [depth] bounds how deep they lie. *)
Fixpoint walk_library (lib name : string) (titles : list Title) (depth : nat) (d : string) (folder : option string) (c : Curated) : Host.M Curated :=
  match depth with
  | O => throw ["too deep"]
  | S depth =>
      entries ← read_entries d;
      s ← for_each (library_entry lib name titles d folder) (c, []) entries;
      for_each (λ c pe, walk_library lib name titles depth pe.1 (Some pe.2) c) s.1 s.2
  end.
Definition depth_of (fs : gmap string string) : nat := S (fold_right Nat.max O ((λ kv, length (chars kv.1)) <$> map_to_list fs)).
Definition bash_library (dir name : string) : Host.M (option Curated) :=
  let lib := path_join (path_join dir "library") name in
  t ← ok (read_to_string (path_join dir "titles.json"));
  match t ≫= deserialize with
  | None => mret None
  | Some titles =>
      g ← ok (read_to_string (path_join dir "damage.json"));
      let glitches : list Glitch := default [] (g ≫= deserialize) in
      there ← is_dir lib;
      if negb there then mret None
      else
        depth ← gets (λ w, depth_of (w_files w));
        c ← ok (walk_library lib name titles depth lib None (mkCurated ∅ [] [] []));
        mret (c ← c;
              let files := stable_sort file_leb (cu_files c) in
              Some (mkCurated (cu_titles c) files (curated_status glitches files <$> titles) (cu_unmapped c)))
  end.

(** ** Recording a disc *)

Definition known_discs : AM (list string) :=
  api (λ s, Some (s, omap (λ kv, st_fingerprint <$> disc_status kv.2) (map_to_list (ag_discs s)))).
(** A Disc that is there already (409) is as good as made. *)
Definition create (label fp : string) (sp : DiscSpec) : AM () :=
  uid ← gets (λ s, new_uid (step_of s));
  let name := disc_object_name label fp in
  _ ← create_disc name (mkDisc name (Some (im_namespace a)) (Some {[FINGERPRINT_LABEL := fp]}) uid sp None);
  mret ().
Definition imported (phase : Phase) (label fp since message : string) (b : Crd.Backup) (st : DiscStatus) : DiscStatus :=
  mkDiscStatus phase (Some message) label fp (st_drive st) (st_attempts st) (st_observed_retry st) (Some b) (st_damage st) (st_protected st) (st_titles st) (st_warnings st)
    (st_published st) (st_encoded_generation st) (st_summary st) (Some since) (st_encode_key st) (st_publish_key st) (st_heartbeat st).
Definition with_published (p : Published) (sp : DiscSpec) (st : DiscStatus) : DiscStatus :=
  mkDiscStatus (st_phase st) (st_message st) (st_label st) (st_fingerprint st) (st_drive st) (st_attempts st) (st_observed_retry st) (st_backup st) (st_damage st) (st_protected st)
    (st_titles st) (st_warnings st) (Some p) (st_encoded_generation st) (st_summary st) (st_since st) (Some (encode_key sp)) (Some (publish_key sp)) (st_heartbeat st).
Definition with_damage (d : Damage) (st : DiscStatus) : DiscStatus :=
  mkDiscStatus (st_phase st) (st_message st) (st_label st) (st_fingerprint st) (st_drive st) (st_attempts st) (st_observed_retry st) (st_backup st) (Some d) (st_protected st)
    (st_titles st) (st_warnings st) (st_published st) (st_encoded_generation st) (st_summary st) (st_since st) (st_encode_key st) (st_publish_key st) (st_heartbeat st).
Definition with_encodes (titles : list TitleStatus) (summary : string) (sp : DiscSpec) (st : DiscStatus) : DiscStatus :=
  mkDiscStatus Encoded (Some summary) (st_label st) (st_fingerprint st) (st_drive st) (st_attempts st) (st_observed_retry st) (st_backup st) (st_damage st) (st_protected st)
    titles (st_warnings st) (st_published st) (st_encoded_generation st) (Some summary) (st_since st) (Some (encode_key sp)) (st_publish_key st) (st_heartbeat st).
Definition import_backup (bytes : N) (sha : string) : Crd.Backup := mkBackup "import" bytes 0 0 sha.

(** ** What media-dvd holds *)

(** What a run knows and has counted. *)
Record Tally : Type := mkTally { known : list string; done : N; queued : N; skipped : N }.
Definition skip (t : Tally) : Tally := mkTally (known t) (done t) (queued t) (skipped t + 1).
Definition isos_in (root : string) (isos : list (string * string)) (folder : string) : Host.M (list (string * string)) :=
  dir ← is_dir (path_join root folder);
  if starts_with "." folder || negb dir then mret isos
  else
    files ← read_entries (path_join root folder);
    mret (isos ++ ((λ f, (folder, path_join (path_join root folder) f)) <$> List.filter (λ f, bool_decide (extension f = Some "iso")) files)).
Definition iso_leb (x y : string * string) : bool := match String.compare x.1 y.1 with Lt => true | Gt => false | Eq => path_leb x.2 y.2 end.
Definition scan_isos (root : string) : Host.M (list (string * string)) :=
  folders ← read_entries root; isos ← for_each (isos_in root) [] folders; mret (stable_sort iso_leb isos).
Definition record_published (rel : string) (iso : string) (label fp : string) (sp : DiscSpec) : AM () :=
  bytes ← host (metadata_len iso);
  _ ← create label fp sp;
  t ← now;
  patch_status (disc_object_name label fp) (λ st,
    with_published (mkPublished (Some rel) [] 1 (pub_notes (default default_published (st_published st)))) sp
      (imported Done label fp t "imported from media-dvd (published before dvdrip; re-encode it to manage its MKVs)" (import_backup bytes "") st)).
Definition import_iso (root : string) (t : Tally) (fi : string * string) : AM Tally :=
  let '(folder, iso) := fi in
  fp ← host (fingerprint iso);
  match fp with
  | None => mret (skip t)
  | Some fp =>
      if bool_decide (fp ∈ known t) then mret t
      else
        label ← host (disc_label iso);
        let sp := default_disc_spec folder (disc_number (stem_of (file_name iso))) in
        _ ← (if im_dry_run a then mret () else record_published (default iso (strip_prefix (root +:+ "/") iso)) iso label fp sp);
        mret (mkTally (fp :: known t) (done t + 1) (queued t) (skipped t))
  end.

(** ** The finished rips *)

Definition rip_dir (rips : string) (dirs : list string) (e : string) : Host.M (list string) :=
  there ← is_file (path_join (path_join rips e) "master.iso");
  mret (if (there : bool) then dirs ++ [path_join rips e] else dirs).
Definition scan_rips (rips : string) : Host.M (list string) :=
  entries ← read_entries rips; dirs ← for_each (rip_dir rips) [] entries; mret (stable_sort path_leb dirs).
Definition rip_name (dir label : string) : Host.M string :=
  s ← ok (read_to_string (path_join dir ".name"));
  mret (match trim <$> s with Some n => if bool_decide (n = "") then label_to_name label else n | None => label_to_name label end).
Definition copy_encodes (work : string) (c : Curated) : Host.M () :=
  for_each (λ _ f, drop_ (copy_verified f.2 (path_join work (encode_path f.1)))) () (cu_files c).
Definition rip_message (failed : bool) : string :=
  if failed then "imported from falcon; the bash pipeline had failed it (spec.hold: set hold=false to encode)" else "imported from falcon".
Definition rip_spec (name : string) (failed : bool) (c : option Curated) : DiscSpec :=
  mkDiscSpec name 1 None false (match c with Some c => cu_titles c | None => ∅ end) failed 0.
Definition rip_status (label fp t sha : string) (bytes : N) (failed damaged : bool) (sp : DiscSpec) (c : option Curated) (st : DiscStatus) : DiscStatus :=
  let st := imported BackedUp label fp t (rip_message failed) (import_backup bytes sha) st in
  let st := if damaged then with_damage (mkDamage f64_zero 0 false) st else st in
  match c with
  | Some c => with_encodes (cu_status c) (spec_name sp +:+ ": imported from falcon with its encodes (" +:+ pretty (N.of_nat (length (cu_files c))) +:+ " files)") sp st
  | None => st
  end.
Definition bring_over (dir label fp : string) (failed : bool) (sp : DiscSpec) (c : option Curated) : AM () :=
  let work := path_join (im_work_root a) fp in
  let master := path_join dir "master.iso" in
  _ ← host (create_dir_all (path_join work "encodes"));
  _ ← host (create_dir_all (path_join work "logs"));
  sha ← host (copy_verified master (path_join work "master.iso"));
  bytes ← host (metadata_len master);
  damaged ← host (exists_ (path_join dir ".damaged"));
  _ ← create label fp sp;
  t ← now;
  _ ← match c with Some c => host (copy_encodes work c) | None => mret () end;
  patch_status (disc_object_name label fp) (rip_status label fp t sha bytes failed damaged sp c).
Definition import_rip (t : Tally) (dir : string) : AM Tally :=
  fp ← host (fingerprint (path_join dir "master.iso"));
  match fp with
  | None => mret (skip t)
  | Some fp =>
      if bool_decide (fp ∈ known t) then mret t
      else
        label ← host (disc_label (path_join dir "master.iso"));
        name ← host (rip_name dir label);
        failed ← host (exists_ (path_join dir ".failed"));
        finished ← host (exists_ (path_join dir ".done"));
        c ← (if (finished : bool) then host (bash_library dir name) else mret None);
        let sp := rip_spec name failed c in
        _ ← (if im_dry_run a then mret () else bring_over dir label fp failed sp c);
        mret (mkTally (fp :: known t) (done t) (queued t + 1) (skipped t))
  end.
Definition import_root (t : Tally) : AM Tally :=
  match im_dvd_root a with None => mret t | Some root => isos ← host (scan_isos root); for_each (import_iso root) t isos end.
Definition import_rips (t : Tally) : AM Tally :=
  match im_rips a with None => mret t | Some rips => dirs ← host (scan_rips rips); for_each import_rip t dirs end.
Definition run : AM Tally :=
  fps ← known_discs;
  t ← import_root (mkTally fps 0 0 0);
  import_rips t.
End import.
