(* ===== verification/ImportSafe.v ===== *)
(** * What an import leaves alone

    [import_keeps]: discs that are known, and every file outside the work volume, stay as they are; a dry run changes nothing.
    [walk_enough]: the walk of a library tree is not cut short. *)

From Stdlib Require Import Ascii.
From stdpp Require Import options.
From S2P Require Import Prelude Text F64 Json Naming Classify Crd Layout State Controller Lifecycle Damage Host Work Review Backup Agent Import.

(** ** Names of Disc objects *)

Lemma object_name_suffix label fp : ∃ slug, disc_object_name label fp = slug +:+ "-" +:+ fp.
Proof. by eexists. Qed.
Lemma object_name_inj l fp l' fp' : String.length fp = String.length fp' → disc_object_name l fp = disc_object_name l' fp' → fp = fp'.
Proof.
  intros Hl E. destruct (object_name_suffix l fp) as [s E1], (object_name_suffix l' fp') as [s' E2]. rewrite E1, E2 in E. apply (f_equal chars) in E.
  rewrite !chars_app, !app_assoc in E. apply app_inj_2 in E as [_ E]; [by apply (inj chars)|by rewrite <- !length_chars].
Qed.

Section keeps.
Context `{ToolsLaws, Outer, Clock, SerdeJson, Deserialize (list Title), Deserialize (list Glitch)} (a : ImportArgs) (s0 : Agent).
#[local] Set Default Proof Using "Type*".

(** Fingerprints are twelve characters of a digest. *)
Lemma fingerprint_length dev : (∀ c, 12 ≤ String.length (digest c)) → results (λ o, ∀ fp, o = Some fp → String.length fp = 12) (fingerprint dev).
Proof.
  intros Hd. assert (∀ c, String.length (short_sha c) = 12) as Hs.
  { intros c. unfold short_sha. rewrite length_chars, chars_str, length_take, <- length_chars. specialize (Hd c). lia. }
  assert (∀ n, results (λ o, ∀ fp, o = Some fp → String.length fp = 12) (fingerprint_by_titles dev n)) as Ht.
  { induction n as [|n IH]; cbn [fingerprint_by_titles]; [by apply results_ret|]. apply results_bind. intros o. case_bool_decide; [apply IH|]. apply results_ret. by intros fp [= <-]. }
  unfold fingerprint. apply results_bind. intros ifo. case_bool_decide; [apply Ht|]. apply results_ret. by intros fp [= <-].
Qed.

(** The objects [N] names and the files [P] holds of are as they were. *)
Context (N : string → Prop) (P : string → Prop).
Definition unchanged (s : Agent) : Prop := (∀ n, N n → ag_discs s !! n = ag_discs s0 !! n) ∧ same P (files_of s0) (files_of s).
Definition good {A} (m : AM A) : Prop := ∀ s, unchanged s → wp m unchanged (λ _, unchanged) s.
Lemma good_ret {A} (x : A) : good (mret x).
Proof. by intros s Hs. Qed.
Lemma good_bind {A B} (m : AM A) (f : A → AM B) : good m → (∀ x, good (f x)) → good (m ≫= f).
Proof. intros Hm Hf s Hs. apply wp_bind. eapply wp_mono; [by apply Hm|done|]. intros x s' Hs'. by apply Hf. Qed.
Lemma good_gets {A} (f : Agent → A) : good (gets f).
Proof. by intros s Hs. Qed.
Lemma good_host {A} (m : Host.M A) : steps (same P) m → good (host m).
Proof.
  intros Hm s [Hn Hf]. apply host_wp. specialize (Hm (ag_host s)). unfold wp. destruct (m (ag_host s)) as [w []]; split; try exact Hn; by etrans.
Qed.
Lemma good_api {A} (act : Agent → option (Agent * A)) : (∀ s s' x, unchanged s → act s = Some (s', x) → unchanged s') → good (api act).
Proof.
  intros Ha s Hs. unfold wp, api. assert (∀ s, unchanged s → unchanged (ticked s)) as Ht by (intros ? []; by split).
  destruct (fate _), (act s) as [[s' x]|] eqn:E; apply Ht; try done; by eapply Ha.
Qed.
Lemma good_known : good known_discs.
Proof. apply good_api. intros s s' x Hs [= <- _]. done. Qed.
Lemma good_create_disc n d : ¬ (N n ∧ ag_discs s0 !! n = None) → good (create_disc n d).
Proof.
  intros Hn. apply good_api. intros s s' x [Hd Hf]. destruct (ag_discs s !! n) eqn:E; intros [= <- _]; [by split|]. split; [|done]. intros m Hm. cbn.
  rewrite lookup_insert_ne; [by apply Hd|]. intros ->. apply Hn. split; [done|]. by rewrite <- Hd.
Qed.
Lemma good_patch_status n f : ¬ N n → good (patch_status n f).
Proof.
  intros Hn. apply good_api. intros s s' x [Hd Hf]. destruct (ag_discs s !! n) eqn:E; [|done]. intros [= <- _]. split; [|done]. intros m Hm. cbn.
  rewrite lookup_insert_ne; [by apply Hd|]. by intros ->.
Qed.
Lemma steps_stdout_or_empty args : (∀ p, writes args p = false) → steps (same P) (stdout_or_empty args).
Proof. intros Hw. unfold stdout_or_empty. same_through. by apply steps_stdout. Qed.
Lemma steps_fingerprint dev : steps (same P) (fingerprint dev).
Proof.
  unfold fingerprint. apply keep_bind; [by apply steps_stdout_or_empty|]. intros ifo. case_bool_decide; [|by apply keep_ret].
  generalize 3. intros n. induction n as [|n IH]; cbn [fingerprint_by_titles]; [by apply keep_ret|]. apply keep_bind; [by apply steps_stdout_or_empty|].
  intros o. case_bool_decide; [apply IH|by apply keep_ret].
Qed.
Lemma steps_disc_label dev : steps (same P) (disc_label dev).
Proof. unfold disc_label. apply keep_bind; [by apply steps_stdout_or_empty|]. intros o. by apply keep_ret. Qed.
Lemma steps_read_entries d : steps (same P) (read_entries d).
Proof. by intros w. Qed.
Lemma steps_is_dir p : steps (same P) (is_dir p).
Proof. apply same_gets. Qed.
Lemma steps_exists p : steps (same P) (exists_ p).
Proof. unfold exists_. same_through. apply steps_is_dir. Qed.
Lemma steps_walk lib name titles n d folder c : steps (same P) (walk_library lib name titles n d folder c).
Proof.
  revert d folder c. induction n as [|n IH]; intros d folder c; cbn [walk_library]; [apply same_throw|]. apply keep_bind; [apply steps_read_entries|]. intros entries.
  apply keep_bind; [|intros s; apply same_for_each; intros; apply IH]. apply same_for_each. intros s e _. unfold library_entry. apply keep_bind; [apply steps_is_dir|].
  intros []; by apply keep_ret.
Qed.
Lemma steps_library dir name : steps (same P) (bash_library dir name).
Proof. unfold bash_library. same_through; [apply steps_is_dir|apply steps_walk]. Qed.
Lemma steps_metadata_len p : steps (same P) (metadata_len p).
Proof. unfold metadata_len. same_through. Qed.
Lemma steps_scan_isos root : steps (same P) (scan_isos root).
Proof.
  unfold scan_isos. same_through; [apply steps_read_entries|]. apply same_for_each. intros isos f _. unfold isos_in. same_through; [apply steps_is_dir|apply steps_read_entries].
Qed.
Lemma steps_scan_rips rips : steps (same P) (scan_rips rips).
Proof.
  unfold scan_rips. same_through; [apply steps_read_entries|]. apply same_for_each. intros dirs e _. unfold rip_dir. same_through.
Qed.
Lemma steps_rip_name dir label : steps (same P) (rip_name dir label).
Proof. unfold rip_name. same_through. Qed.

(** Recording is the only change. *)
Context (fps : list string).
Definition fresh (fp : string) : Prop := fp ∉ fps ∧ String.length fp = 12.
Context (Hdigest : ∀ c, 12 ≤ String.length (digest c)).
Context (Hiso : im_dry_run a = false → ∀ rel iso label fp sp, fresh fp → good (record_published a rel iso label fp sp)).
Context (Hrip : im_dry_run a = false → ∀ dir label fp failed sp c, fresh fp → good (bring_over a dir label fp failed sp c)).
Definition covers (t : Tally) : Prop := ∀ fp, fp ∈ fps → fp ∈ known t.
Definition tallied (m : AM Tally) : Prop := ∀ s, unchanged s → wp m unchanged (λ t s, unchanged s ∧ covers t) s.
Lemma tallied_ret t : covers t → tallied (mret t).
Proof. intros Ht s Hs. by split. Qed.
Lemma tallied_bind {A} (m : AM A) f : good m → (∀ x, tallied (f x)) → tallied (m ≫= f).
Proof. intros Hm Hf s Hs. apply wp_bind. eapply wp_mono; [by apply Hm|done|]. intros x s' Hs'. by apply Hf. Qed.
Lemma tallied_print dev (f : option string → AM Tally) : (∀ fp, (∀ x, fp = Some x → String.length x = 12) → tallied (f fp)) → tallied (fp ← host (fingerprint dev); f fp).
Proof.
  intros Hf s Hs. pose proof (good_host _ (steps_fingerprint dev) s Hs) as Hg. pose proof (fingerprint_length dev Hdigest (ag_host s)) as Hl.
  apply wp_bind. unfold wp in Hg. unfold wp at 1. unfold host in *. destruct (fingerprint dev (ag_host s)) as [w [x|e]]; [|done]. apply Hf; [|done]. by eapply Hl.
Qed.
Lemma tallied_each {A} (f : Tally → A → AM Tally) t l : (∀ t x, covers t → tallied (f t x)) → covers t → tallied (for_each f t l).
Proof.
  intros Hf. revert t. induction l as [|x l IH]; intros t Ht; cbn [for_each]; [by apply tallied_ret|]. intros s Hs. apply wp_bind.
  eapply wp_mono; [by apply Hf|done|]. intros t' s' [Hs' Ht']. by apply IH.
Qed.
Lemma covers_more t fp d q sk : covers t → covers (mkTally (fp :: known t) d q sk).
Proof. intros Ht x Hx. right. by apply Ht. Qed.
Lemma tallied_iso root t fi : covers t → tallied (import_iso a root t fi).
Proof.
  destruct fi as [folder iso]. intros Ht. unfold import_iso. apply tallied_print. intros [fp|] Hl; [|by apply tallied_ret]. case_bool_decide as Hk; [by apply tallied_ret|].
  apply tallied_bind; [apply good_host, steps_disc_label|]. intros label. apply tallied_bind; [|intros _; by apply tallied_ret, covers_more].
  destruct (im_dry_run a) eqn:Ed; [by apply good_ret|]. apply Hiso; [done|]. split; [|by apply Hl]. intros Hin. by apply Hk, Ht.
Qed.
Lemma tallied_rip t dir : covers t → tallied (import_rip a t dir).
Proof.
  intros Ht. unfold import_rip. apply tallied_print. intros [fp|] Hl; [|by apply tallied_ret]. case_bool_decide as Hk; [by apply tallied_ret|].
  apply tallied_bind; [apply good_host, steps_disc_label|]. intros label. apply tallied_bind; [apply good_host, steps_rip_name|]. intros name.
  apply tallied_bind; [apply good_host, steps_exists|]. intros failed. apply tallied_bind; [apply good_host, steps_exists|]. intros finished.
  apply tallied_bind; [destruct finished; [apply good_host, steps_library|apply good_ret]|]. intros c. apply tallied_bind; [|intros _; by apply tallied_ret, covers_more].
  destruct (im_dry_run a) eqn:Ed; [by apply good_ret|]. apply Hrip; [done|]. split; [|by apply Hl]. intros Hin. by apply Hk, Ht.
Qed.
Lemma run_unchanged s : unchanged s → (∀ x, (known_discs s).2 = Ok x → x = fps) → unchanged (run a s).1.
Proof.
  intros Hs Hfps. unfold run. apply wp_result. apply wp_bind. pose proof (good_known s Hs) as Hg. unfold wp in Hg |- *. destruct (known_discs s) as [s1 [x|e]]; [|done].
  rewrite (Hfps x eq_refl). clear x Hfps. change (wp (t ← import_root a (mkTally fps 0 0 0); import_rips a t) unchanged (λ _, unchanged) s1).
  apply wp_bind. assert (tallied (import_root a (mkTally fps 0 0 0))) as Hr.
  { unfold import_root. assert (covers (mkTally fps 0 0 0)) by by intros x. destruct (im_dvd_root a); [|by apply tallied_ret].
    apply tallied_bind; [apply good_host, steps_scan_isos|]. intros isos. apply tallied_each; [|done]. intros. by apply tallied_iso. }
  eapply wp_mono; [by apply Hr|done|]. intros t s2 [Hs2 Ht]. unfold import_rips. destruct (im_rips a); [|done].
  apply wp_bind. eapply wp_mono; [apply good_host; [apply steps_scan_rips|done]|done|]. intros dirs s4 Hs4.
  eapply wp_mono; [apply tallied_each; [|exact Ht|exact Hs4]; intros; by apply tallied_rip|done|by intros ? ? []].
Qed.
End keeps.

Section theorems.
Context `{ToolsLaws, Outer, Clock, SerdeJson, Deserialize (list Title), Deserialize (list Glitch)} (a : ImportArgs) (s : Agent).
#[local] Set Default Proof Using "Type*".
Definition known_to : list string := omap (λ kv : string * Disc, st_fingerprint <$> disc_status kv.2) (map_to_list (ag_discs s)).
Lemma known_discs_are x : (known_discs s).2 = Ok x → x = known_to.
Proof. unfold known_discs, api. destruct (fate _); [|done|done]. by intros [= <-]. Qed.
(** Not the name that a disc of another fingerprint gets: any Disc that the agent or an import has made, and one that
    [dvdrip synth] has made under a name of another shape. *)
Definition own_name (name : string) (st : DiscStatus) : Prop :=
  ∀ label fp, String.length fp = 12 → name = disc_object_name label fp → fp = st_fingerprint st.
Definition has_status (name : string) : Prop := ∃ d st, ag_discs s !! name = Some d ∧ disc_status d = Some st ∧ own_name name st.
Definition outside_work (p : string) : Prop := below (im_work_root a) p = false.
Lemma import_fresh_name label fp : fresh known_to fp → ¬ has_status (disc_object_name label fp).
Proof.
  intros [Hf Hl] (d & st & Hd & Hst & Hn). specialize (Hn label fp Hl eq_refl) as ->. apply Hf, list_elem_of_omap.
  exists (disc_object_name label (st_fingerprint st), d). rewrite elem_of_map_to_list. cbn. by rewrite Hst.
Qed.
Lemma agent_name_own label st : String.length (st_fingerprint st) = 12 → own_name (disc_object_name label (st_fingerprint st)) st.
Proof. intros Hl label' fp Hfp E. symmetry. eapply object_name_inj; [|exact E]. by rewrite Hl. Qed.
Lemma not_outside fp x : ¬ outside_work (path_join (path_join (im_work_root a) fp) x).
Proof. unfold outside_work, below, path_join. rewrite <- !str_app_assoc, str_app_assoc. by rewrite starts_with_prefix. Qed.
Lemma steps_copy_work src fp x : steps (same outside_work) (copy_verified src (path_join (path_join (im_work_root a) fp) x)).
Proof.
  assert (¬ outside_work (path_join (path_join (im_work_root a) fp) x +:+ ".part")).
  { assert (∀ d, path_join d x +:+ ".part" = path_join d (x +:+ ".part")) as -> by (intros d; unfold path_join; by rewrite !str_app_assoc). apply not_outside. }
  unfold copy_verified. same_through; [by apply steps_write_file|by apply steps_remove_file|apply steps_rename; [done|apply not_outside]].
Qed.
Notation good := (good s has_status outside_work).
Lemma good_create label fp sp : good (create a label fp sp).
Proof.
  unfold create. apply good_bind; [apply good_gets|]. intros uid. apply good_bind; [|intros _; apply good_ret]. apply good_create_disc. intros [(d & st & Hd & _) Hn]. by rewrite Hd in Hn.
Qed.
Lemma good_record rel iso label fp sp : fresh known_to fp → good (record_published a rel iso label fp sp).
Proof.
  intros Hf. unfold record_published. apply good_bind; [apply good_host, steps_metadata_len|]. intros bytes. apply good_bind; [apply good_create|]. intros _.
  apply good_bind; [apply good_gets|]. intros t. apply good_patch_status. by apply import_fresh_name.
Qed.
Lemma good_bring dir label fp failed sp c : fresh known_to fp → good (bring_over a dir label fp failed sp c).
Proof.
  intros Hf. unfold bring_over. apply good_bind; [apply good_host; by same_through|]. intros _. apply good_bind; [apply good_host; by same_through|]. intros _.
  apply good_bind; [apply good_host, steps_copy_work|]. intros sha. apply good_bind; [apply good_host, steps_metadata_len|]. intros bytes.
  apply good_bind; [apply good_host, steps_exists|]. intros damaged. apply good_bind; [apply good_create|]. intros _. apply good_bind; [apply good_gets|]. intros t.
  apply good_bind; [|intros _; apply good_patch_status; by apply import_fresh_name]. destruct c as [c|]; [|apply good_ret]. apply good_host. unfold copy_encodes.
  apply same_for_each. intros _ f _. unfold drop_. same_through. apply steps_copy_work.
Qed.

(** C37: An import leaves every Disc that has a status as it was, unless it goes by the name of a disc with another
    fingerprint (which only [dvdrip synth --disc] can have given it), whichever API calls fail, and every file outside the
    work volume, wherever it stops: the rips and media-dvd are only read. A dry run changes no Disc and no file at all. *)
Theorem import_keeps : (∀ c, 12 ≤ String.length (digest c)) →
  let s' := (run a s).1 in
  (∀ name d st, ag_discs s !! name = Some d → disc_status d = Some st → own_name name st → ag_discs s' !! name = Some d) ∧
  (∀ p, below (im_work_root a) p = false → files_of s' !! p = files_of s !! p) ∧
  (im_dry_run a = true → ag_discs s' = ag_discs s ∧ files_of s' = files_of s).
Proof.
  intros Hd. assert (unchanged s has_status outside_work (run a s).1) as [Hdiscs Hfiles].
  { apply (run_unchanged a s has_status outside_work known_to Hd); [intros _ *; by apply good_record|intros _ *; by apply good_bring|split; [done|by intros p]|apply known_discs_are]. }
  split_and!.
  - intros name d st E Hs Hn. rewrite Hdiscs; [done|]. by exists d, st.
  - exact Hfiles.
  - intros Hdry. assert (unchanged s (λ _, True) (λ _, True) (run a s).1) as [Hdiscs' Hfiles'].
    { apply (run_unchanged a s (λ _, True) (λ _, True) known_to Hd); [by rewrite Hdry|by rewrite Hdry|split; [done|by intros p]|apply known_discs_are]. }
    split; [apply map_eq; intros n; by apply Hdiscs'|apply map_eq; intros p; by apply Hfiles'].
Qed.
End theorems.

(** ** The walk ends *)

Section walk.
Context `{Tools} (lib name : string) (titles : list Title) (fs : gmap string string).
#[local] Set Default Proof Using "Type*".
Definition too_deep : Error := ["too deep"].
Definition fine {A} (I : A → Prop) (m : Host.M A) : Prop := ∀ w, w_files w = fs → match m w with (w', Ok x) => w_files w' = fs ∧ I x | (_, Err e) => e ≠ too_deep end.
Lemma walk_bind {A B} (I : A → Prop) (J : B → Prop) (m : Host.M A) f : fine I m → (∀ x, I x → fine J (f x)) → fine J (m ≫= f).
Proof. intros Hm Hf w Hw. unfold mbind, SE_bind. specialize (Hm w Hw). destruct (m w) as [w' [x|e]]; [|done]. destruct Hm as [Hw' Hx]. by apply Hf. Qed.
Lemma fine_each {A B} (I : B → Prop) (f : B → A → Host.M B) b l : I b → (∀ b x, I b → x ∈ l → fine I (f b x)) → fine I (State.for_each f b l).
Proof.
  revert b. induction l as [|x l IH]; intros b Hb Hf; cbn; [by intros w Hw|]. eapply walk_bind; [apply Hf; [done|by left]|]. intros b' Hb'. apply IH; [done|].
  intros b2 y Hb2 Hy. apply Hf; [done|by right].
Qed.
Lemma prefix_length p s : starts_with p s = true → String.length p ≤ String.length s.
Proof.
  unfold starts_with. revert s. induction p as [|c p IH]; intros [|c' s]; cbn; try lia. destruct (ascii_dec c c'); [|done]. intros E%IH. lia.
Qed.
(** A directory has a file below it. *)
Definition dir_in (d : string) : Prop := ∃ p c, fs !! p = Some c ∧ below d p = true.
Lemma dir_short d : dir_in d → String.length d < depth_of fs.
Proof.
  intros (p & c & Hp & Hb). apply elem_of_map_to_list in Hp. unfold depth_of. assert (length (chars p) ≤ fold_right Nat.max 0 ((λ kv : string * string, length (chars kv.1)) <$> map_to_list fs)) as Hmax.
  { induction (map_to_list fs) as [|kv l IH]; [by apply not_elem_of_nil in Hp|]. cbn. apply elem_of_cons in Hp as [<-|Hp]; [apply Nat.le_max_l|]. etrans; [by apply IH|apply Nat.le_max_r]. }
  apply prefix_length in Hb as Hl.
  rewrite str_length_app in Hl. rewrite (length_chars p) in Hl. cbn in Hl. lia.
Qed.
Lemma is_dir_fine p : fine (λ b, b = true → dir_in p) (is_dir p).
Proof.
  intros w Hw. cbn. split; [done|]. rewrite Hw. intros (kv & Hin & Hb)%existsb_exists. apply list_elem_of_In in Hin. destruct kv as [k c]. apply elem_of_map_to_list in Hin. by exists k, c.
Qed.
(** A walk that starts in a directory is never cut short: paths get longer as it goes down. *)
Lemma walk_fine n d folder c : dir_in d → depth_of fs ≤ n + String.length d → fine (λ _, True) (walk_library lib name titles n d folder c).
Proof.
  revert d folder c. induction n as [|n IH]; intros d folder c Hd Hn; [apply dir_short in Hd; cbn in Hn; lia|]. cbn [walk_library].
  apply (walk_bind (λ _, True)); [intros w Hw; unfold read_entries; by destruct (disk (w_step w) d)|]. intros entries _.
  apply (walk_bind (λ s : Curated * list (string * string), ∀ pe, pe ∈ s.2 → dir_in pe.1 ∧ String.length d < String.length pe.1)).
  - apply fine_each; [by intros ? ?%not_elem_of_nil|]. intros s e Hs _. unfold library_entry. eapply walk_bind; [apply is_dir_fine|]. intros [] Hb w Hw; (split; [done|]); cbn; [|by destruct (strip_suffix _ _)].
    intros pe [->|Hpe]%elem_of_cons; [|by apply Hs]. cbn. split; [by apply Hb|]. unfold path_join. rewrite !str_length_app. cbn. lia.
  - intros s Hs. apply fine_each; [done|]. intros c' pe _ Hpe. destruct (Hs pe Hpe) as [Hdir Hlen]. apply IH; [done|]. lia.
Qed.
Theorem walk_enough w folder c : w_files w = fs → dir_in lib → (walk_library lib name titles (depth_of fs) lib folder c w).2 ≠ Err too_deep.
Proof.
  intros Hw Hd. pose proof (walk_fine (depth_of fs) lib folder c Hd ltac:(lia) w Hw) as Hf. destruct (walk_library _ _ _ _ _ _ _ _) as [w' [x|e]]; [done|]. cbn. by intros [= ->].
Qed.
End walk.

(** ** An import

    A media-dvd with a film that is known and one that is new, and the rips dir with a finished, sorted rip and a failed one. *)
#[local] Existing Instances Json.Reference.serde.

(** isoinfo prints the first file of an image, here all of it; the digest is padded to twelve characters. *)
#[local] Instance tools : Tools := {|
  tool_run _ fs _ args :=
    (fs, Some (mkOutput true match args with
                             | ["isoinfo"; "-i"; dev; "-x"; _] => default "" (fs !! dev)
                             | ["isoinfo"; "-d"; "-i"; dev] => "Volume id: " +:+ default "" (fs !! dev)
                             | _ => ""
                             end ""));
  disk _ _ := Whole;
  dir_order _ l := l;
  from_json _ := None;
|}.
#[local] Instance tools_laws : ToolsLaws.
Proof. by split. Qed.
#[local] Instance outer : Outer := {| fate _ := Ran; time_at _ := 0%Z; elapsed _ _ := 0%N; free_gb _ _ := None; digest s := s +:+ "------------"; new_uid _ := "uid" |}.
#[local] Instance clock : Clock := {| format_time _ := "now"; parse_time _ := None |}.
Definition disc_title (n : N) (r : Role) (ratio : string) : Title := mkTitle n (f64_of_Z 100) 1 n (Str ratio) f64_zero 1 [] [] [] [] r None None None None.
#[local] Instance titles_json : Deserialize (list Title) := λ t,
  if bool_decide (t = "titles") then Some [disc_title 1 Main "16/9"; disc_title 2 Alt "4/3"; disc_title 6 Extra ""; disc_title 7 Extra ""; disc_title 8 Short ""] else None.
#[local] Instance glitches_json : Deserialize (list Glitch) := λ _, None.

Definition args (dry : bool) : ImportArgs := mkImportArgs "media" (Some "/dvd") (Some "/rips") "/work" dry.
Definition old_disc : Disc := mkDisc "old-OLD---------" (Some "media") None "u" (default_disc_spec "Old" 1)
  (Some (mkDiscStatus Done None "OLD" "OLD---------" None 0 0 None None false [] [] None None None None None None None)).
Definition start : Agent :=
  mkAgent (Host.mkWorld (list_to_map [("/dvd/Old/Old.iso", "OLD"); ("/dvd/New (1999)/New (1999) - Disc 2.iso", "NEW"); ("/rips/BAD/master.iso", "BAD"); ("/rips/BAD/.failed", "");
    ("/rips/ELF/master.iso", "ELF"); ("/rips/ELF/.name", "Elf (2003)"); ("/rips/ELF/.done", ""); ("/rips/ELF/titles.json", "titles");
    ("/rips/ELF/library/Elf (2003)/Elf (2003).mkv", "1"); ("/rips/ELF/library/Elf (2003)/Elf (2003) - Fullscreen.mkv", "2");
    ("/rips/ELF/library/Elf (2003)/trailers/Title 6 - 1m00s.mkv", "6"); ("/rips/ELF/library/Elf (2003)/extras/Title 7 - 2m00s.mkv", "7");
    ("/rips/ELF/library/Elf (2003)/featurettes/Making Elf.mkv", "x")]) 0) {["old-OLD---------" := old_disc]} ∅ None [].
Definition ended : Agent := (run (args false) start).1.
Definition phases (s : Agent) : list (string * (string * N * bool) * option Phase) :=
  (λ kv : string * Disc, (kv.1, (spec_name (disc_spec kv.2), spec_disc (disc_spec kv.2), spec_hold (disc_spec kv.2)), st_phase <$> disc_status kv.2)) <$> btree_list (ag_discs s).
(** The program's own test, and the whole run around it. *)
Example imported_discs :
  phases ended = [("bad-BAD---------", ("Bad", 1%N, true), Some BackedUp); ("elf-ELF---------", ("Elf (2003)", 1%N, false), Some Encoded);
                  ("new-NEW---------", ("New (1999)", 2%N, false), Some Done); ("old-OLD---------", ("Old", 1%N, false), Some Done)] ∧
  (λ p, files_of ended !! p) <$> ["/work/ELF---------/encodes/1.mkv"; "/work/ELF---------/encodes/2.mkv"; "/work/ELF---------/encodes/6.mkv"; "/work/ELF---------/encodes/7.mkv"; "/work/BAD---------/master.iso"]
    = [Some "1"; Some "2"; Some "6"; Some "7"; Some "BAD"] ∧
  (d ← ag_discs ended !! "elf-ELF---------"; Some (btree_list (over_folder <$> spec_titles (disc_spec d)), (λ st, (t_title <$> List.filter (λ t, bool_decide (is_Some (t_output t))) (st_titles st))) <$> disc_status d))
    = Some ([("6", Some "trailers")], Some [1%N; 2%N; 6%N; 7%N]).
Proof. vm_compute. done. Qed.
Lemma import_keeps_witness :
  ag_discs ended !! "old-OLD---------" = Some old_disc ∧
  (∀ p, below "/work" p = false → files_of ended !! p = files_of start !! p) ∧
  (false = true → ag_discs ended = ag_discs start ∧ files_of ended = files_of start).
Proof.
  destruct (import_keeps (args false) start) as (Hd & Hf & Hdry).
  - intros c. cbn. rewrite str_length_app. cbn. lia.
  - split; [|by split]. eapply (Hd "old-OLD---------" old_disc); [apply lookup_singleton_Some; by split|reflexivity|].
    apply (agent_name_own "OLD" (mkDiscStatus Done None "OLD" "OLD---------" None 0 0 None None false [] [] None None None None None None None)). reflexivity.
Defined.
