(* ===== verification/Kavita.v ===== *)
(** * Setting up Kavita ([apps/app-bootstrap/src/kavita.rs])

    The first admin, the book libraries and single sign-on, with the restart that makes Kavita register it. An [oidcConfig]
    that is neither an object nor null makes the program panic: an error here. *)

From Stdlib Require Import Ascii.
From stdpp Require Import options.
From S2P Require Import Prelude Text Json Codec Threads Markers Trace Apps Bootstrap Servarr Serde Keycloak Ombi.

(** Name, folder, type and file groups. *)
Record Shelf : Type := mkShelf { sh_name : string; sh_folder : string; sh_kind : Z; sh_groups : list Z }.
Definition LIBRARIES : list Shelf :=
  [mkShelf "Books" "/media/books" 2 [2; 3]%Z; mkShelf "Comics" "/media/comics" 1 [1; 3; 4]%Z; mkShelf "Manga" "/media/manga" 0 [1; 3; 4]%Z].
Definition metadata_provider (kind : Z) : Z := if (kind =? 0)%Z then 3 else 2.
Definition DEFAULT_ROLES : list string := ["Login"; "Download"; "Bookmark"].
Record Library : Type := mkLibrary { lb_id : Z; lb_name : string }.
Record Oidc : Type := mkOidc { authority : string; client_id : string; o_secret : string; provider_name : string }.

Definition read_library (v : Value) : option Library :=
  if shaped_exactly v 2 then id ← field v "id" 0 ≫= value_as_i64; name ← field v "name" 1 ≫= as_str; Some (mkLibrary id name) else None.
Definition read_libraries (v : Value) : option (list Library) := l ← as_array v; mapM read_library l.
Definition read_user (v : Value) : option string := if shaped_exactly v 1 then field v "token" 0 ≫= as_str else None.

Definition missing (existing : list string) (wanted : list Shelf) : list Shelf :=
  List.filter (λ s, negb (existsb (λ e, eq_ignore_ascii_case e (sh_name s)) existing)) wanted.

(** ** Single sign-on *)

Definition is_star (c : ascii) : bool := bool_decide (c = "*"%char).
Definition secret_matches (current desired : string) : bool :=
  (String.length current =? String.length desired)%nat && forallb is_star (chars current).
Definition desired (want : Oidc) (library_ids : list Z) : list (string * Value) :=
  [("authority", Str (authority want)); ("clientId", Str (client_id want)); ("providerName", Str (provider_name want)); ("provisionAccounts", Bool true);
   ("requireVerifiedEmail", Bool true); ("autoLogin", Bool false); ("disablePasswordAuthentication", Bool false); ("defaultRoles", Array (Str <$> DEFAULT_ROLES));
   ("defaultLibraries", Array (json_i64 <$> library_ids))].
(** The settings so far, and whether anything changed. *)
Definition put_changed (s : option (Value * bool)) (kv : string * Value) : option (Value * bool) :=
  '(v, changed) ← s; if has_value kv.1 kv.2 v then Some (v, changed) else v ← put_key kv.1 kv.2 v; Some (v, true).
Definition apply_oidc (want : Oidc) (library_ids : list Z) (current : Value) : option (Value * bool) :=
  '(v, changed) ← foldl put_changed (Some (current, false)) (desired want library_ids);
  let stored := default "" (get_key "secret" v ≫= as_str) in
  if secret_matches stored (o_secret want) then v ← put_key "secret" (Str stored) v; Some (v, changed)
  else v ← put_key "secret" (Str (o_secret want)) v; Some (v, true).
(** [apply_oidc(&mut settings["oidcConfig"], ..)] *)
Definition apply_settings (want : Oidc) (library_ids : list Z) (settings : Value) : option (Value * bool) :=
  let place := settings.["oidcConfig"] in
  match settings with
  | Object m => '(v, changed) ← apply_oidc want library_ids place; Some (Object (insert_key "oidcConfig" v m), changed)
  | Null => '(v, changed) ← apply_oidc want library_ids Null; Some (Object [("oidcConfig", v)], changed)
  | _ => None
  end.
(** What Kavita shows of what it stores. *)
Definition stars (n : nat) : string := str (repeat "*"%char n).
Definition echoed (v : Value) : Value :=
  match v with Object m => Object (insert_key "secret" (Str (stars (String.length (default "" (get_key "secret" v ≫= as_str))))) m) | _ => v end.

(** The program's own tests. *)
Definition test_oidc : Oidc := mkOidc "https://kc/realms/default" "kavita" "s3cretvalue" "Keycloak".
Example kavita_tests :
  (metadata_provider 0, metadata_provider 1, metadata_provider 2) = (3, 2, 2)%Z ∧ sh_name <$> missing ["books"] LIBRARIES = ["Comics"; "Manga"] ∧
  (∃ v, apply_oidc test_oidc [1; 2]%Z (json_object [("authority", Str ""); ("secret", Str ""); ("rolesClaim", Str "role")]) = Some (v, true) ∧ v.["rolesClaim"] = Str "role" ∧
        apply_oidc test_oidc [1; 2]%Z (echoed v) = Some (echoed v, false) ∧ (echoed v).["secret"] = Str "***********" ∧
        snd <$> apply_oidc test_oidc [1; 2; 3]%Z (echoed v) = Some true ∧
        snd <$> apply_oidc (mkOidc "https://kc/realms/default" "kavita" "longer-secret-value" "Keycloak") [1; 2]%Z (echoed v) = Some true).
Proof. split; [done|]. split; [done|]. eexists. split; [vm_compute; reflexivity|]. vm_compute. done. Qed.

Section kavita.
Context `{SerdeJson, Libs} (env : string → option string) (from_pem : string → Result () string).
Implicit Types (base token : string).

Definition kv_base : string := no_slash (var env "KAVITA_URL" "http://kavita.media.svc.cluster.local:5000").
Definition kv_req (method path : string) : Req := plain method (kv_base +:+ path).
Definition kv_as token (method path : string) : Req := with_header (bearer token) (kv_req method path).
Definition list_libraries token : Job (list Library) :=
  r ← send (kv_as token "GET" "/api/Library/libraries"); r ← ok r "GET /api/Library/libraries";
  v ← json_body r; need (read_libraries v) "not a list of libraries".
Definition oidc_enabled : Job bool :=
  r ← send (kv_req "GET" "/api/Settings/oidc"); r ← ok r "GET /api/Settings/oidc"; public ← json_body r;
  mret (value_eqb (public.["enabled"]) (Bool true)).

(** ** The first admin *)

Definition admin_user : string := var env "ADMIN_USER" "admin".
Definition register_body (email password : string) : Value := json_object [("username", Str admin_user); ("email", Str email); ("password", Str password)].
Definition login_body (password : string) : Value := json_object [("username", Str admin_user); ("password", Str password)].
Definition admin_exists : Job bool :=
  r ← send (kv_req "GET" "/api/Admin/exists"); r ← ok r "GET /api/Admin/exists"; v ← json_body r; need (as_bool v) "invalid type, expected a boolean".
Definition ensure_admin (email password : string) : Job () :=
  there ← admin_exists;
  if (there : bool) then say "admin already exists, skipping registration"
  else
    _ ← say ("registering first admin " +:+ admin_user);
    r ← send (with_body (JsonBody (register_body email password)) (kv_req "POST" "/api/Account/register")); _ ← ok r "POST /api/Account/register"; mret ().
Definition login (password : string) : Job string :=
  r ← send (with_body (JsonBody (login_body password)) (kv_req "POST" "/api/Account/login")); r ← ok r "POST /api/Account/login (generated admin password)";
  v ← json_body r; need (read_user v) "missing field token".

(** ** Libraries *)

Definition library_body (s : Shelf) : Value :=
  json_object [("id", json_i64 0); ("name", Str (sh_name s)); ("type", json_i64 (sh_kind s)); ("folders", Array [Str (sh_folder s)]); ("folderWatching", Bool true);
    ("includeInDashboard", Bool true); ("includeInSearch", Bool true); ("manageCollections", Bool true); ("manageReadingLists", Bool true);
    ("allowScrobbling", Bool false); ("allowMetadataMatching", Bool true); ("enableMetadata", Bool true); ("metadataProvider", json_i64 (metadata_provider (sh_kind s)));
    ("removePrefixForSortName", Bool false); ("inheritWebLinksFromFirstChapter", Bool false); ("defaultLanguage", Str "");
    ("fileGroupTypes", Array (json_i64 <$> sh_groups s)); ("excludePatterns", Array [])].
Definition create_req token (s : Shelf) : Req := with_body (JsonBody (library_body s)) (kv_as token "POST" "/api/Library/create").
Definition create_library token (s : Shelf) : Job () :=
  _ ← say ("creating library " +:+ sh_name s +:+ " -> " +:+ sh_folder s);
  r ← send (create_req token s); _ ← ok r ("POST /api/Library/create (" +:+ sh_name s +:+ ")"); mret ().
Definition ensure_libraries token : Job (list Z) :=
  existing ← list_libraries token;
  let todo := missing (lb_name <$> existing) LIBRARIES in
  _ ← (if bool_decide (todo = []) then say "all libraries present" else mret ());
  _ ← for_each Ans todo (create_library token);
  now ← list_libraries token; mret (sort_z (lb_id <$> now)).

(** ** Settings, and the restart *)

Definition settings_req token (settings : Value) : Req := with_body (JsonBody settings) (kv_as token "POST" "/api/Settings").
Definition configure token (want : Oidc) (library_ids : list Z) : Job () :=
  r ← send (kv_as token "GET" "/api/Settings"); r ← ok r "GET /api/Settings"; settings ← json_body r;
  '(settings, changed) ← need (apply_settings want library_ids settings) "panicked";
  if (changed : bool) then
    _ ← say ("configuring oidc against " +:+ authority want);
    r ← send (settings_req token settings); _ ← ok r "POST /api/Settings (oidc)"; mret ()
  else say "oidc settings already in place".
Definition pods_url (host port : string) : string := "https://" +:+ host +:+ ":" +:+ port +:+ "/api/v1/namespaces/" +:+ var env "NAMESPACE" "media" +:+ "/pods".
Definition pods_req (api token selector : string) : Req := with_query [("labelSelector", selector)] (with_header (bearer token) (plain "GET" api)).
Definition pod_names (pods : Value) : list string := omap (λ p, as_str (p.["metadata"].["name"])) (array_of (pods.["items"])).
Definition delete_pod (api token name : string) : Req := with_header (bearer token) (plain "DELETE" (api +:+ "/" +:+ name)).
Definition restart_kavita (selector : string) : Job () :=
  host ← need (env "KUBERNETES_SERVICE_HOST") "environment variable not found";
  port ← need (env "KUBERNETES_SERVICE_PORT") "environment variable not found";
  let api := pods_url host port in
  token ← read_to_string (SA_DIR +:+ "/token");
  ca ← read_to_string (SA_DIR +:+ "/ca.crt");
  _ ← (match from_pem ca with Ok _ => mret () | Err e => fail e end : Job ());
  r ← send (pods_req api (trim token) selector); r ← ok r "list kavita pods"; pods ← json_body r;
  let names := pod_names pods in
  if bool_decide (names = []) then fail ("no pods match " +:+ selector)
  else
    for_each Ans names (λ name,
      _ ← say ("deleting pod " +:+ name +:+ " so kavita registers oidc at startup");
      r ← send (delete_pod api (trim token) name); _ ← ok r ("delete pod " +:+ name); mret ()).
Definition selector : string := var env "KAVITA_POD_SELECTOR" "app.kubernetes.io/name=kavita,app.kubernetes.io/instance=kavita".
Definition activate : Job () :=
  on ← oidc_enabled;
  if (on : bool) then say "oidc active"
  else
    _ ← restart_kavita selector;
    _ ← (do Ans (Sleep 10000000000) : Job ());
    _ ← retry "waiting for oidc after restart" 60 (on ← oidc_enabled; if (on : bool) then mret () else fail "oidc not enabled yet");
    say "oidc active after restart".
Definition read_want : Job Oidc :=
  authority ← need (env "OIDC_AUTHORITY") "set OIDC_AUTHORITY";
  client_id ← need (env "OIDC_CLIENT_ID") "set OIDC_CLIENT_ID";
  secret ← secret env "OIDC_CLIENT_SECRET";
  mret (mkOidc authority client_id secret (var env "OIDC_PROVIDER_NAME" "Keycloak")).
Definition run : Job () :=
  email ← need (env "ADMIN_EMAIL") "set ADMIN_EMAIL";
  password ← secret env "ADMIN_PASSWORD";
  want ← read_want;
  _ ← retry "waiting for kavita" 120 (r ← send (kv_req "GET" "/api/health"); _ ← ok r "GET /api/health"; mret ());
  _ ← ensure_admin email password;
  token ← login password;
  _ ← say "admin login ok";
  library_ids ← ensure_libraries token;
  _ ← configure token want library_ids;
  activate.
End kavita.

(** ** What setting up Kavita does

    The sign-on settings settle, whatever was there; and each request that changes something is due by what was answered. *)

(** ** The settings *)

Section oidc.
Context (want : Oidc).
Implicit Types (ids : list Z) (m : list (string * Value)).

Lemma json_i64_wf z : json_wf (json_i64 z) = true.
Proof. unfold json_i64. by destruct (z <? 0)%Z. Qed.
Lemma desired_wf ids kv : kv ∈ desired want ids → json_wf kv.2 = true.
Proof.
  unfold desired. rewrite !elem_of_cons, elem_of_nil. intros Hkv. destruct_or! Hkv; try done; subst kv; try done.
  cbn [snd json_wf]. apply forallb_forall. intros v Hv%list_elem_of_In. apply list_elem_of_fmap in Hv as (z & -> & _). apply json_i64_wf.
Qed.
Lemma desired_no_secret ids kv : kv ∈ desired want ids → kv.1 ≠ "secret".
Proof. unfold desired. rewrite !elem_of_cons, elem_of_nil. intros Hkv. destruct_or! Hkv; try done; by subst kv. Qed.
Lemma desired_nodup ids : NoDup (desired want ids).*1.
Proof. cbn. apply (bool_decide_unpack _). vm_compute. done. Qed.

(** What putting keys in place does. *)
Lemma put_changed_all (l : list (string * Value)) m changed : NoDup l.*1 → Forall (λ kv, json_wf kv.2 = true) l → ∃ m' changed',
  foldl put_changed (Some (Object m, changed)) l = Some (Object m', changed') ∧ (∀ kv, kv ∈ l → has_value kv.1 kv.2 (Object m') = true) ∧
  (∀ k, k ∉ l.*1 → assoc k m' = assoc k m) ∧ (changed' = false → m' = m ∧ changed = false).
Proof.
  revert m changed. induction l as [|[k x] l IH]; intros m changed Hnd Hwf.
  { exists m, changed. split_and!; [done|by intros ? ?%elem_of_nil|done|done]. }
  cbn [fmap list_fmap fst] in Hnd. apply NoDup_cons in Hnd as [Hk Hnd]. apply Forall_cons in Hwf as [Hx Hwf]. cbn [foldl put_changed mbind option_bind fst snd].
  assert (∃ m1 c1, (if has_value k x (Object m) then Some (Object m, changed) else v ← put_key k x (Object m); Some (v, true)) = Some (Object m1, c1) ∧
    has_value k x (Object m1) = true ∧ (∀ j, j ≠ k → assoc j m1 = assoc j m) ∧ (c1 = false → m1 = m ∧ changed = false)) as (m1 & c1 & -> & H1 & H2 & H3).
  { destruct (has_value k x (Object m)) eqn:E; [by exists m, changed|]. cbn [put_key mbind option_bind]. eexists _, true. split; [done|]. split_and!.
    - unfold has_value. cbn [get_key]. rewrite assoc_insert. by apply value_eqb_refl.
    - intros j Hj. by apply assoc_insert_ne.
    - done. }
  destruct (IH m1 c1 Hnd Hwf) as (m' & c' & -> & HA & HB & HC). exists m', c'. split_and!; [done| | |].
  - intros kv [->|Hin]%elem_of_cons; [|by apply HA]. cbn. unfold has_value in *. cbn [get_key] in *. by rewrite HB.
  - intros j Hj. cbn [fmap list_fmap fst] in Hj. apply not_elem_of_cons in Hj as [Hj1 Hj2]. rewrite HB, H2; done.
  - intros Hf. destruct (HC Hf) as [-> Hc]. by apply H3.
Qed.

(** What Kavita shows after a POST is what it was sent, with the secret starred. *)
Lemma echoed_secret m : (echoed (Object m)).["secret"] = Str (stars (String.length (default "" (get_key "secret" (Object m) ≫= as_str)))).
Proof. cbn. by rewrite assoc_insert. Qed.
Lemma stars_length n : String.length (stars n) = n.
Proof. unfold stars. by rewrite length_chars, chars_str, repeat_length. Qed.
Lemma stars_match n s : String.length s = n → secret_matches (stars n) s = true.
Proof.
  intros E. unfold secret_matches. rewrite stars_length, E, Nat.eqb_refl. unfold stars. rewrite chars_str. cbn. apply forallb_forall. intros c Hc%repeat_spec. subst c. done.
Qed.

(** Nothing is put where everything is there. *)
Lemma put_changed_none (l : list (string * Value)) m changed : (∀ kv, kv ∈ l → has_value kv.1 kv.2 (Object m) = true) →
  foldl put_changed (Some (Object m, changed)) l = Some (Object m, changed).
Proof.
  induction l as [|kv l IH]; intros Hl; [done|]. cbn [foldl put_changed mbind option_bind]. rewrite Hl by (by left). apply IH. intros kv' Hin. apply Hl. by right.
Qed.
Lemma has_value_other k j x y m : j ≠ k → has_value k x (Object (insert_key j y m)) = has_value k x (Object m).
Proof. intros Hj. unfold has_value. cbn [get_key]. by rewrite assoc_insert_ne. Qed.
End oidc.

Definition stored_secret (v : Value) : string := default "" (get_key "secret" v ≫= as_str).
(** The same settings but for a secret of the same length. *)
Definition rotated (w w' : Oidc) : Prop :=
  authority w' = authority w ∧ client_id w' = client_id w ∧ provider_name w' = provider_name w ∧ String.length (o_secret w') = String.length (o_secret w).

Lemma apply_oidc_spec want ids m : ∃ m' changed, apply_oidc want ids (Object m) = Some (Object m', changed) ∧
  (∀ kv, kv ∈ desired want ids → has_value kv.1 kv.2 (Object m') = true) ∧ (∀ k, k ∉ "secret" :: (desired want ids).*1 → assoc k m' = assoc k m) ∧
  (assoc "secret" m' = Some (Str (o_secret want)) ∧ changed = true ∨
   assoc "secret" m' = Some (Str (stored_secret (Object m))) ∧ secret_matches (stored_secret (Object m)) (o_secret want) = true).
Proof.
  destruct (put_changed_all (desired want ids) m false) as (m1 & c1 & E & HA & HB & HC); [apply desired_nodup|apply Forall_forall; apply desired_wf|].
  assert (assoc "secret" m1 = assoc "secret" m) as Hs. { apply HB. intros (kv & Ekv & Hin)%list_elem_of_fmap. by apply (desired_no_secret want ids kv). }
  assert (∀ s, ∀ kv, kv ∈ desired want ids → has_value kv.1 kv.2 (Object (insert_key "secret" (Str s) m1)) = true) as HA'.
  { intros s kv Hin. rewrite has_value_other; [by apply HA|]. apply not_eq_sym. by eapply desired_no_secret. }
  assert (∀ s k, k ∉ "secret" :: (desired want ids).*1 → assoc k (insert_key "secret" (Str s) m1) = assoc k m) as HB'.
  { intros s k [Hk1 Hk2]%not_elem_of_cons. rewrite assoc_insert_ne by done. by apply HB. }
  unfold apply_oidc. rewrite E. cbn [mbind option_bind put_key]. assert (get_key "secret" (Object m1) = get_key "secret" (Object m)) as -> by exact Hs.
  fold (stored_secret (Object m)). destruct (secret_matches _ _) eqn:Em; eexists _, _; (split_and!; [done|apply HA'|apply HB'|]); rewrite assoc_insert; [by right|by left].
Qed.
Lemma apply_oidc_echoed want want' ids m : rotated want want' → (∀ kv, kv ∈ desired want ids → has_value kv.1 kv.2 (Object m) = true) →
  String.length (stored_secret (Object m)) = String.length (o_secret want) → apply_oidc want' ids (echoed (Object m)) = Some (echoed (Object m), false).
Proof.
  intros (Ea & Ec & Ep & El) Hv Hl. unfold echoed. fold (stored_secret (Object m)). set (s := stars (String.length (stored_secret (Object m)))). unfold apply_oidc.
  assert (desired want' ids = desired want ids) as -> by (unfold desired; by rewrite Ea, Ec, Ep). rewrite put_changed_none.
  2: { intros kv Hin. rewrite has_value_other; [by apply Hv|]. apply not_eq_sym. by eapply desired_no_secret. }
  cbn [mbind option_bind]. cbn [get_key]. rewrite assoc_insert. change (default "" _) with s.
  unfold s at 1. rewrite stars_match by congruence. cbn [put_key mbind option_bind]. by rewrite insert_key_twice.
Qed.

(** Whatever the settings of single sign-on were, as an object, they come out with every value that is wanted and all the others
    as they were; their secret is the wanted one, or, unchanged, the mask of it. Applied to what Kavita shows of them, the secret
    starred, they do not change: a rerun posts nothing. *)
Theorem oidc_settles want ids m : ∃ m' changed, apply_oidc want ids (Object m) = Some (Object m', changed) ∧
  (∀ kv, kv ∈ desired want ids → has_value kv.1 kv.2 (Object m') = true) ∧ (∀ k, k ∉ "secret" :: (desired want ids).*1 → assoc k m' = assoc k m) ∧
  (stored_secret (Object m') = o_secret want ∨ stored_secret (Object m') = stored_secret (Object m) ∧ secret_matches (stored_secret (Object m)) (o_secret want) = true) ∧
  apply_oidc want ids (echoed (Object m')) = Some (echoed (Object m'), false).
Proof.
  destruct (apply_oidc_spec want ids m) as (m' & changed & E & HA & HB & HS). exists m', changed.
  assert (stored_secret (Object m') = o_secret want ∨ stored_secret (Object m') = stored_secret (Object m) ∧ secret_matches (stored_secret (Object m)) (o_secret want) = true) as HS'.
  { unfold stored_secret at 1 2. cbn [get_key]. destruct HS as [[-> _]|[-> Hm]]; [by left|by right]. }
  split_and!; [done..|]. apply (apply_oidc_echoed want); [by split_and!|done|]. destruct HS' as [->|[-> Hm]]; [done|].
  unfold secret_matches in Hm. apply andb_true_iff in Hm as [Hm _]. by apply Nat.eqb_eq.
Qed.
(** A secret replaced by one of the same length is not noticed: the mask is sent back. *)
Theorem rotation_unseen want want' ids m m' changed : rotated want want' → apply_oidc want ids (Object m) = Some (Object m', changed) →
  apply_oidc want' ids (echoed (Object m')) = Some (echoed (Object m'), false).
Proof.
  intros Hr E. destruct (apply_oidc_spec want ids m) as (m1 & c1 & E' & HA & _ & HS). rewrite E in E'. injection E' as <- <-. apply (apply_oidc_echoed want); [done..|].
  unfold stored_secret. cbn [get_key]. destruct HS as [[-> _]|[-> Hm]]; [done|]. cbn. unfold secret_matches in Hm. apply andb_true_iff in Hm as [Hm _]. by apply Nat.eqb_eq.
Qed.
Lemma rotation_unseen_witness : let new := mkOidc "https://kc/realms/default" "kavita" "r0tatedvalu" "Keycloak" in
  ∃ m', rotated test_oidc new ∧ o_secret new ≠ o_secret test_oidc ∧ apply_oidc new [1%Z] (echoed (Object m')) = Some (echoed (Object m'), false).
Proof.
  eexists. split; [by split_and!|]. split; [done|]. eapply (rotation_unseen test_oidc _ [1%Z] [] _ true); [by split_and!|vm_compute; reflexivity].
Defined.

(** ** The run *)

Section run.
Context `{SerdeJson, Libs} (env : string → option string) (from_pem : string → Result () string).
Implicit Types (l : Log) (token : string).
Notation get_as token path := (kv_as env token "GET" path).

Definition login_req (password : string) : Req := with_body (JsonBody (login_body env password)) (kv_req env "POST" "/api/Account/login").
Definition register_req (email password : string) : Req := with_body (JsonBody (register_body env email password)) (kv_req env "POST" "/api/Account/register").
Definition granted l token : Prop := ∃ password v, answered l (login_req password) v ∧ read_user v = Some token.
Definition listed l token (libs : list Library) : Prop := ∃ v, answered l (get_as token "/api/Library/libraries") v ∧ read_libraries v = Some libs.
Definition told_enabled l (on : bool) : Prop := ∃ v, answered l (kv_req env "GET" "/api/Settings/oidc") v ∧ value_eqb (v.["enabled"]) (Bool true) = on.
Definition wanted (want : Oidc) : Prop :=
  env "OIDC_AUTHORITY" = Some (authority want) ∧ env "OIDC_CLIENT_ID" = Some (client_id want) ∧ provider_name want = var env "OIDC_PROVIDER_NAME" "Keycloak".
(** The settings to post: those that were shown, with single sign-on as it is wanted for the libraries that were listed. *)
Definition plan l token (want : Oidc) (settings : Value) (changed : bool) : Prop := ∃ libs shown, wanted want ∧ listed l token libs ∧
  answered l (get_as token "/api/Settings") shown ∧ apply_settings want (sort_z (lb_id <$> libs)) shown = Some (settings, changed).
Inductive due l : Act → Prop :=
  | d_register email password : answered l (kv_req env "GET" "/api/Admin/exists") (Bool false) → env "ADMIN_EMAIL" = Some email → due l (Http (register_req email password))
  | d_login password : due l (Http (login_req password))
  | d_library token libs s : granted l token → listed l token libs → s ∈ missing (lb_name <$> libs) LIBRARIES → due l (Http (create_req env token s))
  | d_settings token want settings : granted l token → plan l token want settings true → due l (Http (settings_req env token settings))
  | d_pod api token pods name : told_enabled l false → answered l (pods_req api token (selector env)) pods → name ∈ pod_names pods → due l (Http (delete_pod api token name)).
Definition quiet (x : Act) : Prop := match x with Http rq => rq_method rq = "GET" | ReadFile _ | Sleep _ => True | _ => False end.
Definition allowed l (x : Act) : Prop := quiet x ∨ due l x.
(** Every library was there or has been created, the settings were in place or have been accepted, and single sign-on is on. *)
Definition set_up l : Prop := (∃ token libs, listed l token libs ∧ ∀ s, s ∈ missing (lb_name <$> libs) LIBRARIES → accepted l (create_req env token s)) ∧
  (∃ token want settings changed, plan l token want settings changed ∧ (changed = false ∨ accepted l (settings_req env token settings))) ∧ told_enabled l true.

Lemma granted_later l l' token : l `prefix_of` l' → granted l token → granted l' token.
Proof. intros Hl (p & v & Hv & E). exists p, v. split; [by eapply answered_later|done]. Qed.
Lemma kv_listed_later l l' token libs : l `prefix_of` l' → listed l token libs → listed l' token libs.
Proof. intros Hl (v & Hv & E). exists v. split; [by eapply answered_later|done]. Qed.
Lemma told_later l l' on : l `prefix_of` l' → told_enabled l on → told_enabled l' on.
Proof. intros Hl (v & Hv & E). exists v. split; [by eapply answered_later|done]. Qed.
Lemma kv_plan_later l l' token want settings changed : l `prefix_of` l' → plan l token want settings changed → plan l' token want settings changed.
Proof. intros Hl (libs & shown & Hw & Hn & Hs & E). exists libs, shown. split_and!; [done|by eapply kv_listed_later|by eapply answered_later|done]. Qed.

Notation okay := (Trace.okay Ans allowed (St := list string) (Fa := string)).
Lemma admin_exists_ok l : okay (admin_exists env) (λ there l', answered l' (kv_req env "GET" "/api/Admin/exists") (Bool there)) l.
Proof.
  unfold admin_exists. eapply okay_then; [apply request_ok; by left|]. intros r l1 _ ->. eapply okay_then; [apply ok_ok|]. intros r' l2 _ (-> & -> & Hs).
  eapply okay_then; [apply json_body_ok|]. intros v l3 _ (-> & Ht). eapply okay_mono; [apply need_ok|]. intros b l4 _ [E ->]. destruct v; try done. injection E as ->.
  exists r. split; [apply elem_of_app; right; by left|done].
Qed.
Lemma ensure_admin_ok email password l : env "ADMIN_EMAIL" = Some email → okay (ensure_admin env email password) (λ _ _, True) l.
Proof.
  intros He. unfold ensure_admin. eapply okay_then; [apply admin_exists_ok|]. intros [] l1 _ Ha; [by apply say_ok|].
  eapply okay_then; [by apply (say_ok _ _ (λ _ l', l' = l1))|]. intros ? l2 _ ->. eapply okay_mono; [apply commanded_ok; right; by apply d_register|done].
Qed.
Lemma kv_login_ok password l : okay (login env password) (λ token l', granted l' token) l.
Proof.
  unfold login. eapply okay_then; [apply request_ok; right; apply d_login|]. intros r l1 _ ->. eapply okay_then; [apply ok_ok|]. intros r' l2 _ (-> & -> & Hs).
  eapply okay_then; [apply json_body_ok|]. intros v l3 _ (-> & Ht). eapply okay_mono; [apply need_ok|]. intros token l4 _ [E ->].
  exists password, v. split; [|done]. exists r. split; [apply elem_of_app; right; by left|done].
Qed.
Lemma list_libraries_ok token l : okay (list_libraries env token) (λ libs l', listed l' token libs) l.
Proof.
  unfold list_libraries. eapply okay_then; [apply request_ok; by left|]. intros r l1 _ ->. eapply okay_then; [apply ok_ok|]. intros r' l2 _ (-> & -> & Hs).
  eapply okay_then; [apply json_body_ok|]. intros v l3 _ (-> & Ht). eapply okay_mono; [apply need_ok|]. intros libs l4 _ [E ->].
  exists v. split; [|done]. exists r. split; [apply elem_of_app; right; by left|done].
Qed.
Lemma oidc_enabled_ok l : okay (oidc_enabled env) (λ on l', told_enabled l' on) l.
Proof.
  unfold oidc_enabled. eapply okay_then; [apply request_ok; by left|]. intros r l1 _ ->. eapply okay_then; [apply ok_ok|]. intros r' l2 _ (-> & -> & Hs).
  eapply okay_then; [apply json_body_ok|]. intros v l3 _ (-> & Ht). apply okay_ret. exists v. split; [|done]. exists r. split; [apply elem_of_app; right; by left|done].
Qed.
Lemma ensure_libraries_ok token l : granted l token → okay (ensure_libraries env token) (λ ids l', (∃ now, listed l' token now ∧ ids = sort_z (lb_id <$> now)) ∧
  ∃ libs, listed l' token libs ∧ ∀ s, s ∈ missing (lb_name <$> libs) LIBRARIES → accepted l' (create_req env token s)) l.
Proof.
  intros Hg. unfold ensure_libraries. eapply okay_then; [apply list_libraries_ok|]. intros libs l1 Hl1 Hn. cbn beta in Hn. cbv zeta. eapply okay_then.
  { instantiate (1 := λ _ _, True). case_bool_decide; [by apply say_ok|by apply okay_ret]. }
  intros ? l2 Hl2 _. eapply okay_then.
  { apply (for_each_all allowed _ (λ s l', accepted l' (create_req env token s))); [intros s l0 l'; apply accepted_later|]. intros s l' Hin Hl'. unfold create_library.
    eapply okay_then; [by apply (say_ok _ _ (λ _ l', l2 `prefix_of` l'))|]. intros ? l3 Hl3 Hl23. apply commanded_ok. right. eapply d_library; [|eapply kv_listed_later; [|exact Hn]|exact Hin].
    - eapply granted_later; [|exact Hg]. etrans; [exact Hl1|]. etrans; [exact Hl2|exact Hl23].
    - etrans; [exact Hl2|exact Hl23]. }
  intros ? l3 Hl3 Hall. cbn beta in Hall. eapply okay_then; [apply list_libraries_ok|]. intros now l4 Hl4 Hnow. cbn beta in Hnow. apply okay_ret. split; [by exists now|].
  exists libs. split; [eapply kv_listed_later; [|exact Hn]; etrans; [exact Hl2|]; etrans; [exact Hl3|exact Hl4]|]. intros s Hs. eapply accepted_later; [exact Hl4|].
  rewrite Forall_forall in Hall. by apply Hall.
Qed.
Lemma configure_ok token want libs l : granted l token → wanted want → listed l token libs →
  okay (configure env token want (sort_z (lb_id <$> libs)))
    (λ _ l', ∃ settings changed, plan l' token want settings changed ∧ (changed = false ∨ accepted l' (settings_req env token settings))) l.
Proof.
  intros Hg Hw Hn. unfold configure. eapply okay_then; [apply request_ok; by left|]. intros r l1 Hl1 El1. eapply okay_then; [apply ok_ok|]. intros r' l2 _ (-> & -> & Hs).
  eapply okay_then; [apply json_body_ok|]. intros shown l3 _ (-> & Ht).
  assert (answered l1 (get_as token "/api/Settings") shown) as Ha. { rewrite El1. exists r. split; [apply elem_of_app; right; by left|done]. }
  eapply okay_then; [apply need_ok|]. intros [settings changed] l4 _ [E ->].
  assert (plan l1 token want settings changed) as Hp by (exists libs, shown; split_and!; [done|by eapply kv_listed_later|done|done]). cbn match beta. destruct changed.
  - eapply okay_then; [by apply (say_ok _ _ (λ _ l', l' = l1))|]. intros ? l5 _ ->. eapply okay_mono.
    + apply commanded_ok. right. eapply d_settings; [eapply granted_later; [exact Hl1|exact Hg]|exact Hp].
    + intros ? l6 Hl6 Hacc. exists settings, true. split; [by eapply kv_plan_later|by right].
  - apply say_ok. exists settings, false. split; [done|by left].
Qed.
Lemma kv_restart_ok l : told_enabled l false → okay (restart_kavita env from_pem (selector env)) (λ _ _, True) l.
Proof.
  intros Hoff. unfold restart_kavita. eapply okay_then; [apply need_ok|]. intros host ? _ [_ ->]. eapply okay_then; [apply need_ok|]. intros port ? _ [_ ->]. cbv zeta.
  eapply okay_then; [apply read_file_okay; by left|]. intros tok l1 Hl1 _. eapply okay_then; [apply read_file_okay; by left|]. intros ca l2 Hl2 _. eapply okay_then.
  { instantiate (1 := λ _ _, True). destruct (from_pem ca); [by apply okay_ret|apply okay_raise]. }
  intros ? l3 Hl3 _. eapply okay_then; [apply request_ok; by left|]. intros r l4 Hl4 El4. eapply okay_then; [apply ok_ok|]. intros r' ? _ (-> & -> & Hs).
  eapply okay_then; [apply json_body_ok|]. intros pods ? _ (-> & Ht).
  assert (answered l4 (pods_req (pods_url env host port) (trim tok) (selector env)) pods) as Ha. { rewrite El4. exists r. split; [apply elem_of_app; right; by left|done]. }
  case_bool_decide; [apply okay_raise|]. apply okay_for_each; [|done]. intros name l' Hin Hl'.
  eapply okay_then; [by apply (say_ok _ _ (λ _ l'', l'' = l'))|]. intros ? ? _ ->. eapply okay_mono; [|done]. apply commanded_ok. right. eapply d_pod; [|eapply answered_later; [exact Hl'|exact Ha]|exact Hin].
  eapply told_later; [|exact Hoff]. do 4 (etrans; [eassumption|]). done.
Qed.
Lemma activate_ok l : okay (activate env from_pem) (λ _ l', told_enabled l' true) l.
Proof.
  unfold activate. eapply okay_then; [apply oidc_enabled_ok|]. intros [] l1 _ Hon; cbn beta in Hon; [by apply say_ok|].
  eapply okay_then; [by apply kv_restart_ok|]. intros ? l2 _ _. eapply okay_then.
  { refine (okay_do Ans allowed (Sleep _) (λ _ _, True) _ _ _); [by left|done]. }
  intros ? l3 _ _. eapply okay_then.
  { apply (retry_ok allowed _ _ _ (λ _ l', told_enabled l' true)); [intros; by left|]. intros l' _. eapply okay_then; [apply oidc_enabled_ok|].
    intros [] l4 _ H4; cbn beta in H4; [by apply okay_ret|apply okay_raise]. }
  intros ? l4 _ Hon'. by apply say_ok.
Qed.
Lemma read_want_ok l : okay (read_want env) (λ want _, wanted want) l.
Proof.
  unfold read_want. eapply okay_then; [apply need_ok|]. intros a ? _ [Ea ->]. eapply okay_then; [apply need_ok|]. intros c ? _ [Ec ->].
  eapply okay_then; [apply secret_okay; intros; by left|]. intros s l1 _ _. by apply okay_ret.
Qed.
Lemma kavita_run_ok l : okay (run env from_pem) (λ _ l', set_up l') l.
Proof.
  unfold run. eapply okay_then; [apply need_ok|]. intros email ? _ [He ->]. eapply okay_then; [apply secret_okay; intros; by left|]. intros password l1 _ _.
  eapply okay_then; [apply read_want_ok|]. intros want l2 _ Hw. cbn beta in Hw. eapply okay_then.
  { apply (retry_ok allowed _ _ _ (λ _ _, True)); [intros; by left|]. intros l' _. eapply okay_mono; [apply commanded_ok; by left|done]. }
  intros ? l3 _ _. eapply okay_then; [by apply ensure_admin_ok|]. intros ? l4 _ _. eapply okay_then; [apply kv_login_ok|]. intros token l5 _ Hg. cbn beta in Hg.
  eapply okay_then; [by apply (say_ok _ _ (λ _ l', l' = l5))|]. intros ? l6 _ ->. eapply okay_then; [by apply ensure_libraries_ok|].
  intros ids l7 Hl7 [(now & Hnow & ->) (libs & Hlibs & Hall)]. eapply okay_then; [apply configure_ok; [eapply granted_later; [exact Hl7|exact Hg]|done|done]|].
  intros ? l8 Hl8 (settings & changed & Hp & Hacc). eapply okay_mono; [apply activate_ok|]. intros ? l9 Hl9 Hon. split_and!; [| |done].
  - exists token, libs. split; [eapply kv_listed_later; [|exact Hlibs]; etrans; [exact Hl8|exact Hl9]|]. intros s Hs. eapply accepted_later; [|by apply Hall]. etrans; [exact Hl8|exact Hl9].
  - exists token, want, settings, changed. split; [eapply kv_plan_later; [exact Hl9|exact Hp]|]. destruct Hacc as [?|Hacc]; [by left|right]. eapply accepted_later; [exact Hl9|exact Hacc].
Qed.

(** Whatever Kavita and the Kubernetes API answer, a run registers an admin only where it was told there is none, creates only the
    libraries the listing lacks, posts only settings made of those that were shown, and deletes only pods the listing names once it
    was told that single sign-on is off; all else looks, waits or signs in. A run that ends well leaves every library there, the
    settings in place or accepted, and was told that single sign-on is on. *)
Theorem kavita_due outside out l : ∃ k, (exec Ans outside (run env from_pem out) l).1 = l ++ k ∧
  (∀ k1 e k2, k = k1 ++ e :: k2 → quiet (e_act e) ∨ due (l ++ k1) (e_act e)) ∧
  ∀ out', (exec Ans outside (run env from_pem out) l).2 = Ok (out', Ok ()) → set_up (l ++ k).
Proof.
  destruct (exec_holds Ans allowed outside _ _ _ (kavita_run_ok l out)) as [HQ (k & Ek & Hk)]. exists k. split; [exact Ek|]. split; [exact Hk|].
  intros out' E. rewrite E in HQ. rewrite <- Ek. by destruct HQ.
Qed.
End run.
