(* ===== verification/Media.v ===== *)
(** * Apps that read Jellyfin ([apps/app-bootstrap/src/{jellyfin,tracearr,streamystats}.rs])

    The API keys Jellyfin keeps for other apps, Tracearr with its owner, and Streamystats. *)

From Stdlib Require Import Ascii.
From stdpp Require Import options.
From S2P Require Import Prelude Text Json Codec Threads Trace Markers Apps Bootstrap Servarr Keycloak Ombi.

(** The URL of an item, without its slashes at the end, is [url]'s. *)
Definition same_url (url : string) (s : Value) : bool := match as_str (s.["url"]) with Some u => String.eqb (no_slash u) (no_slash url) | None => false end.

(** ** API keys of Jellyfin *)

Module Keys.
Section keys.
Context `{SerdeJson, Libs} (env : string → option string).
Implicit Types (token app : string).

Definition base : string := no_slash (var env "JELLYFIN_URL" "http://jellyfin.media.svc.cluster.local:8096").
Definition quoted (s : string) : string := quote +:+ s +:+ quote.
Definition VERSION : string := "0.50.0".
Definition header (token : option string) : string :=
  "MediaBrowser Client=" +:+ quoted "app-bootstrap" +:+ ", Device=" +:+ quoted "bootstrap-job" +:+ ", DeviceId=" +:+ quoted "app-bootstrap-job" +:+
  ", Version=" +:+ quoted VERSION +:+ match token with Some t => ", Token=" +:+ quoted t | None => "" end.
Definition req (token : option string) (method path : string) : Req := with_header ("x-emby-authorization", header token) (plain method (base +:+ path)).
Definition login_req (password : string) : Req :=
  with_body (JsonBody (json_object [("Username", Str (var env "JELLYFIN_ADMIN_USER" "admin")); ("Pw", Str password)])) (req None "POST" "/Users/AuthenticateByName").
Definition admin_token : Job string :=
  password ← secret env "JELLYFIN_ADMIN_PASSWORD";
  r ← send (login_req password); r ← ok r "POST /Users/AuthenticateByName (is jellyfin initialised, with the jellyfin-admin password?)";
  v ← json_body r; need (as_str (v.["AccessToken"])) "jellyfin sign-in returned no access token".
Definition key_named (keys : Value) app : option string :=
  items ← as_array (keys.["Items"]); k ← List.find (λ k, is_text (k.["AppName"]) app) items; as_str (k.["AccessToken"]).
Definition list_req token : Req := req (Some token) "GET" "/Auth/Keys".
Definition list_keys token : Job Value := r ← send (list_req token); r ← ok r "GET /Auth/Keys"; json_body r.
Definition create_req token app : Req := with_query [("app", app)] (req (Some token) "POST" "/Auth/Keys").
Definition ensure_api_key app : Job string :=
  token ← retry "signing in to jellyfin" 60 admin_token;
  keys ← list_keys token;
  match key_named keys app with
  | Some key => mret key
  | None =>
      r ← send (create_req token app); _ ← ok r "POST /Auth/Keys";
      _ ← say ("jellyfin: created the " +:+ app +:+ " API key");
      keys ← list_keys token; need (key_named keys app) ("jellyfin: the " +:+ app +:+ " API key is not listed after creating it")
  end.
End keys.
End Keys.

(** ** Tracearr *)

Module Tracearr.
Definition KEY_NAME : string := "Tracearr".
Definition cookie_header (r : Resp) : string := join "; " (before_semicolon <$> cookies r).
Definition servers_of (listing : Value) : list Value :=
  default [] (match as_array (listing.["data"]) with Some l => Some l | None => as_array listing end).
Definition token_of (v : Value) : option string := filled (v.["token"]).
Definition daily : Value :=
  json_object [("type", Str "daily"); ("time", Str "03:15"); ("dayOfWeek", json_i64 0); ("dayOfMonth", json_i64 1); ("retentionCount", json_i64 7)].
Section tracearr.
Context `{SerdeJson, Libs} (env : string → option string).
Implicit Types (base path : string).
Record Api : Type := mkApi { t_base : string; t_cookie : string }.
Definition req (a : Api) (method path : string) : Req :=
  with_header ("cookie", t_cookie a) (with_header ("origin", t_base a) (plain method (t_base a +:+ path))).
Definition get_req (a : Api) path : Req := req a "GET" path.
Definition body_req (a : Api) (method path : string) (body : Value) : Req := with_body (JsonBody body) (req a method path).
Definition get (a : Api) path : Job Value := r ← send (get_req a path); r ← ok r ("GET " +:+ path); json_body r.
Definition command (rq : Req) (what : string) : Job () := r ← send rq; _ ← ok r what; mret ().
Definition sign_req base path (body : Value) : Req := with_body (JsonBody body) (with_header ("origin", base) (plain "POST" (base +:+ path))).
Definition sign base path (body : Value) (what : string) : Job Api := r ← send (sign_req base path body); r ← ok r what; mret (mkApi base (cookie_header r)).
Definition owner_body (username password : string) : Value := json_object [("username", Str username); ("password", Str password)].
Definition SIGN_IN : string := "/api/v1/auth/sign-in/username".
Definition regenerate (a : Api) : Req := body_req a "POST" "/api/v1/settings/api-key/regenerate" (Object []).
(** A token that is there is never made again. *)
Definition public_api_token base (username password : string) : Job string :=
  a ← sign base SIGN_IN (owner_body username password) ("POST " +:+ SIGN_IN +:+ " (the Tracearr owner " +:+ username +:+ " with the tracearr-admin password?)");
  v ← get a "/api/v1/settings/api-key";
  match token_of v with
  | Some token => mret token
  | None =>
      r ← send (regenerate a); r ← ok r "POST /api/v1/settings/api-key/regenerate"; made ← json_body r;
      _ ← say "tracearr: generated the owner's public API token";
      need (token_of made) "tracearr returned no API token"
  end.

Definition tr_base : string := no_slash (var env "TRACEARR_URL" "http://tracearr.media.svc.cluster.local:3000").
Definition sign_up_body (username email password : string) (code : option string) : Value :=
  let body := json_object [("name", Str username); ("username", Str username); ("email", Str email); ("password", Str password)] in
  match code with Some code => set_key "claimCode" (Str code) body | None => body end.
(** The first owner signs up, a known one in. *)
Definition enter (status : Value) (email password : string) : Job Api :=
  let username := var env "ADMIN_USER" "tristan" in
  '(path, body) ← (if value_eqb (status.["needsSetup"]) (Bool true) then
                     _ ← say ("tracearr: creating the owner " +:+ username);
                     code ← optional_secret env "CLAIM_CODE";
                     mret ("/api/v1/auth/sign-up/email", sign_up_body username email password code)
                   else mret (SIGN_IN, owner_body username password) : Job (string * Value));
  sign tr_base path body ("POST " +:+ path +:+ " (an owner that is not " +:+ username +:+ " with the tracearr-admin password?)").
Definition jellyfin_server (listing : Value) : option Value :=
  List.find (λ s, match as_str (s.["url"]) with Some u => String.eqb (no_slash u) (Keys.base env) | None => false end) (servers_of listing).
Definition connect_body (key public : string) : Value :=
  json_object [("serverUrl", Str (Keys.base env)); ("serverName", Str "Jellyfin"); ("apiKey", Str key); ("publicUrl", Str public)].
Definition connect (a : Api) (public : string) : Job (option Value) :=
  listing ← get a "/api/v1/servers";
  match jellyfin_server listing with
  | Some s => mret (Some s)
  | None =>
      key ← Keys.ensure_api_key env KEY_NAME;
      _ ← command (body_req a "POST" "/api/v1/auth/jellyfin/connect-api-key" (connect_body key public)) "POST connect-api-key";
      _ ← say "tracearr: connected to jellyfin";
      listing ← get a "/api/v1/servers"; mret (jellyfin_server listing)
  end.
Definition allow_members (a : Api) (server : Value) : Job () :=
  id ← need (as_str (server.["id"])) "the jellyfin server has no id";
  if value_eqb (server.["allowMemberLogin"]) (Bool true) then mret ()
  else
    _ ← command (body_req a "PATCH" ("/api/v1/servers/" +:+ id) (json_object [("allowMemberLogin", Bool true)])) "PATCH server";
    say "tracearr: jellyfin users may sign in".
Definition settings_patch (settings : Value) : list (string * Value) :=
  let external := var env "TRACEARR_EXTERNAL_URL" "" in
  (if value_eqb (settings.["loginMethods"].["member"]) (Bool true) then [] else [("loginMethods", json_object [("member", Bool true)])]) ++
  (if bool_decide (external = "") || is_text (settings.["externalUrl"]) external then [] else [("externalUrl", Str external)]).
Definition patch_settings (a : Api) : Job () :=
  settings ← get a "/api/v1/settings";
  let patch := settings_patch settings in
  if bool_decide (patch = []) then mret ()
  else _ ← command (body_req a "PATCH" "/api/v1/settings" (json_object patch)) "PATCH settings"; say "tracearr: settings updated".
Definition schedule_backup (a : Api) : Job () :=
  schedule ← get a "/api/v1/backup/schedule";
  if String.eqb (default "disabled" (as_str (schedule.["type"]))) "disabled" then
    _ ← command (body_req a "PUT" "/api/v1/backup/schedule" daily) "PUT backup schedule"; say "tracearr: daily backup at 03:15"
  else mret ().
Definition run : Job () :=
  email ← need (env "ADMIN_EMAIL") "set ADMIN_EMAIL";
  password ← secret env "ADMIN_PASSWORD";
  status ← retry "waiting for tracearr" 120 (r ← send (plain "GET" (tr_base +:+ "/api/v1/setup/status")); r ← ok r "GET /api/v1/setup/status"; json_body r);
  a ← enter status email password;
  public ← need (env "JELLYFIN_PUBLIC_URL") "set JELLYFIN_PUBLIC_URL";
  server ← connect a public;
  server ← need server "tracearr does not list the jellyfin server after connecting it";
  _ ← allow_members a server;
  _ ← patch_settings a;
  schedule_backup a.
End tracearr.
End Tracearr.

(** ** Streamystats *)

Module Streamystats.
Definition has_server (listing : Value) (url : string) : bool := existsb (same_url url) (array_of (listing.["servers"])).
Section streamystats.
Context `{SerdeJson, Libs} (env : string → option string).
Definition job : string := no_slash (var env "STREAMYSTATS_JOB_URL" "http://streamystats-job-server.media.svc.cluster.local:3005").
Definition list_req : Req := plain "GET" (job +:+ "/api/jobs/servers").
Definition create_req (public key : string) : Req :=
  with_body (JsonBody (json_object [("name", Str "Jellyfin"); ("url", Str public); ("internalUrl", Str (Keys.base env)); ("apiKey", Str key)]))
    (plain "POST" (job +:+ "/api/jobs/create-server")).
Definition run : Job () :=
  public ← need (env "JELLYFIN_PUBLIC_URL") "set JELLYFIN_PUBLIC_URL";
  listing ← retry "waiting for the streamystats job server" 120 (r ← send list_req; r ← ok r "GET /api/jobs/servers"; json_body r);
  if has_server listing public then mret ()
  else
    key ← Keys.ensure_api_key env "Streamystats";
    r ← send (create_req public key); _ ← ok r "POST /api/jobs/create-server";
    say ("streamystats: connected to jellyfin (" +:+ public +:+ ")").
End streamystats.
End Streamystats.

(** The programs' own tests. *)
Example media_tests :
  let keys := Object [("Items", Array [Object [("AccessToken", Str "a"); ("AppName", Str "Maintainerr")]; Object [("AccessToken", Str "b"); ("AppName", Str "Tracearr")]])] in
  Keys.key_named keys "Tracearr" = Some "b" ∧ Keys.key_named keys "Streamystats" = None ∧ Keys.key_named (Object []) "Tracearr" = None ∧
  contains "Token" (Keys.header None) = false ∧ ends_with ("Token=" +:+ quote +:+ "t" +:+ quote) (Keys.header (Some "t")) = true ∧
  Tracearr.cookie_header (mkResp 200 [("set-cookie", "a=1; Path=/; HttpOnly"); ("set-cookie", "b=2; Path=/")] (Ok "")) = "a=1; b=2" ∧
  Tracearr.cookie_header (mkResp 200 [] (Ok "")) = "" ∧
  Tracearr.token_of (Object [("token", Str "trr_pub_x")]) = Some "trr_pub_x" ∧ Tracearr.token_of (Object [("token", Null)]) = None ∧ Tracearr.token_of (Object [("token", Str "")]) = None ∧
  length (Tracearr.servers_of (Object [("data", Array [Object []])])) = 1 ∧ length (Tracearr.servers_of (Array [Object []; Object []])) = 2 ∧ Tracearr.servers_of (Object []) = [] ∧
  (let l := Object [("servers", Array [Object [("url", Str "https://jellyfin.example.com/")]])] in
   Streamystats.has_server l "https://jellyfin.example.com" = true ∧ Streamystats.has_server l "https://other.example" = false ∧ Streamystats.has_server (Object []) "x" = false).
Proof. vm_compute. done. Qed.
