(* ===== verification/Maintainerr.v ===== *)
(** * Setting up Maintainerr ([apps/app-bootstrap/src/maintainerr.rs])

    The connections, the download client, the notification and two disabled example rules: each added only where there is
    none. *)

From Stdlib Require Import Ascii.
From stdpp Require Import options.
From S2P Require Import Prelude Text F64 Json Codec Threads Markers Trace Apps Bootstrap Servarr Keycloak Ombi Media.

Definition has_url (existing : Value) (url : string) : bool := existsb (same_url url) (array_of existing).
(** A URL that is there and not empty. *)
Definition no_url (v : Value) : bool := negb (bool_decide (is_Some (filled (v.["url"])))).
Definition NOTIFY_TYPES : list Z := [2; 4; 8; 16; 32; 64; 1024]%Z.
Definition EXAMPLE_AGE : string := "63072000".
Definition json_opt (x : option Z) : Value := match x with Some z => json_i64 z | None => Null end.
Definition json_f64 (x : f64) : Value := if f64_finite x then Number (Float x) else Null.

(** ** The example rules *)

Definition rule (operator : Value) (action field kind : Z) (value : string) : Value :=
  json_object [("operator", operator); ("action", json_i64 action); ("firstVal", Array [json_i64 6; json_i64 field]);
    ("customVal", json_object [("ruleTypeId", json_i64 kind); ("value", Str value)]); ("section", json_i64 0)].
(** Added before two years ago, and never viewed. *)
Definition rules (views : Z) : Value := Array [rule Null 5 0 0 EXAMPLE_AGE; rule (json_i64 0) 2 views 0 "0"].
Definition common (name description library kind : string) (views : Z) : Value :=
  json_object [("name", Str name); ("description", Str description); ("libraryId", Str library); ("dataType", Str kind); ("isActive", Bool false); ("useRules", Bool true);
    ("arrAction", json_i64 3); ("listExclusions", Bool false); ("forceSeerr", Bool false); ("forceOmbi", Bool false);
    ("collection", json_object [("deleteAfterDays", json_i64 30); ("visibleOnHome", Bool false); ("visibleOnRecommended", Bool false); ("manualCollection", Bool false)]);
    ("rules", rules views)].
Definition example_note (app : string) : string :=
  "Added more than 2 years ago and never watched. Disabled example: nothing runs until it is switched on. Action: unmonitor in " +:+ app +:+
  ", keep the files; items wait 30 days in the collection first.".
Definition example_groups (movies shows : string) (radarr sonarr : option Z) : list Value :=
  [set_key "radarrSettingsId" (json_opt radarr) (common "Example: movies nobody has watched in two years" (example_note "Radarr") movies "movie" 5);
   set_key "sonarrSettingsId" (json_opt sonarr) (common "Example: shows nobody has watched in two years" (example_note "Sonarr") shows "show" 17)].
Definition library_of (libs : Value) (kind : string) : option string := l ← List.find (λ l, value_is_str (l.["type"]) kind) (array_of libs); as_str (l.["id"]).
Definition first_server (l : Value) : option Z := a ← as_array l; s ← head a; value_as_i64 (s.["id"]).
Definition group_named (all name : Value) : option Value := List.find (λ g, value_eqb (g.["name"]) name) (array_of all).
Definition is_connected (group : Value) (notification : option Z) : bool :=
  existsb (λ n, bool_decide (value_as_i64 (n.["id"]) = notification)) (array_of (group.["notifications"])).
Definition notification_named (all : Value) (name : string) : option Z :=
  n ← List.find (λ n, value_is_str (n.["name"]) name) (array_of all); value_as_i64 (n.["id"]).

(** The program's own tests. *)
Example maintainerr_tests :
  Forall (λ g, g.["isActive"] = Bool false ∧ g.["arrAction"] = json_i64 3 ∧ g.["forceSeerr"] = Bool false ∧ g.["forceOmbi"] = Bool false ∧ length (array_of (g.["rules"])) = 2)
    (example_groups "m" "s" (Some 1%Z) (Some 2%Z)) ∧
  (let l := Array [Object [("id", json_i64 1); ("url", Str "http://radarr.media.svc.cluster.local/")]] in
   has_url l "http://radarr.media.svc.cluster.local" = true ∧ has_url l "http://sonarr.media.svc.cluster.local" = false ∧ has_url (Array []) "http://x" = false).
Proof. split; [repeat constructor|vm_compute; done]. Qed.

Section maintainerr.
Context `{SerdeJson, Libs} (env : string → option string).
Implicit Types (path kind : string).

Definition mt_base : string := no_slash (var env "MAINTAINERR_URL" "http://maintainerr.media.svc.cluster.local:6246").
Definition mt_req (method path : string) : Req := plain method (mt_base +:+ path).
Definition get path : Job Value := r ← send (mt_req "GET" path); r ← ok r ("GET " +:+ path); json_body r.
Definition post_req path (body : Value) : Req := with_body (JsonBody body) (mt_req "POST" path).
Definition post path (body : Value) : Job () := r ← send (post_req path body); _ ← ok r ("POST " +:+ path); mret ().

(** ** Connections *)

Definition seerr_base : string := no_slash (var env "SEERR_URL" "http://seerr.media.svc.cluster.local:5055").
Definition seerr_login (password email : string) : Req :=
  with_body (JsonBody (json_object [("username", Str (var env "JELLYFIN_ADMIN_USER" "admin")); ("password", Str password); ("email", Str email); ("serverType", json_i64 2)]))
    (plain "POST" (seerr_base +:+ "/api/v1/auth/jellyfin")).
Definition session_cookie (r : Resp) : option string := List.find (starts_with "connect.sid=") (before_semicolon <$> cookies r).
Definition seerr_api_key : Job string :=
  password ← secret env "JELLYFIN_ADMIN_PASSWORD";
  email ← need (env "ADMIN_EMAIL") "set ADMIN_EMAIL";
  r ← send (seerr_login password email); r ← ok r "POST /api/v1/auth/jellyfin (is seerr initialised?)";
  cookie ← need (session_cookie r) "seerr login did not set a session cookie";
  r ← send (with_header ("cookie", cookie) (plain "GET" (seerr_base +:+ "/api/v1/settings/main"))); r ← ok r "GET /api/v1/settings/main"; main ← json_body r;
  need (filled (main.["apiKey"])) "seerr has no API key".
Definition test_path kind : string := "/api/settings/test/" +:+ kind.
(** Never an error. *)
Definition test_connection kind (body : Value) : Job () :=
  result ← catch Ans (r ← send (post_req (test_path kind) body); r ← ok r ("POST " +:+ test_path kind); json_body r : Job Value);
  match result with
  | Ok r => if value_is_str (r.["status"]) "OK" then say ("maintainerr: " +:+ kind +:+ " connection OK") else mret ()
  | Err _ => mret ()
  end.
Definition settings_path kind : string := "/api/settings/" +:+ kind.
Definition server_body (name url key : string) : Value := json_object [("serverName", Str name); ("url", Str url); ("apiKey", Str key)].
Definition SERVERS : list (string * string) := [("Radarr", "radarr"); ("Sonarr", "sonarr")].
Definition add_server (server : string * string) : Job () :=
  let '(name, kind) := server in
  let up := to_uppercase kind in
  key ← optional_secret env (up +:+ "_API_KEY");
  match key with
  | None => mret ()
  | Some key =>
      let url := var env (up +:+ "_URL") ("http://" +:+ kind +:+ ".media.svc.cluster.local") in
      have ← get (settings_path kind);
      if has_url have url then mret ()
      else _ ← post (settings_path kind) (server_body name url key); say ("maintainerr: added " +:+ name +:+ " " +:+ url)
  end.
Definition url_key_body (url key : string) : Value := json_object [("url", Str url); ("api_key", Str key)].
Definition seerr : Job () :=
  if bool_decide (is_Some (env "JELLYFIN_ADMIN_PASSWORD_FILE")) || bool_decide (is_Some (env "JELLYFIN_ADMIN_PASSWORD")) then
    current ← get (settings_path "seerr");
    if no_url current then
      key ← seerr_api_key; _ ← post (settings_path "seerr") (url_key_body seerr_base key); say ("maintainerr: added Seerr " +:+ seerr_base)
    else mret ()
  else mret ().
Definition ombi : Job () :=
  key ← optional_secret env "OMBI_API_KEY";
  match key with
  | None => mret ()
  | Some key =>
      current ← get (settings_path "ombi");
      if no_url current then
        let url := var env "OMBI_URL" "http://ombi.media.svc.cluster.local:3579" in
        _ ← post (settings_path "ombi") (url_key_body url key); say ("maintainerr: added Ombi " +:+ url)
      else mret ()
  end.
Definition sportarr : Job () :=
  key ← optional_secret env "SPORTARR_API_KEY";
  match key with
  | None => mret ()
  | Some key =>
      let url := var env "SPORTARR_URL" "http://sportarr.media.svc.cluster.local:1867" in
      have ← get (settings_path "sportarr");
      if has_url have url then mret ()
      else
        let body := server_body "Sportarr" url key in
        _ ← post (settings_path "sportarr") body; _ ← say ("maintainerr: added Sportarr " +:+ url); test_connection "sportarr" body
  end.
Definition tracearr : Job () :=
  password ← optional_secret env "TRACEARR_PASSWORD";
  match password with
  | None => mret ()
  | Some password =>
      current ← get (settings_path "tracearr");
      if no_url current then
        let url := var env "TRACEARR_URL" "http://tracearr.media.svc.cluster.local:3000" in
        token ← Tracearr.public_api_token (no_slash url) (var env "TRACEARR_USER" "tristan") password;
        let body := url_key_body url token in
        _ ← post (settings_path "tracearr") body; _ ← say ("maintainerr: added Tracearr " +:+ url); test_connection "tracearr" body
      else mret ()
  end.
Definition streamystats : Job () :=
  match env "STREAMYSTATS_URL" with
  | None => mret ()
  | Some url =>
      current ← get (settings_path "streamystats");
      if no_url current then
        let body := json_object [("url", Str url)] in
        _ ← post (settings_path "streamystats") body; _ ← say ("maintainerr: added Streamystats " +:+ url); test_connection "streamystats" body
      else mret ()
  end.
Definition client_body (url password : string) (ratio : f64) : Value :=
  json_object [("download_client_type", Str "qbittorrent"); ("download_client_url", Str url); ("download_client_username", Str (var env "QBITTORRENT_USER" "admin"));
    ("download_client_password", Str password); ("download_client_delete_data", Bool false); ("download_client_fallback_ratio", json_f64 ratio)].
Definition download_client : Job () :=
  password ← optional_secret env "QBITTORRENT_PASSWORD";
  match password with
  | None => mret ()
  | Some password =>
      current ← get (settings_path "download-client");
      if is_null (current.["download_client_type"]) then
        let url := var env "QBITTORRENT_URL" "http://qbittorrent.media.svc.cluster.local:8080" in
        ratio ← need (parse_f64 (var env "DOWNLOAD_FALLBACK_RATIO" "1.0")) "invalid float literal";
        _ ← post (settings_path "download-client") (client_body url password ratio);
        say ("maintainerr: added the qBittorrent download client " +:+ url)
      else mret ()
  end.

(** ** The notification *)

Definition ntfy_name : string := var env "NTFY_NAME" "ntfy media".
Definition find_notification : Job (option Z) := all ← get "/api/notifications/configurations"; mret (notification_named all ntfy_name).
Definition ntfy_body (url : string) (token : option string) (existing : option Z) : Value :=
  let topic := var env "NTFY_TOPIC" "media" +:+ "?priority=" +:+ var env "NTFY_PRIORITY" "2" in
  let options := json_object [("agent", Str "ntfy"); ("url", Str url); ("topic", Str topic)] in
  let options := match token with Some t => set_key "token" (Str t) options | None => options end in
  let body := json_object [("name", Str ntfy_name); ("agent", Str "ntfy"); ("enabled", Bool true); ("types", Array (json_i64 <$> NOTIFY_TYPES)); ("aboutScale", json_i64 3); ("options", options)] in
  match existing with Some id => set_key "id" (json_i64 id) body | None => body end.
Definition ADD_NOTIFICATION : string := "/api/notifications/configuration/add".
Definition ntfy : Job (option Z) :=
  match env "NTFY_URL" with
  | None => mret None
  | Some url =>
      token ← optional_secret env "NTFY_TOKEN";
      existing ← find_notification;
      if bool_decide (is_Some existing) && negb (bool_decide (is_Some token)) then mret existing
      else
        r ← send (post_req ADD_NOTIFICATION (ntfy_body url token existing)); r ← ok r ("POST " +:+ ADD_NOTIFICATION); r ← json_body r;
        if negb (value_eqb (r.["code"]) (json_i64 1)) then fail "maintainerr refused the ntfy notification"
        else _ ← say "maintainerr: the ntfy notification is in place"; find_notification
  end.

(** ** The rules *)

Definition find_group (name : Value) : Job (option Value) := all ← get "/api/rules"; mret (group_named all name).
Definition connect_body (group_id notification : Z) : Value := json_object [("rulegroupId", json_i64 group_id); ("notificationId", json_i64 notification)].
Definition CONNECT : string := "/api/notifications/configuration/connect".
(** The group's, as Maintainerr lists it. *)
Definition ensure_group (group : Value) : Job Value :=
  let name := group.["name"] in
  existing ← find_group name;
  match existing with
  | Some g => mret g
  | None =>
      r ← send (post_req "/api/rules" group); _ ← ok r "POST /api/rules";
      _ ← say "maintainerr: added the disabled example rule group";
      g ← find_group name; need g "the new rule group is not listed"
  end.
Definition place_example (notification : option Z) (group : Value) : Job () :=
  existing ← ensure_group group;
  match value_as_i64 (existing.["id"]), notification with
  | Some group_id, Some id =>
      if is_connected existing notification then mret ()
      else _ ← post CONNECT (connect_body group_id id); say "maintainerr: connected the ntfy notification"
  | _, _ => mret ()
  end.
Definition examples (notification : option Z) : Job () :=
  if negb (String.eqb (var env "EXAMPLE_RULES" "true") "true") then mret ()
  else
    libs ← get "/api/media-server/libraries";
    match library_of libs "movie", library_of libs "show" with
    | Some movies, Some shows =>
        radarr ← get (settings_path "radarr");
        sonarr ← get (settings_path "sonarr");
        for_each Ans (example_groups movies shows (first_server radarr) (first_server sonarr)) (place_example notification)
    | _, _ => say "maintainerr: no movie and show libraries yet, skipping the example rules"
    end.
Definition run : Job () :=
  _ ← retry "waiting for maintainerr" 120 (get "/api/settings");
  _ ← for_each Ans SERVERS add_server;
  _ ← seerr;
  _ ← ombi;
  _ ← sportarr;
  _ ← tracearr;
  _ ← streamystats;
  _ ← download_client;
  notification ← ntfy;
  examples notification.
End maintainerr.

(** ** What setting up Maintainerr posts

    Only what is missing, by what was answered; and no rule that is on or that deletes a file. *)

(** Switched off; unmonitors and keeps the files; asks neither Seerr nor Ombi to drop a request. *)
Definition harmless (group : Value) : Prop :=
  group.["isActive"] = Bool false ∧ group.["arrAction"] = json_i64 3 ∧ group.["forceSeerr"] = Bool false ∧ group.["forceOmbi"] = Bool false.
Lemma examples_harmless movies shows radarr sonarr g : g ∈ example_groups movies shows radarr sonarr → harmless g.
Proof.
  unfold example_groups. rewrite !elem_of_cons, elem_of_nil. intros Hg. unfold harmless, common, json_object. destruct_or! Hg; try done; subst g; cbn; split_and!; done.
Qed.

Section posts.
Context `{SerdeJson, Libs} (env : string → option string).
Implicit Types (l : Log) (path kind : string).
Notation told l path v := (answered l (mt_req env "GET" path) v).
Notation posts path body := (Http (post_req env path body)).

Definition SINGLE : list string := ["seerr"; "ombi"; "tracearr"; "streamystats"].
Definition LISTED : list (string * string) := SERVERS ++ [("Sportarr", "sportarr")].
(** A group of the examples, for the libraries that were listed. *)
Definition example l (group : Value) : Prop := ∃ libs movies shows radarr sonarr, told l "/api/media-server/libraries" libs ∧
  library_of libs "movie" = Some movies ∧ library_of libs "show" = Some shows ∧ group ∈ example_groups movies shows radarr sonarr.
Definition listed l (group g : Value) : Prop := ∃ all, told l "/api/rules" all ∧ group_named all (group.["name"]) = Some g.
Inductive due l : Act → Prop :=
  | m_server name kind url key have : (name, kind) ∈ LISTED → told l (settings_path kind) have → has_url have url = false → due l (posts (settings_path kind) (server_body name url key))
  | m_single kind body current : kind ∈ SINGLE → told l (settings_path kind) current → no_url current = true → due l (posts (settings_path kind) body)
  | m_client url password ratio current : told l (settings_path "download-client") current → is_null (current.["download_client_type"]) = true →
      due l (posts (settings_path "download-client") (client_body env url password ratio))
  | m_test kind body : accepted l (post_req env (settings_path kind) body) → due l (posts (test_path kind) body)
  | m_seerr password email : due l (Http (seerr_login env password email))
  | m_tracearr base username password : due l (Http (Tracearr.sign_req base Tracearr.SIGN_IN (Tracearr.owner_body username password)))
  | m_token a v : answered l (Tracearr.get_req a "/api/v1/settings/api-key") v → Tracearr.token_of v = None → due l (Http (Tracearr.regenerate a))
  | m_ntfy url token existing all : env "NTFY_URL" = Some url → told l "/api/notifications/configurations" all → notification_named all (ntfy_name env) = existing →
      existing = None ∨ is_Some token → due l (posts ADD_NOTIFICATION (ntfy_body env url token existing))
  | m_group group all : example l group → told l "/api/rules" all → group_named all (group.["name"]) = None → due l (posts "/api/rules" group)
  | m_connect group g group_id id : example l group → listed l group g → value_as_i64 (g.["id"]) = Some group_id → is_connected g (Some id) = false →
      due l (posts CONNECT (connect_body group_id id)).
Definition quiet (x : Act) : Prop := match x with Http rq => rq_method rq = "GET" | ReadFile _ | Sleep _ => True | _ => False end.
Definition allowed l (x : Act) : Prop := quiet x ∨ due l x.
(** Each server with a key is one Maintainerr had or accepted; the examples, where they are wanted and there are libraries for
    them, are listed. *)
Definition server_there l (server : string * string) : Prop := let up := to_uppercase server.2 in
  (env ((up +:+ "_API_KEY") +:+ "_FILE") = None ∧ env (up +:+ "_API_KEY") = None) ∨
  let url := var env (up +:+ "_URL") ("http://" +:+ server.2 +:+ ".media.svc.cluster.local") in
  (∃ have, told l (settings_path server.2) have ∧ has_url have url = true) ∨ ∃ key, accepted l (post_req env (settings_path server.2) (server_body server.1 url key)).
Definition examples_there l : Prop := var env "EXAMPLE_RULES" "true" = "true" → ∃ libs, told l "/api/media-server/libraries" libs ∧
  ∀ movies shows, library_of libs "movie" = Some movies → library_of libs "show" = Some shows →
  ∃ radarr sonarr, ∀ group, group ∈ example_groups movies shows radarr sonarr → ∃ g, listed l group g.

Lemma example_later l l' group : l `prefix_of` l' → example l group → example l' group.
Proof. intros Hl (libs & m & s & r & s' & Ht & Hrest). exists libs, m, s, r, s'. split; [by eapply answered_later|done]. Qed.
Lemma mt_listed_later l l' group g : l `prefix_of` l' → listed l group g → listed l' group g.
Proof. intros Hl (all & Ha & E). exists all. split; [by eapply answered_later|done]. Qed.
Lemma server_later l l' server : l `prefix_of` l' → server_there l server → server_there l' server.
Proof.
  intros Hl [Hn|[(have & Hh & E)|(key & Hk)]]; [by left|right; left|right; right].
  - exists have. split; [by eapply answered_later|done].
  - exists key. by eapply accepted_later.
Qed.

Notation okay := (Trace.okay Ans allowed (St := list string) (Fa := string)).
Lemma mt_get_ok path l : okay (get env path) (λ v l', told l' path v) l.
Proof. apply value_ok. by left. Qed.
Lemma mt_post_ok path body l : due l (posts path body) → okay (post env path body) (λ _ l', accepted l' (post_req env path body)) l.
Proof. intros Hd. apply commanded_ok. by right. Qed.
Lemma mt_secret_or_none_ok name l : okay (optional_secret env name) (λ v _, v = None → env (name +:+ "_FILE") = None ∧ env name = None) l.
Proof.
  unfold optional_secret. destruct (_ || _) eqn:E.
  - eapply okay_then; [apply secret_okay; intros; by left|]. intros v l1 _ _. by apply okay_ret.
  - apply okay_ret. intros _. apply orb_false_iff in E as [E1%bool_decide_eq_false E2%bool_decide_eq_false]. split; [by destruct (env (name +:+ "_FILE")); [destruct E1|]|by destruct (env name); [destruct E2|]].
Qed.
Lemma test_ok kind body l : accepted l (post_req env (settings_path kind) body) → okay (test_connection env kind body) (λ _ _, True) l.
Proof.
  intros Ha. unfold test_connection. eapply okay_then.
  { apply catch_any, (value_ok allowed (post_req env (test_path kind) body)). right. by apply m_test. }
  intros [r|e] l1 _ _; [|by apply okay_ret]. destruct (value_is_str _ _); [by apply say_ok|by apply okay_ret].
Qed.
Lemma add_server_ok server l : server ∈ SERVERS → okay (add_server env server) (λ _ l', server_there l' server) l.
Proof.
  intros Hin. unfold add_server. destruct server as [name kind]. eapply okay_then; [apply mt_secret_or_none_ok|]. intros [key|] l1 _ Hk; cbn beta in Hk; [|apply okay_ret; left; by apply Hk].
  cbv zeta. eapply okay_then; [apply mt_get_ok|]. intros have l2 Hl2 Hh. cbn beta in Hh. destruct (has_url _ _) eqn:E.
  - apply okay_ret. right. left. by exists have.
  - eapply okay_then; [apply mt_post_ok; eapply m_server; [apply elem_of_app; left; exact Hin|exact Hh|exact E]|]. intros ? l3 _ Ha. apply say_ok. right. right. by exists key.
Qed.
Lemma single_ok kind body current l l' : kind ∈ SINGLE → told l (settings_path kind) current → no_url current = true → l `prefix_of` l' →
  okay (post env (settings_path kind) body) (λ _ l'', accepted l'' (post_req env (settings_path kind) body)) l'.
Proof. intros Hin Hc E Hl. apply mt_post_ok. eapply m_single; [done|eapply answered_later; [exact Hl|exact Hc]|done]. Qed.
Lemma seerr_key_ok l : okay (seerr_api_key env) (λ _ _, True) l.
Proof.
  unfold seerr_api_key. eapply okay_then; [apply secret_okay; intros; by left|]. intros password l1 _ _. eapply okay_then; [apply need_ok|]. intros email ? _ [_ ->].
  eapply okay_then; [apply request_ok; right; apply m_seerr|]. intros r l2 _ _. eapply okay_then; [apply ok_ok|]. intros r' ? _ (-> & -> & _). eapply okay_then; [apply need_ok|]. intros cookie ? _ [_ ->].
  eapply okay_then; [apply request_ok; by left|]. intros r2 l3 _ _. eapply okay_then; [apply ok_ok|]. intros r3 ? _ (-> & -> & _). eapply okay_then; [apply json_body_ok|]. intros v ? _ [-> _].
  eapply okay_mono; [apply need_ok|done].
Qed.
Lemma mt_token_ok base username password l : okay (Tracearr.public_api_token base username password) (λ _ _, True) l.
Proof.
  unfold Tracearr.public_api_token, Tracearr.sign. eapply okay_then.
  { eapply okay_then; [apply request_ok; right; apply m_tracearr|]. intros r l1 _ _. eapply okay_then; [apply ok_ok|]. intros r' ? _ (-> & -> & _). by apply (okay_ret _ _ _ (λ _ _, True)). }
  intros a l1 _ _. eapply okay_then; [apply (value_ok allowed (Tracearr.get_req a "/api/v1/settings/api-key")); by left|]. intros v l2 Hl2 Hv. cbn beta in Hv.
  destruct (Tracearr.token_of v) eqn:E; [by apply okay_ret|]. eapply okay_then; [apply request_ok; right; by eapply m_token|]. intros r l3 _ _. eapply okay_then; [apply ok_ok|].
  intros r' ? _ (-> & -> & _). eapply okay_then; [apply json_body_ok|]. intros made ? _ [-> _]. eapply okay_then; [by apply (say_ok _ _ (λ _ _, True))|]. intros ? l4 _ _.
  eapply okay_mono; [apply need_ok|done].
Qed.
(** A connection that is one only: made while there is no URL. *)
Ltac in_list := rewrite ?elem_of_cons; naive_solver.
Lemma seerr_ok l : okay (seerr env) (λ _ _, True) l.
Proof.
  unfold seerr. destruct (_ || _); [|by apply okay_ret]. eapply okay_then; [apply mt_get_ok|]. intros current l1 _ Hc. cbn beta in Hc. destruct (no_url current) eqn:E; [|by apply okay_ret].
  eapply okay_then; [apply seerr_key_ok|]. intros key l2 Hl2 _. eapply okay_then; [eapply (single_ok "seerr"); [unfold SINGLE; in_list|exact Hc|done|exact Hl2]|]. intros ? l3 _ _. by apply say_ok.
Qed.
Lemma ombi_ok l : okay (ombi env) (λ _ _, True) l.
Proof.
  unfold ombi. eapply okay_then; [apply mt_secret_or_none_ok|]. intros [key|] l1 _ _; [|by apply okay_ret]. eapply okay_then; [apply mt_get_ok|]. intros current l2 _ Hc. cbn beta in Hc.
  destruct (no_url current) eqn:E; [|by apply okay_ret]. cbv zeta. eapply okay_then; [eapply (single_ok "ombi"); [unfold SINGLE; in_list|exact Hc|done|done]|]. intros ? l3 _ _. by apply say_ok.
Qed.
Lemma sportarr_ok l : okay (sportarr env) (λ _ _, True) l.
Proof.
  unfold sportarr. eapply okay_then; [apply mt_secret_or_none_ok|]. intros [key|] l1 _ _; [|by apply okay_ret]. cbv zeta. eapply okay_then; [apply mt_get_ok|]. intros have l2 _ Hc. cbn beta in Hc.
  destruct (has_url _ _) eqn:E; [by apply okay_ret|]. eapply okay_then; [apply (mt_post_ok (settings_path "sportarr")); eapply m_server; [unfold LISTED, SERVERS; cbn [app]; in_list|exact Hc|done]|].
  intros ? l3 _ Ha. cbn beta in Ha. eapply okay_then; [by apply (say_ok _ _ (λ _ l', l' = l3))|]. intros ? ? _ ->. by apply test_ok.
Qed.
Lemma tracearr_ok l : okay (tracearr env) (λ _ _, True) l.
Proof.
  unfold tracearr. eapply okay_then; [apply mt_secret_or_none_ok|]. intros [password|] l1 _ _; [|by apply okay_ret]. eapply okay_then; [apply mt_get_ok|]. intros current l2 _ Hc. cbn beta in Hc.
  destruct (no_url current) eqn:E; [|by apply okay_ret]. cbv zeta. eapply okay_then; [apply mt_token_ok|]. intros token l3 Hl3 _.
  eapply okay_then; [eapply (single_ok "tracearr"); [unfold SINGLE; in_list|exact Hc|done|exact Hl3]|]. intros ? l4 _ Ha. cbn beta in Ha.
  eapply okay_then; [by apply (say_ok _ _ (λ _ l', l' = l4))|]. intros ? ? _ ->. by apply test_ok.
Qed.
Lemma streamystats_ok l : okay (streamystats env) (λ _ _, True) l.
Proof.
  unfold streamystats. destruct (env "STREAMYSTATS_URL"); [|by apply okay_ret]. eapply okay_then; [apply mt_get_ok|]. intros current l2 _ Hc. cbn beta in Hc.
  destruct (no_url current) eqn:E; [|by apply okay_ret]. cbv zeta. eapply okay_then; [eapply (single_ok "streamystats"); [unfold SINGLE; in_list|exact Hc|done|done]|].
  intros ? l4 _ Ha. cbn beta in Ha. eapply okay_then; [by apply (say_ok _ _ (λ _ l', l' = l4))|]. intros ? ? _ ->. by apply test_ok.
Qed.
Lemma mt_client_ok l : okay (download_client env) (λ _ _, True) l.
Proof.
  unfold download_client. eapply okay_then; [apply mt_secret_or_none_ok|]. intros [password|] l1 _ _; [|by apply okay_ret]. eapply okay_then; [apply mt_get_ok|]. intros current l2 _ Hc. cbn beta in Hc.
  destruct (is_null _) eqn:E; [|by apply okay_ret]. cbv zeta. eapply okay_then; [apply need_ok|]. intros ratio ? _ [_ ->].
  eapply okay_then; [apply mt_post_ok; by eapply m_client|]. intros ? l3 _ _. by apply say_ok.
Qed.
Lemma find_ok l : okay (find_notification env) (λ x l', ∃ all, told l' "/api/notifications/configurations" all ∧ notification_named all (ntfy_name env) = x) l.
Proof. unfold find_notification. eapply okay_then; [apply mt_get_ok|]. intros all l1 _ Ha. cbn beta in Ha. apply okay_ret. by exists all. Qed.
Lemma ntfy_ok l : okay (ntfy env) (λ _ _, True) l.
Proof.
  unfold ntfy. destruct (env "NTFY_URL") as [url|] eqn:Eu; [|by apply okay_ret]. eapply okay_then; [apply mt_secret_or_none_ok|]. intros token l1 _ _.
  eapply okay_then; [apply find_ok|]. intros existing l2 _ (all & Ha & E). destruct (_ && _) eqn:Eb; [by apply okay_ret|].
  eapply okay_then; [apply request_ok; right; eapply m_ntfy; [done|exact Ha|exact E|]|].
  { destruct existing; [right|by left]. destruct token; [done|]. by cbn in Eb. }
  intros r l3 _ _. eapply okay_then; [apply ok_ok|]. intros r' ? _ (-> & -> & _). eapply okay_then; [apply json_body_ok|]. intros v ? _ [-> _].
  destruct (value_eqb _ (json_i64 1)); cbn [negb]; [|apply okay_raise]. eapply okay_then; [by apply (say_ok _ _ (λ _ _, True))|]. intros ? l4 _ _. eapply okay_mono; [apply find_ok|done].
Qed.
Lemma ensure_group_ok group l : example l group → okay (ensure_group env group) (λ g l', listed l' group g) l.
Proof.
  intros He. unfold ensure_group, find_group. cbv zeta. eapply okay_then.
  { eapply okay_then; [apply mt_get_ok|]. intros all l1 Hl1 Ha. cbn beta in Ha.
    apply (okay_ret _ _ _ (λ x l', l `prefix_of` l' ∧ ∃ all, told l' "/api/rules" all ∧ group_named all (group.["name"]) = x)). split; [done|by exists all]. }
  intros [g|] l1 _ (Hl1 & all & Ha & E); [apply okay_ret; by exists all|].
  eapply okay_then; [apply request_ok; right; eapply m_group; [by eapply example_later|done|done]|]. intros r l2 _ _. eapply okay_then; [apply ok_ok|]. intros r' ? _ (-> & -> & _).
  eapply okay_then; [by apply (say_ok _ _ (λ _ _, True))|]. intros ? l3 _ _. eapply okay_then; [eapply okay_then; [apply mt_get_ok|]|].
  { intros all' l4 _ Ha'. cbn beta in Ha'. apply (okay_ret _ _ _ (λ x l', ∃ all, told l' "/api/rules" all ∧ group_named all (group.["name"]) = x)). by exists all'. }
  intros g l4 _ (all' & Ha' & E'). eapply okay_mono; [apply need_ok|]. intros g' ? _ [-> ->]. by exists all'.
Qed.
Lemma place_ok notification group l : example l group → okay (place_example env notification group) (λ _ l', ∃ g, listed l' group g) l.
Proof.
  intros He. unfold place_example. eapply okay_then; [by apply ensure_group_ok|]. intros g l1 Hl1 Hg. cbn beta in Hg.
  assert (∀ l', l1 `prefix_of` l' → ∃ g, listed l' group g) as Hlater. { intros l' Hl'. exists g. by eapply mt_listed_later. }
  destruct (value_as_i64 (g.["id"])) as [group_id|] eqn:Ei; [|by apply okay_ret, Hlater]. destruct notification as [id|]; [|by apply okay_ret, Hlater].
  destruct (is_connected g (Some id)) eqn:Ec; [by apply okay_ret, Hlater|]. eapply okay_then.
  { apply mt_post_ok. eapply m_connect; [eapply example_later; [exact Hl1|exact He]|exact Hg|done|done]. }
  intros ? l2 Hl2 _. apply say_ok. by apply Hlater.
Qed.
Lemma examples_ok notification l : okay (examples env notification) (λ _ l', examples_there l') l.
Proof.
  unfold examples. destruct (String.eqb _ _) eqn:Ee; cbn [negb].
  2: { apply okay_ret. intros Ht. by rewrite Ht in Ee. }
  eapply okay_then; [apply mt_get_ok|]. intros libs l1 _ Hlibs. cbn beta in Hlibs.
  destruct (library_of libs "movie") as [movies|] eqn:Em; [|apply say_ok; intros _; exists libs; split; [done|intros; congruence]].
  destruct (library_of libs "show") as [shows|] eqn:Es; [|apply say_ok; intros _; exists libs; split; [done|intros; congruence]].
  eapply okay_then; [apply mt_get_ok|]. intros radarr l2 Hl2 _. eapply okay_then; [apply mt_get_ok|]. intros sonarr l3 Hl3 _. eapply okay_mono.
  - apply (for_each_all allowed _ (λ group l', ∃ g, listed l' group g)).
    + intros group l0 l' Hl (g & Hg). exists g. by eapply mt_listed_later.
    + intros group l' Hin Hl'. apply place_ok. exists libs, movies, shows, (first_server radarr), (first_server sonarr). split_and!; [|done..].
      eapply answered_later; [|exact Hlibs]. etrans; [exact Hl2|]. etrans; [exact Hl3|exact Hl'].
  - intros ? l4 Hl4 Hall _. exists libs. split; [eapply answered_later; [|exact Hlibs]; etrans; [exact Hl2|]; etrans; [exact Hl3|exact Hl4]|].
    intros ? ? Em' Es'. rewrite Em in Em'. rewrite Es in Es'. injection Em' as <-. injection Es' as <-. exists (first_server radarr), (first_server sonarr).
    intros group Hin. rewrite Forall_forall in Hall. by apply Hall.
Qed.
Lemma maintainerr_run_ok l : okay (run env) (λ _ l', Forall (server_there l') SERVERS ∧ examples_there l') l.
Proof.
  unfold run. eapply okay_then; [apply (retry_ok allowed _ _ _ (λ _ _, True)); [intros; by left|]|].
  { intros l' _. eapply okay_mono; [apply mt_get_ok|done]. }
  intros ? l1 _ _. eapply okay_then; [apply (for_each_all allowed _ (λ server l', server_there l' server)); [intros server l0 l'; apply server_later|intros server l' Hin _; by apply add_server_ok]|].
  intros ? l2 _ Hall. cbn beta in Hall. eapply okay_then; [apply seerr_ok|]. intros ? l3 Hl3 _. eapply okay_then; [apply ombi_ok|]. intros ? l4 Hl4 _.
  eapply okay_then; [apply sportarr_ok|]. intros ? l5 Hl5 _. eapply okay_then; [apply tracearr_ok|]. intros ? l6 Hl6 _. eapply okay_then; [apply streamystats_ok|]. intros ? l7 Hl7 _.
  eapply okay_then; [apply mt_client_ok|]. intros ? l8 Hl8 _. eapply okay_then; [apply ntfy_ok|]. intros n l9 Hl9 _. eapply okay_mono; [apply examples_ok|].
  intros ? l10 Hl10 He. split; [|exact He]. eapply Forall_impl; [exact Hall|]. intros server Hs. eapply server_later; [|exact Hs].
  do 7 (etrans; [eassumption|]). exact Hl10.
Qed.

(** Whatever Maintainerr, Seerr and Tracearr answer, a run posts only what was shown to be missing: a server no item of the listing
    has the URL of, a connection without a URL, the client where there is none, a rule no group has the name of, a token where there
    is none; a notification that is there only with a token to give it. The rules it posts are off and keep every file. A run that
    ends well leaves each server with a key there, and the examples listed where the libraries are. *)
Theorem maintainerr_due outside out l : ∃ k, (exec Ans outside (run env out) l).1 = l ++ k ∧
  (∀ k1 e k2, k = k1 ++ e :: k2 → quiet (e_act e) ∨ due (l ++ k1) (e_act e)) ∧ (∀ l group, example l group → harmless group) ∧
  ∀ out', (exec Ans outside (run env out) l).2 = Ok (out', Ok ()) → Forall (server_there (l ++ k)) SERVERS ∧ examples_there (l ++ k).
Proof.
  destruct (exec_holds Ans allowed outside _ _ _ (maintainerr_run_ok l out)) as [HQ (k & Ek & Hk)]. exists k. split; [exact Ek|]. split; [exact Hk|].
  split; [intros l' group (libs & m & s & r & s' & _ & _ & _ & Hin); by eapply examples_harmless|]. intros out' E. rewrite E in HQ. rewrite <- Ek. by destruct HQ.
Qed.
End posts.
