(* ===== verification/SeerrSetup.v ===== *)
(** * Setting up Seerr ([apps/app-bootstrap/src/seerr.rs])

    The wizard as the Jellyfin admin, the admin's address, the libraries that are on, and Radarr and Sonarr as its servers. *)

From Stdlib Require Import Ascii.
From stdpp Require Import options.
From S2P Require Import Prelude Text Json Codec Threads Markers Trace Apps Bootstrap Servarr Keycloak Ombi.

Definition JELLYFIN : Z := 2.
Definition NOT_CONFIGURED : Z := 4.
Definition session_cookie (r : Resp) : option string := List.find (starts_with "connect.sid=") (before_semicolon <$> cookies r).
Definition is_on (l : Value) : bool := value_eqb (l.["enabled"]) (Bool true).
Definition ids (libs : Value) (only_enabled : bool) : list string :=
  omap (λ l, as_str (l.["id"])) (List.filter (λ l, negb only_enabled || is_on l) (array_of libs)).
Definition wanted_libraries (libs : Value) (names : list string) : list string :=
  omap (λ l, as_str (l.["id"])) (List.filter (λ l, match as_str (l.["name"]) with Some n => bool_decide (n ∈ names) | None => false end) (array_of libs)).
(** What is on, and what is to be on with it. *)
Definition add_id (all : list string) (id : string) : list string := if bool_decide (id ∈ all) then all else all ++ [id].
Definition join_ids (keep want : list string) : list string := foldl add_id keep want.
Definition LIBRARY : string := "/api/v1/settings/jellyfin/library".
(** The query of the library endpoint: an empty [enable] is refused. The wizard looks at the text of it, a later run at the list. *)
Definition first_query (keep : list string) : string := if bool_decide (join "," keep = "") then "?sync=true" else "?sync=true&enable=" +:+ join "," keep.
Definition sync_query (keep : list string) : string := if bool_decide (keep = []) then "?sync=true" else "?sync=true&enable=" +:+ join "," keep.
Definition enable_query (all : list string) : string := "?enable=" +:+ join "," all.

(** ** The servers *)

Definition server_differs (have : Value) (profile : Z) (root : string) : bool :=
  negb (bool_decide (value_as_i64 (have.["activeProfileId"]) = Some profile)) || negb (bool_decide (as_str (have.["activeDirectory"]) = Some root))
  || negb (value_eqb (have.["isDefault"]) (Bool true)).
Definition profile_leb (a b : Z * string) : bool := (a.1 <? b.1)%Z || (a.1 =? b.1)%Z && String.leb a.2 b.2.
Fixpoint insert_profile (p : Z * string) (l : list (Z * string)) : list (Z * string) :=
  match l with [] => [p] | q :: l' => if profile_leb p q then p :: l else q :: insert_profile p l' end.
Definition read_profile (p : Value) : option (Z * string) :=
  id ← value_as_i64 (p.["id"]); name ← as_str (p.["name"]); if (id =? 0)%Z then None else Some (id, name).
Definition read_profiles (v : Value) : list (Z * string) := foldr insert_profile [] (omap read_profile (array_of v)).
(** The one of that name, or, but for the 4K server, the first. *)
Definition pick_profile (profiles : list (Z * string)) (want : string) (is4k : bool) : option (Z * string) :=
  match List.find (λ p, String.eqb p.2 want) profiles with
  | Some p => Some p
  | None => if is4k then None else head profiles
  end.
Definition is_server (host : string) (is4k : bool) (k : Value) : bool :=
  value_is_str (k.["hostname"]) host && Bool.eqb (default false (as_bool (k.["is4k"]))) is4k.
Definition remove_key {A} (k : string) (m : list (string * A)) : list (string * A) := List.filter (λ kv, negb (String.eqb kv.1 k)) m.
Definition updated (have : Value) (pid : Z) (pname root : string) : Value :=
  let body := match have with Object m => Object (remove_key "id" m) | v => v end in
  set_keys [("activeProfileId", json_i64 pid); ("activeProfileName", Str pname); ("activeDirectory", Str root); ("isDefault", Bool true)] body.
Definition capital (kind : string) : string := to_uppercase (str (take 1 (chars kind))) +:+ str (drop 1 (chars kind)).
Definition new_server (kind host : string) (port : Z) (key root : string) (is4k : bool) (pid : Z) (pname : string) : Value :=
  let body := json_object [("name", Str (capital kind +:+ if is4k then " 4K" else "")); ("hostname", Str host); ("port", json_i64 port); ("apiKey", Str key); ("useSsl", Bool false);
    ("baseUrl", Str ""); ("activeProfileId", json_i64 pid); ("activeProfileName", Str pname); ("activeDirectory", Str root); ("is4k", Bool is4k); ("isDefault", Bool true);
    ("tags", Array []); ("syncEnabled", Bool false); ("preventSearch", Bool false); ("tagRequests", Bool false); ("overrideRule", Array [])] in
  if String.eqb kind "radarr" then set_key "minimumAvailability" (Str "released") body
  else set_keys [("seriesType", Str "standard"); ("animeSeriesType", Str "anime"); ("enableSeasonFolders", Bool true); ("monitorNewItems", Str "all")] body.

(** The program's own tests. *)
Example seerr_tests :
  let lib id name := Object [("id", Str id); ("name", Str name)] in
  wanted_libraries (Array [lib "1" "Movies"; lib "2" "Music"; lib "3" "TV Shows"]) ["Movies"; "TV Shows"] = ["1"; "3"] ∧
  (let have := Object [("activeDirectory", Str "/media/movies"); ("activeProfileId", json_i64 4); ("isDefault", Bool true)] in
   server_differs have 4 "/media/movies" = false ∧ server_differs have 5 "/media/movies" = true ∧ server_differs have 4 "/media/tv" = true) ∧
  (let libs := Array [Object [("enabled", Bool true); ("id", Str "1")]; Object [("enabled", Bool false); ("id", Str "2")]] in ids libs true = ["1"] ∧ ids libs false = ["1"; "2"]) ∧
  capital "radarr" = "Radarr" ∧ read_profiles (Array [Object [("id", json_i64 7); ("name", Str "HD")]; Object [("id", json_i64 0); ("name", Str "x")]; Object [("id", json_i64 4); ("name", Str "SD")]]) = [(4%Z, "SD"); (7%Z, "HD")].
Proof. vm_compute. done. Qed.

Section seerr.
Context `{SerdeJson, Libs} (env : string → option string).
Implicit Types (cookie path kind : string).

Definition sr_base : string := no_slash (var env "SEERR_URL" "http://seerr.media.svc.cluster.local:5055").
Definition sr_req cookie (method path : string) : Req := with_header ("cookie", cookie) (plain method (sr_base +:+ path)).
Definition get cookie path : Job Value := r ← send (sr_req cookie "GET" path); r ← ok r ("GET " +:+ path); json_body r.
Definition body_req cookie (method path : string) (body : Value) : Req := with_body (JsonBody body) (sr_req cookie method path).
Definition command (rq : Req) (what : string) : Job () := r ← send rq; _ ← ok r what; mret ().

(** ** Signing in *)

Record Setup : Type := mkSetup { su_host : string; su_port : N; su_password : string; su_email : string }.
Definition login_body (s : Setup) (with_server : bool) : Value :=
  let body := json_object [("username", Str (var env "JELLYFIN_ADMIN_USER" "admin")); ("password", Str (su_password s)); ("email", Str (su_email s)); ("serverType", json_i64 JELLYFIN)] in
  if with_server then set_keys [("hostname", Str (su_host s)); ("port", Number (PosInt (su_port s))); ("useSsl", Bool false); ("urlBase", Str "")] body else body.
Definition login_req (s : Setup) (with_server : bool) : Req := with_body (JsonBody (login_body s with_server)) (plain "POST" (sr_base +:+ "/api/v1/auth/jellyfin")).
(** A fresh server takes the address; a linked one refuses it. *)
Definition login (s : Setup) (with_server : bool) : Job string :=
  r ← send (login_req s with_server);
  r ← (if with_server && negb (is_success (rs_status r)) then
         let body := match rs_text r with Ok t => t | Err _ => "" end in
         if negb (contains "already configured" body) then fail ("POST /api/v1/auth/jellyfin: " +:+ str (take 300 (chars body)))
         else _ ← say "jellyfin already linked, logging in without the address"; send (login_req s false)
       else mret r : Job Resp);
  r ← ok r "POST /api/v1/auth/jellyfin (jellyfin admin login; the Jellyfin admin must exist with the jellyfin-admin password)";
  need (session_cookie r) "login did not set a session cookie".
Definition same_email (me : Value) (email : string) : bool := match as_str (me.["email"]) with Some e => eq_ignore_ascii_case e email | None => false end.
Definition email_req cookie (id : Z) (email : string) : Req :=
  body_req cookie "POST" ("/api/v1/user/" +:+ pretty id +:+ "/settings/main") (json_object [("email", Str email)]).
Definition ensure_admin_email cookie (email : string) : Job () :=
  me ← get cookie "/api/v1/auth/me";
  if same_email me email then mret ()
  else
    id ← need (value_as_i64 (me.["id"])) "GET /api/v1/auth/me: no user id";
    _ ← command (email_req cookie id email) "POST /api/v1/user/<admin>/settings/main (break-glass email)";
    say ("seerr: break-glass admin's email is now " +:+ email).

(** ** Libraries *)

Definition scan_req cookie : Req := body_req cookie "POST" "/api/v1/settings/jellyfin/sync" (json_object [("start", Bool true)]).
Definition scan cookie : Job () := command (scan_req cookie) "POST /api/v1/settings/jellyfin/sync".
(** The libraries that are on now, and all of them, synced. *)
Definition synced_libraries (query : list string → string) cookie : Job (list string * Value) :=
  current ← get cookie "/api/v1/settings/jellyfin";
  let keep := ids (current.["libraries"]) true in
  synced ← retry "syncing jellyfin libraries" 24 (get cookie (LIBRARY +:+ query keep));
  mret (keep, synced).
Definition library_names : list string := csv (var env "JELLYFIN_LIBRARIES" "Movies,TV Shows").
Definition reconcile_libraries cookie : Job () :=
  '(keep, synced) ← synced_libraries sync_query cookie;
  let want := wanted_libraries synced library_names in
  if forallb (λ id, bool_decide (id ∈ keep)) want then say "seerr: jellyfin libraries already enabled"
  else
    _ ← get cookie (LIBRARY +:+ enable_query (join_ids keep want));
    _ ← say "seerr: enabled jellyfin libraries";
    scan cookie.
Definition initialize_req cookie : Req := sr_req cookie "POST" "/api/v1/settings/initialize".
Definition wizard cookie : Job () :=
  '(_, synced) ← synced_libraries first_query cookie;
  let all := ids synced false in
  if bool_decide (all = []) then fail "jellyfin has no libraries yet; not marking seerr initialised"
  else
    _ ← get cookie (LIBRARY +:+ enable_query all);
    _ ← say "enabled the libraries";
    _ ← scan cookie;
    _ ← command (initialize_req cookie) "POST /api/v1/settings/initialize";
    say "seerr initialised".

(** ** Radarr and Sonarr *)

Record Arr : Type := mkArr { ar_kind : string; ar_host : string; ar_port : Z; ar_key : string; ar_root : string }.
Definition arr_server (a : Arr) : Servarr := mkServarr ("http://" +:+ ar_host a +:+ ":" +:+ pretty (ar_port a)) (ar_key a) "v3".
Definition quality_profiles (a : Arr) : Job (list (Z * string)) :=
  retry (ar_kind a +:+ " quality profiles") 12 (
    p ← Servarr.get (arr_server a) "/qualityprofile";
    let p := read_profiles p in
    if bool_decide (p = []) then fail "no quality profile yet" else mret p).
Definition servers_path kind : string := "/api/v1/settings/" +:+ kind.
Definition update_req cookie (a : Arr) (have : Value) (pid : Z) (pname : string) : Req :=
  body_req cookie "PUT" (servers_path (ar_kind a) +:+ "/" +:+ pretty (default 0%Z (value_as_i64 (have.["id"])))) (updated have pid pname (ar_root a)).
Definition add_req cookie (a : Arr) (is4k : bool) (pid : Z) (pname : string) : Req :=
  body_req cookie "POST" (servers_path (ar_kind a)) (new_server (ar_kind a) (ar_host a) (ar_port a) (ar_key a) (ar_root a) is4k pid pname).
Definition profile_var kind (is4k : bool) : string := to_uppercase kind +:+ if is4k then "_4K_PROFILE" else "_PROFILE".
Definition ensure_server cookie (a : Arr) (is4k : bool) : Job () :=
  let want := var env (profile_var (ar_kind a) is4k) "" in
  if is4k && bool_decide (want = "") then mret ()
  else
    profiles ← quality_profiles a;
    match pick_profile profiles want is4k with
    | None => say (ar_kind a +:+ ": no quality profile for the 4K server, skipping it")
    | Some (pid, pname) =>
        known ← get cookie (servers_path (ar_kind a));
        match List.find (is_server (ar_host a) is4k) (array_of known) with
        | Some have =>
            if negb (server_differs have pid (ar_root a)) then say ("seerr already has " +:+ ar_kind a +:+ " " +:+ ar_host a)
            else
              _ ← command (update_req cookie a have pid pname) ("PUT /api/v1/settings/" +:+ ar_kind a);
              say ("seerr: updated " +:+ ar_kind a +:+ " " +:+ ar_host a)
        | None =>
            _ ← command (add_req cookie a is4k pid pname) ("POST /api/v1/settings/" +:+ ar_kind a);
            say ("seerr: added " +:+ ar_kind a +:+ " " +:+ ar_host a)
        end
    end.
Definition arr_of kind (key : string) : Job Arr :=
  let up := to_uppercase kind in
  let host := var env (up +:+ "_HOST") (kind +:+ ".media.svc.cluster.local") in
  port ← need (parse_i64 (var env (up +:+ "_PORT_NUMBER") "80")) "invalid digit found in string";
  mret (mkArr kind host port key (var env (up +:+ "_ROOT") (if String.eqb kind "radarr" then "/media/movies" else "/media/tv"))).
Definition KINDS : list string := ["radarr"; "sonarr"].
Definition wire_one cookie kind : Job () :=
  key ← optional_secret env (to_uppercase kind +:+ "_API_KEY");
  match key with
  | None => mret ()
  | Some key =>
      a ← arr_of kind key;
      _ ← wait (arr_server a) kind;
      added ← ensure_root_folder (arr_server a) (ar_root a);
      _ ← (if (added : bool) then say (kind +:+ ": added root folder " +:+ ar_root a) else mret ());
      for_each Ans [false; true] (ensure_server cookie a)
  end.
Definition wire_arr cookie : Job () := for_each Ans KINDS (wire_one cookie).

Definition read_setup : Job Setup :=
  let host := var env "JELLYFIN_HOST" "jellyfin.media.svc.cluster.local" in
  port ← need (parse_u16 (var env "JELLYFIN_PORT" "8096")) "invalid digit found in string";
  password ← secret env "JELLYFIN_ADMIN_PASSWORD";
  email ← need (env "ADMIN_EMAIL") "set ADMIN_EMAIL";
  mret (mkSetup host port password email).
Definition is_initialized (public : Value) : bool := value_eqb (public.["initialized"]) (Bool true).
Definition is_fresh (public : Value) : bool := negb (is_initialized public) && bool_decide (value_as_i64 (public.["mediaServerType"]) = Some NOT_CONFIGURED).
Definition public_req : Req := plain "GET" (sr_base +:+ "/api/v1/settings/public").
Definition run : Job () :=
  s ← read_setup;
  public ← retry "waiting for seerr" 120 (r ← send public_req; r ← ok r "GET /api/v1/settings/public"; json_body r);
  _ ← say (if is_initialized public then "seerr already initialised, skipping the wizard" else "seerr not initialised");
  cookie ← login s (is_fresh public);
  _ ← say "seerr admin login ok";
  _ ← ensure_admin_email cookie (su_email s);
  _ ← (if is_initialized public then reconcile_libraries cookie else wizard cookie);
  wire_arr cookie.
End seerr.

(** ** What setting up Seerr does

    A library Seerr had on stays on; and each request that changes something is due by what was answered. *)

(** ** The libraries, and a server brought up to date *)

Lemma join_ids_in keep want id : id ∈ join_ids keep want ↔ id ∈ keep ∨ id ∈ want.
Proof.
  unfold join_ids. revert keep. induction want as [|w want IH]; intros keep; cbn [foldl]; [set_solver|]. rewrite IH. unfold add_id. case_bool_decide; [set_solver|].
  rewrite elem_of_app, list_elem_of_singleton. set_solver.
Qed.
Lemma join_ids_keeps keep want : keep `prefix_of` join_ids keep want.
Proof.
  unfold join_ids. revert keep. induction want as [|w want IH]; intros keep; cbn [foldl]; [done|]. etrans; [|apply IH]. unfold add_id. case_bool_decide; [done|by eexists].
Qed.
Lemma assoc_remove {A} k j (m : list (string * A)) : assoc j (remove_key k m) = if decide (j = k) then None else assoc j m.
Proof.
  unfold remove_key. induction m as [|[k' x] m IH]; cbn; [by destruct (decide _)|]. destruct (String.eqb_spec k' k) as [->|Hne]; cbn; rewrite IH; repeat destruct (decide _); congruence.
Qed.
(** An updated server no longer differs, and all else is as it was. *)
Lemma updated_settles m pid pname root : (- 2 ^ 63 <= pid < 2 ^ 63)%Z → let body := updated (Object m) pid pname root in
  server_differs body pid root = false ∧ body.["id"] = Null ∧
  ∀ k, k ∉ ["id"; "activeProfileId"; "activeProfileName"; "activeDirectory"; "isDefault"] → body.[k] = (Object m).[k].
Proof.
  intros Hz body. unfold body, updated, set_keys. cbn [foldl set_key fst snd]. split_and!.
  - assert (∀ k x m, (Object (insert_key k x m)).[k] = x) as Hget by (intros; cbn [index]; by rewrite assoc_insert).
    assert (∀ j k x m, j ≠ k → (Object (insert_key k x m)).[j] = (Object m).[j]) as Hne by (intros; cbn [index]; by rewrite assoc_insert_ne).
    unfold server_differs. rewrite Hget, (Hne "activeProfileId"), (Hne "activeProfileId"), (Hne "activeProfileId"), Hget, (Hne "activeDirectory"), Hget by done.
    rewrite read_i64 by done. by rewrite !bool_decide_eq_true_2.
  - cbn [index]. rewrite !assoc_insert_ne by done. by rewrite assoc_remove, decide_True.
  - intros k Hk. rewrite !not_elem_of_cons in Hk. destruct Hk as (H1 & H2 & H3 & H4 & H5 & _). cbn [index]. rewrite !assoc_insert_ne by done. by rewrite assoc_remove, decide_False.
Qed.

Section posts.
Context `{SerdeJson, Libs} (env : string → option string).
Implicit Types (l : Log) (cookie path kind : string).
Notation told l cookie path v := (answered l (sr_req env cookie "GET" path) v).
Notation library_req cookie q := (sr_req env cookie "GET" (LIBRARY +:+ q)).

(** A GET of the libraries is no mere look: it says which are on. *)
Definition is_library (rq : Req) : Prop := ∃ cookie q, rq = library_req cookie q.
Definition quiet (x : Act) : Prop := match x with Http rq => rq_method rq = "GET" ∧ ¬ is_library rq | ReadFile _ | Sleep _ => True | _ => False end.
Definition kept l cookie (keep : list string) : Prop := ∃ current, told l cookie "/api/v1/settings/jellyfin" current ∧ keep = ids (current.["libraries"]) true.
Definition shown l (initialized fresh : bool) : Prop := ∃ public, answered l (public_req env) public ∧ is_initialized public = initialized ∧ is_fresh public = fresh.
Definition synced l cookie (query : list string → string) (keep : list string) (libs : Value) : Prop := kept l cookie keep ∧ answered l (library_req cookie (query keep)) libs.
Definition known l cookie (a : Arr) (is4k : bool) (have : option Value) : Prop := ∃ all, told l cookie (servers_path (ar_kind a)) all ∧
  List.find (is_server (ar_host a) is4k) (array_of all) = have.
Definition picked l (a : Arr) (is4k : bool) (pid : Z) (pname : string) : Prop := ∃ p, answered l (req (arr_server a) "GET" "/qualityprofile") p ∧
  pick_profile (read_profiles p) (var env (profile_var (ar_kind a) is4k) "") is4k = Some (pid, pname).
Inductive due l : Act → Prop :=
  | s_login s with_server : (with_server = true → shown l false true) → due l (Http (login_req env s with_server))
  | s_email cookie me id email : told l cookie "/api/v1/auth/me" me → same_email me email = false → value_as_i64 (me.["id"]) = Some id → env "ADMIN_EMAIL" = Some email →
      due l (Http (email_req env cookie id email))
  | s_sync cookie query keep : query = first_query ∨ query = sync_query → kept l cookie keep → due l (Http (library_req cookie (query keep)))
  | s_enable_all cookie keep libs : shown l false true ∨ shown l false false → synced l cookie first_query keep libs → ids libs false ≠ [] → due l (Http (library_req cookie (enable_query (ids libs false))))
  | s_enable cookie keep libs : synced l cookie sync_query keep libs → due l (Http (library_req cookie (enable_query (join_ids keep (wanted_libraries libs (library_names env))))))
  | s_scan cookie : due l (Http (scan_req env cookie))
  | s_initialize cookie : accepted l (scan_req env cookie) → due l (Http (initialize_req env cookie))
  | s_root a folders : answered l (req (arr_server a) "GET" "/rootfolder") folders → existsb (is_folder (ar_root a)) (array_of folders) = false →
      due l (Http (req_body (arr_server a) "POST" "/rootfolder" (Object [("path", Str (ar_root a))])))
  | s_update cookie a is4k pid pname have : picked l a is4k pid pname → known l cookie a is4k (Some have) → server_differs have pid (ar_root a) = true →
      due l (Http (update_req env cookie a have pid pname))
  | s_add cookie a is4k pid pname : picked l a is4k pid pname → known l cookie a is4k None → due l (Http (add_req env cookie a is4k pid pname)).
Definition allowed l (x : Act) : Prop := quiet x ∨ due l x.
(** Initialised, with what was to be on on, by what was answered. *)
Definition ready l : Prop := ∃ cookie,
  (shown l false true ∨ shown l false false) ∧ accepted l (initialize_req env cookie) ∨
  ∃ keep libs, synced l cookie sync_query keep libs ∧ let want := wanted_libraries libs (library_names env) in
    ((∀ id, id ∈ want → id ∈ keep) ∨ accepted l (library_req cookie (enable_query (join_ids keep want)))).
(** Each server is as it is wanted, or was given to Seerr; a 4K one only where its profile is named and there. *)
Definition server_done l cookie (a : Arr) (is4k : bool) : Prop :=
  (is4k = true ∧ var env (profile_var (ar_kind a) is4k) "" = "") ∨
  (∃ p, answered l (req (arr_server a) "GET" "/qualityprofile") p ∧ pick_profile (read_profiles p) (var env (profile_var (ar_kind a) is4k) "") is4k = None) ∨
  ∃ pid pname, picked l a is4k pid pname ∧
    ((∃ have, known l cookie a is4k (Some have) ∧ (server_differs have pid (ar_root a) = false ∨ accepted l (update_req env cookie a have pid pname))) ∨
     accepted l (add_req env cookie a is4k pid pname)).
Definition kind_done l cookie kind : Prop :=
  env (to_uppercase kind +:+ "_API_KEY") = None ∨ ∃ a, ar_kind a = kind ∧ Forall (server_done l cookie a) [false; true].

Lemma told_not_library cookie path : (∀ q, path ≠ LIBRARY +:+ q) → quiet (Http (sr_req env cookie "GET" path)).
Proof. intros Hp. split; [done|]. intros (c & q & E). injection E as E _. apply (inj (String.append _)) in E. by apply (Hp q). Qed.
Lemma public_quiet : quiet (Http (public_req env)).
Proof. split; [done|]. intros (c & q & E). by injection E. Qed.
Lemma arr_quiet a path : quiet (Http (req (arr_server a) "GET" path)).
Proof. split; [done|]. intros (c & q & E). by injection E. Qed.
Lemma kept_later l l' cookie keep : l `prefix_of` l' → kept l cookie keep → kept l' cookie keep.
Proof. intros Hl (c & Hc & E). exists c. split; [by eapply answered_later|done]. Qed.
Lemma shown_later l l' a b : l `prefix_of` l' → shown l a b → shown l' a b.
Proof. intros Hl (p & Hp & E). exists p. split; [by eapply answered_later|done]. Qed.
Lemma synced_later l l' cookie query keep libs : l `prefix_of` l' → synced l cookie query keep libs → synced l' cookie query keep libs.
Proof. intros Hl [Hk Ha]. split; [by eapply kept_later|by eapply answered_later]. Qed.
Lemma known_later l l' cookie a is4k have : l `prefix_of` l' → known l cookie a is4k have → known l' cookie a is4k have.
Proof. intros Hl (c & Hc & E). exists c. split; [by eapply answered_later|done]. Qed.
Lemma picked_later l l' a is4k pid pname : l `prefix_of` l' → picked l a is4k pid pname → picked l' a is4k pid pname.
Proof. intros Hl (c & Hc & E). exists c. split; [by eapply answered_later|done]. Qed.
Lemma server_done_later l l' cookie a is4k : l `prefix_of` l' → server_done l cookie a is4k → server_done l' cookie a is4k.
Proof.
  intros Hl [?|[(p & Hp & E)|(pid & pname & Hp & Hd)]]; [by left|right; left; exists p; split; [by eapply answered_later|done]|].
  right. right. exists pid, pname. split; [by eapply picked_later|]. destruct Hd as [(have & Hk & Hd)|Ha]; [left; exists have|right; by eapply accepted_later].
  split; [by eapply known_later|]. destruct Hd as [?|Ha]; [by left|right; by eapply accepted_later].
Qed.
Lemma kind_done_later cookie kind l l' : l `prefix_of` l' → kind_done l cookie kind → kind_done l' cookie kind.
Proof.
  intros Hl [?|(a & Ek & Hall)]; [by left|]. right. exists a. split; [done|]. eapply Forall_impl; [exact Hall|]. intros is4k. by apply server_done_later.
Qed.

Notation okay := (Trace.okay Ans allowed (St := list string) (Fa := string)).
Lemma sr_look_ok cookie path l : (∀ q, path ≠ LIBRARY +:+ q) → okay (get env cookie path) (λ v l', told l' cookie path v) l.
Proof. intros Hp. apply value_ok. left. by apply told_not_library. Qed.
Lemma sr_command_ok rq what l : due l (Http rq) → okay (command rq what) (λ _ l', accepted l' rq) l.
Proof. intros Hd. apply commanded_ok. by right. Qed.
Lemma read_files l name : okay (secret env name) (λ _ _, True) l.
Proof. apply secret_okay. intros; by left. Qed.
Lemma sr_login_ok s fresh l : (fresh = true → shown l false true) → okay (login env s fresh) (λ _ _, True) l.
Proof.
  intros Hf. unfold login. eapply okay_then; [apply request_ok; right; by apply s_login|]. intros r l1 Hl1 _. eapply okay_then.
  { instantiate (1 := λ _ _, True). destruct (fresh && _); [|by apply okay_ret]. cbv zeta. destruct (negb _); [apply okay_raise|].
    eapply okay_then; [by apply (say_ok _ _ (λ _ _, True))|]. intros ? l2 _ _. eapply okay_mono; [apply request_ok; right; by apply s_login|done]. }
  intros r' l2 _ _. eapply okay_then; [apply ok_ok|]. intros r2 ? _ (-> & -> & _). eapply okay_mono; [apply need_ok|done].
Qed.
Lemma email_ok cookie email l : env "ADMIN_EMAIL" = Some email → okay (ensure_admin_email env cookie email) (λ _ _, True) l.
Proof.
  intros He. unfold ensure_admin_email. eapply okay_then; [by apply sr_look_ok|]. intros me l1 _ Hm. cbn beta in Hm. destruct (same_email me email) eqn:E; [by apply okay_ret|].
  eapply okay_then; [apply need_ok|]. intros id ? _ [Hi ->]. eapply okay_then; [apply sr_command_ok; by eapply s_email|]. intros ? l2 _ _. by apply say_ok.
Qed.
Lemma synced_ok query cookie l : query = first_query ∨ query = sync_query → okay (synced_libraries env query cookie) (λ kl l', synced l' cookie query kl.1 kl.2) l.
Proof.
  intros Hq. unfold synced_libraries. eapply okay_then; [by apply sr_look_ok|]. intros current l1 Hl1 Hc. cbn beta in Hc. cbv zeta. set (keep := ids _ _).
  assert (kept l1 cookie keep) as Hk by (by exists current). clearbody keep. eapply okay_then.
  { apply (retry_ok allowed _ _ _ (λ v l', answered l' (library_req cookie (query keep)) v)); [intros; by left|]. intros l' Hl'. apply value_ok. right.
    apply s_sync; [done|]. eapply kept_later; [exact Hl'|exact Hk]. }
  intros libs l2 Hl2 Ha. cbn beta in Ha. apply okay_ret. split; [eapply kept_later; [exact Hl2|exact Hk]|exact Ha].
Qed.
Lemma reconcile_ok cookie l : okay (reconcile_libraries env cookie) (λ _ l', ready l') l.
Proof.
  unfold reconcile_libraries. eapply okay_then; [apply synced_ok; by right|]. intros [keep libs] l1 Hl1 Hs. cbn [fst snd] in Hs. cbv zeta. destruct (forallb _ _) eqn:E.
  - apply say_ok. exists cookie. right. exists keep, libs. split; [done|]. left. intros id Hin. rewrite forallb_forall in E.
    specialize (E id (proj1 (list_elem_of_In _ _) Hin)). by apply bool_decide_eq_true in E.
  - eapply okay_then; [apply value_ok; right; by eapply s_enable|]. intros v l2 Hl2 Ha. cbn beta in Ha.
    eapply okay_then; [by apply (say_ok _ _ (λ _ l', l' = l2))|]. intros ? ? _ ->. eapply okay_mono; [apply sr_command_ok; apply s_scan|]. intros ? l3 Hl3 _.
    exists cookie. right. exists keep, libs. split; [eapply synced_later; [|exact Hs]; etrans; [exact Hl2|exact Hl3]|]. right. eapply accepted_later; [exact Hl3|]. by eapply answered_accepted.
Qed.
Lemma sr_wizard_ok cookie l : shown l false true ∨ shown l false false → okay (wizard env cookie) (λ _ l', ready l') l.
Proof.
  intros Hi. assert (∀ l', l `prefix_of` l' → shown l' false true ∨ shown l' false false) as Hi'.
  { intros l' Hl. destruct Hi as [Hi|Hi]; [left|right]; by eapply shown_later. }
  unfold wizard. eapply okay_then; [apply synced_ok; by left|]. intros [keep libs] l1 Hl1 Hs. cbn [fst snd] in Hs. cbv zeta. case_bool_decide as En; [apply okay_raise|].
  eapply okay_then; [apply value_ok; right; eapply s_enable_all; [by apply Hi'|exact Hs|exact En]|]. intros v l2 Hl2 _.
  eapply okay_then; [by apply (say_ok _ _ (λ _ l', l' = l2))|]. intros ? ? _ ->. eapply okay_then; [apply sr_command_ok; apply s_scan|]. intros ? l3 Hl3 Ha. cbn beta in Ha.
  eapply okay_then; [apply sr_command_ok; by apply s_initialize|]. intros ? l4 Hl4 Hacc. apply say_ok. exists cookie. left. split; [|exact Hacc].
  apply Hi'. do 3 (etrans; [eassumption|]). exact Hl4.
Qed.
Lemma profiles_ok a l : okay (quality_profiles a) (λ ps l', ∃ p, answered l' (req (arr_server a) "GET" "/qualityprofile") p ∧ read_profiles p = ps) l.
Proof.
  unfold quality_profiles. apply retry_ok; [intros; by left|]. intros l' _. eapply okay_then; [apply (value_ok allowed (req (arr_server a) "GET" "/qualityprofile")); left; apply arr_quiet|].
  intros p l1 _ Hp. cbn beta in Hp. cbv zeta. case_bool_decide; [apply okay_raise|]. apply okay_ret. by exists p.
Qed.
Lemma servers_path_not kind q : kind ∈ KINDS → servers_path kind ≠ LIBRARY +:+ q.
Proof. unfold KINDS. rewrite !elem_of_cons, elem_of_nil. intros Hk. by destruct_or! Hk; try done; subst kind. Qed.
Lemma ensure_server_ok cookie a is4k l : ar_kind a ∈ KINDS → okay (ensure_server env cookie a is4k) (λ _ l', server_done l' cookie a is4k) l.
Proof.
  intros Hkind. unfold ensure_server. cbv zeta. destruct (is4k && _) eqn:E4.
  { apply okay_ret. left. by apply andb_true_iff in E4 as [-> E%bool_decide_eq_true]. }
  eapply okay_then; [apply (profiles_ok a)|]. intros ps l1 Hl1 (p & Hp & <-). destruct (pick_profile _ _ _) as [[pid pname]|] eqn:Ep.
  2: { apply say_ok. right. left. by exists p. }
  assert (picked l1 a is4k pid pname) as Hpick by (by exists p). eapply okay_then; [apply sr_look_ok; intros q; by apply servers_path_not|].
  intros all l2 Hl2 Hall. cbn beta in Hall. assert (picked l2 a is4k pid pname) as Hpick2 by (by eapply picked_later). destruct (List.find _ _) as [have|] eqn:Ef.
  - assert (known l2 cookie a is4k (Some have)) as Hk by (by exists all). destruct (server_differs have pid (ar_root a)) eqn:Ed; cbn [negb].
    + eapply okay_then; [apply sr_command_ok; by eapply s_update|]. intros ? l3 Hl3 Hacc. apply say_ok. right. right. exists pid, pname. split; [by eapply picked_later|].
      left. exists have. split; [by eapply known_later|]. right. exact Hacc.
    + apply say_ok. right. right. exists pid, pname. split; [done|]. left. exists have. split; [done|by left].
  - assert (known l2 cookie a is4k None) as Hk by (by exists all). eapply okay_then; [apply sr_command_ok; by eapply s_add|]. intros ? l3 Hl3 Hacc. apply say_ok. right. right. exists pid, pname.
    split; [by eapply picked_later|]. right. exact Hacc.
Qed.
Lemma root_ok a l : okay (ensure_root_folder (arr_server a) (ar_root a)) (λ _ _, True) l.
Proof.
  unfold ensure_root_folder, ensure_named_root_folder. eapply okay_then; [apply (value_ok allowed (req (arr_server a) "GET" "/rootfolder")); left; apply arr_quiet|].
  intros folders l1 _ Hf. cbn beta in Hf. destruct (existsb _ _) eqn:E; [by apply okay_ret|]. rewrite (bool_decide_eq_false_2 (Servarr.api (arr_server a) = "v1")) by done.
  eapply okay_then; [by apply (okay_ret _ _ _ (λ b l', b = Object [("path", Str (ar_root a))] ∧ l' = l1))|]. intros b ? _ [-> ->].
  eapply okay_then; [apply (value_ok allowed (req_body (arr_server a) "POST" "/rootfolder" (Object [("path", Str (ar_root a))]))); right; by eapply s_root|]. intros v l2 _ _. by apply okay_ret.
Qed.
Lemma wire_one_ok cookie kind l : kind ∈ KINDS → okay (wire_one env cookie kind)
  (λ _ l', kind_done l' cookie kind) l.
Proof.
  intros Hkind. unfold wire_one, optional_secret. eapply okay_then.
  { instantiate (1 := λ v _, v = None → env (to_uppercase kind +:+ "_API_KEY") = None). destruct (_ || _) eqn:E.
    - eapply okay_then; [apply read_files|]. intros v l1 _ _. by apply okay_ret.
    - apply okay_ret. intros _. apply orb_false_iff in E as [_ E%bool_decide_eq_false]. destruct (env (_ +:+ _)); [by destruct E|done]. }
  intros [key|] l1 _ Hn; cbn beta in Hn; [|apply okay_ret; left; by apply Hn]. unfold arr_of. cbv zeta. eapply okay_then.
  { eapply okay_then; [apply need_ok|]. intros port ? _ [_ ->]. apply (okay_ret _ _ _ (λ a _, ar_kind a = kind)). done. }
  intros a l2 _ Ek. cbn beta in Ek. eapply okay_then.
  { unfold wait. apply (retry_ok allowed _ _ _ (λ _ _, True)); [intros; by left|]. intros l' _.
    eapply okay_then; [apply (value_ok allowed (req (arr_server a) "GET" "/system/status")); left; apply arr_quiet|]. intros v l3 _ _. by apply okay_ret. }
  intros ? l3 _ _. eapply okay_then; [apply root_ok|]. intros added l4 _ _. eapply okay_then.
  { instantiate (1 := λ _ _, True). destruct added; [by apply say_ok|by apply okay_ret]. }
  intros ? l5 _ _. eapply okay_mono.
  - apply (for_each_all allowed _ (λ is4k l', server_done l' cookie a is4k)).
    + intros is4k l0 l'. apply server_done_later.
    + intros is4k l' _ _. apply ensure_server_ok. by rewrite Ek.
  - intros ? l6 _ Hall. right. by exists a.
Qed.
Lemma read_setup_ok l : okay (read_setup env) (λ s _, env "ADMIN_EMAIL" = Some (su_email s)) l.
Proof.
  unfold read_setup. cbv zeta. eapply okay_then; [apply need_ok|]. intros port ? _ [_ ->]. eapply okay_then; [apply read_files|]. intros password l1 _ _.
  eapply okay_then; [apply need_ok|]. intros email ? _ [He ->]. by apply okay_ret.
Qed.
Lemma ready_later l l' : l `prefix_of` l' → ready l → ready l'.
Proof.
  intros Hl (cookie & Hr). exists cookie. destruct Hr as [[Hs Ha]|(keep & libs & Hs & Hr)].
  - left. split; [destruct Hs; [left|right]; by eapply shown_later|by eapply accepted_later].
  - right. exists keep, libs. split; [by eapply synced_later|]. destruct Hr as [?|Ha]; [by left|right; by eapply accepted_later].
Qed.
Lemma seerr_run_ok l : okay (run env) (λ _ l', ready l' ∧ ∃ cookie, Forall (kind_done l' cookie) KINDS) l.
Proof.
  unfold run. eapply okay_then; [apply read_setup_ok|]. intros s l1 _ He. cbn beta in He. eapply okay_then.
  { apply (retry_ok allowed _ _ _ (λ v l', answered l' (public_req env) v)); [intros; by left|]. intros l' _. apply value_ok. left. apply public_quiet. }
  intros public l2 _ Hp. cbn beta in Hp. assert (∀ l', l2 `prefix_of` l' → shown l' (is_initialized public) (is_fresh public)) as Hsh.
  { intros l' Hl'. exists public. split; [by eapply answered_later|done]. }
  eapply okay_then; [by apply (say_ok _ _ (λ _ l', l' = l2))|]. intros ? ? _ ->. eapply okay_then.
  { apply sr_login_ok. intros Ef. specialize (Hsh l2 (reflexivity l2)). rewrite Ef in Hsh. unfold is_fresh in Ef. apply andb_true_iff in Ef as [Ei _]. apply negb_true_iff in Ei. by rewrite Ei in Hsh. }
  intros cookie l3 Hl3 _. eapply okay_then; [by apply (say_ok _ _ (λ _ l', l' = l3))|]. intros ? ? _ ->. eapply okay_then; [by apply email_ok|]. intros ? l4 Hl4 _.
  eapply okay_then.
  { instantiate (1 := λ _ l', ready l'). destruct (is_initialized public) eqn:Ei; [apply reconcile_ok|]. apply sr_wizard_ok.
    assert (shown l4 false (is_fresh public)) as Hs4 by (apply Hsh; etrans; [exact Hl3|exact Hl4]). destruct (is_fresh public); [by left|by right]. }
  intros ? l5 _ Hr. cbn beta in Hr. eapply okay_mono.
  - apply (for_each_all allowed _ (λ kind l', kind_done l' cookie kind)); [intros kind l0 l'; apply kind_done_later|intros kind l' Hin _; by apply wire_one_ok].
  - intros ? l6 Hl6 Hall. split; [by eapply ready_later|by exists cookie].
Qed.

(** Whatever Seerr, Radarr and Sonarr answer, a run tells Seerr which libraries are on only with every one that was shown to be on
    (or, in the wizard, all of them), changes the address of the account it is only where it differs, marks the wizard as finished
    only after the scan was accepted, adds a server only where none of its name and kind was listed, and rewrites one only where it
    differs; what is on stays on. A run that ends well leaves Seerr initialised, with the wanted libraries on and, for each app with a
    key, the servers as they are wanted or accepted by Seerr. *)
Theorem seerr_due outside out l : ∃ k, (exec Ans outside (run env out) l).1 = l ++ k ∧
  (∀ k1 e k2, k = k1 ++ e :: k2 → quiet (e_act e) ∨ due (l ++ k1) (e_act e)) ∧
  (∀ keep want id, id ∈ keep → id ∈ join_ids keep want) ∧
  ∀ out', (exec Ans outside (run env out) l).2 = Ok (out', Ok ()) → ready (l ++ k) ∧ ∃ cookie, Forall (kind_done (l ++ k) cookie) KINDS.
Proof.
  destruct (exec_holds Ans allowed outside _ _ _ (seerr_run_ok l out)) as [HQ (k & Ek & Hk)]. exists k. split; [exact Ek|]. split; [exact Hk|].
  split; [intros keep want id Hin; apply join_ids_in; by left|]. intros out' E. rewrite E in HQ. rewrite <- Ek. by destruct HQ.
Qed.
End posts.
