(* ===== verification/Ryot.v ===== *)
(** * Setting up Ryot ([apps/app-bootstrap/src/{ryot,ryot_wire,ryot_trakt}.rs])

    The admin's account, the session a one-use access link gives, the integrations and imports made in it, and the Trakt
    import with the duplicates it leaves. Identifiers and GUIDs are ASCII; a column of another type is an error. *)

From Stdlib Require Import Ascii.
From stdpp Require Import options.
From S2P Require Import Prelude F64 Text Json Codec Threads Trace Markers Apps Bootstrap Servarr Keycloak Ombi SeerrSetup.

Definition LINK_NAME : string := "app-bootstrap".
Definition WEBHOOK_GUID : string := "71552a5a5c5c4350a2aeebe451a30173".
Definition WEBHOOK_NAME : string := "Ryot".
Definition INTEGRATION_FIELDS : string := "id name provider isDisabled minimumProgress maximumProgress providerSpecifics { jellyfinSinkUsername audiobookshelfBaseUrl audiobookshelfToken komgaBaseUrl komgaApiKey radarrBaseUrl radarrApiKey radarrProfileId radarrRootFolderPath radarrSyncCollectionIds radarrTagIds sonarrBaseUrl sonarrApiKey sonarrProfileId sonarrRootFolderPath sonarrSyncCollectionIds sonarrTagIds }".

(** ** Integrations *)

(** Every key of [want] has the same value in [have]. *)
Definition subset (have want : Value) : bool := match want with Object w => forallb (λ kv, has_value kv.1 kv.2 have) w | _ => false end.
Definition is_integration (name provider : string) (i : Value) : bool := is_text (i.["name"]) name && is_text (i.["provider"]) provider.
Definition find (l : list Value) (name provider : string) : option Value := List.find (is_integration name provider) l.
Definition needs_write (have : option Value) (specifics : Value) : bool :=
  match have with
  | None => true
  | Some h => bool_decide (as_bool (h.["isDisabled"]) = Some true) || is_null (h.["minimumProgress"]) || negb (subset (h.["providerSpecifics"]) specifics)
  end.
Definition integration_input (have : option Value) (name provider : string) (specifics : Value) : Value :=
  let input := json_object [("name", Str name); ("provider", Str provider); ("isDisabled", Bool false); ("minimumProgress", Str "2"); ("maximumProgress", Str "95");
    ("syncToOwnedCollection", Bool false); ("extraSettings", json_object [("disableOnContinuousErrors", Bool true)]); ("providerSpecifics", specifics)] in
  match h ← have; as_str (h.["id"]) with Some id => set_key "integrationId" (Str id) input | None => input end.

(** ** The webhook of Jellyfin *)

Definition is_dash (c : ascii) : bool := bool_decide (c = "-"%char).
Definition no_dashes (g : string) : string := str (List.filter (λ c, negb (is_dash c)) (chars g)).
Definition piece (from to : nat) (s : string) : string := str (take (to - from) (drop from (chars s))).
Definition dashed (g : string) : string :=
  let g := to_lowercase (no_dashes g) in
  if negb (String.length g =? 32)%nat then g
  else piece 0 8 g +:+ "-" +:+ piece 8 12 g +:+ "-" +:+ piece 12 16 g +:+ "-" +:+ piece 16 20 g +:+ "-" +:+ piece 20 32 g.
Definition desired_webhook (uri user_id : string) : Value :=
  json_object [("WebhookName", Str WEBHOOK_NAME); ("WebhookUri", Str uri); ("NotificationTypes", Array [Str "PlaybackStart"; Str "PlaybackStop"]); ("EnableMovies", Bool true);
    ("EnableEpisodes", Bool true); ("EnableSeries", Bool false); ("EnableSeasons", Bool false); ("EnableAlbums", Bool false); ("EnableSongs", Bool false); ("EnableVideos", Bool false);
    ("SendAllProperties", Bool true); ("TrimWhitespace", Bool false); ("SkipEmptyMessageBody", Bool false); ("EnableWebhook", Bool true); ("Template", Str "");
    ("UserFilter", Array [Str (dashed user_id)]); ("Headers", Array [json_object [("Key", Str "Content-Type"); ("Value", Str "application/json")]]); ("Fields", Array [])].
(** The texts of an array. *)
Definition texts (v : Value) : option (list string) := match as_array v with Some l => Some (omap as_str l) | None => None end.
Definition same_field (o : Value) (kv : string * Value) : bool :=
  if String.eqb kv.1 "UserFilter" then bool_decide (option_map (map dashed) (texts (o.[kv.1])) = texts kv.2)
  else if String.eqb kv.1 "Template" then String.eqb (default "" (as_str (o.[kv.1]))) ""
  else has_value kv.1 kv.2 o.
Definition same_webhook (want o : Value) : bool := match want with Object w => forallb (same_field o) w | _ => false end.
(** The destinations so far, whether ours was seen, and whether anything changed. *)
Record Merge : Type := mkMerge { mg_out : list Value; mg_found : bool; mg_changed : bool }.
Definition is_ours (o : Value) : bool := is_text (o.["WebhookName"]) WEBHOOK_NAME.
Definition merge_step (want : Value) (s : Merge) (o : Value) : Merge :=
  if negb (is_ours o) then mkMerge (mg_out s ++ [o]) (mg_found s) (mg_changed s)
  else if mg_found s then mkMerge (mg_out s) true true
  else if same_webhook want o then mkMerge (mg_out s ++ [o]) true (mg_changed s)
  else mkMerge (mg_out s ++ [set_keys (object_of want) o]) true true.
Definition config_with_webhook (current want : Value) : option Value :=
  let cfg := match current with Object m => m | _ => [] end in
  let s := foldl (merge_step want) (mkMerge [] false false) (array_of ((Object cfg).["GenericOptions"])) in
  let out := if mg_found s then mg_out s else mg_out s ++ [want] in
  if mg_found s && negb (mg_changed s) then None else Some (Object (insert_key "GenericOptions" (Array out) cfg)).

(** ** Imports *)

Definition import_done (reports : Value) (source : string) : bool :=
  existsb (λ r, is_text (r.["source"]) source && negb (bool_decide (as_bool (r.["wasSuccess"]) = Some false))) (array_of (reports.["userImportReports"])).
Definition newest_watch (history : Value) : option string := l ← as_array history; h ← head l; as_str (h.["watched_at"]).

(** The programs' own tests. *)
Example ryot_tests :
  (let have disabled minimum := json_object [("id", Str "int_1"); ("name", Str "Komga"); ("provider", Str "KOMGA"); ("isDisabled", Bool disabled); ("minimumProgress", minimum);
     ("providerSpecifics", json_object [("komgaBaseUrl", Str "http://k"); ("komgaApiKey", Str "a"); ("radarrApiKey", Null)])] in
   let specifics key := json_object [("komgaBaseUrl", Str "http://k"); ("komgaApiKey", Str key)] in
   needs_write (Some (have false (Str "2"))) (specifics "a") = false ∧ needs_write (Some (have false (Str "2"))) (specifics "b") = true ∧ needs_write None (Object []) = true ∧
   needs_write (Some (have true (Str "2"))) (json_object [("komgaBaseUrl", Str "http://k")]) = true ∧ needs_write (Some (have false Null)) (Object []) = true) ∧
  dashed "b877e492f8914b63a66ee0765e7efbef" = "b877e492-f891-4b63-a66e-e0765e7efbef" ∧ dashed "B877E492-F891-4B63-A66E-E0765E7EFBEF" = "b877e492-f891-4b63-a66e-e0765e7efbef" ∧
  (let want := desired_webhook "http://ryot/_i/int_1" "b877e492f8914b63a66ee0765e7efbef" in
   let other := json_object [("WebhookName", Str "Other"); ("WebhookUri", Str "http://x")] in
   let options c := match c with Some c => c.["GenericOptions"] | None => Null end in
   config_with_webhook (json_object [("ServerUrl", Str ""); ("GenericOptions", Array [other])]) want =
     Some (json_object [("ServerUrl", Str ""); ("GenericOptions", Array [other; want])]) ∧
   config_with_webhook (json_object [("GenericOptions", Array [other; set_key "Extra" (json_i64 1) (set_key "Template" Null want)])]) want = None ∧
   options (config_with_webhook (json_object [("GenericOptions", Array [set_key "WebhookUri" (Str "http://ryot/_i/int_old") want])]) want) = Array [want] ∧
   options (config_with_webhook (Object []) want) = Array [want]) ∧
  newest_watch (Array [Object [("id", json_i64 1); ("watched_at", Str "2026-10-15T20:15:30.000Z")]; Object [("watched_at", Str "2026-10-01T00:00:00.000Z")]]) = Some "2026-10-15T20:15:30.000Z" ∧
  newest_watch (Array []) = None ∧ newest_watch (Object [("error", Str "x")]) = None.
Proof. vm_compute. done. Qed.

Section ryot.
Context `{SerdeJson, Libs} (env : string → option string).
Implicit Types (url key kind : string).

(** ** GraphQL, as a user or anonymously *)

Definition gql_req url (key : option string) (query : string) (variables : Value) : Req :=
  let rq := with_body (JsonBody (json_object [("query", Str query); ("variables", variables)])) (plain "POST" url) in
  match key with Some k => with_header (bearer k) rq | None => rq end.
Definition gql url (key : option string) (query : string) (variables : Value) : Job Value :=
  r ← send (gql_req url key query variables); r ← ok r "ryot graphql"; body ← json_body r;
  match body.["errors"] with
  | Array (_ :: _ as errors) => fail ("ryot graphql: " +:+ join "; " (omap (λ e, as_str (e.["message"])) errors))
  | _ => mret (body.["data"])
  end.
Record Session : Type := mkSession { ry_url : string; ry_key : string }.
Definition q (ry : Session) (query : string) (variables : Value) : Job Value := gql (ry_url ry) (Some (ry_key ry)) query variables.
Definition none : Value := Object [].
Definition input (v : Value) : Value := json_object [("input", v)].
Definition INTEGRATIONS : string := "{ userIntegrations { " +:+ INTEGRATION_FIELDS +:+ " } }".
Definition integrations (ry : Session) : Job (list Value) := d ← q ry INTEGRATIONS none; mret (array_of (d.["userIntegrations"])).
Definition WRITE_INTEGRATION : string := "mutation($input: CreateOrUpdateUserIntegrationInput!) { createOrUpdateUserIntegration(input: $input) }".
Definition ensure_integration (ry : Session) (l : list Value) (name provider : string) (specifics : Value) : Job () :=
  let have := find l name provider in
  if negb (needs_write have specifics) then say ("ryot integration " +:+ name +:+ " up to date")
  else
    _ ← q ry WRITE_INTEGRATION (input (integration_input have name provider specifics));
    say ("ryot integration " +:+ name +:+ (if bool_decide (is_Some have) then " updated" else " created")).

(** ** Jellyfin *)

Definition jf_base : string := no_slash (var env "JELLYFIN_URL" "http://jellyfin.media.svc.cluster.local:8096").
Definition quoted (s : string) : string := quote +:+ s +:+ quote.
Definition jf_header (token : option string) : string :=
  "MediaBrowser Client=" +:+ quoted "app-bootstrap" +:+ ", Device=" +:+ quoted "ryot" +:+ ", DeviceId=" +:+ quoted "app-bootstrap-ryot" +:+ ", Version=" +:+ quoted "1" +:+
  match token with Some t => ", Token=" +:+ quoted t | None => "" end.
Definition jf_call (token : option string) (method path : string) : Req := with_header ("x-emby-authorization", jf_header token) (plain method (jf_base +:+ path)).
Definition jf_login (password : string) : Req :=
  with_body (JsonBody (json_object [("Username", Str (var env "JELLYFIN_ADMIN_USER" "admin")); ("Pw", Str password)])) (jf_call None "POST" "/Users/AuthenticateByName").
Definition has_plugin (plugins : Value) : bool :=
  existsb (λ p, bool_decide ((λ i, to_lowercase (no_dashes i)) <$> as_str (p.["Id"]) = Some WEBHOOK_GUID) && is_text (p.["Status"]) "Active") (array_of plugins).
Definition user_id (users : Value) (username : string) : option string :=
  u ← List.find (λ u, match as_str (u.["Name"]) with Some n => eq_ignore_ascii_case n username | None => false end) (array_of users); as_str (u.["Id"]).
Definition jf_user (password username : string) : Job (string * string) :=
  r ← send (jf_login password); r ← ok r "jellyfin login"; auth ← json_body r;
  token ← need (as_str (auth.["AccessToken"])) "jellyfin login: no AccessToken";
  r ← send (jf_call (Some token) "GET" "/Plugins"); r ← ok r "GET /Plugins"; plugins ← json_body r;
  if negb (has_plugin plugins) then fail "Webhook plugin not installed/active yet (jellyfin-bootstrap PLUGINS)"
  else
    r ← send (jf_call (Some token) "GET" "/Users"); r ← ok r "GET /Users"; users ← json_body r;
    id ← need (user_id users username) ("no jellyfin user " +:+ username +:+ " yet (first SSO login creates it)");
    mret (token, id).
Definition CONFIGURATION : string := "/Plugins/" +:+ dashed WEBHOOK_GUID +:+ "/Configuration".
Definition webhook_req (token : string) (cfg : Value) : Req := with_body (JsonBody cfg) (jf_call (Some token) "POST" CONFIGURATION).
Definition required name : Job string := v ← optional_secret env name; need v name.
Definition jellyfin_webhook (sink_url username : string) : Job () :=
  password ← required "JELLYFIN_ADMIN_PASSWORD";
  '(token, user_id) ← retry "waiting for the jellyfin webhook plugin" 60 (jf_user password username);
  r ← send (jf_call (Some token) "GET" CONFIGURATION); r ← ok r "GET webhook configuration"; current ← json_body r;
  match config_with_webhook current (desired_webhook sink_url user_id) with
  | None => say "jellyfin webhook destination Ryot up to date"
  | Some cfg =>
      r ← send (webhook_req token cfg); _ ← ok r "POST webhook configuration";
      say ("jellyfin webhook destination Ryot -> " +:+ sink_url)
  end.

(** ** Keys of Audiobookshelf and Komga *)

Definition or_else {A} (x y : option A) : option A := match x with Some _ => x | None => y end.
(** The key that is stored, if it still works. *)
Definition still_works (current : option string) (rq : string → Req) : Job (option string) :=
  match current with
  | Some t => if bool_decide (t = "") then mret None else r ← send (rq t); mret (if is_success (rs_status r) then Some t else None)
  | None => mret None
  end.
Definition ryot_ids (field : string) (keys : list Value) : list string :=
  (λ k, default "" (as_str (k.["id"]))) <$> List.filter (λ k, is_text (k.[field]) "ryot") keys.
Definition abs_me (base t : string) : Req := with_header (bearer t) (plain "GET" (base +:+ "/api/me")).
Definition abs_login (base password : string) : Req :=
  with_body (JsonBody (json_object [("username", Str (var env "AUDIOBOOKSHELF_USER" (var env "OIDC_USERNAME" "tristan"))); ("password", Str password)]))
    (with_header ("x-return-tokens", "true") (plain "POST" (base +:+ "/login"))).
Definition abs_keys (base session : string) : Req := with_header (bearer session) (plain "GET" (base +:+ "/api/api-keys")).
Definition abs_delete (base session id : string) : Req := with_header (bearer session) (plain "DELETE" (base +:+ "/api/api-keys/" +:+ id)).
Definition abs_create (base session user_id : string) : Req :=
  with_body (JsonBody (json_object [("name", Str "ryot"); ("userId", Str user_id); ("isActive", Bool true)])) (with_header (bearer session) (plain "POST" (base +:+ "/api/api-keys"))).
Definition abs_token (base : string) (current : option string) : Job string :=
  works ← still_works current (abs_me base);
  match works with
  | Some t => mret t
  | None =>
      password ← required "AUDIOBOOKSHELF_PASSWORD";
      r ← send (abs_login base password); r ← ok r "audiobookshelf login"; login ← json_body r;
      session ← need (or_else (as_str (login.["user"].["accessToken"])) (as_str (login.["user"].["token"]))) "audiobookshelf login: no token";
      user_id ← need (as_str (login.["user"].["id"])) "audiobookshelf login: no user id";
      r ← send (abs_keys base session); r ← ok r "GET /api/api-keys"; keys ← json_body r;
      _ ← for_each Ans (ryot_ids "name" (array_of (keys.["apiKeys"]))) (λ id, r ← send (abs_delete base session id); _ ← ok r "DELETE /api/api-keys"; mret ());
      r ← send (abs_create base session user_id); r ← ok r "POST /api/api-keys"; made ← json_body r;
      _ ← say "audiobookshelf: new API key ryot";
      need (or_else (as_str (made.["apiKey"].["apiKey"])) (as_str (made.["apiKey"].["token"]))) "POST /api/api-keys: no key in the answer"
  end.
Definition komga_me (base k : string) : Req := with_header ("x-api-key", k) (plain "GET" (base +:+ "/api/v2/users/me")).
Definition komga_req (base email password method path : string) : Req := with_header (basic email password) (plain method (base +:+ "/api/v2/users/me/api-keys" +:+ path)).
Definition komga_delete (base email password id : string) : Req := komga_req base email password "DELETE" ("/" +:+ id).
Definition komga_create (base email password : string) : Req := with_body (JsonBody (json_object [("comment", Str "ryot")])) (komga_req base email password "POST" "").
Definition komga_key (base : string) (current : option string) : Job string :=
  works ← still_works current (komga_me base);
  match works with
  | Some k => mret k
  | None =>
      email ← need (env "KOMGA_EMAIL") "set KOMGA_EMAIL";
      password ← required "KOMGA_PASSWORD";
      r ← send (komga_req base email password "GET" ""); r ← ok r "GET api-keys"; keys ← json_body r;
      _ ← for_each Ans (ryot_ids "comment" (array_of keys)) (λ id, r ← send (komga_delete base email password id); _ ← ok r "DELETE api-key"; mret ());
      r ← send (komga_create base email password); r ← ok r "POST api-keys"; made ← json_body r;
      _ ← say "komga: new API key ryot";
      need (as_str (made.["key"])) "POST api-keys: no key in the answer"
  end.

(** ** Radarr, Sonarr *)

Definition collection_name : string := var env "REQUEST_COLLECTION" "Request".
Definition COLLECTIONS : string := "{ userCollectionsList { response { id name } } }".
Definition find_collection (d : Value) : option string :=
  c ← List.find (λ c, is_text (c.["name"]) collection_name) (array_of (d.["userCollectionsList"].["response"])); as_str (c.["id"]).
Definition WRITE_COLLECTION : string := "mutation($input: CreateOrUpdateCollectionInput!) { createOrUpdateCollection(input: $input) { id } }".
Definition collection_input : Value :=
  json_object [("name", Str collection_name); ("description", Str "Added to Radarr (movies) or Sonarr (shows) by Ryot's push integrations.")].
Definition request_collection (ry : Session) : Job string :=
  d ← q ry COLLECTIONS none;
  match find_collection d with
  | Some id => mret id
  | None =>
      d ← q ry WRITE_COLLECTION (input collection_input);
      _ ← say ("ryot: created collection " +:+ collection_name);
      need (as_str (d.["createOrUpdateCollection"].["id"])) "createOrUpdateCollection: no id"
  end.
Definition specifics kind (base key root collection : string) (pid : Z) : Value :=
  json_object [(kind +:+ "BaseUrl", Str base); (kind +:+ "ApiKey", Str key); (kind +:+ "ProfileId", json_i64 pid); (kind +:+ "RootFolderPath", Str root);
    (kind +:+ "SyncCollectionIds", Array [Str collection]); (kind +:+ "TagIds", Array [])].
Definition arr_specifics kind (collection : string) : Job (option Value) :=
  let up := to_uppercase kind in
  key ← optional_secret env (up +:+ "_API_KEY");
  match key with
  | None => mret None
  | Some key =>
      let base := var env (up +:+ "_URL") ("http://" +:+ kind +:+ ".media.svc.cluster.local") in
      let root := var env (up +:+ "_ROOT") (if String.eqb kind "radarr" then "/media/movies" else "/media/tv") in
      let s := mkServarr base key "v3" in
      _ ← wait s kind;
      profiles ← Servarr.get s "/qualityprofile";
      p ← need (pick_profile (read_profiles profiles) (var env (up +:+ "_PROFILE") "") false) (kind +:+ ": no quality profile");
      mret (Some (specifics kind base key root collection p.1))
  end.

(** ** Imports *)

Definition REPORTS : string := "{ userImportReports { source wasSuccess finishedOn } }".
Definition DEPLOY : string := "mutation($input: DeployImportJobInput!) { deployImportJob(input: $input) }".
Definition import_once (ry : Session) (source : string) (job : Value) : Job () :=
  d ← q ry REPORTS none;
  if import_done d source then say ("ryot: " +:+ source +:+ " import already done (or running)")
  else _ ← q ry DEPLOY (input (set_key "source" (Str source) job)); say ("ryot: " +:+ source +:+ " import started").
Definition has_secret name : Job bool := v ← optional_secret env name; mret (bool_decide (is_Some v)).
(** What is stored of an integration. *)
Definition stored (l : list Value) (name provider field : string) : option string := i ← find l name provider; as_str (i.["providerSpecifics"].[field]).
Definition wire_audiobookshelf (ry : Session) (l : list Value) : Job () :=
  given ← has_secret "AUDIOBOOKSHELF_PASSWORD";
  if (given : bool) then
    let base := no_slash (var env "AUDIOBOOKSHELF_URL" "http://audiobookshelf.media.svc.cluster.local:13378") in
    token ← abs_token base (stored l "Audiobookshelf" "AUDIOBOOKSHELF" "audiobookshelfToken");
    _ ← ensure_integration ry l "Audiobookshelf" "AUDIOBOOKSHELF" (json_object [("audiobookshelfBaseUrl", Str base); ("audiobookshelfToken", Str token)]);
    import_once ry "AUDIOBOOKSHELF" (json_object [("urlAndKey", json_object [("apiUrl", Str base); ("apiKey", Str token)])])
  else mret ().
Definition wire_komga (ry : Session) (l : list Value) : Job () :=
  given ← has_secret "KOMGA_PASSWORD";
  if (given : bool) then
    let base := no_slash (var env "KOMGA_URL" "http://komga.media.svc.cluster.local:25600") in
    key ← komga_key base (stored l "Komga" "KOMGA" "komgaApiKey");
    ensure_integration ry l "Komga" "KOMGA" (json_object [("komgaBaseUrl", Str base); ("komgaApiKey", Str key)])
  else mret ().
Definition PUSHED : list (string * string * string) := [("radarr", "Radarr", "RADARR"); ("sonarr", "Sonarr", "SONARR")].
Definition wire_arr (ry : Session) (l : list Value) (collection : string) (app : string * string * string) : Job () :=
  let '(kind, name, provider) := app in
  s ← arr_specifics kind collection;
  match s with Some s => ensure_integration ry l name provider s | None => mret () end.
Definition wire_arrs (ry : Session) (l : list Value) : Job () :=
  radarr ← has_secret "RADARR_API_KEY";
  given ← (if (radarr : bool) then mret true else has_secret "SONARR_API_KEY" : Job bool);
  if (given : bool) then collection ← request_collection ry; for_each Ans PUSHED (wire_arr ry l collection) else mret ().
Definition trakt_user : option string := u ← env "TRAKT_USERNAME"; if bool_decide (u = "") then None else Some u.
Definition wire_trakt (ry : Session) : Job () :=
  match trakt_user with Some user => import_once ry "TRAKT" (json_object [("trakt", json_object [("user", Str user)])]) | None => mret () end.
Definition wire_jellyfin (ry : Session) : Job () :=
  given ← has_secret "JELLYFIN_ADMIN_PASSWORD";
  if (given : bool) then
    let username := var env "JELLYFIN_USERNAME" (var env "OIDC_USERNAME" "tristan") in
    l ← integrations ry;
    _ ← ensure_integration ry l "Jellyfin" "JELLYFIN_SINK" (json_object [("jellyfinSinkUsername", Str username)]);
    l ← integrations ry;
    id ← need (i ← find l "Jellyfin" "JELLYFIN_SINK"; as_str (i.["id"])) "jellyfin integration missing after create";
    jellyfin_webhook (no_slash (var env "RYOT_WEBHOOK_BASE" "http://ryot.media.svc.cluster.local:8000") +:+ "/_i/" +:+ id) username
  else mret ().
Definition wire (ry : Session) : Job () :=
  l ← integrations ry;
  _ ← wire_audiobookshelf ry l;
  _ ← wire_komga ry l;
  _ ← wire_arrs ry l;
  _ ← wire_trakt ry;
  wire_jellyfin ry.

(** ** The session *)

Definition execute (statement : string) (params : list Value) : Job () :=
  r ← do Ans (Execute statement params); match r with Ok _ => mret () | Err e => fail e end.
Definition connect_db : Job bool :=
  password ← optional_secret env "RYOT_DB_PASSWORD";
  match password with
  | None => mret false
  | Some password =>
      r ← do Ans (DbConnect (var env "RYOT_DB_HOST" "ryot-rw.media.svc.cluster.local") (var env "RYOT_DB_USER" "ryot") password (var env "RYOT_DB_NAME" "ryot"));
      match r with Ok _ => mret true | Err e => fail e end
  end.
Definition DELETE_LEFT : string := "DELETE FROM access_link WHERE name = $1 AND user_id = $2".
Definition INSERT_LINK : string :=
  "INSERT INTO access_link (id, user_id, name, maximum_uses, is_mutation_allowed, expires_on) VALUES ($1, $2, $3, 1, true, now() + interval '1 hour')".
Definition DELETE_LINK : string := "DELETE FROM access_link WHERE id = $1".
Definition ACCESS : string :=
  "mutation($input: ProcessAccessLinkInput!) { processAccessLink(input: $input) { __typename ... on ProcessAccessLinkResponse { apiKey } ... on ProcessAccessLinkError { error } } }".
Definition LOGOUT : string := "mutation { logoutUser }".
Definition link_of (password : string) : string := "acl_" +:+ piece 2 14 password.
Definition link_input (link : string) : Value := input (json_object [("id", Str link)]).
(** What the task came to, in the session the link was exchanged for. *)
Definition in_session url (link : string) (task : Session → Job ()) : Job (Result () string) :=
  d ← catch Ans (gql url None ACCESS (link_input link));
  match d with
  | Err e => mret (Err e)
  | Ok d =>
      match as_str (d.["processAccessLink"].["apiKey"]) with
      | None => mret (Err "processAccessLink refused")
      | Some key =>
          let ry := mkSession url key in
          res ← catch Ans (task ry);
          bye ← catch Ans (q ry LOGOUT none);
          _ ← match bye with Ok _ => mret () | Err e => say ("ryot logout: " +:+ e) end;
          mret res
      end
  end.
Definition with_session url (user_id : string) (task : Session → Job ()) : Job () :=
  _ ← execute DELETE_LEFT [Str LINK_NAME; Str user_id];
  password ← random_password;
  let link := link_of password in
  _ ← execute INSERT_LINK [Str link; Str user_id; Str LINK_NAME];
  res ← in_session url link task;
  _ ← execute DELETE_LINK [Str link];
  match res with Ok _ => mret () | Err e => fail e end.

(** ** The account ([ryot.rs]) *)

Definition ryot_url : string := no_slash (var env "RYOT_URL" "http://ryot.media.svc.cluster.local:8000") +:+ "/backend/graphql".
Definition run_wire url (user_id : string) : Job () :=
  connected ← connect_db;
  if (connected : bool) then with_session url user_id wire else say "RYOT_DB_PASSWORD unset: not wiring integrations".
Definition BY_ISSUER : string := "query($id: String!) { userByOidcIssuerId(oidcIssuerId: $id) }".
Definition REGISTER : string :=
  "mutation($input: RegisterUserInput!) { registerUser(input: $input) { __typename ... on RegisterError { error } ... on StringIdObject { id } } }".
Definition register_input (email sub token : string) : Value :=
  input (json_object [("data", json_object [("oidc", json_object [("email", Str email); ("issuerId", Str sub)])]); ("lot", Str "ADMIN"); ("adminAccessToken", Str token)]).
Definition run : Job () :=
  token ← secret env "ADMIN_ACCESS_TOKEN";
  kc ← user env;
  email ← need (kc_email kc) "keycloak user has no email (ryot names OIDC users by email)";
  found ← retry "waiting for ryot" 120 (d ← gql ryot_url None BY_ISSUER (json_object [("id", Str (sub kc))]); mret (as_str (d.["userByOidcIssuerId"])));
  match found with
  | Some id => _ ← say ("ryot user " +:+ id +:+ " already linked to " +:+ email); run_wire ryot_url id
  | None =>
      d ← gql ryot_url None REGISTER (register_input email (sub kc) token);
      let r := d.["registerUser"] in
      if is_text (r.["__typename"]) "StringIdObject" then
        id ← need (as_str (r.["id"])) "registerUser: no id";
        _ ← say ("created admin " +:+ id +:+ " for " +:+ email); run_wire ryot_url id
      else fail ("registerUser: " +:+ default "unexpected response" (as_str (r.["error"])))
  end.
End ryot.
