(* ===== verification/RyotDue.v ===== *)
(** * The session of a one-use access link

    However the exchange, the task and the sign-out go, a link that was inserted is deleted at the end. *)

From Stdlib Require Import Ascii.
From stdpp Require Import options.
From S2P Require Import Prelude Text F64 Json Codec Threads Markers Trace Apps Bootstrap Servarr Keycloak Ombi SeerrSetup Ryot.

Section session.
Context `{SerdeJson, Libs} (outside : Log → ∀ x : Act, Ans x).
Implicit Types (l : Log) (out : list string).
Notation event := (Trace.Event Ans).
Notation run m out l := (exec Ans outside (m out) l).

Definition outcome (r : Result () string) : Result () string := match r with Ok _ => Ok () | Err e => Err e end.
Lemma execute_one st ps out l : ∃ r : Result () string, run (execute st ps) out l = (l ++ [mkEvent (Execute st ps) (r : Ans (Execute st ps))], Ok (out, outcome r)).
Proof.
  exists (outside l (Execute st ps)). unfold execute. rewrite exec_bind. cbn. destruct (outside l (Execute st ps)) as [[]|]; done.
Qed.
Lemma run_ret {A B} (a : A) (f : A → Job B) out l : run (mret a ≫= f) out l = run (f a) out l.
Proof. done. Qed.
Lemma run_fail {A B} e (f : A → Job B) out l : run (fail e ≫= f) out l = (l, Ok (out, Err e)).
Proof. done. Qed.
Lemma send_one rq out l : run (send rq) out l =
  (l ++ [mkEvent (Http rq) (outside l (Http rq))], Ok (out, match (outside l (Http rq) : Result Resp string) with Ok r => Ok r | Err e => Err e end)).
Proof. unfold send. rewrite exec_bind. cbn. by destruct (outside l (Http rq)). Qed.
Lemma read_one path out l : run (read_to_string path) out l =
  (l ++ [mkEvent (ReadFile path) (outside l (ReadFile path))], Ok (out, match (outside l (ReadFile path) : option string) with Some t => Ok t | None => Err ("cannot read " +:+ path) end)).
Proof. unfold read_to_string. rewrite exec_bind. cbn. by destruct (outside l (ReadFile path)). Qed.
(** One request, whose answer it reads. *)
Lemma gql_one url key query variables out l : ∃ a r, run (gql url key query variables) out l = (l ++ [mkEvent (Http (gql_req url key query variables)) a], Ok (out, r)).
Proof.
  set (rq := gql_req url key query variables). unfold gql. fold rq. rewrite exec_bind, send_one. generalize (outside l (Http rq)). intros a. exists a. change (Result Resp string) in a.
  destruct a as [r|e]; [|by eexists]. unfold ok. destruct (is_success (rs_status r)); [|rewrite run_fail; by eexists]. rewrite run_ret. unfold json_body.
  destruct (rs_text r) as [t|]; [|rewrite run_fail; by eexists]. destruct (from_str t) as [v|]; [|rewrite run_fail; by eexists]. rewrite run_ret.
  destruct (v.["errors"]) as [| | | |[|]|]; by eexists.
Qed.
Lemma exec_catch {A} (m : Job A) out l : run (catch Ans m) out l = match run m out l with (l', Ok (out', r)) => (l', Ok (out', Ok r)) | (l', Err e) => (l', Err e) end.
Proof. unfold catch. rewrite exec_seq. destruct (run m out l) as [l' [[out' r]|[]]]; done. Qed.

(** What happens between the link and its end: the exchange, and where it gives a key, the task and the sign-out. *)
Definition sent (rq : Req) (a : Ans (Http rq)) : event := mkEvent (Http rq) a.
Definition exchange url (link : string) : Req := gql_req url None ACCESS (link_input link).
Definition sign_out url (key : string) : Req := gql_req url (Some key) LOGOUT none.
Inductive within url (link : string) (task : Session → Job ()) l : Log → Result () string → Prop :=
  | w_refused a e : within url link task l [sent (exchange url link) a] (Err e)
  | w_done a b key out out' k res : run (task (mkSession url key)) out (l ++ [sent (exchange url link) a]) = (l ++ [sent (exchange url link) a] ++ k, Ok (out', res)) →
      within url link task l (sent (exchange url link) a :: k ++ [sent (sign_out url key) b]) res.
Lemma in_session_within url link task out l : ∃ k out' res, run (in_session url link task) out l = (l ++ k, Ok (out', Ok res)) ∧ within url link task l k res.
Proof.
  unfold in_session. rewrite exec_bind, exec_catch. destruct (gql_one url None ACCESS (link_input link) out l) as (a & r & ->). change (mkEvent _ a) with (sent (exchange url link) a). set (e := sent (exchange url link) a). cbv iota beta. destruct r as [d|msg].
  2: { exists [e], out, (Err msg). split; [done|]. apply w_refused. }
  destruct (as_str _) as [key|]. 2: { exists [e], out, (Err "processAccessLink refused"). split; [done|]. apply w_refused. }
  rewrite exec_bind, exec_catch. destruct (exec_grows Ans outside (task (mkSession url key) out) (l ++ [e])) as [k Ek].
  destruct (run (task (mkSession url key)) out (l ++ [e])) as [l1 [[out1 res]|[]]] eqn:Et. cbn [fst] in Ek. subst l1. cbv iota beta.
  rewrite exec_bind, exec_catch. unfold q. cbn [ry_url ry_key]. destruct (gql_one url (Some key) LOGOUT none out1 ((l ++ [e]) ++ k)) as (b & bye & ->). change (mkEvent _ b) with (sent (sign_out url key) b). set (f := sent (sign_out url key) b).
  exists (e :: k ++ [f]), (match bye with Ok _ => out1 | Err m => out1 ++ ["ryot logout: " +:+ m] end), res. split.
  - assert (l ++ e :: k ++ [f] = ((l ++ [e]) ++ k) ++ [f]) as -> by (by rewrite <- !app_assoc). by destruct bye.
  - eapply w_done. etrans; [exact Et|]. by rewrite <- app_assoc.
Qed.

Definition told (x : Act) (a : Ans x) : event := mkEvent x a.
(** The database took a link. *)
Definition is_inserted (e : event) : bool :=
  match e with
  | mkEvent (Execute st _) r => String.eqb st INSERT_LINK && match (r : Result () string) with Ok _ => true | Err _ => false end
  | _ => false
  end.
(** The log a session leaves: stopped before a link was there, or with its link deleted as the last thing. *)
Inductive left_by url (user_id : string) (task : Session → Job ()) l : Log → Result () string → Prop :=
  | l_before k e : length k ≤ 3 → existsb is_inserted k = false → left_by url user_id task l k (Err e)
  | l_removed old seed password mid inner a :
      let link := link_of password in
      let made := [told (Execute DELETE_LEFT [Str LINK_NAME; Str user_id]) old; told (ReadFile "/dev/urandom") seed; told (Execute INSERT_LINK [Str link; Str user_id; Str LINK_NAME]) (Ok () : Result () string)] in
      within url link task (l ++ made) mid inner →
      left_by url user_id task l (made ++ mid ++ [told (Execute DELETE_LINK [Str link]) (a : Result () string)]) (match a with Ok _ => inner | Err e => Err e end).
Lemma random_one out l : ∃ a r, run random_password out l = (l ++ [mkEvent (ReadFile "/dev/urandom") a], Ok (out, r)).
Proof.
  unfold random_password. rewrite exec_bind, read_one. generalize (outside l (ReadFile "/dev/urandom")). intros a. exists a. change (option string) in a.
  destruct a as [t|]; [|by eexists]. destruct (String.length t <? 24)%nat; by eexists.
Qed.

(** C39: However the requests, the task and the database answer, a link that is inserted is deleted as the last thing, once, and only the
    exchange, the task in its session and the sign-out come between; the result is the task's, if the link could be deleted. *)
Theorem link_removed url user_id task out l : ∃ k out' r, run (with_session url user_id task) out l = (l ++ k, Ok (out', r)) ∧ left_by url user_id task l k r.
Proof.
  unfold with_session. rewrite exec_bind. set (x0 := Execute DELETE_LEFT [Str LINK_NAME; Str user_id]). destruct (execute_one DELETE_LEFT [Str LINK_NAME; Str user_id] out l) as (old & ->). fold x0. set (e0 := mkEvent x0 old).
  cbv iota beta. destruct (outcome old) as [[]|msg]; [|exists [e0], out, (Err msg); split; [done|]; by apply l_before; [cbn; lia|]].
  rewrite exec_bind. set (x1 := ReadFile "/dev/urandom"). destruct (random_one out (l ++ [e0])) as (seed & pw & ->). fold x1. set (e1 := mkEvent x1 seed). cbv iota beta.
  destruct pw as [password|msg]; [|exists [e0; e1], out, (Err msg); split; [by rewrite <- app_assoc|]; by apply l_before; [cbn; lia|]].
  cbv zeta. rewrite exec_bind. set (link := link_of password). set (ps := [Str link; Str user_id; Str LINK_NAME]). destruct (execute_one INSERT_LINK ps out ((l ++ [e0]) ++ [e1])) as (ins & ->).
  cbv iota beta. destruct ins as [[]|msg]; cbn [outcome].
  2: { exists [e0; e1; told (Execute INSERT_LINK ps) (Err msg : Result () string)], out, (Err msg). split; [by rewrite <- !app_assoc|]. by apply l_before; [cbn; lia|]. }
  set (made := [e0; e1; told (Execute INSERT_LINK ps) (Ok () : Result () string)]).
  assert (((l ++ [e0]) ++ [e1]) ++ [mkEvent (Execute INSERT_LINK ps) (Ok () : Ans (Execute INSERT_LINK ps))] = l ++ made) as -> by (by rewrite <- !app_assoc).
  rewrite exec_bind. destruct (in_session_within url link task out (l ++ made)) as (mid & out1 & inner & -> & Hw). cbv iota beta.
  rewrite exec_bind. destruct (execute_one DELETE_LINK [Str link] out1 ((l ++ made) ++ mid)) as (a & ->). cbv iota beta.
  exists (made ++ mid ++ [told (Execute DELETE_LINK [Str link]) (a : Result () string)]), out1, (match a with Ok _ => inner | Err e => Err e end). split.
  - rewrite !app_assoc. destruct a as [[]|]; cbn [outcome]; [|done]. by destruct inner as [[]|].
  - by apply (l_removed _ _ _ _ old seed).
Qed.
End session.

(** ** What a session is allowed, if its task is *)

Section judge.
Context `{SerdeJson, Libs} (allowed : Log → Act → Prop).
Context (Hseed : ∀ l, allowed l (ReadFile "/dev/urandom")) (Hlink : ∀ st ps l, st ∈ [DELETE_LEFT; INSERT_LINK; DELETE_LINK] → allowed l (Execute st ps)).
Context (Hexchange : ∀ url link l, allowed l (Http (exchange url link))) (Hsign_out : ∀ url key l, allowed l (Http (sign_out url key))).
Context (Q : Log → Prop) (HQ : ∀ l l', l `prefix_of` l' → Q l → Q l').
Implicit Types (l : Log).
Notation okay := (Trace.okay Ans allowed (St := list string) (Fa := string)).

Lemma gql_okay url (key : option string) query vars l : allowed l (Http (gql_req url key query vars)) → okay (gql url key query vars) (λ _ _, True) l.
Proof using Type.
  intros Hx. unfold gql. eapply okay_then; [by apply request_ok|]. intros r l1 _ _. eapply okay_then; [apply ok_ok|]. intros r' ? _ (-> & -> & _).
  eapply okay_then; [apply json_body_ok|]. intros body ? _ [-> _]. destruct (body.["errors"]) as [| | | |[|]|]; first [apply okay_raise|by apply okay_ret].
Qed.
Lemma execute_okay st ps l : st ∈ [DELETE_LEFT; INSERT_LINK; DELETE_LINK] → okay (execute st ps) (λ _ _, True) l.
Proof using Hlink.
  intros Hs. unfold execute. apply okay_bind. refine (okay_do Ans allowed (Execute st ps) _ _ _ _); [by apply Hlink|]. intros [[]|e]; [by apply okay_ret|apply okay_raise].
Qed.
Lemma session_okay url user_id task l : (∀ ry l', l `prefix_of` l' → okay (task ry) (λ _ l'', Q l'') l') → okay (with_session url user_id task) (λ _ l', Q l') l.
Proof using Hseed Hlink Hexchange Hsign_out HQ.
  intros Ht. unfold with_session. eapply okay_then; [apply execute_okay; by left|]. intros ? l1 Hl1 _. eapply okay_then.
  { instantiate (1 := λ _ _, True). unfold random_password. eapply okay_then; [apply read_file_okay; apply Hseed|]. intros t l2 _ _. destruct (_ <? _)%nat; [apply okay_raise|by apply okay_ret]. }
  intros password l2 Hl2 _. cbv zeta. eapply okay_then; [apply execute_okay; right; by left|]. intros ? l3 Hl3 _. eapply okay_then.
  { instantiate (1 := λ r l', match r with Ok _ => Q l' | Err _ => True end). unfold in_session. eapply okay_then; [apply catch_any, gql_okay, Hexchange|]. intros [d|e] l4 Hl4 _; [|by apply okay_ret].
    destruct (as_str _) as [key|]; [|by apply okay_ret]. cbv zeta. eapply okay_then; [apply catch_any, Ht; do 3 (etrans; [eassumption|]); done|]. intros res l5 Hl5 Hr. cbn beta in Hr.
    eapply okay_then; [apply catch_any, (gql_okay url (Some key)), Hsign_out|]. intros bye l6 Hl6 _. eapply okay_then.
    - instantiate (1 := λ _ _, True). destruct bye; [by apply okay_ret|by apply say_ok].
    - intros ? l7 Hl7 _. apply okay_ret. destruct res; [|done]. eapply HQ; [|exact Hr]. etrans; [exact Hl6|exact Hl7]. }
  intros res l4 Hl4 Hr. cbn beta in Hr. eapply okay_then; [apply execute_okay; right; right; by left|]. intros ? l5 Hl5 _. destruct res; [apply okay_ret; eapply HQ; [exact Hl5|exact Hr]|apply okay_raise].
Qed.
End judge.

(** ** What setting up Ryot writes

    The webhook's destination settles in the plugin's configuration, and every mutation is due by what was answered. *)

(** ** Objects made of fields *)

Lemma insert_key_perm {A} k (x : A) m : k ∉ m.*1 → insert_key k x m ≡ₚ (k, x) :: m.
Proof.
  induction m as [|[k' y] m IH]; [done|]. cbn [fmap list_fmap fst insert_key]. intros [Hk Hm]%not_elem_of_cons. destruct (String.compare k k') eqn:E; [|done|].
  - by apply String.compare_eq_iff in E.
  - rewrite IH by done. apply Permutation_swap.
Qed.
Lemma json_object_perm l : NoDup l.*1 → ∃ m, json_object l = Object m ∧ m ≡ₚ l.
Proof.
  intros Hnd. unfold json_object. eexists. split; [done|].
  assert (∀ m, NoDup (m.*1 ++ l.*1) → foldl (λ m kv, insert_key kv.1 kv.2 m) m l ≡ₚ m ++ l) as Hg; [|by apply Hg].
  induction l as [|[k x] l IH]; intros m Hm; cbn [foldl fmap list_fmap fst snd] in *; [by rewrite app_nil_r|]. apply NoDup_cons in Hnd as [_ Hnd].
  assert (k ∉ m.*1) as Hk. { apply NoDup_app in Hm as (_ & Hd & _). intros Hin. apply (Hd k Hin). by left. }
  assert (insert_key k x m ≡ₚ (k, x) :: m) as Hp by (by apply insert_key_perm). rewrite IH; [|done|].
  - rewrite Hp. apply Permutation_middle.
  - rewrite (fmap_Permutation fst _ _ Hp). cbn. rewrite <- Permutation_middle in Hm. exact Hm.
Qed.
Lemma set_keys_all (w : list (string * Value)) m : NoDup w.*1 → ∃ m', set_keys w (Object m) = Object m' ∧ (∀ kv, kv ∈ w → assoc kv.1 m' = Some kv.2) ∧ ∀ k, k ∉ w.*1 → assoc k m' = assoc k m.
Proof.
  revert m. induction w as [|[k x] w IH]; intros m Hnd; [exists m; split_and!; [done|by intros ? ?%elem_of_nil|done]|]. cbn [fmap list_fmap fst] in Hnd. apply NoDup_cons in Hnd as [Hk Hnd].
  destruct (IH (insert_key k x m) Hnd) as (m' & E & HA & HB). exists m'. split_and!; [done| |].
  - intros kv [->|Hin]%elem_of_cons; [|by apply HA]. cbn. rewrite HB by done. apply assoc_insert.
  - intros j [Hj1 Hj2]%not_elem_of_cons. rewrite HB by done. by apply assoc_insert_ne.
Qed.

(** ** GUIDs *)

(** The digits of a GUID: in lower case, without dashes. *)
Definition plain_digits (l : list ascii) : Prop := Forall (λ c, to_lower_char c = c ∧ is_dash c = false) l.
Lemma lower_undashed c : is_dash c = false → to_lower_char (to_lower_char c) = to_lower_char c ∧ is_dash (to_lower_char c) = false.
Proof. by destruct c as [[] [] [] [] [] [] [] []]. Qed.
Lemma core_plain g : plain_digits (chars (to_lowercase (no_dashes g))).
Proof.
  unfold to_lowercase, no_dashes. rewrite !chars_str. apply Forall_fmap, Forall_forall. intros c Hc. apply list_elem_of_In, filter_In in Hc as [_ Hc]. apply negb_true_iff in Hc.
  by apply lower_undashed.
Qed.
Lemma undash_plain l : plain_digits l → List.filter (λ c, negb (is_dash c)) l = l.
Proof. induction 1 as [|c l [_ Hc] _ IH]; cbn; [done|]. by rewrite Hc, IH. Qed.
Lemma lower_plain l : plain_digits l → to_lower_char <$> l = l.
Proof. induction 1 as [|c l [Hc _] _ IH]; cbn; [done|]. by rewrite Hc, IH. Qed.
Lemma pieces {A} (l : list A) : length l = 32 → l = take 8 l ++ take 4 (drop 8 l) ++ take 4 (drop 12 l) ++ take 4 (drop 16 l) ++ take 12 (drop 20 l).
Proof. intros Hl. do 32 (destruct l as [|? l]; [done|]). by destruct l. Qed.
Definition shape (s : string) : string :=
  if negb (String.length s =? 32)%nat then s
  else piece 0 8 s +:+ "-" +:+ piece 8 12 s +:+ "-" +:+ piece 12 16 s +:+ "-" +:+ piece 16 20 s +:+ "-" +:+ piece 20 32 s.
Lemma core_shape s : plain_digits (chars s) → to_lowercase (no_dashes (shape s)) = s.
Proof.
  intros Hs. apply (inj chars). unfold to_lowercase, no_dashes, shape. rewrite !chars_str. destruct (_ =? _)%nat eqn:E; cbn [negb].
  2: { by rewrite undash_plain, lower_plain. }
  apply Nat.eqb_eq in E. rewrite length_chars in E. rewrite !chars_app. unfold piece. rewrite !chars_str, !List.filter_app.
  assert (∀ a b, plain_digits (take a (drop b (chars s)))) as Hp by (intros; by apply Forall_take, Forall_drop).
  rewrite !(undash_plain (take _ (drop _ (chars s)))) by (apply Hp). change (List.filter (λ c, negb (is_dash c)) (chars "-")) with (@nil ascii). cbn [app].
  cbn [Nat.sub]. rewrite drop_0. by rewrite <- (pieces (chars s)), lower_plain.
Qed.
Lemma dashed_idem g : dashed (dashed g) = dashed g.
Proof. change (shape (to_lowercase (no_dashes (shape (to_lowercase (no_dashes g))))) = shape (to_lowercase (no_dashes g))). by rewrite core_shape by apply core_plain. Qed.

(** ** The destination *)

(** A field that is there as it is wanted counts as the same. *)
Definition wanted_field (kv : string * Value) : Prop := ∀ o, get_key kv.1 o = Some kv.2 → same_field o kv = true.
Lemma get_index k v x : get_key k v = Some x → v.[k] = x.
Proof. destruct v; try done. cbn. by intros ->. Qed.
Lemma wanted_plain k x : k ≠ "UserFilter" → k ≠ "Template" → json_wf x = true → wanted_field (k, x).
Proof.
  intros H1 H2 Hw o Ho. unfold same_field. cbn [fst snd] in *. destruct (String.eqb_spec k "UserFilter"); [done|]. destruct (String.eqb_spec k "Template"); [done|].
  unfold has_value. rewrite Ho. by apply value_eqb_refl.
Qed.
Lemma desired_fields uri id : ∃ w, desired_webhook uri id = Object w ∧ NoDup w.*1 ∧ Forall wanted_field w ∧ ("WebhookName", Str WEBHOOK_NAME) ∈ w.
Proof.
  unfold desired_webhook. match goal with |- context[json_object ?l] => set (fields := l) end. assert (NoDup fields.*1) as Hnd by (apply (bool_decide_unpack _); vm_compute; done).
  destruct (json_object_perm fields Hnd) as (w & -> & Hp). exists w. split; [done|]. split; [by rewrite (fmap_Permutation fst _ _ Hp)|]. split.
  - rewrite Hp. unfold fields. repeat (apply Forall_cons; split; [try by apply wanted_plain|]); [| |by apply Forall_nil].
    + intros o Ho. unfold same_field. cbn [fst snd] in *. apply get_index in Ho. cbn [String.eqb Ascii.eqb Bool.eqb]. by rewrite Ho.
    + intros o Ho. unfold same_field. cbn [fst snd] in *. apply get_index in Ho. rewrite Ho. cbn. rewrite dashed_idem. by rewrite bool_decide_eq_true_2.
  - rewrite Hp. by left.
Qed.

Section merge.
Context (w : list (string * Value)) (Hnd : NoDup w.*1) (Hw : Forall wanted_field w) (Hname : ("WebhookName", Str WEBHOOK_NAME) ∈ w).
Implicit Types (o : Value) (l : list Value).
Definition has_ours want l : Prop := ∃ o, List.filter is_ours l = [o] ∧ same_webhook want o = true.
Definition others l : list Value := List.filter (λ o, negb (is_ours o)) l.

Lemma placed_ours m : (∀ kv, kv ∈ w → assoc kv.1 m = Some kv.2) → is_ours (Object m) = true ∧ same_webhook (Object w) (Object m) = true.
Proof using Hw Hname.
  intros Hm. split.
  - unfold is_ours, is_text. cbn [index]. pose proof (Hm _ Hname) as E. cbn in E. by rewrite E.
  - cbn. apply forallb_forall. intros kv Hin%list_elem_of_In. rewrite Forall_forall in Hw. apply (Hw kv Hin). by apply Hm.
Qed.
Lemma rm_assoc_in (kv : string * Value) : kv ∈ w → assoc kv.1 w = Some kv.2.
Proof using Hnd.
  clear Hw Hname. induction w as [|[k x] w' IH]; [by intros ?%elem_of_nil|]. cbn [fmap list_fmap fst] in Hnd. apply NoDup_cons in Hnd as [Hk Hnd']. intros [->|Hin]%elem_of_cons; cbn; [by rewrite decide_True|].
  rewrite decide_False; [by apply IH|]. intros E. apply Hk. rewrite <- E. by apply list_elem_of_fmap_2.
Qed.
Lemma merged_ours o : is_ours o = true → is_ours (set_keys w o) = true ∧ same_webhook (Object w) (set_keys w o) = true.
Proof using Hnd Hw Hname.
  intros Ho. destruct (index_object o "WebhookName") as [m ->]; [intros E; unfold is_ours, is_text in Ho; by rewrite E in Ho|].
  destruct (set_keys_all w m Hnd) as (m' & -> & HA & _). by apply placed_ours.
Qed.
Definition merged l (s : Merge) : Prop := others (mg_out s) = others l ∧ mg_found s = existsb is_ours l ∧
  (if mg_found s then has_ours (Object w) (mg_out s) else List.filter is_ours (mg_out s) = []) ∧ (mg_changed s = false → mg_out s = l).
Lemma merge_one l s o : merged l s → merged (l ++ [o]) (merge_step (Object w) s o).
Proof using Hnd Hw Hname.
  intros (Ho & Hf & Hx & Hc). unfold merge_step, merged, others in *. rewrite !List.filter_app, existsb_app. cbn [existsb List.filter]. destruct (is_ours o) eqn:E; cbn [negb].
  - destruct (mg_found s) eqn:Ef; cbn [mg_out mg_found mg_changed].
    + rewrite app_nil_r, <- Hf. by split_and!.
    + assert (∀ o', is_ours o' = true → same_webhook (Object w) o' = true → has_ours (Object w) (mg_out s ++ [o'])) as Hnew.
      { intros o' Ho' Hs. exists o'. rewrite List.filter_app, Hx. cbn. by rewrite Ho'. }
      destruct (same_webhook (Object w) o) eqn:Es; cbn [mg_out mg_found mg_changed].
      * rewrite List.filter_app, Ho. cbn [List.filter]. rewrite E. cbn [negb]. rewrite <- Hf. split_and!; [done|done|by apply Hnew|]. intros Hn. by rewrite Hc.
      * destruct (merged_ours o E) as [H1 H2]. cbn [object_of]. rewrite List.filter_app, Ho. cbn [List.filter]. rewrite H1. cbn [negb]. rewrite <- Hf. split_and!; [done|done|by apply Hnew|done].
  - cbn [mg_out mg_found mg_changed]. rewrite List.filter_app, Ho. cbn [List.filter]. rewrite E. cbn [negb]. rewrite orb_false_r, <- Hf. split_and!; [done|done| |].
    + destruct (mg_found s); [destruct Hx as (x & Hx & Hs); exists x|]; rewrite List.filter_app, Hx; cbn; rewrite E; done.
    + intros Hn. by rewrite Hc.
Qed.
Lemma merge_all l : merged l (foldl (merge_step (Object w)) (mkMerge [] false false) l).
Proof using Hnd Hw Hname.
  assert (∀ l0 s, merged l0 s → merged (l0 ++ l) (foldl (merge_step (Object w)) s l)) as Hg; [|by apply (Hg [])].
  induction l as [|o l IH]; intros l0 s Hs; cbn [foldl]; [by rewrite app_nil_r|]. rewrite cons_middle, app_assoc. apply IH. by apply merge_one.
Qed.
(** A list with our destination as it is wanted is left alone. *)
Lemma merge_settled l : has_ours (Object w) l → foldl (merge_step (Object w)) (mkMerge [] false false) l = mkMerge l true false.
Proof.
  intros (o & Hl & Hs). assert (∀ out f, (if (f : bool) then List.filter is_ours l = [] else List.filter is_ours l = [o]) → foldl (merge_step (Object w)) (mkMerge out f false) l = mkMerge (out ++ l) true false) as Hg; [|by apply (Hg [] false)].
  clear Hl. induction l as [|x l IH]; intros out f Hf; [by destruct f; [rewrite app_nil_r|]|]. cbn [foldl List.filter] in *. unfold merge_step at 2. cbn [mg_out mg_found mg_changed].
  destruct (is_ours x); cbn [negb].
  - destruct f; [done|]. injection Hf as -> Hf. rewrite Hs. rewrite (IH _ true) by done. by rewrite <- app_assoc.
  - rewrite (IH _ f) by done. by rewrite <- app_assoc.
Qed.
End merge.

Definition options (v : Value) : list Value := array_of (v.["GenericOptions"]).
(** Whatever the plugin's configuration was, what is posted has one destination of ours, every field of it as it is wanted, the other
    destinations in their order, and all else as it was; read back, it is left alone. Nothing is posted where that holds already. *)
Theorem webhook_settles uri id current : let want := desired_webhook uri id in
  match config_with_webhook current want with
  | None => has_ours want (options current)
  | Some cfg => has_ours want (options cfg) ∧ others (options cfg) = others (options current) ∧ (∀ k, k ≠ "GenericOptions" → cfg.[k] = current.[k]) ∧ config_with_webhook cfg want = None
  end.
Proof.
  destruct (desired_fields uri id) as (w & E & Hnd & Hw & Hname). cbv zeta. rewrite E. clear E. unfold config_with_webhook. set (cfg := match current with Object m => m | _ => [] end).
  assert (∀ k, (Object cfg).[k] = current.[k]) as Hcfg by (intros k; by destruct current). rewrite Hcfg. fold (options current).
  destruct (merge_all w Hnd Hw Hname (options current)) as (Ho & Hf & Hx & Hc). set (s := foldl _ _ _) in *. clearbody s.
  destruct (mg_found s && negb (mg_changed s)) eqn:Eb.
  - apply andb_true_iff in Eb as [Ef En%negb_true_iff]. rewrite Ef in Hx. by rewrite Hc in Hx.
  - set (out := if mg_found s then mg_out s else mg_out s ++ [Object w]). assert (has_ours (Object w) out ∧ others out = others (options current)) as [Hours Hothers].
    { unfold out. destruct (mg_found s) eqn:Ef; [done|]. destruct (placed_ours w Hw Hname w (λ kv, rm_assoc_in w Hnd kv)) as [H1 H2]. split.
      - exists (Object w). rewrite List.filter_app, Hx. cbn. by rewrite H1.
      - unfold others in *. rewrite List.filter_app, Ho. cbn [List.filter]. rewrite H1. cbn [negb]. by rewrite app_nil_r. }
    assert (options (Object (insert_key "GenericOptions" (Array out) cfg)) = out) as Eo by (unfold options; cbn [index]; by rewrite assoc_insert). rewrite Eo. split_and!; [done|done| |].
    + intros k Hk. cbn [index]. rewrite assoc_insert_ne by done. apply Hcfg.
    + fold (options (Object (insert_key "GenericOptions" (Array out) cfg))). rewrite Eo. rewrite merge_settled by done. done.
Qed.

(** ** What a run for Ryot changes

    Every mutation, key and import is due by what was answered before it. *)

Section due.
Context `{SerdeJson, Libs} (env : string → option string).
Implicit Types (l : Log) (url key kind base : string) (ry : Session).
Notation asks ry query vars := (gql_req (ry_url ry) (Some (ry_key ry)) query vars).

(** The data of an answer without errors. *)
Definition data_of (body : Value) : option Value := match body.["errors"] with Array (_ :: _) => None | _ => Some (body.["data"]) end.
Definition told_data l (rq : Req) (d : Value) : Prop := ∃ body, answered l rq body ∧ data_of body = Some d.
Definition known l ry (have : list Value) : Prop := ∃ d, told_data l (asks ry INTEGRATIONS none) d ∧ have = array_of (d.["userIntegrations"]).
Definition READS : list string := [INTEGRATIONS; COLLECTIONS; REPORTS; BY_ISSUER].
(** A stored key that was refused, or none was stored. *)
Definition refused l (current : option string) (rq : string → Req) : Prop :=
  ∀ t, current = Some t → t ≠ "" → ∃ r : Resp, mkEvent (Http (rq t)) (Ok r : Ans (Http (rq t))) ∈ l ∧ is_success (rs_status r) = false.
Inductive due l : Act → Prop :=
  | y_keycloak base password : due l (Http (admin_login env base false password))
  | y_read url (key : option string) query vars : query ∈ READS → due l (Http (gql_req url key query vars))
  | y_register email sub token d : told_data l (gql_req (ryot_url env) None BY_ISSUER (json_object [("id", Str sub)])) d → as_str (d.["userByOidcIssuerId"]) = None →
      due l (Http (gql_req (ryot_url env) None REGISTER (register_input email sub token)))
  | y_connect host user password name : due l (DbConnect host user password name)
  | y_link st ps : st ∈ [DELETE_LEFT; INSERT_LINK; DELETE_LINK] → due l (Execute st ps)
  | y_exchange url link : due l (Http (gql_req url None ACCESS (link_input link)))
  | y_logout ry : due l (Http (asks ry LOGOUT none))
  | y_integration ry have name provider specifics : known l ry have → needs_write (find have name provider) specifics = true →
      due l (Http (asks ry WRITE_INTEGRATION (input (integration_input (find have name provider) name provider specifics))))
  | y_collection ry d : told_data l (asks ry COLLECTIONS none) d → find_collection env d = None → due l (Http (asks ry WRITE_COLLECTION (input (collection_input env))))
  | y_import ry d source job : told_data l (asks ry REPORTS none) d → import_done d source = false → due l (Http (asks ry DEPLOY (input (set_key "source" (Str source) job))))
  | y_jellyfin password : due l (Http (jf_login env password))
  | y_webhook token uri id current cfg : answered l (jf_call env (Some token) "GET" CONFIGURATION) current → config_with_webhook current (desired_webhook uri id) = Some cfg →
      due l (Http (webhook_req env token cfg))
  | y_abs_login base current password : refused l current (abs_me base) → due l (Http (abs_login env base password))
  | y_abs_delete base session keys id : answered l (abs_keys base session) keys → id ∈ ryot_ids "name" (array_of (keys.["apiKeys"])) → due l (Http (abs_delete base session id))
  | y_abs_create base session current keys user_id : refused l current (abs_me base) → answered l (abs_keys base session) keys →
      (∀ id, id ∈ ryot_ids "name" (array_of (keys.["apiKeys"])) → accepted l (abs_delete base session id)) → due l (Http (abs_create base session user_id))
  | y_komga_delete base email password keys id : answered l (komga_req base email password "GET" "") keys → id ∈ ryot_ids "comment" (array_of keys) → due l (Http (komga_delete base email password id))
  | y_komga_create base current email password keys : refused l current (komga_me base) → answered l (komga_req base email password "GET" "") keys →
      (∀ id, id ∈ ryot_ids "comment" (array_of keys) → accepted l (komga_delete base email password id)) → due l (Http (komga_create base email password)).
Definition quiet (x : Act) : Prop := match x with Http rq => rq_method rq = "GET" | ReadFile _ | Sleep _ => True | _ => False end.
Definition allowed l (x : Act) : Prop := quiet x ∨ due l x.

Notation okay := (Trace.okay Ans allowed (St := list string) (Fa := string)).
Lemma ry_told_later l l' rq d : l `prefix_of` l' → told_data l rq d → told_data l' rq d.
Proof. intros Hl (b & Hb & E). exists b. split; [by eapply answered_later|done]. Qed.
Lemma ry_known_later l l' ry have : l `prefix_of` l' → known l ry have → known l' ry have.
Proof. intros Hl (d & Hd & E). exists d. split; [by eapply ry_told_later|done]. Qed.
Lemma files_ok name l : okay (secret env name) (λ _ _, True) l.
Proof. apply secret_okay. intros; by left. Qed.
Lemma optional_ok name l : okay (optional_secret env name) (λ _ _, True) l.
Proof. unfold optional_secret. destruct (_ || _); [|by apply okay_ret]. eapply okay_then; [apply files_ok|]. intros v l1 _ _. by apply okay_ret. Qed.
Lemma required_ok name l : okay (required env name) (λ _ _, True) l.
Proof. unfold required. eapply okay_then; [apply optional_ok|]. intros v l1 _ _. eapply okay_mono; [apply need_ok|done]. Qed.
Lemma has_secret_ok name l : okay (has_secret env name) (λ _ _, True) l.
Proof. unfold has_secret. eapply okay_then; [apply optional_ok|]. intros v l1 _ _. by apply okay_ret. Qed.
Lemma say_any line l : okay (say line) (λ _ l', l' = l) l.
Proof. by apply say_ok. Qed.
Lemma gql_ok url (key : option string) query vars l : allowed l (Http (gql_req url key query vars)) → okay (gql url key query vars) (λ d l', told_data l' (gql_req url key query vars) d) l.
Proof.
  intros Hx. unfold gql. eapply okay_then; [by apply request_ok|]. intros r l1 _ ->. eapply okay_then; [apply ok_ok|]. intros r' l2 _ (-> & -> & Hs).
  eapply okay_then; [apply json_body_ok|]. intros body l3 _ (-> & Ht).
  assert (∀ d, data_of body = Some d → told_data (l ++ [mkEvent (Http (gql_req url key query vars)) (Ok r : Ans (Http (gql_req url key query vars)))]) (gql_req url key query vars) d) as Hd.
  { intros d Ed. exists body. split; [|done]. exists r. split; [apply elem_of_app; right; by left|done]. }
  unfold data_of in Hd. destruct (body.["errors"]) as [| | | |[|]|]; first [apply okay_raise|apply okay_ret; by apply Hd].
Qed.
Lemma ry_read_ok ry query l : query ∈ READS → okay (q ry query none) (λ d l', told_data l' (asks ry query none) d) l.
Proof. intros Hq. apply gql_ok. right. by apply y_read. Qed.
Lemma ry_write_ok ry query vars l : due l (Http (asks ry query vars)) → okay (q ry query vars) (λ d l', told_data l' (asks ry query vars) d) l.
Proof. intros Hd. apply gql_ok. by right. Qed.
Ltac in_list := rewrite ?elem_of_cons; naive_solver.
Lemma integrations_ok ry l : okay (integrations ry) (λ have l', known l' ry have) l.
Proof. unfold integrations. eapply okay_then; [apply ry_read_ok; unfold READS; in_list|]. intros d l1 _ Hd. cbn beta in Hd. apply okay_ret. by exists d. Qed.
Lemma ry_ensure_ok ry have name provider specifics l : known l ry have → okay (ensure_integration ry have name provider specifics) (λ _ _, True) l.
Proof.
  intros Hk. unfold ensure_integration. cbv zeta. destruct (needs_write _ _) eqn:E; cbn [negb]; [|by apply say_ok].
  eapply okay_then; [apply ry_write_ok; by apply y_integration|]. intros d l1 _ _. by apply say_ok.
Qed.
Lemma ry_import_ok ry source job l : okay (import_once ry source job) (λ _ _, True) l.
Proof.
  unfold import_once. eapply okay_then; [apply ry_read_ok; unfold READS; in_list|]. intros d l1 _ Hd. cbn beta in Hd. destruct (import_done d source) eqn:E; [by apply say_ok|].
  eapply okay_then; [apply ry_write_ok; by eapply y_import|]. intros ? l2 _ _. by apply say_ok.
Qed.
Lemma still_works_ok current rq l : (∀ t, rq_method (rq t) = "GET") → okay (still_works current rq) (λ w l', w = None → refused l' current rq) l.
Proof.
  intros Hg. unfold still_works, refused. destruct current as [t|]; [|by apply okay_ret]. case_bool_decide as Et; [apply okay_ret; by intros _ ? [= <-]|].
  eapply okay_then; [apply request_ok; left; apply Hg|]. intros r l1 _ ->. apply okay_ret. destruct (is_success (rs_status r)) eqn:Es; [done|]. intros _ ? [= <-] _.
  exists r. split; [apply elem_of_app; right; by left|done].
Qed.
Lemma refused_later l l' current rq : l `prefix_of` l' → refused l current rq → refused l' current rq.
Proof.
  intros [k ->] Hr t Et Hne. destruct (Hr t Et Hne) as (r & Hin & Hs). exists r. split; [apply elem_of_app; by left|done].
Qed.
Lemma abs_ok base current l : okay (abs_token env base current) (λ _ _, True) l.
Proof.
  unfold abs_token. eapply okay_then; [by apply (still_works_ok current (abs_me base))|]. intros [t|] l1 _ Hw; cbn beta in Hw; [by apply okay_ret|].
  eapply okay_then; [apply required_ok|]. intros password l2 Hl2 _. apply value_then; [right; eapply y_abs_login, refused_later; [exact Hl2|by apply Hw]|].
  intros login l3 Hl3 _. eapply okay_then; [apply need_ok|]. intros session ? _ [_ ->]. eapply okay_then; [apply need_ok|]. intros user_id ? _ [_ ->].
  apply value_then; [by left|]. intros keys l4 Hl4 Hk. eapply okay_then.
  { apply (for_each_all allowed _ (λ id l', accepted l' (abs_delete base session id))); [intros id l0 l'; apply accepted_later|]. intros id l' Hin Hl'. apply commanded_ok. right.
    eapply y_abs_delete; [eapply answered_later; [exact Hl'|exact Hk]|exact Hin]. }
  intros ? l5 Hl5 Hall. cbn beta in Hall. rewrite Forall_forall in Hall.
  apply value_then.
  { right. eapply y_abs_create; [|eapply answered_later; [exact Hl5|exact Hk]|exact Hall].
    eapply refused_later; [|by apply Hw]. do 3 (etrans; [eassumption|]). exact Hl5. }
  intros made l6 _ _. eapply okay_then; [apply say_any|]. intros ? ? _ ->. eapply okay_mono; [apply need_ok|done].
Qed.
Lemma komga_ok base current l : okay (komga_key env base current) (λ _ _, True) l.
Proof.
  unfold komga_key. eapply okay_then; [by apply (still_works_ok current (komga_me base))|]. intros [t|] l1 _ Hw; cbn beta in Hw; [by apply okay_ret|].
  eapply okay_then; [apply need_ok|]. intros email ? _ [_ ->]. eapply okay_then; [apply required_ok|]. intros password l2 Hl2 _.
  apply value_then; [by left|]. intros keys l4 Hl4 Hk. eapply okay_then.
  { apply (for_each_all allowed _ (λ id l', accepted l' (komga_delete base email password id))); [intros id l0 l'; apply accepted_later|]. intros id l' Hin Hl'. apply commanded_ok. right.
    eapply y_komga_delete; [eapply answered_later; [exact Hl'|exact Hk]|exact Hin]. }
  intros ? l5 Hl5 Hall. cbn beta in Hall. rewrite Forall_forall in Hall. apply value_then.
  { right. eapply y_komga_create; [|eapply answered_later; [exact Hl5|exact Hk]|exact Hall].
    eapply refused_later; [|by apply Hw]. etrans; [exact Hl2|]. etrans; [exact Hl4|exact Hl5]. }
  intros made l6 _ _. eapply okay_then; [apply say_any|]. intros ? ? _ ->. eapply okay_mono; [apply need_ok|done].
Qed.
Lemma collection_ok ry l : okay (request_collection env ry) (λ _ _, True) l.
Proof.
  unfold request_collection. eapply okay_then; [apply ry_read_ok; unfold READS; in_list|]. intros d l1 _ Hd. cbn beta in Hd. destruct (find_collection env d) eqn:E; [by apply okay_ret|].
  eapply okay_then; [apply ry_write_ok; by eapply y_collection|]. intros d' l2 _ _. eapply okay_then; [apply say_any|]. intros ? ? _ ->. eapply okay_mono; [apply need_ok|done].
Qed.
Lemma arr_specifics_ok kind collection l : okay (arr_specifics env kind collection) (λ _ _, True) l.
Proof.
  unfold arr_specifics. cbv zeta. eapply okay_then; [apply optional_ok|]. intros [key|] l1 _ _; [|by apply okay_ret]. set (s := mkServarr _ _ _). eapply okay_then.
  { unfold wait. apply (retry_ok allowed _ _ _ (λ _ _, True)); [intros; by left|]. intros l' _. eapply okay_then; [apply (value_ok allowed (req s "GET" "/system/status")); by left|]. intros ? l2 _ _. by apply okay_ret. }
  intros ? l2 _ _. eapply okay_then; [apply (value_ok allowed (req s "GET" "/qualityprofile")); by left|]. intros ps l3 _ _. eapply okay_then; [apply need_ok|]. intros p ? _ [_ ->]. by apply okay_ret.
Qed.
Lemma jf_user_ok password username l : okay (jf_user env password username) (λ _ _, True) l.
Proof.
  unfold jf_user. apply value_then; [right; apply y_jellyfin|]. intros auth l1 _ _. eapply okay_then; [apply need_ok|]. intros token ? _ [_ ->].
  apply value_then; [by left|]. intros plugins l2 _ _. destruct (has_plugin plugins); cbn [negb]; [|apply okay_raise].
  apply value_then; [by left|]. intros users l3 _ _. eapply okay_then; [apply need_ok|]. intros id ? _ [_ ->]. by apply okay_ret.
Qed.
Lemma webhook_ok uri username l : okay (jellyfin_webhook env uri username) (λ _ _, True) l.
Proof.
  unfold jellyfin_webhook. eapply okay_then; [apply required_ok|]. intros password l1 _ _. eapply okay_then.
  { apply (retry_ok allowed _ _ _ (λ _ _, True)); [intros; by left|]. intros l' _. apply jf_user_ok. }
  intros [token id] l2 _ _. apply value_then; [by left|]. intros current l3 _ Hc.
  destruct (config_with_webhook _ _) as [cfg|] eqn:E; [|by apply say_ok]. eapply okay_then; [apply request_ok; right; by eapply y_webhook|]. intros r l4 _ _.
  eapply okay_then; [apply ok_ok|]. intros ? ? _ (-> & -> & _). by apply say_ok.
Qed.
Lemma wire_ok ry l : okay (wire env ry) (λ _ _, True) l.
Proof.
  unfold wire. eapply okay_then; [apply integrations_ok|]. intros have l1 Hl1 Hk. cbn beta in Hk. assert (∀ l', l1 `prefix_of` l' → known l' ry have) as Hk' by (intros; by eapply ry_known_later).
  eapply okay_then.
  { instantiate (1 := λ _ _, True). unfold wire_audiobookshelf. eapply okay_then; [apply has_secret_ok|]. intros [] l2 Hl2 _; [|by apply okay_ret]. cbv zeta. eapply okay_then; [apply abs_ok|].
    intros token l3 Hl3 _. eapply okay_then; [apply ry_ensure_ok, Hk'; etrans; [exact Hl2|exact Hl3]|]. intros ? l4 _ _. apply ry_import_ok. }
  intros ? l2 Hl2 _. eapply okay_then.
  { instantiate (1 := λ _ _, True). unfold wire_komga. eapply okay_then; [apply has_secret_ok|]. intros [] l3 Hl3 _; [|by apply okay_ret]. cbv zeta. eapply okay_then; [apply komga_ok|].
    intros token l4 Hl4 _. apply ry_ensure_ok, Hk'. do 2 (etrans; [eassumption|]). exact Hl4. }
  intros ? l3 Hl3 _. eapply okay_then.
  { instantiate (1 := λ _ _, True). unfold wire_arrs. eapply okay_then; [apply has_secret_ok|]. intros given l4 Hl4 _. eapply okay_then.
    { instantiate (1 := λ _ _, True). destruct given; [by apply okay_ret|apply has_secret_ok]. }
    intros [] l5 Hl5 _; [|by apply okay_ret]. eapply okay_then; [apply collection_ok|]. intros c l6 Hl6 _. apply okay_for_each; [|done]. intros [[kind name] provider] l7 _ Hl7. cbn [wire_arr].
    eapply okay_then; [apply arr_specifics_ok|]. intros [s|] l8 Hl8 _; [|by apply okay_ret]. apply ry_ensure_ok, Hk'. do 6 (etrans; [eassumption|]). exact Hl8. }
  intros ? l4 _ _. eapply okay_then; [instantiate (1 := λ _ _, True); unfold wire_trakt; destruct (trakt_user env); [apply ry_import_ok|by apply okay_ret]|].
  intros ? l5 _ _. unfold wire_jellyfin. eapply okay_then; [apply has_secret_ok|]. intros [] l6 _ _; [|by apply okay_ret]. cbv zeta. eapply okay_then; [apply integrations_ok|]. intros have2 l7 _ Hk2.
  eapply okay_then; [by apply ry_ensure_ok|]. intros ? l8 _ _. eapply okay_then; [apply integrations_ok|]. intros have3 l9 _ _. eapply okay_then; [apply need_ok|]. intros id ? _ [_ ->]. apply webhook_ok.
Qed.
(** A session does what its task does, and the exchange and the link. *)
Lemma ry_session_ok url id task l : (∀ ry l', okay (task ry) (λ _ _, True) l') → okay (with_session url id task) (λ _ _, True) l.
Proof.
  intros Ht. apply (session_okay allowed) with (Q := λ _, True); [by left|intros; right; by apply y_link|intros; right; apply y_exchange|intros u k l'; right; apply (y_logout _ (mkSession u k))|done|].
  intros ry l' _. apply Ht.
Qed.
Lemma connect_ok l : okay (connect_db env) (λ _ _, True) l.
Proof.
  unfold connect_db. eapply okay_then; [apply optional_ok|]. intros [password|] l1 _ _; [|by apply okay_ret]. apply okay_bind.
  refine (okay_do Ans allowed (DbConnect _ _ _ _) _ _ _ _); [right; apply y_connect|]. intros [[]|e]; [by apply okay_ret|apply okay_raise].
Qed.
Lemma run_wire_ok url id l : okay (run_wire env url id) (λ _ _, True) l.
Proof. unfold run_wire. eapply okay_then; [apply connect_ok|]. intros [] l1 _ _; [|by apply say_ok]. apply ry_session_ok. intros ry l'. apply wire_ok. Qed.
Lemma keycloak_ok l : okay (user env) (λ _ _, True) l.
Proof. eapply okay_mono; [apply user_ok; [intros; by left..|intros; right; apply y_keycloak]|done]. Qed.
Lemma ryot_run_ok l : okay (run env) (λ _ _, True) l.
Proof.
  unfold run. eapply okay_then; [apply files_ok|]. intros token l1 _ _. eapply okay_then; [apply keycloak_ok|]. intros kc l2 _ _. eapply okay_then; [apply need_ok|]. intros email ? _ [_ ->].
  eapply okay_then.
  { apply (retry_ok allowed _ _ _ (λ found l', ∃ d, told_data l' (gql_req (ryot_url env) None BY_ISSUER (json_object [("id", Str (sub kc))])) d ∧ as_str (d.["userByOidcIssuerId"]) = found)); [intros; by left|].
    intros l' _. eapply okay_then; [apply gql_ok; right; apply y_read; unfold READS; in_list|]. intros d l3 _ Hd. cbn beta in Hd. apply okay_ret. by exists d. }
  intros [id|] l3 _ (d & Hd & E); cbv beta iota.
  - eapply okay_then; [apply say_any|]. intros ? ? _ ->. apply run_wire_ok.
  - eapply okay_then; [apply gql_ok; right; by eapply y_register|]. intros d2 l4 _ _. cbv zeta. destruct (is_text _ _); [|apply okay_raise]. eapply okay_then; [apply need_ok|]. intros id ? _ [_ ->].
    eapply okay_then; [apply say_any|]. intros ? ? _ ->. apply run_wire_ok.
Qed.

(** Whatever Ryot, its database and the apps answer, an account is registered only where none has the identity, an integration is written
    only where it is missing, off or drifted, a collection made only where none has its name, an import started only where no report
    of its source stands, and a key replaced only after the stored one was refused, when every old one of that name is gone. *)
Theorem ryot_due outside out l : ∃ k, (exec Ans outside (run env out) l).1 = l ++ k ∧ ∀ k1 e k2, k = k1 ++ e :: k2 → quiet (e_act e) ∨ due (l ++ k1) (e_act e).
Proof. destruct (exec_okay Ans allowed outside _ _ out l (ryot_run_ok l)) as (k & Ek & Hk). by exists k. Qed.
End due.
