(* ===== verification/RyotTrakt.v ===== *)
(** * Following Trakt ([apps/app-bootstrap/src/ryot_trakt.rs])

    The import of a Trakt profile when there is something new, and the duplicates it leaves. What a query selects is the
    database's; a column of another type is an error. *)

From Stdlib Require Import Ascii.
From stdpp Require Import options.
From S2P Require Import Prelude Text F64 Json Codec Threads Markers Trace Apps Bootstrap Servarr Keycloak Ombi Maintainerr SeerrSetup Ryot RyotDue.

Definition DUPLICATE_SEEN : string := "
WITH s AS (
    SELECT id, metadata_id, show_extra_information::text AS episode, finished_on,
           EXISTS (SELECT 1 FROM unnest(providers_consumed_on) p WHERE upper(p) = 'TRAKT') AS trakt
    FROM seen WHERE user_id = $1 AND finished_on IS NOT NULL
)
SELECT a.id FROM s a WHERE a.trakt AND EXISTS (
    SELECT 1 FROM s b
    WHERE b.metadata_id = a.metadata_id AND b.episode IS NOT DISTINCT FROM a.episode AND b.id <> a.id
      AND abs(extract(epoch FROM (b.finished_on - a.finished_on))::float8) <= $2
      AND (NOT b.trakt OR b.finished_on < a.finished_on OR (b.finished_on = a.finished_on AND b.id < a.id))
)".
Definition DUPLICATE_REVIEWS : string := "
SELECT a.id FROM review a WHERE a.user_id = $1 AND a.comments::text = '[]' AND EXISTS (
    SELECT 1 FROM review b
    WHERE b.user_id = a.user_id AND b.entity_id = a.entity_id AND b.entity_lot::text = a.entity_lot::text
      AND b.rating IS NOT DISTINCT FROM a.rating AND b.text IS NOT DISTINCT FROM a.text AND b.posted_on = a.posted_on
      AND b.show_extra_information::text IS NOT DISTINCT FROM a.show_extra_information::text AND b.id < a.id
)".
Definition GATE : string := "
SELECT coalesce(bool_or(was_success IS NULL), false) AS running,
       (coalesce($2::text::timestamptz > max(started_on) FILTER (WHERE was_success), false)
        OR max(started_on) FILTER (WHERE was_success) IS NULL
        OR now() - max(started_on) FILTER (WHERE was_success) > make_interval(days => $3::int)) AS due
FROM import_report WHERE user_id = $1 AND upper(source::text) = 'TRAKT'".
Definition LATEST_REPORT : string := "SELECT was_success FROM import_report WHERE user_id = $1 AND upper(source::text) = 'TRAKT' ORDER BY started_on DESC LIMIT 1".
Definition USER_ID : string := "SELECT id FROM " +:+ quote +:+ "user" +:+ quote +:+ " WHERE name = $1".
Definition DELETE_SEEN : string := "mutation($id: String!) { deleteSeenItem(seenId: $id) { id } }".
Definition DELETE_REVIEW : string := "mutation($id: String!) { deleteReview(reviewId: $id) }".

Section trakt.
Context `{SerdeJson, Libs} (env : string → option string).

Definition latest_req (user client_id : string) : Req :=
  with_header ("trakt-api-version", "2") (with_header ("trakt-api-key", client_id)
    (with_query [("limit", "1")] (plain "GET" ("https://" +:+ var env "TRAKT_API_HOST" "api.trakt.tv" +:+ "/users/" +:+ user +:+ "/history")))).
Definition latest_watch (user client_id : string) : Job (option string) :=
  r ← send (latest_req user client_id);
  r ← ok r ("GET /users/" +:+ user +:+ "/history (is the Trakt profile public and the client id right?)"); history ← json_body r;
  mret (newest_watch history).

(** ** Queries *)

Definition query (statement : string) (params : list Value) : Job (list (list Value)) :=
  r ← do Ans (Query statement params); match r with Ok rows => mret rows | Err e => fail e end.
Definition query_opt (statement : string) (params : list Value) : Job (option (list Value)) :=
  rows ← query statement params; match rows with [] => mret None | [row] => mret (Some row) | _ => fail "query returned an unexpected number of rows" end.
Definition query_one (statement : string) (params : list Value) : Job (list Value) :=
  rows ← query statement params; match rows with [row] => mret row | _ => fail "query returned an unexpected number of rows" end.
(** [row.get(i)], which panics at another type. *)
Definition text_at (i : nat) (row : list Value) : option string := row !! i ≫= as_str.
Definition bool_at (i : nat) (row : list Value) : option bool := row !! i ≫= as_bool.
Definition opt_bool_at (i : nat) (row : list Value) : option (option bool) :=
  match row !! i with Some Null => Some None | Some (Bool b) => Some (Some b) | _ => None end.
Definition text_opt (x : option string) : Value := match x with Some s => Str s | None => Null end.
Definition seconds_param (seconds : option f64) : list Value := match seconds with Some s => [json_f64 s] | None => [] end.
Definition ids (sql user_id : string) (seconds : option f64) : Job (list string) :=
  rows ← query sql (Str user_id :: seconds_param seconds); need (mapM (text_at 0) rows) "panicked".

(** ** The import *)

Definition trakt_job (user : string) : Value := input (json_object [("source", Str "TRAKT"); ("trakt", json_object [("user", Str user)])]).
(** The report's outcome, looked for every ten seconds. *)
Fixpoint await_report (rounds : nat) (user_id : string) : Job (option bool) :=
  match rounds with
  | O => mret None
  | S rounds =>
      _ ← (do Ans (Sleep 10000000000) : Job ());
      row ← query_opt LATEST_REPORT [Str user_id];
      match row with
      | Some row =>
          success ← need (opt_bool_at 0 row) "panicked";
          match success with Some b => mret (Some b) | None => await_report rounds user_id end
      | None => await_report rounds user_id
      end
  end.
Definition id_vars (id : string) : Value := json_object [("id", Str id)].
Definition remove_all (ry : Session) (mutation : string) (found : list string) : Job () :=
  for_each Ans found (λ id, _ ← q ry mutation (id_vars id); mret ()).
Definition sync (user_id trakt_user : string) (window : f64) (ry : Session) : Job () :=
  _ ← q ry DEPLOY (trakt_job trakt_user);
  _ ← say "ryot: Trakt import started";
  outcome ← await_report 180 user_id;
  seen ← ids DUPLICATE_SEEN user_id (Some window);
  _ ← remove_all ry DELETE_SEEN seen;
  reviews ← ids DUPLICATE_REVIEWS user_id None;
  _ ← remove_all ry DELETE_REVIEW reviews;
  _ ← say "ryot: removed the duplicates";
  match outcome with
  | Some true => mret ()
  | Some false => fail "the Trakt import failed (Ryot, Settings, Imports shows the report; is the Trakt profile still public?)"
  | None => fail "the Trakt import did not finish within 30 minutes"
  end.
Definition parse_i32 (s : string) : option Z := z ← parse_i64 s; if (- 2 ^ 31 <=? z)%Z && (z <? 2 ^ 31)%Z then Some z else None.
Definition gate_params (user_id : string) (latest : option string) (days : Z) : list Value := [Str user_id; text_opt latest; json_i64 days].
Definition run : Job () :=
  match trakt_user env with
  | None => say "TRAKT_USERNAME unset: nothing to follow"
  | Some trakt_user =>
      client_id ← secret env "TRAKT_CLIENT_ID";
      name ← need (env "ADMIN_EMAIL") "set ADMIN_EMAIL (the Ryot user's name)";
      refresh_days ← need (parse_i32 (var env "TRAKT_REFRESH_DAYS" "7")) "invalid digit found in string";
      hours ← need (parse_f64 (var env "TRAKT_DEDUPE_HOURS" "6")) "invalid float literal";
      let window := (hours * f64_of_Z 3600)%f64 in
      connected ← connect_db env;
      if negb connected then fail "set RYOT_DB_PASSWORD[_FILE]"
      else
        row ← query_opt USER_ID [Str name];
        row ← need row ("no Ryot user named " +:+ name);
        user_id ← need (text_at 0 row) "panicked";
        latest ← latest_watch trakt_user client_id;
        gate ← query_one GATE (gate_params user_id latest refresh_days);
        running ← need (bool_at 0 gate) "panicked";
        due ← need (bool_at 1 gate) "panicked";
        if (running : bool) then say "ryot: a Trakt import is still running"
        else if negb due then say "ryot: nothing new on Trakt since the last import"
        else with_session (ryot_url env) user_id (sync user_id trakt_user window)
  end.
End trakt.

(** ** What following Trakt changes

    An import only when the database's gate is open; removed is only what a query after it named. *)

Section due.
Context `{SerdeJson, Libs} (env : string → option string).
Implicit Types (l : Log) (ry : Session).
Notation asks ry query vars := (gql_req (ry_url ry) (Some (ry_key ry)) query vars).

Definition rows_of l (sql : string) (ps : list Value) (rows : list (list Value)) : Prop :=
  mkEvent (Query sql ps) (Ok rows : Ans (Query sql ps)) ∈ l.
(** The gate's row: whether an import is running, and whether one is due. *)
Definition gate l (user_id : string) (running due : bool) : Prop := ∃ latest days row, rows_of l GATE (gate_params user_id latest days) [row] ∧
  bool_at 0 row = Some running ∧ bool_at 1 row = Some due.
Definition found l (sql id : string) : Prop := ∃ ps rows row, rows_of l sql ps rows ∧ row ∈ rows ∧ text_at 0 row = Some id.
Definition deployed l : Prop := ∃ ry user, accepted l (asks ry DEPLOY (trakt_job user)).
Definition succeeded l (user_id : string) : Prop := ∃ row, rows_of l LATEST_REPORT [Str user_id] [row] ∧ opt_bool_at 0 row = Some (Some true).
Inductive due l : Act → Prop :=
  | t_connect host user password name : due l (DbConnect host user password name)
  | t_look sql ps : sql ∈ [USER_ID; GATE] → due l (Query sql ps)
  | t_link st ps : st ∈ [DELETE_LEFT; INSERT_LINK; DELETE_LINK] → due l (Execute st ps)
  | t_exchange url link : due l (Http (exchange url link))
  | t_sign_out url key : due l (Http (sign_out url key))
  | t_deploy ry user user_id : trakt_user env = Some user → gate l user_id false true → due l (Http (asks ry DEPLOY (trakt_job user)))
  | t_find sql ps : sql ∈ [LATEST_REPORT; DUPLICATE_SEEN; DUPLICATE_REVIEWS] → deployed l → due l (Query sql ps)
  | t_seen ry id : deployed l → found l DUPLICATE_SEEN id → due l (Http (asks ry DELETE_SEEN (id_vars id)))
  | t_review ry id : deployed l → found l DUPLICATE_REVIEWS id → due l (Http (asks ry DELETE_REVIEW (id_vars id))).
Definition quiet (x : Act) : Prop := match x with Http rq => rq_method rq = "GET" | ReadFile _ | Sleep _ => True | _ => False end.
Definition allowed l (x : Act) : Prop := quiet x ∨ due l x.
(** Nothing to follow, an import that runs, nothing new, or an import that succeeded. *)
Definition followed l : Prop := trakt_user env = None ∨ ∃ user_id, gate l user_id true true ∨ gate l user_id true false ∨ gate l user_id false false ∨ succeeded l user_id.

Notation okay := (Trace.okay Ans allowed (St := list string) (Fa := string)).
Lemma rows_later l l' sql ps rows : l `prefix_of` l' → rows_of l sql ps rows → rows_of l' sql ps rows.
Proof. intros [k ->] Hr. apply elem_of_app. by left. Qed.
Lemma gate_later l l' u a b : l `prefix_of` l' → gate l u a b → gate l' u a b.
Proof. intros Hl (w & d & row & Hr & E). exists w, d, row. split; [by eapply rows_later|done]. Qed.
Lemma found_later l l' sql id : l `prefix_of` l' → found l sql id → found l' sql id.
Proof. intros Hl (ps & rows & row & Hr & E). exists ps, rows, row. split; [by eapply rows_later|done]. Qed.
Lemma deployed_later l l' : l `prefix_of` l' → deployed l → deployed l'.
Proof. intros Hl (ry & u & Ha). exists ry, u. by eapply accepted_later. Qed.
Lemma followed_later l l' : l `prefix_of` l' → followed l → followed l'.
Proof.
  intros Hl [?|(u & Hu)]; [by left|]. right. exists u. destruct Hu as [Hu|[Hu|[Hu|(row & Hr & E)]]]; [left; by eapply gate_later|right; left; by eapply gate_later|right; right; left; by eapply gate_later|].
  right. right. right. exists row. split; [by eapply rows_later|done].
Qed.
Lemma tk_query_ok sql ps l : due l (Query sql ps) → okay (query sql ps) (λ rows l', rows_of l' sql ps rows) l.
Proof.
  intros Hd. unfold query. apply okay_bind. refine (okay_do Ans allowed (Query sql ps) _ _ _ _); [by right|]. intros [rows|e]; [|apply okay_raise]. apply okay_ret. apply elem_of_app. right. by left.
Qed.
Lemma query_opt_ok sql ps l : due l (Query sql ps) → okay (query_opt sql ps) (λ row l', ∀ r, row = Some r → rows_of l' sql ps [r]) l.
Proof.
  intros Hd. unfold query_opt. eapply okay_then; [by apply tk_query_ok|]. intros [|row [|row2 rows]] l1 _ Hr; [by apply okay_ret| |apply okay_raise]. apply okay_ret. by intros r [= <-].
Qed.
Lemma query_one_ok sql ps l : due l (Query sql ps) → okay (query_one sql ps) (λ row l', rows_of l' sql ps [row]) l.
Proof.
  intros Hd. unfold query_one. eapply okay_then; [by apply tk_query_ok|]. intros [|row [|row2 rows]] l1 _ Hr; [apply okay_raise| |apply okay_raise]. by apply okay_ret.
Qed.
Ltac in_list := rewrite ?elem_of_cons; naive_solver.
Lemma ids_ok sql user_id seconds l : due l (Query sql (Str user_id :: seconds_param seconds)) → okay (ids sql user_id seconds) (λ xs l', ∀ id, id ∈ xs → found l' sql id) l.
Proof.
  intros Hd. unfold ids. eapply okay_then; [by apply tk_query_ok|]. intros rows l1 _ Hr. cbn beta in Hr. eapply okay_mono; [apply need_ok|]. intros xs ? _ [E ->] id Hin.
  apply mapM_Some in E. apply list_elem_of_lookup in Hin as [i Hi]. destruct (Forall2_lookup_r _ _ _ _ _ E Hi) as (row & Hrow & Et). exists (Str user_id :: seconds_param seconds), rows, row.
  split_and!; [done|by eapply list_elem_of_lookup_2|done].
Qed.
Lemma await_ok rounds user_id l : deployed l → okay (await_report rounds user_id) (λ o l', o = Some true → succeeded l' user_id) l.
Proof.
  revert l. induction rounds as [|rounds IH]; intros l Hd; cbn [await_report]; [by apply okay_ret|]. eapply okay_then.
  { refine (okay_do Ans allowed (Sleep _) (λ _ _, True) _ _ _); [by left|done]. }
  intros ? l1 Hl1 _. assert (deployed l1) as Hd1 by (by eapply deployed_later). eapply okay_then; [apply query_opt_ok, t_find; [in_list|done]|]. intros [row|] l2 Hl2 Hr; cbn beta in Hr; [|apply IH; by eapply deployed_later].
  eapply okay_then; [apply need_ok|]. intros [b|] ? _ [E ->]; [|apply IH; by eapply deployed_later]. apply okay_ret. intros [= ->]. exists row. split; [by apply Hr|done].
Qed.
Lemma tk_remove_ok ry mutation found_ids l : (∀ id l', id ∈ found_ids → l `prefix_of` l' → due l' (Http (asks ry mutation (id_vars id)))) → okay (remove_all ry mutation found_ids) (λ _ _, True) l.
Proof.
  intros Hf. unfold remove_all. apply okay_for_each; [|done]. intros id l' Hin Hl'. eapply okay_then; [apply gql_okay; right; by apply Hf|]. intros ? l1 _ _. by apply okay_ret.
Qed.
Lemma sync_ok user_id user window ry l : trakt_user env = Some user → gate l user_id false true → okay (sync user_id user window ry) (λ _ l', followed l') l.
Proof.
  intros Hu Hg. unfold sync. eapply okay_then.
  { instantiate (1 := λ _ l', deployed l'). unfold q, gql. eapply okay_then; [apply request_ok; right; by eapply t_deploy|]. intros r l1 _ ->. eapply okay_then; [apply ok_ok|]. intros r' ? _ (-> & -> & Hs).
    eapply okay_then; [apply json_body_ok|]. intros body ? _ [-> _].
    assert (deployed (l ++ [mkEvent (Http (asks ry DEPLOY (trakt_job user))) (Ok r : Ans (Http (asks ry DEPLOY (trakt_job user))))])) as Hd.
    { exists ry, user, r. split; [apply elem_of_app; right; by left|done]. }
    destruct (body.["errors"]) as [| | | |[|]|]; first [apply okay_raise|by apply okay_ret]. }
  intros ? l1 _ Hd. cbn beta in Hd. eapply okay_then; [by apply (say_ok _ _ (λ _ l', l' = l1))|]. intros ? ? _ ->. eapply okay_then; [by apply await_ok|]. intros outcome l2 Hl2 Ho. cbn beta in Ho.
  assert (∀ l', l2 `prefix_of` l' → deployed l') as Hd2. { intros l' Hl'. eapply deployed_later; [|exact Hd]. etrans; [exact Hl2|exact Hl']. }
  eapply okay_then; [apply ids_ok, t_find; [in_list|by apply Hd2]|]. intros seen l3 Hl3 Hseen. cbn beta in Hseen. eapply okay_then.
  { apply tk_remove_ok. intros id l' Hin Hl'. apply t_seen; [apply Hd2; etrans; [exact Hl3|exact Hl']|]. eapply found_later; [exact Hl'|by apply Hseen]. }
  intros ? l4 Hl4 _. eapply okay_then; [apply ids_ok, t_find; [in_list|apply Hd2; etrans; [exact Hl3|exact Hl4]]|]. intros reviews l5 Hl5 Hrev. cbn beta in Hrev. eapply okay_then.
  { apply tk_remove_ok. intros id l' Hin Hl'. apply t_review; [apply Hd2; do 3 (etrans; [eassumption|]); done|]. eapply found_later; [exact Hl'|by apply Hrev]. }
  intros ? l6 Hl6 _. eapply okay_then; [by apply (say_ok _ _ (λ _ l', l' = l6))|]. intros ? ? _ ->. destruct outcome as [[]|]; [|apply okay_raise..]. apply okay_ret. right. exists user_id. right. right. right.
  destruct (Ho eq_refl) as (row & Hr & E). exists row. split; [|done]. eapply rows_later; [|exact Hr]. do 3 (etrans; [eassumption|]). exact Hl6.
Qed.
Lemma connected_ok l : okay (connect_db env) (λ _ _, True) l.
Proof.
  unfold connect_db. eapply okay_then.
  { instantiate (1 := λ _ _, True). unfold optional_secret. destruct (_ || _); [|by apply okay_ret]. eapply okay_then; [apply secret_okay; intros; by left|]. intros v l1 _ _. by apply okay_ret. }
  intros [password|] l1 _ _; [|by apply okay_ret]. apply okay_bind.
  refine (okay_do Ans allowed (DbConnect _ _ _ _) _ _ _ _); [right; apply t_connect|]. intros [[]|e]; [by apply okay_ret|apply okay_raise].
Qed.
Lemma trakt_run_ok l : okay (run env) (λ _ l', followed l') l.
Proof.
  unfold run. destruct (trakt_user env) as [user|] eqn:Eu; [|apply say_ok; by left]. eapply okay_then; [apply secret_okay; intros; by left|]. intros client l1 _ _.
  eapply okay_then; [apply need_ok|]. intros name ? _ [_ ->]. eapply okay_then; [apply need_ok|]. intros days ? _ [_ ->]. eapply okay_then; [apply need_ok|]. intros hours ? _ [_ ->]. cbv zeta.
  eapply okay_then; [apply connected_ok|]. intros [] l2 _ _; cbn [negb]; [|apply okay_raise]. eapply okay_then; [apply query_opt_ok, t_look; in_list|]. intros row l3 _ _.
  eapply okay_then; [apply need_ok|]. intros row' ? _ [_ ->]. eapply okay_then; [apply need_ok|]. intros user_id ? _ [_ ->]. eapply okay_then.
  { instantiate (1 := λ _ _, True). unfold latest_watch. eapply okay_then; [apply request_ok; by left|]. intros r l4 _ _. eapply okay_then; [apply ok_ok|]. intros r' ? _ (-> & -> & _).
    eapply okay_then; [apply json_body_ok|]. intros h ? _ [-> _]. by apply okay_ret. }
  intros latest l4 _ _. eapply okay_then; [apply query_one_ok, t_look; in_list|]. intros g l5 _ Hg. cbn beta in Hg. eapply okay_then; [apply need_ok|]. intros running ? _ [Er ->].
  eapply okay_then; [apply need_ok|]. intros due_now ? _ [Ed ->]. assert (gate l5 user_id running due_now) as Hgate by (by exists latest, days, g).
  destruct running; [apply say_ok; right; exists user_id; destruct due_now; [by left|right; by left]|]. destruct due_now; cbn [negb]; [|apply say_ok; right; exists user_id; right; right; by left].
  apply (session_okay allowed) with (Q := followed); [by left|intros; right; by apply t_link|intros; right; apply t_exchange|intros; right; apply t_sign_out|intros ? ?; apply followed_later|].
  intros ry l' Hl'. apply sync_ok; [done|by eapply gate_later].
Qed.

(** Whatever Trakt, Ryot and its database answer, an import is started only where the gate said that none runs and one is due, and what
    is removed is only what a query made after the import named; a run that ends well had nothing to follow, found an import running
    or nothing new, or saw its import succeed. *)
Theorem trakt_due outside out l : ∃ k, (exec Ans outside (run env out) l).1 = l ++ k ∧
  (∀ k1 e k2, k = k1 ++ e :: k2 → quiet (e_act e) ∨ due (l ++ k1) (e_act e)) ∧
  ∀ out', (exec Ans outside (run env out) l).2 = Ok (out', Ok ()) → followed (l ++ k).
Proof.
  destruct (exec_holds Ans allowed outside _ _ _ (trakt_run_ok l out)) as [HQ (k & Ek & Hk)]. exists k. split; [exact Ek|]. split; [exact Hk|].
  intros out' E. rewrite E in HQ. rewrite <- Ek. by destruct HQ.
Qed.
End due.
