(* ===== verification/Html.v ===== *)
(** * Reading a form off a page ([apps/app-bootstrap/src/miniflux.rs])

    The attributes of a tag, the fields a browser would submit from a form, and the entities of a value. Text is bytes of
    ASCII. *)

From Stdlib Require Import Ascii.
From stdpp Require Import options.
From S2P Require Import Prelude Text Bootstrap.
From S2P Require Json Caldav Servarr Bazarr.

(** [str::split] with a string *)
Definition split_text (p s : string) : list string := str <$> Caldav.split_str (String.length s) (chars p) (chars s).
Definition csrf (html : string) : option string :=
  rest ← Bazarr.second_piece ("name=" +:+ quote +:+ "csrf" +:+ quote +:+ " value=" +:+ quote) html; head (split_char "034" rest).
Definition span (stop : ascii → bool) (l : list ascii) : list ascii * list ascii :=
  let rest := drop_while (λ c, negb (stop c)) l in (take (length l - length rest) l, rest).
Definition is_equals (c : ascii) : bool := bool_decide (c = "="%char).
Definition is_quote (c : ascii) : bool := bool_decide (c = "034"%char) || bool_decide (c = "'"%char).
Definition same_char (a c : ascii) : bool := bool_decide (c = a).
(** The value after an equals sign, and what follows it. *)
Definition attr_value (r : list ascii) : list ascii * list ascii :=
  let r := drop_while is_whitespace r in
  match r with
  | q :: r' => if is_quote q then let '(v, after) := span (same_char q) r' in (v, tail after) else span is_whitespace r
  | [] => ([], [])
  end.
(** Each round takes a key at least. *)
Fixpoint attrs_from (fuel : nat) (rest : list ascii) (out : list (string * string)) : list (string * string) :=
  match fuel with
  | O => out
  | S fuel =>
      match drop_while is_whitespace rest with
      | [] => out
      | rest =>
          let '(key, rest) := span (λ c, is_whitespace c || is_equals c) rest in
          let rest := drop_while is_whitespace rest in
          match key with
          | [] => out
          | _ =>
              let '(value, rest) := match rest with c :: r => if is_equals c then attr_value r else ([], rest) | [] => ([], []) end in
              attrs_from fuel rest (insert_key (to_lowercase (str key)) (str value) out)
          end
      end
  end.
Definition attrs (tag : string) : list (string * string) :=
  let rest := trim (trim_end_matches Servarr.is_slash tag) in attrs_from (S (String.length rest)) (chars rest) [].
Definition html_unescape (s : string) : string :=
  replace "&amp;" "&" (replace "&gt;" ">" (replace "&lt;" "<" (replace "&#39;" "'" (replace "&#34;" quote (replace "&quot;" quote s))))).

(** ** The fields of a form *)

(** The fields so far; the select that is open, with its first option and whether one was selected. *)
Record Reading : Type := mkReading { rd_fields : list (string * string); rd_select : option (string * option string * bool) }.
Definition push (f : string * string) (s : Reading) : Reading := mkReading (rd_fields s ++ [f]) (rd_select s).
Definition is_box (ty : string) : bool := String.eqb ty "checkbox" || String.eqb ty "radio".
Definition is_button (ty : string) : bool := existsb (String.eqb ty) ["submit"; "button"; "reset"; "file"].
Definition has_attr (k : string) (a : list (string * string)) : bool := bool_decide (is_Some (Json.assoc k a)).
Definition read_input (a : list (string * string)) (s : Reading) : Reading :=
  let ty := default "text" (Json.assoc "type" a) in
  if is_button ty then s
  else if is_box ty && negb (has_attr "checked" a) then s
  else match Json.assoc "name" a with
       | Some n => push (n, html_unescape (default (if is_box ty then "on" else "") (Json.assoc "value" a))) s
       | None => s
       end.
Definition read_option (a : list (string * string)) (after : string) (s : Reading) : Reading :=
  match rd_select s with
  | None => s
  | Some (n, first, chosen) =>
      let v := html_unescape (default (trim (hd "" (split_char "<" after))) (Json.assoc "value" a)) in
      let first := match first with Some f => f | None => v end in
      if has_attr "selected" a && negb chosen then mkReading (rd_fields s ++ [(n, v)]) (Some (n, Some first, true))
      else mkReading (rd_fields s) (Some (n, Some first, chosen))
  end.
Definition close_select (s : Reading) : Reading :=
  match rd_select s with Some (n, Some first, false) => mkReading (rd_fields s ++ [(n, first)]) None | _ => mkReading (rd_fields s) None end.
Definition read_textarea (a : list (string * string)) (after : string) (s : Reading) : Reading :=
  match Json.assoc "name" a with Some n => push (n, html_unescape (hd "" (split_text "</textarea>" after))) s | None => s end.
(** The name of a tag, and the rest of it. *)
Definition tag_name (tag : string) : string * string :=
  let '(n, rest) := span is_whitespace (chars tag) in match rest with [] => (tag, "") | _ :: rest => (str n, str rest) end.
Definition read_tag (name : string) (a : list (string * string)) (after : string) (s : Reading) : Reading :=
  if String.eqb name "input" then read_input a s
  else if String.eqb name "select" then mkReading (rd_fields s) ((λ n, (n, None, false)) <$> Json.assoc "name" a)
  else if String.eqb name "/select" then close_select s
  else if String.eqb name "option" then read_option a after s
  else if String.eqb name "textarea" then read_textarea a after s
  else s.
Definition read_chunk (s : Reading) (chunk : string) : Reading :=
  let '(tag, after) := default (chunk, "") (split_once ">" chunk) in
  let '(name, rest) := tag_name tag in
  read_tag (to_lowercase name) (attrs rest) after s.
Definition fields_of (form : string) : list (string * string) := rd_fields (foldl read_chunk (mkReading [] None) (tail (split_char "<" form))).
(** The form that posts to [action], or the whole page. *)
Definition pick_form (html action : string) : string :=
  let needle := "action=" +:+ quote +:+ action +:+ quote in
  let form := default html (List.find (λ f, contains needle (hd "" (split_char ">" f))) (tail (split_text "<form" html))) in
  hd form (split_text "</form>" form).
Definition form_fields (html action : string) : list (string * string) := fields_of (pick_form html action).

(** The program's own tests. *)
Definition q (s : string) : string := quote +:+ s +:+ quote.
Example html_tests :
  csrf ("<form action=" +:+ q "/login" +:+ " method=" +:+ q "post" +:+ "><input type=" +:+ q "hidden" +:+ " name=" +:+ q "csrf" +:+ " value=" +:+ q "WMZHICSZC5" +:+ "><input name=" +:+ q "username" +:+ ">") = Some "WMZHICSZC5" ∧
  csrf "<html></html>" = None ∧
  (let html := "<html><form action=" +:+ q "/logout" +:+ " method=" +:+ q "post" +:+ "><input type=" +:+ q "hidden" +:+ " name=" +:+ q "csrf" +:+ " value=" +:+ q "other" +:+ "></form>
<form method=" +:+ q "post" +:+ " autocomplete=" +:+ q "off" +:+ " action=" +:+ q "/integration" +:+ " class=" +:+ q "integration-form" +:+ ">
<input type=" +:+ q "hidden" +:+ " name=" +:+ q "csrf" +:+ " value=" +:+ q "tok" +:+ ">
<input type=" +:+ q "checkbox" +:+ " name=" +:+ q "fever_enabled" +:+ " value=" +:+ q "1" +:+ ">
<input type=" +:+ q "text" +:+ " name=" +:+ q "fever_username" +:+ " id=" +:+ q "form-fever-username" +:+ " value=" +:+ q "" +:+ ">
<input type=" +:+ q "checkbox" +:+ " name=" +:+ q "linktaco_enabled" +:+ " value=" +:+ q "1" +:+ " checked>
<select id=" +:+ q "form-linktaco-link-visibility" +:+ " name=" +:+ q "linktaco_link_visibility" +:+ ">
<option value=" +:+ q "private" +:+ ">Private</option>
<option value=" +:+ q "public" +:+ " selected>Public</option>
</select>
<select name=" +:+ q "other_visibility" +:+ ">
<option value=" +:+ q "private" +:+ ">Private</option>
<option value=" +:+ q "public" +:+ ">Public</option>
</select>
<textarea name=" +:+ q "webhook_url" +:+ ">https://x/&amp;y</textarea>
<button type=" +:+ q "submit" +:+ ">Save</button>
</form></html>" in
   form_fields html "/integration" =
     [("csrf", "tok"); ("fever_username", ""); ("linktaco_enabled", "1"); ("linktaco_link_visibility", "public"); ("other_visibility", "private"); ("webhook_url", "https://x/&y")]).
Proof. vm_compute. done. Qed.

(** ** A printed form, read as a browser would submit it

    A form is a list of controls; printed with its values escaped, its fields come back as they would be submitted. *)

(** ** Entities *)

Definition amp : ascii := "&"%char.
Definition entity (c : ascii) : option string :=
  if bool_decide (c = amp) then Some "&amp;" else if bool_decide (c = "<"%char) then Some "&lt;" else if bool_decide (c = ">"%char) then Some "&gt;"
  else if bool_decide (c = "034"%char) then Some "&#34;" else if bool_decide (c = "'"%char) then Some "&#39;" else None.
Definition escape (s : string) : string := str (flat_map (λ c, match entity c with Some e => chars e | None => [c] end) (chars s)).

Lemma find_list_skip p a l : ¬ p `prefix_of` a :: l → find_list p (a :: l) = '(before, after) ← find_list p l; Some (a :: before, after).
Proof. intros Hp. cbn [find_list]. by rewrite decide_False. Qed.
Lemma replace_skip n p r a l : ¬ p `prefix_of` a :: l → replace_list n p r (a :: l) = a :: replace_list n p r l.
Proof.
  intros Hp. destruct n as [|n]; [done|]. cbn [replace_list]. rewrite find_list_skip by done. destruct (find_list p l) as [[b r']|]; done.
Qed.
Lemma replace_hit n p r l : p ≠ [] → replace_list (S n) p r (p ++ l) = r ++ replace_list n p r l.
Proof.
  intros Hp. cbn [replace_list]. assert (find_list p (p ++ l) = Some ([], l)) as ->; [|done].
  destruct (p ++ l) eqn:E; cbn [find_list]; rewrite <- E, decide_True by (by eexists); by rewrite drop_app_length.
Qed.
(** A piece of text: a character that is no ampersand, or an ampersand and what follows it up to the next one. *)
Definition piece_ok (p t : list ascii) : Prop := (∃ c, t = [c] ∧ c ≠ amp) ∨ (∃ b, t = amp :: b ∧ amp ∉ b ∧ (t = p ∨ ∀ l, ¬ p `prefix_of` t ++ l)).
Lemma not_amp p0 c l : c ≠ amp → ¬ (amp :: p0) `prefix_of` c :: l.
Proof. intros Hc E%prefix_cons_inv_1. by apply Hc. Qed.
Lemma replace_tail n p0 r b l : amp ∉ b → replace_list n (amp :: p0) r (b ++ l) = b ++ replace_list n (amp :: p0) r l.
Proof.
  induction b as [|c b IH]; [done|]. intros [Hc Hb]%not_elem_of_cons. cbn [app]. rewrite replace_skip; [by rewrite IH|by apply not_amp].
Qed.
Lemma replace_pieces p0 r ts n : Forall (piece_ok (amp :: p0)) ts → length (concat ts) ≤ n →
  replace_list n (amp :: p0) r (concat ts) = flat_map (λ t, if decide (t = amp :: p0) then r else t) ts.
Proof.
  intros Hts. revert n. induction Hts as [|t ts Ht _ IH]; intros n Hn; [by destruct n|]. cbn [concat flat_map] in *. destruct Ht as [(c & -> & Hc)|(b & -> & Hb & [E|Hp])].
  - rewrite decide_False by (intros E; injection E; congruence). cbn [app]. rewrite replace_skip by (by apply not_amp). rewrite IH; [done|]. rewrite length_app in Hn. cbn in Hn. lia.
  - injection E as E. subst b. rewrite decide_True by done. destruct n as [|n]; [cbn in Hn; lia|]. rewrite replace_hit by done. rewrite IH; [done|]. cbn in Hn. rewrite length_app in Hn. lia.
  - rewrite decide_False by (intros E; apply (Hp []); rewrite app_nil_r, E; done). cbn [app]. rewrite replace_skip by (exact (Hp _)). rewrite replace_tail by done. rewrite IH; [done|].
    rewrite length_app in Hn. cbn in Hn. lia.
Qed.
(** The characters still escaped, by the entities not replaced yet. *)
Definition kept (es : list string) (c : ascii) : list ascii := match entity c with Some e => if bool_decide (e ∈ es) then chars e else [c] | None => [c] end.
Definition ENTITIES : list string := ["&quot;"; "&#34;"; "&#39;"; "&lt;"; "&gt;"; "&amp;"].

Lemma concat_fmap {A B} (f : A → list B) l : concat (f <$> l) = flat_map f l.
Proof. by rewrite flat_map_concat_map. Qed.
Lemma stage e p0 c0 es es' s : chars e = amp :: p0 → (∀ c, piece_ok (chars e) (kept es c)) →
  (∀ c, (if decide (kept es c = chars e) then [c0] else kept es c) = kept es' c) →
  replace e (String c0 "") (str (concat (kept es <$> chars s))) = str (concat (kept es' <$> chars s)).
Proof.
  intros He Hok Hnext. unfold replace, replacen. rewrite chars_str. f_equal. rewrite He in *. rewrite replace_pieces.
  - change (chars (String c0 "")) with [c0]. induction (chars s) as [|c l IH]; [done|]. cbn [fmap list_fmap flat_map concat]. rewrite IH, Hnext. done.
  - apply Forall_fmap, Forall_forall. intros c _. apply Hok.
  - by rewrite length_chars, chars_str.
Qed.
Lemma entity_cases (P : ascii → Prop) : (∀ c, entity c = None → c ≠ amp → P c) → P amp → P "<"%char → P ">"%char → P "034"%char → P "'"%char → ∀ c, P c.
Proof.
  intros Hn H1 H2 H3 H4 H5 c. destruct (entity c) eqn:E.
  - unfold entity in E. repeat case_bool_decide; subst; done.
  - apply Hn; [done|]. intros ->. done.
Qed.
Ltac no_prefix := let l := fresh in let k := fresh in let E := fresh in intros l [k E]; vm_compute in E; discriminate E.
Ltac stage_ok :=
  first [ intros c; pattern c; apply entity_cases; [intros c' En Hc; left; exists c'; unfold kept; by rewrite En
                                                   |first [by left; eexists; split; [vm_compute; reflexivity|]
                                                          |right; eexists; split; [vm_compute; reflexivity|]; split; [by apply (bool_decide_unpack _); vm_compute|]; first [by left|right; no_prefix]]..] ].
Ltac stage_next := intros c; pattern c; apply entity_cases; [intros c' En Hc; unfold kept; rewrite En; rewrite decide_False by (intros E; vm_compute in E; injection E; congruence); done|vm_compute; reflexivity..].
Lemma unescape_escape s : html_unescape (escape s) = s.
Proof.
  assert (escape s = str (concat (kept ENTITIES <$> chars s))) as ->.
  { unfold escape. f_equal. rewrite concat_fmap. apply flat_map_ext. intros c. unfold kept. destruct (entity c) as [e|] eqn:E; [|done].
    rewrite bool_decide_eq_true_2; [done|]. revert e E. pattern c. apply entity_cases; [intros c' En Hc e E; congruence|by intros e [= <-]; apply (bool_decide_unpack _); vm_compute..]. }
  unfold html_unescape.
  rewrite (stage "&quot;" (tail (chars "&quot;")) "034" ENTITIES (drop 1 ENTITIES)); [|done|stage_ok|stage_next].
  rewrite (stage "&#34;" (tail (chars "&#34;")) "034" _ (drop 2 ENTITIES)); [|done|stage_ok|stage_next].
  rewrite (stage "&#39;" (tail (chars "&#39;")) "'" _ (drop 3 ENTITIES)); [|done|stage_ok|stage_next].
  rewrite (stage "&lt;" (tail (chars "&lt;")) "<" _ (drop 4 ENTITIES)); [|done|stage_ok|stage_next].
  rewrite (stage "&gt;" (tail (chars "&gt;")) ">" _ (drop 5 ENTITIES)); [|done|stage_ok|stage_next].
  rewrite (stage "&amp;" (tail (chars "&amp;")) "&" _ []); [|done|stage_ok|stage_next].
  rewrite <- (str_chars s) at 2. f_equal. rewrite concat_fmap. induction (chars s) as [|c l IH]; [done|]. cbn. rewrite IH. unfold kept. by destruct (entity c).
Qed.

(** ** Attributes *)

Definition print_attr (a : string * option string) : string := a.1 +:+ match a.2 with Some v => "=" +:+ quote +:+ v +:+ quote | None => "" end.
Definition print_attrs (l : list (string * option string)) : string := join " " (print_attr <$> l).
Definition read_back (l : list (string * option string)) (out : list (string * string)) : list (string * string) :=
  foldl (λ m a, insert_key a.1 (default "" a.2) m) out l.
(** A key of letters; a value without quotes and angle brackets. *)
Definition key_ok (k : string) : Prop := k ≠ "" ∧ Forall (λ c, is_lower c = true) (chars k).
Definition outside_tag (c : ascii) : bool := negb (bool_decide (c = "034"%char) || bool_decide (c = "<"%char) || bool_decide (c = ">"%char)).
Definition text_ok (v : string) : Prop := Forall (λ c, outside_tag c = true) (chars v).
Definition attr_ok (a : string * option string) : Prop := key_ok a.1 ∧ (∀ v, a.2 = Some v → text_ok v).

Lemma span_app stop a b : Forall (λ c, stop c = false) a → (b = [] ∨ ∃ c b', b = c :: b' ∧ stop c = true) → span stop (a ++ b) = (a, b).
Proof.
  intros Ha Hb. unfold span. assert (drop_while (λ c, negb (stop c)) (a ++ b) = b) as ->.
  { induction Ha as [|c a Hc _ IH]; cbn; [destruct Hb as [->|(c & b' & -> & Hc)]; cbn; [done|by rewrite Hc]|]. by rewrite Hc. }
  rewrite length_app. replace (length a + length b - length b) with (length a) by lia. by rewrite take_app_length.
Qed.
Lemma lower_facts c : is_lower c = true → is_whitespace c = false ∧ is_equals c = false ∧ is_quote c = false ∧ to_lower_char c = c ∧ outside_tag c = true ∧ Servarr.is_slash c = false.
Proof. destruct c as [[] [] [] [] [] [] [] []]; vm_compute; try done. Qed.
Lemma key_lower k : key_ok k → to_lowercase k = k.
Proof. intros [_ Hk]. rewrite <- (str_chars k) at 2. unfold to_lowercase. f_equal. induction Hk as [|c l Hc _ IH]; [done|]. cbn. rewrite IH. by destruct (lower_facts c Hc) as (_ & _ & _ & -> & _). Qed.
Lemma drop_ws_again l : drop_while is_whitespace (drop_while is_whitespace l) = drop_while is_whitespace l.
Proof. induction l as [|c l IH]; cbn; [done|]. destruct (is_whitespace c) eqn:E; [done|]. cbn. by rewrite E. Qed.
Lemma attrs_from_ws fuel rest out : attrs_from fuel (drop_while is_whitespace rest) out = attrs_from fuel rest out.
Proof. destruct fuel; [done|]. cbn [attrs_from]. by rewrite drop_ws_again. Qed.
(** What may follow an attribute: nothing, or a space and another. *)
Definition follows (rest : list ascii) : Prop := rest = [] ∨ ∃ c r, rest = " "%char :: c :: r ∧ is_lower c = true.
Lemma attr_read fuel a rest out : attr_ok a → follows rest →
  attrs_from (S fuel) (chars (print_attr a) ++ rest) out = attrs_from fuel rest (insert_key a.1 (default "" a.2) out).
Proof.
  destruct a as [k v]. intros [Hk Hv] Hrest. pose proof (key_lower k Hk) as El. destruct Hk as [Hne Hk]. cbn [fst snd] in *. unfold print_attr. cbn [fst snd]. rewrite chars_app, <- app_assoc.
  destruct (chars k) as [|c0 k0] eqn:Ek; [by apply chars_nil_iff in Ek|]. pose proof (Forall_inv Hk) as Hc0. destruct (lower_facts c0 Hc0) as (Hws & _). cbn [attrs_from app].
  assert (drop_while is_whitespace (c0 :: k0 ++ chars (match v with Some v => "=" +:+ quote +:+ v +:+ quote | None => "" end) ++ rest) = (c0 :: k0) ++ chars (match v with Some v => "=" +:+ quote +:+ v +:+ quote | None => "" end) ++ rest) as -> by (cbn; by rewrite Hws).
  set (tl := chars (match v with Some v => _ | None => _ end)). change ((c0 :: k0) ++ tl ++ rest) with (c0 :: (k0 ++ tl ++ rest)). cbv iota.
  change (c0 :: k0 ++ tl ++ rest) with ((c0 :: k0) ++ tl ++ rest). rewrite span_app.
  2: { eapply Forall_impl; [exact Hk|]. intros c Hc. by destruct (lower_facts c Hc) as (-> & -> & _). }
  2: { unfold tl. destruct v as [v|]; [right; by eexists _, _|]. destruct Hrest as [->|(c & r & -> & _)]; [by left|right; by eexists _, _]. }
  cbv iota. rewrite <- Ek, str_chars, El. unfold tl. destruct v as [v|].
  - specialize (Hv v eq_refl). change (chars ("=" +:+ quote +:+ v +:+ quote)) with ("="%char :: chars (quote +:+ v +:+ quote)). rewrite chars_app, chars_app. cbn [app drop_while]. change (is_whitespace "=") with false. cbv iota.
    change (is_equals "=") with true. cbv iota. unfold attr_value. change (chars quote) with ["034"%char]. cbn [app drop_while]. change (is_whitespace "034") with false. cbv iota. change (is_quote "034") with true. cbv iota.
    rewrite <- app_assoc. cbn [app]. rewrite span_app; [cbn [tail]; by rewrite str_chars| |right; by eexists _, _].
    eapply Forall_impl; [exact Hv|]. intros c Hc. unfold same_char. apply bool_decide_eq_false. intros ->. done.
  - change (chars "" ++ rest) with rest. destruct Hrest as [->|(c & r & -> & Hc)]; [done|]. destruct (lower_facts c Hc) as (Hw & He & _).
    assert (drop_while is_whitespace (" "%char :: c :: r) = c :: r) as Ed by (cbn; by rewrite Hw). rewrite <- (attrs_from_ws fuel (" "%char :: c :: r)), Ed, He. done.
Qed.
Lemma print_attrs_cons a b l : chars (print_attrs (a :: b :: l)) = chars (print_attr a) ++ " "%char :: chars (print_attrs (b :: l)).
Proof. unfold print_attrs. cbn [fmap list_fmap]. rewrite join_cons, !chars_app. done. Qed.
Lemma print_attr_ends a : attr_ok a → ∃ c x d, chars (print_attr a) = c :: x ∧ is_lower c = true ∧ last (chars (print_attr a)) = Some d ∧ (d = "034"%char ∨ is_lower d = true).
Proof.
  destruct a as [k v]. intros [[Hne Hk] _]. unfold print_attr. cbn [fst snd] in *. rewrite chars_app. destruct (chars k) as [|c0 k0] eqn:Ek; [by apply chars_nil_iff in Ek|].
  exists c0. pose proof (Forall_inv Hk) as Hc0. destruct v as [v|]; eexists.
  - exists "034"%char. split_and!; [reflexivity|done| |by left]. rewrite last_app. by rewrite !chars_app, !last_app.
  - rewrite app_nil_r. destruct (last (c0 :: k0)) as [d|] eqn:El; [|by apply last_None in El]. exists d. split_and!; [reflexivity|done|done|]. right. rewrite Forall_forall in Hk. apply Hk.
    by apply last_Some_elem_of.
Qed.
Lemma print_attrs_ends a l : Forall attr_ok (a :: l) → ∃ c x d, chars (print_attrs (a :: l)) = c :: x ∧ is_lower c = true ∧ last (chars (print_attrs (a :: l))) = Some d ∧ (d = "034"%char ∨ is_lower d = true).
Proof.
  revert a. induction l as [|b l IH]; intros a Hl; apply Forall_cons in Hl as [Ha Hl].
  - destruct (print_attr_ends a Ha) as (c & x & d & H1 & H2 & H3 & H4). by exists c, x, d.
  - destruct (print_attr_ends a Ha) as (c & x & d & H1 & H2 & H3 & H4). destruct (IH b Hl) as (c' & x' & d' & H1' & H2' & H3' & H4').
    rewrite print_attrs_cons, H1. exists c. eexists. exists d'. split_and!; [reflexivity|done| |done]. change ((c :: x) ++ ?t) with (c :: x ++ t). rewrite app_comm_cons, last_app. change (" "%char :: ?t) with ([" "%char] ++ t). by rewrite last_app, H3'.
Qed.
Lemma attrs_all l fuel out : Forall attr_ok l → length (chars (print_attrs l)) < fuel → attrs_from fuel (chars (print_attrs l)) out = read_back l out.
Proof.
  revert fuel out. induction l as [|a l IH]; intros fuel out Hl Hf; [by destruct fuel|]. apply Forall_cons in Hl as [Ha Hl]. destruct fuel as [|fuel]; [lia|]. destruct l as [|b l].
  - change (print_attrs [a]) with (print_attr a) in *. rewrite <- (app_nil_r (chars (print_attr a))), attr_read; [|done|by left]. by destruct fuel.
  - rewrite print_attrs_cons in *. destruct (print_attrs_ends b l Hl) as (c & x & d & H1 & H2 & _). rewrite attr_read; [|done|right; rewrite H1; by eexists _, _].
    rewrite <- attrs_from_ws. assert (drop_while is_whitespace (" "%char :: chars (print_attrs (b :: l))) = chars (print_attrs (b :: l))) as ->.
    { rewrite H1. cbn. destruct (lower_facts c H2) as (-> & _). done. }
    rewrite IH; [done|done|]. rewrite length_app in Hf. cbn [length] in Hf. lia.
Qed.
Lemma hf_trim_end_id p s d : last (chars s) = Some d → p d = false → trim_end_matches p s = s.
Proof.
  intros Hl Hp. unfold trim_end_matches. apply last_Some in Hl as [x Hx]. rewrite Hx, drop_while_end_snoc_id by done. by rewrite <- Hx, str_chars.
Qed.
(** The attributes of a printed tag are those that were printed, the last of a name where it is there twice. *)
Lemma attrs_printed l : Forall attr_ok l → attrs (print_attrs l) = read_back l [].
Proof.
  intros Hl. destruct l as [|a l]; [done|]. destruct (print_attrs_ends a l Hl) as (c & x & d & H1 & H2 & H3 & H4). set (s := print_attrs (a :: l)) in *.
  destruct (lower_facts c H2) as (Hw & _ & _ & _ & _ & _). assert (is_whitespace d = false ∧ Servarr.is_slash d = false) as [Hd1 Hd2].
  { destruct H4 as [->|H4]; [done|]. by destruct (lower_facts d H4) as (? & _ & _ & _ & _ & ?). }
  assert (trim (trim_end_matches Servarr.is_slash s) = s) as E.
  { rewrite (hf_trim_end_id Servarr.is_slash s d) by done. unfold trim, trim_matches. assert (trim_start_matches is_whitespace s = s) as ->; [|by apply (hf_trim_end_id _ _ d)].
    unfold trim_start_matches. rewrite H1. cbn [drop_while]. rewrite Hw, <- H1. apply str_chars. }
  unfold attrs. rewrite E. apply attrs_all; [done|]. fold s. rewrite length_chars. lia.
Qed.

(** ** Tags *)

Record Tag : Type := mkTag { tg_name : string; tg_attrs : list (string * option string); tg_after : string }.
Definition print_tag (t : Tag) : string :=
  (tg_name t +:+ match tg_attrs t with [] => "" | _ => " " +:+ print_attrs (tg_attrs t) end) +:+ ">" +:+ tg_after t.
Definition name_char (c : ascii) : bool := is_lower c || Servarr.is_slash c.
Definition tag_ok (t : Tag) : Prop := Forall (λ c, name_char c = true) (chars (tg_name t)) ∧ Forall attr_ok (tg_attrs t) ∧ text_ok (tg_after t).
Definition print_tags (ts : list Tag) : string := str (flat_map (λ t, "<"%char :: chars (print_tag t)) ts).

Lemma name_facts c : name_char c = true → is_whitespace c = false ∧ to_lower_char c = c ∧ c ≠ "<"%char ∧ c ≠ ">"%char.
Proof. destruct c as [[] [] [] [] [] [] [] []]; vm_compute; try done. Qed.
Lemma outside_facts c : outside_tag c = true → c ≠ "<"%char ∧ c ≠ ">"%char.
Proof. intros Hc. split; intros ->; done. Qed.
Lemma print_attr_inside a : attr_ok a → Forall (λ c, c ≠ "<"%char ∧ c ≠ ">"%char) (chars (print_attr a)).
Proof.
  destruct a as [k v]. intros [[_ Hk] Hv]. cbn [fst snd] in *. unfold print_attr. cbn [fst snd]. rewrite chars_app. apply Forall_app. split.
  - eapply Forall_impl; [exact Hk|]. intros c Hc. destruct (lower_facts c Hc) as (_ & _ & _ & _ & Ho & _). by apply outside_facts.
  - destruct v as [v|]; [|constructor]. rewrite !chars_app. repeat (apply Forall_app; split); try (by repeat constructor). eapply Forall_impl; [by apply Hv|]. intros c. apply outside_facts.
Qed.
Lemma print_attrs_inside l : Forall attr_ok l → Forall (λ c, c ≠ "<"%char ∧ c ≠ ">"%char) (chars (print_attrs l)).
Proof.
  induction l as [|a l IH]; intros Hl; [constructor|]. apply Forall_cons in Hl as [Ha Hl]. destruct l as [|b l]; [by apply print_attr_inside|]. rewrite print_attrs_cons. apply Forall_app. split; [by apply print_attr_inside|].
  constructor; [done|by apply IH].
Qed.
Lemma not_in (c : ascii) l : Forall (λ x, x ≠ c) l → c ∉ l.
Proof. rewrite Forall_forall. intros Hf Hin. by apply (Hf c). Qed.
Lemma lower_name l : Forall (λ c, name_char c = true) l → to_lower_char <$> l = l.
Proof. induction 1 as [|c l Hc _ IH]; [done|]. cbn. rewrite IH. by destruct (name_facts c Hc) as (_ & -> & _). Qed.
(** A printed tag is read as what it is. *)
Lemma read_printed t s : tag_ok t → read_chunk s (print_tag t) = read_tag (tg_name t) (read_back (tg_attrs t) []) (tg_after t) s.
Proof.
  intros (Hn & Ha & Ht). unfold read_chunk, print_tag. set (inside := tg_name t +:+ _). assert (Forall (λ c, c ≠ ">"%char) (chars inside)) as Hin.
  { unfold inside. rewrite chars_app. apply Forall_app. split; [eapply Forall_impl; [exact Hn|]; intros c Hc; by destruct (name_facts c Hc) as (_ & _ & _ & ?)|].
    destruct (tg_attrs t) as [|a l] eqn:E; [constructor|]. rewrite <- E in *. rewrite chars_app. apply Forall_app. split; [by repeat constructor|].
    eapply Forall_impl; [by apply print_attrs_inside|]. by intros c []. }
  assert (split_once ">" (inside +:+ ">" +:+ tg_after t) = Some (inside, tg_after t)) as ->.
  { unfold split_once. rewrite (proj2 (split_once_list_Some ">" _ (chars inside) (chars (tg_after t)))); [by cbn; rewrite !str_chars|]. split; [by rewrite !chars_app|by apply not_in]. }
  change (default _ (Some ?x)) with x. cbv iota beta. assert (tag_name inside = (tg_name t, match tg_attrs t with [] => "" | _ => print_attrs (tg_attrs t) end)) as ->.
  { unfold tag_name, inside. rewrite chars_app. rewrite span_app.
    - destruct (tg_attrs t) as [|a l]; [by rewrite str_app_nil_r|]. change (chars (" " +:+ ?x)) with (" "%char :: chars x). by rewrite !str_chars.
    - eapply Forall_impl; [exact Hn|]. intros c Hc. by destruct (name_facts c Hc).
    - destruct (tg_attrs t) as [|a l]; [by left|right; by eexists _, _]. }
  assert (to_lowercase (tg_name t) = tg_name t) as ->. { unfold to_lowercase. rewrite lower_name by done. apply str_chars. }
  f_equal. destruct (tg_attrs t) as [|a l]; [done|]. by apply attrs_printed.
Qed.
Lemma hf_split_list_app c w l : c ∉ w → split_list c (w ++ c :: l) = w :: split_list c l.
Proof.
  induction w as [|a w IH]; intros Hw; cbn [app split_list]; [by rewrite decide_True|]. apply not_elem_of_cons in Hw as [Ha Hw]. rewrite decide_False by congruence. by rewrite IH.
Qed.
Lemma split_list_none c w : c ∉ w → split_list c w = [w].
Proof. induction w as [|a w IH]; intros Hw; cbn [split_list]; [done|]. apply not_elem_of_cons in Hw as [Ha Hw]. rewrite decide_False by congruence. by rewrite IH. Qed.
Lemma tag_no_angle t : tag_ok t → "<"%char ∉ chars (print_tag t).
Proof.
  intros (Hn & Ha & Ht). apply not_in. unfold print_tag. rewrite !chars_app. repeat (apply Forall_app; split).
  - eapply Forall_impl; [exact Hn|]. intros c Hc. by destruct (name_facts c Hc) as (_ & _ & ? & _).
  - destruct (tg_attrs t) as [|a l] eqn:E; [constructor|]. rewrite <- E in *. rewrite chars_app. apply Forall_app. split; [by repeat constructor|]. eapply Forall_impl; [by apply print_attrs_inside|]. by intros c [].
  - by repeat constructor.
  - eapply Forall_impl; [exact Ht|]. intros c Hc. by destruct (outside_facts c Hc).
Qed.
Lemma split_tags ts : Forall tag_ok ts → tail (split_char "<" (print_tags ts)) = print_tag <$> ts.
Proof.
  intros Hts. assert (∀ w, "<"%char ∉ w → split_list "<" (w ++ flat_map (λ t, "<"%char :: chars (print_tag t)) ts) = w :: (chars ∘ print_tag <$> ts)) as Hg.
  { induction Hts as [|t ts Ht _ IH]; intros w Hw; cbn [flat_map fmap list_fmap]; [rewrite app_nil_r; by apply split_list_none|]. cbn [app]. rewrite hf_split_list_app by done.
    rewrite IH; [done|by apply tag_no_angle]. }
  unfold split_char, print_tags. rewrite chars_str. specialize (Hg [] (not_elem_of_nil _)). cbn [app] in Hg. rewrite Hg. cbn [fmap list_fmap tail]. rewrite <- list_fmap_compose. apply list_fmap_ext. intros i t _. cbn. apply str_chars.
Qed.
(** The fields of printed tags, read one by one. *)
Lemma fields_of_tags ts : Forall tag_ok ts → fields_of (print_tags ts) = rd_fields (foldl (λ s t, read_tag (tg_name t) (read_back (tg_attrs t) []) (tg_after t) s) (mkReading [] None) ts).
Proof.
  intros Hts. unfold fields_of. rewrite split_tags by done. f_equal. generalize (mkReading [] None). induction Hts as [|t ts Ht _ IH]; intros s; [done|]. cbn [fmap list_fmap foldl]. by rewrite read_printed, IH.
Qed.

(** ** Controls *)

Inductive Control : Type :=
  | Input (ty name value : string) (checked : bool)
  | Select (name : string) (choices : list (string * bool))
  | Textarea (name text : string).
Definition flag (k : string) (b : bool) : list (string * option string) := if b then [(k, None)] else [].
Definition option_tags (c : string * bool) : list Tag := [mkTag "option" (("value", Some (escape c.1)) :: flag "selected" c.2) (escape c.1); mkTag "/option" [] ""].
Definition control_tags (c : Control) : list Tag :=
  match c with
  | Input ty name value checked => [mkTag "input" ([("type", Some ty); ("name", Some name); ("value", Some (escape value))] ++ flag "checked" checked) ""]
  | Select name choices => mkTag "select" [("name", Some name)] "" :: flat_map option_tags choices ++ [mkTag "/select" [] ""]
  | Textarea name text => [mkTag "textarea" [("name", Some name)] (escape text); mkTag "/textarea" [] ""]
  end.
Definition print_form (cs : list Control) : string := print_tags (flat_map control_tags cs).
(** ** What a browser submits

    By the HTML standard: the type of an input says whether it is submitted; of a drop-down, the selected choice, or the first
    when none is. An image, a file and the types whose values a browser checks or corrects (numbers, dates, colours) are
    left out, and so are names and values that a browser treats specially. *)
Inductive Submits : Type := Never | WhenChecked | Always.
Definition input_types : list (string * Submits) :=
  [("submit", Never); ("reset", Never); ("button", Never); ("checkbox", WhenChecked); ("radio", WhenChecked);
   ("text", Always); ("hidden", Always); ("password", Always); ("search", Always); ("tel", Always); ("url", Always); ("email", Always)].
Definition submitted (c : Control) : list (string * string) :=
  match c with
  | Input ty name value checked =>
      match Json.assoc ty input_types with
      | Some Always => [(name, value)]
      | Some WhenChecked => if checked then [(name, value)] else []
      | Some Never | None => []
      end
  | Select name choices =>
      match List.filter snd choices, choices with
      | (v, _) :: _, _ => [(name, v)]
      | [], (v, _) :: _ => [(name, v)]
      | [], [] => []
      end
  | Textarea name text => [(name, text)]
  end.
(** Printable ASCII: no line breaks, which a browser strips or rewrites. *)
Definition printable (s : string) : Prop := Forall (λ c, 32 ≤ N_of_ascii c < 127)%N (chars s).
Definition name_ok (n : string) : Prop := text_ok n ∧ amp ∉ chars n ∧ n ≠ "" ∧ n ≠ "_charset_".
Definition control_ok (c : Control) : Prop :=
  match c with
  | Input ty name value _ => is_Some (Json.assoc ty input_types) ∧ name_ok name ∧ printable value ∧ (ty ∈ ["url"; "email"] → trim value = value)
  | Select name choices => name_ok name ∧ Forall (λ c, printable c.1) choices ∧ length (List.filter snd choices) ≤ 1
  | Textarea name text => name_ok name ∧ printable text
  end.
Definition checked_radio (c : Control) : option string :=
  match c with Input ty name _ true => if String.eqb ty "radio" then Some name else None | _ => None end.
(** One radio button at most is checked of each name. *)
Definition form_ok (cs : list Control) : Prop := Forall control_ok cs ∧ NoDup (omap checked_radio cs).

Lemma input_type_cases ty : is_Some (Json.assoc ty input_types) → text_ok ty ∧
  match Json.assoc ty input_types with
  | Some Never => is_button ty = true
  | Some WhenChecked => is_button ty = false ∧ is_box ty = true
  | Some Always => is_button ty = false ∧ is_box ty = false
  | None => False
  end.
Proof.
  intros [x Hx]. assert (ty ∈ input_types.*1) as Hin.
  { revert Hx. generalize input_types. intros l. induction l as [|[k v] l IH]; cbn; [done|]. case_decide as Hk; [intros _; subst; by left|intros; right; by apply IH]. }
  revert Hin. clear x Hx. revert ty. apply Forall_forall. repeat (apply Forall_cons; split; [split; [vm_compute; repeat constructor|by vm_compute]|]). apply Forall_nil. exact I.
Qed.

Lemma escape_ok s : text_ok (escape s).
Proof.
  unfold text_ok, escape. rewrite chars_str. apply Forall_forall. intros x Hx. apply list_elem_of_In, in_flat_map in Hx as (c & _ & Hx%list_elem_of_In). revert x Hx.
  pattern c. apply entity_cases; [|intros x Hx; revert x Hx; apply Forall_forall; vm_compute; repeat constructor..].
  intros c' En _ x. rewrite En. intros ->%list_elem_of_singleton. destruct c' as [[] [] [] [] [] [] [] []]; vm_compute in En |- *; done.
Qed.
Lemma attr_value_ok k v : key_ok k → text_ok v → attr_ok (k, Some v).
Proof. intros Hk Hv. split; [done|]. by intros ? [= <-]. Qed.
Lemma attr_flag_ok k b : key_ok k → Forall attr_ok (flag k b).
Proof. intros Hk. destruct b; [|constructor]. constructor; [|constructor]. by split. Qed.
Lemma key_known k : bool_decide (k ≠ "") && forallb is_lower (chars k) = true → key_ok k.
Proof. intros [H1%bool_decide_eq_true H2]%andb_true_iff. split; [done|]. apply Forall_forall. intros c Hc. rewrite forallb_forall in H2. by apply H2, list_elem_of_In. Qed.
Lemma name_known n : forallb name_char (chars n) = true → Forall (λ c, name_char c = true) (chars n).
Proof. intros H2. apply Forall_forall. intros c Hc. rewrite forallb_forall in H2. by apply H2, list_elem_of_In. Qed.
#[local] Hint Resolve escape_ok : core.
Lemma tag_known n l after : forallb name_char (chars n) = true → Forall attr_ok l → text_ok after → tag_ok (mkTag n l after).
Proof. intros Hn Hl Ha. split_and!; [by apply name_known|done|done]. Qed.
Lemma empty_ok : text_ok "".
Proof. constructor. Qed.
Lemma control_tags_ok c : control_ok c → Forall tag_ok (control_tags c).
Proof.
  destruct c as [ty n v b|n choices|n text]; cbn [control_ok control_tags].
  - intros ([Ht _]%input_type_cases & [Hn _] & _). constructor; [|constructor]. apply tag_known; [done| |apply empty_ok]. apply Forall_app. split; [|by apply attr_flag_ok, key_known].
    repeat (constructor; [apply attr_value_ok; [by apply key_known|done]|]). constructor.
  - intros ([Hn _] & _). constructor; [apply tag_known; [done| |apply empty_ok]; constructor; [apply attr_value_ok; [by apply key_known|done]|constructor]|]. apply Forall_app. split.
    + apply Forall_flat_map, Forall_forall. intros [v b] _. constructor; [|constructor; [by apply tag_known; [|constructor|apply empty_ok]|constructor]].
      apply tag_known; [done| |done]. constructor; [apply attr_value_ok; [by apply key_known|done]|by apply attr_flag_ok, key_known].
    + constructor; [by apply tag_known; [|constructor|apply empty_ok]|constructor].
  - intros [[Hn _] _]. constructor; [|constructor; [by apply tag_known; [|constructor|apply empty_ok]|constructor]]. apply tag_known; [done| |done].
    constructor; [apply attr_value_ok; [by apply key_known|done]|constructor].
Qed.

(** ** Reading them *)

Definition rt (s : Reading) (t : Tag) : Reading := read_tag (tg_name t) (read_back (tg_attrs t) []) (tg_after t) s.
Lemma input_attrs ty n v b : let a := read_back ([("type", Some ty); ("name", Some n); ("value", Some v)] ++ flag "checked" b) [] in
  Json.assoc "type" a = Some ty ∧ Json.assoc "name" a = Some n ∧ Json.assoc "value" a = Some v ∧ has_attr "checked" a = b.
Proof. destruct b; vm_compute; done. Qed.
Lemma option_attrs v b : let a := read_back (("value", Some v) :: flag "selected" b) [] in Json.assoc "value" a = Some v ∧ has_attr "selected" a = b.
Proof. destruct b; vm_compute; done. Qed.
Lemma name_attr n : Json.assoc "name" (read_back [("name", Some n)] []) = Some n.
Proof. done. Qed.
Lemma read_option_tags fs n first chosen_yet c :
  foldl rt (mkReading fs (Some (n, first, chosen_yet))) (option_tags c) =
    mkReading (if c.2 && negb chosen_yet then fs ++ [(n, c.1)] else fs) (Some (n, Some (default c.1 first), chosen_yet || c.2)).
Proof.
  destruct c as [v b]. cbn [option_tags foldl fst snd]. unfold rt. cbn [tg_name tg_attrs tg_after]. change (read_tag "option" ?a ?t ?s) with (read_option a t s). change (read_tag "/option" ?a ?t ?s) with s.
  destruct (option_attrs (escape v) b) as [E1 E2]. unfold read_option. cbn [rd_select rd_fields]. rewrite E1, E2. change (default _ (Some ?x)) with x. rewrite unescape_escape.
  destruct b, chosen_yet; cbn [andb negb orb]; destruct first; done.
Qed.
Lemma read_choices fs n choices first chosen_yet :
  foldl rt (mkReading fs (Some (n, first, chosen_yet))) (flat_map option_tags choices) =
    mkReading (if (chosen_yet : bool) then fs else match List.find snd choices with Some c => fs ++ [(n, c.1)] | None => fs end)
      (Some (n, match first with Some f => Some f | None => fst <$> head choices end, chosen_yet || existsb snd choices)).
Proof.
  revert fs first chosen_yet. induction choices as [|[v b] l IH]; intros fs first yet; cbn [flat_map]; [cbn; destruct yet, first; done|].
  rewrite foldl_app, read_option_tags, IH. cbn [List.find existsb head fmap option_fmap option_map fst snd]. destruct b, yet; cbn [andb negb orb]; destruct first; done.
Qed.
Lemma existsb_find {A} (p : A → bool) l : existsb p l = bool_decide (is_Some (List.find p l)).
Proof. induction l as [|a l IH]; cbn; [done|]. by destruct (p a). Qed.
Lemma find_filter {A} (p : A → bool) l : List.find p l = head (List.filter p l).
Proof. induction l as [|a l IH]; cbn; [done|]. by destruct (p a). Qed.
Lemma read_control c fs : control_ok c → foldl rt (mkReading fs None) (control_tags c) = mkReading (fs ++ submitted c) None.
Proof.
  destruct c as [ty n v b|n choices|n text]; cbn [control_tags submitted control_ok]; intros Hok.
  - destruct Hok as ([_ Hty]%input_type_cases & _). cbn [foldl]. unfold rt. cbn [tg_name tg_attrs tg_after]. change (read_tag "input" ?a ?t ?s) with (read_input a s). destruct (input_attrs ty n (escape v) b) as (E1 & E2 & E3 & E4).
    unfold read_input. rewrite E1, E2, E3, E4. change (default _ (Some ?x)) with x. rewrite unescape_escape.
    destruct (Json.assoc ty input_types) as [[]|]; [rewrite Hty|destruct Hty as [-> ->]..|done]; cbn [andb negb]; [by rewrite app_nil_r|by destruct b; cbn; rewrite ?app_nil_r|done].
  - cbn [foldl]. rewrite foldl_app. unfold rt at 3. cbn [tg_name tg_attrs tg_after]. change (read_tag "select" ?a ?t ?s) with (mkReading (rd_fields s) ((λ n, (n, None, false)) <$> Json.assoc "name" a)).
    rewrite name_attr. cbn [fmap option_fmap option_map rd_fields]. rewrite read_choices. cbn [foldl orb]. unfold rt. cbn [tg_name]. change (read_tag "/select" ?a ?t ?s) with (close_select s). unfold close_select. cbn [rd_select rd_fields].
    rewrite existsb_find, find_filter. destruct (List.filter snd choices) as [|[v b] l]; cbn [head is_Some].
    + rewrite bool_decide_eq_false_2 by (by intros []). destruct choices as [|[v b] l]; cbn; [by rewrite app_nil_r|done].
    + rewrite bool_decide_eq_true_2 by done. destruct (fst <$> head choices); done.
  - cbn [foldl]. unfold rt. cbn [tg_name tg_attrs tg_after]. change (read_tag "/textarea" ?a ?t ?s) with s. change (read_tag "textarea" ?a ?t ?s) with (read_textarea a t s). unfold read_textarea. rewrite name_attr.
    assert (hd "" (split_text "</textarea>" (escape text)) = escape text) as ->; [|by rewrite unescape_escape].
    unfold split_text. assert (find_list (chars "</textarea>") (chars (escape text)) = None) as E.
    { apply find_list_None. intros before after Eq. pose proof (escape_ok text) as Ho. unfold text_ok in Ho. rewrite Eq, !Forall_app in Ho. destruct Ho as (_ & Ho & _). by apply Forall_inv in Ho. }
    destruct (String.length (escape text)); cbn [Caldav.split_str]; rewrite ?E; apply str_chars.
Qed.
(** C40: A form of inputs (text, hidden, password, search, telephone, address and mail fields, checkboxes, radio and other
    buttons), drop-downs and text areas, printed with its values escaped by the five standard entities, is read as a
    browser would submit it: buttons, and boxes that are not checked, left out; of a drop-down the selected choice or
    else the first; every value as it was. Names are not empty, values are printable ASCII, a drop-down has one
    selected choice at most, and of the radio buttons of one name one at most is checked. *)
Theorem form_submitted cs : form_ok cs → fields_of (print_form cs) = flat_map submitted cs.
Proof.
  intros [Hcs _]. unfold print_form. rewrite fields_of_tags by (apply Forall_flat_map; eapply Forall_impl; [exact Hcs|]; apply control_tags_ok).
  assert (∀ fs, foldl rt (mkReading fs None) (flat_map control_tags cs) = mkReading (fs ++ flat_map submitted cs) None) as Hg.
  { induction Hcs as [|c cs Hc _ IH]; intros fs; cbn [flat_map foldl]; [by rewrite app_nil_r|]. rewrite foldl_app, read_control, IH by done. by rewrite app_assoc. }
  change (rd_fields (foldl rt (mkReading [] None) (flat_map control_tags cs)) = flat_map submitted cs). by rewrite Hg.
Qed.
Lemma form_submitted_witness :
  let cs := [Input "checkbox" "fever_enabled" "1" false; Input "text" "proxy" "http://a?b=1&c='2'" true; Select "visibility" [("private", false); ("public", true); ("unlisted", false)];
             Select "order" [("asc", false); ("desc", false)]; Textarea "note" "<b> & " ; Input "radio" "theme" "dark" true; Input "submit" "go" "Save" false] in
  form_ok cs ∧ fields_of (print_form cs) = [("proxy", "http://a?b=1&c='2'"); ("visibility", "public"); ("order", "asc"); ("note", "<b> & "); ("theme", "dark")].
Proof.
  assert (form_ok [Input "checkbox" "fever_enabled" "1" false; Input "text" "proxy" "http://a?b=1&c='2'" true; Select "visibility" [("private", false); ("public", true); ("unlisted", false)];
    Select "order" [("asc", false); ("desc", false)]; Textarea "note" "<b> & " ; Input "radio" "theme" "dark" true; Input "submit" "go" "Save" false]) as Hok.
  { split; [|by apply (bool_decide_unpack _); vm_compute]. repeat first [apply Forall_nil; exact I|apply Forall_cons; split].
    all: cbn [control_ok fst length List.filter snd]; unfold name_ok; split_and!;
      first [by eexists|done|by apply (bool_decide_unpack _); vm_compute|vm_compute; repeat constructor; done|lia|idtac]. }
  split; [exact Hok|]. rewrite form_submitted by exact Hok. vm_compute. reflexivity.
Defined.
(** A plus sign, which Go's templates write as an entity, comes back as the entity's text. *)
Lemma plus_unread : html_unescape "a&#43;b" = "a&#43;b".
Proof. vm_compute. done. Qed.
