(* ===== verification/Miniflux.v ===== *)
(** * Setting up Miniflux ([apps/app-bootstrap/src/miniflux.rs])

    The linked account, and Fever through the web pages: there is no API for it, so the form is posted again as it is shown. *)

From Stdlib Require Import Ascii.
From stdpp Require Import options.
From S2P Require Import Prelude Text Json Codec Threads Markers Trace Apps Bootstrap Servarr Keycloak Ombi Html.

(** ** The web session *)

Record Ui : Type := mkUi { ui_base : string; ui_cookies : list (string * string) }.
Definition cookie_line (cookies : list (string * string)) : string := join "; " ((λ kv, kv.1 +:+ "=" +:+ kv.2) <$> cookies).
Definition keep_cookie (cookies : list (string * string)) (c : string) : list (string * string) :=
  match split_once "=" (before_semicolon c) with Some (k, v) => insert_key (trim k) (trim v) cookies | None => cookies end.
Definition keep_cookies (ui : Ui) (r : Resp) : Ui := mkUi (ui_base ui) (foldl keep_cookie (ui_cookies ui) (cookies r)).
Definition FEVER : list string := ["csrf"; "fever_enabled"; "fever_username"; "fever_password"].
Definition fever_on : string := "name=" +:+ quote +:+ "fever_enabled" +:+ quote +:+ " value=" +:+ quote +:+ "1" +:+ quote +:+ " checked".
Definition fever_named (user : string) : string :=
  "name=" +:+ quote +:+ "fever_username" +:+ quote +:+ " id=" +:+ quote +:+ "form-fever-username" +:+ quote +:+ " value=" +:+ quote +:+ user +:+ quote.
(** The form as shown, with only the Fever fields changed. *)
Definition fever_form (page token user password : string) : list (string * string) :=
  List.filter (λ kv, negb (bool_decide (kv.1 ∈ FEVER))) (form_fields page "/integration") ++
  [("csrf", token); ("fever_enabled", "1"); ("fever_username", user); ("fever_password", password)].

Section miniflux.
Context `{SerdeJson, Libs} (env : string → option string).
Implicit Types (path user password : string).

Definition mf_base : string := no_slash (var env "MINIFLUX_URL" "http://miniflux.home.svc.cluster.local:8080").
Definition ui_req (ui : Ui) (method path : string) : Req := with_header ("cookie", cookie_line (ui_cookies ui)) (plain method (ui_base ui +:+ path)).
Definition ui_get (ui : Ui) path : Job (string * Ui) :=
  r ← send (ui_req ui "GET" path); let ui := keep_cookies ui r in
  r ← ok r ("GET " +:+ path); match rs_text r with Ok t => mret (t, ui) | Err e => fail e end.
Definition form_req (ui : Ui) path (form : list (string * string)) : Req := with_body (FormBody form) (ui_req ui "POST" path).
Definition ui_post (ui : Ui) path (form : list (string * string)) : Job (Resp * Ui) := r ← send (form_req ui path form); mret (r, keep_cookies ui r).
Definition need_csrf (html : string) : Job string := need (csrf html) "no csrf field in page".
Definition login_form (token user password : string) : list (string * string) := [("csrf", token); ("username", user); ("password", password)].
(** A good login redirects away. *)
Definition sign_in user password : Job Ui :=
  '(page, ui) ← ui_get (mkUi mf_base []) "/";
  token ← need_csrf page;
  '(r, ui) ← ui_post ui "/login" (login_form token user password);
  if bool_decide (rs_status r = 303%N) || bool_decide (rs_status r = 302%N) then mret ui
  else fail ("web login as " +:+ user +:+ ": HTTP " +:+ status_text (rs_status r)).
Definition is_redirection (status : N) : bool := (300 <=? status)%N && (status <? 400)%N.
Definition ensure_fever user password : Job () :=
  ui ← sign_in user password;
  '(page, ui) ← ui_get ui "/integrations";
  if contains fever_on page && contains (fever_named user) page then say ("fever already enabled for " +:+ user)
  else
    token ← need_csrf page;
    '(r, ui) ← ui_post ui "/integration" (fever_form page token user password);
    if negb (is_redirection (rs_status r)) then fail ("POST /integration: HTTP " +:+ status_text (rs_status r))
    else
      '(page, _) ← ui_get ui "/integrations";
      if contains fever_on page then say ("enabled fever for " +:+ user) else fail "fever still disabled after saving the integrations form".

(** ** The account *)

Definition api_req (user password method path : string) : Req := with_header (basic user password) (plain method (mf_base +:+ path)).
Definition admin_name : string := var env "ADMIN_USER" "admin".
Definition user_body (user password sub : string) : Value :=
  json_object [("username", Str user); ("password", Str password); ("is_admin", Bool true); ("openid_connect_id", Str sub)].
Definition create_req (admin_password user password sub : string) : Req :=
  with_body (JsonBody (user_body user password sub)) (api_req admin_name admin_password "POST" "/v1/users").
Definition me_req user password : Req := api_req user password "GET" "/v1/me".
Definition changes_req (admin_password : string) (id : Z) (changes : list (string * Value)) : Req :=
  with_body (JsonBody (Object changes)) (api_req admin_name admin_password "PUT" ("/v1/users/" +:+ pretty id)).
Definition linked (u : Value) : string := default "" (as_str (u.["openid_connect_id"])).
(** What is to change: the admin's flag, and the password where it is refused. *)
Definition changes_for (u : Value) (refused : bool) (password : string) : list (string * Value) :=
  (if value_eqb (u.["is_admin"]) (Bool true) then [] else [("is_admin", Bool true)]) ++ (if refused then [("password", Str password)] else []).
Definition settle_user (admin_password user password sub : string) (u : Value) : Job () :=
  if negb (String.eqb (linked u) sub) then fail (user +:+ " exists with another openid_connect_id")
  else
    id ← need (value_as_i64 (u.["id"])) "user has no id";
    me ← send (me_req user password);
    refused ← (if bool_decide (rs_status me = 401%N) then mret true else _ ← ok me "GET /v1/me"; mret false : Job bool);
    let changes := changes_for u refused password in
    if bool_decide (changes = []) then say (user +:+ " already linked, admin, and on the generated password")
    else
      r ← send (changes_req admin_password id changes); _ ← ok r "PUT /v1/users";
      say ("updated " +:+ user +:+ ": " +:+ join ", " (fst <$> changes)).
Definition user_req (admin_password user : string) : Req := api_req admin_name admin_password "GET" ("/v1/users/" +:+ user).
Definition ensure_user (admin_password user password sub : string) : Job () :=
  r ← send (user_req admin_password user);
  if bool_decide (rs_status r = 404%N) then
    r ← send (create_req admin_password user password sub); _ ← ok r "POST /v1/users";
    say ("created admin " +:+ user +:+ " linked to keycloak " +:+ sub)
  else
    r ← ok r ("GET /v1/users/" +:+ user); u ← json_body r;
    settle_user admin_password user password sub u.
Definition run : Job () :=
  admin_password ← secret env "ADMIN_PASSWORD";
  let user := var env "OIDC_USERNAME" "tristan" in
  password ← secret env "USER_PASSWORD";
  _ ← retry "waiting for miniflux" 120 (r ← send (plain "GET" (mf_base +:+ "/healthcheck")); _ ← ok r "GET /healthcheck"; mret ());
  kc ← Keycloak.user env;
  _ ← ensure_user admin_password user password (sub kc);
  ensure_fever user password.
End miniflux.

(** ** What setting up Miniflux does

    The account is made only where there is none and changed only where it differs; the integrations form is posted as it was shown. *)

Section due.
Context `{SerdeJson, Libs} (env : string → option string).
Implicit Types (l : Log) (user password page token : string) (ui : Ui).

(** A page, and the session with the cookies it came with. *)
Definition showed l ui path page (ui' : Ui) : Prop := ∃ r : Resp, mkEvent (Http (ui_req ui "GET" path)) (Ok r : Ans (Http (ui_req ui "GET" path))) ∈ l ∧
  is_success (rs_status r) = true ∧ rs_text r = Ok page ∧ ui' = keep_cookies ui r.
(** The login with the generated password, refused or not. *)
Definition judged l user password (refused : bool) : Prop := ∃ r : Resp,
  mkEvent (Http (me_req env user password)) (Ok r : Ans (Http (me_req env user password))) ∈ l ∧ bool_decide (rs_status r = 401%N) = refused ∧ (refused = false → is_success (rs_status r) = true).
Definition absent l admin_password user : Prop := ∃ r : Resp,
  mkEvent (Http (user_req env admin_password user)) (Ok r : Ans (Http (user_req env admin_password user))) ∈ l ∧ rs_status r = 404%N.
(** What is to change of the account that is there, which must be the identity's. *)
Definition differs l admin_password user password sub (id : Z) (changes : list (string * Value)) : Prop := ∃ u refused,
  answered l (user_req env admin_password user) u ∧ linked u = sub ∧ value_as_i64 (u.["id"]) = Some id ∧ judged l user password refused ∧ changes = changes_for u refused password.
Inductive due l : Act → Prop :=
  | f_keycloak base password : due l (Http (admin_login env base false password))
  | f_create admin_password user password kc : absent l admin_password user → told_user env l kc → due l (Http (create_req env admin_password user password (sub kc)))
  | f_update admin_password user password kc id changes : told_user env l kc → differs l admin_password user password (sub kc) id changes → changes ≠ [] →
      due l (Http (changes_req env admin_password id changes))
  | f_sign_in ui page token user password : showed l (mkUi (mf_base env) []) "/" page ui → csrf page = Some token → due l (Http (form_req ui "/login" (login_form token user password)))
  | f_fever ui0 ui page token user password : showed l ui0 "/integrations" page ui → contains fever_on page && contains (fever_named user) page = false →
      csrf page = Some token → due l (Http (form_req ui "/integration" (fever_form page token user password))).
Definition quiet (x : Act) : Prop := match x with Http rq => rq_method rq = "GET" | ReadFile _ | Sleep _ => True | _ => False end.
Definition allowed l (x : Act) : Prop := quiet x ∨ due l x.
(** The account is linked to an identity that was looked up, an admin and on the generated password, or has just been made so. *)
Definition account_set l user password : Prop := ∃ admin_password kc, told_user env l kc ∧ (accepted l (create_req env admin_password user password (sub kc)) ∨
  ∃ id changes, differs l admin_password user password (sub kc) id changes ∧ (changes = [] ∨ accepted l (changes_req env admin_password id changes))).
Definition fever_seen l : Prop := ∃ ui page ui', showed l ui "/integrations" page ui' ∧ contains fever_on page = true.
Definition set_up l : Prop := (∃ password, account_set l (var env "OIDC_USERNAME" "tristan") password) ∧ fever_seen l.

Notation okay := (Trace.okay Ans allowed (St := list string) (Fa := string)).
Lemma showed_later l l' ui path page ui' : l `prefix_of` l' → showed l ui path page ui' → showed l' ui path page ui'.
Proof. intros [k ->] (r & Hin & Hr). exists r. split; [apply elem_of_app; by left|done]. Qed.
Lemma judged_later l l' user password refused : l `prefix_of` l' → judged l user password refused → judged l' user password refused.
Proof. intros [k ->] (r & Hin & Hr). exists r. split; [apply elem_of_app; by left|done]. Qed.
Lemma differs_later l l' admin_password user password sub id changes : l `prefix_of` l' → differs l admin_password user password sub id changes → differs l' admin_password user password sub id changes.
Proof. intros Hl (u & b & Hu & Hs & Hi & Hj & E). exists u, b. split_and!; [by eapply answered_later|done|done|by eapply judged_later|done]. Qed.
Lemma mf_account_later l l' user password : l `prefix_of` l' → account_set l user password → account_set l' user password.
Proof.
  intros Hl (ap & kc & Ht & Hs). exists ap, kc. split; [by eapply told_user_later|]. destruct Hs as [Ha|(id & ch & Hd & Hc)]; [left; by eapply accepted_later|right].
  exists id, ch. split; [by eapply differs_later|]. destruct Hc as [?|Hc]; [by left|right; by eapply accepted_later].
Qed.

Lemma ui_get_ok ui path l : okay (ui_get ui path) (λ x l', showed l' ui path x.1 x.2) l.
Proof.
  unfold ui_get. eapply okay_then; [apply request_ok; by left|]. intros r l1 _ ->. cbv zeta. eapply okay_then; [apply ok_ok|]. intros r' l2 _ (-> & -> & Hs).
  destruct (rs_text r) as [t|e] eqn:Et; [|apply okay_raise]. apply okay_ret. exists r. split_and!; [apply elem_of_app; right; by left|done|done|done].
Qed.
Lemma ui_post_ok ui path form l : due l (Http (form_req ui path form)) → okay (ui_post ui path form) (λ _ _, True) l.
Proof. intros Hd. unfold ui_post. eapply okay_then; [apply request_ok; by right|]. intros r l1 _ _. by apply okay_ret. Qed.
Lemma need_csrf_ok html l : okay (need_csrf html) (λ t l', csrf html = Some t ∧ l' = l) l.
Proof. apply need_ok. Qed.
Lemma mf_sign_in_ok user password l : okay (sign_in env user password) (λ _ _, True) l.
Proof.
  unfold sign_in. eapply okay_then; [apply ui_get_ok|]. intros [page ui] l1 _ Hp. cbn [fst snd] in Hp. eapply okay_then; [apply need_csrf_ok|]. intros token ? _ [Ec ->].
  eapply okay_then; [apply ui_post_ok; by eapply f_sign_in|]. intros [r ui2] l2 _ _. cbn match beta. destruct (_ || _); [by apply okay_ret|apply okay_raise].
Qed.
Lemma ensure_fever_ok user password l : okay (ensure_fever env user password) (λ _ l', fever_seen l') l.
Proof.
  unfold ensure_fever. eapply okay_then; [apply mf_sign_in_ok|]. intros ui l1 _ _. eapply okay_then; [apply ui_get_ok|]. intros [page ui1] l2 _ Hp. cbn [fst snd] in Hp. cbn match beta.
  destruct (_ && _) eqn:Eon.
  { apply say_ok. exists ui, page, ui1. split; [done|]. by apply andb_true_iff in Eon as [? _]. }
  eapply okay_then; [apply need_csrf_ok|]. intros token ? _ [Ec ->]. eapply okay_then; [apply ui_post_ok; by eapply f_fever|]. intros [r ui2] l3 _ _. cbn match beta.
  destruct (negb _); [apply okay_raise|]. eapply okay_then; [apply ui_get_ok|]. intros [page' ui3] l4 _ Hp'. cbn [fst snd] in Hp'. cbn match beta.
  destruct (contains fever_on page') eqn:E; [|apply okay_raise]. apply say_ok. by exists ui2, page', ui3.
Qed.
Lemma settle_ok admin_password user password kc u l : told_user env l kc → answered l (user_req env admin_password user) u →
  okay (settle_user env admin_password user password (sub kc) u) (λ _ l', account_set l' user password) l.
Proof.
  intros Hkc Hu. unfold settle_user. destruct (String.eqb_spec (linked u) (sub kc)) as [El|]; cbn [negb]; [|apply okay_raise].
  eapply okay_then; [apply need_ok|]. intros id ? _ [Ei ->]. eapply okay_then; [apply request_ok; by left|]. intros me l1 Hl1 E1. eapply okay_then.
  { instantiate (1 := λ refused l', l' = l1 ∧ bool_decide (rs_status me = 401%N) = refused ∧ (refused = false → is_success (rs_status me) = true)).
    case_bool_decide; [by apply okay_ret|]. eapply okay_then; [apply ok_ok|]. intros ? ? _ (-> & -> & Hs). by apply okay_ret. }
  intros refused ? _ (-> & Er & Hs). cbv zeta.
  assert (differs l1 admin_password user password (sub kc) id (changes_for u refused password)) as Hd.
  { exists u, refused. split_and!; [by eapply answered_later|done|done| |done]. exists me. rewrite E1. split; [apply elem_of_app; right; by left|done]. }
  assert (told_user env l1 kc) as Hkc' by (by eapply told_user_later). destruct (bool_decide (changes_for u refused password = [])) eqn:Ech; [apply bool_decide_eq_true in Ech|apply bool_decide_eq_false in Ech].
  - apply say_ok. exists admin_password, kc. split; [done|right]. exists id, (changes_for u refused password). split; [done|by left].
  - eapply okay_then; [apply request_ok; right; by eapply f_update|]. intros r l2 Hl2 E2. eapply okay_then; [apply ok_ok|]. intros ? ? _ (-> & -> & Hok). apply say_ok.
    exists admin_password, kc. split; [by eapply told_user_later|right]. exists id, (changes_for u refused password). split; [by eapply differs_later|right].
    exists r. rewrite E2. split; [apply elem_of_app; right; by left|done].
Qed.
Lemma ensure_user_ok admin_password user password kc l : told_user env l kc → okay (ensure_user env admin_password user password (sub kc)) (λ _ l', account_set l' user password) l.
Proof.
  intros Hkc. unfold ensure_user. eapply okay_then; [apply request_ok; by left|]. intros r l1 Hl1 E1. assert (told_user env l1 kc) as Hkc' by (by eapply told_user_later).
  case_bool_decide as E404.
  - eapply okay_then; [apply request_ok; right; apply f_create; [|done]|].
    { exists r. rewrite E1. split; [apply elem_of_app; right; by left|done]. }
    intros r2 l2 Hl2 E2. eapply okay_then; [apply ok_ok|]. intros ? ? _ (-> & -> & Hok). apply say_ok. exists admin_password, kc. split; [by eapply told_user_later|left].
    exists r2. rewrite E2. split; [apply elem_of_app; right; by left|done].
  - eapply okay_then; [apply ok_ok|]. intros ? ? _ (-> & -> & Hok). eapply okay_then; [apply json_body_ok|]. intros u ? _ (-> & Ht). apply settle_ok; [done|].
    exists r. rewrite E1. split; [apply elem_of_app; right; by left|done].
Qed.
Lemma miniflux_run_ok l : okay (run env) (λ _ l', set_up l') l.
Proof.
  unfold run. eapply okay_then; [apply secret_okay; intros; by left|]. intros ap l1 _ _. cbv zeta. eapply okay_then; [apply secret_okay; intros; by left|]. intros password l2 _ _.
  eapply okay_then. { apply (retry_ok allowed _ _ _ (λ _ _, True)); [intros; by left|]. intros l' _. eapply okay_mono; [apply commanded_ok; by left|done]. }
  intros ? l3 _ _. eapply okay_then; [apply user_ok; [intros; by left..|intros; right; apply f_keycloak]|]. intros kc l4 _ Hkc. cbn beta in Hkc.
  eapply okay_then; [by apply ensure_user_ok|]. intros ? l5 _ Ha. cbn beta in Ha. eapply okay_mono; [apply ensure_fever_ok|]. intros ? l6 Hl6 Hf.
  split; [|done]. exists password. by eapply mf_account_later.
Qed.

(** Whatever Miniflux and Keycloak answer, a run creates the account only after a 404, changes only what differs of one that is linked
    to the identity that was looked up, and posts the integrations form exactly as the page it was shown says, but for Fever's
    fields, with the cookies that page came with, and not where Fever is on in the user's name. A run that ends well leaves the
    account linked, an admin and on the generated password, and was shown Fever on. *)
Theorem miniflux_due outside out l : ∃ k, (exec Ans outside (run env out) l).1 = l ++ k ∧
  (∀ k1 e k2, k = k1 ++ e :: k2 → quiet (e_act e) ∨ due (l ++ k1) (e_act e)) ∧
  ∀ out', (exec Ans outside (run env out) l).2 = Ok (out', Ok ()) → set_up (l ++ k).
Proof.
  destruct (exec_holds Ans allowed outside _ _ _ (miniflux_run_ok l out)) as [HQ (k & Ek & Hk)]. exists k. split; [exact Ek|]. split; [exact Hk|].
  intros out' E. rewrite E in HQ. rewrite <- Ek. by destruct HQ.
Qed.
End due.
